(* ===== verification/_CoqProject ===== *)
-Q . S2P
Prelude.v
Bits.v
Codecvt.v
Unicode.v
Utf8.v
Utf16.v
Utf8Utf16.v
Facets.v
HashPrime.v
Regex.v
Guard.v
Monitor.v
Mutex.v
Thread.v
SharedPtr.v
Future.v
Memory.v
ChainTable.v
DebugDb.v
DebugDbFacts.v
IosBase.v
Strstream.v
Dwarf.v
TypeInfo.v
Handlers.v
Exceptions.v
Text.v
StringConv.v
Number.v
Money.v
TimeFormat.v
Locale.v
LocaleFacts.v
LocaleSafe.v
DemangleData.v
DemangleFp.v
Demangle.v
DemangleSafe.v
DemangleNames.v
MsgBuf.v
IOStream.v
Config.v
MsgFilter.v
Line.v
Length.v
AutoFlush.v
Logger.v
Util.v
Tcp.v
SysvMq.v
Tee.v
SubDir.v
Relay.v
Listen.v
Sub.v
Count.v
Record.v
Dump.v
Metric.v
Pub.v
Reporter.v
Producer.v
Delivery.v
Connector.v
