(* ===== verification/Prelude.v ===== *)
(** * wissbi: a verified model of the message bus and of its C++ runtime

    wissbi is a message bus of small C++ programs.  [wissbi-pub] reads messages
    from its standard input and puts each on a System V message queue per
    subscriber group; a thread per subscriber takes them off and sends them over
    TCP.  [wissbi-sub] announces itself by a file in a shared directory, accepts
    the publishers' connections, collects their messages in a queue of its own and
    writes them to its standard output.  [wissbi-record] and [wissbi-count] are
    filters for pipelines.  Every one of them is built from [MsgFilter], a loop
    that gets a message from an input policy, shows it to three installed
    functions and puts it on an output policy.  The repository carries the C++
    runtime the programs are linked with, libc++ and libcxxrt under
    [src/3rd_party]; its parts that decide what a program may rely on are modelled
    too.

    ** The parts and their files

    This file has what all others share: bytes, machine integers, the outcomes of
    an execution (a value, an exception, a failed [assert], undefined behaviour, a
    call that waits for another thread or process) and computations over a state,
    which keep the state when they end badly.

    - [Text], [IOStream]: the parts of the C++ library the code uses, as the
      standard describes them ([std::string] searching and cutting, printing and
      reading of integers, [getline], [read], the state bits of a stream);
    - [MsgBuf]: [msg_buf.hpp], the buffer with its 4096 bytes;
    - [MsgFilter]: [msg_filter.hpp].  [IOPolicy] is the interface of a policy;
      [MessageSource] and [MessageSink] are what an input and an output policy
      promise, and the lemmas on [FilterLoop] use nothing else;
    - [Line], [Length]: [io_policy/iostream_base.hpp], [line.hpp], [length.hpp]
      and [string.hpp]; both sides discharge the contracts;
    - [AutoFlush]: the flushing threads of [iostream_base.hpp], over streams whose
      buffer is apart from the device, refined to streams without one;
    - [Tcp]: [io_policy/tcp.hpp], over the socket calls [SocketOps] with the laws
      of a connected stream, [StreamLaws]; a discharge of both contracts;
    - [SysvMq]: [io_policy/sysv_mq.hpp], over the calls [MqOps] with the laws
      [MqLaws]; refined to a FIFO that may refuse a message ([fifo_step]);
    - [Tee]: [io_policy/tee.hpp], over shared branch objects; a [Tee] is a sink
      whose branches each have a part of the input, in order;
    - [Logger], [Util]: [logger.hpp] and [util.hpp];
    - [SubDir]: [sub_entry.hpp] and [sub_dir.hpp], over the file system [FsOps]
      with its laws [FsLaws];
    - [Relay]: the filter between sources and sinks, and the stream policies under
      it;
    - [Metric]: [filter_metric.hpp] and [metric_reporter.hpp];
    - [Producer]: the thread function inside [Connector::ConnectorLoop], alone, as
      the [MsgFilter] over the queue and socket policies that it is;
    - [Connector]: [connector.hpp], the interleaving of the connector's thread,
      its producers and the publisher's main thread.  A label names the next
      access to shared state and what the environment answered; [step] is
      executable, [reachable] closes it;
    - [Config]: arguments and environment of the [main] functions;
    - [Pub]: [sleep_while] and the main thread of [run] in [pub.cpp]; [Reporter]:
      its reporter thread beside the main thread's last report, step by step;
    - [Listen]: what [run_sub] in [sub.cpp] does before its threads start, over the
      calls [ListenOps] with their laws [ListenLaws];
    - [Sub]: its accept loop, its consumers and its output thread;
    - [Delivery]: the stages a message passes, put together;
    - [Count], [Record], [Dump]: [count.cpp] and [record.cpp], whose exit handler
      is in [Dump], over the file calls [DumpOps].

    Of the runtime:

    - [Bits], [Memory]: bit operations and blocks of memory, cell by cell;
    - [Codecvt], [Unicode], [Utf8], [Utf16], [Utf8Utf16], [Facets]: the conversions
      between UTF-8, UTF-16, UCS-2 and UCS-4 in libcxx's [locale.cpp].  [Codecvt]
      has the loops all of them share, [Unicode] what they must agree with, the
      next three their bodies, [Facets] the facets over them, as a class of
      converters whose laws each instance discharges;
    - [HashPrime]: [hash.cpp], the sizes of hash tables;
    - [Regex]: [regex.cpp], the names of characters and classes, and the errors;
    - [IosBase]: [ios.cpp], the stream base with its arrays of words and callbacks;
    - [Strstream]: [strstream.cpp], over the functions of [streambuf] that call it;
    - [StringConv]: [string.cpp], numbers from and to strings;
    - [Number]: the helpers of [locale.cpp] for the numbers of streams, with [num_put]
      and [num_get]; [Money]: those for money, with [moneypunct_byname] and [money_put];
      [TimeFormat]: those for dates and times, with the analysis of a locale's formats;
    - [Locale]: the class [locale] of [locale.cpp], tables of counted facets that locales
      share; [LocaleFacts], what each operation does to the counts; [LocaleSafe], what
      programs can reach;
    - [ChainTable], [DebugDb], [DebugDbFacts]: [debug.cpp], the database of the debug
      mode: two hash tables over nodes in memory, refined to a map;
    - [Guard]: libcxxrt's [guard.cc], the guards of function-local statics, as a
      step relation of any number of threads, for both ABIs;
    - [Monitor]: threads over a mutex and a condition variable, for a class whose
      operations are given as [MonitorOps]; [Mutex]: such classes of [mutex.cpp],
      with [call_once];
    - [Thread]: [thread.cpp], [condition_variable.cpp] and [chrono.cpp] with the
      mutexes that are one pthread mutex, over the calls [PthreadOps];
    - [SharedPtr]: [memory.cpp], the counts of shared pointers, access by access;
    - [Future]: [future.cpp], the state behind its mutex as a [Monitor], and the
      promises, futures and ending threads that hold it;
    - [Dwarf]: [dwarf_eh.h], the numbers and tables of exception handling;
    - [TypeInfo]: [typeinfo.h] and [dynamic_cast.cc], casts and catching;
    - [Handlers]: the personality function of [exception.cc], over the last two;
    - [Exceptions]: the rest of [exception.cc], the life of exception objects.  A
      program is the calls a compiler makes; [allowed] is when the language lets it
      make them, [reachable] closes them;
    - [DemangleData], [DemangleFp], [Demangle]: libcxxrt's demangler of names
      ([libelftc_dem_gnu3.c], and [__cxa_demangle] of [typeinfo.cc]): its vectors of
      strings and its state, the literals of floating-point numbers, and the readers,
      which call each other through [run]; [DemangleSafe]: that every name is read to an
      end, within the vectors; [DemangleNames]: the names of functions, which are read
      back.

    A definition has the name of the function it models; a method of a class is
    [<Class>_<method>] where the bare name is taken.  A policy object's fields are
    those of the class.

    ** What the theorems show

    - Messages arrive: [published_is_output] takes a publisher's input to a
      subscriber's output through every stage.  [publisher_fans_out] is the stage
      from the input to the branches, [producer_iteration] and
      [producer_stops_at_empty] the one to the connection, [tcp_roundtrip] the
      wire, [consumer_relays] the subscriber's queue and [writer_outputs] its
      output.  [messages_conserved] accounts for every message of a queue in every
      interleaving of the publisher's threads.
    - Subscribers are found and served: [sub_announces_its_port],
      [subscribers_discovered], [subscriber_leaves_and_renews],
      [pass_starts_missing], [one_producer_per_subscriber], [accept_loop_serves];
      [mq_init_shares_queue], that who asks for the queue of a name gets the same one.
    - The components keep their contracts: [sysv_mq_fifo],
      [tee_put_every_branch], [filter_loop_relays], the round trips of
      [Util], [metric_counts_conserved], [report_publishes], [record_keeps_last],
      [record_collected], [count_copies_and_counts].
    - Threads beside the main one: [auto_flush_refines], [auto_flush_shows];
      [reports_accounted] for reports that do not overlap, [reports_collide] for
      those that do.
    - What ends: [run_returns]; and a theorem on a [FilterLoop] says that the loop
      returns, or, for a queue on which it would wait, where it is after a number of
      iterations ([runs_to]).
    - Text survives conversion: [facet_roundtrip]; what is accepted is well formed,
      [facet_in_sound], and what is written is, [facet_out_sound]; [utf8_table]
      compares with the table of the standard, [facet_length] the counting with the
      converting, [facet_max_length] and [facet_units] bound the two.
    - The runtime's containers and streams: [next_prime_least] and
      [next_prime_overflow]; [iword_keeps], [callbacks_newest_first] and
      [copyfmt_all_or_nothing]; [array_in_bounds], that no use of a string stream
      over an array of an [int]'s size leaves it, and [dynamic_queue], that one over memory of its own
      is a queue up to its first array's size; [stoi_outcomes] and
      [to_string_roundtrip].
    - Numbers and money: [number_roundtrip] over every base and grouping,
      [grouping_checked], [number_padded], [number_put_bounds]; [stream_numbers], that
      the programs' numbers are those of [Text]; [patterns_valid], [money_text] against
      the C standard's rules, [money_in_parens], [money_value], [money_put_bounds],
      [wide_money].
    - Dates and times: [scan_keyword_longest], the search for a keyword against the longest
      prefix of the input; [analyze_roundtrip], that a format is found again from what it
      prints; [analyze_terminates], [analyze_empty_name_loops] and
      [do_date_order_first_three].
    - Locales: [locales_safe], that no order of making, mixing, copying and dropping them
      uses what is freed, and that a locale has a facet of the right class; [locale_mixes],
      whose facets a mixed locale has; [locales_freed], that with enough memory nothing is
      lost, and [locale_facet_leaks], without.
    - Regular expressions: [collation_names] and [class_names], the binary searches
      against the tables; [class_is_word].
    - A static is constructed once, [static_constructed_once], and every thread can
      get to it, [static_reachable].
    - Threads of the runtime: [timed_mutex_exclusive],
      [recursive_timed_mutex_exclusive] and [call_once_once], for every
      interleaving, with no wakeup lost; [sleep_for_exact], [timed_wait_times],
      [steady_clock_steady], [time_t_roundtrip]; [thread_let_go],
      [recursive_mutex_made].  Shared pointers: [shared_ptr_counted]; [align_first]
      and [sp_lock_tries].  Futures: [future_set_once], [promise_kept],
      [deferred_once].
    - The debug mode: [debug_db_linearizable], [debug_db_destroyed]; and what is left
      without memory, [debug_db_out_of_memory], [iterator_copy_out_of_memory];
      [insert_c_races], what two threads may do to one container's node, which is
      constructed after the lock is given back.
    - Exceptions: [exceptions_safe], that no order of throwing, catching,
      rethrowing and sharing uses or frees a freed exception; [exceptions_counted],
      that each lives as long as it has owners; [emergency_buffers].  Finding a
      handler: [leb128_roundtrip], [leb128_limits], [callsite_found], the parsing
      and the search against a list of sites; [upcast_finds],
      [dynamic_cast_finds] and [pointer_catch], against the parts of an object;
      [handler_search], against the clauses of a [try]; [two_phases], that what the
      first phase finds the second enters; [uncovered_terminates].
    - Names: [demangle_function], that the mangled name of a function gives the function
      again; [demangle_terminates], that the demangler ends for every input, at an answer
      or at a failed assertion, and stores nothing outside its vectors; [demangle_misprints], [demangle_refuses] and
      [demangle_breaks], the names it reads otherwise.
    - Errors and limits, as they are: [tcp_get_overflow], [tcp_get_truncated],
      [length_header_unchecked], [line_too_long_ends_input],
      [forgotten_subscriber], [pending_counter_accounts],
      [publisher_drops_unheard], [log_wrong_arity], [mq_init_unnamed],
      [SubEntry_new_outcomes], [record_signal_deadlocks], [exit_dump],
      [signal_loses_dump], [reporter_outlives_run], [config_numbers].

    ** Parameters, bounds and fuel

    System calls, the address conversions of the C library, the clock and the
    traversal order of an [unordered_map] are type classes or section variables;
    their laws state documented behaviour, and each is instantiated by a concrete
    host ([PipeHost], [ListenHost], [SimKernel], [SimFs], [MapOrder], [DottedQuad]) on which the
    witnesses run.  Two functions print floating-point numbers: the rate of
    [wissbi-count] is a parameter, and [int(log10(size)) + 2] is the length of the
    decimal header, which it equals for every [int].

    [FilterLoop] and [sleep_while] take fuel and give [None] while they run; the
    theorems give a fuel that is enough.  [ReadAll] and [WriteAll] use the size of
    the buffer as fuel, since each round moves a byte.  [next_prime]
    returns with twice a prime above its argument as fuel, for its divisions too;
    [as_string] two rounds for narrow strings and one for wide ones, which its
    theorem shows to be enough; [read_leb128] ten digits, where the assertion of the
    code stops; [callsite_loop] and the loops of [Handlers] the length of the tables;
    [release_fuel] and [free_exception_list] the number of exceptions, beyond which
    a recursion would not end.  The readers of the demangler call each other no deeper than
    twice the length of the name and two, and their loops to a limit of the code's own.  A conversion recurs over its input.

    Whether an allocation succeeds, and where, is an argument of the operations that
    allocate ([Memory], [IosBase], [Strstream], [Exceptions], [DebugDb]), in the demangler a
    function of its size, for locales of its number; the allocation of a
    thread's information always succeeds.  The bytes of the tables, the pointers in
    memory, the descriptions at addresses and the frame's registers are functions
    ([mem], [load_ptr], [types], [context]); [strtol] and [snprintf] are those of the
    C locale, [strtod] and its kin, callbacks and destructors are parameters.  A [size_t] is 64 bits, an
    [int] and an [unsigned] 32; counters wrap where the code's do, and signed
    overflow is undefined behaviour.

    ** What is not modelled

    [Connector] takes each access to [producer_set] and to the branch map as atomic,
    and [Reporter] each use of the filter of the metric messages, although the code
    does not lock them.  What a thread does after the objects of [run] or [run_sub]
    are gone is followed to its first use of them.  A receive from an empty queue and
    a send to a full one end a computation with [Waits] and leave the state alone;
    the theorems on the programs' threads say when that happens, or assume the room
    that excludes it.  In the step relations a call that waits is a step that has not
    been taken.  The naps of [sleep_while] may be cut short by signals: that some number
    of them in a row takes the time of one is assumed ([paced]).

    Of [locale.cpp]: the facets other than the conversions named, so
    [codecvt<wchar_t, char, mbstate_t>], which calls the C library, floating point,
    the reading of money, and the reading of dates.  Of libc++ further:
    random numbers, and the files that only define destructors or messages.  Of
    libcxxrt: the variants for ARM, the guards apart.  [exception.cc] calls the
    unwinder, which is not in the repository: a throw ends where it is called, and
    what it prints of an uncaught exception is left out.  Scripts, bindings,
    packaging and the archives of test libraries are no part of the programs. *)

From Stdlib Require Export Ascii ZArith Lia.
From stdpp Require Export gmap strings list fin_maps.

#[global] Open Scope Z_scope.

(** ** Bytes *)

(** A [std::string] or a run of [char]s is the list of its characters. *)
Abbreviation bytes := (list ascii).

Definition str (s : string) : bytes := String.list_ascii_of_string s.

Definition NUL : ascii := "000".
Definition LF : ascii := "010".
Definition SPACE : ascii := " ".

(** The unsigned value of a byte, and the byte that holds a value. *)
Definition byte_val (c : ascii) : Z := Z.of_N (N_of_ascii c).
Definition byte_of (z : Z) : ascii := ascii_of_N (Z.to_N (z mod 256)).

(** ** Machine integers *)

Definition wrap (w z : Z) : Z := z mod 2 ^ w.

(** [size_t] is 64 bits wide; [npos] is its largest value. *)
Definition size_wrap (z : Z) : Z := wrap 64 z.
Definition npos : Z := 2 ^ 64 - 1.
Definition INT_MAX : Z := 2 ^ 31 - 1.
Definition INT_MIN : Z := - 2 ^ 31.

Definition zlen {A} (l : list A) : Z := Z.of_nat (length l).

(** ** Outcomes and effectful computations *)

(** The undefined behaviours the code can reach. *)
Inductive ub :=
  | BufferOverflow     (** a store past the end of an array *)
  | BufferOverread     (** a load past the end of an array *)
  | BeforeBegin        (** an iterator moved before [begin()] *)
  | EndDeref           (** [*end()] *)
  | MissingReturn      (** flowing off the end of a non-void function *)
  | NegativeCount      (** a negative [streamsize] *)
  | FloatToInt         (** a float with no [int] value converted to [int] *)
  | SignedOverflow     (** a signed integer out of its range *)
  | DataRace           (** accesses by two threads that nothing orders *)
  | ShiftCount         (** a shift by the width of the type or more *)
  | SelfDeadlock       (** locking a [std::mutex] the thread already owns *)
  | DanglingReference  (** use of a reference to a destroyed object *)
  | UninitRead         (** use of a variable nothing was stored in *)
  | NullDeref          (** use of a null or never-set pointer *)
  | InvalidFree        (** [free] of what [malloc] did not return *)
  | DivideByZero       (** a division or a remainder by zero *)
  | StackOverflow.     (** a recursion without end *)

#[export] Instance ub_eq_dec : EqDecision ub.
Proof. solve_decision. Defined.

(** Where an execution gets to: it ends with a value, with an exception, on a
    failed [assert] or in undefined behaviour, or it waits in a call that does not
    return as long as the world stays as it is. *)
Inductive outcome (A : Type) :=
  | Ret (a : A)
  | Throw (what : bytes)
  | AssertFailed
  | Undef (why : ub)
  | Waits.
Arguments Ret {A} a.
Arguments Throw {A} what.
Arguments AssertFailed {A}.
Arguments Undef {A} why.
Arguments Waits {A}.

(** A computation over a state [W]; the state is kept when it ends badly, since
    what an exception leaves behind (a locked mutex, a half-filled buffer)
    matters. *)
Definition comp (W A : Type) : Type := W → outcome A * W.

Definition cret {W A} (a : A) : comp W A := λ w, (Ret a, w).
Definition cthrow {W A} (what : bytes) : comp W A := λ w, (Throw what, w).
Definition cundef {W A} (why : ub) : comp W A := λ w, (Undef why, w).
Definition cget {W} : comp W W := λ w, (Ret w, w).
Definition cput {W} (w : W) : comp W unit := λ _, (Ret tt, w).
Definition cmodify {W} (f : W → W) : comp W unit := λ w, (Ret tt, f w).

Definition cbind {W A B} (m : comp W A) (k : A → comp W B) : comp W B :=
  λ w, match m w with
       | (Ret a, w') => k a w'
       | (Throw what, w') => (Throw what, w')
       | (AssertFailed, w') => (AssertFailed, w')
       | (Waits, w') => (Waits, w')
       | (Undef why, w') => (Undef why, w')
       end.

Declare Scope comp_scope.
Delimit Scope comp_scope with comp.
Notation "'let*' x ':=' c1 'in' c2" := (cbind c1 (λ x, c2))
  (at level 10, x pattern, c1 at level 100, c2 at level 200) : comp_scope.
Notation "c1 ';;;' c2" := (cbind c1 (λ _, c2))
  (at level 100, right associativity) : comp_scope.
#[global] Open Scope comp_scope.

(** A pure result used inside a computation. *)
Definition clift {W A} (o : outcome A) : comp W A := λ w, (o, w).

(** Running a computation of a part of the state: a lens is a projection with
    its update. *)
Definition zoom {W V A} (get : W → V) (set : V → W → W) (m : comp V A)
  : comp W A :=
  λ w, let '(o, v) := m (get w) in (o, set v w).

Lemma cbind_ret {W A B} (m : comp W A) (k : A → comp W B) w a w' :
  m w = (Ret a, w') → cbind m k w = k a w'.
Proof. unfold cbind. now intros ->. Qed.

Lemma cbind_undef {W A B} (m : comp W A) (k : A → comp W B) w u w' :
  m w = (Undef u, w') → cbind m k w = (Undef u, w').
Proof. unfold cbind. now intros ->. Qed.

Lemma cbind_throw {W A B} (m : comp W A) (k : A → comp W B) w e w' :
  m w = (Throw e, w') → cbind m k w = (Throw e, w').
Proof. unfold cbind. now intros ->. Qed.

Lemma cbind_waits {W A B} (m : comp W A) (k : A → comp W B) w w' :
  m w = (Waits, w') → cbind m k w = (Waits, w').
Proof. unfold cbind. now intros ->. Qed.

Lemma zoom_eq {W V A} (get : W → V) set (m : comp V A) w o v :
  m (get w) = (o, v) → zoom get set m w = (o, set v w).
Proof. unfold zoom. now intros ->. Qed.

(** ** Proof automation *)

(** [wissbi] resolves side conditions on lengths and bounds; [wissbi_rw]
    normalises list lengths and byte conversions. *)
Create HintDb wissbi.
Create Rewrite HintDb wissbi_rw.

(** Steps through a bound computation whose head has just been computed. *)
Ltac cstep := erewrite cbind_ret by eassumption; cbn beta.

(** Splits every [if]/[match] of the goal and closes the impossible branches. *)
Ltac case_all :=
  repeat (case_match; simplify_eq/=; try done).

(** ** Generic lemmas *)

Section generic.
Context {A : Type}.
Implicit Types l k : list A.

Lemma zlen_nonneg l : 0 ≤ zlen l.
Proof. unfold zlen. lia. Qed.

Lemma zlen_nil : zlen (@nil A) = 0.
Proof. done. Qed.

Lemma zlen_cons x l : zlen (x :: l) = 1 + zlen l.
Proof. unfold zlen. cbn. lia. Qed.

Lemma zlen_app l k : zlen (l ++ k) = zlen l + zlen k.
Proof. unfold zlen. rewrite length_app. lia. Qed.

Lemma zlen_zero l : zlen l = 0 → l = [].
Proof. unfold zlen. destruct l; cbn; [done|lia]. Qed.

Lemma to_nat_zlen l : Z.to_nat (zlen l) = length l.
Proof. unfold zlen. lia. Qed.

Lemma take_zlen_app l k : take (Z.to_nat (zlen l)) (l ++ k) = l.
Proof. rewrite to_nat_zlen. apply take_app_length. Qed.

Lemma drop_zlen_app l k : drop (Z.to_nat (zlen l)) (l ++ k) = k.
Proof. rewrite to_nat_zlen. apply drop_app_length. Qed.

End generic.

(** A history against a sequential specification. *)
Section replay.
Context {S E : Type} (spec_step : S → E → option S) (s0 : S).

Definition replay (h : list E) : option S := foldl (λ o e, s ← o; spec_step s e) (Some s0) h.

Lemma replay_snoc h e : replay (h ++ [e]) = (s ← replay h; spec_step s e).
Proof. unfold replay. by rewrite foldl_app. Qed.

Lemma replay_snoc_Some h e s' :
  replay (h ++ [e]) = Some s' → ∃ s, replay h = Some s ∧ spec_step s e = Some s'.
Proof. rewrite replay_snoc. destruct (replay h) as [s|]; [|done]. eauto. Qed.
End replay.

(** A function changed at one argument, such as what each thread is at. *)
Definition upd {A} `{EqDecision A} {B} (a : A) (b : B) (f : A → B) : A → B :=
  λ x, if decide (x = a) then b else f x.

Lemma upd_eq {A} `{EqDecision A} {B} (a : A) (b : B) f : upd a b f a = b.
Proof. unfold upd. by rewrite decide_True. Qed.

Lemma upd_ne {A} `{EqDecision A} {B} (a a' : A) (b : B) f : a' ≠ a → upd a b f a' = f a'.
Proof. intros. unfold upd. by rewrite decide_False. Qed.

#[export] Hint Resolve zlen_nonneg : wissbi.
#[export] Hint Rewrite @zlen_cons @zlen_app @zlen_nil @to_nat_zlen
  @take_zlen_app @drop_zlen_app : wissbi_rw.

(** Bytes hold exactly the values below 256. *)
Lemma byte_val_range c : 0 ≤ byte_val c < 256.
Proof.
  unfold byte_val. pose proof (N_ascii_bounded c). lia.
Qed.

Lemma byte_val_of z : byte_val (byte_of z) = z mod 256.
Proof.
  unfold byte_val, byte_of.
  pose proof (Z.mod_pos_bound z 256 ltac:(lia)).
  rewrite N_ascii_embedding by lia. lia.
Qed.

Lemma byte_of_val c : byte_of (byte_val c) = c.
Proof.
  unfold byte_val, byte_of. pose proof (N_ascii_bounded c).
  rewrite Z.mod_small by lia. rewrite N2Z.id. apply ascii_N_embedding.
Qed.
#[export] Hint Rewrite byte_val_of byte_of_val : wissbi_rw.
#[export] Hint Resolve byte_val_range : wissbi.

Lemma wrap_range w z : 0 ≤ w → 0 ≤ wrap w z < 2 ^ w.
Proof. intros. apply Z.mod_pos_bound. apply Z.pow_pos_nonneg; lia. Qed.

Lemma wrap_small w z : 0 ≤ z < 2 ^ w → wrap w z = z.
Proof. apply Z.mod_small. Qed.

Lemma wrap_add_l w a b : wrap w (wrap w a + b) = wrap w (a + b).
Proof. unfold wrap. apply Zplus_mod_idemp_l. Qed.

Lemma wrap_add_r w a b : wrap w (a + wrap w b) = wrap w (a + b).
Proof. unfold wrap. apply Zplus_mod_idemp_r. Qed.

Lemma wrap_sub_l w a b : wrap w (wrap w a - b) = wrap w (a - b).
Proof. unfold wrap. apply Zminus_mod_idemp_l. Qed.
#[export] Hint Rewrite wrap_add_l wrap_add_r wrap_sub_l : wissbi_rw.

Lemma npos_succ : size_wrap (npos + 1) = 0.
Proof. reflexivity. Qed.
