(* ===== verification/Bits.v ===== *)
(** * Bits: bit operations on machine words

    The notations of the bit operators, casts to a width, and what masks and
    shifts compute, as quotients and remainders. *)

From S2P Require Import Prelude.

(** ** Notations *)

Declare Scope bits_scope.
Delimit Scope bits_scope with bits.
Infix ".&" := Z.land (at level 45, left associativity) : bits_scope.
Infix ".|" := Z.lor (at level 48, left associativity) : bits_scope.
Infix ">>" := Z.shiftr (at level 43, left associativity) : bits_scope.
Infix "<<" := Z.shiftl (at level 43, left associativity) : bits_scope.
#[global] Open Scope bits_scope.

(** [static_cast] to an unsigned type, and to [int]. *)
Definition u8 (z : Z) : Z := wrap 8 z.
Definition u16 (z : Z) : Z := wrap 16 z.
Definition u32 (z : Z) : Z := wrap 32 z.
Definition int_cast (z : Z) : Z := (z + 2 ^ 31) mod 2 ^ 32 - 2 ^ 31.

(** ** Ranges *)

Definition in_bits (w z : Z) : Prop := 0 ≤ z < 2 ^ w.

Lemma u8_small z : 0 ≤ z < 256 → u8 z = z.
Proof. apply Z.mod_small. Qed.

Lemma u16_small z : 0 ≤ z < 65536 → u16 z = z.
Proof. apply Z.mod_small. Qed.

Lemma u16_bound z : 0 ≤ u16 z < 65536.
Proof. apply Z.mod_pos_bound. lia. Qed.

Lemma u32_small z : 0 ≤ z < 4294967296 → u32 z = z.
Proof. apply Z.mod_small. Qed.

Lemma int_cast_small z : INT_MIN ≤ z ≤ INT_MAX → int_cast z = z.
Proof. unfold int_cast, INT_MIN, INT_MAX. intros. rewrite Z.mod_small; lia. Qed.

(** ** Fields *)

(** A mask selects a field. *)
Lemma land_field x k j :
  0 ≤ k → 0 ≤ j → x .& (Z.ones j << k) = (x / 2 ^ k) mod 2 ^ j * 2 ^ k.
Proof.
  intros Hk Hj. rewrite <- Z.shiftl_mul_pow2, <- Z.land_ones, <- Z.shiftr_div_pow2 by lia.
  apply Z.bits_inj'. intros n Hn.
  rewrite Z.land_spec, !Z.shiftl_spec, Z.land_spec by lia.
  destruct (decide (n < k)).
  - rewrite !(Z.testbit_neg_r _ (n - k)) by lia. by rewrite !andb_false_r.
  - rewrite Z.shiftr_spec by lia. do 2 f_equal. lia.
Qed.

Lemma land_low x j : 0 ≤ j → x .& Z.ones j = x mod 2 ^ j.
Proof. apply Z.land_ones. Qed.

(** Bits that do not meet add up. *)
Lemma lor_add k a b : 0 ≤ k → a mod 2 ^ k = 0 → 0 ≤ b < 2 ^ k → a .| b = a + b.
Proof.
  intros Hk Ha Hb. symmetry. apply Z.add_nocarry_lor, Z.bits_inj'. intros n Hn.
  rewrite Z.land_spec, Z.bits_0. destruct (decide (n < k)) as [Hlt|Hge].
  - assert (Z.testbit a n = false) as ->; [|done].
    rewrite <- (Z.mod_pow2_bits_low a k n) by lia. by rewrite Ha, Z.bits_0.
  - assert (Z.testbit b n = false) as ->; [|apply andb_false_r].
    rewrite <- (Z.mod_small b (2 ^ k)) by lia. apply Z.mod_pow2_bits_high. lia.
Qed.

(** ** Facts on a byte, by looking at all of them *)

Definition all_bytes (P : Z → bool) : bool := forallb P (map Z.of_nat (seq 0 256)).

Lemma all_bytes_spec P : all_bytes P = true → ∀ c, 0 ≤ c < 256 → P c = true.
Proof.
  unfold all_bytes. intros Hf c Hc. rewrite forallb_forall in Hf. apply Hf.
  apply in_map_iff. exists (Z.to_nat c). rewrite in_seq. lia.
Qed.

(** ** Branches *)

(** Goes into the branch of the first test, which [lia] decides. *)
Ltac then_branch :=
  match goal with |- context [if ?b then _ else _] => replace b with true by (symmetry; lia) end.
Ltac else_branch :=
  match goal with |- context [if ?b then _ else _] => replace b with false by (symmetry; lia) end.

(** Two lists of the same length, element by element. *)
Ltac each_lia :=
  repeat match goal with |- _ :: _ = _ :: _ => apply (f_equal2 cons) end;
  try done; Z.div_mod_to_equations; lia.
