(* ===== verification/Codecvt.v ===== *)
(** * Codecvt: the conversion loops of [locale.cpp] in libc++

    The conversions between encodings all read units from [frm_nxt] up to
    [frm_end] and write units from [to_nxt] up to [to_end].  A pointer into the
    source is the list of the units from it to the end; the pointer into the
    destination is the list of the units written before it, and [room] is
    [to_end - to_nxt].  A conversion is its loop body and its header; this file
    has the loop, and [Transcoder], the contract of a body, from which the theorems
    on the loop follow. *)

From S2P Require Import Prelude Bits.

(** ** Results and modes *)

Module codecvt_base.
(** [codecvt_base::result]. *)
Inductive result := ok | partial | error | noconv.

#[export] Instance result_eq_dec : EqDecision result.
Proof. solve_decision. Defined.
End codecvt_base.
Export codecvt_base.

(** [codecvt_mode]. *)
Definition little_endian : Z := 1.
Definition generate_header : Z := 2.
Definition consume_header : Z := 4.

Definition has_mode (mode flag : Z) : bool := negb (mode .& flag =? 0).

(** What a conversion returns and where it leaves [frm_nxt] and [to_nxt]. *)
Record conversion := Conv { cv_result : result; frm_nxt : list Z; to_nxt : list Z }.

Definition after_writing (w : list Z) (c : conversion) : conversion :=
  Conv (cv_result c) (frm_nxt c) (w ++ to_nxt c).

(** ** The loops *)

(** What the body of a conversion's loop does: return, or move [frm_nxt] past so
    many units and write. *)
Inductive iteration := Return (r : result) | Next (read : nat) (written : list Z).

(** A body looks at [*frm_nxt], at the units behind it and at the room. *)
Definition body : Type := Z → list Z → Z → iteration.

Section loop.
(** The loop's condition, and the value returned when it fails. *)
Context (going : list Z → Z → bool) (step : body) (finish : list Z → result).

(** [skip] units have been read by the last iteration already. *)
Fixpoint convert (skip : nat) (frm : list Z) (room : Z) : conversion :=
  match frm with
  | [] => Conv (finish []) [] []
  | u :: frm' =>
      match skip with
      | S skip' => convert skip' frm' room
      | O =>
          if going frm room then
            match step u frm' room with
            | Return r => Conv r frm []
            | Next read written =>
                after_writing written (convert (pred read) frm' (room - zlen written))
            end
          else Conv (finish frm) frm []
      end
  end.

End loop.

(** [for (; frm_nxt < frm_end; ++frm_nxt)], then [return ok]. *)
Definition encode_loop (step : body) (frm : list Z) (room : Z) : conversion :=
  convert (λ _ _, true) step (λ _, ok) 0 frm room.

(** [for (; frm_nxt < frm_end - (w - 1) && to_nxt < to_end; ++to_nxt)], then
    [return frm_nxt < frm_end ? partial : ok]; a unit has [w] bytes. *)
Definition decode_going (w : Z) (frm : list Z) (room : Z) : bool := (w <=? zlen frm) && (0 <? room).
Definition at_end (frm : list Z) : result := if 0 <? zlen frm then partial else ok.
Definition decode_loop (w : Z) (step : body) (frm : list Z) (room : Z) : conversion :=
  convert (decode_going w) step at_end 0 frm room.

(** The loops that only count: a body breaks, or reads so many units for so many
    characters, of which [mx] are left. *)
Inductive counting := Break | Count (read : nat) (chars : Z).

Fixpoint count (w : Z) (step : Z → list Z → Z → counting) (skip : nat) (frm : list Z) (mx : Z)
  : list Z :=
  match frm with
  | [] => []
  | u :: frm' =>
      match skip with
      | S skip' => count w step skip' frm' mx
      | O =>
          if decode_going w frm mx then
            match step u frm' mx with
            | Break => frm
            | Count read chars => count w step (pred read) frm' (mx - chars)
            end
          else frm
      end
  end.

(** [return static_cast<int>(frm_nxt - frm)]. *)
Definition distance (frm frm_nxt : list Z) : Z := int_cast (zlen frm - zlen frm_nxt).

(** ** Headers *)

(** [if (mode & generate_header)]: the byte order mark, if there is room. *)
Definition with_header (mark : list Z) (mode : Z) (conv : list Z → Z → conversion)
    (frm : list Z) (room : Z) : conversion :=
  if has_mode mode generate_header then
    if room <? zlen mark then Conv partial frm []
    else after_writing mark (conv frm (room - zlen mark))
  else conv frm room.

(** [if (mode & consume_header)]: a mark at the front is read over. *)
Definition skip_header (mark : list Z) (mode : Z) (frm : list Z) : list Z :=
  if has_mode mode consume_header && bool_decide (take (length mark) frm = mark)
  then drop (length mark) frm else frm.

(** ** The contract of a body *)

(** The units of a text. *)
Definition encode_all (enc : Z → list Z) (cs : list Z) : list Z := concat (map enc cs).

(** A body turns the units [src c] of a valid character [c] into its units [dst c],
    when these fit, and goes on after nothing else. *)
Record transcodes (going : list Z → Z → bool) (unit_ok valid : Z → Prop) (src dst : Z → list Z)
    (step : body) : Prop := {
  tr_accepts c rest room :
    valid c → zlen (dst c) ≤ room →
    ∃ u us, src c = u :: us ∧ going (src c ++ rest) room = true
      ∧ step u (us ++ rest) room = Next (S (length us)) (dst c);
  tr_only u frm room n out :
    Forall unit_ok (u :: frm) → going (u :: frm) room = true → step u frm room = Next n out →
    ∃ c rest, valid c ∧ u :: frm = src c ++ rest ∧ n = length (src c) ∧ out = dst c
      ∧ zlen out ≤ room }.

(** An encoder reads a character a unit: it writes the characters that are valid and
    fit, and nothing else. *)
Lemma encoder_transcodes (unit_ok valid : Z → Prop) `{∀ c, Decision (valid c)}
    (dst : Z → list Z) (step : body) :
  (∀ c, valid c → unit_ok c) →
  (∀ c rest room, unit_ok c → step c rest room
   = if decide (valid c) then if room <? zlen (dst c) then Return partial else Next 1 (dst c)
     else Return error) →
  transcodes (λ _ _, true) unit_ok valid (λ c, [c]) dst step.
Proof.
  intros Hok Hstep. split.
  - intros c rest room Hc Hr. exists c, []. do 2 (split; [done|]). cbn [app length].
    rewrite Hstep, decide_True by auto. by destruct (Z.ltb_spec room (zlen (dst c))); [lia|].
  - intros c rest room n out [Hc _]%Forall_cons _. rewrite Hstep by done.
    case_decide; [|done]. destruct (Z.ltb_spec room (zlen (dst c))); [done|].
    intros [= <- <-]. exists c, rest. auto 6.
Qed.

Lemma encode_all_cons enc c cs : encode_all enc (c :: cs) = enc c ++ encode_all enc cs.
Proof. done. Qed.

Lemma encode_all_app enc cs ds : encode_all enc (cs ++ ds) = encode_all enc cs ++ encode_all enc ds.
Proof. unfold encode_all. by rewrite map_app, concat_app. Qed.

Lemma after_writing_nil c : after_writing [] c = c.
Proof. by destruct c. Qed.

Lemma after_writing_app v w c : after_writing v (after_writing w c) = after_writing (v ++ w) c.
Proof. unfold after_writing. cbn. by rewrite app_assoc. Qed.

Lemma decode_going_app w bs rest room :
  w ≤ zlen bs → 0 < room → decode_going w (bs ++ rest) room = true.
Proof. unfold decode_going. rewrite zlen_app. pose proof (zlen_nonneg rest). lia. Qed.

(** *** The loop *)

Section transcode.
Context (going : list Z → Z → bool) (finish : list Z → result) (step : body).

Lemma convert_skip k frm room :
  convert going step finish k frm room = convert going step finish 0 (drop k frm) room.
Proof.
  revert k. induction frm as [|u frm IH]; intros [|k]; [done..|]. cbn [convert drop]. apply IH.
Qed.

(** A conversion that stands still: its loop's condition fails, or its body
    returns. *)
Definition stands (r : result) (frm : list Z) (room : Z) : Prop :=
  convert going step finish 0 frm room = Conv r frm [].

Lemma convert_shrinks k frm room :
  (length (frm_nxt (convert going step finish k frm room)) ≤ length frm)%nat.
Proof.
  revert k room. induction frm as [|u frm IH]; intros k room; [done|]. cbn [convert length].
  destruct k as [|k]; [|specialize (IH k room); lia].
  destruct (going (u :: frm) room); [|done]. destruct (step u frm room) as [r|n w]; [done|].
  cbn [frm_nxt after_writing]. specialize (IH (pred n) (room - zlen w)). lia.
Qed.

Lemma stands_cases r frm room :
  stands r frm room ↔
  match frm with
  | [] => r = finish []
  | u :: rest => if going frm room then step u rest room = Return r else r = finish frm
  end.
Proof.
  unfold stands. destruct frm as [|u rest]; cbn [convert]; [naive_solver|].
  destruct (going (u :: rest) room); [|naive_solver].
  destruct (step u rest room) as [r'|n w]; [naive_solver|]. split; [|done].
  intros Hc%(f_equal (length ∘ frm_nxt)). cbn in Hc.
  pose proof (convert_shrinks (pred n) rest (room - zlen w)). lia.
Qed.

Context (unit_ok valid : Z → Prop) (src dst : Z → list Z).
Context (Htr : transcodes going unit_ok valid src dst step).

Lemma convert_char c rest room :
  valid c → zlen (dst c) ≤ room →
  convert going step finish 0 (src c ++ rest) room
  = after_writing (dst c) (convert going step finish 0 rest (room - zlen (dst c))).
Proof.
  intros Hc Hr. destruct (tr_accepts _ _ _ _ _ _ Htr c rest room Hc Hr) as (u & us & Hs & Hg & Hst).
  rewrite Hs in *. cbn [app convert] in *. rewrite Hg, Hst. cbn [pred].
  rewrite convert_skip. by rewrite drop_app_length.
Qed.

(** Valid characters that fit are converted. *)
Lemma convert_text cs rest room :
  Forall valid cs → zlen (encode_all dst cs) ≤ room →
  convert going step finish 0 (encode_all src cs ++ rest) room
  = after_writing (encode_all dst cs)
      (convert going step finish 0 rest (room - zlen (encode_all dst cs))).
Proof.
  intros Hcs. revert room. induction Hcs as [|c cs Hc Hcs IH]; intros room Hr.
  { rewrite after_writing_nil. cbn. by rewrite Z.sub_0_r. }
  rewrite (encode_all_cons src), (encode_all_cons dst) in *. rewrite zlen_app in *.
  pose proof (zlen_nonneg (encode_all dst cs)).
  rewrite <- app_assoc, convert_char, IH, after_writing_app by (done || lia).
  do 2 f_equal. lia.
Qed.

(** Whatever the source is, what is read is a valid text and what is written is the
    same text, within the room; the conversion stands where it stopped. *)
Lemma convert_sound frm room r rest out :
  Forall unit_ok frm → convert going step finish 0 frm room = Conv r rest out →
  ∃ cs, Forall valid cs ∧ frm = encode_all src cs ++ rest ∧ out = encode_all dst cs
    ∧ (0 ≤ room → zlen out ≤ room) ∧ stands r rest (room - zlen out).
Proof.
  remember (length frm) as n eqn:Hn. revert frm Hn room out.
  induction (lt_wf n) as [n _ IH]. intros frm -> room out Hok Hc.
  destruct frm as [|u frm]; [|cbn [convert] in Hc; destruct (going (u :: frm) room) eqn:Hg;
    [destruct (step u frm room) as [r'|k w] eqn:Hs|]].
  - exists []. injection Hc as <- <- <-. rewrite Z.sub_0_r. done.
  - injection Hc as <- <- <-. exists []. rewrite Z.sub_0_r. do 4 (split; [done|]).
    apply stands_cases. by rewrite Hg, Hs.
  - destruct (tr_only _ _ _ _ _ _ Htr u frm room k w Hok Hg Hs)
      as (c & rest' & Hv & He & -> & -> & Hw).
    destruct (tr_accepts _ _ _ _ _ _ Htr c rest' room Hv Hw) as (u' & us & Hsrc & _ & _).
    rewrite Hsrc in *. injection He as <- ->. cbn [length pred] in Hc.
    rewrite convert_skip, drop_app_length in Hc.
    destruct (convert going step finish 0 rest' (room - zlen (dst c))) as [r2 f2 o2] eqn:H2.
    injection Hc as <- <- <-.
    destruct (IH (length rest')) with (frm := rest') (room := room - zlen (dst c)) (out := o2)
      as (cs & Hcs & -> & -> & Hle & Hst); [cbn; rewrite length_app; lia|done| |done|].
    { by apply Forall_cons in Hok as [_ [_ ?]%Forall_app]. }
    exists (c :: cs). split; [by constructor|].
    rewrite (encode_all_cons src), (encode_all_cons dst), Hsrc, zlen_app in *.
    split; [by rewrite <- app_assoc|]. split; [done|]. split; [lia|].
    replace (room - (zlen (dst c) + zlen (encode_all dst cs)))
      with (room - zlen (dst c) - zlen (encode_all dst cs)) by lia. done.
  - injection Hc as <- <- <-. exists []. rewrite Z.sub_0_r. do 4 (split; [done|]).
    apply stands_cases. by rewrite Hg.
Qed.

(** Where a conversion stands no valid character that fits begins. *)
Lemma stands_blocked r c rest room :
  stands r (src c ++ rest) room → valid c → room < zlen (dst c).
Proof.
  intros Hst Hc. destruct (decide (room < zlen (dst c))) as [|Hr]; [done|exfalso].
  unfold stands in Hst. rewrite convert_char in Hst by (done || lia).
  destruct (tr_accepts _ _ _ _ _ _ Htr c rest room Hc ltac:(lia)) as (u & us & Hs & _).
  pose proof (convert_shrinks 0 rest (room - zlen (dst c))) as Hl.
  apply (f_equal frm_nxt) in Hst. cbn [after_writing frm_nxt] in Hst. rewrite Hst, Hs in Hl.
  cbn [app length] in Hl. rewrite length_app in Hl. lia.
Qed.

End transcode.

(** ** Counting *)

(** A counting body reads what a conversion's body reads, [mx] being the room. *)
Definition counts_like (w : Z) (cstep : Z → list Z → Z → counting) (step : body) : Prop :=
  ∀ u frm mx, decode_going w (u :: frm) mx = true →
  cstep u frm mx = match step u frm mx with Return _ => Break | Next n out => Count n (zlen out) end.

Lemma count_convert w cstep step skip frm mx :
  counts_like w cstep step →
  count w cstep skip frm mx = frm_nxt (convert (decode_going w) step at_end skip frm mx).
Proof.
  intros Hc. revert skip mx. induction frm as [|u frm IH]; intros skip mx; [done|].
  cbn [count convert]. destruct skip as [|skip]; [|apply IH].
  destruct (decode_going w (u :: frm) mx) eqn:Hg; [|done]. rewrite Hc by done.
  destruct (step u frm mx); [done|]. apply IH.
Qed.
