(* ===== verification/Unicode.v ===== *)
(** * Unicode: the encodings, as a specification

    Scalar values and their UTF-8 and UTF-16 forms, by arithmetic; what the
    conversions of [locale.cpp] are measured against. *)

From S2P Require Import Prelude Bits.

(** ** Units and scalar values *)

Definition byte_ok (b : Z) : Prop := 0 ≤ b < 256.
Definition u16_ok (c : Z) : Prop := 0 ≤ c < 2 ^ 16.
Definition u32_ok (c : Z) : Prop := 0 ≤ c < 2 ^ 32.

Definition scalar (c : Z) : Prop := 0 ≤ c < 0xD800 ∨ 0xE000 ≤ c ≤ 0x10FFFF.

#[export] Instance scalar_dec c : Decision (scalar c).
Proof. unfold scalar. apply _. Defined.

(** The characters a facet with the limit [Maxcode] handles. *)
Definition upto (Maxcode c : Z) : Prop := scalar c ∧ c ≤ Maxcode.

#[export] Instance upto_dec M c : Decision (upto M c).
Proof. unfold upto. apply _. Defined.

(** Those of them that one 16-bit unit holds. *)
Definition bmp (Maxcode c : Z) : Prop := upto (Z.min Maxcode 0xFFFF) c.

#[export] Instance bmp_dec M c : Decision (bmp M c).
Proof. unfold bmp. apply _. Defined.

(** ** UTF-8 *)

Definition trail (c : Z) : Z := 0x80 + c mod 64.

Definition utf8 (c : Z) : list Z :=
  if c <? 0x80 then [c]
  else if c <? 0x800 then [0xC0 + c / 64; trail c]
  else if c <? 0x10000 then [0xE0 + c / 4096; trail (c / 64); trail c]
  else [0xF0 + c / 262144; trail (c / 4096); trail (c / 64); trail c].

(** ** UTF-16 *)

Definition utf16 (c : Z) : list Z :=
  if c <? 0x10000 then [c]
  else [0xD800 + (c - 0x10000) / 1024; 0xDC00 + (c - 0x10000) mod 1024].

(** The bytes of a 16-bit unit. *)
Definition be (u : Z) : list Z := [u / 256; u mod 256].
Definition le (u : Z) : list Z := [u mod 256; u / 256].

Definition utf16be (c : Z) : list Z := concat (map be (utf16 c)).
Definition utf16le (c : Z) : list Z := concat (map le (utf16 c)).

(** A character is its own code in UCS-4, and in UCS-2 when it is below
    [0x10000]. *)
Definition ucs (c : Z) : list Z := [c].

(** ** The forms are the ranges of the source's table

    The rows of the comment in [locale.cpp]: the ranges of the bytes of a
    well-formed UTF-8 character. *)
Definition between (lo hi b : Z) : bool := (lo <=? b) && (b <=? hi).

Definition well_formed (bs : list Z) : bool :=
  match bs with
  | [b1] => between 0x00 0x7F b1
  | [b1; b2] => between 0xC2 0xDF b1 && between 0x80 0xBF b2
  | [b1; b2; b3] =>
      (between 0xE0 0xE0 b1 && between 0xA0 0xBF b2 && between 0x80 0xBF b3)
      || (between 0xE1 0xEC b1 && between 0x80 0xBF b2 && between 0x80 0xBF b3)
      || (between 0xED 0xED b1 && between 0x80 0x9F b2 && between 0x80 0xBF b3)
      || (between 0xEE 0xEF b1 && between 0x80 0xBF b2 && between 0x80 0xBF b3)
  | [b1; b2; b3; b4] =>
      (between 0xF0 0xF0 b1 && between 0x90 0xBF b2 && between 0x80 0xBF b3 && between 0x80 0xBF b4)
      || (between 0xF1 0xF3 b1 && between 0x80 0xBF b2 && between 0x80 0xBF b3 && between 0x80 0xBF b4)
      || (between 0xF4 0xF4 b1 && between 0x80 0x8F b2 && between 0x80 0xBF b3 && between 0x80 0xBF b4)
  | _ => false
  end.

(** ** Arithmetic *)

(** Decides comparisons, and solves what is left with quotients and remainders. *)
Ltac bool_lia :=
  repeat match goal with
  | H : context [?a <? ?b] |- _ => destruct (Z.ltb_spec a b)
  | H : context [?a <=? ?b] |- _ => destruct (Z.leb_spec a b)
  | H : context [?a =? ?b] |- _ => destruct (Z.eqb_spec a b)
  | |- context [?a <? ?b] => destruct (Z.ltb_spec a b)
  | |- context [?a <=? ?b] => destruct (Z.leb_spec a b)
  | |- context [?a =? ?b] => destruct (Z.eqb_spec a b)
  end; cbn [andb orb negb] in *; try done; try (exfalso; Z.div_mod_to_equations; lia).

Lemma utf8_length c : (1 ≤ length (utf8 c) ≤ 4)%nat.
Proof. unfold utf8. repeat case_match; cbn; lia. Qed.

Lemma utf16_length c : (1 ≤ length (utf16 c) ≤ 2)%nat.
Proof. unfold utf16. case_match; cbn; lia. Qed.

Lemma utf8_bytes c : scalar c → Forall (λ b, 0 ≤ b < 256) (utf8 c).
Proof.
  unfold scalar, utf8, trail. intros. bool_lia; repeat constructor; Z.div_mod_to_equations; lia.
Qed.

Lemma utf16_units c : scalar c → Forall (λ u, 0 ≤ u < 65536) (utf16 c).
Proof.
  unfold scalar, utf16. intros. bool_lia; repeat constructor; Z.div_mod_to_equations; lia.
Qed.

(** The value of a form. *)
Definition utf8_value (bs : list Z) : Z :=
  match bs with
  | [b1] => b1
  | [b1; b2] => (b1 - 0xC0) * 64 + (b2 - 0x80)
  | [b1; b2; b3] => (b1 - 0xE0) * 4096 + (b2 - 0x80) * 64 + (b3 - 0x80)
  | [b1; b2; b3; b4] => (b1 - 0xF0) * 262144 + (b2 - 0x80) * 4096 + (b3 - 0x80) * 64 + (b4 - 0x80)
  | _ => 0
  end.

(** ** The specification is consistent *)

(** How many bytes a lead byte announces; none for a byte that is not one. *)
Definition lead (b : Z) : nat :=
  if b <? 0x80 then 1 else if b <? 0xC2 then 0 else if b <? 0xE0 then 2
  else if b <? 0xF0 then 3 else if b <? 0xF5 then 4 else 0.

Lemma utf8_well_formed c : scalar c → well_formed (utf8 c) = true ∧ utf8_value (utf8 c) = c.
Proof.
  unfold scalar, utf8, trail. intros Hc.
  repeat case_match; bool_lia; unfold well_formed, utf8_value, between;
    rewrite ?orb_true_iff, ?andb_true_iff, ?Z.leb_le; Z.div_mod_to_equations; lia.
Qed.

Lemma well_formed_utf8 bs :
  well_formed bs = true → scalar (utf8_value bs) ∧ utf8 (utf8_value bs) = bs.
Proof.
  destruct bs as [|b1 [|b2 [|b3 [|b4 [|]]]]]; try done; unfold well_formed, between; intros Hw;
    rewrite ?orb_true_iff, ?andb_true_iff, ?Z.leb_le in Hw; unfold utf8_value, scalar, utf8, trail;
    (split; [lia|]); repeat case_match; bool_lia; repeat f_equal; Z.div_mod_to_equations; lia.
Qed.

Lemma utf8_inj c d : scalar c → scalar d → utf8 c = utf8 d → c = d.
Proof.
  intros Hc%utf8_well_formed Hd%utf8_well_formed He. destruct Hc as [_ <-], Hd as [_ <-].
  by rewrite He.
Qed.

Lemma well_formed_lead b bs : well_formed (b :: bs) = true → lead b = S (length bs).
Proof.
  destruct bs as [|b2 [|b3 [|b4 [|]]]]; try done; unfold well_formed, between, lead; intros Hw;
    rewrite ?orb_true_iff, ?andb_true_iff, ?Z.leb_le in Hw; bool_lia; lia.
Qed.

(** ** Surrogates and units *)

Lemma surrogate_mask32 c : u32_ok c → (c .& 0xFFFFF800 =? 0xD800) = (0xD800 <=? c) && (c <? 0xE000).
Proof.
  unfold u32_ok. intros. change 0xFFFFF800 with (Z.ones 21 << 11). rewrite land_field by lia. bool_lia.
Qed.

Lemma surrogate_mask16 c : u16_ok c → (c .& 0xF800 =? 0xD800) = (0xD800 <=? c) && (c <? 0xE000).
Proof.
  unfold u16_ok. intros. change 0xF800 with (Z.ones 5 << 11). rewrite land_field by lia. bool_lia.
Qed.

Lemma upto_u32 M c : M ≤ 0x10FFFF → upto M c → u32_ok c.
Proof. unfold upto, scalar, u32_ok. lia. Qed.

Lemma upto_u16 M c : bmp M c → u16_ok c.
Proof. unfold bmp, upto, scalar, u16_ok. lia. Qed.
