(* ===== verification/Utf8.v ===== *)
(** * Utf8: the UTF-8 conversions of [locale.cpp]

    [ucs4_to_utf8], [utf8_to_ucs4], [utf8_to_ucs4_length] and their UCS-2
    counterparts: the loop bodies first, then the functions. *)

From S2P Require Import Prelude Bits Codecvt Unicode.

(** The byte order mark. *)
Definition utf8_mark : list Z := [0xEF; 0xBB; 0xBF].

(** ** What the decoders share *)

(** [(c & 0xC0) != 0x80]: not a trailing byte. *)
Definition not_trail (c : Z) : bool := negb (c .& 0xC0 =? 0x80).

(** The [switch (c1)] on the second of three bytes, and of four: [true] where it
    returns. *)
Definition bad_second_of_3 (c1 c2 : Z) : bool :=
  if c1 =? 0xE0 then negb (c2 .& 0xE0 =? 0xA0)
  else if c1 =? 0xED then negb (c2 .& 0xE0 =? 0x80)
  else not_trail c2.

Definition bad_second_of_4 (c1 c2 : Z) : bool :=
  if c1 =? 0xF0 then negb ((0x90 <=? c2) && (c2 <=? 0xBF))
  else if c1 =? 0xF4 then negb (c2 .& 0xF0 =? 0x80)
  else not_trail c2.

(** ** UCS-4 *)

Definition ucs4_to_utf8_body (Maxcode : Z) : body := λ wc _ room,
  if (wc .& 0xFFFFF800 =? 0xD800) || (Maxcode <? wc) then Return error
  else if wc <? 0x000080 then
    if room <? 1 then Return partial
    else Next 1 [u8 wc]
  else if wc <? 0x000800 then
    if room <? 2 then Return partial
    else Next 1 [u8 (0xC0 .| (wc >> 6)); u8 (0x80 .| (wc .& 0x3F))]
  else if wc <? 0x010000 then
    if room <? 3 then Return partial
    else Next 1 [u8 (0xE0 .| (wc >> 12)); u8 (0x80 .| ((wc .& 0xFC0) >> 6));
                 u8 (0x80 .| (wc .& 0x3F))]
  else
    if room <? 4 then Return partial
    else Next 1 [u8 (0xF0 .| (wc >> 18)); u8 (0x80 .| ((wc .& 0x3F000) >> 12));
                 u8 (0x80 .| ((wc .& 0xFC0) >> 6)); u8 (0x80 .| (wc .& 0x3F))].

Definition ucs4_to_utf8 (Maxcode mode : Z) : list Z → Z → conversion :=
  with_header utf8_mark mode (encode_loop (ucs4_to_utf8_body Maxcode)).

Definition utf8_to_ucs4_body (Maxcode : Z) : body := λ c1 rest _,
  if c1 <? 0x80 then
    if Maxcode <? c1 then Return error else Next 1 [u32 c1]
  else if c1 <? 0xC2 then Return error
  else if c1 <? 0xE0 then
    match rest with
    | c2 :: _ =>
        if not_trail c2 then Return error
        else
          let t := u32 (((c1 .& 0x1F) << 6) .| (c2 .& 0x3F)) in
          if Maxcode <? t then Return error else Next 2 [t]
    | _ => Return partial
    end
  else if c1 <? 0xF0 then
    match rest with
    | c2 :: c3 :: _ =>
        if bad_second_of_3 c1 c2 then Return error
        else if not_trail c3 then Return error
        else
          let t := u32 (((c1 .& 0x0F) << 12) .| ((c2 .& 0x3F) << 6) .| (c3 .& 0x3F)) in
          if Maxcode <? t then Return error else Next 3 [t]
    | _ => Return partial
    end
  else if c1 <? 0xF5 then
    match rest with
    | c2 :: c3 :: c4 :: _ =>
        if bad_second_of_4 c1 c2 then Return error
        else if not_trail c3 || not_trail c4 then Return error
        else
          let t := u32 (((c1 .& 0x07) << 18) .| ((c2 .& 0x3F) << 12) .| ((c3 .& 0x3F) << 6)
                        .| (c4 .& 0x3F)) in
          if Maxcode <? t then Return error else Next 4 [t]
    | _ => Return partial
    end
  else Return error.

Definition utf8_to_ucs4 (Maxcode mode : Z) (frm : list Z) (room : Z) : conversion :=
  decode_loop 1 (utf8_to_ucs4_body Maxcode) (skip_header utf8_mark mode frm) room.

Definition utf8_to_ucs4_length_body (Maxcode : Z) (c1 : Z) (rest : list Z) (_ : Z) : counting :=
  if c1 <? 0x80 then
    if Maxcode <? c1 then Break else Count 1 1
  else if c1 <? 0xC2 then Break
  else if c1 <? 0xE0 then
    match rest with
    | c2 :: _ =>
        if not_trail c2 then Break
        else if Maxcode <? (u32 ((c1 .& 0x1F) << 6) .| (c2 .& 0x3F)) then Break
        else Count 2 1
    | _ => Break
    end
  else if c1 <? 0xF0 then
    match rest with
    | c2 :: c3 :: _ =>
        if bad_second_of_3 c1 c2 then Break
        else if not_trail c3 then Break
        else if Maxcode <? (u32 ((c1 .& 0x0F) << 12) .| u32 ((c2 .& 0x3F) << 6) .| (c3 .& 0x3F))
             then Break
        else Count 3 1
    | _ => Break
    end
  else if c1 <? 0xF5 then
    match rest with
    | c2 :: c3 :: c4 :: _ =>
        if bad_second_of_4 c1 c2 then Break
        else if not_trail c3 || not_trail c4 then Break
        else if Maxcode <? (u32 ((c1 .& 0x07) << 18) .| u32 ((c2 .& 0x3F) << 12)
                            .| u32 ((c3 .& 0x3F) << 6) .| (c4 .& 0x3F)) then Break
        else Count 4 1
    | _ => Break
    end
  else Break.

Definition utf8_to_ucs4_length (Maxcode mode : Z) (frm : list Z) (mx : Z) : Z :=
  distance frm (count 1 (utf8_to_ucs4_length_body Maxcode) 0 (skip_header utf8_mark mode frm) mx).

(** ** UCS-2 *)

Definition ucs2_to_utf8_body (Maxcode : Z) : body := λ wc _ room,
  if (wc .& 0xF800 =? 0xD800) || (Maxcode <? wc) then Return error
  else if wc <? 0x0080 then
    if room <? 1 then Return partial
    else Next 1 [u8 wc]
  else if wc <? 0x0800 then
    if room <? 2 then Return partial
    else Next 1 [u8 (0xC0 .| (wc >> 6)); u8 (0x80 .| (wc .& 0x3F))]
  else
    if room <? 3 then Return partial
    else Next 1 [u8 (0xE0 .| (wc >> 12)); u8 (0x80 .| ((wc .& 0xFC0) >> 6));
                 u8 (0x80 .| (wc .& 0x3F))].

Definition ucs2_to_utf8 (Maxcode mode : Z) : list Z → Z → conversion :=
  with_header utf8_mark mode (encode_loop (ucs2_to_utf8_body Maxcode)).

Definition utf8_to_ucs2_body (Maxcode : Z) : body := λ c1 rest _,
  if c1 <? 0x80 then
    if Maxcode <? c1 then Return error else Next 1 [u16 c1]
  else if c1 <? 0xC2 then Return error
  else if c1 <? 0xE0 then
    match rest with
    | c2 :: _ =>
        if not_trail c2 then Return error
        else
          let t := u16 (((c1 .& 0x1F) << 6) .| (c2 .& 0x3F)) in
          if Maxcode <? t then Return error else Next 2 [t]
    | _ => Return partial
    end
  else if c1 <? 0xF0 then
    match rest with
    | c2 :: c3 :: _ =>
        if bad_second_of_3 c1 c2 then Return error
        else if not_trail c3 then Return error
        else
          let t := u16 (((c1 .& 0x0F) << 12) .| ((c2 .& 0x3F) << 6) .| (c3 .& 0x3F)) in
          if Maxcode <? t then Return error else Next 3 [t]
    | _ => Return partial
    end
  else Return error.

Definition utf8_to_ucs2 (Maxcode mode : Z) (frm : list Z) (room : Z) : conversion :=
  decode_loop 1 (utf8_to_ucs2_body Maxcode) (skip_header utf8_mark mode frm) room.

Definition utf8_to_ucs2_length_body (Maxcode : Z) (c1 : Z) (rest : list Z) (_ : Z) : counting :=
  if c1 <? 0x80 then
    if Maxcode <? c1 then Break else Count 1 1
  else if c1 <? 0xC2 then Break
  else if c1 <? 0xE0 then
    match rest with
    | c2 :: _ =>
        if not_trail c2 then Break
        else if Maxcode <? (u32 ((c1 .& 0x1F) << 6) .| (c2 .& 0x3F)) then Break
        else Count 2 1
    | _ => Break
    end
  else if c1 <? 0xF0 then
    match rest with
    | c2 :: c3 :: _ =>
        if bad_second_of_3 c1 c2 then Break
        else if not_trail c3 then Break
        else if Maxcode <? (u32 ((c1 .& 0x0F) << 12) .| u32 ((c2 .& 0x3F) << 6) .| (c3 .& 0x3F))
             then Break
        else Count 3 1
    | _ => Break
    end
  else Break.

Definition utf8_to_ucs2_length (Maxcode mode : Z) (frm : list Z) (mx : Z) : Z :=
  distance frm (count 1 (utf8_to_ucs2_length_body Maxcode) 0 (skip_header utf8_mark mode frm) mx).

(** ** What the bit operations compute *)

(** Trailing bytes, cut out of a character. *)
Lemma put_trail c : u8 (0x80 .| (c .& 0x3F)) = trail c.
Proof.
  change 0x3F with (Z.ones 6). rewrite land_low, (lor_add 6) by (done || lia || apply Z.mod_pos_bound; lia).
  unfold trail. apply u8_small. Z.div_mod_to_equations. lia.
Qed.

Lemma put_trail_field c k : 0 ≤ k → u8 (0x80 .| ((c .& (Z.ones 6 << k)) >> k)) = trail (c / 2 ^ k).
Proof.
  intros Hk. rewrite land_field, Z.shiftr_div_pow2, Z.div_mul by lia.
  rewrite <- put_trail. change 0x3F with (Z.ones 6). by rewrite land_low.
Qed.

Lemma put_trail_6 c : u8 (0x80 .| ((c .& 0xFC0) >> 6)) = trail (c / 64).
Proof. by apply (put_trail_field c 6). Qed.

Lemma put_trail_12 c : u8 (0x80 .| ((c .& 0x3F000) >> 12)) = trail (c / 4096).
Proof. by apply (put_trail_field c 12). Qed.

Lemma put_lead a c k j :
  0 ≤ k → 0 ≤ j ≤ 8 → a mod 2 ^ j = 0 → 0 ≤ a → a + 2 ^ j ≤ 256 → 0 ≤ c < 2 ^ (j + k) →
  u8 (a .| (c >> k)) = a + c / 2 ^ k.
Proof.
  intros Hk Hj Ha H0 Hm Hc. rewrite Z.pow_add_r in Hc by lia.
  assert (0 ≤ c / 2 ^ k < 2 ^ j).
  { split; [apply Z.div_pos; lia|]. apply Z.div_lt_upper_bound; lia. }
  rewrite Z.shiftr_div_pow2, (lor_add j) by (done || lia). apply u8_small. lia.
Qed.

(** What the tests on a byte look for. *)
Lemma not_trail_between c : byte_ok c → not_trail c = negb (between 0x80 0xBF c).
Proof.
  intros Hc. apply eqb_prop. revert c Hc.
  apply (all_bytes_spec (λ c, eqb (not_trail c) (negb (between 0x80 0xBF c)))). by vm_compute.
Qed.

Lemma high_3 c : byte_ok c → (c .& 0xE0 =? 0xA0) = between 0xA0 0xBF c ∧ (c .& 0xE0 =? 0x80) = between 0x80 0x9F c.
Proof.
  intros Hc. split; apply eqb_prop; revert c Hc.
  - apply (all_bytes_spec (λ c, eqb (c .& 0xE0 =? 0xA0) (between 0xA0 0xBF c))). by vm_compute.
  - apply (all_bytes_spec (λ c, eqb (c .& 0xE0 =? 0x80) (between 0x80 0x9F c))). by vm_compute.
Qed.

Lemma high_4 c : byte_ok c → (c .& 0xF0 =? 0x80) = between 0x80 0x8F c.
Proof.
  intros Hc. apply eqb_prop. revert c Hc.
  apply (all_bytes_spec (λ c, eqb (c .& 0xF0 =? 0x80) (between 0x80 0x8F c))). by vm_compute.
Qed.

(** The decoders' tests are the source's table. *)
Lemma well_formed_2 c1 c2 :
  byte_ok c2 → 0xC2 ≤ c1 < 0xE0 → well_formed [c1; c2] = negb (not_trail c2).
Proof.
  intros H2 H1. rewrite not_trail_between by done. unfold well_formed, between. bool_lia.
Qed.

Lemma well_formed_3 c1 c2 c3 :
  byte_ok c2 → byte_ok c3 → 0xE0 ≤ c1 < 0xF0 →
  well_formed [c1; c2; c3] = negb (bad_second_of_3 c1 c2) && negb (not_trail c3).
Proof.
  intros H2 H3 H1. unfold bad_second_of_3. destruct (high_3 c2 H2) as [-> ->]. rewrite !not_trail_between by done.
  unfold well_formed, between. apply eq_true_iff_eq. repeat case_match; lia.
Qed.

Lemma well_formed_4 c1 c2 c3 c4 :
  byte_ok c2 → byte_ok c3 → byte_ok c4 → 0xF0 ≤ c1 < 0xF5 →
  well_formed [c1; c2; c3; c4]
  = negb (bad_second_of_4 c1 c2) && negb (not_trail c3 || not_trail c4).
Proof.
  intros H2 H3 H4 H1. unfold bad_second_of_4. rewrite !high_4, !not_trail_between by done.
  unfold well_formed, between. apply eq_true_iff_eq. repeat case_match; lia.
Qed.

(** The decoders' shifts are the table's value. *)
Lemma get_field c j : 0 ≤ j → 0 ≤ c .& Z.ones j < 2 ^ j.
Proof. intros. rewrite land_low by lia. apply Z.mod_pos_bound. lia. Qed.

Lemma value_2 c1 c2 :
  byte_ok c2 → 0xC2 ≤ c1 < 0xE0 → not_trail c2 = false →
  ((c1 .& 0x1F) << 6) .| (c2 .& 0x3F) = utf8_value [c1; c2].
Proof.
  intros H2 H1. rewrite not_trail_between by done. unfold between. rewrite negb_false_iff, andb_true_iff, !Z.leb_le.
  intros Ht. change 0x1F with (Z.ones 5). change 0x3F with (Z.ones 6).
  rewrite !land_low, Z.shiftl_mul_pow2, (lor_add 6) by (Z.div_mod_to_equations; lia).
  unfold utf8_value. Z.div_mod_to_equations. lia.
Qed.

Lemma value_3 c1 c2 c3 :
  byte_ok c1 → byte_ok c2 → byte_ok c3 → well_formed [c1; c2; c3] = true →
  ((c1 .& 0x0F) << 12) .| ((c2 .& 0x3F) << 6) .| (c3 .& 0x3F) = utf8_value [c1; c2; c3].
Proof.
  unfold byte_ok, well_formed, between, utf8_value. intros H1 H2 H3 Hw.
  change 0x0F with (Z.ones 4). change 0x3F with (Z.ones 6).
  rewrite !land_low, !Z.shiftl_mul_pow2 by lia.
  rewrite (lor_add 12 (_ * 2 ^ 12)), (lor_add 6) by (Z.div_mod_to_equations; lia).
  Z.div_mod_to_equations. lia.
Qed.

Lemma value_4 c1 c2 c3 c4 :
  byte_ok c1 → byte_ok c2 → byte_ok c3 → byte_ok c4 → well_formed [c1; c2; c3; c4] = true →
  ((c1 .& 0x07) << 18) .| ((c2 .& 0x3F) << 12) .| ((c3 .& 0x3F) << 6) .| (c4 .& 0x3F)
  = utf8_value [c1; c2; c3; c4].
Proof.
  unfold byte_ok, well_formed, between, utf8_value. intros H1 H2 H3 H4 Hw.
  change 0x07 with (Z.ones 3). change 0x3F with (Z.ones 6).
  rewrite !land_low, !Z.shiftl_mul_pow2 by lia.
  rewrite (lor_add 18 (_ * 2 ^ 18)), (lor_add 12 (_ + _)), (lor_add 6) by (Z.div_mod_to_equations; lia).
  Z.div_mod_to_equations. lia.
Qed.

(** ** The encoders *)

Lemma ucs4_to_utf8_body_spec M c rest room :
  u32_ok c → M ≤ 0x10FFFF →
  ucs4_to_utf8_body M c rest room
  = if decide (upto M c) then
      if room <? zlen (utf8 c) then Return partial else Next 1 (utf8 c)
    else Return error.
Proof.
  intros Hc HM. unfold ucs4_to_utf8_body. rewrite surrogate_mask32 by done.
  unfold u32_ok, upto, scalar, utf8 in *. case_match; case_decide; try lia; [done|].
  rewrite put_trail_12, put_trail_6, !put_trail.
  destruct (c <? 0x80) eqn:?; [by rewrite u8_small by lia|].
  destruct (c <? 0x800) eqn:?; [by rewrite (put_lead _ _ _ 5) by (done || lia)|].
  destruct (c <? 0x10000) eqn:?; [by rewrite (put_lead _ _ _ 4) by (done || lia)|].
  by rewrite (put_lead _ _ _ 3) by (done || lia).
Qed.

Lemma ucs2_to_utf8_body_spec M c rest room :
  u16_ok c →
  ucs2_to_utf8_body M c rest room
  = if decide (bmp M c) then
      if room <? zlen (utf8 c) then Return partial else Next 1 (utf8 c)
    else Return error.
Proof.
  intros Hc. unfold ucs2_to_utf8_body. rewrite surrogate_mask16 by done.
  unfold u16_ok, bmp, upto, scalar, utf8 in *. case_match; case_decide; try lia; [done|].
  rewrite put_trail_6, !put_trail.
  destruct (c <? 0x80) eqn:?; [by rewrite u8_small by lia|].
  destruct (c <? 0x800) eqn:?; [by rewrite (put_lead _ _ _ 5) by (done || lia)|].
  rewrite (put_lead _ _ _ 4) by (done || lia).
  destruct (c <? 0x10000) eqn:?; [done|lia].
Qed.


Lemma ucs4_to_utf8_transcodes M :
  M ≤ 0x10FFFF → transcodes (λ _ _, true) u32_ok (upto M) ucs utf8 (ucs4_to_utf8_body M).
Proof.
  intros HM. apply (encoder_transcodes u32_ok (upto M)); [by intros c; apply upto_u32|].
  intros. by apply ucs4_to_utf8_body_spec.
Qed.

Lemma ucs2_to_utf8_transcodes M :
  transcodes (λ _ _, true) u16_ok (bmp M) ucs utf8 (ucs2_to_utf8_body M).
Proof.
  apply (encoder_transcodes u16_ok (bmp M)); [by intros c; apply upto_u16|].
  intros. by apply ucs2_to_utf8_body_spec.
Qed.

(** ** The decoders *)

(** Where a decoder's tests succeed a well-formed character begins; conversely its
    tests succeed there. *)
Lemma utf8_cases c :
  scalar c →
  ∃ c1 cs, utf8 c = c1 :: cs ∧ byte_ok c1 ∧ Forall byte_ok cs ∧
  match cs with
  | [] => 0 ≤ c1 < 0x80 ∧ c = c1
  | [c2] => 0xC2 ≤ c1 < 0xE0 ∧ not_trail c2 = false
      ∧ ((c1 .& 0x1F) << 6) .| (c2 .& 0x3F) = c
  | [c2; c3] => 0xE0 ≤ c1 < 0xF0 ∧ bad_second_of_3 c1 c2 = false ∧ not_trail c3 = false
      ∧ ((c1 .& 0x0F) << 12) .| ((c2 .& 0x3F) << 6) .| (c3 .& 0x3F) = c
  | [c2; c3; c4] => 0xF0 ≤ c1 < 0xF5 ∧ bad_second_of_4 c1 c2 = false
      ∧ not_trail c3 || not_trail c4 = false
      ∧ ((c1 .& 0x07) << 18) .| ((c2 .& 0x3F) << 12) .| ((c3 .& 0x3F) << 6) .| (c4 .& 0x3F) = c
  | _ => False
  end.
Proof.
  intros Hc. pose proof (utf8_bytes c Hc) as Hb. destruct (utf8_well_formed c Hc) as [Hw Hv].
  destruct (utf8 c) as [|c1 cs]; [done|]. exists c1, cs. split; [done|].
  apply Forall_cons in Hb as [H1 Hb]. do 2 (split; [done|]).
  destruct cs as [|c2 [|c3 [|c4 [|]]]]; [..|done]; rewrite ?Forall_cons in Hb; destruct_and?; rewrite <- Hv; clear Hv;
    pose proof Hw as Hw'; unfold well_formed, between in Hw'.
  - unfold utf8_value. lia.
  - assert (0xC2 ≤ c1 < 0xE0) by lia. rewrite well_formed_2 in Hw by done.
    apply negb_true_iff in Hw. by rewrite value_2.
  - assert (0xE0 ≤ c1 < 0xF0) by lia. rewrite value_3 by done. rewrite well_formed_3 in Hw by done.
    apply andb_true_iff in Hw as [? ?]. rewrite <- !negb_true_iff. auto.
  - assert (0xF0 ≤ c1 < 0xF5) by lia. rewrite value_4 by done. rewrite well_formed_4 in Hw by done.
    apply andb_true_iff in Hw as [? ?]. rewrite <- !negb_true_iff. auto.
Qed.

Definition is_utf8 (v : Z) (bs : list Z) : Prop := scalar v ∧ utf8 v = bs.

Lemma read_1 c1 : 0 ≤ c1 < 0x80 → is_utf8 c1 [c1].
Proof. unfold is_utf8, scalar, utf8. intros. split; [lia|]. by case_match; [|lia]. Qed.

Lemma read_2 c1 c2 :
  byte_ok c2 → 0xC2 ≤ c1 < 0xE0 → not_trail c2 = false →
  is_utf8 (((c1 .& 0x1F) << 6) .| (c2 .& 0x3F)) [c1; c2].
Proof.
  intros H2 H1 Ht. rewrite value_2 by done. apply well_formed_utf8.
  by rewrite well_formed_2, Ht.
Qed.

Lemma read_3 c1 c2 c3 :
  byte_ok c2 → byte_ok c3 → 0xE0 ≤ c1 < 0xF0 → bad_second_of_3 c1 c2 = false → not_trail c3 = false →
  is_utf8 (((c1 .& 0x0F) << 12) .| ((c2 .& 0x3F) << 6) .| (c3 .& 0x3F)) [c1; c2; c3].
Proof.
  intros H2 H3 H1 Hb Ht.
  assert (well_formed [c1; c2; c3] = true) by by rewrite well_formed_3, Hb, Ht.
  rewrite value_3 by (done || unfold byte_ok; lia). by apply well_formed_utf8.
Qed.

Lemma read_4 c1 c2 c3 c4 :
  byte_ok c2 → byte_ok c3 → byte_ok c4 → 0xF0 ≤ c1 < 0xF5 →
  bad_second_of_4 c1 c2 = false → not_trail c3 || not_trail c4 = false →
  is_utf8 (((c1 .& 0x07) << 18) .| ((c2 .& 0x3F) << 12) .| ((c3 .& 0x3F) << 6) .| (c4 .& 0x3F))
    [c1; c2; c3; c4].
Proof.
  intros H2 H3 H4 H1 Hb Ht.
  assert (well_formed [c1; c2; c3; c4] = true) by by rewrite well_formed_4, Hb, Ht.
  rewrite value_4 by (done || unfold byte_ok; lia). by apply well_formed_utf8.
Qed.

(** Goes into the branch a decoder's tests select. *)
Ltac tests :=
  repeat match goal with
  | H : ?b = false |- context [if ?b then _ else _] => rewrite H
  | H : ?b = true |- context [if ?b then _ else _] => rewrite H
  | |- context [if ?a <? ?b then _ else _] =>
      first [assert ((a <? b) = false) as -> by lia | assert ((a <? b) = true) as -> by lia]
  end.

Lemma is_utf8_u32 v bs : is_utf8 v bs → u32 v = v.
Proof. intros [Hv _]. apply u32_small. unfold scalar in Hv. lia. Qed.

Lemma is_utf8_u16 v bs : is_utf8 v bs → (length bs ≤ 3)%nat → u16 v = v.
Proof.
  unfold is_utf8, scalar, utf8. intros [Hv <-] Hl. apply u16_small.
  repeat case_match; cbn in Hl; lia.
Qed.

(** What [tr_only] asks of a decoder to single units. *)
Lemma reads_ucs M v t bs rest room :
  is_utf8 v bs → t = v → (M <? t) = false → (0 <? room) = true →
  ∃ c rest', upto M c ∧ bs ++ rest = utf8 c ++ rest' ∧ length bs = length (utf8 c)
    ∧ [t] = ucs c ∧ zlen [t] ≤ room.
Proof.
  intros [Hv <-] -> HM Hr. exists v, rest. unfold upto. change (zlen [v]) with 1.
  repeat split; (done || lia).
Qed.

Lemma decode_going_ucs bs c rest room :
  (1 ≤ length bs)%nat → zlen (ucs c) ≤ room → decode_going 1 (bs ++ rest) room = true.
Proof. intros Hl Hr. apply decode_going_app; [unfold zlen; lia|].
  change (zlen (ucs c)) with 1 in Hr. lia. Qed.

Lemma utf8_to_ucs4_transcodes M :
  M ≤ 0x10FFFF →
  transcodes (decode_going 1) byte_ok (upto M) utf8 ucs (utf8_to_ucs4_body M).
Proof.
  intros HM. split.
  - intros c rest room [Hc Hle] Hr.
    pose proof (decode_going_ucs (utf8 c) c rest room (proj1 (utf8_length c)) Hr) as Hg.
    destruct (utf8_cases c Hc) as (c1 & cs & Hu & H1 & Hb & Hcs).
    exists c1, cs. do 2 (split; [done|]). clear Hg Hu.
    assert (Hu : u32 c = c) by (apply u32_small; unfold scalar in Hc; lia).
    assert ((M <? c) = false) by lia.
    destruct cs as [|c2 [|c3 [|c4 [|]]]]; [..|done]; destruct_and?; unfold utf8_to_ucs4_body;
      cbn [app]; cbv zeta; subst; tests; rewrite ?Hu; by tests.
  - intros c1 frm room n out Hf [_ Hr]%andb_true_iff. unfold utf8_to_ucs4_body. intros Hs.
    repeat case_match; simplify_eq; rewrite !Forall_cons in Hf; destruct_and?; unfold byte_ok in *.
    + assert (is_utf8 c1 [c1]) as Hv by (apply read_1; lia).
      pose proof (is_utf8_u32 _ _ Hv) as Hu. apply (reads_ucs M c1 _ [c1] frm); [done..| |done].
      by rewrite Hu.
    + eassert (is_utf8 _ [c1; _]) as Hv by (apply read_2; [..|done]; unfold byte_ok; lia).
      eapply (reads_ucs M _ _ [c1; _]); [exact Hv|exact (is_utf8_u32 _ _ Hv)|done|done].
    + eassert (is_utf8 _ [c1; _; _]) as Hv by (apply read_3; [..|done|done]; unfold byte_ok; lia).
      eapply (reads_ucs M _ _ [c1; _; _]); [exact Hv|exact (is_utf8_u32 _ _ Hv)|done|done].
    + eassert (is_utf8 _ [c1; _; _; _]) as Hv by (apply read_4; [..|done|done]; unfold byte_ok; lia).
      eapply (reads_ucs M _ _ [c1; _; _; _]); [exact Hv|exact (is_utf8_u32 _ _ Hv)|done|done].
Qed.

Lemma reads_bmp M v t bs rest room :
  is_utf8 v bs → t = v → (length bs ≤ 3)%nat → (M <? t) = false → (0 <? room) = true →
  ∃ c rest', bmp M c ∧ bs ++ rest = utf8 c ++ rest' ∧ length bs = length (utf8 c)
    ∧ [t] = ucs c ∧ zlen [t] ≤ room.
Proof.
  intros Hv -> Hl HM Hr. apply (reads_ucs _ v); try done.
  pose proof (u16_bound v) as Hb. rewrite (is_utf8_u16 v bs Hv Hl) in Hb. lia.
Qed.

Lemma utf8_to_ucs2_transcodes M :
  transcodes (decode_going 1) byte_ok (bmp M) utf8 ucs (utf8_to_ucs2_body M).
Proof.
  split.
  - intros c rest room [Hc Hle] Hr.
    pose proof (decode_going_ucs (utf8 c) c rest room (proj1 (utf8_length c)) Hr) as Hg.
    destruct (utf8_cases c Hc) as (c1 & cs & Hu & H1 & Hb & Hcs).
    exists c1, cs. do 2 (split; [done|]). clear Hg.
    assert (Hl : (length cs ≤ 2)%nat).
    { apply (f_equal length) in Hu. unfold utf8 in Hu. repeat case_match; cbn in *; lia. }
    assert (Hu2 : u16 c = c) by (apply u16_small; unfold scalar in Hc; lia).
    assert ((M <? c) = false) by lia. clear Hu.
    destruct cs as [|c2 [|c3 [|c4 cs]]]; [..|cbn in Hl; lia]; destruct_and?;
      unfold utf8_to_ucs2_body; cbn [app]; cbv zeta; subst; tests; rewrite ?Hu2; by tests.
  - intros c1 frm room n out Hf [_ Hr]%andb_true_iff. unfold utf8_to_ucs2_body. intros Hs.
    repeat case_match; simplify_eq; rewrite !Forall_cons in Hf; destruct_and?; unfold byte_ok in *.
    + assert (is_utf8 c1 [c1]) as Hv by (apply read_1; lia).
      assert (u16 c1 = c1) as Hu by (apply (is_utf8_u16 _ _ Hv); cbn; lia).
      apply (reads_bmp M c1 _ [c1] frm); [done..|cbn; lia| |done]. by rewrite Hu.
    + eassert (is_utf8 _ [c1; _]) as Hv by (apply read_2; [..|done]; unfold byte_ok; lia).
      eapply (reads_bmp M _ _ [c1; _]); [exact Hv|apply (is_utf8_u16 _ _ Hv); cbn; lia|cbn; lia|done|done].
    + eassert (is_utf8 _ [c1; _; _]) as Hv by (apply read_3; [..|done|done]; unfold byte_ok; lia).
      eapply (reads_bmp M _ _ [c1; _; _]); [exact Hv|apply (is_utf8_u16 _ _ Hv); cbn; lia|cbn; lia|done|done].
Qed.

(** ** The length functions *)

Lemma u32_lor a b : u32 (a .| b) = u32 a .| u32 b.
Proof. unfold u32, wrap. rewrite <- !Z.land_ones by lia. apply Z.land_lor_distr_l. Qed.

Lemma u16_lor a b : u16 (a .| b) = u16 a .| u16 b.
Proof. unfold u16, wrap. rewrite <- !Z.land_ones by lia. apply Z.land_lor_distr_l. Qed.

Lemma masked_field c j k : 0 ≤ j → 0 ≤ k → 0 ≤ (c .& Z.ones j) << k < 2 ^ (j + k).
Proof.
  intros Hj Hk. pose proof (get_field c j Hj). rewrite Z.shiftl_mul_pow2, Z.pow_add_r by lia. nia.
Qed.

Lemma u32_field c j k :
  0 ≤ j → 0 ≤ k → j + k ≤ 32 → u32 ((c .& Z.ones j) << k) = (c .& Z.ones j) << k.
Proof.
  intros Hj Hk Hl. apply u32_small. pose proof (masked_field c j k Hj Hk).
  pose proof (Z.pow_le_mono_r 2 (j + k) 32 ltac:(lia) Hl). lia.
Qed.

Lemma u16_field c j k :
  0 ≤ j → 0 ≤ k → j + k ≤ 16 → u16 ((c .& Z.ones j) << k) = (c .& Z.ones j) << k.
Proof.
  intros Hj Hk Hl. apply u16_small. pose proof (masked_field c j k Hj Hk).
  pose proof (Z.pow_le_mono_r 2 (j + k) 16 ltac:(lia) Hl). lia.
Qed.

Lemma u32_low6 c : u32 (c .& 0x3F) = c .& 0x3F.
Proof. apply u32_small. pose proof (get_field c 6 ltac:(lia)). change 0x3F with (Z.ones 6). lia. Qed.

Lemma u16_low6 c : u16 (c .& 0x3F) = c .& 0x3F.
Proof. apply u16_small. pose proof (get_field c 6 ltac:(lia)). change 0x3F with (Z.ones 6). lia. Qed.

Lemma utf8_to_ucs4_length_counts M : counts_like 1 (utf8_to_ucs4_length_body M) (utf8_to_ucs4_body M).
Proof.
  intros c1 frm mx _. unfold utf8_to_ucs4_length_body, utf8_to_ucs4_body. cbv zeta.
  repeat case_match; simplify_eq; try done; rewrite ?u32_lor, ?u32_low6 in *; congruence.
Qed.

Lemma utf8_to_ucs2_length_counts M : counts_like 1 (utf8_to_ucs2_length_body M) (utf8_to_ucs2_body M).
Proof.
  intros c1 frm mx _. unfold utf8_to_ucs2_length_body, utf8_to_ucs2_body. cbv zeta.
  change 0x3F with (Z.ones 6); change 0x1F with (Z.ones 5); change 0x0F with (Z.ones 4).
  assert (Hu : ∀ c j k, (0 <=? j) && (0 <=? k) && (j + k <=? 16) = true →
    u16 ((c .& Z.ones j) << k) = u32 ((c .& Z.ones j) << k)).
  { intros. rewrite u16_field, u32_field by lia. done. }
  assert (H6 : ∀ c, u16 (c .& Z.ones 6) = c .& Z.ones 6) by exact u16_low6.
  repeat case_match; simplify_eq; try done; rewrite ?u16_lor, ?H6 in *;
    rewrite ?Hu in * by done; congruence.
Qed.
