(* ===== verification/Utf16.v ===== *)
(** * Utf16: the UTF-16 conversions of [locale.cpp]

    [ucs4_to_utf16be], [utf16be_to_ucs4], [utf16be_to_ucs4_length], their UCS-2
    counterparts and the little endian ones.  The pairs differ in how a unit is
    put into two bytes and taken out of them, which is the interface
    [ByteOrder]. *)

From S2P Require Import Prelude Bits Codecvt Unicode.

(** ** Byte orders *)

(** How a conversion puts a unit and gets one from two bytes. *)
Record byte_order := ByteOrder { put16 : Z → list Z; get16 : Z → Z → Z }.

Definition big : byte_order :=
  ByteOrder (λ t, [u8 (t >> 8); u8 t]) (λ b0 b1, u16 ((b0 << 8) .| b1)).
Definition little : byte_order :=
  ByteOrder (λ t, [u8 t; u8 (t >> 8)]) (λ b0 b1, u16 ((b1 << 8) .| b0)).

(** What the conversions need of a byte order. *)
Class LawfulOrder (o : byte_order) := {
  put_get w : u16_ok w →
    ∃ b0 b1, put16 o w = [b0; b1] ∧ byte_ok b0 ∧ byte_ok b1 ∧ get16 o b0 b1 = w;
  get_put b0 b1 : byte_ok b0 → byte_ok b1 →
    u16_ok (get16 o b0 b1) ∧ put16 o (get16 o b0 b1) = [b0; b1] }.

Definition utf16be_mark : list Z := [0xFE; 0xFF].
Definition utf16le_mark : list Z := [0xFF; 0xFE].

(** ** UCS-4 *)

Definition high_half (wc : Z) : Z :=
  u16 (0xD800 .| ((((wc .& 0x1F0000) >> 16) - 1) << 6) .| ((wc .& 0x00FC00) >> 10)).

Definition low_half (wc : Z) : Z := u16 (0xDC00 .| (wc .& 0x03FF)).

Definition ucs4_to_utf16_body (o : byte_order) (Maxcode : Z) : body := λ wc _ room,
  if (wc .& 0xFFFFF800 =? 0x00D800) || (Maxcode <? wc) then Return error
  else if wc <? 0x010000 then
    if room <? 2 then Return partial
    else Next 1 (put16 o wc)
  else
    if room <? 4 then Return partial
    else Next 1 (put16 o (high_half wc) ++ put16 o (low_half wc)).

(** The character of two halves. *)
Definition of_halves (c1 c2 : Z) : Z :=
  u32 (((((c1 .& 0x03C0) >> 6) + 1) << 16) .| ((c1 .& 0x003F) << 10) .| (c2 .& 0x03FF)).

(** The loop's condition promises the second byte. *)
Definition utf16_to_ucs4_body (o : byte_order) (Maxcode : Z) : body := λ b0 rest _,
  match rest with
  | [] => Return partial
  | b1 :: rest' =>
      let c1 := get16 o b0 b1 in
      if c1 .& 0xFC00 =? 0xDC00 then Return error
      else if negb (c1 .& 0xFC00 =? 0xD800) then
        if Maxcode <? c1 then Return error else Next 2 [u32 c1]
      else
        match rest' with
        | b2 :: b3 :: _ =>
            let c2 := get16 o b2 b3 in
            if negb (c2 .& 0xFC00 =? 0xDC00) then Return error
            else if Maxcode <? of_halves c1 c2 then Return error
            else Next 4 [of_halves c1 c2]
        | _ => Return partial
        end
  end.

Definition utf16_to_ucs4_length_body (o : byte_order) (Maxcode : Z)
    (b0 : Z) (rest : list Z) (_ : Z) : counting :=
  match rest with
  | [] => Break
  | b1 :: rest' =>
      let c1 := get16 o b0 b1 in
      if c1 .& 0xFC00 =? 0xDC00 then Break
      else if negb (c1 .& 0xFC00 =? 0xD800) then
        if Maxcode <? c1 then Break else Count 2 1
      else
        match rest' with
        | b2 :: b3 :: _ =>
            let c2 := get16 o b2 b3 in
            if negb (c2 .& 0xFC00 =? 0xDC00) then Break
            else if Maxcode <? of_halves c1 c2 then Break
            else Count 4 1
        | _ => Break
        end
  end.

Definition ucs4_to_utf16be (Maxcode mode : Z) : list Z → Z → conversion :=
  with_header utf16be_mark mode (encode_loop (ucs4_to_utf16_body big Maxcode)).

Definition utf16be_to_ucs4 (Maxcode mode : Z) (frm : list Z) (room : Z) : conversion :=
  decode_loop 2 (utf16_to_ucs4_body big Maxcode) (skip_header utf16be_mark mode frm) room.

Definition utf16be_to_ucs4_length (Maxcode mode : Z) (frm : list Z) (mx : Z) : Z :=
  distance frm
    (count 2 (utf16_to_ucs4_length_body big Maxcode) 0 (skip_header utf16be_mark mode frm) mx).

Definition ucs4_to_utf16le (Maxcode mode : Z) : list Z → Z → conversion :=
  with_header utf16le_mark mode (encode_loop (ucs4_to_utf16_body little Maxcode)).

Definition utf16le_to_ucs4 (Maxcode mode : Z) (frm : list Z) (room : Z) : conversion :=
  decode_loop 2 (utf16_to_ucs4_body little Maxcode) (skip_header utf16le_mark mode frm) room.

Definition utf16le_to_ucs4_length (Maxcode mode : Z) (frm : list Z) (mx : Z) : Z :=
  distance frm
    (count 2 (utf16_to_ucs4_length_body little Maxcode) 0 (skip_header utf16le_mark mode frm) mx).

(** ** UCS-2 *)

Definition ucs2_to_utf16_body (o : byte_order) (Maxcode : Z) : body := λ wc _ room,
  if (wc .& 0xF800 =? 0xD800) || (Maxcode <? wc) then Return error
  else if room <? 2 then Return partial
  else Next 1 (put16 o wc).

Definition utf16_to_ucs2_body (o : byte_order) (Maxcode : Z) : body := λ b0 rest _,
  match rest with
  | [] => Return partial
  | b1 :: _ =>
      let c1 := get16 o b0 b1 in
      if (c1 .& 0xF800 =? 0xD800) || (Maxcode <? c1) then Return error else Next 2 [c1]
  end.

Definition utf16_to_ucs2_length_body (o : byte_order) (Maxcode : Z)
    (b0 : Z) (rest : list Z) (_ : Z) : counting :=
  match rest with
  | [] => Break
  | b1 :: _ =>
      let c1 := get16 o b0 b1 in
      if (c1 .& 0xF800 =? 0xD800) || (Maxcode <? c1) then Break else Count 2 1
  end.

Definition ucs2_to_utf16be (Maxcode mode : Z) : list Z → Z → conversion :=
  with_header utf16be_mark mode (encode_loop (ucs2_to_utf16_body big Maxcode)).

Definition utf16be_to_ucs2 (Maxcode mode : Z) (frm : list Z) (room : Z) : conversion :=
  decode_loop 2 (utf16_to_ucs2_body big Maxcode) (skip_header utf16be_mark mode frm) room.

Definition utf16be_to_ucs2_length (Maxcode mode : Z) (frm : list Z) (mx : Z) : Z :=
  distance frm
    (count 2 (utf16_to_ucs2_length_body big Maxcode) 0 (skip_header utf16be_mark mode frm) mx).

Definition ucs2_to_utf16le (Maxcode mode : Z) : list Z → Z → conversion :=
  with_header utf16le_mark mode (encode_loop (ucs2_to_utf16_body little Maxcode)).

Definition utf16le_to_ucs2 (Maxcode mode : Z) (frm : list Z) (room : Z) : conversion :=
  decode_loop 2 (utf16_to_ucs2_body little Maxcode) (skip_header utf16le_mark mode frm) room.

Definition utf16le_to_ucs2_length (Maxcode mode : Z) (frm : list Z) (mx : Z) : Z :=
  distance frm
    (count 2 (utf16_to_ucs2_length_body little Maxcode) 0 (skip_header utf16le_mark mode frm) mx).

(** ** The byte orders are lawful *)

Lemma get_be b0 b1 : byte_ok b0 → byte_ok b1 → u16 ((b0 << 8) .| b1) = b0 * 256 + b1.
Proof.
  unfold byte_ok. intros. rewrite Z.shiftl_mul_pow2, (lor_add 8) by (Z.div_mod_to_equations; lia).
  apply u16_small. lia.
Qed.

Lemma put_high t : u16_ok t → u8 (t >> 8) = t / 256.
Proof.
  unfold u16_ok. intros. rewrite Z.shiftr_div_pow2 by lia. apply u8_small.
  Z.div_mod_to_equations. lia.
Qed.

#[export] Instance big_lawful : LawfulOrder big.
Proof.
  split; unfold big, put16, get16.
  - intros w Hw. rewrite put_high by done. exists (w / 256), (u8 w). unfold u8, wrap, u16_ok in *.
    assert (byte_ok (w / 256) ∧ byte_ok (w mod 2 ^ 8)) as [? ?]
      by (unfold byte_ok; Z.div_mod_to_equations; lia).
    rewrite get_be by done. do 3 (split; [done|]). Z.div_mod_to_equations. lia.
  - intros b0 b1 H0 H1. rewrite get_be by done. unfold byte_ok in *.
    assert (Hu : u16_ok (b0 * 256 + b1)) by (unfold u16_ok; lia). split; [done|].
    rewrite put_high by done. unfold u8, wrap. repeat f_equal; Z.div_mod_to_equations; lia.
Qed.

#[export] Instance little_lawful : LawfulOrder little.
Proof.
  split; unfold little, put16, get16.
  - intros w Hw. destruct (put_get (o := big) w Hw) as (b0 & b1 & He & H0 & H1 & Hg).
    injection He as He0 He1. rewrite He0, He1. by exists b1, b0.
  - intros b0 b1 H0 H1. destruct (get_put (o := big) b1 b0 H1 H0) as [Hu He]. split; [done|].
    injection He as He0 He1. unfold big, get16 in He0, He1. by rewrite He0, He1.
Qed.

(** The bytes of a text's UTF-16 units. *)
Definition utf16_in (o : byte_order) (c : Z) : list Z := concat (map (put16 o) (utf16 c)).

Lemma utf16_in_big c : scalar c → utf16_in big c = utf16be c.
Proof.
  intros Hc%utf16_units. unfold utf16_in, utf16be. f_equal. apply map_ext_Forall.
  eapply Forall_impl; [exact Hc|]. intros u Hu. unfold big, put16, be. by rewrite put_high.
Qed.

Lemma utf16_in_little c : scalar c → utf16_in little c = utf16le c.
Proof.
  intros Hc%utf16_units. unfold utf16_in, utf16le. f_equal. apply map_ext_Forall.
  eapply Forall_impl; [exact Hc|]. intros u Hu. unfold little, put16, le. by rewrite put_high.
Qed.

(** ** Halves *)

Definition is_high (w : Z) : bool := (0xD800 <=? w) && (w <? 0xDC00).
Definition is_low (w : Z) : bool := (0xDC00 <=? w) && (w <? 0xE000).

Lemma high_mask c : u16_ok c → (c .& 0xFC00 =? 0xD800) = is_high c.
Proof.
  unfold u16_ok, is_high. intros. change 0xFC00 with (Z.ones 6 << 10).
  rewrite land_field by lia. Z.div_mod_to_equations. lia.
Qed.

Lemma low_mask c : u16_ok c → (c .& 0xFC00 =? 0xDC00) = is_low c.
Proof.
  unfold u16_ok, is_low. intros. change 0xFC00 with (Z.ones 6 << 10).
  rewrite land_field by lia. Z.div_mod_to_equations. lia.
Qed.

Lemma high_half_eq c : 0x10000 ≤ c ≤ 0x10FFFF → high_half c = 0xD800 + (c - 0x10000) / 1024.
Proof.
  intros Hc. unfold high_half. change 0x1F0000 with (Z.ones 5 << 16). change 0xFC00 with (Z.ones 6 << 10).
  rewrite !land_field, !Z.shiftr_div_pow2, !Z.div_mul, Z.shiftl_mul_pow2 by lia.
  rewrite (lor_add 10 0xD800), (lor_add 6) by (Z.div_mod_to_equations; lia).
  rewrite u16_small; Z.div_mod_to_equations; lia.
Qed.

Lemma low_half_eq c : low_half c = 0xDC00 + c mod 1024.
Proof.
  unfold low_half. change 0x3FF with (Z.ones 10). rewrite land_low by lia.
  rewrite (lor_add 10) by (Z.div_mod_to_equations; lia).
  apply u16_small. Z.div_mod_to_equations. lia.
Qed.

Lemma of_halves_eq c1 c2 :
  is_high c1 = true → is_low c2 = true →
  of_halves c1 c2 = 0x10000 + (c1 - 0xD800) * 1024 + (c2 - 0xDC00).
Proof.
  unfold is_high, is_low, of_halves. intros H1 H2. change 0x3C0 with (Z.ones 4 << 6). change 0x3F with (Z.ones 6).
  change 0x3FF with (Z.ones 10).
  rewrite land_field, !land_low, Z.shiftr_div_pow2, Z.div_mul, !Z.shiftl_mul_pow2 by lia.
  rewrite (lor_add 16 (_ * 2 ^ 16)), (lor_add 10 (_ + _)) by (Z.div_mod_to_equations; lia).
  rewrite u32_small; Z.div_mod_to_equations; lia.
Qed.

(** A pair is the UTF-16 form of its character. *)
Lemma utf16_pair c1 c2 :
  is_high c1 = true → is_low c2 = true →
  scalar (of_halves c1 c2) ∧ 0x10000 ≤ of_halves c1 c2 ∧ utf16 (of_halves c1 c2) = [c1; c2].
Proof.
  intros H1 H2. rewrite of_halves_eq by done. unfold is_high, is_low, scalar, utf16 in *.
  do 2 (split; [lia|]). case_match; [lia|]. repeat f_equal; Z.div_mod_to_equations; lia.
Qed.

Lemma utf16_single c : u16_ok c → is_high c = false → is_low c = false → scalar c ∧ utf16 c = [c].
Proof.
  unfold u16_ok, is_high, is_low, scalar, utf16. intros. split; [lia|]. case_match; [done|lia].
Qed.

(** What a character's form can be. *)
Lemma utf16_cases c :
  scalar c →
  (utf16 c = [c] ∧ c < 0x10000 ∧ u16_ok c ∧ is_high c = false ∧ is_low c = false)
  ∨ ∃ c1 c2, utf16 c = [c1; c2] ∧ 0x10000 ≤ c ∧ u16_ok c1 ∧ u16_ok c2
      ∧ is_high c1 = true ∧ is_low c2 = true ∧ of_halves c1 c2 = c
      ∧ high_half c = c1 ∧ low_half c = c2.
Proof.
  intros Hc. unfold utf16. destruct (Z.ltb_spec c 0x10000).
  - left. unfold scalar, u16_ok, is_high, is_low in *. repeat split; lia.
  - right. unfold scalar in Hc. eexists _, _. split; [done|].
    assert (Hh : is_high (0xD800 + (c - 0x10000) / 1024) = true)
      by (unfold is_high; Z.div_mod_to_equations; lia).
    assert (Hl : is_low (0xDC00 + (c - 0x10000) mod 1024) = true)
      by (unfold is_low; Z.div_mod_to_equations; lia).
    rewrite of_halves_eq, high_half_eq, low_half_eq by (done || lia).
    unfold u16_ok, is_high, is_low in *. repeat split; try lia; Z.div_mod_to_equations; lia.
Qed.

Section order.
Context (o : byte_order) `{!LawfulOrder o}.

Lemma put16_length w : u16_ok w → zlen (put16 o w) = 2.
Proof. intros Hw. destruct (put_get w Hw) as (b0 & b1 & -> & _). done. Qed.

Lemma utf16_in_single c : utf16 c = [c] → utf16_in o c = put16 o c.
Proof. unfold utf16_in. intros ->. apply app_nil_r. Qed.

Lemma utf16_in_pair c c1 c2 : utf16 c = [c1; c2] → utf16_in o c = put16 o c1 ++ put16 o c2.
Proof. unfold utf16_in. intros ->. cbn. by rewrite app_nil_r. Qed.

(** ** The encoders *)

Lemma ucs4_to_utf16_body_spec M c rest room :
  u32_ok c → M ≤ 0x10FFFF →
  ucs4_to_utf16_body o M c rest room
  = if decide (upto M c) then
      if room <? zlen (utf16_in o c) then Return partial else Next 1 (utf16_in o c)
    else Return error.
Proof.
  intros Hc HM. unfold ucs4_to_utf16_body. rewrite surrogate_mask32 by done.
  case_decide as Hu; [|unfold u32_ok, upto, scalar in *; case_match; [done|lia]].
  assert (Hs := proj1 Hu). unfold upto, scalar in Hs. destruct Hu as [Hu HuM]. else_branch.
  destruct (utf16_cases c Hu) as
    [(He & Hlt & Hok & _)|(c1 & c2 & He & Hge & Hok1 & Hok2 & _ & _ & _ & -> & ->)].
  - rewrite (utf16_in_single c He), put16_length by done. by then_branch.
  - rewrite (utf16_in_pair c c1 c2 He), zlen_app, !put16_length by done.
    by else_branch.
Qed.

Lemma ucs2_to_utf16_body_spec M c rest room :
  u16_ok c →
  ucs2_to_utf16_body o M c rest room
  = if decide (bmp M c) then
      if room <? zlen (utf16_in o c) then Return partial else Next 1 (utf16_in o c)
    else Return error.
Proof.
  intros Hc. unfold ucs2_to_utf16_body. rewrite surrogate_mask16 by done.
  case_decide as Hu; [|unfold u16_ok, bmp, upto, scalar in *; case_match; [done|lia]].
  assert (Hs := proj1 Hu). unfold upto, scalar in Hs. destruct Hu as [Hu HuM]. else_branch.
  destruct (utf16_cases c Hu) as [(He & _)|(c1 & c2 & _ & Hge & _)].
  - by rewrite (utf16_in_single c He), put16_length by done.
  - unfold u16_ok in Hc. lia.
Qed.

Lemma ucs4_to_utf16_transcodes M :
  M ≤ 0x10FFFF → transcodes (λ _ _, true) u32_ok (upto M) ucs (utf16_in o) (ucs4_to_utf16_body o M).
Proof.
  intros HM. apply (encoder_transcodes u32_ok (upto M)); [by intros c; apply upto_u32|].
  intros. by apply ucs4_to_utf16_body_spec.
Qed.

Lemma ucs2_to_utf16_transcodes M :
  transcodes (λ _ _, true) u16_ok (bmp M) ucs (utf16_in o) (ucs2_to_utf16_body o M).
Proof.
  apply (encoder_transcodes u16_ok (bmp M)); [by intros c; apply upto_u16|].
  intros. by apply ucs2_to_utf16_body_spec.
Qed.

(** ** The decoders *)

Lemma decode_going_utf16 c rest room :
  scalar c → zlen (ucs c) ≤ room → decode_going 2 (utf16_in o c ++ rest) room = true.
Proof.
  intros Hc Hr. change (zlen (ucs c)) with 1 in Hr. apply decode_going_app; [|lia].
  destruct (utf16_cases c Hc) as [(He & _ & Hok & _)|(c1 & c2 & He & _ & Hok1 & Hok2 & _)].
  - rewrite (utf16_in_single c He), put16_length by done. lia.
  - rewrite (utf16_in_pair c c1 c2 He), zlen_app, !put16_length by done. lia.
Qed.

Lemma utf16_to_ucs4_transcodes M :
  M ≤ 0x10FFFF →
  transcodes (decode_going 2) byte_ok (upto M) (utf16_in o) ucs (utf16_to_ucs4_body o M).
Proof.
  intros HM. split.
  - intros c rest room [Hc Hle] Hr. pose proof (decode_going_utf16 c rest room Hc Hr) as Hg.
    destruct (utf16_cases c Hc) as
      [(He & _ & Hok & Hh & Hl)|(c1 & c2 & He & Hge & Hok1 & Hok2 & Hh & Hl & Hof & _)].
    + rewrite (utf16_in_single c He) in *.
      destruct (put_get c Hok) as (b0 & b1 & Hp & H0 & H1 & Hget). rewrite Hp in *.
      exists b0, [b1]. do 2 (split; [done|]). cbn [app utf16_to_ucs4_body]. cbv zeta.
      rewrite Hget, low_mask, high_mask, Hh, Hl by done. cbn [negb].
      else_branch. rewrite u32_small by (unfold u16_ok in Hok; lia). done.
    + rewrite (utf16_in_pair c c1 c2 He) in *.
      destruct (put_get c1 Hok1) as (b0 & b1 & Hp & H0 & H1 & Hget).
      destruct (put_get c2 Hok2) as (b2 & b3 & Hp2 & H2 & H3 & Hget2). rewrite Hp, Hp2 in *.
      exists b0, [b1; b2; b3]. do 2 (split; [done|]). cbn [app utf16_to_ucs4_body]. cbv zeta.
      rewrite Hget, Hget2, !low_mask, high_mask, Hh, Hl by done.
      assert (is_low c1 = false) as -> by (unfold is_high, is_low in *; lia). cbn [negb].
      rewrite Hof. by else_branch.
  - intros b0 frm room n out Hf [_ Hr]%andb_true_iff. unfold utf16_to_ucs4_body. intros Hs.
    destruct frm as [|b1 frm]; [done|]. rewrite !Forall_cons in Hf. destruct Hf as (H0 & H1 & Hf).
    destruct (get_put b0 b1 H0 H1) as [Hok Hp]. rewrite low_mask, high_mask in Hs by done.
    destruct (is_low (get16 o b0 b1)) eqn:Hl; [done|].
    destruct (is_high (get16 o b0 b1)) eqn:Hh; cbn [negb] in Hs.
    + destruct frm as [|b2 [|b3 frm]]; [done..|]. rewrite !Forall_cons in Hf.
      destruct Hf as (H2 & H3 & Hf). destruct (get_put b2 b3 H2 H3) as [Hok2 Hp2].
      rewrite low_mask in Hs by done. destruct (is_low (get16 o b2 b3)) eqn:Hl2; [|done].
      destruct (utf16_pair _ _ Hh Hl2) as (Hsc & _ & He).
      cbn [negb] in Hs. case_match; [done|]. simplify_eq. eexists _, frm.
      rewrite (utf16_in_pair _ _ _ He), Hp, Hp2. unfold upto. change (zlen [_]) with 1.
      repeat split; (done || lia).
    + destruct (utf16_single _ Hok Hh Hl) as [Hsc He]. case_match; [done|]. simplify_eq.
      exists (get16 o b0 b1), frm. rewrite (utf16_in_single _ He), Hp.
      rewrite u32_small by (unfold u16_ok in Hok; lia). unfold upto. change (zlen [_]) with 1.
      repeat split; (done || lia).
Qed.

Lemma utf16_to_ucs2_transcodes M :
  transcodes (decode_going 2) byte_ok (bmp M) (utf16_in o) ucs (utf16_to_ucs2_body o M).
Proof.
  split.
  - intros c rest room [Hc Hle] Hr. pose proof (decode_going_utf16 c rest room Hc Hr) as Hg.
    destruct (utf16_cases c Hc) as [(He & _ & Hok & Hh & Hl)|(c1 & c2 & He & Hge & _)]; [|lia].
    rewrite (utf16_in_single c He) in *.
    destruct (put_get c Hok) as (b0 & b1 & Hp & H0 & H1 & Hget). rewrite Hp in *.
    exists b0, [b1]. do 2 (split; [done|]). cbn [app utf16_to_ucs2_body]. cbv zeta.
    rewrite Hget, surrogate_mask16 by done. unfold scalar in Hc.
    by else_branch.
  - intros b0 frm room n out Hf [_ Hr]%andb_true_iff. unfold utf16_to_ucs2_body. intros Hs.
    destruct frm as [|b1 frm]; [done|]. rewrite !Forall_cons in Hf. destruct Hf as (H0 & H1 & Hf).
    destruct (get_put b0 b1 H0 H1) as [Hok Hp]. rewrite surrogate_mask16 in Hs by done.
    destruct (_ || _) eqn:Ht in Hs; [done|]. simplify_eq.
    destruct (utf16_single (get16 o b0 b1)) as [Hsc He]; [done|unfold is_high, is_low; lia..|].
    exists (get16 o b0 b1), frm. rewrite (utf16_in_single _ He), Hp. unfold bmp, upto, u16_ok in *.
    change (zlen [_]) with 1. repeat split; (done || lia).
Qed.

(** ** The length functions *)

Lemma utf16_to_ucs4_length_counts M :
  counts_like 2 (utf16_to_ucs4_length_body o M) (utf16_to_ucs4_body o M).
Proof.
  intros b0 frm mx _. unfold utf16_to_ucs4_length_body, utf16_to_ucs4_body. cbv zeta.
  repeat case_match; simplify_eq; done.
Qed.

Lemma utf16_to_ucs2_length_counts M :
  counts_like 2 (utf16_to_ucs2_length_body o M) (utf16_to_ucs2_body o M).
Proof.
  intros b0 frm mx _. unfold utf16_to_ucs2_length_body, utf16_to_ucs2_body. cbv zeta.
  repeat case_match; simplify_eq; done.
Qed.

End order.
