(* ===== verification/Utf8Utf16.v ===== *)
(** * Utf8Utf16: between UTF-16 units and UTF-8 in [locale.cpp]

    [utf16_to_utf8] and [utf8_to_utf16], each an overload on [uint16_t] and one on
    [uint32_t] units, and [utf8_to_utf16_length].  The overloads' bodies differ in
    the cast of a unit they read or write. *)

From S2P Require Import Prelude Bits Codecvt Unicode Utf8 Utf16.

(** ** From UTF-16 *)

Definition utf16_to_utf8_body (cast : Z → Z) (Maxcode : Z) : body := λ u rest room,
  let wc1 := cast u in
  if Maxcode <? wc1 then Return error
  else if wc1 <? 0x0080 then
    if room <? 1 then Return partial
    else Next 1 [u8 wc1]
  else if wc1 <? 0x0800 then
    if room <? 2 then Return partial
    else Next 1 [u8 (0xC0 .| (wc1 >> 6)); u8 (0x80 .| (wc1 .& 0x03F))]
  else if wc1 <? 0xD800 then
    if room <? 3 then Return partial
    else Next 1 [u8 (0xE0 .| (wc1 >> 12)); u8 (0x80 .| ((wc1 .& 0x0FC0) >> 6));
                 u8 (0x80 .| (wc1 .& 0x003F))]
  else if wc1 <? 0xDC00 then
    match rest with
    | u' :: _ =>
        let wc2 := cast u' in
        if negb (wc2 .& 0xFC00 =? 0xDC00) then Return error
        else if room <? 4 then Return partial
        else if Maxcode <? ((((wc1 .& 0x03C0) >> 6) + 1) << 16) + ((wc1 .& 0x003F) << 10)
                           + (wc2 .& 0x03FF)
             then Return error
        else
          let z := u8 (((wc1 .& 0x03C0) >> 6) + 1) in
          Next 2 [u8 (0xF0 .| (z >> 2));
                  u8 (0x80 .| ((z .& 0x03) << 4) .| ((wc1 .& 0x003C) >> 2));
                  u8 (0x80 .| ((wc1 .& 0x0003) << 4) .| ((wc2 .& 0x03C0) >> 6));
                  u8 (0x80 .| (wc2 .& 0x003F))]
    | [] => Return partial
    end
  else if wc1 <? 0xE000 then Return error
  else
    if room <? 3 then Return partial
    else Next 1 [u8 (0xE0 .| (wc1 >> 12)); u8 (0x80 .| ((wc1 .& 0x0FC0) >> 6));
                 u8 (0x80 .| (wc1 .& 0x003F))].

(** On [uint16_t], and on [uint32_t], whose units are cast to [uint16_t]. *)
Definition utf16_to_utf8 (Maxcode mode : Z) : list Z → Z → conversion :=
  with_header utf8_mark mode (encode_loop (utf16_to_utf8_body (λ u, u) Maxcode)).

Definition utf16_to_utf8_32 (Maxcode mode : Z) : list Z → Z → conversion :=
  with_header utf8_mark mode (encode_loop (utf16_to_utf8_body u16 Maxcode)).

(** ** To UTF-16 *)

Definition utf8_to_utf16_body (cast : Z → Z) (Maxcode : Z) : body := λ c1 rest room,
  if Maxcode <? c1 then Return error
  else if c1 <? 0x80 then Next 1 [cast c1]
  else if c1 <? 0xC2 then Return error
  else if c1 <? 0xE0 then
    match rest with
    | c2 :: _ =>
        if not_trail c2 then Return error
        else
          let t := u16 (((c1 .& 0x1F) << 6) .| (c2 .& 0x3F)) in
          if Maxcode <? t then Return error else Next 2 [cast t]
    | _ => Return partial
    end
  else if c1 <? 0xF0 then
    match rest with
    | c2 :: c3 :: _ =>
        if bad_second_of_3 c1 c2 then Return error
        else if not_trail c3 then Return error
        else
          let t := u16 (((c1 .& 0x0F) << 12) .| ((c2 .& 0x3F) << 6) .| (c3 .& 0x3F)) in
          if Maxcode <? t then Return error else Next 3 [cast t]
    | _ => Return partial
    end
  else if c1 <? 0xF5 then
    match rest with
    | c2 :: c3 :: c4 :: _ =>
        if bad_second_of_4 c1 c2 then Return error
        else if not_trail c3 || not_trail c4 then Return error
        else if room <? 2 then Return partial
        else if Maxcode <? ((c1 .& 7) << 18) + ((c2 .& 0x3F) << 12) + ((c3 .& 0x3F) << 6)
                           + (c4 .& 0x3F)
             then Return error
        else Next 4 [cast (0xD800 .| (((((c1 .& 0x07) << 2) .| ((c2 .& 0x30) >> 4)) - 1) << 6)
                           .| ((c2 .& 0x0F) << 2) .| ((c3 .& 0x30) >> 4));
                     cast (0xDC00 .| ((c3 .& 0x0F) << 6) .| (c4 .& 0x3F))]
    | _ => Return partial
    end
  else Return error.

Definition utf8_to_utf16 (Maxcode mode : Z) (frm : list Z) (room : Z) : conversion :=
  decode_loop 1 (utf8_to_utf16_body u16 Maxcode) (skip_header utf8_mark mode frm) room.

Definition utf8_to_utf16_32 (Maxcode mode : Z) (frm : list Z) (room : Z) : conversion :=
  decode_loop 1 (utf8_to_utf16_body u32 Maxcode) (skip_header utf8_mark mode frm) room.

Definition utf8_to_utf16_length_body (Maxcode : Z) (c1 : Z) (rest : list Z) (mx : Z) : counting :=
  if Maxcode <? c1 then Break
  else if c1 <? 0x80 then Count 1 1
  else if c1 <? 0xC2 then Break
  else if c1 <? 0xE0 then
    match rest with
    | c2 :: _ =>
        if not_trail c2 then Break
        else if Maxcode <? u16 (((c1 .& 0x1F) << 6) .| (c2 .& 0x3F)) then Break
        else Count 2 1
    | _ => Break
    end
  else if c1 <? 0xF0 then
    match rest with
    | c2 :: c3 :: _ =>
        if bad_second_of_3 c1 c2 then Break
        else if not_trail c3 then Break
        else if Maxcode <? (((c1 .& 0x0F) << 12) .| ((c2 .& 0x3F) << 6) .| (c3 .& 0x3F)) then Break
        else Count 3 1
    | _ => Break
    end
  else if c1 <? 0xF5 then
    match rest with
    | c2 :: c3 :: c4 :: _ =>
        if mx <? 2 then Break
        else if bad_second_of_4 c1 c2 then Break
        else if not_trail c3 || not_trail c4 then Break
        else if Maxcode <? ((c1 .& 7) << 18) + ((c2 .& 0x3F) << 12) + ((c3 .& 0x3F) << 6)
                           + (c4 .& 0x3F) then Break
        else Count 4 2
    | _ => Break
    end
  else Break.

Definition utf8_to_utf16_length (Maxcode mode : Z) (frm : list Z) (mx : Z) : Z :=
  distance frm (count 1 (utf8_to_utf16_length_body Maxcode) 0 (skip_header utf8_mark mode frm) mx).

(** ** The bit operations *)

(** The sums the code compares with [Maxcode] are the characters. *)
Lemma halves_sum c1 c2 :
  is_high c1 = true → is_low c2 = true →
  ((((c1 .& 0x03C0) >> 6) + 1) << 16) + ((c1 .& 0x003F) << 10) + (c2 .& 0x03FF) = of_halves c1 c2.
Proof.
  intros H1 H2. rewrite of_halves_eq by done. unfold is_high, is_low in *.
  change 0x3C0 with (Z.ones 4 << 6). change 0x3F with (Z.ones 6). change 0x3FF with (Z.ones 10).
  rewrite land_field, !land_low, Z.shiftr_div_pow2, Z.div_mul, !Z.shiftl_mul_pow2 by lia.
  Z.div_mod_to_equations. lia.
Qed.

Lemma utf8_sum c1 c2 c3 c4 :
  well_formed [c1; c2; c3; c4] = true →
  ((c1 .& 7) << 18) + ((c2 .& 0x3F) << 12) + ((c3 .& 0x3F) << 6) + (c4 .& 0x3F)
  = utf8_value [c1; c2; c3; c4].
Proof.
  unfold well_formed, between, utf8_value. intros Hw. change 7 with (Z.ones 3). change 0x3F with (Z.ones 6).
  rewrite !land_low, !Z.shiftl_mul_pow2 by lia. Z.div_mod_to_equations. lia.
Qed.

(** Four bytes out of two halves. *)
Lemma put_pair c1 c2 :
  is_high c1 = true → is_low c2 = true →
  let z := u8 (((c1 .& 0x03C0) >> 6) + 1) in
  [u8 (0xF0 .| (z >> 2)); u8 (0x80 .| ((z .& 0x03) << 4) .| ((c1 .& 0x003C) >> 2));
   u8 (0x80 .| ((c1 .& 0x0003) << 4) .| ((c2 .& 0x03C0) >> 6)); u8 (0x80 .| (c2 .& 0x003F))]
  = utf8 (of_halves c1 c2).
Proof.
  intros H1 H2. cbv zeta. rewrite of_halves_eq by done. unfold is_high, is_low in *.
  rewrite put_trail. change 0x3C0 with (Z.ones 4 << 6). change 0x3C with (Z.ones 4 << 2).
  change 3 with (Z.ones 2).
  rewrite !land_field, !land_low, !Z.shiftl_mul_pow2, !Z.shiftr_div_pow2, !Z.div_mul by lia.
  rewrite (u8_small (_ + 1)) by (Z.div_mod_to_equations; lia).
  rewrite (lor_add 3 0xF0), !(lor_add 6 0x80), !(lor_add 4) by (Z.div_mod_to_equations; lia).
  rewrite !u8_small by (Z.div_mod_to_equations; lia).
  unfold utf8, trail. do 3 else_branch. each_lia.
Qed.

(** Two halves out of four bytes. *)
Lemma put_halves c1 c2 c3 c4 :
  well_formed [c1; c2; c3; c4] = true →
  [0xD800 .| (((((c1 .& 0x07) << 2) .| ((c2 .& 0x30) >> 4)) - 1) << 6) .| ((c2 .& 0x0F) << 2)
     .| ((c3 .& 0x30) >> 4);
   0xDC00 .| ((c3 .& 0x0F) << 6) .| (c4 .& 0x3F)]
  = utf16 (utf8_value [c1; c2; c3; c4]).
Proof.
  unfold well_formed, between, utf8_value. intros Hw.
  change 7 with (Z.ones 3). change 0x30 with (Z.ones 2 << 4). change 0x0F with (Z.ones 4).
  change 0x3F with (Z.ones 6).
  rewrite !land_field, !land_low, !Z.shiftl_mul_pow2, !Z.shiftr_div_pow2, !Z.div_mul by lia.
  rewrite (lor_add 2 (_ * 2 ^ 2)) by (Z.div_mod_to_equations; lia).
  rewrite !(lor_add 10 0xD800), !(lor_add 10 0xDC00) by (Z.div_mod_to_equations; lia).
  rewrite (lor_add 6 (_ + (_ - 1) * _)), (lor_add 2 (_ + _ + _)), (lor_add 6)
    by (Z.div_mod_to_equations; lia).
  unfold utf16. else_branch. each_lia.
Qed.

(** ** From UTF-16 *)

Section cast.
(** The units are 16 bits wide, whatever the type they are kept in. *)
Context (cast : Z → Z) (Hcast : ∀ u, u16_ok u → cast u = u).

(** A unit that is no half is one character. *)
Lemma utf16_to_utf8_single M c rest room :
  u16_ok c → is_high c = false → is_low c = false → M ≤ 0x10FFFF →
  utf16_to_utf8_body cast M c rest room
  = if M <? c then Return error
    else if room <? zlen (utf8 c) then Return partial else Next 1 (utf8 c).
Proof.
  intros Hc Hh Hl HM. unfold utf16_to_utf8_body. cbv zeta. rewrite Hcast by done.
  unfold u16_ok, is_high, is_low in *. rewrite !put_trail_6, !put_trail. unfold utf8.
  destruct (M <? c); [done|].
  destruct (c <? 0x80) eqn:?; [by rewrite u8_small by lia|].
  destruct (c <? 0x800) eqn:?; [by rewrite (put_lead _ _ _ 5) by (done || lia)|].
  destruct (c <? 0x10000) eqn:?; [|lia].
  rewrite (put_lead _ _ _ 4) by (done || lia). change (Z.pow 2 12) with 4096.
  destruct (c <? 0xD800) eqn:?; [done|]. by do 2 else_branch.
Qed.

(** Two halves are one. *)
Lemma utf16_to_utf8_pair M c1 c2 rest room :
  u16_ok c1 → u16_ok c2 → is_high c1 = true → is_low c2 = true →
  utf16_to_utf8_body cast M c1 (c2 :: rest) room
  = if M <? c1 then Return error
    else if room <? 4 then Return partial
    else if M <? of_halves c1 c2 then Return error
    else Next 2 (utf8 (of_halves c1 c2)).
Proof.
  intros H1 H2 Hh Hl. unfold utf16_to_utf8_body. cbv zeta. rewrite !Hcast by done.
  destruct (M <? c1); [done|]. rewrite low_mask, Hl, halves_sum by done.
  unfold is_high in Hh. do 3 else_branch. then_branch. cbn [negb].
  by rewrite <- put_pair by (done || unfold is_high; lia).
Qed.

Lemma utf16_to_utf8_transcodes M :
  M ≤ 0x10FFFF →
  transcodes (λ _ _, true) u16_ok (upto M) utf16 utf8 (utf16_to_utf8_body cast M).
Proof.
  intros HM. split.
  - intros c rest room [Hc Hle] Hr.
    destruct (utf16_cases c Hc) as
      [(-> & _ & Hok & Hh & Hl)|(c1 & c2 & -> & Hge & Hok1 & Hok2 & Hh & Hl & Hof & _)].
    + exists c, []. do 2 (split; [done|]). cbn [app length].
      rewrite utf16_to_utf8_single by done. by do 2 else_branch.
    + exists c1, [c2]. do 2 (split; [done|]). cbn [app length].
      rewrite utf16_to_utf8_pair, Hof by done. unfold u16_ok in Hok1.
      assert (zlen (utf8 c) = 4) by (unfold utf8; by do 3 else_branch).
      by do 3 else_branch.
  - intros u frm room n out [Hu Hf]%Forall_cons _.
    destruct (is_high u) eqn:Hh; [|destruct (is_low u) eqn:Hl].
    + destruct frm as [|u2 frm].
      { unfold utf16_to_utf8_body. cbv zeta. rewrite Hcast by done. unfold is_high in Hh.
        destruct (M <? u); [done|]. do 3 else_branch. by then_branch. }
      apply Forall_cons in Hf as [Hu2 _]. destruct (is_low u2) eqn:Hl.
      * rewrite utf16_to_utf8_pair by done. repeat case_match; try done. intros [= <- <-].
        destruct (utf16_pair u u2 Hh Hl) as (Hsc & Hge & He).
        exists (of_halves u u2), frm. rewrite He. unfold upto.
        assert (zlen (utf8 (of_halves u u2)) = 4) by (unfold utf8; by do 3 else_branch).
        repeat split; (done || lia).
      * unfold utf16_to_utf8_body. cbv zeta. rewrite !Hcast, low_mask, Hl by done.
        unfold is_high in Hh. destruct (M <? u); [done|]. do 3 else_branch. by then_branch.
    + unfold utf16_to_utf8_body. cbv zeta. rewrite Hcast by done. unfold is_low in Hl.
      destruct (M <? u); [done|]. do 4 else_branch. by then_branch.
    + rewrite utf16_to_utf8_single by done. repeat case_match; try done. intros [= <- <-].
      destruct (utf16_single u Hu Hh Hl) as [Hsc He]. exists u, frm. rewrite He. unfold upto.
      repeat split; (done || lia).
Qed.

(** ** To UTF-16 *)

(** What [tr_only] asks of a decoder to units. *)
Lemma reads_utf16 M v bs rest room out :
  is_utf8 v bs → (M <? v) = false → out = utf16 v → zlen (utf16 v) ≤ room →
  ∃ c rest', upto M c ∧ bs ++ rest = utf8 c ++ rest' ∧ length bs = length (utf8 c)
    ∧ out = utf16 c ∧ zlen out ≤ room.
Proof.
  intros [Hv <-] HM -> Hr. exists v, rest. unfold upto. repeat split; (done || lia).
Qed.

(** Up to three bytes make one unit. *)
Lemma short_unit v bs : is_utf8 v bs → (length bs ≤ 3)%nat → cast v = v ∧ utf16 v = [v].
Proof.
  intros Hv Hl. pose proof (is_utf8_u16 v bs Hv Hl) as Hu. unfold u16, wrap in Hu.
  assert (u16_ok v) by (unfold u16_ok; Z.div_mod_to_equations; lia).
  split; [by apply Hcast|]. unfold utf16, u16_ok in *. by then_branch.
Qed.

Lemma utf16_cast v : scalar v → map cast (utf16 v) = utf16 v.
Proof.
  intros Hv%utf16_units. induction Hv as [|u us Hu Hus IH]; [done|]. cbn [map].
  by rewrite Hcast, IH by done.
Qed.

(** What the last branch compares and writes. *)
Lemma write_halves c1 c2 c3 c4 :
  byte_ok c1 → byte_ok c2 → byte_ok c3 → byte_ok c4 → well_formed [c1; c2; c3; c4] = true →
  let v := utf8_value [c1; c2; c3; c4] in
  ((c1 .& 7) << 18) + ((c2 .& 0x3F) << 12) + ((c3 .& 0x3F) << 6) + (c4 .& 0x3F) = v
  ∧ [cast (0xD800 .| (((((c1 .& 0x07) << 2) .| ((c2 .& 0x30) >> 4)) - 1) << 6)
           .| ((c2 .& 0x0F) << 2) .| ((c3 .& 0x30) >> 4));
     cast (0xDC00 .| ((c3 .& 0x0F) << 6) .| (c4 .& 0x3F))] = utf16 v
  ∧ is_utf8 v [c1; c2; c3; c4] ∧ zlen (utf16 v) = 2.
Proof.
  intros H1 H2 H3 H4 Hw v. split; [by apply utf8_sum|].
  pose proof (well_formed_utf8 _ Hw) as Hv. pose proof (put_halves c1 c2 c3 c4 Hw) as Hp.
  fold v in Hv, Hp. split; [|split; [done|]].
  - rewrite <- (utf16_cast v) by apply Hv. by rewrite <- Hp.
  - by rewrite <- Hp.
Qed.

Lemma well_formed_tests c1 c2 c3 c4 :
  byte_ok c2 → byte_ok c3 → byte_ok c4 → 0xF0 ≤ c1 < 0xF5 → bad_second_of_4 c1 c2 = false →
  not_trail c3 || not_trail c4 = false → well_formed [c1; c2; c3; c4] = true.
Proof. intros H2 H3 H4 H1 Hb Ht. by rewrite well_formed_4, Hb, Ht. Qed.

(** A limit no lead byte exceeds: see [lead_above_limit] for the others. *)
Lemma utf8_to_utf16_transcodes M :
  0xF4 ≤ M ≤ 0x10FFFF →
  transcodes (decode_going 1) byte_ok (upto M) utf8 utf16 (utf8_to_utf16_body cast M).
Proof.
  intros HM. split.
  - intros c rest room [Hc Hle] Hr.
    assert (Hg : decode_going 1 (utf8 c ++ rest) room = true).
    { pose proof (utf8_length c). pose proof (utf16_length c).
      apply decode_going_app; unfold zlen in *; lia. }
    destruct (utf8_cases c Hc) as (c1 & cs & Hu & H1 & Hb & Hcs).
    pose proof (utf8_well_formed c Hc) as [Hw Hv]. rewrite Hu in *.
    exists c1, cs. do 2 (split; [done|]). clear Hg.
    assert ((M <? c) = false) by lia. pose proof (conj Hc Hu : is_utf8 c _) as Hi.
    destruct cs as [|c2 [|c3 [|c4 [|]]]]; [..|done]; destruct_and?;
      unfold utf8_to_utf16_body; cbn [app]; cbv zeta; else_branch.
    1-3: destruct (short_unit c _ Hi) as [Hcc ->]; [cbn; lia|];
      pose proof (is_utf8_u16 c _ Hi ltac:(cbn; lia)) as Hc16;
      subst; tests; rewrite ?Hc16; tests; by rewrite Hcc.
    rewrite !Forall_cons in Hb. destruct Hb as (Hb2 & Hb3 & Hb4 & _).
    destruct (write_halves c1 c2 c3 c4 H1 Hb2 Hb3 Hb4 Hw) as (-> & -> & _ & Hz).
    rewrite Hv in *. by tests.
  - intros c1 frm room n out Hf [_ Hr]%andb_true_iff. unfold utf8_to_utf16_body. intros Hs.
    repeat case_match; simplify_eq; rewrite !Forall_cons in Hf; destruct_and?.
    + assert (is_utf8 c1 [c1]) as Hv by (apply read_1; unfold byte_ok in *; lia).
      destruct (short_unit _ _ Hv) as [-> He]; [cbn; lia|].
      apply (reads_utf16 M c1 [c1] frm); [done..|]. rewrite He. change (zlen [_]) with 1. lia.
    + eassert (is_utf8 _ [c1; _]) as Hv by (apply read_2; [..|done]; [done|lia]).
      destruct (short_unit _ _ Hv) as [Hcc He]; [cbn; lia|].
      rewrite (is_utf8_u16 _ _ Hv) in * by (cbn; lia).
      apply (reads_utf16 M _ [c1; _] _ _ _ Hv); [done|by rewrite Hcc|].
      rewrite He. change (zlen [_]) with 1. lia.
    + eassert (is_utf8 _ [c1; _; _]) as Hv by (apply read_3; [..|done|done]; [done..|lia]).
      destruct (short_unit _ _ Hv) as [Hcc He]; [cbn; lia|].
      rewrite (is_utf8_u16 _ _ Hv) in * by (cbn; lia).
      apply (reads_utf16 M _ [c1; _; _] _ _ _ Hv); [done|by rewrite Hcc|].
      rewrite He. change (zlen [_]) with 1. lia.
    + match goal with H : bad_second_of_4 c1 ?c2 = false, H' : not_trail ?c3 || not_trail ?c4 = false |- _ =>
        assert (well_formed [c1; c2; c3; c4] = true) as Hw
          by (apply well_formed_tests; [done..|lia|done|done]) end.
      eapply write_halves in Hw as (Hs & Ho & Hi & Hz); [|done..].
      rewrite Hs in *.
      eapply (reads_utf16 M _ [c1; _; _; _] _ _ _ Hi); [done|done|lia].
Qed.

End cast.

(** ** The length function *)

Lemma utf8_to_utf16_length_counts cast M :
  counts_like 1 (utf8_to_utf16_length_body M) (utf8_to_utf16_body cast M).
Proof.
  intros c1 frm mx _. unfold utf8_to_utf16_length_body, utf8_to_utf16_body. cbv zeta.
  assert (H3 : ∀ c2 c3, u16 (((c1 .& 0x0F) << 12) .| ((c2 .& 0x3F) << 6) .| (c3 .& 0x3F))
    = ((c1 .& 0x0F) << 12) .| ((c2 .& 0x3F) << 6) .| (c3 .& 0x3F)).
  { intros c2 c3. rewrite !u16_lor, u16_low6. change 0x0F with (Z.ones 4). change 0x3F with (Z.ones 6).
    by rewrite !u16_field by lia. }
  repeat case_match; simplify_eq; try done; rewrite ?H3 in *; congruence.
Qed.

(** The casts the overloads use. *)
Lemma cast_none u : u16_ok u → (λ u : Z, u) u = u.
Proof. done. Qed.

Lemma cast_u16 u : u16_ok u → u16 u = u.
Proof. apply u16_small. Qed.

Lemma cast_u32 u : u16_ok u → u32 u = u.
Proof. unfold u16_ok. intros. apply u32_small. lia. Qed.
