(* ===== verification/Facets.v ===== *)
(** * Facets: the [codecvt] classes of [locale.cpp]

    Each class hands its virtual functions to the conversions of [Utf8],
    [Utf16] and [Utf8Utf16], with its limit and its mode.  [Implements] is the
    interface the theorems on a facet are proved from; every class discharges it. *)

From S2P Require Import Prelude Bits Codecvt Unicode Utf8 Utf16 Utf8Utf16.

(** ** The classes *)

(** The virtual functions of [codecvt].  None of the classes looks at the state;
    the pointers are a source and the room at a destination, as in [conversion].
    [do_unshift] gives its result and what it writes. *)
Record codecvt := {
  do_out : list Z → Z → conversion;
  do_in : list Z → Z → conversion;
  do_unshift : result * list Z;
  do_encoding : Z;
  do_always_noconv : bool;
  do_length : list Z → Z → Z;
  do_max_length : Z }.

(** [template <> class codecvt<char, char, mbstate_t>]. *)
Definition codecvt_char : codecvt := {|
  do_out frm _ := Conv noconv frm [];
  do_in frm _ := Conv noconv frm [];
  do_unshift := (noconv, []);
  do_encoding := 1;
  do_always_noconv := true;
  do_length frm mx := int_cast (Z.min mx (zlen frm));
  do_max_length := 1 |}.

(** The default arguments of the conversions. *)
Definition default_maxcode : Z := 0x10FFFF.
Definition default_mode : Z := 0.

(** [template <> class codecvt<char16_t, char, mbstate_t>]. *)
Definition codecvt_char16 : codecvt := {|
  do_out := utf16_to_utf8 default_maxcode default_mode;
  do_in := utf8_to_utf16 default_maxcode default_mode;
  do_unshift := (noconv, []);
  do_encoding := 0;
  do_always_noconv := false;
  do_length := utf8_to_utf16_length default_maxcode default_mode;
  do_max_length := 4 |}.

(** [template <> class codecvt<char32_t, char, mbstate_t>]. *)
Definition codecvt_char32 : codecvt := {|
  do_out := ucs4_to_utf8 default_maxcode default_mode;
  do_in := utf8_to_ucs4 default_maxcode default_mode;
  do_unshift := (noconv, []);
  do_encoding := 0;
  do_always_noconv := false;
  do_length := utf8_to_ucs4_length default_maxcode default_mode;
  do_max_length := 4 |}.

Section limits.
(** The members [_Maxcode_] and [_Mode_]. *)
Context (Maxcode Mode : Z).

Definition codecvt_utf8_wchar : codecvt := {|
  do_out := ucs4_to_utf8 Maxcode Mode;
  do_in := utf8_to_ucs4 Maxcode Mode;
  do_unshift := (noconv, []);
  do_encoding := 0;
  do_always_noconv := false;
  do_length := utf8_to_ucs4_length Maxcode Mode;
  do_max_length := if has_mode Mode consume_header then 7 else 4 |}.

Definition codecvt_utf8_char16 : codecvt := {|
  do_out := ucs2_to_utf8 Maxcode Mode;
  do_in := utf8_to_ucs2 Maxcode Mode;
  do_unshift := (noconv, []);
  do_encoding := 0;
  do_always_noconv := false;
  do_length := utf8_to_ucs2_length Maxcode Mode;
  do_max_length := if has_mode Mode consume_header then 6 else 3 |}.

Definition codecvt_utf8_char32 : codecvt := {|
  do_out := ucs4_to_utf8 Maxcode Mode;
  do_in := utf8_to_ucs4 Maxcode Mode;
  do_unshift := (noconv, []);
  do_encoding := 0;
  do_always_noconv := false;
  do_length := utf8_to_ucs4_length Maxcode Mode;
  do_max_length := if has_mode Mode consume_header then 7 else 4 |}.

Definition codecvt_utf16_wchar_be : codecvt := {|
  do_out := ucs4_to_utf16be Maxcode Mode;
  do_in := utf16be_to_ucs4 Maxcode Mode;
  do_unshift := (noconv, []);
  do_encoding := 0;
  do_always_noconv := false;
  do_length := utf16be_to_ucs4_length Maxcode Mode;
  do_max_length := if has_mode Mode consume_header then 6 else 4 |}.

Definition codecvt_utf16_wchar_le : codecvt := {|
  do_out := ucs4_to_utf16le Maxcode Mode;
  do_in := utf16le_to_ucs4 Maxcode Mode;
  do_unshift := (noconv, []);
  do_encoding := 0;
  do_always_noconv := false;
  do_length := utf16le_to_ucs4_length Maxcode Mode;
  do_max_length := if has_mode Mode consume_header then 6 else 4 |}.

Definition codecvt_utf16_char16_be : codecvt := {|
  do_out := ucs2_to_utf16be Maxcode Mode;
  do_in := utf16be_to_ucs2 Maxcode Mode;
  do_unshift := (noconv, []);
  do_encoding := 0;
  do_always_noconv := false;
  do_length := utf16be_to_ucs2_length Maxcode Mode;
  do_max_length := if has_mode Mode consume_header then 4 else 2 |}.

Definition codecvt_utf16_char16_le : codecvt := {|
  do_out := ucs2_to_utf16le Maxcode Mode;
  do_in := utf16le_to_ucs2 Maxcode Mode;
  do_unshift := (noconv, []);
  do_encoding := 0;
  do_always_noconv := false;
  do_length := utf16le_to_ucs2_length Maxcode Mode;
  do_max_length := if has_mode Mode consume_header then 4 else 2 |}.

Definition codecvt_utf16_char32_be : codecvt := {|
  do_out := ucs4_to_utf16be Maxcode Mode;
  do_in := utf16be_to_ucs4 Maxcode Mode;
  do_unshift := (noconv, []);
  do_encoding := 0;
  do_always_noconv := false;
  do_length := utf16be_to_ucs4_length Maxcode Mode;
  do_max_length := if has_mode Mode consume_header then 6 else 4 |}.

Definition codecvt_utf16_char32_le : codecvt := {|
  do_out := ucs4_to_utf16le Maxcode Mode;
  do_in := utf16le_to_ucs4 Maxcode Mode;
  do_unshift := (noconv, []);
  do_encoding := 0;
  do_always_noconv := false;
  do_length := utf16le_to_ucs4_length Maxcode Mode;
  do_max_length := if has_mode Mode consume_header then 6 else 4 |}.

Definition codecvt_utf8_utf16_wchar : codecvt := {|
  do_out := utf16_to_utf8_32 Maxcode Mode;
  do_in := utf8_to_utf16_32 Maxcode Mode;
  do_unshift := (noconv, []);
  do_encoding := 0;
  do_always_noconv := false;
  do_length := utf8_to_utf16_length Maxcode Mode;
  do_max_length := if has_mode Mode consume_header then 7 else 4 |}.

Definition codecvt_utf8_utf16_char16 : codecvt := {|
  do_out := utf16_to_utf8 Maxcode Mode;
  do_in := utf8_to_utf16 Maxcode Mode;
  do_unshift := (noconv, []);
  do_encoding := 0;
  do_always_noconv := false;
  do_length := utf8_to_utf16_length Maxcode Mode;
  do_max_length := if has_mode Mode consume_header then 7 else 4 |}.

Definition codecvt_utf8_utf16_char32 : codecvt := {|
  do_out := utf16_to_utf8_32 Maxcode Mode;
  do_in := utf8_to_utf16_32 Maxcode Mode;
  do_unshift := (noconv, []);
  do_encoding := 0;
  do_always_noconv := false;
  do_length := utf8_to_utf16_length Maxcode Mode;
  do_max_length := if has_mode Mode consume_header then 7 else 4 |}.
End limits.

(** The classes that convert. *)
Inductive facet :=
  | Char16 | Char32
  | Utf8Wchar (Maxcode Mode : Z) | Utf8Char16 (Maxcode Mode : Z) | Utf8Char32 (Maxcode Mode : Z)
  | Utf16WcharBe (Maxcode Mode : Z) | Utf16WcharLe (Maxcode Mode : Z)
  | Utf16Char16Be (Maxcode Mode : Z) | Utf16Char16Le (Maxcode Mode : Z)
  | Utf16Char32Be (Maxcode Mode : Z) | Utf16Char32Le (Maxcode Mode : Z)
  | Utf8Utf16Wchar (Maxcode Mode : Z) | Utf8Utf16Char16 (Maxcode Mode : Z)
  | Utf8Utf16Char32 (Maxcode Mode : Z).

Definition facet_of (k : facet) : codecvt :=
  match k with
  | Char16 => codecvt_char16
  | Char32 => codecvt_char32
  | Utf8Wchar M m => codecvt_utf8_wchar M m
  | Utf8Char16 M m => codecvt_utf8_char16 M m
  | Utf8Char32 M m => codecvt_utf8_char32 M m
  | Utf16WcharBe M m => codecvt_utf16_wchar_be M m
  | Utf16WcharLe M m => codecvt_utf16_wchar_le M m
  | Utf16Char16Be M m => codecvt_utf16_char16_be M m
  | Utf16Char16Le M m => codecvt_utf16_char16_le M m
  | Utf16Char32Be M m => codecvt_utf16_char32_be M m
  | Utf16Char32Le M m => codecvt_utf16_char32_le M m
  | Utf8Utf16Wchar M m => codecvt_utf8_utf16_wchar M m
  | Utf8Utf16Char16 M m => codecvt_utf8_utf16_char16 M m
  | Utf8Utf16Char32 M m => codecvt_utf8_utf16_char32 M m
  end.

(** ** What a facet converts between *)

(** A character set's internal and external forms, the mark, and the width of an
    external unit. *)
Record codec := {
  cd_mode : Z; cd_mark : list Z; cd_width : Z;
  cd_valid : Z → Prop; cd_unit : Z → Prop;
  cd_intern : Z → list Z; cd_extern : Z → list Z }.

Definition utf8_ucs4_codec (M m : Z) : codec := {|
  cd_mode := m; cd_mark := utf8_mark; cd_width := 1; cd_valid := upto M; cd_unit := u32_ok;
  cd_intern := ucs; cd_extern := utf8 |}.

Definition utf8_ucs2_codec (M m : Z) : codec := {|
  cd_mode := m; cd_mark := utf8_mark; cd_width := 1; cd_valid := bmp M; cd_unit := u16_ok;
  cd_intern := ucs; cd_extern := utf8 |}.

Definition utf16_ucs4_codec (o : byte_order) (mark : list Z) (M m : Z) : codec := {|
  cd_mode := m; cd_mark := mark; cd_width := 2; cd_valid := upto M; cd_unit := u32_ok;
  cd_intern := ucs; cd_extern := utf16_in o |}.

Definition utf16_ucs2_codec (o : byte_order) (mark : list Z) (M m : Z) : codec := {|
  cd_mode := m; cd_mark := mark; cd_width := 2; cd_valid := bmp M; cd_unit := u16_ok;
  cd_intern := ucs; cd_extern := utf16_in o |}.

Definition utf8_utf16_codec (M m : Z) : codec := {|
  cd_mode := m; cd_mark := utf8_mark; cd_width := 1; cd_valid := upto M; cd_unit := u16_ok;
  cd_intern := utf16; cd_extern := utf8 |}.

Definition codec_of (k : facet) : codec :=
  match k with
  | Char16 => utf8_utf16_codec default_maxcode default_mode
  | Char32 => utf8_ucs4_codec default_maxcode default_mode
  | Utf8Wchar M m | Utf8Char32 M m => utf8_ucs4_codec M m
  | Utf8Char16 M m => utf8_ucs2_codec M m
  | Utf16WcharBe M m | Utf16Char32Be M m => utf16_ucs4_codec big utf16be_mark M m
  | Utf16WcharLe M m | Utf16Char32Le M m => utf16_ucs4_codec little utf16le_mark M m
  | Utf16Char16Be M m => utf16_ucs2_codec big utf16be_mark M m
  | Utf16Char16Le M m => utf16_ucs2_codec little utf16le_mark M m
  | Utf8Utf16Wchar M m | Utf8Utf16Char16 M m | Utf8Utf16Char32 M m => utf8_utf16_codec M m
  end.

(** The limits the theorems cover: none above the last code point, and for the
    UTF-8 to UTF-16 decoders none that a lead byte exceeds. *)
Definition limit_ok (k : facet) : Prop :=
  match k with
  | Char16 | Char32 => True
  | Utf8Wchar M _ | Utf8Char32 M _ | Utf16WcharBe M _ | Utf16WcharLe M _
  | Utf16Char32Be M _ | Utf16Char32Le M _ | Utf8Char16 M _
  | Utf16Char16Be M _ | Utf16Char16Le M _ => M ≤ 0x10FFFF
  | Utf8Utf16Wchar M _ | Utf8Utf16Char16 M _ | Utf8Utf16Char32 M _ => 0xF4 ≤ M ≤ 0x10FFFF
  end.

#[export] Instance limit_ok_dec k : Decision (limit_ok k).
Proof. destruct k; cbn; apply _. Defined.

(** What a mark costs the reader. *)
Definition mark_cost (s : codec) : Z :=
  if has_mode (cd_mode s) consume_header then zlen (cd_mark s) else 0.

Class Implements (f : codecvt) (s : codec) := {
  encoder : body; decoder : body; counter : Z → list Z → Z → counting;
  out_is : do_out f = with_header (cd_mark s) (cd_mode s) (encode_loop encoder);
  in_is frm room : do_in f frm room
    = decode_loop (cd_width s) decoder (skip_header (cd_mark s) (cd_mode s) frm) room;
  length_is frm mx : do_length f frm mx
    = distance frm (count (cd_width s) counter 0 (skip_header (cd_mark s) (cd_mode s) frm) mx);
  encodes : transcodes (λ _ _, true) (cd_unit s) (cd_valid s) (cd_intern s) (cd_extern s) encoder;
  decodes : transcodes (decode_going (cd_width s)) byte_ok (cd_valid s) (cd_extern s) (cd_intern s)
              decoder;
  counts : counts_like (cd_width s) counter decoder;
  decoder_not_ok u rest room : decoder u rest room ≠ Return ok;
  encoder_not_ok u rest room : encoder u rest room ≠ Return ok;
  valid_forms c : cd_valid s c → Forall (cd_unit s) (cd_intern s c) ∧ Forall byte_ok (cd_extern s c);
  intern_pos c : 1 ≤ zlen (cd_intern s c);
  mark_fits : mark_cost s ≤ do_max_length f;
  max_enough c : cd_valid s c → zlen (cd_intern s c) ≤ 1 →
    zlen (cd_extern s c) + mark_cost s ≤ do_max_length f }.

(** ** The classes implement their codecs *)

Ltac never_ok := cbv beta zeta; repeat case_match; congruence.

Lemma ucs4_to_utf8_not_ok M u rest room : ucs4_to_utf8_body M u rest room ≠ Return ok.
Proof. unfold ucs4_to_utf8_body. never_ok. Qed.
Lemma ucs2_to_utf8_not_ok M u rest room : ucs2_to_utf8_body M u rest room ≠ Return ok.
Proof. unfold ucs2_to_utf8_body. never_ok. Qed.
Lemma utf8_to_ucs4_not_ok M u rest room : utf8_to_ucs4_body M u rest room ≠ Return ok.
Proof. unfold utf8_to_ucs4_body. never_ok. Qed.
Lemma utf8_to_ucs2_not_ok M u rest room : utf8_to_ucs2_body M u rest room ≠ Return ok.
Proof. unfold utf8_to_ucs2_body. never_ok. Qed.
Lemma ucs4_to_utf16_not_ok o M u rest room : ucs4_to_utf16_body o M u rest room ≠ Return ok.
Proof. unfold ucs4_to_utf16_body. never_ok. Qed.
Lemma ucs2_to_utf16_not_ok o M u rest room : ucs2_to_utf16_body o M u rest room ≠ Return ok.
Proof. unfold ucs2_to_utf16_body. never_ok. Qed.
Lemma utf16_to_ucs4_not_ok o M u rest room : utf16_to_ucs4_body o M u rest room ≠ Return ok.
Proof. unfold utf16_to_ucs4_body. never_ok. Qed.
Lemma utf16_to_ucs2_not_ok o M u rest room : utf16_to_ucs2_body o M u rest room ≠ Return ok.
Proof. unfold utf16_to_ucs2_body. never_ok. Qed.
Lemma utf16_to_utf8_not_ok cast M u rest room : utf16_to_utf8_body cast M u rest room ≠ Return ok.
Proof. unfold utf16_to_utf8_body. never_ok. Qed.
Lemma utf8_to_utf16_not_ok cast M u rest room : utf8_to_utf16_body cast M u rest room ≠ Return ok.
Proof. unfold utf8_to_utf16_body. never_ok. Qed.

(** *** The forms of a valid character *)

Lemma ucs4_forms M c : M ≤ 0x10FFFF → upto M c → Forall u32_ok (ucs c) ∧ Forall byte_ok (utf8 c).
Proof.
  intros HM Hc. split; [apply Forall_singleton; by eapply upto_u32|]. apply utf8_bytes, Hc.
Qed.

Lemma ucs2_forms M c : bmp M c → Forall u16_ok (ucs c) ∧ Forall byte_ok (utf8 c).
Proof. intros Hc. split; [apply Forall_singleton; by eapply upto_u16|]. apply utf8_bytes, Hc. Qed.

Lemma utf16_in_bytes o `{!LawfulOrder o} c : scalar c → Forall byte_ok (utf16_in o c).
Proof.
  intros Hc%utf16_units. unfold utf16_in. induction Hc as [|w ws Hw Hws IH]; [done|]. cbn.
  destruct (put_get w Hw) as (b0 & b1 & -> & H0 & H1 & _). cbn.
  by rewrite !Forall_cons.
Qed.

Lemma ucs4_forms16 o `{!LawfulOrder o} M c :
  M ≤ 0x10FFFF → upto M c → Forall u32_ok (ucs c) ∧ Forall byte_ok (utf16_in o c).
Proof.
  intros HM Hc. split; [apply Forall_singleton; by eapply upto_u32|]. by apply utf16_in_bytes, Hc.
Qed.

Lemma ucs2_forms16 o `{!LawfulOrder o} M c :
  bmp M c → Forall u16_ok (ucs c) ∧ Forall byte_ok (utf16_in o c).
Proof.
  intros Hc. split; [apply Forall_singleton; by eapply upto_u16|]. by apply utf16_in_bytes, Hc.
Qed.

Lemma utf16_in_length o `{!LawfulOrder o} c :
  scalar c → zlen (utf16_in o c) = if c <? 0x10000 then 2 else 4.
Proof.
  intros Hc. destruct (utf16_cases c Hc) as [(He & Hlt & Hok & _)|(c1 & c2 & He & Hge & Hok1 & Hok2 & _)].
  - rewrite (utf16_in_single o c He), put16_length by done. by then_branch.
  - rewrite (utf16_in_pair o c c1 c2 He), zlen_app, !put16_length by done. by else_branch.
Qed.

Lemma utf8_zlen c : zlen (utf8 c) ≤ if c <? 0x10000 then 3 else 4.
Proof. unfold utf8. repeat case_match; unfold zlen; cbn; lia. Qed.

Lemma utf16_units_ok M c : upto M c → Forall u16_ok (utf16 c) ∧ Forall byte_ok (utf8 c).
Proof. intros [Hc _]. split; [by apply utf16_units|by apply utf8_bytes]. Qed.

Lemma ucs_zlen c : 1 ≤ zlen (ucs c).
Proof. done. Qed.

Lemma utf16_zlen c : 1 ≤ zlen (utf16 c).
Proof. pose proof (utf16_length c). unfold zlen. lia. Qed.

(** [do_max_length] against a form's length and the mark. *)
Ltac max_enough :=
  cbn; unfold mark_cost; cbn; intros;
  change (has_mode default_mode consume_header) with false; try destruct (has_mode _ _);
  repeat match goal with
  | H : bmp _ ?c |- _ => assert (c ≤ 0xFFFF) by (unfold bmp, upto in H; lia);
      assert (scalar c) by apply H; clear H
  | H : upto _ ?c |- _ => assert (scalar c) by apply H; clear H
  | |- context [zlen (utf8 ?c)] => pose proof (utf8_zlen c); generalize dependent (zlen (utf8 c)); intros
  | |- context [zlen (utf16_in ?o ?c)] => rewrite (utf16_in_length o c) by done
  end; repeat case_match; unfold zlen; cbn; lia.

#[export] Hint Resolve ucs4_to_utf8_transcodes ucs2_to_utf8_transcodes utf8_to_ucs4_transcodes
  utf8_to_ucs2_transcodes ucs4_to_utf16_transcodes ucs2_to_utf16_transcodes
  utf16_to_ucs4_transcodes utf16_to_ucs2_transcodes utf16_to_utf8_transcodes
  utf8_to_utf16_transcodes : transcodes.
#[export] Hint Resolve utf8_to_ucs4_length_counts utf8_to_ucs2_length_counts
  utf16_to_ucs4_length_counts utf16_to_ucs2_length_counts utf8_to_utf16_length_counts
  cast_none cast_u16 cast_u32 big_lawful little_lawful : transcodes.
#[export] Hint Resolve ucs4_to_utf8_not_ok ucs2_to_utf8_not_ok utf8_to_ucs4_not_ok
  utf8_to_ucs2_not_ok ucs4_to_utf16_not_ok ucs2_to_utf16_not_ok utf16_to_ucs4_not_ok
  utf16_to_ucs2_not_ok utf16_to_utf8_not_ok utf8_to_utf16_not_ok : transcodes.
#[export] Hint Resolve ucs4_forms ucs2_forms ucs4_forms16 ucs2_forms16 utf16_units_ok
  ucs_zlen utf16_zlen : transcodes.

(** A facet from its three bodies. *)
Ltac implements enc dec cnt :=
  unshelve econstructor; [exact enc|exact dec|exact cnt|..]; 
  [..|max_enough|max_enough]; cbn; eauto with transcodes.

Lemma facet_implements k : limit_ok k → Implements (facet_of k) (codec_of k).
Proof.
  intros Hk. destruct k as [| |M m|M m|M m|M m|M m|M m|M m|M m|M m|M m|M m|M m]; cbn in Hk.
  - assert (0xF4 ≤ default_maxcode ≤ 0x10FFFF ∧ default_maxcode ≤ 0x10FFFF) as [? ?] by done.
    implements (utf16_to_utf8_body (λ u, u) default_maxcode)
      (utf8_to_utf16_body u16 default_maxcode) (utf8_to_utf16_length_body default_maxcode).
  - assert (default_maxcode ≤ 0x10FFFF) by done.
    implements (ucs4_to_utf8_body default_maxcode)
      (utf8_to_ucs4_body default_maxcode) (utf8_to_ucs4_length_body default_maxcode).
  - implements (ucs4_to_utf8_body M) (utf8_to_ucs4_body M) (utf8_to_ucs4_length_body M).
  - implements (ucs2_to_utf8_body M) (utf8_to_ucs2_body M) (utf8_to_ucs2_length_body M).
  - implements (ucs4_to_utf8_body M) (utf8_to_ucs4_body M) (utf8_to_ucs4_length_body M).
  - implements (ucs4_to_utf16_body big M) (utf16_to_ucs4_body big M)
      (utf16_to_ucs4_length_body big M).
  - implements (ucs4_to_utf16_body little M) (utf16_to_ucs4_body little M)
      (utf16_to_ucs4_length_body little M).
  - implements (ucs2_to_utf16_body big M) (utf16_to_ucs2_body big M)
      (utf16_to_ucs2_length_body big M).
  - implements (ucs2_to_utf16_body little M) (utf16_to_ucs2_body little M)
      (utf16_to_ucs2_length_body little M).
  - implements (ucs4_to_utf16_body big M) (utf16_to_ucs4_body big M)
      (utf16_to_ucs4_length_body big M).
  - implements (ucs4_to_utf16_body little M) (utf16_to_ucs4_body little M)
      (utf16_to_ucs4_length_body little M).
  - pose proof (proj2 Hk). implements (utf16_to_utf8_body u16 M) (utf8_to_utf16_body u32 M) (utf8_to_utf16_length_body M).
  - pose proof (proj2 Hk). implements (utf16_to_utf8_body (λ u, u) M) (utf8_to_utf16_body u16 M)
      (utf8_to_utf16_length_body M).
  - pose proof (proj2 Hk). implements (utf16_to_utf8_body u16 M) (utf8_to_utf16_body u32 M) (utf8_to_utf16_length_body M).
Qed.

(** ** What every facet does *)

(** The mark a facet writes. *)
Definition header (s : codec) : list Z :=
  if has_mode (cd_mode s) generate_header then cd_mark s else [].

Lemma skip_header_written s x :
  has_mode (cd_mode s) generate_header = has_mode (cd_mode s) consume_header →
  skip_header (cd_mark s) (cd_mode s) (header s ++ x) = x.
Proof.
  unfold skip_header, header. intros <-. destruct (has_mode _ _); [|done].
  rewrite take_app_length, bool_decide_true, drop_app_length by done. done.
Qed.

Lemma skip_header_suffix mark m frm : ∃ pre, frm = pre ++ skip_header mark m frm.
Proof.
  unfold skip_header. case_match; [|by exists []]. exists (take (length mark) frm).
  by rewrite take_drop.
Qed.

Lemma skip_header_zlen mark m frm :
  zlen frm - zlen (skip_header mark m frm) ≤ if has_mode m consume_header then zlen mark else 0.
Proof.
  unfold skip_header, zlen. destruct (has_mode m consume_header); cbn [andb]; [|lia].
  case_match; [rewrite length_drop|]; lia.
Qed.

Section facet.
Context (f : codecvt) (s : codec) `{!Implements f s}.

Notation valid := (cd_valid s).
Notation intern := (encode_all (cd_intern s)).
Notation extern := (encode_all (cd_extern s)).

(** *** A text that fits *)

Lemma out_text cs room :
  Forall valid cs → zlen (header s ++ extern cs) ≤ room →
  do_out f (intern cs) room = Conv ok [] (header s ++ extern cs).
Proof.
  intros Hcs Hr. rewrite out_is. rewrite zlen_app in Hr. pose proof (zlen_nonneg (header s)).
  pose proof (zlen_nonneg (extern cs)).
  assert (Hc : ∀ r, zlen (extern cs) ≤ r →
    encode_loop encoder (intern cs) r = Conv ok [] (extern cs)).
  { intros r Hle. unfold encode_loop. rewrite <- (app_nil_r (intern cs)).
    rewrite (convert_text _ _ _ _ _ _ _ encodes) by done. unfold after_writing. cbn.
    by rewrite app_nil_r. }
  unfold with_header, header in *. destruct (has_mode _ generate_header); cbn [app] in *.
  - else_branch. rewrite Hc by lia. done.
  - apply Hc. lia.
Qed.

Lemma in_text frm cs room :
  Forall valid cs → skip_header (cd_mark s) (cd_mode s) frm = extern cs →
  zlen (intern cs) ≤ room → do_in f frm room = Conv ok [] (intern cs).
Proof.
  intros Hcs He Hr. rewrite in_is, He. unfold decode_loop. rewrite <- (app_nil_r (extern cs)).
  rewrite (convert_text _ _ _ _ _ _ _ decodes) by done. unfold after_writing. cbn.
  by rewrite app_nil_r.
Qed.

(** *** Any source *)

Lemma decode_stands r rest room :
  stands (decode_going (cd_width s)) at_end decoder r rest room → (r = ok ↔ rest = []).
Proof.
  rewrite stands_cases. destruct rest as [|u rest]; [naive_solver|].
  case_match; [intros Hs|intros ->].
  - split; [|done]. intros ->. by apply decoder_not_ok in Hs.
  - unfold at_end. split; [|done]. rewrite zlen_cons. pose proof (zlen_nonneg rest).
    by then_branch.
Qed.

Lemma encode_stands r rest room :
  stands (λ _ _, true) (λ _, ok) encoder r rest room → (r = ok ↔ rest = []).
Proof.
  rewrite stands_cases. destruct rest as [|u rest]; [naive_solver|]. intros Hs.
  split; [|done]. intros ->. by apply encoder_not_ok in Hs.
Qed.

(** No character that is valid and fits begins where a conversion stopped. *)
Definition blocked (form out_form : Z → list Z) (rest : list Z) (room : Z) : Prop :=
  ∀ c rest', valid c → rest = form c ++ rest' → room < zlen (out_form c).

Lemma in_sound frm room r rest out :
  Forall byte_ok frm → 0 ≤ room → do_in f frm room = Conv r rest out →
  ∃ cs, Forall valid cs
    ∧ skip_header (cd_mark s) (cd_mode s) frm = extern cs ++ rest ∧ out = intern cs
    ∧ zlen out ≤ room ∧ (r = ok ↔ rest = [])
    ∧ blocked (cd_extern s) (cd_intern s) rest (room - zlen out).
Proof.
  intros Hok Hr. rewrite in_is. intros Hc.
  apply (convert_sound _ _ _ _ _ _ _ decodes) in Hc as (cs & Hcs & He & Ho & Hle & Hst).
  - exists cs. do 3 (split; [done|]). split; [by apply Hle|]. split; [by eapply decode_stands|].
    intros c rest' Hv ->. by eapply (stands_blocked _ _ _ _ _ _ _ decodes).
  - destruct (skip_header_suffix (cd_mark s) (cd_mode s) frm) as [pre Hp].
    rewrite Hp in Hok. by apply Forall_app in Hok as [_ ?].
Qed.

Lemma out_sound frm room r rest out :
  Forall (cd_unit s) frm → zlen (header s) ≤ room → do_out f frm room = Conv r rest out →
  ∃ cs, Forall valid cs ∧ frm = intern cs ++ rest ∧ out = header s ++ extern cs
    ∧ zlen out ≤ room ∧ (r = ok ↔ rest = [])
    ∧ blocked (cd_intern s) (cd_extern s) rest (room - zlen out).
Proof.
  intros Hok Hr. rewrite out_is. intros Hc.
  assert (∃ out', out = header s ++ out'
    ∧ encode_loop encoder frm (room - zlen (header s)) = Conv r rest out') as (out' & -> & Hc').
  { unfold with_header, header in *. destruct (has_mode _ generate_header).
    - revert Hc. else_branch. intros Hc. destruct (encode_loop _ _ _) as [r' f' o'] eqn:He.
      injection Hc as <- <- <-. by exists o'.
    - exists out. cbn. by rewrite Z.sub_0_r. }
  apply (convert_sound _ _ _ _ _ _ _ encodes) in Hc' as (cs & Hcs & He & Ho & Hle & Hst); [|done].
  exists cs. rewrite <- Ho, zlen_app. do 3 (split; [done|]). split; [lia|].
  split; [by eapply encode_stands|]. intros c rest' Hv ->.
  replace (room - (zlen (header s) + zlen out')) with (room - zlen (header s) - zlen out') by lia.
  by eapply (stands_blocked _ _ _ _ _ _ _ encodes).
Qed.

(** *** Resuming *)

Lemma convert_resume going finish step unit_ok src dst frm room room' r rest out :
  transcodes going unit_ok valid src dst step → Forall unit_ok frm → 0 ≤ room ≤ room' →
  convert going step finish 0 frm room = Conv r rest out →
  convert going step finish 0 frm room'
  = after_writing out (convert going step finish 0 rest (room' - zlen out)).
Proof.
  intros Htr Hok Hr Hc.
  apply (convert_sound _ _ _ _ _ _ _ Htr) in Hc as (cs & Hcs & -> & -> & Hle & _); [|done].
  apply (convert_text _ _ _ _ _ _ _ Htr); [done|lia].
Qed.

(** *** Counting *)

Lemma length_in frm mx :
  zlen frm ≤ INT_MAX → do_length f frm mx = zlen frm - zlen (frm_nxt (do_in f frm mx)).
Proof.
  intros Hm. rewrite length_is, in_is, (count_convert _ _ decoder) by apply counts.
  unfold distance, decode_loop.
  pose proof (convert_shrinks (decode_going (cd_width s)) at_end decoder 0
    (skip_header (cd_mark s) (cd_mode s) frm) mx) as Hl.
  destruct (skip_header_suffix (cd_mark s) (cd_mode s) frm) as [pre Hp].
  apply (f_equal length) in Hp. rewrite length_app in Hp. apply int_cast_small.
  unfold zlen, INT_MIN, INT_MAX in *. lia.
Qed.

Lemma max_length_bounds frm :
  Forall byte_ok frm → zlen frm ≤ INT_MAX → do_length f frm 1 ≤ do_max_length f.
Proof.
  intros Hok Hm. rewrite length_in by done.
  destruct (do_in f frm 1) as [r rest out] eqn:Hc. cbn [frm_nxt].
  apply in_sound in Hc as (cs & Hcs & He & -> & Hle & _); [|done|lia].
  pose proof (skip_header_zlen (cd_mark s) (cd_mode s) frm) as Hsk. fold (mark_cost s) in Hsk.
  rewrite He, zlen_app in Hsk. pose proof mark_fits.
  destruct Hcs as [|c cs Hc Hcs]; [change (zlen (extern [])) with 0 in Hsk; lia|].
  rewrite encode_all_cons, zlen_app in *. pose proof (intern_pos c).
  destruct cs as [|d cs]; [|rewrite encode_all_cons, zlen_app in Hle; pose proof (intern_pos d);
    pose proof (zlen_nonneg (intern cs)); lia].
  change (zlen (intern [])) with 0 in Hle. change (zlen (extern [])) with 0 in Hsk.
  pose proof (max_enough c Hc). lia.
Qed.

(** *** Units *)

Lemma encode_all_units (P : Z → Prop) form cs :
  (∀ c, valid c → Forall P (form c)) → Forall valid cs → Forall P (encode_all form cs).
Proof.
  intros Hf Hcs. induction Hcs as [|c cs Hc Hcs IH]; [done|]. rewrite encode_all_cons.
  apply Forall_app. auto.
Qed.

Lemma in_units frm room :
  Forall byte_ok frm → 0 ≤ room → Forall (cd_unit s) (to_nxt (do_in f frm room)).
Proof.
  intros Hok Hr. destruct (do_in f frm room) as [r rest out] eqn:Hc.
  apply in_sound in Hc as (cs & Hcs & _ & -> & _); [|done..].
  apply encode_all_units; [|done]. intros c Hv. by apply valid_forms.
Qed.

Lemma out_bytes frm room :
  Forall byte_ok (cd_mark s) → Forall (cd_unit s) frm → zlen (header s) ≤ room →
  Forall byte_ok (to_nxt (do_out f frm room)).
Proof.
  intros Hm Hok Hr. destruct (do_out f frm room) as [r rest out] eqn:Hc.
  apply out_sound in Hc as (cs & Hcs & _ & -> & _); [|done..]. cbn. apply Forall_app. split.
  - unfold header. by case_match.
  - apply encode_all_units; [|done]. intros c Hv. by apply valid_forms.
Qed.
End facet.

(** ** Theorems *)

(** C17: a text of characters that are valid for a facet is written out by it, whole, as
    its mark and its external form, and read back by the same facet as what it was, when
    there is room for both, for every class and every mode that both writes and skips
    marks or does neither.  The limit of the class is at most the last code point
    0x10FFFF, which is its default, and for the classes between UTF-8 and UTF-16 at least
    0xF4, the greatest lead byte: below that they refuse characters within the limit
    ([lead_above_limit]). *)
Theorem facet_roundtrip k cs room room' :
  limit_ok k →
  has_mode (cd_mode (codec_of k)) generate_header = has_mode (cd_mode (codec_of k)) consume_header →
  Forall (cd_valid (codec_of k)) cs →
  let text := encode_all (cd_intern (codec_of k)) cs in
  let bytes := header (codec_of k) ++ encode_all (cd_extern (codec_of k)) cs in
  zlen bytes ≤ room → zlen text ≤ room' →
  do_out (facet_of k) text room = Conv ok [] bytes
  ∧ do_in (facet_of k) bytes room' = Conv ok [] text.
Proof.
  intros Hk Hm Hcs text bytes Hr Hr'. pose proof (facet_implements k Hk). split.
  - by apply (out_text (facet_of k) (codec_of k)).
  - apply (in_text (facet_of k) (codec_of k) bytes cs); [done| |done]. by apply skip_header_written.
Qed.

Lemma facet_roundtrip_witness :
  let k := Utf16Char32Le 0x10FFFF (generate_header + consume_header) in
  do_out (facet_of k) [0x41; 0x1F600] 8 = Conv ok [] [0xFF; 0xFE; 0x41; 0; 0x3D; 0xD8; 0; 0xDE]
  ∧ do_in (facet_of k) [0xFF; 0xFE; 0x41; 0; 0x3D; 0xD8; 0; 0xDE] 2 = Conv ok [] [0x41; 0x1F600].
Proof.
  apply (facet_roundtrip (Utf16Char32Le 0x10FFFF (generate_header + consume_header)) [0x41; 0x1F600]);
    try done.
  apply (bool_decide_unpack (Forall (upto 0x10FFFF) [0x41; 0x1F600])). by vm_compute.
Defined.

(** C18: whatever bytes a facet reads, what it has read is, after the mark, the
    external form of a text of characters valid for it and what it has written the
    internal form of that text, within the room; it says [ok] just when it has read
    everything, and has stopped only where no valid character that still fits begins.
    The limit of the facet is at most 0x10FFFF, and for the classes between UTF-8 and
    UTF-16 at least 0xF4: below that they also stop at valid characters
    ([lead_above_limit]). *)
Theorem facet_in_sound k frm room r rest out :
  limit_ok k → Forall byte_ok frm → 0 ≤ room → do_in (facet_of k) frm room = Conv r rest out →
  ∃ cs, Forall (cd_valid (codec_of k)) cs
    ∧ skip_header (cd_mark (codec_of k)) (cd_mode (codec_of k)) frm
      = encode_all (cd_extern (codec_of k)) cs ++ rest
    ∧ out = encode_all (cd_intern (codec_of k)) cs ∧ zlen out ≤ room ∧ (r = ok ↔ rest = [])
    ∧ blocked (codec_of k) (cd_extern (codec_of k)) (cd_intern (codec_of k)) rest (room - zlen out).
Proof. intros Hk. pose proof (facet_implements k Hk). by apply (in_sound (facet_of k) (codec_of k)). Qed.

Lemma facet_in_sound_witness :
  ∃ cs, Forall (upto 0x10FFFF) cs
    ∧ [0x41; 0xF0; 0x9F; 0x98; 0x80; 0xC3; 0x28] = encode_all utf8 cs ++ [0xC3; 0x28]
    ∧ [0x41; 0xD83D; 0xDE00] = encode_all utf16 cs.
Proof.
  destruct (facet_in_sound Char16 [0x41; 0xF0; 0x9F; 0x98; 0x80; 0xC3; 0x28] 9 error [0xC3; 0x28]
    [0x41; 0xD83D; 0xDE00]) as (cs & H & He & Ho & _); [done|by repeat constructor|done|done|].
  by exists cs.
Defined.

(** Whatever units a facet is given to write, what it has written is its mark
    and the external form of a valid text, within the room, and what it has read is
    that text; it says [ok] just when it has read everything, and has stopped only
    where no valid character that still fits begins. *)
Theorem facet_out_sound k frm room r rest out :
  limit_ok k → Forall (cd_unit (codec_of k)) frm → zlen (header (codec_of k)) ≤ room →
  do_out (facet_of k) frm room = Conv r rest out →
  ∃ cs, Forall (cd_valid (codec_of k)) cs
    ∧ frm = encode_all (cd_intern (codec_of k)) cs ++ rest
    ∧ out = header (codec_of k) ++ encode_all (cd_extern (codec_of k)) cs
    ∧ zlen out ≤ room ∧ (r = ok ↔ rest = [])
    ∧ blocked (codec_of k) (cd_intern (codec_of k)) (cd_extern (codec_of k)) rest (room - zlen out).
Proof. intros Hk. pose proof (facet_implements k Hk). by apply (out_sound (facet_of k) (codec_of k)). Qed.

Lemma facet_out_sound_witness :
  ∃ cs, Forall (upto 0x10FFFF) cs ∧ [0xE9; 0xD800; 0x41] = encode_all utf16 cs ++ [0xD800; 0x41]
    ∧ [0xC3; 0xA9] = [] ++ encode_all utf8 cs.
Proof.
  destruct (facet_out_sound Char16 [0xE9; 0xD800; 0x41] 9 error [0xD800; 0x41] [0xC3; 0xA9])
    as (cs & H & He & Ho & _); [done|by repeat constructor|done|done|]. by exists cs.
Defined.

(** A facet that skips no mark may be called again where it stopped, with the
    room that is left: the two calls give what one call with all the room gives. *)
Theorem facet_in_resumes k frm room room' r rest out :
  limit_ok k → has_mode (cd_mode (codec_of k)) consume_header = false →
  Forall byte_ok frm → 0 ≤ room ≤ room' → do_in (facet_of k) frm room = Conv r rest out →
  do_in (facet_of k) frm room' = after_writing out (do_in (facet_of k) rest (room' - zlen out)).
Proof.
  intros Hk Hm Hok Hr. pose proof (facet_implements k Hk) as Hi. rewrite !in_is.
  unfold skip_header. rewrite Hm. cbn [andb]. intros Hc.
  eapply convert_resume; [apply decodes|done|done|exact Hc].
Qed.

Lemma facet_in_resumes_witness :
  do_in codecvt_char16 [0x41; 0xF0; 0x9F; 0x98; 0x80] 3
  = after_writing [0x41] (do_in codecvt_char16 [0xF0; 0x9F; 0x98; 0x80] 2).
Proof.
  apply (facet_in_resumes Char16 [0x41; 0xF0; 0x9F; 0x98; 0x80] 2 3 partial
    [0xF0; 0x9F; 0x98; 0x80] [0x41]); by repeat constructor.
Defined.

(** [do_length] is the number of bytes [do_in] reads when the room is [mx]
    units. *)
Theorem facet_length k frm mx :
  limit_ok k → zlen frm ≤ INT_MAX →
  do_length (facet_of k) frm mx = zlen frm - zlen (frm_nxt (do_in (facet_of k) frm mx)).
Proof. intros Hk. pose proof (facet_implements k Hk). by apply (length_in (facet_of k) (codec_of k)). Qed.

Lemma facet_length_witness : do_length codecvt_char16 [0x41; 0xF0; 0x9F; 0x98; 0x80; 0x42] 3 = 5.
Proof.
  etransitivity; [by apply (facet_length Char16 [0x41; 0xF0; 0x9F; 0x98; 0x80; 0x42] 3)|done].
Defined.

(** No unit takes more bytes than [do_max_length], the mark counted in. *)
Theorem facet_max_length k frm :
  limit_ok k → Forall byte_ok frm → zlen frm ≤ INT_MAX →
  do_length (facet_of k) frm 1 ≤ do_max_length (facet_of k).
Proof. intros Hk. pose proof (facet_implements k Hk). by apply (max_length_bounds (facet_of k) (codec_of k)). Qed.

Lemma facet_max_length_witness :
  do_length (codecvt_utf8_wchar 0x10FFFF consume_header) [0xEF; 0xBB; 0xBF; 0xF0; 0x9F; 0x98; 0x80] 1
  ≤ 7.
Proof.
  apply (facet_max_length (Utf8Wchar 0x10FFFF consume_header)); [done|by repeat constructor|done].
Defined.

(** From bytes a facet makes units of its internal type, and from such units
    bytes. *)
Theorem facet_units k frm room :
  limit_ok k → zlen (header (codec_of k)) ≤ room →
  (Forall byte_ok frm → Forall (cd_unit (codec_of k)) (to_nxt (do_in (facet_of k) frm room)))
  ∧ (Forall (cd_unit (codec_of k)) frm → Forall byte_ok (to_nxt (do_out (facet_of k) frm room))).
Proof.
  intros Hk Hr. pose proof (facet_implements k Hk). pose proof (zlen_nonneg (header (codec_of k))).
  split; intros Hok; [apply (in_units (facet_of k) (codec_of k)); [done|lia]|].
  apply (out_bytes (facet_of k) (codec_of k)); [|done..].
  by destruct k; repeat constructor.
Qed.

Lemma facet_units_witness : Forall u16_ok (to_nxt (do_in codecvt_char16 [0xF0; 0x9F; 0x98; 0x80] 2)).
Proof. apply (facet_units Char16 [0xF0; 0x9F; 0x98; 0x80] 2); [done..|by repeat constructor]. Defined.

(** [utf8_to_ucs4] reads a byte sequence as one character just when a row of the
    table of valid ranges has it, and the character is the one the table gives. *)
Theorem utf8_table bs v :
  Forall byte_ok bs →
  utf8_to_ucs4 0x10FFFF 0 bs 1 = Conv ok [] [v] ↔ well_formed bs = true ∧ v = utf8_value bs.
Proof.
  intros Hok. pose proof (facet_implements Char32 I) as Hi.
  change (utf8_to_ucs4 _ _ bs 1) with (do_in (facet_of Char32) bs 1). split.
  - intros Hc. apply (in_sound (facet_of Char32) (codec_of Char32)) in Hc
      as (cs & Hcs & He & Ho & _); [|done|lia].
    assert (cs = [v]) as ->.
    { rewrite Ho. clear. induction cs as [|c cs IH]; [done|].
      rewrite encode_all_cons. cbn. by f_equal. }
    apply Forall_singleton in Hcs as [Hv _]. change (bs = (utf8 v ++ []) ++ []) in He. rewrite !app_nil_r in He. rewrite He.
    destruct (utf8_well_formed v Hv) as [Hw Hval]. by rewrite Hval.
  - intros [Hw ->]. destruct (well_formed_utf8 bs Hw) as [Hv Hu].
    apply (in_text _ (codec_of Char32) bs [utf8_value bs]); 
      [|change (bs = utf8 (utf8_value bs) ++ []); by rewrite app_nil_r|done].
    apply Forall_singleton. split; [done|]. unfold scalar, default_maxcode in *. lia.
Qed.

Lemma utf8_table_witness : utf8_to_ucs4 0x10FFFF 0 [0xED; 0x9F; 0xBF] 1 = Conv ok [] [0xD7FF].
Proof. by apply (utf8_table [0xED; 0x9F; 0xBF] 0xD7FF); [repeat constructor|]. Defined.

(** *** Corners *)

(** A limit below a lead byte makes [utf8_to_utf16] reject characters that are within
    the limit, and that [utf8_to_ucs4] accepts. *)
Lemma lead_above_limit :
  utf8_to_utf16 0xC1 0 [0xC3; 0x80] 1 = Conv error [0xC3; 0x80] []
  ∧ utf8_to_ucs4 0xC1 0 [0xC3; 0x80] 1 = Conv ok [] [0xC0].
Proof. done. Qed.

(** The overload on [uint32_t] drops the upper half of a unit. *)
Lemma wide_unit_truncated : utf16_to_utf8_32 0x10FFFF 0 [0x10041] 9 = Conv ok [] [0x41].
Proof. done. Qed.

(** A mark is written by every call, not only at the start of the text. *)
Lemma header_each_call k cs ds room :
  limit_ok k → Forall (cd_valid (codec_of k)) cs → Forall (cd_valid (codec_of k)) ds →
  has_mode (cd_mode (codec_of k)) generate_header = true →
  zlen (cd_mark (codec_of k) ++ encode_all (cd_extern (codec_of k)) cs) ≤ room →
  zlen (cd_mark (codec_of k) ++ encode_all (cd_extern (codec_of k)) ds) ≤ room →
  to_nxt (do_out (facet_of k) (encode_all (cd_intern (codec_of k)) cs) room)
  ++ to_nxt (do_out (facet_of k) (encode_all (cd_intern (codec_of k)) ds) room)
  = cd_mark (codec_of k) ++ encode_all (cd_extern (codec_of k)) cs
    ++ cd_mark (codec_of k) ++ encode_all (cd_extern (codec_of k)) ds.
Proof.
  intros Hk Hcs Hds Hm Hr1 Hr2. pose proof (facet_implements k Hk).
  rewrite !out_text by (done || unfold header; by rewrite Hm). unfold header. rewrite Hm.
  cbn [to_nxt]. by rewrite <- app_assoc.
Qed.

(** UTF-16 units and UCS-4 units of one text give the same bytes. *)
Lemma utf8_of_both M m cs room :
  0xF4 ≤ M ≤ 0x10FFFF → Forall (upto M) cs →
  zlen (header (utf8_ucs4_codec M m) ++ encode_all utf8 cs) ≤ room →
  to_nxt (utf16_to_utf8 M m (encode_all utf16 cs) room)
  = to_nxt (ucs4_to_utf8 M m (encode_all ucs cs) room).
Proof.
  intros HM Hcs Hr. pose proof (facet_implements (Utf8Utf16Char16 M m) HM).
  pose proof (facet_implements (Utf8Char32 M m) (proj2 HM)).
  pose proof (out_text _ (codec_of (Utf8Utf16Char16 M m)) cs room Hcs Hr) as H16. cbn in H16.
  pose proof (out_text _ (codec_of (Utf8Char32 M m)) cs room Hcs Hr) as H32. cbn in H32.
  by rewrite H16, H32.
Qed.

(** The facet on [char] converts nothing and says so. *)
Lemma codecvt_char_noconv frm room mx :
  do_out codecvt_char frm room = Conv noconv frm [] ∧ do_in codecvt_char frm room = Conv noconv frm []
  ∧ (0 ≤ mx → zlen frm ≤ INT_MAX → do_length codecvt_char frm mx = Z.min mx (zlen frm)).
Proof.
  do 2 (split; [done|]). intros Hx Hm. apply int_cast_small. pose proof (zlen_nonneg frm).
  unfold INT_MIN, INT_MAX in *. lia.
Qed.
