(* ===== verification/HashPrime.v ===== *)
(** * HashPrime: [__next_prime] of [hash.cpp] in libc++

    The number of buckets of every unordered container.  The search divides by
    the numbers that are coprime to 210 only; the theorems say that it finds the
    least prime all the same, and when it throws. *)

From Stdlib Require Import Znumtheory.
From S2P Require Import Prelude.

(** ** The tables *)

Definition small_primes : list Z :=
  [0; 2; 3; 5; 7; 11; 13; 17; 19; 23; 29; 31; 37; 41; 43; 47; 53; 59; 61; 67; 71; 73; 79; 83; 89;
   97; 101; 103; 107; 109; 113; 127; 131; 137; 139; 149; 151; 157; 163; 167; 173; 179; 181; 191;
   193; 197; 199; 211].

Definition indices : list Z :=
  [1; 11; 13; 17; 19; 23; 29; 31; 37; 41; 43; 47; 53; 59; 61; 67; 71; 73; 79; 83; 89; 97; 101;
   103; 107; 109; 113; 121; 127; 131; 137; 139; 143; 149; 151; 157; 163; 167; 169; 173; 179; 181;
   187; 191; 193; 197; 199; 209].

(** ** The code *)

(** [__check_for_overflow] where [size_t] has 4 bytes and where it has 8. *)
Definition check_for_overflow_4 (N : Z) : outcome unit :=
  if 0xFFFFFFFB <? N then Throw (str "__next_prime overflow") else Ret tt.

Definition check_for_overflow (N : Z) : outcome unit :=
  if 0xFFFFFFFFFFFFFFC5 <? N then Throw (str "__next_prime overflow") else Ret tt.

(** [std::lower_bound]: the index of the first element that is not less. *)
Fixpoint lower_bound (l : list Z) (v : Z) : nat :=
  match l with
  | x :: l' => if x <? v then S (lower_bound l' v) else O
  | [] => O
  end.

(** Dividing [n] by [i]: [return n], a divisor found, or neither. *)
Inductive division := Returns | Divides | Neither.

Definition divide (n i : Z) : division :=
  let q := n / i in
  if q <? i then Returns else if n =? q * i then Divides else Neither.

(** The loop over the small primes. *)
Fixpoint divide_all (n : Z) (ps : list Z) : division :=
  match ps with
  | [] => Neither
  | p :: ps' => match divide n p with Neither => divide_all n ps' | d => d end
  end.

(** [for (size_t j = 5; j < N - 1; ++j)]. *)
Definition tested_primes : list Z := take 42 (drop 5 small_primes).

(** The body of the [while] loop over [i]: a division, then an addition to [i], 48
    times. *)
Definition increments_1 : list Z := [10; 2; 4; 2; 4; 6; 2; 6; 4; 2; 4; 6; 6; 2; 6; 4].
Definition increments_2 : list Z := [2; 6; 4; 6; 8; 4; 2; 4; 2; 4; 8; 6; 4; 6; 2; 4].
Definition increments_3 : list Z := [6; 2; 6; 6; 4; 2; 4; 6; 2; 6; 4; 2; 4; 2; 10; 2].
Definition increments : list Z := increments_1 ++ increments_2 ++ increments_3.

Fixpoint plane (n i : Z) (incs : list Z) : division * Z :=
  match incs with
  | [] => (Neither, i)
  | d :: incs' =>
      match divide n i with Neither => plane n (size_wrap (i + d)) incs' | v => (v, i) end
  end.

Fixpoint planes (fuel : nat) (n i : Z) : option division :=
  match fuel with
  | O => None
  | S fuel' =>
      match plane n i increments with
      | (Neither, i') => planes fuel' n i'
      | (v, _) => Some v
      end
  end.

(** [L * k0 + indices[in]]. *)
Definition potential (k0 : Z) (ix : nat) : Z :=
  size_wrap (size_wrap (210 * k0) + nth ix indices 0).

(** The divisions of one potential prime. *)
Definition divisions (fuel : nat) (n : Z) : option division :=
  match divide_all n tested_primes with Neither => planes fuel n 211 | d => Some d end.

(** [next:]. *)
Definition next_candidate (k0 : Z) (ix : nat) : Z * nat :=
  if decide (S ix = length indices) then (size_wrap (k0 + 1), O) else (k0, S ix).

(** The outer [while] loop. *)
Fixpoint candidates (fuel : nat) (k0 : Z) (ix : nat) : option Z :=
  match fuel with
  | O => None
  | S fuel' =>
      let n := potential k0 ix in
      match divisions fuel n with
      | None => None
      | Some Returns => Some n
      | Some _ => let '(k0', ix') := next_candidate k0 ix in candidates fuel' k0' ix'
      end
  end.

Definition next_prime (fuel : nat) (n : Z) : option (outcome Z) :=
  if n <=? nth 47 small_primes 0 then Some (Ret (nth (lower_bound small_primes n) small_primes 0))
  else
    match check_for_overflow n with
    | Ret _ =>
        let k0 := n / 210 in
        let ix := lower_bound indices (n - k0 * 210) in
        Ret <$> candidates fuel k0 ix
    | _ => Some (Throw (str "__next_prime overflow"))
    end.

Example next_prime_small : map (next_prime 0) [0; 1; 90; 200; 211] = Some <$> (Ret <$> [0; 2; 97; 211; 211]).
Proof. by vm_compute. Qed.

Example next_prime_large :
  map (next_prime 400) [212; 1000; 1000000; 2 ^ 32] = Some <$> (Ret <$> [223; 1009; 1000003; 4294967311]).
Proof. by vm_compute. Qed.

(** ** The wheel *)

(** Divisible by 2, 3, 5 or 7. *)
Definition off_wheel (n : Z) : bool :=
  (n mod 2 =? 0) || (n mod 3 =? 0) || (n mod 5 =? 0) || (n mod 7 =? 0).

(** The residues at which the wheel stops, and the first of the next turn. *)
Definition pos (t : nat) : Z := nth t (indices ++ [211]) 0.

Definition range (a b : Z) : list Z := map (λ k, a + Z.of_nat k) (seq 0 (Z.to_nat (b - a))).

Lemma range_spec (P : Z → bool) a b :
  forallb P (range a b) = true → ∀ j, a ≤ j < b → P j = true.
Proof.
  unfold range. rewrite forallb_forall. intros Hf j Hj. apply Hf, in_map_iff.
  exists (Z.to_nat (j - a)). rewrite in_seq. lia.
Qed.

Lemma off_wheel_shift r k : off_wheel (r + 210 * k) = off_wheel r.
Proof.
  unfold off_wheel.
  replace (r + 210 * k) with (r + (105 * k) * 2) at 1 by lia.
  replace (r + 210 * k) with (r + (70 * k) * 3) at 1 by lia.
  replace (r + 210 * k) with (r + (42 * k) * 5) at 1 by lia.
  replace (r + 210 * k) with (r + (30 * k) * 7) at 1 by lia.
  by rewrite !Z.mod_add by lia.
Qed.

Lemma off_wheel_divisor d n : Z.divide d n → off_wheel n = false → off_wheel d = false.
Proof.
  unfold off_wheel. intros [e ->]. rewrite !orb_false_iff, !Z.eqb_neq.
  assert (Hm : ∀ p, p ≠ 0 → e * d mod p ≠ 0 → d mod p ≠ 0).
  { intros p Hp Hn Hd. apply Hn. by rewrite Z.mul_mod, Hd, Z.mul_0_r, Z.mod_0_l. }
  intros (((H2 & H3) & H5) & H7). auto 7.
Qed.

(** A prime above 7 is on the wheel. *)
Lemma prime_on_wheel p : Z.prime p → 7 < p → off_wheel p = false.
Proof.
  intros [_ Hp] H7. unfold off_wheel. rewrite !orb_false_iff, !Z.eqb_neq.
  repeat split; intros Hm; (eapply Hp; [|apply Z.mod_divide; [|exact Hm]]; lia).
Qed.

(** Between two stops nothing is on the wheel, and the increments are the distances. *)
Lemma wheel_check :
  forallb (λ t, (nth t increments 0 =? pos (S t) - pos t) && (pos t <? pos (S t))
    && forallb off_wheel (range (pos t + 1) (pos (S t)))) (seq 0 48) = true.
Proof. by vm_compute. Qed.

Lemma wheel_step t :
  (t < 48)%nat →
  nth t increments 0 = pos (S t) - pos t ∧ pos t < pos (S t)
  ∧ ∀ r, pos t < r < pos (S t) → off_wheel r = true.
Proof.
  intros Ht. pose proof wheel_check as Hc. rewrite forallb_forall in Hc.
  specialize (Hc t). rewrite in_seq in Hc. specialize (Hc ltac:(lia)).
  apply andb_true_iff in Hc as [[H1 H2]%andb_true_iff H3].
  split; [lia|]. split; [lia|]. intros r Hr. apply (range_spec _ _ _ H3). lia.
Qed.

Lemma wheel_gap t k j :
  (t < 48)%nat → pos t + 210 * k < j < pos (S t) + 210 * k → off_wheel j = true.
Proof.
  intros Ht Hj. destruct (wheel_step t Ht) as (_ & _ & Hg).
  replace j with (j - 210 * k + 210 * k) by lia. rewrite off_wheel_shift. apply Hg. lia.
Qed.

Lemma pos_indices t : (t < 48)%nat → pos t = nth t indices 0.
Proof. intros Ht. unfold pos. by rewrite app_nth1. Qed.

Lemma on_wheel_check : forallb (λ t, negb (off_wheel (pos t))) (seq 0 48) = true.
Proof. by vm_compute. Qed.

Lemma pos_on_wheel t k : (t < 48)%nat → off_wheel (pos t + 210 * k) = false.
Proof.
  intros Ht. rewrite off_wheel_shift. pose proof on_wheel_check as Hc.
  rewrite forallb_forall in Hc. specialize (Hc t). rewrite in_seq in Hc.
  apply negb_true_iff, Hc. lia.
Qed.

Lemma lookup_nth (l : list Z) t : (t < length l)%nat → l !! t = Some (nth t l 0).
Proof.
  intros Ht. destruct (lookup_lt_is_Some_2 l t Ht) as [x Hx]. by rewrite nth_lookup, Hx.
Qed.

Lemma pos_positive t : (t < 48)%nat → 0 < pos t.
Proof.
  intros Ht. rewrite pos_indices by done.
  assert (Forall (λ x, 0 < x) indices) as Hf by (by repeat constructor).
  by eapply (Forall_lookup_1 _ _ t _ Hf), lookup_nth.
Qed.

Lemma step_check : forallb (λ t, pos (S t) - pos t <=? 10) (seq 0 48) = true.
Proof. by vm_compute. Qed.

Lemma step_at_most_10 t : (t < 48)%nat → pos (S t) - pos t ≤ 10.
Proof.
  intros Ht. pose proof step_check as Hc. rewrite forallb_forall in Hc.
  apply Z.leb_le, Hc, in_seq. lia.
Qed.

(** ** Trial division *)

Definition no_divisor (n i : Z) : Prop := ∀ d, 2 ≤ d < i → ¬ Z.divide d n.

Lemma divide_returns n i : 1 < n → 1 < i → no_divisor n i → divide n i = Returns → Z.prime n.
Proof.
  unfold divide. cbv zeta. intros Hn Hi Hd Hr.
  assert (n / i < i) by (repeat case_match; try done; lia).
  split; [done|]. intros d Hdn [e He]. destruct (decide (d < i)) as [Hlt|Hge].
  { apply (Hd d); [lia|by exists e]. }
  assert (e < i).
  { assert (e = n / d) as -> by (rewrite He, Z.div_mul; lia).
    pose proof (Z.div_le_compat_l n i d ltac:(lia) ltac:(lia)). lia. }
  apply (Hd e); [nia|]. exists d. lia.
Qed.

Lemma divide_divides n i : 1 < i → divide n i = Divides → ¬ Z.prime n.
Proof.
  unfold divide. cbv zeta. intros Hi Hr. repeat case_match; try done.
  intros [_ Hp]. apply (Hp i); [nia|]. exists (n / i). lia.
Qed.

Lemma divide_neither n i : 1 < i → divide n i = Neither → i * i ≤ n ∧ ¬ Z.divide i n.
Proof.
  unfold divide. cbv zeta. intros Hi Hr. repeat case_match; try done. split.
  - pose proof (Z.mul_div_le n i ltac:(lia)). nia.
  - intros [e ->]. rewrite Z.div_mul in * by lia. lia.
Qed.

(** *** The small primes *)

(** Every number below [b] is off the wheel or has a divisor in [ps]. *)
Definition covers (ps : list Z) (b : Z) : bool :=
  forallb (λ j, off_wheel j || existsb (λ q, j mod q =? 0) ps) (range 2 b).

Fixpoint all_covered (seen ps : list Z) : bool :=
  match ps with
  | [] => covers seen 211
  | p :: ps' => (1 <? p) && covers seen p && all_covered (p :: seen) ps'
  end.

Lemma tested_primes_cover : all_covered [] tested_primes = true.
Proof. by vm_compute. Qed.

Lemma covers_spec n ps b :
  off_wheel n = false → Forall (λ p, 1 < p ∧ ¬ Z.divide p n) ps → covers ps b = true →
  no_divisor n b.
Proof.
  intros Hn Hps Hc d Hd Hdn. pose proof (range_spec _ _ _ Hc d Hd) as Hj. cbn in Hj.
  rewrite (off_wheel_divisor d n Hdn Hn), orb_false_l, existsb_exists in Hj.
  destruct Hj as (q & Hq%list_elem_of_In & Hm%Z.eqb_eq). rewrite Forall_forall in Hps.
  destruct (Hps q Hq) as [Hq1 Hqn]. apply Hqn. trans d; [|done]. apply Z.mod_divide; lia.
Qed.

Lemma divide_all_spec n seen ps :
  off_wheel n = false → 1 < n → Forall (λ p, 1 < p ∧ ¬ Z.divide p n) seen →
  all_covered seen ps = true →
  match divide_all n ps with
  | Returns => Z.prime n | Divides => ¬ Z.prime n | Neither => no_divisor n 211
  end.
Proof.
  intros Hn H1. revert seen. induction ps as [|p ps IH]; intros seen Hs Hc; cbn in *.
  { by eapply covers_spec. }
  apply andb_true_iff in Hc as [[Hp Hc]%andb_true_iff Hr]. apply Z.ltb_lt in Hp.
  destruct (divide n p) eqn:Hd.
  - apply (divide_returns n p); [done..| |done]. by eapply covers_spec.
  - by apply (divide_divides n p).
  - apply divide_neither in Hd as [_ Hd]; [|done]. apply (IH (p :: seen)); [|done].
    by apply Forall_cons.
Qed.

(** *** The planes *)

Lemma no_divisor_step n t k :
  (t < 48)%nat → off_wheel n = false → no_divisor n (pos t + 210 * k) →
  ¬ Z.divide (pos t + 210 * k) n → no_divisor n (pos (S t) + 210 * k).
Proof.
  intros Ht Hn Hd Hi d Hb Hdn. destruct (Z.lt_trichotomy d (pos t + 210 * k)) as [Hlt|[->|Hgt]].
  - by apply (Hd d); [lia|].
  - done.
  - pose proof (wheel_gap t k d Ht ltac:(lia)) as Hg.
    by rewrite (off_wheel_divisor d n Hdn Hn) in Hg.
Qed.

Lemma plane_spec n k t :
  off_wheel n = false → 1 < n < 2 ^ 64 → 1 ≤ k → (t ≤ 48)%nat →
  no_divisor n (pos t + 210 * k) →
  match plane n (pos t + 210 * k) (drop t increments) with
  | (Returns, _) => Z.prime n
  | (Divides, _) => ¬ Z.prime n
  | (Neither, i) => i = pos 0 + 210 * (k + 1) ∧ no_divisor n i
      ∧ ((t < 48)%nat → pos t + 210 * k ≤ n)
  end.
Proof.
  intros Hn H1 Hk Ht. assert (∃ m, m = 48 - t)%nat as [m Hm] by eauto. revert t Ht Hm.
  induction m as [|m IH]; intros t Ht Hm Hd.
  - assert (t = 48%nat) as -> by lia. change (drop 48 increments) with (@nil Z). cbn [plane].
    change (pos 48) with 211 in *. change (pos 0) with 1.
    replace (1 + 210 * (k + 1)) with (211 + 210 * k) by lia. split; [done|]. split; [done|lia].
  - assert (Hlt : (t < 48)%nat) by lia. destruct (wheel_step t Hlt) as (Hi & Hp & _).
    pose proof (pos_positive t Hlt) as Hp0.
    rewrite (drop_S increments (nth t increments 0) t) by (by apply lookup_nth).
    cbn [plane]. destruct (divide n (pos t + 210 * k)) eqn:Hdiv.
    + apply (divide_returns n (pos t + 210 * k)); [lia..|done|done].
    + apply (divide_divides n (pos t + 210 * k)); [lia|done].
    + apply divide_neither in Hdiv as [Hsq Hnd]; [|lia].
      replace (size_wrap (pos t + 210 * k + nth t increments 0)) with (pos (S t) + 210 * k).
      * specialize (IH (S t) ltac:(lia) ltac:(lia) (no_divisor_step n t k Hlt Hn Hd Hnd)).
        destruct (plane _ _ _) as [[]]; [done..|]. destruct IH as (-> & Hn' & _).
        split; [done|]. split; [done|]. intros _. nia.
      * rewrite Hi. unfold size_wrap, wrap. assert (pos (S t) - pos t ≤ 10) by by apply step_at_most_10.
        rewrite Z.mod_small; [lia|]. nia.
Qed.

Lemma planes_spec fuel n k :
  off_wheel n = false → 1 < n < 2 ^ 64 → 1 ≤ k → no_divisor n (pos 0 + 210 * k) →
  (1 ≤ fuel)%nat → n + 2 ≤ pos 0 + 210 * k + Z.of_nat fuel →
  (planes fuel n (pos 0 + 210 * k) = Some Returns ∧ Z.prime n)
  ∨ (planes fuel n (pos 0 + 210 * k) = Some Divides ∧ ¬ Z.prime n).
Proof.
  intros Hn H1. revert k. induction fuel as [|fuel IH]; intros k Hk Hd Hf Hfuel; [lia|].
  cbn [planes]. pose proof (plane_spec n k 0 Hn H1 Hk ltac:(lia) Hd) as Hp.
  change (drop 0 increments) with increments in Hp.
  destruct (plane n (pos 0 + 210 * k) increments) as [[] i]; [by left|by right|].
  destruct Hp as (-> & Hd' & Hle). specialize (Hle ltac:(lia)). apply IH; [lia|done|lia..].
Qed.

Lemma divisions_spec fuel n :
  off_wheel n = false → 1 < n < 2 ^ 64 → n ≤ Z.of_nat fuel →
  (divisions fuel n = Some Returns ∧ Z.prime n) ∨ (divisions fuel n = Some Divides ∧ ¬ Z.prime n).
Proof.
  intros Hn H1 Hf. unfold divisions.
  pose proof (divide_all_spec n [] tested_primes Hn ltac:(lia) (List.Forall_nil _)
    tested_primes_cover) as Hd.
  destruct (divide_all n tested_primes); [by left|by right|].
  apply (planes_spec fuel n 1); try done; [lia|]. change (pos 0) with 1. lia.
Qed.

(** ** Candidates *)

Definition no_prime (a b : Z) : Prop := ∀ q, a ≤ q < b → ¬ Z.prime q.

Lemma no_prime_app a b c : no_prime a b → no_prime b c → no_prime a c.
Proof. intros H1 H2 q Hq. destruct (decide (q < b)); [apply H1|apply H2]; lia. Qed.

Lemma off_wheel_no_prime a b : 7 < a → (∀ q, a ≤ q < b → off_wheel q = true) → no_prime a b.
Proof.
  intros Ha Ho q Hq Hp. pose proof (prime_on_wheel q Hp ltac:(lia)) as Hw.
  by rewrite Ho in Hw.
Qed.

Lemma potential_small k ix :
  0 ≤ k → (ix < 48)%nat → pos ix + 210 * k < 2 ^ 64 → potential k ix = pos ix + 210 * k.
Proof.
  intros Hk Hix Hs. pose proof (pos_positive ix Hix). unfold potential, size_wrap, wrap.
  rewrite <- pos_indices, (Z.mod_small (210 * k)) by (done || lia).
  rewrite Z.mod_small; lia.
Qed.

(** With a prime ahead the search ends, and at the first one. *)
Lemma candidates_spec fuel k ix p :
  1 ≤ k → (ix < 48)%nat → Z.prime p → pos ix + 210 * k ≤ p < 2 ^ 64 →
  2 * p - (pos ix + 210 * k) < Z.of_nat fuel →
  ∃ r, candidates fuel k ix = Some r ∧ Z.prime r ∧ pos ix + 210 * k ≤ r ≤ p
    ∧ no_prime (pos ix + 210 * k) r.
Proof.
  revert k ix. induction fuel as [|fuel IH]; intros k ix Hk Hix Hp Hb Hf;
    pose proof (pos_positive ix Hix); [lia|].
  cbn [candidates]. rewrite potential_small by lia. set (c := pos ix + 210 * k) in *.
  pose proof (pos_positive ix Hix).
  destruct (divisions_spec (S fuel) c (pos_on_wheel ix k Hix)) as [[-> Hc]|[-> Hc]]; [lia..| |].
  { exists c. split; [done|]. split; [done|]. split; [lia|]. intros q Hq. lia. }
  destruct (wheel_step ix Hix) as (_ & Hstep & _).
  assert (Hgap : no_prime c (pos (S ix) + 210 * k)).
  { intros q Hq Hqp. destruct (decide (q = c)) as [->|Hne]; [done|].
    pose proof (wheel_gap ix k q Hix ltac:(lia)) as Hg.
    by rewrite (prime_on_wheel q Hqp) in Hg by lia. }
  assert (Hge : pos (S ix) + 210 * k ≤ p).
  { destruct (decide (p < pos (S ix) + 210 * k)); [|lia]. exfalso. by apply (Hgap p); [lia|]. }
  assert (Hwrap : size_wrap (k + 1) = k + 1) by (apply Z.mod_small; lia).
  unfold next_candidate. case_decide as Hlast.
  - assert (ix = 47%nat) as -> by (cbn in Hlast; lia). change (pos 48) with (pos 0 + 210) in *.
    rewrite Hwrap. replace (pos 0 + 210 + 210 * k) with (pos 0 + 210 * (k + 1)) in * by lia.
    destruct (IH (k + 1) 0%nat) as (r & -> & Hr & Hrb & Hno); [lia..|done|lia|lia|].
    exists r. split; [done|]. split; [done|]. split; [lia|]. by eapply no_prime_app.
  - destruct (IH k (S ix)) as (r & -> & Hr & Hrb & Hno); [lia|cbn in Hlast; lia|done|lia|lia|].
    exists r. split; [done|]. split; [done|]. split; [lia|]. by eapply no_prime_app.
Qed.

(** ** The whole function *)

(** Primality of numbers small enough to try every divisor. *)
Definition is_prime (p : Z) : bool := (1 <? p) && forallb (λ d, negb (p mod d =? 0)) (range 2 p).

Lemma is_prime_spec p : is_prime p = true ↔ Z.prime p.
Proof.
  unfold is_prime. rewrite andb_true_iff, Z.ltb_lt. split.
  - intros [H1 Hf]. split; [done|]. intros d Hd Hdn.
    pose proof (range_spec _ _ _ Hf d ltac:(lia)) as Hn. cbn in Hn.
    apply Z.mod_divide in Hdn; [|lia]. by rewrite Hdn in Hn.
  - intros [H1 Hp]. split; [done|]. apply forallb_forall. intros d Hd.
    unfold range in Hd. apply in_map_iff in Hd as (k & <- & Hk%in_seq).
    apply negb_true_iff, Z.eqb_neq. intros Hm. apply (Hp (2 + Z.of_nat k)); [lia|].
    apply Z.mod_divide; [lia|done].
Qed.

Lemma small_check :
  forallb (λ n, let r := nth (lower_bound small_primes n) small_primes 0 in
    (n <=? r) && is_prime r && forallb (λ q, negb (is_prime q)) (range n r)) (range 1 212) = true.
Proof. by vm_compute. Qed.

Lemma small_spec n :
  1 ≤ n ≤ 211 → let r := nth (lower_bound small_primes n) small_primes 0 in
  Z.prime r ∧ n ≤ r ∧ no_prime n r.
Proof.
  intros Hn. pose proof (range_spec _ _ _ small_check n ltac:(lia)) as Hc. cbv beta zeta in Hc.
  apply andb_true_iff in Hc as [[Hle Hr]%andb_true_iff Hno]. split; [by apply is_prime_spec|].
  split; [lia|]. intros q Hq Hqp%is_prime_spec. pose proof (range_spec _ _ _ Hno q Hq) as Hf.
  cbn in Hf. by rewrite Hqp in Hf.
Qed.

Lemma first_check :
  forallb (λ r, let ix := lower_bound indices r in
    (ix <? 48)%nat && (r <=? pos ix) && forallb off_wheel (range r (pos ix))) (range 0 210) = true.
Proof. by vm_compute. Qed.

Lemma first_spec r :
  0 ≤ r < 210 → let ix := lower_bound indices r in
  (ix < 48)%nat ∧ r ≤ pos ix ∧ ∀ q, r ≤ q < pos ix → off_wheel q = true.
Proof.
  intros Hr. pose proof (range_spec _ _ _ first_check r Hr) as Hc. cbv beta zeta in Hc.
  apply andb_true_iff in Hc as [[Hlt Hle]%andb_true_iff Ho].
  split; [by apply Nat.ltb_lt|]. split; [lia|]. by apply range_spec.
Qed.

(** The numbers above the largest prime of 64 bits, and a divisor of each. *)
Definition last_divisors : list Z :=
  [2; 3; 5; 7; 11; 13; 17; 19; 29; 31; 41; 53; 827; 11071; 139646831].

Lemma last_check :
  forallb (λ q, existsb (λ d, q mod d =? 0) last_divisors)
    (range 0xFFFFFFFFFFFFFFC6 (2 ^ 64)) = true.
Proof. by vm_compute. Qed.

Lemma no_prime_last : no_prime 0xFFFFFFFFFFFFFFC6 (2 ^ 64).
Proof.
  intros q Hq [_ Hp]. pose proof (range_spec _ _ _ last_check q Hq) as Hc. cbv beta in Hc.
  apply existsb_exists in Hc as (d & Hd%list_elem_of_In & Hm%Z.eqb_eq).
  assert (Forall (λ d, 1 < d < 2 ^ 32) last_divisors) as Hf by (by repeat constructor).
  rewrite Forall_forall in Hf. specialize (Hf d Hd).
  apply (Hp d); [lia|]. apply Z.mod_divide; [lia|done].
Qed.

(** C22: for [n] above 0 with a prime of 64 bits at or above it, [__next_prime]
    returns, without an exception, the least such prime. *)
Theorem next_prime_least n p :
  1 ≤ n → Z.prime p → n ≤ p < 2 ^ 64 →
  ∃ r, (∀ fuel, 2 * p ≤ Z.of_nat fuel → next_prime fuel n = Some (Ret r))
    ∧ Z.prime r ∧ n ≤ r ≤ p ∧ no_prime n r.
Proof.
  intros Hn Hp Hb. unfold next_prime. change (nth 47 small_primes 0) with 211.
  destruct (n <=? 211) eqn:Hsmall.
  { destruct (small_spec n ltac:(lia)) as (Hr & Hle & Hno). eexists. split; [done|].
    split; [done|]. split; [|done]. destruct (decide (p < nth (lower_bound small_primes n) small_primes 0)).
    - exfalso. by apply (Hno p); [lia|].
    - lia. }
  assert (Hov : n ≤ 0xFFFFFFFFFFFFFFC5).
  { destruct (decide (p < 0xFFFFFFFFFFFFFFC6)); [lia|]. exfalso. by apply (no_prime_last p); [lia|]. }
  unfold check_for_overflow. replace (_ <? n) with false by (symmetry; lia).
  pose proof (Z.mod_eq n 210 ltac:(lia)) as Hmod. pose proof (Z.mod_pos_bound n 210 ltac:(lia)).
  destruct (first_spec (n - n / 210 * 210) ltac:(lia)) as (Hix & Hle & Hoff).
  set (ix := lower_bound indices (n - n / 210 * 210)) in *. set (k := n / 210) in *.
  assert (Hk : 1 ≤ k) by (apply Z.div_le_lower_bound; lia).
  assert (Hgap : no_prime n (pos ix + 210 * k)).
  { apply off_wheel_no_prime; [lia|]. intros q Hq. replace q with (q - 210 * k + 210 * k) by lia.
    rewrite off_wheel_shift. apply Hoff. lia. }
  assert (Hc : pos ix + 210 * k ≤ p).
  { destruct (decide (p < pos ix + 210 * k)); [|lia]. exfalso. by apply (Hgap p); [lia|]. }
  pose proof (pos_positive ix Hix).
  assert (Hall : ∀ fuel, 2 * p ≤ Z.of_nat fuel → ∃ r, candidates fuel k ix = Some r ∧ Z.prime r
    ∧ pos ix + 210 * k ≤ r ≤ p ∧ no_prime (pos ix + 210 * k) r).
  { intros fuel Hf. apply candidates_spec; (done || lia). }
  destruct (Hall (Z.to_nat (2 * p)) ltac:(lia)) as (r & _ & Hr & Hrb & Hno).
  exists r. split.
  - intros fuel Hf. destruct (Hall fuel Hf) as (r' & -> & Hr' & Hrb' & Hno').
    cbn. do 2 f_equal. destruct (Z.lt_trichotomy r' r) as [Hlt|[->|Hgt]]; [|done|].
    + exfalso. by apply (Hno r'); [lia|].
    + exfalso. by apply (Hno' r); [lia|].
  - split; [done|]. split; [lia|]. by eapply no_prime_app.
Qed.

Lemma next_prime_least_witness :
  ∃ r, (∀ fuel, 2018 ≤ Z.of_nat fuel → next_prime fuel 1000 = Some (Ret r)) ∧ Z.prime r
    ∧ 1000 ≤ r ≤ 1009.
Proof.
  destruct (next_prime_least 1000 1009) as (r & Hf & Hp & Hb & _);
    [done|by apply is_prime_spec; vm_compute|done|]. by exists r.
Defined.

(** [__next_prime] throws exactly above [0xFFFFFFFFFFFFFFC5], where no [size_t]
    is prime any more. *)
Theorem next_prime_overflow fuel n :
  0 ≤ n < 2 ^ 64 →
  ((∃ what, next_prime fuel n = Some (Throw what)) ↔ 0xFFFFFFFFFFFFFFC5 < n)
  ∧ (0xFFFFFFFFFFFFFFC5 < n → no_prime n (2 ^ 64)).
Proof.
  intros Hn. split; [|intros Hlt q Hq; apply no_prime_last; lia]. unfold next_prime, check_for_overflow.
  change (nth 47 small_primes 0) with 211.
  destruct (n <=? 211) eqn:Hs; [split; [by intros [? ?]|lia]|].
  destruct (_ <? n) eqn:Ho; split; try lia; [by eexists|].
  intros [what Hw]. by destruct (candidates _ _ _).
Qed.

Lemma next_prime_overflow_witness :
  (∃ what, next_prime 0 (2 ^ 64 - 1) = Some (Throw what)) ∧ no_prime (2 ^ 64 - 1) (2 ^ 64).
Proof.
  split; [by apply (next_prime_overflow 0 (2 ^ 64 - 1))|].
  by apply (next_prime_overflow 0 (2 ^ 64 - 1)).
Defined.
