(* ===== verification/Regex.v ===== *)
(** * Regex: [regex.cpp]

    What the regular expressions of libc++ have outside their templates: the names
    of collating elements and of character classes, found by binary search in sorted
    tables; the step of the node that matches any character but a newline; and the
    texts of the errors. *)

From S2P Require Import Prelude.

(** ** Binary search *)

(** [strcmp(x, y) < 0]; the strings are up to their NULs. *)
Fixpoint strcmp_lt (x y : bytes) : bool :=
  match x, y with
  | [], [] => false
  | [], _ :: _ => true
  | _ :: _, [] => false
  | a :: x', b :: y' =>
      if byte_val a =? byte_val b then strcmp_lt x' y' else byte_val a <? byte_val b
  end.

(** [__lower_bound] over [len] elements from [first], as the header has it. *)
Fixpoint lower_bound_loop {A} (fuel : nat) (comp : A → bool) (l : list A) (first len : nat) : option nat :=
  match fuel with
  | O => None
  | S fuel' =>
      if decide (len = O) then Some first
      else
        let l2 := Nat.div2 len in
        match l !! (first + l2)%nat with
        | None => None
        | Some x =>
            if comp x then lower_bound_loop fuel' comp l (first + l2 + 1) (len - (l2 + 1))
            else lower_bound_loop fuel' comp l first l2
        end
  end.

Definition lower_bound_by {A} (comp : A → bool) (l : list A) : option nat :=
  lower_bound_loop (S (length l)) comp l 0 (length l).

(** ** The tables *)

Definition collatenames : list (string * Z) := [
  ("A", 0x41); ("B", 0x42); ("C", 0x43); ("D", 0x44); ("E", 0x45); ("F", 0x46); ("G", 0x47);
   ("H", 0x48); ("I", 0x49); ("J", 0x4a); ("K", 0x4b); ("L", 0x4c); ("M", 0x4d); ("N", 0x4e);
   ("NUL", 0x0); ("O", 0x4f); ("P", 0x50); ("Q", 0x51); ("R", 0x52); ("S", 0x53); ("T", 0x54);
   ("U", 0x55); ("V", 0x56); ("W", 0x57); ("X", 0x58); ("Y", 0x59); ("Z", 0x5a); ("a", 0x61);
   ("alert", 0x7); ("ampersand", 0x26); ("apostrophe", 0x27); ("asterisk", 0x2a); ("b", 0x62);
   ("backslash", 0x5c); ("backspace", 0x8); ("c", 0x63); ("carriage-return", 0xd);
   ("circumflex", 0x5e); ("circumflex-accent", 0x5e); ("colon", 0x3a); ("comma", 0x2c);
   ("commercial-at", 0x40); ("d", 0x64); ("dollar-sign", 0x24); ("e", 0x65); ("eight", 0x38);
   ("equals-sign", 0x3d); ("exclamation-mark", 0x21); ("f", 0x66); ("five", 0x35);
   ("form-feed", 0xc); ("four", 0x34); ("full-stop", 0x2e); ("g", 0x67);
   ("grave-accent", 0x60); ("greater-than-sign", 0x3e); ("h", 0x68); ("hyphen", 0x2d);
   ("hyphen-minus", 0x2d); ("i", 0x69); ("j", 0x6a); ("k", 0x6b); ("l", 0x6c);
   ("left-brace", 0x7b); ("left-curly-bracket", 0x7b); ("left-parenthesis", 0x28);
   ("left-square-bracket", 0x5b); ("less-than-sign", 0x3c); ("low-line", 0x5f); ("m", 0x6d);
   ("n", 0x6e); ("newline", 0xa); ("nine", 0x39); ("number-sign", 0x23); ("o", 0x6f);
   ("one", 0x31); ("p", 0x70); ("percent-sign", 0x25); ("period", 0x2e); ("plus-sign", 0x2b);
   ("q", 0x71); ("question-mark", 0x3f); ("quotation-mark", 0x22); ("r", 0x72);
   ("reverse-solidus", 0x5c); ("right-brace", 0x7d); ("right-curly-bracket", 0x7d);
   ("right-parenthesis", 0x29); ("right-square-bracket", 0x5d); ("s", 0x73);
   ("semicolon", 0x3b); ("seven", 0x37); ("six", 0x36); ("slash", 0x2f); ("solidus", 0x2f);
   ("space", 0x20); ("t", 0x74); ("tab", 0x9); ("three", 0x33); ("tilde", 0x7e); ("two", 0x32);
   ("u", 0x75); ("underscore", 0x5f); ("v", 0x76); ("vertical-line", 0x7c);
   ("vertical-tab", 0xb); ("w", 0x77); ("x", 0x78); ("y", 0x79); ("z", 0x7a); ("zero", 0x30)]%string.

(** The masks of [ctype_base], which are the C library's. *)
Record ctype_masks := mkMasks {
  m_space : Z; m_print : Z; m_cntrl : Z; m_upper : Z; m_lower : Z; m_alpha : Z; m_digit : Z;
  m_punct : Z; m_xdigit : Z; m_blank : Z }.
Definition m_alnum (m : ctype_masks) : Z := Z.lor (m_alpha m) (m_digit m).
Definition m_graph (m : ctype_masks) : Z := Z.lor (m_alnum m) (m_punct m).

(** [regex_traits<char>::__regex_word]. *)
Definition regex_word : Z := 0x80.

Definition ClassNames (m : ctype_masks) : list (string * Z) := [
  ("alnum", m_alnum m); ("alpha", m_alpha m); ("blank", m_blank m); ("cntrl", m_cntrl m); ("d", m_digit m);
  ("digit", m_digit m); ("graph", m_graph m); ("lower", m_lower m); ("print", m_print m); ("punct", m_punct m);
  ("s", m_space m); ("space", m_space m); ("upper", m_upper m); ("w", regex_word); ("xdigit", m_xdigit m)]%string.

(** The element with the name, where the search ends: [use_strcmp] and the test that
    both functions make. *)
Definition find_name {A} (table : list (string * A)) (s : bytes) : option A :=
  match lower_bound_by (λ x, strcmp_lt (str x.1) s) table with
  | Some i =>
      match table !! i with
      | Some x => if decide (str x.1 = s) then Some x.2 else None
      | None => None
      end
  | None => None
  end.

Definition get_collation_name (s : bytes) : bytes :=
  match find_name collatenames s with Some c => [byte_of c] | None => [] end.

Definition get_classname (m : ctype_masks) (s : bytes) (icase : bool) : Z :=
  match find_name (ClassNames m) s with
  | None => 0
  | Some r =>
      if decide (r = regex_word) then Z.lor r (Z.lor (Z.lor (m_alnum m) (m_upper m)) (m_lower m))
      else if icase then
        if negb (Z.land r (Z.lor (m_lower m) (m_upper m)) =? 0) then Z.lor r (m_alpha m) else r
      else r
  end.

(** ** Any character but a newline *)

Inductive match_do := Reject | AcceptAndConsume.

(** [__current_] as the characters from it to [__last_]; what [__do_] and whether
    [__node_] is the next node become. *)
Definition newline_char (c : Z) : bool := (c =? 13) || (c =? 10).
Definition newline_wchar (c : Z) : bool := newline_char c || (c =? 0x2028) || (c =? 0x2029).

Definition match_any_but (newline : Z → bool) (current : list Z) : match_do * list Z * bool :=
  match current with
  | c :: rest => if newline c then (Reject, current, false) else (AcceptAndConsume, rest, true)
  | [] => (Reject, current, false)
  end.

(** ** Errors *)

Inductive error_type :=
  | error_collate | error_ctype | error_escape | error_backref | error_brack | error_paren | error_brace
  | error_badbrace | error_range | error_space | error_badrepeat | error_complexity | error_stack
  | re_err_grammar | re_err_empty | re_err_unknown.

Definition make_error_type_string (ecode : error_type) : bytes :=
  match ecode with
  | error_collate => str "The expression contained an invalid collating element name."
  | error_ctype => str "The expression contained an invalid character class name."
  | error_escape => str "The expression contained an invalid escaped character, or a trailing escape."
  | error_backref => str "The expression contained an invalid back reference."
  | error_brack => str "The expression contained mismatched [ and ]."
  | error_paren => str "The expression contained mismatched ( and )."
  | error_brace => str "The expression contained mismatched { and }."
  | error_badbrace => str "The expression contained an invalid range in a {} expression."
  | error_range => str "The expression contained an invalid character range, such as [b-a] in most encodings."
  | error_space => str "There was insufficient memory to convert the expression into a finite state machine."
  | error_badrepeat => str "One of *?+{ was not preceded by a valid regular expression."
  | error_complexity =>
      str "The complexity of an attempted match against a regular expression exceeded a pre-set level."
  | error_stack =>
      str "There was insufficient memory to determine whether the regular expression could match the specified character sequence."
  | re_err_grammar => str "An invalid regex grammar has been requested."
  | re_err_empty => str "An empty regex is not allowed in the POSIX grammar."
  | re_err_unknown => str "Unknown error type"
  end.

(** libc++'s own masks, for a C library it does not know. *)
Definition own_masks : ctype_masks :=
  mkMasks (2 ^ 0) (2 ^ 1) (2 ^ 2) (2 ^ 3) (2 ^ 4) (2 ^ 5) (2 ^ 6) (2 ^ 7) (2 ^ 8) (2 ^ 9).

(** ** Lemmas *)

Lemma strcmp_irrefl x : strcmp_lt x x = false.
Proof. induction x as [|a x IH]; [done|]. cbn. by rewrite Z.eqb_refl. Qed.

Lemma strcmp_trans x y z : strcmp_lt x y = true → strcmp_lt y z = true → strcmp_lt x z = true.
Proof.
  revert y z. induction x as [|a x IH]; intros [|b y] [|c z]; try done. cbn.
  destruct (byte_val a =? byte_val b) eqn:E1, (byte_val b =? byte_val c) eqn:E2; intros H1 H2.
  - replace (byte_val a =? byte_val c) with true by lia. by eapply IH.
  - replace (byte_val a =? byte_val c) with false by lia. lia.
  - replace (byte_val a =? byte_val c) with false by lia. lia.
  - replace (byte_val a =? byte_val c) with false by lia. lia.
Qed.

(** The elements that the test holds of come first. *)
Definition downward {A} (comp : A → bool) (l : list A) : Prop :=
  ∀ i j x y, (i < j)%nat → l !! i = Some x → l !! j = Some y → comp y = true → comp x = true.

Lemma lower_bound_loop_spec {A} (comp : A → bool) l fuel first len :
  downward comp l → (len < fuel)%nat → (first + len ≤ length l)%nat →
  (∀ i x, (i < first)%nat → l !! i = Some x → comp x = true) →
  (∀ i x, (first + len ≤ i)%nat → l !! i = Some x → comp x = false) →
  ∃ r, lower_bound_loop fuel comp l first len = Some r ∧ (r ≤ length l)%nat
    ∧ (∀ i x, (i < r)%nat → l !! i = Some x → comp x = true)
    ∧ (∀ i x, (r ≤ i)%nat → l !! i = Some x → comp x = false).
Proof.
  intros Hd. revert first len. induction fuel as [|fuel IH]; intros first len Hf Hl Hlo Hhi; [lia|].
  cbn [lower_bound_loop]. case_decide as Hz.
  { exists first. split; [done|]. split; [lia|]. split; [done|]. intros i x Hi. apply Hhi. lia. }
  assert (Hhalf : (Nat.div2 len < len)%nat) by (apply Nat.lt_div2; lia). generalize dependent (Nat.div2 len). intros l2 Hhalf.
  destruct (lookup_lt_is_Some_2 l (first + l2)) as [x Hx]; [lia|]. rewrite Hx.
  destruct (comp x) eqn:Hc; apply IH; try lia; try done.
  - intros i y Hi Hy. destruct (decide (i = first + l2)%nat) as [->|Hne]; [congruence|].
    eapply (Hd i _ y x); [|done|exact Hx|done]. lia.
  - intros i y Hi. apply Hhi. lia.
  - intros i y Hi Hy. destruct (comp y) eqn:Hcy; [|done].
    destruct (decide (i = first + l2)%nat) as [->|Hne]; [congruence|].
    assert (comp x = true) by (eapply (Hd _ i x y); [|exact Hx|done|done]; lia). congruence.
Qed.

(** A table whose keys increase. *)
Definition sorted_names (keys : list string) : bool :=
  forallb (λ p, strcmp_lt (str p.1) (str p.2)) (zip keys (tail keys)).

Lemma sorted_lt keys i j x y :
  sorted_names keys = true → (i < j)%nat → keys !! i = Some x → keys !! j = Some y →
  strcmp_lt (str x) (str y) = true.
Proof.
  intros Hs. assert (Hstep : ∀ k a b, keys !! k = Some a → keys !! S k = Some b → strcmp_lt (str a) (str b) = true).
  { intros k a b Ha Hb. unfold sorted_names in Hs. rewrite forallb_forall in Hs.
    apply (Hs (a, b)). apply list_elem_of_In, (list_elem_of_lookup_2 _ k). apply lookup_zip_Some.
    split; [done|]. by rewrite lookup_tail. }
  revert j y. induction j as [|j IH]; intros y Hij Hx Hy; [lia|].
  destruct (decide (i = j)) as [->|Hne]; [by eapply Hstep|].
  destruct (lookup_lt_is_Some_2 keys j) as [z Hz]; [apply lookup_lt_Some in Hy; lia|].
  eapply strcmp_trans; [apply (IH z); [lia|done|done]|by eapply Hstep].
Qed.

(** What is in a table under a name. *)
Fixpoint assoc_name {A} (table : list (string * A)) (s : bytes) : option A :=
  match table with
  | [] => None
  | (k, v) :: table' => if decide (str k = s) then Some v else assoc_name table' s
  end.

Lemma assoc_name_some {A} (table : list (string * A)) s v :
  assoc_name table s = Some v → ∃ i k, table !! i = Some (k, v) ∧ str k = s.
Proof.
  induction table as [|[k w] table IH]; [done|]. cbn. case_decide as Hk.
  - intros [= ->]. by exists O, k.
  - intros Hv. destruct (IH Hv) as (i & k' & Hi & Hk'). by exists (S i), k'.
Qed.

Lemma assoc_name_none {A} (table : list (string * A)) s i k v :
  assoc_name table s = None → table !! i = Some (k, v) → str k ≠ s.
Proof.
  revert i. induction table as [|[k' w] table IH]; intros i Hn Hi; [done|]. cbn in Hn. case_decide; [done|].
  destruct i as [|i]; [by injection Hi as -> ->|by eapply IH].
Qed.

Lemma find_name_is {A} (table : list (string * A)) s :
  sorted_names table.*1 = true → find_name table s = assoc_name table s.
Proof.
  intros Hs. assert (Hlt : ∀ i j x y, (i < j)%nat → table !! i = Some x → table !! j = Some y →
    strcmp_lt (str x.1) (str y.1) = true).
  { intros i j x y Hij Hx Hy. eapply (sorted_lt table.*1 i j); [done|done| |]; rewrite list_lookup_fmap;
      [by rewrite Hx|by rewrite Hy]. }
  destruct (lower_bound_loop_spec (λ x, strcmp_lt (str x.1) s) table (S (length table)) 0 (length table))
    as (r & Hr & Hle & Hlo & Hhi); [|lia|lia|lia|intros i x Hi Hx; apply lookup_lt_Some in Hx; lia|].
  { intros i j x y Hij Hx Hy Hc. eapply strcmp_trans; [|exact Hc]. by eapply Hlt. }
  unfold find_name, lower_bound_by. rewrite Hr. destruct (assoc_name table s) as [v|] eqn:Ha.
  - apply assoc_name_some in Ha as (i & k & Hi & Hk).
    assert (Hri : (r ≤ i)%nat).
    { destruct (decide (i < r)%nat) as [Hir|]; [|lia]. specialize (Hlo i (k, v) Hir Hi). cbn [fst] in Hlo.
      by rewrite Hk, strcmp_irrefl in Hlo. }
    destruct (decide (r = i)) as [->|Hne]; [rewrite Hi; cbn [fst snd]; by rewrite decide_True|].
    destruct (lookup_lt_is_Some_2 table r) as [x Hx]; [apply lookup_lt_Some in Hi; lia|].
    specialize (Hhi r x ltac:(lia) Hx). cbn [fst] in Hhi. rewrite <- Hk in Hhi.
    pose proof (Hlt r i x (k, v) ltac:(lia) Hx Hi) as Hl. cbn [fst] in Hl. congruence.
  - destruct (table !! r) as [[k v]|] eqn:Hx; [|done]. rewrite decide_False; [done|]. cbn [fst].
    by eapply assoc_name_none.
Qed.

(** ** Properties *)

(** The search finds a name of a collating element exactly when the table has it,
    wherever in the table it is. *)
Theorem collation_names s :
  get_collation_name s = match assoc_name collatenames s with Some c => [byte_of c] | None => [] end.
Proof. unfold get_collation_name. rewrite find_name_is; [done|]. by vm_compute. Qed.

(** Likewise for a class; ["w"] has letters, digits and the bit for the underscore,
    and without regard to case the two cases stand for all letters. *)
Theorem class_names m s icase :
  get_classname m s icase
  = match assoc_name (ClassNames m) s with
    | None => 0
    | Some r =>
        if decide (r = regex_word) then Z.lor r (Z.lor (Z.lor (m_alnum m) (m_upper m)) (m_lower m))
        else if icase && negb (Z.land r (Z.lor (m_lower m) (m_upper m)) =? 0) then Z.lor r (m_alpha m) else r
    end.
Proof.
  unfold get_classname. rewrite find_name_is by by vm_compute.
  destruct (assoc_name (ClassNames m) s); [|done]. case_decide; [done|]. by destruct icase.
Qed.

(** Where a mask of the C library is [__regex_word]'s, as libc++'s own mask of
    [punct] is, the class stands for all word characters too. *)
Theorem class_is_word m :
  m_punct m = regex_word →
  get_classname m (str "punct") false = get_classname m (str "w") false.
Proof. intros Hp. rewrite !class_names. vm_compute in Hp. destruct m. cbn in Hp. subst. by vm_compute. Qed.

Lemma class_is_word_witness : get_classname own_masks (str "punct") false = get_classname own_masks (str "w") false.
Proof. apply class_is_word. reflexivity. Defined.

Example names_found :
  get_collation_name (str "hyphen") = str "-" ∧ get_collation_name (str "NUL") = [NUL]
  ∧ get_collation_name (str "hyphe") = [] ∧ get_classname own_masks (str "lower") true = 2 ^ 4 + 2 ^ 5.
Proof. by vm_compute. Qed.
