(* ===== verification/Guard.v ===== *)
(** * Guard: thread-safe statics, [guard.cc] of libcxxrt

    Any number of threads meet at the guard of one static object.  A step is one
    access of one thread to the guard word; [Itanium] has the 64-bit guards,
    [Arm] the 32-bit ones. *)

From S2P Require Import Prelude Bits.

(** A thread's constructor ends, or throws. *)
Inductive choice := Finish | Throws.

Module Itanium.

(** ** The guard word *)

(** The guard shifted by 56, as a [char]; the low half, and a store to it. *)
Definition first_byte (g : Z) : Z := (g >> 56) .& 0xFF.
Definition low_32_bits (g : Z) : Z := g .& 0xFFFFFFFF.
Definition set_low_32_bits (g v : Z) : Z := (g >> 32 << 32) .| v.

(** [__sync_bool_compare_and_swap_4(lock, old, new)]. *)
Definition compare_and_swap (g old new : Z) : option Z :=
  if low_32_bits g =? old then Some (set_low_32_bits g new) else None.

(** ** The threads *)

(** Where a thread is: outside; in [__cxa_guard_acquire], before its first read, at
    the swap, in the body of the loop, before the last read; in its constructor; in
    [__cxa_guard_release], before the read, the write, and the store of
    [__cxa_guard_abort]; in [__cxa_guard_abort] after an exception; past the static. *)
Inductive pc :=
  | Start | Entered | Swapping | Spinning | Retesting
  | Constructing | Releasing | Marking (seen : Z) | Unlocking | Aborting | Ready.

#[export] Instance pc_eq_dec : EqDecision pc.
Proof. solve_decision. Defined.

(** The guard, the threads, and how many constructors have finished. *)
Record state := State { guard : Z; threads : gmap nat pc; constructed : nat }.

Definition goto (t : nat) (p : pc) (s : state) : state :=
  State (guard s) (<[t := p]> (threads s)) (constructed s).
Definition store (g : Z) (s : state) : state := State g (threads s) (constructed s).

(** [__cxa_guard_acquire]. *)
Definition acquire (t : nat) (p : pc) (s : state) : option state :=
  match p with
  | Start => Some (goto t Entered s)
  | Entered => Some (if first_byte (guard s) =? 1 then goto t Ready s else goto t Swapping s)
  | Swapping =>
      match compare_and_swap (guard s) 0 1 with
      | Some g => Some (goto t Retesting (store g s))
      | None => Some (goto t Spinning s)
      end
  | Spinning =>
      Some (if guard s >> 56 =? 1 then goto t Retesting s else goto t Swapping s)
  | Retesting =>
      Some (if negb (first_byte (guard s) =? 1) then goto t Constructing s else goto t Ready s)
  | _ => None
  end.

(** The constructor, and the call it is followed by. *)
Definition construct (c : choice) (t : nat) (s : state) : state :=
  match c with
  | Finish => State (guard s) (<[t := Releasing]> (threads s)) (S (constructed s))
  | Throws => goto t Aborting s
  end.

(** [__cxa_guard_abort]: the low half becomes 0. *)
Definition abort (t : nat) (p : pc) (s : state) : state :=
  goto t p (store (set_low_32_bits (guard s) 0) s).

(** [__cxa_guard_release]: [|=] on the guard is a read and a write; then
    [__cxa_guard_abort]. *)
Definition release (t : nat) (p : pc) (s : state) : option state :=
  match p with
  | Releasing => Some (goto t (Marking (guard s)) s)
  | Marking seen => Some (goto t Unlocking (store (seen .| (1 << 56)) s))
  | Unlocking => Some (abort t Ready s)
  | _ => None
  end.

Definition step (c : choice) (t : nat) (s : state) : option state :=
  match threads s !! t with
  | None | Some Ready => None
  | Some Constructing => Some (construct c t s)
  | Some Aborting => Some (abort t Start s)
  | Some ((Releasing | Marking _ | Unlocking) as p) => release t p s
  | Some p => acquire t p s
  end.

Inductive steps : state → state → Prop :=
  | steps_refl s : steps s s
  | steps_step s s' s'' c t : steps s s' → step c t s' = Some s'' → steps s s''.

(** A schedule. *)
Fixpoint run (sched : list (choice * nat)) (s : state) : option state :=
  match sched with
  | [] => Some s
  | (c, t) :: sched' => step c t s ≫= run sched'
  end.

(** A guard nobody has touched, and any threads. *)
Definition initial (s : state) : Prop :=
  guard s = 0 ∧ constructed s = O ∧ map_Forall (λ _ p, p = Start) (threads s).

(** ** The words a guard goes through *)

Definition word (marked locked : bool) : Z :=
  (if marked then 2 ^ 56 else 0) + (if locked then 1 else 0).

Lemma first_byte_word m l : first_byte (word m l) = if m then 1 else 0.
Proof. by destruct m, l. Qed.
Lemma top_word m l : word m l >> 56 = if m then 1 else 0.
Proof. by destruct m, l. Qed.
Lemma swap_word m l : compare_and_swap (word m l) 0 1 = if l then None else Some (word m true).
Proof. by destruct m, l. Qed.
Lemma unlock_word m l : set_low_32_bits (word m l) 0 = word m false.
Proof. by destruct m, l. Qed.
Lemma mark_word m l : word m l .| (1 << 56) = word true l.
Proof. by destruct m, l. Qed.

(** ** The invariant *)

(** The threads that have the lock and have not given it back. *)
Definition owns (p : pc) : bool :=
  match p with Constructing | Releasing | Marking _ | Unlocking | Aborting => true | _ => false end.

(** What a thread may rely on: [m] says that the guard is marked, [o] who owns it. *)
Definition thread_ok (m l : bool) (done : nat) (o : option nat) (t : nat) (p : pc) : Prop :=
  match p with
  | Start | Entered | Swapping | Spinning => o ≠ Some t
  | Retesting => if decide (o = Some t) then l = true ∧ m = false ∧ done = O else m = true
  | Constructing | Aborting => o = Some t ∧ l = true ∧ m = false ∧ done = O
  | Releasing => o = Some t ∧ l = true ∧ m = false ∧ done = 1%nat
  | Marking seen => o = Some t ∧ l = true ∧ m = false ∧ done = 1%nat ∧ seen = word false true
  | Unlocking => o = Some t ∧ m = true
  | Ready => o ≠ Some t ∧ m = true
  end.

Definition inv (s : state) : Prop :=
  ∃ m l o,
    guard s = word m l
    ∧ (m = false → l = true ↔ is_Some o)
    ∧ (m = true → constructed s = 1%nat) ∧ (m = false → o = None → constructed s = O)
    ∧ (∀ t, o = Some t → is_Some (threads s !! t))
    ∧ map_Forall (thread_ok m l (constructed s) o) (threads s).

(** The owner, seen from a thread whose step changes the guard. *)
Lemma inv_intro g ts done m l o t p :
  g = word m l →
  (m = false → l = true ↔ is_Some o) →
  (m = true → done = 1%nat) → (m = false → o = None → done = O) →
  (∀ u, o = Some u → u = t ∨ is_Some (ts !! u)) →
  thread_ok m l done o t p →
  (∀ u q, u ≠ t → ts !! u = Some q → thread_ok m l done o u q) →
  inv (State g (<[t := p]> ts) done).
Proof.
  intros Hg Hl Hm Hd Ho Ht Hu. exists m, l, o. cbn. do 4 (split; [done|]). split.
  - intros u Hou. destruct (decide (u = t)) as [->|Hne].
    + exists p. apply lookup_insert_Some. by left.
    + destruct (Ho u Hou) as [->|[q Hq]]; [done|]. exists q. apply lookup_insert_Some. auto.
  - intros u q [[<- <-]|[Hne Hq]]%lookup_insert_Some; [done|]. by apply Hu.
Qed.

Lemma inv_initial s : initial s → inv s.
Proof.
  intros (Hg & Hd & Ht). exists false, false, None. split; [done|].
  split; [by split; [|intros [? ?]]|]. do 3 (split; [done|]).
  intros t p Hp. by rewrite (Ht t p Hp).
Qed.

(** Closes the cases of [inv_intro]: [thread_ok] of the other threads follows from
    what it was, thread by thread. *)
Ltac destruct_ex := repeat match goal with H : ∃ _, _ |- _ => destruct H end.
Ltac facts :=
  repeat case_decide; destruct_and?; unfold is_Some in *; repeat split; intros;
  simplify_eq; try done; try congruence; try tauto; try (by eauto); destruct_ex; congruence.
Ltac settle m l o :=
  apply (inv_intro _ _ _ m l o); cbn in *;
  [ try done
  | facts | facts | facts | facts | facts
  | let q := fresh "q" in
    intros ? q ? ?; match goal with H : ∀ u q, _ |- _ => opose proof (H _ q _ _) as Hq; [done..|] end;
    destruct q; cbn in *; facts ].

Lemma inv_step c t s s' : inv s → step c t s = Some s' → inv s'.
Proof.
  destruct s as [g ts done]. intros (m & l & o & Hg & Hl & Hm & Hd & Ho & Hth) Hs. cbn in *. subst g.
  unfold step in Hs. cbn in Hs. destruct (ts !! t) as [p|] eqn:Hp; [|done].
  pose proof (Hth t p Hp) as Hpt.
  assert (Hoth : ∀ u q, u ≠ t → ts !! u = Some q → thread_ok m l done o u q) by (intros; by apply Hth).
  clear Hth. destruct p; cbn in Hs, Hpt; unfold goto, store, construct, abort in Hs; cbn in Hs;
    rewrite ?first_byte_word, ?top_word, ?swap_word, ?unlock_word in Hs.
  - simplify_eq. settle m l o.
  - destruct m; simplify_eq; [settle true l o|settle false l o].
  - destruct l; cbn in Hs; simplify_eq; [settle m true o|].
    destruct m; [settle true true o|].
    assert (o = None) as -> by (destruct o as [u|]; [discriminate (proj2 (Hl eq_refl) (mk_is_Some _ _ eq_refl))|done]).
    settle false true (Some t).
  - destruct m; simplify_eq; [settle true l o|settle false l o].
  - destruct m; cbn in Hs; simplify_eq; [settle true l o|settle false l o].
  - destruct c; cbn in Hs; simplify_eq; settle m l o.
  - simplify_eq. settle m l o.
  - destruct Hpt as (-> & -> & -> & -> & ->). rewrite mark_word in Hs. simplify_eq.
    settle true true (Some t).
  - simplify_eq. settle m false (@None nat).
  - simplify_eq. settle m false (@None nat).
  - done.
Qed.

Lemma inv_steps s s' : inv s → steps s s' → inv s'.
Proof. intros Hi Hs. induction Hs; [done|]. eapply inv_step; [by apply IHHs|done]. Qed.

Lemma steps_trans s s' s'' : steps s s' → steps s' s'' → steps s s''.
Proof. intros H1 H2. induction H2; [done|]. econstructor; [by apply IHsteps|done]. Qed.

Lemma run_steps sched s s' : run sched s = Some s' → steps s s'.
Proof.
  revert s. induction sched as [|[c t] sched IH]; intros s Hr; cbn in Hr.
  - injection Hr as ->. constructor.
  - apply bind_Some in Hr as (s1 & Hs & Hr). eapply steps_trans; [|by apply IH].
    econstructor; [constructor|done].
Qed.

(** ** What the invariant says *)

Lemma inv_owner s t p :
  inv s → threads s !! t = Some p → owns p = true →
  ∀ u q, threads s !! u = Some q → owns q = true → u = t.
Proof.
  intros (m & l & o & _ & _ & _ & _ & _ & Hth) Ht Hp u q Hu Hq.
  pose proof (Hth t p Ht). pose proof (Hth u q Hu).
  destruct p; try done; destruct q; try done; cbn in *; destruct_and?; congruence.
Qed.

(** ** Getting past the static *)

(** Some schedule takes the thread there. *)
Definition passes (t : nat) (s : state) : Prop :=
  ∃ s', steps s s' ∧ threads s' !! t = Some Ready.

Lemma passes_step c u t s s' : step c u s = Some s' → passes t s' → passes t s.
Proof.
  intros Hs (s'' & Hss & Hr). exists s''. split; [|done]. eapply steps_trans; [|exact Hss].
  econstructor; [constructor|done].
Qed.

Lemma passes_ready t s : threads s !! t = Some Ready → passes t s.
Proof. intros Hr. exists s. split; [constructor|done]. Qed.

(** One step of a thread whose place is known. *)
Ltac advance Hp :=
  unfold step; cbn; rewrite Hp; cbn; unfold goto, store, construct, abort; cbn;
  rewrite ?first_byte_word, ?top_word, ?swap_word, ?unlock_word, ?mark_word; cbn;
  reflexivity.
(** At a marked guard nobody waits. *)
Lemma passes_marked t l ts done p :
  ts !! t = Some p → (p = Start ∨ p = Entered ∨ p = Swapping ∨ p = Spinning ∨ p = Retesting
    ∨ p = Unlocking ∨ p = Ready) →
  passes t (State (word true l) ts done).
Proof.
  assert (HR : ∀ l ts, ts !! t = Some Ready → passes t (State (word true l) ts done))
    by (intros; by apply passes_ready).
  assert (HU : ∀ l ts, ts !! t = Some Unlocking → passes t (State (word true l) ts done)).
  { intros l' ts' Ht. eapply (passes_step Finish t); [advance Ht|].
    apply (HR false), lookup_insert_eq. }
  assert (HT : ∀ l ts, ts !! t = Some Retesting → passes t (State (word true l) ts done)).
  { intros l' ts' Ht. eapply (passes_step Finish t); [advance Ht|]. apply HR, lookup_insert_eq. }
  assert (HP : ∀ l ts, ts !! t = Some Spinning → passes t (State (word true l) ts done)).
  { intros l' ts' Ht. eapply (passes_step Finish t); [advance Ht|]. apply HT, lookup_insert_eq. }
  assert (HW : ∀ l ts, ts !! t = Some Swapping → passes t (State (word true l) ts done)).
  { intros [] ts' Ht; (eapply (passes_step Finish t); [advance Ht|]);
      [apply HP|apply (HT true)]; apply lookup_insert_eq. }
  assert (HE : ∀ l ts, ts !! t = Some Entered → passes t (State (word true l) ts done)).
  { intros l' ts' Ht. eapply (passes_step Finish t); [advance Ht|]. apply HR, lookup_insert_eq. }
  intros Ht [->|[->|[->|[->|[->|[->| ->]]]]]]; auto.
  eapply (passes_step Finish t); [advance Ht|]. apply HE, lookup_insert_eq.
Qed.

(** The thread [u], which owns the unmarked guard, marks it; the others stay where
    they are. *)
Definition marks (u t : nat) (s : state) : Prop :=
  (∀ l ts done, (∀ v, v ≠ u → ts !! v = threads s !! v) → ts !! u = Some Unlocking →
     passes t (State (word true l) ts done)) →
  passes t s.

Lemma owner_marks u t ts done p :
  ts !! u = Some p →
  p = Constructing ∨ p = Releasing ∨ p = Marking (word false true) ∨ p = Retesting →
  marks u t (State (word false true) ts done).
Proof.
  assert (HM : ∀ ts done, ts !! u = Some (Marking (word false true)) →
    marks u t (State (word false true) ts done)).
  { intros ts' d Hu Hk. eapply (passes_step Finish u); [advance Hu|]. apply (Hk true).
    - intros v Hv. cbn. by rewrite lookup_insert_ne.
    - apply lookup_insert_eq. }
  assert (HL : ∀ ts done, ts !! u = Some Releasing → marks u t (State (word false true) ts done)).
  { intros ts' d Hu Hk. eapply (passes_step Finish u); [advance Hu|].
    apply HM; [apply lookup_insert_eq|]. intros l ts2 d2 Hv. apply Hk. intros v Hne.
    rewrite Hv by done. cbn. by rewrite lookup_insert_ne. }
  assert (HC : ∀ ts done, ts !! u = Some Constructing → marks u t (State (word false true) ts done)).
  { intros ts' d Hu Hk. eapply (passes_step Finish u); [advance Hu|].
    apply HL; [apply lookup_insert_eq|]. intros l ts2 d2 Hv. apply Hk. intros v Hne.
    rewrite Hv by done. cbn. by rewrite lookup_insert_ne. }
  intros Hu [->|[->|[->| ->]]]; auto.
  intros Hk. eapply (passes_step Finish u); [advance Hu|].
  apply HC; [apply lookup_insert_eq|]. intros l ts2 d2 Hv. apply Hk. intros v Hne.
  rewrite Hv by done. cbn. by rewrite lookup_insert_ne.
Qed.

(** At a free guard a thread becomes the owner. *)
Lemma passes_free t ts done p :
  ts !! t = Some p → (p = Start ∨ p = Entered ∨ p = Swapping ∨ p = Spinning) →
  passes t (State (word false false) ts done).
Proof.
  assert (HW : ∀ ts, ts !! t = Some Swapping → passes t (State (word false false) ts done)).
  { intros ts' Ht. eapply (passes_step Finish t); [advance Ht|].
    eapply owner_marks; [apply lookup_insert_eq|by auto|]. intros l ts2 d2 _ Hu.
    by eapply passes_marked; [exact Hu|auto 7]. }
  assert (HE : ∀ ts, ts !! t = Some Entered → passes t (State (word false false) ts done)).
  { intros ts' Ht. eapply (passes_step Finish t); [advance Ht|]. apply HW, lookup_insert_eq. }
  intros Ht [->|[->|[->| ->]]]; auto; (eapply (passes_step Finish t); [advance Ht|]);
    [apply HE|apply HW]; apply lookup_insert_eq.
Qed.

Lemma inv_passes s t p : inv s → threads s !! t = Some p → passes t s.
Proof.
  destruct s as [g ts done]. intros (m & l & o & Hg & Hl & _ & _ & Ho & Hth) Ht. cbn in *. subst g.
  pose proof (Hth t p Ht) as Hp. destruct m.
  { eapply passes_marked; [exact Ht|]. destruct p; cbn in Hp; destruct_and?; (done || auto 8). }
  destruct l.
  - destruct (proj1 (Hl eq_refl) eq_refl) as [u ->]. destruct (Ho u eq_refl) as [q Hu].
    pose proof (Hth u q Hu) as Hq.
    assert (Hwait : t ≠ u → p = Start ∨ p = Entered ∨ p = Swapping ∨ p = Spinning).
    { intros Hne. destruct p; cbn in Hp; repeat case_decide; destruct_and?; naive_solver. }
    destruct (decide (q = Aborting)) as [->|Hna].
    + eapply (passes_step Finish u); [advance Hu|].
      destruct (decide (t = u)) as [->|Hne].
      * eapply passes_free; [apply lookup_insert_eq|auto].
      * eapply passes_free; [by rewrite lookup_insert_ne|auto].
    + eapply owner_marks; [exact Hu| |].
      { destruct q; cbn in Hq; repeat case_decide; destruct_and?; try done; subst; auto. }
      intros l ts' d Hsame Hu'. destruct (decide (t = u)) as [->|Hne].
      * eapply passes_marked; [exact Hu'|auto 8].
      * eapply passes_marked; [by rewrite Hsame|]. destruct (Hwait Hne) as [->|[->|[->| ->]]]; auto 8.
  - assert (o = None) as ->.
    { destruct o as [u|]; [|done]. discriminate (proj2 (Hl eq_refl) (mk_is_Some _ _ eq_refl)). }
    eapply passes_free; [exact Ht|]. destruct p; cbn in Hp; repeat case_decide; destruct_and?; auto; done.
Qed.

(** ** Theorems *)

(** C23: however the threads interleave, the constructor is never run by two threads at
    once, it is finished at most once, nobody runs it once it has finished, and a
    thread that is past the static finds it constructed. *)
Theorem static_constructed_once s0 s :
  initial s0 → steps s0 s →
  (constructed s ≤ 1)%nat
  ∧ (∀ t u, threads s !! t = Some Constructing → threads s !! u = Some Constructing → t = u)
  ∧ (∀ t, threads s !! t = Some Constructing → constructed s = O)
  ∧ (∀ t, threads s !! t = Some Ready → constructed s = 1%nat).
Proof.
  intros H0 Hs. pose proof (inv_steps s0 s (inv_initial s0 H0) Hs) as Hi. split; [|split; [|split]].
  - destruct Hi as (m & l & o & _ & Hl & Hm & Hd & Ho & Hth). destruct m; [rewrite Hm by done; lia|].
    destruct o as [t|]; [|rewrite Hd by done; lia]. destruct (Ho t eq_refl) as [p Hp].
    pose proof (Hth t p Hp) as Hok.
    destruct p; cbn in Hok; repeat case_decide; destruct_and?; try done; lia.
  - intros t u Ht Hu. by eapply (inv_owner s u Constructing).
  - intros t Ht. destruct Hi as (m & l & o & _ & _ & _ & _ & _ & Hth).
    by apply (Hth t Constructing Ht).
  - intros t Ht. destruct Hi as (m & l & o & _ & _ & Hm & _ & _ & Hth).
    apply Hm. by apply (Hth t Ready Ht).
Qed.

(** Two threads meet; the first constructor throws, the second finishes. *)
Definition two : state := State 0 {[0%nat := Start; 1%nat := Start]} 0.
Definition meeting : list (choice * nat) :=
  [(Finish, 0); (Finish, 1); (Finish, 0); (Finish, 1); (Finish, 0); (Finish, 1); (Finish, 0);
   (Throws, 0); (Finish, 1); (Finish, 0); (Finish, 1); (Finish, 1); (Finish, 1); (Finish, 1);
   (Finish, 1); (Finish, 1)]%nat.

Lemma initial_two : initial two.
Proof. split; [done|]. split; [done|].
  apply (proj1 (bool_decide_eq_true (map_Forall (λ _ p, p = Start) (threads two)))). by vm_compute.
Qed.

Lemma static_constructed_once_witness :
  ∃ s, run meeting two = Some s ∧ threads s !! 1%nat = Some Ready ∧ constructed s = 1%nat.
Proof.
  destruct (run meeting two) as [s|] eqn:Hr; [|by vm_compute in Hr].
  pose proof (run_steps _ _ _ Hr) as Hs. exists s. split; [done|].
  assert (Ht : threads s !! 1%nat = Some Ready) by (vm_compute in Hr; by injection Hr as <-).
  split; [done|]. by apply (static_constructed_once two s initial_two Hs) in Ht.
Defined.

(** No reachable state traps a thread: every thread that is not past the static
    can take a step, and some schedule takes it past the static. *)
Theorem static_reachable s0 s t p :
  initial s0 → steps s0 s → threads s !! t = Some p →
  (p ≠ Ready → ∀ c, is_Some (step c t s))
  ∧ ∃ s', steps s s' ∧ threads s' !! t = Some Ready.
Proof.
  intros H0 Hs Ht. split.
  - intros Hp c. unfold step. rewrite Ht. destruct p; cbn; try done; by case_match.
  - eapply inv_passes; [|exact Ht]. by eapply inv_steps; [apply inv_initial|].
Qed.

Lemma static_reachable_witness :
  ∃ s', steps two s' ∧ threads s' !! 1%nat = Some Ready.
Proof. by apply (static_reachable two two 1 Start initial_two (steps_refl two)). Defined.
End Itanium.

Module Arm.

(** ** The 32-bit guards *)

(** [1<<31]. *)
Definition INITIALISED : Z := INT_MIN.

Definition compare_and_swap (g old new : Z) : option Z := if g =? old then Some new else None.

(** Where a thread is: outside; before the first read; at the first swap; at the
    loop's condition; in its body; in the constructor; before the swap of
    [__cxa_guard_release] or of [__cxa_guard_abort]; past the static; or stopped by a
    failed [assert]. *)
Inductive pc :=
  | Start | Entered | Swapping | Looping | Grabbing
  | Constructing | Releasing | Aborting | Ready | Asserted.

Record state := State { guard : Z; threads : gmap nat pc; constructed : nat }.

Definition goto (t : nat) (p : pc) (s : state) : state :=
  State (guard s) (<[t := p]> (threads s)) (constructed s).
Definition store (g : Z) (s : state) : state := State g (threads s) (constructed s).

(** [__cxa_guard_acquire]. *)
Definition acquire (t : nat) (p : pc) (s : state) : option state :=
  match p with
  | Start => Some (goto t Entered s)
  | Entered => Some (if guard s =? INITIALISED then goto t Ready s else goto t Swapping s)
  | Swapping =>
      match compare_and_swap (guard s) 0 1 with
      | Some g => Some (goto t Constructing (store g s))
      | None => Some (goto t Looping s)
      end
  | Looping =>
      match compare_and_swap (guard s) INITIALISED INITIALISED with
      | Some g => Some (goto t Grabbing (store g s))
      | None => Some (goto t Ready s)
      end
  | Grabbing =>
      match compare_and_swap (guard s) 0 1 with
      | Some g => Some (goto t Constructing (store g s))
      | None => Some (goto t Looping s)
      end
  | _ => None
  end.

(** [__cxa_guard_abort] and [__cxa_guard_release]: a swap inside an [assert]. *)
Definition abort (t : nat) (s : state) : state :=
  match compare_and_swap (guard s) 1 0 with
  | Some g => goto t Start (store g s)
  | None => goto t Asserted s
  end.

Definition release (t : nat) (s : state) : state :=
  match compare_and_swap (guard s) 1 INITIALISED with
  | Some g => goto t Ready (store g s)
  | None => goto t Asserted s
  end.

Definition step (c : choice) (t : nat) (s : state) : option state :=
  match threads s !! t with
  | None | Some (Ready | Asserted) => None
  | Some Constructing =>
      Some (match c with
            | Finish => State (guard s) (<[t := Releasing]> (threads s)) (S (constructed s))
            | Throws => goto t Aborting s
            end)
  | Some Releasing => Some (release t s)
  | Some Aborting => Some (abort t s)
  | Some p => acquire t p s
  end.

Fixpoint run (sched : list (choice * nat)) (s : state) : option state :=
  match sched with
  | [] => Some s
  | (c, t) :: sched' => step c t s ≫= run sched'
  end.

(** The loop's condition is the wrong way round.  A thread that comes while another
    is in the constructor goes on to use the object at once; *)
Lemma returns_too_early :
  ∃ s, run [(Finish, 0); (Finish, 0); (Finish, 0); (Finish, 1); (Finish, 1); (Finish, 1); (Finish, 1)]%nat
         (State 0 {[0%nat := Start; 1%nat := Start]} 0) = Some s
    ∧ threads s !! 0%nat = Some Constructing ∧ threads s !! 1%nat = Some Ready ∧ constructed s = O.
Proof. eexists. split; [by vm_compute|]. by vm_compute; auto. Qed.

(** and one that finds the object constructed after its first read stays in the loop
    for good. *)
Lemma spins_for_ever c t s s' :
  guard s = INITIALISED → threads s !! t = Some Looping ∨ threads s !! t = Some Grabbing →
  step c t s = Some s' →
  guard s' = INITIALISED ∧ (threads s' !! t = Some Looping ∨ threads s' !! t = Some Grabbing).
Proof.
  destruct s as [g ts d]. cbn. intros -> Ht Hs. unfold step in Hs. cbn in Hs.
  destruct Ht as [Ht|Ht]; rewrite Ht in Hs; cbn in Hs; injection Hs as <-; cbn;
    (split; [done|]); rewrite lookup_insert_eq; auto.
Qed.
End Arm.
