(* ===== verification/Monitor.v ===== *)
(** * Monitor: threads over a mutex and a condition variable

    The classes of [mutex.cpp] and [future.cpp] keep their state behind a mutex and
    have their callers wait on one condition variable.  Here the threads of such a
    class take steps in any order: getting the mutex, what the operation does under
    it, a wait, the signal, giving the mutex back.  The files of those classes say
    what their operations do. *)

From S2P Require Import Prelude.

(** [pthread_cond_signal] and [pthread_cond_broadcast]. *)
Inductive notify := NoNotify | NotifyOne | NotifyAll.

#[export] Instance notify_eq_dec : EqDecision notify.
Proof. solve_decision. Defined.

(** What an operation does once it has the mutex: wait, or return [r] and signal,
    before it gives the mutex back ([held]) or after. *)
Inductive verdict (R : Type) := Wait | Return (r : R) (n : notify) (held : bool).
Arguments Wait {R}.
Arguments Return {R} r n held.

(** The class: [body t resumed op g] is what thread [t] does under the mutex when
    it has called [op], for the first time or after a wait; [tries op] is what an
    operation returns that only tries to get the mutex. *)
Class MonitorOps (G Op R : Type) := {
  body : nat → bool → Op → G → G * verdict R;
  tries : Op → option R }.

Section monitor.
Context {G Op R : Type} `{MonitorOps G Op R}.

(** Where a thread is. *)
Inductive mpc :=
  | Idle
  | Entering (op : Op)
  | Inside (resumed : bool) (op : Op)
  | Asleep (op : Op)
  | Woken (op : Op)
  | Signalling (n : notify) (held : bool)
  | Leaving.

(** The state behind the mutex, who has the mutex, the threads, and the operations
    in the order in which they took effect. *)
Record monitor := mkMonitor {
  shared : G; owner : option nat; pcs : nat → mpc; log : list (nat * Op * R) }.

Definition at_pc (t : nat) (p : mpc) (m : monitor) : monitor :=
  mkMonitor (shared m) (owner m) (upd t p (pcs m)) (log m).
Definition set_owner (o : option nat) (m : monitor) : monitor :=
  mkMonitor (shared m) o (pcs m) (log m).

(** A thread calls an operation, goes on, or wakes without a signal; [Goes w] says
    which thread a signal wakes. *)
Inductive mlabel := Calls (op : Op) | Goes (w : option nat) | Spurious.

(** The signal: one of the threads that wait, if there is one, or all. *)
Definition is_asleep (p : mpc) : bool := match p with Asleep _ => true | _ => false end.
Definition wake (p : mpc) : mpc := match p with Asleep op => Woken op | _ => p end.

(** What follows an operation's work. *)
Definition leave (t : nat) (n : notify) (held : bool) (m : monitor) : monitor :=
  match n with
  | NoNotify => at_pc t Idle (set_owner None m)
  | _ => if held then at_pc t (Signalling n held) m else at_pc t (Signalling n held) (set_owner None m)
  end.

Definition run_body (t : nat) (resumed : bool) (op : Op) (m : monitor) : monitor :=
  let '(g, v) := body t resumed op (shared m) in
  match v with
  | Wait => mkMonitor g None (upd t (Asleep op) (pcs m)) (log m)
  | Return r n held => leave t n held (mkMonitor g (owner m) (pcs m) (log m ++ [(t, op, r)]))
  end.

(** The mutex is taken when it is free; who only tries goes away when it is not. *)
Definition enter (t : nat) (resumed : bool) (op : Op) (m : monitor) : option monitor :=
  match owner m with
  | None => Some (at_pc t (Inside resumed op) (set_owner (Some t) m))
  | Some _ =>
      match tries op with
      | Some r =>
          if resumed then None
          else Some (mkMonitor (shared m) (owner m) (upd t Idle (pcs m)) (log m ++ [(t, op, r)]))
      | None => None
      end
  end.

(** After the signal of a thread that still has the mutex. *)
Definition signalled (t : nat) (held : bool) (m : monitor) : monitor :=
  at_pc t (if held then Leaving else Idle) m.

Definition signal (t : nat) (n : notify) (held : bool) (w : option nat) (m : monitor) : option monitor :=
  match n, w with
  | NotifyAll, None =>
      Some (signalled t held (mkMonitor (shared m) (owner m) (λ t', wake (pcs m t')) (log m)))
  | NotifyOne, Some t' =>
      if is_asleep (pcs m t') then Some (signalled t held (at_pc t' (wake (pcs m t')) m)) else None
  | NotifyOne, None => Some (signalled t held m)
  | _, _ => None
  end.

Definition mstep (t : nat) (l : mlabel) (m : monitor) : option monitor :=
  match pcs m t, l with
  | Idle, Calls op => Some (at_pc t (Entering op) m)
  | Entering op, Goes None => enter t false op m
  | Inside resumed op, Goes None => Some (run_body t resumed op m)
  | Asleep op, Spurious => Some (at_pc t (Woken op) m)
  | Woken op, Goes None => enter t true op m
  | Signalling n held, Goes w => signal t n held w m
  | Leaving, Goes None => Some (at_pc t Idle (set_owner None m))
  | _, _ => None
  end.

(** [pthread_cond_signal] wakes a thread if one waits. *)
Definition heard (t : nat) (l : mlabel) (m : monitor) : Prop :=
  ∀ held, pcs m t = Signalling NotifyOne held → l = Goes None → ∀ t', is_asleep (pcs m t') = false.

(** The callers keep to [allowed]: what a thread may call after what has been done. *)
Context (allowed : list (nat * Op * R) → nat → Op → Prop).

Inductive mreach (g0 : G) : monitor → Prop :=
  | mreach_start : mreach g0 (mkMonitor g0 None (λ _, Idle) [])
  | mreach_step t l m m' :
      mreach g0 m → (∀ op, l = Calls op → allowed (log m) t op) → heard t l m →
      mstep t l m = Some m' → mreach g0 m'.

(** A schedule. *)
Fixpoint mrun (ls : list (nat * mlabel)) (m : monitor) : option monitor :=
  match ls with
  | [] => Some m
  | (t, l) :: ls' => mstep t l m ≫= mrun ls'
  end.

(** A schedule whose calls are allowed, by a test, and whose signals wake somebody. *)
Context (allowedb : list (nat * Op * R) → nat → Op → bool).

Fixpoint follows (ls : list (nat * mlabel)) (m : monitor) : bool :=
  match ls with
  | [] => true
  | (t, l) :: ls' =>
      match l, pcs m t with
      | Calls op, _ => allowedb (log m) t op
      | Goes None, Signalling NotifyOne _ => false
      | _, _ => true
      end && match mstep t l m with Some m' => follows ls' m' | None => false end
  end.

(** Where it ends. *)
Definition after (ls : list (nat * mlabel)) (m : monitor) : monitor := default m (mrun ls m).

Lemma follows_reach g0 ls m :
  (∀ h t op, allowedb h t op = true → allowed h t op) →
  mreach g0 m → follows ls m = true → mreach g0 (after ls m).
Proof.
  intros Hb. unfold after. revert m. induction ls as [|[t l] ls IH]; intros m Hr Hf; [done|]. cbn in Hf |- *.
  apply andb_prop in Hf as [Hl Hf]. destruct (mstep t l m) as [m1|] eqn:Est; [|done]. cbn.
  assert (Hr1 : mreach g0 m1).
  { eapply mreach_step; [done| | |done].
    - intros op ->. by apply Hb.
    - intros held Hpc ->. by rewrite Hpc in Hl. }
  specialize (IH m1 Hr1 Hf). by destruct (mrun ls m1).
Qed.

(** ** The mutex *)

(** The thread has the mutex. *)
Definition has_mutex (p : mpc) : bool :=
  match p with Inside _ _ | Leaving => true | Signalling _ held => held | _ => false end.

Definition mutex_ok (m : monitor) : Prop := ∀ t, owner m = Some t ↔ has_mutex (pcs m t) = true.

Lemma has_mutex_wake p : has_mutex (wake p) = has_mutex p.
Proof. by destruct p. Qed.

Lemma mutex_ok_moved t p m :
  mutex_ok m → has_mutex p = has_mutex (pcs m t) → mutex_ok (at_pc t p m).
Proof.
  intros Hm Hp t'. cbn. destruct (decide (t' = t)) as [->|Hne]; [by rewrite upd_eq, Hp|].
  by rewrite upd_ne.
Qed.

Lemma mutex_ok_given t p m :
  mutex_ok m → owner m = Some t → has_mutex p = false → mutex_ok (at_pc t p (set_owner None m)).
Proof.
  intros Hm Ho Hp t'. cbn. destruct (decide (t' = t)) as [->|Hne]; [by rewrite upd_eq, Hp|].
  rewrite upd_ne by done. rewrite <- (Hm t'), Ho. split; [done|]. by intros [=].
Qed.

Lemma mutex_ok_taken t p m :
  mutex_ok m → owner m = None → has_mutex p = true → mutex_ok (at_pc t p (set_owner (Some t) m)).
Proof.
  intros Hm Ho Hp t'. cbn. destruct (decide (t' = t)) as [->|Hne]; [by rewrite upd_eq, Hp|].
  rewrite upd_ne by done. rewrite <- (Hm t'), Ho. split; [by intros [=]|done].
Qed.

Lemma mutex_ok_ext m m' :
  owner m' = owner m → pcs m' = pcs m → mutex_ok m → mutex_ok m'.
Proof. intros Ho Hp Hm t. rewrite Ho, Hp. apply Hm. Qed.

Lemma leave_mutex t n held m :
  mutex_ok m → owner m = Some t → mutex_ok (leave t n held m).
Proof.
  intros Hm Ho. unfold leave. destruct n; [by apply mutex_ok_given|..];
    (destruct held; [apply mutex_ok_moved; [done|symmetry; by apply Hm]|by apply mutex_ok_given]).
Qed.

Lemma mstep_mutex t l m m' : mutex_ok m → mstep t l m = Some m' → mutex_ok m'.
Proof.
  intros Hm Hst. unfold mstep in Hst.
  destruct (pcs m t) as [|op|resumed op|op|op|n held|] eqn:Hpc, l as [op'|w|]; try done;
    try (destruct w as [w|]; try done).
  - injection Hst as <-. apply mutex_ok_moved; [done|by rewrite Hpc].
  - unfold enter in Hst. destruct (owner m) eqn:Ho.
    + destruct (tries op); [|done]. injection Hst as <-.
      apply (mutex_ok_ext (at_pc t Idle m)); [done|done|]. apply mutex_ok_moved; [done|by rewrite Hpc].
    + injection Hst as <-. by apply mutex_ok_taken.
  - injection Hst as <-. assert (Ho : owner m = Some t) by (apply Hm; by rewrite Hpc).
    unfold run_body. destruct (body _ _ _ _) as [g [|r n held]].
    + apply (mutex_ok_ext (at_pc t (Asleep op) (set_owner None m))); [done|done|].
      by apply mutex_ok_given.
    + by apply leave_mutex.
  - injection Hst as <-. apply mutex_ok_moved; [done|by rewrite Hpc].
  - unfold enter in Hst. destruct (owner m) eqn:Ho; [by destruct (tries op)|].
    injection Hst as <-. by apply mutex_ok_taken.
  - unfold signal in Hst. destruct n; try done. destruct (is_asleep (pcs m w)) eqn:Ha; [|done].
    injection Hst as <-. unfold signalled.
    assert (w ≠ t) by (intros ->; by rewrite Hpc in Ha).
    apply mutex_ok_moved; [apply mutex_ok_moved; [done|apply has_mutex_wake]|].
    cbn [at_pc pcs]. rewrite upd_ne, Hpc by done. by destruct held.
  - unfold signal in Hst. destruct n; try done; injection Hst as <-; unfold signalled.
    + apply mutex_ok_moved; [done|]. rewrite Hpc. by destruct held.
    + apply mutex_ok_moved.
      * intros t'. cbn. by rewrite has_mutex_wake.
      * cbn. rewrite has_mutex_wake, Hpc. by destruct held.
  - injection Hst as <-. apply mutex_ok_given; [done| |done]. apply Hm. by rewrite Hpc.
Qed.

Lemma mreach_mutex g0 m : mreach g0 m → mutex_ok m.
Proof.
  induction 1 as [|t l m m' _ IH _ _ Hst]; [|by eapply mstep_mutex]. intros t. cbn. by split.
Qed.

(** ** What the operations keep *)

(** The operation a thread has called and not done. *)
Definition calling (p : mpc) : option Op :=
  match p with
  | Entering op | Inside _ op | Asleep op | Woken op => Some op
  | _ => None
  end.

Lemma calling_wake p : calling (wake p) = calling p.
Proof. by destruct p. Qed.

Section keeps.
Context (I : list (nat * Op * R) → G → Prop).

(** [I] relates the history to the state; the operations keep it when their callers
    keep to what is allowed, which the others do not change. *)
Record monitor_keeps : Prop := {
  keeps_allowed h t op t' op' r g :
    t' ≠ t → allowed h t op → I (h ++ [(t', op', r)]) g → allowed (h ++ [(t', op', r)]) t op;
  keeps_wait h g t resumed op g' :
    I h g → allowed h t op → body t resumed op g = (g', Wait) → I h g';
  keeps_return h g t resumed op g' r n held :
    I h g → allowed h t op → body t resumed op g = (g', Return r n held) → I (h ++ [(t, op, r)]) g';
  keeps_tries h g t op r : I h g → allowed h t op → tries op = Some r → I (h ++ [(t, op, r)]) g }.

Context (HK : monitor_keeps).

(** Every call in progress was allowed and still is. *)
Definition calls_allowed (m : monitor) : Prop :=
  ∀ t op, calling (pcs m t) = Some op → allowed (log m) t op.

Lemma calls_moved t p m :
  calls_allowed m → (∀ op, calling p = Some op → allowed (log m) t op) → calls_allowed (at_pc t p m).
Proof.
  intros Hc Hp t' op. cbn. destruct (decide (t' = t)) as [->|Hne]; [rewrite upd_eq; apply Hp|].
  rewrite upd_ne by done. apply Hc.
Qed.

Lemma calls_ext m m' : log m' = log m → pcs m' = pcs m → calls_allowed m → calls_allowed m'.
Proof. intros Hl Hp Hc t op. rewrite Hl, Hp. apply Hc. Qed.

(** An operation done: its thread calls nothing, the calls of the others stand. *)
Lemma calls_done t op r p o g m :
  calls_allowed m → calling p = None → I (log m ++ [(t, op, r)]) g →
  calls_allowed (mkMonitor g o (upd t p (pcs m)) (log m ++ [(t, op, r)])).
Proof.
  intros Hc Hp HI t' op'. cbn. destruct (decide (t' = t)) as [->|Hne]; [by rewrite upd_eq, Hp|].
  rewrite upd_ne by done. intros Hop. eapply (keeps_allowed HK); [done| |exact HI]. by apply Hc.
Qed.

Lemma leave_calls t op r n held o g m :
  calls_allowed m → I (log m ++ [(t, op, r)]) g →
  calls_allowed (leave t n held (mkMonitor g o (pcs m) (log m ++ [(t, op, r)]))).
Proof. intros Hc HI. unfold leave, at_pc, set_owner. cbn. destruct n, held; by apply calls_done. Qed.

Lemma leave_parts t n held m :
  shared (leave t n held m) = shared m ∧ log (leave t n held m) = log m.
Proof. unfold leave. by destruct n, held. Qed.

Lemma mstep_keeps t l m m' :
  I (log m) (shared m) → calls_allowed m → (∀ op, l = Calls op → allowed (log m) t op) →
  mstep t l m = Some m' → I (log m') (shared m') ∧ calls_allowed m'.
Proof.
  intros Hi Hc Hal Hst. unfold mstep in Hst.
  destruct (pcs m t) as [|op|resumed op|op|op|n held|] eqn:Hpc, l as [op'|w|]; try done;
    try (destruct w as [w|]; try done);
    try (assert (Hop : allowed (log m) t op) by by apply Hc; rewrite Hpc).
  - injection Hst as <-. split; [done|]. apply calls_moved; [done|]. cbn. intros op [= <-]. by apply Hal.
  - unfold enter in Hst. destruct (owner m).
    + destruct (tries op) eqn:Et; [|done]. injection Hst as <-. split; [by eapply (keeps_tries HK)|].
      apply calls_done; [done|done|]. by apply (keeps_tries HK).
    + injection Hst as <-. split; [done|]. apply calls_moved; [done|]. by intros ? [= <-].
  - injection Hst as <-. unfold run_body. destruct (body _ _ _ _) as [g [|r n held]] eqn:Eb.
    + split; [by eapply (keeps_wait HK)|]. intros t' op'. cbn.
      destruct (decide (t' = t)) as [->|Hne]; [rewrite upd_eq; by intros [= <-]|].
      rewrite upd_ne by done. apply Hc.
    + destruct (leave_parts t n held (mkMonitor g (owner m) (pcs m) (log m ++ [(t, op, r)]))) as [-> ->].
      assert (HI : I (log m ++ [(t, op, r)]) g) by by eapply (keeps_return HK).
      split; [done|]. by apply leave_calls.
  - injection Hst as <-. split; [done|]. apply calls_moved; [done|]. by intros ? [= <-].
  - unfold enter in Hst. destruct (owner m); [by destruct (tries op)|]. injection Hst as <-.
    split; [done|]. apply calls_moved; [done|]. by intros ? [= <-].
  - unfold signal in Hst. destruct n; try done. destruct (is_asleep (pcs m w)) eqn:Ha; [|done].
    injection Hst as <-. split; [done|]. unfold signalled. apply calls_moved; [|by destruct held].
    apply calls_moved; [done|]. intros op. rewrite calling_wake. apply Hc.
  - unfold signal in Hst. destruct n; try done; injection Hst as <-; (split; [done|]);
      (apply calls_moved; [|by destruct held]); [done|].
    intros t' op. cbn. rewrite calling_wake. apply Hc.
  - injection Hst as <-. split; [done|]. apply calls_moved; [done|]. by intros ? [=].
Qed.

Lemma mreach_keeps g0 m :
  I [] g0 → mreach g0 m → I (log m) (shared m) ∧ calls_allowed m.
Proof.
  intros H0. induction 1 as [|t l m m' _ [IH IHc] Hal _ Hst]; [by split|]. by eapply mstep_keeps.
Qed.

End keeps.

(** ** No thread is stuck *)

(** A thread that has called an operation and does not wait. *)
Definition runnable (p : mpc) : Prop := p ≠ Idle ∧ is_asleep p = false.

(** Some thread can go on. *)
Definition can_go (m : monitor) : Prop :=
  ∃ t w m', mstep t (Goes w) m = Some m' ∧ heard t (Goes w) m.

(** The threads in an operation are finitely many, and who signals has a signal. *)
Definition threads_ok (m : monitor) : Prop :=
  (∃ ts : list nat, ∀ t, pcs m t ≠ Idle → t ∈ ts) ∧ ∀ t held, pcs m t ≠ Signalling NoNotify held.

Lemma threads_moved t p m :
  threads_ok m → (∀ held, p ≠ Signalling NoNotify held) → threads_ok (at_pc t p m).
Proof.
  intros [[ts Hts] Hn] Hp. split.
  - exists (t :: ts). intros t'. cbn. destruct (decide (t' = t)) as [->|Hne]; [set_solver|].
    rewrite upd_ne by done. intros ?%Hts. set_solver.
  - intros t' held. cbn. destruct (decide (t' = t)) as [->|Hne]; [by rewrite upd_eq|]. by rewrite upd_ne.
Qed.

Lemma threads_ext m m' : pcs m' = pcs m → threads_ok m → threads_ok m'.
Proof. unfold threads_ok. by intros ->. Qed.

Lemma leave_threads t n held m : threads_ok m → threads_ok (leave t n held m).
Proof. intros Hm. unfold leave. destruct n, held; by apply threads_moved. Qed.

Lemma mstep_threads t l m m' : threads_ok m → mstep t l m = Some m' → threads_ok m'.
Proof.
  intros Hm Hst. unfold mstep in Hst.
  destruct (pcs m t) as [|op|resumed op|op|op|n held|], l as [op'|w|]; try done;
    try (destruct w as [w|]; try done).
  - injection Hst as <-. by apply threads_moved.
  - unfold enter in Hst. destruct (owner m).
    + destruct (tries op); [|done]. injection Hst as <-.
      apply (threads_ext (at_pc t Idle m)); [done|]. by apply threads_moved.
    + injection Hst as <-. by apply threads_moved.
  - injection Hst as <-. unfold run_body. destruct (body _ _ _ _) as [g [|r n held]].
    + apply (threads_ext (at_pc t (Asleep op) m)); [done|]. by apply threads_moved.
    + by apply leave_threads.
  - injection Hst as <-. by apply threads_moved.
  - unfold enter in Hst. destruct (owner m); [by destruct (tries op)|]. injection Hst as <-.
    by apply threads_moved.
  - unfold signal in Hst. destruct n; try done. destruct (is_asleep (pcs m w)) eqn:Ha; [|done].
    injection Hst as <-. unfold signalled. apply threads_moved; [|by destruct held].
    apply threads_moved; [done|]. by destruct (pcs m w).
  - unfold signal in Hst. destruct n; try done; injection Hst as <-; unfold signalled;
      (apply threads_moved; [|by destruct held]); [done|].
    destruct Hm as [[ts Hts] Hn]. split; [exists ts|]; intros t'; cbn.
    + intros Hne. apply Hts. by destruct (pcs m t').
    + intros held'. specialize (Hn t' held'). by destruct (pcs m t').
  - injection Hst as <-. by apply threads_moved.
Qed.

Lemma mreach_threads g0 m : mreach g0 m → threads_ok m.
Proof.
  induction 1 as [|t l m m' _ IH _ _ Hst]; [|by eapply mstep_threads].
  split; [exists []; intros t; by cbn|done].
Qed.

Lemma asleep_dec m :
  threads_ok m → (∃ t, is_asleep (pcs m t) = true) ∨ ∀ t, is_asleep (pcs m t) = false.
Proof.
  intros [[ts Hts] _].
  destruct (decide (Exists (λ t, is_asleep (pcs m t) = true) ts)) as [He|Hne].
  - left. apply Exists_exists in He as (t & _ & Ht). by exists t.
  - right. intros t. destruct (is_asleep (pcs m t)) eqn:Ha; [|done].
    destruct Hne. apply Exists_exists. exists t. split; [|done]. apply Hts. by intros Hi; rewrite Hi in Ha.
Qed.

Lemma signal_goes t n held m : threads_ok m → pcs m t = Signalling n held → can_go m.
Proof.
  intros Hm Hpc. destruct n; [by apply Hm in Hpc| |].
  - destruct (asleep_dec m Hm) as [[t' Ha]|Ha].
    + exists t, (Some t'), (signalled t held (at_pc t' (wake (pcs m t')) m)).
      split; [unfold mstep, signal; by rewrite Hpc, Ha|]. by intros ? ? [=].
    + exists t, None, (signalled t held m). split; [unfold mstep, signal; by rewrite Hpc|]. by intros ? _ _.
  - exists t, None. eexists. split; [unfold mstep, signal; by rewrite Hpc|].
    intros held' Hpc'. by rewrite Hpc in Hpc'.
Qed.

Lemma goes_on t m m' :
  mstep t (Goes None) m = Some m' → (∀ held, pcs m t ≠ Signalling NotifyOne held) → can_go m.
Proof. intros Hst Hn. exists t, None, m'. split; [done|]. intros held Hpc. by apply Hn in Hpc. Qed.

Lemma owner_goes t m : threads_ok m → has_mutex (pcs m t) = true → can_go m.
Proof.
  intros Hm Hh. destruct (pcs m t) as [| |resumed op| | |n held|] eqn:Hpc; try done.
  - eapply goes_on; [unfold mstep; by rewrite Hpc|]. intros ?. by rewrite Hpc.
  - by eapply signal_goes.
  - eapply goes_on; [unfold mstep; by rewrite Hpc|]. intros ?. by rewrite Hpc.
Qed.

(** A thread that does not wait can go on, or waits for one that can. *)
Lemma runnable_goes g0 m t : mreach g0 m → runnable (pcs m t) → can_go m.
Proof.
  intros Hr [Hi Ha]. pose proof (mreach_mutex _ _ Hr) as Hm. pose proof (mreach_threads _ _ Hr) as Ht.
  destruct (owner m) as [t'|] eqn:Ho; [by eapply owner_goes, Hm|].
  destruct (pcs m t) as [|op|resumed op|op|op|n held|] eqn:Hpc; try done.
  - eapply (goes_on t); [unfold mstep, enter; by rewrite Hpc, Ho|]. intros ?. by rewrite Hpc.
  - apply (owner_goes t); [done|]. by rewrite Hpc.
  - eapply (goes_on t); [unfold mstep, enter; by rewrite Hpc, Ho|]. intros ?. by rewrite Hpc.
  - by eapply signal_goes.
  - apply (owner_goes t); [done|]. by rewrite Hpc.
Qed.

(** ** No signal is missed *)

(** What the steps of [mstep] do to the places of threads. *)
Lemma upd_asleep t p (f : nat → mpc) t' op :
  upd t p f t' = Asleep op → (t' = t ∧ p = Asleep op) ∨ (t' ≠ t ∧ f t' = Asleep op).
Proof.
  destruct (decide (t' = t)) as [->|Hne]; [rewrite upd_eq; auto|]. rewrite upd_ne by done. auto.
Qed.

Section broadcast.
Context (blocked : nat → Op → G → Prop).

(** Who waits is blocked, and who unblocks somebody signals to all. *)
Record broadcasts : Prop := {
  bc_wait t resumed op g g' : body t resumed op g = (g', Wait) → g' = g ∧ blocked t op g;
  bc_return t resumed op g g' r n held :
    body t resumed op g = (g', Return r n held) →
    n = NotifyAll ∨ ∀ t' op', blocked t' op' g → blocked t' op' g' }.

Context (HB : broadcasts).

Definition no_lost_wakeup (m : monitor) : Prop :=
  ∀ t op, pcs m t = Asleep op →
    blocked t op (shared m) ∨ ∃ t' held, pcs m t' = Signalling NotifyAll held.

(** A thread moves that neither falls asleep nor was signalling. *)
Lemma wakeup_moved t p m g o h :
  no_lost_wakeup m → is_asleep p = false → (∀ held, pcs m t ≠ Signalling NotifyAll held) →
  (∀ t' op', blocked t' op' (shared m) → blocked t' op' g) →
  no_lost_wakeup (mkMonitor g o (upd t p (pcs m)) h).
Proof.
  intros Hw Hp Hns Hg t' op. cbn. intros [[-> ->]|[Hne Ha]]%upd_asleep; [done|].
  destruct (Hw t' op Ha) as [?|(t'' & held & Hs)]; [left; auto|right].
  exists t'', held. destruct (decide (t'' = t)) as [->|]; [by apply Hns in Hs|by rewrite upd_ne].
Qed.

Lemma leave_wakeup t n held m :
  no_lost_wakeup m ∨ n = NotifyAll → (∀ held, pcs m t ≠ Signalling NotifyAll held) →
  no_lost_wakeup (leave t n held m).
Proof.
  intros [Hw| ->] Hns.
  - unfold leave, at_pc, set_owner. destruct n, held; cbn; by apply wakeup_moved.
  - intros t' op _. right. exists t, held. unfold leave. destruct held; cbn; by rewrite upd_eq.
Qed.

Lemma body_wakeup t resumed op m :
  no_lost_wakeup m → pcs m t = Inside resumed op → no_lost_wakeup (run_body t resumed op m).
Proof.
  intros Hw Hpc. assert (Hns : ∀ held, pcs m t ≠ Signalling NotifyAll held) by by rewrite Hpc.
  unfold run_body. destruct (body t resumed op (shared m)) as [g [|r n held]] eqn:Eb.
  - destruct (bc_wait HB _ _ _ _ _ Eb) as [-> Hb]. intros t' op'. cbn.
    intros [[-> He]|[Hne Ha]]%upd_asleep; [injection He as <-; by left|].
    destruct (Hw t' op' Ha) as [?|(t'' & held & Hs)]; [by left|right].
    exists t'', held. rewrite upd_ne; [done|]. intros ->. by rewrite Hpc in Hs.
  - apply leave_wakeup; [|done]. destruct (bc_return HB _ _ _ _ _ _ _ _ Eb) as [->|Hk]; [by right|left].
    intros t' op' Ha. cbn in Ha |- *. destruct (Hw t' op' Ha) as [?|?]; [left; auto|by right].
Qed.

Lemma mstep_wakeup t l m m' : no_lost_wakeup m → mstep t l m = Some m' → no_lost_wakeup m'.
Proof.
  intros Hw Hst. unfold mstep in Hst.
  assert (Hmv : ∀ p o h, is_asleep p = false → (∀ held, pcs m t ≠ Signalling NotifyAll held) →
            no_lost_wakeup (mkMonitor (shared m) o (upd t p (pcs m)) h)) by (intros; by apply wakeup_moved).
  destruct (pcs m t) as [|op|resumed op|op|op|n held|] eqn:Hpc, l as [op'|w|]; try done;
    try (destruct w as [w|]; try done).
  - injection Hst as <-. by apply Hmv.
  - unfold enter in Hst. destruct (owner m); [destruct (tries op); [|done]|]; injection Hst as <-; by apply Hmv.
  - injection Hst as <-. by apply body_wakeup.
  - injection Hst as <-. by apply Hmv.
  - unfold enter in Hst. destruct (owner m); [by destruct (tries op)|]. injection Hst as <-. by apply Hmv.
  - unfold signal in Hst. destruct n; try done. destruct (is_asleep (pcs m w)) eqn:Ha; [|done].
    injection Hst as <-. unfold signalled, at_pc. cbn.
    assert (Hne : w ≠ t) by (intros ->; by rewrite Hpc in Ha).
    apply (wakeup_moved t _ (at_pc w (wake (pcs m w)) m)); [|by destruct held| |done].
    + apply (wakeup_moved w _ m); [done|by destruct (pcs m w)| |done]. intros held'. by destruct (pcs m w).
    + cbn. intros held'. by rewrite upd_ne, Hpc by done.
  - unfold signal in Hst. destruct n; try done; injection Hst as <-; unfold signalled, at_pc; cbn.
    + apply Hmv; [by destruct held|done].
    + intros t' op'. cbn. intros [[-> Hp]|[Hne Ha]]%upd_asleep; [by destruct held|by destruct (pcs m t')].
  - injection Hst as <-. by apply Hmv.
Qed.

(** Who waits is blocked, or is about to be woken by a thread that can go on. *)
Lemma mreach_wakeup g0 m : mreach g0 m → no_lost_wakeup m.
Proof. induction 1 as [|t l m m' _ IH _ _ Hst]; [done|]. by eapply mstep_wakeup. Qed.

End broadcast.

(** *** A state that one thread at a time can take *)

Section handoff.
Context (I : list (nat * Op * R) → G → Prop) (HK : monitor_keeps I).
Context (free : G → Prop).

(** Who waits finds the state taken; who is done leaves it taken or signals. *)
Record hands_off : Prop := {
  ho_wait t resumed op g g' : body t resumed op g = (g', Wait) → g' = g ∧ ¬ free g;
  ho_return h t resumed op g g' r n held :
    I h g → allowed h t op → body t resumed op g = (g', Return r n held) → ¬ free g' ∨ n = NotifyOne }.

Context (HO : hands_off).

(** A thread that will take the state or pass it on. *)
Definition moving (p : mpc) : bool :=
  match p with Inside _ _ | Woken _ | Signalling NotifyOne _ => true | _ => false end.

Definition handed_on (m : monitor) : Prop :=
  (∃ t, is_asleep (pcs m t) = true) → ¬ free (shared m) ∨ ∃ t, moving (pcs m t) = true.

Lemma handed_moving t p o h g (f : nat → mpc) :
  moving p = true → handed_on (mkMonitor g o (upd t p f) h).
Proof. intros Hp _. right. exists t. cbn. by rewrite upd_eq. Qed.

(** A thread that does not move the state changes its place. *)
Lemma handed_kept t p o h m :
  handed_on m → moving (pcs m t) = false → is_asleep p = false →
  handed_on (mkMonitor (shared m) o (upd t p (pcs m)) h).
Proof.
  intros Hh Hm Hp [t' Ha]. cbn in *. destruct Hh as [?|[t'' Hmv]]; [|by left|right].
  - exists t'. destruct (decide (t' = t)) as [->|]; [by rewrite upd_eq, Hp in Ha|]. by rewrite upd_ne in Ha.
  - exists t''. rewrite upd_ne; [done|]. intros ->. by rewrite Hm in Hmv.
Qed.

Lemma handed_taken g o f h : ¬ free g → handed_on (mkMonitor g o f h).
Proof. intros Hf _. by left. Qed.

Lemma mstep_handed t l m m' :
  I (log m) (shared m) → calls_allowed m → handed_on m → heard t l m → mstep t l m = Some m' →
  handed_on m'.
Proof.
  intros HI Hc Hh Hheard Hst. unfold mstep in Hst.
  assert (Hmv : ∀ p o h, moving (pcs m t) = false → is_asleep p = false →
            handed_on (mkMonitor (shared m) o (upd t p (pcs m)) h)) by (intros; by apply handed_kept).
  destruct (pcs m t) as [|op|resumed op|op|op|n held|] eqn:Hpc, l as [op'|w|]; try done;
    try (destruct w as [w|]; try done).
  - injection Hst as <-. by apply Hmv.
  - unfold enter in Hst. destruct (owner m); [destruct (tries op); [|done]|]; injection Hst as <-; by apply Hmv.
  - injection Hst as <-. unfold run_body. destruct (body _ _ _ _) as [g [|r n held]] eqn:Eb.
    + destruct (ho_wait HO _ _ _ _ _ Eb) as [-> Hf]. by apply handed_taken.
    + assert (Hop : allowed (log m) t op) by (apply Hc; by rewrite Hpc).
      unfold leave, at_pc, set_owner.
      destruct (ho_return HO _ _ _ _ _ _ _ _ _ HI Hop Eb) as [Hf| ->].
      * destruct n, held; by apply handed_taken.
      * destruct held; by apply handed_moving.
  - injection Hst as <-. by apply handed_moving.
  - unfold enter in Hst. destruct (owner m); [by destruct (tries op)|]. injection Hst as <-.
    by apply handed_moving.
  - unfold signal in Hst. destruct n; try done. destruct (is_asleep (pcs m w)) eqn:Ha; [|done].
    injection Hst as <-. intros _. right. exists w. cbn. rewrite upd_ne; [|intros ->; by rewrite Hpc in Ha].
    rewrite upd_eq. by destruct (pcs m w).
  - unfold signal in Hst. destruct n; try done; injection Hst as <-; unfold signalled; intros [t' Ha];
      cbn in Ha; (destruct (decide (t' = t)) as [->|Hne]; [rewrite upd_eq in Ha; by destruct held|]);
      rewrite upd_ne in Ha by done.
    + by rewrite (Hheard held Hpc eq_refl t') in Ha.
    + by destruct (pcs m t').
  - injection Hst as <-. by apply Hmv.
Qed.

(** While a thread waits for a free state another is on its way to it. *)
Lemma mreach_handed g0 m : I [] g0 → mreach g0 m → handed_on m.
Proof.
  intros H0. induction 1 as [|t l m m' Hr IH Hal Hh Hst]; [intros [t Ha]; by cbn in Ha|].
  destruct (mreach_keeps I HK g0 m H0 Hr) as [HI Hc]. by eapply mstep_handed.
Qed.

Lemma handed_goes g0 m t :
  I [] g0 → mreach g0 m → is_asleep (pcs m t) = true → free (shared m) → can_go m.
Proof.
  intros H0 Hr Ha Hf. pose proof (mreach_handed g0 m H0 Hr (ex_intro _ t Ha)) as [?|[t' Hm]]; [done|].
  apply (runnable_goes g0 m t' Hr). split; [intros E; by rewrite E in Hm|]. by destruct (pcs m t').
Qed.

End handoff.

End monitor.

Arguments monitor : clear implicits.
Arguments mpc : clear implicits.
Arguments mlabel : clear implicits.
