(* ===== verification/Mutex.v ===== *)
(** * Mutex: [mutex.cpp] of libc++

    [timed_mutex] and [recursive_timed_mutex] are a flag or a count behind a mutex,
    [__call_once] a flag that says how far a function has got.  All three are
    monitors: their bodies are here, what any number of threads make of them is
    shown over [Monitor]. *)

From S2P Require Import Prelude Monitor.

(** ** timed_mutex *)

Module Timed.

Inductive op := Lock | TryLock | Unlock.

(** [__locked_] is the state. *)
Definition timed_lock (locked : bool) : bool * verdict bool :=
  if locked then (locked, Wait) else (true, Return true NoNotify true).
Definition timed_try_lock (locked : bool) : bool * verdict bool :=
  if negb locked then (true, Return true NoNotify true) else (locked, Return false NoNotify true).
Definition timed_unlock : bool * verdict bool := (false, Return true NotifyOne true).

Definition timed_body (t : nat) (resumed : bool) (o : op) (locked : bool) : bool * verdict bool :=
  match o with
  | Lock => timed_lock locked
  | TryLock => timed_try_lock locked
  | Unlock => timed_unlock
  end.

#[global] Instance timed_ops : MonitorOps bool op bool := {
  body := timed_body;
  tries o := match o with TryLock => Some false | _ => None end }.

(** The specification: who holds the mutex. *)
Definition timed_spec (s : option nat) (e : nat * op * bool) : option (option nat) :=
  let '(t, o, r) := e in
  match o, r with
  | Lock, true | TryLock, true => if decide (s = None) then Some (Some t) else None
  | TryLock, false => Some s
  | Unlock, true => if decide (s = Some t) then Some None else None
  | _, _ => None
  end.

(** Only the holder unlocks. *)
Definition timed_allowed (h : list (nat * op * bool)) (t : nat) (o : op) : Prop :=
  o = Unlock → replay timed_spec None h = Some (Some t).

Definition timed_allowedb (h : list (nat * op * bool)) (t : nat) (o : op) : bool :=
  match o with Unlock => bool_decide (replay timed_spec None h = Some (Some t)) | _ => true end.

Lemma timed_allowedb_ok h t o : timed_allowedb h t o = true → timed_allowed h t o.
Proof. intros Hb ->. by apply bool_decide_eq_true in Hb. Qed.

Definition timed_inv (h : list (nat * op * bool)) (locked : bool) : Prop :=
  ∃ s, replay timed_spec None h = Some s ∧ locked = bool_decide (is_Some s).

Lemma timed_keeps : monitor_keeps timed_allowed timed_inv.
Proof.
  split.
  - intros h t o t' o' r g Hne Ha (s' & Hs & _) ->. destruct (replay_snoc_Some _ _ _ _ _ Hs) as (s & Hr & Hst).
    rewrite (Ha eq_refl) in Hr. injection Hr as <-. rewrite Hs. f_equal.
    destruct o', r; cbn [timed_spec] in Hst; repeat case_decide; simplify_eq; done.
  - intros h g t resumed [] g' (s & Hr & ->) _ Hb; cbn in Hb; unfold timed_lock, timed_try_lock in Hb;
      destruct s; cbn in Hb; simplify_eq; by eexists.
  - intros h g t resumed o g' r n held (s & Hr & ->) Ha Hb. unfold timed_inv. rewrite replay_snoc, Hr.
    destruct o; cbn in Hb |- *; unfold timed_lock, timed_try_lock in Hb.
    + destruct s; cbn in Hb; simplify_eq. by eexists.
    + destruct s; cbn in Hb; simplify_eq; by eexists.
    + rewrite (Ha eq_refl) in Hr. unfold timed_unlock in Hb. simplify_eq. exists None.
      by rewrite decide_True.
  - intros h g t [] r (s & Hr & ->) _ [= <-]. exists s. rewrite replay_snoc, Hr. done.
Qed.

Lemma timed_hands_off : hands_off timed_allowed timed_inv (λ locked, locked = false).
Proof.
  split.
  - intros t resumed [] g g' Hb; destruct g; cbn in Hb; unfold timed_lock, timed_try_lock, timed_unlock in Hb;
      cbn in Hb; simplify_eq; by cbn.
  - intros h t resumed [] g g' r n held _ _ Hb; destruct g; cbn in Hb; unfold timed_lock, timed_try_lock, timed_unlock in Hb;
      cbn in Hb; simplify_eq; cbn; first [by left|by right].
Qed.

End Timed.

(** ** recursive_timed_mutex *)

Module Recursive.

Definition SIZE_MAX : Z := 2 ^ 64 - 1.

Inductive op := Lock | TryLock | Unlock.

(** An operation returns, says that it failed, or throws [EAGAIN]. *)
Inductive result := Done | Failed | LimitReached.

(** [__count_] and [__id_], which is no thread's at first. *)
Record rec_mutex := mkRecMutex { count_ : Z; id_ : option nat }.

Definition rec_start : rec_mutex := mkRecMutex 0 None.

(** The test for the owner comes before the loop. *)
Definition rec_lock (id : nat) (resumed : bool) (g : rec_mutex) : rec_mutex * verdict result :=
  if decide (resumed = false ∧ id_ g = Some id) then
    if decide (count_ g = SIZE_MAX) then (g, Return LimitReached NoNotify true)
    else (mkRecMutex (size_wrap (count_ g + 1)) (id_ g), Return Done NoNotify true)
  else if decide (count_ g ≠ 0) then (g, Wait)
  else (mkRecMutex 1 (Some id), Return Done NoNotify true).

Definition rec_try_lock (id : nat) (g : rec_mutex) : rec_mutex * verdict result :=
  if decide (count_ g = 0 ∨ id_ g = Some id) then
    if decide (count_ g = SIZE_MAX) then (g, Return Failed NoNotify true)
    else (mkRecMutex (size_wrap (count_ g + 1)) (Some id), Return Done NoNotify true)
  else (g, Return Failed NoNotify true).

Definition rec_unlock (g : rec_mutex) : rec_mutex * verdict result :=
  let count := size_wrap (count_ g - 1) in
  if decide (count = 0) then (mkRecMutex count None, Return Done NotifyOne false)
  else (mkRecMutex count (id_ g), Return Done NoNotify true).

Definition rec_body (t : nat) (resumed : bool) (o : op) (g : rec_mutex) : rec_mutex * verdict result :=
  match o with
  | Lock => rec_lock t resumed g
  | TryLock => rec_try_lock t g
  | Unlock => rec_unlock g
  end.

#[global] Instance rec_ops : MonitorOps rec_mutex op result := {
  body := rec_body;
  tries o := match o with TryLock => Some Failed | _ => None end }.

(** The specification: who holds the mutex and how many times. *)
Definition rec_spec (s : option (nat * Z)) (e : nat * op * result) : option (option (nat * Z)) :=
  let '(t, o, r) := e in
  match o, r with
  | (Lock | TryLock), Done =>
      match s with
      | None => Some (Some (t, 1))
      | Some (t', n) => if decide (t' = t ∧ n < SIZE_MAX) then Some (Some (t, n + 1)) else None
      end
  | Lock, LimitReached => if decide (s = Some (t, SIZE_MAX)) then Some s else None
  | TryLock, Failed => Some s
  | Unlock, Done =>
      match s with
      | Some (t', n) =>
          if decide (t' = t) then Some (if decide (n = 1) then None else Some (t, n - 1)) else None
      | None => None
      end
  | _, _ => None
  end.

Definition rec_allowed (h : list (nat * op * result)) (t : nat) (o : op) : Prop :=
  o = Unlock → ∃ n, replay rec_spec None h = Some (Some (t, n)).

Definition rec_allowedb (h : list (nat * op * result)) (t : nat) (o : op) : bool :=
  match o, replay rec_spec None h with
  | Unlock, Some (Some (t', _)) => bool_decide (t' = t)
  | Unlock, _ => false
  | _, _ => true
  end.

Lemma rec_allowedb_ok h t o : rec_allowedb h t o = true → rec_allowed h t o.
Proof.
  intros Hb ->. cbn in Hb. destruct (replay _ _ _) as [[[t' n]|]|]; try done.
  apply bool_decide_eq_true in Hb as ->. by exists n.
Qed.

Definition rec_inv (h : list (nat * op * result)) (g : rec_mutex) : Prop :=
  ∃ s, replay rec_spec None h = Some s
    ∧ match s with
      | None => g = mkRecMutex 0 None
      | Some (t, n) => g = mkRecMutex n (Some t) ∧ 1 ≤ n ≤ SIZE_MAX
      end.

Lemma rec_lock_keeps h t resumed g g' r n held :
  rec_inv h g → rec_lock t resumed g = (g', Return r n held) → rec_inv (h ++ [(t, Lock, r)]) g'.
Proof.
  intros (s & Hr & Hg) Hb. unfold rec_inv. rewrite replay_snoc, Hr. unfold rec_lock in Hb.
  destruct s as [[t' c]|]; [destruct Hg as [-> Hc]|subst g]; cbn [count_ id_] in Hb.
  - case_decide as Hd; [destruct Hd as [_ [= ->]]|case_decide; [done|lia]].
    case_decide; simplify_eq; cbn [mbind option_bind rec_spec]; rewrite decide_True by (done || lia).
    + eexists. split; [done|]. done.
    + eexists. split; [done|]. unfold size_wrap. unfold SIZE_MAX in *. rewrite wrap_small by lia.
      split; [done|lia].
  - rewrite decide_False in Hb by naive_solver. rewrite decide_False in Hb by (intros Hn; by apply Hn).
    simplify_eq. cbn [mbind option_bind rec_spec]. eexists. split; [done|]. unfold SIZE_MAX. split; [done|lia].
Qed.

Lemma rec_try_lock_keeps h t g g' r n held :
  rec_inv h g → rec_try_lock t g = (g', Return r n held) → rec_inv (h ++ [(t, TryLock, r)]) g'.
Proof.
  intros (s & Hr & Hg) Hb. unfold rec_inv. rewrite replay_snoc, Hr. unfold rec_try_lock in Hb.
  destruct s as [[t' c]|]; [destruct Hg as [-> Hc]|subst g]; cbn [count_ id_] in Hb.
  - case_decide as Hd; [|simplify_eq; by eexists]. destruct Hd as [?|[= ->]]; [lia|].
    case_decide; simplify_eq; [by eexists|]. cbn [mbind option_bind rec_spec]. rewrite decide_True by (split; [done|lia]).
    eexists. split; [done|]. unfold size_wrap. unfold SIZE_MAX in *. rewrite wrap_small by lia.
    split; [done|lia].
  - rewrite decide_True in Hb by auto. rewrite decide_False in Hb by done. simplify_eq. cbn [mbind option_bind rec_spec].
    eexists. split; [done|]. unfold SIZE_MAX. split; [done|lia].
Qed.

Lemma rec_unlock_keeps h t g g' r n held :
  rec_inv h g → (∃ c, replay rec_spec None h = Some (Some (t, c))) →
  rec_unlock g = (g', Return r n held) → rec_inv (h ++ [(t, Unlock, r)]) g'.
Proof.
  intros (s & Hr & Hg) [c Hc] Hb. rewrite Hr in Hc. injection Hc as ->. destruct Hg as [-> Hg].
  unfold rec_inv. rewrite replay_snoc, Hr. unfold rec_unlock in Hb. cbn [count_ id_] in Hb.
  unfold size_wrap, SIZE_MAX in *. rewrite wrap_small in Hb by lia.
  case_decide as Hd; simplify_eq; cbn [mbind option_bind rec_spec]; rewrite decide_True by done; eexists; (split; [done|]).
  - rewrite decide_True by lia. f_equal. lia.
  - rewrite decide_False by lia. split; [done|lia].
Qed.

Lemma rec_keeps : monitor_keeps rec_allowed rec_inv.
Proof.
  split.
  - intros h t o t' o' r g Hne Ha (s' & Hs & _) ->. destruct (replay_snoc_Some _ _ _ _ _ Hs) as (s & Hr & Hst).
    destruct (Ha eq_refl) as [n Hn]. rewrite Hn in Hr. injection Hr as <-. rewrite Hs.
    destruct o', r; cbn [rec_spec] in Hst; repeat case_decide; simplify_eq; naive_solver.
  - intros h g t resumed [] g' Hi _ Hb; cbn in Hb; unfold rec_lock, rec_try_lock, rec_unlock in Hb;
      by repeat case_match; simplify_eq.
  - intros h g t resumed [] g' r n held Hi Ha Hb; cbn in Hb.
    + by eapply rec_lock_keeps.
    + by eapply rec_try_lock_keeps.
    + by eapply rec_unlock_keeps; [|apply Ha|].
  - intros h g t [] r (s & Hr & Hg) _ [= <-]. exists s. by rewrite replay_snoc, Hr.
Qed.

Lemma rec_hands_off : hands_off rec_allowed rec_inv (λ g, count_ g = 0).
Proof.
  split.
  - intros t resumed [] g g' Hb; cbn in Hb; unfold rec_lock, rec_try_lock, rec_unlock in Hb;
      by repeat case_match; simplify_eq.
  - intros h t resumed o g g' r n held (s & Hr & Hg) Ha Hb.
    assert (Hc : 0 ≤ count_ g ≤ SIZE_MAX).
    { destruct s as [[]|]; [destruct Hg as [-> ?]; cbn; lia|subst g; unfold SIZE_MAX; cbn; lia]. }
    destruct o; cbn in Hb; unfold rec_lock, rec_try_lock, rec_unlock in Hb.
    + left. repeat case_decide; simplify_eq; cbn [count_]; try done; unfold SIZE_MAX in *; try lia.
      unfold size_wrap. rewrite wrap_small by lia. lia.
    + left. repeat case_decide; simplify_eq; cbn [count_]; unfold SIZE_MAX in *; try lia.
      unfold size_wrap. rewrite wrap_small by lia. lia.
    + repeat case_decide; simplify_eq; auto.
Qed.

End Recursive.

(** ** __call_once *)

Module Once.

(** [flag]: 0 at first, 1 while a function runs, [~0ul] when one has returned. *)
Definition FLAG_DONE : Z := 2 ^ 64 - 1.

(** What a thread does under [mut]: the beginning of [__call_once], the part after
    [func] has returned, and the handler for an exception of [func]. *)
Inductive op := Begin | Returned | Thrown.

#[global] Instance op_eq_dec : EqDecision op.
Proof. solve_decision. Defined.

(** [Begin] says whether the thread is to call [func]. *)
Definition once_begin (flag : Z) : Z * verdict bool :=
  if decide (flag = 1) then (flag, Wait)
  else if decide (flag = 0) then (1, Return true NoNotify true)
  else (flag, Return false NoNotify true).

Definition once_body (t : nat) (resumed : bool) (o : op) (flag : Z) : Z * verdict bool :=
  match o with
  | Begin => once_begin flag
  | Returned => (FLAG_DONE, Return true NotifyAll false)
  | Thrown => (0, Return true NotifyAll false)
  end.

#[global] Instance once_ops : MonitorOps Z op bool := { body := once_body; tries _ := None }.

(** The specification. *)
Inductive once := Fresh | Running (t : nat) | Over.

#[global] Instance once_eq_dec : EqDecision once.
Proof. solve_decision. Defined.

Definition once_spec (s : once) (e : nat * op * bool) : option once :=
  let '(t, o, r) := e in
  match o, r with
  | Begin, true => if decide (s = Fresh) then Some (Running t) else None
  | Begin, false => if decide (s = Over) then Some Over else None
  | Returned, true => if decide (s = Running t) then Some Over else None
  | Thrown, true => if decide (s = Running t) then Some Fresh else None
  | _, false => None
  end.

(** A thread ends the function it runs. *)
Definition once_allowed (h : list (nat * op * bool)) (t : nat) (o : op) : Prop :=
  o = Begin ∨ replay once_spec Fresh h = Some (Running t).

Definition once_allowedb (h : list (nat * op * bool)) (t : nat) (o : op) : bool :=
  match o with Begin => true | _ => bool_decide (replay once_spec Fresh h = Some (Running t)) end.

Lemma once_allowedb_ok h t o : once_allowedb h t o = true → once_allowed h t o.
Proof. destruct o; [by left|..]; intros Hb; right; by apply bool_decide_eq_true in Hb. Qed.

Definition flag_of (s : once) : Z := match s with Fresh => 0 | Running _ => 1 | Over => FLAG_DONE end.

Definition once_inv (h : list (nat * op * bool)) (flag : Z) : Prop :=
  ∃ s, replay once_spec Fresh h = Some s ∧ flag = flag_of s.

Lemma once_begin_cases s g v :
  once_begin (flag_of s) = (g, v) →
  match s with
  | Fresh => g = 1 ∧ v = Return true NoNotify true
  | Running _ => g = 1 ∧ v = Wait
  | Over => g = FLAG_DONE ∧ v = Return false NoNotify true
  end.
Proof. unfold once_begin. destruct s; cbn; by intros [= <- <-]. Qed.

Lemma once_keeps : monitor_keeps once_allowed once_inv.
Proof.
  split.
  - intros h t o t' o' r g Hne [->|Ha] (s' & Hs & _); [by left|right].
    destruct (replay_snoc_Some _ _ _ _ _ Hs) as (s & Hr & Hst). rewrite Ha in Hr. injection Hr as <-.
    destruct o', r; cbn [once_spec] in Hst; repeat case_decide; simplify_eq; done.
  - intros h g t resumed [] g' (s & Hr & ->) _ Hb; [|done|done].
    apply once_begin_cases in Hb. exists s. split; [done|]. destruct s; cbn; by destruct Hb.
  - intros h g t resumed o g' r n held (s & Hr & ->) Ha Hb. unfold once_inv. rewrite replay_snoc, Hr.
    destruct o; cbn in Hb.
    + apply once_begin_cases in Hb. destruct s; destruct Hb as [-> Hb]; simplify_eq; by eexists.
    + destruct Ha as [|Ha]; [done|]. rewrite Ha in Hr. simplify_eq. exists Over.
      cbn [mbind option_bind once_spec]. by rewrite decide_True.
    + destruct Ha as [|Ha]; [done|]. rewrite Ha in Hr. simplify_eq. exists Fresh.
      cbn [mbind option_bind once_spec]. by rewrite decide_True.
  - by intros.
Qed.

(** Only [Begin] waits, and only while a function runs. *)
Definition once_blocked (t : nat) (o : op) (flag : Z) : Prop := flag = 1.

Lemma once_broadcasts : broadcasts once_blocked.
Proof.
  split.
  - intros t resumed [] g g' Hb; [|done|done]. cbn in Hb. unfold once_begin in Hb.
    repeat case_decide; by simplify_eq.
  - intros t resumed [] g g' r n held Hb; cbn in Hb; [|left; by simplify_eq..].
    right. intros t' o' Hbl. unfold once_begin, once_blocked in *. repeat case_decide; by simplify_eq.
Qed.

(** How often a function has returned in a history, and how often one was called. *)
Definition returns (h : list (nat * op * bool)) : nat :=
  length (filter (λ e, e.1.2 = Returned) h).

Lemma returns_over h s :
  replay once_spec Fresh h = Some s → returns h = if decide (s = Over) then 1%nat else O.
Proof.
  revert s. induction h as [|e h IH] using rev_ind; intros s Hr; [by injection Hr as <-|].
  destruct (replay_snoc_Some _ _ _ _ _ Hr) as (s0 & H0 & Hst). specialize (IH s0 H0).
  unfold returns in *. rewrite filter_app, length_app, IH. destruct e as [[t o] r].
  destruct o, r; cbn [once_spec] in Hst; repeat case_decide; simplify_eq; done.
Qed.

End Once.

(** ** Properties *)

(** [timed_mutex]: whatever its threads do, one holds it at a time.  The operations
    take effect one after the other as on a mutex that is free or has a holder, and
    [__locked_] says which; a thread that waits while it is free has another on its
    way to it, so that the threads are never all stuck. *)
Theorem timed_mutex_exclusive (m : monitor bool Timed.op bool) :
  mreach Timed.timed_allowed false m →
  ∃ holder, replay Timed.timed_spec None (log m) = Some holder
    ∧ shared m = bool_decide (is_Some holder)
    ∧ ∀ t, is_asleep (pcs m t) = true → holder = None → can_go m.
Proof.
  intros Hr. destruct (mreach_keeps _ _ Timed.timed_keeps false m) as [(s & Hs & Hl) _];
    [by exists None|done|].
  exists s. split; [done|]. split; [done|]. intros t Ha ->.
  eapply (handed_goes _ _ Timed.timed_keeps _ Timed.timed_hands_off false); [by exists None|done|done|].
  by rewrite Hl.
Qed.

(** [recursive_timed_mutex]: the same with a depth.  [__count_] is how many times
    the holder has it, never past the largest [size_t]: the lock that would pass it
    throws; [__id_] is the holder, and of no thread when there is none. *)
Theorem recursive_timed_mutex_exclusive (m : monitor Recursive.rec_mutex Recursive.op Recursive.result) :
  mreach Recursive.rec_allowed Recursive.rec_start m →
  ∃ holder, replay Recursive.rec_spec None (log m) = Some holder
    ∧ match holder with
      | None => Recursive.count_ (shared m) = 0 ∧ Recursive.id_ (shared m) = None
      | Some (t, n) =>
          Recursive.count_ (shared m) = n ∧ Recursive.id_ (shared m) = Some t ∧ 1 ≤ n < 2 ^ 64
      end
    ∧ ∀ t, is_asleep (pcs m t) = true → holder = None → can_go m.
Proof.
  intros Hr. destruct (mreach_keeps _ _ Recursive.rec_keeps Recursive.rec_start m) as [(s & Hs & Hl) _];
    [by exists None|done|].
  exists s. split; [done|]. split.
  - destruct s as [[t n]|]; [destruct Hl as [-> Hl]|by rewrite Hl].
    unfold Recursive.SIZE_MAX in Hl. cbn. split; [done|]. split; [done|lia].
  - intros t Ha ->.
    eapply (handed_goes _ _ Recursive.rec_keeps _ Recursive.rec_hands_off Recursive.rec_start); [by exists None|done|done|].
    by rewrite Hl.
Qed.

(** C39: [__call_once]: one function at a time runs, one at most ever returns, and a
    thread goes on without calling one only when one has returned; a function that
    throws lets the next thread call its own.  A thread waits only while a function
    runs, or its signal is on the way. *)
Theorem call_once_once (m : monitor Z Once.op bool) :
  mreach Once.once_allowed 0 m →
  ∃ s, replay Once.once_spec Once.Fresh (log m) = Some s ∧ shared m = Once.flag_of s
    ∧ Once.returns (log m) = (if decide (s = Once.Over) then 1%nat else O)
    ∧ ∀ t, is_asleep (pcs m t) = true → (∃ t', s = Once.Running t') ∨ can_go m.
Proof.
  intros Hr. destruct (mreach_keeps _ _ Once.once_keeps 0 m) as [(s & Hs & Hl) _];
    [by exists Once.Fresh|done|].
  exists s. split; [done|]. split; [done|]. split; [by apply Once.returns_over|]. intros t Ha.
  destruct (pcs m t) as [| | |op| | |] eqn:Hpc; try done.
  destruct (mreach_wakeup _ _ Once.once_broadcasts 0 m Hr t op Hpc) as [Hb|(t' & held & Hp)].
  - left. unfold Once.once_blocked in Hb. rewrite Hl in Hb. destruct s; try done. by eexists.
  - right. apply (runnable_goes _ 0 m t' Hr). by rewrite Hp.
Qed.

(** ** Witnesses *)

Definition m_start {G Op R} (g : G) : monitor G Op R := mkMonitor g None (λ _, Idle) [].

Definition m_after {G Op R} `{MonitorOps G Op R} (g : G) (ls : list (nat * mlabel Op)) : monitor G Op R :=
  after ls (m_start g).

(** Thread 1 finds the mutex taken, waits, and gets it when thread 0 has unlocked. *)
Definition timed_turns : list (nat * mlabel Timed.op) :=
  [(0%nat, Calls Timed.Lock); (0%nat, Goes None); (1%nat, Calls Timed.Lock); (0%nat, Goes None);
   (1%nat, Goes None); (1%nat, Goes None); (0%nat, Calls Timed.Unlock); (0%nat, Goes None);
   (0%nat, Goes None); (0%nat, Goes (Some 1%nat)); (0%nat, Goes None); (1%nat, Goes None); (1%nat, Goes None)].

Lemma timed_mutex_exclusive_witness :
  ∃ holder, replay Timed.timed_spec None (log (m_after false timed_turns)) = Some holder
    ∧ shared (m_after false timed_turns) = bool_decide (is_Some holder) ∧ holder = Some 1%nat.
Proof.
  destruct (timed_mutex_exclusive (m_after false timed_turns)) as (holder & Hr & Hs & _).
  - apply (follows_reach _ Timed.timed_allowedb _ timed_turns (m_start false)); [exact Timed.timed_allowedb_ok|apply mreach_start|by vm_compute].
  - exists holder. split; [exact Hr|]. split; [exact Hs|].
    vm_compute in Hr. by injection Hr as <-.
Defined.

Definition rec_turns : list (nat * mlabel Recursive.op) :=
  [(0%nat, Calls Recursive.Lock); (0%nat, Goes None); (0%nat, Goes None);
   (0%nat, Calls Recursive.TryLock); (0%nat, Goes None); (0%nat, Goes None);
   (1%nat, Calls Recursive.TryLock); (1%nat, Goes None); (1%nat, Goes None)].

Lemma recursive_timed_mutex_exclusive_witness :
  replay Recursive.rec_spec None (log (m_after Recursive.rec_start rec_turns)) = Some (Some (0%nat, 2)).
Proof.
  destruct (recursive_timed_mutex_exclusive (m_after Recursive.rec_start rec_turns)) as (holder & Hr & _).
  - apply (follows_reach _ Recursive.rec_allowedb _ rec_turns (m_start Recursive.rec_start)); [exact Recursive.rec_allowedb_ok|apply mreach_start|by vm_compute].
  - rewrite Hr. vm_compute in Hr. by injection Hr as <-.
Defined.

(** Thread 0's function throws while thread 1 waits; thread 1's returns. *)
Definition once_turns : list (nat * mlabel Once.op) :=
  [(0%nat, Calls Once.Begin); (0%nat, Goes None); (0%nat, Goes None);
   (1%nat, Calls Once.Begin); (1%nat, Goes None); (1%nat, Goes None);
   (0%nat, Calls Once.Thrown); (0%nat, Goes None); (0%nat, Goes None); (0%nat, Goes None);
   (1%nat, Goes None); (1%nat, Goes None); (1%nat, Calls Once.Returned); (1%nat, Goes None); (1%nat, Goes None)].

Lemma call_once_once_witness :
  shared (m_after 0 once_turns) = Once.FLAG_DONE ∧ Once.returns (log (m_after 0 once_turns)) = 1%nat.
Proof.
  destruct (call_once_once (m_after 0 once_turns)) as (s & Hr & Hf & Hn & _).
  - apply (follows_reach _ Once.once_allowedb _ once_turns (m_start 0)); [exact Once.once_allowedb_ok|apply mreach_start|by vm_compute].
  - vm_compute in Hr. injection Hr as <-. split; [exact Hf|exact Hn].
Defined.
