(* ===== verification/Thread.v ===== *)
(** * Thread: [thread.cpp], [condition_variable.cpp], [chrono.cpp] and the plain
    mutexes of [mutex.cpp]

    The parts of libc++ that call the system for threads and times: the conversion
    of durations to [timespec], the clocks, the life of a [thread] object, and the
    classes that are one pthread mutex.  The system calls are parameters. *)

From S2P Require Import Prelude.

(** ** Durations *)

Definition giga : Z := 10 ^ 9.
Definition micro : Z := 10 ^ 6.

(** [long], [long long] and [time_t]. *)
Definition LONG_MAX : Z := 2 ^ 63 - 1.
Definition long_ok (z : Z) : Prop := - 2 ^ 63 ≤ z ≤ LONG_MAX.

(** Signed arithmetic on them. *)
Definition signed (z : Z) : outcome Z :=
  if decide (- 2 ^ 63 ≤ z ∧ z ≤ LONG_MAX) then Ret z else Undef SignedOverflow.

Record timespec := mkTimespec { tv_sec : Z; tv_nsec : Z }.

(** The statements both functions have, for a count of nanoseconds. *)
Definition to_timespec (ns : Z) : timespec :=
  let s := Z.quot ns giga in
  if decide (s < LONG_MAX) then mkTimespec s (ns - s * giga) else mkTimespec LONG_MAX (giga - 1).

(** [this_thread::sleep_for]: what it passes to [nanosleep], if it calls it. *)
Definition sleep_for (ns : Z) : option timespec :=
  if decide (0 < ns) then Some (to_timespec ns) else None.

(** [condition_variable::__do_timed_wait]: [ec] is what [pthread_cond_timedwait]
    returns for its argument. *)
Definition WAIT_LIMIT : Z := 0x59682F000000E941.
Definition ETIMEDOUT : Z := 110.
Definition EINVAL : Z := 22.

Definition timed_wait_arg (tp : Z) : timespec :=
  to_timespec (if decide (WAIT_LIMIT < tp) then WAIT_LIMIT else tp).

Definition do_timed_wait (owns_lock : bool) (timedwait : timespec → Z) (tp : Z) : outcome unit :=
  if negb owns_lock then Throw (str "condition_variable::timed wait: mutex not locked")
  else
    let ec := timedwait (timed_wait_arg tp) in
    if bool_decide (ec ≠ 0) && bool_decide (ec ≠ ETIMEDOUT)
    then Throw (str "condition_variable timed_wait failed") else Ret tt.

(** [condition_variable::wait]. *)
Definition cv_wait (owns_lock : bool) (ec : Z) : outcome unit :=
  if negb owns_lock then Throw (str "condition_variable::wait: mutex not locked")
  else if bool_decide (ec ≠ 0) then Throw (str "condition_variable wait failed") else Ret tt.

(** ** Clocks *)

(** [system_clock] counts microseconds, [steady_clock] nanoseconds. *)
Definition system_now (sec usec : Z) : outcome Z :=
  match signed (sec * micro) with Ret m => signed (m + usec) | o => o end.

Definition to_time_t (t : Z) : Z := Z.quot t micro.
Definition from_time_t (t : Z) : outcome Z := signed (t * micro).

(** [None] is the end of the program: the function is [noexcept], and throws. *)
Definition steady_now (res sec nsec : Z) : option (outcome Z) :=
  if decide (res ≠ 0) then None
  else Some (match signed (sec * giga) with Ret n => signed (n + nsec) | o => o end).

(** ** The thread object *)

(** [hardware_concurrency], from what [sysconf] returns. *)
Definition hardware_concurrency (result : Z) : Z := if decide (result < 0) then 0 else wrap 32 result.

(** [__t_], 0 for no thread; the destructor may end the program. *)
Inductive ending := Ends | Terminates.

Definition thread_destroy (t : Z) : ending := if decide (t ≠ 0) then Terminates else Ends.

(** [pthread_join] and [pthread_detach] as the results they give. *)
Definition thread_join (pthread_join : Z → Z) : comp Z unit := λ t,
  if bool_decide (pthread_join t ≠ 0) then (Throw (str "thread::join failed"), t) else (Ret tt, 0).

Definition thread_detach (pthread_detach : Z → Z) : comp Z unit := λ t,
  let '(ec, t1) :=
    if decide (t ≠ 0) then
      let ec := pthread_detach t in (ec, if decide (ec = 0) then 0 else t)
    else (EINVAL, t) in
  if bool_decide (ec ≠ 0) then (Throw (str "thread::detach failed"), t1) else (Ret tt, t1).

(** ** The classes over one pthread mutex *)

(** The calls on the mutex of an object and on the attributes it is made with. *)
Class PthreadOps (H : Type) := {
  attr_init : H → Z * H;
  attr_settype_recursive : H → Z * H;
  attr_destroy : H → Z * H;
  mutex_init : H → Z * H;
  mutex_destroy : H → Z * H;
  mutex_lock : H → Z * H;
  mutex_trylock : H → Z * H;
  mutex_unlock : H → Z * H }.

(** What succeeds makes or ends its object; what fails changes nothing. *)
Class PthreadLaws (H : Type) `{PthreadOps H} := {
  attr_live : H → bool;
  mutex_live : H → bool;
  attr_init_law h r h' : attr_init h = (r, h') →
    mutex_live h' = mutex_live h ∧ attr_live h' = (if decide (r = 0) then true else attr_live h);
  attr_settype_law h r h' : attr_settype_recursive h = (r, h') →
    mutex_live h' = mutex_live h ∧ attr_live h' = attr_live h;
  attr_destroy_law h r h' : attr_destroy h = (r, h') →
    mutex_live h' = mutex_live h ∧ attr_live h' = (if decide (r = 0) then false else attr_live h);
  mutex_init_law h r h' : mutex_init h = (r, h') →
    attr_live h' = attr_live h ∧ mutex_live h' = (if decide (r = 0) then true else mutex_live h);
  mutex_destroy_law h r h' : mutex_destroy h = (r, h') →
    attr_live h' = attr_live h ∧ mutex_live h' = (if decide (r = 0) then false else mutex_live h) }.

Section mutex.
Context {H : Type} `{PthreadOps H}.

Definition call (f : H → Z * H) : comp H Z := λ h, let '(r, h') := f h in (Ret r, h').

(** [mutex::lock], [recursive_mutex::lock] with their messages; [try_lock],
    [unlock] and the destructors of both. *)
Definition plain_lock (what : bytes) : comp H unit :=
  let* ec := call mutex_lock in
  if decide (ec ≠ 0) then cthrow what else cret tt.
Definition mutex_lock_msg : bytes := str "mutex lock failed".
Definition recursive_lock_msg : bytes := str "recursive_mutex lock failed".

Definition plain_try_lock : comp H bool :=
  let* ec := call mutex_trylock in cret (bool_decide (ec = 0)).

(** The argument of the [assert] is the variable, the call is before it. *)
Definition plain_unlock (ndebug : bool) : comp H unit :=
  let* ec := call mutex_unlock in
  if ndebug || bool_decide (ec = 0) then cret tt else λ h, (AssertFailed, h).

Definition mutex_destructor : comp H unit := let* _ := call mutex_destroy in cret tt.

Definition recursive_mutex_destructor (ndebug : bool) : comp H unit :=
  let* e := call mutex_destroy in
  if ndebug || bool_decide (e = 0) then cret tt else λ h, (AssertFailed, h).

(** [recursive_mutex]'s constructor; [fail] is its label. *)
Definition recursive_fail : comp H unit := cthrow (str "recursive_mutex constructor failed").

Definition recursive_mutex_new : comp H unit :=
  let* ec := call attr_init in
  if decide (ec ≠ 0) then recursive_fail
  else
    let* ec := call attr_settype_recursive in
    if decide (ec ≠ 0) then let* _ := call attr_destroy in recursive_fail
    else
      let* ec := call mutex_init in
      if decide (ec ≠ 0) then let* _ := call attr_destroy in recursive_fail
      else
        let* ec := call attr_destroy in
        if decide (ec ≠ 0) then let* _ := call mutex_destroy in recursive_fail
        else cret tt.

End mutex.

(** ** Lemmas *)

Lemma quot_giga ns : 0 ≤ ns → Z.quot ns giga = ns / giga.
Proof. intros. apply Z.quot_div_nonneg; unfold giga; lia. Qed.

(** A count that fits a [long long] never reaches the last second. *)
Lemma to_timespec_exact ns :
  long_ok ns →
  let ts := to_timespec ns in
  tv_sec ts * giga + tv_nsec ts = ns ∧ (0 ≤ ns → 0 ≤ tv_sec ts ∧ 0 ≤ tv_nsec ts < giga).
Proof.
  intros [Hl Hh]. unfold to_timespec. cbn zeta.
  assert (Hs : Z.quot ns giga < LONG_MAX).
  { pose proof (Z.quot_le_mono ns LONG_MAX giga ltac:(unfold giga; lia) Hh) as Hq.
    assert (Z.quot LONG_MAX giga < LONG_MAX) by by apply (bool_decide_eq_true_1 _). lia. }
  rewrite decide_True by done. cbn. split; [lia|]. intros Hn. rewrite quot_giga by done.
  pose proof (Z.div_mod ns giga ltac:(unfold giga; lia)).
  pose proof (Z.mod_pos_bound ns giga ltac:(unfold giga; lia)).
  pose proof (Z.div_pos ns giga Hn ltac:(unfold giga; lia)). lia.
Qed.

(** ** Properties *)

(** [sleep_for] asks the system for its argument exactly, with a legal number of
    nanoseconds, and for nothing when the argument is not positive. *)
Theorem sleep_for_exact ns :
  long_ok ns →
  match sleep_for ns with
  | Some ts => 0 < ns ∧ tv_sec ts * giga + tv_nsec ts = ns ∧ 0 ≤ tv_sec ts ∧ 0 ≤ tv_nsec ts < giga
  | None => ns ≤ 0
  end.
Proof.
  intros Hl. unfold sleep_for. case_decide; [|lia].
  destruct (to_timespec_exact ns Hl) as [He Hp]. split; [done|]. split; [done|]. apply Hp. lia.
Qed.

(** A wait until a time from 1970 on is for that time, cut off at a limit in the
    year 2174, with a legal number of nanoseconds; it ends well whether it
    was signalled or timed out.  A wait until a time before 1970 that is no whole
    second has a negative number of them, which the system refuses: it throws. *)
Theorem timed_wait_times timedwait tp :
  long_ok tp →
  let ts := timed_wait_arg tp in
  (tv_sec ts * giga + tv_nsec ts = Z.min tp WAIT_LIMIT)
  ∧ (0 ≤ tp → 0 ≤ tv_sec ts ∧ 0 ≤ tv_nsec ts < giga)
  ∧ (tp < 0 → Z.rem tp giga ≠ 0 → tv_nsec ts < 0)
  ∧ ((∀ ts, tv_nsec ts < 0 → timedwait ts = EINVAL) → tp < 0 → Z.rem tp giga ≠ 0 →
     do_timed_wait true timedwait tp = Throw (str "condition_variable timed_wait failed"))
  ∧ (do_timed_wait true timedwait tp = Ret tt ↔ timedwait ts = 0 ∨ timedwait ts = ETIMEDOUT).
Proof.
  intros Hl. cbn zeta. unfold do_timed_wait, timed_wait_arg.
  set (d := if decide (WAIT_LIMIT < tp) then WAIT_LIMIT else tp).
  assert (Hd : d = Z.min tp WAIT_LIMIT) by (unfold d; case_decide; lia).
  assert (Hok : long_ok d).
  { rewrite Hd. unfold long_ok, LONG_MAX, WAIT_LIMIT in *. lia. }
  destruct (to_timespec_exact d Hok) as [He Hp].
  assert (Hneg : tp < 0 → Z.rem tp giga ≠ 0 → tv_nsec (to_timespec d) < 0).
  { intros Ht Hr. assert (d = tp) as E by (rewrite Hd; unfold WAIT_LIMIT; lia). rewrite E in *.
    unfold to_timespec. rewrite decide_True.
    - cbn. pose proof (Z.quot_rem tp giga ltac:(unfold giga; lia)).
      pose proof (Z.rem_nonpos tp giga ltac:(unfold giga; lia) ltac:(lia)). lia.
    - pose proof (Z.quot_le_mono tp 0 giga ltac:(unfold giga; lia) ltac:(lia)) as Hq.
      rewrite Z.quot_0_l in Hq by (unfold giga; lia). unfold LONG_MAX. lia. }
  cbn [negb]. split; [by rewrite He|]. split; [|split; [done|split]].
  - intros Ht. apply Hp. rewrite Hd. unfold WAIT_LIMIT. lia.
  - intros Hw Ht Hr. by rewrite (Hw _ (Hneg Ht Hr)).
  - destruct (decide (timedwait (to_timespec d) = 0)) as [E|E];
      [rewrite (bool_decide_false (_ ≠ 0)) by tauto; cbn; tauto|].
    rewrite (bool_decide_true (_ ≠ 0)) by done. cbn.
    case_bool_decide; split; [by intros [=]|intros [?|?]; tauto|right; tauto|done].
Qed.

(** A [time_t] survives the clock's microseconds when it fits, and overflows them
    otherwise; the other way a time loses its fraction, towards 1970. *)
Theorem time_t_roundtrip t :
  (long_ok (t * micro) → ∃ c, from_time_t t = Ret c ∧ to_time_t c = t)
  ∧ (¬ long_ok (t * micro) → from_time_t t = Undef SignedOverflow)
  ∧ Z.abs (to_time_t t * micro) ≤ Z.abs t ∧ Z.abs t < Z.abs (to_time_t t * micro) + micro.
Proof.
  unfold from_time_t, signed, long_ok. split; [|split].
  - intros [Hl Hh]. exists (t * micro). rewrite decide_True by done. split; [done|].
    unfold to_time_t. apply Z.quot_mul. unfold micro. lia.
  - intros Hn. by rewrite decide_False.
  - unfold to_time_t. pose proof (Z.quot_rem t micro ltac:(unfold micro; lia)) as Hq.
    pose proof (Z.rem_bound_abs t micro ltac:(unfold micro; lia)) as Hb.
    destruct (Z.le_ge_cases 0 t) as [Ht|Ht].
    + pose proof (Z.quot_pos t micro Ht ltac:(unfold micro; lia)).
      pose proof (Z.rem_nonneg t micro ltac:(unfold micro; lia) Ht). unfold micro in *. lia.
    + pose proof (Z.rem_nonpos t micro ltac:(unfold micro; lia) Ht).
      assert (Z.quot t micro ≤ 0).
      { pose proof (Z.quot_le_mono t 0 micro ltac:(unfold micro; lia) Ht) as Hm.
        by rewrite Z.quot_0_l in Hm by (unfold micro; lia). }
      unfold micro in *. lia.
Qed.

(** The steady clock does not go back when the system's does not, as long as its
    times are within 292 years of the start. *)
Theorem steady_clock_steady s1 n1 s2 n2 :
  0 ≤ s1 → 0 ≤ s2 < 2 ^ 63 / giga → 0 ≤ n1 < giga → 0 ≤ n2 < giga →
  s1 < s2 ∨ s1 = s2 ∧ n1 ≤ n2 →
  ∃ a b, steady_now 0 s1 n1 = Some (Ret a) ∧ steady_now 0 s2 n2 = Some (Ret b) ∧ a ≤ b.
Proof.
  intros H1 [H2 H3] Hn1 Hn2 Hle. exists (s1 * giga + n1), (s2 * giga + n2).
  change (2 ^ 63 / giga) with 9223372036 in H3. unfold giga in *.
  assert (Hnow : ∀ s n, 0 ≤ s < 9223372036 → 0 ≤ n < 10 ^ 9 → steady_now 0 s n = Some (Ret (s * 10 ^ 9 + n))).
  { intros s n Hs Hn. unfold steady_now, signed, giga, LONG_MAX.
    rewrite decide_False by tauto. rewrite decide_True by lia. by rewrite decide_True by lia. }
  rewrite !Hnow by lia. split; [done|]. split; [done|]. nia.
Qed.

(** A [thread] object that is neither joined nor detached ends the program when it
    is destroyed; a join or a detach that succeeds lets it go, one that fails throws
    and leaves it as it was. *)
Theorem thread_let_go join detach t o t' :
  t ≠ 0 → (thread_join join t = (o, t') ∨ thread_detach detach t = (o, t')) →
  thread_destroy t = Terminates
  ∧ match o with
    | Ret _ => t' = 0 ∧ thread_destroy t' = Ends
    | Throw _ => t' = t
    | _ => False
    end.
Proof.
  intros Ht Hc. split; [unfold thread_destroy; by rewrite decide_True|].
  destruct Hc as [Hc|Hc]; unfold thread_join, thread_detach in Hc.
  - case_bool_decide; injection Hc as <- <-; done.
  - rewrite decide_True in Hc by done.
    destruct (decide (detach t = 0)) as [->|Hd]; [by injection Hc as <- <-|].
    rewrite bool_decide_true in Hc by done. by injection Hc as <- <-.
Qed.

(** The constructor of [recursive_mutex] makes the mutex and gives its attributes
    back, or throws; then there is no mutex, unless its destruction failed too, and
    the attributes are there only if their destruction failed. *)
Theorem recursive_mutex_made {H} `{PthreadOps H} `{!PthreadLaws H} (h h' : H) o :
  attr_live h = false → mutex_live h = false → recursive_mutex_new h = (o, h') →
  (∀ h, mutex_live h = true → (mutex_destroy h).1 = 0) →
  match o with
  | Ret _ => mutex_live h' = true ∧ attr_live h' = false
  | Throw _ => mutex_live h' = false
      ∧ ((∀ h, attr_live h = true → (attr_destroy h).1 = 0) → attr_live h' = false)
  | _ => False
  end.
Proof.
  intros Ha Hm Hr Hd. unfold recursive_mutex_new, recursive_fail, cbind, call, cthrow, cret in Hr.
  destruct (attr_init h) as [r1 h1] eqn:E1. apply attr_init_law in E1 as [M1 A1].
  destruct (decide (r1 = 0)) as [->|N1]; [rewrite decide_False in Hr by tauto|].
  2:{ rewrite decide_True in Hr by done. injection Hr as <- <-. split; congruence. }
  destruct (attr_settype_recursive h1) as [r2 h2] eqn:E2. apply attr_settype_law in E2 as [M2 A2].
  destruct (decide (r2 = 0)) as [->|N2]; [rewrite decide_False in Hr by tauto|].
  2:{ rewrite decide_True in Hr by done. destruct (attr_destroy h2) as [r h3] eqn:E3.
      pose proof (f_equal fst E3) as F3. apply attr_destroy_law in E3 as [M3 A3]. injection Hr as <- <-.
      split; [congruence|]. intros Hok. cbn in F3. rewrite Hok in F3 by congruence.
      by rewrite A3, decide_True. }
  destruct (mutex_init h2) as [r3 h3] eqn:E3. apply mutex_init_law in E3 as [A3 M3].
  destruct (attr_destroy h3) as [r4 h4] eqn:E4. pose proof (f_equal fst E4) as F4.
  pose proof E4 as [M4 A4]%attr_destroy_law. cbn in F4.
  assert (Hlive : attr_live h3 = true) by congruence.
  destruct (decide (r3 = 0)) as [->|N3]; [rewrite decide_False in Hr by tauto|].
  2:{ rewrite decide_True in Hr by done. rewrite E4 in Hr. injection Hr as <- <-.
      split; [congruence|]. intros Hok. rewrite Hok in F4 by done. by rewrite A4, decide_True. }
  rewrite E4 in Hr. destruct (decide (r4 = 0)) as [->|N4]; [rewrite decide_False in Hr by tauto|].
  - injection Hr as <- <-. split; congruence.
  - rewrite decide_True in Hr by done. destruct (mutex_destroy h4) as [r h5] eqn:E5.
    pose proof (f_equal fst E5) as F5. apply mutex_destroy_law in E5 as [A5 M5]. cbn in F5.
    injection Hr as <- <-. rewrite Hd in F5 by congruence. split; [by rewrite M5, decide_True|].
    intros Hok. rewrite Hok in F4 by done. congruence.
Qed.

(** ** Witnesses *)

Lemma sleep_for_exact_witness :
  ∃ ts, sleep_for 1500000000 = Some ts ∧ tv_sec ts * giga + tv_nsec ts = 1500000000.
Proof.
  exists (mkTimespec 1 500000000). split; [reflexivity|].
  apply (sleep_for_exact 1500000000). unfold long_ok, LONG_MAX. lia.
Defined.

(** Half a second before 1970. *)
Lemma timed_wait_times_witness :
  do_timed_wait true (λ ts, if decide (tv_nsec ts < 0) then EINVAL else 0) (-500000000)
  = Throw (str "condition_variable timed_wait failed").
Proof.
  apply (timed_wait_times (λ ts, if decide (tv_nsec ts < 0) then EINVAL else 0) (-500000000));
    [unfold long_ok, LONG_MAX; lia| |lia|by vm_compute].
  intros ts Hts. by rewrite decide_True.
Defined.

Lemma steady_clock_steady_witness :
  ∃ a b, steady_now 0 1 999999999 = Some (Ret a) ∧ steady_now 0 2 0 = Some (Ret b) ∧ a ≤ b.
Proof. apply (steady_clock_steady 1 999999999 2 0); [lia|by vm_compute|by vm_compute..|left; lia]. Defined.

Lemma thread_let_go_witness : thread_destroy 7 = Terminates ∧ (thread_join (λ _, 0) 7).2 = 0.
Proof.
  destruct (thread_let_go (λ _, 0) (λ _, 0) 7 (Ret tt) 0) as [Ht [H0 _]];
    [done|by left|]. split; [exact Ht|reflexivity].
Defined.

(** The attributes, the mutex, and whether there is memory for one. *)
Definition pt_state : Type := bool * bool * bool.

#[local] Instance pt_ops : PthreadOps pt_state := {
  attr_init '(a, m, b) := (0, (true, m, b));
  attr_settype_recursive h := (0, h);
  attr_destroy '(a, m, b) := (0, (false, m, b));
  mutex_init '(a, m, b) := if b then (0, (a, true, b)) else (12, (a, m, b));
  mutex_destroy '(a, m, b) := (0, (a, false, b));
  mutex_lock h := (0, h); mutex_trylock h := (0, h); mutex_unlock h := (0, h) }.

#[local] Instance pt_laws : PthreadLaws pt_state.
Proof.
  refine {| attr_live := λ '(a, _, _), a; mutex_live := λ '(_, m, _), m |};
    intros [[a m] b] r h' E; cbn in E; try destruct b; by injection E as <- <-.
Defined.

(** There is no memory: no mutex, and the attributes are given back. *)
Lemma recursive_mutex_made_witness :
  recursive_mutex_new (false, false, false)
  = (Throw (str "recursive_mutex constructor failed"), (false, false, false))
  ∧ attr_live (H := pt_state) (false, false, false) = false.
Proof.
  assert (Hr : recursive_mutex_new (H := pt_state) (false, false, false)
    = (Throw (str "recursive_mutex constructor failed"), (false, false, false))) by reflexivity.
  split; [exact Hr|].
  refine (proj2 (recursive_mutex_made (false, false, false) _ _ eq_refl eq_refl Hr _) _);
    intros [[a m] b] _; reflexivity.
Defined.
