(* ===== verification/SharedPtr.v ===== *)
(** * SharedPtr: the counts of [memory.cpp]

    The control block of a [shared_ptr], [__shared_weak_count], with the counts of
    its owners and of its weak owners, for any number of threads: each atomic access
    is a step.  Then [align] and the mutexes of the atomic operations. *)

From S2P Require Import Prelude.

(** ** The control block *)

(** Where a thread is: at [__on_zero_shared], at the [__release_weak] after it, at
    [__on_zero_shared_weak], or in the loop of [lock]. *)
Inductive sp_pc := SpIdle | AtZero | AtReleaseWeak | AtZeroWeak | LockRead | LockSwap (object_owners : Z).

(** A thread with the pointers it has, and the control block: the counts, and how
    often the object and the block have been ended. *)
Record sp_thread := mkSpThread { sh : nat; wk : nat; at_ : sp_pc }.

Record sp_state := mkSpState {
  owners : Z; weak_owners : Z; destroyed : nat; freed : nat; fault : option ub; sps : list sp_thread }.

(** [long], whose atomic addition wraps. *)
Definition long_wrap (z : Z) : Z := (z + 2 ^ 63) mod 2 ^ 64 - 2 ^ 63.

(** The pointers are made: one owner. *)
Definition sp_start (others : nat) : sp_state :=
  mkSpState 0 0 0 0 None (mkSpThread 1 0 SpIdle :: replicate others (mkSpThread 0 0 SpIdle)).

(** Any access to the block. *)
Definition touch (s : sp_state) : sp_state :=
  mkSpState (owners s) (weak_owners s) (destroyed s) (freed s)
    (if decide (freed s = O) then fault s else Some DanglingReference) (sps s).

Definition set_owners (z : Z) (s : sp_state) : sp_state :=
  mkSpState z (weak_owners s) (destroyed s) (freed s) (fault s) (sps s).
Definition set_weak (z : Z) (s : sp_state) : sp_state :=
  mkSpState (owners s) z (destroyed s) (freed s) (fault s) (sps s).
Definition set_thread (t : nat) (x : sp_thread) (s : sp_state) : sp_state :=
  mkSpState (owners s) (weak_owners s) (destroyed s) (freed s) (fault s) (<[t := x]> (sps s)).

(** [increment] and [decrement] return the new value. *)
Definition add_shared (t : nat) (x : sp_thread) (s : sp_state) : sp_state :=
  set_thread t (mkSpThread (S (sh x)) (wk x) SpIdle) (set_owners (long_wrap (owners s + 1)) (touch s)).

Definition add_weak (t : nat) (x : sp_thread) (s : sp_state) : sp_state :=
  set_thread t (mkSpThread (sh x) (S (wk x)) SpIdle) (set_weak (long_wrap (weak_owners s + 1)) (touch s)).

Definition release_shared (t : nat) (x : sp_thread) (s : sp_state) : sp_state :=
  let z := long_wrap (owners s - 1) in
  set_thread t (mkSpThread (pred (sh x)) (wk x) (if decide (z = -1) then AtZero else SpIdle))
    (set_owners z (touch s)).

Definition release_weak (t : nat) (x : sp_thread) (s : sp_state) : sp_state :=
  let z := long_wrap (weak_owners s - 1) in
  set_thread t (mkSpThread (sh x) (wk x) (if decide (z = -1) then AtZeroWeak else SpIdle))
    (set_weak z (touch s)).

Definition on_zero_shared (t : nat) (x : sp_thread) (s : sp_state) : sp_state :=
  set_thread t (mkSpThread (sh x) (wk x) AtReleaseWeak)
    (mkSpState (owners s) (weak_owners s) (S (destroyed s)) (freed s) (fault (touch s)) (sps s)).

Definition on_zero_shared_weak (t : nat) (x : sp_thread) (s : sp_state) : sp_state :=
  set_thread t (mkSpThread (sh x) (wk x) SpIdle)
    (mkSpState (owners s) (weak_owners s) (destroyed s) (S (freed s)) (fault (touch s)) (sps s)).

(** The loop of [lock], an access at a time. *)
Definition lock_read (t : nat) (x : sp_thread) (s : sp_state) : sp_state :=
  set_thread t (mkSpThread (sh x) (wk x) (if decide (owners s = -1) then SpIdle else LockSwap (owners s))) (touch s).

Definition lock_swap (t : nat) (x : sp_thread) (object_owners : Z) (s : sp_state) : sp_state :=
  if decide (owners s = object_owners) then add_shared t x s
  else set_thread t (mkSpThread (sh x) (wk x) LockRead) (touch s).

(** What a thread may begin: with an owner, or a weak owner, or by giving one to
    another thread. *)
Inductive sp_label :=
  | AddShared | ReleaseShared | AddWeak | ReleaseWeak | Lock | Continue
  | GiveShared (t' : nat) | GiveWeak (t' : nat).

Definition sp_give (t t' : nat) (dsh dwk : nat) (x : sp_thread) (s : sp_state) : option sp_state :=
  let s1 := set_thread t (mkSpThread (sh x - dsh) (wk x - dwk) SpIdle) s in
  y ← sps s1 !! t'; Some (set_thread t' (mkSpThread (sh y + dsh) (wk y + dwk) (at_ y)) s1).

Definition sp_step (t : nat) (l : sp_label) (s : sp_state) : option sp_state :=
  x ← sps s !! t;
  match at_ x, l with
  | SpIdle, AddShared => if decide (0 < sh x)%nat then Some (add_shared t x s) else None
  | SpIdle, ReleaseShared => if decide (0 < sh x)%nat then Some (release_shared t x s) else None
  | SpIdle, AddWeak => if decide (0 < sh x + wk x)%nat then Some (add_weak t x s) else None
  | SpIdle, ReleaseWeak =>
      if decide (0 < wk x)%nat then Some (release_weak t (mkSpThread (sh x) (pred (wk x)) SpIdle) s) else None
  | SpIdle, Lock =>
      if decide (0 < wk x)%nat then Some (set_thread t (mkSpThread (sh x) (wk x) LockRead) s) else None
  | SpIdle, GiveShared t' => if decide (0 < sh x)%nat then sp_give t t' 1 0 x s else None
  | SpIdle, GiveWeak t' => if decide (0 < wk x)%nat then sp_give t t' 0 1 x s else None
  | AtZero, Continue => Some (on_zero_shared t x s)
  | AtReleaseWeak, Continue => Some (release_weak t x s)
  | AtZeroWeak, Continue => Some (on_zero_shared_weak t x s)
  | LockRead, Continue => Some (lock_read t x s)
  | LockSwap v, Continue => Some (lock_swap t x v s)
  | _, _ => None
  end.

(** How many pointers of each kind there are, and how many threads are at a place. *)
Definition total (f : sp_thread → nat) (s : sp_state) : Z := Z.of_nat (sum_list_with f (sps s)).
Definition at_pc_ (p : sp_pc → bool) (x : sp_thread) : nat := if p (at_ x) then 1 else 0.
Definition is_zero (p : sp_pc) : bool := match p with AtZero => true | _ => false end.
Definition is_release_weak (p : sp_pc) : bool := match p with AtReleaseWeak => true | _ => false end.
Definition is_zero_weak (p : sp_pc) : bool := match p with AtZeroWeak => true | _ => false end.
Definition is_locking (p : sp_pc) : bool := match p with LockRead | LockSwap _ => true | _ => false end.

(** The threads in any order; a pointer takes memory, so there are few. *)
Inductive sp_reach (others : nat) : sp_state → Prop :=
  | sp_reach_start : sp_reach others (sp_start others)
  | sp_reach_step s t l s' :
      sp_reach others s → total sh s + total wk s < 2 ^ 60 → sp_step t l s = Some s' → sp_reach others s'.

(** ** align *)

(** [ptr] and [space] are updated when the result is not null. *)
Definition align (alignment size ptr space : Z) : option Z * (Z * Z) :=
  if size <=? space then
    let p2 := Z.land (size_wrap (ptr + size_wrap (alignment - 1))) (size_wrap (- alignment)) in
    let d := size_wrap (p2 - ptr) in
    if d <=? size_wrap (space - size) then (Some p2, (p2, size_wrap (space - d))) else (None, (ptr, space))
  else (None, (ptr, space)).

(** ** The mutexes of atomic shared pointers *)

(** [__sp_mut::lock]: [tries n] is whether the [n]-th [try_lock] gets the mutex; how
    often it tried, and whether it then waited. *)
Fixpoint sp_lock (fuel : nat) (tries : nat → bool) (n : nat) (count : Z) : option (nat * bool) :=
  match fuel with
  | O => None
  | S fuel' =>
      if tries n then Some (S n, false)
      else
        let count := wrap 32 (count + 1) in
        if decide (16 < count) then Some (S n, true) else sp_lock fuel' tries (S n) count
  end.

(** [__get_sp_mut]: the mutex of an address, by its hash. *)
Definition sp_mut_count : Z := 16.
Definition get_sp_mut (hash : Z → Z) (p : Z) : Z := Z.land (hash p) (size_wrap (sp_mut_count - 1)).

(** ** Lemmas *)

Lemma sum_insert {A} (f : A → nat) (l : list A) t x y :
  l !! t = Some x → (sum_list_with f (<[t := y]> l) + f x = sum_list_with f l + f y)%nat.
Proof.
  revert t. induction l as [|z l IH]; intros [|t] Ht; try done; [injection Ht as ->; cbn; lia|].
  specialize (IH t Ht). change (<[S t := y]> (z :: l)) with (z :: <[t := y]> l). cbn [sum_list_with]. lia.
Qed.

Lemma total_ge f t x s : sps s !! t = Some x → Z.of_nat (f x) ≤ total f s.
Proof.
  unfold total. generalize (sps s). intros l. revert t. induction l as [|z l IH]; intros [|t] Ht; try done; cbn in *;
    [injection Ht as ->; lia|]. specialize (IH t Ht). lia.
Qed.

Lemma total_nonneg f s : 0 ≤ total f s.
Proof. unfold total. lia. Qed.

Lemma long_wrap_small z : - 2 ^ 63 ≤ z < 2 ^ 63 → long_wrap z = z.
Proof. intros Hz. unfold long_wrap. rewrite Z.mod_small by lia. lia. Qed.

(** What holds of the block.  One weak owner is all owners' together, and is the
    thread's that was the last of them until it has released it. *)
Record sp_ok (s : sp_state) : Prop := {
  ok_owners : owners s + 1 = total sh s;
  ok_weak : weak_owners s + 1 = total wk s + total (at_pc_ is_zero) s + total (at_pc_ is_release_weak) s
              + (if decide (total sh s = 0) then 0 else 1);
  ok_last : total (at_pc_ is_zero) s + total (at_pc_ is_release_weak) s ≤ (if decide (total sh s = 0) then 1 else 0);
  ok_destroyed : Z.of_nat (destroyed s) + total (at_pc_ is_zero) s = (if decide (total sh s = 0) then 1 else 0);
  ok_freed : Z.of_nat (freed s) + total (at_pc_ is_zero_weak) s = (if decide (weak_owners s = -1) then 1 else 0);
  ok_fault : fault s = None;
  ok_locking t x : sps s !! t = Some x → is_locking (at_ x) = true → (0 < wk x)%nat;
  ok_swap t x v : sps s !! t = Some x → at_ x = LockSwap v → v ≠ -1 }.

Lemma total_touch f s : total f (touch s) = total f s.
Proof. done. Qed.

(** Who has a pointer, or is to give one back, finds the block. *)
Lemma sp_alive s t x :
  sp_ok s → sps s !! t = Some x →
  (0 < sh x + wk x + at_pc_ is_zero x + at_pc_ is_release_weak x + at_pc_ is_zero_weak x)%nat → freed s = O ∧ touch s = s.
Proof.
  intros Ho Hx Hp. assert (Hf : freed s = O).
  { pose proof (ok_weak _ Ho). pose proof (ok_freed _ Ho).
    pose proof (total_ge sh t x s Hx). pose proof (total_ge wk t x s Hx).
    pose proof (total_ge (at_pc_ is_zero) t x s Hx). pose proof (total_ge (at_pc_ is_release_weak) t x s Hx).
    pose proof (total_ge (at_pc_ is_zero_weak) t x s Hx).
    pose proof (total_nonneg (at_pc_ is_zero_weak) s). repeat case_decide; lia. }
  split; [done|]. unfold touch. rewrite decide_True by done. by destruct s.
Qed.

(** A thread's change, in terms of the sums. *)
Lemma sp_ok_step s s' t x y :
  sp_ok s → sps s !! t = Some x → sps s' = <[t := y]> (sps s) → fault s' = None →
  (is_locking (at_ y) = true → (0 < wk y)%nat) → (∀ v, at_ y = LockSwap v → v ≠ -1) →
  (∀ S W Z R ZW, S = total sh s + Z.of_nat (sh y) - Z.of_nat (sh x) → W = total wk s + Z.of_nat (wk y) - Z.of_nat (wk x) →
     Z = total (at_pc_ is_zero) s + Z.of_nat (at_pc_ is_zero y) - Z.of_nat (at_pc_ is_zero x) →
     R = total (at_pc_ is_release_weak) s + Z.of_nat (at_pc_ is_release_weak y) - Z.of_nat (at_pc_ is_release_weak x) →
     ZW = total (at_pc_ is_zero_weak) s + Z.of_nat (at_pc_ is_zero_weak y) - Z.of_nat (at_pc_ is_zero_weak x) →
     owners s' + 1 = S
     ∧ weak_owners s' + 1 = W + Z + R + (if decide (S = 0) then 0 else 1)
     ∧ Z + R ≤ (if decide (S = 0) then 1 else 0)
     ∧ Z.of_nat (destroyed s') + Z = (if decide (S = 0) then 1 else 0)
     ∧ Z.of_nat (freed s') + ZW = (if decide (weak_owners s' = -1) then 1 else 0)) →
  sp_ok s'.
Proof.
  intros Ho Hx Hs' Hf Hl Hv Hsum.
  assert (Ht : ∀ f, total f s' = total f s + Z.of_nat (f y) - Z.of_nat (f x)).
  { intros f. unfold total. rewrite Hs'. pose proof (sum_insert f (sps s) t x y Hx). lia. }
  destruct (Hsum _ _ _ _ _ (Ht sh) (Ht wk) (Ht _) (Ht _) (Ht _)) as (H1 & H2 & H3 & H4 & H5).
  split; try done.
  - intros t' x' Hx'. rewrite Hs' in Hx'. apply list_lookup_insert_Some in Hx' as [(_ & <- & _)|[_ Hx']]; [done|].
    by apply (ok_locking _ Ho t').
  - intros t' x' v Hx'. rewrite Hs' in Hx'. apply list_lookup_insert_Some in Hx' as [(_ & <- & _)|[_ Hx']]; [by apply Hv|].
    by apply (ok_swap _ Ho t').
Qed.

(** Each access, for a thread whose place is known. *)
Ltac sp_arith :=
  intros; subst; repeat case_decide; unfold at_pc_ in *;
  cbn [sh wk at_ owners weak_owners destroyed freed set_thread set_owners set_weak touch
    is_zero is_release_weak is_zero_weak is_locking] in *; lia.

Section steps.
Context (s : sp_state) (t : nat) (x : sp_thread).
Hypotheses (Ho : sp_ok s) (Hx : sps s !! t = Some x) (Hfew : total sh s + total wk s < 2 ^ 60).

Local Lemma facts :
  Z.of_nat (sh x) ≤ total sh s ∧ Z.of_nat (wk x) ≤ total wk s
  ∧ Z.of_nat (at_pc_ is_zero x) ≤ total (at_pc_ is_zero) s
  ∧ Z.of_nat (at_pc_ is_release_weak x) ≤ total (at_pc_ is_release_weak) s
  ∧ Z.of_nat (at_pc_ is_zero_weak x) ≤ total (at_pc_ is_zero_weak) s.
Proof. repeat split; by apply (total_ge _ t). Qed.

Local Lemma owners_small d : -2 ≤ d ≤ 2 → long_wrap (owners s + d) = owners s + d.
Proof.
  intros Hd. apply long_wrap_small. pose proof (ok_owners _ Ho). pose proof (total_nonneg sh s).
  pose proof (total_nonneg wk s). lia.
Qed.

Local Lemma weak_small d : -2 ≤ d ≤ 2 → long_wrap (weak_owners s + d) = weak_owners s + d.
Proof.
  intros Hd. apply long_wrap_small. pose proof (ok_weak _ Ho). pose proof (ok_last _ Ho). pose proof (total_nonneg sh s).
  pose proof (total_nonneg wk s). pose proof (total_nonneg (at_pc_ is_zero) s).
  pose proof (total_nonneg (at_pc_ is_release_weak) s). repeat case_decide; lia.
Qed.

Ltac sp_start :=
  pose proof facts as (? & ? & ? & ? & ?); pose proof (ok_owners _ Ho); pose proof (ok_weak _ Ho);
  pose proof (ok_last _ Ho); pose proof (ok_destroyed _ Ho); pose proof (ok_freed _ Ho);
  pose proof (total_nonneg wk s); pose proof (total_nonneg sh s); pose proof (total_nonneg (at_pc_ is_zero) s);
  pose proof (total_nonneg (at_pc_ is_release_weak) s); pose proof (total_nonneg (at_pc_ is_zero_weak) s).

Lemma add_shared_ok : (0 < sh x + wk x)%nat → (is_locking (at_ x) = true ∨ at_ x = SpIdle) →
  (0 < sh x)%nat ∨ owners s ≠ -1 → sp_ok (add_shared t x s).
Proof.
  intros Hp Hat Hs. destruct (sp_alive s t x Ho Hx ltac:(lia)) as [Hfr Hto]. sp_start.
  unfold add_shared. rewrite Hto, (owners_small 1) by lia.
  apply (sp_ok_step s _ t x (mkSpThread (S (sh x)) (wk x) SpIdle) Ho Hx); [done|apply Ho|done|done|].
  destruct x as [a b p]; destruct p, Hat; try done; sp_arith.
Qed.

Lemma add_weak_ok : (0 < sh x + wk x)%nat → at_ x = SpIdle → sp_ok (add_weak t x s).
Proof.
  intros Hp Hat. destruct (sp_alive s t x Ho Hx ltac:(lia)) as [Hfr Hto]. sp_start.
  unfold add_weak. rewrite Hto, (weak_small 1) by lia.
  apply (sp_ok_step s _ t x (mkSpThread (sh x) (S (wk x)) SpIdle) Ho Hx); [done|apply Ho|done|done|].
  destruct x as [a b p]; cbn in Hat; subst p; sp_arith.
Qed.

Lemma release_shared_ok : (0 < sh x)%nat → at_ x = SpIdle → sp_ok (release_shared t x s).
Proof.
  intros Hp Hat. destruct (sp_alive s t x Ho Hx ltac:(lia)) as [Hfr Hto]. sp_start.
  unfold release_shared. rewrite Hto. replace (owners s - 1) with (owners s + -1) by lia. rewrite (owners_small (-1)) by lia.
  eapply (sp_ok_step s _ t x _ Ho Hx); [done|apply Ho|intros; cbn in *; by case_decide|intros; cbn in *; by case_decide|].
  destruct x as [a b p]; cbn in Hat; subst p. case_decide; sp_arith.
Qed.

Lemma release_weak_ok y :
  at_ x = SpIdle ∧ (0 < wk x)%nat ∧ y = mkSpThread (sh x) (pred (wk x)) SpIdle ∨ at_ x = AtReleaseWeak ∧ y = x →
  sp_ok (release_weak t y s).
Proof.
  intros Hat. destruct (sp_alive s t x Ho Hx) as [Hfr Hto]; [destruct Hat as [(_ & ? & _)|[E _]]; unfold at_pc_; [|rewrite E; cbn]; lia|].
  sp_start. unfold release_weak. rewrite Hto. replace (weak_owners s - 1) with (weak_owners s + -1) by lia.
  rewrite (weak_small (-1)) by lia.
  eapply (sp_ok_step s _ t x _ Ho Hx); [done|apply Ho|intros; cbn in *; by case_decide|intros; cbn in *; by case_decide|].
  destruct x as [a b p]. destruct Hat as [(Hat & ? & ->)|[Hat ->]]; cbn in Hat; subst p; case_decide; sp_arith.
Qed.

Lemma on_zero_shared_ok : at_ x = AtZero → sp_ok (on_zero_shared t x s).
Proof.
  intros Hat. destruct (sp_alive s t x Ho Hx) as [Hfr Hto]; [unfold at_pc_; rewrite Hat; cbn; lia|]. sp_start.
  unfold on_zero_shared. rewrite Hto.
  apply (sp_ok_step s _ t x (mkSpThread (sh x) (wk x) AtReleaseWeak) Ho Hx); [done|apply Ho|done|done|].
  destruct x as [a b p]; cbn in Hat; subst p; sp_arith.
Qed.

Lemma on_zero_shared_weak_ok : at_ x = AtZeroWeak → sp_ok (on_zero_shared_weak t x s).
Proof.
  intros Hat. destruct (sp_alive s t x Ho Hx) as [Hfr Hto]; [unfold at_pc_; rewrite Hat; cbn; lia|]. sp_start.
  unfold on_zero_shared_weak. rewrite Hto.
  apply (sp_ok_step s _ t x (mkSpThread (sh x) (wk x) SpIdle) Ho Hx); [done|apply Ho|done|done|].
  destruct x as [a b p]; cbn in Hat; subst p; sp_arith.
Qed.

Lemma move_ok p : at_ x = SpIdle ∨ is_locking (at_ x) = true → (0 < wk x)%nat →
  p = SpIdle ∨ p = LockRead ∨ (∃ v, p = LockSwap v ∧ v ≠ -1) → sp_ok (set_thread t (mkSpThread (sh x) (wk x) p) (touch s)).
Proof.
  intros Hat Hw Hp. destruct (sp_alive s t x Ho Hx ltac:(lia)) as [Hfr Hto]. sp_start. rewrite Hto.
  apply (sp_ok_step s _ t x (mkSpThread (sh x) (wk x) p) Ho Hx); [done|apply Ho|done| |].
  - intros v. cbn. intros ->. destruct Hp as [?|[?|(v' & [= <-] & ?)]]; done.
  - destruct x as [a b q]. cbn in Hat. assert (is_zero q = false ∧ is_release_weak q = false ∧ is_zero_weak q = false) as (E1 & E2 & E3)
      by (destruct Hat as [->|Hl]; [done|by destruct q]).
    assert (is_zero p = false ∧ is_release_weak p = false ∧ is_zero_weak p = false) as (F1 & F2 & F3)
      by (destruct Hp as [->|[->|(v' & -> & _)]]; done).
    unfold at_pc_. cbn [at_ sh wk]. rewrite E1, E2, E3, F1, F2, F3. sp_arith.
Qed.

End steps.

Lemma sp_ok_same s s' :
  sp_ok s → (∀ f, f = sh ∨ f = wk ∨ (∃ p, f = at_pc_ p) → total f s' = total f s) →
  owners s' = owners s → weak_owners s' = weak_owners s → destroyed s' = destroyed s → freed s' = freed s →
  fault s' = fault s → (∀ t x, sps s' !! t = Some x → is_locking (at_ x) = true → (0 < wk x)%nat) →
  (∀ t x v, sps s' !! t = Some x → at_ x = LockSwap v → v ≠ -1) → sp_ok s'.
Proof.
  intros Ho Ht Hw Hww Hd Hfr Hf Hl Hv. split; try done; rewrite ?Hw, ?Hww, ?Hd, ?Hfr, ?Hf, ?Ht by eauto; apply Ho.
Qed.

Lemma sp_give_ok s t x t' dsh dwk s' :
  sp_ok s → sps s !! t = Some x → at_ x = SpIdle → (dsh ≤ sh x)%nat → (dwk ≤ wk x)%nat →
  sp_give t t' dsh dwk x s = Some s' → sp_ok s'.
Proof.
  intros Ho Hx Hat Hs Hw Hg. unfold sp_give in Hg.
  set (s1 := set_thread t (mkSpThread (sh x - dsh) (wk x - dwk) SpIdle) s) in *.
  destruct (sps s1 !! t') as [y|] eqn:Hy; [|done]. injection Hg as <-.
  assert (Hold : ∀ u z, sps s1 !! u = Some z → at_ z ≠ SpIdle → sps s !! u = Some z).
  { intros u z Hu Hz. cbn in Hu. apply list_lookup_insert_Some in Hu as [(_ & <- & _)|[_ Hu]]; done. }
  apply (sp_ok_same s); try done.
  - intros f Hf. unfold total. cbn [sps set_thread].
    pose proof (sum_insert f (sps s) t x (mkSpThread (sh x - dsh) (wk x - dwk) SpIdle) Hx) as H1.
    pose proof (sum_insert f (sps s1) t' y (mkSpThread (sh y + dsh) (wk y + dwk) (at_ y)) Hy) as H2.
    cbn [sps s1 set_thread] in H2. unfold s1. cbn [sps set_thread].
    destruct Hf as [->|[->|[p ->]]]; unfold at_pc_ in *; cbn [sh wk at_] in *; [lia|lia|rewrite Hat in H1; lia].
  - intros u z Hu. cbn [sps set_thread] in Hu. apply list_lookup_insert_Some in Hu as [(<- & <- & _)|[_ Hu]]; cbn [at_ wk].
    + intros Hl. assert (Hyo : sps s !! t' = Some y) by (apply Hold; [done|by intros E; rewrite E in Hl]).
      pose proof (ok_locking _ Ho t' y Hyo Hl). lia.
    + intros Hl. apply (ok_locking _ Ho u z); [|done]. apply Hold; [done|]. intros E. by rewrite E in Hl.
  - intros u z v Hu. cbn [sps set_thread] in Hu. apply list_lookup_insert_Some in Hu as [(<- & <- & _)|[_ Hu]]; cbn [at_].
    + intros Hv. apply (ok_swap _ Ho t' y); [|done]. apply Hold; [done|]. intros E. by rewrite E in Hv.
    + intros Hv. apply (ok_swap _ Ho u z); [|done]. apply Hold; [done|]. intros E. by rewrite E in Hv.
Qed.

Lemma sp_step_ok s t l s' :
  sp_ok s → total sh s + total wk s < 2 ^ 60 → sp_step t l s = Some s' → sp_ok s'.
Proof.
  intros Ho Hfew Hst. unfold sp_step in Hst. destruct (sps s !! t) as [x|] eqn:Hx; [|done]. cbn [mbind option_bind] in Hst.
  destruct (at_ x) eqn:Hat; destruct l; try done; try (case_decide; [|done]).
  - injection Hst as <-. apply add_shared_ok; auto with lia.
  - injection Hst as <-. by apply release_shared_ok.
  - injection Hst as <-. by apply add_weak_ok.
  - injection Hst as <-. eapply release_weak_ok; eauto.
  - injection Hst as <-. destruct (sp_alive s t x Ho Hx ltac:(lia)) as [_ Hto].
    assert (Hm : sp_ok (set_thread t (mkSpThread (sh x) (wk x) LockRead) (touch s))) by (eapply move_ok; eauto).
    by rewrite Hto in Hm.
  - eapply (sp_give_ok s t x _ 1 0); eauto; lia.
  - eapply (sp_give_ok s t x _ 0 1); eauto; lia.
  - injection Hst as <-. by apply on_zero_shared_ok.
  - injection Hst as <-. eapply release_weak_ok; eauto.
  - injection Hst as <-. by apply on_zero_shared_weak_ok.
  - injection Hst as <-. assert (Hw : (0 < wk x)%nat) by (apply (ok_locking _ Ho t x Hx); by rewrite Hat).
    unfold lock_read. eapply move_ok; eauto; [right; by rewrite Hat|]. case_decide; eauto.
  - injection Hst as <-. assert (Hw : (0 < wk x)%nat) by (apply (ok_locking _ Ho t x Hx); by rewrite Hat).
    assert (Hl : is_locking (at_ x) = true) by by rewrite Hat.
    unfold lock_swap. case_decide as He; [|eapply move_ok; eauto].
    apply add_shared_ok; auto with lia. right. rewrite He. by apply (ok_swap _ Ho t x).
Qed.

Lemma total_replicate {A} (f : A → nat) n x : sum_list_with f (replicate n x) = (n * f x)%nat.
Proof. induction n as [|n IH]; [done|]. cbn [replicate sum_list_with]. rewrite IH. lia. Qed.

Lemma sp_start_ok others : sp_ok (sp_start others).
Proof.
  assert (Ht : ∀ f, total f (sp_start others) = Z.of_nat (f (mkSpThread 1 0 SpIdle) + others * f (mkSpThread 0 0 SpIdle))).
  { intros f. unfold total, sp_start. cbn [sps sum_list_with]. by rewrite total_replicate. }
  assert (Hidle : ∀ t x, sps (sp_start others) !! t = Some x → at_ x = SpIdle).
  { intros [|t] x; cbn; [by intros [= <-]|]. intros Hx. by apply lookup_replicate in Hx as [-> _]. }
  split; rewrite ?Ht; unfold at_pc_; cbn; try (repeat case_decide; lia); try done.
  - intros t x Hx. by rewrite (Hidle t x Hx).
  - intros t x v Hx. by rewrite (Hidle t x Hx).
Qed.

Lemma sp_reach_ok others s : sp_reach others s → sp_ok s.
Proof. induction 1; [apply sp_start_ok|by eapply sp_step_ok]. Qed.

(** ** Properties *)

(** C37: The counts of a shared pointer, for any number of threads in any order: no
    access finds the control block gone; the object is ended once at most, and not
    while there is an owner; the block is freed once at most, and not while there is
    a pointer of either kind, so that a [lock] only makes an owner of an object that
    is there; and when no pointer is left and no thread is on its way, both are gone. *)
Theorem shared_ptr_counted others s :
  sp_reach others s →
  fault s = None ∧ owners s + 1 = total sh s ∧ (destroyed s ≤ 1)%nat ∧ (freed s ≤ destroyed s)%nat
  ∧ (∀ t x, sps s !! t = Some x →
       ((0 < sh x)%nat → destroyed s = O) ∧ ((0 < sh x + wk x)%nat → freed s = O))
  ∧ (Forall (λ x, x = mkSpThread 0 0 SpIdle) (sps s) → destroyed s = 1%nat ∧ freed s = 1%nat).
Proof.
  intros Hr. pose proof (sp_reach_ok _ _ Hr) as Ho.
  pose proof (ok_owners _ Ho); pose proof (ok_weak _ Ho); pose proof (ok_last _ Ho);
  pose proof (ok_destroyed _ Ho); pose proof (ok_freed _ Ho).
  pose proof (total_nonneg wk s); pose proof (total_nonneg sh s); pose proof (total_nonneg (at_pc_ is_zero) s);
  pose proof (total_nonneg (at_pc_ is_release_weak) s); pose proof (total_nonneg (at_pc_ is_zero_weak) s).
  split; [apply Ho|]. split; [done|]. split; [repeat case_decide; lia|]. split; [repeat case_decide; lia|]. split.
  - intros t x Hx. pose proof (total_ge sh t x s Hx). pose proof (total_ge wk t x s Hx).
    split; intros Hp; repeat case_decide; lia.
  - intros Hall. assert (Hz : ∀ f, f (mkSpThread 0 0 SpIdle) = O → total f s = 0).
    { intros f Hf. unfold total. induction Hall as [|x l -> _ IH]; [done|]. cbn. lia. }
    rewrite (Hz (at_pc_ is_zero)), (Hz (at_pc_ is_release_weak)), (Hz (at_pc_ is_zero_weak)), (Hz sh), (Hz wk) in * by done.
    repeat case_decide; lia.
Qed.

Lemma size_wrap_small z : 0 ≤ z < 2 ^ 64 → size_wrap z = z.
Proof. apply wrap_small. Qed.

Lemma land_up k x : 0 ≤ k ≤ 64 → 0 ≤ x < 2 ^ 64 → Z.land x (size_wrap (- 2 ^ k)) = x / 2 ^ k * 2 ^ k.
Proof.
  intros Hk Hx. unfold size_wrap, wrap. rewrite <- Z.land_ones, (Z.land_comm (- 2 ^ k)), Z.land_assoc by lia.
  rewrite (Z.land_ones x), (Z.mod_small x) by lia.
  replace (- 2 ^ k) with (Z.lnot (Z.ones k)) by (unfold Z.lnot; rewrite Z.ones_equiv; lia).
  rewrite <- Z.ldiff_land, Z.ldiff_ones_r by lia. rewrite Z.shiftl_mul_pow2, Z.shiftr_div_pow2 by lia. done.
Qed.

(** [align] to a power of two, in memory that does not reach the end of the address
    space: the first multiple at or after [ptr] if [size] bytes there fit into
    [space], and [space] is what is left from it on; else nothing changes. *)
Theorem align_first k size ptr space :
  0 ≤ k ≤ 63 → 0 ≤ size < 2 ^ 64 → 0 ≤ ptr → 0 ≤ space → ptr + space < 2 ^ 64 →
  let up := (ptr + (2 ^ k - 1)) / 2 ^ k * 2 ^ k in
  ptr ≤ up < ptr + 2 ^ k
  ∧ align (2 ^ k) size ptr space
    = if decide (up + size ≤ ptr + space) then (Some up, (up, space - (up - ptr))) else (None, (ptr, space)).
Proof.
  intros Hk Hsz Hp Hs Hb. cbn zeta.
  assert (Ha : 1 ≤ 2 ^ k ≤ 2 ^ 63) by (split; [lia|apply Z.pow_le_mono_r; lia]).
  pose proof (Z.div_mod (ptr + (2 ^ k - 1)) (2 ^ k) ltac:(lia)) as Hdm.
  pose proof (Z.mod_pos_bound (ptr + (2 ^ k - 1)) (2 ^ k) ltac:(lia)) as Hm.
  set (up := (ptr + (2 ^ k - 1)) / 2 ^ k * 2 ^ k) in *. split; [lia|]. unfold align.
  destruct (size <=? space) eqn:Hle; [|rewrite decide_False by lia; done].
  rewrite (size_wrap_small (2 ^ k - 1)) by lia.
  rewrite (size_wrap_small (space - size)) by lia.
  destruct (decide (ptr + (2 ^ k - 1) < 2 ^ 64)) as [Hf|Hf].
  - rewrite (size_wrap_small (ptr + (2 ^ k - 1))), land_up by lia. fold up.
    rewrite (size_wrap_small (up - ptr)) by lia.
    destruct (up - ptr <=? space - size) eqn:Hd; [rewrite decide_True by lia|rewrite decide_False by lia; done].
    by rewrite (size_wrap_small (space - (up - ptr))) by lia.
  - assert (Hw : size_wrap (ptr + (2 ^ k - 1)) = ptr + (2 ^ k - 1) - 2 ^ 64).
    { unfold size_wrap, wrap. rewrite <- (Z.mod_add _ (-1)) by lia. rewrite Z.mod_small by lia. lia. }
    rewrite Hw, land_up by lia. rewrite (Z.div_small (ptr + (2 ^ k - 1) - 2 ^ 64)) by lia.
    assert (Hd : size_wrap (0 * 2 ^ k - ptr) = 2 ^ 64 - ptr).
    { unfold size_wrap, wrap. rewrite <- (Z.mod_add _ 1) by lia. rewrite Z.mod_small by lia. lia. }
    rewrite Hd. destruct (2 ^ 64 - ptr <=? space - size) eqn:Hx; [lia|]. rewrite decide_False; [done|].
    assert (Hdiv : 2 ^ 64 = 2 ^ (64 - k) * 2 ^ k) by (rewrite <- Z.pow_add_r by lia; f_equal; lia).
    assert (2 ^ (64 - k) ≤ (ptr + (2 ^ k - 1)) / 2 ^ k) by (apply Z.div_le_lower_bound; lia). unfold up. nia.
Qed.

(** The lock of an atomic shared pointer is had by trying, or is waited for after
    seventeen tries. *)
Theorem sp_lock_tries tries :
  ∃ n waited, sp_lock 18 tries 0 0 = Some (n, waited) ∧ (n ≤ 17)%nat
    ∧ (∀ m, (m + 1 < n)%nat → tries m = false)
    ∧ (if waited then n = 17%nat ∧ tries 16%nat = false else tries (pred n) = true).
Proof.
  assert (Hgen : ∀ fuel n, (n + fuel = 18)%nat → (0 < fuel)%nat → (∀ m, (m < n)%nat → tries m = false) → (n ≤ 16)%nat →
    ∃ n' waited, sp_lock fuel tries n (Z.of_nat n) = Some (n', waited) ∧ (n' ≤ 17)%nat
      ∧ (∀ m, (m + 1 < n')%nat → tries m = false)
      ∧ (if waited then n' = 17%nat ∧ tries 16%nat = false else tries (pred n') = true)).
  { induction fuel as [|fuel IH]; intros n Hn Hf Hm Hle; [lia|]. cbn [sp_lock]. destruct (tries n) eqn:Ht.
    - exists (S n), false. split; [done|]. split; [lia|]. split; [intros m Hlt; apply Hm; lia|done].
    - rewrite wrap_small by lia. case_decide.
      + assert (n = 16%nat) as -> by lia. exists 17%nat, true. split; [done|]. split; [lia|].
        split; [intros m Hlt; apply Hm; lia|done].
      + replace (Z.of_nat n + 1) with (Z.of_nat (S n)) by lia. apply IH; [lia|lia| |lia].
        intros m Hlt. destruct (decide (m = n)) as [->|]; [done|apply Hm; lia]. }
  apply (Hgen 18%nat 0%nat); [done|lia|lia|lia].
Qed.

(** ** Witnesses *)

Fixpoint sp_run (ls : list (nat * sp_label)) (s : sp_state) : option sp_state :=
  match ls with
  | [] => Some s
  | (t, l) :: ls' => if decide (total sh s + total wk s < 2 ^ 60) then sp_step t l s ≫= sp_run ls' else None
  end.

Lemma sp_run_reach others ls s s' : sp_reach others s → sp_run ls s = Some s' → sp_reach others s'.
Proof.
  revert s. induction ls as [|[t l] ls IH]; intros s Hr Hs; [by injection Hs as <-|]. cbn in Hs. case_decide; [|done].
  destruct (sp_step t l s) as [s1|] eqn:Hst; [|done]. apply (IH s1); [by eapply sp_reach_step|exact Hs].
Qed.

(** A weak owner is made and given to another thread, which is in [lock] when the
    last owner goes: it gets no owner, and frees the block with its weak owner. *)
Definition last_owner_goes : list (nat * sp_label) :=
  [(0, AddWeak); (0, GiveWeak 1); (1, Lock); (1, Continue); (0, ReleaseShared); (1, Continue); (1, Continue);
   (0, Continue); (0, Continue); (1, ReleaseWeak); (1, Continue)]%nat.

Definition last_end : sp_state :=
  mkSpState (-1) (-1) 1 1 None [mkSpThread 0 0 SpIdle; mkSpThread 0 0 SpIdle].

Lemma last_owner_gone : sp_run last_owner_goes (sp_start 1) = Some last_end.
Proof. by vm_compute. Qed.

Lemma shared_ptr_counted_witness : sp_reach 1 last_end ∧ destroyed last_end = 1%nat ∧ freed last_end = 1%nat.
Proof.
  pose proof (sp_run_reach 1 last_owner_goes _ _ (sp_reach_start 1) last_owner_gone) as Hr.
  split; [exact Hr|]. apply (shared_ptr_counted 1 last_end Hr). by repeat constructor.
Defined.

Lemma align_first_witness : align 16 40 1001 64 = (Some 1008, (1008, 57)) ∧ align 16 60 1001 64 = (None, (1001, 64)).
Proof.
  split; [exact (proj2 (align_first 4 40 1001 64 ltac:(lia) ltac:(lia) ltac:(lia) ltac:(lia) ltac:(lia)))
         |exact (proj2 (align_first 4 60 1001 64 ltac:(lia) ltac:(lia) ltac:(lia) ltac:(lia) ltac:(lia)))].
Defined.
