(* ===== verification/Future.v ===== *)
(** * Future: [future.cpp]

    The state a promise and its futures share, [__assoc_sub_state]: first what is
    behind its mutex, as a monitor ([Monitor]); then the objects that hold it, with
    the count of its owners and the threads that make it ready when they end
    ([thread.cpp]). *)

From S2P Require Import Prelude Bits Monitor SharedPtr.

(** ** The state *)

(** [__constructed], [__future_attached], [ready] and [deferred]. *)
Definition CONSTRUCTED : Z := 1.
Definition FUTURE_ATTACHED : Z := 2.
Definition READY : Z := 4.
Definition DEFERRED : Z := 8.

(** [future_errc], and an exception in the state: a broken promise's or the user's. *)
Inductive future_errc := BrokenPromise | FutureAlreadyRetrieved | PromiseAlreadySatisfied | NoState.
Inductive fexn := FutureError (e : future_errc) | UserExn (n : nat).

#[export] Instance future_errc_eq_dec : EqDecision future_errc.
Proof. solve_decision. Defined.
#[export] Instance fexn_eq_dec : EqDecision fexn.
Proof. solve_decision. Defined.

(** [message] of the category; [None] is any other number. *)
Definition future_message (ev : option future_errc) : bytes :=
  match ev with
  | Some BrokenPromise =>
      str "The associated promise has been destructed prior to the associated state becoming ready."
  | Some FutureAlreadyRetrieved => str "The future has already been retrieved from the promise or packaged_task."
  | Some PromiseAlreadySatisfied => str "The state of the promise has already been set."
  | Some NoState => str "Operation not permitted on an object without an associated state."
  | None => str "unspecified future_errc value" ++ [LF]
  end.

(** [__state_] and [__exception_]. *)
Record assoc := mkAssoc { flags : Z; exception_ : option fexn }.

Definition has_flag (f : Z) (g : assoc) : bool := negb (Z.land (flags g) f =? 0).
Definition or_flags (f : Z) (g : assoc) : assoc := mkAssoc (Z.lor (flags g) f) (exception_ g).
Definition has_value (g : assoc) : bool := has_flag CONSTRUCTED g || bool_decide (exception_ g ≠ None).
Definition is_ready (g : assoc) : bool := has_flag READY g.

(** What threads do under [__mut_], and what comes of it. *)
Inductive fop :=
  | SetValue | SetValueAtExit | SetException (p : fexn) | SetExceptionAtExit (p : fexn)
  | MakeReady | Copy | Wait_ | SetFutureAttached.
Inductive fres := FDone | FThrows (p : fexn).

Definition satisfied : fres := FThrows (FutureError PromiseAlreadySatisfied).

Definition set_value (g : assoc) : assoc * verdict fres :=
  if has_value g then (g, Return satisfied NoNotify true)
  else (or_flags (Z.lor CONSTRUCTED READY) g, Return FDone NotifyAll true).

(** The thread has the state in its list, too. *)
Definition set_value_at_thread_exit (g : assoc) : assoc * verdict fres :=
  if has_value g then (g, Return satisfied NoNotify true)
  else (or_flags CONSTRUCTED g, Return FDone NoNotify true).

Definition set_exception (p : fexn) (g : assoc) : assoc * verdict fres :=
  if has_value g then (g, Return satisfied NoNotify true)
  else (or_flags READY (mkAssoc (flags g) (Some p)), Return FDone NotifyAll false).

Definition set_exception_at_thread_exit (p : fexn) (g : assoc) : assoc * verdict fres :=
  if has_value g then (g, Return satisfied NoNotify true)
  else (mkAssoc (flags g) (Some p), Return FDone NoNotify true).

Definition make_ready (g : assoc) : assoc * verdict fres := (or_flags READY g, Return FDone NotifyAll false).

(** [__sub_wait], with what its caller does when it returns; [__execute] throws
    here. *)
Definition sub_wait (resumed : bool) (k : fres) (g : assoc) : assoc * verdict fres :=
  if is_ready g then (g, Return k NoNotify true)
  else if negb resumed && has_flag DEFERRED g then
    (mkAssoc (Z.land (flags g) (Z.lnot DEFERRED)) (exception_ g), Return (FThrows (FutureError NoState)) NoNotify true)
  else (g, Wait).

Definition copy (resumed : bool) (g : assoc) : assoc * verdict fres :=
  sub_wait resumed (match exception_ g with Some p => FThrows p | None => FDone end) g.
Definition wait (resumed : bool) (g : assoc) : assoc * verdict fres := sub_wait resumed FDone g.

Definition future_body (t : nat) (resumed : bool) (op : fop) (g : assoc) : assoc * verdict fres :=
  match op with
  | SetValue => set_value g
  | SetValueAtExit => set_value_at_thread_exit g
  | SetException p => set_exception p g
  | SetExceptionAtExit p => set_exception_at_thread_exit p g
  | MakeReady => make_ready g
  | Copy => copy resumed g
  | Wait_ => wait resumed g
  | SetFutureAttached => (or_flags FUTURE_ATTACHED g, Return FDone NoNotify true)
  end.

#[export] Instance future_ops : MonitorOps assoc fop fres := { body := future_body; tries _ := None }.

(** The specification: nothing has been set, or something that is not to be seen
    until a thread has ended, or the result. *)
Inductive fspec := Unset | Hidden (r : option fexn) | Shown (r : option fexn).

#[export] Instance fspec_eq_dec : EqDecision fspec.
Proof. solve_decision. Defined.

Definition fres_of (r : option fexn) : fres := match r with Some p => FThrows p | None => FDone end.

#[export] Instance fres_eq_dec : EqDecision fres.
Proof. solve_decision. Defined.

(** Setting. *)
Definition fset (s : fspec) (s' : fspec) (r : fres) : option fspec :=
  match s with
  | Unset => if decide (r = FDone) then Some s' else None
  | _ => if decide (r = satisfied) then Some s else None
  end.

Definition future_spec (s : fspec) (e : nat * fop * fres) : option fspec :=
  let '(t, op, r) := e in
  match op with
  | SetValue => fset s (Shown None) r
  | SetValueAtExit => fset s (Hidden None) r
  | SetException p => fset s (Shown (Some p)) r
  | SetExceptionAtExit p => fset s (Hidden (Some p)) r
  | MakeReady =>
      match s with
      | Hidden v | Shown v => if decide (r = FDone) then Some (Shown v) else None
      | Unset => None
      end
  | Copy => match s with Shown v => if decide (r = fres_of v) then Some s else None | _ => None end
  | Wait_ => match s with Shown v => if decide (r = FDone) then Some s else None | _ => None end
  | SetFutureAttached => if decide (r = FDone) then Some s else None
  end.

(** A thread ends what it has set; no more is needed of the callers. *)
Definition future_allowed (h : list (nat * fop * fres)) (t : nat) (op : fop) : Prop :=
  op = MakeReady → ∃ s, replay future_spec Unset h = Some s ∧ s ≠ Unset.

(** [__future_attached] does not matter to the rest. *)
Definition assoc_is (s : fspec) (g : assoc) : Prop :=
  is_ready g = match s with Shown _ => true | _ => false end
  ∧ has_flag DEFERRED g = false
  ∧ match s with
    | Unset => has_value g = false
    | Hidden None | Shown None => has_flag CONSTRUCTED g = true ∧ exception_ g = None
    | Hidden (Some p) | Shown (Some p) => exception_ g = Some p
    end.

(** ** Lemmas *)

Lemma has_or f f' g : has_flag f (or_flags f' g) = has_flag f g || negb (Z.land f' f =? 0).
Proof.
  unfold has_flag, or_flags. cbn [flags]. rewrite Z.land_lor_distr_l. rewrite <- negb_andb. f_equal.
  apply eq_true_iff_eq. rewrite andb_true_iff, !Z.eqb_eq, Z.lor_eq_0_iff. done.
Qed.

Lemma value_is s g : assoc_is s g → has_value g = bool_decide (s ≠ Unset).
Proof.
  intros (_ & _ & Hv). destruct s as [|v|v].
  - rewrite Hv. by rewrite bool_decide_false by tauto.
  - rewrite bool_decide_true by done. unfold has_value. destruct v as [p|]; [|by destruct Hv as [-> _]].
    rewrite bool_decide_true by congruence. apply orb_true_r.
  - rewrite bool_decide_true by done. unfold has_value. destruct v as [p|]; [|by destruct Hv as [-> _]].
    rewrite bool_decide_true by congruence. apply orb_true_r.
Qed.

Lemma ready_is s g : assoc_is s g → is_ready g = match s with Shown _ => true | _ => false end.
Proof. by intros [? _]. Qed.

Definition future_inv (h : list (nat * fop * fres)) (g : assoc) : Prop :=
  ∃ s, replay future_spec Unset h = Some s ∧ assoc_is s g.

(** What an operation that sets does: refuses, or sets. *)
Lemma fset_keeps s s' g g' g'' (r : fres) n held n' held' :
  assoc_is s g → (s = Unset → assoc_is s' g') →
  (if has_value g then (g, Return satisfied NoNotify true) else (g', Return FDone n held)) = (g'', Return r n' held') →
  ∃ s'', fset s s' r = Some s'' ∧ assoc_is s'' g''.
Proof.
  intros Hs Hs' Hb. rewrite (value_is s g Hs) in Hb. destruct (decide (s = Unset)) as [->|Hne].
  - rewrite bool_decide_false in Hb by tauto. injection Hb as <- <- _ _. exists s'. split; [done|by apply Hs'].
  - rewrite bool_decide_true in Hb by done. injection Hb as <- <- _ _. exists s. split; [|done].
    by destruct s.
Qed.

Lemma shown_is s v g g' :
  assoc_is s g → (s = Hidden v ∨ s = Shown v) → exception_ g' = exception_ g →
  (∀ f, has_flag f g' = has_flag f g || negb (Z.land READY f =? 0)) → assoc_is (Shown v) g'.
Proof.
  intros (Hr & Hd & Hv) Hs He Hf. unfold assoc_is, is_ready. rewrite !Hf, He, Hd. split; [by rewrite orb_true_r|].
  split; [done|]. destruct Hs as [-> | ->], v as [p|]; cbn in *; try done; by destruct Hv as [-> ->].
Qed.

Lemma unset_is g : assoc_is Unset g →
  has_flag READY g = false ∧ has_flag DEFERRED g = false ∧ has_flag CONSTRUCTED g = false ∧ exception_ g = None.
Proof.
  intros (Hr & Hd & Hv). unfold has_value in Hv. apply orb_false_iff in Hv as [Hc He].
  apply bool_decide_eq_false in He. split; [done|]. split; [done|]. split; [done|]. destruct (exception_ g); [|done]. by destruct He.
Qed.

(** What an operation returns, and leaves, is what the specification says. *)
Lemma body_is t resumed op s g g' r n held :
  assoc_is s g → (op = MakeReady → s ≠ Unset) → future_body t resumed op g = (g', Return r n held) →
  ∃ s', future_spec s (t, op, r) = Some s' ∧ assoc_is s' g'.
Proof.
  intros Hs Ha Hb. pose proof (ready_is s g Hs) as Hrd.
  destruct op as [| |p|p| | | |]; cbn [future_spec future_body] in *.
  - eapply (fset_keeps s _ g _ g' r NotifyAll true n held Hs); [|exact Hb]. intros ->. apply unset_is in Hs as (H1 & H2 & H3 & H4).
    unfold assoc_is, is_ready. rewrite !has_or, H2. cbn. rewrite !orb_true_r. by rewrite H4.
  - eapply (fset_keeps s _ g _ g' r NoNotify true n held Hs); [|exact Hb]. intros ->. apply unset_is in Hs as (H1 & H2 & H3 & H4).
    unfold assoc_is, is_ready. rewrite !has_or, H2, H1. cbn. rewrite orb_true_r. by rewrite H4.
  - eapply (fset_keeps s _ g _ g' r NotifyAll false n held Hs); [|exact Hb]. intros ->. apply unset_is in Hs as (H1 & H2 & H3 & H4).
    unfold assoc_is, is_ready. rewrite !has_or. unfold has_flag in *. cbn [flags] in *. rewrite H2. by rewrite orb_true_r.
  - eapply (fset_keeps s _ g _ g' r NoNotify true n held Hs); [|exact Hb]. intros ->. by apply unset_is in Hs as (H1 & H2 & H3 & H4).
  - injection Hb as <- <- _ _. assert (∃ v, s = Hidden v ∨ s = Shown v) as (v & Hv') by (destruct s; [by destruct Ha|eauto|eauto]).
    exists (Shown v). split; [by destruct Hv' as [-> | ->]|]. eapply shown_is; [done|done|done|]. intros f. apply has_or.
  - unfold copy, sub_wait in Hb. rewrite Hrd in Hb. destruct Hs as (H1 & H2 & H3). rewrite H2, andb_false_r in Hb.
    destruct s as [|v|v]; simplify_eq. exists (Shown v). split; [|done]. rewrite decide_True; [done|].
    destruct v as [p|]; [by rewrite H3|by destruct H3 as [_ ->]].
  - unfold wait, sub_wait in Hb. rewrite Hrd in Hb. destruct Hs as (H1 & H2 & H3). rewrite H2, andb_false_r in Hb.
    destruct s as [|v|v]; simplify_eq. by exists (Shown v).
  - injection Hb as <- <- _ _. exists s. split; [done|]. destruct Hs as (H1 & H2 & H3).
    unfold assoc_is, is_ready, has_value in *. rewrite !has_or, H2. cbn [FUTURE_ATTACHED READY DEFERRED CONSTRUCTED].
    rewrite !orb_false_r. done.
Qed.

(** What has been set stays set. *)
Lemma spec_set s e s' : future_spec s e = Some s' → s ≠ Unset → s' ≠ Unset.
Proof. destruct e as [[t op] r]. intros Hst Hs. destruct s, op; cbn in Hst; repeat case_decide; by simplify_eq. Qed.

Lemma future_keeps : monitor_keeps future_allowed future_inv.
Proof.
  split.
  - intros h t op t' op' r g Hne Ha (s' & Hs & _) ->. destruct (Ha eq_refl) as (s & Hr & Hset). exists s'. split; [done|].
    destruct (replay_snoc_Some _ _ _ _ _ Hs) as (s0 & H0 & Hst). rewrite Hr in H0. injection H0 as <-. by eapply spec_set.
  - intros h g t resumed op g' (s & Hr & Hs) _ Hb. exists s. split; [done|].
    destruct op; cbn in Hb; unfold set_value, set_value_at_thread_exit, set_exception, set_exception_at_thread_exit,
      make_ready, copy, wait, sub_wait in Hb; repeat case_match; by simplify_eq.
  - intros h g t resumed op g' r n held (s & Hr & Hs) Ha Hb. unfold future_inv. rewrite replay_snoc, Hr.
    eapply body_is; [done| |exact Hb]. intros Hop. destruct (Ha Hop) as (s0 & H0 & Hset). congruence.
  - by intros.
Qed.

(** Who waits waits for it to be ready; who makes it ready wakes all. *)
Definition future_blocked (t : nat) (op : fop) (g : assoc) : Prop := is_ready g = false.

Lemma ready_or f g : Z.land f READY = 0 → is_ready (or_flags f g) = is_ready g.
Proof. intros Hf. unfold is_ready. rewrite has_or, Hf. apply orb_false_r. Qed.

Lemma ready_undeferred g e : is_ready (mkAssoc (Z.land (flags g) (Z.lnot DEFERRED)) e) = is_ready g.
Proof. unfold is_ready, has_flag. cbn [flags]. by rewrite <- Z.land_assoc. Qed.

Lemma sub_wait_blocked resumed k g :
  match sub_wait resumed k g with
  | (g', Wait) => g' = g ∧ is_ready g = false
  | (g', Return _ _ _) => is_ready g' = is_ready g
  end.
Proof.
  unfold sub_wait. destruct (is_ready g) eqn:Hr; [done|].
  destruct (negb resumed && has_flag DEFERRED g); [by rewrite ready_undeferred|done].
Qed.

Lemma future_broadcasts : broadcasts future_blocked.
Proof.
  split.
  - intros t resumed op g g' Hb. pose proof (sub_wait_blocked resumed FDone g) as H1.
    pose proof (sub_wait_blocked resumed (match exception_ g with Some p => FThrows p | None => FDone end) g) as H2.
    destruct op; cbn in Hb; unfold set_value, set_value_at_thread_exit, set_exception, set_exception_at_thread_exit in Hb;
      try (by destruct (has_value g); simplify_eq); try done; unfold copy, wait in Hb; [rewrite Hb in H2|rewrite Hb in H1]; done.
  - intros t resumed op g g' r n held Hb. pose proof (sub_wait_blocked resumed FDone g) as H1.
    pose proof (sub_wait_blocked resumed (match exception_ g with Some p => FThrows p | None => FDone end) g) as H2.
    unfold future_blocked.
    destruct op; cbn in Hb; unfold set_value, set_value_at_thread_exit, set_exception, set_exception_at_thread_exit, make_ready in Hb.
    + destruct (has_value g); simplify_eq; auto.
    + right. destruct (has_value g); simplify_eq; [done|]. by rewrite ready_or.
    + destruct (has_value g); simplify_eq; auto.
    + right. by destruct (has_value g); simplify_eq.
    + simplify_eq. auto.
    + right. unfold copy in Hb. rewrite Hb in H2. by rewrite H2.
    + right. unfold wait in Hb. rewrite Hb in H1. by rewrite H1.
    + right. simplify_eq. by rewrite ready_or.
Qed.

(** How often something has been set. *)
Definition sets_it (op : fop) : bool :=
  match op with SetValue | SetValueAtExit | SetException _ | SetExceptionAtExit _ => true | _ => false end.
Definition sets (h : list (nat * fop * fres)) : nat :=
  length (filter (λ e, sets_it e.1.2 = true ∧ e.2 = FDone) h).

Lemma sets_once h s : replay future_spec Unset h = Some s → sets h = if decide (s = Unset) then O else 1%nat.
Proof.
  revert s. induction h as [|e h IH] using rev_ind; intros s Hr; [by injection Hr as <-|].
  destruct (replay_snoc_Some _ _ _ _ _ Hr) as (s0 & H0 & Hst). specialize (IH s0 H0).
  unfold sets in *. rewrite filter_app, length_app, IH. destruct e as [[t op] r]. clear IH Hr H0.
  rewrite filter_cons, filter_nil. cbn [fst snd].
  destruct op, s0; cbn in Hst; unfold fset in Hst; repeat case_decide; simplify_eq; cbn; try done; naive_solver.
Qed.

(** ** The objects that hold the state *)

(** The state, [__shared_owners_] and how often it has been deleted; whether the
    promise holds it, how many futures do, and how many threads are to make it ready
    when they end. *)
Record life := mkLife {
  f_state : assoc; f_count : Z; f_freed : nat; f_promise : bool; f_futures : nat; f_exits : nat }.

Definition life_start : life := mkLife (mkAssoc 0 None) 0 0 true 0 0.

Inductive life_op :=
  | GetFuture | Get | DropFuture | CopyFuture | AssignFuture (lhs rhs : bool)
  | PromiseSet (op : fop) | DropPromise | ThreadExit.

(** What comes of it; [None] is a use of the state when it has been deleted. *)
Definition life_res : Type := option fres.

Definition with_state (g : assoc) (l : life) : life :=
  mkLife g (f_count l) (f_freed l) (f_promise l) (f_futures l) (f_exits l).
Definition holders (p : bool) (n e : nat) (l : life) : life :=
  mkLife (f_state l) (f_count l) (f_freed l) p n e.
Definition add_owner (l : life) : life :=
  mkLife (f_state l) (long_wrap (f_count l + 1)) (f_freed l) (f_promise l) (f_futures l) (f_exits l).
Definition release_owner (l : life) : life :=
  let z := long_wrap (f_count l - 1) in
  mkLife (f_state l) z (if decide (z = -1) then S (f_freed l) else f_freed l) (f_promise l) (f_futures l) (f_exits l).
Definition use_count (l : life) : Z := f_count l + 1.

(** An operation on the state by one that does not wait. *)
Definition state_op (op : fop) (l : life) : option (fres * life) :=
  match future_body 0 false op (f_state l) with
  | (g, Return r _ _) => Some (r, with_state g l)
  | (_, Wait) => None
  end.

(** The four functions of the promise, which look for the state first; those with
    [_at_thread_exit] have it put in the thread's list. *)
Definition promise_set (op : fop) (l : life) : option (fres * life) :=
  if f_promise l then
    match state_op op l with
    | Some (FDone, l') =>
        match op with
        | SetValueAtExit | SetExceptionAtExit _ =>
            Some (FDone, holders (f_promise l') (f_futures l') (S (f_exits l')) (add_owner l'))
        | _ => Some (FDone, l')
        end
    | o => o
    end
  else Some (FThrows (FutureError NoState), l).

Definition get_future (l : life) : option (fres * life) :=
  if f_promise l then
    if has_flag FUTURE_ATTACHED (f_state l) then Some (FThrows (FutureError FutureAlreadyRetrieved), l)
    else
      match state_op SetFutureAttached (add_owner l) with
      | Some (r, l') => Some (r, holders (f_promise l') (S (f_futures l')) (f_exits l') l')
      | None => None
      end
  else Some (FThrows (FutureError NoState), l).

(** [future<void>::get]: the future gives the state up, whatever comes of it. *)
Definition future_get (l : life) : option (fres * life) :=
  match state_op Copy (holders (f_promise l) (pred (f_futures l)) (f_exits l) l) with
  | Some (r, l') => Some (r, release_owner l')
  | None => None
  end.

Definition drop_promise (l : life) : option (fres * life) :=
  let o :=
    if negb (has_value (f_state l)) && (1 <? use_count l)
    then state_op (SetException (FutureError BrokenPromise)) l else Some (FDone, l) in
  match o with
  | Some (_, l') => Some (FDone, holders false (f_futures l') (f_exits l') (release_owner l'))
  | None => None
  end.

(** [~__thread_struct_imp], for one state of its list. *)
Definition thread_exit (l : life) : option (fres * life) :=
  match state_op MakeReady l with
  | Some (_, l') => Some (FDone, holders (f_promise l') (f_futures l') (pred (f_exits l')) (release_owner l'))
  | None => None
  end.

(** [shared_future]'s assignment, between one that has this state ([lhs]) or not and
    one that has it ([rhs]) or not. *)
Definition assign_future (lhs rhs : bool) (l : life) : life :=
  let l1 := if rhs then add_owner l else l in
  let l2 := if lhs then release_owner l1 else l1 in
  holders (f_promise l2) (f_futures l2 + (if rhs then 1 else 0) - (if lhs then 1 else 0)) (f_exits l2) l2.

(** [None] where there is no object that holds the state, or it waits; a promise
    without it is one that was moved from. *)
Definition life_step (op : life_op) (l : life) : option (life_res * life) :=
  let result (o : option (fres * life)) : option (life_res * life) := prod_map Some id <$> o in
  let use (b : bool) (o : option (fres * life)) :=
    if b then if decide (f_freed l = O) then result o else Some (None, l) else None in
  match op with
  | GetFuture => if f_promise l then use true (get_future l) else result (get_future l)
  | PromiseSet op' =>
      if sets_it op' then if f_promise l then use true (promise_set op' l) else result (promise_set op' l) else None
  | DropPromise => use (f_promise l) (drop_promise l)
  | Get => use (0 <? f_futures l)%nat (future_get l)
  | DropFuture =>
      use (0 <? f_futures l)%nat
        (Some (FDone, release_owner (holders (f_promise l) (pred (f_futures l)) (f_exits l) l)))
  | CopyFuture => use (0 <? f_futures l)%nat (Some (FDone, holders (f_promise l) (S (f_futures l)) (f_exits l) (add_owner l)))
  | AssignFuture lhs rhs => use ((0 <? f_futures l)%nat && (lhs || rhs)) (Some (FDone, assign_future lhs rhs l))
  | ThreadExit => use (0 <? f_exits l)%nat (thread_exit l)
  end.

(** The objects in any order, whatever the threads; they take memory. *)
Inductive life_reach : life → Prop :=
  | life_reach_start : life_reach life_start
  | life_reach_step l op r l' :
      life_reach l → Z.of_nat (f_futures l + f_exits l) < 2 ^ 60 → life_step op l = Some (r, l') → life_reach l'.

Definition holding (l : life) : Z := (if f_promise l then 1 else 0) + Z.of_nat (f_futures l + f_exits l).

(** What holds of the objects, with what the state stands for. *)
Record life_ok (s : fspec) (l : life) : Prop := {
  lo_state : assoc_is s (f_state l);
  lo_count : f_count l + 1 = holding l;
  lo_freed : f_freed l = if decide (f_count l = -1) then 1%nat else O;
  lo_exits : (0 < f_exits l)%nat → s ≠ Unset;
  lo_hidden v : s = Hidden v → (0 < f_exits l)%nat;
  lo_kept : f_promise l = false → (0 < f_futures l)%nat → s ≠ Unset }.

Lemma state_op_ok s op l r l' :
  assoc_is s (f_state l) → (op = MakeReady → s ≠ Unset) → state_op op l = Some (r, l') →
  ∃ s', future_spec s (O, op, r) = Some s' ∧ l' = with_state (f_state l') l ∧ assoc_is s' (f_state l').
Proof.
  intros Hs Ha Hst. unfold state_op in Hst. destruct (future_body 0 false op (f_state l)) as [g [|r0 n held]] eqn:Hb; [done|].
  injection Hst as -> <-. destruct (body_is _ _ _ _ _ _ _ _ _ Hs Ha Hb) as (s' & Hsp & Hs'). by exists s'.
Qed.

Lemma holders_ok s p n e l :
  assoc_is s (f_state l) → f_count l + 1 = (if p : bool then 1 else 0) + Z.of_nat (n + e) →
  f_freed l = (if decide (f_count l = -1) then 1%nat else O) → ((0 < e)%nat → s ≠ Unset) →
  (∀ v, s = Hidden v → (0 < e)%nat) → (p = false → (0 < n)%nat → s ≠ Unset) → life_ok s (holders p n e l).
Proof. intros. by split. Qed.

Section step.
Context (s : fspec) (l : life) (Ho : life_ok s l) (Hfew : Z.of_nat (f_futures l + f_exits l) < 2 ^ 60).

Local Lemma wrap_count d : -2 ≤ d ≤ 2 → long_wrap (f_count l + d) = f_count l + d.
Proof. intros Hd. apply long_wrap_small. pose proof (lo_count _ _ Ho). unfold holding in *. destruct (f_promise l); lia. Qed.

Local Lemma alive : (f_promise l = true ∨ 0 < f_futures l ∨ 0 < f_exits l)%nat → f_freed l = O.
Proof.
  intros Hp. rewrite (lo_freed _ _ Ho), decide_False; [done|]. pose proof (lo_count _ _ Ho). unfold holding in *.
  destruct (f_promise l), Hp as [?|[?|?]]; try done; lia.
Qed.

Lemma released_life l' : f_count l' = f_count l → f_freed l' = O → f_count l ≠ -1 →
  f_count (release_owner l') = f_count l - 1
  ∧ f_freed (release_owner l') = (if decide (f_count l - 1 = -1) then 1%nat else O)
  ∧ f_state (release_owner l') = f_state l'.
Proof.
  intros Hc Hf Hn. unfold release_owner. cbn [f_count f_freed f_state]. rewrite Hc.
  replace (f_count l - 1) with (f_count l + -1) by lia. rewrite wrap_count by lia. rewrite Hf. done.
Qed.

Local Lemma count_eq : f_count l + 1 = (if f_promise l then 1 else 0) + Z.of_nat (f_futures l + f_exits l).
Proof. apply (lo_count _ _ Ho). Qed.

(** One owner fewer, whose object is accounted for. *)
Lemma release_ok s' g p n e :
  assoc_is s' g → (f_promise l = true ∨ 0 < f_futures l ∨ 0 < f_exits l)%nat →
  f_count l = (if p : bool then 1 else 0) + Z.of_nat (n + e) →
  ((0 < e)%nat → s' ≠ Unset) → (∀ v, s' = Hidden v → (0 < e)%nat) → (p = false → (0 < n)%nat → s' ≠ Unset) →
  ∀ a b c, life_ok s' (holders p n e (release_owner (mkLife g (f_count l) (f_freed l) a b c))).
Proof.
  intros Hs Hp Hc H1 H2 H3 a b c. pose proof count_eq as Hcount.
  assert (Hn : f_count l ≠ -1) by (destruct (f_promise l), Hp as [?|[?|?]]; try done; lia).
  destruct (released_life (mkLife g (f_count l) (f_freed l) a b c) eq_refl (alive Hp) Hn) as (Hc' & Hf' & Hg').
  apply holders_ok; rewrite ?Hc', ?Hf', ?Hg'; try done. lia.
Qed.

(** One owner more. *)
Lemma add_ok s' g p n e :
  assoc_is s' g → (f_promise l = true ∨ 0 < f_futures l ∨ 0 < f_exits l)%nat →
  f_count l + 2 = (if p : bool then 1 else 0) + Z.of_nat (n + e) →
  ((0 < e)%nat → s' ≠ Unset) → (∀ v, s' = Hidden v → (0 < e)%nat) → (p = false → (0 < n)%nat → s' ≠ Unset) →
  ∀ a b c, life_ok s' (holders p n e (add_owner (mkLife g (f_count l) (f_freed l) a b c))).
Proof.
  intros Hs Hp Hc H1 H2 H3 a b c. pose proof count_eq as Hcount. pose proof (alive Hp) as Hf.
  apply holders_ok; cbn [f_state f_count f_freed add_owner]; try done; rewrite (wrap_count 1) by lia; [lia|].
  rewrite Hf, decide_False; [done|]. destruct (f_promise l), Hp as [?|[?|?]]; try done; lia.
Qed.

Lemma promise_set_ok op r l' :
  f_promise l = true → sets_it op = true → promise_set op l = Some (r, l') → ∃ s', life_ok s' l'.
Proof.
  intros Hp Hop Hst. unfold promise_set in Hst. rewrite Hp in Hst. pose proof count_eq as Hc. rewrite Hp in Hc.
  destruct (state_op op l) as [[r0 l0]|] eqn:Hso; [|done].
  destruct (state_op_ok s op l r0 l0) as (s' & Hsp & Hl0 & Hs'); [apply Ho|by intros ->|done|].
  assert (Hset : s ≠ Unset → s' ≠ Unset) by by eapply spec_set.
  assert (Hsame : r0 ≠ FDone → s' = s).
  { intros Hr. destruct op; try done; cbn in Hsp; unfold fset in Hsp; destruct s; case_decide; by simplify_eq. }
  assert (Hkeep : (∀ v, s' = Hidden v → (0 < f_exits l)%nat) → life_ok s' l0).
  { intros Hh. rewrite Hl0. split; try done; try apply Ho.
    - intros He. by apply Hset, (lo_exits _ _ Ho).
    - intros Hf He. by apply Hset, (lo_kept _ _ Ho). }
  destruct r0 as [|p].
  - assert (Hnew : s' ≠ Unset ∧ ((∃ v, s' = Hidden v) → op = SetValueAtExit ∨ ∃ p, op = SetExceptionAtExit p)).
    { destruct op; try done; cbn in Hsp; unfold fset in Hsp; destruct s; case_decide; simplify_eq;
        (split; [done|intros [v Hv]; try done; eauto]). }
    destruct Hnew as [Hn Hh].
    assert (Hadd : ∃ s'', life_ok s'' (holders (f_promise l0) (f_futures l0) (S (f_exits l0)) (add_owner l0))).
    { exists s'. rewrite Hl0. unfold with_state. cbn [f_promise f_futures f_exits]. rewrite Hp.
      apply add_ok; try done; [by left|lia|lia]. }
    destruct op; try done; simplify_eq; try exact Hadd; (exists s'; apply Hkeep; intros v ->);
      destruct (Hh (ex_intro _ v eq_refl)) as [?|[? ?]]; done.
  - simplify_eq. exists s'. apply Hkeep. rewrite Hsame by done. apply Ho.
Qed.
Lemma get_future_ok r l' : f_promise l = true → get_future l = Some (r, l') → ∃ s', life_ok s' l'.
Proof.
  intros Hp Hst. unfold get_future in Hst. rewrite Hp in Hst. pose proof count_eq as Hc. rewrite Hp in Hc.
  destruct (has_flag FUTURE_ATTACHED (f_state l)); [simplify_eq; by exists s|].
  destruct (state_op SetFutureAttached (add_owner l)) as [[r0 l0]|] eqn:Hso; [|done]. injection Hst as -> <-.
  destruct (state_op_ok s SetFutureAttached (add_owner l) r l0) as (s' & Hsp & Hl0 & Hs'); [apply Ho|done|done|].
  cbn in Hsp. case_decide; [|done]. injection Hsp as <-. exists s. rewrite Hl0. cbn. rewrite Hp.
  exact (add_ok s (f_state l0) true (S (f_futures l)) (f_exits l) Hs' (or_introl Hp) ltac:(lia) (lo_exits _ _ Ho)
    (lo_hidden _ _ Ho) ltac:(done) (f_promise l) (f_futures l) (f_exits l)).
Qed.

Lemma unset_alone : f_promise l = true → s = Unset → (1 <? use_count l) = false → f_futures l = O ∧ f_exits l = O.
Proof.
  intros Hp Hu Hc. pose proof count_eq as Hcount. rewrite Hp in Hcount. apply Z.ltb_ge in Hc. unfold use_count in Hc. lia.
Qed.

Lemma drop_promise_ok r l' : f_promise l = true → drop_promise l = Some (r, l') → ∃ s', life_ok s' l'.
Proof.
  intros Hp Hst. unfold drop_promise in Hst. rewrite (value_is s) in Hst by apply Ho.
  pose proof count_eq as Hc. rewrite Hp in Hc.
  destruct (negb (bool_decide (s ≠ Unset)) && (1 <? use_count l)) eqn:Hb.
  - apply andb_prop in Hb as [Hb _]. apply negb_true_iff, bool_decide_eq_false in Hb.
    assert (s = Unset) as Hu by (destruct s; [done| |]; by destruct Hb).
    destruct (state_op _ l) as [[r0 l0]|] eqn:Hso; [|done]. injection Hst as <- <-.
    destruct (state_op_ok s (SetException (FutureError BrokenPromise)) l r0 l0) as (s' & Hsp & Hl0 & Hs'); [apply Ho|done|done|].
    cbn in Hsp. rewrite Hu in Hsp. unfold fset in Hsp. case_decide; [|done]. injection Hsp as <-.
    eexists. rewrite Hl0. unfold with_state. cbn [f_promise f_futures f_exits].
    apply release_ok; [exact Hs'|by left|lia|done|done|done].
  - injection Hst as <- <-. exists s. replace l with (mkLife (f_state l) (f_count l) (f_freed l) (f_promise l) (f_futures l) (f_exits l))
      at 3 by (by destruct l). cbn [f_futures f_exits].
    apply release_ok; [apply Ho|by left|lia|apply Ho|apply Ho|].
    intros _ Hn Hu. apply andb_false_iff in Hb as [Hb|Hb].
    + apply negb_false_iff, bool_decide_eq_true in Hb. done.
    + destruct (unset_alone Hp Hu Hb). lia.
Qed.

Lemma thread_exit_ok r l' : (0 < f_exits l)%nat → thread_exit l = Some (r, l') → ∃ s', life_ok s' l'.
Proof.
  intros He Hst. unfold thread_exit in Hst. pose proof count_eq as Hc. pose proof (lo_exits _ _ Ho He) as Hn.
  destruct (state_op _ l) as [[r0 l0]|] eqn:Hso; [|done]. injection Hst as <- <-.
  destruct (state_op_ok s MakeReady l r0 l0) as (s' & Hsp & Hl0 & Hs'); [apply Ho|done|done|].
  assert (Hsh : ∃ v, s' = Shown v) by (cbn in Hsp; destruct s; try done; case_decide; simplify_eq; eauto).
  destruct Hsh as [v ->]. eexists. rewrite Hl0. unfold with_state. cbn [f_promise f_futures f_exits].
  apply release_ok; [exact Hs'|by right; right|lia|done|done|done].
Qed.

Lemma future_get_ok r l' : (0 < f_futures l)%nat → future_get l = Some (r, l') → ∃ s', life_ok s' l'.
Proof.
  intros Hf Hst. unfold future_get in Hst. pose proof count_eq as Hc.
  destruct (state_op _ _) as [[r0 l0]|] eqn:Hso; [|done]. injection Hst as -> <-.
  destruct (state_op_ok s Copy (holders (f_promise l) (pred (f_futures l)) (f_exits l) l) r l0)
    as (s' & Hsp & Hl0 & Hs'); [apply Ho|done|exact Hso|].
  assert (∃ v, s = Shown v ∧ s' = Shown v) as (v & Es & ->)
    by (cbn in Hsp; destruct s; try done; case_decide; simplify_eq; eauto).
  exists (Shown v). rewrite Hl0. unfold with_state. cbn [holders f_count f_freed f_promise f_futures f_exits].
  exact (release_ok (Shown v) (f_state l0) (f_promise l) (pred (f_futures l)) (f_exits l) Hs' (or_intror (or_introl Hf))
    ltac:(lia) ltac:(done) ltac:(done) ltac:(done) (f_promise l) (pred (f_futures l)) (f_exits l)).
Qed.

Lemma assign_ok lhs rhs : (0 < f_futures l)%nat → lhs || rhs = true → ∃ s', life_ok s' (assign_future lhs rhs l).
Proof.
  intros Hf Hlr. pose proof count_eq as Hc. pose proof (alive (or_intror (or_introl Hf))) as Hfr. exists s.
  assert (Hkept : ∀ n, f_promise l = false → (0 < n)%nat → s ≠ Unset) by (intros n Hp _; by apply (lo_kept _ _ Ho)).
  unfold assign_future. destruct lhs, rhs; try done; apply holders_ok;
    cbn [add_owner release_owner f_state f_count f_freed f_promise f_futures f_exits]; try apply Ho; try apply Hkept;
    rewrite ?(wrap_count 1) by lia; replace (f_count l + 1 - 1) with (f_count l + 0) by lia;
    replace (f_count l - 1) with (f_count l + -1) by lia; rewrite ?wrap_count by lia; rewrite ?Hfr;
    destruct (f_promise l); try lia; repeat case_decide; lia.
Qed.
End step.

Lemma with_result (o : option (fres * life)) r l' :
  prod_map Some id <$> o = Some (r : life_res, l') → ∃ r', r = Some r' ∧ o = Some (r', l').
Proof. destruct o as [[r0 l0]|]; [|done]. intros [= <- <-]. by exists r0. Qed.

Lemma life_step_ok s l op r l' :
  life_ok s l → Z.of_nat (f_futures l + f_exits l) < 2 ^ 60 → life_step op l = Some (r, l') →
  r ≠ None ∧ ∃ s', life_ok s' l'.
Proof.
  intros Ho Hfew Hst. pose proof (alive s l Ho) as Hal.
  assert (Huse : ∀ (b : bool) (o : option (fres * life)),
    (if b then if decide (f_freed l = O) then prod_map Some id <$> o else Some (None, l) else None) = Some (r, l') →
    (b = true → f_promise l = true ∨ 0 < f_futures l ∨ 0 < f_exits l)%nat →
    (∀ r', b = true → o = Some (r', l') → ∃ s', life_ok s' l') → r ≠ None ∧ ∃ s', life_ok s' l').
  { intros [] o Hres Hb Hk; [|done]. rewrite decide_True in Hres by by apply Hal, Hb.
    apply with_result in Hres as (r' & -> & Hres). split; [done|]. by eapply Hk. }
  assert (Hlost : ∀ o, prod_map Some id <$> o = Some (r : life_res, l') → o = Some (FThrows (FutureError NoState), l) →
    r ≠ None ∧ ∃ s', life_ok s' l').
  { intros o Hres ->. injection Hres as <- <-. split; [done|]. by exists s. }
  unfold life_step in Hst. destruct op as [| | | |lhs rhs|op| |].
  - destruct (f_promise l) eqn:Hp.
    + apply (Huse true (get_future l) Hst); [by left|]. intros r' _. by apply (get_future_ok s).
    + apply (Hlost _ Hst). unfold get_future. by rewrite Hp.
  - apply (Huse _ _ Hst); [intros Hb%Nat.ltb_lt; right; left; lia|]. intros r' Hb%Nat.ltb_lt. apply (future_get_ok s); [done|done|lia].
  - apply (Huse _ _ Hst); [intros Hb%Nat.ltb_lt; right; left; lia|]. intros r' Hb%Nat.ltb_lt [= _ <-]. exists s.
    pose proof (count_eq s l Ho). apply (release_ok s l Ho Hfew s (f_state l) (f_promise l) (pred (f_futures l)) (f_exits l));
      [apply Ho|right; left; lia|lia|apply Ho|apply Ho|]. intros Hp _. apply (lo_kept _ _ Ho Hp). lia.
  - apply (Huse _ _ Hst); [intros Hb%Nat.ltb_lt; right; left; lia|]. intros r' Hb%Nat.ltb_lt [= _ <-]. exists s.
    pose proof (count_eq s l Ho). apply (add_ok s l Ho Hfew s (f_state l) (f_promise l) (S (f_futures l)) (f_exits l));
      [apply Ho|right; left; lia|lia|apply Ho|apply Ho|]. intros Hp _. apply (lo_kept _ _ Ho Hp). lia.
  - apply (Huse _ _ Hst); [intros [Hb%Nat.ltb_lt _]%andb_prop; right; left; lia|]. intros r' [Hb%Nat.ltb_lt Hlr]%andb_prop [= _ <-].
    apply (assign_ok s); [done|done|lia|done].
  - destruct (sets_it op) eqn:Hop; [|done]. destruct (f_promise l) eqn:Hp.
    + apply (Huse true _ Hst); [by left|]. intros r' _. by apply (promise_set_ok s).
    + apply (Hlost _ Hst). unfold promise_set. by rewrite Hp.
  - apply (Huse _ _ Hst); [intros Hp; by left|]. intros r0 Hp. by apply (drop_promise_ok s).
  - apply (Huse _ _ Hst); [intros Hb%Nat.ltb_lt; right; right; lia|]. intros r' Hb%Nat.ltb_lt. apply (thread_exit_ok s); [done|done|lia].
Qed.

Lemma life_start_ok : life_ok Unset life_start.
Proof. split; try done; cbn; lia. Qed.

Lemma life_reach_ok l : life_reach l → ∃ s, life_ok s l.
Proof.
  induction 1 as [|l op r l' _ [s Ho] Hf Hst]; [exists Unset; apply life_start_ok|]. by eapply life_step_ok.
Qed.

(** ** Properties *)

(** The state of a future, whatever threads use it: it is set once, and what it is
    set to is what every reader gets, none of them before it is ready; a second
    setting throws.  A thread waits only while it is not ready, or its signal is on
    the way. *)
Theorem future_set_once (m : monitor assoc fop fres) :
  mreach future_allowed (mkAssoc 0 None) m →
  ∃ s, replay future_spec Unset (log m) = Some s ∧ assoc_is s (shared m)
    ∧ sets (log m) = (if decide (s = Unset) then O else 1%nat)
    ∧ ∀ t, is_asleep (pcs m t) = true → (∀ v, s ≠ Shown v) ∨ can_go m.
Proof.
  intros Hr. destruct (mreach_keeps _ _ future_keeps (mkAssoc 0 None) m) as [(s & Hs & Hg) _]; [by exists Unset|done|].
  exists s. split; [done|]. split; [done|]. split; [by apply sets_once|]. intros t Ha.
  destruct (pcs m t) as [| | |op| | |] eqn:Hpc; try done.
  destruct (mreach_wakeup _ _ future_broadcasts (mkAssoc 0 None) m Hr t op Hpc) as [Hb|(t' & held & Hp)].
  - left. intros v ->. unfold future_blocked in Hb. by rewrite (ready_is _ _ Hg) in Hb.
  - right. apply (runnable_goes _ (mkAssoc 0 None) m t' Hr). by rewrite Hp.
Qed.

(** C38: A promise and its futures: the state is deleted once, when nobody holds it, and
    not used after; a promise that goes unset while there is a future breaks, and
    when the promise is gone and no thread is to make it ready, every future gets
    what was set. *)
Theorem promise_kept l :
  life_reach l → Z.of_nat (f_futures l + f_exits l) < 2 ^ 60 →
  (∀ op l', life_step op l ≠ Some (None, l'))
  ∧ f_freed l = (if decide (holding l = 0) then 1%nat else O)
  ∧ (f_promise l = true → has_value (f_state l) = false → (0 < f_futures l)%nat →
     ∃ l', life_step DropPromise l = Some (Some FDone, l')
       ∧ assoc_is (Shown (Some (FutureError BrokenPromise))) (f_state l'))
  ∧ (f_promise l = false → f_exits l = O → (0 < f_futures l)%nat →
     ∃ v l', assoc_is (Shown v) (f_state l) ∧ life_step Get l = Some (Some (fres_of v), l')).
Proof.
  intros Hr Hfew. destruct (life_reach_ok l Hr) as [s Ho]. pose proof (lo_count _ _ Ho) as Hc.
  split; [intros op l' Hst; by destruct (life_step_ok s l op None l' Ho Hfew Hst)|].
  split; [rewrite (lo_freed _ _ Ho); repeat case_decide; lia|]. split.
  - intros Hp Hv Hf. assert (Hu : s = Unset).
    { rewrite (value_is s) in Hv by apply Ho. apply bool_decide_eq_false in Hv. destruct s; [done| |]; by destruct Hv. }
    pose proof (alive s l Ho Hfew (or_introl Hp)) as Hfr. unfold life_step. rewrite Hp, decide_True by done.
    unfold drop_promise. rewrite Hv. assert (Huc : (1 <? use_count l) = true).
    { apply Z.ltb_lt. unfold use_count. pose proof (count_eq s l Ho) as Hce. rewrite Hp in Hce. lia. }
    rewrite Huc. cbn [negb andb]. destruct (state_op (SetException (FutureError BrokenPromise)) l) as [[r l0]|] eqn:Hso.
    + destruct (state_op_ok s (SetException (FutureError BrokenPromise)) l r l0 (lo_state _ _ Ho) ltac:(done) Hso) as (s' & Hsp & _ & Hs').
      rewrite Hu in Hsp. cbn in Hsp. case_decide; [|done]. injection Hsp as <-. eexists. split; [done|exact Hs'].
    + exfalso. unfold state_op in Hso. cbn in Hso. unfold set_exception in Hso. by rewrite Hv in Hso.
  - intros Hp He Hf. pose proof (alive s l Ho Hfew (or_intror (or_introl Hf))) as Hfr.
    assert (∃ v, s = Shown v) as [v ->].
    { destruct s as [|v|v]; [by destruct (lo_kept _ _ Ho Hp Hf)|pose proof (lo_hidden _ _ Ho v eq_refl); lia|eauto]. }
    exists v. assert (Hb : (0 <? f_futures l)%nat = true) by (apply Nat.ltb_lt; lia). unfold life_step. rewrite Hb, decide_True by done.
    unfold future_get. destruct (state_op Copy _) as [[r l0]|] eqn:Hso.
    + destruct (state_op_ok (Shown v) Copy (holders (f_promise l) (pred (f_futures l)) (f_exits l) l) r l0)
        as (s' & Hsp & _ & Hs'); [apply Ho|done|exact Hso|].
      cbn in Hsp. case_decide; [|done]. subst r. eexists. split; [apply Ho|done].
    + exfalso. unfold state_op in Hso. cbn [holders f_state future_body] in Hso. unfold copy, sub_wait in Hso.
      by rewrite (ready_is _ _ (lo_state _ _ Ho)) in Hso.
Qed.

(** A deferred state that nobody runs: the first who waits for it is told that there
    is none, and then nothing will make it ready. *)
Theorem deferred_once g :
  is_ready g = false → has_flag DEFERRED g = true →
  ∃ g', wait false g = (g', Return (FThrows (FutureError NoState)) NoNotify true) ∧ wait false g' = (g', Wait).
Proof.
  intros Hr Hd. unfold wait, sub_wait. rewrite Hr, Hd. eexists. split; [done|]. cbn [negb andb].
  rewrite ready_undeferred, Hr.
  assert (He : has_flag DEFERRED (mkAssoc (Z.land (flags g) (Z.lnot DEFERRED)) (exception_ g)) = false).
  { unfold has_flag. cbn [flags]. rewrite <- Z.land_assoc. by rewrite Z.land_0_r. }
  by rewrite He.
Qed.

(** ** Witnesses *)

Definition future_allowedb (h : list (nat * fop * fres)) (t : nat) (op : fop) : bool :=
  match op with
  | MakeReady => match replay future_spec Unset h with Some s => bool_decide (s ≠ Unset) | None => false end
  | _ => true
  end.

Lemma future_allowedb_ok h t op : future_allowedb h t op = true → future_allowed h t op.
Proof.
  intros Hb ->. cbn in Hb. destruct (replay _ _ _) as [s|]; [|done]. apply bool_decide_eq_true in Hb. by exists s.
Qed.

(** A thread waits for the value, another sets it and wakes it. *)
Definition future_turns : list (nat * mlabel fop) :=
  [(0, Calls Copy); (0, Goes None); (0, Goes None); (1, Calls SetValue); (1, Goes None); (1, Goes None);
   (1, Goes None); (1, Goes None); (0, Goes None); (0, Goes None)]%nat.

Definition future_end : monitor assoc fop fres :=
  after future_turns (mkMonitor (mkAssoc 0 None) None (λ _, Idle) []).

Lemma future_set_once_witness :
  replay future_spec Unset (log future_end) = Some (Shown None) ∧ sets (log future_end) = 1%nat.
Proof.
  destruct (future_set_once future_end) as (s & Hr & _ & Hn & _).
  - apply (follows_reach _ future_allowedb _ future_turns); [exact future_allowedb_ok|apply mreach_start|by vm_compute].
  - assert (E : replay future_spec Unset (log future_end) = Some (Shown None)) by (vm_compute; reflexivity).
    rewrite E in Hr. injection Hr as <-. split; [exact E|exact Hn].
Defined.

(** Two futures share the state of a promise that is dropped: one reads the broken
    promise, and so will the other. *)
Definition life_run (ops : list life_op) (l : life) : life :=
  foldl (λ l op, match life_step op l with Some (_, l') => l' | None => l end) l ops.

Fixpoint life_runs (ops : list life_op) (l : life) : bool :=
  match ops with
  | [] => true
  | op :: ops' =>
      bool_decide (Z.of_nat (f_futures l + f_exits l) < 2 ^ 60)
      && match life_step op l with Some (_, l') => life_runs ops' l' | None => false end
  end.

Lemma life_run_reach ops l : life_reach l → life_runs ops l = true → life_reach (life_run ops l).
Proof.
  revert l. induction ops as [|op ops IH]; intros l Hr Hb; [done|]. cbn in Hb |- *.
  apply andb_prop in Hb as [Hf%bool_decide_eq_true Hb]. destruct (life_step op l) as [[r l']|] eqn:Hst; [|done].
  apply IH; [|done]. by eapply life_reach_step.
Qed.

Lemma promise_kept_witness :
  ∃ v l', assoc_is (Shown v) (f_state (life_run [GetFuture; CopyFuture; DropPromise; Get] life_start))
    ∧ life_step Get (life_run [GetFuture; CopyFuture; DropPromise; Get] life_start) = Some (Some (fres_of v), l').
Proof.
  apply (promise_kept (life_run [GetFuture; CopyFuture; DropPromise; Get] life_start)); try (by vm_compute).
  apply life_run_reach; [apply life_reach_start|by vm_compute].
Defined.

Lemma deferred_once_witness :
  ∃ g', wait false (mkAssoc 8 None) = (g', Return (FThrows (FutureError NoState)) NoNotify true) ∧ wait false g' = (g', Wait).
Proof. apply (deferred_once (mkAssoc 8 None)); reflexivity. Defined.
