(* ===== verification/Memory.v ===== *)
(** * Memory: blocks of memory, cell by cell

    A block is what [malloc] or [new] gave: its cells, each of which may hold nothing
    yet.  A load or a store outside of it, a load of a cell nothing was stored in, and
    any access through null are undefined behaviour. *)

From S2P Require Import Prelude Bits.

(** ** Blocks *)

(** A pointer to a block, or null. *)
Definition block (A : Type) : Type := option (list (option A)).

Definition load {A} (b : block A) (i : Z) : outcome A :=
  match b with
  | None => Undef NullDeref
  | Some l =>
      if i <? 0 then Undef BufferOverread
      else match l !! Z.to_nat i with
           | Some (Some a) => Ret a
           | Some None => Undef UninitRead
           | None => Undef BufferOverread
           end
  end.

Definition store {A} (b : block A) (i : Z) (a : A) : outcome (block A) :=
  match b with
  | None => Undef NullDeref
  | Some l =>
      if (0 <=? i) && (i <? zlen l) then Ret (Some (<[Z.to_nat i := Some a]> l))
      else Undef BufferOverflow
  end.

(** [realloc] to [n] cells, and [malloc] of as many. *)
Definition realloc {A} (b : block A) (n : Z) : block A :=
  let l := default [] b in Some (resize (Z.to_nat n) None l).
Definition malloc {A} (n : Z) : block A := Some (replicate (Z.to_nat n) None).

(** ** Lemmas *)

(** The first cells of a block hold these values. *)
Definition holds {A} (b : block A) (vs : list A) : Prop :=
  ∀ i a, vs !! i = Some a → default [] b !! i = Some (Some a).

Definition blen {A} (b : block A) : Z := zlen (default [] b).

Lemma load_holds {A} (b : block A) vs i a :
  holds b vs → vs !! i = Some a → load b (Z.of_nat i) = Ret a.
Proof.
  intros Hb Hi. pose proof (Hb i a Hi) as Hl. unfold load. destruct b as [l|]; [|done].
  pose proof (Nat2Z.is_nonneg i). else_branch. rewrite Nat2Z.id. cbn in Hl. by rewrite Hl.
Qed.

(** A store inside a block sets one cell. *)
Lemma store_spec {A} (b : block A) i a :
  0 ≤ i < blen b →
  ∃ b', store b i a = Ret b' ∧ blen b' = blen b
    ∧ ∀ j, default [] b' !! j = if decide (Z.of_nat j = i) then Some (Some a) else default [] b !! j.
Proof.
  unfold blen, store. intros Hi. destruct b as [l|]; cbn in *; [|unfold zlen in Hi; cbn in Hi; lia].
  then_branch. eexists. split; [done|]. cbn. unfold zlen in *. rewrite length_insert. split; [done|].
  intros j. case_decide as Hj.
  - rewrite <- Hj, Nat2Z.id. apply list_lookup_insert_eq. lia.
  - apply list_lookup_insert_ne. lia.
Qed.

Lemma holds_append {A} (b : block A) vs a :
  holds b vs → zlen vs < blen b →
  ∃ b', store b (zlen vs) a = Ret b' ∧ blen b' = blen b ∧ holds b' (vs ++ [a]).
Proof.
  intros Hb Hl. destruct (store_spec b (zlen vs) a) as (b' & Hs & Hlen & Hc);
    [pose proof (zlen_nonneg vs); lia|].
  exists b'. do 2 (split; [done|]). intros i x Hi. rewrite Hc.
  apply lookup_app_Some in Hi as [Hi|[Hge Hi]].
  - rewrite decide_False by (apply lookup_lt_Some in Hi; unfold zlen; lia). by apply Hb.
  - apply list_lookup_singleton_Some in Hi as [Hz <-]. by rewrite decide_True by (unfold zlen; lia).
Qed.

Lemma blen_malloc {A} n : 0 ≤ n → blen (@malloc A n) = n.
Proof. intros. unfold blen, malloc, zlen. cbn. rewrite length_replicate. lia. Qed.

Lemma realloc_spec {A} (b : block A) n :
  0 ≤ n →
  blen (realloc b n) = n ∧
  ∀ j, Z.of_nat j < n → Z.of_nat j < blen b → default [] (realloc b n) !! j = default [] b !! j.
Proof.
  unfold blen, realloc, zlen. cbn. intros Hn. rewrite length_resize. split; [lia|].
  intros j Hj Hb. apply lookup_resize; lia.
Qed.

Lemma holds_realloc {A} (b : block A) vs n :
  holds b vs → zlen vs ≤ n → holds (realloc b n) vs ∧ blen (realloc b n) = n.
Proof.
  intros Hb Hn. pose proof (zlen_nonneg vs). destruct (realloc_spec b n ltac:(lia)) as [Hl Hc].
  split; [|done]. intros i a Hi. pose proof (Hb i a Hi) as Hcell. rewrite Hc; [done| |].
  - apply lookup_lt_Some in Hi. unfold zlen in *. lia.
  - apply lookup_lt_Some in Hcell. unfold blen, zlen. lia.
Qed.
