(* ===== verification/ChainTable.v ===== *)
(** * ChainTable: the hash tables of [debug.cpp]

    [__libcpp_db] keeps its iterators and its containers in two hash tables of the
    same make: an array of chains of nodes, each node in the chain its key selects.
    A table is the list of its chains, a chain the list of its nodes' addresses;
    the nodes are in memory, [nodes], with [f] the key in a node. *)

From S2P Require Import Prelude.

Abbreviation table := (list (list nat)).

(** A list without the first [x]: a node taken out of a chain, or an element out of
    an array by [memmove]. *)
Fixpoint remove_first {A} `{EqDecision A} (x : A) (l : list A) : list A :=
  match l with
  | [] => []
  | y :: l' => if decide (y = x) then l' else y :: remove_first x l'
  end.

Lemma remove_first_perm {A} `{EqDecision A} (x : A) l : x ∈ l → l ≡ₚ x :: remove_first x l.
Proof.
  induction l as [|y l IH]; intros Hx; [by apply not_elem_of_nil in Hx|]. cbn. case_decide as Hd; [by subst|].
  apply elem_of_cons in Hx as [->|Hx]; [done|]. trans (y :: x :: remove_first x l); [|apply perm_swap].
  f_equiv. by apply IH.
Qed.

Section table.
Context {N : Type} (hash : Z → Z) (f : N → Z).
Implicit Types (nodes : gmap nat N) (t : table) (id : nat) (a : Z).

(** [hash<void*>()(p) % n]. *)
Definition slot (n a : Z) : nat := Z.to_nat (hash a mod n).

Definition bucket t a : list nat := default [] (t !! slot (zlen t) a).
Definition set_bucket a (chain : list nat) t : table := <[slot (zlen t) a := chain]> t.

(** Along a chain to the first node with the key. *)
Fixpoint walk nodes a (chain : list nat) : outcome (option nat) :=
  match chain with
  | [] => Ret None
  | id :: chain' =>
      match nodes !! id with
      | None => Undef DanglingReference
      | Some n => if decide (f n = a) then Ret (Some id) else walk nodes a chain'
      end
  end.

(** A node is put before its chain in another table. *)
Definition move_node nodes (o : outcome table) id : outcome table :=
  match o with
  | Ret tb =>
      match nodes !! id with
      | None => Undef DanglingReference
      | Some n => Ret (set_bucket (f n) (id :: bucket tb (f n)) tb)
      end
  | o => o
  end.

(** The loops over the old table, into one of [nc] empty chains. *)
Definition rehash nodes (nc : Z) t : outcome table :=
  foldl (foldl (move_node nodes)) (Ret (replicate (Z.to_nat nc) [])) t.

(** A node is taken out of its chain. *)
Definition unlink a id t : table := set_bucket a (remove_first id (bucket t a)) t.

(** What holds of a table: its chains are made of the nodes in memory, each once,
    and each node is in the chain of its key. *)
Record table_ok nodes t : Prop := {
  to_all : concat t ≡ₚ elements (dom nodes);
  to_placed k chain id : t !! k = Some chain → id ∈ chain →
    ∃ n, nodes !! id = Some n ∧ k = slot (zlen t) (f n) }.

(** No two nodes have the same key. *)
Definition uniq nodes : Prop :=
  ∀ id id' n n', nodes !! id = Some n → nodes !! id' = Some n' → f n = f n' → id = id'.

Lemma zlen_set_bucket a chain t : zlen (set_bucket a chain t) = zlen t.
Proof. unfold zlen, set_bucket. by rewrite length_insert. Qed.

Lemma slot_lt t a : 0 < zlen t → (slot (zlen t) a < length t)%nat.
Proof.
  intros. unfold slot, zlen in *. pose proof (Z.mod_pos_bound (hash a) (Z.of_nat (length t)) ltac:(lia)). lia.
Qed.

Lemma bucket_lookup t a : 0 < zlen t → t !! slot (zlen t) a = Some (bucket t a).
Proof.
  intros Hn. unfold bucket. destruct (lookup_lt_is_Some_2 t (slot (zlen t) a)) as [c Hc];
    [by apply slot_lt|]. by rewrite Hc.
Qed.

(** A chain set in the place of another changes the nodes by what they differ in. *)
Lemma concat_insert t k c c' : t !! k = Some c → c ++ concat (<[k:=c']> t) ≡ₚ c' ++ concat t.
Proof.
  revert k. induction t as [|x t IH]; intros [|k] Hk; try done; cbn in Hk |- *.
  - injection Hk as ->. solve_Permutation.
  - rewrite !(Permutation_app_comm _ (x ++ _)), <- !app_assoc. f_equiv.
    rewrite !(Permutation_app_comm (concat _)). by apply IH.
Qed.

Lemma table_members nodes t id : table_ok nodes t → id ∈ concat t ↔ is_Some (nodes !! id).
Proof. intros Ht. rewrite (to_all _ _ Ht), elem_of_elements, elem_of_dom. done. Qed.

Lemma chain_member t k chain id : t !! k = Some chain → id ∈ chain → id ∈ concat t.
Proof. intros Hk Hi. apply list_elem_of_In, in_concat. exists chain. rewrite <- !list_elem_of_In.
  split; [by eapply list_elem_of_lookup_2|done]. Qed.

Lemma bucket_member nodes t id n :
  table_ok nodes t → nodes !! id = Some n → 0 < zlen t ∧ id ∈ bucket t (f n).
Proof.
  intros Ht Hn. assert (Hi : id ∈ concat t) by (rewrite table_members by done; by eexists).
  apply list_elem_of_In, in_concat in Hi as (chain & Hc & Hi). apply list_elem_of_In in Hc, Hi.
  apply list_elem_of_lookup in Hc as [k Hk].
  destruct (to_placed _ _ Ht k chain id Hk Hi) as (n' & Hn' & ->). rewrite Hn in Hn'. injection Hn' as <-.
  split; [|by unfold bucket; rewrite Hk]. destruct t; [done|]. unfold zlen. cbn. lia.
Qed.

(** Finding: along the chain of a key, no node has been freed. *)
Lemma walk_none nodes a chain :
  (∀ id, id ∈ chain → ∃ n, nodes !! id = Some n ∧ f n ≠ a) → walk nodes a chain = Ret None.
Proof.
  induction chain as [|id chain IH]; intros Hc; [done|]. cbn.
  destruct (Hc id ltac:(left)) as (n & -> & Hne). rewrite decide_False by done.
  apply IH. intros id' Hi. apply Hc. by right.
Qed.

Lemma walk_some nodes a chain id n :
  (∀ id, id ∈ chain → is_Some (nodes !! id)) → uniq nodes →
  nodes !! id = Some n → f n = a → id ∈ chain → walk nodes a chain = Ret (Some id).
Proof.
  intros Hc Hu Hn Ha. induction chain as [|id' chain IH]; intros Hi; [by apply not_elem_of_nil in Hi|].
  cbn. destruct (Hc id' ltac:(left)) as [n' Hn']. rewrite Hn'. case_decide as Hd.
  - do 2 f_equal. apply (Hu id' id n' n Hn' Hn). congruence.
  - apply IH; [intros id'' Hi'; apply Hc; by right|].
    apply elem_of_cons in Hi as [->|Hi]; [congruence|done].
Qed.

Lemma bucket_alive nodes t a id : table_ok nodes t → id ∈ bucket t a → is_Some (nodes !! id).
Proof.
  intros Ht Hi. unfold bucket in Hi. destruct (t !! slot (zlen t) a) as [c|] eqn:Hk;
    [|by apply not_elem_of_nil in Hi].
  destruct (to_placed _ _ Ht _ _ _ Hk Hi) as (n & Hn & _). by exists n.
Qed.

Lemma find_some nodes t id n :
  table_ok nodes t → uniq nodes → nodes !! id = Some n → walk nodes (f n) (bucket t (f n)) = Ret (Some id).
Proof.
  intros Ht Hu Hn. eapply walk_some; [|done|done|done|by eapply bucket_member].
  intros id' Hi. by eapply bucket_alive.
Qed.

Lemma find_none nodes t a :
  table_ok nodes t → (∀ id n, nodes !! id = Some n → f n ≠ a) → walk nodes a (bucket t a) = Ret None.
Proof.
  intros Ht Ha. apply walk_none. intros id Hi. destruct (bucket_alive nodes t a id Ht Hi) as [n Hn].
  exists n. eauto.
Qed.

(** A new node before its chain. *)
Lemma table_ok_insert nodes t id n :
  table_ok nodes t → nodes !! id = None → 0 < zlen t →
  table_ok (<[id:=n]> nodes) (set_bucket (f n) (id :: bucket t (f n)) t).
Proof.
  intros Ht Hid Hn. split.
  - pose proof (concat_insert t _ _ (id :: bucket t (f n)) (bucket_lookup t (f n) Hn)) as Hp. unfold set_bucket.
    rewrite dom_insert, elements_union_singleton by by apply not_elem_of_dom.
    rewrite <- (to_all _ _ Ht). apply (Permutation_app_inv_l (bucket t (f n))). rewrite Hp. solve_Permutation.
  - intros k chain id' Hk Hi. rewrite zlen_set_bucket. unfold set_bucket in Hk.
    assert (Hold : ∀ c, t !! k = Some c → id' ∈ c →
      ∃ n', <[id:=n]> nodes !! id' = Some n' ∧ k = slot (zlen t) (f n')).
    { intros c Hc Hi'. destruct (to_placed _ _ Ht k c id' Hc Hi') as (n' & Hn' & Hs). exists n'.
      split; [|done]. rewrite lookup_insert_ne; [done|congruence]. }
    apply list_lookup_insert_Some in Hk as [(<- & <- & _)|[Hne Hk]]; [|by eapply Hold].
    apply elem_of_cons in Hi as [->|Hi]; [|by eapply Hold; [apply bucket_lookup|]].
    exists n. by rewrite lookup_insert_eq.
Qed.

(** A node out of its chain, and out of memory. *)
Lemma table_ok_delete nodes t id n :
  table_ok nodes t → nodes !! id = Some n → table_ok (delete id nodes) (unlink (f n) id t).
Proof.
  intros Ht Hid. destruct (bucket_member nodes t id n Ht Hid) as [Hn Hi]. unfold unlink.
  assert (Hall : concat t ≡ₚ id :: concat (set_bucket (f n) (remove_first id (bucket t (f n))) t)).
  { pose proof (concat_insert t _ _ (remove_first id (bucket t (f n))) (bucket_lookup t (f n) Hn)) as Hp.
    rewrite (remove_first_perm id (bucket t (f n)) Hi) in Hp at 1. unfold set_bucket.
    apply (Permutation_app_inv_l (remove_first id (bucket t (f n)))). rewrite <- Hp. solve_Permutation. }
  assert (Hel : elements (dom nodes) ≡ₚ id :: elements (dom (delete id nodes))).
  { rewrite <- elements_union_singleton by (rewrite dom_delete; set_solver). f_equiv.
    rewrite dom_delete. apply elem_of_dom_2 in Hid. rewrite <- union_difference_singleton; done. }
  split; [apply (Permutation_cons_inv (a := id)); by rewrite <- Hall, <- Hel, (to_all _ _ Ht)|].
  assert (Hnd : id ∉ concat (set_bucket (f n) (remove_first id (bucket t (f n))) t)).
  { assert (NoDup (concat t)) as Hd by (rewrite (to_all _ _ Ht); apply NoDup_elements).
    rewrite Hall in Hd. by apply NoDup_cons in Hd as [? _]. }
  intros k chain id' Hk Hi'. rewrite zlen_set_bucket.
  assert (Hne : id' ≠ id) by (intros ->; by eapply Hnd, chain_member).
  assert (∃ c, t !! k = Some c ∧ id' ∈ c) as (c & Hc & Hic).
  { unfold set_bucket in Hk. apply list_lookup_insert_Some in Hk as [(<- & <- & _)|[_ Hk]]; [|by eauto].
    exists (bucket t (f n)). split; [by apply bucket_lookup|]. rewrite (remove_first_perm id) by done. by right. }
  destruct (to_placed _ _ Ht k c id' Hc Hic) as (n' & Hn' & Hs). exists n'.
  by rewrite lookup_delete_ne.
Qed.

(** What is changed in the nodes but not their keys does not matter. *)
Lemma table_ok_ext nodes nodes' t :
  (∀ id, f <$> nodes' !! id = f <$> nodes !! id) → table_ok nodes t → table_ok nodes' t.
Proof.
  intros He Ht. split.
  - rewrite (to_all _ _ Ht). f_equiv. intros id. rewrite !elem_of_dom.
    specialize (He id). destruct (nodes' !! id), (nodes !! id); by split; intros [].
  - intros k chain id Hk Hi. destruct (to_placed _ _ Ht k chain id Hk Hi) as (n & Hn & ->).
    specialize (He id). rewrite Hn in He. destruct (nodes' !! id) as [n'|]; [|done].
    injection He as <-. by exists n'.
Qed.

Lemma uniq_ext nodes nodes' :
  (∀ id, f <$> nodes' !! id = f <$> nodes !! id) → uniq nodes → uniq nodes'.
Proof.
  intros He Hu id id' n n' Hn Hn' Hf. pose proof (He id) as E1. pose proof (He id') as E2.
  rewrite Hn in E1. rewrite Hn' in E2.
  destruct (nodes !! id) as [m|] eqn:Em; [|done]. destruct (nodes !! id') as [m'|] eqn:Em'; [|done].
  apply (Hu id id' m m' Em Em'). cbn in *. congruence.
Qed.

(** Rehashing keeps the nodes. *)
Definition placed nodes t : Prop := ∀ k chain id, t !! k = Some chain → id ∈ chain →
  ∃ n, nodes !! id = Some n ∧ k = slot (zlen t) (f n).

Lemma foldl_foldl {A B} (g : A → B → A) (x : A) (ls : list (list B)) :
  foldl (foldl g) x ls = foldl g x (concat ls).
Proof. revert x. induction ls as [|l ls IH]; intros x; [done|]. cbn. by rewrite IH, foldl_app. Qed.

Lemma move_all nodes l tb :
  (∀ id, id ∈ l → is_Some (nodes !! id)) → 0 < zlen tb → placed nodes tb →
  ∃ tb', foldl (move_node nodes) (Ret tb) l = Ret tb' ∧ zlen tb' = zlen tb
    ∧ concat tb' ≡ₚ l ++ concat tb ∧ placed nodes tb'.
Proof.
  revert tb. induction l as [|id l IH]; intros tb Hl Hn Hp; [by exists tb|]. cbn.
  destruct (Hl id ltac:(left)) as [n Hid]. rewrite Hid.
  destruct (IH (set_bucket (f n) (id :: bucket tb (f n)) tb)) as (tb' & Hf & Hz & Hc & Hp').
  - intros id' Hi. apply Hl. by right.
  - by rewrite zlen_set_bucket.
  - intros k chain id' Hk Hi. rewrite zlen_set_bucket. unfold set_bucket in Hk.
    apply list_lookup_insert_Some in Hk as [(<- & <- & _)|[_ Hk]]; [|by eapply Hp].
    apply elem_of_cons in Hi as [->|Hi]; [by exists n|]. by eapply Hp; [apply bucket_lookup|].
  - rewrite zlen_set_bucket in Hz. exists tb'. split; [done|]. split; [done|]. split; [|done].
    rewrite Hc. pose proof (concat_insert tb _ _ (id :: bucket tb (f n)) (bucket_lookup tb (f n) Hn)) as Hi.
    rewrite (Permutation_middle l (concat tb) id). f_equiv. unfold set_bucket.
    apply (Permutation_app_inv_l (bucket tb (f n))). rewrite Hi. solve_Permutation.
Qed.

Lemma concat_replicate_nil n : concat (replicate n (@nil nat)) = [].
Proof. by induction n. Qed.

Lemma rehash_ok nodes nc t :
  table_ok nodes t → 0 < nc → ∃ t', rehash nodes nc t = Ret t' ∧ zlen t' = nc ∧ table_ok nodes t'.
Proof.
  intros Ht Hn. unfold rehash. rewrite foldl_foldl.
  destruct (move_all nodes (concat t) (replicate (Z.to_nat nc) [])) as (t' & Hf & Hz & Hc & Hp).
  - intros id. by rewrite table_members.
  - unfold zlen. rewrite length_replicate. lia.
  - intros k chain id Hk Hi. apply lookup_replicate in Hk as [-> _]. by apply not_elem_of_nil in Hi.
  - exists t'. split; [done|]. split; [rewrite Hz; unfold zlen; rewrite length_replicate; lia|].
    split; [|exact Hp]. by rewrite Hc, concat_replicate_nil, app_nil_r, (to_all _ _ Ht).
Qed.

End table.
