(* ===== verification/DebugDb.v ===== *)
(** * DebugDb: [debug.cpp], the database of libc++'s debug mode

    In debug mode every iterator and every container of the library is registered
    in one database, [__libcpp_db], which knows the container an iterator belongs
    to and the iterators a container has.  Here are the nodes in memory, the two
    tables over them ([ChainTable]) and all operations, the map they stand for, and
    when they stand for it; [DebugDbFacts] shows that they do. *)

From S2P Require Import Prelude ChainTable.

(** ** The database *)

(** [__i_node] and [__c_node], by their addresses; the [__next_] of a node is in its
    chain.  [its] is what is from [beg_] to [end_], [room] is [cap_ - beg_]. *)
Record i_node := mkINode { i_ : Z; i_c : option nat }.
Record c_node := mkCNode { c_ : Z; its : list nat; room : Z }.

Record db := mkDb {
  itab : table; inodes : gmap nat i_node; isz : Z;
  ctab : table; cnodes : gmap nat c_node; csz : Z }.

Definition db_start : db := mkDb [] ∅ 0 [] ∅ 0.

Definition set_iters (t : table) (nodes : gmap nat i_node) (sz : Z) (d : db) : db :=
  mkDb t nodes sz (ctab d) (cnodes d) (csz d).
Definition set_conts (t : table) (nodes : gmap nat c_node) (sz : Z) (d : db) : db :=
  mkDb (itab d) (inodes d) (isz d) t nodes sz.

(** What an operation gets from [calloc] for a table, from [malloc] for a node, with what
    the memory of a container's node holds, and from [malloc] for an array of iterators;
    no operation asks twice for one. *)
Record answers := mkAnswers { table_mem : bool; node_mem : option nat; array_mem : bool; junk : list nat * Z }.

(** The questions a container answers itself. *)
Inductive query := Dereferenceable | Decrementable | Addable (n : Z) | Subscriptable (n : Z).

Definition bad_alloc : bytes := str "bad_alloc".

Section db.
(** [hash<void*>], [__next_prime], and the virtual functions of the containers: of
    the container and the iterator at two addresses. *)
Context (hash : Z → Z) (next_size : Z → outcome Z) (answer : query → Z → Z → bool).

Definition get_i (id : nat) : comp db i_node := λ d,
  match inodes d !! id with Some n => (Ret n, d) | None => (Undef DanglingReference, d) end.
Definition get_c (p : nat) : comp db c_node := λ d,
  match cnodes d !! p with Some n => (Ret n, d) | None => (Undef DanglingReference, d) end.
Definition put_i (id : nat) (n : i_node) : comp db unit := cmodify (λ d,
  set_iters (itab d) (<[id := n]> (inodes d)) (isz d) d).
Definition put_c (p : nat) (n : c_node) : comp db unit := cmodify (λ d,
  set_conts (ctab d) (<[p := n]> (cnodes d)) (csz d) d).

(** [i->__c_ = c]. *)
Definition set_ic (id : nat) (c : option nat) : comp db unit :=
  let* n := get_i id in put_i id (mkINode (i_ n) c).

(** What both insertions do first: a larger table, if there is a node for every
    chain. *)
Definition grow {N} (f : N → Z) (nodes : gmap nat N) (sz : Z) (mem : bool) (t : table) : outcome table :=
  if decide (zlen t < size_wrap (sz + 1)) then
    match next_size (size_wrap (2 * zlen t + 1)) with
    | Ret nc => if mem then rehash hash f nodes nc t else Throw bad_alloc
    | Throw what => Throw what
    | AssertFailed => AssertFailed
    | Waits => Waits
    | Undef why => Undef why
    end
  else Ret t.

(** The chain's head is in its place when [malloc] has been asked. *)
Definition insert_iterator (an : answers) (i : Z) : comp db nat :=
  let* d := cget in
  let* t := clift (grow i_ (inodes d) (isz d) (table_mem an) (itab d)) in
  match node_mem an with
  | None =>
      cput (set_iters (set_bucket hash i [] t) (inodes d) (isz d) d) ;;; cthrow bad_alloc
  | Some r =>
      cput (set_iters (set_bucket hash i (r :: bucket hash t i) t)
        (<[r := mkINode i None]> (inodes d)) (size_wrap (isz d + 1)) d) ;;; cret r
  end.

(** The container and the next node are set; the pointers of the array are what [malloc]
    gave. *)
Definition insert_c (an : answers) (c : Z) : comp db nat :=
  let* d := cget in
  let* t := clift (grow c_ (cnodes d) (csz d) (table_mem an) (ctab d)) in
  match node_mem an with
  | None =>
      cput (set_conts (set_bucket hash c [] t) (cnodes d) (csz d) d) ;;; cthrow bad_alloc
  | Some r =>
      cput (set_conts (set_bucket hash c (r :: bucket hash t c) t)
        (<[r := mkCNode c (junk an).1 (junk an).2]> (cnodes d)) (size_wrap (csz d + 1)) d) ;;; cret r
  end.

(** [::new(__n) _C_node<_Cont>(__n->__c_, __n->__next_)]: the node is made anew, with what
    it had in it and an array of nothing. *)
Definition construct_c (p : nat) : comp db unit := let* n := get_c p in put_c p (mkCNode (c_ n) [] 0).

(** The template of the header, which is what containers call. *)
Definition insert_c_template (an : answers) (c : Z) : comp db unit :=
  let* p := insert_c an c in construct_c p.

Definition insert_i (an : answers) (i : Z) : comp db unit := insert_iterator an i ;;; cret tt.

Definition find_iterator (i : Z) : comp db (option nat) :=
  let* d := cget in
  if decide (zlen (itab d) ≠ 0) then clift (walk i_ (inodes d) i (bucket hash (itab d) i)) else cret None.

(** A container that is not found ends the program; the hash is taken modulo the
    size of the table. *)
Definition find_c (c : Z) : comp db nat :=
  let* d := cget in
  if decide (zlen (ctab d) = 0) then cundef DivideByZero
  else
    let* o := clift (walk c_ (cnodes d) c (bucket hash (ctab d) c)) in
    match o with Some p => cret p | None => λ d, (AssertFailed, d) end.

(** [__c_node::__add]: the old array is copied into one of twice the size. *)
Definition add (an : answers) (p : nat) (id : nat) : comp db unit :=
  let* c := get_c p in
  if decide (zlen (its c) = room c) then
    let nc := if decide (2 * room c = 0) then 1 else 2 * room c in
    if array_mem an then put_c p (mkCNode (c_ c) (its c ++ [id]) nc) else cthrow bad_alloc
  else put_c p (mkCNode (c_ c) (its c ++ [id]) (room c)).

(** [__c_node::__remove]. *)
Definition remove (p : nat) (id : nat) : comp db unit :=
  let* c := get_c p in
  if decide (id ∈ its c) then put_c p (mkCNode (c_ c) (remove_first id (its c)) (room c))
  else λ d, (AssertFailed, d).

Definition insert_ic (an : answers) (i c : Z) : comp db unit :=
  let* id := insert_iterator an i in
  let* d := cget in
  if decide (zlen (ctab d) = 0) then λ d, (AssertFailed, d)
  else let* p := find_c c in add an p id ;;; set_ic id (Some p).

(** The node is freed before its container gives it up. *)
Definition erase_i (i : Z) : comp db unit :=
  let* o := find_iterator i in
  match o with
  | None => cret tt
  | Some id =>
      let* n := get_i id in
      cmodify (λ d, set_iters (unlink hash i id (itab d)) (delete id (inodes d)) (size_wrap (isz d - 1)) d) ;;;
      match i_c n with None => cret tt | Some p => remove p id end
  end.

(** The loops that set the container of every iterator of an array. *)
Fixpoint give (c : option nat) (ids : list nat) : comp db unit :=
  match ids with [] => cret tt | id :: ids' => set_ic id c ;;; give c ids' end.

(** A container's iterators are taken from it, the last one first. *)
Definition clear (p : nat) : comp db unit :=
  let* c := get_c p in
  put_c p (mkCNode (c_ c) [] (room c)) ;;; give None (rev (its c)).

Definition invalidate_all (c : Z) : comp db unit := let* p := find_c c in clear p.

Definition erase_c (c : Z) : comp db unit :=
  let* p := find_c c in
  cmodify (λ d, set_conts (unlink hash c p (ctab d)) (cnodes d) (csz d) d) ;;;
  clear p ;;;
  cmodify (λ d, set_conts (ctab d) (delete p (cnodes d)) (size_wrap (csz d - 1)) d).

(** [i->__c_] of a node or of none. *)
Definition owner_of (o : option nat) : comp db (option nat) :=
  match o with None => cret None | Some id => let* n := get_i id in cret (i_c n) end.

Definition iterator_copy (an : answers) (i i0 : Z) : comp db unit :=
  let* oi := find_iterator i in
  let* oi0 := find_iterator i0 in
  let* c0 := owner_of oi0 in
  let* oi := match oi, oi0 with
             | None, Some _ => let* r := insert_iterator an i in cret (Some r)
             | _, _ => cret oi
             end in
  let* c := owner_of oi in
  if decide (c = c0) then cret tt
  else
    match oi with
    | None => cret tt
    | Some id =>
        match c with None => cret tt | Some p => remove p id end ;;;
        set_ic id None ;;;
        match c0 with None => cret tt | Some p0 => set_ic id (Some p0) ;;; add an p0 id end
    end.

(** [__dereferenceable] and the three functions like it. *)
Definition ask (q : query) (i : Z) : comp db bool :=
  let* o := find_iterator i in
  let* c := owner_of o in
  match c with None => cret false | Some p => let* n := get_c p in cret (answer q (c_ n) i) end.

Definition comparable (i j : Z) : comp db bool :=
  let* oi := find_iterator i in
  let* oj := find_iterator j in
  let* ci := owner_of oi in
  let* cj := owner_of oj in
  cret (bool_decide (ci ≠ None) && bool_decide (ci = cj)).

Definition find_c_from_i (i : Z) : comp db (option Z) :=
  let* o := find_iterator i in
  match o with
  | None => λ d, (AssertFailed, d)
  | Some _ =>
      let* c := owner_of o in
      match c with None => cret None | Some p => let* n := get_c p in cret (Some (c_ n)) end
  end.

Definition swap (c1 c2 : Z) : comp db unit :=
  let* p1 := find_c c1 in
  let* p2 := find_c c2 in
  let* n1 := get_c p1 in
  let* n2 := get_c p2 in
  put_c p1 (mkCNode (c_ n1) (its n2) (room n2)) ;;;
  put_c p2 (mkCNode (c_ n2) (its n1) (room n1)) ;;;
  let* m1 := get_c p1 in give (Some p1) (its m1) ;;;
  let* m2 := get_c p2 in give (Some p2) (its m2).

(** The destructor, over one table: each chain from its end. *)
Definition free_chain {N} (o : outcome (gmap nat N)) (chain : list nat) : outcome (gmap nat N) :=
  foldr (λ id o, match o with
    | Ret nodes => match nodes !! id with Some _ => Ret (delete id nodes) | None => Undef InvalidFree end
    | o => o end) o chain.

Definition db_destroy (d : db) : outcome (gmap nat i_node * gmap nat c_node) :=
  match foldl free_chain (Ret (cnodes d)) (ctab d), foldl free_chain (Ret (inodes d)) (itab d) with
  | Ret cs, Ret ins => Ret (ins, cs)
  | _, _ => Undef InvalidFree
  end.

(** ** Operations *)

Inductive db_op :=
  | InsertI (i : Z) | InsertIC (i c : Z) | InsertC (c : Z) | EraseI (i : Z) | EraseC (c : Z)
  | InvalidateAll (c : Z) | IteratorCopy (i i0 : Z) | Swap (c1 c2 : Z)
  | Ask (q : query) (i : Z) | Comparable (i j : Z) | FindCFromI (i : Z)
  | FindC (c : Z) | FindCAndLock (c : Z) | Unlock.

Inductive db_res := RUnit | RBool (b : bool) | RPtr (o : option Z).

#[export] Instance db_res_eq_dec : EqDecision db_res.
Proof. solve_decision. Defined.

Definition returns {A} (g : A → db_res) (m : comp db A) : comp db db_res := let* x := m in cret (g x).

(** Who gets a container's node reads the container's address in it. *)
Definition node_read (p : nat) : comp db db_res := let* n := get_c p in cret (RPtr (Some (c_ n))).

Definition db_run (an : answers) (op : db_op) : comp db db_res :=
  match op with
  | InsertI i => returns (λ _, RUnit) (insert_i an i)
  | InsertIC i c => returns (λ _, RUnit) (insert_ic an i c)
  | InsertC c => returns (λ _, RUnit) (insert_c_template an c)
  | EraseI i => returns (λ _, RUnit) (erase_i i)
  | EraseC c => returns (λ _, RUnit) (erase_c c)
  | InvalidateAll c => returns (λ _, RUnit) (invalidate_all c)
  | IteratorCopy i i0 => returns (λ _, RUnit) (iterator_copy an i i0)
  | Swap c1 c2 => returns (λ _, RUnit) (swap c1 c2)
  | Ask q i => returns RBool (ask q i)
  | Comparable i j => returns RBool (comparable i j)
  | FindCFromI i => returns RPtr (find_c_from_i i)
  | FindC c | FindCAndLock c => let* p := find_c c in node_read p
  | Unlock => cret RUnit
  end.

(** The mutex around the operations, with the thread that has it: [None] is a
    thread that waits.  [__find_c] is called by who has it. *)
Definition locked (t : nat) (op : db_op) (lk : option nat) : option (outcome (option nat)) :=
  match op, lk with
  | FindC _, _ => Some (Ret lk)
  | Unlock, _ => Some (Ret None)
  | FindCAndLock _, None => Some (Ret (Some t))
  | _, None => Some (Ret None)
  | _, Some t' => if decide (t' = t) then Some (Undef SelfDeadlock) else None
  end.

(** A thread in the template: its node is linked in, or it has read the node, to make it
    anew. *)
Inductive construction := Linked (p : nat) | Copied (p : nat) (c : Z) (next : option nat).

Record shared := mkShared { lock_ : option nat; pending : gmap nat construction; base : db }.

Fixpoint after (p : nat) (chain : list nat) : option nat :=
  match chain with [] => None | q :: chain' => if decide (q = p) then head chain' else after p chain' end.

(** [__next_] of a node. *)
Definition next_of (t : table) (p : nat) : option nat :=
  foldr (λ chain o, if bool_decide (p ∈ chain) then after p chain else o) None t.

Inductive db_event := Call (op : db_op) | Construct.

(** A step of a thread, with the operation that it ends and its result: an operation
    under the mutex; or, after [__insert_c] has released it, the two halves of the
    construction.  That the node is another one than what was read of it, since another
    thread has changed it under the mutex, is a race. *)
Definition db_step (t : nat) (an : answers) (e : db_event) (s : shared)
  : option (outcome (option (db_op * db_res)) * shared) :=
  match pending s !! t, e with
  | None, Call op =>
      match locked t op (lock_ s) with
      | None => None
      | Some (Ret lk') =>
          let ending {A} (m : comp db A) (k : A → option (db_op * db_res)) (building : A → gmap nat construction) :=
            match m (base s) with
            | (Ret x, d') => (Ret (k x), mkShared lk' (building x) d')
            | (Throw what, d') => (Throw what, mkShared lk' (pending s) d')
            | (AssertFailed, d') => (AssertFailed, mkShared lk' (pending s) d')
            | (Waits, d') => (Waits, mkShared lk' (pending s) d')
            | (Undef why, d') => (Undef why, mkShared lk' (pending s) d')
            end in
          Some match op with
               | InsertC c => ending (insert_c an c) (λ _, None) (λ p, <[t := Linked p]> (pending s))
               | _ => ending (db_run an op) (λ r, Some (op, r)) (λ _, pending s)
               end
      | Some (Undef why) => Some (Undef why, s)
      | Some _ => None
      end
  | Some (Linked p), Construct =>
      Some match cnodes (base s) !! p with
           | Some n => (Ret None, mkShared (lock_ s) (<[t := Copied p (c_ n) (next_of (ctab (base s)) p)]> (pending s)) (base s))
           | None => (Undef DanglingReference, s)
           end
  | Some (Copied p c next), Construct =>
      Some match construct_c p (base s) with
           | (Ret _, d') =>
               if decide (next_of (ctab (base s)) p = next) then
                 (Ret (Some (InsertC c, RUnit)), mkShared (lock_ s) (delete t (pending s)) d')
               else (Undef DataRace, s)
           | _ => (Undef DanglingReference, s)
           end
  | _, _ => None
  end.

End db.

(** ** The specification *)

(** The container of each registered iterator, if it still has one, and the
    registered containers. *)
Record adb := mkAdb { iters : gmap Z (option Z); conts : gset Z }.

Definition adb_start : adb := mkAdb ∅ ∅.

Definition moved (g : Z → option Z) (oc : option Z) : option Z := oc ≫= g.

(** [None]: the program is ended. *)
Definition db_spec (answer : query → Z → Z → bool) (op : db_op) (a : adb) : option (db_res * adb) :=
  let container i := (iters a !! i : option (option Z)) ≫= id in
  match op with
  | InsertI i => Some (RUnit, mkAdb (<[i := None]> (iters a)) (conts a))
  | InsertIC i c =>
      if decide (c ∈ conts a) then Some (RUnit, mkAdb (<[i := Some c]> (iters a)) (conts a)) else None
  | InsertC c => Some (RUnit, mkAdb (iters a) ({[c]} ∪ conts a))
  | EraseI i => Some (RUnit, mkAdb (delete i (iters a)) (conts a))
  | EraseC c =>
      if decide (c ∈ conts a) then
        Some (RUnit, mkAdb (moved (λ c', if decide (c' = c) then None else Some c') <$> iters a) (conts a ∖ {[c]}))
      else None
  | InvalidateAll c =>
      if decide (c ∈ conts a) then
        Some (RUnit, mkAdb (moved (λ c', if decide (c' = c) then None else Some c') <$> iters a) (conts a))
      else None
  | IteratorCopy i i0 =>
      match iters a !! i0, iters a !! i with
      | Some oc, _ => Some (RUnit, mkAdb (<[i := oc]> (iters a)) (conts a))
      | None, Some _ => Some (RUnit, mkAdb (<[i := None]> (iters a)) (conts a))
      | None, None => Some (RUnit, a)
      end
  | Swap c1 c2 =>
      if decide (c1 ∈ conts a ∧ c2 ∈ conts a) then
        Some (RUnit, mkAdb (moved (λ c, if decide (c = c1) then Some c2 else if decide (c = c2) then Some c1
                                        else Some c) <$> iters a) (conts a))
      else None
  | Ask q i => Some (RBool (match container i with Some c => answer q c i | None => false end), a)
  | Comparable i j =>
      Some (RBool (bool_decide (container i ≠ None) && bool_decide (container i = container j)), a)
  | FindCFromI i => match iters a !! i with Some oc => Some (RPtr oc, a) | None => None end
  | FindC c | FindCAndLock c => if decide (c ∈ conts a) then Some (RPtr (Some c), a) else None
  | Unlock => Some (RUnit, a)
  end.

(** The specification as a sequential object, for histories. *)
Definition db_spec_step (answer : query → Z → Z → bool) (a : adb) (e : db_op * db_res) : option adb :=
  match db_spec answer e.1 a with
  | Some (r, a') => if bool_decide (r = e.2) then Some a' else None
  | None => None
  end.

(** An iterator or a container is registered where none is. *)
Definition db_allowed (op : db_op) (a : adb) : Prop :=
  match op with
  | InsertI i | InsertIC i _ => iters a !! i = None
  | InsertC c => c ∉ conts a
  | _ => True
  end.

#[export] Instance db_allowed_dec op a : Decision (db_allowed op a).
Proof. destruct op; apply _. Defined.

(** The container of a node of an iterator. *)
Definition cont_of (d : db) (n : i_node) : option Z := i_c n ≫= λ p, c_ <$> cnodes d !! p.

(** A database in order, and the map it stands for. *)
Record db_ok (hash : Z → Z) (d : db) (a : adb) : Prop := {
  ok_itab : table_ok hash i_ (inodes d) (itab d);
  ok_ctab : table_ok hash c_ (cnodes d) (ctab d);
  ok_iuniq : uniq i_ (inodes d);
  ok_cuniq : uniq c_ (cnodes d);
  ok_isz : isz d = Z.of_nat (size (inodes d));
  ok_csz : csz d = Z.of_nat (size (cnodes d));
  ok_lists p c : cnodes d !! p = Some c →
    NoDup (its c) ∧ zlen (its c) ≤ room c
    ∧ ∀ id, id ∈ its c ↔ ∃ n, inodes d !! id = Some n ∧ i_c n = Some p;
  ok_owned id n p : inodes d !! id = Some n → i_c n = Some p → is_Some (cnodes d !! p);
  ok_iters x oc : iters a !! x = Some oc ↔ ∃ id n, inodes d !! id = Some n ∧ i_ n = x ∧ oc = cont_of d n;
  ok_conts c : c ∈ conts a ↔ ∃ p n, cnodes d !! p = Some n ∧ c_ n = c;
  ok_few : isz d ≤ 2 ^ 60 ∧ csz d ≤ 2 ^ 60 }.

(** There is memory: nodes at addresses that are free, fewer than 2^60 in all. *)
Definition answers_ok (an : answers) (d : db) : Prop :=
  table_mem an = true ∧ array_mem an = true ∧ isz d < 2 ^ 60 ∧ csz d < 2 ^ 60
  ∧ ∃ r, node_mem an = Some r ∧ inodes d !! r = None ∧ cnodes d !! r = None.

#[export] Instance answers_ok_dec an d : Decision (answers_ok an d).
Proof.
  destruct (node_mem an) as [r|] eqn:Hr.
  - destruct (decide (table_mem an = true ∧ array_mem an = true ∧ isz d < 2 ^ 60 ∧ csz d < 2 ^ 60
      ∧ inodes d !! r = None ∧ cnodes d !! r = None)); [left|right]; unfold answers_ok; rewrite Hr; naive_solver.
  - right. intros (_ & _ & _ & _ & r & Hr' & _). congruence.
Defined.

(** What [__next_prime] promises to a table that grows. *)
Class TableSizes (next_size : Z → outcome Z) : Prop :=
  next_size_law n : 1 ≤ n < 2 ^ 62 → ∃ p, next_size n = Ret p ∧ n ≤ p.

(** What any number of threads have done: operations with their results, in the order in
    which they had the mutex.  While one registers a container, from when it has released
    the mutex to when its node is made, no other uses the database. *)
Inductive db_hist (hash : Z → Z) (next_size : Z → outcome Z) (answer : query → Z → Z → bool)
  : shared → list (db_op * db_res) → Prop :=
  | hist_start : db_hist hash next_size answer (mkShared None ∅ db_start) []
  | hist_step s h t an e r s' :
      db_hist hash next_size answer s h → delete t (pending s) = ∅ →
      match e with
      | Call op => answers_ok an (base s) ∧ ∀ a, replay (db_spec_step answer) adb_start h = Some a → db_allowed op a
      | Construct => True
      end →
      db_step hash next_size answer t an e s = Some (Ret r, s') →
      db_hist hash next_size answer s' (h ++ option_list r).
