(* ===== verification/DebugDbFacts.v ===== *)
(** * DebugDbFacts: the debug database is a map

    The operations of [DebugDb] keep its invariant and refine its specification, one
    lemma each; then what any number of threads make of them, the destructor, and
    what is left when memory runs out. *)

From S2P Require Import Prelude ChainTable HashPrime DebugDb.

Section proofs.
Context (hash : Z → Z) (next_size : Z → outcome Z) `{!TableSizes next_size}.
Implicit Types (d : db) (a : adb) (id p : nat).

Lemma dom_ext {N} {f : N → Z} (m m' : gmap nat N) :
  (∀ id, f <$> m' !! id = f <$> m !! id) → dom m' = dom m.
Proof.
  intros He. apply set_eq. intros id. rewrite !elem_of_dom. specialize (He id).
  destruct (m' !! id), (m !! id); by split; intros [].
Qed.

Lemma size_ext {N} {f : N → Z} (m m' : gmap nat N) :
  (∀ id, f <$> m' !! id = f <$> m !! id) → size m' = size m.
Proof. intros He. by rewrite <- !size_dom, (dom_ext m m' He). Qed.

(** Changing who belongs to whom. *)
Lemma db_relink d a inodes' cnodes' iters' :
  db_ok hash d a →
  (∀ id, i_ <$> inodes' !! id = i_ <$> inodes d !! id) →
  (∀ p, c_ <$> cnodes' !! p = c_ <$> cnodes d !! p) →
  (∀ p c, cnodes' !! p = Some c → NoDup (its c) ∧ zlen (its c) ≤ room c
     ∧ ∀ id, id ∈ its c ↔ ∃ n, inodes' !! id = Some n ∧ i_c n = Some p) →
  (∀ id n p, inodes' !! id = Some n → i_c n = Some p → is_Some (cnodes' !! p)) →
  dom iters' = dom (iters a) →
  (∀ id n, inodes' !! id = Some n → iters' !! i_ n = Some (i_c n ≫= λ p, c_ <$> cnodes d !! p)) →
  db_ok hash (mkDb (itab d) inodes' (isz d) (ctab d) cnodes' (csz d)) (mkAdb iters' (conts a)).
Proof.
  intros Ho Hi Hc Hl Hw Hd Hit.
  assert (Hcont : ∀ n, i_c n ≫= (λ p, c_ <$> cnodes d !! p) = i_c n ≫= (λ p, c_ <$> cnodes' !! p)).
  { intros n. destruct (i_c n); cbn; [by rewrite Hc|done]. }
  split; cbn.
  - apply (table_ok_ext hash i_ (inodes d)); [done|apply Ho].
  - apply (table_ok_ext hash c_ (cnodes d)); [done|apply Ho].
  - apply (uniq_ext i_ (inodes d)); [done|apply Ho].
  - apply (uniq_ext c_ (cnodes d)); [done|apply Ho].
  - rewrite (size_ext _ _ Hi). apply Ho.
  - rewrite (size_ext _ _ Hc). apply Ho.
  - done.
  - done.
  - intros x oc. split.
    + intros Hx. assert (Hin : x ∈ dom (iters a)) by (rewrite <- Hd; by eapply elem_of_dom_2).
      apply elem_of_dom in Hin as [oc' Hx']. apply Ho in Hx' as (id & n & Hn & <- & _).
      specialize (Hi id). rewrite Hn in Hi. destruct (inodes' !! id) as [n'|] eqn:Hn'; [|done].
      injection Hi as Hi. exists id, n'. split; [done|]. split; [done|].
      apply Hit in Hn'. rewrite Hi, Hx in Hn'. injection Hn' as ->. apply Hcont.
    + intros (id & n & Hn & <- & ->). rewrite (Hit id n Hn). f_equal. apply Hcont.
  - intros c. rewrite (ok_conts _ _ _ Ho). split; intros (p & n & Hn & Hx); specialize (Hc p); rewrite Hn in Hc.
    + destruct (cnodes' !! p) as [n'|] eqn:E; [|done]. exists p, n'. injection Hc as Hc. by rewrite Hc.
    + destruct (cnodes d !! p) as [n'|] eqn:E; [|done]. exists p, n'. injection Hc as Hc. by rewrite <- Hc.
  - apply Ho.
Qed.

(** Finding. *)
Lemma find_iterator_cases d a i :
  db_ok hash d a →
  (∃ id n, find_iterator hash i d = (Ret (Some id), d) ∧ inodes d !! id = Some n ∧ i_ n = i
     ∧ iters a !! i = Some (cont_of d n))
  ∨ (find_iterator hash i d = (Ret None, d) ∧ iters a !! i = None).
Proof.
  intros Ho. unfold find_iterator, cbind, cget, clift. cbn. destruct (iters a !! i) as [oc|] eqn:Hx.
  - left. pose proof Hx as (id & n & Hn & <- & ->)%Ho. exists id, n. split; [|done].
    destruct (bucket_member _ _ _ _ _ _ (ok_itab _ _ _ Ho) Hn) as [Hz _].
    rewrite decide_True by lia. by rewrite (find_some hash i_ _ _ id n) by apply Ho || done.
  - right. split; [|done]. case_decide; [|done]. rewrite (find_none hash i_); [done|apply Ho|].
    intros id n Hn <-. assert (iters a !! i_ n = Some (cont_of d n)) by (apply Ho; by exists id, n). congruence.
Qed.

Definition ends_program (o : outcome unit) : Prop := o = AssertFailed ∨ o = Undef DivideByZero.

Lemma find_c_cases d a c :
  db_ok hash d a →
  (∃ p n, find_c hash c d = (Ret p, d) ∧ cnodes d !! p = Some n ∧ c_ n = c ∧ c ∈ conts a)
  ∨ (c ∉ conts a ∧ (find_c hash c d = (AssertFailed, d) ∨ find_c hash c d = (Undef DivideByZero, d))).
Proof.
  intros Ho. unfold find_c, cbind, cget, clift, cundef. cbn. destruct (decide (c ∈ conts a)) as [Hc|Hc].
  - left. pose proof Hc as (p & n & Hn & <-)%Ho. exists p, n.
    destruct (bucket_member _ _ _ _ _ _ (ok_ctab _ _ _ Ho) Hn) as [Hz _].
    rewrite decide_False by lia. by rewrite (find_some hash c_ _ _ p n) by apply Ho || done.
  - right. split; [done|]. case_decide; [by right|]. left. rewrite (find_none hash c_); [done|apply Ho|].
    intros p n Hn <-. apply Hc, Ho. by exists p, n.
Qed.

(** Growing: the same nodes in a table that has room. *)
Lemma grow_ok {N} (f : N → Z) nodes sz t :
  table_ok hash f nodes t → 0 ≤ sz < 2 ^ 60 →
  ∃ t', grow hash next_size f nodes sz true t = Ret t' ∧ table_ok hash f nodes t' ∧ 0 < zlen t'.
Proof.
  intros Ht Hsz. pose proof (zlen_nonneg t). unfold grow, size_wrap.
  rewrite (wrap_small 64 (sz + 1)) by lia. case_decide as Hg; [|by exists t; split; [done|split; [done|lia]]].
  rewrite wrap_small by lia.
  destruct (next_size_law (2 * zlen t + 1) ltac:(lia)) as (nc & -> & Hnc).
  destruct (rehash_ok hash f nodes nc t Ht ltac:(lia)) as (t' & Hr & Hz & Ht'). exists t'.
  split; [done|]. split; [done|lia].
Qed.

Lemma db_ok_itab d a t : db_ok hash d a → table_ok hash i_ (inodes d) t → db_ok hash (set_iters t (inodes d) (isz d) d) a.
Proof. intros [] Ht. by split. Qed.

Lemma db_ok_ctab d a t : db_ok hash d a → table_ok hash c_ (cnodes d) t → db_ok hash (set_conts t (cnodes d) (csz d) d) a.
Proof. intros [] Ht. by split. Qed.

(** The size of a map a node is put in or taken from. *)
Lemma size_in {N} (m : gmap nat N) id n :
  m !! id = None → Z.of_nat (size (<[id:=n]> m)) = Z.of_nat (size m) + 1.
Proof. intros Hn. rewrite map_size_insert_None by done. lia. Qed.

Lemma size_out {N} (m : gmap nat N) id n :
  m !! id = Some n → Z.of_nat (size (delete id m)) = Z.of_nat (size m) - 1 ∧ 0 < Z.of_nat (size m).
Proof.
  intros Hn. rewrite map_size_delete_Some by (by eexists).
  assert (size m ≠ O) by (intros E; apply map_size_empty_iff in E; subst; done). lia.
Qed.

(** An iterator without a container is registered. *)
Lemma insert_iterator_ok d a an i :
  db_ok hash d a → answers_ok an d → iters a !! i = None →
  ∃ r t, insert_iterator hash next_size an i d
         = (Ret r, set_iters t (<[r := mkINode i None]> (inodes d)) (size_wrap (isz d + 1)) d)
    ∧ inodes d !! r = None
    ∧ db_ok hash (set_iters t (<[r := mkINode i None]> (inodes d)) (size_wrap (isz d + 1)) d)
        (mkAdb (<[i := None]> (iters a)) (conts a)).
Proof.
  intros Ho (Htm & _ & Hisz & _ & r & Hr & Hfree & _) Hi.
  pose proof (ok_isz _ _ _ Ho) as Hz.
  destruct (grow_ok i_ (inodes d) (isz d) (itab d)) as (t & Hg & Ht & Hpos); [apply Ho|lia|].
  exists r, (set_bucket hash i (r :: bucket hash t i) t). split; [|split; [done|]].
  { unfold insert_iterator, cbind, cget, clift, cput, cret. by rewrite Htm, Hg, Hr. }
  unfold set_iters. unfold size_wrap. rewrite wrap_small by lia. split; cbn [itab inodes isz ctab cnodes csz iters conts].
  - exact (table_ok_insert hash i_ _ _ r (mkINode i None) Ht Hfree Hpos).
  - apply Ho.
  - intros id id' n n'. rewrite !lookup_insert_Some.
    intros [[<- <-]|[Hne Hn]] [[<- <-]|[Hne' Hn']] Hf; cbn in *; [done| | |by eapply Ho].
    + assert (iters a !! i = Some (cont_of d n')) by (apply Ho; by exists id', n'). congruence.
    + assert (iters a !! i = Some (cont_of d n)) by (apply Ho; by exists id, n). congruence.
  - apply Ho.
  - rewrite size_in by done. lia.
  - apply Ho.
  - intros p c Hc. destruct (ok_lists _ _ _ Ho p c Hc) as (Hnd & Hroom & Hl). split; [done|]. split; [done|].
    intros id. rewrite Hl. split; intros (n & Hn & Hp); exists n; (split; [|done]).
    + rewrite lookup_insert_ne; [done|congruence].
    + apply lookup_insert_Some in Hn as [[_ <-]|[_ Hn]]; [done|exact Hn].
  - intros id n p. rewrite lookup_insert_Some. intros [[_ <-]|[_ Hn]]; [done|]. by eapply Ho.
  - intros x oc. rewrite lookup_insert_Some. split.
    + intros [[<- <-]|[Hne Hx]]; [exists r, (mkINode i None); by rewrite lookup_insert_eq|].
      apply Ho in Hx as (id & n & Hn & Hx). exists id, n. rewrite lookup_insert_ne; [done|congruence].
    + intros (id & n & Hn & <- & ->). apply lookup_insert_Some in Hn as [[<- <-]|[_ Hn]]; [by left|right].
      assert (Hx : iters a !! i_ n = Some (cont_of d n)) by (apply Ho; by exists id, n).
      split; [congruence|exact Hx].
  - apply Ho.
  - pose proof (ok_few _ _ _ Ho). lia.
Qed.

(** A database when the node of a container has been made. *)
Definition made (p : nat) (c : Z) (d : db) : db := set_conts (ctab d) (<[p := mkCNode c [] 0]> (cnodes d)) (csz d) d.

Lemma construct_c_run p n d : cnodes d !! p = Some n → construct_c p d = (Ret tt, made p (c_ n) d).
Proof. intros Hp. unfold construct_c, get_c, cbind. by rewrite Hp. Qed.

(** A container is registered. *)
Lemma insert_c_ok d a an c :
  db_ok hash d a → answers_ok an d → c ∉ conts a →
  ∃ r d', insert_c hash next_size an c d = (Ret r, d') ∧ (∃ n, cnodes d' !! r = Some n ∧ c_ n = c)
    ∧ db_ok hash (made r c d') (mkAdb (iters a) ({[c]} ∪ conts a)).
Proof.
  intros Ho (Htm & _ & _ & Hcsz & r & Hr & _ & Hfree) Hc.
  pose proof (ok_csz _ _ _ Ho) as Hz.
  destruct (grow_ok c_ (cnodes d) (csz d) (ctab d)) as (t & Hg & Ht & Hpos); [apply Ho|lia|].
  eexists r, _. split.
  { unfold insert_c, cbind, cget, clift, cput, cret. by rewrite Htm, Hg, Hr. }
  split; [eexists; split; [apply lookup_insert_eq|done]|].
  unfold made, set_conts. cbn [itab inodes isz ctab cnodes csz]. rewrite insert_insert_eq. unfold size_wrap. rewrite wrap_small by lia. split; cbn [itab inodes isz ctab cnodes csz iters conts].
  - apply Ho.
  - exact (table_ok_insert hash c_ _ _ r (mkCNode c [] 0) Ht Hfree Hpos).
  - apply Ho.
  - intros p p' n n'. rewrite !lookup_insert_Some.
    intros [[<- <-]|[Hne Hn]] [[<- <-]|[Hne' Hn']] Hf; cbn in *; [done| | |by eapply (ok_cuniq _ _ _ Ho)];
      exfalso; apply Hc, Ho; [exists p', n'|exists p, n]; auto.
  - apply Ho.
  - rewrite size_in by done. lia.
  - intros p n Hn. apply lookup_insert_Some in Hn as [[<- <-]|[Hne Hn]]; [|by eapply Ho]. cbn.
    split; [constructor|]. split; [done|]. intros id. split; [intros Hi; by apply not_elem_of_nil in Hi|].
    intros (n & Hn & Hp). destruct (ok_owned _ _ _ Ho id n r Hn Hp). congruence.
  - intros id n p Hn Hp. apply lookup_insert_is_Some'. right. by eapply Ho.
  - intros x oc. rewrite (ok_iters _ _ _ Ho). split; intros (id & n & Hn & Hx & ->); exists id, n;
      (split; [done|split; [done|]]); unfold cont_of; cbn; destruct (i_c n) as [p|] eqn:Hp; cbn; try done;
      destruct (ok_owned _ _ _ Ho id n p Hn Hp) as [m Hm]; by rewrite lookup_insert_ne by congruence.
  - intros c'. rewrite elem_of_union, elem_of_singleton. split.
    + intros [->|Hx]; [exists r, (mkCNode c [] 0); by rewrite lookup_insert_eq|].
      apply Ho in Hx as (p & n & Hn & <-). exists p, n. by rewrite lookup_insert_ne by congruence.
    + intros (p & n & Hn & <-). apply lookup_insert_Some in Hn as [[_ <-]|[_ Hn]]; [by left|right].
      apply Ho. eauto.
  - pose proof (ok_few _ _ _ Ho). lia.
Qed.

(** An iterator is given or taken from: one node, one list. *)
Lemma fmap_update {N} (f : N → Z) (m : gmap nat N) k n n' :
  m !! k = Some n → f n' = f n → ∀ id, f <$> <[k := n']> m !! id = f <$> m !! id.
Proof.
  intros Hk Hf id. destruct (decide (id = k)) as [->|Hne].
  - rewrite lookup_insert_eq, Hk. cbn. by rewrite Hf.
  - by rewrite lookup_insert_ne.
Qed.

Lemma iters_update d a id n oc inodes' :
  db_ok hash d a → inodes d !! id = Some n → inodes' = <[id := mkINode (i_ n) oc]> (inodes d) →
  dom (<[i_ n := oc ≫= λ p, c_ <$> cnodes d !! p]> (iters a)) = dom (iters a)
  ∧ ∀ id' n', inodes' !! id' = Some n' →
      <[i_ n := oc ≫= λ p, c_ <$> cnodes d !! p]> (iters a) !! i_ n'
      = Some (i_c n' ≫= λ p, c_ <$> cnodes d !! p).
Proof.
  intros Ho Hid ->. split.
  - apply dom_insert_lookup_L. assert (iters a !! i_ n = Some (cont_of d n)) by (apply Ho; by exists id, n).
    by eexists.
  - intros id' n' Hn'. apply lookup_insert_Some in Hn' as [[<- <-]|[Hne Hn']]; [by rewrite lookup_insert_eq|].
    rewrite lookup_insert_ne; [apply Ho; by exists id', n'|].
    intros Hi. apply Hne. by apply (ok_iuniq _ _ _ Ho id id' n n').
Qed.

Definition released d id n p c : db :=
  mkDb (itab d) (<[id := mkINode (i_ n) None]> (inodes d)) (isz d) (ctab d)
    (<[p := mkCNode (c_ c) (remove_first id (its c)) (room c)]> (cnodes d)) (csz d).

Lemma remove_first_member (l : list nat) x y :
  NoDup l → x ∈ l → y ∈ remove_first x l ↔ y ≠ x ∧ y ∈ l.
Proof.
  intros Hnd Hx. pose proof (remove_first_perm x l Hx) as Hp.
  assert (Hnx : x ∉ remove_first x l) by (rewrite Hp in Hnd; by apply NoDup_cons in Hnd as [? _]).
  remember (remove_first x l) as l' eqn:E. clear E.
  rewrite Hp, elem_of_cons. split; [|intros [? [?|?]]; done].
  intros Hy. split; [by intros ->|by right].
Qed.

Lemma remove_first_small (l : list nat) x : x ∈ l → zlen (remove_first x l) + 1 = zlen l.
Proof.
  intros Hx. pose proof (Permutation_length (remove_first_perm x l Hx)) as Hl. unfold zlen. cbn in Hl. lia.
Qed.

Lemma released_ok d a id n p c :
  db_ok hash d a → inodes d !! id = Some n → i_c n = Some p → cnodes d !! p = Some c →
  db_ok hash (released d id n p c) (mkAdb (<[i_ n := None]> (iters a)) (conts a)).
Proof.
  intros Ho Hid Hic Hp. destruct (iters_update d a id n None _ Ho Hid eq_refl) as [Hd Hit].
  destruct (ok_lists _ _ _ Ho p c Hp) as (Hnd & Hroom & Hl).
  assert (Hin : id ∈ its c) by (apply Hl; eauto).
  apply db_relink; [done|by apply (fmap_update _ _ _ n)|by apply (fmap_update _ _ _ c)| | |done|exact Hit].
  - intros p' c' Hp'. apply lookup_insert_Some in Hp' as [[<- <-]|[Hne Hp']]; cbn [its room].
    + pose proof Hnd as Hnd'. rewrite (remove_first_perm id (its c) Hin) in Hnd'. apply NoDup_cons in Hnd' as [_ Hnd'].
      split; [done|]. split; [pose proof (remove_first_small (its c) id Hin); lia|]. intros id'.
      rewrite remove_first_member by done. rewrite Hl. split.
      * intros (Hne & n' & Hn' & Hc'). exists n'. by rewrite lookup_insert_ne by congruence.
      * intros (n' & Hn' & Hc'). apply lookup_insert_Some in Hn' as [[_ <-]|[Hne Hn']]; [done|]. by eauto.
    + destruct (ok_lists _ _ _ Ho p' c' Hp') as (Hnd' & Hroom' & Hl'). split; [done|]. split; [done|].
      intros id'. rewrite Hl'. split; intros (n' & Hn' & Hc'); exists n'; (split; [|done]).
      * rewrite lookup_insert_ne; [done|]. intros ->. congruence.
      * apply lookup_insert_Some in Hn' as [[_ <-]|[_ Hn']]; [done|exact Hn'].
  - intros id' n' p' Hn' Hc'. apply lookup_insert_is_Some'. right.
    apply lookup_insert_Some in Hn' as [[_ <-]|[_ Hn']]; [done|]. by eapply (ok_owned _ _ _ Ho).
Qed.

Definition adopted d id n p c r : db :=
  mkDb (itab d) (<[id := mkINode (i_ n) (Some p)]> (inodes d)) (isz d) (ctab d)
    (<[p := mkCNode (c_ c) (its c ++ [id]) r]> (cnodes d)) (csz d).

Lemma adopted_ok d a id n p c r :
  db_ok hash d a → inodes d !! id = Some n → i_c n = None → cnodes d !! p = Some c → zlen (its c) < r →
  db_ok hash (adopted d id n p c r) (mkAdb (<[i_ n := Some (c_ c)]> (iters a)) (conts a)).
Proof.
  intros Ho Hid Hic Hp Hr. destruct (iters_update d a id n (Some p) _ Ho Hid eq_refl) as [Hd Hit].
  cbn in Hd, Hit. rewrite Hp in Hd, Hit. cbn in Hd, Hit.
  destruct (ok_lists _ _ _ Ho p c Hp) as (Hnd & Hroom & Hl).
  assert (Hin : id ∉ its c) by (intros (n' & Hn' & Hc')%Hl; congruence).
  apply db_relink; [done|by apply (fmap_update _ _ _ n)|by apply (fmap_update _ _ _ c)| | |done|exact Hit].
  - intros p' c' Hp'. apply lookup_insert_Some in Hp' as [[<- <-]|[Hne Hp']]; cbn [its room].
    + split; [apply NoDup_app; repeat split; [done| |apply NoDup_singleton]; by intros x Hx ->%list_elem_of_singleton|].
      split; [rewrite zlen_app; unfold zlen in *; cbn; lia|]. intros id'. rewrite elem_of_app, list_elem_of_singleton, Hl. split.
      * intros [(n' & Hn' & Hc')| ->]; [|exists (mkINode (i_ n) (Some p)); by rewrite lookup_insert_eq].
        exists n'. rewrite lookup_insert_ne; [done|]. intros ->. congruence.
      * intros (n' & Hn' & Hc'). apply lookup_insert_Some in Hn' as [[<- _]|[Hne Hn']]; [by right|left]. eauto.
    + destruct (ok_lists _ _ _ Ho p' c' Hp') as (Hnd' & Hroom' & Hl'). split; [done|]. split; [done|].
      intros id'. rewrite Hl'. split; intros (n' & Hn' & Hc'); exists n'; (split; [|done]).
      * rewrite lookup_insert_ne; [done|]. intros ->. congruence.
      * apply lookup_insert_Some in Hn' as [[_ <-]|[_ Hn']]; [by injection Hc' as <-|exact Hn'].
  - intros id' n' p' Hn' Hc'. apply lookup_insert_is_Some'.
    apply lookup_insert_Some in Hn' as [[_ <-]|[_ Hn']]; [left; by injection Hc' as <-|right].
    by eapply (ok_owned _ _ _ Ho).
Qed.

(** A node is forgotten. *)
Lemma forgotten_i_ok d a id n :
  db_ok hash d a → inodes d !! id = Some n → i_c n = None →
  db_ok hash (set_iters (unlink hash (i_ n) id (itab d)) (delete id (inodes d)) (size_wrap (isz d - 1)) d)
    (mkAdb (delete (i_ n) (iters a)) (conts a)).
Proof.
  intros Ho Hid Hic. destruct (size_out _ _ _ Hid) as [Hs Hpos]. pose proof (ok_isz _ _ _ Ho) as Hz.
  pose proof (ok_few _ _ _ Ho) as Hf. unfold set_iters. split; cbn [itab inodes isz ctab cnodes csz iters conts].
  - apply table_ok_delete; [apply Ho|done].
  - apply Ho.
  - intros x y m m' Hm Hm'. apply lookup_delete_Some in Hm as [_ Hm], Hm' as [_ Hm']. by eapply (ok_iuniq _ _ _ Ho).
  - apply Ho.
  - rewrite Hs. unfold size_wrap. rewrite wrap_small by lia. lia.
  - apply Ho.
  - intros p c Hp. destruct (ok_lists _ _ _ Ho p c Hp) as (Hnd & Hroom & Hl). split; [done|]. split; [done|].
    intros x. rewrite Hl. split; intros (m & Hm & Hc); exists m; (split; [|done]).
    + rewrite lookup_delete_ne; [done|]. intros ->. congruence.
    + by apply lookup_delete_Some in Hm as [_ Hm].
  - intros x m p [_ Hm]%lookup_delete_Some. by eapply (ok_owned _ _ _ Ho).
  - intros x oc. rewrite lookup_delete_Some, (ok_iters _ _ _ Ho). split.
    + intros (Hne & y & m & Hm & <- & ->). exists y, m. rewrite lookup_delete_ne; [done|]. intros ->. congruence.
    + intros (y & m & [Hne Hm]%lookup_delete_Some & <- & ->). split; [|by exists y, m].
      intros Hi. apply Hne. by apply (ok_iuniq _ _ _ Ho id y n m).
  - apply Ho.
  - unfold size_wrap. rewrite wrap_small by lia. lia.
Qed.

Lemma forgotten_c_ok d a p c :
  db_ok hash d a → cnodes d !! p = Some c → its c = [] →
  db_ok hash (set_conts (unlink hash (c_ c) p (ctab d)) (delete p (cnodes d)) (size_wrap (csz d - 1)) d)
    (mkAdb (iters a) (conts a ∖ {[c_ c]})).
Proof.
  intros Ho Hp Hits. destruct (size_out _ _ _ Hp) as [Hs Hpos].
  pose proof (ok_csz _ _ _ Ho) as Hz. pose proof (ok_few _ _ _ Ho) as Hf.
  assert (Hnone : ∀ id n, inodes d !! id = Some n → i_c n ≠ Some p).
  { intros id n Hn Hc. destruct (ok_lists _ _ _ Ho p c Hp) as (_ & _ & Hl). specialize (Hl id).
    rewrite Hits in Hl. apply (not_elem_of_nil id), Hl. eauto. }
  unfold set_conts. split; cbn [itab inodes isz ctab cnodes csz iters conts].
  - apply Ho.
  - apply table_ok_delete; [apply Ho|done].
  - apply Ho.
  - intros x y m m' [_ Hm]%lookup_delete_Some [_ Hm']%lookup_delete_Some. by eapply (ok_cuniq _ _ _ Ho).
  - apply Ho.
  - rewrite Hs. unfold size_wrap. rewrite wrap_small by lia. lia.
  - intros p' c' [_ Hp']%lookup_delete_Some. by apply (ok_lists _ _ _ Ho).
  - intros x m p' Hm Hc. rewrite lookup_delete_ne; [by eapply (ok_owned _ _ _ Ho)|]. intros ->. by eapply Hnone.
  - intros x oc. rewrite (ok_iters _ _ _ Ho). split; intros (id & n & Hn & Hx & ->); exists id, n;
      (split; [done|split; [done|]]); unfold cont_of; cbn; destruct (i_c n) as [p'|] eqn:Hc; cbn; try done;
      rewrite lookup_delete_ne; try done; intros ->; by eapply Hnone.
  - intros x. rewrite elem_of_difference, elem_of_singleton, (ok_conts _ _ _ Ho). split.
    + intros [(p' & n & Hn & <-) Hne]. exists p', n. rewrite lookup_delete_ne; [done|]. intros ->. congruence.
    + intros (p' & n & [Hne Hn]%lookup_delete_Some & <-). split; [by exists p', n|].
      intros Hc. apply Hne. by apply (ok_cuniq _ _ _ Ho p p' c n).
  - unfold size_wrap. rewrite wrap_small by lia. lia.
Qed.

(** Setting the container of many. *)
Definition given (c : option nat) (ids : list nat) (nodes : gmap nat i_node) : gmap nat i_node :=
  foldl (λ m id, alter (λ n, mkINode (i_ n) c) id m) nodes ids.

Lemma given_lookup c ids nodes id :
  given c ids nodes !! id
  = if decide (id ∈ ids) then (λ n, mkINode (i_ n) c) <$> nodes !! id else nodes !! id.
Proof.
  revert nodes. induction ids as [|x ids IH]; intros nodes;
    [rewrite decide_False; [done|apply not_elem_of_nil]|].
  change (given c (x :: ids) nodes) with (given c ids (alter (λ n, mkINode (i_ n) c) x nodes)).
  rewrite IH. destruct (decide (id = x)) as [->|Hne].
  - rewrite lookup_alter_eq. rewrite (decide_True (P := x ∈ x :: ids)) by left.
    case_decide; [|done]. by destruct (nodes !! x).
  - rewrite lookup_alter_ne by done. destruct (decide (id ∈ ids)); [rewrite decide_True by by right|rewrite decide_False];
      [done|done|]. by intros [?|?]%elem_of_cons.
Qed.

Lemma given_key c ids nodes id : i_ <$> given c ids nodes !! id = i_ <$> nodes !! id.
Proof. rewrite given_lookup. case_decide; [|done]. by destruct (nodes !! id). Qed.

Lemma alter_insert {N} (g : N → N) (m : gmap nat N) k n : m !! k = Some n → alter g k m = <[k := g n]> m.
Proof.
  intros Hk. apply map_eq. intros x. destruct (decide (x = k)) as [->|Hne].
  - by rewrite lookup_alter_eq, lookup_insert_eq, Hk.
  - by rewrite lookup_alter_ne, lookup_insert_ne.
Qed.

Lemma give_run c ids d :
  (∀ id, id ∈ ids → is_Some (inodes d !! id)) →
  give c ids d = (Ret tt, set_iters (itab d) (given c ids (inodes d)) (isz d) d).
Proof.
  revert d. induction ids as [|id ids IH]; intros d Hids; [by destruct d|].
  destruct (Hids id ltac:(left)) as [n Hn]. cbn [give given foldl]. unfold set_ic, get_i, put_i.
  unfold cbind at 1 2. rewrite Hn. cbn [cmodify]. unfold cmodify. rewrite IH.
  - by rewrite (alter_insert _ _ _ _ Hn).
  - intros x Hx. cbn. apply lookup_insert_is_Some'. right. apply Hids. by right.
Qed.

Lemma elem_of_rev (l : list nat) x : x ∈ rev l ↔ x ∈ l.
Proof. by rewrite !list_elem_of_In, <- in_rev. Qed.

Lemma given_rev c ids nodes : given c (rev ids) nodes = given c ids nodes.
Proof.
  apply map_eq. intros id. rewrite !given_lookup. apply decide_ext. apply elem_of_rev.
Qed.

Definition cleared d p c : db :=
  mkDb (itab d) (given None (its c) (inodes d)) (isz d) (ctab d)
    (<[p := mkCNode (c_ c) [] (room c)]> (cnodes d)) (csz d).

Lemma clear_run d p c :
  (∀ id, id ∈ its c → is_Some (inodes d !! id)) → cnodes d !! p = Some c → clear p d = (Ret tt, cleared d p c).
Proof.
  intros Hids Hp. unfold clear, get_c, put_c, cbind, cmodify. rewrite Hp. rewrite give_run, given_rev; [done|].
  intros id. rewrite elem_of_rev. apply Hids.
Qed.

(** Where iterators belong, in terms of containers. *)
Lemma container_of d a id n :
  db_ok hash d a → inodes d !! id = Some n →
  iters a !! i_ n = Some (cont_of d n)
  ∧ (∀ p c, cnodes d !! p = Some c → id ∈ its c → cont_of d n = Some (c_ c))
  ∧ (∀ p c, cnodes d !! p = Some c → id ∉ its c → cont_of d n ≠ Some (c_ c)).
Proof.
  intros Ho Hn. split; [apply Ho; by exists id, n|]. unfold cont_of.
  split; intros p c Hp Hin; destruct (ok_lists _ _ _ Ho p c Hp) as (_ & _ & Hl).
  - apply Hl in Hin as (n' & Hn' & Hc). rewrite Hn in Hn'. injection Hn' as <-. rewrite Hc. cbn. by rewrite Hp.
  - destruct (i_c n) as [p'|] eqn:Hc; cbn; [|done]. destruct (cnodes d !! p') as [c'|] eqn:Hp'; [|done].
    intros [= He]. pose proof (ok_cuniq _ _ _ Ho p p' c c' Hp Hp' (eq_sym He)) as <-.
    apply Hin, Hl. eauto.
Qed.

Lemma cleared_ok d a p c :
  db_ok hash d a → cnodes d !! p = Some c →
  db_ok hash (cleared d p c)
    (mkAdb (moved (λ c', if decide (c' = c_ c) then None else Some c') <$> iters a) (conts a)).
Proof.
  intros Ho Hp. apply db_relink; [done|apply given_key|by apply (fmap_update _ _ _ c)| | |apply dom_fmap_L|].
  - intros p' c' Hp'. apply lookup_insert_Some in Hp' as [[<- <-]|[Hne Hp']]; cbn [its room].
    + destruct (ok_lists _ _ _ Ho p c Hp) as (_ & Hroom & Hl). split; [constructor|].
      split; [pose proof (zlen_nonneg (its c)); by trans (zlen (its c))|]. intros id.
      split; [intros Hi; by apply not_elem_of_nil in Hi|]. intros (n & Hn & Hc). exfalso.
      rewrite given_lookup in Hn. case_decide as Hin.
      * destruct (inodes d !! id); [|done]. injection Hn as <-. done.
      * apply Hin, Hl. eauto.
    + destruct (ok_lists _ _ _ Ho p' c' Hp') as (Hnd & Hroom & Hl). split; [done|]. split; [done|].
      destruct (ok_lists _ _ _ Ho p c Hp) as (_ & _ & Hl0).
      intros id. rewrite Hl, given_lookup. split.
      * intros (n & Hn & Hc). exists n. rewrite decide_False; [done|]. intros (n' & Hn' & Hc')%Hl0. congruence.
      * intros (n & Hn & Hc). case_decide; [|by eauto]. destruct (inodes d !! id); [|done]. by injection Hn as <-.
  - intros id n p' Hn Hc. apply lookup_insert_is_Some'. right. rewrite given_lookup in Hn.
    case_decide; [destruct (inodes d !! id); [|done]; by injection Hn as <-|]. by eapply (ok_owned _ _ _ Ho).
  - intros id n' Hn'. rewrite given_lookup in Hn'. rewrite lookup_fmap. case_decide as Hin.
    + destruct (inodes d !! id) as [n|] eqn:Hn; [|done]. injection Hn' as <-. cbn.
      destruct (container_of d a id n Ho Hn) as (-> & Hc & _). rewrite (Hc p c Hp Hin). cbn. by rewrite decide_True.
    + destruct (container_of d a id n' Ho Hn') as (-> & _ & Hc). specialize (Hc p c Hp Hin). cbn. f_equal.
      fold (cont_of d n'). destruct (cont_of d n') as [c0|]; cbn; [|done]. rewrite decide_False; [done|congruence].
Qed.

(** Two containers change their lists, and their iterators follow. *)
Definition swapped d p1 n1 p2 n2 : db :=
  mkDb (itab d) (given (Some p2) (its n1) (given (Some p1) (its n2) (inodes d))) (isz d) (ctab d)
    (<[p2 := mkCNode (c_ n2) (its n1) (room n1)]> (<[p1 := mkCNode (c_ n1) (its n2) (room n2)]> (cnodes d))) (csz d).

Lemma members_alive d a p c id : db_ok hash d a → cnodes d !! p = Some c → id ∈ its c → is_Some (inodes d !! id).
Proof. intros Ho Hp Hin. apply (ok_lists _ _ _ Ho p c Hp) in Hin as (n & Hn & _). by eexists. Qed.

Lemma swap_run d a p1 n1 p2 n2 :
  db_ok hash d a → cnodes d !! p1 = Some n1 → cnodes d !! p2 = Some n2 →
  find_c hash (c_ n1) d = (Ret p1, d) → find_c hash (c_ n2) d = (Ret p2, d) →
  swap hash (c_ n1) (c_ n2) d = (Ret tt, swapped d p1 n1 p2 n2).
Proof.
  intros Ho Hp1 Hp2 Hf1 Hf2. unfold swap. rewrite (cbind_ret _ _ _ _ _ Hf1), (cbind_ret _ _ _ _ _ Hf2).
  unfold get_c at 1 2, put_c at 1 2. unfold cbind at 1. rewrite Hp1. unfold cbind at 1. rewrite Hp2.
  unfold cmodify. unfold cbind at 1 2. set (d' := set_conts _ _ _ _).
  assert (Hc1 : ∃ m1, cnodes d' !! p1 = Some m1 ∧ its m1 = its n2).
  { cbn. destruct (decide (p1 = p2)) as [->|Hne].
    - rewrite lookup_insert_eq. eexists. split; [done|]. cbn. congruence.
    - rewrite lookup_insert_ne, lookup_insert_eq by done. by eexists. }
  destruct Hc1 as (m1 & Hm1 & Hits1).
  assert (Hm2 : cnodes d' !! p2 = Some (mkCNode (c_ n2) (its n1) (room n1))) by (cbn; by rewrite lookup_insert_eq).
  unfold get_c at 1. unfold cbind at 1. rewrite Hm1, Hits1. unfold cbind at 1. rewrite give_run.
  - unfold get_c, cbind. cbn [set_iters cnodes]. rewrite Hm2. rewrite give_run; [done|]. cbn [its inodes set_iters].
    intros id Hin. rewrite given_lookup. destruct (members_alive d a p1 n1 id Ho Hp1 Hin) as [n Hn]. cbn. rewrite Hn.
    case_decide; by eexists.
  - intros id Hin. by apply (members_alive d a p2 n2 id Ho Hp2).
Qed.

(** The lists of two containers have nothing in common. *)
Lemma lists_apart d a p1 n1 p2 n2 id :
  db_ok hash d a → cnodes d !! p1 = Some n1 → cnodes d !! p2 = Some n2 →
  id ∈ its n1 → id ∈ its n2 → p1 = p2.
Proof.
  intros Ho Hp1 Hp2 (n & Hn & Hc)%(ok_lists _ _ _ Ho p1 n1 Hp1) (n' & Hn' & Hc')%(ok_lists _ _ _ Ho p2 n2 Hp2).
  congruence.
Qed.

(** Where an iterator is after the swap. *)
Definition swap_node (p1 p2 p : nat) : nat := if decide (p = p1) then p2 else if decide (p = p2) then p1 else p.

Lemma swapped_node d a p1 n1 p2 n2 id :
  db_ok hash d a → cnodes d !! p1 = Some n1 → cnodes d !! p2 = Some n2 →
  inodes (swapped d p1 n1 p2 n2) !! id = (λ n, mkINode (i_ n) (swap_node p1 p2 <$> i_c n)) <$> inodes d !! id.
Proof.
  intros Ho Hp1 Hp2. cbn. rewrite !given_lookup.
  destruct (ok_lists _ _ _ Ho p1 n1 Hp1) as (_ & _ & Hl1), (ok_lists _ _ _ Ho p2 n2 Hp2) as (_ & _ & Hl2).
  destruct (decide (id ∈ its n1)) as [Hin|Hnin].
  - pose proof Hin as (n & Hn & Hc)%Hl1. rewrite Hn. cbn. rewrite Hc. cbn. unfold swap_node. rewrite (decide_True (P := p1 = p1)) by done.
    by case_decide.
  - destruct (decide (id ∈ its n2)) as [Hin|Hnin2].
    + pose proof Hin as (n & Hn & Hc)%Hl2. rewrite Hn. cbn. rewrite Hc. cbn. unfold swap_node.
      destruct (decide (p2 = p1)) as [->|]; [|by rewrite decide_True]. exfalso. apply Hnin, Hl1. eauto.
    + destruct (inodes d !! id) as [n|] eqn:Hn; [|done]. cbn. destruct n as [x [p|]]; [|done]. cbn. unfold swap_node.
      rewrite !decide_False; [done| |]; intros ->; [apply Hnin2, Hl2|apply Hnin, Hl1]; by eexists.
Qed.

Lemma swapped_ok d a p1 n1 p2 n2 :
  db_ok hash d a → cnodes d !! p1 = Some n1 → cnodes d !! p2 = Some n2 →
  db_ok hash (swapped d p1 n1 p2 n2)
    (mkAdb (moved (λ c, if decide (c = c_ n1) then Some (c_ n2) else if decide (c = c_ n2) then Some (c_ n1)
                        else Some c) <$> iters a) (conts a)).
Proof.
  intros Ho Hp1 Hp2. pose proof (swapped_node d a p1 n1 p2 n2) as Hnode. unfold swapped in *. cbn [inodes] in Hnode.
  assert (Hcs : ∀ p c, <[p2:=mkCNode (c_ n2) (its n1) (room n1)]> (<[p1:=mkCNode (c_ n1) (its n2) (room n2)]> (cnodes d)) !! p = Some c →
    ∃ p0 c0, p = swap_node p1 p2 p0 ∧ cnodes d !! p0 = Some c0 ∧ its c = its c0 ∧ room c = room c0).
  { intros p c Hp. unfold swap_node. apply lookup_insert_Some in Hp as [[<- <-]|[Hne2 Hp]];
      [exists p1, n1; by rewrite decide_True|]. apply lookup_insert_Some in Hp as [[<- <-]|[Hne1 Hp]].
    - exists p2, n2. rewrite decide_False by done. by rewrite decide_True.
    - exists p, c. by rewrite !decide_False. }
  assert (Hinv : ∀ p, swap_node p1 p2 (swap_node p1 p2 p) = p).
  { intros p. unfold swap_node. repeat (case_decide; subst); congruence. }
  apply db_relink; [done| | | | |apply dom_fmap_L|].
  - intros id. rewrite (Hnode id) by done. by destruct (inodes d !! id).
  - intros p. destruct (decide (p = p2)) as [->|Hne2]; [rewrite lookup_insert_eq; by rewrite Hp2|].
    rewrite lookup_insert_ne by done. destruct (decide (p = p1)) as [->|Hne1]; [rewrite lookup_insert_eq; by rewrite Hp1|].
    by rewrite lookup_insert_ne.
  - intros p c (p0 & c0 & -> & Hp0 & -> & ->)%Hcs. destruct (ok_lists _ _ _ Ho p0 c0 Hp0) as (Hnd & Hroom & Hl).
    split; [done|]. split; [done|]. intros id. rewrite Hl, (Hnode id) by done. split.
    + intros (n & -> & Hc). cbn. eexists. split; [done|]. cbn. by rewrite Hc.
    + intros (n' & Hn' & Hc). destruct (inodes d !! id) as [n|]; [|done]. injection Hn' as <-. cbn in Hc.
      exists n. split; [done|]. destruct (i_c n) as [q|]; [|done]. injection Hc as Hc.
      f_equal. rewrite <- (Hinv q), Hc. apply Hinv.
  - intros id n p Hn Hc. rewrite (Hnode id) in Hn by done. destruct (inodes d !! id) as [m|] eqn:Hm; [|done].
    injection Hn as <-. cbn in Hc. destruct (i_c m) as [q|] eqn:Hq; [|done]. injection Hc as <-.
    rewrite !lookup_insert_is_Some'. unfold swap_node. repeat case_decide; auto.
    right. right. by eapply (ok_owned _ _ _ Ho).
  - intros id n' Hn'. rewrite (Hnode id) in Hn' by done. destruct (inodes d !! id) as [n|] eqn:Hn; [|done].
    injection Hn' as <-. cbn. rewrite lookup_fmap. destruct (container_of d a id n Ho Hn) as (-> & _ & _). cbn. f_equal.
    unfold cont_of. destruct (i_c n) as [q|] eqn:Hq; [|done]. cbn.
    destruct (ok_owned _ _ _ Ho id n q Hn Hq) as [m Hm]. rewrite Hm. cbn. unfold swap_node.
    destruct (decide (q = p1)) as [->|Hne1]; [|destruct (decide (q = p2)) as [->|Hne2]].
    + rewrite Hp1 in Hm. injection Hm as <-. rewrite decide_True by done. by rewrite Hp2.
    + rewrite Hp2 in Hm. injection Hm as <-. rewrite Hp1. case_decide as Hd; [cbn; congruence|]. by rewrite decide_True.
    + rewrite Hm. rewrite !decide_False; [done| |]; intros He;
        [apply Hne2; by apply (ok_cuniq _ _ _ Ho q p2 m n2)|apply Hne1; by apply (ok_cuniq _ _ _ Ho q p1 m n1)].
Qed.

(** ** The operations *)

Context (answer : query → Z → Z → bool).

Lemma set_ic_run d id n c :
  inodes d !! id = Some n →
  set_ic id c d = (Ret tt, set_iters (itab d) (<[id := mkINode (i_ n) c]> (inodes d)) (isz d) d).
Proof. intros Hn. unfold set_ic, get_i, put_i, cbind, cmodify. by rewrite Hn. Qed.

Lemma remove_run d p c id :
  cnodes d !! p = Some c → id ∈ its c →
  remove p id d
  = (Ret tt, set_conts (ctab d) (<[p := mkCNode (c_ c) (remove_first id (its c)) (room c)]> (cnodes d)) (csz d) d).
Proof. intros Hp Hin. unfold remove, get_c, put_c, cbind, cmodify. rewrite Hp. by rewrite decide_True. Qed.

Lemma add_run d an p c id :
  cnodes d !! p = Some c → zlen (its c) ≤ room c → array_mem an = true →
  ∃ r, zlen (its c) < r ∧ add an p id d
    = (Ret tt, set_conts (ctab d) (<[p := mkCNode (c_ c) (its c ++ [id]) r]> (cnodes d)) (csz d) d).
Proof.
  intros Hp Hr Hm. pose proof (zlen_nonneg (its c)).
  unfold add, get_c, put_c, cbind, cmodify. rewrite Hp, Hm. case_decide; [|exists (room c); split; [lia|done]].
  eexists. split; [|done]. case_decide; lia.
Qed.

Lemma owner_some d id n : inodes d !! id = Some n → owner_of (Some id) d = (Ret (i_c n), d).
Proof. intros Hn. unfold owner_of, get_i, cbind, cret. by rewrite Hn. Qed.

Lemma owner_none d : owner_of None d = (Ret None, d).
Proof. done. Qed.

Lemma insert_ic_ok d a an i c :
  db_ok hash d a → answers_ok an d → iters a !! i = None → c ∈ conts a →
  ∃ d', insert_ic hash next_size an i c d = (Ret tt, d') ∧ db_ok hash d' (mkAdb (<[i := Some c]> (iters a)) (conts a)).
Proof.
  intros Ho Ha Hi Hc. destruct (insert_iterator_ok d a an i Ho Ha Hi) as (r & t & Hrun & Hfree & Ho1).
  unfold insert_ic. rewrite (cbind_ret _ _ _ _ _ Hrun). set (d1 := set_iters t _ _ d) in *.
  unfold cget. unfold cbind at 1.
  destruct (find_c_cases d1 _ c Ho1) as [(p & n & Hf & Hp & <- & _)|[Hn _]]; [|done].
  rewrite decide_False; [|destruct (bucket_member hash c_ _ _ _ _ (ok_ctab _ _ _ Ho1) Hp); lia].
  rewrite (cbind_ret _ _ _ _ _ Hf).
  destruct (ok_lists _ _ _ Ho1 p n Hp) as (_ & Hroom & _).
  destruct (add_run d1 an p n r Hp Hroom) as (rm & Hrm & Hadd); [apply Ha|].
  rewrite (cbind_ret _ _ _ _ _ Hadd).
  assert (Hr : inodes d1 !! r = Some (mkINode i None)) by (cbn; by rewrite lookup_insert_eq).
  rewrite (set_ic_run _ r (mkINode i None)) by exact Hr. eexists. split; [done|].
  pose proof (adopted_ok d1 _ r _ p n rm Ho1 Hr eq_refl Hp Hrm) as Ho2. cbn [iters conts i_] in Ho2.
  by rewrite insert_insert_eq in Ho2.
Qed.

Lemma erase_i_ok d a i :
  db_ok hash d a →
  ∃ d', erase_i hash i d = (Ret tt, d') ∧ db_ok hash d' (mkAdb (delete i (iters a)) (conts a)).
Proof.
  intros Ho. unfold erase_i. destruct (find_iterator_cases d a i Ho) as [(id & n & Hf & Hn & <- & _)|[Hf Hi]];
    rewrite (cbind_ret _ _ _ _ _ Hf).
  2:{ exists d. split; [done|]. rewrite delete_id by done. by destruct a. }
  unfold get_i at 1. unfold cbind at 1. rewrite Hn. unfold cmodify. unfold cbind at 1.
  destruct (i_c n) as [p|] eqn:Hc; [|eexists; split; [done|by apply forgotten_i_ok]].
  destruct (ok_owned _ _ _ Ho id n p Hn Hc) as [c Hp].
  destruct (ok_lists _ _ _ Ho p c Hp) as (_ & _ & Hl).
  rewrite (remove_run (set_iters _ _ _ d) p c id Hp) by (apply Hl; eauto). eexists. split; [done|].
  pose proof (forgotten_i_ok _ _ id (mkINode (i_ n) None) (released_ok d a id n p c Ho Hn Hc Hp)) as Ho'.
  cbn in Ho'. rewrite lookup_insert_eq in Ho'. specialize (Ho' eq_refl eq_refl).
  rewrite !delete_insert_eq in Ho'. exact Ho'.
Qed.

Lemma invalidate_all_ok d a c :
  db_ok hash d a → c ∈ conts a →
  ∃ d', invalidate_all hash c d = (Ret tt, d')
    ∧ db_ok hash d' (mkAdb (moved (λ c', if decide (c' = c) then None else Some c') <$> iters a) (conts a)).
Proof.
  intros Ho Hc. unfold invalidate_all. destruct (find_c_cases d a c Ho) as [(p & n & Hf & Hp & <- & _)|[? _]]; [|done].
  rewrite (cbind_ret _ _ _ _ _ Hf), (clear_run d p n); [|by intros id; apply (members_alive d a p)|done].
  eexists. split; [done|]. by apply cleared_ok.
Qed.

Lemma erase_c_ok d a c :
  db_ok hash d a → c ∈ conts a →
  ∃ d', erase_c hash c d = (Ret tt, d')
    ∧ db_ok hash d' (mkAdb (moved (λ c', if decide (c' = c) then None else Some c') <$> iters a) (conts a ∖ {[c]})).
Proof.
  intros Ho Hc. unfold erase_c. destruct (find_c_cases d a c Ho) as [(p & n & Hf & Hp & <- & _)|[? _]]; [|done].
  rewrite (cbind_ret _ _ _ _ _ Hf). unfold cmodify at 1. unfold cbind at 1.
  rewrite (cbind_ret _ _ _ _ _ (clear_run (set_conts _ _ _ d) p n (λ id, members_alive d a p n id Ho Hp) Hp)).
  eexists. split; [done|].
  pose proof (forgotten_c_ok _ _ p (mkCNode (c_ n) [] (room n)) (cleared_ok d a p n Ho Hp)) as Ho'.
  cbn in Ho'. rewrite lookup_insert_eq in Ho'. specialize (Ho' eq_refl eq_refl). exact Ho'.
Qed.

(** An iterator that is there leaves its container, if it has one. *)
Lemma disown_ok d a id n :
  db_ok hash d a → inodes d !! id = Some n →
  ∃ d1, (match i_c n with None => cret tt | Some p => remove p id end ;;; set_ic id None) d = (Ret tt, d1)
    ∧ db_ok hash d1 (mkAdb (<[i_ n := None]> (iters a)) (conts a))
    ∧ inodes d1 !! id = Some (mkINode (i_ n) None)
    ∧ ∀ p c, cnodes d !! p = Some c → ∃ c', cnodes d1 !! p = Some c' ∧ c_ c' = c_ c.
Proof.
  intros Ho Hn. destruct (i_c n) as [p|] eqn:Hc.
  - destruct (ok_owned _ _ _ Ho id n p Hn Hc) as [c Hp].
    destruct (ok_lists _ _ _ Ho p c Hp) as (_ & _ & Hl).
    rewrite (cbind_ret _ _ _ _ _ (remove_run d p c id Hp (proj2 (Hl id) (ex_intro _ n (conj Hn Hc))))).
    rewrite (set_ic_run _ id n) by exact Hn. exists (released d id n p c). split; [done|].
    split; [by apply released_ok|]. split; [cbn; by rewrite lookup_insert_eq|]. intros q m Hq. cbn.
    destruct (decide (q = p)) as [->|Hne]; [rewrite lookup_insert_eq|by rewrite lookup_insert_ne by done; eauto].
    eexists. split; [done|]. cbn. congruence.
  - unfold cret, cbind. rewrite (set_ic_run d id n) by done. destruct n as [i oc]. cbn in *. subst oc.
    rewrite insert_id by done. exists d. split; [by destruct d|]. split; [|by eauto].
    rewrite insert_id; [by destruct a|]. destruct (container_of d a id _ Ho Hn) as [Hx _]. exact Hx.
Qed.

Lemma cbind_seq {W} (m1 m2 k : comp W unit) w w' :
  (m1 ;;; m2) w = (Ret tt, w') → (m1 ;;; m2 ;;; k) w = k w'.
Proof. unfold cbind. destruct (m1 w) as [[]?]; try done. intros ->. done. Qed.

(** The rest of [__iterator_copy], once both iterators have been found. *)
Lemma copy_tail_ok d a an id n c0 :
  db_ok hash d a → inodes d !! id = Some n → array_mem an = true → (∀ p, c0 = Some p → is_Some (cnodes d !! p)) →
  ∃ d', (if decide (i_c n = c0) then cret tt
         else match i_c n with None => cret tt | Some p => remove p id end ;;;
              set_ic id None ;;;
              match c0 with None => cret tt | Some p0 => set_ic id (Some p0) ;;; add an p0 id end) d = (Ret tt, d')
    ∧ db_ok hash d' (mkAdb (<[i_ n := c0 ≫= λ p, c_ <$> cnodes d !! p]> (iters a)) (conts a)).
Proof.
  intros Ho Hn Hm Hc0. case_decide as Heq.
  { exists d. split; [done|]. subst c0. destruct (container_of d a id n Ho Hn) as [Hx _].
    rewrite insert_id by exact Hx. by destruct a. }
  destruct (disown_ok d a id n Ho Hn) as (d1 & Hrun & Ho1 & Hn1 & Hk).
  rewrite (cbind_seq _ _ _ _ _ Hrun). destruct c0 as [p0|]; [|by exists d1].
  destruct (Hc0 p0 eq_refl) as [c Hp]. destruct (Hk p0 c Hp) as (c' & Hp' & Hcc).
  rewrite (cbind_ret _ _ _ _ _ (set_ic_run d1 id _ (Some p0) Hn1)). set (d2 := set_iters _ _ _ d1).
  destruct (ok_lists _ _ _ Ho1 p0 c' Hp') as (_ & Hroom & _).
  destruct (add_run d2 an p0 c' id Hp' Hroom Hm) as (r & Hr & ->). eexists. split; [done|].
  pose proof (adopted_ok d1 _ id _ p0 c' r Ho1 Hn1 eq_refl Hp' Hr) as Ho2. cbn [i_ iters conts] in Ho2.
  rewrite insert_insert_eq, Hcc in Ho2. cbn. by rewrite Hp.
Qed.

Lemma iterator_copy_ok d a an i i0 :
  db_ok hash d a → answers_ok an d →
  ∃ d', iterator_copy hash next_size an i i0 d = (Ret tt, d')
    ∧ db_ok hash d' (match iters a !! i0, iters a !! i with
      | Some oc, _ => mkAdb (<[i := oc]> (iters a)) (conts a)
      | None, Some _ => mkAdb (<[i := None]> (iters a)) (conts a)
      | None, None => a
      end).
Proof.
  intros Ho Ha. assert (Hm : array_mem an = true) by apply Ha. unfold iterator_copy.
  destruct (find_iterator_cases d a i Ho) as [(id & n & Hf & Hn & <- & Hi)|[Hf Hi]];
  destruct (find_iterator_cases d a i0 Ho) as [(id0 & n0 & Hf0 & Hn0 & <- & Hi0)|[Hf0 Hi0]];
    rewrite Hi0, ?Hi, (cbind_ret _ _ _ _ _ Hf), (cbind_ret _ _ _ _ _ Hf0).
  - rewrite (cbind_ret _ _ _ _ _ (owner_some d id0 n0 Hn0)). unfold cret at 1. unfold cbind at 1.
    rewrite (cbind_ret _ _ _ _ _ (owner_some d id n Hn)).
    apply (copy_tail_ok d a an id n (i_c n0)); [done|done|done|]. intros p Hp. by eapply (ok_owned _ _ _ Ho).
  - rewrite (cbind_ret _ _ _ _ _ (owner_none d)). unfold cret at 1. unfold cbind at 1.
    rewrite (cbind_ret _ _ _ _ _ (owner_some d id n Hn)). by apply (copy_tail_ok d a an id n None).
  - rewrite (cbind_ret _ _ _ _ _ (owner_some d id0 n0 Hn0)).
    destruct (insert_iterator_ok d a an i Ho Ha Hi) as (r & t & Hrun & Hfree & Ho1).
    set (d1 := set_iters t _ _ d) in *.
    assert (Hins : (let* x := insert_iterator hash next_size an i in cret (Some x)) d = (Ret (Some r), d1))
      by (unfold cbind; by rewrite Hrun).
    rewrite (cbind_ret _ _ _ _ _ Hins).
    assert (Hr : inodes d1 !! r = Some (mkINode i None)) by (cbn; by rewrite lookup_insert_eq).
    rewrite (cbind_ret _ _ _ _ _ (owner_some d1 r _ Hr)).
    destruct (copy_tail_ok d1 _ an r _ (i_c n0) Ho1 Hr Hm) as (d' & Hd & Ho'); [intros p Hp; by eapply (ok_owned _ _ _ Ho)|].
    exists d'. split; [exact Hd|]. cbn [iters conts i_] in Ho'. by rewrite insert_insert_eq in Ho'.
  - by exists d.
Qed.

Lemma owner_found d a i :
  db_ok hash d a →
  ∃ o c, find_iterator hash i d = (Ret o, d) ∧ owner_of o d = (Ret c, d)
    ∧ (o = None ↔ iters a !! i = None)
    ∧ (iters a !! i : option (option Z)) ≫= id = c ≫= (λ p, c_ <$> cnodes d !! p)
    ∧ (∀ p, c = Some p → is_Some (cnodes d !! p)).
Proof.
  intros Ho. destruct (find_iterator_cases d a i Ho) as [(id & n & Hf & Hn & <- & Hi)|[Hf Hi]]; rewrite Hi.
  - exists (Some id), (i_c n). split; [done|]. split; [by apply owner_some|]. split; [done|]. split; [done|].
    intros p Hp. by eapply (ok_owned _ _ _ Ho).
  - by exists None, None.
Qed.

Lemma ask_ok d a q i :
  db_ok hash d a →
  ask hash answer q i d
  = (Ret (match (iters a !! i : option (option Z)) ≫= id with Some c => answer q c i | None => false end), d).
Proof.
  intros Ho. destruct (owner_found d a i Ho) as (o & c & Hf & Hw & _ & Hi & Hc). unfold ask.
  rewrite (cbind_ret _ _ _ _ _ Hf), (cbind_ret _ _ _ _ _ Hw), Hi. destruct c as [p|]; [|done].
  destruct (Hc p eq_refl) as [n Hp]. unfold get_c, cbind. cbn. by rewrite Hp.
Qed.

Lemma find_c_from_i_ok d a i :
  db_ok hash d a →
  find_c_from_i hash i d = (match iters a !! i with Some oc => Ret oc | None => AssertFailed end, d).
Proof.
  intros Ho. destruct (owner_found d a i Ho) as (o & c & Hf & Hw & Hn & Hi & Hc). unfold find_c_from_i.
  rewrite (cbind_ret _ _ _ _ _ Hf). destruct o as [id|]; [|by rewrite (proj1 Hn eq_refl)].
  rewrite (cbind_ret _ _ _ _ _ Hw). destruct (iters a !! i) as [oc|]; [|by discriminate (proj2 Hn eq_refl)].
  cbn in Hi. subst oc. destruct c as [p|]; [|done].
  destruct (Hc p eq_refl) as [n Hp]. unfold get_c, cbind. cbn. by rewrite Hp.
Qed.

Lemma comparable_ok d a i j :
  db_ok hash d a →
  comparable hash i j d
  = (Ret (bool_decide ((iters a !! i : option (option Z)) ≫= id ≠ None)
          && bool_decide ((iters a !! i : option (option Z)) ≫= id = (iters a !! j : option (option Z)) ≫= id)), d).
Proof.
  intros Ho. destruct (owner_found d a i Ho) as (o & c & Hf & Hw & _ & Hi & Hc).
  destruct (owner_found d a j Ho) as (o' & c' & Hf' & Hw' & _ & Hj & Hc'). unfold comparable.
  rewrite (cbind_ret _ _ _ _ _ Hf), (cbind_ret _ _ _ _ _ Hf'), (cbind_ret _ _ _ _ _ Hw), (cbind_ret _ _ _ _ _ Hw').
  rewrite Hi, Hj. unfold cret. do 2 f_equal. f_equal.
  - apply bool_decide_ext. destruct c as [p|]; [|done]. destruct (Hc p eq_refl) as [n Hp]. cbn. rewrite Hp. done.
  - apply bool_decide_ext. split; [by intros ->|]. destruct c as [p|], c' as [p'|]; cbn.
    + destruct (Hc p eq_refl) as [n Hp], (Hc' p' eq_refl) as [n' Hp']. rewrite Hp, Hp'. intros [= He].
      f_equal. by apply (ok_cuniq _ _ _ Ho p p' n n').
    + destruct (Hc p eq_refl) as [n Hp]. by rewrite Hp.
    + destruct (Hc' p' eq_refl) as [n' Hp']. by rewrite Hp'.
    + done.
Qed.

Lemma swap_ok d a c1 c2 :
  db_ok hash d a → c1 ∈ conts a → c2 ∈ conts a →
  ∃ d', swap hash c1 c2 d = (Ret tt, d')
    ∧ db_ok hash d' (mkAdb (moved (λ c, if decide (c = c1) then Some c2 else if decide (c = c2) then Some c1
                                        else Some c) <$> iters a) (conts a)).
Proof.
  intros Ho H1 H2. destruct (find_c_cases d a c1 Ho) as [(p1 & n1 & Hf1 & Hp1 & <- & _)|[? _]]; [|done].
  destruct (find_c_cases d a c2 Ho) as [(p2 & n2 & Hf2 & Hp2 & <- & _)|[? _]]; [|done].
  exists (swapped d p1 n1 p2 n2). split; [by apply (swap_run d a)|by apply swapped_ok].
Qed.

(** What is not registered ends the program. *)
Definition ended {A} (o : outcome A) : Prop := o = AssertFailed ∨ o = Undef DivideByZero.

Lemma cbind_ended {A B} (m : comp db A) (k : A → comp db B) d : ended (m d).1 → ended (cbind m k d).1.
Proof. unfold cbind. destruct (m d) as [[]?]; intros [E|E]; try done; cbn in *; [by left|right; congruence]. Qed.

Lemma find_c_ended d a c : db_ok hash d a → c ∉ conts a → ended (find_c hash c d).1.
Proof. intros Ho Hc. destruct (find_c_cases d a c Ho) as [(?&?&_&_&_&?)|[_ [->| ->]]]; [done|by left|by right]. Qed.

Lemma insert_ic_ended d a an i c :
  db_ok hash d a → answers_ok an d → iters a !! i = None → c ∉ conts a →
  ended (insert_ic hash next_size an i c d).1.
Proof.
  intros Ho Ha Hi Hc. destruct (insert_iterator_ok d a an i Ho Ha Hi) as (r & t & Hrun & _ & Ho1).
  unfold insert_ic. rewrite (cbind_ret _ _ _ _ _ Hrun). unfold cget. unfold cbind at 1.
  case_decide; [by left|]. apply cbind_ended. by apply (find_c_ended _ _ c Ho1).
Qed.

Lemma find_c_read d a c :
  db_ok hash d a → c ∈ conts a → (let* p := find_c hash c in node_read p) d = (Ret (RPtr (Some c)), d).
Proof.
  intros Ho Hc. destruct (find_c_cases d a c Ho) as [(p & n & Hf & Hp & <- & _)|[? _]]; [|done].
  rewrite (cbind_ret _ _ _ _ _ Hf). unfold node_read, get_c, cbind. by rewrite Hp.
Qed.

Lemma returns_ret {A} (g : A → db_res) (m : comp db A) d x d' : m d = (Ret x, d') → returns g m d = (Ret (g x), d').
Proof. intros Hm. unfold returns, cbind. by rewrite Hm. Qed.

End proofs.

(** ** The destructor *)

Lemma free_chain_ok {N} (nodes : gmap nat N) chain :
  NoDup chain → (∀ id, id ∈ chain → is_Some (nodes !! id)) →
  ∃ nodes', free_chain (Ret nodes) chain = Ret nodes' ∧ dom nodes' = dom nodes ∖ list_to_set chain.
Proof.
  induction chain as [|id chain IH]; intros Hnd Hin; [exists nodes; split; [done|set_solver]|].
  apply NoDup_cons in Hnd as [Hni Hnd]. destruct IH as (m & Hm & Hd); [done|intros x Hx; apply Hin; by right|].
  unfold free_chain in *. cbn [foldr]. rewrite Hm.
  assert (is_Some (m !! id)) as [n Hn].
  { apply elem_of_dom. rewrite Hd. apply elem_of_difference. split; [apply elem_of_dom, Hin; by left|].
    by rewrite elem_of_list_to_set. }
  rewrite Hn. eexists. split; [done|]. rewrite dom_delete_L, Hd. set_solver.
Qed.

Lemma free_table_ok {N} (t : table) (nodes : gmap nat N) :
  NoDup (concat t) → (∀ id, id ∈ concat t → is_Some (nodes !! id)) →
  ∃ nodes', foldl free_chain (Ret nodes) t = Ret nodes' ∧ dom nodes' = dom nodes ∖ list_to_set (concat t).
Proof.
  revert nodes. induction t as [|c t IH]; intros nodes Hnd Hin; [exists nodes; split; [done|set_solver]|].
  cbn in *. apply NoDup_app in Hnd as (Hc & Hd & Hnd).
  destruct (free_chain_ok nodes c Hc) as (m & Hm & Hdm); [intros x Hx; apply Hin, elem_of_app; by left|].
  rewrite Hm. destruct (IH m Hnd) as (m' & Hm' & Hdm').
  { intros x Hx. apply elem_of_dom. rewrite Hdm. apply elem_of_difference.
    split; [apply elem_of_dom, Hin, elem_of_app; by right|]. rewrite elem_of_list_to_set. intros Hxc. by apply (Hd x). }
  exists m'. split; [done|]. rewrite Hdm', Hdm, list_to_set_app_L. set_solver.
Qed.

Lemma free_all {N} hash (f : N → Z) nodes t :
  table_ok hash f nodes t → foldl free_chain (Ret nodes) t = Ret ∅.
Proof.
  intros Ht. destruct (free_table_ok t nodes) as (m & -> & Hd).
  - rewrite (to_all _ _ _ _ Ht). apply NoDup_elements.
  - intros id. by apply (table_members hash f).
  - f_equal. apply dom_empty_inv_L. rewrite Hd. apply set_eq. intros id.
    rewrite elem_of_difference, elem_of_list_to_set, (table_members hash f nodes t id Ht), elem_of_dom. set_solver.
Qed.

(** ** Properties *)

(** Each operation, as long as there is memory, does what the specification says and
    returns what it says, or ends the program. *)
Lemma db_run_refines hash next_size `{!TableSizes next_size} answer d a an op :
  db_ok hash d a → answers_ok an d → db_allowed op a →
  match db_spec answer op a with
  | Some (r, a') => ∃ d', db_run hash next_size answer an op d = (Ret r, d') ∧ db_ok hash d' a'
  | None => ended (db_run hash next_size answer an op d).1
  end.
Proof.
  intros Ho Ha Hal.
  assert (Hu : ∀ (m : comp db unit) a', (∃ d', m d = (Ret tt, d') ∧ db_ok hash d' a') →
    ∃ d', returns (λ _, RUnit) m d = (Ret RUnit, d') ∧ db_ok hash d' a').
  { intros m a' (d' & Hm & Hd). exists d'. split; [exact (returns_ret (λ _, RUnit) m d tt d' Hm)|done]. }
  destruct op as [i|i c|c|i|c|c|i i0|c1 c2|q i|i j|i|c|c|]; cbn [db_spec db_run db_allowed] in *.
  - destruct (insert_iterator_ok hash next_size d a an i Ho Ha Hal) as (r & t & Hr & _ & Hd).
    apply Hu. eexists. split; [|exact Hd]. unfold insert_i, cbind. by rewrite Hr.
  - case_decide; [by apply Hu, insert_ic_ok|by eapply cbind_ended, insert_ic_ended].
  - destruct (insert_c_ok hash next_size d a an c Ho Ha Hal) as (r & d' & Hr & (n & Hn & <-) & Hd).
    apply Hu. exists (made r (c_ n) d'). split; [|exact Hd]. unfold insert_c_template.
    rewrite (cbind_ret _ _ _ _ _ Hr). by apply construct_c_run.
  - by apply Hu, erase_i_ok.
  - case_decide; [by apply Hu, erase_c_ok|by eapply cbind_ended, cbind_ended, find_c_ended].
  - case_decide; [by apply Hu, invalidate_all_ok|by eapply cbind_ended, cbind_ended, find_c_ended].
  - destruct (iterator_copy_ok hash next_size d a an i i0 Ho Ha) as (d' & Hr & Hd).
    destruct (iters a !! i0), (iters a !! i); by apply Hu; exists d'.
  - case_decide as Hc; [destruct Hc; by apply Hu, swap_ok|]. apply cbind_ended.
    destruct (decide (c1 ∈ conts a)) as [H1|H1]; [|by eapply cbind_ended, find_c_ended].
    destruct (find_c_cases hash d a c1 Ho) as [(p & n & Hf & _)|[? _]]; [|done].
    unfold swap. rewrite (cbind_ret _ _ _ _ _ Hf). eapply cbind_ended, find_c_ended; [done|tauto].
  - exists d. split; [by apply (returns_ret RBool), ask_ok|done].
  - exists d. split; [by apply (returns_ret RBool), comparable_ok|done].
  - pose proof (find_c_from_i_ok hash d a i Ho) as Hf. destruct (iters a !! i) as [oc|].
    + exists d. split; [by apply (returns_ret RPtr)|done].
    + apply cbind_ended. rewrite Hf. by left.
  - case_decide; [exists d; split; [by apply (find_c_read hash d a)|done]|by eapply cbind_ended, find_c_ended].
  - case_decide; [exists d; split; [by apply (find_c_read hash d a)|done]|by eapply cbind_ended, find_c_ended].
  - by exists d.
Qed.


Lemma db_start_ok hash : db_ok hash db_start adb_start.
Proof.
  assert (Ht : ∀ N (f : N → Z), table_ok hash f ∅ []).
  { intros N f. split; [by rewrite dom_empty_L, elements_empty|by intros]. }
  split; cbn [db_start itab inodes isz ctab cnodes csz adb_start iters conts]; try done.
  - intros x oc. rewrite lookup_empty. split; [done|]. by intros (id & n & Hn & _).
  - intros c. split; [set_solver|]. by intros (p & n & Hn & _).
Qed.

(** The database while a container is registered: it is in order when its node has been
    made. *)
Inductive in_order (hash : Z → Z) (a : adb) : gmap nat construction → db → Prop :=
  | order_whole d : db_ok hash d a → in_order hash a ∅ d
  | order_linked t p n d :
      cnodes d !! p = Some n → c_ n ∉ conts a → db_ok hash (made p (c_ n) d) (mkAdb (iters a) ({[c_ n]} ∪ conts a)) →
      in_order hash a {[t := Linked p]} d
  | order_copied t p n d :
      cnodes d !! p = Some n → c_ n ∉ conts a → db_ok hash (made p (c_ n) d) (mkAdb (iters a) ({[c_ n]} ∪ conts a)) →
      in_order hash a {[t := Copied p (c_ n) (next_of (ctab d) p)]} d.

Lemma alone_pending (t t' : nat) (x : construction) : delete t {[t' := x]} = (∅ : gmap nat construction) → t' = t.
Proof.
  intros Hd. destruct (decide (t' = t)) as [|Hne]; [done|]. rewrite delete_singleton_ne in Hd by done.
  apply (f_equal (lookup t')) in Hd. rewrite lookup_singleton_eq, lookup_empty in Hd. done.
Qed.

(** The step that one thread makes alone. *)
Lemma db_step_refines hash next_size `{!TableSizes next_size} answer t an e s a r s' :
  in_order hash a (pending s) (base s) → delete t (pending s) = ∅ →
  match e with Call op => answers_ok an (base s) ∧ db_allowed op a | Construct => True end →
  db_step hash next_size answer t an e s = Some (Ret r, s') →
  ∃ a', replay (db_spec_step answer) a (option_list r) = Some a' ∧ in_order hash a' (pending s') (base s').
Proof.
  intros Ho Halone He. unfold db_step. destruct Ho as [d Ho|t' p n d Hp Hc Ho|t' p n d Hp Hc Ho].
  - rewrite lookup_empty. destruct e as [op|]; [|done]. destruct He as [Ha Hal].
    destruct (locked t op (lock_ s)) as [[lk| | | |]|]; try done.
    assert ((∃ c, op = InsertC c) ∨ ¬ ∃ c, op = InsertC c) as [(c & ->)|Hop].
    { destruct op; try (right; by intros [? [=]]). left. by eexists. }
    + destruct (insert_c_ok hash next_size d a an c Ho Ha Hal) as (p & d' & Hr & (n & Hn & Hcn) & Hd). rewrite Hr.
      intros [= <- <-]. exists a. split; [done|]. subst c. by apply (order_linked _ _ t p n).
    + pose proof (db_run_refines hash next_size answer d a an op Ho Ha Hal) as Hrun.
      intros Hst. assert (Hst' : match db_run hash next_size answer an op d with
        | (Ret x, d') => Some (Ret (Some (op, x)), mkShared lk ∅ d') | _ => None end = Some (Ret r, s')).
      { destruct op; try (by destruct Hop; eexists); revert Hst; destruct (db_run _ _ _ _ _ d) as [[] ?]; congruence. }
      clear Hst. destruct (db_run hash next_size answer an op d) as [[x| | | |] d'] eqn:Hd; try done. injection Hst' as <- <-.
      destruct (db_spec answer op a) as [[r' a']|] eqn:Hs; [|by destruct Hrun as [[=]|[=]]].
      destruct Hrun as (d'' & [= -> ->] & Ho'). exists a'. split; [|by constructor].
      cbn. unfold db_spec_step. cbn [fst snd]. by rewrite Hs, bool_decide_true.
  - apply alone_pending in Halone as ->. rewrite lookup_singleton_eq. destruct e; [done|]. rewrite Hp.
    intros [= <- <-]. exists a. split; [done|]. cbn [pending base]. rewrite insert_singleton_eq. by constructor.
  - apply alone_pending in Halone as ->. rewrite lookup_singleton_eq. destruct e; [done|].
    rewrite (construct_c_run p n d Hp), decide_True by done. intros [= <- <-].
    exists (mkAdb (iters a) ({[c_ n]} ∪ conts a)). split; [done|]. cbn [pending base]. rewrite delete_singleton_eq. by constructor.
Qed.

(** C36: The debug database behind its mutex is a map from iterators to containers: for
    any number of threads, as long as there is memory, and as long as no thread uses the
    database while another one registers a container, between the release of the mutex
    and the making of the container's node: the operations in the order of the mutex
    return what they would on the map, and the two tables, the nodes and the arrays stand
    for it; the making of the node finds it as it was.  An operation that has no result on
    the map, for a container or an iterator that is not registered, ends the program.
    (The node is made without the mutex, which is a race: [insert_c_races].) *)
Theorem debug_db_linearizable hash next_size `{!TableSizes next_size} answer s h :
  db_hist hash next_size answer s h →
  ∃ a, replay (db_spec_step answer) adb_start h = Some a
    ∧ (pending s = ∅ → db_ok hash (base s) a
         ∧ ∀ an op, answers_ok an (base s) → db_allowed op a → db_spec answer op a = None →
             ended (db_run hash next_size answer an op (base s)).1)
    ∧ ∀ t an x, pending s !! t = Some x → delete t (pending s) = ∅ →
        ∃ r s', db_step hash next_size answer t an Construct s = Some (Ret r, s').
Proof.
  intros Hh. assert (∃ a, replay (db_spec_step answer) adb_start h = Some a ∧ in_order hash a (pending s) (base s)) as (a & Hr & Ho).
  { induction Hh as [|s h t an e r s' _ (a & Hr & Ho) Halone He Hst]; [exists adb_start; split; [done|constructor; apply db_start_ok]|].
    destruct (db_step_refines hash next_size answer t an e s a r s' Ho Halone) as (a' & Ha' & Ho'); [|exact Hst|].
    - destruct e; [|done]. destruct He as [? He]. split; [done|by apply He].
    - exists a'. split; [|exact Ho']. destruct r as [er|]; cbn in *; [|by rewrite app_nil_r; simplify_eq].
      rewrite replay_snoc, Hr. cbn. by destruct (db_spec_step answer a er). }
  exists a. split; [done|]. split.
  - intros Hp. rewrite Hp in Ho. inversion Ho as [d Hok|t p n d _ _ _ Hs|t p n d _ _ _ Hs]; [subst|by apply map_non_empty_singleton in Hs..].
    split; [done|]. intros an op Ha Hal Hs.
    pose proof (db_run_refines hash next_size answer (base s) a an op Hok Ha Hal) as Hrun. by rewrite Hs in Hrun.
  - intros t an x Hx Halone. unfold db_step. rewrite Hx.
    inversion Ho as [d Hok Hs|t' p n d Hp _ _ Hs|t' p n d Hp _ _ Hs]; subst; rewrite <- ?Hs in *.
    + by rewrite lookup_empty in Hx.
    + apply alone_pending in Halone as ->. rewrite lookup_singleton_eq in Hx. injection Hx as <-. rewrite Hp. by eexists _, _.
    + apply alone_pending in Halone as ->. rewrite lookup_singleton_eq in Hx. injection Hx as <-.
      rewrite (construct_c_run p n _ Hp), decide_True by done. by eexists _, _.
Qed.

(** The destructor frees every node of both tables, and each once. *)
Theorem debug_db_destroyed hash d a : db_ok hash d a → db_destroy d = Ret (∅, ∅).
Proof.
  intros Ho. unfold db_destroy.
  by rewrite (free_all hash c_ _ _ (ok_ctab _ _ _ Ho)), (free_all hash i_ _ _ (ok_itab _ _ _ Ho)).
Qed.

(** Out of memory, for an iterator that is registered.  For the larger table:
    nothing has changed.  For its place in the container's array: it is registered
    with no container.  For the node, without a larger table: all the iterators of
    its chain are forgotten. *)
Theorem debug_db_out_of_memory hash next_size `{!TableSizes next_size} an d a i c :
  db_ok hash d a → isz d < 2 ^ 60 → iters a !! i = None →
  (table_mem an = false → zlen (itab d) < isz d + 1 →
   insert_i hash next_size an i d = (Throw bad_alloc, d))
  ∧ (answers_ok (mkAnswers (table_mem an) (node_mem an) true (junk an)) d → array_mem an = false →
     (∃ p n, cnodes d !! p = Some n ∧ c_ n = c ∧ zlen (its n) = room n) →
     ∃ d', insert_ic hash next_size an i c d = (Throw bad_alloc, d')
       ∧ db_ok hash d' (mkAdb (<[i := None]> (iters a)) (conts a)))
  ∧ (node_mem an = None → isz d + 1 ≤ zlen (itab d) →
     ∃ d', insert_i hash next_size an i d = (Throw bad_alloc, d')
       ∧ ∀ j, hash j mod zlen (itab d) = hash i mod zlen (itab d) → find_iterator hash j d' = (Ret None, d')).
Proof.
  intros Ho Hsz Hi. pose proof (ok_isz _ _ _ Ho) as Hz. pose proof (zlen_nonneg (itab d)) as Hl.
  assert (Hw : size_wrap (isz d + 1) = isz d + 1) by (apply wrap_small; lia).
  split; [|split].
  - intros Hm Hg. unfold insert_i, insert_iterator, grow, cbind, cget, clift. rewrite Hw, decide_True by done.
    unfold size_wrap. rewrite wrap_small by lia. destruct (next_size_law (2 * zlen (itab d) + 1) ltac:(lia)) as (p & -> & _).
    by rewrite Hm.
  - intros Ha Hm (p & n & Hp & <- & Hfull).
    destruct (insert_iterator_ok hash next_size d a _ i Ho Ha Hi) as (r & t & Hrun & _ & Ho1).
    assert (Hrun' : insert_iterator hash next_size an i d = insert_iterator hash next_size
      (mkAnswers (table_mem an) (node_mem an) true (junk an)) i d) by done.
    rewrite <- Hrun' in Hrun. unfold insert_ic. rewrite (cbind_ret _ _ _ _ _ Hrun). set (d1 := set_iters t _ _ d) in *.
    unfold cget. unfold cbind at 1.
    destruct (find_c_cases hash d1 _ (c_ n) Ho1) as [(q & m & Hf & Hq & Hqm & _)|[Hn _]].
    2:{ exfalso. apply Hn. apply (ok_conts _ _ _ Ho1). by exists p, n. }
    rewrite decide_False; [|destruct (bucket_member hash c_ _ _ _ _ (ok_ctab _ _ _ Ho1) Hq); lia].
    rewrite (cbind_ret _ _ _ _ _ Hf). exists d1. split; [|exact Ho1].
    assert (q = p) as -> by by apply (ok_cuniq _ _ _ Ho q p m n). replace m with n in * by (cbn in Hq; congruence).
    unfold add, cbind, get_c. rewrite Hq, decide_True by done. by rewrite Hm.
  - intros Hm Hg. unfold insert_i, insert_iterator, grow, cbind, cget, clift, cput. rewrite Hw, decide_False by lia.
    rewrite Hm. eexists. split; [done|]. intros j Hj. unfold find_iterator, cbind, cget, clift, set_iters. cbn.
    rewrite zlen_set_bucket. case_decide; [|done]. unfold bucket. rewrite zlen_set_bucket. unfold slot. rewrite Hj.
    fold (slot hash (zlen (itab d)) i). unfold set_bucket. rewrite list_lookup_insert_eq; [done|].
    apply slot_lt. lia.
Qed.

(** Out of memory, for the copy of an iterator into one without a container: the
    copy says that it is the container's, whose array does not have it, and the end
    of the copy's life ends the program. *)
Theorem iterator_copy_out_of_memory hash next_size an d a i i0 p n :
  db_ok hash d a → iters a !! i = Some None → iters a !! i0 = Some (Some (c_ n)) →
  cnodes d !! p = Some n → zlen (its n) = room n → array_mem an = false →
  ∃ d', iterator_copy hash next_size an i i0 d = (Throw bad_alloc, d') ∧ (erase_i hash i d').1 = AssertFailed.
Proof.
  intros Ho Hi Hi0 Hp Hfull Hm.
  destruct (find_iterator_cases hash d a i Ho) as [(id & x & Hf & Hx & <- & Hci)|[_ Hci]]; [|congruence].
  destruct (find_iterator_cases hash d a i0 Ho) as [(id0 & x0 & Hf0 & Hx0 & <- & Hci0)|[_ Hci0]]; [|congruence].
  rewrite Hi in Hci. injection Hci as Hci. rewrite Hi0 in Hci0. injection Hci0 as Hci0.
  assert (Hc : i_c x = None).
  { unfold cont_of in Hci. destruct (i_c x) as [q|] eqn:Hq; [|done]. cbn in Hci.
    destruct (ok_owned _ _ _ Ho id x q Hx Hq) as [m Hmm]. by rewrite Hmm in Hci. }
  assert (Hc0 : i_c x0 = Some p).
  { unfold cont_of in Hci0. destruct (i_c x0) as [q|]; [|done]. cbn in Hci0.
    destruct (cnodes d !! q) as [m|] eqn:Hq; [|done]. injection Hci0 as Hci0. f_equal.
    by apply (ok_cuniq _ _ _ Ho q p m n). }
  assert (Hnin : id ∉ its n) by (intros (y & Hy & Hyc)%(ok_lists _ _ _ Ho p n Hp); congruence).
  set (d' := set_iters (itab d) (<[id := mkINode (i_ x) (Some p)]> (inodes d)) (isz d) d). exists d'. split.
  - unfold iterator_copy. rewrite (cbind_ret _ _ _ _ _ Hf), (cbind_ret _ _ _ _ _ Hf0),
      (cbind_ret _ _ _ _ _ (owner_some d id0 x0 Hx0)). unfold cret at 1. unfold cbind at 1.
    rewrite (cbind_ret _ _ _ _ _ (owner_some d id x Hx)), Hc, Hc0, decide_False by done.
    unfold cret at 1. unfold cbind at 1. rewrite (cbind_ret _ _ _ _ _ (set_ic_run d id x None Hx)).
    assert (Hx1 : inodes (set_iters (itab d) (<[id := mkINode (i_ x) None]> (inodes d)) (isz d) d) !! id
      = Some (mkINode (i_ x) None)) by (cbn; by rewrite lookup_insert_eq).
    rewrite (cbind_ret _ _ _ _ _ (set_ic_run _ _ _ (Some p) Hx1)).
    cbn [set_iters itab inodes isz ctab cnodes csz i_]. rewrite insert_insert_eq.
    unfold add, cbind, get_c. cbn. rewrite Hp, decide_True by done. by rewrite Hm.
  - assert (Hf' : find_iterator hash (i_ x) d' = (Ret (Some id), d')).
    { unfold find_iterator, cbind, cget, clift. cbn.
      destruct (bucket_member hash i_ _ _ _ _ (ok_itab _ _ _ Ho) Hx). rewrite decide_True by lia.
      pose proof (fmap_update i_ (inodes d) id x (mkINode (i_ x) (Some p)) Hx eq_refl) as He.
      rewrite (find_some hash i_ (<[id := mkINode (i_ x) (Some p)]> (inodes d)) _ id (mkINode (i_ x) (Some p)));
        [done|by eapply table_ok_ext, Ho|by eapply uniq_ext, Ho|by rewrite lookup_insert_eq]. }
    unfold erase_i. rewrite (cbind_ret _ _ _ _ _ Hf'). unfold get_i at 1. unfold cbind at 1. change (inodes d') with (<[id := mkINode (i_ x) (Some p)]> (inodes d)).
    rewrite lookup_insert_eq. unfold cmodify. unfold cbind at 1. cbn [i_c]. unfold remove, cbind, get_c. cbn. rewrite Hp.
    by rewrite decide_False.
Qed.

(** ** Witnesses *)

(** Addresses hash to themselves; a table grows to [__next_prime]'s size where that
    is one. *)
Definition w_hash (x : Z) : Z := x.
Definition w_size (n : Z) : outcome Z :=
  match HashPrime.next_prime 400 n with
  | Some (Ret p) => Ret (if decide (n ≤ p) then p else n)
  | _ => Ret n
  end.

#[local] Instance w_sizes : TableSizes w_size.
Proof.
  intros n Hn. unfold w_size. destruct (HashPrime.next_prime 400 n) as [[p| | | |]|]; eexists; split; try done; try lia.
  case_decide; lia.
Defined.

Definition w_answer (q : query) (c i : Z) : bool := true.
Definition w_mem (r : nat) : answers := mkAnswers true (Some r) true ([7%nat], 9).

(** Containers at 100 and 200, iterators at 11 and 12. *)
Definition w_ops : list (answers * db_op) :=
  [(w_mem 1, InsertC 100); (w_mem 2, InsertC 200); (w_mem 3, InsertIC 11 100); (w_mem 4, InsertI 12);
   (w_mem 5, IteratorCopy 12 11); (w_mem 5, Swap 100 200)].

Definition w_run (ops : list (answers * db_op)) (d : db) : db :=
  foldl (λ d x, (db_run w_hash w_size w_answer x.1 x.2 d).2) d ops.

(** Both iterators follow the container's elements into the other. *)
Example w_final :
  itab (w_run w_ops db_start) = [[4%nat]; [3%nat]]
  ∧ (comparable w_hash 11 12 (w_run w_ops db_start)).1 = Ret true
  ∧ (find_c_from_i w_hash 12 (w_run w_ops db_start)).1 = Ret (Some 200).
Proof. split; [|split]; vm_compute; reflexivity. Qed.

Definition w_after (k : nat) : db := w_run (take k w_ops) db_start.

Definition w_good (an : answers) (op : db_op) (h : list (db_op * db_res)) (d : db) : bool :=
  bool_decide (answers_ok an d)
  && match replay (db_spec_step w_answer) adb_start h with Some a => bool_decide (db_allowed op a) | None => false end.

Definition w_alone (k : nat) : shared := mkShared None ∅ (w_after k).

Lemma w_step k h an op :
  db_hist w_hash w_size w_answer (w_alone k) h → w_good an op h (w_after k) = true →
  db_step w_hash w_size w_answer 0 an (Call op) (w_alone k) = Some (Ret (Some (op, RUnit)), w_alone (S k)) →
  db_hist w_hash w_size w_answer (w_alone (S k)) (h ++ [(op, RUnit)]).
Proof.
  intros Hh [Ha Hal]%andb_prop Hst. apply (hist_step _ _ _ (w_alone k) h 0 an (Call op) (Some (op, RUnit)));
    [exact Hh|done| |exact Hst].
  split; [by apply bool_decide_eq_true in Ha|]. intros a Hr. rewrite Hr in Hal. by apply bool_decide_eq_true in Hal.
Qed.

(** A container is registered in three steps. *)
Definition w_next (an : answers) (e : db_event) (s : shared) : shared :=
  match db_step w_hash w_size w_answer 0 an e s with Some (_, s') => s' | None => s end.

Lemma w_insert k h an c :
  let s1 := w_next an (Call (InsertC c)) (w_alone k) in
  let s2 := w_next an Construct s1 in
  db_hist w_hash w_size w_answer (w_alone k) h → w_good an (InsertC c) h (w_after k) = true →
  db_step w_hash w_size w_answer 0 an (Call (InsertC c)) (w_alone k) = Some (Ret None, s1) → delete 0%nat (pending s1) = ∅ →
  db_step w_hash w_size w_answer 0 an Construct s1 = Some (Ret None, s2) → delete 0%nat (pending s2) = ∅ →
  db_step w_hash w_size w_answer 0 an Construct s2 = Some (Ret (Some (InsertC c, RUnit)), w_alone (S k)) →
  db_hist w_hash w_size w_answer (w_alone (S k)) (h ++ [(InsertC c, RUnit)]).
Proof.
  intros s1 s2 Hh [Ha Hal]%andb_prop H1 A1 H2 A2 H3.
  assert (Hh1 : db_hist w_hash w_size w_answer s1 (h ++ [])).
  { apply (hist_step _ _ _ (w_alone k) h 0 an (Call (InsertC c)) None); [exact Hh|done| |exact H1].
    split; [by apply bool_decide_eq_true in Ha|]. intros a Hr. rewrite Hr in Hal. by apply bool_decide_eq_true in Hal. }
  assert (Hh2 : db_hist w_hash w_size w_answer s2 ((h ++ []) ++ [])) by (by apply (hist_step _ _ _ s1 _ 0 an Construct None)).
  rewrite !app_nil_r in Hh2. by apply (hist_step _ _ _ s2 h 0 an Construct (Some (InsertC c, RUnit))).
Qed.

(** A container and an iterator of it; the iterator's container is asked for, and a
    container that is not there ends the program. *)
Lemma debug_db_linearizable_witness :
  ∃ a, db_ok w_hash (w_after 3) a ∧ iters a !! 11 = Some (Some 100)
    ∧ ended (db_run w_hash w_size w_answer (w_mem 9) (EraseC 300) (w_after 3)).1.
Proof.
  assert (H1 := w_insert 0 [] (w_mem 1) 100 (hist_start _ _ _) eq_refl eq_refl eq_refl eq_refl eq_refl eq_refl).
  assert (H2 := w_insert 1 _ (w_mem 2) 200 H1 eq_refl eq_refl eq_refl eq_refl eq_refl eq_refl).
  assert (H3 := w_step 2 _ (w_mem 3) (InsertIC 11 100) H2 eq_refl eq_refl).
  destruct (debug_db_linearizable w_hash w_size w_answer _ _ H3) as (a & Hr & Ho & _).
  destruct (Ho eq_refl) as [Hok He]. exists a. split; [exact Hok|]. vm_compute in Hr. injection Hr as <-. split; [reflexivity|].
  apply He; [by apply (bool_decide_eq_true_1 _)|done|by vm_compute].
Defined.

(** Thread 0 registers a container at 200, whose node is linked in before that of the one
    at 100, and reads the node; thread 1 then gives up the container at 100, under the
    mutex, before thread 0 makes the node anew, with a pointer to what is gone. *)
Lemma insert_c_races :
  let step t e s := db_step w_hash w_size w_answer t (w_mem 2) e s in
  ∃ s1 s2 s3, step 0%nat (Call (InsertC 200)) (w_alone 1) = Some (Ret None, s1)
    ∧ step 0%nat Construct s1 = Some (Ret None, s2)
    ∧ pending s2 !! 0%nat = Some (Copied 2 200 (Some 1%nat))
    ∧ step 1%nat (Call (EraseC 100)) s2 = Some (Ret (Some (EraseC 100, RUnit)), s3)
    ∧ cnodes (base s3) !! 1%nat = None
    ∧ step 0%nat Construct s3 = Some (Undef DataRace, s3).
Proof. do 3 eexists. repeat split; vm_compute; reflexivity. Qed.

(** A database that came from operations as they were allowed. *)
Fixpoint w_goods (ops : list (answers * db_op)) (d : db) (a : adb) : bool :=
  match ops with
  | [] => true
  | (an, op) :: ops' =>
      bool_decide (answers_ok an d) && bool_decide (db_allowed op a)
      && match db_spec w_answer op a with
         | Some (_, a') => w_goods ops' (db_run w_hash w_size w_answer an op d).2 a'
         | None => false
         end
  end.

Definition w_spec (ops : list (answers * db_op)) (a : adb) : adb :=
  foldl (λ a x, match db_spec w_answer x.2 a with Some (_, a') => a' | None => a end) a ops.

Lemma w_run_ok ops d a :
  db_ok w_hash d a → w_goods ops d a = true → db_ok w_hash (w_run ops d) (w_spec ops a).
Proof.
  revert d a. induction ops as [|[an op] ops IH]; intros d a Ho Hg; [done|]. cbn [w_goods] in Hg.
  apply andb_prop in Hg as [[Ha%bool_decide_eq_true Hal%bool_decide_eq_true]%andb_prop Hg].
  pose proof (db_run_refines w_hash w_size w_answer d a an op Ho Ha Hal) as Hr.
  unfold w_run, w_spec. cbn [foldl fst snd]. destruct (db_spec w_answer op a) as [[r a']|]; [|done].
  destruct Hr as (d' & Hr & Ho'). rewrite Hr in *. by apply IH.
Qed.

Definition w_at (k : nat) : adb := w_spec (take k w_ops) adb_start.

Lemma w_ok k : w_goods (take k w_ops) db_start adb_start = true → db_ok w_hash (w_after k) (w_at k).
Proof. apply w_run_ok, db_start_ok. Qed.

Lemma debug_db_destroyed_witness : db_destroy (w_after 6) = Ret (∅, ∅) ∧ size (inodes (w_after 6)) = 2%nat.
Proof. split; [apply (debug_db_destroyed w_hash _ (w_at 6)), w_ok; by vm_compute|by vm_compute]. Defined.

(** With iterators at 11 and 12 and room for them and no more, there is no node for
    one at 13, whose chain is that of 11. *)
Lemma debug_db_out_of_memory_witness :
  ∃ d', insert_i w_hash w_size (mkAnswers true None true ([], 0)) 13 (w_run [(w_mem 1, InsertI 11); (w_mem 2, InsertI 12); (w_mem 3, EraseI 12)] db_start)
    = (Throw bad_alloc, d') ∧ find_iterator w_hash 11 d' = (Ret None, d').
Proof.
  assert (Ho := w_run_ok [(w_mem 1, InsertI 11); (w_mem 2, InsertI 12); (w_mem 3, EraseI 12)] _ _ (db_start_ok w_hash) eq_refl).
  destruct (debug_db_out_of_memory w_hash w_size (mkAnswers true None true ([], 0)) _ _ 13 0 Ho eq_refl eq_refl) as (_ & _ & Hl).
  destruct (Hl eq_refl) as (d' & Hd & Hj); [by vm_compute|]. exists d'. split; [exact Hd|]. by apply Hj.
Defined.

Lemma iterator_copy_out_of_memory_witness :
  ∃ d', iterator_copy w_hash w_size (mkAnswers true None false ([], 0)) 12 11 (w_after 4) = (Throw bad_alloc, d')
    ∧ (erase_i w_hash 12 d').1 = AssertFailed.
Proof.
  apply (iterator_copy_out_of_memory w_hash w_size _ _ (w_at 4) 12 11 1 (mkCNode 100 [3%nat] 1));
    [by apply w_ok|reflexivity..].
Defined.
