(* ===== verification/IosBase.v ===== *)
(** * IosBase: [ios_base], from [ios.cpp] in libc++

    The base of every stream: its flags and state, the arrays behind [iword] and
    [pword], and the registered callbacks.  A block of memory is its cells, each of
    which may hold nothing yet; whether an allocation is granted is an argument. *)

From S2P Require Import Prelude Bits Memory.

(** ** The object *)

Definition badbit : Z := 1.
Definition failbit : Z := 4.
Definition goodbit : Z := 0.
Definition dec : Z := 0x0002.
Definition skipws : Z := 0x1000.

Inductive event := erase_event | imbue_event | copyfmt_event.

(** [__iarray_], [__iarray_size_] and [__iarray_cap_], or the same of [__parray_]. *)
Record words := Words { w_array : block Z; w_size : Z; w_cap : Z }.

Definition no_words : words := Words None 0 0.

(** A buffer and a locale are known by number; the callbacks' functions too. *)
Record ios := Ios {
  fmtflags : Z; precision : Z; width : Z; rdstate : Z; exceptions : Z; rdbuf : option Z; loc : Z;
  fn : block Z; index : block Z; event_size : Z; event_cap : Z;
  iarray : words; parray : words }.

Definition set_rdstate v s := Ios (fmtflags s) (precision s) (width s) v (exceptions s) (rdbuf s)
  (loc s) (fn s) (index s) (event_size s) (event_cap s) (iarray s) (parray s).
Definition set_loc v s := Ios (fmtflags s) (precision s) (width s) (rdstate s) (exceptions s)
  (rdbuf s) v (fn s) (index s) (event_size s) (event_cap s) (iarray s) (parray s).
Definition set_fn v s := Ios (fmtflags s) (precision s) (width s) (rdstate s) (exceptions s)
  (rdbuf s) (loc s) v (index s) (event_size s) (event_cap s) (iarray s) (parray s).
Definition set_index v s := Ios (fmtflags s) (precision s) (width s) (rdstate s) (exceptions s)
  (rdbuf s) (loc s) (fn s) v (event_size s) (event_cap s) (iarray s) (parray s).
Definition set_event_size v s := Ios (fmtflags s) (precision s) (width s) (rdstate s) (exceptions s)
  (rdbuf s) (loc s) (fn s) (index s) v (event_cap s) (iarray s) (parray s).
Definition set_iarray v s := Ios (fmtflags s) (precision s) (width s) (rdstate s) (exceptions s)
  (rdbuf s) (loc s) (fn s) (index s) (event_size s) (event_cap s) v (parray s).
Definition set_parray v s := Ios (fmtflags s) (precision s) (width s) (rdstate s) (exceptions s)
  (rdbuf s) (loc s) (fn s) (index s) (event_size s) (event_cap s) (iarray s) v.

(** [init], on an object of which nothing has been set; the locale is the global one. *)
Definition init (sb : option Z) (global : Z) : ios :=
  Ios (skipws .| dec) 6 0 (match sb with Some _ => goodbit | None => badbit end) goodbit sb global
    None None 0 0 no_words no_words.

(** ** The state *)

Definition what_clear : bytes := str "ios_base::clear".

Definition clear (state : Z) : comp ios unit :=
  let* s := cget in
  let* _ := cput (set_rdstate (match rdbuf s with Some _ => state | None => state .| badbit end) s) in
  if negb ((state .| match rdbuf s with Some _ => goodbit | None => badbit end) .& exceptions s =? 0)
  then cthrow what_clear else cret tt.

Definition setstate (state : Z) : comp ios unit :=
  let* s := cget in clear (rdstate s .| state).

(** [throw;] inside a handler throws the exception being handled again. *)
Definition set_badbit_and_consider_rethrow (current : bytes) : comp ios unit :=
  let* _ := cmodify (λ s, set_rdstate (rdstate s .| badbit) s) in
  let* s := cget in
  if negb (exceptions s .& badbit =? 0) then cthrow current else cret tt.

Definition set_failbit_and_consider_rethrow (current : bytes) : comp ios unit :=
  let* _ := cmodify (λ s, set_rdstate (rdstate s .| failbit) s) in
  let* s := cget in
  if negb (exceptions s .& failbit =? 0) then cthrow current else cret tt.

(** ** [iword] and [pword] *)

(** [xalloc], on the counter [__xindex_]. *)
Definition xalloc : comp Z Z :=
  let* x := cget in
  if x =? INT_MAX then cundef SignedOverflow else let* _ := cput (x + 1) in cret x.

Definition size_max : Z := 2 ^ 64 - 1.

Definition new_capacity (cap req_size : Z) : Z :=
  if req_size <? size_max / 2 then Z.max (size_wrap (2 * cap)) req_size else size_max.

Definition req_size (index : Z) : Z := size_wrap (size_wrap index + 1).

(** [for (p = array + size; cap < newcap; ++cap, ++p) *p = 0]. *)
Fixpoint zero_fill (n : nat) (i : Z) (b : block Z) : outcome (block Z) :=
  match n with
  | O => Ret b
  | S n' => match store b i 0 with Ret b' => zero_fill n' (i + 1) b' | bad => bad end
  end.

(** The array made long enough; [None] when [realloc] refuses. *)
Definition reserve (granted : bool) (req : Z) (w : words) : option (outcome words) :=
  if w_cap w <? req then
    let newcap := new_capacity (w_cap w) req in
    if granted then
      Some (match zero_fill (Z.to_nat (newcap - w_cap w)) (w_size w) (realloc (w_array w) newcap) with
            | Ret b => Ret (Words b (Z.max (w_size w) req) newcap)
            | Throw e => Throw e | AssertFailed => AssertFailed | Waits => Waits | Undef u => Undef u
            end)
    else None
  else Some (Ret (Words (w_array w) (Z.max (w_size w) req) (w_cap w))).

(** The reference returned: to an element, or to the static [error]. *)
Inductive ref := Element (i : Z) | StaticError.

Definition iword (granted : bool) (ix : Z) : comp ios ref :=
  let* s := cget in
  match reserve granted (req_size ix) (iarray s) with
  | Some o => let* w := clift o in let* _ := cput (set_iarray w s) in cret (Element ix)
  | None => let* _ := setstate badbit in cret StaticError
  end.

Definition pword (granted : bool) (ix : Z) : comp ios ref :=
  let* s := cget in
  match reserve granted (req_size ix) (parray s) with
  | Some o => let* w := clift o in let* _ := cput (set_parray w s) in cret (Element ix)
  | None => let* _ := setstate badbit in cret StaticError
  end.

(** Reading and writing through a reference that [iword] returned. *)
Definition read_iword (r : ref) : comp ios Z :=
  let* s := cget in
  match r with Element i => clift (load (w_array (iarray s)) i) | StaticError => cret 0 end.

Definition write_iword (r : ref) (v : Z) : comp ios unit :=
  let* s := cget in
  match r with
  | Element i =>
      let* b := clift (store (w_array (iarray s)) i v) in
      cput (set_iarray (Words b (w_size (iarray s)) (w_cap (iarray s))) s)
  | StaticError => cret tt
  end.

(** ** Callbacks *)

Definition register_callback (granted1 granted2 : bool) (f ix : Z) : comp ios unit :=
  let* s := cget in
  let req := size_wrap (event_size s + 1) in
  let* _ :=
    (if event_cap s <? req then
       let newcap := new_capacity (event_cap s) req in
       let fns := if granted1 then realloc (fn s) newcap else None in
       let* _ := (if granted1 then cret tt else setstate badbit) in
       let* _ := cmodify (set_fn fns) in
       let* s1 := cget in
       let indxs := if granted2 then realloc (index s1) newcap else None in
       let* _ := (if granted2 then cret tt else setstate badbit) in
       cmodify (set_index indxs)
     else cret tt) in
  let* s2 := cget in
  let* b1 := clift (store (fn s2) (event_size s2) f) in
  let* _ := cmodify (set_fn b1) in
  let* b2 := clift (store (index s2) (event_size s2) ix) in
  let* _ := cmodify (set_index b2) in
  cmodify (λ s3, set_event_size (size_wrap (event_size s3 + 1)) s3).

Section callbacks.
(** What a callback function does when it is called: the user's code. *)
Context (invoke : Z → event → Z → comp ios unit).

Fixpoint call_loop (i : nat) (ev : event) : comp ios unit :=
  match i with
  | O => cret tt
  | S i' =>
      let* s := cget in
      let* f := clift (load (fn s) (Z.of_nat i')) in
      let* ix := clift (load (index s) (Z.of_nat i')) in
      let* _ := invoke f ev ix in
      call_loop i' ev
  end.

Definition call_callbacks (ev : event) : comp ios unit :=
  let* s := cget in call_loop (Z.to_nat (event_size s)) ev.

Definition imbue (newloc : Z) : comp ios Z :=
  let* s := cget in
  let* _ := cput (set_loc newloc s) in
  let* _ := call_callbacks imbue_event in
  cret (loc s).

(** [~ios_base]: the callbacks, then the blocks are freed. *)
Definition destroy : comp ios unit :=
  let* _ := call_callbacks erase_event in
  cmodify (λ s, set_parray no_words (set_iarray no_words (set_index None (set_fn None s)))).
End callbacks.

Definition getloc : comp ios Z := let* s := cget in cret (loc s).

(** ** [copyfmt], [move], [swap] *)

Fixpoint copy_cells {A} (n : nat) (i : Z) (src dst : block A) : outcome (block A) :=
  match n with
  | O => Ret dst
  | S n' =>
      match load src i with
      | Ret a => match store dst i a with Ret dst' => copy_cells n' (i + 1) src dst' | bad => bad end
      | Throw e => Throw e | AssertFailed => AssertFailed | Waits => Waits | Undef u => Undef u
      end
  end.

Definition what_bad_alloc : bytes := str "std::bad_alloc".

(** The elements of [rhs] copied into the array of [lhs], or into the new one. *)
Definition copy_words (lhs rhs : words) : outcome words :=
  let w := if w_cap lhs <? w_size rhs then Words (malloc (w_size rhs)) (w_size lhs) (w_size rhs)
           else lhs in
  match copy_cells (Z.to_nat (w_size rhs)) 0 (w_array rhs) (w_array w) with
  | Ret b => Ret (Words b (w_size rhs) (w_cap w))
  | Throw e => Throw e | AssertFailed => AssertFailed | Waits => Waits | Undef u => Undef u
  end.

(** Which of the four allocations are granted. *)
Record grants := Grants { g_callbacks : bool; g_ints : bool; g_longs : bool; g_pointers : bool }.

Definition copyfmt (g : grants) (rhs : ios) : comp ios unit :=
  let* s := cget in
  if (event_cap s <? event_size rhs) && negb (g_callbacks g && g_ints g) then cthrow what_bad_alloc
  else if (w_cap (iarray s) <? w_size (iarray rhs)) && negb (g_longs g) then cthrow what_bad_alloc
  else if (w_cap (parray s) <? w_size (parray rhs)) && negb (g_pointers g) then cthrow what_bad_alloc
  else
    let grow := event_cap s <? event_size rhs in
    let n := Z.to_nat (event_size rhs) in
    let* fns := clift (copy_cells n 0 (fn rhs) (if grow then malloc (event_size rhs) else fn s)) in
    let* ixs :=
      clift (copy_cells n 0 (index rhs) (if grow then malloc (event_size rhs) else index s)) in
    let* ia := clift (copy_words (iarray s) (iarray rhs)) in
    let* pa := clift (copy_words (parray s) (parray rhs)) in
    cput (Ios (fmtflags rhs) (precision rhs) (width rhs) (rdstate s) (exceptions s) (rdbuf s)
            (loc rhs) fns ixs (event_size rhs) (if grow then event_size rhs else event_cap s) ia pa).

(** [move] into an object nothing is set of: the new object, and what is left of
    [rhs]. *)
Definition move (rhs : ios) : ios * ios :=
  (Ios (fmtflags rhs) (precision rhs) (width rhs) (rdstate rhs) (exceptions rhs) None (loc rhs)
     (fn rhs) (index rhs) (event_size rhs) (event_cap rhs) (iarray rhs) (parray rhs),
   Ios (fmtflags rhs) (precision rhs) (width rhs) (rdstate rhs) (exceptions rhs) (rdbuf rhs) (loc rhs)
     None None 0 0 no_words no_words).

(** [swap] leaves the buffers where they are. *)
Definition swap (s rhs : ios) : ios * ios :=
  let exchange (a b : ios) :=
    Ios (fmtflags b) (precision b) (width b) (rdstate b) (exceptions b) (rdbuf a) (loc b)
      (fn b) (index b) (event_size b) (event_cap b) (iarray b) (parray b) in
  (exchange s rhs, exchange rhs s).

(** [sync_with_stdio], on its static [previous_state]. *)
Definition sync_with_stdio (sync : bool) : comp bool bool :=
  let* previous := cget in let* _ := cput sync in cret previous.

(** [iostream_category().message(ev)]; the messages of [errno] values are the C
    library's. *)
Definition iostream_message (do_message : Z → bytes) (ev : Z) : bytes :=
  if negb (ev =? 1) then do_message ev else str "unspecified iostream_category error".

(** ** Loops over blocks *)

Lemma copy_cells_app {A} n (src dst : block A) pre vs :
  n = length vs → holds src (pre ++ vs) → holds dst pre → zlen (pre ++ vs) ≤ blen dst →
  ∃ dst', copy_cells n (zlen pre) src dst = Ret dst' ∧ blen dst' = blen dst ∧ holds dst' (pre ++ vs).
Proof.
  revert n dst pre. induction vs as [|v vs IH]; intros n dst pre -> Hs Hd Hl; cbn [length copy_cells].
  { exists dst. by rewrite app_nil_r. }
  unfold zlen at 1. rewrite (load_holds src (pre ++ v :: vs) (length pre) v) by
    (done || by rewrite lookup_app_r, Nat.sub_diag by lia).
  rewrite zlen_app, zlen_cons in Hl. pose proof (zlen_nonneg vs).
  destruct (holds_append dst pre v Hd) as (d1 & -> & Hl1 & Hd1); [lia|].
  destruct (IH (length vs) d1 (pre ++ [v])) as (d2 & Hc & Hl2 & Hd2);
    [done|by rewrite <- app_assoc|done|rewrite !zlen_app, zlen_cons; cbn; unfold zlen in *; cbn; lia|].
  rewrite <- app_assoc in Hd2. exists d2. rewrite <- Hc. rewrite zlen_app. split; [done|].
  split; [lia|done].
Qed.

Lemma copy_cells_holds {A} (src dst : block A) vs :
  holds src vs → zlen vs ≤ blen dst →
  ∃ dst', copy_cells (Z.to_nat (zlen vs)) 0 src dst = Ret dst' ∧ blen dst' = blen dst ∧ holds dst' vs.
Proof.
  intros Hs Hl. rewrite to_nat_zlen. by apply (copy_cells_app (length vs) src dst [] vs).
Qed.

Lemma zero_fill_spec n i b :
  0 ≤ i → i + Z.of_nat n ≤ blen b →
  ∃ b', zero_fill n i b = Ret b' ∧ blen b' = blen b
    ∧ ∀ j, default [] b' !! j
           = if decide (i ≤ Z.of_nat j < i + Z.of_nat n) then Some (Some 0) else default [] b !! j.
Proof.
  revert i b. induction n as [|n IH]; intros i b Hi Hn; cbn [zero_fill].
  { exists b. do 2 (split; [done|]). intros j. by rewrite decide_False by lia. }
  destruct (store_spec b i 0) as (b1 & -> & Hl1 & Hc1); [lia|].
  destruct (IH (i + 1) b1) as (b2 & -> & Hl2 & Hc2); [lia..|]. exists b2. split; [done|].
  split; [lia|]. intros j. rewrite Hc2, Hc1. repeat case_decide; try done; lia.
Qed.

(** ** The arrays of [iword] and [pword] *)

Definition words_ok (w : words) : Prop :=
  0 ≤ w_size w ≤ w_cap w ∧ w_cap w = blen (w_array w) ∧ w_cap w ≤ 2 ^ 33.

(** What lies behind the elements handed out is zero. *)
Definition zeroed (w : words) : Prop :=
  ∀ i, w_size w ≤ Z.of_nat i < w_cap w → default [] (w_array w) !! i = Some (Some 0).

Lemma req_size_int ix : 0 ≤ ix ≤ INT_MAX → req_size ix = ix + 1.
Proof.
  unfold req_size, size_wrap, wrap, INT_MAX. intros.
  rewrite (Z.mod_small ix) by lia. apply Z.mod_small. lia.
Qed.

Lemma new_capacity_int cap ix :
  0 ≤ ix ≤ INT_MAX → 0 ≤ cap < ix + 1 → new_capacity cap (ix + 1) = Z.max (2 * cap) (ix + 1).
Proof.
  unfold new_capacity, size_max, size_wrap, wrap, INT_MAX.
  change ((2 ^ 64 - 1) / 2) with (2 ^ 63 - 1). intros. then_branch.
  by rewrite Z.mod_small by lia.
Qed.

(** The array after a granted request: everything handed out is where it was. *)
Lemma reserve_spec w ix :
  words_ok w → 0 ≤ ix ≤ INT_MAX →
  ∃ w', reserve true (req_size ix) w = Some (Ret w') ∧ words_ok w' ∧ w_size w ≤ w_size w'
    ∧ ix < w_size w'
    ∧ (∀ i, Z.of_nat i < w_size w → default [] (w_array w') !! i = default [] (w_array w) !! i)
    ∧ (zeroed w → ix ≤ w_size w → zeroed w'
       ∧ (ix = w_size w → default [] (w_array w') !! Z.to_nat ix = Some (Some 0))).
Proof.
  intros (Hs & Hc & Hm) Hix. rewrite req_size_int by done. unfold reserve.
  destruct (Z.ltb_spec (w_cap w) (ix + 1)) as [Hlt|Hge].
  - rewrite new_capacity_int by lia. set (nc := Z.max (2 * w_cap w) (ix + 1)).
    destruct (realloc_spec (w_array w) nc) as [Hl Hcells]; [lia|].
    destruct (zero_fill_spec (Z.to_nat (nc - w_cap w)) (w_size w) (realloc (w_array w) nc))
      as (b & -> & Hlb & Hb); [lia..|].
    eexists. split; [done|]. unfold words_ok, zeroed. cbn. unfold INT_MAX in *.
    split; [lia|]. split; [lia|]. split; [lia|]. split.
    + intros i Hi. rewrite Hb, decide_False by lia. apply Hcells; lia.
    + intros _ Hle. split.
      * intros i Hi. rewrite Hb. by rewrite decide_True by lia.
      * intros ->. rewrite Hb. by rewrite decide_True by lia.
  - eexists. split; [done|]. unfold words_ok, zeroed. cbn. split; [lia|]. split; [lia|].
    split; [lia|]. split; [done|]. intros Hz Hle. split; [intros i Hi; apply Hz; lia|].
    intros ->. apply Hz. lia.
Qed.

(** ** Callbacks *)

(** The registered callbacks, oldest first. *)
Definition callbacks (s : ios) (cbs : list (Z * Z)) : Prop :=
  event_size s = zlen cbs ∧ holds (fn s) (cbs.*1) ∧ holds (index s) (cbs.*2).

Fixpoint invoke_all (invoke : Z → event → Z → comp ios unit) (ev : event) (cbs : list (Z * Z))
  : comp ios unit :=
  match cbs with
  | [] => cret tt
  | (f, ix) :: cbs' => let* _ := invoke f ev ix in invoke_all invoke ev cbs'
  end.

Lemma call_loop_reverse invoke ev cbs n s :
  (∀ f ev ix s s' cbs, callbacks s cbs → invoke f ev ix s = (Ret tt, s') → callbacks s' cbs) →
  callbacks s cbs → (n ≤ length cbs)%nat →
  call_loop invoke n ev s = invoke_all invoke ev (reverse (take n cbs)) s.
Proof.
  intros Hinv. revert s. induction n as [|n IH]; intros s Hcb Hn; [done|].
  destruct (lookup_lt_is_Some_2 cbs n ltac:(lia)) as [[f ix] Hn'].
  rewrite (take_S_r _ _ _ Hn'), reverse_snoc. cbn [call_loop invoke_all].
  destruct Hcb as (Hsz & Hf & Hi). unfold cbind at 1, cget, clift.
  rewrite (load_holds (fn s) (cbs.*1) n f) by (done || by rewrite list_lookup_fmap, Hn').
  unfold cbind at 1. rewrite (load_holds (index s) (cbs.*2) n ix)
    by (done || by rewrite list_lookup_fmap, Hn').
  unfold cbind at 1 2. cbn. unfold cbind.
  destruct (invoke f ev ix s) as [[[]|e| |u|] s'] eqn:Hs; [|done..].
  apply IH; [|lia]. by eapply Hinv; [|exact Hs].
Qed.

(** ** Objects in order *)

(** The arrays are as long as the capacities say, and hold the callbacks and the
    words. *)
Record ios_ok (s : ios) (cbs : list (Z * Z)) : Prop := {
  ok_callbacks : callbacks s cbs;
  ok_event_cap : 0 ≤ event_cap s ≤ blen (fn s) ∧ event_cap s ≤ blen (index s);
  ok_event_size : event_size s < 2 ^ 32;
  ok_iarray : words_ok (iarray s);
  ok_parray : words_ok (parray s) }.

Lemma init_ok sb global : ios_ok (init sb global) [].
Proof. by split. Qed.

Lemma new_capacity_at_least cap n :
  0 ≤ cap → 0 ≤ n < 2 ^ 32 → cap < n → new_capacity cap n = Z.max (2 * cap) n.
Proof.
  intros Hc Hn Hlt. unfold new_capacity, size_max, size_wrap, wrap.
  change ((2 ^ 64 - 1) / 2) with (2 ^ 63 - 1). then_branch. by rewrite Z.mod_small by lia.
Qed.

(** A block that holds the values of the callbacks, made long enough for one more. *)
Lemma holds_grown (b : block Z) vs cap :
  holds b vs → 0 ≤ cap ≤ blen b → zlen vs + 1 < 2 ^ 32 →
  let b' := if cap <? zlen vs + 1 then realloc b (new_capacity cap (zlen vs + 1)) else b in
  holds b' vs ∧ cap ≤ blen b' ∧ zlen vs < blen b'.
Proof.
  intros Hb Hc Hn. pose proof (zlen_nonneg vs). cbv zeta.
  destruct (Z.ltb_spec cap (zlen vs + 1)); [|split; [done|lia]].
  rewrite new_capacity_at_least by lia.
  destruct (holds_realloc b vs (Z.max (2 * cap) (zlen vs + 1)) Hb) as [Hh Hl]; [lia|].
  split; [done|lia].
Qed.

Lemma zlen_fmap {A B} (g : A → B) l : zlen (g <$> l) = zlen l.
Proof. unfold zlen. by rewrite length_fmap. Qed.

(** Goes into fields that have been set. *)
Ltac fields :=
  cbn [set_fn set_index set_event_size set_iarray set_parray set_rdstate fmtflags precision width
       rdstate exceptions rdbuf loc fn index event_size event_cap iarray parray].

Lemma register_ok s cbs f ix :
  ios_ok s cbs → zlen cbs + 1 < 2 ^ 32 →
  ∃ s', register_callback true true f ix s = (Ret tt, s') ∧ ios_ok s' (cbs ++ [(f, ix)]).
Proof.
  intros [(Hsz & Hf & Hi) [Hc1 Hc2] _ Hw Hp] Hn. pose proof (zlen_nonneg cbs).
  unfold register_callback, cbind, cget, cmodify, cret, clift. rewrite Hsz.
  assert (size_wrap (zlen cbs + 1) = zlen cbs + 1) as -> by (apply Z.mod_small; lia).
  destruct (holds_grown (fn s) (cbs.*1) (event_cap s)) as (Hf' & Hcf & Hlf);
    [done|lia|by rewrite zlen_fmap|].
  destruct (holds_grown (index s) (cbs.*2) (event_cap s)) as (Hi' & Hci & Hli);
    [done|lia|by rewrite zlen_fmap|].
  rewrite !zlen_fmap in *.
  assert (Hfin : ∀ b1 b2, holds b1 (cbs.*1) → holds b2 (cbs.*2) → event_cap s ≤ blen b1 →
    event_cap s ≤ blen b2 → zlen cbs < blen b1 → zlen cbs < blen b2 →
    ∃ b1' b2', store b1 (zlen cbs) f = Ret b1' ∧ store b2 (zlen cbs) ix = Ret b2'
      ∧ ios_ok (Ios (fmtflags s) (precision s) (width s) (rdstate s) (exceptions s) (rdbuf s) (loc s)
          b1' b2' (zlen cbs + 1) (event_cap s) (iarray s) (parray s)) (cbs ++ [(f, ix)])).
  { intros b1 b2 H1 H2 Hb1 Hb2 Hl1 Hl2.
    destruct (holds_append b1 (cbs.*1) f H1) as (b1' & Hs1 & Hn1 & Hh1); [by rewrite zlen_fmap|].
    destruct (holds_append b2 (cbs.*2) ix H2) as (b2' & Hs2 & Hn2 & Hh2); [by rewrite zlen_fmap|].
    rewrite zlen_fmap in Hs1, Hs2. exists b1', b2'. do 2 (split; [done|]).
    split; cbn; try done; [|lia].
    unfold callbacks. cbn. rewrite !fmap_app, zlen_app. done. }
  destruct (event_cap s <? zlen cbs + 1);
    destruct (Hfin _ _ Hf' Hi' Hcf Hci Hlf Hli) as (b1' & b2' & Hs1 & Hs2 & Hok);
    repeat (fields; rewrite ?Hsz, ?Hs1, ?Hs2); eexists; (split; [done|]); fields;
    assert (size_wrap (zlen cbs + 1) = zlen cbs + 1) as -> by (apply Z.mod_small; lia); exact Hok.
Qed.

(** ** Copying formats *)

Lemma copy_words_ok lhs rhs vs :
  words_ok lhs → words_ok rhs → holds (w_array rhs) vs → zlen vs = w_size rhs →
  ∃ w, copy_words lhs rhs = Ret w ∧ words_ok w ∧ w_size w = w_size rhs ∧ holds (w_array w) vs.
Proof.
  intros (Hls & Hlc & Hlm) (Hrs & Hrc & Hrm) Hv Hn. unfold copy_words. rewrite <- Hn in *.
  pose proof (zlen_nonneg vs). destruct (Z.ltb_spec (w_cap lhs) (zlen vs)); cbn [w_array w_cap].
  - destruct (copy_cells_holds (w_array rhs) (malloc (zlen vs)) vs Hv) as (b & -> & Hl & Hh);
      rewrite blen_malloc in * by lia; [lia|].
    eexists. split; [done|]. unfold words_ok. cbn. rewrite Hl. repeat split; try done; lia.
  - destruct (copy_cells_holds (w_array rhs) (w_array lhs) vs Hv) as (b & -> & Hl & Hh); [lia|].
    eexists. split; [done|]. unfold words_ok. cbn. rewrite Hl. repeat split; try done; lia.
Qed.

(** The format of an object: what [copyfmt] copies. *)
Record same_format (s rhs : ios) (cbs : list (Z * Z)) (ws ps : list Z) : Prop := {
  sf_flags : fmtflags s = fmtflags rhs ∧ precision s = precision rhs ∧ width s = width rhs
    ∧ loc s = loc rhs;
  sf_callbacks : callbacks s cbs;
  sf_iwords : holds (w_array (iarray s)) ws ∧ w_size (iarray s) = zlen ws;
  sf_pwords : holds (w_array (parray s)) ps ∧ w_size (parray s) = zlen ps }.

Definition all_granted (g : grants) : bool :=
  g_callbacks g && g_ints g && g_longs g && g_pointers g.

Lemma copyfmt_granted s cbs0 rhs cbs ws ps g :
  ios_ok s cbs0 → ios_ok rhs cbs →
  holds (w_array (iarray rhs)) ws → zlen ws = w_size (iarray rhs) →
  holds (w_array (parray rhs)) ps → zlen ps = w_size (parray rhs) →
  all_granted g = true →
  ∃ s', copyfmt g rhs s = (Ret tt, s') ∧ same_format s' rhs cbs ws ps ∧ ios_ok s' cbs
    ∧ rdstate s' = rdstate s ∧ exceptions s' = exceptions s ∧ rdbuf s' = rdbuf s.
Proof.
  intros [_ [Hc1 Hc2] _ Hwi Hwp] [(Hsz & Hf & Hx) Hrc Hr32 Hri Hrp] Hi Hin Hp Hpn Hg.
  unfold all_granted in Hg. apply andb_true_iff in Hg as [[[Hg1 Hg2]%andb_true_iff Hg3]%andb_true_iff Hg4].
  unfold copyfmt, cbind, cget, clift, cput. rewrite Hg1, Hg2, Hg3, Hg4. cbn [andb negb].
  rewrite !andb_false_r.
  pose proof (zlen_nonneg cbs). rewrite Hsz in *.
  assert (Hcopy : ∀ (src dst : block Z) (vs : list Z), holds src vs → zlen vs = zlen cbs →
    event_cap s ≤ blen dst →
    ∃ b, copy_cells (Z.to_nat (zlen cbs)) 0 src
           (if event_cap s <? zlen cbs then malloc (zlen cbs) else dst) = Ret b
      ∧ holds b vs ∧ (if event_cap s <? zlen cbs then zlen cbs else event_cap s) ≤ blen b).
  { intros src dst vs Hs Hl Hd. rewrite <- Hl. destruct (Z.ltb_spec (event_cap s) (zlen vs)).
    - destruct (copy_cells_holds src (malloc (zlen vs)) vs Hs) as (b & -> & Hb & Hh);
        rewrite blen_malloc in * by lia; [lia|]. exists b. split; [done|]. split; [done|lia].
    - destruct (copy_cells_holds src dst vs Hs) as (b & -> & Hb & Hh); [lia|].
      exists b. split; [done|]. split; [done|lia]. }
  destruct (Hcopy (fn rhs) (fn s) (cbs.*1)) as (b1 & -> & Hh1 & Hl1); [done|by rewrite zlen_fmap|lia|].
  destruct (Hcopy (index rhs) (index s) (cbs.*2)) as (b2 & -> & Hh2 & Hl2);
    [done|by rewrite zlen_fmap|lia|].
  destruct (copy_words_ok (iarray s) (iarray rhs) ws) as (wi & -> & Hwi' & Hsi & Hhi); [done..|].
  destruct (copy_words_ok (parray s) (parray rhs) ps) as (wp & -> & Hwp' & Hsp & Hhp); [done..|].
  eexists. split; [done|]. split; [|split; [|done]].
  - by split; fields; [|split| |]; rewrite ?Hsi, ?Hsp.
  - split; fields; try done. destruct (Z.ltb_spec (event_cap s) (zlen cbs)); lia.
Qed.

(** ** Theorems *)

(** A granted [iword(ix)] returns the element, keeps what every element handed
    out before holds, and changes nothing but the array; an element that is asked for
    without leaving one out is zero. *)
Theorem iword_keeps s cbs ix :
  ios_ok s cbs → 0 ≤ ix ≤ INT_MAX →
  ∃ w, iword true ix s = (Ret (Element ix), set_iarray w s)
    ∧ ios_ok (set_iarray w s) cbs ∧ ix < w_size w
    ∧ (∀ i v, 0 ≤ i < w_size (iarray s) → load (w_array (iarray s)) i = Ret v →
         load (w_array w) i = Ret v)
    ∧ (zeroed (iarray s) → ix ≤ w_size (iarray s) →
         zeroed w ∧ (ix = w_size (iarray s) → load (w_array w) ix = Ret 0)).
Proof.
  intros [Hcb Hec Hes Hwi Hwp] Hix.
  destruct (reserve_spec (iarray s) ix Hwi Hix) as (w & Hr & Hw & Hle & Hlt & Hkeep & Hz).
  exists w. unfold iword, cbind, cget, clift, cput, cret. rewrite Hr. split; [done|].
  split; [by split|]. split; [done|]. split.
  - intros i v Hi Hl. specialize (Hkeep (Z.to_nat i) ltac:(lia)). revert Hl. unfold load.
    destruct (w_array (iarray s)) as [l|] eqn:Hb; [|done]. destruct (i <? 0); [done|].
    destruct (w_array w) as [l'|]; cbn in Hkeep; [by rewrite Hkeep|].
    destruct (l !! Z.to_nat i) as [[x|]|]; [by rewrite lookup_nil in Hkeep|done|done].
  - intros Hzero Hix'. destruct (Hz Hzero Hix') as [Hz' H0]. split; [done|]. intros He.
    specialize (H0 He). unfold load. destruct (w_array w); cbn in H0; [|by rewrite lookup_nil in H0].
    else_branch. by rewrite H0.
Qed.

Lemma iword_keeps_witness :
  ∃ w, iword true 0 (init (Some 1) 0) = (Ret (Element 0), set_iarray w (init (Some 1) 0))
    ∧ load (w_array w) 0 = Ret 0.
Proof.
  destruct (iword_keeps (init (Some 1) 0) [] 0 (init_ok _ _)) as (w & Hw & _ & _ & _ & Hz); [done|].
  exists w. split; [done|]. apply Hz; [intros i Hi; cbn in Hi; lia|done|done].
Defined.

(** A registered callback joins the others, and the callbacks are called newest
    first, as long as they leave the registered callbacks alone. *)
Theorem callbacks_newest_first s cbs f ix invoke ev :
  ios_ok s cbs → zlen cbs + 1 < 2 ^ 32 →
  (∀ f ev ix s s' cbs, callbacks s cbs → invoke f ev ix s = (Ret tt, s') → callbacks s' cbs) →
  ∃ s', register_callback true true f ix s = (Ret tt, s') ∧ ios_ok s' (cbs ++ [(f, ix)])
    ∧ call_callbacks invoke ev s'
      = (let* _ := invoke f ev ix in invoke_all invoke ev (reverse cbs)) s'.
Proof.
  intros Hok Hn Hinv. destruct (register_ok s cbs f ix Hok Hn) as (s' & Hr & Hok').
  exists s'. do 2 (split; [done|]). pose proof (ok_callbacks _ _ Hok') as Hcb.
  unfold call_callbacks. unfold cbind at 1, cget. rewrite (proj1 Hcb), to_nat_zlen.
  rewrite (call_loop_reverse invoke ev (cbs ++ [(f, ix)])) by done.
  by rewrite firstn_all, reverse_snoc.
Qed.

(** A callback that notes its index in the width. *)
Definition note : Z → event → Z → comp ios unit := λ _ _ ix, cmodify (λ s,
  Ios (fmtflags s) (precision s) (10 * width s + ix) (rdstate s) (exceptions s) (rdbuf s) (loc s)
    (fn s) (index s) (event_size s) (event_cap s) (iarray s) (parray s)).

Lemma callbacks_newest_first_witness :
  ∃ s1 s2, register_callback true true 7 1 (init None 0) = (Ret tt, s1)
    ∧ register_callback true true 7 2 s1 = (Ret tt, s2)
    ∧ width (call_callbacks note imbue_event s2).2 = 21.
Proof.
  assert (Hn : ∀ f ev ix s s' cbs, callbacks s cbs → note f ev ix s = (Ret tt, s') → callbacks s' cbs).
  { intros f ev ix s s' cbs Hc [= <-]. exact Hc. }
  destruct (callbacks_newest_first (init None 0) [] 7 1 note imbue_event (init_ok _ _) eq_refl Hn)
    as (s1 & H1 & Hok1 & _).
  destruct (callbacks_newest_first s1 [(7, 1)] 7 2 note imbue_event Hok1 eq_refl Hn)
    as (s2 & H2 & _ & H3).
  exists s1, s2. split; [done|]. split; [done|]. rewrite H3.
  vm_compute in H1. injection H1 as <-. vm_compute in H2. by injection H2 as <-.
Defined.

(** [copyfmt] copies the flags, the locale, the callbacks and both arrays, and
    leaves the state, the exceptions and the buffer; when an allocation it needs is
    refused it throws, and has changed nothing. *)
Theorem copyfmt_all_or_nothing s cbs0 rhs cbs ws ps g :
  ios_ok s cbs0 → ios_ok rhs cbs →
  holds (w_array (iarray rhs)) ws → zlen ws = w_size (iarray rhs) →
  holds (w_array (parray rhs)) ps → zlen ps = w_size (parray rhs) →
  copyfmt g rhs s = (Throw what_bad_alloc, s)
  ∨ ∃ s', copyfmt g rhs s = (Ret tt, s') ∧ same_format s' rhs cbs ws ps ∧ ios_ok s' cbs
      ∧ rdstate s' = rdstate s ∧ exceptions s' = exceptions s ∧ rdbuf s' = rdbuf s.
Proof.
  intros Hs Hr Hi Hin Hp Hpn.
  destruct (copyfmt_granted s cbs0 rhs cbs ws ps (Grants true true true true)) as (s' & Hc & Hall);
    [done..|].
  unfold copyfmt, cbind, cget in *. cbn [g_callbacks g_ints g_longs g_pointers andb negb] in Hc.
  rewrite !andb_false_r in Hc. do 3 (destruct (_ && negb _); [by left|]). right. by exists s'.
Qed.

Lemma copyfmt_all_or_nothing_witness :
  copyfmt (Grants true true false true) (set_iarray (Words (Some [Some 5]) 1 1) (init None 0)) (init None 3)
  = (Throw what_bad_alloc, init None 3).
Proof.
  destruct (copyfmt_all_or_nothing (init None 3) [] (set_iarray (Words (Some [Some 5]) 1 1) (init None 0))
    [] [5] [] (Grants true true false true)) as [H|(s' & H & _)]; try done.
  intros [|[|i]] a Hi; [by injection Hi as <-|done..].
Defined.

(** *** Corners *)

(** Only the cells after the last element handed out are zeroed when the array grows,
    one for each that is new: after a gap the last ones are left as [realloc] gave
    them. *)
Lemma iword_uninitialised :
  ((let* _ := iword true 0 in let* _ := iword true 1 in let* _ := iword true 2 in
   let* _ := iword true 4 in let* r := iword true 7 in read_iword r) (init (Some 1) 0)).1
  = Undef UninitRead.
Proof. by vm_compute. Qed.

(** After [copyfmt] has made the array shorter, asking for an element behind its end
    gives what was there before. *)
Lemma copyfmt_leaves_words :
  ((let* r := iword true 3 in let* _ := write_iword r 42 in
   let* _ := copyfmt (Grants true true true true) (init None 0) in
   let* r' := iword true 3 in read_iword r') (init (Some 1) 0)).1
  = Ret 42.
Proof. by vm_compute. Qed.

(** A callback registered when memory is short is stored through a null pointer. *)
Lemma register_callback_null f ix :
  (register_callback false true f ix (init (Some 1) 0)).1 = Undef NullDeref.
Proof. by vm_compute. Qed.

(** [clear] sets the state before it throws, and throws when a bit it sets is asked
    for. *)
Lemma clear_outcomes v s :
  ∃ o, clear v s = (o, set_rdstate (match rdbuf s with Some _ => v | None => v .| badbit end) s)
    ∧ (o = Ret tt ∨ o = Throw what_clear)
    ∧ (o = Throw what_clear ↔
       (v .| match rdbuf s with Some _ => goodbit | None => badbit end) .& exceptions s ≠ 0).
Proof.
  unfold clear, cbind, cget, cput, cthrow, cret. cbn.
  destruct (Z.eqb_spec ((v .| match rdbuf s with Some _ => goodbit | None => badbit end) .& exceptions s) 0);
    cbn [negb]; eexists; (split; [done|]); naive_solver.
Qed.

(** Swapping twice changes nothing; a moved-from object has no callbacks and no words. *)
Lemma swap_swap s rhs : swap (swap s rhs).1 (swap s rhs).2 = (s, rhs).
Proof. by destruct s, rhs. Qed.

Lemma move_keeps_callbacks rhs cbs :
  ios_ok rhs cbs → callbacks (move rhs).1 cbs ∧ callbacks (move rhs).2 [].
Proof. intros [Hc _ _ _ _]. by split. Qed.

(** [xalloc] never gives the same index twice. *)
Lemma xalloc_fresh x i x1 j x2 :
  xalloc x = (Ret i, x1) → x1 ≤ x2 → ∀ x3, xalloc x2 = (Ret j, x3) → i < j.
Proof.
  unfold xalloc, cbind, cget, cput, cret, cundef. intros H1 Hle x3 H2.
  repeat case_match; simplify_eq. lia.
Qed.
