(* ===== verification/Strstream.v ===== *)
(** * Strstream: [strstreambuf], from [strstream.cpp] in libc++

    A stream buffer over an array of the caller's, or over one that is to grow as it
    is written to.  The pointers into the array are offsets from its start; the
    functions of [streambuf] that call the virtual ones are below. *)

From S2P Require Import Prelude Bits Memory.

(** ** The object *)

(** A get or a put area: [eback], [gptr] and [egptr], or [pbase], [pptr] and
    [epptr]; null pointers are no area. *)
Record area := Area { a_beg : Z; a_next : Z; a_end : Z }.

(** [palloc] says that the object has allocation functions of its own. *)
Record strstreambuf := Buf {
  strmode : Z; alsize : Z; palloc : bool;
  mem : block Z; get_area : option area; put_area : option area }.

Definition ALLOCATED : Z := 0x01.
Definition CONSTANT : Z := 0x02.
Definition DYNAMIC : Z := 0x04.
Definition FROZEN : Z := 0x08.
Definition default_alsize : Z := 4096.

(** Characters are the values of [unsigned char]. *)
Definition EOF : Z := -1.

Definition set_strmode m s := Buf m (alsize s) (palloc s) (mem s) (get_area s) (put_area s).
Definition set_mem b s := Buf (strmode s) (alsize s) (palloc s) b (get_area s) (put_area s).
Definition set_get a s := Buf (strmode s) (alsize s) (palloc s) (mem s) a (put_area s).
Definition set_put a s := Buf (strmode s) (alsize s) (palloc s) (mem s) (get_area s) a.

Definition mode (m : Z) (s : strstreambuf) : bool := negb (strmode s .& m =? 0).

Definition eback s := default 0 (a_beg <$> get_area s).
Definition gptr s := default 0 (a_next <$> get_area s).
Definition egptr s := default 0 (a_end <$> get_area s).
Definition pbase s := default 0 (a_beg <$> put_area s).
Definition pptr s := default 0 (a_next <$> put_area s).
Definition epptr s := default 0 (a_end <$> put_area s).

Definition setg (b n e : Z) : comp strstreambuf unit := cmodify (set_get (Some (Area b n e))).
Definition setp (b e : Z) : comp strstreambuf unit := cmodify (set_put (Some (Area b b e))).
Definition gbump (n : Z) : comp strstreambuf unit :=
  cmodify (λ s, set_get ((λ a, Area (a_beg a) (a_next a + n) (a_end a)) <$> get_area s) s).
Definition pbump (n : Z) : comp strstreambuf unit :=
  cmodify (λ s, set_put ((λ a, Area (a_beg a) (a_next a + n) (a_end a)) <$> put_area s) s).

(** Reading and writing through a pointer. *)
Definition read (i : Z) : comp strstreambuf Z := λ s, (load (mem s) i, s).
Definition write (i c : Z) : comp strstreambuf unit :=
  let* s := cget in let* b := clift (store (mem s) i c) in cput (set_mem b s).

(** ** Construction *)

Definition strstreambuf_sized (alsize : Z) : strstreambuf := Buf DYNAMIC alsize false None None None.
Definition strstreambuf_alloc : strstreambuf := Buf DYNAMIC default_alsize true None None None.

(** [strlen]. *)
Fixpoint strlen_cells (l : list (option Z)) : outcome Z :=
  match l with
  | [] => Undef BufferOverread
  | None :: _ => Undef UninitRead
  | Some c :: l' => if c =? 0 then Ret 0 else match strlen_cells l' with Ret n => Ret (n + 1) | bad => bad end
  end.
Definition strlen (b : block Z) : outcome Z :=
  match b with None => Undef NullDeref | Some l => strlen_cells l end.

(** [__init]; [pbeg] is an offset in the array of [gnext]. *)
Definition init (n : Z) (pbeg : option Z) : comp strstreambuf unit :=
  let* s := cget in
  let* n := (if n =? 0 then clift (strlen (mem s)) else if n <? 0 then cret INT_MAX else cret n) in
  match pbeg with
  | None => setg 0 0 n
  | Some p => let* _ := setg 0 0 p in setp p (p + n)
  end.

Definition strstreambuf_array (gnext : block Z) (n : Z) (pbeg : option Z) : outcome unit * strstreambuf :=
  init n pbeg (Buf 0 default_alsize false gnext None None).
Definition strstreambuf_const (gnext : block Z) (n : Z) : outcome unit * strstreambuf :=
  init n None (Buf CONSTANT default_alsize false gnext None None).

(** [signed char] and [unsigned char] arrays are taken as [char] arrays. *)
Definition strstreambuf_signed_array := strstreambuf_array.
Definition strstreambuf_signed_const := strstreambuf_const.
Definition strstreambuf_unsigned_array := strstreambuf_array.
Definition strstreambuf_unsigned_const := strstreambuf_const.

(** The destructor frees the array it allocated, unless it is frozen. *)
Definition destroy : comp strstreambuf unit :=
  cmodify (λ s, if bool_decide (is_Some (get_area s)) && mode ALLOCATED s && negb (mode FROZEN s)
                then set_mem None s else s).

Definition swap (s rhs : strstreambuf) : strstreambuf * strstreambuf := (rhs, s).

(** ** Operations *)

Definition freeze (freezefl : bool) : comp strstreambuf unit :=
  cmodify (λ s, if mode DYNAMIC s
                then if freezefl then set_strmode (strmode s .| FROZEN) s
                     else set_strmode (strmode s .& Z.lnot FROZEN) s
                else s).

(** The pointer returned is [eback]. *)
Definition str_ : comp strstreambuf Z :=
  let* _ := cmodify (λ s, if mode DYNAMIC s then set_strmode (strmode s .| FROZEN) s else s) in
  let* s := cget in cret (eback s).

Definition pcount : comp strstreambuf Z := let* s := cget in cret (int_cast (pptr s - pbase s)).

Definition what_bad_alloc : bytes := str "std::bad_alloc".

(** The new array; [granted] says whether the allocation succeeds: [new] throws when
    it does not, an allocation function returns null. *)
Definition allocate (granted : bool) (size : Z) : comp strstreambuf (option (block Z)) :=
  let* s := cget in
  if granted then cret (Some (malloc size))
  else if palloc s then cret None else cthrow what_bad_alloc.

(** [memcpy] of [n] cells, which may hold nothing. *)
Definition memcpy_cells (src dst : block Z) (n : Z) : outcome (block Z) :=
  if n =? 0 then Ret dst
  else match src, dst with
       | Some a, Some b =>
           if zlen a <? n then Undef BufferOverread
           else if zlen b <? n then Undef BufferOverflow
           else Ret (Some (take (Z.to_nat n) a ++ drop (Z.to_nat n) b))
       | _, _ => Undef NullDeref
       end.

(** The growing of the array. *)
Definition grow (granted : bool) : comp strstreambuf bool :=
  let* s := cget in
  let old_size := (match put_area s with Some a => a_end a | None => egptr s end) - eback s in
  let new_size := Z.max (alsize s) (2 * old_size) in
  let new_size := if new_size =? 0 then default_alsize else new_size in
  let* buf := allocate granted new_size in
  match buf with
  | None => cret false
  | Some buf =>
      let ninp := gptr s - eback s in
      let einp := egptr s - eback s in
      let nout := pptr s - pbase s in
      let eout := epptr s - pbase s in
      let* copied := clift (memcpy_cells (mem s) buf old_size) in
      let* _ := cmodify (set_mem copied) in
      let* _ := setg 0 ninp einp in
      let* _ := setp einp (einp + eout) in
      let* _ := pbump (int_cast nout) in
      let* _ := cmodify (λ s, set_strmode (strmode s .| ALLOCATED) s) in
      cret true
  end.

Definition overflow (granted : bool) (c : Z) : comp strstreambuf Z :=
  if c =? EOF then cret 0
  else
    let* s := cget in
    let* room :=
      (if pptr s =? epptr s then
         if negb (mode DYNAMIC s) || mode FROZEN s then cret false else grow granted
       else cret true) in
    if room : bool then
      let* s := cget in
      let* _ := write (pptr s) c in
      let* _ := pbump 1 in
      cret (u8 c)
    else cret EOF.

Definition pbackfail (c : Z) : comp strstreambuf Z :=
  let* s := cget in
  if eback s =? gptr s then cret EOF
  else if c =? EOF then let* _ := gbump (-1) in cret 0
  else if mode CONSTANT s then
    let* d := read (gptr s - 1) in
    if d =? u8 c then let* _ := gbump (-1) in cret c else cret EOF
  else
    let* _ := gbump (-1) in
    let* _ := write (gptr s - 1) (u8 c) in
    cret c.

Definition underflow : comp strstreambuf Z :=
  let* s := cget in
  if gptr s =? egptr s then
    if bool_decide (put_area s = None) || (pptr s <=? egptr s) then cret EOF
    else let* _ := setg (eback s) (gptr s) (pptr s) in read (gptr s)
  else read (gptr s).

Inductive seekdir := beg | cur | end_.

Definition seekhigh (s : strstreambuf) : Z := match put_area s with Some a => a_end a | None => egptr s end.

(** The two areas moved to [newoff]. *)
Definition seek_to (pos_in pos_out : bool) (newoff : Z) : comp strstreambuf unit :=
  let* s := cget in
  let newpos := eback s + newoff in
  let* _ := (if pos_in then setg (eback s) newpos (Z.max newpos (egptr s)) else cret tt) in
  if pos_out then
    let off := epptr s - newpos in
    let base := Z.min (pbase s) newpos in
    let* _ := setp base (epptr s) in
    pbump (int_cast ((epptr s - base) - off))
  else cret tt.

(** What an offset is counted from. *)
Definition seek_base (way : seekdir) (pos_in : bool) (s : strstreambuf) : Z :=
  match way with
  | beg => 0
  | cur => (if pos_in then gptr s else pptr s) - eback s
  | end_ => seekhigh s - eback s
  end.

(** The sum is a signed number of 64 bits. *)
Definition seekoff (off : Z) (way : seekdir) (pos_in pos_out : bool) : comp strstreambuf Z :=
  let* s := cget in
  let legal := match way with cur => xorb pos_in pos_out | _ => pos_in || pos_out end in
  let legal := legal && negb (pos_in && bool_decide (get_area s = None))
               && negb (pos_out && bool_decide (put_area s = None)) in
  if legal then
    let newoff := seek_base way pos_in s + off in
    if (newoff <? - 2 ^ 63) || (2 ^ 63 <=? newoff) then cundef SignedOverflow
    else if (0 <=? newoff) && (newoff <=? seekhigh s - eback s) then
      let* _ := seek_to pos_in pos_out newoff in cret newoff
    else cret (-1)
  else cret (-1).

Definition seekpos (sp : Z) (pos_in pos_out : bool) : comp strstreambuf Z :=
  let* s := cget in
  if (pos_in || pos_out)
     && negb (pos_in && bool_decide (get_area s = None) || pos_out && bool_decide (put_area s = None))
  then
    if (0 <=? sp) && (sp <=? seekhigh s - eback s) then
      let* _ := seek_to pos_in pos_out sp in cret sp
    else cret (-1)
  else cret (-1).

(** ** [streambuf] *)

Definition sputc (granted : bool) (c : Z) : comp strstreambuf Z :=
  let* s := cget in
  if pptr s =? epptr s then overflow granted c
  else let* _ := write (pptr s) c in let* _ := pbump 1 in cret c.

Definition sgetc : comp strstreambuf Z :=
  let* s := cget in if gptr s =? egptr s then underflow else read (gptr s).

Definition uflow : comp strstreambuf Z :=
  let* c := underflow in
  if c =? EOF then cret EOF
  else let* s := cget in let* d := read (gptr s) in let* _ := gbump 1 in cret d.

Definition sbumpc : comp strstreambuf Z :=
  let* s := cget in
  if gptr s =? egptr s then uflow
  else let* c := read (gptr s) in let* _ := gbump 1 in cret c.

Definition sputbackc (c : Z) : comp strstreambuf Z :=
  let* s := cget in
  if eback s =? gptr s then pbackfail c
  else
    let* d := read (gptr s - 1) in
    if d =? c then let* _ := gbump (-1) in cret d else pbackfail c.

Definition sungetc : comp strstreambuf Z :=
  let* s := cget in
  if eback s =? gptr s then pbackfail EOF
  else let* _ := gbump (-1) in read (gptr s - 1).

(** [sputn] and [sgetn]. *)
Fixpoint xsputn (granted : bool) (s : list Z) : comp strstreambuf Z :=
  match s with
  | [] => cret 0
  | c :: s' =>
      let* b := cget in
      let* ok := (if pptr b <? epptr b then
                    let* _ := write (pptr b) c in let* _ := pbump 1 in cret true
                  else let* r := overflow granted c in cret (negb (r =? EOF))) in
      if ok : bool then let* n := xsputn granted s' in cret (n + 1) else cret 0
  end.

Fixpoint xsgetn (n : nat) : comp strstreambuf (list Z) :=
  match n with
  | O => cret []
  | S n' =>
      let* b := cget in
      let* c := (if gptr b <? egptr b then let* c := read (gptr b) in let* _ := gbump 1 in cret c
                 else uflow) in
      if c =? EOF then cret [] else let* l := xsgetn n' in cret (c :: l)
  end.

(** ** Arrays of the caller's *)

Definition is_char (c : Z) : Prop := 0 ≤ c < 256.

(** The array has [n] characters, all of them set. *)
Definition filled (b : block Z) (n : Z) : Prop :=
  blen b = n ∧ ∀ i, 0 ≤ i < n → ∃ c, default [] b !! Z.to_nat i = Some (Some c) ∧ is_char c.

Record array_ok (n : Z) (s : strstreambuf) : Prop := {
  ar_mode : mode DYNAMIC s = false;
  ar_mem : filled (mem s) n;
  ar_size : n ≤ INT_MAX;
  ar_get : ∃ g e, get_area s = Some (Area 0 g e) ∧ 0 ≤ g ≤ e ∧ e ≤ n;
  ar_put : put_area s = None
    ∨ ∃ b p x, put_area s = Some (Area b p x) ∧ mode CONSTANT s = false ∧ 0 ≤ b ≤ p ∧ p ≤ x ∧ x ≤ n }.

(** The public operations. *)
Inductive op :=
  | Sputc (c : Z) | Sgetc | Sbumpc | Sputbackc (c : Z) | Sungetc
  | Seekoff (off : Z) (way : seekdir) (pos_in pos_out : bool) | Seekpos (sp : Z) (pos_in pos_out : bool)
  | Freeze (b : bool) | Str | Pcount.

Definition op_ok (o : op) : Prop :=
  match o with
  | Sputc c | Sputbackc c => is_char c
  | Seekoff off _ _ _ => - 2 ^ 63 ≤ off < 2 ^ 63 - INT_MAX
  | _ => True
  end.

Definition run_op (granted : bool) (o : op) : comp strstreambuf Z :=
  match o with
  | Sputc c => sputc granted c | Sgetc => sgetc | Sbumpc => sbumpc
  | Sputbackc c => sputbackc c | Sungetc => sungetc
  | Seekoff off way i o => seekoff off way i o | Seekpos sp i o => seekpos sp i o
  | Freeze b => let* _ := freeze b in cret 0 | Str => str_ | Pcount => pcount
  end.

Fixpoint run_ops (granted : bool) (os : list op) : comp strstreambuf (list Z) :=
  match os with
  | [] => cret []
  | o :: os' => let* r := run_op granted o in let* rs := run_ops granted os' in cret (r :: rs)
  end.

Lemma read_ok n s i :
  filled (mem s) n → 0 ≤ i < n → ∃ c, read i s = (Ret c, s) ∧ is_char c.
Proof.
  intros [Hl Hf] Hi. destruct (Hf i Hi) as (c & Hc & Hr). exists c. split; [|done].
  unfold read, load. destruct (mem s) as [l|]; cbn in Hc; [|by rewrite lookup_nil in Hc].
  else_branch. by rewrite Hc.
Qed.

Lemma write_ok n s i c :
  filled (mem s) n → 0 ≤ i < n → is_char c →
  ∃ b, write i c s = (Ret tt, set_mem b s) ∧ filled b n.
Proof.
  intros [Hl Hf] Hi Hc. destruct (store_spec (mem s) i c) as (b & Hs & Hb & Hcell); [lia|].
  exists b. unfold write, cbind, cget, clift, cput. rewrite Hs. split; [done|]. split; [lia|].
  intros j Hj. rewrite Hcell. case_decide; [eauto|]. by apply Hf.
Qed.

(** What an operation leaves of an array: the bounds hold, and a constant array is not
    written to. *)
Definition keeps_array {A} (n : Z) (c : comp strstreambuf A) (s : strstreambuf) : Prop :=
  ∃ r s', c s = (Ret r, s') ∧ array_ok n s' ∧ strmode s' = strmode s
    ∧ (mode CONSTANT s = true → mem s' = mem s).

Section array.
Context (n : Z).

Lemma keeps_ret {A} (a : A) s : array_ok n s → keeps_array n (cret a) s.
Proof. intros. by exists a, s. Qed.

Lemma keeps_bind {A B} (c : comp strstreambuf A) (k : A → comp strstreambuf B) s r s1 :
  c s = (Ret r, s1) → strmode s1 = strmode s → (mode CONSTANT s = true → mem s1 = mem s) →
  keeps_array n (k r) s1 → keeps_array n (cbind c k) s.
Proof.
  intros Hc Hm Hk (r' & s' & Hr & Hok & Hm' & Hk'). exists r', s'. unfold cbind. rewrite Hc.
  split; [done|]. split; [done|]. split; [congruence|]. intros Hcst.
  rewrite Hk', Hk; [done|done|]. unfold mode in *. by rewrite Hm.
Qed.

(** An array stays in order when its areas move inside their bounds. *)
Lemma array_ok_get s g e :
  array_ok n s → 0 ≤ g ≤ e → e ≤ n → array_ok n (set_get (Some (Area 0 g e)) s).
Proof. intros [Hm Hf Hs _ Hp] Hg He. split; try done. by exists g, e. Qed.

Lemma array_ok_put s b p x :
  array_ok n s → mode CONSTANT s = false → 0 ≤ b ≤ p → p ≤ x → x ≤ n →
  array_ok n (set_put (Some (Area b p x)) s).
Proof. intros [Hm Hf Hs Hg _] Hc Hb Hp Hx. split; try done. right. by exists b, p, x. Qed.

Lemma array_ok_mem s b : array_ok n s → filled b n → array_ok n (set_mem b s).
Proof. intros [Hm Hf Hs Hg Hp] Hb. by split. Qed.

(** Moving the next pointer of the get area. *)
Lemma keeps_gbump s g e d :
  array_ok n s → get_area s = Some (Area 0 g e) → 0 ≤ g + d ≤ e →
  ∃ s', gbump d s = (Ret tt, s') ∧ array_ok n s' ∧ strmode s' = strmode s ∧ mem s' = mem s
    ∧ get_area s' = Some (Area 0 (g + d) e).
Proof.
  intros Hok Hg Hd. unfold gbump, cmodify. rewrite Hg. eexists. split; [done|].
  split; [|done]. apply array_ok_get; [done|done|].
  destruct (ar_get _ _ Hok) as (g' & e' & Hg' & _ & He). rewrite Hg in Hg'. by injection Hg' as <- <-.
Qed.

(** Reading a character and going on behind it. *)
Lemma keeps_read_bump s g e :
  array_ok n s → get_area s = Some (Area 0 g e) → g < e →
  keeps_array n (let* c := read g in let* _ := gbump 1 in cret c) s.
Proof.
  intros Hok Hg Hlt. destruct (ar_get _ _ Hok) as (g' & e' & Hg' & Hge & He).
  rewrite Hg in Hg'. injection Hg' as <- <-.
  destruct (read_ok n s g (ar_mem _ _ Hok)) as (c & Hr & _); [lia|].
  destruct (keeps_gbump s g e 1 Hok Hg) as (s' & Hb & Hok' & Hm & Hmem & _); [lia|].
  exists c, s'. unfold cbind. rewrite Hr, Hb. done.
Qed.

Lemma get_fields s g e :
  get_area s = Some (Area 0 g e) → eback s = 0 ∧ gptr s = g ∧ egptr s = e.
Proof. unfold eback, gptr, egptr. by intros ->. Qed.

Lemma put_fields s b p x :
  put_area s = Some (Area b p x) → pbase s = b ∧ pptr s = p ∧ epptr s = x.
Proof. unfold pbase, pptr, epptr. by intros ->. Qed.

(** The end of the array that the get area does not reach yet. *)
Lemma underflow_cases s g e :
  array_ok n s → get_area s = Some (Area 0 g e) →
  underflow s = (Ret EOF, s) ∧ g = e
  ∨ ∃ c s' e', underflow s = (Ret c, s') ∧ is_char c ∧ array_ok n s' ∧ strmode s' = strmode s
      ∧ mem s' = mem s ∧ get_area s' = Some (Area 0 g e') ∧ g < e'.
Proof.
  intros Hok Hg. destruct (get_fields s g e Hg) as (Hb & Hn & He).
  destruct (ar_get _ _ Hok) as (g' & e' & Hg' & Hge & Hen). rewrite Hg in Hg'. injection Hg' as <- <-.
  unfold underflow, cbind, cget. rewrite Hb, Hn, He. destruct (Z.eqb_spec g e) as [<-|Hne].
  - destruct (ar_put _ _ Hok) as [Hp|(b & p & x & Hp & _ & Hbp & Hpx & Hxn)].
    { left. rewrite bool_decide_true by done. done. }
    rewrite bool_decide_false by (rewrite Hp; done). cbn [orb].
    destruct (put_fields s b p x Hp) as (_ & -> & _).
    destruct (Z.leb_spec p g); [by left|]. right.
    assert (Hok' : array_ok n (set_get (Some (Area 0 g p)) s)) by (apply array_ok_get; [done|lia..]).
    destruct (read_ok n _ g (ar_mem _ _ Hok')) as (c & Hr & Hc); [lia|].
    exists c, (set_get (Some (Area 0 g p)) s), p. unfold setg, cmodify. rewrite Hr. done.
  - right. destruct (read_ok n s g (ar_mem _ _ Hok)) as (c & Hr & Hc); [lia|].
    exists c, s, e. rewrite Hr. do 6 (split; [done|]). lia.
Qed.

Lemma keeps_sgetc s : array_ok n s → keeps_array n sgetc s.
Proof.
  intros Hok. destruct (ar_get _ _ Hok) as (g & e & Hg & Hge & Hen).
  destruct (get_fields s g e Hg) as (_ & Hn & He). unfold keeps_array, sgetc, cbind, cget.
  rewrite Hn, He. destruct (Z.eqb_spec g e).
  - destruct (underflow_cases s g e Hok Hg) as [[-> _]|(c & s' & e' & -> & _ & Hok' & Hm & Hmem & _)];
      eexists _, _; (split; [done|]); done.
  - destruct (read_ok n s g (ar_mem _ _ Hok)) as (c & -> & _); [lia|]. eexists _, _. split; [done|]. done.
Qed.

Lemma keeps_sbumpc s : array_ok n s → keeps_array n sbumpc s.
Proof.
  intros Hok. destruct (ar_get _ _ Hok) as (g & e & Hg & Hge & Hen).
  destruct (get_fields s g e Hg) as (_ & Hn & He).
  unfold sbumpc. eapply (keeps_bind _ _ s); [done..|]. rewrite Hn, He.
  destruct (Z.eqb_spec g e); [|by apply (keeps_read_bump s g e); [..|lia]].
  unfold uflow. destruct (underflow_cases s g e Hok Hg)
    as [[Hu _]|(c & s' & e' & Hu & Hc & Hok' & Hm & Hmem & Hg' & Hlt)].
  - eapply (keeps_bind _ _ s); [exact Hu|done..|]. by apply keeps_ret.
  - eapply (keeps_bind _ _ s); [exact Hu|done..|].
    unfold is_char, EOF in *. destruct (Z.eqb_spec c (-1)); [lia|].
    eapply (keeps_bind _ _ s'); [done..|]. destruct (get_fields s' g e' Hg') as (_ & -> & _).
    by apply (keeps_read_bump s' g e').
Qed.

Lemma keeps_pbackfail s c : array_ok n s → is_char c ∨ c = EOF → keeps_array n (pbackfail c) s.
Proof.
  intros Hok Hc. destruct (ar_get _ _ Hok) as (g & e & Hg & Hge & Hen).
  destruct (get_fields s g e Hg) as (Hb & Hn & He).
  unfold pbackfail. eapply (keeps_bind _ _ s); [done..|]. rewrite Hb, Hn.
  destruct (Z.eqb_spec 0 g); [by apply keeps_ret|].
  destruct (keeps_gbump s g e (-1) Hok Hg) as (s1 & Hbump & Hok1 & Hm1 & Hmem1 & _); [lia|].
  destruct (Z.eqb_spec c EOF).
  { eapply (keeps_bind _ _ s); [exact Hbump|done|done|]. by apply keeps_ret. }
  destruct Hc as [Hc|]; [|done].
  destruct (mode CONSTANT s) eqn:Hconst.
  - destruct (read_ok n s (g - 1) (ar_mem _ _ Hok)) as (d & Hr & _); [lia|].
    eapply (keeps_bind _ _ s); [exact Hr|done..|].
    destruct (d =? u8 c); [|by apply keeps_ret].
    eapply (keeps_bind _ _ s); [exact Hbump|done|done|]. by apply keeps_ret.
  - eapply (keeps_bind _ _ s); [exact Hbump|done|done|].
    destruct (write_ok n s1 (g - 1) (u8 c) (ar_mem _ _ Hok1)) as (b & Hw & Hf);
      [lia|by unfold is_char in *; rewrite u8_small|].
    eapply (keeps_bind _ _ s1); [exact Hw|done| |by apply keeps_ret, array_ok_mem].
    unfold mode in *. rewrite Hm1. congruence.
Qed.

Lemma keeps_unget s c :
  array_ok n s → is_char c → keeps_array n (sputbackc c) s ∧ keeps_array n sungetc s.
Proof.
  intros Hok Hc. destruct (ar_get _ _ Hok) as (g & e & Hg & Hge & Hen).
  destruct (get_fields s g e Hg) as (Hb & Hn & He).
  split; (eapply (keeps_bind _ _ s); [done..|]); rewrite Hb, Hn;
    (destruct (Z.eqb_spec 0 g); [apply keeps_pbackfail; [done|by auto]|]);
    destruct (keeps_gbump s g e (-1) Hok Hg) as (s1 & Hbump & Hok1 & Hm1 & Hmem1 & _); try lia.
  - destruct (read_ok n s (g - 1) (ar_mem _ _ Hok)) as (d & Hr & _); [lia|].
    eapply (keeps_bind _ _ s); [exact Hr|done..|].
    destruct (d =? c); [|apply keeps_pbackfail; [done|by auto]].
    eapply (keeps_bind _ _ s); [exact Hbump|done|done|]. by apply keeps_ret.
  - eapply (keeps_bind _ _ s); [exact Hbump|done|done|].
    destruct (read_ok n s1 (g - 1) (ar_mem _ _ Hok1)) as (d & Hr & _); [lia|].
    exists d, s1. by rewrite Hr.
Qed.

Lemma keeps_sputc granted s c : array_ok n s → is_char c → keeps_array n (sputc granted c) s.
Proof.
  intros Hok Hc. unfold sputc. eapply (keeps_bind _ _ s); [done..|].
  destruct (Z.eqb_spec (pptr s) (epptr s)) as [He|He].
  - unfold overflow. unfold is_char in Hc. destruct (Z.eqb_spec c EOF) as [->|_]; [unfold EOF in *; lia|].
    eapply (keeps_bind _ _ s); [done..|]. rewrite (proj2 (Z.eqb_eq _ _) He), (ar_mode _ _ Hok).
    cbn [negb orb]. eapply (keeps_bind _ _ s); [done..|]. by apply keeps_ret.
  - destruct (ar_put _ _ Hok) as [Hp|(b & p & x & Hp & Hconst & Hbp & Hpx & Hxn)].
    { unfold pptr, epptr in He. by rewrite Hp in He. }
    destruct (put_fields s b p x Hp) as (_ & Hpp & Hep). rewrite Hpp in *. rewrite Hep in He.
    destruct (write_ok n s p c (ar_mem _ _ Hok)) as (m & Hw & Hf); [lia|done|].
    eapply (keeps_bind _ _ s); [exact Hw|done|congruence|].
    eexists c, _. split; [done|]. split; [|done]. cbn. rewrite Hp. cbn.
    apply array_ok_put; [by apply array_ok_mem|done|lia..].
Qed.

Lemma keeps_seek_to s i o newoff :
  array_ok n s → 0 ≤ newoff ≤ seekhigh s →
  (o = true → put_area s ≠ None) → keeps_array n (seek_to i o newoff) s.
Proof.
  intros Hok Hoff Ho. destruct (ar_get _ _ Hok) as (g & e & Hg & Hge & Hen).
  destruct (get_fields s g e Hg) as (Hb & Hn & He).
  assert (Hhigh : seekhigh s ≤ n).
  { unfold seekhigh. destruct (ar_put _ _ Hok) as [->|(b & p & x & -> & _ & _ & _ & Hx)]; [lia|done]. }
  unfold seek_to. eapply (keeps_bind _ _ s); [done..|]. rewrite Hb, He. rewrite Z.add_0_l.
  set (s1 := if i then set_get (Some (Area 0 newoff (Z.max newoff e))) s else s).
  assert (Hok1 : array_ok n s1) by (unfold s1; destruct i; [apply array_ok_get; [done|lia..]|done]).
  eapply (keeps_bind _ _ s tt s1); [by destruct i|by destruct i|by destruct i|].
  destruct o; [|by apply keeps_ret].
  destruct (ar_put _ _ Hok) as [Hp|(b & p & x & Hp & Hconst & Hbp & Hpx & Hxn)]; [by destruct Ho|].
  destruct (put_fields s b p x Hp) as (-> & _ & ->).
  assert (Hx : newoff ≤ x) by (unfold seekhigh in Hoff; rewrite Hp in Hoff; cbn in Hoff; lia).
  pose proof (ar_size _ _ Hok) as HN. unfold INT_MAX in HN.
  eexists tt, _. split; [done|]. split; [|by unfold s1; destruct i]. cbn.
  rewrite int_cast_small by (unfold INT_MIN, INT_MAX; lia).
  apply array_ok_put; [by apply array_ok_put; [done|by unfold s1; destruct i|lia..]|
    by unfold s1; destruct i|lia..].
Qed.

Lemma keeps_seek s i o newoff :
  array_ok n s → (o = true → put_area s ≠ None) →
  keeps_array n (if (0 <=? newoff) && (newoff <=? seekhigh s - eback s)
                 then let* _ := seek_to i o newoff in cret newoff else cret (-1)) s.
Proof.
  intros Hok Ho. destruct (ar_get _ _ Hok) as (g & e & Hg & _ & _).
  destruct (get_fields s g e Hg) as (-> & _ & _).
  destruct (Z.leb_spec 0 newoff), (Z.leb_spec newoff (seekhigh s - 0)); cbn [andb];
    try by apply keeps_ret.
  destruct (keeps_seek_to s i o newoff Hok) as ([] & s' & Hs & Hok' & Hm & Hmem); [lia|done|].
  exists newoff, s'. unfold cbind. by rewrite Hs.
Qed.

Lemma seek_base_range s way (i o : bool) :
  array_ok n s → (i = false → way = cur → put_area s ≠ None) → 0 ≤ seek_base way i s ≤ INT_MAX.
Proof.
  intros Hok Ho. destruct (ar_get _ _ Hok) as (g & e & Hg & Hge & Hen). destruct (get_fields s g e Hg) as (Hb & Hn & He).
  pose proof (ar_size _ _ Hok) as HN. unfold seek_base, seekhigh. rewrite Hb, Hn, He. destruct way; [lia| |].
  - destruct i; [lia|]. destruct (ar_put _ _ Hok) as [Hp|(b & p & x & Hp & _ & Hbp & Hpx & Hxn)]; [by destruct Ho|].
    destruct (put_fields s b p x Hp) as (_ & -> & _). lia.
  - destruct (ar_put _ _ Hok) as [->|(b & p & x & -> & _ & Hbp & Hpx & Hxn)]; cbn; lia.
Qed.

Lemma keeps_op granted s o : array_ok n s → op_ok o → keeps_array n (run_op granted o) s.
Proof.
  intros Hok Ho. pose proof (ar_get _ _ Hok) as (g & e & Hg & _ & _).
  assert (Hput : ∀ o : bool, bool_decide (put_area s = None) = false ∨ o = false →
    o = true → put_area s ≠ None) by (intros ? [Hd|?] ?; [by apply bool_decide_eq_false in Hd|congruence]).
  destruct o as [c| | |c| |off way i o|sp i o|b| |]; cbn [run_op op_ok] in *.
  - by apply keeps_sputc.
  - by apply keeps_sgetc.
  - by apply keeps_sbumpc.
  - by apply keeps_unget.
  - by apply (keeps_unget s 0).
  - eapply (keeps_bind _ _ s); [done..|].
    cbv beta zeta. match goal with |- keeps_array _ (if ?b then _ else _) _ => destruct b eqn:Hl; [|by apply keeps_ret] end.
    apply andb_true_iff in Hl as [Hl1 Hl%negb_true_iff]. apply andb_false_iff in Hl.
    assert (Hp : o = true → put_area s ≠ None) by (apply Hput; tauto).
    destruct (seek_base_range s way i o Hok) as [Hlo Hhi].
    { intros -> ->. apply Hp. by destruct o. }
    unfold INT_MAX in *. rewrite (proj2 (Z.ltb_ge _ _)), (proj2 (Z.leb_gt _ _)) by lia. cbn [orb].
    by apply keeps_seek.
  - eapply (keeps_bind _ _ s); [done..|].
    cbv beta zeta. match goal with |- keeps_array _ (if ?b then _ else _) _ => destruct b eqn:Hl; [|by apply keeps_ret] end.
    apply keeps_seek; [done|]. apply Hput. apply andb_true_iff in Hl as [_ Hl%negb_true_iff].
    apply orb_false_iff in Hl as [_ Hl]. apply andb_false_iff in Hl. tauto.
  - unfold freeze. eapply (keeps_bind _ _ s tt s); [|done..|by apply keeps_ret].
    unfold cmodify. by rewrite (ar_mode _ _ Hok).
  - unfold str_. eapply (keeps_bind _ _ s tt s); [|done..|].
    { unfold cmodify. by rewrite (ar_mode _ _ Hok). }
    by exists (eback s), s.
  - by exists (int_cast (pptr s - pbase s)), s.
Qed.

Lemma keeps_ops granted s os :
  array_ok n s → Forall op_ok os → keeps_array n (run_ops granted os) s.
Proof.
  intros Hok Hos. revert s Hok. induction Hos as [|o os Ho Hos IH]; intros s Hok; cbn [run_ops];
    [by apply keeps_ret|].
  destruct (keeps_op granted s o Hok Ho) as (r & s1 & Hr & Hok1 & Hm & Hmem).
  eapply (keeps_bind _ _ s); [exact Hr|done|done|].
  destruct (IH s1 Hok1) as (rs & s2 & Hrs & Hok2 & Hm2 & Hmem2).
  exists (r :: rs), s2. unfold cbind. by rewrite Hrs.
Qed.
End array.

(** ** Arrays that are to grow *)

(** Writing and taking characters, and what a queue gives for it: [w] has been
    written, the first [r] of it taken. *)
Inductive qop := Put (c : Z) | Take.

Definition op_of (o : qop) : op := match o with Put c => Sputc c | Take => Sbumpc end.

Fixpoint queue (os : list qop) (w : list Z) (r : nat) : list Z :=
  match os with
  | [] => []
  | Put c :: os' => c :: queue os' (w ++ [c]) r
  | Take :: os' =>
      match w !! r with
      | Some c => c :: queue os' w (S r)
      | None => EOF :: queue os' w r
      end
  end.

Definition puts (os : list qop) : list Z := omap (λ o, match o with Put c => Some c | Take => None end) os.

(** The size of the first array. *)
Definition first_size (a : Z) : Z := if Z.max a 0 =? 0 then default_alsize else Z.max a 0.

Definition fresh (a : Z) (pal : bool) : strstreambuf := Buf DYNAMIC a pal None None None.

(** The buffer between two operations. *)
Inductive holding (a : Z) : strstreambuf → list Z → nat → Prop :=
  | holding_fresh pal : holding a (fresh a pal) [] 0
  | holding_some m pal b w r e :
      w ≠ [] → holds b w → blen b = first_size a → zlen w ≤ first_size a →
      Z.of_nat r ≤ e ≤ zlen w → Forall is_char w →
      holding a (Buf m a pal b (Some (Area 0 (Z.of_nat r) e)) (Some (Area 0 (zlen w) 0))) w r.

Lemma first_size_pos a : 0 < first_size a.
Proof. unfold first_size, default_alsize. destruct (Z.eqb_spec (Z.max a 0) 0); lia. Qed.

(** Goes through a computation on a buffer whose fields are known. *)
Ltac run := unfold cbind, cget, cput, cret, cmodify, clift; cbn -[malloc store load].

Lemma grow_first a pal :
  grow true (fresh a pal)
  = (Ret true, Buf (DYNAMIC .| ALLOCATED) a pal (malloc (first_size a)) (Some (Area 0 0 0)) (Some (Area 0 0 0))).
Proof. reflexivity. Qed.

Lemma put_first a pal c :
  is_char c → ∃ s', sputc true c (fresh a pal) = (Ret c, s') ∧ holding a s' [c] 0.
Proof.
  intros Hc. pose proof (first_size_pos a) as Hpos. unfold is_char in Hc.
  destruct (holds_append (malloc (first_size a)) [] c) as (b & Hs & Hl & Hh);
    [done|rewrite blen_malloc by lia; exact Hpos|].
  change (zlen (@nil Z)) with 0 in Hs. rewrite blen_malloc in Hl by lia.
  exists (Buf (DYNAMIC .| ALLOCATED) a pal b (Some (Area 0 0 0)) (Some (Area 0 1 0))). split.
  - change (sputc true c (fresh a pal)) with (overflow true c (fresh a pal)). unfold overflow.
    destruct (Z.eqb_spec c EOF) as [->|_]; [unfold EOF in *; lia|].
    unfold cbind at 1, cget at 1.
    change (pptr (fresh a pal) =? epptr (fresh a pal)) with true.
    change (negb (mode DYNAMIC (fresh a pal)) || mode FROZEN (fresh a pal)) with false. cbv iota.
    rewrite (cbind_ret _ _ _ _ _ (grow_first a pal)). unfold write, pbump. run. rewrite Hs. run.
    by rewrite u8_small by lia.
  - apply (holding_some a (DYNAMIC .| ALLOCATED) pal b [c] 0 0); try done.
    + change (zlen [c]) with 1. lia.
    + by apply Forall_singleton.
Qed.

Lemma put_more a m pal b w r e c :
  holding a (Buf m a pal b (Some (Area 0 (Z.of_nat r) e)) (Some (Area 0 (zlen w) 0))) w r →
  is_char c →
  let s := Buf m a pal b (Some (Area 0 (Z.of_nat r) e)) (Some (Area 0 (zlen w) 0)) in
  if zlen w <? first_size a then ∃ s', sputc true c s = (Ret c, s') ∧ holding a s' (w ++ [c]) r
  else sputc true c s = (Undef BufferOverflow, s).
Proof.
  inversion 1 as [|? ? ? ? ? ? Hne Hh Hb Hw Hr Hc]; subst. intros Hcc s.
  assert (Hlw : 0 < zlen w).
  { destruct w; [done|]. rewrite zlen_cons. pose proof (zlen_nonneg w). lia. }
  assert (Hs : sputc true c s = match store b (zlen w) c with
    | Ret b' => (Ret c, Buf m a pal b' (Some (Area 0 (Z.of_nat r) e)) (Some (Area 0 (zlen w + 1) 0)))
    | Throw x => (Throw x, s) | AssertFailed => (AssertFailed, s)
    | Waits => (Waits, s) | Undef u => (Undef u, s) end).
  { unfold sputc, write, pbump, s. run. destruct (Z.eqb_spec (zlen w) 0); [lia|]. run.
    by destruct (store b (zlen w) c). }
  destruct (Z.ltb_spec (zlen w) (first_size a)).
  - destruct (holds_append b w c Hh) as (b' & Hst & Hl' & Hh'); [lia|]. rewrite Hs, Hst.
    eexists. split; [done|].
    assert (zlen w + 1 = zlen (w ++ [c])) as -> by (by rewrite zlen_app).
    constructor; try done.
    + by destruct w.
    + lia.
    + rewrite zlen_app. change (zlen [c]) with 1. lia.
    + rewrite zlen_app. change (zlen [c]) with 1. lia.
    + apply Forall_app. split; [done|by apply Forall_singleton].
  - rewrite Hs. unfold store. destruct b as [l|]; unfold blen in Hb; cbn in Hb.
    + by destruct (Z.leb_spec 0 (zlen w)), (Z.ltb_spec (zlen w) (zlen l)); cbn; try lia.
    + pose proof (first_size_pos a). change (zlen (@nil (option Z))) with 0 in Hb. lia.
Qed.

Lemma take_one a s w r :
  holding a s w r →
  ∃ s', sbumpc s = (Ret (default EOF (w !! r)), s')
    ∧ holding a s' w (if w !! r then S r else r).
Proof.
  intros Hs. destruct Hs as [pal|m pal b w r e Hne Hh Hb Hw Hr Hc].
  { exists (fresh a pal). split; [done|constructor]. }
  unfold sbumpc, uflow, underflow, setg, read, gbump. run.
  destruct (w !! r) as [c|] eqn:Hwr; cbn.
  - pose proof (lookup_lt_Some _ _ _ Hwr) as Hlt.
    assert (Hl : load b (Z.of_nat r) = Ret c) by (by apply (load_holds b w)).
    assert (c ≠ EOF).
    { rewrite Forall_lookup in Hc. specialize (Hc r c Hwr). unfold is_char, EOF in *. lia. }
    assert (Hlen : (zlen w <=? Z.of_nat r) = false) by (apply Z.leb_gt; unfold zlen; lia).
    assert (Hnext : Z.of_nat r + 1 = Z.of_nat (S r)) by lia.
    assert (Hceof : (c =? EOF) = false) by by apply Z.eqb_neq.
    destruct (Z.eqb_spec (Z.of_nat r) e) as [<-|Hre].
    + rewrite Z.eqb_refl. run. rewrite ?Hlen. run. rewrite Hl. run. rewrite Hceof. run. rewrite Hl. run.
      eexists. split; [done|]. rewrite Hnext. constructor; try done. unfold zlen in *. lia.
    + run. rewrite Hl. run. eexists. split; [done|]. rewrite Hnext. constructor; try done. unfold zlen in *. lia.
  - apply lookup_ge_None in Hwr.
    assert (e = Z.of_nat r) as -> by (unfold zlen in *; lia).
    assert (Hlen : (zlen w <=? Z.of_nat r) = true) by (apply Z.leb_le; unfold zlen; lia).
    rewrite !Z.eqb_refl. run. rewrite ?Z.eqb_refl, ?Hlen. run. rewrite ?Hlen. run.
    eexists. split; [done|]. by constructor.
Qed.

Lemma put_one a s w r c :
  holding a s w r → is_char c →
  if zlen w <? first_size a then ∃ s', sputc true c s = (Ret c, s') ∧ holding a s' (w ++ [c]) r
  else ∃ s', sputc true c s = (Undef BufferOverflow, s').
Proof.
  intros Hs Hc. pose proof (first_size_pos a).
  destruct Hs as [pal|m pal b w r e Hne Hh Hb Hw Hr Hcs].
  - change (zlen (@nil Z)) with 0. destruct (Z.ltb_spec 0 (first_size a)); [|lia]. by apply put_first.
  - pose proof (put_more a m pal b w r e c) as Hp. cbv zeta in Hp.
    destruct (zlen w <? first_size a); [apply Hp; [by constructor|done]|].
    eexists. apply Hp; [by constructor|done].
Qed.

Lemma queue_run a os s w r :
  holding a s w r → Forall is_char (puts os) →
  if zlen w + zlen (puts os) <=? first_size a
  then ∃ s', run_ops true (map op_of os) s = (Ret (queue os w r), s')
  else ∃ s', run_ops true (map op_of os) s = (Undef BufferOverflow, s').
Proof.
  revert s w r. induction os as [|[c|] os IH]; intros s w r Hs Hc; cbn [map op_of run_ops puts omap queue].
  - change (zlen (puts [])) with 0. rewrite Z.add_0_r.
    destruct (Z.leb_spec (zlen w) (first_size a)) as [|Hgt]; [by exists s|].
    pose proof (first_size_pos a). destruct Hs; [change (zlen (@nil Z)) with 0 in Hgt; lia|lia].
  - assert (Hp : puts (Put c :: os) = c :: puts os) by done. rewrite Hp in *.
    apply Forall_cons in Hc as [Hc Hcs]. rewrite zlen_cons. pose proof (zlen_nonneg (puts os)).
    pose proof (put_one a s w r c Hs Hc) as H1.
    destruct (Z.ltb_spec (zlen w) (first_size a)).
    + destruct H1 as (s1 & H1 & Hs1). specialize (IH s1 (w ++ [c]) r Hs1 Hcs).
      rewrite zlen_app in IH. change (zlen [c]) with 1 in IH. rewrite Z.add_assoc.
      unfold cbind. cbn [run_op]. rewrite H1.
      destruct (_ <=? _); destruct IH as (s' & IH); exists s'; by rewrite IH.
    + destruct (Z.leb_spec (zlen w + (1 + zlen (puts os))) (first_size a)); [lia|].
      destruct H1 as (s1 & H1). exists s1. unfold cbind. cbn [run_op]. by rewrite H1.
  - assert (Hp : puts (Take :: os) = puts os) by done. rewrite Hp in *.
    destruct (take_one a s w r Hs) as (s1 & H1 & Hs1). specialize (IH s1 w _ Hs1 Hc).
    unfold cbind. cbn [run_op]. rewrite H1.
    destruct (_ <=? _); destruct IH as (s' & IH); exists s'; rewrite IH; [|done].
    by destruct (w !! r).
Qed.

(** ** Theorems *)

(** C34: whatever is read, written, put back, sought, frozen and asked for, in whatever
    order, a buffer over a filled array of the caller's of at most [INT_MAX] characters
    never touches anything outside the array, and a constant array is not written to; no
    offset that is sought overflows when it is added to a place in the array.  (In a
    greater array the put pointer is moved out of it: [seek_out_of_array].) *)
Theorem array_in_bounds n s granted os :
  array_ok n s → Forall op_ok os →
  ∃ rs s', run_ops granted os s = (Ret rs, s') ∧ array_ok n s'
    ∧ (mode CONSTANT s = true → mem s' = mem s).
Proof.
  intros Hok Hos. destruct (keeps_ops n granted s os Hok Hos) as (rs & s' & Hr & Hok' & _ & Hm).
  by exists rs, s'.
Qed.

(** C35: a buffer that allocates its array gives back what is written to it, in order,
    however writing and reading alternate, as long as no more is written than its
    first array holds; the array does not grow, and the first character after that
    is stored outside of it. *)
Theorem dynamic_queue a pal os :
  Forall is_char (puts os) →
  if zlen (puts os) <=? first_size a
  then ∃ s', run_ops true (map op_of os) (fresh a pal) = (Ret (queue os [] 0), s')
  else ∃ s', run_ops true (map op_of os) (fresh a pal) = (Undef BufferOverflow, s').
Proof. intros Hc. by apply (queue_run a os (fresh a pal) [] 0); [constructor|]. Qed.

(** ** Construction and writing of strings *)

(** The constructors over an array make a buffer that [array_in_bounds] is about. *)
Lemma strstreambuf_array_ok b size n pbeg :
  filled b size → size ≤ INT_MAX → 0 < n → 0 ≤ pbeg → pbeg + n ≤ size →
  array_ok size (strstreambuf_array b n (Some pbeg)).2.
Proof.
  intros Hf Hs Hn Hp Hsz. unfold strstreambuf_array, init, cbind, cget, cret, setg, setp, cmodify.
  destruct (Z.eqb_spec n 0); [lia|]. destruct (Z.ltb_spec n 0); [lia|]. cbn.
  split; try done; cbn; [by exists 0, pbeg; repeat split; lia|].
  right. exists pbeg, pbeg, (pbeg + n). repeat split; lia.
Qed.

Lemma strstreambuf_const_ok b size n :
  filled b size → size ≤ INT_MAX → 0 < n ≤ size → array_ok size (strstreambuf_const b n).2.
Proof.
  intros Hf Hs Hn. unfold strstreambuf_const, init, cbind, cget, cret, setg, cmodify.
  destruct (Z.eqb_spec n 0); [lia|]. destruct (Z.ltb_spec n 0); [lia|]. cbn.
  split; try done; cbn; [by exists 0, n; repeat split; lia|by left].
Qed.

(** Writing a string is writing its characters, up to the first that is refused. *)
Lemma xsputn_sputc granted c cs s :
  pptr s ≤ epptr s → is_char c →
  xsputn granted (c :: cs) s
  = (let* r := sputc granted c in
     if r =? EOF then cret 0 else let* n := xsputn granted cs in cret (n + 1)) s.
Proof.
  intros Hp Hc. cbn [xsputn]. unfold sputc, cbind, cget, cret.
  assert (HE : c =? EOF = false) by (apply Z.eqb_neq; unfold is_char, EOF in *; lia).
  destruct (Z.ltb_spec (pptr s) (epptr s)), (Z.eqb_spec (pptr s) (epptr s)); try lia.
  - destruct (write (pptr s) c s) as [[[]| | | |] s1]; try done.
    destruct (pbump 1 s1) as [[[]| | | |] s2]; try done. by rewrite HE.
  - destruct (overflow granted c s) as [[r| | | |] s1]; try done.
    by destruct (r =? EOF).
Qed.

(** [str] freezes the buffer, so that the array stays the caller's; after a first
    character has been written this no longer keeps writing from it. *)
Lemma frozen_still_written :
  (run_ops true [Sputc 65; Str; Sputc 66] (fresh 0 false)).1 = Ret [65; 0; 66].
Proof. by vm_compute. Qed.

(** ** Witnesses *)

Definition five : block Z := Some (map Some [104; 101; 108; 108; 111]).

Lemma five_filled : filled five 5.
Proof.
  split; [done|]. intros i Hi.
  assert (Hc : i = 0 ∨ i = 1 ∨ i = 2 ∨ i = 3 ∨ i = 4) by lia.
  destruct Hc as [->|[->|[->|[->| ->]]]]; (eexists; split; [reflexivity|split; lia]).
Qed.

(** The distance the put pointer is moved by is made an [int]: in an array of more than
    [INT_MAX] characters it ends before the array. *)
Lemma seek_out_of_array granted m :
  let size := 2 ^ 31 + 10 in
  let s := Buf 0 0 false m (Some (Area 0 0 size)) (Some (Area 0 0 size)) in
  ∃ s', run_op granted (Seekoff (2 ^ 31) beg false true) s = (Ret (2 ^ 31), s') ∧ pptr s' = - 2 ^ 31.
Proof. eexists. split; [vm_compute; reflexivity|done]. Qed.

(** A buffer that writes behind the first two characters: two fit, one does not; what
    has been written is read, and overwritten. *)
Lemma array_in_bounds_witness :
  let s := (strstreambuf_array five 2 (Some 2)).2 in
  let os := [Sputc 65; Sputc 66; Sputc 67; Seekpos 1 true false; Sbumpc; Sbumpc; Sbumpc;
             Sputbackc 68; Seekoff (-1) end_ false true; Pcount] in
  ∃ s', run_ops true os s = (Ret [65; 66; EOF; 1; 101; 65; 66; 68; 3; 1], s') ∧ array_ok 5 s'.
Proof.
  intros s os.
  destruct (array_in_bounds 5 s true os) as (rs & s' & Hr & Hok & _).
  - apply strstreambuf_array_ok; [apply five_filled|done|lia..].
  - repeat (constructor; [first [done|split; lia]|]). constructor.
  - exists s'. split; [|done]. rewrite Hr. f_equal.
    apply (f_equal fst) in Hr. cbn [fst] in Hr. vm_compute in Hr. by injection Hr as <-.
Defined.

Lemma dynamic_queue_witness :
  (∃ s, run_ops true (map op_of [Put 65; Take; Take; Put 66; Take]) (fresh 2 false)
        = (Ret [65; 65; EOF; 66; 66], s))
  ∧ ∃ s, run_ops true (map op_of [Put 65; Put 66; Put 67]) (fresh 2 false) = (Undef BufferOverflow, s).
Proof.
  split.
  - apply (dynamic_queue 2 false [Put 65; Take; Take; Put 66; Take]).
    by repeat (apply Forall_cons; split; [split; lia|]).
  - apply (dynamic_queue 2 false [Put 65; Put 66; Put 67]).
    by repeat (apply Forall_cons; split; [split; lia|]).
Defined.
