(* ===== verification/Dwarf.v ===== *)
(** * Dwarf: exception-handling tables, [dwarf_eh.h] of libcxxrt

    The numbers of the tables a C++ compiler leaves for the unwinder, the header of
    such a table, and the search for the call site an exception passes.  A
    computation's state is the pointer the functions take by reference; [abort] is a
    failed assertion. *)

From S2P Require Import Prelude Bits.

(** ** Encodings *)

Definition DW_EH_PE_uleb128 : Z := 0x01.
Definition DW_EH_PE_udata2 : Z := 0x02.
Definition DW_EH_PE_udata4 : Z := 0x03.
Definition DW_EH_PE_udata8 : Z := 0x04.
Definition DW_EH_PE_signed : Z := 0x08.
Definition DW_EH_PE_sleb128 : Z := DW_EH_PE_uleb128 .| DW_EH_PE_signed.
Definition DW_EH_PE_sdata2 : Z := DW_EH_PE_udata2 .| DW_EH_PE_signed.
Definition DW_EH_PE_sdata4 : Z := DW_EH_PE_udata4 .| DW_EH_PE_signed.
Definition DW_EH_PE_sdata8 : Z := DW_EH_PE_udata8 .| DW_EH_PE_signed.

Definition DW_EH_PE_omit : Z := 0xff.
Definition DW_EH_PE_absptr : Z := 0x00.
Definition DW_EH_PE_pcrel : Z := 0x10.
Definition DW_EH_PE_textrel : Z := 0x20.
Definition DW_EH_PE_datarel : Z := 0x30.
Definition DW_EH_PE_funcrel : Z := 0x40.
Definition DW_EH_PE_indirect : Z := 0x80.

Definition get_encoding (x : Z) : Z := x .& 0xf.
Definition get_base (x : Z) : Z := x .& 0x70.
Definition is_indirect (x : Z) : bool := x .& DW_EH_PE_indirect =? DW_EH_PE_indirect.

Definition abort {W A} : comp W A := λ w, (AssertFailed, w).

Definition dwarf_size_of_fixed_size_field (type : Z) : outcome Z :=
  let e := get_encoding type in
  if (e =? DW_EH_PE_sdata2) || (e =? DW_EH_PE_udata2) then Ret 2
  else if (e =? DW_EH_PE_sdata4) || (e =? DW_EH_PE_udata4) then Ret 4
  else if (e =? DW_EH_PE_sdata8) || (e =? DW_EH_PE_udata8) then Ret 8
  else if e =? DW_EH_PE_absptr then Ret 8
  else AssertFailed.

(** What the unwinder says of the frame. *)
Record context := Context_ { region_start_of : Z; text_rel_base : Z; data_rel_base : Z; ip_of : Z }.

(** [int64_t] out of 64 bits. *)
Definition int64 (v : Z) : Z := wrap 64 (v + 2 ^ 63) - 2 ^ 63.

Section tables.
(** The bytes at the addresses that may be read. *)
Context (mem : Z → option Z).

(** The byte at the pointer, which moves on. *)
Definition octet : comp Z Z := λ p,
  match mem p with Some b => (Ret b, p + 1) | None => (Undef BufferOverread, p) end.

(** ** Numbers of variable length *)

(** [digit << bit], of type [int]: a bit may be shifted into the sign, but not past
    it. *)
Definition shl_int (digit bit : Z) : outcome Z :=
  if 32 <=? bit then Undef ShiftCount
  else if 2 ^ 32 <=? digit << bit then Undef SignedOverflow
  else Ret (int_cast (digit << bit)).

(** The loop of [read_leb128]: the number, and its bits.  [bit] grows by 7, so that
    the assertion stops it when the fuel of [read_leb128] does. *)
Fixpoint read_leb128_loop (fuel : nat) (uleb bit : Z) : comp Z (Z * Z) :=
  match fuel with
  | O => abort
  | S fuel' =>
      if bit <? 64 then
        let* b := octet in
        let digit := b .& 0x7f in
        let* d := clift (shl_int digit bit) in
        let uleb := wrap 64 (uleb + d) in
        let bit := bit + 7 in
        if b =? digit then cret (uleb, bit) else read_leb128_loop fuel' uleb bit
      else abort
  end.

Definition read_leb128 : comp Z (Z * Z) := read_leb128_loop 10 0 0.

Definition read_uleb128 : comp Z Z := let* r := read_leb128 in cret (int64 r.1).

Definition read_sleb128 : comp Z Z :=
  let* r := read_leb128 in
  let '(uleb, bits) := r in
  let uleb := if uleb >> (bits - 1) =? 1 then uleb .| wrap 64 (-1 << bits) else uleb in
  cret (int64 uleb).

(** ** Values *)

(** [n] bytes in the order of the machine, which is little-endian. *)
Fixpoint read_bytes (n : nat) : comp Z Z :=
  match n with
  | O => cret 0
  | S n' => let* b := octet in let* v := read_bytes n' in cret (b + 256 * v)
  end.

Definition read_fixed (n : nat) (sign : bool) : comp Z Z :=
  let* v := read_bytes n in
  let w := 8 * Z.of_nat n in
  cret (wrap 64 (if sign && (2 ^ (w - 1) <=? v) then v - 2 ^ w else v)).

Definition read_value (encoding : Z) : comp Z Z :=
  let type := get_encoding encoding in
  if type =? DW_EH_PE_udata2 then read_fixed 2 false
  else if type =? DW_EH_PE_udata4 then read_fixed 4 false
  else if type =? DW_EH_PE_udata8 then read_fixed 8 false
  else if type =? DW_EH_PE_sdata2 then read_fixed 2 true
  else if type =? DW_EH_PE_sdata4 then read_fixed 4 true
  else if type =? DW_EH_PE_sdata8 then read_fixed 8 true
  else if type =? DW_EH_PE_absptr then read_fixed 8 true
  else if type =? DW_EH_PE_sleb128 then let* v := read_sleb128 in cret (wrap 64 v)
  else if type =? DW_EH_PE_uleb128 then let* v := read_uleb128 in cret (wrap 64 v)
  else abort.

(** The pointer at an address. *)
Definition deref (v : Z) : outcome Z := (read_fixed 8 false v).1.

Definition resolve_indirect_value (c : context) (encoding v start : Z) : outcome Z :=
  let base := get_base encoding in
  let v := wrap 64 (v + (if base =? DW_EH_PE_pcrel then start
                         else if base =? DW_EH_PE_textrel then text_rel_base c
                         else if base =? DW_EH_PE_datarel then data_rel_base c
                         else if base =? DW_EH_PE_funcrel then region_start_of c
                         else 0)) in
  if is_indirect encoding then deref v else Ret v.

(** [out] is what the value keeps when it is omitted. *)
Definition read_value_with_encoding (c : context) (out : Z) : comp Z Z :=
  let* start := cget in
  let* encoding := octet in
  if encoding =? DW_EH_PE_omit then cret out
  else
    let* v := read_value encoding in
    clift (resolve_indirect_value c encoding v start).

(** ** The header *)

Record dwarf_eh_lsda := Lsda {
  region_start : Z; landing_pads : Z; type_table : Z; type_table_encoding : Z;
  call_site_table : Z; action_table : Z; callsite_encoding : Z }.

(** Where there is no type table its address is 0. *)
Definition parse_lsda (c : context) : comp Z dwarf_eh_lsda :=
  let* v := read_value_with_encoding c (region_start_of c) in
  let* tte := octet in
  let* table :=
    (if negb (tte =? DW_EH_PE_omit) then
       let* v := read_uleb128 in let* data := cget in cret (data + v)
     else cret 0) in
  let* cse := octet in
  let* callsite_size := read_uleb128 in
  let* data := cget in
  cret (Lsda (region_start_of c) v table tte data (data + callsite_size) cse).

(** ** The call-site table *)

Record dwarf_eh_action := Action { landing_pad : Z; action_record : Z }.

(** One round of the loop: the entry at the pointer decides, or the next one does. *)
Definition callsite_entry (lsda : dwarf_eh_lsda) (ip : Z)
  : comp Z (option (option dwarf_eh_action)) :=
  let* call_site_start := read_value (callsite_encoding lsda) in
  let* call_site_size := read_value (callsite_encoding lsda) in
  if ip <? call_site_start then cret (Some None)
  else
    let* pad := read_value (callsite_encoding lsda) in
    let* action := read_uleb128 in
    let action := wrap 64 action in
    if (call_site_start <? ip) && (ip <=? wrap 64 (call_site_start + call_site_size)) then
      cret (Some (Some (Action (if pad =? 0 then 0 else landing_pads lsda + pad)
                               (if action =? 0 then 0 else action_table lsda + action - 1))))
    else cret None.

Fixpoint callsite_loop (fuel : nat) (lsda : dwarf_eh_lsda) (ip : Z)
  : comp Z (option (option dwarf_eh_action)) :=
  match fuel with
  | O => cret None
  | S fuel' =>
      let* callsite_table := cget in
      if callsite_table <=? action_table lsda then
        let* r := callsite_entry lsda ip in
        match r with Some answer => cret (Some answer) | None => callsite_loop fuel' lsda ip end
      else cret (Some None)
  end.

(** The action of the call site, or none; [None] is fuel run out. *)
Definition dwarf_eh_find_callsite (fuel : nat) (c : context) (lsda : dwarf_eh_lsda)
  : outcome (option (option dwarf_eh_action)) :=
  let ip := wrap 64 (ip_of c - region_start_of c) in
  (callsite_loop fuel lsda ip (call_site_table lsda)).1.

End tables.

(** ** Encoders *)

Fixpoint uleb_encode (fuel : nat) (v : Z) : list Z :=
  match fuel with
  | O => []
  | S fuel' => if v <? 128 then [v] else v mod 128 + 128 :: uleb_encode fuel' (v / 128)
  end.

Fixpoint sleb_encode (fuel : nat) (v : Z) : list Z :=
  match fuel with
  | O => []
  | S fuel' =>
      let b := v mod 128 in
      let v' := v / 128 in
      if ((v' =? 0) && (b <? 64)) || ((v' =? -1) && (64 <=? b)) then [b]
      else b + 128 :: sleb_encode fuel' v'
  end.

(** Of a 64-bit number. *)
Definition uleb128 (v : Z) : list Z := uleb_encode 10 v.
Definition sleb128 (v : Z) : list Z := sleb_encode 10 v.

(** ** Sequences of digits *)

Inductive leb : list Z → Prop :=
  | leb_last b : 0 ≤ b < 128 → leb [b]
  | leb_more b bs : 128 ≤ b < 256 → leb bs → leb (b :: bs).

Fixpoint leb_value (bs : list Z) : Z :=
  match bs with [] => 0 | b :: bs' => b mod 128 + 128 * leb_value bs' end.

(** The bytes at an address. *)
Definition bytes_at (mem : Z → option Z) (p : Z) (bs : list Z) : Prop :=
  ∀ i b, bs !! i = Some b → mem (p + Z.of_nat i) = Some b.

Lemma bytes_at_cons mem p b bs :
  bytes_at mem p (b :: bs) → mem p = Some b ∧ bytes_at mem (p + 1) bs.
Proof.
  intros Hb. split; [rewrite <- (Z.add_0_r p); by apply (Hb O)|].
  intros i c Hi. specialize (Hb (S i) c Hi). rewrite <- Hb. f_equal. lia.
Qed.

Lemma bytes_at_app mem p bs cs :
  bytes_at mem p (bs ++ cs) → bytes_at mem p bs ∧ bytes_at mem (p + zlen bs) cs.
Proof.
  intros Hb. split.
  - intros i c Hi. apply Hb. by apply lookup_app_l_Some.
  - intros i c Hi. rewrite <- Z.add_assoc. unfold zlen. rewrite <- Nat2Z.inj_add. apply Hb.
    rewrite lookup_app_r by lia. by rewrite Nat.add_comm, Nat.add_sub.
Qed.

Lemma leb_value_bound bs : leb bs → 0 ≤ leb_value bs < 2 ^ (7 * zlen bs).
Proof.
  induction 1 as [b Hb|b bs Hb _ IH]; cbn [leb_value].
  - change (zlen [b]) with 1. change (2 ^ (7 * 1)) with 128. rewrite Z.mod_small; lia.
  - rewrite zlen_cons. pose proof (zlen_nonneg bs). pose proof (Z.mod_pos_bound b 128 ltac:(lia)).
    replace (7 * (1 + zlen bs)) with (7 + 7 * zlen bs) by lia. rewrite Z.pow_add_r by lia.
    change (2 ^ 7) with 128. nia.
Qed.

Lemma leb_nonempty bs : leb bs → 1 ≤ zlen bs.
Proof. destruct 1; rewrite zlen_cons; pose proof (zlen_nonneg (@nil Z)); [lia|]. pose proof (zlen_nonneg bs). lia. Qed.

Lemma digit_of b : b .& 0x7f = b mod 128.
Proof. change 0x7f with (Z.ones 7). by rewrite Z.land_ones. Qed.

(** ** Reading *)

Section reading.
Context (mem : Z → option Z).

Lemma octet_at p b bs : bytes_at mem p (b :: bs) → octet mem p = (Ret b, p + 1).
Proof. intros Hb%bytes_at_cons. unfold octet. by rewrite (proj1 Hb). Qed.

Lemma shl_int_small d bit : 0 ≤ bit < 32 → 0 ≤ d * 2 ^ bit < 2 ^ 31 → shl_int d bit = Ret (d * 2 ^ bit).
Proof.
  intros Hb Hd. unfold shl_int. rewrite Z.shiftl_mul_pow2 by lia.
  destruct (Z.leb_spec 32 bit); [lia|]. destruct (Z.leb_spec (2 ^ 32) (d * 2 ^ bit)); [lia|].
  rewrite int_cast_small; [done|]. unfold INT_MIN, INT_MAX. lia.
Qed.

(** The loop goes over digits that fit an [int]. *)
Lemma read_leb128_loop_ok bs fuel uleb bit p :
  leb bs → bytes_at mem p bs → 0 ≤ bit → bit + 7 * zlen bs ≤ 35 → (length bs ≤ fuel)%nat →
  0 ≤ uleb → uleb + leb_value bs * 2 ^ bit < 2 ^ 31 →
  read_leb128_loop mem fuel uleb bit p
  = (Ret (uleb + leb_value bs * 2 ^ bit, bit + 7 * zlen bs), p + zlen bs).
Proof.
  intros Hl. revert fuel uleb bit p. induction Hl as [b Hb|b bs Hb Hl IH]; intros fuel uleb bit p Hp Hbit Hlen Hf Hu Hv;
    (destruct fuel as [|fuel]; [cbn in Hf; lia|]); cbn [read_leb128_loop leb_value] in *;
    pose proof (Z.mod_pos_bound b 128 ltac:(lia)) as Hm;
    assert (Hpow : 0 < 2 ^ bit) by (apply Z.pow_pos_nonneg; lia);
    (destruct (Z.ltb_spec bit 64); [|rewrite zlen_cons in Hlen; pose proof (zlen_nonneg (@nil Z)); try pose proof (zlen_nonneg bs); lia]);
    rewrite (cbind_ret _ _ _ _ _ (octet_at p b _ Hp)), digit_of.
  - change (zlen [b]) with 1 in *. rewrite Z.mul_0_r, Z.add_0_r in *. rewrite Z.mod_small in * by lia.
    unfold cbind, clift. rewrite shl_int_small by (lia || nia).
    rewrite Z.eqb_refl. unfold cret. unfold wrap. rewrite Z.mod_small by nia. done.
  - rewrite zlen_cons in *. pose proof (leb_nonempty bs Hl). pose proof (leb_value_bound bs Hl).
    assert (b mod 128 ≠ b) by lia.
    assert (Hpow7 : 2 ^ (bit + 7) = 2 ^ bit * 128) by (rewrite Z.pow_add_r by lia; done).
    unfold cbind, clift. rewrite shl_int_small by (lia || nia).
    destruct (Z.eqb_spec b (b mod 128)); [lia|].
    assert (wrap 64 (uleb + b mod 128 * 2 ^ bit) = uleb + b mod 128 * 2 ^ bit) as ->.
    { apply Z.mod_small. nia. }
    rewrite IH by (first [apply (bytes_at_cons mem p b bs Hp)|lia|rewrite ?Hpow7; nia|cbn in Hf; lia]).
    rewrite Hpow7. f_equal; [f_equal; f_equal; [ring|lia]|lia].
Qed.

Lemma read_uleb128_ok bs p :
  leb bs → bytes_at mem p bs → zlen bs ≤ 5 → leb_value bs < 2 ^ 31 →
  read_uleb128 mem p = (Ret (leb_value bs), p + zlen bs).
Proof.
  intros Hl Hp Hn Hv. unfold read_uleb128, read_leb128. pose proof (leb_value_bound bs Hl).
  rewrite (cbind_ret _ _ _ _ _
    (read_leb128_loop_ok bs 10 0 0 p Hl Hp ltac:(lia) ltac:(lia) ltac:(unfold zlen in *; lia) ltac:(lia) ltac:(lia))).
  cbn [fst]. unfold cret, int64, wrap. rewrite Z.add_0_l, Z.mul_1_r.
  rewrite Z.mod_small by lia. do 2 f_equal. lia.
Qed.

(** A signed number: the last digit has the sign. *)
Definition sleb_value (bs : list Z) : Z :=
  leb_value bs - (if 2 ^ (7 * zlen bs - 1) <=? leb_value bs then 2 ^ (7 * zlen bs) else 0).

Lemma sign_extend n v :
  0 < n < 64 → 0 ≤ v < 2 ^ n → v .| wrap 64 (-1 << n) = v + (2 ^ 64 - 2 ^ n).
Proof.
  intros Hn Hv. pose proof (Z.pow_lt_mono_r 2 n 64 ltac:(lia) ltac:(lia) ltac:(lia)).
  assert (Hp : 2 ^ 64 = 2 ^ n * 2 ^ (64 - n)) by (rewrite <- Z.pow_add_r by lia; f_equal; lia).
  rewrite Z.shiftl_mul_pow2 by lia.
  assert (wrap 64 (-1 * 2 ^ n) = (2 ^ (64 - n) - 1) << n) as ->.
  { unfold wrap. rewrite Z.shiftl_mul_pow2 by lia.
    replace (-1 * 2 ^ n) with (2 ^ 64 - 2 ^ n + -1 * 2 ^ 64) by lia.
    rewrite Z.mod_add, Z.mod_small by lia. rewrite Hp. lia. }
  rewrite Z.lor_comm, (lor_add n) by
    (first [lia|rewrite Z.shiftl_mul_pow2 by lia; apply Z.mod_mul; apply Z.pow_nonzero; lia]).
  rewrite Z.shiftl_mul_pow2 by lia. lia.
Qed.

Lemma read_sleb128_ok bs p :
  leb bs → bytes_at mem p bs → zlen bs ≤ 5 → leb_value bs < 2 ^ 31 →
  read_sleb128 mem p = (Ret (sleb_value bs), p + zlen bs).
Proof.
  intros Hl Hp Hn Hv. unfold read_sleb128, read_leb128. pose proof (leb_value_bound bs Hl) as Hb.
  pose proof (leb_nonempty bs Hl).
  rewrite (cbind_ret _ _ _ _ _
    (read_leb128_loop_ok bs 10 0 0 p Hl Hp ltac:(lia) ltac:(lia) ltac:(unfold zlen in *; lia) ltac:(lia) ltac:(lia))).
  rewrite !Z.add_0_l, Z.mul_1_r. unfold sleb_value, cret.
  assert (Hpow : 2 ^ (7 * zlen bs) = 2 * 2 ^ (7 * zlen bs - 1)).
  { rewrite <- Z.pow_succ_r by lia. f_equal. lia. }
  assert (Hpos : 0 < 2 ^ (7 * zlen bs - 1)) by (apply Z.pow_pos_nonneg; lia).
  rewrite Z.shiftr_div_pow2 by lia.
  assert (Hmax : 2 ^ (7 * zlen bs) ≤ 2 ^ 35) by (apply Z.pow_le_mono_r; lia).
  destruct (Z.leb_spec (2 ^ (7 * zlen bs - 1)) (leb_value bs)).
  - assert (leb_value bs / 2 ^ (7 * zlen bs - 1) = 1) as ->.
    { symmetry. apply (Z.div_unique _ _ _ (leb_value bs - 2 ^ (7 * zlen bs - 1))); lia. }
    cbn [Z.eqb Pos.eqb]. rewrite sign_extend by lia. unfold int64, wrap. do 2 f_equal.
    replace (leb_value bs + (2 ^ 64 - 2 ^ (7 * zlen bs)) + 2 ^ 63)
      with (leb_value bs - 2 ^ (7 * zlen bs) + 2 ^ 63 + 1 * 2 ^ 64) by lia.
    rewrite Z.mod_add, Z.mod_small by lia. lia.
  - rewrite Z.div_small by lia. cbn [Z.eqb]. unfold int64, wrap. rewrite Z.mod_small by lia.
    do 2 f_equal. lia.
Qed.
End reading.

(** ** What the encoders write *)

Lemma uleb_encode_ok n v :
  (1 ≤ n)%nat → 0 ≤ v < 2 ^ (7 * Z.of_nat n) →
  leb (uleb_encode n v) ∧ leb_value (uleb_encode n v) = v ∧ zlen (uleb_encode n v) ≤ Z.of_nat n.
Proof.
  revert v. induction n as [|n IH]; intros v Hn Hv; [lia|]. cbn [uleb_encode].
  destruct (Z.ltb_spec v 128).
  - split; [by constructor; lia|]. cbn. rewrite Z.mod_small by lia. change (zlen [v]) with 1. lia.
  - replace (7 * Z.of_nat (S n)) with (7 + 7 * Z.of_nat n) in Hv by lia. rewrite Z.pow_add_r in Hv by lia.
    change (2 ^ 7) with 128 in Hv.
    pose proof (Z.div_mod v 128 ltac:(lia)). pose proof (Z.mod_pos_bound v 128 ltac:(lia)).
    assert (1 ≤ n)%nat by (destruct n; [cbn in Hv; lia|lia]).
    destruct (IH (v / 128)) as (Hl & Hval & Hlen); [done|split; [apply Z.div_pos; lia|apply Z.div_lt_upper_bound; lia]|].
    split; [constructor; [lia|done]|]. cbn [leb_value]. rewrite Hval, zlen_cons.
    rewrite Z.add_mod, Z_mod_same_full, Z.add_0_r, !Z.mod_mod by lia. split; [lia|lia].
Qed.

Lemma sleb_encode_ok n v :
  (1 ≤ n)%nat → - 2 ^ (7 * Z.of_nat n - 1) ≤ v < 2 ^ (7 * Z.of_nat n - 1) →
  leb (sleb_encode n v) ∧ sleb_value (sleb_encode n v) = v ∧ zlen (sleb_encode n v) ≤ Z.of_nat n.
Proof.
  revert v. induction n as [|n IH]; intros v Hn Hv; [lia|]. cbn [sleb_encode].
  pose proof (Z.div_mod v 128 ltac:(lia)). pose proof (Z.mod_pos_bound v 128 ltac:(lia)).
  destruct (((v / 128 =? 0) && (v mod 128 <? 64)) || ((v / 128 =? -1) && (64 <=? v mod 128))) eqn:Hlast.
  - split; [by constructor|]. unfold sleb_value. cbn [leb_value]. change (zlen [v mod 128]) with 1.
    rewrite Z.mod_mod, Z.mul_0_r, Z.add_0_r by lia. split; [|lia].
    change (2 ^ (7 * 1 - 1)) with 64. change (2 ^ (7 * 1)) with 128.
    apply orb_true_iff in Hlast as [[Hq Hr]%andb_true_iff|[Hq Hr]%andb_true_iff];
      apply Z.eqb_eq in Hq; destruct (Z.leb_spec 64 (v mod 128)); lia.
  - assert (Hn1 : (1 ≤ n)%nat).
    { destruct n; [|lia]. change (2 ^ (7 * Z.of_nat 1 - 1)) with 64 in Hv. exfalso.
      apply orb_false_iff in Hlast as [H1 H2].
      apply andb_false_iff in H1. apply andb_false_iff in H2.
      rewrite Z.eqb_neq, Z.ltb_ge in H1. rewrite Z.eqb_neq, Z.leb_gt in H2. lia. }
    assert (Hpow : 2 ^ (7 * Z.of_nat (S n) - 1) = 128 * 2 ^ (7 * Z.of_nat n - 1)).
    { replace (7 * Z.of_nat (S n) - 1) with (7 + (7 * Z.of_nat n - 1)) by lia. rewrite Z.pow_add_r by lia. done. }
    rewrite Hpow in Hv.
    destruct (IH (v / 128)) as (Hl & Hval & Hlen); [done| |].
    { split; [apply Z.div_le_lower_bound; lia|apply Z.div_lt_upper_bound; lia]. }
    split; [constructor; [lia|done]|]. rewrite zlen_cons. split; [|lia].
    pose proof (leb_nonempty _ Hl). unfold sleb_value in *. cbn [leb_value]. rewrite zlen_cons.
    rewrite Z.add_mod, Z_mod_same_full, Z.add_0_r, !Z.mod_mod by lia.
    set (L := zlen (sleb_encode n (v / 128))) in *. set (V := leb_value (sleb_encode n (v / 128))) in *.
    assert (2 ^ (7 * (1 + L) - 1) = 128 * 2 ^ (7 * L - 1)) as ->.
    { replace (7 * (1 + L) - 1) with (7 + (7 * L - 1)) by lia. rewrite Z.pow_add_r by lia. done. }
    assert (2 ^ (7 * (1 + L)) = 128 * 2 ^ (7 * L)) as ->.
    { replace (7 * (1 + L)) with (7 + 7 * L) by lia. rewrite Z.pow_add_r by lia. done. }
    destruct (Z.leb_spec (2 ^ (7 * L - 1)) V), (Z.leb_spec (128 * 2 ^ (7 * L - 1)) (v mod 128 + 128 * V)); lia.
Qed.

(** More fuel does not change what is written. *)
Lemma uleb_encode_fuel n m v :
  (1 ≤ n ≤ m)%nat → 0 ≤ v < 2 ^ (7 * Z.of_nat n) → uleb_encode m v = uleb_encode n v.
Proof.
  revert m v. induction n as [|n IH]; intros m v Hn Hv; [lia|]. destruct m as [|m]; [lia|].
  cbn [uleb_encode]. destruct (Z.ltb_spec v 128); [done|].
  replace (7 * Z.of_nat (S n)) with (7 + 7 * Z.of_nat n) in Hv by lia. rewrite Z.pow_add_r in Hv by lia.
  change (2 ^ 7) with 128 in Hv.
  assert (1 ≤ n)%nat by (destruct n; [cbn in Hv; lia|lia]).
  f_equal. apply IH; [lia|]. split; [apply Z.div_pos; lia|apply Z.div_lt_upper_bound; lia].
Qed.

Lemma sleb_encode_fuel n m v :
  (1 ≤ n ≤ m)%nat → - 2 ^ (7 * Z.of_nat n - 1) ≤ v < 2 ^ (7 * Z.of_nat n - 1) →
  sleb_encode m v = sleb_encode n v.
Proof.
  revert m v. induction n as [|n IH]; intros m v Hn Hv; [lia|]. destruct m as [|m]; [lia|].
  cbn [sleb_encode]. destruct (_ || _) eqn:Hlast; [done|].
  pose proof (Z.div_mod v 128 ltac:(lia)). pose proof (Z.mod_pos_bound v 128 ltac:(lia)).
  apply orb_false_iff in Hlast as [H1 H2]. apply andb_false_iff in H1. apply andb_false_iff in H2.
  rewrite Z.eqb_neq, Z.ltb_ge in H1. rewrite Z.eqb_neq, Z.leb_gt in H2.
  assert (1 ≤ n)%nat.
  { destruct n; [|lia]. change (2 ^ (7 * Z.of_nat 1 - 1)) with 64 in Hv. lia. }
  replace (7 * Z.of_nat (S n) - 1) with (7 + (7 * Z.of_nat n - 1)) in Hv by lia.
  rewrite Z.pow_add_r in Hv by lia. change (2 ^ 7) with 128 in Hv.
  f_equal. apply IH; [lia|]. split; [apply Z.div_le_lower_bound; lia|apply Z.div_lt_upper_bound; lia].
Qed.

Lemma uleb128_ok v :
  0 ≤ v < 2 ^ 31 → leb (uleb128 v) ∧ leb_value (uleb128 v) = v ∧ zlen (uleb128 v) ≤ 5.
Proof.
  intros Hv. unfold uleb128. rewrite (uleb_encode_fuel 5) by lia.
  by apply (uleb_encode_ok 5); lia.
Qed.

Lemma read_uleb128_of mem v p :
  0 ≤ v < 2 ^ 31 → bytes_at mem p (uleb128 v) → read_uleb128 mem p = (Ret v, p + zlen (uleb128 v)).
Proof.
  intros Hv Hp. destruct (uleb128_ok v Hv) as (Hl & Hval & Hn).
  rewrite (read_uleb128_ok mem (uleb128 v)) by (done || rewrite Hval; lia). by rewrite Hval.
Qed.

Lemma read_sleb128_of mem v p :
  - 2 ^ 27 ≤ v < 2 ^ 31 → bytes_at mem p (sleb128 v) → read_sleb128 mem p = (Ret v, p + zlen (sleb128 v)).
Proof.
  intros Hv Hp. unfold sleb128 in *.
  assert (Hok : ∃ n, (1 ≤ n ≤ 5)%nat ∧ - 2 ^ (7 * Z.of_nat n - 1) ≤ v < 2 ^ (7 * Z.of_nat n - 1)
                ∧ (n = 4%nat ∨ 0 ≤ v)).
  { destruct (decide (v < 0)); [exists 4%nat|exists 5%nat]; repeat split; try lia; auto. }
  destruct Hok as (n & Hn & Hr & Hcase). rewrite (sleb_encode_fuel n) in * by lia.
  destruct (sleb_encode_ok n v) as (Hl & Hval & Hlen); [lia|done|].
  pose proof (leb_value_bound _ Hl) as Hb. pose proof (leb_nonempty _ Hl).
  rewrite (read_sleb128_ok mem (sleb_encode n v)); [by rewrite Hval|done..|lia|].
  unfold sleb_value in Hval. destruct Hcase as [->|Hpos].
  - assert (2 ^ (7 * zlen (sleb_encode 4 v)) ≤ 2 ^ 28) by (apply Z.pow_le_mono_r; lia). lia.
  - destruct (Z.leb_spec (2 ^ (7 * zlen (sleb_encode n v) - 1)) (leb_value (sleb_encode n v))); lia.
Qed.

(** ** Numbers that are too long *)

(** A round of the loop on a digit that is not the last. *)
Lemma read_leb128_more mem fuel uleb bit p b d :
  mem p = Some b → 128 ≤ b → bit < 64 → shl_int (b mod 128) bit = Ret d →
  read_leb128_loop mem (S fuel) uleb bit p = read_leb128_loop mem fuel (wrap 64 (uleb + d)) (bit + 7) (p + 1).
Proof.
  intros Hm Hb Hbit Hs. cbn [read_leb128_loop]. destruct (Z.ltb_spec bit 64); [|lia].
  assert (octet mem p = (Ret b, p + 1)) as Ho by (unfold octet; by rewrite Hm).
  rewrite (cbind_ret _ _ _ _ _ Ho), digit_of. unfold cbind, clift. rewrite Hs.
  destruct (Z.eqb_spec b (b mod 128)); [|done].
  pose proof (Z.mod_pos_bound b 128 ltac:(lia)). lia.
Qed.

(** Four digits and then some. *)
Lemma read_leb128_four mem p v :
  2 ^ 28 ≤ v → bytes_at mem p (uleb128 v) →
  read_leb128 mem p = read_leb128_loop mem 6 (v mod 2 ^ 28) 28 (p + 1 + 1 + 1 + 1)
  ∧ bytes_at mem (p + 1 + 1 + 1 + 1) (uleb_encode 6 (v / 2 ^ 28)).
Proof.
  intros Hv Hp. unfold read_leb128, uleb128 in *.
  assert (Hstep : ∀ f k w u q, 0 ≤ k ≤ 21 → 128 ≤ w → 0 ≤ u < 2 ^ k → bytes_at mem q (uleb_encode (S f) w) →
    read_leb128_loop mem (S f) u k q
    = read_leb128_loop mem f (u + w mod 128 * 2 ^ k) (k + 7) (q + 1) ∧ bytes_at mem (q + 1) (uleb_encode f (w / 128))).
  { intros f k w u q Hk Hw Hu Hq. cbn [uleb_encode] in Hq.
    destruct (Z.ltb_spec w 128); [lia|]. apply bytes_at_cons in Hq as [Hb Hq]. split; [|done].
    pose proof (Z.mod_pos_bound w 128 ltac:(lia)).
    assert (Hmax : 2 ^ k ≤ 2 ^ 21) by (apply Z.pow_le_mono_r; lia).
    assert (Hmod : (w mod 128 + 128) mod 128 = w mod 128).
    { rewrite Z.add_mod, Z_mod_same_full, Z.add_0_r, !Z.mod_mod by lia. done. }
    rewrite (read_leb128_more mem f u k q (w mod 128 + 128) (w mod 128 * 2 ^ k));
      [|done|lia|lia|rewrite Hmod; apply shl_int_small; nia].
    unfold wrap. by rewrite Z.mod_small by nia. }
  destruct (Hstep 9%nat 0 v 0 p) as [-> H1]; [lia..|done|].
  destruct (Hstep 8%nat 7 (v / 128) (v mod 128) (p + 1)) as [E2 H2];
    [lia|apply Z.div_le_lower_bound; lia|apply Z.mod_pos_bound; lia|done|].
  destruct (Hstep 7%nat 14 (v / 128 / 128) (v mod 128 + v / 128 mod 128 * 2 ^ 7) (p + 1 + 1)) as [E3 H3];
    [lia|rewrite Z.div_div by lia; apply Z.div_le_lower_bound; lia| |done|].
  { pose proof (Z.mod_pos_bound v 128 ltac:(lia)). pose proof (Z.mod_pos_bound (v / 128) 128 ltac:(lia)).
    change (2 ^ 14) with (128 * 128). change (2 ^ 7) with 128. nia. }
  destruct (Hstep 6%nat 21 (v / 128 / 128 / 128)
              (v mod 128 + v / 128 mod 128 * 2 ^ 7 + v / 128 / 128 mod 128 * 2 ^ 14) (p + 1 + 1 + 1)) as [E4 H4];
    [lia|rewrite !Z.div_div by lia; apply Z.div_le_lower_bound; lia| |done|].
  { pose proof (Z.mod_pos_bound v 128 ltac:(lia)). pose proof (Z.mod_pos_bound (v / 128) 128 ltac:(lia)).
    pose proof (Z.mod_pos_bound (v / 128 / 128) 128 ltac:(lia)).
    change (2 ^ 21) with (128 * 128 * 128). change (2 ^ 14) with (128 * 128). change (2 ^ 7) with 128. nia. }
  change (0 + v mod 128 * 2 ^ 0) with (v mod 128 * 1). rewrite Z.mul_1_r. change (0 + 7) with 7.
  rewrite E2. change (7 + 7) with 14. rewrite E3. change (14 + 7) with 21. rewrite E4. change (21 + 7) with 28.
  assert (Hq : v / 128 / 128 / 128 / 128 = v / 2 ^ 28) by (rewrite !Z.div_div by lia; f_equal).
  rewrite Hq in H4. split; [|exact H4].
  match goal with |- read_leb128_loop _ _ ?a _ _ = read_leb128_loop _ _ ?b _ _ =>
    assert (a = b) as ->; [|done] end.
  change (2 ^ 7) with 128. change (2 ^ 14) with (128 * 128). change (2 ^ 21) with (128 * 128 * 128).
  change (2 ^ 28) with (128 * (128 * (128 * 128))).
  rewrite (Z.rem_mul_r v 128), (Z.rem_mul_r (v / 128) 128), (Z.rem_mul_r (v / 128 / 128) 128) by lia. ring.
Qed.

Lemma uleb_too_long mem p v :
  2 ^ 31 ≤ v < 2 ^ 64 → bytes_at mem p (uleb128 v) →
  (v < 2 ^ 32 → (read_uleb128 mem p).1 = Ret (v - 2 ^ 32))
  ∧ (2 ^ 32 ≤ v → ∃ u, (read_uleb128 mem p).1 = Undef u).
Proof.
  intros Hv Hp. destruct (read_leb128_four mem p v) as [Hr Hq]; [lia|done|].
  pose proof (Z.div_mod v (2 ^ 28) ltac:(lia)). pose proof (Z.mod_pos_bound v (2 ^ 28) ltac:(lia)).
  set (q := v / 2 ^ 28) in *. set (p4 := p + 1 + 1 + 1 + 1) in *. cbn [uleb_encode] in Hq.
  assert (Hqr : 8 ≤ q) by lia. split; intros Hlim.
  - destruct (Z.ltb_spec q 128); [|lia]. apply bytes_at_cons in Hq as [Hb _].
    unfold read_uleb128, cbind. rewrite Hr. cbn [read_leb128_loop].
    change (28 <? 64) with true. cbv iota. unfold cbind, octet, clift. rewrite Hb. cbv beta iota.
    rewrite digit_of, Z.mod_small by lia. unfold shl_int. rewrite Z.shiftl_mul_pow2 by lia.
    change (32 <=? 28) with false. cbv iota.
    destruct (Z.leb_spec (2 ^ 32) (q * 2 ^ 28)); [lia|].
    rewrite Z.eqb_refl. cbn [fst]. unfold cret. cbn [fst].
    assert (int_cast (q * 2 ^ 28) = q * 2 ^ 28 - 2 ^ 32) as ->.
    { unfold int_cast. replace (q * 2 ^ 28 + 2 ^ 31) with (q * 2 ^ 28 - 2 ^ 31 + 1 * 2 ^ 32) by lia.
      rewrite Z.mod_add, Z.mod_small by lia. lia. }
    f_equal. unfold int64, wrap. rewrite Zplus_mod_idemp_l.
    rewrite Z.mod_small by lia. lia.
  - assert (Hbad : ∃ u s, read_leb128 mem p = (Undef u, s)).
    { rewrite Hr. cbn [read_leb128_loop]. change (28 <? 64) with true. cbv iota.
      assert (Hb : mem p4 = Some (if q <? 128 then q else q mod 128 + 128)
                   ∧ (128 ≤ q → bytes_at mem (p4 + 1) (uleb_encode 5 (q / 128)))).
      { destruct (Z.ltb_spec q 128); apply bytes_at_cons in Hq as [Hb Hq]; split; (done || lia). }
      destruct Hb as [Hb Hnext]. pose proof (Z.mod_pos_bound q 128 ltac:(lia)).
      assert (Hmod : (if q <? 128 then q else q mod 128 + 128) mod 128 = q mod 128).
      { destruct (q <? 128); [done|]. rewrite Z.add_mod, Z_mod_same_full, Z.add_0_r, !Z.mod_mod by lia. done. }
      unfold cbind at 1, octet at 1. rewrite Hb, digit_of, Hmod. unfold cbind at 1, clift, shl_int at 1.
      change (32 <=? 28) with false. cbv iota. rewrite Z.shiftl_mul_pow2 by lia.
      destruct (Z.leb_spec (2 ^ 32) (q mod 128 * 2 ^ 28)); [by eexists _, _|].
      destruct (Z.ltb_spec q 128); [rewrite Z.mod_small in *; lia|].
      destruct (Z.eqb_spec (q mod 128 + 128) (q mod 128)); [lia|].
      specialize (Hnext ltac:(lia)). cbn [uleb_encode] in Hnext.
      assert (Hb5 : ∃ c, mem (p4 + 1) = Some c).
      { destruct (q / 128 <? 128); apply bytes_at_cons in Hnext as [Hc _]; by eexists. }
      destruct Hb5 as [c Hc]. change (28 + 7 <? 64) with true. cbv iota.
      unfold cbind, octet. rewrite Hc. unfold clift, shl_int. change (32 <=? 28 + 7) with true.
      by eexists _, _. }
    destruct Hbad as (u & s & Hbad). exists u. unfold read_uleb128. by rewrite (cbind_undef _ _ _ _ _ Hbad).
Qed.

(** ** Call-site tables *)

Record site := Site { s_start : Z; s_size : Z; s_pad : Z; s_action : Z }.

Definition site_bytes (s : site) : list Z :=
  uleb128 (s_start s) ++ uleb128 (s_size s) ++ uleb128 (s_pad s) ++ uleb128 (s_action s).
Definition table_bytes (sites : list site) : list Z := concat (map site_bytes sites).

Definition site_ok (s : site) : Prop :=
  0 ≤ s_start s < 2 ^ 31 ∧ 0 ≤ s_size s < 2 ^ 31 ∧ 0 ≤ s_pad s < 2 ^ 31 ∧ 0 ≤ s_action s < 2 ^ 31.

(** The reference: the first site behind the place ends the search, the first that it
    is in answers; otherwise the table has no answer. *)
Fixpoint find_site (sites : list site) (ip : Z) : option (option site) :=
  match sites with
  | [] => None
  | s :: sites' =>
      if ip <? s_start s then Some None
      else if (s_start s <? ip) && (ip <=? s_start s + s_size s) then Some (Some s)
      else find_site sites' ip
  end.

(** Its action: a landing pad or an action of zero is none. *)
Definition action_of (lsda : dwarf_eh_lsda) (s : site) : dwarf_eh_action :=
  Action (if s_pad s =? 0 then 0 else landing_pads lsda + s_pad s)
         (if s_action s =? 0 then 0 else action_table lsda + s_action s - 1).

Section callsites.
Context (mem : Z → option Z) (lsda : dwarf_eh_lsda).
Hypothesis Henc : callsite_encoding lsda = DW_EH_PE_uleb128.

Lemma read_value_uleb v p :
  0 ≤ v < 2 ^ 31 → bytes_at mem p (uleb128 v) →
  read_value mem (callsite_encoding lsda) p = (Ret v, p + zlen (uleb128 v)).
Proof.
  intros Hv Hp. rewrite Henc. change (read_value mem DW_EH_PE_uleb128) with
    (let* v := read_uleb128 mem in cret (wrap 64 v)).
  rewrite (cbind_ret _ _ _ _ _ (read_uleb128_of mem v p Hv Hp)).
  unfold cret, wrap. by rewrite Z.mod_small by lia.
Qed.

(** An entry, read. *)
Lemma callsite_entry_at s ip p rest :
  site_ok s → bytes_at mem p (site_bytes s ++ rest) →
  (callsite_entry mem lsda ip p).1
  = Ret (match find_site [s] ip with
         | Some (Some s) => Some (Some (action_of lsda s)) | Some None => Some None | None => None end)
  ∧ (find_site [s] ip = None →
     (callsite_entry mem lsda ip p).2 = p + zlen (site_bytes s)).
Proof.
  intros (H1 & H2 & H3 & H4) Hp. apply bytes_at_app in Hp as [Hp _]. unfold site_bytes in *.
  apply bytes_at_app in Hp as [Hp1 Hp]. apply bytes_at_app in Hp as [Hp2 Hp].
  apply bytes_at_app in Hp as [Hp3 Hp4]. unfold callsite_entry.
  rewrite (cbind_ret _ _ _ _ _ (read_value_uleb _ _ H1 Hp1)).
  rewrite (cbind_ret _ _ _ _ _ (read_value_uleb _ _ H2 Hp2)).
  cbn [find_site]. destruct (Z.ltb_spec ip (s_start s)); [by split|].
  rewrite (cbind_ret _ _ _ _ _ (read_value_uleb _ _ H3 Hp3)).
  rewrite (cbind_ret _ _ _ _ _ (read_uleb128_of _ _ _ H4 Hp4)).
  assert (wrap 64 (s_action s) = s_action s) as -> by (apply wrap_small; lia).
  assert (wrap 64 (s_start s + s_size s) = s_start s + s_size s) as -> by (apply wrap_small; lia).
  destruct (_ && _); [by split|]. split; [done|]. intros _. cbn [snd cret]. rewrite !zlen_app. lia.
Qed.

Lemma callsite_loop_table sites ip fuel p :
  Forall site_ok sites → bytes_at mem p (table_bytes sites) →
  p + zlen (table_bytes sites) = action_table lsda →
  match find_site sites ip with
  | Some ans => (callsite_loop mem (length sites + fuel) lsda ip p).1 = Ret (Some (action_of lsda <$> ans))
  | None => callsite_loop mem (length sites + fuel) lsda ip p = callsite_loop mem fuel lsda ip (action_table lsda)
  end.
Proof.
  intros Hok. revert p. induction Hok as [|s sites Hs Hok IH]; intros p Hp He; cbn [find_site length Nat.add].
  { cbn in He. change (zlen (@nil Z)) with 0 in He. by rewrite <- He, Z.add_0_r. }
  change (table_bytes (s :: sites)) with (site_bytes s ++ table_bytes sites) in *.
  rewrite zlen_app in He. pose proof (zlen_nonneg (site_bytes s)). pose proof (zlen_nonneg (table_bytes sites)).
  destruct (callsite_entry_at s ip p _ Hs Hp) as [Hr Hn]. cbn [find_site] in Hr, Hn.
  cbn [callsite_loop]. unfold cbind at 1 3, cget at 1 2.
  destruct (Z.leb_spec p (action_table lsda)); [|lia].
  unfold cbind. destruct (callsite_entry mem lsda ip p) as [o p'] eqn:Hentry. cbn [fst snd] in Hr, Hn. subst o.
  destruct (ip <? s_start s); [done|]. destruct (_ && _); [done|].
  rewrite (Hn eq_refl). apply IH; [by apply bytes_at_app in Hp as [_ Hp]|lia].
Qed.
End callsites.

(** ** A whole table *)

(** Landing pads relative to the function, call sites of variable length; [rest] are
    the action and the type table. *)
Definition lsda_bytes (tte ttoff : Z) (sites : list site) (rest : list Z) : list Z :=
  [DW_EH_PE_omit; tte] ++ (if tte =? DW_EH_PE_omit then [] else uleb128 ttoff)
  ++ [DW_EH_PE_uleb128] ++ uleb128 (zlen (table_bytes sites)) ++ table_bytes sites ++ rest.

Lemma parse_lsda_of mem c data tte ttoff sites rest :
  bytes_at mem data (lsda_bytes tte ttoff sites rest) → 0 ≤ ttoff < 2 ^ 31 →
  zlen (table_bytes sites) < 2 ^ 31 →
  ∃ lsda p, parse_lsda mem c data = (Ret lsda, p)
    ∧ landing_pads lsda = region_start_of c ∧ callsite_encoding lsda = DW_EH_PE_uleb128
    ∧ type_table_encoding lsda = tte
    ∧ type_table lsda = (if tte =? DW_EH_PE_omit then 0 else data + 2 + zlen (uleb128 ttoff) + ttoff)
    ∧ bytes_at mem (call_site_table lsda) (table_bytes sites)
    ∧ action_table lsda = call_site_table lsda + zlen (table_bytes sites)
    ∧ bytes_at mem (action_table lsda) rest.
Proof.
  intros Hb Ht Hs. unfold lsda_bytes in Hb.
  pose proof (zlen_nonneg (table_bytes sites)).
  apply bytes_at_app in Hb as [H1 Hb]. change (zlen [DW_EH_PE_omit; tte]) with 2 in Hb.
  assert (Ho1 : octet mem data = (Ret DW_EH_PE_omit, data + 1)) by by eapply octet_at.
  assert (Ho2 : octet mem (data + 1) = (Ret tte, data + 2)).
  { apply bytes_at_cons in H1 as [_ H1]. rewrite (octet_at mem _ _ _ H1). f_equal. lia. }
  apply bytes_at_app in Hb as [H2 Hb]. set (d2 := data + 2 + zlen _) in Hb.
  apply bytes_at_app in Hb as [H3 Hb]. change (zlen [DW_EH_PE_uleb128]) with 1 in Hb.
  apply bytes_at_app in Hb as [H4 Hb]. apply bytes_at_app in Hb as [H5 H6].
  assert (Ho3 : octet mem d2 = (Ret DW_EH_PE_uleb128, d2 + 1)) by by eapply octet_at.
  set (table := if tte =? DW_EH_PE_omit then 0 else data + 2 + zlen (uleb128 ttoff) + ttoff).
  set (d3 := d2 + 1 + zlen (uleb128 (zlen (table_bytes sites)))) in *.
  assert (Hpad : read_value_with_encoding mem c (region_start_of c) data = (Ret (region_start_of c), data + 1)).
  { unfold read_value_with_encoding. unfold cbind at 1, cget. by rewrite (cbind_ret _ _ _ _ _ Ho1). }
  assert (Htt : (if negb (tte =? DW_EH_PE_omit) then
                   let* v := read_uleb128 mem in let* d := cget in cret (d + v) else cret 0) (data + 2)
                = (Ret table, d2)).
  { unfold table, d2. destruct (tte =? DW_EH_PE_omit); cbn [negb].
    - change (zlen (@nil Z)) with 0. by rewrite Z.add_0_r.
    - by rewrite (cbind_ret _ _ _ _ _ (read_uleb128_of mem ttoff _ Ht H2)). }
  exists (Lsda (region_start_of c) (region_start_of c) table tte d3 (d3 + zlen (table_bytes sites)) DW_EH_PE_uleb128), d3.
  split; [|split; [done|split; [done|split; [done|split; [done|split; [exact H5|split; [done|exact H6]]]]]]].
  unfold parse_lsda. rewrite (cbind_ret _ _ _ _ _ Hpad), (cbind_ret _ _ _ _ _ Ho2).
  rewrite (cbind_ret _ _ _ _ _ Htt), (cbind_ret _ _ _ _ _ Ho3).
  rewrite (cbind_ret _ _ _ _ _ (read_uleb128_of mem _ _ (conj H Hs) H4)).
  reflexivity.
Qed.

(** ** Theorems *)

(** What an encoder writes the readers read back, to its end: unsigned numbers up
    to 2^31, signed ones from -2^27 on. *)
Theorem leb128_roundtrip mem p v :
  (0 ≤ v < 2 ^ 31 → bytes_at mem p (uleb128 v) → read_uleb128 mem p = (Ret v, p + zlen (uleb128 v)))
  ∧ (- 2 ^ 27 ≤ v < 2 ^ 31 → bytes_at mem p (sleb128 v) →
     read_sleb128 mem p = (Ret v, p + zlen (sleb128 v))).
Proof. split; [apply read_uleb128_of|apply read_sleb128_of]. Qed.

(** A number beyond is never read right, since each digit is shifted as an [int]:
    below 2^32 it comes out too low by 2^32, from there on the shift is undefined. *)
Theorem leb128_limits mem p v :
  2 ^ 31 ≤ v < 2 ^ 64 → bytes_at mem p (uleb128 v) →
  (v < 2 ^ 32 → (read_uleb128 mem p).1 = Ret (v - 2 ^ 32))
  ∧ (2 ^ 32 ≤ v → ∃ u, (read_uleb128 mem p).1 = Undef u).
Proof. apply uleb_too_long. Qed.

(** C32: for a table of the form that compilers write - no separate base of landing pads,
    call sites as numbers of variable length, all numbers below 2^31 - parsing the table of
    a function and searching its call sites gives the action of the first site the place
    is in, or none when a site behind the place comes first, as a search of the list of
    sites does, if the place is in a site or before one.  (For a place behind the last
    site the search goes on into the bytes of the action table: [past_the_table].) *)
Theorem callsite_found mem c data tte ttoff sites rest ans fuel :
  bytes_at mem data (lsda_bytes tte ttoff sites rest) → 0 ≤ ttoff < 2 ^ 31 →
  Forall site_ok sites → zlen (table_bytes sites) < 2 ^ 31 →
  find_site sites (wrap 64 (ip_of c - region_start_of c)) = Some ans →
  (length sites ≤ fuel)%nat →
  ∃ lsda p, parse_lsda mem c data = (Ret lsda, p) ∧ landing_pads lsda = region_start_of c
    ∧ bytes_at mem (action_table lsda) rest
    ∧ dwarf_eh_find_callsite mem fuel c lsda = Ret (Some (action_of lsda <$> ans)).
Proof.
  intros Hb Ht Hok Hs Hf Hfuel.
  destruct (parse_lsda_of mem c data tte ttoff sites rest Hb Ht Hs)
    as (lsda & p & Hp & Hpad & Henc & _ & _ & Htab & Hact & Hrest).
  exists lsda, p. do 3 (split; [done|]). unfold dwarf_eh_find_callsite.
  pose proof (callsite_loop_table mem lsda Henc sites (wrap 64 (ip_of c - region_start_of c))
    (fuel - length sites) _ Hok Htab (eq_sym Hact)) as Hl.
  rewrite Hf in Hl. replace (length sites + (fuel - length sites))%nat with fuel in Hl by lia. done.
Qed.

(** *** Corners *)

(** The bytes of a list, from an address on. *)
Definition memory (p : Z) (bs : list Z) : Z → option Z :=
  λ a, if a <? p then None else bs !! Z.to_nat (a - p).

Lemma memory_at p bs : bytes_at (memory p bs) p bs.
Proof.
  intros i b Hi. unfold memory. destruct (Z.ltb_spec (p + Z.of_nat i) p); [lia|].
  replace (p + Z.of_nat i - p) with (Z.of_nat i) by lia. by rewrite Nat2Z.id.
Qed.

(** A place behind every site is looked for in the action table too: here the table
    is empty, and the first bytes behind it are taken for a site. *)
Lemma past_the_table :
  let mem := memory 100 (lsda_bytes 0xff 0 [] [1; 125; 3; 1]) in
  let c := Context_ 1000 0 0 1004 in
  match parse_lsda mem c 100 with
  | (Ret lsda, _) =>
      dwarf_eh_find_callsite mem 1 c lsda = Ret (Some (Some (Action 1003 (action_table lsda))))
  | _ => False
  end.
Proof. by vm_compute. Qed.

(** ** Witnesses *)

Lemma leb128_roundtrip_witness :
  read_uleb128 (memory 8 [0xe5; 0x8e; 0x26; 7]) 8 = (Ret 624485, 11)
  ∧ read_sleb128 (memory 8 [0xc0; 0xbb; 0x78]) 8 = (Ret (-123456), 11).
Proof.
  split.
  - apply (leb128_roundtrip (memory 8 [0xe5; 0x8e; 0x26; 7]) 8 624485); [lia|].
    change [0xe5; 0x8e; 0x26; 7] with (uleb128 624485 ++ [7]).
    by apply (bytes_at_app _ 8 (uleb128 624485) [7]), memory_at.
  - apply (leb128_roundtrip (memory 8 [0xc0; 0xbb; 0x78]) 8 (-123456)); [lia|]. apply memory_at.
Defined.

Lemma leb128_limits_witness :
  (read_uleb128 (memory 0 (uleb128 (2 ^ 31))) 0).1 = Ret (- 2 ^ 31)
  ∧ ∃ u, (read_uleb128 (memory 0 (uleb128 (2 ^ 40))) 0).1 = Undef u.
Proof.
  split.
  - apply (leb128_limits (memory 0 (uleb128 (2 ^ 31))) 0 (2 ^ 31)); [lia|apply memory_at|lia].
  - apply (leb128_limits (memory 0 (uleb128 (2 ^ 40))) 0 (2 ^ 40)); [lia|apply memory_at|lia].
Defined.

Lemma callsite_found_witness :
  let sites := [Site 0 4 0 0; Site 300 20 900 5] in
  let mem := memory 4096 (lsda_bytes 0xff 0 sites []) in
  ∃ lsda p, parse_lsda mem (Context_ 1000 0 0 1310) 4096 = (Ret lsda, p)
    ∧ dwarf_eh_find_callsite mem 2 (Context_ 1000 0 0 1310) lsda
      = Ret (Some (Some (Action 1900 (action_table lsda + 4)))).
Proof.
  intros sites mem.
  destruct (callsite_found mem (Context_ 1000 0 0 1310) 4096 0xff 0 sites [] (Some (Site 300 20 900 5)) 2)
    as (lsda & p & Hp & Hpad & _ & Hf).
  - apply memory_at.
  - lia.
  - repeat (constructor; [unfold site_ok; cbn [s_start s_size s_pad s_action]; lia|]). constructor.
  - by vm_compute.
  - by vm_compute.
  - cbn. lia.
  - exists lsda, p. split; [exact Hp|]. rewrite Hf.
    apply (f_equal (λ a, Ret (Some (Some a)))). unfold action_of. rewrite Hpad.
    cbn [s_pad s_action Z.eqb region_start_of]. f_equal; lia.
Defined.
