(* ===== verification/TypeInfo.v ===== *)
(** * TypeInfo: run-time types, [typeinfo.h], [typeinfo.cc] and [dynamic_cast.cc] of
    libcxxrt

    The type descriptions a compiler writes, the casts between the parts of an
    object, and which handlers a thrown type is caught by.  A type is known by the
    address of its description; addresses and offsets are numbers. *)

From S2P Require Import Prelude Bits.

(** ** Descriptions *)

(** The subclasses of [std::type_info].  A base of [VmiClass] has the word
    [__offset_flags]; [flags] of a pointer are the qualifiers of what it points to. *)
Inductive typeinfo :=
  | Fundamental (id : Z) | Array (id : Z) | Function (id : Z) | Enum (id : Z)
  | Class (id : Z)
  | SiClass (id : Z) (base_type : typeinfo)
  | VmiClass (id : Z) (base_info : list (typeinfo * Z))
  | Pointer (id flags : Z) (pointee : typeinfo)
  | PointerToMember (id flags : Z) (pointee context : typeinfo).

Definition id_of (t : typeinfo) : Z :=
  match t with
  | Fundamental id | Array id | Function id | Enum id | Class id | SiClass id _ | VmiClass id _
  | Pointer id _ _ | PointerToMember id _ _ _ => id
  end.

Definition is_pointer_p (t : typeinfo) : bool := match t with Pointer _ _ _ => true | _ => false end.
Definition is_function_p (t : typeinfo) : bool := match t with Function _ => true | _ => false end.

(** [__base_class_type_info]. *)
Definition offset_shift : Z := 8.
Definition virtual_mask : Z := 0x1.
Definition public_mask : Z := 0x2.
Definition offset (offset_flags : Z) : Z := offset_flags >> offset_shift.
Definition flags_of (offset_flags : Z) : Z := offset_flags .& ((1 << offset_shift) - 1).
Definition isPublic (offset_flags : Z) : bool := negb (flags_of offset_flags .& public_mask =? 0).
Definition isVirtual (offset_flags : Z) : bool := negb (flags_of offset_flags .& virtual_mask =? 0).

(** [__pbase_type_info]. *)
Definition const_mask : Z := 0x1.

Section casts.
(** The pointer or the offset stored at an address. *)
Context (load_ptr : Z → Z).

(** ** Upcasts *)

(** Where a base of the object is; a virtual one's offset is in the vtable. *)
Definition base_offset (obj offset_flags : Z) : Z :=
  if isVirtual offset_flags then load_ptr (load_ptr obj + offset offset_flags) else offset offset_flags.

(** [__do_upcast]: the adjusted pointer, if the cast is possible. *)
Fixpoint do_upcast (t : typeinfo) (target obj : Z) : option Z :=
  match t with
  | Class id => if id =? target then Some obj else None
  | SiClass id base => if id =? target then Some obj else do_upcast base target obj
  | VmiClass id bases =>
      if id =? target then Some obj
      else
        (fix loop (bs : list (typeinfo * Z)) : option Z :=
           match bs with
           | [] => None
           | (base, fl) :: bs' =>
               let cast := obj + base_offset obj fl in
               if id_of base =? target then Some cast
               else match do_upcast base target cast with
                    | Some cast => Some cast
                    | None => loop bs'
                    end
           end) bases
  | _ => None
  end.

(** [cast_to]; null is 0. *)
Fixpoint cast_to (t : typeinfo) (obj other : Z) : Z :=
  match t with
  | SiClass id base => if id =? other then obj else cast_to base obj other
  | VmiClass _ _ => match do_upcast t other obj with Some obj => obj | None => 0 end
  | _ => if id_of t =? other then obj else 0
  end.

(** [__dynamic_cast]; [types] are the descriptions at addresses. *)
Definition vtable_header_size : Z := 16.

Definition dynamic_cast (types : Z → option typeinfo) (sub src dst src2dst_offset : Z) : outcome Z :=
  let vtable_location := load_ptr sub in
  let header := vtable_location - vtable_header_size in
  let leaf := sub + load_ptr header in
  match types (load_ptr (header + 8)) with
  | Some type => Ret (cast_to type leaf dst)
  | None => Undef NullDeref
  end.

(** ** Catching *)

(** The name of a type is a pointer, which [operator==] compares; [typeid(void)]. *)
Context (type_name : Z → Z) (void_id : Z).

Definition same_type (t u : typeinfo) : bool := type_name (id_of t) =? type_name (id_of u).

Definition is_class (t : typeinfo) : bool :=
  match t with Class _ | SiClass _ _ | VmiClass _ _ => true | _ => false end.

(** [__do_catch]: whether the handler's type [t] catches the thrown one, and the
    adjusted pointer. *)
Fixpoint do_catch (t ex_type : typeinfo) (obj outer : Z) : option Z :=
  match t with
  | Pointer _ flags pointee | PointerToMember _ flags pointee _ =>
      if id_of ex_type =? id_of t then Some obj
      else
        match ex_type with
        | Pointer _ ex_flags ex_pointee =>
            if outer .& 1 =? 0 then None
            else
              let outer := if flags .& const_mask =? 0 then outer .& Z.lnot 1 else outer in
              if negb (ex_flags .& Z.lnot flags =? 0) then None
              else if type_name (id_of pointee) =? type_name void_id then Some obj
              else do_catch pointee ex_pointee obj outer
        | _ => None
        end
  | _ =>
      if id_of t =? id_of ex_type then Some obj
      else if is_class t then do_upcast ex_type (id_of t) obj else None
  end.

End casts.

(** ** The parts of an object *)

(** Every part of an object of a class: the class and the address, the object first,
    then its bases and theirs, in the order of declaration. *)
Section subobjects.
Context (load_ptr : Z → Z).

(** Where a base is, as the ABI has it: the lowest bit of its word is for a virtual one,
    and what is above the eight bits of the flags is its distance from the object, or,
    of a virtual one, the place in the object's vtable where the distance is. *)
Definition base_address (obj word : Z) : Z :=
  obj + (if Z.odd word then load_ptr (load_ptr obj + word / 256) else word / 256).

Fixpoint subobjects (t : typeinfo) (obj : Z) : list (Z * Z) :=
  match t with
  | Class id => [(id, obj)]
  | SiClass id base => (id, obj) :: subobjects base obj
  | VmiClass id bases =>
      (id, obj) ::
      (fix loop (bs : list (typeinfo * Z)) : list (Z * Z) :=
         match bs with
         | [] => []
         | (base, fl) :: bs' => subobjects base (base_address obj fl) ++ loop bs'
         end) bases
  | _ => []
  end.
End subobjects.

(** The bases of a class are classes. *)
Fixpoint class_ok (t : typeinfo) : bool :=
  match t with
  | Class _ => true
  | SiClass _ base => class_ok base
  | VmiClass _ bases =>
      (fix loop (bs : list (typeinfo * Z)) : bool :=
         match bs with [] => true | (base, _) :: bs' => class_ok base && loop bs' end) bases
  | _ => false
  end.

(** Induction over a class and its bases. *)
Lemma class_ind (P : typeinfo → Prop) :
  (∀ id, P (Class id)) →
  (∀ id base, class_ok base = true → P base → P (SiClass id base)) →
  (∀ id bases, Forall (λ b, class_ok b.1 = true ∧ P b.1) bases → P (VmiClass id bases)) →
  ∀ t, class_ok t = true → P t.
Proof.
  intros HC HS HV.
  fix IH 1. intros [id|id|id|id|id|id base|id bases|id fl p|id fl p c] Hok; cbn in Hok; try discriminate Hok.
  - apply HC.
  - apply HS; [done|]. by apply IH.
  - apply HV. revert bases Hok. fix IHb 1. intros [|[b fl] bs] Hok; [constructor|].
    apply andb_true_iff in Hok as [Hb Hbs]. constructor; [|by apply IHb]. split; [exact Hb|by apply IH].
Qed.

(** The first part with a class. *)
Definition first_part (target : Z) (l : list (Z * Z)) : option Z :=
  snd <$> find (λ p, p.1 =? target) l.

Lemma first_part_app target l k :
  first_part target (l ++ k) = match first_part target l with Some a => Some a | None => first_part target k end.
Proof.
  unfold first_part. induction l as [|[i a] l IH]; [done|]. cbn [app find fst].
  by destruct (i =? target).
Qed.

Section lemmas.
Context (load_ptr : Z → Z).

Lemma base_is obj word : obj + base_offset load_ptr obj word = base_address load_ptr obj word.
Proof.
  unfold base_offset, base_address, isVirtual, flags_of, offset, offset_shift, virtual_mask.
  assert ((word .& ((1 << 8) - 1)) .& 1 = Z.b2z (Z.odd word)) as ->.
  { rewrite <- Z.land_assoc. change (((1 << 8) - 1) .& 1) with (Z.ones 1). rewrite Z.land_ones by done. apply Zmod_odd. }
  rewrite Z.shiftr_div_pow2 by done. by destruct (Z.odd word).
Qed.

Lemma upcast_self t target obj : class_ok t = true → id_of t = target → do_upcast load_ptr t target obj = Some obj.
Proof. intros Hok <-. destruct t; try done; cbn; by rewrite Z.eqb_refl. Qed.

Lemma upcast_first t target obj :
  class_ok t = true → do_upcast load_ptr t target obj = first_part target (subobjects load_ptr t obj).
Proof.
  intros Hok. revert t Hok obj. apply (class_ind (λ t, ∀ obj, _)).
  - intros id obj. unfold first_part. cbn. by destruct (id =? target).
  - intros id base _ IH obj. unfold first_part. cbn. destruct (id =? target); [done|]. apply IH.
  - intros id bases Hb obj. unfold first_part. cbn. destruct (id =? target); [done|].
    induction Hb as [|[base fl] bs [Hok IH] _ IHb]; [done|]. cbn [fst] in *.
    rewrite base_is. set (cast := base_address load_ptr obj fl).
    pose proof (first_part_app target (subobjects load_ptr base cast)) as Happ. unfold first_part in Happ at 1.
    rewrite Happ. clear Happ. rewrite <- IH. destruct (Z.eqb_spec (id_of base) target) as [He|_].
    + by rewrite upcast_self.
    + destruct (do_upcast load_ptr base target cast); [done|]. exact IHb.
Qed.

Lemma cast_to_first t obj other :
  class_ok t = true → cast_to load_ptr t obj other = default 0 (first_part other (subobjects load_ptr t obj)).
Proof.
  intros Hok. rewrite <- upcast_first by done. revert t Hok. apply (class_ind (λ t, _)).
  - intros id. cbn. by destruct (id =? other).
  - intros id base _ IH. cbn. by destruct (id =? other).
  - intros id bases _. cbn [cast_to]. by destruct (do_upcast _ _ _ _).
Qed.

(** A class that is there once is found. *)
Lemma first_part_unique target a l :
  (target, a) ∈ l → (∀ b, (target, b) ∈ l → b = a) → first_part target l = Some a.
Proof.
  intros Hin Hu. unfold first_part. induction l as [|[i b] l IH]; [by apply elem_of_nil in Hin|].
  cbn [find fst]. destruct (Z.eqb_spec i target) as [->|Hne].
  - cbn. f_equal. apply Hu. by left.
  - apply IH.
    + apply elem_of_cons in Hin as [[= <- _]|Hin]; [done|exact Hin].
    + intros c Hc. apply Hu. by right.
Qed.

Lemma first_part_none target l : (∀ b, (target, b) ∉ l) → first_part target l = None.
Proof.
  intros Hn. unfold first_part. induction l as [|[i b] l IH]; [done|]. cbn [find fst].
  destruct (Z.eqb_spec i target) as [->|Hne]; [destruct (Hn b); by left|].
  apply IH. intros c Hc. apply (Hn c). by right.
Qed.
End lemmas.

(** ** Theorems *)

(** What a pointer to a part of an object of class [t] leads to: the vtable says
    where the whole object is, and what it is. *)
Record part_of (load_ptr : Z → Z) (types : Z → option typeinfo) (sub : Z) (t : typeinfo) (leaf : Z) : Prop := {
  part_leaf : sub + load_ptr (load_ptr sub - vtable_header_size) = leaf;
  part_type : types (load_ptr (load_ptr sub - vtable_header_size + 8)) = Some t;
  part_class : class_ok t = true }.

(** C33: [dynamic_cast] of a pointer to any part of an object whose vtable describes it
    gives the address of the part with the class asked for, when the object has parts of
    that class at one address, and null when it has none; the parts are those that the
    descriptions of the class and its bases give it, a base being at its distance from
    the object or, if virtual, at the one that the object's vtable has for it. *)
Theorem dynamic_cast_finds load_ptr types sub src dst hint t leaf :
  part_of load_ptr types sub t leaf →
  (∀ a, (dst, a) ∈ subobjects load_ptr t leaf → (∀ b, (dst, b) ∈ subobjects load_ptr t leaf → b = a) →
     dynamic_cast load_ptr types sub src dst hint = Ret a)
  ∧ ((∀ a, (dst, a) ∉ subobjects load_ptr t leaf) → dynamic_cast load_ptr types sub src dst hint = Ret 0).
Proof.
  intros [Hl Ht Hc].
  assert (Hd : dynamic_cast load_ptr types sub src dst hint
    = Ret (default 0 (first_part dst (subobjects load_ptr t leaf)))).
  { unfold dynamic_cast. rewrite Ht, Hl. f_equal. by apply cast_to_first. }
  rewrite Hd. split.
  - intros a Hin Hu. by rewrite (first_part_unique dst a).
  - intros Hn. by rewrite first_part_none.
Qed.

(** An upcast succeeds exactly when the class is the class of the object or one of
    its bases, however far up, and gives the first such part in the order of
    declaration. *)
Theorem upcast_finds load_ptr t target obj :
  class_ok t = true →
  do_upcast load_ptr t target obj = first_part target (subobjects load_ptr t obj)
  ∧ (is_Some (do_upcast load_ptr t target obj) ↔ ∃ a, (target, a) ∈ subobjects load_ptr t obj).
Proof.
  intros Hok. rewrite upcast_first by done. split; [done|]. split.
  - intros [a Ha]. exists a. revert Ha. unfold first_part. generalize (subobjects load_ptr t obj).
    intros l. induction l as [|[i b] l IH]; [done|]. cbn [find fst].
    destruct (Z.eqb_spec i target) as [->|_]; [intros [= ->]; by left|]. intros Ha. right. by apply IH.
  - intros [a Ha]. destruct (first_part target (subobjects load_ptr t obj)) eqn:Hf; [by eexists|].
    exfalso. revert Hf Ha. unfold first_part. generalize (subobjects load_ptr t obj).
    intros l. induction l as [|[i b] l IH]; [by intros _ ?%elem_of_nil|]. cbn [find fst].
    destruct (Z.eqb_spec i target) as [->|Hne]; [done|]. intros Hf [[= <- _]|Ha]%elem_of_cons; [done|].
    by apply IH.
Qed.

(** A handler for a pointer to a class catches a thrown pointer to a class when the
    types are the same, or when it points to a type with no fewer qualifiers that is
    [void], the same class or one of its bases; the pointer is then adjusted to the
    base. *)
Theorem pointer_catch load_ptr type_name void_id id fl h id' fl' c obj :
  is_class h = true → class_ok c = true → id' ≠ id → 0 ≤ fl → 0 ≤ fl' →
  do_catch load_ptr type_name void_id (Pointer id fl h) (Pointer id' fl' c) obj 1
  = (if fl' .& fl =? fl' then
       if type_name (id_of h) =? type_name void_id then Some obj
       else first_part (id_of h) (subobjects load_ptr c obj)
     else None).
Proof.
  intros Hh Hc Hid Hfl Hfl'. cbn [do_catch id_of].
  destruct (Z.eqb_spec id' id); [done|]. change (1 .& 1 =? 0) with false. cbv iota zeta.
  assert (Hsub : (fl' .& Z.lnot fl =? 0) = (fl' .& fl =? fl')).
  { apply eq_bool_prop_intro; rewrite !Is_true_true, !Z.eqb_eq; split; intros He; apply Z.bits_inj'; intros k Hk.
    - apply (f_equal (λ z, Z.testbit z k)) in He.
      rewrite Z.land_spec, Z.lnot_spec, Z.bits_0 in He by done. rewrite Z.land_spec.
      destruct (Z.testbit fl' k), (Z.testbit fl k); done.
    - apply (f_equal (λ z, Z.testbit z k)) in He. rewrite Z.land_spec in He.
      rewrite Z.land_spec, Z.lnot_spec, Z.bits_0 by done.
      destruct (Z.testbit fl' k), (Z.testbit fl k); done. }
  rewrite Hsub. destruct (fl' .& fl =? fl'); [|done]. cbn [negb].
  destruct (type_name _ =? _); [done|]. rewrite <- upcast_first by done.
  destruct h; try done; cbn [do_catch is_class id_of];
    (destruct (Z.eqb_spec id0 (id_of c)) as [He|_]; [|done]);
    by rewrite upcast_self by (done || by rewrite He).
Qed.

(** ** Corners *)

(** A cast goes to a private base, and to the first of two bases of one class, which
    C++ calls inaccessible and ambiguous. *)
Lemma private_and_ambiguous_bases load_ptr :
  do_upcast load_ptr (VmiClass 1 [(Class 2, 16 << 8)]) 2 1000 = Some 1016
  ∧ do_upcast load_ptr (VmiClass 1 [(SiClass 3 (Class 2), (0 << 8) .| public_mask);
                                    (SiClass 4 (Class 2), (16 << 8) .| public_mask)]) 2 1000 = Some 1000.
Proof. by split. Qed.

(** A handler for [void* const*] catches an [int**], one for [Base* const*] a
    [Derived**], whose pointer it moves as if it pointed to an object, and one for an
    [int X::*] an [int*]. *)
Lemma catches_too_much load_ptr :
  let catch t ex := do_catch load_ptr id 100 t ex 5000 1 in
  let derived := VmiClass 1 [(Class 2, (16 << 8) .| public_mask)] in
  catch (Pointer 20 const_mask (Pointer 21 0 (Fundamental 100))) (Pointer 22 0 (Pointer 23 0 (Fundamental 101)))
    = Some 5000
  ∧ catch (Pointer 24 const_mask (Pointer 25 0 (Class 2))) (Pointer 26 0 (Pointer 27 0 derived)) = Some 5016
  ∧ catch (PointerToMember 28 0 (Fundamental 101) (Class 2)) (Pointer 23 0 (Fundamental 101)) = Some 5000.
Proof. done. Qed.

(** ** Witnesses *)

(** An object of a class with a virtual base at 1000: a [VmiClass] over two classes
    that share the base, whose offset is in the vtables. *)
Definition diamond : typeinfo :=
  VmiClass 1 [(VmiClass 2 [(Class 4, (-24 << 8) .| public_mask .| virtual_mask)], (0 << 8) .| public_mask);
              (VmiClass 3 [(Class 5, (32 << 8) .| public_mask)], (16 << 8) .| public_mask)].

Definition diamond_memory (a : Z) : Z :=
  if a =? 1000 then 200        (* the vtable of the object *)
  else if a =? 1016 then 300   (* and of its second part *)
  else if a =? 176 then 48     (* where the virtual base is *)
  else if a =? 284 then -16    (* the second part's way back *)
  else if a =? 292 then 7      (* and the object's type *)
  else 0.

Lemma dynamic_cast_finds_witness :
  let types a := if a =? 7 then Some diamond else None in
  dynamic_cast diamond_memory types 1016 3 4 (-1) = Ret 1048
  ∧ dynamic_cast diamond_memory types 1016 3 6 (-1) = Ret 0.
Proof.
  intros types.
  assert (Hp : part_of diamond_memory types 1016 diamond 1000) by done.
  assert (Hs : subobjects diamond_memory diamond 1000 = [(1, 1000); (2, 1000); (4, 1048); (3, 1016); (5, 1048)])
    by by vm_compute.
  split.
  - apply (dynamic_cast_finds diamond_memory types 1016 3 4 (-1) diamond 1000 Hp); rewrite Hs.
    + set_solver.
    + intros b Hb. set_unfold in Hb. destruct_or?; simplify_eq; done.
  - apply (dynamic_cast_finds diamond_memory types 1016 3 6 (-1) diamond 1000 Hp). rewrite Hs.
    intros a Ha. set_unfold in Ha. destruct_or?; simplify_eq; done.
Defined.

Lemma upcast_finds_witness :
  do_upcast diamond_memory diamond 5 1000 = Some 1048
  ∧ is_Some (do_upcast diamond_memory diamond 4 1000).
Proof.
  split.
  - rewrite (proj1 (upcast_finds diamond_memory diamond 5 1000 eq_refl)). by vm_compute.
  - apply (upcast_finds diamond_memory diamond 4 1000 eq_refl). exists 1048.
    assert (Hs : subobjects diamond_memory diamond 1000 = [(1, 1000); (2, 1000); (4, 1048); (3, 1016); (5, 1048)])
      by by vm_compute.
    rewrite Hs. set_solver.
Defined.

Lemma pointer_catch_witness :
  do_catch diamond_memory id 100 (Pointer 20 const_mask (Class 5)) (Pointer 21 0 diamond) 1000 1 = Some 1048
  ∧ do_catch diamond_memory id 100 (Pointer 22 0 (Class 5)) (Pointer 23 const_mask diamond) 1000 1 = None.
Proof.
  split.
  - rewrite (pointer_catch diamond_memory id 100 20 const_mask (Class 5) 21 0 diamond 1000) by (done || lia).
    by vm_compute.
  - by rewrite (pointer_catch diamond_memory id 100 22 0 (Class 5) 23 const_mask diamond 1000) by (done || lia).
Defined.
