(* ===== verification/Handlers.v ===== *)
(** * Handlers: the search for an exception's handler, [exception.cc] of libcxxrt

    The personality function: what a frame does with an exception that passes it.  It
    reads the frame's tables ([Dwarf]) and compares types ([TypeInfo]); the two phases
    of unwinding communicate through fields of the exception. *)

From S2P Require Import Prelude Bits Dwarf TypeInfo.

(** The result of a computation from a pointer, with where it ends. *)
Definition run_at {A} (m : comp Z A) (p : Z) : outcome (A * Z) :=
  match m p with
  | (Ret a, p') => Ret (a, p')
  | (Throw e, _) => Throw e
  | (AssertFailed, _) => AssertFailed
  | (Waits, _) => Waits
  | (Undef u, _) => Undef u
  end.

Inductive handler_type := handler_none | handler_cleanup | handler_catch.

(** The thrown object: its type and where it is, behind its [__cxa_exception].  A
    foreign exception has none. *)
Record thrown := Thrown { exceptionType : typeinfo; object : Z }.

(** What a search writes to: [*selector] and [adjustedPtr]. *)
Record search := Search { selector : Z; adjusted : Z }.

Definition set_selector (z : Z) : comp search unit := cmodify (λ s, Search z (adjusted s)).
Definition set_adjusted (z : Z) : comp search unit := cmodify (λ s, Search (selector s) z).

Section search.
(** Bytes and pointers in memory, the descriptions of types, their names and
    [typeid(void)]. *)
Context (mem : Z → option Z) (load_ptr : Z → Z) (types : Z → option typeinfo)
        (type_name : Z → Z) (void_id : Z).

(** The description at an address; the null pointer is a [catch (...)]. *)
Definition type_at (a : Z) : outcome (option typeinfo) :=
  if a =? 0 then Ret None
  else match types a with Some t => Ret (Some t) | None => Undef NullDeref end.

Definition get_type_info_entry (c : context) (lsda : dwarf_eh_lsda) (filter : Z)
  : comp search (option typeinfo) :=
  let* size := clift (dwarf_size_of_fixed_size_field (type_table_encoding lsda)) in
  let record := type_table lsda - size * filter in
  let* v := clift (run_at (read_value mem (type_table_encoding lsda)) record) in
  let offset := int64 v.1 in
  if offset =? 0 then cret None
  else
    let* a := clift (resolve_indirect_value mem c (type_table_encoding lsda) (wrap 64 offset) record) in
    clift (type_at a).

Definition check_type_signature (ex : option thrown) (type : option typeinfo)
  : comp search bool :=
  match ex, type with
  | None, None => cret true
  | None, Some _ => cret false
  | Some ex, _ =>
      let exception_ptr :=
        if is_pointer_p (exceptionType ex) then load_ptr (object ex) else object ex in
      match type with
      | None => set_adjusted exception_ptr ;;; cret true
      | Some t =>
          if same_type type_name t (exceptionType ex) then set_adjusted exception_ptr ;;; cret true
          else
            match do_catch load_ptr type_name void_id t (exceptionType ex) exception_ptr 1 with
            | Some p => set_adjusted p ;;; cret true
            | None => cret false
            end
      end
  end.

(** Whether a type of an exception specification allows the exception; the indices
    end with a zero.  [None] is fuel run out. *)
Fixpoint spec_loop (fuel : nat) (c : context) (lsda : dwarf_eh_lsda) (ex : option thrown) (type_index : Z)
  : comp search (option bool) :=
  match fuel with
  | O => cret None
  | S fuel' =>
      let* i := clift (run_at (octet mem) type_index) in
      if i.1 =? 0 then cret (Some false)
      else
        let* t := get_type_info_entry c lsda i.1 in
        let* ok := check_type_signature ex t in
        if ok then cret (Some true) else spec_loop fuel' c lsda ex (type_index + 1)
  end.

(** The loop of [check_action_record]. *)
Fixpoint action_loop (spec_fuel fuel : nat) (c : context) (lsda : dwarf_eh_lsda) (ex : option thrown)
    (found : handler_type) (action_record : Z) : comp search (option handler_type) :=
  if action_record =? 0 then cret (Some found)
  else
    match fuel with
    | O => cret None
    | S fuel' =>
        let* f := clift (run_at (read_sleb128 mem) action_record) in
        let filter := int_cast f.1 in
        let* d := clift (run_at (read_sleb128 mem) f.2) in
        let displacement := int_cast d.1 in
        let action_record := if displacement =? 0 then 0 else f.2 + displacement in
        if 0 <? filter then
          let* t := get_type_info_entry c lsda filter in
          let* ok := check_type_signature ex t in
          if ok then set_selector filter ;;; cret (Some handler_catch)
          else action_loop spec_fuel fuel' c lsda ex found action_record
        else if (filter <? 0) && bool_decide (is_Some ex) then
          set_selector (wrap 64 filter) ;;;
          let* matched := spec_loop spec_fuel c lsda ex (type_table lsda - filter - 1) in
          match matched with
          | None => cret None
          | Some true => action_loop spec_fuel fuel' c lsda ex found action_record
          | Some false => cret (Some handler_catch)
          end
        else if filter =? 0 then
          set_selector filter ;;; action_loop spec_fuel fuel' c lsda ex handler_cleanup action_record
        else action_loop spec_fuel fuel' c lsda ex found action_record
    end.

Definition check_action_record (spec_fuel fuel : nat) (c : context) (lsda : dwarf_eh_lsda)
    (action_record : Z) (ex : option thrown) : comp search (option handler_type) :=
  if action_record =? 0 then cret (Some handler_cleanup)
  else action_loop spec_fuel fuel c lsda ex handler_none action_record.

(** ** The personality function *)

(** The fields of a [__cxa_exception] that carry what the first phase found. *)
Record cache := Cache {
  handlerSwitchValue : Z; actionRecord : Z; languageSpecificData : Z; catchTemp : Z; adjustedPtr : Z }.

Definition saveLandingPad (sel landingPad : Z) (h : cache) : cache :=
  Cache (int_cast sel) (actionRecord h) (languageSpecificData h) landingPad (adjustedPtr h).
Definition loadLandingPad (h : cache) : Z * Z := (wrap 64 (handlerSwitchValue h), catchTemp h).

Inductive reason :=
  | FATAL_PHASE1_ERROR | CONTINUE_UNWIND | HANDLER_FOUND
  | INSTALL_CONTEXT (ip gr0 gr1 : Z)
  | Terminated  (** [std::terminate()] was called *).

Definition UA_SEARCH_PHASE : Z := 1.
Definition UA_CLEANUP_PHASE : Z := 2.
Definition UA_HANDLER_FRAME : Z := 4.

(** A C++ exception: [realEx], and the fields of [ex], which are another's when the
    exception is a dependent one. *)
Definition cxx := option (thrown * cache).

(** A search with the [adjustedPtr] of the exception; a foreign one has no such
    field, and none is written. *)
Definition check_frame (spec_fuel fuel : nat) (c : context) (lsda : dwarf_eh_lsda) (action_record : Z) (ex : cxx)
  : outcome (option handler_type * Z * cxx) :=
  let s := Search 0 (match ex with Some (_, h) => adjustedPtr h | None => 0 end) in
  match check_action_record spec_fuel fuel c lsda action_record (fst <$> ex) s with
  | (Ret r, s') =>
      Ret (r, selector s',
           (λ e : thrown * cache,
              let h := e.2 in
              (e.1, Cache (handlerSwitchValue h) (actionRecord h) (languageSpecificData h) (catchTemp h)
                          (adjusted s'))) <$> ex)
  | (Throw e, _) => Throw e
  | (AssertFailed, _) => AssertFailed
  | (Waits, _) => Waits
  | (Undef u, _) => Undef u
  end.

(** [dwarf_eh_find_callsite] with its [action], which is zero where there is none. *)
Definition find_action (fuel : nat) (c : context) (lsda : dwarf_eh_lsda)
  : outcome (option (bool * dwarf_eh_action)) :=
  match dwarf_eh_find_callsite mem fuel c lsda with
  | Ret (Some (Some a)) => Ret (Some (true, a))
  | Ret (Some None) => Ret (Some (false, Action 0 0))
  | Ret None => Ret None
  | Throw e => Throw e
  | AssertFailed => AssertFailed
  | Waits => Waits
  | Undef u => Undef u
  end.

(** [__gxx_personality_v0]; [lsda_addr] is what [_Unwind_GetLanguageSpecificData] says.
    The state is the exception's fields; [None] is fuel run out. *)
Definition personality (spec_fuel fuel : nat) (version actions exceptionObject lsda_addr : Z) (c : context)
  : comp cxx (option reason) :=
  if negb (version =? 1) then cret (Some FATAL_PHASE1_ERROR)
  else if lsda_addr =? 0 then cret (Some CONTINUE_UNWIND)
  else
    let install ip sel := cret (Some (INSTALL_CONTEXT ip exceptionObject sel)) in
    let* ex := cget in
    if negb (actions .& UA_SEARCH_PHASE =? 0) then
      let* lsda := clift (run_at (parse_lsda mem c) lsda_addr) in
      let* site := clift (find_action fuel c lsda.1) in
      match site with
      | None => cret None
      | Some (false, _) => cret (Some HANDLER_FOUND)
      | Some (true, action) =>
          let* found := clift (check_frame spec_fuel fuel c lsda.1 (action_record action) ex) in
          let '(found_handler, sel, ex) := found in
          cput ex ;;;
          match found_handler with
          | None => cret None
          | Some handler_catch =>
              cmodify (fmap (λ e : thrown * cache,
                (e.1, let h := saveLandingPad sel (landing_pad action) e.2 in
                      Cache (handlerSwitchValue h) (action_record action) lsda_addr
                            (catchTemp h) (adjustedPtr h)))) ;;;
              cret (Some HANDLER_FOUND)
          | Some _ => cret (Some CONTINUE_UNWIND)
          end
      end
    else if actions .& UA_HANDLER_FRAME =? 0 then
      let* lsda := clift (run_at (parse_lsda mem c) lsda_addr) in
      let* site := clift (find_action fuel c lsda.1) in
      match site with
      | None => cret None
      | Some (_, action) =>
          if landing_pad action =? 0 then cret (Some CONTINUE_UNWIND)
          else
            let* found := clift (check_frame spec_fuel fuel c lsda.1 (action_record action) ex) in
            let '(found_handler, sel, ex) := found in
            cput ex ;;;
            match found_handler with
            | None => cret None
            | Some handler_cleanup => install (landing_pad action) sel
            | Some _ => cret (Some CONTINUE_UNWIND)
            end
      end
    else
      match ex with
      | None =>
          let* lsda := clift (run_at (parse_lsda mem c) lsda_addr) in
          let* site := clift (find_action fuel c lsda.1) in
          match site with
          | None => cret None
          | Some (_, action) =>
              let* found := clift (check_frame spec_fuel fuel c lsda.1 (action_record action) ex) in
              let '(found_handler, sel, _) := found in
              match found_handler with None => cret None | Some _ => install (landing_pad action) sel end
          end
      | Some (t, h) =>
          if catchTemp h =? 0 then cret (Some Terminated)
          else
            let '(sel, pad) := loadLandingPad h in
            cput (Some (t, Cache 0 (actionRecord h) (languageSpecificData h) 0 (adjustedPtr h))) ;;;
            install pad sel
      end.

End search.

(** ** What the tables say *)

(** An action of a call site: a cleanup, a [catch] of a type (or of all), or an
    exception specification; the numbers are the filters. *)
Inductive clause :=
  | Cleanup
  | Catch (filter : Z) (type : option typeinfo)
  | Spec (filter : Z) (allowed : list (option typeinfo)).

Definition filter_of (cl : clause) : Z := match cl with Cleanup => 0 | Catch f _ => f | Spec f _ => f end.
Definition is_cleanup (cl : clause) : bool := match cl with Cleanup => true | _ => false end.
Definition is_spec (cl : clause) : bool := match cl with Spec _ _ => true | _ => false end.

(** The bytes of a number, the least significant first. *)
Fixpoint le_bytes (n : nat) (v : Z) : list Z :=
  match n with O => [] | S n' => v mod 256 :: le_bytes n' (v / 256) end.

Section meaning.
Context (mem : Z → option Z) (load_ptr : Z → Z) (types : Z → option typeinfo)
        (type_name : Z → Z) (void_id : Z).

(** The pointer a handler of type [t] gets, if it catches the object. *)
Definition caught_as (e : thrown) (t : option typeinfo) : option Z :=
  let p := if is_pointer_p (exceptionType e) then load_ptr (object e) else object e in
  match t with
  | None => Some p
  | Some t =>
      if same_type type_name t (exceptionType e) then Some p
      else do_catch load_ptr type_name void_id t (exceptionType e) p 1
  end.

Definition matches (ex : option thrown) (t : option typeinfo) : bool :=
  match ex with Some e => bool_decide (is_Some (caught_as e t)) | None => bool_decide (t = None) end.

(** A clause stops the exception: a [catch] that matches, a specification that does
    not allow it. *)
Definition handles (ex : option thrown) (cl : clause) : bool :=
  match cl with
  | Cleanup => false
  | Catch _ t => matches ex t
  | Spec _ ts => bool_decide (is_Some ex) && negb (existsb (matches ex) ts)
  end.

Context (c : context) (lsda : dwarf_eh_lsda).

(** The table of types, as the ABI has it: the entry of a filter is so many entries
    before the table's address.  The low digit of the encoding is the format of an entry,
    its bytes and whether it has a sign; the high one says what it is relative to, and the
    top bit that a pointer to the type is at the address.  Zero is a [catch (...)]. *)
Definition entry_format (format : Z) : option (nat * bool) :=
  match format with
  | 0 | 4 => Some (8%nat, false) | 2 => Some (2%nat, false) | 3 => Some (4%nat, false)
  | 10 => Some (2%nat, true) | 11 => Some (4%nat, true) | 12 => Some (8%nat, true)
  | _ => None
  end%Z.

Definition relative_to (base start : Z) : Z :=
  match base with
  | 0x10 => start | 0x20 => text_rel_base c | 0x30 => data_rel_base c | 0x40 => region_start_of c | _ => 0
  end%Z.

Definition entry (f : Z) (t : option typeinfo) : Prop :=
  ∃ width sign raw, entry_format (type_table_encoding lsda .& 0x0f) = Some (width, sign)
    ∧ 0 ≤ raw < 256 ^ Z.of_nat width
    ∧ let start := type_table lsda - Z.of_nat width * f in
      bytes_at mem start (le_bytes width raw)
      ∧ (raw = 0 ∧ t = None
         ∨ raw ≠ 0 ∧ ∃ a,
             (let v := if sign && (256 ^ Z.of_nat width <=? 2 * raw) then raw - 256 ^ Z.of_nat width else raw in
              let v := (v + relative_to (type_table_encoding lsda .& 0x70) start) mod 2 ^ 64 in
              if Z.testbit (type_table_encoding lsda) 7 then 0 ≤ a < 2 ^ 64 ∧ bytes_at mem v (le_bytes 8 a) else a = v)
             ∧ t = (if a =? 0 then None else types a) ∧ (a ≠ 0 → is_Some (types a))).

(** The indices of a specification, which end with a zero. *)
Inductive indices : Z → list (option typeinfo) → Prop :=
  | indices_nil p : mem p = Some 0 → indices p []
  | indices_cons p i t ts : mem p = Some i → i ≠ 0 → entry i t → indices (p + 1) ts → indices p (t :: ts).

Definition clause_at (cl : clause) : Prop :=
  match cl with
  | Cleanup => True
  | Catch f t => 0 < f ∧ entry f t
  | Spec f ts => f < 0 ∧ indices (type_table lsda - f - 1) ts
  end.

Definition sleb_range (v : Z) : Prop := - 2 ^ 27 ≤ v < 2 ^ 31.

(** The action records from an address on. *)
Inductive chain : Z → list clause → Prop :=
  | chain_nil : chain 0 []
  | chain_cons p cl l displacement :
      p ≠ 0 → sleb_range (filter_of cl) → sleb_range displacement →
      bytes_at mem p (sleb128 (filter_of cl) ++ sleb128 displacement) →
      clause_at cl →
      chain (if displacement =? 0 then 0 else p + zlen (sleb128 (filter_of cl)) + displacement) l →
      chain p (cl :: l).

Definition spec_length (cl : clause) : nat := match cl with Spec _ ts => length ts | _ => 0%nat end.

(** ** Lemmas *)

Lemma read_bytes_le n v p :
  0 ≤ v < 256 ^ Z.of_nat n → bytes_at mem p (le_bytes n v) → read_bytes mem n p = (Ret v, p + Z.of_nat n).
Proof.
  revert v p. induction n as [|n IH]; intros v p Hv Hb; cbn [read_bytes le_bytes] in *.
  - change (256 ^ Z.of_nat 0) with 1 in Hv. unfold cret. f_equal; [f_equal; lia|lia].
  - rewrite Nat2Z.inj_succ, Z.pow_succ_r in Hv by lia.
    rewrite (cbind_ret _ _ _ _ _ (octet_at mem p _ _ Hb)).
    rewrite (cbind_ret _ _ _ _ _ (IH (v / 256) (p + 1)
      ltac:(split; [apply Z.div_pos; lia|apply Z.div_lt_upper_bound; lia]) (proj2 (bytes_at_cons _ _ _ _ Hb)))).
    unfold cret. pose proof (Z.div_mod v 256 ltac:(lia)). f_equal; [f_equal; lia|lia].
Qed.

Lemma read_fixed_le n sign raw p :
  (0 < n ≤ 8)%nat → 0 ≤ raw < 256 ^ Z.of_nat n → bytes_at mem p (le_bytes n raw) →
  read_fixed mem n sign p
  = (Ret (wrap 64 (if sign && (256 ^ Z.of_nat n <=? 2 * raw) then raw - 256 ^ Z.of_nat n else raw)), p + Z.of_nat n).
Proof.
  intros Hn Hr Hb. unfold read_fixed. rewrite (cbind_ret _ _ _ _ _ (read_bytes_le n raw p Hr Hb)). unfold cret.
  assert (Hw : 2 ^ (8 * Z.of_nat n) = 256 ^ Z.of_nat n) by (rewrite Z.pow_mul_r by lia; done).
  assert (Hh : 256 ^ Z.of_nat n = 2 * 2 ^ (8 * Z.of_nat n - 1)).
  { rewrite <- Hw, <- Z.pow_succ_r by lia. f_equal. lia. }
  rewrite Hw. destruct sign; [|done]. cbn [andb].
  destruct (Z.leb_spec (2 ^ (8 * Z.of_nat n - 1)) raw), (Z.leb_spec (256 ^ Z.of_nat n) (2 * raw)); try done; lia.
Qed.

Lemma int64_wrap v : wrap 64 (int64 v) = wrap 64 v.
Proof. unfold int64, wrap. rewrite Zminus_mod_idemp_l. f_equal. lia. Qed.

Lemma int64_zero v : (int64 v =? 0) = (wrap 64 v =? 0).
Proof.
  unfold int64, wrap. pose proof (Z.div_mod v (2 ^ 64) ltac:(lia)). pose proof (Z.mod_pos_bound v (2 ^ 64) ltac:(lia)).
  destruct (Z.eqb_spec (v mod 2 ^ 64) 0) as [Hz|Hz].
  - rewrite <- Zplus_mod_idemp_l, Hz. by apply Z.eqb_eq.
  - apply Z.eqb_neq. rewrite <- Zplus_mod_idemp_l. set (m := v mod 2 ^ 64) in *. clearbody m.
    destruct (Z.ltb_spec m (2 ^ 63)); [rewrite Z.mod_small; lia|].
    replace (m + 2 ^ 63) with (m - 2 ^ 63 + 1 * 2 ^ 64) by lia. rewrite Z.mod_add, Z.mod_small; lia.
Qed.

Lemma relative_is (start v : Z) :
  wrap 64 (v + (if get_base (type_table_encoding lsda) =? DW_EH_PE_pcrel then start
     else if get_base (type_table_encoding lsda) =? DW_EH_PE_textrel then text_rel_base c
     else if get_base (type_table_encoding lsda) =? DW_EH_PE_datarel then data_rel_base c
     else if get_base (type_table_encoding lsda) =? DW_EH_PE_funcrel then region_start_of c else 0))
  = (v + relative_to (type_table_encoding lsda .& 0x70) start) mod 2 ^ 64.
Proof.
  unfold wrap, get_base. set (b := _ .& _). do 2 f_equal. unfold relative_to.
  destruct (Z.eqb_spec b DW_EH_PE_pcrel) as [->|]; [done|]. destruct (Z.eqb_spec b DW_EH_PE_textrel) as [->|]; [done|].
  destruct (Z.eqb_spec b DW_EH_PE_datarel) as [->|]; [done|]. destruct (Z.eqb_spec b DW_EH_PE_funcrel) as [->|]; [done|].
  unfold DW_EH_PE_pcrel, DW_EH_PE_textrel, DW_EH_PE_datarel, DW_EH_PE_funcrel in *.
  repeat match goal with |- 0 = match ?x with _ => _ end => destruct x; try done end.
Qed.

Lemma indirect_is e : is_indirect e = Z.testbit e 7.
Proof.
  unfold is_indirect, DW_EH_PE_indirect. apply eq_true_iff_eq. rewrite Z.eqb_eq. split.
  - intros He. rewrite <- (andb_true_r (Z.testbit e 7)). change true with (Z.testbit 128 7). by rewrite <- Z.land_spec, He.
  - intros He. apply Z.bits_inj'. intros n Hn. change 128 with (2 ^ 7). rewrite Z.land_spec, Z.pow2_bits_eqb by done.
    destruct (Z.eqb_spec 7 n) as [<-|]; [by rewrite He|by rewrite andb_false_r].
Qed.

(** How a format is read. *)
Lemma format_read e w sign :
  entry_format (e .& 0x0f) = Some (w, sign) →
  (0 < w ≤ 8)%nat ∧ dwarf_size_of_fixed_size_field e = Ret (Z.of_nat w)
  ∧ ∃ sign', read_value mem e = read_fixed mem w sign' ∧ (sign' = sign ∨ w = 8%nat).
Proof.
  unfold entry_format, dwarf_size_of_fixed_size_field, read_value, get_encoding. set (g := _ .& _). intros He.
  assert (Hg : g = 0 ∨ g = 2 ∨ g = 3 ∨ g = 4 ∨ g = 10 ∨ g = 11 ∨ g = 12).
  { repeat match type of He with match ?x with _ => _ end = _ => destruct x; try done; try auto 10 end. }
  destruct Hg as [Hg|[Hg|[Hg|[Hg|[Hg|[Hg|Hg]]]]]]; rewrite Hg in *; injection He as <- <-;
    (split; [lia|]); (split; [done|]); eexists; (split; [reflexivity|]); by auto.
Qed.

Lemma sign_of_eight raw (s : bool) : wrap 64 (if s && (256 ^ Z.of_nat 8 <=? 2 * raw) then raw - 256 ^ Z.of_nat 8 else raw) = wrap 64 raw.
Proof.
  destruct (s && _); [|done]. unfold wrap. change (256 ^ Z.of_nat 8) with (1 * 2 ^ 64).
  replace (raw - 1 * 2 ^ 64) with (raw + (-1) * 2 ^ 64) by lia. by rewrite Z.mod_add.
Qed.

(** The entry of a filter is what is read of it. *)
Lemma entry_read f t s : entry f t → get_type_info_entry mem types c lsda f s = (Ret t, s).
Proof.
  intros (w & sign & raw & He & Hraw & Hb & Ht). destruct (format_read _ _ _ He) as (Hw & Hsize & sign' & Hread & Hsign).
  unfold get_type_info_entry. rewrite Hsize, Hread. change (clift (Ret (Z.of_nat w))) with (@cret search Z (Z.of_nat w)).
  rewrite (cbind_ret _ _ s (Z.of_nat w) s) by done. set (start := type_table lsda - Z.of_nat w * f) in *.
  set (v := if sign && (256 ^ Z.of_nat w <=? 2 * raw) then raw - 256 ^ Z.of_nat w else raw) in *.
  assert (Hv : run_at (read_fixed mem w sign') start = Ret (wrap 64 v, start + Z.of_nat w)).
  { unfold run_at. rewrite (read_fixed_le _ _ _ _ Hw Hraw Hb). destruct Hsign as [->| ->]; [done|]. unfold v. by rewrite !sign_of_eight. }
  unfold clift at 1. rewrite Hv. unfold cbind at 1. cbn [fst].
  assert (H64 : wrap 64 (wrap 64 v) = wrap 64 v) by (unfold wrap; by rewrite Zmod_mod).
  assert (Hp : 256 ^ Z.of_nat w ≤ 2 ^ 64).
  { change (2 ^ 64) with (256 ^ 8). apply Z.pow_le_mono_r; lia. }
  assert (Hz : (int64 (wrap 64 v) =? 0) = (raw =? 0)).
  { rewrite int64_zero, H64. unfold wrap, v. destruct (sign && _) eqn:Hs.
    - apply andb_true_iff in Hs as [_ Hs%Z.leb_le].
      replace (raw - 256 ^ Z.of_nat w) with (raw - 256 ^ Z.of_nat w + 2 ^ 64 + (-1) * 2 ^ 64) by lia.
      rewrite Z.mod_add by lia. destruct (Z.eqb_spec raw 0); [lia|]. destruct (decide (w = 8%nat)) as [Hw8|Hw8].
      + replace (Z.of_nat w) with 8 in * by lia. change (256 ^ 8) with (2 ^ 64) in *. apply Z.eqb_neq. rewrite Z.mod_small; lia.
      + apply Z.eqb_neq. assert (256 ^ Z.of_nat w < 2 ^ 64) by (change (2 ^ 64) with (256 ^ 8); apply Z.pow_lt_mono_r; lia).
        rewrite Z.mod_small; lia.
    - rewrite Z.mod_small by lia. done. }
  rewrite Hz. destruct Ht as [[-> ->]|(Hne & a & Ha & -> & Hta)]; [done|]. destruct (Z.eqb_spec raw 0); [done|].
  unfold resolve_indirect_value, clift, cbind. rewrite relative_is, indirect_is, int64_wrap, H64.
  assert (Hsum : (wrap 64 v + relative_to (type_table_encoding lsda .& 0x70) start) mod 2 ^ 64
    = (v + relative_to (type_table_encoding lsda .& 0x70) start) mod 2 ^ 64) by (unfold wrap; by rewrite Zplus_mod_idemp_l).
  rewrite Hsum.
  assert (Htype : type_at types a = Ret (if a =? 0 then None else types a)).
  { unfold type_at. destruct (Z.eqb_spec a 0) as [|Hne']; [done|]. by destruct (Hta Hne') as [ty ->]. }
  destruct (Z.testbit (type_table_encoding lsda) 7).
  - destruct Ha as [Ha Hpa]. unfold deref. rewrite (read_fixed_le 8 false a _ ltac:(lia) Ha Hpa). cbn [andb fst].
    rewrite wrap_small by done. by rewrite Htype.
  - assert (a = (v + relative_to (type_table_encoding lsda .& 0x70) start) mod 2 ^ 64) as <- by exact Ha. by rewrite Htype.
Qed.

Lemma signature ex t s :
  check_type_signature load_ptr type_name void_id ex t s
  = (Ret (matches ex t),
     Search (selector s) (match ex with Some e => default (adjusted s) (caught_as e t) | None => adjusted s end)).
Proof.
  destruct s as [sel adj]. unfold check_type_signature, matches. destruct ex as [e|]; [|by destruct t].
  unfold caught_as. destruct t as [t|]; [|done].
  destruct (same_type _ _ _); [done|]. by destruct (do_catch _ _ _ _ _ _ _).
Qed.

Lemma signature_adjusted ex t s :
  ∃ a, check_type_signature load_ptr type_name void_id ex t s = (Ret (matches ex t), Search (selector s) a).
Proof. rewrite signature. by eexists. Qed.

Lemma spec_loop_indices ex p ts n s :
  indices p ts → (length ts < n)%nat →
  ∃ a, spec_loop mem load_ptr types type_name void_id n c lsda ex p s
       = (Ret (Some (existsb (matches ex) ts)), Search (selector s) a).
Proof.
  intros Hi. revert n s. induction Hi as [p Hm|p i t ts Hm Hz He _ IH]; intros n s Hn;
    (destruct n as [|n]; [cbn in Hn; lia|]); cbn [spec_loop];
    (rewrite (cbind_ret _ _ s (_, p + 1) s) by (unfold run_at, octet; by rewrite Hm)); cbn [fst].
  - exists (adjusted s). by destruct s.
  - destruct (Z.eqb_spec i 0); [done|]. rewrite (cbind_ret _ _ _ _ _ (entry_read _ _ s He)).
    destruct (signature_adjusted ex t s) as [a Ha]. rewrite (cbind_ret _ _ _ _ _ Ha). cbn [existsb].
    destruct (matches ex t); [by exists a|]. destruct (IH n (Search (selector s) a)) as [b Hb]; [cbn in Hn; lia|].
    by exists b.
Qed.

Lemma sleb_at v p rest :
  sleb_range v → bytes_at mem p (sleb128 v ++ rest) →
  run_at (read_sleb128 mem) p = Ret (v, p + zlen (sleb128 v)) ∧ int_cast v = v.
Proof.
  intros Hv [Hb _]%bytes_at_app. unfold run_at. rewrite (read_sleb128_of mem v p Hv Hb).
  split; [done|]. apply int_cast_small. unfold INT_MIN, INT_MAX. unfold sleb_range in Hv. lia.
Qed.

(** The outcome of a search that started with [found] and [s0]. *)
Definition searched (ex : option thrown) (l : list clause) (found : handler_type) (s0 : search)
    (h : handler_type) (s : search) : Prop :=
  match find (handles ex) l with
  | Some cl => h = handler_catch ∧ selector s = wrap 64 (filter_of cl)
      ∧ (∀ f t e, cl = Catch f t → ex = Some e → Some (adjusted s) = caught_as e t)
  | None => h = (if existsb is_cleanup l then handler_cleanup else found)
      ∧ (forallb (λ cl, negb (is_spec cl)) l = true →
         adjusted s = adjusted s0 ∧ (selector s0 = 0 → selector s = 0))
  end.

Lemma action_loop_chain ex p l found n k s :
  chain p l → (length l ≤ n)%nat → Forall (λ cl, spec_length cl < k)%nat l →
  ∃ h s', action_loop mem load_ptr types type_name void_id k n c lsda ex found p s = (Ret (Some h), s')
          ∧ searched ex l found s h s'.
Proof.
  intros Hc. revert found n s. induction Hc as [|p cl l d Hp Hf Hd Hb Hcl Hl IH]; intros found n s Hn Hk.
  { exists found, s. destruct n; by repeat split. }
  destruct n as [|n]; [cbn in Hn; lia|]. cbn in Hn. apply Forall_cons in Hk as [Hk1 Hk].
  cbn [action_loop]. destruct (Z.eqb_spec p 0); [done|].
  destruct (sleb_at _ _ _ Hf Hb) as [Hr1 Hi1]. apply bytes_at_app in Hb as [_ Hb].
  rewrite <- (app_nil_r (sleb128 d)) in Hb. destruct (sleb_at _ _ _ Hd Hb) as [Hr2 Hi2].
  unfold clift at 1. rewrite Hr1. unfold cbind at 1. cbn [fst snd]. rewrite Hi1.
  unfold clift at 1. rewrite Hr2. unfold cbind at 1. cbn [fst snd]. rewrite Hi2.
  set (next := if d =? 0 then 0 else p + zlen (sleb128 (filter_of cl)) + d) in *.
  assert (Hgo : ∀ s1,
    (is_spec cl = false → adjusted s1 = adjusted s ∧ (selector s = 0 → selector s1 = 0)) →
    handles ex cl = false →
    ∃ h s', action_loop mem load_ptr types type_name void_id k n c lsda ex
              (if is_cleanup cl then handler_cleanup else found) next s1 = (Ret (Some h), s')
            ∧ searched ex (cl :: l) found s h s').
  { intros s1 Hs1 Hh.
    destruct (IH (if is_cleanup cl then handler_cleanup else found) n s1) as (h & s' & He & Hs); [lia|done|].
    exists h, s'. split; [exact He|]. unfold searched in *. cbn [find]. rewrite Hh.
    destruct (find (handles ex) l); [done|]. destruct Hs as [-> Hs]. split.
    - cbn [existsb]. by destruct (is_cleanup cl), (existsb is_cleanup l).
    - cbn [forallb]. intros [Hsp Hsps]%andb_true_iff. apply negb_true_iff in Hsp.
      destruct (Hs1 Hsp) as [Ha Hz]. destruct (Hs Hsps) as [-> Hz2]. split; [done|auto]. }
  destruct cl as [|f t|f ts]; cbn [filter_of clause_at is_cleanup is_spec handles spec_length] in *.
  - apply (Hgo (Search 0 (adjusted s))); [by split|done].
  - destruct Hcl as [Hpos He]. destruct (Z.ltb_spec 0 f); [|lia].
    rewrite (cbind_ret _ _ _ _ _ (entry_read _ _ s He)), (cbind_ret _ _ _ _ _ (signature ex t s)).
    destruct (matches ex t) eqn:Hm.
    + eexists _, _. split; [reflexivity|]. unfold searched. cbn [find handles]. rewrite Hm.
      split; [done|]. split.
      * cbn [selector filter_of]. symmetry. apply wrap_small. unfold sleb_range in Hf. lia.
      * intros f' t' e [= <- <-] ->. cbn [adjusted]. unfold matches in Hm. apply bool_decide_eq_true in Hm as [a ->].
        done.
    + apply Hgo; [|done]. intros _. split; [|done]. cbn [adjusted]. destruct ex as [e|]; [|done].
      unfold matches in Hm. apply bool_decide_eq_false in Hm. destruct (caught_as e t); [|done].
      by destruct Hm.
  - destruct Hcl as [Hneg Hi]. destruct (Z.ltb_spec 0 f); [lia|]. destruct (Z.ltb_spec f 0); [|lia].
    destruct ex as [e|]; cbn [andb bool_decide] in *.
    + rewrite bool_decide_eq_true_2 in * by done. cbn [andb] in *. unfold cbind at 1, set_selector, cmodify.
      destruct (spec_loop_indices (Some e) _ ts k (Search (wrap 64 f) (adjusted s)) Hi Hk1) as [a Ha].
      rewrite (cbind_ret _ _ _ _ _ Ha). destruct (existsb (matches (Some e)) ts) eqn:Hm.
      * by apply Hgo.
      * eexists _, _. split; [reflexivity|]. unfold searched. cbn [find handles].
        rewrite bool_decide_eq_true_2, Hm by done. by repeat split.
    + rewrite bool_decide_eq_false_2 in * by (by intros [? ?]). cbn [andb] in *.
      destruct (Z.eqb_spec f 0); [lia|]. by apply Hgo.
Qed.
End meaning.

(** A filter survives the trip through the [int] of the exception. *)
Lemma filter_saved f : sleb_range f → wrap 64 (int_cast (wrap 64 f)) = wrap 64 f.
Proof.
  intros Hf. unfold sleb_range in Hf. f_equal. unfold int_cast, wrap.
  change (2 ^ 64) with (2 ^ 32 * 2 ^ 32). rewrite Zplus_mod, Z.rem_mul_r by lia.
  rewrite (Z.mul_comm (2 ^ 32) (_ mod _)), Z.mod_add, Z.mod_mod, <- Zplus_mod by lia.
  rewrite Z.mod_small; lia.
Qed.

Lemma chain_filters mem types c lsda p l :
  chain mem types c lsda p l → Forall (λ cl, sleb_range (filter_of cl)) l.
Proof. induction 1; by constructor. Qed.

(** ** Theorems *)

Section theorems.
Context (mem : Z → option Z) (load_ptr : Z → Z) (types : Z → option typeinfo)
        (type_name : Z → Z) (void_id : Z).

(** The bytes of a function's table: where it is, what it says of the place in the
    function, and the clauses there; no action is a cleanup. *)
Record frame (fuel : nat) (c : context) (lsda_addr : Z) (lsda : dwarf_eh_lsda) (a : dwarf_eh_action)
    (l : list clause) : Prop := {
  frame_addr : lsda_addr ≠ 0;
  frame_lsda : (parse_lsda mem c lsda_addr).1 = Ret lsda;
  frame_site : dwarf_eh_find_callsite mem fuel c lsda = Ret (Some (Some a));
  frame_pad : landing_pad a ≠ 0;
  frame_chain : if action_record a =? 0 then l = [Cleanup] else chain mem types c lsda (action_record a) l;
  frame_fuel : (length l ≤ fuel)%nat }.

(** An exception of C++ with the address a search has left. *)
Definition adjust (adj : Z) (ex : cxx) : cxx :=
  (λ e : thrown * cache, (e.1, Cache (handlerSwitchValue e.2) (actionRecord e.2) (languageSpecificData e.2)
    (catchTemp e.2) adj)) <$> ex.

Lemma check_frame_searched fuel k c lsda_addr lsda a l (ex : cxx) :
  frame fuel c lsda_addr lsda a l → Forall (λ cl, spec_length cl < k)%nat l →
  ∃ h sel adj,
    check_frame mem load_ptr types type_name void_id k fuel c lsda (action_record a) ex
    = Ret (Some h, sel, adjust adj ex)
    ∧ searched load_ptr type_name void_id (fst <$> ex) l handler_none
        (Search 0 (match ex with Some (_, h) => adjustedPtr h | None => 0 end)) h (Search sel adj).
Proof.
  intros [_ _ _ _ Hchain Hfuel] Hk. unfold check_frame, check_action_record.
  destruct (Z.eqb_spec (action_record a) 0).
  - subst l. eexists _, _, _. split; [reflexivity|]. by repeat split.
  - destruct (action_loop_chain mem load_ptr types type_name void_id c lsda (fst <$> ex) _ l handler_none fuel k
      (Search 0 (match ex with Some (_, h) => adjustedPtr h | None => 0 end)) Hchain Hfuel Hk)
      as (h & [sel adj] & -> & Hs).
    by exists h, sel, adj.
Qed.

Lemma frame_filters fuel c lsda_addr lsda a l e cl :
  frame fuel c lsda_addr lsda a l → find (handles load_ptr type_name void_id e) l = Some cl →
  sleb_range (filter_of cl).
Proof.
  intros [_ _ _ _ Hchain _] [Hin _]%find_some. apply list_elem_of_In in Hin.
  destruct (action_record a =? 0); [by subst l; apply list_elem_of_singleton in Hin; subst cl|].
  by apply chain_filters, Forall_forall with (x := cl) in Hchain.
Qed.

(** The two phases before they look at what [check_frame] says. *)
Lemma frame_run fuel c lsda_addr lsda a l :
  frame fuel c lsda_addr lsda a l →
  (∃ p, run_at (parse_lsda mem c) lsda_addr = Ret (lsda, p)) ∧ find_action mem fuel c lsda = Ret (Some (true, a)).
Proof.
  intros [_ Hlsda Hsite _ _ _]. split; [|unfold find_action; by rewrite Hsite].
  unfold run_at. destruct (parse_lsda mem c lsda_addr) as [o p]. cbn [fst] in Hlsda. subst o. by exists p.
Qed.

Lemma search_phase_is fuel k c lsda_addr lsda a l exceptionObject (ex : cxx) h sel adj :
  frame fuel c lsda_addr lsda a l →
  check_frame mem load_ptr types type_name void_id k fuel c lsda (action_record a) ex = Ret (Some h, sel, adjust adj ex) →
  personality mem load_ptr types type_name void_id k fuel 1 UA_SEARCH_PHASE exceptionObject lsda_addr c ex
  = match h with
    | handler_catch => (Ret (Some HANDLER_FOUND), (λ e : thrown * cache,
        (e.1, Cache (int_cast sel) (action_record a) lsda_addr (landing_pad a) (adjustedPtr e.2))) <$> adjust adj ex)
    | _ => (Ret (Some CONTINUE_UNWIND), adjust adj ex)
    end.
Proof.
  intros Hfr Hc. destruct (frame_run _ _ _ _ _ _ Hfr) as [[pp Hrun] Hfind]. destruct Hfr as [Haddr%Z.eqb_neq _ _ _ _ _].
  unfold personality, cbind, clift, cget, cput, cmodify. rewrite Haddr, Hrun. cbn [fst].
  rewrite Hfind. cbn. rewrite Hc. by destruct h.
Qed.

(** C30: the search of an action's clauses, as the bytes of the action records and of the
    table of types give them, stops at the first that handles the exception, with its
    filter, and with the object's address as the [catch] clause's type has it; where none
    does, it says whether there is a cleanup.  The types are those that the entries of the
    filters refer to, of any fixed size, relative or indirect, a zero being a [catch
    (...)]; filters and displacements are within -2^27 and 2^31, which the readers need,
    and the fuels cover the clauses and the longest specification. *)
Theorem handler_search c lsda p l ex n k s :
  chain mem types c lsda p l → (length l ≤ n)%nat → Forall (λ cl, spec_length cl < k)%nat l →
  ∃ h s', check_action_record mem load_ptr types type_name void_id k n c lsda p ex s = (Ret (Some h), s')
    ∧ match find (handles load_ptr type_name void_id ex) l with
      | Some cl => h = handler_catch ∧ selector s' = wrap 64 (filter_of cl)
          ∧ (∀ f t e, cl = Catch f t → ex = Some e →
               Some (adjusted s') = caught_as load_ptr type_name void_id e t)
      | None => h = (if existsb is_cleanup l || (p =? 0) then handler_cleanup else handler_none)
      end.
Proof.
  intros Hc Hn Hk. unfold check_action_record. destruct (Z.eqb_spec p 0) as [->|Hp].
  - assert (l = []) as -> by (inversion Hc; congruence). exists handler_cleanup, s. by split.
  - destruct (action_loop_chain mem load_ptr types type_name void_id c lsda ex p l handler_none n k s Hc Hn Hk)
      as (h & s' & He & Hs).
    exists h, s'. split; [exact He|]. unfold searched in Hs. destruct (find _ _); [done|].
    rewrite orb_false_r. by destruct Hs.
Qed.

(** C31: in a frame whose table has, for the place the exception comes through, a call site
    with a landing pad: when the first phase says that the frame has a handler, the second
    enters the landing pad with the filter of the clause that handles the exception, and
    the exception has the adjusted address; when it says that there is none, the second
    runs the frame's cleanup if there is one.  So it is for a foreign exception too.  (A
    place that no call site covers ends the program, [uncovered_terminates].) *)
Theorem two_phases fuel k c lsda_addr lsda a l exceptionObject (ex : cxx) :
  frame fuel c lsda_addr lsda a l → Forall (λ cl, spec_length cl < k)%nat l →
  let phase actions := personality mem load_ptr types type_name void_id k fuel 1 actions exceptionObject lsda_addr c in
  match find (handles load_ptr type_name void_id (fst <$> ex)) l with
  | Some cl =>
      ∃ ex1 ex2,
        phase UA_SEARCH_PHASE ex = (Ret (Some HANDLER_FOUND), ex1)
        ∧ phase (UA_CLEANUP_PHASE .| UA_HANDLER_FRAME) ex1
          = (Ret (Some (INSTALL_CONTEXT (landing_pad a) exceptionObject (wrap 64 (filter_of cl)))), ex2)
        ∧ (∀ t h, ex = Some (t, h) → ∃ h2, ex2 = Some (t, h2) ∧ catchTemp h2 = 0
             ∧ ∀ f ty, cl = Catch f ty → caught_as load_ptr type_name void_id t ty = Some (adjustedPtr h2))
  | None =>
      ∃ ex1 ex2,
        phase UA_SEARCH_PHASE ex = (Ret (Some CONTINUE_UNWIND), ex1)
        ∧ match phase UA_CLEANUP_PHASE ex1 with
          | (Ret (Some r), ex2') => ex2' = ex2 ∧
              if existsb is_cleanup l then ∃ sel, r = INSTALL_CONTEXT (landing_pad a) exceptionObject sel
                ∧ (forallb (λ cl, negb (is_spec cl)) l = true → sel = 0)
              else r = CONTINUE_UNWIND
          | _ => False
          end
  end.
Proof.
  intros Hfr Hk phase. destruct (frame_run _ _ _ _ _ _ Hfr) as [[pp Hrun] Hfind].
  pose proof (frame_addr _ _ _ _ _ _ Hfr) as Haddr. pose proof (frame_pad _ _ _ _ _ _ Hfr) as Hpad.
  apply Z.eqb_neq in Haddr, Hpad.
  destruct (check_frame_searched _ k _ _ _ _ _ ex Hfr Hk) as (h & sel & adj & Hc & Hs). unfold searched in Hs.
  pose proof (search_phase_is _ _ _ _ _ _ _ exceptionObject _ _ _ _ Hfr Hc) as H1. fold (phase UA_SEARCH_PHASE) in H1.
  destruct (find _ l) as [cl|] eqn:Hfd.
  - destruct Hs as (-> & Hsel & Hadj). cbn [selector adjusted] in *.
    destruct ex as [[t h]|]; (eexists _, _; split; [exact H1|]); cbn [adjust fmap option_fmap option_map fst snd] in *.
    + unfold phase, personality, cbind, clift, cget, cput, cmodify. rewrite Haddr. cbn. rewrite Hpad.
      rewrite Hsel, filter_saved by (by eapply frame_filters). split; [reflexivity|].
      intros t' h' [= <- <-]. eexists. split; [reflexivity|]. split; [done|].
      intros f ty Hcl. symmetry. by apply (Hadj f ty t Hcl).
    + unfold phase, personality, cbind, clift, cget, cput, cmodify. rewrite Haddr, Hrun. cbn [fst].
      rewrite Hfind. cbn. rewrite Hc. cbn. rewrite Hsel. split; [reflexivity|done].
  - destruct Hs as [-> Hs].
    destruct (check_frame_searched _ k _ _ _ _ _ (adjust adj ex) Hfr Hk) as (h & sel2 & adj2 & Hc2 & Hs2).
    assert (Hfst : fst <$> adjust adj ex = fst <$> ex) by (by destruct ex as [[? ?]|]).
    unfold searched in Hs2. rewrite Hfst, Hfd in Hs2. destruct Hs2 as [-> Hs2]. eexists (adjust adj ex), _. split.
    { rewrite H1. by destruct (existsb is_cleanup l). }
    unfold phase, personality, cbind, clift, cget, cput, cmodify. rewrite Haddr, Hrun. cbn [fst].
    rewrite Hfind. cbn. rewrite Hpad, Hc2. destruct (existsb is_cleanup l).
    + split; [reflexivity|]. eexists. split; [reflexivity|]. intros Hsp. by apply Hs2.
    + by split.
Qed.

(** A place that no call site covers, where an exception leaves a destructor that
    runs because of another one, is reported as a handler in the first phase; the
    second ends the program. *)
Theorem uncovered_terminates fuel k c lsda_addr lsda exceptionObject t h :
  lsda_addr ≠ 0 → (parse_lsda mem c lsda_addr).1 = Ret lsda →
  dwarf_eh_find_callsite mem fuel c lsda = Ret (Some None) → catchTemp h = 0 →
  let phase actions := personality mem load_ptr types type_name void_id k fuel 1 actions exceptionObject lsda_addr c in
  phase UA_SEARCH_PHASE (Some (t, h)) = (Ret (Some HANDLER_FOUND), Some (t, h))
  ∧ phase (UA_CLEANUP_PHASE .| UA_HANDLER_FRAME) (Some (t, h)) = (Ret (Some Terminated), Some (t, h)).
Proof.
  intros Haddr Hlsda Hsite Htemp phase. apply Z.eqb_neq in Haddr.
  unfold phase, personality, cbind, clift, cget, cput, cmodify, run_at, find_action. rewrite Haddr.
  destruct (parse_lsda mem c lsda_addr) as [o p]. cbn [fst] in Hlsda. subst o. cbn. rewrite Hsite.
  by rewrite Htemp.
Qed.
End theorems.

(** ** Corners *)

(** A frame with a cleanup and a specification that allows the exception: the cleanup
    is entered with the specification's filter, with which its landing pad takes the
    exception for one that is not allowed; and the address that the handler further
    out is to get becomes that of the class the specification names. *)
Lemma allowed_yet_unexpected load_ptr types type_name void_id (mem : Z → option Z) c lsda p f e b a k s :
  chain mem types c lsda p [Cleanup; Spec f [Some b]] → (2 ≤ k)%nat →
  caught_as load_ptr type_name void_id e (Some b) = Some a →
  check_action_record mem load_ptr types type_name void_id k 2 c lsda p (Some e) s
  = (Ret (Some handler_cleanup), Search (wrap 64 f) a).
Proof.
  intros Hc Hk Ha. inversion Hc as [|q cl l d Hp Hf Hd Hb _ Hc1]; subst; clear Hc. cbn [filter_of] in *.
  inversion Hc1 as [|q cl l d2 Hp2 Hf2 Hd2 Hb2 Hcl2 Hc2]; subst. destruct Hcl2 as [Hneg Hi]. cbn [filter_of] in *.
  assert (Hz : (if d2 =? 0 then 0 else (if d =? 0 then 0 else p + zlen (sleb128 0) + d) + zlen (sleb128 f) + d2) = 0)
    by (by inversion Hc2).
  unfold check_action_record. destruct (Z.eqb_spec p 0); [done|].
  destruct (sleb_at mem _ _ _ Hf Hb) as [Hr1 Hi1]. apply bytes_at_app in Hb as [_ Hb].
  rewrite <- (app_nil_r (sleb128 d)) in Hb. destruct (sleb_at mem _ _ _ Hd Hb) as [Hr2 Hi2].
  destruct (sleb_at mem _ _ _ Hf2 Hb2) as [Hr3 Hi3]. apply bytes_at_app in Hb2 as [_ Hb2].
  rewrite <- (app_nil_r (sleb128 d2)) in Hb2. destruct (sleb_at mem _ _ _ Hd2 Hb2) as [Hr4 Hi4].
  cbn [action_loop]. destruct (Z.eqb_spec p 0); [done|].
  unfold clift at 1. rewrite Hr1. unfold cbind at 1. cbn [fst snd]. rewrite Hi1.
  unfold clift at 1. rewrite Hr2. unfold cbind at 1. cbn [fst snd]. rewrite Hi2.
  cbn [Z.ltb Z.compare andb Z.eqb]. unfold cbind at 1, set_selector, cmodify.
  set (next := if d =? 0 then 0 else p + zlen (sleb128 0) + d) in *.
  destruct (Z.eqb_spec next 0); [done|].
  unfold clift at 1. rewrite Hr3. unfold cbind at 1. cbn [fst snd]. rewrite Hi3.
  unfold clift at 1. rewrite Hr4. unfold cbind at 1. cbn [fst snd]. rewrite Hi4.
  destruct (Z.ltb_spec 0 f); [lia|]. destruct (Z.ltb_spec f 0); [|lia]. cbn [andb bool_decide].
  rewrite bool_decide_eq_true_2 by done. unfold cbind at 1, set_selector, cmodify.
  destruct k as [|k]; [lia|]. inversion Hi as [|q i t ts Hm Hz2 He _]; subst. cbn [spec_loop].
  unfold cbind, clift, run_at, octet. rewrite Hm. cbn [fst]. destruct (Z.eqb_spec i 0); [done|].
  rewrite (entry_read _ _ _ _ _ _ _ He), signature. unfold matches. rewrite Ha. rewrite Hz, bool_decide_eq_true_2 by done. reflexivity.
Qed.

(** ** Witnesses *)

(** A function with one call site, whose two [catch] clauses are for the classes at 6
    and at 5; the object thrown has the second as its base at 16. *)
Definition two_catches : Z → option Z :=
  memory 4096 (lsda_bytes DW_EH_PE_absptr 26 [Site 0 20 100 1] ([2; 1; 1; 0] ++ le_bytes 8 6 ++ le_bytes 8 5)).
Definition two_types (a : Z) : option typeinfo := if (a =? 5) || (a =? 6) then Some (Class a) else None.
Definition two_frame : context := Context_ 1000 0 0 1010.
Definition two_lsda : dwarf_eh_lsda := Lsda 1000 1000 4125 0 4101 4105 1.
Definition two_thrown : thrown :=
  Thrown (VmiClass 7 [(Class 8, (0 << 8) .| public_mask); (Class 5, (16 << 8) .| public_mask)]) 9000.

Lemma two_chain :
  chain two_catches two_types two_frame two_lsda 4105 [Catch 2 (Some (Class 6)); Catch 1 (Some (Class 5))].
Proof.
  assert (Hb : bytes_at two_catches 4105 [2; 1; 1; 0]).
  { intros i b Hi. do 4 (destruct i as [|i]; [by vm_compute in Hi |- *|]). done. }
  assert (He : ∀ a, a = 5 ∨ a = 6 → entry two_catches two_types two_frame two_lsda (a - 4) (Some (Class a))).
  { intros a Ha. exists 8%nat, false, a. split; [done|]. split; [change (256 ^ Z.of_nat 8) with (2 ^ 64); lia|].
    destruct Ha as [-> | ->]; (split; [|right; split; [done|]; eexists; split; [reflexivity|]; split; [done|by eexists]]);
      intros i b Hi; do 8 (destruct i as [|i]; [by vm_compute in Hi |- *|]); done. }
  apply (chain_cons _ _ _ _ 4105 _ _ 1); [done|by split|by split| |split; [done|apply (He 6); auto]|].
  { apply (bytes_at_app _ 4105 [2; 1] [1; 0]), Hb. }
  apply (chain_cons _ _ _ _ 4107 _ _ 0); [done|by split|by split| |split; [done|apply (He 5); auto]|constructor].
  apply (bytes_at_app _ 4105 [2; 1] [1; 0]), Hb.
Qed.

Lemma handler_search_witness :
  ∃ s', check_action_record two_catches (λ _, 0) two_types id 100 1 2 two_frame two_lsda 4105 (Some two_thrown)
          (Search 0 0) = (Ret (Some handler_catch), s') ∧ selector s' = 1 ∧ adjusted s' = 9016.
Proof.
  destruct (handler_search two_catches (λ _, 0) two_types id 100 two_frame two_lsda 4105 _ (Some two_thrown) 2 1
    (Search 0 0) two_chain) as (h & s' & He & Hs).
  - done.
  - repeat constructor.
  - cbn in Hs. destruct Hs as (-> & Hsel & Hadj). exists s'. split; [exact He|]. split; [exact Hsel|].
    specialize (Hadj 1 (Some (Class 5)) two_thrown eq_refl eq_refl). vm_compute in Hadj. by injection Hadj.
Defined.

Lemma two_frame_ok :
  frame two_catches two_types 2 two_frame 4096 two_lsda (Action 1100 4105)
    [Catch 2 (Some (Class 6)); Catch 1 (Some (Class 5))].
Proof. split; [done|by vm_compute|by vm_compute|done|apply two_chain|done]. Qed.

Lemma two_phases_witness :
  ∃ ex1 ex2,
    personality two_catches (λ _, 0) two_types id 100 1 2 1 UA_SEARCH_PHASE 8968 4096 two_frame
      (Some (two_thrown, Cache 0 0 0 0 0)) = (Ret (Some HANDLER_FOUND), ex1)
    ∧ personality two_catches (λ _, 0) two_types id 100 1 2 1 (UA_CLEANUP_PHASE .| UA_HANDLER_FRAME) 8968 4096
        two_frame ex1 = (Ret (Some (INSTALL_CONTEXT 1100 8968 1)), ex2)
    ∧ ∃ h2, ex2 = Some (two_thrown, h2) ∧ adjustedPtr h2 = 9016.
Proof.
  pose proof (two_phases two_catches (λ _, 0) two_types id 100 2 1 two_frame 4096 two_lsda _ _ 8968
    (Some (two_thrown, Cache 0 0 0 0 0)) two_frame_ok ltac:(repeat constructor)) as Hp.
  cbv zeta in Hp. change (find _ _) with (Some (Catch 1 (Some (Class 5)))) in Hp.
  destruct Hp as (ex1 & ex2 & H1 & H2 & H3). exists ex1, ex2. split; [exact H1|]. split; [exact H2|].
  destruct (H3 _ _ eq_refl) as (h2 & He & _ & Ha). exists h2. split; [exact He|].
  specialize (Ha _ _ eq_refl). vm_compute in Ha. by injection Ha.
Defined.

Lemma uncovered_terminates_witness :
  (personality two_catches (λ _, 0) two_types id 100 1 2 1 (UA_CLEANUP_PHASE .| UA_HANDLER_FRAME) 8968 4096
     (Context_ 1000 0 0 1000) (Some (two_thrown, Cache 0 0 0 0 0))).1 = Ret (Some Terminated).
Proof.
  apply (f_equal fst (proj2 (uncovered_terminates two_catches (λ _, 0) two_types id 100 2 1 (Context_ 1000 0 0 1000)
    4096 two_lsda 8968 two_thrown (Cache 0 0 0 0 0) ltac:(done) ltac:(by vm_compute) ltac:(by vm_compute) eq_refl))).
Defined.
