(* ===== verification/Exceptions.v ===== *)
(** * Exceptions: the life of exception objects, [exception.cc] of libcxxrt

    Allocating, throwing, catching, rethrowing, sharing and freeing exceptions, and
    the handlers that end the program.  Every operation is of a thread; the world is
    the memory of all.  An exception is known by the address of its
    [__cxa_exception]; what the unwinder is given and the object lie behind it. *)

From stdpp Require Import gmap gmultiset.
From S2P Require Import Prelude Bits.

(** ** Layout *)

(** [EXCEPTION_CLASS], and the classes the library knows. *)
Definition EXCEPTION_CLASS (bs : list Z) : Z := fold_left (λ acc b, acc * 256 + b) bs 0.
Definition GNUCC : list Z := [0x47; 0x4e; 0x55; 0x43; 0x43; 0x2b; 0x2b].
Definition exception_class : Z := EXCEPTION_CLASS (GNUCC ++ [0]).
Definition dependent_exception_class : Z := EXCEPTION_CLASS (GNUCC ++ [1]).

Definition isCXXException (cls : Z) : bool := (cls =? exception_class) || (cls =? dependent_exception_class).
Definition isDependentException (cls : Z) : bool := cls =? dependent_exception_class.

(** [sizeof(__cxa_exception)], [sizeof(_Unwind_Exception)] and where the second is in
    the first, on a machine of 64 bits. *)
Definition sizeof_exception : Z := 128.
Definition sizeof_unwind : Z := 32.
Definition offsetof_unwindHeader : Z := 96.
Definition offsetof_exceptionType : Z := 8.

Definition exceptionFromPointer (ex : Z) : Z := ex - offsetof_unwindHeader.
Definition object_of (e : Z) : Z := e + sizeof_exception.
Definition header_of (thrown_exception : Z) : Z := thrown_exception - sizeof_exception.

(** [__cxa_exception]; the first word of a dependent exception, which has the same
    layout, is its [primaryException]. *)
Record exn := Exn {
  referenceCount : Z; exceptionType : Z; exceptionDestructor : Z;
  unexpectedHandler : Z; terminateHandler : Z; nextException : Z;
  handlerCount : Z; adjustedPtr : Z; unwind_class : Z }.
Definition primaryException (x : exn) : Z := referenceCount x.

Definition zeroed : exn := Exn 0 0 0 0 0 0 0 0 0.

Definition set_count (n : Z) (x : exn) : exn :=
  Exn n (exceptionType x) (exceptionDestructor x) (unexpectedHandler x) (terminateHandler x)
      (nextException x) (handlerCount x) (adjustedPtr x) (unwind_class x).
Definition set_handlers (u t : Z) (x : exn) : exn :=
  Exn (referenceCount x) (exceptionType x) (exceptionDestructor x) u t
      (nextException x) (handlerCount x) (adjustedPtr x) (unwind_class x).
Definition set_next (n : Z) (x : exn) : exn :=
  Exn (referenceCount x) (exceptionType x) (exceptionDestructor x) (unexpectedHandler x) (terminateHandler x)
      n (handlerCount x) (adjustedPtr x) (unwind_class x).
Definition set_handler_count (n : Z) (x : exn) : exn :=
  Exn (referenceCount x) (exceptionType x) (exceptionDestructor x) (unexpectedHandler x) (terminateHandler x)
      (nextException x) n (adjustedPtr x) (unwind_class x).

(** The word at an offset, of those the model has. *)
Definition word_at (o : Z) (x : exn) : option Z :=
  if o =? 0 then Some (referenceCount x) else if o =? 8 then Some (exceptionType x)
  else if o =? 16 then Some (exceptionDestructor x) else if o =? 24 then Some (unexpectedHandler x)
  else if o =? 32 then Some (terminateHandler x) else if o =? 40 then Some (nextException x)
  else if o =? 80 then Some (adjustedPtr x) else if o =? 96 then Some (unwind_class x)
  else None.

(** ** The world *)

Inductive foreign_state := none | caught | rethrown.

(** [__cxa_thread_info]; the buffers and handlers of a new one are none. *)
Record thread_info := Info {
  i_terminate : Z; i_unexpected : Z; emergencyBuffersHeld : Z;
  foreign_exception_state : foreign_state; caughtExceptions : Z; uncaughtExceptions : Z }.
Definition new_info : thread_info := Info 0 0 0 none 0 0.

Definition set_held (n : Z) (i : thread_info) : thread_info :=
  Info (i_terminate i) (i_unexpected i) n (foreign_exception_state i) (caughtExceptions i) (uncaughtExceptions i).
Definition set_foreign (f : foreign_state) (i : thread_info) : thread_info :=
  Info (i_terminate i) (i_unexpected i) (emergencyBuffersHeld i) f (caughtExceptions i) (uncaughtExceptions i).
Definition set_caught (e : Z) (i : thread_info) : thread_info :=
  Info (i_terminate i) (i_unexpected i) (emergencyBuffersHeld i) (foreign_exception_state i) e (uncaughtExceptions i).
Definition set_uncaught (n : Z) (i : thread_info) : thread_info :=
  Info (i_terminate i) (i_unexpected i) (emergencyBuffersHeld i) (foreign_exception_state i) (caughtExceptions i) n.

(** What other code sees: calls of handlers, destructors and cleanup functions, and
    memory given back. *)
Inductive event :=
  | Called (handler : Z) | Destroyed (destructor obj : Z) | Freed (e : Z) | CleanedUp (ue : Z).

(** The function-local [static]s that hold a thread's information. *)
Record statics := Statics {
  s_terminate : option Z; s_unexpected : option Z; s_set_terminate : option Z; s_set_unexpected : option Z }.

Record world := World {
  heap : gmap Z exn;             (** the exceptions of this library that are not freed *)
  foreign : gmap Z Z;            (** those of others: the class at an [_Unwind_Exception] *)
  infos : gmap Z thread_info;    (** the threads' information, once it is there *)
  buffer_allocated : list bool;
  g_terminate : Z; g_unexpected : Z; thread_local_handlers : bool;
  static_infos : statics;
  log : list event }.

Definition set_heap (h : gmap Z exn) (w : world) : world :=
  World h (foreign w) (infos w) (buffer_allocated w) (g_terminate w) (g_unexpected w)
        (thread_local_handlers w) (static_infos w) (log w).
Definition set_infos (ts : gmap Z thread_info) (w : world) : world :=
  World (heap w) (foreign w) ts (buffer_allocated w) (g_terminate w) (g_unexpected w)
        (thread_local_handlers w) (static_infos w) (log w).
Definition set_buffers (b : list bool) (w : world) : world :=
  World (heap w) (foreign w) (infos w) b (g_terminate w) (g_unexpected w)
        (thread_local_handlers w) (static_infos w) (log w).
Definition set_globals (t u : Z) (w : world) : world :=
  World (heap w) (foreign w) (infos w) (buffer_allocated w) t u
        (thread_local_handlers w) (static_infos w) (log w).
Definition set_use_thread_local_handlers (flag : bool) (w : world) : world :=
  World (heap w) (foreign w) (infos w) (buffer_allocated w) (g_terminate w) (g_unexpected w)
        flag (static_infos w) (log w).
Definition set_statics (s : statics) (w : world) : world :=
  World (heap w) (foreign w) (infos w) (buffer_allocated w) (g_terminate w) (g_unexpected w)
        (thread_local_handlers w) s (log w).
Definition emit (ev : event) : comp world unit := cmodify (λ w,
  World (heap w) (foreign w) (infos w) (buffer_allocated w) (g_terminate w) (g_unexpected w)
        (thread_local_handlers w) (static_infos w) (log w ++ [ev])).

(** A field of an exception that was freed must not be used. *)
Definition header (e : Z) : comp world exn := λ w,
  match heap w !! e with Some x => (Ret x, w) | None => (Undef (if e =? 0 then NullDeref else DanglingReference), w) end.
Definition update (e : Z) (f : exn → exn) : comp world unit :=
  let* x := header e in cmodify (λ w, set_heap (<[e := f x]> (heap w)) w).

(** [thread_info()] makes what is not there yet, with zeros; [thread_info_fast()]
    does not. *)
Definition thread_info_ (t : Z) : comp world thread_info := λ w,
  match infos w !! t with
  | Some i => (Ret i, w)
  | None => (Ret new_info, set_infos (<[t := new_info]> (infos w)) w)
  end.
Definition thread_info_fast (t : Z) : comp world thread_info := λ w,
  match infos w !! t with Some i => (Ret i, w) | None => (Undef NullDeref, w) end.
Definition update_info (t : Z) (f : thread_info → thread_info) : comp world unit :=
  let* i := thread_info_fast t in cmodify (λ w, set_infos (<[t := f i]> (infos w)) w).

(** ** The end of the program *)

(** The value of a [static] that is the information of the thread that came first. *)
Definition static_info (get : statics → option Z) (set : Z → statics → statics) (t : Z) : comp world Z :=
  let* w := cget in
  match get (static_infos w) with
  | Some first => cret first
  | None => thread_info_ t ;;; cmodify (λ w, set_statics (set t (static_infos w)) w) ;;; cret t
  end.

(** A handler does not return: the program ends there, or by [abort]. *)
Definition ended : bytes := str "the program has ended".
Definition call_handler {A} (h : Z) : comp world A := emit (Called h) ;;; cthrow ended.

Definition terminate {A} (t : Z) : comp world A :=
  let* first := static_info s_terminate
    (λ t s, Statics (Some t) (s_unexpected s) (s_set_terminate s) (s_set_unexpected s)) t in
  let* info := thread_info_fast first in
  if negb (i_terminate info =? 0) then call_handler (i_terminate info)
  else let* w := cget in call_handler (g_terminate w).

Definition unexpected {A} (t : Z) : comp world A :=
  let* first := static_info s_unexpected
    (λ t s, Statics (s_terminate s) (Some t) (s_set_terminate s) (s_set_unexpected s)) t in
  let* info := thread_info_fast first in
  if negb (i_unexpected info =? 0) then call_handler (i_unexpected info)
  else let* w := cget in call_handler (g_unexpected w).

(** [pathscale::set_terminate] and [pathscale::set_unexpected]. *)
Definition pathscale_set_terminate (t f : Z) : comp world Z :=
  let* first := static_info s_set_terminate
    (λ t s, Statics (s_terminate s) (s_unexpected s) (Some t) (s_set_unexpected s)) t in
  let* info := thread_info_fast first in
  update_info first (λ i, Info f (i_unexpected i) (emergencyBuffersHeld i) (foreign_exception_state i)
                               (caughtExceptions i) (uncaughtExceptions i)) ;;;
  cret (i_terminate info).
Definition pathscale_set_unexpected (t f : Z) : comp world Z :=
  let* first := static_info s_set_unexpected
    (λ t s, Statics (s_terminate s) (s_unexpected s) (s_set_terminate s) (Some t)) t in
  let* info := thread_info_fast first in
  update_info first (λ i, Info (i_terminate i) f (emergencyBuffersHeld i) (foreign_exception_state i)
                               (caughtExceptions i) (uncaughtExceptions i)) ;;;
  cret (i_unexpected info).

Definition std_set_terminate (t f : Z) : comp world Z :=
  let* w := cget in
  if thread_local_handlers w then pathscale_set_terminate t f
  else cput (set_globals f (g_unexpected w) w) ;;; cret (g_terminate w).
Definition std_set_unexpected (t f : Z) : comp world Z :=
  let* w := cget in
  if thread_local_handlers w then pathscale_set_unexpected t f
  else cput (set_globals (g_terminate w) f w) ;;; cret (g_unexpected w).

Definition get_terminate (t : Z) : comp world Z :=
  let* info := thread_info_ t in
  if negb (i_terminate info =? 0) then cret (i_terminate info) else let* w := cget in cret (g_terminate w).
Definition get_unexpected (t : Z) : comp world Z :=
  let* info := thread_info_ t in
  if negb (i_unexpected info =? 0) then cret (i_unexpected info) else let* w := cget in cret (g_unexpected w).

Section operations.
(** Where [emergency_buffer] is, and whether a destructor throws. *)
Context (emergency_buffer : Z) (throws : Z → Z → bool).

(** ** Memory for exceptions *)

(** What is allocated for an exception: memory, or none yet: the thread sleeps until
    a buffer is given back, and tries again. *)
Inductive allocation := Sleeping | Buffer (p : Z).

(** The first buffer that is not taken. *)
Fixpoint free_buffer (bs : list bool) : option nat :=
  match bs with
  | [] => None
  | b :: bs' => if b then S <$> free_buffer bs' else Some O
  end.

(** [emergency_malloc]: a round of its loop, with what [calloc] gives in it (0 is the
    null pointer).  The tests before the loop do not change while a thread sleeps. *)
Definition emergency_malloc (t size m : Z) : comp world allocation :=
  if 1024 <? size then cret (Buffer 0)
  else
    let* info := thread_info_ t in
    if 3 <? emergencyBuffersHeld info then cret (Buffer 0)
    else if negb (m =? 0) then cret (Buffer m)
    else
      let* w := cget in
      match free_buffer (buffer_allocated w) with
      | None => cret Sleeping
      | Some i =>
          cput (set_buffers (<[i := true]> (buffer_allocated w)) w) ;;;
          update_info t (λ info, set_held (emergencyBuffersHeld info + 1) info) ;;;
          cret (Buffer (emergency_buffer + 1024 * Z.of_nat i))
      end.

(** The loop that looks for the buffer of a pointer. *)
Definition buffer_of (ptr : Z) : Z :=
  match find (λ i, ptr =? emergency_buffer + 1024 * i) (seqZ 0 16) with Some i => i | None => -1 end.

Definition assert_ (b : bool) : comp world unit := if b then cret tt else λ w, (AssertFailed, w).

(** [emergency_malloc_free]; the buffer's bytes become zero again. *)
Definition emergency_malloc_free (ptr : Z) : comp world unit :=
  let buffer := buffer_of ptr in
  assert_ (0 <? buffer) ;;;
  cmodify (λ w, set_buffers (<[Z.to_nat buffer := false]> (buffer_allocated w)) w).

(** [m] and [m'] are what the two calls of [calloc] give. *)
Definition alloc_or_die (t size m m' : Z) : comp world allocation :=
  if negb (m =? 0) then cret (Buffer m)
  else
    let* a := emergency_malloc t size m' in
    match a with
    | Buffer p => if p =? 0 then terminate t else cret (Buffer p)
    | Sleeping => cret Sleeping
    end.

Definition in_emergency_buffer (e : Z) : bool := (emergency_buffer <? e) && (e <? emergency_buffer + 16384).

(** The static buffer itself is not [free]'s. *)
Definition free_exception (e : Z) : comp world unit :=
  (if in_emergency_buffer e then emergency_malloc_free e
   else if e =? emergency_buffer then cundef InvalidFree
   else cret tt) ;;;
  emit (Freed e) ;;;
  cmodify (λ w, set_heap (delete e (heap w)) w).

(** [__cxa_allocate_exception] and [__cxa_allocate_dependent_exception]: the address
    of the object's place. *)
Definition allocate (t size m m' : Z) : comp world allocation :=
  let* a := alloc_or_die t size m m' in
  match a with
  | Buffer p => cmodify (λ w, set_heap (<[p := zeroed]> (heap w)) w) ;;; cret (Buffer (object_of p))
  | Sleeping => cret Sleeping
  end.
Definition cxa_allocate_exception (t thrown_size m m' : Z) : comp world allocation :=
  allocate t (size_wrap (thrown_size + sizeof_exception)) m m'.
Definition cxa_allocate_dependent_exception (t m m' : Z) : comp world allocation :=
  allocate t sizeof_exception m m'.

(** [__cxa_free_exception]. *)
Definition cxa_free_exception (t thrown_exception : Z) : comp world unit :=
  let ex := header_of thrown_exception in
  let* x := header ex in
  (if negb (exceptionDestructor x =? 0) then
     emit (Destroyed (exceptionDestructor x) thrown_exception) ;;;
     (if throws (exceptionDestructor x) thrown_exception then terminate t else cret tt)
   else cret tt) ;;;
  free_exception ex.

Definition realExceptionFromException (ex : Z) : comp world Z :=
  let* x := header ex in
  cret (if isDependentException (unwind_class x) then header_of (primaryException x) else ex).

(** [releaseException] and [__cxa_free_dependent_exception], which call each other;
    each call frees an exception, so that more calls than there are exceptions would
    go on without end. *)
Fixpoint release_fuel (fuel : nat) (t exception : Z) : comp world unit :=
  match fuel with
  | O => cundef StackOverflow
  | S fuel' =>
      let* x := header exception in
      if isDependentException (unwind_class x) then
        (if negb (primaryException x =? 0) then
           let* real := realExceptionFromException exception in release_fuel fuel' t real
         else cret tt) ;;;
        free_exception exception
      else
        let n := wrap 64 (referenceCount x - 1) in
        update exception (set_count n) ;;;
        if n =? 0 then cxa_free_exception t (object_of exception) else cret tt
  end.
Definition releaseException (t exception : Z) : comp world unit := λ w,
  release_fuel (S (size (heap w))) t exception w.

Definition cxa_free_dependent_exception (t thrown_exception : Z) : comp world unit :=
  let ex := header_of thrown_exception in
  let* x := header ex in
  assert_ (isDependentException (unwind_class x)) ;;;
  (if negb (primaryException x =? 0) then
     let* real := realExceptionFromException ex in releaseException t real
   else cret tt) ;;;
  free_exception ex.

(** The cleanup functions this library puts into its exceptions for others; they get
    the address of the [_Unwind_Exception]. *)
Definition exception_cleanup (t ue : Z) : comp world unit := cxa_free_exception t ue.
Definition dependent_exception_cleanup (t ue : Z) : comp world unit := cxa_free_dependent_exception t ue.

(** ** Throwing *)

(** [throw_exception], up to [_Unwind_RaiseException], which is given the result and
    does not come back; [report_failure] is for when it does. *)
Definition throw_exception (t ex : Z) : comp world Z :=
  let* info := thread_info_ t in
  let* w := cget in
  update ex (set_handlers
    (if i_unexpected info =? 0 then g_unexpected w else i_unexpected info)
    (if i_terminate info =? 0 then g_terminate w else i_terminate info)) ;;;
  update_info t (λ i, set_uncaught (wrap 32 (uncaughtExceptions i + 1)) i) ;;;
  cret (ex + offsetof_unwindHeader).

Definition report_failure {A} (t : Z) : comp world A := terminate t.

Definition cxa_throw (t thrown_exception tinfo dest : Z) : comp world Z :=
  let ex := header_of thrown_exception in
  update ex (λ x, Exn 1 tinfo dest (unexpectedHandler x) (terminateHandler x)
                      (nextException x) (handlerCount x) (adjustedPtr x) exception_class) ;;;
  throw_exception t ex.

Definition cxa_increment_exception_refcount (thrown_exception : Z) : comp world unit :=
  if thrown_exception =? 0 then cret tt
  else
    let ex := header_of thrown_exception in
    let* x := header ex in
    if isDependentException (unwind_class x) then cret tt
    else update ex (set_count (wrap 64 (referenceCount x + 1))).

Definition cxa_decrement_exception_refcount (t thrown_exception : Z) : comp world unit :=
  if thrown_exception =? 0 then cret tt else releaseException t (header_of thrown_exception).

(** [__cxa_rethrow_primary_exception].  It takes the object's address for that of the
    [_Unwind_Exception], and so reads the type at another place of the header. *)
Definition cxa_rethrow_primary_exception (t thrown_exception m m' : Z) : comp world allocation :=
  if thrown_exception =? 0 then cret (Buffer 0)
  else
    let original := exceptionFromPointer thrown_exception in
    let* a := cxa_allocate_dependent_exception t m m' in
    match a with
    | Sleeping => cret Sleeping
    | Buffer obj =>
        let ex := header_of obj in
        update ex (set_count thrown_exception) ;;;
        cxa_increment_exception_refcount thrown_exception ;;;
        let* x := header (header_of thrown_exception) in
        match word_at (original + offsetof_exceptionType - header_of thrown_exception) x with
        | None => cundef UninitRead
        | Some type =>
            update ex (λ d, Exn (referenceCount d) type (exceptionDestructor d) (unexpectedHandler d)
                                (terminateHandler d) (nextException d) (handlerCount d) (adjustedPtr d)
                                dependent_exception_class) ;;;
            let* ue := throw_exception t ex in cret (Buffer ue)
        end
    end.

(** The exception that is being handled, shared; 0 is none. *)
Definition cxa_current_primary_exception (t : Z) : comp world Z :=
  let* info := thread_info_ t in
  let ex := caughtExceptions info in
  if ex =? 0 then cret 0
  else
    let* ex := realExceptionFromException ex in
    update ex (λ x, set_count (wrap 64 (referenceCount x + 1)) x) ;;;
    cret (object_of ex).

(** [__cxa_rethrow], up to [_Unwind_Resume_or_Rethrow]. *)
Definition cxa_rethrow (t : Z) : comp world Z :=
  let* ti := thread_info_ t in
  let ex := caughtExceptions ti in
  if ex =? 0 then terminate t
  else
    match foreign_exception_state ti with
    | none =>
        let* x := header ex in
        assert_ (0 <? handlerCount x) ;;;
        update ex (set_handler_count (- handlerCount x)) ;;;
        cret (ex + offsetof_unwindHeader)
    | _ => update_info t (set_foreign rethrown) ;;; cret ex
    end.

(** ** Catching *)

(** The class in an [_Unwind_Exception], of this library or another's. *)
Definition class_of (ue : Z) : comp world Z := λ w,
  match heap w !! exceptionFromPointer ue, foreign w !! ue with
  | Some x, _ => (Ret (unwind_class x), w)
  | None, Some cls => (Ret cls, w)
  | None, None => (Undef DanglingReference, w)
  end.

(** [__cxa_begin_catch]: the address of the object as the handler has it. *)
Definition cxa_begin_catch (t exceptionObject : Z) : comp world Z :=
  thread_info_ t ;;;
  update_info t (λ i, set_uncaught (wrap 32 (uncaughtExceptions i - 1)) i) ;;;
  let* ti := thread_info_fast t in
  let* cls := class_of exceptionObject in
  if isCXXException cls then
    let ex := exceptionFromPointer exceptionObject in
    let* x := header ex in
    (if handlerCount x =? 0 then
       update ex (set_next (caughtExceptions ti)) ;;; update_info t (set_caught ex)
     else cret tt) ;;;
    let n := if handlerCount x <? 0 then - handlerCount x + 1 else handlerCount x + 1 in
    (if INT_MAX <? n then cundef SignedOverflow else update ex (set_handler_count n)) ;;;
    update_info t (set_foreign none) ;;;
    cret (adjustedPtr x)
  else if negb (caughtExceptions ti =? 0) then terminate t
  else
    update_info t (set_caught exceptionObject) ;;;
    update_info t (set_foreign caught) ;;;
    cret (exceptionObject + sizeof_unwind).

(** The cleanup function of an [_Unwind_Exception] another's library made. *)
Definition foreign_cleanup (ue : Z) : comp world unit := λ w,
  match foreign w !! ue with
  | Some _ => (emit (CleanedUp ue) ;;; cmodify (λ w,
      World (heap w) (delete ue (foreign w)) (infos w) (buffer_allocated w) (g_terminate w) (g_unexpected w)
            (thread_local_handlers w) (static_infos w) (log w))) w
  | None => (Undef (if ue =? 0 then NullDeref else DanglingReference), w)
  end.

(** [__cxa_end_catch]. *)
Definition cxa_end_catch (t : Z) : comp world unit :=
  let* ti := thread_info_fast t in
  let ex := caughtExceptions ti in
  assert_ (negb (ex =? 0)) ;;;
  match foreign_exception_state ti with
  | none =>
      let* x := header ex in
      let deleteException := negb (handlerCount x <? 0) in
      let n := if handlerCount x <? 0 then handlerCount x + 1 else handlerCount x - 1 in
      update ex (set_handler_count n) ;;;
      if n =? 0 then
        update_info t (set_caught (nextException x)) ;;;
        if deleteException then releaseException t ex else cret tt
      else cret tt
  | state =>
      update_info t (set_caught 0) ;;;
      (match state with
       | rethrown => cret tt
       | _ => let* ti := thread_info_fast t in foreign_cleanup (caughtExceptions ti)
       end) ;;;
      update_info t (set_foreign none)
  end.

Definition cxa_current_exception_type (t : Z) : comp world Z :=
  let* info := thread_info_ t in
  if caughtExceptions info =? 0 then cret 0
  else let* x := header (caughtExceptions info) in cret (exceptionType x).

Definition cxa_get_exception_ptr (exceptionObject : Z) : comp world Z :=
  let* x := header (exceptionFromPointer exceptionObject) in cret (adjustedPtr x).

Definition uncaught_exception (t : Z) : comp world bool :=
  let* info := thread_info_ t in cret (negb (uncaughtExceptions info =? 0)).

(** [__cxa_call_unexpected]. *)
Definition cxa_call_unexpected {A} (t exceptionObject : Z) : comp world A :=
  let* cls := class_of exceptionObject in
  if cls =? exception_class then
    let* x := header (exceptionFromPointer exceptionObject) in
    if negb (unexpectedHandler x =? 0) then call_handler (unexpectedHandler x) else unexpected t
  else unexpected t.

(** ** The end of a thread *)

Fixpoint free_exception_list (fuel : nat) (t ex : Z) : comp world unit :=
  match fuel with
  | O => cundef StackOverflow
  | S fuel' =>
      let* x := header ex in
      (if negb (nextException x =? 0) then free_exception_list fuel' t (nextException x) else cret tt) ;;;
      cxa_free_exception t (object_of ex)
  end.

(** [thread_cleanup]. *)
Definition thread_cleanup (t : Z) : comp world unit :=
  let* info := thread_info_fast t in
  (if negb (caughtExceptions info =? 0) then
     match foreign_exception_state info with
     | none => λ w, free_exception_list (S (size (heap w))) t (caughtExceptions info) w
     | _ => foreign_cleanup (caughtExceptions info)
     end
   else cret tt) ;;;
  cmodify (λ w, set_infos (delete t (infos w)) w).

End operations.

(** ** Steps of the operations *)

(** What thread [t] has caught last. *)
Definition caught_of (w : world) (t : Z) : Z :=
  match infos w !! t with Some i => caughtExceptions i | None => 0 end.
Definition foreign_of (w : world) (t : Z) : foreign_state :=
  match infos w !! t with Some i => foreign_exception_state i | None => none end.

(** The part of the world that says who owns what, where no thread has caught a
    foreign exception. *)
Definition world_is (w : world) (h : gmap Z exn) (c : Z → Z) : Prop :=
  heap w = h ∧ ∀ t, caught_of w t = c t ∧ foreign_of w t = none.

Definition at_ (c : Z → Z) (t v : Z) : Z → Z := λ t', if t' =? t then v else c t'.

Section steps.
Context (eb : Z) (throws : Z → Z → bool).
Context (w : world) (h : gmap Z exn) (c : Z → Z) (Hw : world_is w h c).

Lemma header_ok e x : h !! e = Some x → header e w = (Ret x, w).
Proof. destruct Hw as [<- _]. intros He. unfold header. by rewrite He. Qed.

Lemma set_heap_is h' : world_is (set_heap h' w) h' c.
Proof. split; [done|]. apply (proj2 Hw). Qed.

Lemma update_ok e f x :
  h !! e = Some x → ∃ w', update e f w = (Ret tt, w') ∧ world_is w' (<[e := f x]> h) c ∧ infos w' = infos w.
Proof.
  intros He. unfold update. rewrite (cbind_ret _ _ _ _ _ (header_ok e x He)). unfold cmodify.
  eexists. split; [reflexivity|]. split; [|done]. destruct Hw as [<- Hc]. split; [done|]. apply Hc.
Qed.

Lemma thread_info_ok t :
  ∃ i w', thread_info_ t w = (Ret i, w') ∧ world_is w' h c ∧ infos w' !! t = Some i ∧ caughtExceptions i = c t
          ∧ foreign_exception_state i = none.
Proof.
  destruct Hw as [Hh Hc]. unfold thread_info_. destruct (infos w !! t) as [i|] eqn:Hi.
  - exists i, w. pose proof (Hc t) as Ht. unfold caught_of, foreign_of in Ht. by rewrite Hi in Ht.
  - exists new_info. eexists. split; [reflexivity|]. pose proof (Hc t) as Ht. unfold caught_of, foreign_of in Ht.
    rewrite Hi in Ht. split; [|cbn; rewrite lookup_insert_eq; by destruct Ht].
    split; [done|]. intros t'. unfold caught_of, foreign_of. cbn. specialize (Hc t').
    unfold caught_of, foreign_of in Hc. destruct (decide (t' = t)) as [->|].
    + rewrite lookup_insert_eq. cbn. by destruct Ht.
    + by rewrite lookup_insert_ne.
Qed.

Lemma update_info_ok t f i :
  infos w !! t = Some i → foreign_exception_state (f i) = none →
  ∃ w', update_info t f w = (Ret tt, w') ∧ world_is w' h (at_ c t (caughtExceptions (f i))) ∧ infos w' !! t = Some (f i).
Proof.
  intros Hi Hf. unfold update_info, thread_info_fast, cbind, cmodify. rewrite Hi. eexists. split; [reflexivity|].
  destruct Hw as [Hh Hc]. split; [|cbn; by rewrite lookup_insert_eq]. split; [done|]. intros t'.
  unfold caught_of, foreign_of, at_. cbn. destruct (Z.eqb_spec t' t) as [->|].
  - by rewrite lookup_insert_eq.
  - rewrite lookup_insert_ne by done. apply Hc.
Qed.
End steps.

Lemma world_is_ext w h c c' : (∀ t, c t = c' t) → world_is w h c → world_is w h c'.
Proof. intros He [Hh Hc]. split; [done|]. intros t. rewrite <- He. apply Hc. Qed.

Lemma at_same c t : ∀ t', at_ c t (c t) t' = c t'.
Proof. intros t'. unfold at_. by destruct (Z.eqb_spec t' t) as [->|]. Qed.

(** [object_of] and [header_of] are inverse; the [_Unwind_Exception] too. *)
Lemma header_of_object e : header_of (object_of e) = e.
Proof. unfold header_of, object_of. lia. Qed.
Lemma exception_from_unwind e : exceptionFromPointer (e + offsetof_unwindHeader) = e.
Proof. unfold exceptionFromPointer. lia. Qed.

Section operations_ok.
Context (eb : Z) (throws : Z → Z → bool).
Hypothesis no_throw : ∀ d o, throws d o = false.

Lemma throw_exception_ok w h c t e x :
  world_is w h c → h !! e = Some x →
  ∃ u te w', throw_exception t e w = (Ret (e + offsetof_unwindHeader), w')
    ∧ world_is w' (<[e := set_handlers u te x]> h) c.
Proof.
  intros Hw He. unfold throw_exception. destruct (thread_info_ok w h c Hw t) as (i & w1 & H1 & Hw1 & Hi1 & Hc1 & Hf1).
  rewrite (cbind_ret _ _ _ _ _ H1). unfold cbind at 1, cget.
  set (u := if i_unexpected i =? 0 then g_unexpected w1 else i_unexpected i).
  set (te := if i_terminate i =? 0 then g_terminate w1 else i_terminate i). exists u, te.
  destruct (update_ok w1 h c Hw1 e (set_handlers u te) x He) as (w2 & H2 & Hw2 & Hi2).
  rewrite (cbind_ret _ _ _ _ _ H2). rewrite <- Hi2 in Hi1.
  destruct (update_info_ok w2 _ c Hw2 t (λ i, set_uncaught (wrap 32 (uncaughtExceptions i + 1)) i) i Hi1 Hf1)
    as (w3 & H3 & Hw3 & _).
  rewrite (cbind_ret _ _ _ _ _ H3). exists w3. split; [done|].
  apply (world_is_ext _ _ _ _ (at_same c t)). cbn in Hw3. by rewrite Hc1 in Hw3.
Qed.

Lemma allocate_ok w h c t sz m m' :
  world_is w h c → m ≠ 0 →
  ∃ w', allocate eb t sz m m' w = (Ret (Buffer (object_of m)), w') ∧ world_is w' (<[m := zeroed]> h) c.
Proof.
  intros [<- Hc] Hm. unfold allocate, alloc_or_die. destruct (Z.eqb_spec m 0); [done|].
  eexists. split; [reflexivity|]. split; [done|]. apply Hc.
Qed.

(** Memory that [calloc] gave. *)
Definition from_calloc (e : Z) : Prop := in_emergency_buffer eb e = false ∧ e ≠ eb.

Lemma free_exception_ok w h c e :
  world_is w h c → from_calloc e →
  ∃ w', free_exception eb e w = (Ret tt, w') ∧ world_is w' (delete e h) c.
Proof.
  intros [<- Hc] [Hin Hne]. unfold free_exception. rewrite Hin. destruct (Z.eqb_spec e eb); [done|].
  eexists. split; [reflexivity|]. split; [done|]. apply Hc.
Qed.

Lemma cxa_free_ok w h c t e x :
  world_is w h c → from_calloc e → h !! e = Some x →
  ∃ w', cxa_free_exception eb throws t (object_of e) w = (Ret tt, w') ∧ world_is w' (delete e h) c.
Proof.
  intros Hw Hf He. unfold cxa_free_exception. rewrite header_of_object.
  rewrite (cbind_ret _ _ _ _ _ (header_ok w h c Hw e x He)). destruct (exceptionDestructor x =? 0); cbn [negb].
  - by apply free_exception_ok.
  - unfold cbind at 2, emit, cmodify. rewrite no_throw. apply free_exception_ok; [|done].
    destruct Hw as [Hh Hc]. split; [done|apply Hc].
Qed.

(** An exception with an owner fewer. *)
Definition release_heap (e : Z) (x : exn) (h : gmap Z exn) : gmap Z exn :=
  let n := wrap 64 (referenceCount x - 1) in
  if n =? 0 then delete e h else <[e := set_count n x]> h.

Lemma release_primary_ok w h c t e x n :
  world_is w h c → from_calloc e → h !! e = Some x → isDependentException (unwind_class x) = false →
  ∃ w', release_fuel eb throws (S n) t e w = (Ret tt, w') ∧ world_is w' (release_heap e x h) c.
Proof.
  intros Hw Hf He Hd. cbn [release_fuel]. rewrite (cbind_ret _ _ _ _ _ (header_ok w h c Hw e x He)), Hd.
  destruct (update_ok w h c Hw e (set_count (wrap 64 (referenceCount x - 1))) x He) as (w1 & H1 & Hw1 & _).
  rewrite (cbind_ret _ _ _ _ _ H1). unfold release_heap.
  destruct (wrap 64 (referenceCount x - 1) =? 0); [|by eexists].
  destruct (cxa_free_ok w1 _ c t e _ Hw1 Hf (lookup_insert_eq _ _ _)) as (w2 & H2 & Hw2).
  exists w2. split; [exact H2|]. by rewrite delete_insert_eq in Hw2.
Qed.

Lemma release_dependent_ok w h c t d e x y n :
  world_is w h c → from_calloc d → from_calloc e → 0 < e → h !! d = Some x → h !! e = Some y →
  isDependentException (unwind_class x) = true → isDependentException (unwind_class y) = false →
  primaryException x = object_of e →
  ∃ w', release_fuel eb throws (S (S n)) t d w = (Ret tt, w') ∧ world_is w' (delete d (release_heap e y h)) c.
Proof.
  intros Hw Hfd Hfe Hpos Hd He Hdep Hprim Hp. cbn [release_fuel].
  rewrite (cbind_ret _ _ _ _ _ (header_ok w h c Hw d x Hd)), Hdep, Hp.
  destruct (Z.eqb_spec (object_of e) 0) as [Hz|_]; [unfold object_of, sizeof_exception in Hz; lia|]. cbn [negb].
  destruct (release_primary_ok w h c t e y n Hw Hfe He Hprim) as (w1 & H1 & Hw1).
  destruct (free_exception_ok w1 _ c d Hw1 Hfd) as (w2 & H2 & Hw2). exists w2. split; [|exact Hw2].
  rewrite (cbind_ret _ _ w tt w1); [exact H2|]. unfold realExceptionFromException.
  rewrite (cbind_ret _ _ w e w); [exact H1|].
  rewrite (cbind_ret _ _ _ _ _ (header_ok w h c Hw d x Hd)), Hdep, Hp. unfold cret. by rewrite header_of_object.
Qed.

Lemma size_pos (h : gmap Z exn) e x : h !! e = Some x → ∃ n, size h = S n.
Proof.
  intros He. destruct (size h) eqn:Hs; [|by eexists].
  apply map_size_empty_inv in Hs. by rewrite Hs, lookup_empty in He.
Qed.

Lemma releaseException_ok w h c t e x :
  world_is w h c → from_calloc e → h !! e = Some x →
  (if isDependentException (unwind_class x) then
     ∃ p y, primaryException x = object_of p ∧ 0 < p ∧ from_calloc p ∧ h !! p = Some y
            ∧ isDependentException (unwind_class y) = false
   else True) →
  ∃ w', releaseException eb throws t e w = (Ret tt, w')
    ∧ world_is w' (if isDependentException (unwind_class x) then
        let p := header_of (primaryException x) in
        delete e (release_heap p (default zeroed (h !! p)) h)
      else release_heap e x h) c.
Proof.
  intros Hw Hf He Hdep. unfold releaseException. destruct (isDependentException (unwind_class x)) eqn:Hd.
  - destruct Hdep as (p & y & Hp & Hpos & Hfp & Hy & Hprim). rewrite (proj1 Hw).
    destruct (size_pos h e x He) as [n ->]. cbv zeta. rewrite Hp, header_of_object, Hy. cbn [default].
    by apply (release_dependent_ok w h c t e p x y n).
  - by apply release_primary_ok.
Qed.

Lemma cxa_throw_ok w h c t e ti dest x :
  world_is w h c → h !! e = Some x →
  ∃ u te w', cxa_throw t (object_of e) ti dest w = (Ret (e + offsetof_unwindHeader), w')
    ∧ world_is w' (<[e := Exn 1 ti dest u te (nextException x) (handlerCount x) (adjustedPtr x) exception_class]> h) c.
Proof.
  intros Hw He. unfold cxa_throw. rewrite header_of_object.
  match goal with |- context [update e ?f] => destruct (update_ok w h c Hw e f x He) as (w1 & H1 & Hw1 & _) end.
  destruct (throw_exception_ok w1 _ c t e _ Hw1 (lookup_insert_eq _ _ _)) as (u & te & w2 & H2 & Hw2).
  exists u, te, w2. rewrite (cbind_ret _ _ _ _ _ H1). split; [exact H2|].
  by rewrite insert_insert_eq in Hw2.
Qed.

Lemma increment_ok w h c e x :
  world_is w h c → 0 < e → h !! e = Some x → isDependentException (unwind_class x) = false →
  ∃ w', cxa_increment_exception_refcount (object_of e) w = (Ret tt, w')
    ∧ world_is w' (<[e := set_count (wrap 64 (referenceCount x + 1)) x]> h) c.
Proof.
  intros Hw Hpos He Hd. unfold cxa_increment_exception_refcount.
  destruct (Z.eqb_spec (object_of e) 0) as [Hz|_]; [unfold object_of, sizeof_exception in Hz; lia|].
  rewrite header_of_object, (cbind_ret _ _ _ _ _ (header_ok w h c Hw e x He)), Hd.
  destruct (update_ok w h c Hw e (set_count (wrap 64 (referenceCount x + 1))) x He) as (w1 & H1 & Hw1 & _).
  by exists w1.
Qed.

Lemma real_ok w h c e x :
  world_is w h c → h !! e = Some x →
  realExceptionFromException e w
  = (Ret (if isDependentException (unwind_class x) then header_of (primaryException x) else e), w).
Proof. intros Hw He. unfold realExceptionFromException. by rewrite (cbind_ret _ _ _ _ _ (header_ok w h c Hw e x He)). Qed.

Lemma current_ok w h c t e x y :
  world_is w h c → c t = e → e ≠ 0 → h !! e = Some x →
  let p := if isDependentException (unwind_class x) then header_of (primaryException x) else e in
  h !! p = Some y →
  ∃ w', cxa_current_primary_exception t w = (Ret (object_of p), w')
    ∧ world_is w' (<[p := set_count (wrap 64 (referenceCount y + 1)) y]> h) c.
Proof.
  intros Hw Hc Hne He p Hp. unfold cxa_current_primary_exception.
  destruct (thread_info_ok w h c Hw t) as (i & w1 & H1 & Hw1 & _ & Hc1 & _).
  rewrite (cbind_ret _ _ _ _ _ H1), Hc1, Hc. destruct (Z.eqb_spec e 0); [done|].
  rewrite (cbind_ret _ _ _ _ _ (real_ok w1 h c e x Hw1 He)). fold p.
  match goal with |- context [update p ?f] => destruct (update_ok w1 h c Hw1 p f y Hp) as (w2 & H2 & Hw2 & _) end.
  rewrite (cbind_ret _ _ _ _ _ H2). by exists w2.
Qed.

Lemma current_none w h c t :
  world_is w h c → c t = 0 →
  ∃ w', cxa_current_primary_exception t w = (Ret 0, w') ∧ world_is w' h c.
Proof.
  intros Hw Hc. unfold cxa_current_primary_exception.
  destruct (thread_info_ok w h c Hw t) as (i & w1 & H1 & Hw1 & _ & Hc1 & _).
  rewrite (cbind_ret _ _ _ _ _ H1), Hc1, Hc. by exists w1.
Qed.

Lemma rethrow_ok w h c t e x :
  world_is w h c → c t = e → e ≠ 0 → h !! e = Some x → 0 < handlerCount x →
  ∃ w', cxa_rethrow t w = (Ret (e + offsetof_unwindHeader), w')
    ∧ world_is w' (<[e := set_handler_count (- handlerCount x) x]> h) c.
Proof.
  intros Hw Hc Hne He Hpos. unfold cxa_rethrow.
  destruct (thread_info_ok w h c Hw t) as (i & w1 & H1 & Hw1 & _ & Hc1 & Hf).
  rewrite (cbind_ret _ _ _ _ _ H1), Hc1, Hc, Hf. destruct (Z.eqb_spec e 0); [done|].
  rewrite (cbind_ret _ _ _ _ _ (header_ok w1 h c Hw1 e x He)). destruct (Z.ltb_spec 0 (handlerCount x)); [|lia].
  destruct (update_ok w1 h c Hw1 e (set_handler_count (- handlerCount x)) x He) as (w2 & H2 & Hw2 & _).
  exists w2. split; [|done]. unfold cbind at 1, assert_, cret. by rewrite (cbind_ret _ _ _ _ _ H2).
Qed.

(** The count of handlers when one more catches. *)
Definition caught_again (n : Z) : Z := if n <? 0 then - n + 1 else n + 1.

Lemma begin_catch_ok w h c t e x :
  world_is w h c → h !! e = Some x → isCXXException (unwind_class x) = true →
  caught_again (handlerCount x) ≤ INT_MAX →
  ∃ w', cxa_begin_catch t (e + offsetof_unwindHeader) w = (Ret (adjustedPtr x), w')
    ∧ if handlerCount x =? 0 then world_is w' (<[e := set_handler_count 1 (set_next (c t) x)]> h) (at_ c t e)
      else world_is w' (<[e := set_handler_count (caught_again (handlerCount x)) x]> h) c.
Proof.
  intros Hw He Hcxx Hmax. unfold cxa_begin_catch.
  destruct (thread_info_ok w h c Hw t) as (i & w1 & H1 & Hw1 & Hi1 & Hc1 & Hf1).
  rewrite (cbind_ret _ _ _ _ _ H1).
  destruct (update_info_ok w1 h c Hw1 t (λ i, set_uncaught (wrap 32 (uncaughtExceptions i - 1)) i) i Hi1 Hf1)
    as (w2 & H2 & Hw2 & Hi2).
  rewrite (cbind_ret _ _ _ _ _ H2). cbn in Hw2. rewrite Hc1 in Hw2.
  apply (world_is_ext _ _ _ _ (at_same c t)) in Hw2.
  set (i2 := set_uncaught (wrap 32 (uncaughtExceptions i - 1)) i) in *.
  rewrite (cbind_ret _ _ w2 i2 w2) by (unfold thread_info_fast; by rewrite Hi2).
  assert (caughtExceptions i2 = c t) as -> by (by cbn).
  rewrite (cbind_ret _ _ w2 (unwind_class x) w2)
    by (unfold class_of; rewrite exception_from_unwind, (proj1 Hw2), He; done).
  rewrite Hcxx, exception_from_unwind, (cbind_ret _ _ _ _ _ (header_ok w2 h c Hw2 e x He)).
  unfold caught_again in *.
  assert (Hlast : ∀ w3 h3 c3 y i3, world_is w3 h3 c3 → h3 !! e = Some y → infos w3 !! t = Some i3 →
    foreign_exception_state i3 = none → c3 t = caughtExceptions i3 →
    ∃ w', ((if INT_MAX <? (if handlerCount x <? 0 then - handlerCount x + 1 else handlerCount x + 1)
            then cundef SignedOverflow
            else update e (set_handler_count (if handlerCount x <? 0 then - handlerCount x + 1 else handlerCount x + 1)))
           ;;; update_info t (set_foreign none) ;;; cret (adjustedPtr x)) w3 = (Ret (adjustedPtr x), w')
      ∧ world_is w' (<[e := set_handler_count (if handlerCount x <? 0 then - handlerCount x + 1 else handlerCount x + 1) y]> h3) c3).
  { intros w3 h3 c3 y i3 Hw3 Hy Hi3 Hf3 Hc3.
    destruct (Z.ltb_spec INT_MAX (if handlerCount x <? 0 then - handlerCount x + 1 else handlerCount x + 1)); [lia|].
    match goal with |- context [update e ?f] => destruct (update_ok w3 h3 c3 Hw3 e f y Hy) as (w4 & H4 & Hw4 & Hi4) end.
    rewrite (cbind_ret _ _ _ _ _ H4). rewrite <- Hi4 in Hi3.
    destruct (update_info_ok w4 _ c3 Hw4 t (set_foreign none) i3 Hi3 eq_refl) as (w5 & H5 & Hw5 & _).
    rewrite (cbind_ret _ _ _ _ _ H5). exists w5. split; [done|].
    cbn in Hw5. rewrite <- Hc3 in Hw5. by apply (world_is_ext _ _ _ _ (at_same c3 t)) in Hw5. }
  destruct (Z.eqb_spec (handlerCount x) 0) as [Hz|Hz].
  - destruct (update_ok w2 h c Hw2 e (set_next (c t)) x He) as (w3 & H3 & Hw3 & Hi3).
    rewrite <- Hi3 in Hi2.
    destruct (update_info_ok w3 _ c Hw3 t (set_caught e) i2 Hi2 Hf1) as (w4 & H4 & Hw4 & Hi4).
    rewrite (cbind_ret _ _ w2 tt w4) by (by rewrite (cbind_ret _ _ _ _ _ H3)).
    destruct (Hlast w4 _ _ _ _ Hw4 (lookup_insert_eq _ _ _) Hi4 Hf1) as (w5 & H5 & Hw5).
    { unfold at_. cbn. by rewrite Z.eqb_refl. }
    exists w5. split; [exact H5|]. rewrite insert_insert_eq, Hz in Hw5. exact Hw5.
  - rewrite (cbind_ret _ _ w2 tt w2) by done. by apply (Hlast w2 h c x i2).
Qed.

Lemma end_catch_ok w h c t e x :
  world_is w h c → c t = e → e ≠ 0 → h !! e = Some x → from_calloc e →
  (if isDependentException (unwind_class x) then
     ∃ p y, primaryException x = object_of p ∧ 0 < p ∧ p ≠ e ∧ from_calloc p ∧ h !! p = Some y
            ∧ isDependentException (unwind_class y) = false
   else True) →
  ∃ w', cxa_end_catch eb throws t w = (Ret tt, w')
    ∧ (if handlerCount x =? 1 then
         world_is w' (if isDependentException (unwind_class x) then
             let p := header_of (primaryException x) in
             delete e (release_heap p (default zeroed (h !! p)) h)
           else release_heap e (set_handler_count 0 x) h) (at_ c t (nextException x))
       else if handlerCount x =? -1 then
         world_is w' (<[e := set_handler_count 0 x]> h) (at_ c t (nextException x))
       else world_is w' (<[e := set_handler_count (if handlerCount x <? 0 then handlerCount x + 1 else handlerCount x - 1) x]> h) c).
Proof.
  intros Hw Hc Hne He Hf Hdep. unfold cxa_end_catch.
  assert (Hi : ∃ i, infos w !! t = Some i ∧ caughtExceptions i = e ∧ foreign_exception_state i = none).
  { destruct Hw as [_ Hv]. specialize (Hv t). unfold caught_of, foreign_of in Hv.
    destruct (infos w !! t) as [i|]; [exists i; destruct Hv; by rewrite <- Hc|]. destruct Hv. congruence. }
  destruct Hi as (i & Hi & Hce & Hfs).
  rewrite (cbind_ret _ _ w i w) by (unfold thread_info_fast; by rewrite Hi). rewrite Hce, Hfs.
  destruct (Z.eqb_spec e 0); [done|]. cbn [negb assert_]. unfold cbind at 1, cret at 1.
  rewrite (cbind_ret _ _ _ _ _ (header_ok w h c Hw e x He)).
  set (k := if handlerCount x <? 0 then handlerCount x + 1 else handlerCount x - 1).
  destruct (update_ok w h c Hw e (set_handler_count k) x He) as (w1 & H1 & Hw1 & Hi1).
  rewrite (cbind_ret _ _ _ _ _ H1). rewrite <- Hi1 in Hi.
  destruct (update_info_ok w1 _ c Hw1 t (set_caught (nextException x)) i Hi Hfs) as (w2 & H2 & Hw2 & _).
  cbn in Hw2.
  destruct (Z.eqb_spec (handlerCount x) 1) as [H1c|H1c]; [|destruct (Z.eqb_spec (handlerCount x) (-1)) as [H2c|H2c]].
  - unfold k in *. rewrite H1c in *. cbn [Z.ltb Z.compare] in *. change (1 - 1) with 0 in *. cbn [Z.eqb negb] in *.
    rewrite (cbind_ret _ _ _ _ _ H2).
    set (h2 := <[e:=set_handler_count 0 x]> h) in *.
    destruct (releaseException_ok w2 h2 _ t e (set_handler_count 0 x) Hw2 Hf (lookup_insert_eq _ _ _)) as (w3 & H3 & Hw3).
    { cbn. destruct (isDependentException (unwind_class x)); [|done].
      destruct Hdep as (p & y & ? & ? & ? & ? & ? & ?). exists p, y. do 3 (split; [done|]).
      unfold h2. by rewrite lookup_insert_ne by done. }
    exists w3. split; [exact H3|]. cbn [unwind_class set_handler_count] in Hw3.
    destruct (isDependentException (unwind_class x)).
    + destruct Hdep as (p & y & Hp & ? & Hpe & ? & Hy & ?). cbv zeta in *. unfold primaryException in *.
      cbn [referenceCount set_handler_count] in Hw3. rewrite Hp, header_of_object in *. unfold h2 in Hw3.
      rewrite lookup_insert_ne, Hy in Hw3 by done. rewrite Hy. change (default zeroed (Some y)) with y in *.
      assert (delete e (release_heap p y (<[e:=set_handler_count 0 x]> h)) = delete e (release_heap p y h)) as <-; [|done].
      unfold release_heap. destruct (_ =? 0).
      * by rewrite !(delete_delete _ e p), delete_insert_eq.
      * rewrite (delete_insert_ne h), delete_insert_ne, delete_insert_eq by congruence. done.
    + unfold release_heap in *. unfold h2 in Hw3.
      destruct (_ =? 0); [by rewrite delete_insert_eq in Hw3|by rewrite insert_insert_eq in Hw3].
  - unfold k in *. rewrite H2c in *. cbn [Z.ltb Z.compare] in *. change (-1 + 1) with 0 in *. cbn [Z.eqb negb] in *.
    rewrite (cbind_ret _ _ _ _ _ H2). by exists w2.
  - assert (k ≠ 0) by (unfold k; destruct (Z.ltb_spec (handlerCount x) 0); lia).
    destruct (Z.eqb_spec k 0); [done|]. by exists w1.
Qed.

Lemma rethrow_primary_ok w h c t p y m m' :
  world_is w h c → 0 < p → h !! p = Some y → isDependentException (unwind_class y) = false → m ≠ 0 → h !! m = None →
  ∃ u te w', cxa_rethrow_primary_exception eb t (object_of p) m m' w = (Ret (Buffer (m + offsetof_unwindHeader)), w')
    ∧ world_is w' (<[m := Exn (object_of p) (nextException y) 0 u te 0 0 0 dependent_exception_class]>
                     (<[p := set_count (wrap 64 (referenceCount y + 1)) y]> h)) c.
Proof.
  intros Hw Hpos Hy Hd Hm Hfresh. unfold cxa_rethrow_primary_exception.
  destruct (Z.eqb_spec (object_of p) 0) as [Hz|_]; [unfold object_of, sizeof_exception in Hz; lia|].
  assert (Hmp : m ≠ p) by (intros ->; congruence).
  destruct (allocate_ok w h c t sizeof_exception m m' Hw Hm) as (w1 & H1 & Hw1).
  unfold cxa_allocate_dependent_exception. rewrite (cbind_ret _ _ _ _ _ H1), header_of_object.
  destruct (update_ok w1 _ c Hw1 m (set_count (object_of p)) zeroed (lookup_insert_eq _ _ _)) as (w2 & H2 & Hw2 & _).
  rewrite (cbind_ret _ _ _ _ _ H2). rewrite insert_insert_eq in Hw2.
  destruct (increment_ok w2 _ c p y Hw2 Hpos) as (w3 & H3 & Hw3); [by rewrite lookup_insert_ne|done|].
  rewrite (cbind_ret _ _ _ _ _ H3), header_of_object.
  rewrite (cbind_ret _ _ _ _ _ (header_ok w3 _ c Hw3 p _ (lookup_insert_eq _ _ _))).
  assert (exceptionFromPointer (object_of p) + offsetof_exceptionType - p = 40) as ->
    by (unfold exceptionFromPointer, object_of, offsetof_unwindHeader, offsetof_exceptionType, sizeof_exception; lia).
  cbn [word_at Z.eqb Pos.eqb nextException set_count].
  set (y' := set_count (wrap 64 (referenceCount y + 1)) y) in *.
  match goal with |- context [update m ?f] =>
    destruct (update_ok w3 _ c Hw3 m f (set_count (object_of p) zeroed)) as (w4 & H4 & Hw4 & _);
      [by rewrite lookup_insert_ne, lookup_insert_eq by congruence|] end.
  rewrite (cbind_ret _ _ _ _ _ H4).
  destruct (throw_exception_ok w4 _ c t m _ Hw4 (lookup_insert_eq _ _ _)) as (u & te & w5 & H5 & Hw5).
  exists u, te, w5. rewrite (cbind_ret _ _ _ _ _ H5). split; [done|].
  rewrite insert_insert_eq in Hw5. rewrite (insert_insert_ne h) in Hw5 by congruence.
  rewrite insert_insert_eq in Hw5. exact Hw5.
Qed.
End operations_ok.

(** ** Who owns an exception *)

(** What the program holds: exceptions it has memory for but has not thrown, the
    threads that have an exception in flight or caught, the exceptions in flight, what
    each thread has caught, the last first, and the [exception_ptr]s. *)
Record ghost := Ghost {
  building : gset Z; owner : gmap Z Z; flying : gset Z; stack : Z → list Z; handles : gmultiset Z }.

Definition is_primary (x : exn) : Prop := unwind_class x = exception_class.
Definition is_dependent (x : exn) : Prop := unwind_class x = dependent_exception_class.
#[local] Instance is_primary_dec x : Decision (is_primary x) := decide (unwind_class x = exception_class).

Definition shares_of (e : Z) (x : exn) : Prop :=
  unwind_class x = dependent_exception_class ∧ primaryException x = object_of e.
#[local] Instance shares_of_dec e x : Decision (shares_of e x) :=
  decide (unwind_class x = dependent_exception_class ∧ primaryException x = object_of e).

(** The dependent exceptions of a primary one. *)
Definition shares (e : Z) (h : gmap Z exn) : Z := Z.of_nat (size (filter (λ p : Z * exn, shares_of e p.2) h)).

Definition owns (b : bool) : Z := if b then 1 else 0.

(** The owners: a thread, the pointers, the dependent exceptions. *)
Definition owners (h : gmap Z exn) (O : gmap Z Z) (H : gmultiset Z) (e : Z) : Z :=
  owns (bool_decide (is_Some (O !! e))) + Z.of_nat (multiplicity e H) + shares e h.

(** A list of exceptions from a pointer on. *)
Fixpoint linked (h : gmap Z exn) (p : Z) (l : list Z) : Prop :=
  match l with
  | [] => p = 0
  | e :: l' => p = e ∧ ∃ x, h !! e = Some x ∧ linked h (nextException x) l'
  end.

(** The memory: every exception has an owner, and as many as its count says. *)
Record inv_mem (eb : Z) (h : gmap Z exn) (B : gset Z) (O : gmap Z Z) (H : gmultiset Z) : Prop := {
  inv_addr : ∀ e x, h !! e = Some x → 0 < e ∧ from_calloc eb e;
  inv_class : ∀ e x, h !! e = Some x → e ∈ B ∨ is_primary x ∨ is_dependent x;
  inv_building : ∀ e, e ∈ B → h !! e = Some zeroed ∧ O !! e = None;
  inv_count : ∀ e x, h !! e = Some x → is_primary x →
    referenceCount x = owners h O H e ∧ 0 < referenceCount x < 2 ^ 64;
  inv_dependent : ∀ d x, h !! d = Some x → is_dependent x →
    is_Some (O !! d) ∧ ∃ e y, primaryException x = object_of e ∧ h !! e = Some y ∧ is_primary y;
  inv_handle : ∀ e, e ∈ H → ∃ y, h !! e = Some y ∧ is_primary y }.

(** The threads: an exception is in flight or caught, or both when it is thrown again;
    its count of handlers is then negative. *)
Record inv_use (h : gmap Z exn) (c : Z → Z) (O : gmap Z Z) (F : gset Z) (S : Z → list Z) : Prop := {
  inv_owner : ∀ e t, O !! e = Some t → ∃ x, h !! e = Some x ∧ (is_primary x ∨ is_dependent x)
    ∧ ((e ∈ S t ∧ handlerCount x ≠ 0 ∧ (handlerCount x < 0 ↔ e ∈ F))
       ∨ (e ∉ S t ∧ handlerCount x = 0 ∧ e ∈ F));
  inv_flying : ∀ e, e ∈ F → is_Some (O !! e);
  inv_stack : ∀ t e, e ∈ S t → O !! e = Some t;
  inv_nodup : ∀ t, NoDup (S t);
  inv_linked : ∀ t, linked h (c t) (S t) }.

Definition inv (eb : Z) (h : gmap Z exn) (c : Z → Z) (g : ghost) : Prop :=
  inv_mem eb h (building g) (owner g) (handles g) ∧ inv_use h c (owner g) (flying g) (stack g).

(** *** Lemmas *)

Lemma shares_insert_fresh e h d x :
  h !! d = None → shares e (<[d := x]> h) = owns (bool_decide (shares_of e x)) + shares e h.
Proof.
  intros Hd. unfold shares, owns. case_bool_decide.
  - rewrite map_filter_insert_True by done. rewrite map_size_insert_None; [lia|].
    apply map_lookup_filter_None. by left.
  - rewrite map_filter_insert_False by done. by rewrite delete_id.
Qed.

Lemma shares_delete e h d x :
  h !! d = Some x → shares e h = owns (bool_decide (shares_of e x)) + shares e (delete d h).
Proof.
  intros Hd. rewrite <- (insert_delete_id h d x Hd) at 1. apply shares_insert_fresh. apply lookup_delete_eq.
Qed.

Lemma shares_update e h d x y :
  h !! d = Some x → (shares_of e x ↔ shares_of e y) → shares e (<[d := y]> h) = shares e h.
Proof.
  intros Hd Hs. rewrite <- insert_delete_eq, shares_insert_fresh by apply lookup_delete_eq.
  rewrite (shares_delete e h d x Hd). do 2 f_equal. by apply bool_decide_ext.
Qed.

Lemma shares_nonneg e h : 0 ≤ shares e h.
Proof. unfold shares. lia. Qed.

Lemma object_of_inj e e' : object_of e = object_of e' → e = e'.
Proof. unfold object_of. lia. Qed.

Lemma linked_ext h h' p l :
  (∀ e x, e ∈ l → h !! e = Some x → ∃ y, h' !! e = Some y ∧ nextException y = nextException x) →
  linked h p l → linked h' p l.
Proof.
  revert p. induction l as [|e l IH]; intros p Hx; cbn [linked]; [done|]. intros (-> & x & He & Hl).
  split; [done|]. destruct (Hx e x) as (y & Hy & Hn); [by left|done|]. exists y. split; [done|]. rewrite Hn.
  apply IH; [|done]. intros e' x' Hin. apply Hx. by right.
Qed.

Lemma linked_update h e x y p l :
  h !! e = Some x → nextException y = nextException x → linked h p l → linked (<[e := y]> h) p l.
Proof.
  intros He Hn. apply linked_ext. intros e' x' _ He'. destruct (decide (e' = e)) as [->|].
  - exists y. rewrite lookup_insert_eq. split; [done|]. congruence.
  - exists x'. by rewrite lookup_insert_ne.
Qed.

Lemma linked_other h h' p l :
  (∀ e, e ∈ l → h' !! e = h !! e) → linked h p l → linked h' p l.
Proof. intros Hx. apply linked_ext. intros e x Hin He. exists x. by rewrite Hx. Qed.

(** Primary and dependent are different classes. *)
Lemma not_both x : is_primary x → is_dependent x → False.
Proof. unfold is_primary, is_dependent. intros ->. by vm_compute. Qed.

Lemma primary_flag x : is_primary x → isDependentException (unwind_class x) = false.
Proof. by intros ->. Qed.
Lemma dependent_flag x : is_dependent x → isDependentException (unwind_class x) = true.
Proof. by intros ->. Qed.
Lemma cxx_flag x : is_primary x ∨ is_dependent x → isCXXException (unwind_class x) = true.
Proof. by intros [-> | ->]. Qed.
Lemma zeroed_class : ¬ is_primary zeroed ∧ ¬ is_dependent zeroed.
Proof. by split. Qed.

Lemma shares_zero e h d x : shares e h = 0 → h !! d = Some x → ¬ shares_of e x.
Proof.
  intros Hz Hd Hs. rewrite (shares_delete e h d x Hd), bool_decide_eq_true_2 in Hz by done.
  pose proof (shares_nonneg e (delete d h)). cbn in Hz. lia.
Qed.

(** What an update leaves alone. *)
Lemma lookup_update (h : gmap Z exn) e y d z :
  <[e := y]> h !! d = Some z → (d = e ∧ z = y) ∨ (d ≠ e ∧ h !! d = Some z).
Proof.
  destruct (decide (d = e)) as [->|]; [rewrite lookup_insert_eq; intros [= <-]; by left|].
  rewrite lookup_insert_ne by done. by right.
Qed.

(** *** The memory *)

Section memory.
Context (eb : Z) (h : gmap Z exn) (B : gset Z) (O : gmap Z Z) (H : gmultiset Z).
Hypothesis I : inv_mem eb h B O H.

Lemma building_class e x : e ∈ B → h !! e = Some x → ¬ is_primary x ∧ ¬ is_dependent x.
Proof. intros Hb He. destruct (inv_building _ _ _ _ _ I e Hb) as [Hz _]. simplify_eq. apply zeroed_class. Qed.

(** An update that keeps the class; the count, and the owners with it, may change if
    the exception is a primary one. *)
Lemma mem_update e x y O' H' :
  h !! e = Some x → unwind_class y = unwind_class x → is_primary x ∨ is_dependent x →
  (is_dependent x → referenceCount y = referenceCount x) →
  (∀ d, d ≠ e ∨ is_dependent x → is_Some (O' !! d) ↔ is_Some (O !! d)) →
  (∀ d, d ≠ e → multiplicity d H' = multiplicity d H) →
  (e ∈ H' → is_primary x) →
  (is_primary x → referenceCount y = owners h O' H' e ∧ 0 < referenceCount y < 2 ^ 64) →
  inv_mem eb (<[e := y]> h) B O' H'.
Proof.
  intros He Hcl Hk Hdep HO HH HHe Hcount. destruct I.
  assert (HeB : e ∉ B) by (intros Hb; destruct (building_class e x Hb He); tauto).
  assert (Hsh : ∀ p, shares p (<[e:=y]> h) = shares p h).
  { intros p. apply (shares_update p h e x y He). unfold shares_of, primaryException. rewrite Hcl.
    split; intros [Hd Hp]; (split; [done|]); by rewrite <- Hp, Hdep. }
  assert (Hprim : ∀ d z, h !! d = Some z → is_primary z → ∃ z', <[e:=y]> h !! d = Some z' ∧ is_primary z').
  { intros d z Hd Hz. destruct (decide (d = e)) as [->|]; [|exists z; by rewrite lookup_insert_ne].
    exists y. rewrite lookup_insert_eq. split; [done|]. unfold is_primary. rewrite Hcl. by simplify_eq. }
  split.
  - intros d z [[-> ->]|[_ Hd]]%lookup_update; eauto.
  - intros d z [[-> ->]|[_ Hd]]%lookup_update; [|eauto]. right. unfold is_primary, is_dependent. by rewrite Hcl.
  - intros d Hd. assert (d ≠ e) by (intros ->; done). rewrite lookup_insert_ne by done.
    destruct (inv_building0 d Hd) as [Hz Ho]. split; [done|]. apply eq_None_not_Some. rewrite HO by auto.
    by rewrite Ho; intros [? ?].
  - intros d z [[-> ->]|[Hne Hd]]%lookup_update Hz; unfold owners; rewrite Hsh.
    + apply Hcount. unfold is_primary in *. by rewrite <- Hcl.
    + destruct (inv_count0 d z Hd Hz) as [Hr ?]. split; [|done]. rewrite Hr. unfold owners. rewrite (HH d Hne).
      do 3 f_equal. apply bool_decide_ext. symmetry. by apply HO; left.
  - intros d z Hd Hz.
    assert (Hold : ∃ z0, h !! d = Some z0 ∧ is_dependent z0 ∧ referenceCount z = referenceCount z0).
    { apply lookup_update in Hd as [[-> ->]|[_ Hd]]; [|by exists z]. exists x. split; [done|].
      assert (is_dependent x) by (unfold is_dependent in *; by rewrite <- Hcl). split; [done|by apply Hdep]. }
    destruct Hold as (z0 & Hz0 & Hd0 & Hr). destruct (inv_dependent0 d z0 Hz0 Hd0) as [Ho (p & q & Hp & Hq & Hqp)].
    destruct (Hprim p q Hq Hqp) as (q' & Hq' & Hqp'). split.
    + apply HO; [|done]. destruct (decide (d = e)) as [->|]; [right; by simplify_eq|by left].
    + exists p, q'. unfold primaryException in *. by rewrite Hr.
  - intros d Hd. destruct (decide (d = e)) as [->|Hne]; [apply (Hprim e x He), HHe, Hd|].
    assert (Hin : d ∈ H) by (rewrite elem_of_multiplicity in *; by rewrite <- HH).
    destruct (inv_handle0 d Hin) as (z & Hz & Hzp). by apply (Hprim d z).
Qed.

(** An exception that is new. *)
Lemma mem_insert e y B' O' H' :
  h !! e = None → 0 < e → from_calloc eb e →
  (e ∈ B' ∧ y = zeroed ∨ is_primary y ∨ is_dependent y) →
  (∀ d, d ≠ e → d ∈ B' ↔ d ∈ B) → (e ∈ B' → y = zeroed ∧ O' !! e = None) →
  (∀ d, d ≠ e → is_Some (O' !! d) ↔ is_Some (O !! d)) →
  (∀ d, d ≠ e → Z.of_nat (multiplicity d H') + owns (bool_decide (shares_of d y)) = Z.of_nat (multiplicity d H)) →
  multiplicity e H' = 0%nat →
  (is_primary y → referenceCount y = 1 ∧ is_Some (O' !! e)) →
  (is_dependent y → is_Some (O' !! e) ∧ ∃ p z, primaryException y = object_of p ∧ h !! p = Some z ∧ is_primary z) →
  inv_mem eb (<[e := y]> h) B' O' H'.
Proof.
  intros He Hpos Hf Hk HB HBe HO HH HHe Hy1 Hy2. destruct I.
  assert (Hnone : shares e h = 0).
  { unfold shares.
    assert (filter (λ p : Z * exn, shares_of e p.2) h = ∅) as ->; [|by rewrite map_size_empty].
    apply map_empty_filter. intros d x Hd [Hdep Hp]. cbn [snd] in *. destruct (inv_dependent0 d x Hd Hdep) as [_ (p & z & Hp' & Hz & _)].
    rewrite Hp in Hp'. apply object_of_inj in Hp' as <-. congruence. }
  assert (Hno : O !! e = None → True) by done.
  split.
  - intros d z [[-> ->]|[_ Hd]]%lookup_update; eauto.
  - intros d z [[-> ->]|[Hne Hd]]%lookup_update; [tauto|]. destruct (inv_class0 d z Hd) as [Hb|]; [|by right].
    left. by apply HB.
  - intros d Hd. destruct (decide (d = e)) as [->|Hne].
    + destruct (HBe Hd) as [-> ?]. by rewrite lookup_insert_eq.
    + rewrite lookup_insert_ne by done. apply HB in Hd; [|done]. destruct (inv_building0 d Hd) as [Hz Ho].
      split; [done|]. apply eq_None_not_Some. rewrite HO by done. by rewrite Ho; intros [? ?].
  - intros d z Hd Hz. unfold owners. rewrite shares_insert_fresh by done.
    apply lookup_update in Hd as [[-> ->]|[Hne Hd]].
    + destruct (Hy1 Hz) as [-> Ho]. rewrite bool_decide_eq_true_2, HHe, Hnone by done.
      rewrite bool_decide_eq_false_2 by (intros [Hd _]; by destruct (not_both y Hz)). cbn. lia.
    + destruct (inv_count0 d z Hd Hz) as [Hr ?]. split; [|done]. rewrite Hr. unfold owners. specialize (HH d Hne).
      rewrite (bool_decide_ext (is_Some (O' !! d)) (is_Some (O !! d))) by (by apply HO). lia.
  - assert (Hkeep : ∀ p z, h !! p = Some z → is_primary z → ∃ z', <[e:=y]> h !! p = Some z' ∧ is_primary z').
    { intros p z Hp Hz. exists z. rewrite lookup_insert_ne by congruence. done. }
    intros d z [[-> ->]|[Hne Hd]]%lookup_update Hz.
    + destruct (Hy2 Hz) as [Ho (p & q & Hp & Hq & Hqp)]. split; [done|].
      destruct (Hkeep p q Hq Hqp) as (q' & ? & ?). by exists p, q'.
    + destruct (inv_dependent0 d z Hd Hz) as [Ho (p & q & Hp & Hq & Hqp)]. split; [by apply HO|].
      destruct (Hkeep p q Hq Hqp) as (q' & ? & ?). by exists p, q'.
  - intros d Hd. destruct (decide (d = e)) as [->|Hne].
    + rewrite elem_of_multiplicity in Hd. lia.
    + assert (Hin : d ∈ H) by (specialize (HH d Hne); rewrite elem_of_multiplicity in *; unfold owns in HH; destruct (bool_decide _); lia).
      destruct (inv_handle0 d Hin) as (z & Hz & Hzp). exists z. rewrite lookup_insert_ne by congruence. done.
Qed.

(** An exception that goes. *)
Lemma mem_delete e x B' O' H' :
  h !! e = Some x → (is_primary x → shares e h = 0) → multiplicity e H' = 0%nat →
  (∀ d, d ∈ B' ↔ d ∈ B ∧ d ≠ e) →
  (∀ d, d ≠ e → is_Some (O' !! d) ↔ is_Some (O !! d)) →
  (∀ d, d ≠ e → Z.of_nat (multiplicity d H') = Z.of_nat (multiplicity d H) + owns (bool_decide (shares_of d x))) →
  (is_dependent x → ∃ p z, primaryException x = object_of p ∧ h !! p = Some z ∧ is_primary z) →
  inv_mem eb (delete e h) B' O' H'.
Proof.
  intros He Hsh HHe HB HO HH Hdep. destruct I.
  assert (Hback : ∀ d z, delete e h !! d = Some z → d ≠ e ∧ h !! d = Some z).
  { intros d z [? ?]%lookup_delete_Some. auto. }
  assert (Hpe : ∀ p z d y, h !! d = Some y → shares_of p y → d ≠ e → h !! p = Some z → is_primary z → p ≠ e).
  { intros p z d y Hd Hs Hne Hp Hz ->. simplify_eq. by eapply (shares_zero e h d y (Hsh Hz)). }
  split.
  - intros d z [_ Hd]%Hback. eauto.
  - intros d z [Hne Hd]%Hback. destruct (inv_class0 d z Hd) as [Hb|]; [left; by apply HB|by right].
  - intros d [Hd Hne]%HB. rewrite lookup_delete_ne by done. destruct (inv_building0 d Hd) as [Hz Ho].
    split; [done|]. apply eq_None_not_Some. rewrite HO by done. by rewrite Ho; intros [? ?].
  - intros d z [Hne Hd]%Hback Hz. destruct (inv_count0 d z Hd Hz) as [Hr ?]. split; [|done]. rewrite Hr.
    unfold owners. rewrite (shares_delete d h e x He). specialize (HH d Hne).
    rewrite (bool_decide_ext (is_Some (O' !! d)) (is_Some (O !! d))) by (by apply HO). lia.
  - intros d z [Hne Hd]%Hback Hz. destruct (inv_dependent0 d z Hd Hz) as [Ho (p & q & Hp & Hq & Hqp)].
    split; [by apply HO|]. exists p, q. split; [done|]. split; [|done].
    rewrite lookup_delete_ne; [done|]. by apply not_eq_sym, (Hpe p q d z).
  - intros d Hd. assert (d ≠ e) by (intros ->; rewrite elem_of_multiplicity in Hd; lia).
    assert (Hz : ∃ z, h !! d = Some z ∧ is_primary z).
    { destruct (decide (shares_of d x)) as [[Hx Hp]|Hs].
      - destruct (Hdep Hx) as (p & z & Hp' & Hz & Hzp). rewrite Hp in Hp'. apply object_of_inj in Hp' as <-.
        by exists z.
      - apply inv_handle0. specialize (HH d ltac:(done)). rewrite bool_decide_eq_false_2 in HH by done.
        rewrite elem_of_multiplicity in *. cbn in HH. lia. }
    destruct Hz as (z & Hz & Hzp). exists z. by rewrite lookup_delete_ne.
Qed.
End memory.

(** *** The threads *)

Definition stack_at (S : Z → list Z) (t : Z) (l : list Z) : Z → list Z := λ t', if t' =? t then l else S t'.

Section use.
Context (h : gmap Z exn) (c : Z → Z) (O : gmap Z Z) (F : gset Z) (S : Z → list Z).
Hypothesis I : inv_use h c O F S.

Lemma use_ext h' :
  (∀ e x, is_Some (O !! e) → h !! e = Some x → ∃ y, h' !! e = Some y ∧ unwind_class y = unwind_class x
     ∧ handlerCount y = handlerCount x ∧ nextException y = nextException x) →
  inv_use h' c O F S.
Proof.
  intros Hx. destruct I. split; try done.
  - intros e t Ho. destruct (inv_owner0 e t Ho) as (x & He & Hk & Hst).
    destruct (Hx e x (ex_intro _ t Ho) He) as (y & Hy & Hc & Hh & _). exists y.
    unfold is_primary, is_dependent. by rewrite Hc, Hh.
  - intros t. apply (linked_ext h); [|done]. intros e x Hin He.
    destruct (Hx e x (ex_intro _ t (inv_stack0 t e Hin)) He) as (y & Hy & _ & _ & Hn). by exists y.
Qed.

Lemma use_touch e x y :
  h !! e = Some x → unwind_class y = unwind_class x → handlerCount y = handlerCount x →
  nextException y = nextException x → inv_use (<[e := y]> h) c O F S.
Proof.
  intros He Hc Hh Hn. apply use_ext. intros d z _ Hd. destruct (decide (d = e)) as [->|].
  - exists y. rewrite lookup_insert_eq. by simplify_eq.
  - exists z. by rewrite lookup_insert_ne.
Qed.

(** What no thread has may change, come and go. *)
Lemma use_other h' e : O !! e = None → (∀ d, d ≠ e → h' !! d = h !! d) → inv_use h' c O F S.
Proof.
  intros He Hh. apply use_ext. intros d z Ho Hd. exists z. rewrite Hh; [done|].
  intros ->. rewrite He in Ho. by destruct Ho.
Qed.

(** A thread gets an exception that flies. *)
Lemma use_throw e t x :
  O !! e = None → h !! e = Some x → is_primary x ∨ is_dependent x → handlerCount x = 0 →
  inv_use h c (<[e := t]> O) (F ∪ {[e]}) S.
Proof.
  intros Ho He Hk Hh. destruct I.
  assert (Hno : ∀ t', e ∉ S t') by (intros t' Hin; apply inv_stack0 in Hin; congruence).
  split; try done.
  - intros d t'. destruct (decide (d = e)) as [->|Hne].
    + rewrite lookup_insert_eq. intros [= <-]. exists x. split; [done|]. split; [done|]. right.
      split; [apply Hno|]. split; [done|]. set_solver.
    + rewrite lookup_insert_ne by done. intros Hd. destruct (inv_owner0 d t' Hd) as (z & Hz & Hkz & Hst).
      exists z. split; [done|]. split; [done|]. assert (d ∈ F ∪ {[e]} ↔ d ∈ F) as -> by set_solver. done.
  - intros d [Hd|Hd%elem_of_singleton]%elem_of_union.
    + destruct (decide (d = e)) as [->|]; [by rewrite lookup_insert_eq|]. rewrite lookup_insert_ne; auto.
    + subst. by rewrite lookup_insert_eq.
  - intros t' d Hd. rewrite lookup_insert_ne; [auto|]. intros ->. by apply (Hno t').
Qed.

(** The count of handlers of an exception that is caught changes. *)
Lemma use_count e t x n F' :
  O !! e = Some t → e ∈ S t → h !! e = Some x → n ≠ 0 → (n < 0 ↔ e ∈ F') →
  (∀ d, d ≠ e → d ∈ F' ↔ d ∈ F) →
  inv_use (<[e := set_handler_count n x]> h) c O F' S.
Proof.
  intros Ho Hin He Hn Hneg HF. destruct I. split; try done.
  - intros d t' Hd. destruct (inv_owner0 d t' Hd) as (z & Hz & Hk & Hst).
    destruct (decide (d = e)) as [->|Hne].
    + simplify_eq. eexists. rewrite lookup_insert_eq. split; [reflexivity|]. split; [done|]. by left.
    + exists z. rewrite lookup_insert_ne, HF by done. done.
  - intros d Hd. destruct (decide (d = e)) as [->|Hne]; [by eexists|]. apply inv_flying0. by apply HF.
  - intros t'. by eapply linked_update.
Qed.

(** An exception that flies is caught. *)
Lemma use_push e t x :
  O !! e = Some t → e ∈ F → h !! e = Some x → handlerCount x = 0 → e ≠ 0 →
  inv_use (<[e := set_handler_count 1 (set_next (c t) x)]> h) (at_ c t e) O (F ∖ {[e]}) (stack_at S t (e :: S t)).
Proof.
  intros Ho Hf He Hh Hz. destruct I.
  assert (Hno : ∀ t', e ∉ S t').
  { intros t' Hin. destruct (inv_owner0 e t' (inv_stack0 t' e Hin)) as (z & Hze & _ & [(_ & Hn & _)|(Hn & _)]);
      [by simplify_eq|done]. }
  assert (Hl : ∀ t', linked (<[e:=set_handler_count 1 (set_next (c t) x)]> h) (c t') (S t')).
  { intros t'. apply (linked_other h); [|done]. intros d Hd. rewrite lookup_insert_ne; [done|].
    intros ->. by apply (Hno t'). }
  split.
  - intros d t' Hd. destruct (inv_owner0 d t' Hd) as (z & Hze & Hk & Hst). destruct (decide (d = e)) as [->|Hne].
    + simplify_eq. eexists. rewrite lookup_insert_eq. split; [reflexivity|]. split; [done|]. left.
      unfold stack_at. rewrite Z.eqb_refl. split; [by left|]. cbn. split; [done|]. split; [lia|set_solver].
    + exists z. rewrite lookup_insert_ne by done. split; [done|]. split; [done|].
      assert (d ∈ F ∖ {[e]} ↔ d ∈ F) as -> by set_solver.
      assert (d ∈ stack_at S t (e :: S t) t' ↔ d ∈ S t') as ->; [|done].
      unfold stack_at. destruct (Z.eqb_spec t' t) as [->|]; [|done]. rewrite elem_of_cons. tauto.
  - intros d Hd. apply inv_flying0. set_solver.
  - intros t' d. unfold stack_at. destruct (Z.eqb_spec t' t) as [->|]; [|auto].
    intros [->|Hd]%elem_of_cons; auto.
  - intros t'. unfold stack_at. destruct (Z.eqb_spec t' t) as [->|]; [|done]. by constructor.
  - intros t'. unfold stack_at, at_. destruct (Z.eqb_spec t' t) as [->|]; [|done]. split; [done|].
    eexists. rewrite lookup_insert_eq. split; [reflexivity|]. cbn. apply Hl.
Qed.

(** A thread leaves its last handler of an exception: it is thrown again, or the
    thread is done with it. *)
Lemma use_pop e t l x h' O' :
  S t = e :: l → h !! e = Some x →
  (∀ d, d ≠ e → h' !! d = h !! d) → (∀ d, d ≠ e → O' !! d = O !! d) →
  (e ∉ F ∧ O' !! e = None ∨
   e ∈ F ∧ O' !! e = Some t ∧ ∃ y, h' !! e = Some y ∧ unwind_class y = unwind_class x ∧ handlerCount y = 0) →
  inv_use h' (at_ c t (nextException x)) O' F (stack_at S t l).
Proof.
  intros Hs He Hh HO Hcase. destruct I.
  assert (Het : O !! e = Some t) by (apply inv_stack0; rewrite Hs; by left).
  pose proof (inv_nodup0 t) as Hnd. rewrite Hs in Hnd. apply NoDup_cons in Hnd as [Hel Hnd].
  assert (Hin : ∀ t' d, d ∈ stack_at S t l t' ↔ d ∈ S t' ∧ d ≠ e).
  { intros t' d. unfold stack_at. destruct (Z.eqb_spec t' t) as [->|Hne].
    - rewrite Hs, elem_of_cons. split; [intros Hd; split; [by right|by intros ->]|]. by intros [[->|] ?].
    - split; [|tauto]. intros Hd. split; [done|]. intros ->. apply inv_stack0 in Hd. congruence. }
  assert (Hk : is_primary x ∨ is_dependent x).
  { destruct (inv_owner0 e t Het) as (z & Hz & Hk & _). by simplify_eq. }
  split.
  - intros d t' Hd. destruct (decide (d = e)) as [->|Hne].
    + destruct Hcase as [[_ Hc]|(Hf & Hc & y & Hy & Hcl & Hhc)]; [congruence|]. exists y.
      unfold is_primary, is_dependent. rewrite Hcl. split; [done|]. split; [done|]. right.
      rewrite Hin. split; [tauto|done].
    + rewrite HO in Hd by done. destruct (inv_owner0 d t' Hd) as (z & Hz & Hkz & Hst). exists z.
      rewrite Hh by done. split; [done|]. split; [done|]. rewrite Hin. tauto.
  - intros d Hd. destruct (decide (d = e)) as [->|Hne].
    + destruct Hcase as [[? _]|(_ & Hc & _)]; [done|by rewrite Hc].
    + rewrite HO by done. auto.
  - intros t' d [Hd Hne]%Hin. rewrite HO by done. auto.
  - intros t'. unfold stack_at. destruct (Z.eqb_spec t' t) as [->|]; [done|auto].
  - intros t'. apply (linked_other h); [intros d [_ Hd]%Hin; by apply Hh|].
    unfold stack_at, at_. destruct (Z.eqb_spec t' t) as [->|]; [|done].
    pose proof (inv_linked0 t) as Hl. rewrite Hs in Hl. destruct Hl as (_ & z & Hz & Hl). by simplify_eq.
Qed.
End use.

(** *** Pointers *)

Definition with_handles (g : ghost) (H : gmultiset Z) : ghost := Ghost (building g) (owner g) (flying g) (stack g) H.

Lemma inv_primary eb h c g p y :
  inv eb h c g → h !! p = Some y → is_primary y → p ∉ building g ∧ 0 < p ∧ from_calloc eb p
  ∧ referenceCount y = owners h (owner g) (handles g) p ∧ 0 < referenceCount y < 2 ^ 64.
Proof.
  intros [Im Iu] Hp Hy. destruct (inv_addr _ _ _ _ _ Im p y Hp), (inv_count _ _ _ _ _ Im p y Hp Hy).
  split; [|done]. intros Hb. by destruct (building_class _ _ _ _ _ Im p y Hb Hp).
Qed.

Lemma inv_copy eb h c g p y :
  inv eb h c g → h !! p = Some y → is_primary y → referenceCount y < 2 ^ 64 - 1 →
  inv eb (<[p := set_count (wrap 64 (referenceCount y + 1)) y]> h) c (with_handles g (handles g ⊎ {[+ p +]})).
Proof.
  intros I Hp Hy Hr. destruct (inv_primary _ _ _ _ _ _ I Hp Hy) as (_ & _ & _ & Hc & Hpos). destruct I as [Im Iu].
  rewrite wrap_small by lia. split; cbn [building owner flying stack handles with_handles].
  - apply (mem_update eb h _ (owner g) (handles g) Im p y); try done.
    + auto.
    + intros Hd. by destruct (not_both y Hy).
    + intros d Hne. rewrite multiplicity_disj_union, multiplicity_singleton_ne by done. lia.
    + intros _. cbn. unfold owners in *. rewrite multiplicity_disj_union, multiplicity_singleton_eq. lia.
  - by apply (use_touch h c _ _ _ Iu p y).
Qed.

Lemma inv_drop eb h c g p y :
  inv eb h c g → p ∈ handles g → h !! p = Some y → is_primary y →
  inv eb (release_heap p y h) c (with_handles g (handles g ∖ {[+ p +]})).
Proof.
  intros I Hin Hp Hy. destruct (inv_primary _ _ _ _ _ _ I Hp Hy) as (HB & _ & _ & Hc & Hpos). destruct I as [Im Iu].
  unfold release_heap. rewrite wrap_small by lia. rewrite elem_of_multiplicity in Hin.
  assert (Hdep : ¬ is_dependent y) by (intros Hd; by destruct (not_both y Hy)).
  pose proof (shares_nonneg p h). unfold owners in Hc.
  assert (Hms : ∀ d, d ≠ p → multiplicity d (handles g ∖ {[+ p +]}) = multiplicity d (handles g)).
  { intros d Hne. rewrite multiplicity_difference, multiplicity_singleton_ne by done. lia. }
  assert (Hmp : multiplicity p (handles g ∖ {[+ p +]}) = (multiplicity p (handles g) - 1)%nat)
    by (by rewrite multiplicity_difference, multiplicity_singleton_eq).
  destruct (Z.eqb_spec (referenceCount y - 1) 0) as [Hz|Hz];
    split; cbn [building owner flying stack handles with_handles].
  - assert (Hown : owner g !! p = None).
    { apply eq_None_not_Some. intros Ho. rewrite bool_decide_eq_true_2 in Hc by done. cbn in Hc. lia. }
    apply (mem_delete eb h (building g) (owner g) (handles g) Im p y); try done.
    + intros _. unfold owns in Hc. destruct (bool_decide _); lia.
    + unfold owns in Hc. destruct (bool_decide _); lia.
    + intros d. split; [|by intros []]. intros Hd. split; [done|]. by intros ->.
    + intros d Hne. rewrite (Hms d Hne), bool_decide_eq_false_2 by (intros [? ?]; by apply Hdep). cbn. lia.
  - assert (Hown : owner g !! p = None).
    { apply eq_None_not_Some. intros Ho. rewrite bool_decide_eq_true_2 in Hc by done. cbn in Hc. lia. }
    apply (use_other h c _ _ _ Iu _ p Hown). intros d Hne. by rewrite lookup_delete_ne.
  - apply (mem_update eb h _ (owner g) (handles g) Im p y); try done.
    + auto.
    + intros _. cbn. unfold owners. rewrite Hmp. split; lia.
  - by apply (use_touch h c _ _ _ Iu p y).
Qed.

(** A thread's claim becomes a pointer's, for a moment, when the thread is done. *)
Definition popped (g : ghost) (t : Z) (e : Z) (l : list Z) (H : gmultiset Z) : ghost :=
  Ghost (building g) (delete e (owner g)) (flying g) (stack_at (stack g) t l) H.

Lemma inv_pop_primary eb h c g t e l x :
  inv eb h c g → stack g t = e :: l → h !! e = Some x → is_primary x → handlerCount x = 1 →
  inv eb (<[e := set_handler_count 0 x]> h) (at_ c t (nextException x)) (popped g t e l (handles g ⊎ {[+ e +]})).
Proof.
  intros I Hs He Hx Hh. destruct (inv_primary _ _ _ _ _ _ I He Hx) as (_ & _ & _ & Hc & Hpos). destruct I as [Im Iu].
  assert (Ho : owner g !! e = Some t) by (apply (inv_stack _ _ _ _ _ Iu); rewrite Hs; by left).
  split; cbn [building owner flying stack handles popped].
  - apply (mem_update eb h _ (owner g) (handles g) Im e x); try done.
    + auto.
    + intros d [Hne|Hd]; [by rewrite lookup_delete_ne|by destruct (not_both x Hx)].
    + intros d Hne. rewrite multiplicity_disj_union, multiplicity_singleton_ne by done. lia.
    + intros _. cbn. unfold owners in *. rewrite multiplicity_disj_union, multiplicity_singleton_eq, lookup_delete_eq.
      rewrite Ho, bool_decide_eq_true_2 in Hc by done. rewrite bool_decide_eq_false_2 by (by intros [? ?]).
      cbn [owns] in *. lia.
  - apply (use_pop h c _ _ _ Iu e t l x _ _ Hs He).
    + intros d Hne. by rewrite lookup_insert_ne.
    + intros d Hne. by rewrite lookup_delete_ne.
    + left. split; [|apply lookup_delete_eq]. intros Hf.
      destruct (inv_owner _ _ _ _ _ Iu e t Ho) as (z & Hz & _ & [(_ & _ & Hn)|(Hn & _)]).
      * simplify_eq. apply Hn in Hf. lia.
      * apply Hn. rewrite Hs. by left.
Qed.

Lemma inv_pop_dependent eb h c g t e l x p :
  inv eb h c g → stack g t = e :: l → h !! e = Some x → is_dependent x → handlerCount x = 1 →
  primaryException x = object_of p →
  inv eb (delete e h) (at_ c t (nextException x)) (popped g t e l (handles g ⊎ {[+ p +]})).
Proof.
  intros [Im Iu] Hs He Hx Hh Hpr.
  assert (Ho : owner g !! e = Some t) by (apply (inv_stack _ _ _ _ _ Iu); rewrite Hs; by left).
  destruct (inv_dependent _ _ _ _ _ Im e x He Hx) as [_ (p' & y & Hpr' & Hy & Hyp)].
  rewrite Hpr in Hpr'. apply object_of_inj in Hpr' as <-.
  assert (Hpe : p ≠ e) by (intros ->; simplify_eq; by destruct (not_both x Hyp)).
  assert (HB : e ∉ building g) by (intros Hb; by destruct (building_class _ _ _ _ _ Im e x Hb He)).
  assert (He0 : multiplicity e (handles g) = 0%nat).
  { apply not_elem_of_multiplicity. intros Hin. destruct (inv_handle _ _ _ _ _ Im e Hin) as (z & Hz & Hzp).
    simplify_eq. by destruct (not_both x Hzp). }
  split; cbn [building owner flying stack handles popped].
  - apply (mem_delete eb h (building g) (owner g) (handles g) Im e x); try done.
    + intros Hxp. by destruct (not_both x Hxp).
    + rewrite multiplicity_disj_union, He0, multiplicity_singleton_ne by congruence. done.
    + intros d. split; [|by intros []]. intros Hd. split; [done|]. by intros ->.
    + intros d Hne. by rewrite lookup_delete_ne.
    + intros d Hne. rewrite multiplicity_disj_union. destruct (decide (d = p)) as [->|Hdp].
      * rewrite multiplicity_singleton_eq, bool_decide_eq_true_2 by done. cbn. lia.
      * rewrite multiplicity_singleton_ne, bool_decide_eq_false_2; [cbn; lia| |done].
        intros [_ Hq]. rewrite Hpr in Hq. by apply object_of_inj in Hq.
    + intros _. by exists p, y.
  - apply (use_pop h c _ _ _ Iu e t l x _ _ Hs He).
    + intros d Hne. by rewrite lookup_delete_ne.
    + intros d Hne. by rewrite lookup_delete_ne.
    + left. split; [|apply lookup_delete_eq]. intros Hf.
      destruct (inv_owner _ _ _ _ _ Iu e t Ho) as (z & Hz & _ & [(_ & _ & Hn)|(Hn & _)]).
      * simplify_eq. apply Hn in Hf. lia.
      * apply Hn. rewrite Hs. by left.
Qed.

(** A pointer's claim becomes that of a new dependent exception. *)
Lemma inv_dependent_new eb h c g t p y m type u te :
  inv eb h c g → p ∈ handles g → h !! p = Some y → is_primary y →
  h !! m = None → 0 < m → from_calloc eb m →
  inv eb (<[m := Exn (object_of p) type 0 u te 0 0 0 dependent_exception_class]> h) c
    (Ghost (building g) (<[m := t]> (owner g)) (flying g ∪ {[m]}) (stack g) (handles g ∖ {[+ p +]})).
Proof.
  intros [Im Iu] Hin Hp Hy Hm Hpos Hf. rewrite elem_of_multiplicity in Hin.
  set (x := Exn (object_of p) type 0 u te 0 0 0 dependent_exception_class).
  assert (Hown : owner g !! m = None).
  { apply eq_None_not_Some. intros [t' Ho]. destruct (inv_owner _ _ _ _ _ Iu m t' Ho) as (z & Hz & _). congruence. }
  assert (HB : m ∉ building g) by (intros Hb; destruct (inv_building _ _ _ _ _ Im m Hb); congruence).
  assert (Hm0 : multiplicity m (handles g) = 0%nat).
  { apply not_elem_of_multiplicity. intros Hh. destruct (inv_handle _ _ _ _ _ Im m Hh) as (z & Hz & _). congruence. }
  split; cbn [building owner flying stack handles].
  - apply (mem_insert eb h (building g) (owner g) (handles g) Im); try done.
    + by right; right.
    + intros d Hne. by rewrite lookup_insert_ne.
    + intros d Hne. rewrite multiplicity_difference. destruct (decide (d = p)) as [->|Hdp].
      * rewrite multiplicity_singleton_eq, bool_decide_eq_true_2 by done. cbn. lia.
      * rewrite multiplicity_singleton_ne, bool_decide_eq_false_2; [cbn; lia| |done].
        intros [_ Hq]. cbn in Hq. by apply object_of_inj in Hq.
    + rewrite multiplicity_difference, Hm0. done.
    + intros _. rewrite lookup_insert_eq. split; [done|]. by exists p, y.
  - eapply use_throw; [|done|apply lookup_insert_eq|by right|done].
    apply (use_other h c _ _ _ Iu _ m Hown). intros d Hne. by rewrite lookup_insert_ne.
Qed.

(** ** What a program does with exceptions *)

(** The calls a compiler makes for [throw], [catch] and [exception_ptr].  [m] is the
    memory [calloc] gives; exceptions are named by their headers. *)
Inductive op :=
  | Allocate (thrown_size m : Z) | Throw_ (e tinfo dest : Z) | Discard (e : Z)
  | Catch (e : Z) | EndCatch | Rethrow
  | Share | Copy (p : Z) | Drop (p : Z) | RethrowPrimary (p m : Z).

Definition address (a : allocation) : Z := match a with Buffer p => p | Sleeping => 0 end.

Section program.
Context (eb : Z) (throws : Z → Z → bool).

Definition run (t : Z) (o : op) : comp world Z :=
  match o with
  | Allocate n m => let* a := cxa_allocate_exception eb t n m 0 in cret (address a)
  | Throw_ e ti d => cxa_throw t (object_of e) ti d
  | Discard e => cxa_free_exception eb throws t (object_of e) ;;; cret 0
  | Catch e => cxa_begin_catch t (e + offsetof_unwindHeader)
  | EndCatch => cxa_end_catch eb throws t ;;; cret 0
  | Rethrow => cxa_rethrow t
  | Share => cxa_current_primary_exception t
  | Copy p => cxa_increment_exception_refcount (object_of p) ;;; cret 0
  | Drop p => cxa_decrement_exception_refcount eb throws t (object_of p) ;;; cret 0
  | RethrowPrimary p m => let* a := cxa_rethrow_primary_exception eb t (object_of p) m 0 in cret (address a)
  end.

(** The primary exception of one. *)
Definition real_of (h : gmap Z exn) (e : Z) : Z :=
  match h !! e with
  | Some x => if isDependentException (unwind_class x) then header_of (primaryException x) else e
  | None => e
  end.
Definition handlers_of (h : gmap Z exn) (e : Z) : Z := handlerCount (default zeroed (h !! e)).
Definition count_of (h : gmap Z exn) (e : Z) : Z := referenceCount (default zeroed (h !! e)).

Definition new_memory (h : gmap Z exn) (m : Z) : Prop := 0 < m ∧ from_calloc eb m ∧ h !! m = None.

(** When the language lets a program make a call: it catches what flies in the thread,
    leaves and rethrows what it is handling, and uses pointers that it has.  Counts
    have room. *)
Definition allowed (h : gmap Z exn) (g : ghost) (t : Z) (o : op) : Prop :=
  match o with
  | Allocate _ m => new_memory h m
  | Throw_ e _ _ | Discard e => e ∈ building g
  | Catch e => owner g !! e = Some t ∧ e ∈ flying g ∧ caught_again (handlers_of h e) ≤ INT_MAX
  | EndCatch => stack g t ≠ []
  | Rethrow => ∃ e l, stack g t = e :: l ∧ e ∉ flying g
  | Share => ∀ e l, stack g t = e :: l → count_of h (real_of h e) < 2 ^ 64 - 1
  | Copy p => p ∈ handles g ∧ count_of h p < 2 ^ 64 - 1
  | Drop p => p ∈ handles g
  | RethrowPrimary p m => p ∈ handles g ∧ count_of h p < 2 ^ 64 - 1 ∧ new_memory h m
  end.

(** Who owns what afterwards. *)
Definition next (h : gmap Z exn) (g : ghost) (t : Z) (o : op) : ghost :=
  match o with
  | Allocate _ m => Ghost (building g ∪ {[m]}) (owner g) (flying g) (stack g) (handles g)
  | Throw_ e _ _ =>
      Ghost (building g ∖ {[e]}) (<[e := t]> (owner g)) (flying g ∪ {[e]}) (stack g) (handles g)
  | Discard e => Ghost (building g ∖ {[e]}) (owner g) (flying g) (stack g) (handles g)
  | Catch e =>
      Ghost (building g) (owner g) (flying g ∖ {[e]})
        (if handlers_of h e =? 0 then stack_at (stack g) t (e :: stack g t) else stack g) (handles g)
  | EndCatch =>
      match stack g t with
      | [] => g
      | e :: l =>
          if handlers_of h e =? 1 then
            Ghost (building g) (delete e (owner g)) (flying g) (stack_at (stack g) t l) (handles g)
          else if handlers_of h e =? -1 then
            Ghost (building g) (owner g) (flying g) (stack_at (stack g) t l) (handles g)
          else g
      end
  | Rethrow =>
      match stack g t with
      | [] => g
      | e :: _ => Ghost (building g) (owner g) (flying g ∪ {[e]}) (stack g) (handles g)
      end
  | Share =>
      match stack g t with [] => g | e :: _ => with_handles g (handles g ⊎ {[+ real_of h e +]}) end
  | Copy p => with_handles g (handles g ⊎ {[+ p +]})
  | Drop p => with_handles g (handles g ∖ {[+ p +]})
  | RethrowPrimary p m =>
      Ghost (building g) (<[m := t]> (owner g)) (flying g ∪ {[m]}) (stack g) (handles g)
  end.

(** A world the program is in, with who owns what. *)
Definition good (w : world) (g : ghost) : Prop :=
  ∃ h c, world_is w h c ∧ inv eb h c g.

Definition goes_well (w : world) (g : ghost) (t : Z) (o : op) : Prop :=
  ∃ r w', run t o w = (Ret r, w') ∧ good w' (next (heap w) g t o).

Hypothesis no_throw : ∀ d o, throws d o = false.

Lemma step_allocate w g t n m : good w g → new_memory (heap w) m → goes_well w g t (Allocate n m).
Proof.
  intros (h & c & Hw & Im & Iu) (Hpos & Hf & Hm). rewrite (proj1 Hw) in Hm.
  destruct (allocate_ok eb w h c t (size_wrap (n + sizeof_exception)) m 0 Hw ltac:(lia)) as (w1 & H1 & Hw1).
  exists (object_of m), w1. cbn [run]. unfold cxa_allocate_exception. rewrite (cbind_ret _ _ _ _ _ H1). split; [done|].
  eexists _, c. split; [exact Hw1|]. cbn [next].
  assert (Ho : owner g !! m = None).
  { apply eq_None_not_Some. intros [t' Ho]. destruct (inv_owner _ _ _ _ _ Iu m t' Ho) as (z & Hz & _). congruence. }
  assert (Hm0 : multiplicity m (handles g) = 0%nat).
  { apply not_elem_of_multiplicity. intros Hh. destruct (inv_handle _ _ _ _ _ Im m Hh) as (z & Hz & _). congruence. }
  split; cbn [building owner flying stack handles].
  - apply (mem_insert eb h (building g) (owner g) (handles g) Im); try done.
    + left. split; [set_solver|done].
    + intros d Hne. set_solver.
    + intros d Hne. rewrite bool_decide_eq_false_2; [cbn; lia|]. intros [? _]. by destruct zeroed_class.
  - apply (use_other h c _ _ _ Iu _ m Ho). intros d Hne. by rewrite lookup_insert_ne.
Qed.

(** Memory that was not thrown from goes out of the invariant. *)
Lemma unbuild h g e :
  inv_mem eb h (building g) (owner g) (handles g) → e ∈ building g →
  inv_mem eb (delete e h) (building g ∖ {[e]}) (owner g) (handles g).
Proof.
  intros Im He. destruct (inv_building _ _ _ _ _ Im e He) as [Hz Ho].
  apply (mem_delete eb h (building g) (owner g) (handles g) Im e zeroed); try done.
  - apply not_elem_of_multiplicity. intros Hin. destruct (inv_handle _ _ _ _ _ Im e Hin) as (z & Hz' & Hp).
    simplify_eq. by destruct zeroed_class.
  - intros d. set_solver.
  - intros d Hne. rewrite bool_decide_eq_false_2; [cbn; lia|]. intros [? _]. by destruct zeroed_class.
Qed.

Lemma step_throw w g t e ti d : good w g → e ∈ building g → goes_well w g t (Throw_ e ti d).
Proof.
  intros (h & c & Hw & Im & Iu) He. destruct (inv_building _ _ _ _ _ Im e He) as [Hz Ho].
  destruct (cxa_throw_ok w h c t e ti d zeroed Hw Hz) as (u & te & w1 & H1 & Hw1).
  exists (e + offsetof_unwindHeader), w1. split; [exact H1|].
  eexists _, c. split; [exact Hw1|]. cbn [next].
  destruct (inv_addr _ _ _ _ _ Im e _ Hz) as [Hpos Hf].
  assert (Hm0 : multiplicity e (handles g) = 0%nat).
  { apply not_elem_of_multiplicity. intros Hin. destruct (inv_handle _ _ _ _ _ Im e Hin) as (z & Hz' & Hp).
    simplify_eq. by destruct zeroed_class. }
  split; cbn [building owner flying stack handles].
  - rewrite <- insert_delete_eq.
    apply (mem_insert eb (delete e h) (building g ∖ {[e]}) (owner g) (handles g) (unbuild h g e Im He)); try done.
    + apply lookup_delete_eq.
    + by right; left.
    + intros Hb. set_solver.
    + intros d' Hne. by rewrite lookup_insert_ne.
    + intros d' Hne. rewrite bool_decide_eq_false_2; [cbn; lia|]. by intros [? _].
    + intros _. by rewrite lookup_insert_eq.
  - eapply use_throw; [|done|apply lookup_insert_eq|by left|done].
    apply (use_other h c _ _ _ Iu _ e Ho). intros d' Hne. by rewrite lookup_insert_ne.
Qed.

Lemma step_discard w g t e : good w g → e ∈ building g → goes_well w g t (Discard e).
Proof.
  intros (h & c & Hw & Im & Iu) He. destruct (inv_building _ _ _ _ _ Im e He) as [Hz Ho].
  destruct (inv_addr _ _ _ _ _ Im e _ Hz) as [Hpos Hf].
  destruct (cxa_free_ok eb throws no_throw w h c t e zeroed Hw Hf Hz) as (w1 & H1 & Hw1).
  exists 0, w1. cbn [run]. rewrite (cbind_ret _ _ _ _ _ H1). split; [done|].
  eexists _, c. split; [exact Hw1|]. cbn [next].
  split; cbn [building owner flying stack handles]; [by apply unbuild|].
  apply (use_other h c _ _ _ Iu _ e Ho). intros d Hne. by rewrite lookup_delete_ne.
Qed.

(** What a thread has in flight or caught. *)
Lemma owned_exception h c g e t :
  inv eb h c g → owner g !! e = Some t →
  ∃ x, h !! e = Some x ∧ (is_primary x ∨ is_dependent x) ∧ 0 < e ∧ from_calloc eb e ∧ e ∉ building g
    ∧ (is_dependent x → ∃ p y, primaryException x = object_of p ∧ 0 < p ∧ p ≠ e ∧ from_calloc eb p
         ∧ h !! p = Some y ∧ is_primary y).
Proof.
  intros [Im Iu] Ho. destruct (inv_owner _ _ _ _ _ Iu e t Ho) as (x & Hx & Hk & _).
  exists x. split; [done|]. split; [done|]. destruct (inv_addr _ _ _ _ _ Im e x Hx) as [Hpos Hf].
  split; [done|]. split; [done|]. split.
  - intros Hb. destruct (building_class _ _ _ _ _ Im e x Hb Hx). tauto.
  - intros Hd. destruct (inv_dependent _ _ _ _ _ Im e x Hx Hd) as [_ (p & y & Hp & Hy & Hyp)].
    destruct (inv_addr _ _ _ _ _ Im p y Hy). exists p, y. repeat (split; [done|]). split; [|done].
    intros ->. simplify_eq. by destruct (not_both x Hyp).
Qed.

(** An update of what is not counted. *)
Lemma mem_same h g e x y :
  inv_mem eb h (building g) (owner g) (handles g) → h !! e = Some x → is_primary x ∨ is_dependent x →
  unwind_class y = unwind_class x → referenceCount y = referenceCount x →
  inv_mem eb (<[e := y]> h) (building g) (owner g) (handles g).
Proof.
  intros Im He Hk Hc Hr. apply (mem_update eb h _ (owner g) (handles g) Im e x); try done.
  - intros Hin. destruct (inv_handle _ _ _ _ _ Im e Hin) as (z & Hz & Hzp). by simplify_eq.
  - intros Hx. rewrite Hr. by apply (inv_count _ _ _ _ _ Im).
Qed.

Lemma step_catch w g t e :
  good w g → owner g !! e = Some t → e ∈ flying g → caught_again (handlers_of (heap w) e) ≤ INT_MAX →
  goes_well w g t (Catch e).
Proof.
  intros (h & c & Hw & I) Ho Hf Hmax. rewrite (proj1 Hw) in Hmax.
  destruct (owned_exception h c g e t I Ho) as (x & Hx & Hk & Hpos & _). destruct I as [Im Iu].
  unfold handlers_of in Hmax. rewrite Hx in Hmax. cbn in Hmax.
  destruct (begin_catch_ok w h c t e x Hw Hx (cxx_flag x Hk) Hmax) as (w1 & H1 & Hw1).
  exists (adjustedPtr x), w1. split; [exact H1|]. cbn [next]. unfold handlers_of. rewrite (proj1 Hw), Hx.
  change (default zeroed (Some x)) with x. destruct (Z.eqb_spec (handlerCount x) 0) as [Hz|Hz].
  - eexists _, _. split; [exact Hw1|]. split; cbn [building owner flying stack handles].
    + by apply (mem_same h g e x).
    + apply use_push; (done || lia).
  - eexists _, _. split; [exact Hw1|]. split; cbn [building owner flying stack handles].
    + by apply (mem_same h g e x).
    + destruct (inv_owner _ _ _ _ _ Iu e t Ho) as (z & Hze & _ & [(Hin & _ & Hneg)|(_ & Hn & _)]); [|by simplify_eq].
      simplify_eq. apply Hneg in Hf.
      assert (0 < caught_again (handlerCount x)) by (unfold caught_again; destruct (Z.ltb_spec (handlerCount x) 0); lia).
      apply (use_count h c _ _ _ Iu e t x); try done; [lia| |set_solver]. split; [lia|set_solver].
Qed.

Lemma step_rethrow w g t e l : good w g → stack g t = e :: l → e ∉ flying g → goes_well w g t Rethrow.
Proof.
  intros (h & c & Hw & I) Hs Hf.
  assert (Ho : owner g !! e = Some t) by (apply (inv_stack _ _ _ _ _ (proj2 I)); rewrite Hs; by left).
  destruct (owned_exception h c g e t I Ho) as (x & Hx & Hk & Hpos & _). destruct I as [Im Iu].
  pose proof (inv_linked _ _ _ _ _ Iu t) as Hl. rewrite Hs in Hl. destruct Hl as [Hct _].
  assert (Hin : e ∈ stack g t) by (rewrite Hs; by left).
  destruct (inv_owner _ _ _ _ _ Iu e t Ho) as (z & Hze & _ & [(_ & Hnz & Hneg)|(Hn & _)]); [|done]. simplify_eq.
  assert (0 < handlerCount x) by (destruct (decide (handlerCount x < 0)) as [Hz|]; [by apply Hneg in Hz|lia]).
  destruct (rethrow_ok w h c t (c t) x Hw eq_refl ltac:(lia) Hx ltac:(done)) as (w1 & H1 & Hw1).
  eexists _, w1. split; [exact H1|]. cbn [next]. rewrite Hs.
  eexists _, _. split; [exact Hw1|]. split; cbn [building owner flying stack handles].
  - by apply (mem_same h g (c t) x).
  - apply (use_count h c _ _ _ Iu (c t) t x); try done; [lia| |set_solver]. split; [set_solver|lia].
Qed.

Lemma step_copy w g t p : good w g → p ∈ handles g → count_of (heap w) p < 2 ^ 64 - 1 → goes_well w g t (Copy p).
Proof.
  intros (h & c & Hw & I) Hin Hroom. rewrite (proj1 Hw) in Hroom.
  destruct (inv_handle _ _ _ _ _ (proj1 I) p Hin) as (y & Hy & Hp).
  destruct (inv_primary _ _ _ _ _ _ I Hy Hp) as (_ & Hpos & _). unfold count_of in Hroom. rewrite Hy in Hroom.
  destruct (increment_ok w h c p y Hw Hpos Hy (primary_flag y Hp)) as (w1 & H1 & Hw1).
  exists 0, w1. cbn [run]. rewrite (cbind_ret _ _ _ _ _ H1). split; [done|]. eexists _, _. split; [exact Hw1|].
  by apply inv_copy.
Qed.

Lemma step_drop w g t p : good w g → p ∈ handles g → goes_well w g t (Drop p).
Proof.
  intros (h & c & Hw & I) Hin. destruct (inv_handle _ _ _ _ _ (proj1 I) p Hin) as (y & Hy & Hp).
  destruct (inv_primary _ _ _ _ _ _ I Hy Hp) as (_ & Hpos & Hf & _).
  destruct (releaseException_ok eb throws no_throw w h c t p y Hw Hf Hy) as (w1 & H1 & Hw1);
    rewrite ?(primary_flag y Hp) in *; [done|].
  exists 0, w1. cbn [run]. unfold cxa_decrement_exception_refcount.
  destruct (Z.eqb_spec (object_of p) 0) as [Hz|_]; [unfold object_of, sizeof_exception in Hz; lia|].
  rewrite header_of_object, (cbind_ret _ _ _ _ _ H1). split; [done|]. eexists _, _. split; [exact Hw1|].
  by apply inv_drop.
Qed.

(** The primary exception of one that a thread has. *)
Lemma real_of_owned h c g e t :
  inv eb h c g → owner g !! e = Some t →
  ∃ x y, h !! e = Some x ∧ h !! real_of h e = Some y ∧ is_primary y
    ∧ real_of h e = if isDependentException (unwind_class x) then header_of (primaryException x) else e.
Proof.
  intros I Ho. destruct (owned_exception h c g e t I Ho) as (x & Hx & Hk & _ & _ & _ & Hd). unfold real_of. rewrite Hx.
  destruct Hk as [Hp|Hdep].
  - exists x, x. by rewrite (primary_flag x Hp).
  - destruct (Hd Hdep) as (p & y & Hpr & _ & _ & _ & Hy & Hyp).
    exists x, y. by rewrite (dependent_flag x Hdep), Hpr, header_of_object.
Qed.

Lemma step_share w g t :
  good w g → (∀ e l, stack g t = e :: l → count_of (heap w) (real_of (heap w) e) < 2 ^ 64 - 1) → goes_well w g t Share.
Proof.
  intros (h & c & Hw & I) Hroom. rewrite (proj1 Hw) in Hroom. unfold goes_well. rewrite (proj1 Hw).
  pose proof (inv_linked _ _ _ _ _ (proj2 I) t) as Hl. cbn [run next]. destruct (stack g t) as [|e l] eqn:Hs.
  - destruct (current_none w h c t Hw Hl) as (w1 & H1 & Hw1). exists 0, w1. split; [done|]. by exists h, c.
  - destruct Hl as [Hct _].
    assert (Ho : owner g !! e = Some t) by (apply (inv_stack _ _ _ _ _ (proj2 I)); rewrite Hs; by left).
    destruct (real_of_owned h c g e t I Ho) as (x & y & Hx & Hy & Hyp & Hr).
    destruct (owned_exception h c g e t I Ho) as (_ & _ & _ & Hpos & _).
    specialize (Hroom e l eq_refl). unfold count_of in Hroom. rewrite Hy in Hroom.
    assert (Hy' : h !! (if isDependentException (unwind_class x) then header_of (primaryException x) else e) = Some y)
      by (by rewrite <- Hr).
    destruct (current_ok w h c t e x y Hw Hct ltac:(lia) Hx Hy') as (w1 & H1 & Hw1).
    eexists _, w1. split; [exact H1|]. rewrite <- Hr in Hw1. eexists _, _. split; [exact Hw1|]. by apply inv_copy.
Qed.

Lemma step_rethrow_primary w g t p m :
  good w g → p ∈ handles g → count_of (heap w) p < 2 ^ 64 - 1 → new_memory (heap w) m →
  goes_well w g t (RethrowPrimary p m).
Proof.
  intros (h & c & Hw & I) Hin Hroom (Hpos & Hf & Hm). rewrite (proj1 Hw) in Hroom, Hm.
  destruct (inv_handle _ _ _ _ _ (proj1 I) p Hin) as (y & Hy & Hp).
  destruct (inv_primary _ _ _ _ _ _ I Hy Hp) as (_ & Hppos & _). unfold count_of in Hroom. rewrite Hy in Hroom.
  destruct (rethrow_primary_ok eb w h c t p y m 0 Hw Hppos Hy (primary_flag y Hp) ltac:(lia) Hm)
    as (u & te & w1 & H1 & Hw1).
  eexists _, w1. cbn [run]. rewrite (cbind_ret _ _ _ _ _ H1). split; [done|]. eexists _, _. split; [exact Hw1|].
  pose proof (inv_copy eb h c g p y I Hy Hp Hroom) as I1.
  assert (Hmp : m ≠ p) by (intros ->; congruence).
  pose proof (inv_dependent_new eb _ c _ t p _ m (nextException y) u te I1
    ltac:(cbn; multiset_solver) (lookup_insert_eq _ _ _) Hp ltac:(by rewrite lookup_insert_ne) Hpos Hf) as I2.
  cbn [next building owner flying stack handles with_handles] in *.
  assert ((handles g ⊎ {[+ p +]}) ∖ {[+ p +]} = handles g) as Hms by multiset_solver.
  by rewrite Hms in I2.
Qed.

Lemma step_end_catch w g t : good w g → stack g t ≠ [] → goes_well w g t EndCatch.
Proof.
  intros (h & c & Hw & I) Hne. destruct (stack g t) as [|e l] eqn:Hs; [done|]. clear Hne.
  assert (Hin : e ∈ stack g t) by (rewrite Hs; by left).
  assert (Ho : owner g !! e = Some t) by (by apply (inv_stack _ _ _ _ _ (proj2 I))).
  destruct (owned_exception h c g e t I Ho) as (x & Hx & Hk & Hpos & Hfe & HB & Hdep).
  pose proof (inv_linked _ _ _ _ _ (proj2 I) t) as Hl. rewrite Hs in Hl. destruct Hl as [Hct _].
  destruct (inv_owner _ _ _ _ _ (proj2 I) e t Ho) as (x' & Hx' & _ & [(_ & Hnz & Hneg)|(Hn & _)]); [|done].
  rewrite Hx in Hx'. injection Hx' as <-.
  destruct (end_catch_ok eb throws no_throw w h c t e x Hw Hct ltac:(lia) Hx Hfe) as (w1 & H1 & Hw1).
  { destruct Hk as [Hp|Hd]; [by rewrite (primary_flag x Hp)|]. rewrite (dependent_flag x Hd).
    destruct (Hdep Hd) as (p & y & ? & ? & ? & ? & ? & Hy). exists p, y. by rewrite (primary_flag y Hy). }
  exists 0, w1. cbn [run]. rewrite (cbind_ret _ _ _ _ _ H1). split; [done|].
  cbn [next]. rewrite Hs, (proj1 Hw). unfold handlers_of. rewrite Hx. change (default zeroed (Some x)) with x.
  destruct (Z.eqb_spec (handlerCount x) 1) as [Hh|Hh]; [|destruct (Z.eqb_spec (handlerCount x) (-1)) as [Hh'|Hh']];
    (eexists _, _; split; [exact Hw1|]).
  - destruct Hk as [Hp|Hd].
    + rewrite (primary_flag x Hp).
      pose proof (inv_pop_primary eb h c g t e l x I Hs Hx Hp Hh) as I1.
      pose proof (inv_drop eb _ _ _ e _ I1 ltac:(cbn; multiset_solver) (lookup_insert_eq _ _ _) Hp) as I2.
      cbn [building owner flying stack handles with_handles popped] in I2.
      assert ((handles g ⊎ {[+ e +]}) ∖ {[+ e +]} = handles g) as Hms by multiset_solver. rewrite Hms in I2.
      assert (release_heap e (set_handler_count 0 x) (<[e := set_handler_count 0 x]> h)
              = release_heap e (set_handler_count 0 x) h) as <-; [|exact I2].
      unfold release_heap. destruct (_ =? 0); [by rewrite delete_insert_eq|by rewrite insert_insert_eq].
    + rewrite (dependent_flag x Hd). destruct (Hdep Hd) as (p & y & Hpr & Hppos & Hpe & Hfp & Hy & Hyp).
      cbv zeta. rewrite Hpr, header_of_object, Hy. change (default zeroed (Some y)) with y.
      pose proof (inv_pop_dependent eb h c g t e l x p I Hs Hx Hd Hh Hpr) as I1.
      pose proof (inv_drop eb _ _ _ p y I1 ltac:(cbn; multiset_solver) ltac:(by rewrite lookup_delete_ne) Hyp) as I2.
      cbn [building owner flying stack handles with_handles popped] in I2.
      assert ((handles g ⊎ {[+ p +]}) ∖ {[+ p +]} = handles g) as Hms by multiset_solver. rewrite Hms in I2.
      assert (delete e (release_heap p y h) = release_heap p y (delete e h)) as ->; [|exact I2].
      unfold release_heap. destruct (_ =? 0); [by rewrite delete_delete|by rewrite delete_insert_ne].
  - assert (e ∈ flying g) by (apply Hneg; lia). split; cbn [building owner flying stack handles].
    + by apply (mem_same h g e x _ (proj1 I)).
    + apply (use_pop h c _ _ _ (proj2 I) e t l x); try done.
      * intros d Hd. by rewrite lookup_insert_ne.
      * right. split; [done|]. split; [done|]. eexists. by rewrite lookup_insert_eq.
  - split.
    + by apply (mem_same h g e x _ (proj1 I)).
    + apply (use_count h c _ _ _ (proj2 I) e t x); try done.
      * destruct (Z.ltb_spec (handlerCount x) 0); lia.
      * rewrite <- Hneg. destruct (Z.ltb_spec (handlerCount x) 0); lia.
Qed.

Lemma step w g t o : good w g → allowed (heap w) g t o → goes_well w g t o.
Proof.
  intros Hg. destruct o; cbn [allowed].
  - by apply step_allocate.
  - by apply step_throw.
  - by apply step_discard.
  - intros (? & ? & ?). by apply step_catch.
  - by apply step_end_catch.
  - intros (e & l & ? & ?). by apply (step_rethrow w g t e l).
  - by apply step_share.
  - intros [? ?]. by apply step_copy.
  - by apply step_drop.
  - intros (? & ? & ?). by apply step_rethrow_primary.
Qed.

(** The worlds a program reaches from the one without exceptions. *)
Definition start (t u : Z) : world :=
  World ∅ ∅ ∅ (replicate 16 false) t u false (Statics None None None None) [].
Definition nothing : ghost := Ghost ∅ ∅ ∅ (λ _, []) ∅.

Inductive reachable : world → ghost → Prop :=
  | reach_start t u : reachable (start t u) nothing
  | reach_step w g t o r w' :
      reachable w g → allowed (heap w) g t o → run t o w = (r, w') → reachable w' (next (heap w) g t o).

Lemma reachable_good w g : reachable w g → good w g.
Proof.
  induction 1 as [t u|w g t o r w' _ IH Ha Hr].
  - exists ∅, (λ _, 0). split; [done|]. split; split; try done.
    all: cbn; intros; first [by rewrite ?lookup_empty in * | apply NoDup_nil_2 | multiset_solver | set_solver].
  - destruct (step w g t o IH Ha) as (r' & w2 & H2 & Hg). rewrite Hr in H2. by injection H2 as _ ->.
Qed.
End program.

(** ** Theorems *)

(** C27: whatever a program throws, catches, rethrows and shares, in however many
    threads, every call ends, and none uses an exception that was freed, frees one twice
    or fails an assertion.  The calls are those the language allows: what is caught flies
    in the thread, what is rethrown is being handled, pointers are used that are there, and
    no count is at its limit.  The exceptions are this runtime's own, memory for them is
    always there in the heap, outside the emergency buffers, and no destructor of an
    exception throws: out of memory the runtime can fail an assertion
    ([emergency_buffers]). *)
Theorem exceptions_safe eb throws w g t o :
  (∀ d obj, throws d obj = false) → reachable eb throws w g → allowed eb (heap w) g t o →
  ∃ r w', run eb throws t o w = (Ret r, w') ∧ reachable eb throws w' (next (heap w) g t o).
Proof.
  intros Hn Hr Ha. destruct (step eb throws Hn w g t o (reachable_good eb throws Hn w g Hr) Ha) as (r & w' & H1 & _).
  exists r, w'. split; [done|]. by eapply reach_step.
Qed.

(** C28: an exception lives exactly as long as it has owners, which its count counts:
    the thread it is in flight or caught in, the pointers to it and the dependent
    exceptions that share it.  When the program holds nothing, nothing is left. *)
Theorem exceptions_counted eb throws w g :
  (∀ d obj, throws d obj = false) → reachable eb throws w g →
  (∀ e x, heap w !! e = Some x → is_primary x →
     referenceCount x = owners (heap w) (owner g) (handles g) e ∧ 0 < referenceCount x)
  ∧ (∀ e, is_Some (owner g !! e) ∨ e ∈ handles g ∨ e ∈ building g → is_Some (heap w !! e))
  ∧ (owner g = ∅ → handles g = ∅ → building g = ∅ → heap w = ∅).
Proof.
  intros Hn Hr. destruct (reachable_good eb throws Hn w g Hr) as (h & c & [-> _] & Im & Iu). split; [|split].
  - intros e x He Hx. destruct (inv_count _ _ _ _ _ Im e x He Hx). split; [done|lia].
  - intros e [[t Ho]|[Hh|Hb]].
    + destruct (inv_owner _ _ _ _ _ Iu e t Ho) as (x & Hx & _). by exists x.
    + destruct (inv_handle _ _ _ _ _ Im e Hh) as (x & Hx & _). by exists x.
    + destruct (inv_building _ _ _ _ _ Im e Hb) as [Hx _]. by eexists.
  - intros Ho Hh Hb. apply map_empty. intros e. destruct (h !! e) as [x|] eqn:Hx; [|done]. exfalso.
    assert (Hnodep : ∀ d z, h !! d = Some z → ¬ is_dependent z).
    { intros d z Hd Hz. destruct (inv_dependent _ _ _ _ _ Im d z Hd Hz) as [[t Hdo] _].
      by rewrite Ho, lookup_empty in Hdo. }
    destruct (inv_class _ _ _ _ _ Im e x Hx) as [Hin|[Hp|Hd]]; [set_solver| |by eapply Hnodep].
    destruct (inv_count _ _ _ _ _ Im e x Hx Hp) as [Hc Hpos]. unfold owners in Hc.
    rewrite Ho, Hh, lookup_empty, multiplicity_empty, bool_decide_eq_false_2 in Hc by (by intros [? ?]).
    assert (shares e h = 0); [|cbn in Hc; lia]. unfold shares.
    assert (filter (λ p : Z * exn, shares_of e p.2) h = ∅) as ->; [|by rewrite map_size_empty].
    apply map_empty_filter. intros d z Hd [Hz _]. by apply (Hnodep d z).
Qed.

(** A world where the buffers are what they are, and thread [t] holds [k]. *)
Definition buffers (w : world) (t k : Z) (bs : list bool) : Prop :=
  buffer_allocated w = bs ∧ length bs = 16%nat ∧
  emergencyBuffersHeld (default new_info (infos w !! t)) = k.

Lemma free_buffer_some bs i :
  free_buffer bs = Some i ↔ bs !! i = Some false ∧ ∀ j, (j < i)%nat → bs !! j = Some true.
Proof.
  revert i. induction bs as [|b bs IH]; intros i; [by split; [|intros [? _]]|]. cbn [free_buffer]. destruct b.
  - destruct i as [|i]; [split; [by destruct (free_buffer bs)|by intros [? _]]|].
    assert (S <$> free_buffer bs = Some (S i) ↔ free_buffer bs = Some i) as -> by
      (destruct (free_buffer bs); cbn; naive_solver).
    rewrite IH. change ((true :: bs) !! S i) with (bs !! i). split; intros [Hi Hj]; (split; [exact Hi|]).
    + intros [|j] Hlt; [done|]. apply (Hj j). lia.
    + intros j Hlt. apply (Hj (S j)). lia.
  - split; [intros [= <-]; split; [done|lia]|]. intros [Hi Hj]. destruct i as [|i]; [done|].
    by specialize (Hj O ltac:(lia)).
Qed.

Lemma find_only {A} (f : A → bool) l a :
  a ∈ l → f a = true → (∀ b, f b = true → b = a) → find f l = Some a.
Proof.
  intros Hin Ha Hu. induction l as [|b l IH]; [by apply elem_of_nil in Hin|]. cbn [find].
  destruct (f b) eqn:Hb; [by rewrite (Hu b Hb)|]. apply elem_of_cons in Hin as [->|Hin]; [congruence|auto].
Qed.

Lemma buffer_of_index eb i : 0 ≤ i < 16 → buffer_of eb (eb + 1024 * i) = i.
Proof.
  intros Hi. unfold buffer_of. rewrite (find_only _ _ i); [done|..].
  - apply elem_of_seqZ. lia.
  - apply Z.eqb_refl.
  - intros j Hj%Z.eqb_eq. lia.
Qed.

(** When memory has run out a thread gets the first buffer that is free, or sleeps
    if none is, up to its fourth; what it gives back is free again.  But the buffer it
    gives back counts as held, and the first of the sixteen cannot be given back. *)
Theorem emergency_buffers eb w t k bs size :
  buffers w t k bs → 0 ≤ k → 0 ≤ size ≤ 1024 →
  (3 < k → ∃ w', emergency_malloc eb t size 0 w = (Ret (Buffer 0), w') ∧ buffer_allocated w' = bs)
  ∧ (k ≤ 3 → Forall (λ b, b = true) bs →
     ∃ w', emergency_malloc eb t size 0 w = (Ret Sleeping, w') ∧ buffers w' t k bs)
  ∧ (∀ i, k ≤ 3 → bs !! i = Some false → (∀ j, (j < i)%nat → bs !! j = Some true) →
     ∃ w', emergency_malloc eb t size 0 w = (Ret (Buffer (eb + 1024 * Z.of_nat i)), w')
       ∧ buffers w' t (k + 1) (<[i := true]> bs)
       ∧ if decide (i = O) then (emergency_malloc_free eb (eb + 1024 * Z.of_nat i) w').1 = AssertFailed
         else ∃ w2, emergency_malloc_free eb (eb + 1024 * Z.of_nat i) w' = (Ret tt, w2) ∧ buffers w2 t (k + 1) bs).
Proof.
  intros (Hb & Hlen & Hk) Hk0 Hs.
  assert (Hi : ∃ i w1, thread_info_ t w = (Ret i, w1) ∧ infos w1 !! t = Some i ∧ emergencyBuffersHeld i = k
    ∧ buffer_allocated w1 = bs).
  { unfold thread_info_. destruct (infos w !! t) as [i|] eqn:Hi; [by exists i, w|].
    exists new_info. eexists. split; [reflexivity|]. cbn. by rewrite lookup_insert_eq. }
  destruct Hi as (i & w1 & H1 & Hi & Hki & Hb1). unfold emergency_malloc.
  destruct (Z.ltb_spec 1024 size); [lia|]. rewrite (cbind_ret _ _ _ _ _ H1), Hki. change (negb (0 =? 0)) with false.
  cbv iota. split; [|split].
  - intros Hlt. destruct (Z.ltb_spec 3 k); [|lia]. by exists w1.
  - intros Hle Hall. destruct (Z.ltb_spec 3 k); [lia|]. unfold cbind, cget. rewrite Hb1.
    assert (free_buffer bs = None) as ->.
    { destruct (free_buffer bs) as [j|] eqn:Hf; [|done]. apply free_buffer_some in Hf as [Hj _].
      rewrite Forall_lookup in Hall. by apply Hall in Hj. }
    exists w1. split; [done|]. unfold buffers. by rewrite Hi.
  - intros j Hle Hj Hfirst. destruct (Z.ltb_spec 3 k); [lia|]. unfold cbind at 1, cget. rewrite Hb1.
    rewrite (proj2 (free_buffer_some bs j) (conj Hj Hfirst)).
    assert (Hj16 : (j < 16)%nat) by (rewrite <- Hlen; by eapply lookup_lt_Some).
    unfold cbind, cput, update_info, thread_info_fast, cbind, cmodify, set_buffers. cbn [infos]. rewrite Hi.
    eexists. split; [reflexivity|]. split.
    + split; [done|]. rewrite length_insert. split; [done|]. cbn. rewrite lookup_insert_eq. cbn. lia.
    + unfold emergency_malloc_free. rewrite buffer_of_index by lia. case_decide as Hz.
      * subst j. done.
      * destruct (Z.ltb_spec 0 (Z.of_nat j)); [|lia]. unfold cbind, assert_, cret, cmodify.
        eexists. split; [reflexivity|]. rewrite Nat2Z.id. split; [|split; [done|]].
        -- cbn. rewrite list_insert_insert_eq. by apply list_insert_id.
        -- cbn. rewrite lookup_insert_eq. cbn. lia.
Qed.

(** *** Corners *)

Section corners.
Context (eb : Z) (throws : Z → Z → bool).

Definition then_ (m : comp world Z) (k : comp world Z) : comp world Z := m ;;; k.
Definition runs (os : list op) : comp world Z := foldr (λ o k, then_ (run 1000000 throws 1 o) k) (cret 0) os.

(** An exception that is caught, thrown again and caught again leaves the count of
    uncaught exceptions at the greatest number: throwing again does not count. *)
Lemma rethrow_miscounted w' r :
  runs [Allocate 8 4096; Throw_ 4096 7 0; Catch 4096; Rethrow; Catch 4096; EndCatch; EndCatch] (start 1 2) = (r, w') →
  heap w' = ∅ ∧ uncaughtExceptions (default new_info (infos w' !! 1)) = 2 ^ 32 - 1
  ∧ (uncaught_exception 1 w').1 = Ret true.
Proof. intros H. vm_compute in H. injection H as _ <-. by vm_compute. Qed.

(** Leaving the handler of a foreign exception forgets it before it is asked to clean
    itself up. *)
Lemma foreign_end_catch :
  ((let* _ := cxa_begin_catch 1 8192 in cxa_end_catch 1000000 throws 1)
    (World ∅ {[8192 := 5]} ∅ (replicate 16 false) 1 2 false (Statics None None None None) [])).1
  = Undef NullDeref.
Proof. by vm_compute. Qed.

(** Another runtime that catches an exception of this library cannot free it: the
    function it calls takes the [_Unwind_Exception] for the object. *)
Lemma cleanup_misses e x w :
  heap w = {[e := x]} → e ≠ 0 → e ≠ 32 → (exception_cleanup eb throws 1 (e + offsetof_unwindHeader) w).1 = Undef DanglingReference.
Proof.
  intros Hh H0 H32. unfold exception_cleanup, cxa_free_exception, header_of, offsetof_unwindHeader, sizeof_exception.
  unfold cbind, header. rewrite Hh, lookup_singleton_ne by lia. destruct (Z.eqb_spec (e + 96 - 128) 0); [lia|done].
Qed.

(** A thread that sets its own terminate handler sets that of the thread that did so
    first. *)
Lemma handlers_not_local :
  let w := set_use_thread_local_handlers true (start 1 2) in
  ((let* _ := std_set_terminate 1 50 in let* _ := std_set_terminate 2 60 in
    let* a := get_terminate 1 in let* b := get_terminate 2 in cret (a, b)) w).1 = Ret (60, 1).
Proof. by vm_compute. Qed.
End corners.

(** ** Witnesses *)

Definition never (_ _ : Z) : bool := false.

(** A program throws an exception, catches it and keeps a pointer to it. *)
Definition after (t : Z) (o : op) (s : world * ghost) : world * ghost :=
  ((run 1000000 never t o s.1).2, next (heap s.1) s.2 t o).
Definition caught_and_shared : world * ghost :=
  after 1 Share (after 1 (Catch 4096) (after 1 (Throw_ 4096 7 9) (after 1 (Allocate 8 4096) (start 1 2, nothing)))).

Lemma after_reachable t o s :
  reachable 1000000 never s.1 s.2 → allowed 1000000 (heap s.1) s.2 t o →
  reachable 1000000 never (after t o s).1 (after t o s).2.
Proof. intros Hr Ha. eapply reach_step; [exact Hr|exact Ha|]. apply surjective_pairing. Qed.

Lemma caught_and_shared_reachable : reachable 1000000 never caught_and_shared.1 caught_and_shared.2.
Proof.
  unfold caught_and_shared.
  apply after_reachable; [apply after_reachable; [apply after_reachable; [apply after_reachable; [apply reach_start|]|]|]|].
  - split; [done|]. split; [by split|done].
  - change (4096 ∈ (∅ : gset Z) ∪ {[4096]}). set_solver.
  - split; [by vm_compute|]. split; [|by vm_compute].
    change (4096 ∈ (∅ : gset Z) ∪ {[4096]}). set_solver.
  - intros e l Hs. assert (e = 4096) as -> by (vm_compute in Hs; by injection Hs as <- _). by vm_compute.
Qed.

Lemma exceptions_safe_witness :
  ∃ r w', run 1000000 never 1 EndCatch caught_and_shared.1 = (Ret r, w').
Proof.
  destruct (exceptions_safe 1000000 never caught_and_shared.1 caught_and_shared.2 1 EndCatch)
    as (r & w' & H & _).
  - done.
  - apply caught_and_shared_reachable.
  - by vm_compute.
  - by exists r, w'.
Defined.

Lemma exceptions_counted_witness :
  owners (heap caught_and_shared.1) (owner caught_and_shared.2) (handles caught_and_shared.2) 4096 = 2.
Proof.
  destruct (exceptions_counted 1000000 never caught_and_shared.1 caught_and_shared.2) as (Hc & _).
  - done.
  - apply caught_and_shared_reachable.
  - assert (Hx : ∃ x, heap caught_and_shared.1 !! 4096 = Some x ∧ is_primary x ∧ referenceCount x = 2)
      by (eexists; split; [by vm_compute|by split]).
    destruct Hx as (x & Hx & Hp & Hr). rewrite <- Hr. symmetry. by apply Hc.
Defined.

Lemma emergency_buffers_witness :
  ∃ w', emergency_malloc 1000000 1 200 0
          (World ∅ ∅ ∅ (true :: replicate 15 false) 1 2 false (Statics None None None None) [])
        = (Ret (Buffer 1001024), w') ∧ buffers w' 1 1 (true :: true :: replicate 14 false).
Proof.
  destruct (emergency_buffers 1000000
    (World ∅ ∅ ∅ (true :: replicate 15 false) 1 2 false (Statics None None None None) []) 1 0
    (true :: replicate 15 false) 200) as (_ & _ & H); [by split|lia|lia|].
  destruct (H 1%nat) as (w' & Hr & Hb & _); [lia|done|intros j Hj; by assert (j = 0%nat) as -> by lia|].
  exists w'. by split.
Defined.
