(* ===== verification/Text.v ===== *)
(** * Text: the parts of [std::string] and of number formatting the code uses

    Positions are [size_t] values in [Z], so that [idx + 1] wraps at [npos] as
    it does in the code.  Printing and scanning of decimal integers follow the
    C locale. *)

From S2P Require Import Prelude.

(** ** Searching and slicing *)

Fixpoint index_of (c : ascii) (s : bytes) : option nat :=
  match s with
  | [] => None
  | x :: s' => if decide (x = c) then Some 0%nat else S <$> index_of c s'
  end.

(** [s.find("c")] for a one-character needle. *)
Definition find_char (c : ascii) (s : bytes) : Z :=
  match index_of c s with Some i => Z.of_nat i | None => npos end.

Fixpoint starts_with (needle s : bytes) : bool :=
  match needle, s with
  | [], _ => true
  | n :: needle', x :: s' => bool_decide (n = x) && starts_with needle' s'
  | _ :: _, [] => false
  end.

Fixpoint index_of_sub (needle s : bytes) : option nat :=
  if starts_with needle s then Some 0%nat
  else match s with
       | [] => None
       | _ :: s' => S <$> index_of_sub needle s'
       end.

(** [s.find(needle, pos)]. *)
Definition find_from (s needle : bytes) (pos : Z) : Z :=
  if decide (zlen s < pos) then npos
  else match index_of_sub needle (drop (Z.to_nat pos) s) with
       | Some i => pos + Z.of_nat i
       | None => npos
       end.

(** [s.substr(pos, n)]: throws [std::out_of_range] beyond the end. *)
Definition substr (s : bytes) (pos n : Z) : outcome bytes :=
  if decide (zlen s < pos) then Throw (str "out_of_range")
  else Ret (take (Z.to_nat (Z.min n (zlen s - pos))) (drop (Z.to_nat pos) s)).

(** [std::replace] over a whole string. *)
Definition replace_char (old new : ascii) (s : bytes) : bytes :=
  map (λ c, if decide (c = old) then new else c) s.

(** ** Decimal numbers *)

Definition isspace (c : ascii) : bool :=
  bool_decide (c = SPACE) || (bool_decide (9 ≤ byte_val c) && bool_decide (byte_val c ≤ 13)).
Definition isdigit (c : ascii) : bool :=
  bool_decide (48 ≤ byte_val c) && bool_decide (byte_val c ≤ 57).

Definition digit (d : Z) : ascii := byte_of (48 + d).

Fixpoint dec_go (fuel : nat) (n : Z) : bytes :=
  match fuel with
  | O => []
  | S fuel' => if decide (n < 10) then [digit n]
               else dec_go fuel' (n / 10) ++ [digit (n mod 10)]
  end.

Definition dec_fuel (n : Z) : nat := S (Z.to_nat (Z.log2 n)).

(** [os << n] for an integer [n]. *)
Definition dec (n : Z) : bytes :=
  if decide (n < 0) then str "-" ++ dec_go (dec_fuel (- n)) (- n)
  else dec_go (dec_fuel n) n.

Definition digits_val (ds : bytes) : Z :=
  fold_left (λ a c, 10 * a + (byte_val c - 48)) ds 0.

Fixpoint span (p : ascii → bool) (s : bytes) : bytes * bytes :=
  match s with
  | [] => ([], [])
  | c :: s' => if p c then let '(a, b) := span p s' in (c :: a, b) else ([], s)
  end.

(** What [num_get] extracts from a stream positioned at a non-space: the stored
    value, whether it failed, and the characters left. *)
Definition scan_int (lo hi : Z) (s : bytes) : Z * bool * bytes :=
  let '(neg, s1) :=
    match s with
    | c :: t => if decide (c = "-"%char) then (true, t)
                else if decide (c = "+"%char) then (false, t) else (false, s)
    | [] => (false, s)
    end in
  let '(ds, s2) := span isdigit s1 in
  if decide (ds = []) then (0, true, s2)
  else
    let v := if neg : bool then - digits_val ds else digits_val ds in
    if decide (v < lo) then (lo, true, s2)
    else if decide (hi < v) then (hi, true, s2)
    else (v, false, s2).

(** ** Lemmas *)

Lemma index_of_app_hit c a b :
  c ∉ a → index_of c (a ++ c :: b) = Some (length a).
Proof.
  induction a as [|x a IH]; intros Hni; cbn.
  - now rewrite decide_True.
  - rewrite decide_False by set_solver. rewrite IH by set_solver. done.
Qed.

Lemma index_of_miss c s : c ∉ s → index_of c s = None.
Proof.
  induction s as [|x s IH]; intros Hni; cbn; [done|].
  rewrite decide_False by set_solver. rewrite IH by set_solver. done.
Qed.

Lemma find_char_hit c a b : c ∉ a → find_char c (a ++ c :: b) = zlen a.
Proof. intros. unfold find_char. now rewrite index_of_app_hit. Qed.

Lemma find_char_miss c s : c ∉ s → find_char c s = npos.
Proof. intros. unfold find_char. now rewrite index_of_miss. Qed.

Lemma substr_prefix a b :
  substr (a ++ b) 0 (zlen a) = Ret a.
Proof.
  unfold substr. pose proof (zlen_nonneg a). pose proof (zlen_nonneg b).
  rewrite Z.sub_0_r, zlen_app. rewrite decide_False by lia. f_equal.
  rewrite Z.min_l by lia. rewrite drop_0. apply take_zlen_app.
Qed.

Lemma substr_suffix a b n :
  zlen b ≤ n → substr (a ++ b) (zlen a) n = Ret b.
Proof.
  intros Hn. unfold substr.
  pose proof (zlen_nonneg b). rewrite zlen_app.
  rewrite decide_False by lia. f_equal.
  rewrite drop_zlen_app. apply take_ge. unfold zlen in *. lia.
Qed.

Lemma substr_all s n : zlen s ≤ n → substr s 0 n = Ret s.
Proof. apply (substr_suffix [] s n). Qed.

Lemma replace_char_id old new s : old ∉ s → replace_char old new s = s.
Proof.
  induction s as [|c s IH]; intros Hni; cbn; [done|].
  rewrite decide_False by set_solver. f_equal. apply IH. set_solver.
Qed.

Lemma replace_char_back a b s :
  b ∉ s → replace_char b a (replace_char a b s) = s.
Proof.
  unfold replace_char. induction s as [|c s IH]; intros Hni; cbn; [done|].
  rewrite IH by set_solver. f_equal.
  repeat case_decide; set_solver.
Qed.

Lemma length_replace_char a b s : length (replace_char a b s) = length s.
Proof. apply length_map. Qed.

Lemma replace_char_app a b s t :
  replace_char a b (s ++ t) = replace_char a b s ++ replace_char a b t.
Proof. apply map_app. Qed.

(** *** Digits *)

Lemma digit_val d : 0 ≤ d < 10 → byte_val (digit d) = 48 + d.
Proof. intros. unfold digit. rewrite byte_val_of, Z.mod_small; lia. Qed.

Lemma digit_isdigit d : 0 ≤ d < 10 → isdigit (digit d) = true.
Proof.
  intros. unfold isdigit. rewrite digit_val by done.
  rewrite !bool_decide_true by lia. done.
Qed.

Lemma isdigit_neg c v : byte_val c = v → ¬ (48 ≤ v ≤ 57) → isdigit c = false.
Proof.
  intros <- Hv. unfold isdigit.
  destruct (decide (48 ≤ byte_val c)), (decide (byte_val c ≤ 57));
    rewrite ?bool_decide_true, ?bool_decide_false by lia; try done; lia.
Qed.

Lemma isspace_digit c : isdigit c = true → isspace c = false.
Proof.
  unfold isdigit, isspace. intros [H1%bool_decide_eq_true H2%bool_decide_eq_true]%andb_prop.
  apply orb_false_intro.
  - apply bool_decide_eq_false. intros ->. vm_compute in H1. done.
  - apply andb_false_intro2, bool_decide_eq_false. lia.
Qed.

(** Recursion on the fuel: [n] needs no more digits than bits. *)
Lemma dec_fuel_enough n : 0 ≤ n → n < 2 ^ Z.of_nat (dec_fuel n).
Proof.
  intros. unfold dec_fuel.
  destruct (decide (n = 0)) as [->|]; [done|].
  pose proof (Z.log2_spec n ltac:(lia)) as [_ ?].
  pose proof (Z.log2_nonneg n). replace (Z.of_nat _) with (Z.succ (Z.log2 n)) by lia. done.
Qed.

Lemma fuel_div10 fuel n :
  0 ≤ n → n < 2 ^ Z.of_nat (S fuel) → n / 10 < 2 ^ Z.of_nat fuel.
Proof.
  intros Hn Hf. rewrite Nat2Z.inj_succ, Z.pow_succ_r in Hf by lia.
  apply Z.div_lt_upper_bound; lia.
Qed.

Lemma digits_val_snoc ds c :
  digits_val (ds ++ [c]) = 10 * digits_val ds + (byte_val c - 48).
Proof. unfold digits_val. now rewrite fold_left_app. Qed.

Lemma dec_go_val fuel n :
  0 ≤ n → n < 2 ^ Z.of_nat fuel → digits_val (dec_go fuel n) = n.
Proof.
  revert n. induction fuel as [|fuel IH]; intros n Hn Hf; [cbn in Hf; cbn; lia|].
  cbn [dec_go]. case_decide.
  - unfold digits_val. cbn [fold_left]. rewrite digit_val by lia. lia.
  - rewrite digits_val_snoc, IH, digit_val; eauto using fuel_div10.
    + pose proof (Z.div_mod n 10 ltac:(lia)). lia.
    + apply Z.mod_pos_bound; lia.
    + apply Z.div_pos; lia.
Qed.

Lemma dec_go_digits fuel n : 0 ≤ n → Forall (λ c, isdigit c = true) (dec_go fuel n).
Proof.
  revert n. induction fuel as [|fuel IH]; intros n Hn; cbn; [constructor|].
  case_decide.
  - constructor; [apply digit_isdigit; lia|constructor].
  - apply Forall_app; split; [apply IH, Z.div_pos; lia|].
    constructor; [apply digit_isdigit, Z.mod_pos_bound; lia|constructor].
Qed.

Lemma dec_go_nonempty fuel n : dec_go (S fuel) n ≠ [].
Proof. cbn. case_decide; [done|]. now intros ?%app_eq_nil. Qed.

Lemma dec_val n : 0 ≤ n → digits_val (dec n) = n.
Proof.
  intros. unfold dec. rewrite decide_False by lia.
  apply dec_go_val; auto using dec_fuel_enough.
Qed.

Lemma dec_digits n : 0 ≤ n → Forall (λ c, isdigit c = true) (dec n).
Proof. intros. unfold dec. rewrite decide_False by lia. now apply dec_go_digits. Qed.

Lemma dec_nonempty n : 0 ≤ n → dec n ≠ [].
Proof. intros. unfold dec. rewrite decide_False by lia. apply dec_go_nonempty. Qed.

Lemma dec_inj n m : 0 ≤ n → 0 ≤ m → dec n = dec m → n = m.
Proof. intros Hn Hm E. rewrite <- (dec_val n), <- (dec_val m) by done. now rewrite E. Qed.

(** A character that is not a digit cannot occur in a printed number. *)
Lemma dec_not_in n c : 0 ≤ n → isdigit c = false → c ∉ dec n.
Proof.
  intros Hn Hc Hin. pose proof (dec_digits n Hn) as Hf.
  rewrite Forall_forall in Hf. apply Hf in Hin. congruence.
Qed.

Lemma span_forall p s t :
  Forall (λ c, p c = true) s →
  match t with [] => True | c :: _ => p c = false end →
  span p (s ++ t) = (s, t).
Proof.
  intros Hs Ht. induction Hs as [|c s Hc Hs IH]; cbn.
  - destruct t as [|c t]; [done|]. cbn. now rewrite Ht.
  - now rewrite Hc, IH.
Qed.

(** The delimiter after a number stops the scan there. *)
Definition stops_number (t : bytes) : Prop :=
  match t with [] => True | c :: _ => isdigit c = false end.

Lemma scan_dec lo hi n t :
  0 ≤ n → lo ≤ n ≤ hi → stops_number t →
  scan_int lo hi (dec n ++ t) = (n, false, t).
Proof.
  intros Hn Hb Ht. unfold scan_int.
  pose proof (dec_digits n Hn) as Hd. pose proof (dec_nonempty n Hn) as Hne.
  pose proof (dec_val n Hn) as Hv.
  destruct (dec n) as [|c ds] eqn:E; [done|].
  assert (isdigit c = true) as Hc by now inversion Hd.
  cbn [app].
  rewrite decide_False by (intros ->; done).
  rewrite decide_False by (intros ->; done).
  change (c :: ds ++ t) with ((c :: ds) ++ t). rewrite span_forall by done.
  rewrite decide_False by done. rewrite Hv.
  rewrite !decide_False by lia. done.
Qed.

Lemma scan_neg_dec lo hi n t :
  0 < n → lo ≤ - n ≤ hi → stops_number t →
  scan_int lo hi ("-"%char :: dec n ++ t) = (- n, false, t).
Proof.
  intros Hn Hb Ht. unfold scan_int. rewrite decide_True by done.
  rewrite span_forall by (done || (apply dec_digits; lia)).
  rewrite decide_False by (apply dec_nonempty; lia). rewrite dec_val by lia.
  rewrite !decide_False by lia. done.
Qed.

Example dec_4096 : dec 4096 = str "4096". Proof. reflexivity. Qed.
Example scan_ex : scan_int INT_MIN INT_MAX (str "-12,x") = (-12, false, str ",x").
Proof. reflexivity. Qed.
