(* ===== verification/StringConv.v ===== *)
(** * StringConv: numbers and strings, [string.cpp] in libc++

    [stoi] and its kin over the C library's [strtol] and its kin, and [to_string]
    over [snprintf].  A [string] or a [wstring] is the list of its characters' codes;
    the conversions of the C library are those of the standard in the "C" locale,
    and those to floating point are parameters. *)

From S2P Require Import Prelude Text.

Definition codes (s : bytes) : list Z := map byte_val s.

(** ** [strtol] and its kin *)

Definition is_space (c : Z) : bool := ((9 <=? c) && (c <=? 13)) || (c =? 32).

Definition digit_value (c : Z) : option Z :=
  if (48 <=? c) && (c <=? 57) then Some (c - 48)
  else if (97 <=? c) && (c <=? 122) then Some (c - 87)
  else if (65 <=? c) && (c <=? 90) then Some (c - 55)
  else None.

Definition is_digit (base c : Z) : bool :=
  match digit_value c with Some d => d <? base | None => false end.

Fixpoint read_digits (base : Z) (s : list Z) (acc : Z) : Z * nat :=
  match s with
  | c :: s' =>
      if is_digit base c then
        let '(v, n) := read_digits base s' (acc * base + default 0 (digit_value c)) in (v, S n)
      else (acc, O)
  | [] => (acc, O)
  end.

Fixpoint spaces (s : list Z) : nat :=
  match s with c :: s' => if is_space c then S (spaces s') else O | [] => O end.

Definition sign (s : list Z) : bool * nat :=
  match s with
  | c :: _ => if c =? 45 then (true, 1%nat) else if c =? 43 then (false, 1%nat) else (false, O)
  | [] => (false, O)
  end.

Definition hex_prefix (s : list Z) : bool :=
  match s with c0 :: x :: d :: _ => (c0 =? 48) && ((x =? 120) || (x =? 88)) && is_digit 16 d | _ => false end.

(** The base in use, and how long its prefix is. *)
Definition effective_base (base : Z) (s : list Z) : Z * nat :=
  if ((base =? 0) || (base =? 16)) && hex_prefix s then (16, 2%nat)
  else if base =? 0 then (match s with c :: _ => if c =? 48 then 8 else 10 | [] => 10 end, O)
  else (base, O).

(** The number at the start of a string: its value, and how many characters it takes,
    none when there is no number. *)
Definition scan_number (base : Z) (s : list Z) : Z * nat :=
  let w := spaces s in
  let '(neg, sg) := sign (drop w s) in
  let s2 := drop (w + sg) s in
  let '(b, pre) := effective_base base s2 in
  let '(v, n) := read_digits b (drop pre s2) 0 in
  match n with O => (0, O) | _ => (if neg : bool then - v else v, (w + sg + pre + n)%nat) end.

Definition valid_base (base : Z) : bool := (base =? 0) || ((2 <=? base) && (base <=? 36)).

(** The result, the end of the number, and whether [errno] is set to [ERANGE].  For a
    base that is none the end is not set. *)
Definition c_conversion : Type := list Z → Z → outcome (Z * nat * bool).

Definition LONG_MAX : Z := 2 ^ 63 - 1.
Definition LONG_MIN : Z := - 2 ^ 63.
Definition ULONG_MAX : Z := 2 ^ 64 - 1.

Definition strtol : c_conversion := λ s base,
  if valid_base base then
    let '(v, n) := scan_number base s in
    Ret (if v <? LONG_MIN then (LONG_MIN, n, true)
         else if LONG_MAX <? v then (LONG_MAX, n, true) else (v, n, false))
  else Undef UninitRead.

(** A minus sign negates in the unsigned type. *)
Definition strtoul : c_conversion := λ s base,
  if valid_base base then
    let '(v, n) := scan_number base s in
    Ret (if ULONG_MAX <? Z.abs v then (ULONG_MAX, n, true) else (wrap 64 v, n, false))
  else Undef UninitRead.

(** [long long] is as wide as [long], and the wide functions do what the narrow ones
    do. *)
Definition strtoll := strtol.
Definition strtoull := strtoul.
Definition wcstol := strtol.
Definition wcstoul := strtoul.
Definition wcstoll := strtol.
Definition wcstoull := strtoul.

(** ** [as_integer] and [as_float] *)

(** [errno], and what [idx] points to, if it is not null. *)
Record conv_state := ConvState { errno : Z; idx : option Z }.

Definition set_errno (e : Z) (s : conv_state) : conv_state := ConvState e (idx s).
Definition set_idx (i : Z) (s : conv_state) : conv_state :=
  ConvState (errno s) (match idx s with Some _ => Some i | None => None end).

Definition ERANGE : Z := 34.

Definition throw_from_string_out_of_range {A} (func : bytes) : comp conv_state A :=
  cthrow (func ++ str ": out of range").
Definition throw_from_string_invalid_arg {A} (func : bytes) : comp conv_state A :=
  cthrow (func ++ str ": no conversion").

Definition as_integer_helper (func : bytes) (s : list Z) (base : Z) (f : c_conversion)
  : comp conv_state Z :=
  let* s0 := cget in
  let errno_save := errno s0 in
  let* _ := cmodify (set_errno 0) in
  let* rne := clift (f s base) in
  let '(r, n, erange) := rne in
  let* _ := cmodify (if erange : bool then set_errno ERANGE else id) in
  let* s1 := cget in
  let* _ := cmodify (set_errno errno_save) in
  if errno s1 =? ERANGE then throw_from_string_out_of_range func
  else if decide (n = O) then throw_from_string_invalid_arg func
  else let* _ := cmodify (set_idx (Z.of_nat n)) in cret r.

(** [as_integer], for each result type on a [string] and on a [wstring]; [int] goes
    through [long]. *)
Definition as_integer_int (func : bytes) (s : list Z) (base : Z) : comp conv_state Z :=
  let* r := as_integer_helper func s base strtol in
  if (r <? INT_MIN) || (INT_MAX <? r) then throw_from_string_out_of_range func else cret r.
Definition as_integer_long (func : bytes) (s : list Z) (base : Z) :=
  as_integer_helper func s base strtol.
Definition as_integer_unsigned_long (func : bytes) (s : list Z) (base : Z) :=
  as_integer_helper func s base strtoul.
Definition as_integer_long_long (func : bytes) (s : list Z) (base : Z) :=
  as_integer_helper func s base strtoll.
Definition as_integer_unsigned_long_long (func : bytes) (s : list Z) (base : Z) :=
  as_integer_helper func s base strtoull.
Definition as_integer_int_wide (func : bytes) (s : list Z) (base : Z) : comp conv_state Z :=
  let* r := as_integer_helper func s base wcstol in
  if (r <? INT_MIN) || (INT_MAX <? r) then throw_from_string_out_of_range func else cret r.
Definition as_integer_long_wide (func : bytes) (s : list Z) (base : Z) :=
  as_integer_helper func s base wcstol.
Definition as_integer_unsigned_long_wide (func : bytes) (s : list Z) (base : Z) :=
  as_integer_helper func s base wcstoul.
Definition as_integer_long_long_wide (func : bytes) (s : list Z) (base : Z) :=
  as_integer_helper func s base wcstoll.
Definition as_integer_unsigned_long_long_wide (func : bytes) (s : list Z) (base : Z) :=
  as_integer_helper func s base wcstoull.

Definition stoi (s : list Z) (base : Z) := as_integer_int (str "stoi") s base.
Definition stoi_wide (s : list Z) (base : Z) := as_integer_int_wide (str "stoi") s base.
Definition stol (s : list Z) (base : Z) := as_integer_long (str "stol") s base.
Definition stol_wide (s : list Z) (base : Z) := as_integer_long_wide (str "stol") s base.
Definition stoul (s : list Z) (base : Z) := as_integer_unsigned_long (str "stoul") s base.
Definition stoul_wide (s : list Z) (base : Z) := as_integer_unsigned_long_wide (str "stoul") s base.
Definition stoll (s : list Z) (base : Z) := as_integer_long_long (str "stoll") s base.
Definition stoll_wide (s : list Z) (base : Z) := as_integer_long_long_wide (str "stoll") s base.
Definition stoull (s : list Z) (base : Z) := as_integer_unsigned_long_long (str "stoull") s base.
Definition stoull_wide (s : list Z) (base : Z) :=
  as_integer_unsigned_long_long_wide (str "stoull") s base.

Section floats.
(** The floating-point types, and the C library's conversions to them: the value, the
    end of the number, and whether it is out of range. *)
Context {F D L : Type}.
Context (strtof wcstof : list Z → F * nat * bool) (strtod wcstod : list Z → D * nat * bool).
Context (strtold wcstold : list Z → L * nat * bool).

Definition as_float_helper {V} (func : bytes) (s : list Z) (f : list Z → V * nat * bool)
  : comp conv_state V :=
  let* s0 := cget in
  let errno_save := errno s0 in
  let* _ := cmodify (set_errno 0) in
  let '(r, n, erange) := f s in
  let* _ := cmodify (if erange : bool then set_errno ERANGE else id) in
  let* s1 := cget in
  let* _ := cmodify (set_errno errno_save) in
  if errno s1 =? ERANGE then throw_from_string_out_of_range func
  else if decide (n = O) then throw_from_string_invalid_arg func
  else let* _ := cmodify (set_idx (Z.of_nat n)) in cret r.

Definition as_float_float (func : bytes) (s : list Z) := as_float_helper func s strtof.
Definition as_float_double (func : bytes) (s : list Z) := as_float_helper func s strtod.
Definition as_float_long_double (func : bytes) (s : list Z) := as_float_helper func s strtold.
Definition as_float_float_wide (func : bytes) (s : list Z) := as_float_helper func s wcstof.
Definition as_float_double_wide (func : bytes) (s : list Z) := as_float_helper func s wcstod.
Definition as_float_long_double_wide (func : bytes) (s : list Z) := as_float_helper func s wcstold.

Definition stof (s : list Z) := as_float_float (str "stof") s.
Definition stof_wide (s : list Z) := as_float_float_wide (str "stof") s.
Definition stod (s : list Z) := as_float_double (str "stod") s.
Definition stod_wide (s : list Z) := as_float_double_wide (str "stod") s.
Definition stold (s : list Z) := as_float_long_double (str "stold") s.
Definition stold_wide (s : list Z) := as_float_long_double_wide (str "stold") s.
End floats.

(** ** [as_string] *)

(** [snprintf] of a text into [n] cells: the length it needs, and the cells; and
    [swprintf], which fails when the text does not fit. *)
Definition print_into (text cells : list Z) (n : Z) : list Z :=
  let t := take (Z.to_nat (n - 1)) text in t ++ 0 :: drop (S (length t)) cells.

Definition snprintf (text cells : list Z) (n : Z) : Z * list Z :=
  (zlen text, print_into text cells n).

Definition swprintf (text cells : list Z) (n : Z) : Z * list Z :=
  (if zlen text <? n then zlen text else -1, print_into text cells n).

(** The loop; the cells of a string are its characters and the terminator. *)
Fixpoint as_string (sprintf_like : list Z → Z → Z * list Z) (fuel : nat) (s : list Z)
  : option (list Z) :=
  match fuel with
  | O => None
  | S fuel' =>
      let available := zlen s in
      let '(status, cells) := sprintf_like (s ++ [0]) (available + 1) in
      let s' := take (Z.to_nat available) cells in
      if 0 <=? status then
        if status <=? available then Some (resize (Z.to_nat status) 0 s')
        else as_string sprintf_like fuel' (resize (Z.to_nat status) 0 s')
      else as_string sprintf_like fuel' (resize (Z.to_nat (available * 2 + 1)) 0 s')
  end.

(** [initial_string]: a string as long as its capacity; that of a new string, and of
    one that was made [n] long, is the string's own choice. *)
Definition initial_string (capacity : Z) : list Z := replicate (Z.to_nat capacity) 0.

(** [numeric_limits<unsigned long long>::digits]: the digits are binary. *)
Definition digits : Z := 64.
Definition initial_wide_size : Z := digits / 3 + (if digits mod 3 =? 0 then 0 else 1) + 1.
Definition initial_wstring (capacity_of : Z → Z) : list Z :=
  initial_string (capacity_of initial_wide_size).
Definition initial_wstring_float (capacity_of : Z → Z) : list Z := initial_string (capacity_of 20).

(** The argument as the format makes [snprintf] take it, and the text. *)
Definition signed (w v : Z) : Z := wrap w (v + 2 ^ (w - 1)) - 2 ^ (w - 1).
Definition formatted (fmt : bytes) (v : Z) : list Z :=
  codes (dec (if bool_decide (fmt = str "%d") then signed 32 v
              else if bool_decide (fmt = str "%u") then wrap 32 v
              else if bool_decide (fmt = str "%ld" ∨ fmt = str "%lld") then signed 64 v
              else wrap 64 v)).

(** The integer types the functions are overloaded on. *)
Inductive int_type := Int | Unsigned | Long | UnsignedLong | LongLong | UnsignedLongLong.

Definition to_string (t : int_type) (fuel : nat) (capacity val : Z) : option (list Z) :=
  match t with
  | Int => as_string (snprintf (formatted (str "%d") val)) fuel (initial_string capacity)
  | Unsigned => as_string (snprintf (formatted (str "%u") val)) fuel (initial_string capacity)
  | Long => as_string (snprintf (formatted (str "%ld") val)) fuel (initial_string capacity)
  | UnsignedLong => as_string (snprintf (formatted (str "%lu") val)) fuel (initial_string capacity)
  | LongLong => as_string (snprintf (formatted (str "%lld") val)) fuel (initial_string capacity)
  | UnsignedLongLong => as_string (snprintf (formatted (str "%llu") val)) fuel (initial_string capacity)
  end.

Definition to_wstring (t : int_type) (fuel : nat) (capacity_of : Z → Z) (val : Z) : option (list Z) :=
  let s := initial_wstring capacity_of in
  match t with
  | Int => as_string (swprintf (formatted (str "%d") val)) fuel s
  | Unsigned => as_string (swprintf (formatted (str "%u") val)) fuel s
  | Long => as_string (swprintf (formatted (str "%ld") val)) fuel s
  | UnsignedLong => as_string (swprintf (formatted (str "%lu") val)) fuel s
  | LongLong => as_string (swprintf (formatted (str "%lld") val)) fuel s
  | UnsignedLongLong => as_string (swprintf (formatted (str "%llu") val)) fuel s
  end.

(** The same for floating point: [%f] and [%Lf] print it, whatever its text. *)
Section float_strings.
Context {V : Type} (print_float : V → list Z).

Definition to_string_float (fuel : nat) (capacity : Z) (val : V) : option (list Z) :=
  as_string (snprintf (print_float val)) fuel (initial_string capacity).
Definition to_wstring_float (fuel : nat) (capacity_of : Z → Z) (val : V) : option (list Z) :=
  as_string (swprintf (print_float val)) fuel (initial_wstring_float capacity_of).
End float_strings.

(** ** The loop returns the text *)

Lemma print_into_fits text cells n :
  zlen text < n → take (length text) (print_into text cells n) = text.
Proof.
  intros Hn. unfold print_into. rewrite (take_ge text) by (unfold zlen in Hn; lia).
  by rewrite take_app_length.
Qed.

Lemma fits_result text s :
  zlen text ≤ zlen s →
  resize (Z.to_nat (zlen text)) 0 (take (Z.to_nat (zlen s)) (print_into text (s ++ [0]) (zlen s + 1)))
  = text.
Proof.
  intros Hl. rewrite !to_nat_zlen. unfold zlen in Hl.
  assert (Hp : length (print_into text (s ++ [0]) (zlen s + 1)) = S (length s)).
  { unfold print_into, zlen. rewrite length_app. cbn [length]. rewrite length_drop, length_app, !length_take.
    cbn [length]. lia. }
  rewrite resize_le by (rewrite length_take, Hp; lia). rewrite take_take, Nat.min_l by lia.
  apply print_into_fits. unfold zlen. lia.
Qed.

(** [snprintf] says how long the text is: the second round is the last. *)
Lemma as_string_snprintf text s fuel :
  (2 ≤ fuel)%nat → as_string (snprintf text) fuel s = Some text.
Proof.
  intros Hf. destruct fuel as [|[|fuel]]; [lia..|]. cbn [as_string]. unfold snprintf at 1.
  pose proof (zlen_nonneg text). destruct (Z.leb_spec 0 (zlen text)); [|lia].
  destruct (Z.leb_spec (zlen text) (zlen s)) as [Hle|Hgt]; [by rewrite fits_result|].
  cbn [as_string]. unfold snprintf at 1. destruct (Z.leb_spec 0 (zlen text)); [|lia].
  match goal with |- context [zlen (resize ?n ?x ?l)] => set (s1 := resize n x l) end.
  assert (Hz : zlen s1 = zlen text) by (unfold s1, zlen; rewrite length_resize; unfold zlen; lia).
  destruct (Z.leb_spec (zlen text) (zlen s1)); [|lia]. by rewrite fits_result by lia.
Qed.

(** [swprintf] only fails: the string is doubled until the text fits. *)
Lemma as_string_swprintf text fuel s :
  (1 ≤ fuel)%nat → zlen text < zlen s + Z.of_nat fuel →
  as_string (swprintf text) fuel s = Some text.
Proof.
  revert s. induction fuel as [|fuel IH]; intros s H1 Hf; [lia|].
  pose proof (zlen_nonneg text). pose proof (zlen_nonneg s). cbn [as_string]. unfold swprintf at 1.
  destruct (Z.ltb_spec (zlen text) (zlen s + 1)).
  - destruct (Z.leb_spec 0 (zlen text)); [|lia].
    destruct (Z.leb_spec (zlen text) (zlen s)); [|lia]. by rewrite fits_result.
  - cbn [Z.leb Z.compare]. apply IH; [lia|]. unfold zlen at 2. rewrite length_resize. lia.
Qed.

(** ** Scanning a printed number *)

Lemma isdigit_range c : isdigit c = true → 48 ≤ byte_val c ≤ 57.
Proof. unfold isdigit. rewrite andb_true_iff, !bool_decide_eq_true. done. Qed.

Lemma is_digit_code c : isdigit c = true → digit_value (byte_val c) = Some (byte_val c - 48).
Proof.
  intros Hc%isdigit_range. unfold digit_value.
  destruct (Z.leb_spec 48 (byte_val c)), (Z.leb_spec (byte_val c) 57); try lia. done.
Qed.

Lemma read_digits_codes ds acc :
  Forall (λ c, isdigit c = true) ds →
  read_digits 10 (codes ds) acc
  = (fold_left (λ a c, 10 * a + (byte_val c - 48)) ds acc, length ds).
Proof.
  intros Hds. revert acc. induction Hds as [|c ds Hc Hds IH]; intros acc; [done|].
  cbn [codes map read_digits fold_left length]. unfold is_digit. rewrite (is_digit_code c Hc).
  assert (Hlt : (byte_val c - 48 <? 10) = true).
  { apply isdigit_range in Hc. apply Z.ltb_lt. lia. }
  rewrite Hlt. cbn [default]. fold (codes ds). rewrite IH. do 3 f_equal. lia.
Qed.

Lemma digits_scan ds :
  ds ≠ [] → Forall (λ c, isdigit c = true) ds → scan_number 10 (codes ds) = (digits_val ds, length ds).
Proof.
  intros Hne Hds. destruct ds as [|c ds]; [done|]. pose proof (Forall_inv Hds) as Hc.
  pose proof (isdigit_range c Hc) as Hr.
  assert (Hsp : spaces (codes (c :: ds)) = O).
  { cbn. unfold is_space. destruct (_ || _) eqn:Hs; [|done]. lia. }
  assert (Hsg : sign (codes (c :: ds)) = (false, O)).
  { cbn. destruct (Z.eqb_spec (byte_val c) 45); [lia|]. by destruct (Z.eqb_spec (byte_val c) 43); [lia|]. }
  unfold scan_number. rewrite Hsp, drop_0, Hsg. change (0 + 0)%nat with O. rewrite drop_0.
  change (effective_base 10 (codes (c :: ds))) with (10, O).
  cbv beta iota. rewrite drop_0.
  by rewrite (read_digits_codes (c :: ds) 0 Hds).
Qed.

Lemma neg_scan ds :
  ds ≠ [] → Forall (λ c, isdigit c = true) ds →
  scan_number 10 (45 :: codes ds) = (- digits_val ds, S (length ds)).
Proof.
  intros Hne Hds. unfold scan_number.
  change (spaces (45 :: codes ds)) with O. rewrite drop_0.
  change (sign (45 :: codes ds)) with (true, 1%nat). cbv beta iota.
  change (drop (0 + 1) (45 :: codes ds)) with (drop 0 (codes ds)). rewrite drop_0.
  change (effective_base 10 (codes ds)) with (10, O). cbv beta iota. rewrite drop_0.
  rewrite (read_digits_codes ds 0 Hds). by destruct ds.
Qed.

Lemma scan_printed v : scan_number 10 (codes (dec v)) = (v, length (dec v)).
Proof.
  destruct (decide (v < 0)) as [Hlt|Hge].
  - assert (dec v = str "-" ++ dec (- v)) as ->.
    { unfold dec at 1. rewrite decide_True by done. unfold dec. by rewrite decide_False by lia. }
    change (codes (str "-" ++ dec (- v))) with (45 :: codes (dec (- v))).
    rewrite neg_scan by (apply dec_nonempty || apply dec_digits; lia).
    rewrite dec_val by lia. f_equal. lia.
  - rewrite digits_scan by (apply dec_nonempty || apply dec_digits; lia). by rewrite dec_val by lia.
Qed.

(** ** Every integer fits the first wide string *)

Lemma dec_go_length fuel n k :
  0 ≤ n < 10 ^ k → 1 ≤ k → n < 2 ^ Z.of_nat fuel → zlen (dec_go fuel n) ≤ k.
Proof.
  revert n k. induction fuel as [|fuel IH]; intros n k Hn Hk Hf; [unfold zlen; cbn; lia|].
  cbn [dec_go]. case_decide as Hlt; [unfold zlen; cbn; lia|].
  rewrite zlen_app. change (zlen [digit (n mod 10)]) with 1.
  assert (Hk2 : 2 ≤ k).
  { destruct (decide (k = 1)) as [->|]; [change (10 ^ 1) with 10 in Hn; lia|lia]. }
  assert (10 ^ k = 10 * 10 ^ (k - 1)) as Hp by (rewrite <- Z.pow_succ_r by lia; f_equal; lia).
  assert (2 ^ Z.of_nat (S fuel) = 2 * 2 ^ Z.of_nat fuel) as H2
    by (rewrite Nat2Z.inj_succ, Z.pow_succ_r by lia; done).
  pose proof (Z.div_mod n 10 ltac:(lia)). pose proof (Z.mod_pos_bound n 10 ltac:(lia)).
  assert (zlen (dec_go fuel (n / 10)) ≤ k - 1); [apply IH; lia|lia].
Qed.

Lemma dec_length v : - 2 ^ 64 < v < 2 ^ 64 → zlen (dec v) ≤ 21.
Proof.
  assert (H : ∀ n, 0 ≤ n < 2 ^ 64 → zlen (dec_go (dec_fuel n) n) ≤ 20).
  { intros n Hn. apply dec_go_length; [lia|lia|apply dec_fuel_enough; lia]. }
  intros Hv. unfold dec. case_decide; [|pose proof (H v ltac:(lia)); lia].
  rewrite zlen_app. change (zlen (str "-")) with 1. pose proof (H (- v) ltac:(lia)). lia.
Qed.

Lemma dec_some v : length (dec v) ≠ O.
Proof.
  unfold dec. case_decide; [done|]. intros Hz%length_zero_iff_nil. by apply dec_go_nonempty in Hz.
Qed.

(** The values of an integer type. *)
Definition lowest (t : int_type) : Z :=
  match t with Int => - 2 ^ 31 | Long | LongLong => - 2 ^ 63 | _ => 0 end.
Definition highest (t : int_type) : Z :=
  match t with
  | Int => 2 ^ 31 - 1 | Unsigned => 2 ^ 32 - 1 | Long | LongLong => 2 ^ 63 - 1 | _ => 2 ^ 64 - 1
  end.

Lemma signed_small w v : 1 ≤ w → - 2 ^ (w - 1) ≤ v < 2 ^ (w - 1) → signed w v = v.
Proof.
  intros Hw Hv. unfold signed, wrap.
  assert (2 ^ w = 2 * 2 ^ (w - 1)) as -> by (rewrite <- Z.pow_succ_r by lia; f_equal; lia).
  rewrite Z.mod_small; lia.
Qed.

(** The format of each type prints every value of it as it is. *)
Definition format_of (t : int_type) : bytes :=
  match t with
  | Int => str "%d" | Unsigned => str "%u" | Long => str "%ld" | UnsignedLong => str "%lu"
  | LongLong => str "%lld" | UnsignedLongLong => str "%llu"
  end.

Lemma formatted_of t v : lowest t ≤ v ≤ highest t → formatted (format_of t) v = codes (dec v).
Proof.
  intros Hv. unfold formatted. destruct t; cbn in *;
    repeat match goal with
      | |- context [bool_decide ?P] =>
          let b := eval vm_compute in (bool_decide P) in change (bool_decide P) with b
      end; cbv iota;
    rewrite ?signed_small by lia; unfold wrap; rewrite ?Z.mod_small by lia; done.
Qed.

Lemma to_string_text t capacity v :
  lowest t ≤ v ≤ highest t → to_string t 2 capacity v = Some (codes (dec v)).
Proof.
  intros Hv%formatted_of. unfold to_string.
  destruct t; cbn [format_of] in Hv; rewrite Hv; by apply as_string_snprintf.
Qed.

Lemma to_wstring_text t capacity_of v :
  lowest t ≤ v ≤ highest t → initial_wide_size ≤ capacity_of initial_wide_size →
  to_wstring t 1 capacity_of v = Some (codes (dec v)).
Proof.
  intros Hv Hc. pose proof (formatted_of t v Hv) as Hf.
  assert (Hl : zlen (codes (dec v)) < zlen (initial_wstring capacity_of) + Z.of_nat 1).
  { unfold zlen, codes, initial_wstring, initial_string. rewrite length_map, length_replicate.
    assert (zlen (dec v) ≤ 21) by (apply dec_length; destruct t; cbn in Hv; lia).
    change initial_wide_size with 23 in *. unfold zlen in *. lia. }
  unfold to_wstring. destruct t; cbn [format_of] in Hf; rewrite Hf; by apply as_string_swprintf; [lia|].
Qed.

(** ** The conversions *)

Lemma scan_none base s v : scan_number base s = (v, O) → v = 0.
Proof.
  unfold scan_number. intros H. repeat case_match; simplify_eq; try done; lia.
Qed.

Definition stored (n : nat) (i : option Z) : option Z :=
  match i with Some _ => Some (Z.of_nat n) | None => None end.

(** A conversion that is given a number it can hold, one it cannot, or none. *)
Lemma helper_cases func s base f r n (erange : bool) e i :
  f s base = Ret (r, n, erange) →
  as_integer_helper func s base f (ConvState e i)
  = if erange then (Throw (func ++ str ": out of range"), ConvState e i)
    else if decide (n = O) then (Throw (func ++ str ": no conversion"), ConvState e i)
    else (Ret r, ConvState e (stored n i)).
Proof.
  intros Hf. unfold as_integer_helper, cbind, cget, cmodify, clift. rewrite Hf. cbn.
  destruct erange; [done|]. cbn. by case_decide.
Qed.

Lemma strtol_printed v :
  LONG_MIN ≤ v ≤ LONG_MAX → strtol (codes (dec v)) 10 = Ret (v, length (dec v), false).
Proof.
  intros Hr. unfold strtol. change (valid_base 10) with true. rewrite scan_printed. cbv iota beta.
  destruct (Z.ltb_spec v LONG_MIN); [lia|]. by destruct (Z.ltb_spec LONG_MAX v); [lia|].
Qed.

Lemma strtoul_printed v :
  0 ≤ v ≤ ULONG_MAX → strtoul (codes (dec v)) 10 = Ret (v, length (dec v), false).
Proof.
  intros Hr. unfold strtoul. change (valid_base 10) with true. rewrite scan_printed. cbv iota beta.
  destruct (Z.ltb_spec ULONG_MAX (Z.abs v)); [lia|]. unfold wrap, ULONG_MAX in *.
  by rewrite Z.mod_small by lia.
Qed.

(** ** Theorems *)

(** For every string and every base there is, [stoi] throws when the string does
    not start with a number and when the number is no [int], and returns the number
    otherwise, storing where it ends; [errno] is left alone. *)
Theorem stoi_outcomes s base e i v n :
  valid_base base = true → scan_number base s = (v, n) →
  ∃ o i', stoi s base (ConvState e i) = (o, ConvState e i')
    ∧ match o with
      | Ret r => r = v ∧ INT_MIN ≤ v ≤ INT_MAX ∧ n ≠ O ∧ i' = stored n i
      | Throw what => (n = O ∧ what = str "stoi: no conversion" ∧ i' = i)
          ∨ (¬ (INT_MIN ≤ v ≤ INT_MAX) ∧ what = str "stoi: out of range")
      | _ => False
      end.
Proof.
  intros Hb Hs. unfold stoi, as_integer_int, cbind.
  pose proof (scan_none base s v) as Hz.
  assert (Hl : ∃ r g, strtol s base = Ret (r, n, g) ∧ (g = true → ¬ (INT_MIN ≤ v ≤ INT_MAX))
    ∧ (g = false → r = v)).
  { unfold strtol. rewrite Hb, Hs. unfold LONG_MIN, LONG_MAX, INT_MIN, INT_MAX.
    destruct (Z.ltb_spec v (- 2 ^ 63)); [by eexists _, true; split; [done|]; split; [lia|]|].
    destruct (Z.ltb_spec (2 ^ 63 - 1) v); [by eexists _, true; split; [done|]; split; [lia|]|].
    by exists v, false. }
  destruct Hl as (r & g & Hl & Hbad & Hgood). rewrite (helper_cases _ _ _ _ r n g) by done.
  destruct g; [eexists _, i; split; [done|]; right; split; [by apply Hbad|done]|].
  rewrite Hgood by done. case_decide as Hn; [eexists _, i; split; [done|]; left; by subst|].
  destruct (Z.ltb_spec v INT_MIN); [|destruct (Z.ltb_spec INT_MAX v)]; cbn [orb];
    (eexists _, _; split; [done|]); [right; split; [lia|done]..|].
  repeat split; (done || lia).
Qed.

Lemma stoi_outcomes_witness :
  ∃ o i', stoi (codes (str " -0x1Fz")) 0 (ConvState 7 (Some 99)) = (o, ConvState 7 i') ∧ o = Ret (-31).
Proof.
  destruct (stoi_outcomes (codes (str " -0x1Fz")) 0 7 (Some 99) (-31) 6) as (o & i' & Ho & Hm);
    [by vm_compute..|].
  exists o, i'. split; [done|]. vm_compute in Ho. by injection Ho as <- _.
Defined.

(** Printing and reading back: whatever a string's first capacity is, [to_string]
    returns the decimal text of every value of its type, in at most two rounds, and
    [to_wstring] in one; every conversion whose type holds the number reads it back,
    to the end. *)
Theorem to_string_roundtrip t v capacity capacity_of e i :
  lowest t ≤ v ≤ highest t →
  initial_wide_size ≤ capacity_of initial_wide_size →
  let text := codes (dec v) in
  let s := ConvState e i in
  let s' := ConvState e (stored (length text) i) in
  to_string t 2 capacity v = Some text ∧ to_wstring t 1 capacity_of v = Some text
  ∧ (INT_MIN ≤ v ≤ INT_MAX → stoi text 10 s = (Ret v, s') ∧ stoi_wide text 10 s = (Ret v, s'))
  ∧ (LONG_MIN ≤ v ≤ LONG_MAX → stol text 10 s = (Ret v, s') ∧ stoll_wide text 10 s = (Ret v, s'))
  ∧ (0 ≤ v ≤ ULONG_MAX → stoul text 10 s = (Ret v, s') ∧ stoull_wide text 10 s = (Ret v, s')).
Proof.
  intros Hv Hcap text s s'.
  assert (Hl : length text = length (dec v)) by apply length_map.
  assert (Hs : ∀ f func r, f text 10 = Ret (r, length (dec v), false) →
    as_integer_helper func text 10 f s = (Ret r, s')).
  { intros f func r Hfr. unfold s, s'. rewrite (helper_cases _ _ _ _ _ _ _ _ _ Hfr).
    by rewrite decide_False, Hl by apply dec_some. }
  assert (Hint : INT_MIN ≤ v ≤ INT_MAX → as_integer_int (str "stoi") text 10 s = (Ret v, s')).
  { intros Hr. unfold as_integer_int, cbind. rewrite (Hs strtol (str "stoi") v).
    - destruct (Z.ltb_spec v INT_MIN); [lia|]. by destruct (Z.ltb_spec INT_MAX v); [lia|].
    - apply strtol_printed. unfold INT_MIN, INT_MAX, LONG_MIN, LONG_MAX in *. lia. }
  split; [by apply to_string_text|]. split; [by apply to_wstring_text|].
  split; [intros Hr; split; by apply Hint|].
  split; intros Hr; split; by apply Hs, strtol_printed || apply Hs, strtoul_printed.
Qed.

Lemma to_string_roundtrip_witness :
  to_string Int 2 22 (- 2147483648) = Some (codes (str "-2147483648"))
  ∧ stoi (codes (str "-2147483648")) 10 (ConvState 0 None) = (Ret (- 2147483648), ConvState 0 None).
Proof.
  destruct (to_string_roundtrip Int (- 2147483648) 22 id 0 None) as (H1 & _ & H2 & _); [done..|].
  split; [exact H1|]. by apply H2.
Defined.

(** [as_float_helper] throws for the same reasons. *)
Lemma as_float_cases {F} (strtof : list Z → F * nat * bool) func s r n (erange : bool) e i :
  strtof s = (r, n, erange) →
  as_float_helper func s strtof (ConvState e i)
  = if erange then (Throw (func ++ str ": out of range"), ConvState e i)
    else if decide (n = O) then (Throw (func ++ str ": no conversion"), ConvState e i)
    else (Ret r, ConvState e (stored n i)).
Proof.
  intros Hf. unfold as_float_helper, cbind, cget, cmodify. rewrite Hf. cbn.
  destruct erange; [done|]. cbn. by case_decide.
Qed.

(** [stoi] stores the end of a number that is a [long] and no [int] before it throws. *)
Lemma stoi_stores_then_throws :
  stoi (codes (str "4294967296")) 10 (ConvState 0 (Some 99))
  = (Throw (str "stoi: out of range"), ConvState 0 (Some 10)).
Proof. by vm_compute. Qed.
