(* ===== verification/Number.v ===== *)
(** * Number: the numbers of streams, [num_put] and [num_get]

    The helpers of [locale.cpp] with the facets of the header [locale] that call them,
    from the flags of a stream and an integer to the characters that are written, and
    back.  A character is its code; [printf] and [strtoll] are those of the C locale. *)

From S2P Require Import Prelude Text StringConv.

(** ** The flags of a stream *)

Definition boolalpha : Z := 0x0001.
Definition dec_flag : Z := 0x0002.
Definition fixed : Z := 0x0004.
Definition hex : Z := 0x0008.
Definition internal : Z := 0x0010.
Definition left : Z := 0x0020.
Definition oct : Z := 0x0040.
Definition right : Z := 0x0080.
Definition scientific : Z := 0x0100.
Definition showbase : Z := 0x0200.
Definition showpoint : Z := 0x0400.
Definition showpos : Z := 0x0800.
Definition uppercase : Z := 0x4000.
Definition adjustfield : Z := Z.lor left (Z.lor right internal).
Definition basefield : Z := Z.lor dec_flag (Z.lor oct hex).
Definition floatfield : Z := Z.lor scientific fixed.

Definition has_flag (flags f : Z) : bool := negb (Z.land flags f =? 0).

Definition goodbit : Z := 0.
Definition eofbit : Z := 2.
Definition failbit : Z := 4.

(** ** The helpers of [locale.cpp] *)

Definition get_base (flags : Z) : Z :=
  let base := Z.land flags basefield in
  if base =? oct then 8 else if base =? hex then 16 else if base =? 0 then 0 else 10.

Definition format_int (len : bytes) (signd : bool) (flags : Z) : bytes :=
  (if has_flag flags showpos then str "+" else []) ++ (if has_flag flags showbase then str "#" else [])
  ++ len
  ++ (if Z.land flags basefield =? oct then str "o"
      else if Z.land flags basefield =? hex then (if has_flag flags uppercase then str "X" else str "x")
      else if signd then str "d" else str "u").

(** The format, and whether the precision is an argument of it. *)
Definition format_float (len : bytes) (flags : Z) : bytes * bool :=
  let field := Z.land flags floatfield in
  let upper := has_flag flags uppercase in
  let specify_precision := negb (field =? Z.lor fixed scientific) in
  ((if has_flag flags showpos then str "+" else []) ++ (if has_flag flags showpoint then str "#" else [])
   ++ (if specify_precision then str ".*" else [])
   ++ len
   ++ (if field =? fixed then (if upper then str "F" else str "f")
       else if field =? scientific then (if upper then str "E" else str "e")
       else if field =? Z.lor fixed scientific then (if upper then str "A" else str "a")
       else if upper then str "G" else str "g"),
   specify_precision).

(** Where fill characters go, counted from [nb]. *)
Definition identify_padding (nb : list Z) (flags : Z) : nat :=
  let adjust := Z.land flags adjustfield in
  if adjust =? internal then
    match nb with
    | c :: r =>
        if (c =? 45) || (c =? 43) then 1%nat
        else match r with
             | x :: _ => if (c =? 48) && ((x =? 120) || (x =? 88)) then 2%nat else O
             | [] => O
             end
    | [] => O
    end
  else if adjust =? left then length nb else O.

(** A size of a group that means one: neither without end, nor [CHAR_MAX]. *)
Definition limited (c : Z) : bool := (0 <? c) && (c <? 127).

(** The groups [rs] from the last to the first against the grouping, at [c] with
    [ig] after it; the first group may be smaller, not empty. *)
Fixpoint check_groups (c : Z) (ig : list Z) (rs : list Z) : bool :=
  match rs with
  | [] => true
  | [r] => negb (limited c && ((c <? r) || (r =? 0)))
  | r :: rs' =>
      if limited c && negb (c =? r) then false
      else match ig with c' :: ig' => check_groups c' ig' rs' | [] => check_groups c [] rs' end
  end.

Definition check_grouping (grouping : list Z) (g : list Z) (err : Z) : Z :=
  match grouping with
  | [] => err
  | c :: ig => if check_groups c ig (rev g) then err else failbit
  end.

(** ** [printf] for integers *)

Definition digit_char (upper : bool) (d : Z) : Z :=
  if d <? 10 then 48 + d else if upper then 55 + d else 87 + d.

Fixpoint print_digits (upper : bool) (base : Z) (fuel : nat) (n : Z) : list Z :=
  match fuel with
  | O => []
  | S fuel' =>
      if n <? base then [digit_char upper n]
      else print_digits upper base fuel' (n / base) ++ [digit_char upper (n mod base)]
  end.

Definition print_base (upper : bool) (base n : Z) : list Z :=
  print_digits upper base (S (Z.to_nat (Z.log2 n))) n.

(** A conversion of a [long] or a [long long]: the flags ["+"] and ["#"], then the
    specifier.  A sign is for a signed conversion only. *)
Definition sprintf (fmt : bytes) (v : Z) : list Z :=
  let '(fl, rest) := span (λ c, bool_decide (c ∈ str "+#")) (drop 1 fmt) in
  let '(_, conv) := span (λ c, bool_decide (c = "l"%char)) rest in
  let plus := bool_decide ("+"%char ∈ fl) in
  let alt := bool_decide ("#"%char ∈ fl) in
  let u := wrap 64 v in
  if decide (conv = str "d") then
    (if v <? 0 then [45] else if plus then [43] else []) ++ print_base false 10 (Z.abs v)
  else if decide (conv = str "u") then print_base false 10 u
  else if decide (conv = str "o") then (if alt && negb (u =? 0) then [48] else []) ++ print_base false 8 u
  else if decide (conv = str "x") then (if alt && negb (u =? 0) then [48; 120] else []) ++ print_base false 16 u
  else if decide (conv = str "X") then (if alt && negb (u =? 0) then [48; 88] else []) ++ print_base true 16 u
  else [].

(** ** [num_put] *)

Definition src : list Z := codes (str "0123456789abcdefABCDEFxX+-pPiInN").

(** What the facets of the locale give: [ctype]'s [widen], and [numpunct]'s grouping
    and separator. *)
Record punct := Punct { widen : Z → Z; grouping : list Z; thousands_sep : Z }.

(** The digits [ps] from the last to the first, at [grouping[dg]] with [dc] digits
    since the separator. *)
Fixpoint group_loop (np : punct) (dg dc : nat) (ps : list Z) : list Z :=
  match ps with
  | [] => []
  | p :: ps' =>
      let gsize := wrap 32 (default 0 (grouping np !! dg)) in
      if (0 <? gsize) && (Z.of_nat dc =? gsize) then
        thousands_sep np :: widen np p
        :: group_loop np (if decide (dg < length (grouping np) - 1)%nat then S dg else dg) 1 ps'
      else widen np p :: group_loop np dg (S dc) ps'
  end.

(** What is not grouped: a sign, and the prefix of a base. *)
Definition ungrouped_length (nb : list Z) : nat :=
  let sg := match nb with c :: _ => if (c =? 45) || (c =? 43) then 1%nat else O | [] => O end in
  match drop sg nb with
  | c :: x :: _ => if (c =? 48) && ((x =? 120) || (x =? 88)) then (sg + 2)%nat else sg
  | _ => sg
  end.

(** The wide characters, and where padding goes. *)
Definition widen_and_group_int (np : punct) (nb : list Z) (pad : nat) : list Z * nat :=
  let ob :=
    match grouping np with
    | [] => map (widen np) nb
    | _ :: _ =>
        let nf := ungrouped_length nb in
        map (widen np) (take nf nb) ++ rev (group_loop np 0 0 (rev (drop nf nb)))
    end in
  (ob, if decide (pad = length nb) then length ob else pad).

(** [width] more characters than there are are filled up. *)
Definition pad_and_output (ob : list Z) (op : nat) (width fill : Z) : list Z :=
  take op ob ++ replicate (Z.to_nat (width - zlen ob)) fill ++ drop op ob.

Inductive put_type := PutLong | PutLongLong | PutUnsignedLong | PutUnsignedLongLong.

Definition put_len (t : put_type) : bytes :=
  match t with PutLong | PutUnsignedLong => str "l" | _ => str "ll" end.
Definition put_signed (t : put_type) : bool :=
  match t with PutLong | PutLongLong => true | _ => false end.
Definition numeric_digits (t : put_type) : Z := if put_signed t then 63 else 64.

Definition nbuf (t : put_type) : Z :=
  numeric_digits t / 3 + (if numeric_digits t mod 3 =? 0 then 0 else 1) + 1.

(** What is written of [v]; or a store beyond [__nar] or [__o], for which the code
    reserves [nbuf] characters, the NUL counted, and [2 * (nbuf - 1) - 1]. *)
Definition do_put (np : punct) (t : put_type) (flags width fill v : Z) : outcome (list Z) :=
  let nar := sprintf (str "%" ++ format_int (put_len t) (put_signed t) flags) v in
  if nbuf t <? zlen nar + 1 then Undef BufferOverflow
  else
    let '(ob, op) := widen_and_group_int np nar (identify_padding nar flags) in
    if 2 * (nbuf t - 1) - 1 <? zlen ob then Undef BufferOverflow
    else Ret (pad_and_output ob op width fill).

Definition do_put_bool (np : punct) (truename falsename : list Z) (flags width fill : Z) (v : bool) :
  outcome (list Z) :=
  if has_flag flags boolalpha then Ret (if v then truename else falsename)
  else do_put np PutUnsignedLong flags width fill (if v then 1 else 0).

(** ** [num_get] *)

Definition num_get_buf_sz : nat := 40.

(** What has been read: the narrow characters, the digits since the last separator,
    and the sizes of the groups. *)
Record stage2 := Stage2 { s2_a : list Z; s2_dc : Z; s2_g : list Z }.

Fixpoint find_atom (np : punct) (atoms : list Z) (ct : Z) : nat :=
  match atoms with
  | [] => O
  | x :: atoms' => if widen np x =? ct then O else S (find_atom np atoms' ct)
  end.

(** [None] where the function returns -1: the character is not part of a number. *)
Definition stage2_int_loop (np : punct) (base ct : Z) (s : stage2) : option stage2 :=
  let atom i := widen np (default 0 (src !! i)) in
  if bool_decide (s2_a s = []) && ((ct =? atom 24%nat) || (ct =? atom 25%nat)) then
    Some (Stage2 (if ct =? atom 24%nat then [43] else [45]) 0 (s2_g s))
  else if negb (bool_decide (grouping np = [])) && (ct =? thousands_sep np) then
    (if decide (length (s2_g s) < num_get_buf_sz)%nat
     then Some (Stage2 (s2_a s) 0 (s2_g s ++ [s2_dc s])) else Some s)
  else
    let f := find_atom np (take 26 src) ct in
    let c := default 0 (src !! f) in
    let digit := Some (Stage2 (s2_a s ++ [c]) (wrap 32 (s2_dc s + 1)) (s2_g s)) in
    if decide (24 ≤ f)%nat then None
    else if (base =? 8) || (base =? 10) then (if base <=? Z.of_nat f then None else digit)
    else if base =? 16 then
      if decide (f < 22)%nat then digit
      else if negb (bool_decide (s2_a s = [])) && bool_decide (length (s2_a s) ≤ 2)%nat
              && (default 0 (last (s2_a s)) =? 48)
      then Some (Stage2 (s2_a s ++ [c]) 0 (s2_g s)) else None
    else digit.

(** The characters that are taken, and those that are left. *)
Fixpoint get_loop (np : punct) (base : Z) (b : list Z) (s : stage2) : stage2 * list Z :=
  match b with
  | [] => (s, [])
  | ct :: b' =>
      match stage2_int_loop np base ct s with
      | Some s' => get_loop np base b' s'
      | None => (s, b)
      end
  end.

(** The value and the state of the stream. *)
Definition num_get_signed_integral (lo hi : Z) (a : list Z) (err base : Z) : outcome (Z * Z) :=
  match a with
  | [] => Ret (0, failbit)
  | _ :: _ =>
      match strtoll a base with
      | Ret (ll, p2, erange) =>
          if decide (p2 ≠ length a) then Ret (0, failbit)
          else if erange || (ll <? lo) || (hi <? ll) then Ret (if 0 <? ll then hi else lo, failbit)
          else Ret (ll, err)
      | Throw w => Throw w | AssertFailed => AssertFailed | Waits => Waits | Undef u => Undef u
      end
  end.

Definition num_get_unsigned_integral (hi : Z) (a : list Z) (err base : Z) : outcome (Z * Z) :=
  match a with
  | [] => Ret (0, failbit)
  | c :: _ =>
      if c =? 45 then Ret (0, failbit)
      else
        match strtoull a base with
        | Ret (ll, p2, erange) =>
            if decide (p2 ≠ length a) then Ret (0, failbit)
            else if erange || (hi <? ll) then Ret (hi, failbit)
            else Ret (ll, err)
        | Throw w => Throw w | AssertFailed => AssertFailed | Waits => Waits | Undef u => Undef u
        end
  end.

Inductive get_type := GetLong | GetLongLong | GetUnsignedShort | GetUnsignedInt | GetUnsignedLong
  | GetUnsignedLongLong.

Definition get_signed (t : get_type) : bool := match t with GetLong | GetLongLong => true | _ => false end.
Definition get_max (t : get_type) : Z :=
  match t with
  | GetLong | GetLongLong => LONG_MAX
  | GetUnsignedShort => 2 ^ 16 - 1
  | GetUnsignedInt => 2 ^ 32 - 1
  | GetUnsignedLong | GetUnsignedLongLong => ULONG_MAX
  end.

(** The value that is stored, the state that is set, and the characters left. *)
Definition do_get (np : punct) (t : get_type) (flags err : Z) (b : list Z) : outcome (Z * Z * list Z) :=
  let base := get_base flags in
  let '(s, rest) := get_loop np base b (Stage2 [] 0 []) in
  let g := if negb (bool_decide (grouping np = [])) && bool_decide (length (s2_g s) < num_get_buf_sz)%nat
           then s2_g s ++ [s2_dc s] else s2_g s in
  match (if get_signed t then num_get_signed_integral LONG_MIN LONG_MAX (s2_a s) err base
         else num_get_unsigned_integral (get_max t) (s2_a s) err base) with
  | Ret (v, err1) =>
      let err2 := check_grouping (grouping np) g err1 in
      Ret (v, match rest with [] => Z.lor err2 eofbit | _ => err2 end, rest)
  | Throw w => Throw w | AssertFailed => AssertFailed | Waits => Waits | Undef u => Undef u
  end.

(** ** Printed numerals *)

Lemma digit_value_char upper d : 0 ≤ d < 16 → digit_value (digit_char upper d) = Some d.
Proof.
  intros Hd. unfold digit_char, digit_value.
  destruct (Z.ltb_spec d 10); [|destruct upper];
    repeat match goal with |- context [(?x <=? ?y)] => destruct (Z.leb_spec x y); cbn [andb]; try lia end; f_equal; lia.
Qed.

Lemma is_digit_char upper base d : 0 ≤ d < base → base ≤ 16 → is_digit base (digit_char upper d) = true.
Proof. intros Hd Hb. unfold is_digit. rewrite digit_value_char by lia. lia. Qed.

(** A digit of a base, as it is printed. *)
Definition printed_digit (upper : bool) (base c : Z) : Prop := ∃ d, 0 ≤ d < base ∧ c = digit_char upper d.

Lemma print_digits_printed upper base fuel n :
  2 ≤ base → 0 ≤ n → n < 2 ^ Z.of_nat fuel → Forall (printed_digit upper base) (print_digits upper base fuel n).
Proof.
  intros Hb. revert n. induction fuel as [|fuel IH]; intros n Hn Hf; cbn [print_digits]; [constructor|].
  rewrite Nat2Z.inj_succ, Z.pow_succ_r in Hf by lia.
  pose proof (Z.div_mod n base ltac:(lia)). pose proof (Z.mod_pos_bound n base ltac:(lia)).
  destruct (Z.ltb_spec n base); [by repeat constructor; exists n|].
  apply Forall_app. split; [apply IH; [apply Z.div_pos; lia|nia]|].
  by repeat constructor; exists (n mod base).
Qed.

Lemma log2_fuel n : 0 ≤ n → n < 2 ^ Z.of_nat (S (Z.to_nat (Z.log2 n))).
Proof.
  intros Hn. destruct (decide (n = 0)) as [->|]; [done|].
  pose proof (Z.log2_nonneg n). rewrite Nat2Z.inj_succ, Z2Nat.id by done. by apply Z.log2_spec; lia.
Qed.

Lemma print_base_printed upper base n :
  2 ≤ base → 0 ≤ n → Forall (printed_digit upper base) (print_base upper base n).
Proof. intros. apply print_digits_printed; [done|done|by apply log2_fuel]. Qed.

Lemma print_digits_length upper base fuel n k :
  2 ≤ base → 0 ≤ n < base ^ k → 1 ≤ k → zlen (print_digits upper base fuel n) ≤ k.
Proof.
  intros Hb. revert n k. induction fuel as [|fuel IH]; intros n k Hn Hk; cbn [print_digits]; [unfold zlen; cbn; lia|].
  destruct (Z.ltb_spec n base); [unfold zlen; cbn; lia|].
  rewrite zlen_app. change (zlen [digit_char upper (n mod base)]) with 1.
  assert (Hk2 : 2 ≤ k).
  { destruct (decide (k = 1)) as [->|]; [|lia]. rewrite Z.pow_1_r in Hn. lia. }
  replace k with (Z.succ (k - 1)) in Hn by lia. rewrite Z.pow_succ_r in Hn by lia.
  assert (zlen (print_digits upper base fuel (n / base)) ≤ k - 1); [|lia].
  apply IH; [|lia]. split; [apply Z.div_pos; lia|apply Z.div_lt_upper_bound; lia].
Qed.

Lemma print_base_nonempty upper base n : print_base upper base n ≠ [].
Proof. unfold print_base. cbn [print_digits]. destruct (n <? base); [done|]. intros [_ [=]]%app_eq_nil. Qed.

(** Reading digits that are all of the base. *)
Lemma read_digits_app base l k acc :
  Forall (λ c, is_digit base c = true) l →
  read_digits base (l ++ k) acc
  = let '(v, n) := read_digits base k (fst (read_digits base l acc)) in (v, (length l + n)%nat).
Proof.
  intros Hl. revert acc. induction Hl as [|c l Hc Hl IH]; intros acc; cbn [app read_digits length].
  - cbn. by destruct (read_digits base k acc).
  - rewrite Hc, IH. destruct (read_digits base l (acc * base + default 0 (digit_value c))). cbn.
    by destruct (read_digits base k z).
Qed.

Lemma printed_is_digit upper base l :
  base ≤ 16 → Forall (printed_digit upper base) l → Forall (λ c, is_digit base c = true) l.
Proof.
  intros Hb Hl. eapply Forall_impl; [exact Hl|]. intros c (d & Hd & ->). by apply is_digit_char.
Qed.

Lemma read_print_digits upper base fuel n acc :
  2 ≤ base ≤ 16 → 0 ≤ n → n < 2 ^ Z.of_nat fuel →
  read_digits base (print_digits upper base fuel n) acc
  = (acc * base ^ zlen (print_digits upper base fuel n) + n, length (print_digits upper base fuel n)).
Proof.
  intros Hb. revert n acc. induction fuel as [|fuel IH]; intros n acc Hn Hf; cbn [print_digits].
  { change (2 ^ Z.of_nat 0) with 1 in Hf. change (zlen []) with 0. cbn [read_digits length]. f_equal. lia. }
  rewrite Nat2Z.inj_succ, Z.pow_succ_r in Hf by lia.
  pose proof (Z.div_mod n base ltac:(lia)). pose proof (Z.mod_pos_bound n base ltac:(lia)).
  destruct (Z.ltb_spec n base).
  { cbn [read_digits]. rewrite is_digit_char, digit_value_char by lia. cbn [default length].
    change (zlen [digit_char upper n]) with 1. rewrite Z.pow_1_r. done. }
  assert (Hdiv : 0 ≤ n / base) by (apply Z.div_pos; lia).
  assert (Hf' : n / base < 2 ^ Z.of_nat fuel) by nia.
  rewrite read_digits_app.
  2: { apply (printed_is_digit upper); [lia|]. apply print_digits_printed; [lia|done|done]. }
  rewrite IH by done. cbn [fst read_digits]. rewrite is_digit_char, digit_value_char by lia. cbn [default].
  rewrite zlen_app, length_app. change (zlen [digit_char upper (n mod base)]) with 1.
  rewrite Z.pow_add_r by (rewrite ?zlen_nonneg; try lia; apply zlen_nonneg). rewrite Z.pow_1_r. f_equal.
  generalize (base ^ zlen (print_digits upper base fuel (n / base))). intros P. unfold id. lia.
Qed.

Lemma read_print_base upper base n :
  2 ≤ base ≤ 16 → 0 ≤ n →
  read_digits base (print_base upper base n) 0 = (n, length (print_base upper base n)).
Proof. intros Hb Hn. unfold print_base. rewrite read_print_digits; [done|done|done|by apply log2_fuel]. Qed.

(** A digit is neither a space nor a sign nor the letter of a prefix. *)
Lemma printed_digit_range upper base c :
  base ≤ 16 → printed_digit upper base c → 48 ≤ c ≤ 57 ∨ 65 ≤ c ≤ 70 ∨ 97 ≤ c ≤ 102.
Proof.
  intros Hb (d & Hd & ->). unfold digit_char. destruct (Z.ltb_spec d 10); [lia|]. destruct upper; lia.
Qed.

(** [strtol] over a sign, a prefix and digits. *)
Lemma scan_text base b sg pre ds n upper :
  sg = [] ∨ sg = [43] ∨ sg = [45] →
  pre = [] ∨ pre = [48; 120] ∨ pre = [48; 88] →
  ds ≠ [] → b ≤ 16 → Forall (printed_digit upper b) ds →
  effective_base base (pre ++ ds) = (b, length pre) →
  read_digits b ds 0 = (n, length ds) →
  scan_number base (sg ++ pre ++ ds)
  = (if decide (sg = [45]) then - n else n, length (sg ++ pre ++ ds)).
Proof.
  intros Hsg Hpre Hne Hb Hds Heff Hread. destruct ds as [|c ds]; [done|].
  pose proof (printed_digit_range _ _ _ Hb (Forall_inv Hds)) as Hc.
  assert (Hc0 : ∃ c0 r, pre ++ c :: ds = c0 :: r ∧ (48 ≤ c0 ≤ 57 ∨ 65 ≤ c0 ≤ 70 ∨ 97 ≤ c0 ≤ 102)).
  { destruct Hpre as [->|[->| ->]]; cbn; eexists _, _; (split; [done|lia]). }
  destruct Hc0 as (c0 & r & Heq & Hc0).
  assert (Hspace : is_space c0 = false) by (unfold is_space; destruct (_ || _) eqn:?; [lia|done]).
  assert (Hsign : sign (c0 :: r) = (false, O)).
  { cbn. destruct (Z.eqb_spec c0 45); [lia|]. by destruct (Z.eqb_spec c0 43); [lia|]. }
  set (s := sg ++ pre ++ c :: ds).
  assert (Hgo : ∀ neg g, spaces s = O → sign s = (neg, g) → drop g s = pre ++ c :: ds → g = length sg →
    scan_number base s = (if neg : bool then - n else n, length s)).
  { intros neg g Hsp Hsi Hd Hg. unfold scan_number. rewrite Hsp, drop_0, Hsi. cbn [Nat.add].
    rewrite Hd, Heff, drop_app_length, Hread. cbn [length]. f_equal. subst s. rewrite !length_app. cbn [length].
    lia. }
  destruct Hsg as [->|[->| ->]]; subst s.
  - rewrite decide_False by done. rewrite (Hgo false O); [done| | |by rewrite drop_0|done]; cbn [app];
      rewrite Heq; [cbn [spaces]; by rewrite Hspace|done].
  - rewrite decide_False by done. by rewrite (Hgo false 1%nat).
  - rewrite decide_True by done. by rewrite (Hgo true 1%nat).
Qed.

(** ** Groups *)

(** The sizes of the groups that [group_loop] makes, from the last. *)
Fixpoint group_sizes (np : punct) (dg dc : nat) (ps : list Z) : list Z :=
  match ps with
  | [] => [Z.of_nat dc]
  | p :: ps' =>
      let gsize := wrap 32 (default 0 (grouping np !! dg)) in
      if (0 <? gsize) && (Z.of_nat dc =? gsize) then
        Z.of_nat dc :: group_sizes np (if decide (dg < length (grouping np) - 1)%nat then S dg else dg) 1 ps'
      else group_sizes np dg (S dc) ps'
  end.

Lemma group_sizes_cons np dg dc ps : ∃ x xs, group_sizes np dg dc ps = x :: xs.
Proof. revert dg dc. induction ps as [|p ps IH]; intros dg dc; cbn; [by eexists _, _|]. case_match; [by eexists _, _|done]. Qed.

Lemma check_groups_cons c ig r x xs :
  check_groups c ig (r :: x :: xs)
  = if limited c && negb (c =? r) then false
    else match ig with c' :: ig' => check_groups c' ig' (x :: xs) | [] => check_groups c [] (x :: xs) end.
Proof. done. Qed.

Lemma limited_wrap c : limited c = true → wrap 32 c = c ∧ 0 < c.
Proof. unfold limited, wrap. intros Hc. split; [|lia]. apply Z.mod_small. lia. Qed.

Lemma group_sizes_check np dg dc ps c :
  grouping np !! dg = Some c → (dc ≠ O ∨ ps ≠ []) → (limited c = true → Z.of_nat dc ≤ c) →
  check_groups c (drop (S dg) (grouping np)) (group_sizes np dg dc ps) = true.
Proof.
  revert dg dc c. induction ps as [|p ps IH]; intros dg dc c Hc Hne Hle; cbn [group_sizes].
  { cbn. destruct (limited c) eqn:Hl; [|done]. specialize (Hle eq_refl). destruct Hne; [|done].
    destruct (Z.ltb_spec c (Z.of_nat dc)); [lia|]. by destruct (Z.eqb_spec (Z.of_nat dc) 0); [lia|]. }
  rewrite Hc. cbn [default]. unfold id. destruct ((0 <? wrap 32 c) && (Z.of_nat dc =? wrap 32 c)) eqn:Hsep.
  - set (dg' := if decide _ then S dg else dg).
    destruct (group_sizes_cons np dg' 1 ps) as (x & xs & Hx). rewrite Hx, check_groups_cons.
    replace (limited c && negb (c =? Z.of_nat dc)) with false.
    2: { destruct (limited c) eqn:Hl; [|done]. apply limited_wrap in Hl. cbn. lia. }
    rewrite <- Hx. subst dg'. pose proof (lookup_lt_Some _ _ _ Hc) as Hlt. case_decide as Hlast.
    + destruct (lookup_lt_is_Some_2 (grouping np) (S dg)) as [c' Hc']; [lia|].
      rewrite (drop_S _ c' (S dg)) by done. apply IH; [done|by left|].
      intros Hl%limited_wrap. lia.
    + rewrite drop_ge by lia. rewrite <- (drop_ge (grouping np) (S dg)) by lia. apply IH; [done|by left|].
      intros Hl%limited_wrap. lia.
  - apply IH; [done|by left|]. intros Hl. specialize (Hle Hl). apply limited_wrap in Hl as [Hw Hpos].
    rewrite Hw in Hsep. lia.
Qed.

Lemma group_sizes_length np dg dc ps :
  (length (group_sizes np dg dc ps) ≤ S (length ps))%nat
  ∧ Forall (λ n, 0 ≤ n ≤ Z.of_nat (dc + length ps)) (group_sizes np dg dc ps).
Proof.
  revert dg dc. induction ps as [|p ps IH]; intros dg dc; cbn [group_sizes length].
  - split; [done|]. repeat constructor; lia.
  - case_match.
    + destruct (IH (if decide (dg < length (grouping np) - 1)%nat then S dg else dg) 1%nat) as [Hl Hf]. cbn [length].
      split; [lia|]. constructor; [lia|]. eapply Forall_impl; [exact Hf|]. cbn. lia.
    + destruct (IH dg (S dc)) as [Hl Hf]. split; [lia|]. eapply Forall_impl; [exact Hf|]. cbn. lia.
Qed.

Lemma group_sizes_first np dg dc ps x xs :
  group_sizes np dg dc ps = x :: xs → Z.of_nat dc ≤ x.
Proof.
  revert dg dc. induction ps as [|p ps IH]; intros dg dc; cbn [group_sizes]; [intros [= <- _]; lia|].
  case_match; [intros [= <- _]; lia|]. intros Hx%IH. lia.
Qed.

(** What is written is in the characters of a number. *)
Definition distinct_atoms (np : punct) : Prop :=
  NoDup (map (widen np) (take 26 src))
  ∧ (grouping np ≠ [] → thousands_sep np ∉ map (widen np) (take 26 src)).

Lemma find_atom_at np atoms i c :
  NoDup (map (widen np) atoms) → atoms !! i = Some c → find_atom np atoms (widen np c) = i.
Proof.
  revert i. induction atoms as [|x atoms IH]; intros i Hnd Hi; [done|]. cbn in Hnd. apply NoDup_cons in Hnd as [Hx Hnd].
  destruct i as [|i]; cbn in Hi |- *; [injection Hi as ->; by rewrite Z.eqb_refl|].
  destruct (Z.eqb_spec (widen np x) (widen np c)) as [He|_]; [|f_equal; by apply IH].
  destruct Hx. rewrite He. apply list_elem_of_fmap. exists c. split; [done|by eapply list_elem_of_lookup_2].
Qed.

Lemma src_digit upper d :
  0 ≤ d < 16 → ∃ f, (f < 22)%nat ∧ src !! f = Some (digit_char upper d) ∧ (d < 10 → f = Z.to_nat d)
    ∧ d ≤ Z.of_nat f.
Proof.
  intros Hd. assert (Hcheck : forallb (λ d, forallb (λ u : bool,
      let f := Z.to_nat (if (d <? 10) || negb u then d else d + 6) in
      bool_decide (src !! f = Some (digit_char u d))) [true; false]) (seqZ 0 16) = true) by by vm_compute.
  rewrite forallb_forall in Hcheck. specialize (Hcheck d). rewrite <- list_elem_of_In, elem_of_seqZ in Hcheck.
  specialize (Hcheck ltac:(lia)). rewrite forallb_forall in Hcheck. specialize (Hcheck upper).
  assert (Hin : In upper [true; false]) by (destruct upper; cbn; auto). specialize (Hcheck Hin). cbv zeta in Hcheck.
  apply bool_decide_eq_true in Hcheck. eexists. split; [|split; [exact Hcheck|]];
    destruct (Z.ltb_spec d 10), upper; cbn [orb negb]; lia.
Qed.

Lemma get_loop_app np base l k s s' :
  get_loop np base l s = (s', []) → get_loop np base (l ++ k) s = get_loop np base k s'.
Proof.
  revert s. induction l as [|c l IH]; intros s; cbn; [by intros [= ->]|].
  destruct (stage2_int_loop np base c s) as [t|]; [apply IH|done].
Qed.

(** The base a number is read in, given the base of the stream. *)
Definition reads_base (base b : Z) : Prop := (base = 0 ∧ b = 10) ∨ (base = b ∧ (b = 8 ∨ b = 10 ∨ b = 16)).

(** ** Reading what was written *)

Section read_back.
Context (np : punct) (Hnp : distinct_atoms np).

Lemma widen_inj i j x y :
  (i < 26)%nat → (j < 26)%nat → src !! i = Some x → src !! j = Some y → widen np x = widen np y → i = j.
Proof.
  intros Hi Hj Hx Hy He. destruct Hnp as [Hnd _].
  eapply (NoDup_lookup _ i j (widen np x)); [exact Hnd| |]; rewrite list_lookup_fmap, lookup_take_lt by done.
  - by rewrite Hx.
  - rewrite Hy. cbn. by rewrite He.
Qed.

Lemma not_separator i x :
  (i < 26)%nat → src !! i = Some x → negb (bool_decide (grouping np = [])) && (widen np x =? thousands_sep np) = false.
Proof.
  intros Hi Hx. destruct Hnp as [_ Hs]. case_bool_decide as Hg; [done|]. cbn.
  destruct (Z.eqb_spec (widen np x) (thousands_sep np)) as [He|]; [|done].
  destruct (Hs Hg). rewrite <- He. apply list_elem_of_fmap. exists x. split; [done|].
  apply (list_elem_of_lookup_2 _ i). by rewrite lookup_take_lt.
Qed.

Lemma find_atom_src i x : (i < 26)%nat → src !! i = Some x → find_atom np (take 26 src) (widen np x) = i.
Proof. intros Hi Hx. apply find_atom_at; [apply Hnp|by rewrite lookup_take_lt]. Qed.

Lemma atom_neq i j x y : (i < 26)%nat → (j < 26)%nat → src !! i = Some x → src !! j = Some y → i ≠ j →
  (widen np x =? widen np y) = false.
Proof. intros Hi Hj Hx Hy Hne. apply Z.eqb_neq. intros He. destruct Hne. by eapply widen_inj. Qed.

(** A character of the digits or of the prefix is no sign. *)
Lemma step_atom base i x s :
  (i < 24)%nat → src !! i = Some x →
  stage2_int_loop np base (widen np x) s
  = let digit := Some (Stage2 (s2_a s ++ [x]) (wrap 32 (s2_dc s + 1)) (s2_g s)) in
    if (base =? 8) || (base =? 10) then (if base <=? Z.of_nat i then None else digit)
    else if base =? 16 then
      if decide (i < 22)%nat then digit
      else if negb (bool_decide (s2_a s = [])) && bool_decide (length (s2_a s) ≤ 2)%nat
              && (default 0 (last (s2_a s)) =? 48)
      then Some (Stage2 (s2_a s ++ [x]) 0 (s2_g s)) else None
    else digit.
Proof.
  intros Hi Hx. unfold stage2_int_loop. rewrite (not_separator i) by (done || lia).
  change (default 0 (src !! 24%nat)) with 43. change (default 0 (src !! 25%nat)) with 45.
  rewrite (atom_neq i 24 x 43), (atom_neq i 25 x 45) by (done || lia). rewrite andb_false_r.
  rewrite (find_atom_src i) by (done || lia). rewrite Hx. rewrite decide_False by lia. done.
Qed.

Lemma step_digit base b upper c s :
  reads_base base b → printed_digit upper b c →
  stage2_int_loop np base (widen np c) s = Some (Stage2 (s2_a s ++ [c]) (wrap 32 (s2_dc s + 1)) (s2_g s)).
Proof.
  intros Hb (d & Hd & ->). assert (Hb16 : b ≤ 16) by (destruct Hb; lia).
  destruct (src_digit upper d) as (f & Hf & Hsrc & Hlow & Hle); [lia|].
  rewrite (step_atom base f _ s) by (done || lia). cbv zeta.
  destruct Hb as [[-> ->]|[-> [->|[->| ->]]]]; cbn [Z.eqb Pos.eqb orb].
  - done.
  - by destruct (Z.leb_spec 8 (Z.of_nat f)); [lia|].
  - by destruct (Z.leb_spec 10 (Z.of_nat f)); [lia|].
  - by rewrite decide_True by done.
Qed.

(** Groups are read from the first, [group_sizes] counts from the last. *)
Lemma get_groups base b upper dg dc ps a g hd tl :
  reads_base base b → Forall (printed_digit upper b) ps → grouping np ≠ [] →
  group_sizes np dg dc ps = hd :: tl → (length g + length tl ≤ num_get_buf_sz)%nat →
  Z.of_nat (dc + length ps) < 2 ^ 32 →
  get_loop np base (rev (group_loop np dg dc ps)) (Stage2 a 0 g)
  = (Stage2 (a ++ rev ps) (hd - Z.of_nat dc) (g ++ rev tl), []).
Proof.
  intros Hb Hps Hgr. revert dg dc hd tl. induction Hps as [|p ps Hp Hps IH]; intros dg dc hd tl Hs Hlen Hsmall.
  { cbn in Hs |- *. injection Hs as <- <-. cbn. rewrite !app_nil_r, Z.sub_diag. done. }
  cbn [group_sizes group_loop] in *. cbn [length] in Hsmall.
  destruct ((0 <? wrap 32 (default 0 (grouping np !! dg))) && _) eqn:Hsep.
  - injection Hs as <- <-. set (dg' := if decide _ then S dg else dg) in *.
    destruct (group_sizes_cons np dg' 1 ps) as (hd' & tl' & Hs'). rewrite Hs' in *. cbn [length rev] in *.
    pose proof (proj2 (group_sizes_length np dg' 1 ps)) as Hr. rewrite Hs' in Hr. apply Forall_inv in Hr.
    pose proof (group_sizes_first _ _ _ _ _ _ Hs') as Hge. cbn beta in Hr.
    rewrite <- app_assoc. erewrite get_loop_app by (apply IH; [exact Hs'|lia|lia]).
    cbn [app get_loop]. rewrite (step_digit base b upper) by done. cbn [s2_a s2_dc s2_g].
    unfold stage2_int_loop. cbn [s2_a s2_dc s2_g]. rewrite bool_decide_eq_false_2 by (by intros [_ [=]]%app_eq_nil).
    cbn [andb]. rewrite bool_decide_eq_false_2, Z.eqb_refl by done. cbn [negb andb].
    rewrite decide_True by (rewrite length_app, length_rev; lia). rewrite Z.sub_diag, !app_assoc.
    unfold wrap. rewrite Z.mod_small by lia. do 5 f_equal. lia.
  - cbn [rev]. pose proof (proj2 (group_sizes_length np dg (S dc) ps)) as Hr. rewrite Hs in Hr. apply Forall_inv in Hr.
    pose proof (group_sizes_first _ _ _ _ _ _ Hs) as Hge. cbn beta in Hr.
    erewrite get_loop_app by (apply IH; [exact Hs|done|lia]). cbn [get_loop].
    rewrite (step_digit base b upper) by done. cbn [s2_a s2_dc s2_g]. unfold wrap. rewrite Z.mod_small by lia.
    rewrite app_assoc. do 3 f_equal. lia.
Qed.

(** The digits as they are written, with separators or without. *)
Definition body (ds : list Z) : list Z :=
  match grouping np with
  | [] => map (widen np) ds
  | _ :: _ => rev (group_loop np 0 0 (rev ds))
  end.

Lemma get_plain base b upper ds a n :
  reads_base base b → Forall (printed_digit upper b) ds →
  ∃ n', get_loop np base (map (widen np) ds) (Stage2 a n []) = (Stage2 (a ++ ds) n' [], []).
Proof.
  intros Hb Hds. revert a n. induction Hds as [|d ds Hd Hds IH]; intros a n; cbn [map get_loop].
  { exists n. by rewrite app_nil_r. }
  rewrite (step_digit base b upper) by done. cbn [s2_a s2_dc s2_g].
  destruct (IH (a ++ [d]) (wrap 32 (n + 1))) as [n' ->]. exists n'. by rewrite <- app_assoc.
Qed.

Lemma get_body base b upper ds a :
  reads_base base b → Forall (printed_digit upper b) ds → ds ≠ [] → (length ds < num_get_buf_sz)%nat →
  ∃ n g, get_loop np base (body ds) (Stage2 a 0 []) = (Stage2 (a ++ ds) n g, [])
    ∧ (length g < num_get_buf_sz)%nat
    ∧ (∀ err, check_grouping (grouping np) (g ++ [n]) err = err).
Proof.
  intros Hb Hds Hne Hlen. unfold body. destruct (grouping np) as [|c ig] eqn:Hgr.
  { destruct (get_plain base b upper ds a 0 Hb Hds) as [n ->]. exists n, []. split; [done|]. split; [cbn; lia|done]. }
  destruct (group_sizes_cons np 0 0 (rev ds)) as (hd & tl & Hs).
  destruct (group_sizes_length np 0 0 (rev ds)) as [Hl _]. rewrite Hs, length_rev in Hl. cbn [length] in Hl.
  exists hd, (rev tl).
  rewrite (get_groups base b upper 0 0 (rev ds) a [] hd tl);
    [|done|by apply Forall_rev|by rewrite Hgr|done|cbn; lia|rewrite length_rev; unfold num_get_buf_sz in Hlen; lia].
  rewrite rev_involutive, Z.sub_0_r. split; [done|]. split; [rewrite length_rev; lia|].
  intros err. unfold check_grouping. rewrite rev_app_distr, rev_involutive. cbn [rev app]. rewrite <- Hs.
  pose proof (group_sizes_check np 0 0 (rev ds) c) as Hck. rewrite Hgr in Hck. cbn [drop] in Hck.
  rewrite drop_0 in Hck.
  rewrite Hck; [done|done| |intros Hlim%limited_wrap; lia].
  right. destruct ds; [done|]. cbn. by intros [_ [=]]%app_eq_nil.
Qed.

Lemma get_stops base s rest :
  s2_a s ≠ [] →
  match rest with
  | [] => True
  | c :: _ => c ∉ map (widen np) (take 26 src) ∧ (grouping np ≠ [] → c ≠ thousands_sep np)
  end →
  get_loop np base rest s = (s, rest).
Proof.
  intros Ha. destruct rest as [|c rest]; [done|]. intros [Hc Hs]. cbn [get_loop].
  assert (Hatom : ∀ i, (i < 26)%nat → (c =? widen np (default 0 (src !! i))) = false).
  { intros i Hi. apply Z.eqb_neq. intros ->. destruct (lookup_lt_is_Some_2 src i) as [x Hx]; [cbn; lia|].
    apply Hc. rewrite Hx. apply list_elem_of_fmap. exists x. split; [done|].
    apply (list_elem_of_lookup_2 _ i). by rewrite lookup_take_lt. }
  unfold stage2_int_loop. rewrite !Hatom by lia. rewrite andb_false_r.
  replace (negb (bool_decide (grouping np = [])) && (c =? thousands_sep np)) with false.
  2: { case_bool_decide as Hg; [done|]. cbn. specialize (Hs Hg). by destruct (Z.eqb_spec c (thousands_sep np)). }
  assert (Hf : ∀ atoms, c ∉ map (widen np) atoms → find_atom np atoms c = length atoms).
  { induction atoms as [|x atoms IH]; [done|]. cbn. intros Hni.
    destruct (Z.eqb_spec (widen np x) c) as [He|]; [destruct Hni; rewrite He; left|]. f_equal. apply IH.
    intros Hin. apply Hni. by right. }
  rewrite Hf by done. by rewrite decide_True by (cbn; lia).
Qed.

(** A whole number: a sign or a prefix, then the digits. *)
Lemma get_text base b upper sg pre ds rest :
  reads_base base b → sg = [] ∨ (sg = [43] ∨ sg = [45]) ∧ pre = [] →
  pre = [] ∨ (pre = [48; 120] ∨ pre = [48; 88]) ∧ base = 16 →
  ds ≠ [] → (length ds < num_get_buf_sz)%nat → Forall (printed_digit upper b) ds →
  match rest with
  | [] => True
  | c :: _ => c ∉ map (widen np) (take 26 src) ∧ (grouping np ≠ [] → c ≠ thousands_sep np)
  end →
  ∃ n g, get_loop np base (map (widen np) (sg ++ pre) ++ body ds ++ rest) (Stage2 [] 0 [])
         = (Stage2 (sg ++ pre ++ ds) n g, rest)
    ∧ (length g < num_get_buf_sz)%nat
    ∧ (∀ err, check_grouping (grouping np) (g ++ [n]) err = err).
Proof.
  intros Hb Hsg Hpre Hne Hlen Hds Hrest.
  destruct (get_body base b upper ds (sg ++ pre) Hb Hds Hne Hlen) as (n & g & Hget & Hg & Hck).
  exists n, g. split; [|done]. rewrite (get_loop_app _ _ _ _ _ (Stage2 (sg ++ pre) 0 [])).
  - rewrite (get_loop_app _ _ _ _ _ _ Hget), <- app_assoc. apply get_stops; [|done]. cbn. intros H.
    apply app_eq_nil in H as [_ H]. by apply app_eq_nil in H as [_ H].
  - clear Hget Hck Hrest. destruct Hsg as [->|[Hsg ->]]; cbn [app].
    + destruct Hpre as [->|[Hpre ->]]; [done|].
      assert (∃ i x, pre = [48; x] ∧ src !! i = Some x ∧ i = 22%nat ∨ pre = [48; x] ∧ src !! i = Some x ∧ i = 23%nat)
        as (i & x & Hx) by (destruct Hpre as [->| ->]; [exists 22%nat, 120|exists 23%nat, 88]; auto).
      assert (pre = [48; x] ∧ src !! i = Some x ∧ (22 ≤ i < 24)%nat) as (-> & Hi & Hr)
        by (destruct Hx as [(->&?&->)|(->&?&->)]; (split; [done|split; [done|lia]])).
      cbn [map get_loop]. rewrite (step_atom 16 0 48) by (done || lia). cbn [s2_a s2_dc s2_g app].
      rewrite (decide_True (P := (0 < 22)%nat)) by lia. cbn [Z.eqb Pos.eqb orb].
      rewrite (step_atom 16 i x) by (done || lia). cbn [s2_a s2_dc s2_g app Z.eqb Pos.eqb orb].
      by rewrite decide_False by lia.
    + rewrite app_nil_r. destruct Hsg as [->| ->]; cbn [map get_loop]; unfold stage2_int_loop; cbn [s2_a s2_g];
        rewrite bool_decide_eq_true_2 by done; change (default 0 (src !! 24%nat)) with 43;
        change (default 0 (src !! 25%nat)) with 45; rewrite Z.eqb_refl; cbn [andb orb]; [done|].
      rewrite (atom_neq 25 24 45 43) by (done || lia). done.
Qed.
End read_back.

(** ** What [sprintf] writes for a format of [format_int] *)

Definition basefield_of (flags : Z) : Z := Z.land flags basefield.

Definition octal (flags : Z) : bool := basefield_of flags =? oct.
Definition hexadecimal (flags : Z) : bool := negb (octal flags) && (basefield_of flags =? hex).

Lemma sprintf_format t flags v :
  sprintf (str "%" ++ format_int (put_len t) (put_signed t) flags) v
  = let u := wrap 64 v in
    let alt := has_flag flags showbase && negb (u =? 0) in
    let upper := has_flag flags uppercase in
    if octal flags then (if alt then [48] else []) ++ print_base false 8 u
    else if hexadecimal flags then
      (if alt then [48; if upper then 88 else 120] else []) ++ print_base upper 16 u
    else if put_signed t then
      (if v <? 0 then [45] else if has_flag flags showpos then [43] else []) ++ print_base false 10 (Z.abs v)
    else print_base false 10 u.
Proof.
  unfold format_int, hexadecimal, octal, basefield_of. cbv zeta.
  destruct t, (has_flag flags showpos), (has_flag flags showbase), (Z.land flags basefield =? oct),
    (Z.land flags basefield =? hex), (has_flag flags uppercase); reflexivity.
Qed.

Lemma print_digits_head upper base fuel n :
  2 ≤ base ≤ 16 → 0 < n → n < 2 ^ Z.of_nat fuel →
  ∃ c r, print_digits upper base fuel n = c :: r ∧ c ≠ 48.
Proof.
  intros Hb. revert n. induction fuel as [|fuel IH]; intros n Hn Hf; [change (2 ^ Z.of_nat 0) with 1 in Hf; lia|].
  cbn [print_digits]. rewrite Nat2Z.inj_succ, Z.pow_succ_r in Hf by lia.
  destruct (Z.ltb_spec n base).
  - eexists _, _. split; [done|]. unfold digit_char. destruct (Z.ltb_spec n 10); [lia|]. destruct upper; lia.
  - pose proof (Z.div_mod n base ltac:(lia)). pose proof (Z.mod_pos_bound n base ltac:(lia)).
    destruct (IH (n / base)) as (c & r & -> & Hc); [apply Z.div_str_pos; lia|nia|].
    by eexists _, _.
Qed.

Lemma print_digits_lower upper base fuel n k :
  2 ≤ base → 0 ≤ k → base ^ k ≤ n → n < 2 ^ Z.of_nat fuel → k < zlen (print_digits upper base fuel n).
Proof.
  intros Hb. revert n k. induction fuel as [|fuel IH]; intros n k Hk Hn Hf.
  { change (2 ^ Z.of_nat 0) with 1 in Hf. pose proof (Z.pow_pos_nonneg base k ltac:(lia) Hk). lia. }
  cbn [print_digits]. rewrite Nat2Z.inj_succ, Z.pow_succ_r in Hf by lia.
  destruct (decide (k = 0)) as [->|Hk0].
  { destruct (n <? base); rewrite ?zlen_app; unfold zlen; cbn [length]; lia. }
  replace k with (Z.succ (k - 1)) in Hn by lia. rewrite Z.pow_succ_r in Hn by lia.
  pose proof (Z.pow_pos_nonneg base (k - 1) ltac:(lia) ltac:(lia)).
  pose proof (Z.div_mod n base ltac:(lia)). pose proof (Z.mod_pos_bound n base ltac:(lia)).
  destruct (Z.ltb_spec n base); [nia|]. rewrite zlen_app.
  assert (k - 1 < zlen (print_digits upper base fuel (n / base))); [|unfold zlen in *; cbn [length]; lia].
  apply IH; [lia|apply Z.div_le_lower_bound; lia|nia].
Qed.

(** The values of a type that is written. *)
Definition put_range (t : put_type) (v : Z) : Prop :=
  if put_signed t then LONG_MIN ≤ v ≤ LONG_MAX else 0 ≤ v ≤ ULONG_MAX.

(** What octal digits need room for. *)
Definition put_fits (t : put_type) (flags v : Z) : Prop :=
  octal flags = true →
  0 ≤ v ∧ (has_flag flags showbase = true → v < if put_signed t then 2 ^ 60 else 2 ^ 63).

Lemma print_base_length upper base n k : 2 ≤ base → 1 ≤ k → 0 ≤ n < base ^ k → zlen (print_base upper base n) ≤ k.
Proof. intros. by apply print_digits_length. Qed.

Lemma print_base_lower upper base n k : 2 ≤ base → 0 ≤ k → base ^ k ≤ n → k < zlen (print_base upper base n).
Proof.
  intros Hb Hk Hn. apply print_digits_lower; [done|done|done|]. apply log2_fuel.
  pose proof (Z.pow_pos_nonneg base k ltac:(lia) Hk). lia.
Qed.

Definition narrow (t : put_type) (flags v : Z) : list Z :=
  sprintf (str "%" ++ format_int (put_len t) (put_signed t) flags) v.

Lemma octal_fits t flags v :
  put_range t v →
  zlen ((if has_flag flags showbase && negb (wrap 64 v =? 0) then [48] else []) ++ print_base false 8 (wrap 64 v)) + 1
    ≤ nbuf t
  ↔ 0 ≤ v ∧ (has_flag flags showbase = true → v < if put_signed t then 2 ^ 60 else 2 ^ 63).
Proof.
  intros Hr. assert (Hu : 0 ≤ wrap 64 v < 2 ^ 64) by (apply Z.mod_pos_bound; lia).
  assert (Hn : nbuf t = if put_signed t then 22 else 23) by by destruct t. rewrite Hn. clear Hn.
  assert (H22 : zlen (print_base false 8 (wrap 64 v)) ≤ 22) by (apply print_base_length; lia).
  unfold put_range, LONG_MIN, LONG_MAX, ULONG_MAX in Hr.
  assert (Hwrap : wrap 64 v = if decide (0 ≤ v) then v else v + 2 ^ 64).
  { unfold wrap. case_decide; [apply Z.mod_small; destruct (put_signed t); lia|].
    rewrite <- (Z.mod_add v 1) by lia. apply Z.mod_small. destruct (put_signed t); lia. }
  rewrite zlen_app.
  destruct (put_signed t), (has_flag flags showbase), (decide (0 ≤ v)); rewrite Hwrap in *; cbn [andb];
    try destruct (Z.eqb_spec v 0); try destruct (Z.eqb_spec (v + 2 ^ 64) 0); cbn [negb]; change (zlen []) with 0;
    change (zlen [48]) with 1; try lia.
  all: try (subst; split; [intros _; lia|]; intros _; change (zlen (print_base false 8 0)) with 1; lia).
  - split.
    + intros Hl. split; [done|]. intros _. destruct (decide (v < 2 ^ 60)); [done|].
      assert (20 < zlen (print_base false 8 v)) by (apply print_base_lower; lia). lia.
    + intros [_ Hlt]. specialize (Hlt eq_refl).
      assert (zlen (print_base false 8 v) ≤ 20) by (apply print_base_length; lia). lia.
  - assert (21 < zlen (print_base false 8 (v + 2 ^ 64))) by (apply print_base_lower; lia). split; [lia|].
    intros [Hpos _]. lia.
  - split; [intros _; split; [done|done]|]. intros _.
    assert (zlen (print_base false 8 v) ≤ 21) by (apply print_base_length; lia). lia.
  - assert (21 < zlen (print_base false 8 (v + 2 ^ 64))) by (apply print_base_lower; lia). split; [lia|].
    intros [Hpos _]. lia.
  - split.
    + intros Hl. split; [done|]. intros _. destruct (decide (v < 2 ^ 63)); [done|].
      assert (21 < zlen (print_base false 8 v)) by (apply print_base_lower; lia). lia.
    + intros [_ Hlt]. specialize (Hlt eq_refl).
      assert (zlen (print_base false 8 v) ≤ 21) by (apply print_base_length; lia). lia.
Qed.

Lemma narrow_fits t flags v :
  put_range t v → zlen (narrow t flags v) + 1 ≤ nbuf t ↔ put_fits t flags v.
Proof.
  intros Hr. unfold narrow, put_fits. rewrite sprintf_format. cbv zeta.
  assert (Hu : 0 ≤ wrap 64 v < 2 ^ 64) by (apply Z.mod_pos_bound; lia).
  destruct (octal flags) eqn:Ho; [|destruct (hexadecimal flags) eqn:Hh].
  - rewrite (octal_fits t flags v Hr). naive_solver.
  - assert (Hn : nbuf t = if put_signed t then 22 else 23) by by destruct t. rewrite Hn. clear Hn.
    assert (zlen (print_base (has_flag flags uppercase) 16 (wrap 64 v)) ≤ 16) by (apply print_base_length; lia).
    split; [done|]. intros _. rewrite zlen_app. destruct (_ && _); unfold zlen at 1; cbn [length];
      destruct (put_signed t); lia.
  - assert (Hn : nbuf t = if put_signed t then 22 else 23) by by destruct t. rewrite Hn. clear Hn.
    split; [done|]. intros _. unfold put_range, LONG_MIN, LONG_MAX, ULONG_MAX in Hr. destruct (put_signed t).
    + assert (zlen (print_base false 10 (Z.abs v)) ≤ 19) by (apply print_base_length; lia).
      rewrite zlen_app. destruct (v <? 0); [|destruct (has_flag _ _)]; unfold zlen at 1; cbn [length]; lia.
    + assert (zlen (print_base false 10 (wrap 64 v)) ≤ 20) by (apply print_base_length; lia). lia.
Qed.

Lemma hex_prefix_digits upper b ds : b ≤ 16 → Forall (printed_digit upper b) ds → hex_prefix ds = false.
Proof.
  intros Hb Hds. destruct ds as [|c [|x [|d ds]]]; try done. cbn.
  pose proof (printed_digit_range _ _ _ Hb (Forall_inv (Forall_inv_tail Hds))).
  destruct (Z.eqb_spec x 120); [lia|]. destruct (Z.eqb_spec x 88); [lia|]. by rewrite andb_false_r.
Qed.

Lemma effective_digits base b upper c ds :
  reads_base base b → Forall (printed_digit upper b) (c :: ds) → (base = 0 → c ≠ 48) →
  effective_base base (c :: ds) = (b, O).
Proof.
  intros Hb Hds Hc. unfold effective_base. rewrite (hex_prefix_digits upper b), andb_false_r by (done || by destruct Hb; lia).
  destruct Hb as [[-> ->]|[-> Hb]]; [by destruct (Z.eqb_spec c 48); [destruct Hc|]|].
  by destruct Hb as [->|[->| ->]].
Qed.

Lemma effective_prefix upper x c ds :
  x = 120 ∨ x = 88 → Forall (printed_digit upper 16) (c :: ds) → effective_base 16 ([48; x] ++ c :: ds) = (16, 2%nat).
Proof.
  intros Hx Hds. unfold effective_base. cbn [app hex_prefix].
  pose proof (Forall_inv (printed_is_digit _ _ _ (Z.le_refl 16) Hds)) as Hc. cbn beta in Hc. rewrite Hc.
  by destruct Hx as [->| ->].
Qed.

Lemma get_base_of flags :
  get_base flags = if octal flags then 8 else if hexadecimal flags then 16
                   else if basefield_of flags =? 0 then 0 else 10.
Proof. unfold get_base, hexadecimal, octal, basefield_of. cbv zeta. by destruct (Z.land flags basefield =? oct). Qed.

(** The parts of what is written: it is read in base [b], and [strtoll] takes it
    in base [bs], which is another only for a single 0. *)
Record parts (base : Z) (v : Z) (text sg pre ds : list Z) (upper : bool) (b bs : Z) : Prop := {
  p_text : text = sg ++ pre ++ ds;
  p_sg : sg = [] ∨ (sg = [43] ∨ sg = [45]) ∧ pre = [];
  p_neg : sg = [45] ↔ v < 0;
  p_pre : pre = [] ∨ (pre = [48; 120] ∨ pre = [48; 88]) ∧ base = 16;
  p_some : ds ≠ [];
  p_base : reads_base base b;
  p_digits : Forall (printed_digit upper b) ds;
  p_scan : bs ≤ 16 ∧ Forall (printed_digit upper bs) ds;
  p_effective : effective_base base (pre ++ ds) = (bs, length pre);
  p_value : read_digits bs ds 0 = (Z.abs v, length ds) }.

Lemma plain_parts base b upper sg v :
  reads_base base b → sg = [] ∨ sg = [43] ∨ sg = [45] → (sg = [45] ↔ v < 0) →
  ∃ ds bs, parts base v (sg ++ print_base upper b (Z.abs v)) sg [] ds upper b bs.
Proof.
  intros Hb Hsg Hneg. assert (Hb2 : 2 ≤ b ≤ 16) by (destruct Hb; lia).
  pose proof (print_base_printed upper b (Z.abs v) ltac:(lia) ltac:(lia)) as Hds.
  exists (print_base upper b (Z.abs v)). destruct (decide (base = 0 ∧ v = 0)) as [[-> ->]|Hnz].
  - exists 8. assert (b = 10) as -> by (destruct Hb; lia). change (print_base upper 10 (Z.abs 0)) with [48] in *.
    constructor; try done; [naive_solver|by left|]. split; [done|]. repeat constructor. exists 0. split; [lia|done].
  - exists b. pose proof (read_print_base upper b (Z.abs v) ltac:(lia) ltac:(lia)) as Hread.
    pose proof (print_base_nonempty upper b (Z.abs v)) as Hne.
    constructor; try done; [naive_solver|by left|by split; [lia|]|]. cbn [app length].
    destruct (print_base upper b (Z.abs v)) as [|c r] eqn:Hp; [done|].
    apply (effective_digits base b upper); [done|done|]. intros -> ->.
    destruct (print_digits_head upper b (S (Z.to_nat (Z.log2 (Z.abs v)))) (Z.abs v)) as (c' & r' & Hc & Hne');
      [done|lia|apply log2_fuel; lia|]. unfold print_base in Hp. congruence.
Qed.

Lemma narrow_parts t flags v :
  put_range t v → 0 ≤ v ∨ octal flags = false ∧ hexadecimal flags = false →
  ∃ sg pre ds upper b bs, parts (get_base flags) v (narrow t flags v) sg pre ds upper b bs.
Proof.
  intros Hr Hv. unfold narrow. rewrite sprintf_format, get_base_of. cbv zeta.
  assert (Hwrap : 0 ≤ v → wrap 64 v = Z.abs v).
  { intros Hp. unfold wrap, put_range, LONG_MAX, ULONG_MAX in *. rewrite Z.mod_small by (destruct (put_signed t); lia). lia. }
  destruct (octal flags) eqn:Ho; [|destruct (hexadecimal flags) eqn:Hh].
  - assert (0 ≤ v) by (destruct Hv; naive_solver). rewrite Hwrap by done.
    destruct (plain_parts 8 8 false [] v) as (ds & bs & Hp); [unfold reads_base; lia|by left|split; [done|lia]|].
    destruct (has_flag flags showbase && negb (Z.abs v =? 0)) eqn:Halt; [|by eexists [], [], ds, false, 8, bs].
    destruct Hp as [Htext _ Hneg _ Hne Hb Hds [Hb16 Hds'] Heff Hval]. cbn [app] in Htext.
    exists [], [], (48 :: ds), false, 8, 8. rewrite Htext.
    assert (Hzero : printed_digit false 8 48) by (exists 0; split; [lia|done]).
    assert (Hbs : bs = 8) by (cbn in Heff; congruence). subst bs.
    constructor; try done; [by left|by left|by constructor|by split; [|constructor]|]. cbn [read_digits length].
    change (is_digit 8 48) with true. cbv beta iota. change (0 * 8 + default 0 (digit_value 48)) with 0. by rewrite Hval.
  - assert (0 ≤ v) by (destruct Hv; naive_solver). rewrite Hwrap by done.
    destruct (plain_parts 16 16 (has_flag flags uppercase) [] v) as (ds & bs & Hp); [unfold reads_base; lia|by left|split; [done|lia]|].
    destruct (has_flag flags showbase && negb (Z.abs v =? 0)) eqn:Halt; [|by eexists [], [], ds, _, 16, bs].
    destruct Hp as [Htext _ Hneg _ Hne Hb Hds [Hb16 Hds'] Heff Hval]. cbn [app] in Htext.
    assert (Hbs : bs = 16).
    { destruct ds as [|d ds]; [done|]. cbn [app] in Heff. rewrite (effective_digits 16 16 (has_flag flags uppercase)) in Heff by done. congruence. }
    subst bs. exists [], [48; if has_flag flags uppercase then 88 else 120], ds, (has_flag flags uppercase), 16, 16.
    rewrite Htext. constructor; try done; [by left|right; split; [destruct (has_flag flags uppercase); auto|done]|].
    destruct ds as [|d ds]; [done|]. apply (effective_prefix (has_flag flags uppercase)); [|done].
    destruct (has_flag flags uppercase); auto.
  - assert (Hb : reads_base (if basefield_of flags =? 0 then 0 else 10) 10) by (unfold reads_base; destruct (_ =? 0); lia).
    destruct (put_signed t) eqn:Hsig.
    + set (sg := if v <? 0 then [45] else if has_flag flags showpos then [43] else []).
      destruct (plain_parts _ 10 false sg v Hb) as (ds & bs & Hp).
      * subst sg. destruct (v <? 0); [by auto|]. destruct (has_flag _ _); auto.
      * subst sg. destruct (Z.ltb_spec v 0); [done|]. destruct (has_flag _ _); (split; [done|lia]).
      * by eexists sg, [], ds, false, 10, bs.
    + unfold put_range in Hr. rewrite Hsig in Hr. rewrite Hwrap by lia.
      destruct (plain_parts _ 10 false [] v Hb) as (ds & bs & Hp); [by left|split; [done|lia]|].
      by eexists [], [], ds, false, 10, bs.
Qed.

Lemma prefix_length_parts base v text sg pre ds upper b bs :
  parts base v text sg pre ds upper b bs → ungrouped_length text = length (sg ++ pre).
Proof.
  intros [-> Hsg _ Hpre Hne _ _ [Hb Hds] _ _].
  assert (Hd : ∀ k, match ds with
    | c :: x :: _ => if (c =? 48) && ((x =? 120) || (x =? 88)) then (k + 2)%nat else k | _ => k end = k).
  { intros k. destruct ds as [|c [|x ds]]; try done.
    pose proof (printed_digit_range _ _ _ Hb (Forall_inv (Forall_inv_tail Hds))).
    destruct (Z.eqb_spec x 120); [lia|]. destruct (Z.eqb_spec x 88); [lia|]. by rewrite andb_false_r. }
  assert (∃ c r, ds = c :: r ∧ ((c =? 45) || (c =? 43)) = false) as (c & r & Hds0 & Hc).
  { destruct ds as [|c r]; [done|]. exists c, r. split; [done|].
    pose proof (printed_digit_range _ _ _ Hb (Forall_inv Hds)).
    destruct (Z.eqb_spec c 45); [lia|]. by destruct (Z.eqb_spec c 43); [lia|]. }
  unfold ungrouped_length. destruct Hsg as [->|[[->| ->] ->]]; cbn [app length drop].
  - destruct Hpre as [->|[[->| ->] _]]; cbn [app length]; [|done|done].
    rewrite Hds0 in Hd |- *. rewrite Hc. apply Hd.
  - apply Hd.
  - apply Hd.
Qed.

Lemma group_loop_length np dg dc ps :
  (length (group_loop np dg dc ps) + (if decide (dc = O ∧ ps ≠ []) then 1 else 0) ≤ 2 * length ps)%nat.
Proof.
  revert dg dc. induction ps as [|p ps IH]; intros dg dc; cbn [group_loop length].
  { rewrite decide_False by naive_solver. done. }
  generalize (wrap 32 (default 0 (grouping np !! dg))). intros gsize. destruct ((0 <? gsize) && (Z.of_nat dc =? gsize)) eqn:Hs; cbn [length].
  - rewrite (decide_False (P := dc = O ∧ p :: ps ≠ [])) by (apply andb_true_iff in Hs as [Hs1%Z.ltb_lt Hs2%Z.eqb_eq]; intros [Hz _]; lia). match goal with |- context [group_loop np ?d 1 ps] => specialize (IH d 1%nat) end. lia.
  - specialize (IH dg (S dc)). rewrite decide_False in IH by (intros [? _]; done). case_decide; lia.
Qed.

Lemma widened_length np nb pad :
  nb ≠ [] → zlen (widen_and_group_int np nb pad).1 ≤ 2 * zlen nb - 1.
Proof.
  intros Hne. assert (1 ≤ zlen nb) by (destruct nb; [done|rewrite zlen_cons; pose proof (zlen_nonneg nb); lia]).
  unfold widen_and_group_int. cbn [fst]. destruct (grouping np); [unfold zlen in *; rewrite length_map; lia|].
  unfold zlen in *. rewrite length_app, length_map, length_rev.
  pose proof (group_loop_length np 0 0 (rev (drop (ungrouped_length nb) nb))) as Hl. revert Hl.
  rewrite length_rev, length_drop, length_take. case_decide as Hd; [lia|].
  destruct (decide (ungrouped_length nb < length nb)%nat); [|lia]. destruct Hd. split; [done|].
  intros Hnil. apply (f_equal length) in Hnil. rewrite length_rev, length_drop in Hnil. cbn in Hnil. lia.
Qed.

Lemma widened_parts np base v text sg pre ds upper b bs pad :
  parts base v text sg pre ds upper b bs →
  (widen_and_group_int np text pad).1 = map (widen np) (sg ++ pre) ++ body np ds.
Proof.
  intros Hp. pose proof (prefix_length_parts _ _ _ _ _ _ _ _ _ Hp) as Hlen. destruct Hp as [-> _ _ _ _ _ _ _ _ _].
  unfold widen_and_group_int, body. cbn [fst]. destruct (grouping np).
  - by rewrite !map_app, app_assoc.
  - rewrite Hlen, app_assoc, take_app_length, drop_app_length. done.
Qed.

Lemma narrow_nonempty t flags v : narrow t flags v ≠ [].
Proof.
  unfold narrow. rewrite sprintf_format. cbv zeta. pose proof print_base_nonempty as Hne.
  repeat case_match; try done; intros Hnil; try (apply app_eq_nil in Hnil as [_ Hnil]); by apply Hne in Hnil.
Qed.

Lemma do_put_is np t flags width fill v :
  do_put np t flags width fill v
  = if nbuf t <? zlen (narrow t flags v) + 1 then Undef BufferOverflow
    else
      let '(ob, op) := widen_and_group_int np (narrow t flags v) (identify_padding (narrow t flags v) flags) in
      Ret (pad_and_output ob op width fill).
Proof.
  unfold do_put. fold (narrow t flags v). destruct (Z.ltb_spec (nbuf t) (zlen (narrow t flags v) + 1)) as [|Hfit]; [done|].
  pose proof (widened_length np (narrow t flags v) (identify_padding (narrow t flags v) flags) (narrow_nonempty t flags v)) as Hw.
  destruct (widen_and_group_int np (narrow t flags v) _) as [ob op]. cbn [fst] in Hw.
  by destruct (Z.ltb_spec (2 * (nbuf t - 1) - 1) (zlen ob)); [lia|].
Qed.

(** ** Properties *)

(** The type a number is read as. *)
Definition read_as (t : put_type) : get_type :=
  match t with
  | PutLong => GetLong | PutLongLong => GetLongLong
  | PutUnsignedLong => GetUnsignedLong | PutUnsignedLongLong => GetUnsignedLongLong
  end.

(** What follows a number and is no part of one. *)
Definition stops (np : punct) (rest : list Z) : Prop :=
  match rest with
  | [] => True
  | c :: _ => c ∉ map (widen np) (take 26 src) ∧ (grouping np ≠ [] → c ≠ thousands_sep np)
  end.

Lemma get_value t flags v sg pre ds upper b bs err :
  put_range t v → 0 ≤ v ∨ put_signed t = true →
  parts (get_base flags) v (sg ++ pre ++ ds) sg pre ds upper b bs →
  (if get_signed (read_as t) then num_get_signed_integral LONG_MIN LONG_MAX (sg ++ pre ++ ds) err (get_base flags)
   else num_get_unsigned_integral (get_max (read_as t)) (sg ++ pre ++ ds) err (get_base flags)) = Ret (v, err).
Proof.
  intros Hr Hpos [_ Hsg Hneg Hpre Hne _ _ [Hb Hds] Heff Hval].
  assert (Hscan : scan_number (get_base flags) (sg ++ pre ++ ds) = (v, length (sg ++ pre ++ ds))).
  { rewrite (scan_text (get_base flags) bs sg pre ds (Z.abs v) upper); [| |naive_solver|done|done|done|done|done].
    - f_equal. case_decide as Hs; [apply Hneg in Hs; lia|]. destruct (decide (v < 0)); [|lia]. by apply Hneg in l.
    - destruct Hsg as [->|[Hsg _]]; [by left|by right]. }
  assert (Hvalid : valid_base (get_base flags) = true).
  { unfold get_base. cbv zeta. by repeat destruct (_ =? _). }
  assert (Hnil : ∃ c r, sg ++ pre ++ ds = c :: r ∧ (0 ≤ v → c ≠ 45)).
  { assert (∃ c r, ds = c :: r ∧ c ≠ 45) as (c & r & -> & Hc).
    { destruct ds as [|c r]; [done|]. exists c, r. split; [done|]. pose proof (printed_digit_range _ _ _ Hb (Forall_inv Hds)). lia. }
    destruct Hsg as [->|[[->| ->] ->]]; [|by eexists _, _|].
    - destruct Hpre as [->|[[->| ->] _]]; by eexists _, _.
    - eexists _, _. split; [done|]. assert (v < 0) by by apply Hneg. lia. }
  destruct Hnil as (c & r & Heq & Hc). unfold put_range in Hr.
  destruct (get_signed (read_as t)) eqn:Hs.
  - replace (put_signed t) with true in Hr by by destruct t.
    unfold num_get_signed_integral. rewrite Heq in *. unfold strtoll, strtol. rewrite Hvalid, Hscan.
    destruct (Z.ltb_spec v LONG_MIN); [lia|]. destruct (Z.ltb_spec LONG_MAX v); [lia|].
    cbv beta iota. rewrite decide_False by (intros Hn; by destruct Hn).
    by destruct (Z.ltb_spec v LONG_MIN), (Z.ltb_spec LONG_MAX v); try lia.
  - replace (put_signed t) with false in Hr, Hpos by by destruct t. assert (0 ≤ v) by lia.
    unfold num_get_unsigned_integral. rewrite Heq in *. destruct (Z.eqb_spec c 45); [by destruct Hc|].
    replace (get_max (read_as t)) with ULONG_MAX by by destruct t.
    unfold strtoull, strtoul. rewrite Hvalid, Hscan. unfold wrap. rewrite Z.mod_small by (unfold ULONG_MAX in *; lia).
    destruct (Z.ltb_spec ULONG_MAX (Z.abs v)); [lia|]. rewrite decide_False by naive_solver.
    destruct (Z.ltb_spec ULONG_MAX v); [lia|done].
Qed.

(** What is written without padding is read back. *)
Lemma number_reads_back np t flags fill v err rest :
  distinct_atoms np → put_range t v → put_fits t flags v →
  0 ≤ v ∨ octal flags = false ∧ hexadecimal flags = false → stops np rest →
  ∃ out, do_put np t flags 0 fill v = Ret out
    ∧ do_get np (read_as t) flags err (out ++ rest)
      = Ret (v, match rest with [] => Z.lor err eofbit | _ => err end, rest).
Proof.
  intros Hnp Hr Hfit Hv Hrest. destruct (narrow_parts t flags v Hr Hv) as (sg & pre & ds & upper & b & bs & Hp).
  pose proof (narrow_fits t flags v Hr) as Hlen. apply Hlen in Hfit. clear Hlen.
  rewrite do_put_is. destruct (Z.ltb_spec (nbuf t) (zlen (narrow t flags v) + 1)); [lia|].
  pose proof (widened_parts np _ _ _ _ _ _ _ _ _ (identify_padding (narrow t flags v) flags) Hp) as Hob.
  destruct (widen_and_group_int np (narrow t flags v) _) as [ob op]. cbn [fst] in Hob. subst ob.
  eexists. split; [done|]. unfold pad_and_output. replace (Z.to_nat (0 - _)) with O by (pose proof (zlen_nonneg (map (widen np) (sg ++ pre) ++ body np ds)); lia).
  cbn [replicate]. rewrite app_nil_l, take_drop.
  assert (Hds : (length ds < num_get_buf_sz)%nat).
  { assert (zlen ds ≤ zlen (narrow t flags v)).
    { destruct Hp as [-> _ _ _ _ _ _ _ _ _]. unfold zlen. rewrite !length_app. lia. }
    assert (nbuf t ≤ 23) by by destruct t. unfold num_get_buf_sz, zlen in *. lia. }
  destruct (get_text np Hnp (get_base flags) b upper sg pre ds rest) as (n & g & Hget & Hg & Hck);
    [apply Hp|apply Hp|apply Hp|apply Hp|done|apply Hp|done|].
  unfold do_get. rewrite <- app_assoc, Hget. cbn [s2_a s2_dc s2_g].
  assert (Hsig : 0 ≤ v ∨ put_signed t = true).
  { unfold put_range in Hr. destruct (put_signed t); [by right|left; lia]. }
  pose proof (p_text _ _ _ _ _ _ _ _ _ Hp) as Htext. rewrite Htext in Hp.
  rewrite (get_value t flags v sg pre ds upper b bs err Hr Hsig Hp).
  rewrite (bool_decide_eq_true_2 (length g < num_get_buf_sz)%nat) by done. rewrite andb_true_r.
  case_bool_decide as Hgr; cbn [negb]; [|by rewrite Hck]. by rewrite Hgr.
Qed.

(** Nothing is stored beyond the arrays exactly when the octal digits fit, and then
    what is written has the width that is asked for. *)
Theorem number_put_bounds np t flags width fill v :
  put_range t v →
  (put_fits t flags v → ∃ out, do_put np t flags width fill v = Ret out ∧ width ≤ zlen out)
  ∧ (¬ put_fits t flags v → do_put np t flags width fill v = Undef BufferOverflow).
Proof.
  intros Hr. pose proof (narrow_fits t flags v Hr) as Hlen. rewrite do_put_is. split; intros Hfit.
  - apply Hlen in Hfit. destruct (Z.ltb_spec (nbuf t) (zlen (narrow t flags v) + 1)); [lia|].
    destruct (widen_and_group_int _ _ _) as [ob op]. eexists. split; [done|].
    unfold pad_and_output, zlen. rewrite !length_app, length_replicate, length_take, length_drop. lia.
  - destruct (Z.ltb_spec (nbuf t) (zlen (narrow t flags v) + 1)) as [|Hle]; [done|]. destruct Hfit. by apply Hlen.
Qed.

(** The size the grouping asks of the [i]th group from the last. *)
Definition size_at (gr : list Z) (i : nat) : Z := default 0 (gr !! min i (length gr - 1)).

(** Sizes [sz] from the last group on: the first group may be smaller. *)
Definition groups_ok (sz : nat → Z) (rs : list Z) : Prop :=
  ∀ i r, rs !! i = Some r → limited (sz i) = true →
    if decide (S i = length rs) then 0 < r ≤ sz i else r = sz i.

Definition well_grouped (gr g : list Z) : Prop := groups_ok (size_at gr) (rev g).

Lemma groups_ok_ext sz sz' rs : (∀ i, sz i = sz' i) → groups_ok sz rs → groups_ok sz' rs.
Proof. intros He Hok i r. rewrite <- He. apply Hok. Qed.

Lemma groups_ok_one sz r : groups_ok sz [r] ↔ (limited (sz O) = true → 0 < r ≤ sz O).
Proof.
  split; [intros Hok Hl; exact (Hok O r eq_refl Hl)|].
  intros Hok [|i] q [= <-] Hl. cbn [length]. rewrite decide_True by done. by apply Hok.
Qed.

Lemma groups_ok_cons sz r x xs :
  groups_ok sz (r :: x :: xs) ↔ (limited (sz O) = true → r = sz O) ∧ groups_ok (λ i, sz (S i)) (x :: xs).
Proof.
  assert (Hlen : ∀ i (P Q : Prop), (if decide (S (S i) = length (r :: x :: xs)) then P else Q)
    ↔ (if decide (S i = length (x :: xs)) then P else Q)).
  { intros i P Q. cbn [length]. destruct (decide (S i = S (length xs))), (decide (S (S i) = S (S (length xs)))); lia || done. }
  split.
  - intros Hok. split; [intros Hl; specialize (Hok O r eq_refl Hl); by rewrite decide_False in Hok by (cbn; lia)|].
    intros i q Hq Hl. apply Hlen. by apply (Hok (S i) q).
  - intros [H0 HS] [|i] q Hq Hl; [injection Hq as <-; rewrite decide_False by (cbn; lia); by apply H0|].
    apply Hlen. by apply (HS i q).
Qed.

Lemma size_at_next c c' ig i : size_at (c :: c' :: ig) (S i) = size_at (c' :: ig) i.
Proof. unfold size_at. cbn [length]. by replace (min (S i) (S (S (length ig)) - 1)) with (S (min i (S (length ig) - 1))) by lia. Qed.

Lemma size_at_last c i : size_at [c] i = c.
Proof. unfold size_at. cbn [length]. by replace (min i (1 - 1)) with O by lia. Qed.

Lemma check_groups_spec c ig rs :
  rs ≠ [] → Forall (λ r, 0 ≤ r) rs → check_groups c ig rs = true ↔ groups_ok (size_at (c :: ig)) rs.
Proof.
  intros Hne Hrs. revert Hne c ig. induction Hrs as [|r rs Hr Hrs IH]; intros Hne c ig; [done|].
  destruct rs as [|x xs].
  - rewrite groups_ok_one. change (size_at (c :: ig) 0) with c. cbn [check_groups]. destruct (limited c); [|naive_solver].
    cbn [andb]. destruct (Z.ltb_spec c r), (Z.eqb_spec r 0); cbn; naive_solver lia.
  - rewrite check_groups_cons, groups_ok_cons. change (size_at (c :: ig) 0) with c.
    assert (Hig : match ig with c' :: ig' => check_groups c' ig' (x :: xs) | [] => check_groups c [] (x :: xs) end = true
      ↔ groups_ok (λ i, size_at (c :: ig) (S i)) (x :: xs)).
    { destruct ig as [|c' ig']; rewrite IH by done; split; apply groups_ok_ext; intros i;
        by rewrite ?size_at_last, ?size_at_next. }
    rewrite <- Hig. destruct (limited c), (Z.eqb_spec c r); cbn [andb negb]; naive_solver.
Qed.

(** The groups of a number are checked against the grouping from the last: each has
    its size, the first at most that; a size that means none asks for nothing. *)
Theorem grouping_checked gr g err :
  gr ≠ [] → g ≠ [] → Forall (λ r, 0 ≤ r) g →
  (well_grouped gr g → check_grouping gr g err = err)
  ∧ (¬ well_grouped gr g → check_grouping gr g err = failbit).
Proof.
  intros Hgr Hne Hg. destruct gr as [|c ig]; [done|]. unfold well_grouped, check_grouping.
  assert (Hck : check_groups c ig (rev g) = true ↔ groups_ok (size_at (c :: ig)) (rev g)).
  { apply check_groups_spec; [|by apply Forall_rev]. intros Hnil. apply (f_equal length) in Hnil.
    rewrite length_rev in Hnil. by destruct g. }
   destruct (check_groups c ig (rev g)); split; intros Hw; try done.
  - destruct Hw. by apply Hck.
  - apply Hck in Hw. done.
Qed.

(** *** The numbers of the programs *)

(** The locale of a stream that has none of its own. *)
Definition classic : punct := Punct id [] 44.

Lemma print_digits_dec fuel n : 0 ≤ n → print_digits false 10 fuel n = codes (dec_go fuel n).
Proof.
  assert (Hd : ∀ d, 0 ≤ d < 10 → digit_char false d = byte_val (digit d)).
  { intros d Hd. rewrite digit_val by done. unfold digit_char. by destruct (Z.ltb_spec d 10); [|lia]. }
  revert n. induction fuel as [|fuel IH]; intros n Hn; cbn [print_digits dec_go]; [done|].
  destruct (Z.ltb_spec n 10).
  - rewrite decide_True by done. cbn. by rewrite Hd.
  - rewrite decide_False by lia. rewrite IH by (apply Z.div_pos; lia). unfold codes. rewrite map_app. cbn [map].
    by rewrite Hd by (apply Z.mod_pos_bound; lia).
Qed.

Lemma print_base_dec n : 0 ≤ n → print_base false 10 n = codes (dec_go (dec_fuel n) n).
Proof. apply print_digits_dec. Qed.

Lemma classic_step c s :
  s2_a s ≠ [] →
  stage2_int_loop classic 10 (byte_val c) s
  = if isdigit c then Some (Stage2 (s2_a s ++ [byte_val c]) (wrap 32 (s2_dc s + 1)) (s2_g s)) else None.
Proof.
  intros Ha. unfold stage2_int_loop. rewrite bool_decide_eq_false_2 by done. cbn [andb].
  change (negb (bool_decide (grouping classic = []))) with false. cbn [andb].
  destruct c as [[] [] [] [] [] [] [] []]; reflexivity.
Qed.

Lemma classic_first c :
  stage2_int_loop classic 10 (byte_val c) (Stage2 [] 0 [])
  = if bool_decide (c = "+"%char) || bool_decide (c = "-"%char) then Some (Stage2 [byte_val c] 0 [])
    else if isdigit c then Some (Stage2 [byte_val c] 1 []) else None.
Proof. destruct c as [[] [] [] [] [] [] [] []]; reflexivity. Qed.

Lemma classic_digits s t :
  s2_a t ≠ [] →
  ∃ n, get_loop classic 10 (codes s) t
       = (Stage2 (s2_a t ++ codes (fst (span isdigit s))) n (s2_g t), codes (snd (span isdigit s))).
Proof.
  revert t. induction s as [|c s IH]; intros [a n g] Ha; cbn [codes map get_loop span].
  { exists n. cbn. by rewrite app_nil_r. }
  rewrite classic_step by done. destruct (isdigit c); cbn [fst snd].
  - destruct (IH (Stage2 (a ++ [byte_val c]) (wrap 32 (n + 1)) g)) as [n' Hn]; [cbn; by intros [_ [=]]%app_eq_nil|].
    exists n'. cbn [s2_a s2_dc s2_g] in *. unfold codes in Hn at 1. rewrite Hn. destruct (span isdigit s). cbn.
    by rewrite <- app_assoc.
  - exists n. cbn. by rewrite app_nil_r.
Qed.

Lemma span_digits s : Forall (λ c, isdigit c = true) (fst (span isdigit s)).
Proof.
  induction s as [|c s IH]; cbn; [constructor|]. destruct (isdigit c) eqn:Hc; [|constructor].
  destruct (span isdigit s). by constructor.
Qed.

(** [scan_int]'s reading of a sign and digits, as [strtoll] has it. *)
Lemma get_scanned (sg : list Z) (ds : bytes) err :
  sg = [] ∨ sg = [43] ∨ sg = [45] → Forall (λ c, isdigit c = true) ds →
  num_get_signed_integral LONG_MIN LONG_MAX (sg ++ codes ds) err 10
  = Ret (if decide (ds = []) then (0, failbit)
         else
           let v := if decide (sg = [45]) then - digits_val ds else digits_val ds in
           if decide (v < LONG_MIN) then (LONG_MIN, failbit)
           else if decide (LONG_MAX < v) then (LONG_MAX, failbit) else (v, err)).
Proof.
  intros Hsg Hds. case_decide as Hne; [subst; by destruct Hsg as [->|[->| ->]]|].
  assert (Hscan : scan_number 10 (sg ++ codes ds)
    = (if decide (sg = [45]) then - digits_val ds else digits_val ds, length (sg ++ codes ds))).
  { rewrite length_app. unfold codes at 2. rewrite length_map. destruct Hsg as [->|[->| ->]]; cbn [app].
    - by rewrite digits_scan.
    - pose proof (digits_scan ds Hne Hds) as Hd. pose proof (read_digits_codes ds 0 Hds) as Hr. unfold scan_number.
      change (spaces (43 :: codes ds)) with O. rewrite drop_0. change (sign (43 :: codes ds)) with (false, 1%nat).
      cbv beta iota. change (drop (0 + 1) (43 :: codes ds)) with (codes ds).
      change (effective_base 10 (codes ds)) with (10, O). cbv beta iota. rewrite drop_0, Hr. by destruct ds.
    - by rewrite neg_scan. }
  unfold num_get_signed_integral, strtoll, strtol. change (valid_base 10) with true. cbv iota. rewrite Hscan.
  destruct (sg ++ codes ds) as [|c r] eqn:Hnil; [apply app_eq_nil in Hnil as [_ Hnil]; by destruct ds|].
  set (v := if decide (sg = [45]) then - digits_val ds else digits_val ds). cbv zeta.
  destruct (Z.ltb_spec v LONG_MIN).
  - rewrite decide_False by (intros Hn; by destruct Hn). by rewrite (decide_True (P := v < LONG_MIN)).
  - destruct (Z.ltb_spec LONG_MAX v); rewrite (decide_False (P := v < LONG_MIN)) by lia;
      rewrite (decide_False (P := S (length r) ≠ S (length r))) by (intros Hn; by destruct Hn).
    + by rewrite (decide_True (P := LONG_MAX < v)).
    + rewrite (decide_False (P := LONG_MAX < v)) by lia. cbn [orb].
      by destruct (Z.ltb_spec v LONG_MIN), (Z.ltb_spec LONG_MAX v); try lia.
Qed.

Lemma narrow_dec v : LONG_MIN ≤ v ≤ LONG_MAX → narrow PutLong dec_flag v = codes (dec v).
Proof.
  intros Hv. unfold narrow. rewrite sprintf_format. cbv zeta. change (octal dec_flag) with false.
  change (hexadecimal dec_flag) with false. change (has_flag dec_flag showpos) with false. cbn [put_signed].
  rewrite print_base_dec by lia. unfold dec. destruct (Z.ltb_spec v 0).
  - rewrite decide_True by done. replace (Z.abs v) with (- v) by lia. done.
  - rewrite decide_False by lia. by replace (Z.abs v) with v by lia.
Qed.

Lemma read_scanned (sg : list Z) (ds s2 : bytes) n g err :
  sg = [] ∨ sg = [43] ∨ sg = [45] → Forall (λ c, isdigit c = true) ds →
  match num_get_signed_integral LONG_MIN LONG_MAX (s2_a (Stage2 (sg ++ codes ds) n g)) err 10 with
  | Ret (v, err1) => Ret (v, match codes s2 with [] => Z.lor err1 eofbit | _ => err1 end, codes s2)
  | Throw w => Throw w | AssertFailed => AssertFailed | Waits => Waits | Undef u => Undef u
  end
  = (let '(v, failed, rest) :=
       if decide (ds = []) then (0, true, s2)
       else
         let v := if decide (sg = [45]) then - digits_val ds else digits_val ds in
         if decide (v < LONG_MIN) then (LONG_MIN, true, s2)
         else if decide (LONG_MAX < v) then (LONG_MAX, true, s2) else (v, false, s2) in
     Ret (v, Z.lor (if failed : bool then failbit else err) (match rest with [] => eofbit | _ => goodbit end), codes rest)).
Proof.
  intros Hsg Hds. cbn [s2_a]. rewrite get_scanned by done.
  destruct (decide (ds = [])); [|cbv zeta; repeat case_decide]; destruct s2; cbn [codes map];
    rewrite ?Z.lor_0_r; done.
Qed.

(** What the programs write and read of numbers: [<<] of a [long] is its decimal
    text, and [>>] is [scan_int], to which the models of the programs go back. *)
Theorem stream_numbers :
  (∀ v fill, LONG_MIN ≤ v ≤ LONG_MAX → do_put classic PutLong dec_flag 0 fill v = Ret (codes (dec v)))
  ∧ (∀ s, do_get classic GetLong dec_flag goodbit (codes s)
      = let '(v, failed, rest) := scan_int LONG_MIN LONG_MAX s in
        Ret (v, Z.lor (if failed : bool then failbit else goodbit) (match rest with [] => eofbit | _ => goodbit end), codes rest)).
Proof.
  split.
  - intros v fill Hv. rewrite do_put_is. destruct (narrow_fits PutLong dec_flag v Hv) as [_ Hfit].
    destruct (Z.ltb_spec (nbuf PutLong) (zlen (narrow PutLong dec_flag v) + 1)) as [Hlt|_].
    { assert (Hp : put_fits PutLong dec_flag v) by done. apply Hfit in Hp. lia. }
    rewrite narrow_dec by done. unfold widen_and_group_int, pad_and_output. cbn [grouping widen classic].
    replace (Z.to_nat (0 - _)) with O by (unfold zlen; lia). cbn [replicate]. by rewrite app_nil_l, take_drop, map_id.
  - intros s. unfold do_get. change (get_base dec_flag) with 10. change (grouping classic) with (@nil Z). cbv zeta.
    destruct s as [|c s]; [done|]. cbn [codes map get_loop get_signed check_grouping]. fold (codes s). rewrite classic_first.
    unfold scan_int. pose proof (span_digits s) as Hspan.
    case_bool_decide as Hplus; [subst c; cbn [orb]|case_bool_decide as Hminus; [subst c; cbn [orb]|cbn [orb]]].
    + destruct (classic_digits s (Stage2 [43] 0 [])) as [n Hn]; [done|]. change (byte_val "+") with 43. rewrite Hn.
      cbn [s2_g]. rewrite (decide_False (P := "+"%char = "-"%char)), decide_True by done.
      destruct (span isdigit s) as [ds s2]. apply (read_scanned [43]); [by auto|done].
    + destruct (classic_digits s (Stage2 [45] 0 [])) as [n Hn]; [done|]. change (byte_val "-") with 45. rewrite Hn.
      cbn [s2_g]. rewrite (decide_True (P := "-"%char = "-"%char)) by done.
      destruct (span isdigit s) as [ds s2]. apply (read_scanned [45]); [by auto|done].
    + rewrite (decide_False (P := c = "-"%char)), (decide_False (P := c = "+"%char)) by done. cbn [span].
      destruct (isdigit c) eqn:Hc; [|done].
      destruct (classic_digits s (Stage2 [byte_val c] 1 [])) as [n Hn]; [done|]. rewrite Hn. cbn [s2_g].
      destruct (span isdigit s) as [ds s2]. apply (read_scanned [] (c :: ds)); [by auto|by constructor].
Qed.

(** *** Padding and formats *)

Lemma identify_padding_parts base v text sg pre ds upper b bs flags :
  parts base v text sg pre ds upper b bs →
  Z.land flags adjustfield = internal → identify_padding text flags = length (sg ++ pre).
Proof.
  intros [-> Hsg _ Hpre Hne _ _ [Hb Hds] _ _] Hint. unfold identify_padding. rewrite Hint, Z.eqb_refl.
  destruct Hsg as [->|[[->| ->] ->]]; [|done|done].
  destruct Hpre as [->|[[->| ->] _]]; [|done|done]. cbn [app length].
  destruct ds as [|c ds]; [done|]. pose proof (printed_digit_range _ _ _ Hb (Forall_inv Hds)).
  destruct (Z.eqb_spec c 45); [lia|]. destruct (Z.eqb_spec c 43); [lia|]. cbn [orb].
  destruct ds as [|x ds]; [done|].
  pose proof (printed_digit_range _ _ _ Hb (Forall_inv (Forall_inv_tail Hds))).
  destruct (Z.eqb_spec x 120); [lia|]. destruct (Z.eqb_spec x 88); [lia|]. by rewrite andb_false_r.
Qed.

(** A field wider than the number is filled up at one place: after the sign or the
    prefix of the base for [internal], after all of it for [left], before it else. *)
Lemma number_padded np t flags width fill v :
  put_range t v → put_fits t flags v → 0 ≤ v ∨ octal flags = false ∧ hexadecimal flags = false →
  ∃ a b, do_put np t flags 0 fill v = Ret (a ++ b)
    ∧ do_put np t flags width fill v = Ret (a ++ replicate (Z.to_nat (width - zlen (a ++ b))) fill ++ b)
    ∧ (if Z.land flags adjustfield =? internal then
         ∃ sg, a = map (widen np) sg ∧ sg ∈ [[]; [43]; [45]; [48; 120]; [48; 88]]
           ∧ ∃ ds upper, narrow t flags v = sg ++ ds ∧ ds ≠ [] ∧ Forall (printed_digit upper 16) ds
       else if Z.land flags adjustfield =? left then b = [] else a = []).
Proof.
  intros Hr Hfit Hv. destruct (narrow_parts t flags v Hr Hv) as (sg & pre & ds & upper & b & bs & Hp).
  apply (narrow_fits t flags v Hr) in Hfit. rewrite !do_put_is.
  destruct (Z.ltb_spec (nbuf t) (zlen (narrow t flags v) + 1)); [lia|].
  pose proof (widened_parts np _ _ _ _ _ _ _ _ _ (identify_padding (narrow t flags v) flags) Hp) as Hob.
  pose proof (narrow_nonempty t flags v) as Hne.
  destruct (widen_and_group_int np (narrow t flags v) (identify_padding (narrow t flags v) flags)) as [ob op] eqn:Hw.
  cbn [fst] in Hob. exists (take op ob), (drop op ob). rewrite take_drop. unfold pad_and_output at 1.
  replace (Z.to_nat (0 - zlen ob)) with O by (pose proof (zlen_nonneg ob); lia). cbn [replicate].
  rewrite app_nil_l, take_drop. split; [done|]. split; [done|].
  assert (Hop : op = if decide (identify_padding (narrow t flags v) flags = length (narrow t flags v))
    then length ob else identify_padding (narrow t flags v) flags).
  { unfold widen_and_group_int in Hw. by injection Hw as -> <-. }
  destruct (Z.eqb_spec (Z.land flags adjustfield) internal) as [Hint|Hint].
  - rewrite (identify_padding_parts _ _ _ _ _ _ _ _ _ _ Hp Hint) in Hop.
    pose proof (p_scan _ _ _ _ _ _ _ _ _ Hp) as [_ Hds]. destruct Hp as [Htext Hsg _ Hpre Hsome Hb Hdig _ _ _].
    rewrite decide_False in Hop.
    2: { rewrite Htext, app_assoc, (length_app _ ds). destruct ds; [done|cbn [length]; lia]. }
    exists (sg ++ pre). split; [rewrite Hob, Hop; by rewrite take_app_length' by by rewrite length_map|].
    split; [destruct Hsg as [->|[[->| ->] ->]]; [destruct Hpre as [->|[[->| ->] _]]| |]; set_solver|].
    exists ds, upper. split; [by rewrite Htext, app_assoc|]. split; [done|]. eapply Forall_impl; [exact Hdig|].
    intros d (n & Hn & ->). exists n. split; [destruct Hb; lia|done].
  - destruct (Z.eqb_spec (Z.land flags adjustfield) left) as [Hleft|Hleft].
    + rewrite Hop. unfold identify_padding. rewrite Hleft. change (left =? internal) with false. cbv iota.
      rewrite Z.eqb_refl, decide_True by done. by apply drop_ge.
    + rewrite Hop. unfold identify_padding. rewrite (proj2 (Z.eqb_neq _ _) Hint), (proj2 (Z.eqb_neq _ _) Hleft).
      rewrite decide_False; [done|]. by destruct (narrow t flags v).
Qed.

(** C20: What [num_put] writes [num_get] reads back, with the stream's flags and any
    grouping: the same value, all of it, and no error; and a field that is wider than
    the number has the same characters, filled up at one place: after the sign or the
    prefix of the base for [internal], after all of them for [left], before them else.
    The value is of the type; in octal and hexadecimal a signed one is not negative, and
    in octal with [showbase] it is below 2^60, or 2^63 without a sign: above that the
    digits do not fit the array.  The locale widens the characters of numbers to
    different ones, none of them its separator if it has grouping, and what follows in
    the stream begins with none of these.  What is read back is the number itself, as it
    is written at width 0: [num_get] does not skip the filling. *)
Theorem number_roundtrip np t flags width fill v err rest :
  distinct_atoms np → put_range t v → put_fits t flags v →
  0 ≤ v ∨ octal flags = false ∧ hexadecimal flags = false → stops np rest →
  ∃ a b, do_put np t flags 0 fill v = Ret (a ++ b)
    ∧ do_get np (read_as t) flags err ((a ++ b) ++ rest)
      = Ret (v, match rest with [] => Z.lor err eofbit | _ => err end, rest)
    ∧ do_put np t flags width fill v = Ret (a ++ replicate (Z.to_nat (width - zlen (a ++ b))) fill ++ b)
    ∧ (if Z.land flags adjustfield =? internal then
         ∃ sg, a = map (widen np) sg ∧ sg ∈ [[]; [43]; [45]; [48; 120]; [48; 88]]
           ∧ ∃ ds upper, narrow t flags v = sg ++ ds ∧ ds ≠ [] ∧ Forall (printed_digit upper 16) ds
       else if Z.land flags adjustfield =? left then b = [] else a = []).
Proof.
  intros Hnp Hr Hfit Hv Hrest. destruct (number_padded np t flags width fill v Hr Hfit Hv) as (a & b & Hput & Hpad & Hplace).
  destruct (number_reads_back np t flags fill v err rest Hnp Hr Hfit Hv Hrest) as (out & Hout & Hget).
  rewrite Hput in Hout. injection Hout as <-. by exists a, b.
Qed.

(** The formats fit the arrays they are made in, the ["%"] and the NUL counted. *)
Lemma formats_fit t flags :
  (S (length (str "%" ++ format_int (put_len t) (put_signed t) flags))
   ≤ match t with PutLong | PutUnsignedLong => 6 | _ => 8 end)%nat
  ∧ (S (length (str "%" ++ (format_float [] flags).1)) ≤ 8)%nat
  ∧ (S (length (str "%" ++ (format_float (str "L") flags).1)) ≤ 8)%nat.
Proof.
  unfold format_int, format_float. cbv zeta. cbn [fst]. rewrite !length_app.
  repeat split; repeat match goal with |- context [if ?c then _ else _] => destruct c; cbn; try lia end; destruct t; cbn; lia.
Qed.

(** ** Witnesses *)

Definition with_groups : punct := Punct id [3; 2] 39.

Lemma with_groups_distinct : distinct_atoms with_groups.
Proof. split; [apply (bool_decide_unpack _); by vm_compute|]. intros _. apply (bool_decide_unpack _). by vm_compute. Qed.

Lemma number_roundtrip_witness :
  ∃ a b, do_put with_groups PutLong (Z.lor hex (Z.lor showbase internal)) 0 32 123456789 = Ret (a ++ b)
    ∧ do_get with_groups GetLong (Z.lor hex (Z.lor showbase internal)) goodbit ((a ++ b) ++ [32]) = Ret (123456789, goodbit, [32])
    ∧ do_put with_groups PutLong (Z.lor hex (Z.lor showbase internal)) 14 32 123456789
      = Ret (a ++ replicate (Z.to_nat (14 - zlen (a ++ b))) 32 ++ b).
Proof.
  destruct (number_roundtrip with_groups PutLong (Z.lor hex (Z.lor showbase internal)) 14 32 123456789 goodbit [32]) as (a & b & H1 & H2 & H3 & _).
  - apply with_groups_distinct.
  - vm_compute. split; discriminate.
  - intros Ho. discriminate.
  - left. lia.
  - split; [apply (bool_decide_unpack _); by vm_compute|]. intros _. discriminate.
  - by exists a, b.
Defined.

Lemma number_put_bounds_witness :
  do_put with_groups PutLong oct 0 32 (-1) = Undef BufferOverflow.
Proof.
  apply (number_put_bounds with_groups PutLong oct 0 32 (-1)); [vm_compute; split; discriminate|].
  intros Hf. destruct (Hf eq_refl) as [H0 _]. lia.
Defined.

Lemma grouping_checked_witness :
  check_grouping [3; 2] [1; 2; 3] goodbit = goodbit ∧ check_grouping [3; 2] [1; 3; 3] goodbit = failbit.
Proof.
  split.
  - apply (grouping_checked [3; 2] [1; 2; 3] goodbit); [done|done|repeat constructor; lia|].
    intros [|[|[|i]]] r [= <-] _; vm_compute; repeat split; discriminate.
  - apply (grouping_checked [3; 2] [1; 3; 3] goodbit); [done|done|repeat constructor; lia|].
    intros Hw. specialize (Hw 1%nat 3 eq_refl eq_refl). vm_compute in Hw. discriminate.
Defined.

Lemma number_padded_witness :
  ∃ a b, do_put classic PutLong (Z.lor hex (Z.lor showbase internal)) 0 42 255 = Ret (a ++ b)
    ∧ do_put classic PutLong (Z.lor hex (Z.lor showbase internal)) 8 42 255
      = Ret (a ++ replicate (Z.to_nat (8 - zlen (a ++ b))) 42 ++ b).
Proof.
  destruct (number_padded classic PutLong (Z.lor hex (Z.lor showbase internal)) 8 42 255) as (a & b & H0 & H8 & _);
    [vm_compute; split; discriminate|intros Ho; discriminate|left; lia|].
  exists a, b. by split.
Defined.

Example number_examples :
  do_put with_groups PutLong (Z.lor hex (Z.lor showbase internal)) 12 42 1193046 = Ret (codes (str "0x**1'23'456"))
  ∧ do_get with_groups GetLong hex goodbit (codes (str "0x1'23'456 ")) = Ret (1193046, goodbit, [32])
  ∧ do_get with_groups GetLong hex goodbit (codes (str "12'34'56")) = Ret (1193046, Z.lor failbit eofbit, [])
  ∧ do_get classic GetUnsignedShort dec_flag goodbit (codes (str "70000")) = Ret (65535, Z.lor failbit eofbit, [])
  ∧ format_float (str "L") (Z.lor fixed showpos) = (str "+.*Lf", true).
Proof. by vm_compute. Qed.
