(* ===== verification/Money.v ===== *)
(** * Money: the patterns of money and their printing

    [__init_pat] and [moneypunct_byname::init] of [locale.cpp], which turn what the C
    library says of a currency into the pattern of a [moneypunct], and
    [__money_put::__format] of the header [locale], which prints by such a pattern.
    [__init_pat] has a definition per position of the sign, on either side of the value. *)

From S2P Require Import Prelude Text StringConv Number.

(** ** Patterns *)

Inductive part := none | space | symbol | sign | value.

#[export] Instance part_eq_dec : EqDecision part.
Proof. solve_decision. Defined.

Record pattern := Pattern { field0 : part; field1 : part; field2 : part; field3 : part }.

Definition fields (p : pattern) : list part := [field0 p; field1 p; field2 p; field3 p].

(** ** [__init_pat] *)

(** The pattern and the symbol; [None] where a [switch] is left by [break]. *)
Definition pat_result : Type := option (pattern * list Z).

Section init_pat.
Context (symbol_contains_sep : bool) (space_char : Z) (curr_symbol : list Z) (sep_by_space : Z).

(** The space goes into the symbol, so that it goes away with it. *)
Definition space_before : list Z :=
  if symbol_contains_sep then curr_symbol else space_char :: curr_symbol.
Definition space_after : list Z :=
  if symbol_contains_sep then curr_symbol else curr_symbol ++ [space_char].

(** The separator of the symbol is removed, since a [space] stands for it. *)
Definition erase_first : list Z := if symbol_contains_sep then drop 1 curr_symbol else curr_symbol.
Definition pop_last : list Z :=
  if symbol_contains_sep then take (length curr_symbol - 1) curr_symbol else curr_symbol.

Definition value_first_parens : pat_result :=
  let pat := Pattern sign value none symbol in
  if (sep_by_space =? 0) || (sep_by_space =? 2) then Some (pat, curr_symbol)
  else if sep_by_space =? 1 then Some (pat, space_before)
  else None.

Definition value_first_sign_first : pat_result :=
  if sep_by_space =? 0 then Some (Pattern sign value none symbol, curr_symbol)
  else if sep_by_space =? 1 then Some (Pattern sign value none symbol, space_before)
  else if sep_by_space =? 2 then Some (Pattern sign space value symbol, erase_first)
  else None.

Definition value_first_sign_last : pat_result :=
  if sep_by_space =? 0 then Some (Pattern value none symbol sign, curr_symbol)
  else if sep_by_space =? 1 then Some (Pattern value none symbol sign, space_before)
  else if sep_by_space =? 2 then Some (Pattern value symbol space sign, erase_first)
  else None.

Definition value_first_sign_before_symbol : pat_result :=
  if sep_by_space =? 0 then Some (Pattern value none sign symbol, curr_symbol)
  else if sep_by_space =? 1 then Some (Pattern value space sign symbol, erase_first)
  else if sep_by_space =? 2 then Some (Pattern value sign none symbol, space_before)
  else None.

Definition value_first_sign_after_symbol : pat_result :=
  if sep_by_space =? 0 then Some (Pattern value none symbol sign, curr_symbol)
  else if sep_by_space =? 1 then Some (Pattern value none symbol sign, space_before)
  else if sep_by_space =? 2 then Some (Pattern value symbol space sign, erase_first)
  else None.

Definition symbol_first_parens : pat_result :=
  let pat := Pattern sign symbol none value in
  if (sep_by_space =? 0) || (sep_by_space =? 2) then Some (pat, curr_symbol)
  else if sep_by_space =? 1 then Some (pat, space_before)
  else None.

Definition symbol_first_sign_first : pat_result :=
  if sep_by_space =? 0 then Some (Pattern sign symbol none value, curr_symbol)
  else if sep_by_space =? 1 then Some (Pattern sign symbol none value, space_after)
  else if sep_by_space =? 2 then Some (Pattern sign space symbol value, pop_last)
  else None.

Definition symbol_first_sign_last : pat_result :=
  if sep_by_space =? 0 then Some (Pattern symbol none value sign, curr_symbol)
  else if sep_by_space =? 1 then Some (Pattern symbol none value sign, space_after)
  else if sep_by_space =? 2 then Some (Pattern symbol value space sign, pop_last)
  else None.

Definition symbol_first_sign_before_symbol : pat_result :=
  if sep_by_space =? 0 then Some (Pattern sign symbol none value, curr_symbol)
  else if sep_by_space =? 1 then Some (Pattern sign symbol none value, space_after)
  else if sep_by_space =? 2 then Some (Pattern sign space symbol value, pop_last)
  else None.

Definition symbol_first_sign_after_symbol : pat_result :=
  if sep_by_space =? 0 then Some (Pattern symbol sign none value, curr_symbol)
  else if sep_by_space =? 1 then Some (Pattern symbol sign space value, pop_last)
  else if sep_by_space =? 2 then Some (Pattern symbol none sign value, space_after)
  else None.
End init_pat.

Definition default_pattern : pattern := Pattern symbol sign none value.

(** [std::rotate(begin, begin + 3, end)]. *)
Definition rotate3 (s : list Z) : list Z := drop 3 s ++ take 3 s.

Definition init_pat (curr_symbol : list Z) (intl : bool) (cs_precedes sep_by_space sign_posn space_char : Z) :
  pattern * list Z :=
  let sep := intl && bool_decide (length curr_symbol = 4%nat) in
  if cs_precedes =? 0 then
    let sym := if sep then rotate3 curr_symbol else curr_symbol in
    default (default_pattern, sym)
      (if sign_posn =? 0 then value_first_parens sep space_char sym sep_by_space
       else if sign_posn =? 1 then value_first_sign_first sep space_char sym sep_by_space
       else if sign_posn =? 2 then value_first_sign_last sep space_char sym sep_by_space
       else if sign_posn =? 3 then value_first_sign_before_symbol sep space_char sym sep_by_space
       else if sign_posn =? 4 then value_first_sign_after_symbol sep space_char sym sep_by_space
       else None)
  else if cs_precedes =? 1 then
    default (default_pattern, curr_symbol)
      (if sign_posn =? 0 then symbol_first_parens sep space_char curr_symbol sep_by_space
       else if sign_posn =? 1 then symbol_first_sign_first sep space_char curr_symbol sep_by_space
       else if sign_posn =? 2 then symbol_first_sign_last sep space_char curr_symbol sep_by_space
       else if sign_posn =? 3 then symbol_first_sign_before_symbol sep space_char curr_symbol sep_by_space
       else if sign_posn =? 4 then symbol_first_sign_after_symbol sep space_char curr_symbol sep_by_space
       else None)
  else (default_pattern, curr_symbol).

(** ** [moneypunct_byname] *)

(** What [localeconv_l] gives: the strings as their characters' codes, the [char]s
    as their values. *)
Record lconv := Lconv {
  lc_mon_decimal_point : list Z; lc_mon_thousands_sep : list Z; lc_mon_grouping : list Z;
  lc_currency_symbol : list Z; lc_int_curr_symbol : list Z;
  lc_positive_sign : list Z; lc_negative_sign : list Z;
  lc_frac_digits : Z; lc_int_frac_digits : Z;
  lc_p_cs_precedes : Z; lc_p_sep_by_space : Z; lc_p_sign_posn : Z;
  lc_n_cs_precedes : Z; lc_n_sep_by_space : Z; lc_n_sign_posn : Z;
  lc_int_p_cs_precedes : Z; lc_int_p_sep_by_space : Z; lc_int_p_sign_posn : Z;
  lc_int_n_cs_precedes : Z; lc_int_n_sep_by_space : Z; lc_int_n_sign_posn : Z }.

Record moneypunct := Moneypunct {
  mp_decimal_point : Z; mp_thousands_sep : Z; mp_grouping : list Z; mp_curr_symbol : list Z;
  mp_frac_digits : Z; mp_positive_sign : list Z; mp_negative_sign : list Z;
  mp_pos_format : pattern; mp_neg_format : pattern }.

Definition CHAR_MAX : Z := 127.
Definition WCHAR_MAX : Z := 2 ^ 31 - 1.
Definition SPACE_CODE : Z := 32.

Definition parens : list Z := codes (str "()").

Definition first_or (s : list Z) (cast : Z → Z) (base : Z) : Z :=
  match s with c :: _ => cast c | [] => base end.

Definition failed_to_construct (nm : bytes) : outcome moneypunct :=
  Throw (str "moneypunct_byname" ++ str " failed to construct for " ++ nm).
Definition locale_not_supported : outcome moneypunct := Throw (str "locale not supported").

(** [lc] is [None] where [newlocale] knows no locale of that name. *)
Definition init_char_false (nm : bytes) (lc : option lconv) : outcome moneypunct :=
  match lc with
  | None => failed_to_construct nm
  | Some lc =>
      let '(pos, _) := init_pat (lc_currency_symbol lc) false (lc_p_cs_precedes lc) (lc_p_sep_by_space lc)
                         (lc_p_sign_posn lc) SPACE_CODE in
      let '(neg, sym) := init_pat (lc_currency_symbol lc) false (lc_n_cs_precedes lc) (lc_n_sep_by_space lc)
                           (lc_n_sign_posn lc) SPACE_CODE in
      Ret (Moneypunct (first_or (lc_mon_decimal_point lc) id CHAR_MAX)
             (first_or (lc_mon_thousands_sep lc) id CHAR_MAX) (lc_mon_grouping lc) sym
             (if lc_frac_digits lc =? CHAR_MAX then 0 else lc_frac_digits lc)
             (if lc_p_sign_posn lc =? 0 then parens else lc_positive_sign lc)
             (if lc_n_sign_posn lc =? 0 then parens else lc_negative_sign lc) pos neg)
  end.

Definition init_char_true (nm : bytes) (lc : option lconv) : outcome moneypunct :=
  match lc with
  | None => failed_to_construct nm
  | Some lc =>
      let '(pos, _) := init_pat (lc_int_curr_symbol lc) true (lc_int_p_cs_precedes lc) (lc_int_p_sep_by_space lc)
                         (lc_int_p_sign_posn lc) SPACE_CODE in
      let '(neg, sym) := init_pat (lc_int_curr_symbol lc) true (lc_int_n_cs_precedes lc) (lc_int_n_sep_by_space lc)
                           (lc_int_n_sign_posn lc) SPACE_CODE in
      Ret (Moneypunct (first_or (lc_mon_decimal_point lc) id CHAR_MAX)
             (first_or (lc_mon_thousands_sep lc) id CHAR_MAX) (lc_mon_grouping lc) sym
             (if lc_int_frac_digits lc =? CHAR_MAX then 0 else lc_int_frac_digits lc)
             (if lc_int_p_sign_posn lc =? 0 then parens else lc_positive_sign lc)
             (if lc_int_n_sign_posn lc =? 0 then parens else lc_negative_sign lc) pos neg)
  end.

(** A [char] made a [wchar_t]: its sign is kept. *)
Definition wide_cast (c : Z) : Z := if c <? 128 then c else c - 256.

Section wide.
(** The conversion of the C library: a string and the room for it; [None] is -1. *)
Context (mbsrtowcs : list Z → Z → option (list Z)).

Definition wbuf_size : Z := 100.

Definition wide_sign (sign_posn : Z) (s : list Z) : option (list Z) :=
  if sign_posn =? 0 then Some parens else mbsrtowcs s wbuf_size.

Definition init_wchar_false (nm : bytes) (lc : option lconv) : outcome moneypunct :=
  match lc with
  | None => failed_to_construct nm
  | Some lc =>
      match mbsrtowcs (lc_currency_symbol lc) wbuf_size with
      | None => locale_not_supported
      | Some curr =>
          match wide_sign (lc_p_sign_posn lc) (lc_positive_sign lc) with
          | None => locale_not_supported
          | Some positive =>
              match wide_sign (lc_n_sign_posn lc) (lc_negative_sign lc) with
              | None => locale_not_supported
              | Some negative =>
                  let '(pos, _) := init_pat curr false (lc_p_cs_precedes lc) (lc_p_sep_by_space lc)
                                     (lc_p_sign_posn lc) SPACE_CODE in
                  let '(neg, sym) := init_pat curr false (lc_n_cs_precedes lc) (lc_n_sep_by_space lc)
                                       (lc_n_sign_posn lc) SPACE_CODE in
                  Ret (Moneypunct (first_or (lc_mon_decimal_point lc) wide_cast WCHAR_MAX)
                         (first_or (lc_mon_thousands_sep lc) wide_cast WCHAR_MAX) (lc_mon_grouping lc) sym
                         (if lc_frac_digits lc =? CHAR_MAX then 0 else lc_frac_digits lc)
                         positive negative pos neg)
              end
          end
      end
  end.

Definition init_wchar_true (nm : bytes) (lc : option lconv) : outcome moneypunct :=
  match lc with
  | None => failed_to_construct nm
  | Some lc =>
      match mbsrtowcs (lc_int_curr_symbol lc) wbuf_size with
      | None => locale_not_supported
      | Some curr =>
          match wide_sign (lc_int_p_sign_posn lc) (lc_positive_sign lc) with
          | None => locale_not_supported
          | Some positive =>
              match wide_sign (lc_int_n_sign_posn lc) (lc_negative_sign lc) with
              | None => locale_not_supported
              | Some negative =>
                  let '(pos, _) := init_pat curr true (lc_int_p_cs_precedes lc) (lc_int_p_sep_by_space lc)
                                     (lc_int_p_sign_posn lc) SPACE_CODE in
                  let '(neg, sym) := init_pat curr true (lc_int_n_cs_precedes lc) (lc_int_n_sep_by_space lc)
                                       (lc_int_n_sign_posn lc) SPACE_CODE in
                  Ret (Moneypunct (first_or (lc_mon_decimal_point lc) wide_cast WCHAR_MAX)
                         (first_or (lc_mon_thousands_sep lc) wide_cast WCHAR_MAX) (lc_mon_grouping lc) sym
                         (if lc_int_frac_digits lc =? CHAR_MAX then 0 else lc_int_frac_digits lc)
                         positive negative pos neg)
              end
          end
      end
  end.
End wide.

(** ** [__money_put::__format] *)

(** What [ctype] gives. *)
Record ctype := Ctype { ct_widen : Z → Z; ct_is_digit : Z → bool }.

(** The units [ds] from the last digit on, with [ng] digits since the separator and
    groups of [gl]: what is stored, the last first. *)
Fixpoint units_loop (ts : Z) (grp : list Z) (ig : nat) (gl ng : Z) (ds : list Z) : list Z :=
  match ds with
  | [] => []
  | d :: ds' =>
      if ng =? gl then
        let ig' := S ig in
        let gl' := match grp !! ig' with
                   | Some g => if g =? CHAR_MAX then 2 ^ 32 - 1 else wrap 32 g
                   | None => gl
                   end in
        ts :: d :: units_loop ts grp ig' gl' 1 ds'
      else d :: units_loop ts grp ig gl (ng + 1) ds'
  end.

(** The digits at the start of a text. *)
Fixpoint digits_of (ct : ctype) (s : list Z) : list Z :=
  match s with c :: s' => if ct_is_digit ct c then c :: digits_of ct s' else [] | [] => [] end.

(** The value: its fraction, then its units, stored backwards and then reversed. *)
Definition value_text (ct : ctype) (mp : moneypunct) (neg : bool) (digits : list Z) : list Z :=
  let db := if neg then drop 1 digits else digits in
  let d := rev (digits_of ct db) in
  let fd := Z.to_nat (mp_frac_digits mp) in
  let fraction :=
    if 0 <? mp_frac_digits mp then
      take fd d ++ replicate (fd - length d) (ct_widen ct 48) ++ [mp_decimal_point mp]
    else [] in
  let units :=
    match (if 0 <? mp_frac_digits mp then drop fd d else d) with
    | [] => [ct_widen ct 48]
    | ds => units_loop (mp_thousands_sep mp) (mp_grouping mp) 0
              (match mp_grouping mp with [] => 2 ^ 32 - 1 | g :: _ => wrap 32 g end) 0 ds
    end in
  rev (fraction ++ units).

(** The text so far, and where padding goes. *)
Definition format_part (ct : ctype) (mp : moneypunct) (flags : Z) (neg : bool) (sn digits : list Z)
    (st : list Z * option nat) (p : part) : list Z * option nat :=
  let '(me, mi) := st in
  match p with
  | none => (me, Some (length me))
  | space => (me ++ [ct_widen ct SPACE_CODE], Some (length me))
  | sign => (match sn with c :: _ => me ++ [c] | [] => me end, mi)
  | symbol => (if has_flag flags showbase then me ++ mp_curr_symbol mp else me, mi)
  | value => (me ++ value_text ct mp neg digits, mi)
  end.

(** [__gather_info], then [__format]; the second result is not set by a pattern that
    has neither [none] nor [space]. *)
Definition format (ct : ctype) (mp : moneypunct) (flags : Z) (neg : bool) (digits : list Z) : list Z * option nat :=
  let sn := if neg then mp_negative_sign mp else mp_positive_sign mp in
  let pat := if neg then mp_neg_format mp else mp_pos_format mp in
  let '(me, mi) := fold_left (format_part ct mp flags neg sn digits) (fields pat) ([], None) in
  let me := me ++ drop 1 sn in
  (me, if Z.land flags adjustfield =? left then Some (length me)
       else if Z.land flags adjustfield =? internal then mi else Some O).

(** [do_put] of the digits of an amount, with ["-"] before those of a negative one;
    or a store beyond the [exn] characters that are reserved, or the 100 of the
    array; [alloc] says whether [malloc] gives the former. *)
Definition exn (mp : moneypunct) (sn digits : list Z) : Z :=
  let n := zlen digits in
  let fd := mp_frac_digits mp in
  if fd <? n then (n - fd) * 2 + zlen sn + zlen (mp_curr_symbol mp) + fd + 1
  else zlen sn + zlen (mp_curr_symbol mp) + fd + 2.

Definition money_do_put (alloc : bool) (ct : ctype) (mp : moneypunct) (flags width fill : Z) (digits : list Z) :
  outcome (list Z) :=
  let neg := match digits with c :: _ => c =? ct_widen ct 45 | [] => false end in
  let sn := if neg then mp_negative_sign mp else mp_positive_sign mp in
  let '(mb, mi) := format ct mp flags neg digits in
  if (100 <? exn mp sn digits) && negb alloc then Throw (str "bad_alloc")
  else if Z.max 100 (exn mp sn digits) <? zlen mb then Undef BufferOverflow
  else match mi with Some mi => Ret (pad_and_output mb mi width fill) | None => Undef UninitRead end.

(** ** What the C standard asks for *)

Inductive token := TSign | TSymbol | TValue.

Definition token_eqb (a b : token) : bool :=
  match a, b with TSign, TSign | TSymbol, TSymbol | TValue, TValue => true | _, _ => false end.

Definition c11_order (cs_precedes sign_posn : Z) : list token :=
  let both := if cs_precedes =? 1 then [TSymbol; TValue] else [TValue; TSymbol] in
  if sign_posn =? 2 then both ++ [TSign]
  else if sign_posn =? 3 then (if cs_precedes =? 1 then [TSign; TSymbol; TValue] else [TValue; TSign; TSymbol])
  else if sign_posn =? 4 then (if cs_precedes =? 1 then [TSymbol; TSign; TValue] else [TValue; TSymbol; TSign])
  else TSign :: both.

(** Whether the sign and the symbol are next to each other. *)
Definition adjacent (order : list token) : bool :=
  match order with [_; TValue; _] => false | _ => true end.

(** Whether a space comes between two neighbours.  The parentheses of [sign_posn] 0 are
    no sign to be separated. *)
Definition c11_gap (sep_by_space sign_posn : Z) (order : list token) (x y : token) : bool :=
  let between a b := token_eqb x a && token_eqb y b || token_eqb x b && token_eqb y a in
  if sep_by_space =? 1 then
    if sign_posn =? 0 then between TSymbol TValue
    else if adjacent order then token_eqb x TValue || token_eqb y TValue else between TSymbol TValue
  else if sep_by_space =? 2 then
    if sign_posn =? 0 then false
    else if adjacent order then between TSign TSymbol else between TSign TValue
  else false.

(** The text of an amount with the separator [sp]; of a longer sign the first
    character is at its place, and the others come last. *)
Definition c11_text (sep_by_space cs_precedes sign_posn : Z) (sym sn val : list Z) (sp : Z) : list Z :=
  let order := c11_order cs_precedes sign_posn in
  let text t := match t with TSign => take 1 sn | TSymbol => sym | TValue => val end in
  let gap x y := if c11_gap sep_by_space sign_posn order x y then [sp] else [] in
  match order with
  | [x; y; z] => text x ++ gap x y ++ text y ++ gap y z ++ text z
  | _ => []
  end ++ drop 1 sn.

(** The value of an amount of [ds] in a locale: with so many digits in the fraction, a
    zero for every one that is missing and for units that are; the other digits in
    groups, the size of the last of which repeats, and 127 of which is all the rest. *)
Section c11_value.
Context (zero point sep : Z).

Fixpoint grouped (fuel : nat) (sizes us : list Z) : list Z :=
  match fuel, sizes with
  | S fuel, g :: sizes =>
      if decide (g = 127 ∨ zlen us ≤ g) then us
      else let n := (length us - Z.to_nat g)%nat in
        grouped fuel (match sizes with [] => [g] | _ => sizes end) (take n us) ++ sep :: drop n us
  | _, _ => us
  end.

Definition c11_value (fd : nat) (sizes ds : list Z) : list Z :=
  let n := (length ds - fd)%nat in
  match take n ds with [] => [zero] | us => grouped (length us) sizes us end
  ++ match fd with O => [] | _ => point :: replicate (fd - length ds) zero ++ drop n ds end.
End c11_value.

(** The fraction digits, the point and the separator that a locale has; 127 is none. *)
Definition lc_fraction (intl : bool) (lc : lconv) : nat :=
  let fd := if intl then lc_int_frac_digits lc else lc_frac_digits lc in
  if fd =? 127 then O else Z.to_nat fd.
Definition lc_point (lc : lconv) : Z := default 127 (head (lc_mon_decimal_point lc)).
Definition lc_separator (lc : lconv) : Z := default 127 (head (lc_mon_thousands_sep lc)).

Definition lc_value (ct : ctype) (intl : bool) (lc : lconv) (ds : list Z) : list Z :=
  c11_value (ct_widen ct 48) (lc_point lc) (lc_separator lc) (lc_fraction intl lc) (lc_mon_grouping lc) ds.

(** What [init_pat] has to go by: the values the standard gives the three. *)
Definition c11_values (cs_precedes sep_by_space sign_posn : Z) : Prop :=
  (cs_precedes = 0 ∨ cs_precedes = 1) ∧ (sep_by_space = 0 ∨ sep_by_space = 1 ∨ sep_by_space = 2)
  ∧ (sign_posn = 0 ∨ sign_posn = 1 ∨ sign_posn = 2 ∨ sign_posn = 3 ∨ sign_posn = 4).

(** ** Lemmas *)

(** The text by a pattern, the symbol shown. *)
Definition part_text (sym sn val : list Z) (p : part) : list Z :=
  match p with none => [] | space => [SPACE_CODE] | sign => take 1 sn | symbol => sym | value => val end.

Definition pattern_text (pat : pattern) (sym sn val : list Z) : list Z :=
  concat (map (part_text sym sn val) (fields pat)) ++ drop 1 sn.

Lemma format_text ct mp flags neg digits :
  ct_widen ct SPACE_CODE = SPACE_CODE → has_flag flags showbase = true →
  (format ct mp flags neg digits).1
  = pattern_text (if neg then mp_neg_format mp else mp_pos_format mp) (mp_curr_symbol mp)
      (if neg then mp_negative_sign mp else mp_positive_sign mp) (value_text ct mp neg digits).
Proof.
  intros Hsp Hshow. unfold format, pattern_text. set (sn := if neg then _ else _). set (pat := if neg then _ else _).
  clearbody sn pat.
  assert (Hgo : ∀ ps me mi, (fold_left (format_part ct mp flags neg sn digits) ps (me, mi)).1
    = me ++ concat (map (part_text (mp_curr_symbol mp) sn (value_text ct mp neg digits)) ps)).
  { induction ps as [|p ps IH]; intros me mi; cbn [fold_left map concat]; [by rewrite app_nil_r|].
    destruct p; cbn [format_part part_text]; rewrite ?Hshow, ?Hsp, IH; cbn [app]; rewrite <- ?app_assoc; try done.
    destruct sn as [|c sn']; cbn [app]; [done|]. by rewrite <- app_assoc. }
  specialize (Hgo (fields pat) [] None). destruct (fold_left _ _ _) as [me mi]. cbn [fst] in *. by rewrite Hgo.
Qed.

Ltac flatten :=
  rewrite ?app_nil_r; repeat (progress (rewrite <- ?app_assoc, <- ?app_comm_cons; cbn [app])); try reflexivity.

(** The symbol of a domestic amount, or of one whose separator has been put there by
    the caller, by case analysis over the values. *)
Lemma pattern_domestic curr intl cs sep posn sn val :
  c11_values cs sep posn → intl && bool_decide (length curr = 4%nat) = false →
  ¬ (cs = 1 ∧ posn = 0 ∧ sep = 1) →
  (let '(pat, sym) := init_pat curr intl cs sep posn SPACE_CODE in pattern_text pat sym sn val)
  = c11_text sep cs posn curr sn val SPACE_CODE.
Proof.
  intros (Hcs & Hsep & Hposn) Hin Hne. unfold init_pat. rewrite Hin. cbv zeta.
  destruct Hcs as [->| ->], Hposn as [->|[->|[->|[->| ->]]]], Hsep as [->|[->| ->]]; try (by destruct Hne);
    unfold c11_text, pattern_text; cbn; flatten.
Qed.

Lemma pattern_international a b c d cs sep posn sn val :
  c11_values cs sep posn → sep ≠ 0 → ¬ (posn = 0 ∧ sep = 2) →
  ∃ sp, (sp = d ∨ sp = SPACE_CODE)
    ∧ (let '(pat, sym) := init_pat [a; b; c; d] true cs sep posn SPACE_CODE in pattern_text pat sym sn val)
      = c11_text sep cs posn [a; b; c] sn val sp.
Proof.
  intros (Hcs & Hsep & Hposn) Hs Hne.
  exists (let '(pat, _) := init_pat [a; b; c; d] true cs sep posn SPACE_CODE in
          if bool_decide (space ∈ fields pat) then SPACE_CODE else d).
  destruct Hcs as [->| ->], Hposn as [->|[->|[->|[->| ->]]]], Hsep as [->|[->| ->]]; try done; try (by destruct Hne);
    (split; [vm_compute; by auto|unfold c11_text, pattern_text; cbn; flatten]).
Qed.

(** A separator that the values do not ask for stays in the symbol. *)
Lemma pattern_separator_stays a b c d cs sep posn sn val :
  c11_values cs sep posn → sep = 0 ∨ posn = 0 ∧ sep = 2 →
  (let '(pat, sym) := init_pat [a; b; c; d] true cs sep posn SPACE_CODE in pattern_text pat sym sn val)
  = c11_text sep cs posn (if cs =? 0 then [d; a; b; c] else [a; b; c; d]) sn val SPACE_CODE.
Proof.
  intros (Hcs & Hsep & Hposn) Hor.
  destruct Hcs as [->| ->], Hposn as [->|[->|[->|[->| ->]]]], Hsep as [->|[->| ->]];
    try (exfalso; lia); unfold c11_text, pattern_text; cbn; flatten.
Qed.

(** The value by the facet is that of the locale. *)
Section value_is.
Context (ts : Z) (grp : list Z).

Lemma units_loop_rest ig gl ng l : ng + zlen l ≤ gl → units_loop ts grp ig gl ng l = l.
Proof.
  revert ng. induction l as [|d l IH]; intros ng Hl; [done|]. rewrite zlen_cons in Hl. pose proof (zlen_nonneg l).
  cbn [units_loop]. destruct (Z.eqb_spec ng gl); [lia|]. f_equal. apply IH. lia.
Qed.

Definition next_size (ig : nat) (gl : Z) : Z :=
  match grp !! S ig with Some g => if g =? CHAR_MAX then 2 ^ 32 - 1 else wrap 32 g | None => gl end.

Lemma units_loop_group ig gl ng a d b :
  ng + zlen a = gl → next_size ig gl ≠ 0 →
  units_loop ts grp ig gl ng (a ++ d :: b) = a ++ ts :: units_loop ts grp (S ig) (next_size ig gl) 0 (d :: b).
Proof.
  intros Ha Hne. revert ng Ha. induction a as [|x a IH]; intros ng Ha; cbn [app].
  - change (zlen []) with 0 in Ha. cbn [units_loop]. rewrite (proj2 (Z.eqb_eq ng gl)) by lia. fold (next_size ig gl).
    by rewrite (proj2 (Z.eqb_neq 0 _)) by done.
  - rewrite zlen_cons in Ha. pose proof (zlen_nonneg a). cbn [units_loop].
    rewrite (proj2 (Z.eqb_neq ng gl)) by lia. f_equal. apply IH. lia.
Qed.

(** The size of a group as the code has it. *)
Definition size_is (g gl : Z) : Prop := 1 ≤ g ≤ 127 ∧ (g = 127 ∧ 127 ≤ gl ∨ g < 127 ∧ gl = g).

Lemma size_is_of g gl : 1 ≤ g ≤ 127 → gl = (if g =? CHAR_MAX then 2 ^ 32 - 1 else wrap 32 g) → size_is g gl.
Proof.
  intros Hg ->. split; [done|]. unfold CHAR_MAX, wrap. destruct (Z.eqb_spec g 127); [left; lia|right].
  rewrite Z.mod_small by lia. lia.
Qed.

Lemma grouped_units fuel ig g gl us :
  size_is g gl → Forall (λ g, 1 ≤ g ≤ 127) (drop (S ig) grp) → (length us ≤ fuel)%nat → zlen us ≤ 127 →
  rev (units_loop ts grp ig gl 0 (rev us)) = grouped ts fuel (g :: drop (S ig) grp) us.
Proof.
  revert ig g gl us. induction fuel as [|fuel IH]; intros ig g gl us Hg Hgrp Hf Hl.
  { destruct us; [done|cbn in Hf; lia]. }
  assert (Hrev : zlen (rev us) = zlen us) by (unfold zlen; by rewrite length_rev).
  destruct Hg as [Hg Hgl]. cbn [grouped]. case_decide as Hall.
  { rewrite units_loop_rest by lia. apply rev_involutive. }
  assert (Hg127 : g < 127 ∧ gl = g ∧ g < zlen us) by lia. destruct Hg127 as (Hlt & -> & Hlen). clear Hall Hgl.
  set (n := (length us - Z.to_nat g)%nat).
  assert (Hn : (0 < n ≤ length us)%nat) by (unfold n, zlen in *; lia).
  assert (Hsize : size_is (default g (grp !! S ig)) (next_size ig g)).
  { unfold next_size. destruct (grp !! S ig) as [g'|] eqn:Hg'; cbn.
    - apply size_is_of; [|done]. rewrite (drop_S _ _ _ Hg') in Hgrp. by apply Forall_inv in Hgrp.
    - split; [done|]. by right. }
  assert (Hsizes : match drop (S ig) grp with [] => [g] | _ => drop (S ig) grp end = default g (grp !! S ig) :: drop (S (S ig)) grp).
  { destruct (grp !! S ig) as [g'|] eqn:Hg'; [by rewrite (drop_S _ _ _ Hg')|].
    apply lookup_ge_None in Hg'. by rewrite !drop_ge by lia. }
  rewrite <- (take_drop n us) at 1. rewrite rev_app_distr.
  destruct (rev (take n us)) as [|d b] eqn:Hb.
  { apply (f_equal length) in Hb. rewrite length_rev, length_take in Hb. cbn in Hb. lia. }
  rewrite units_loop_group.
  - rewrite rev_app_distr, rev_involutive. cbn [rev]. rewrite <- app_assoc. f_equal. rewrite <- Hb.
    assert (Hgrp' : Forall (λ g, 1 ≤ g ≤ 127) (drop (S (S ig)) grp)).
    { replace (drop (S (S ig)) grp) with (drop 1 (drop (S ig) grp)) by (rewrite drop_drop; f_equal; lia). by apply Forall_drop. }
    etransitivity; [apply (IH _ _ _ _ Hsize Hgrp')|by rewrite <- Hsizes].
    + rewrite length_take. lia.
    + unfold zlen in *. rewrite length_take. lia.
  - unfold zlen. rewrite length_rev, length_drop. unfold n, zlen in *. lia.
  - destruct Hsize as [? [?|?]]; lia.
Qed.
End value_is.

Lemma digits_of_all ct ds : Forall (λ d, ct_is_digit ct d = true) ds → digits_of ct ds = ds.
Proof. induction 1 as [|d ds Hd _ IH]; cbn; [done|]. by rewrite Hd, IH. Qed.

(** The digits as they come, with the sign of a negative amount. *)
Definition signed_digits (ct : ctype) (neg : bool) (ds : list Z) : list Z := if neg then ct_widen ct 45 :: ds else ds.

Lemma value_text_is ct mp (neg : bool) ds :
  Forall (λ d, ct_is_digit ct d = true) ds → zlen ds ≤ 127 → Forall (λ g, 1 ≤ g ≤ 127) (mp_grouping mp) →
  value_text ct mp neg (signed_digits ct neg ds)
  = c11_value (ct_widen ct 48) (mp_decimal_point mp) (mp_thousands_sep mp) (Z.to_nat (mp_frac_digits mp)) (mp_grouping mp) ds.
Proof.
  intros Hds Hl Hgrp. unfold value_text.
  assert ((if neg then drop 1 (signed_digits ct neg ds) else signed_digits ct neg ds) = ds) as -> by by destruct neg.
  rewrite digits_of_all by done. unfold c11_value. set (fd := Z.to_nat (mp_frac_digits mp)). rewrite rev_app_distr.
  assert (Hpos : (0 <? mp_frac_digits mp) = negb (fd =? 0)%nat).
  { unfold fd. destruct (Z.ltb_spec 0 (mp_frac_digits mp)), (Nat.eqb_spec (Z.to_nat (mp_frac_digits mp)) 0); try done; lia. }
  assert (Hunits : (if 0 <? mp_frac_digits mp then drop fd (rev ds) else rev ds) = rev (take (length ds - fd) ds)).
  { rewrite Hpos, <- skipn_rev. by destruct fd. }
  rewrite Hunits, Hpos. f_equal.
  - destruct (take (length ds - fd) ds) as [|u us] eqn:Hu; [done|]. rewrite <- Hu. set (us' := take _ ds) in *.
    assert (Hlen : zlen us' ≤ 127) by (unfold us', zlen in *; rewrite length_take; lia).
    destruct (rev us') as [|x r] eqn:Hr.
    { apply (f_equal length) in Hr. rewrite length_rev, Hu in Hr. done. }
    rewrite <- Hr. destruct (mp_grouping mp) as [|g gs] eqn:Hmp.
    + rewrite units_loop_rest by (unfold zlen in *; rewrite length_rev; lia). rewrite rev_involutive. by destruct (length us').
    + pose proof (Forall_inv Hgrp) as Hg. rewrite (grouped_units _ (g :: gs) (length us') 0 g); [done| |by apply Forall_inv_tail in Hgrp|done|done].
      cbv beta in Hg. split; [done|]. unfold wrap. rewrite Z.mod_small by lia. lia.
  - clearbody fd. clear Hunits Hpos. destruct fd as [|k]; [done|]. cbn [negb Nat.eqb]. rewrite !rev_app_distr. cbn [rev app].
    rewrite firstn_rev, rev_involutive, length_rev. f_equal. f_equal. rewrite rev_alt. apply reverse_replicate.
Qed.

(** A pattern the standard allows: each of the three once, and once [none], not
    first, or [space], neither first nor last. *)
Definition valid_pattern (pat : pattern) : bool :=
  bool_decide (count_occ part_eq_dec (fields pat) sign = 1%nat)
  && bool_decide (count_occ part_eq_dec (fields pat) symbol = 1%nat)
  && bool_decide (count_occ part_eq_dec (fields pat) value = 1%nat)
  && negb (bool_decide (field0 pat = none)) && negb (bool_decide (field0 pat = space))
  && negb (bool_decide (field3 pat = space)).

Definition patterns : list pattern :=
  filter valid_pattern
    (a ← [none; space; symbol; sign; value]; b ← [none; space; symbol; sign; value];
     c ← [none; space; symbol; sign; value]; d ← [none; space; symbol; sign; value]; [Pattern a b c d]).

Lemma valid_pattern_cases pat (P : pattern → Prop) :
  Forall P patterns → valid_pattern pat = true → P pat.
Proof.
  intros Hall Hv. rewrite Forall_forall in Hall. apply Hall. destruct pat as [a b c d].
  destruct a, b, c, d; try discriminate Hv; vm_compute; repeat (first [left; reflexivity | right]).
Qed.

(** ** The room that is reserved *)

Lemma units_loop_length ts grp ig gl ng ds :
  (length (units_loop ts grp ig gl ng ds) + (if decide (ng ≠ gl ∧ ds ≠ []) then 1 else 0) ≤ 2 * length ds)%nat.
Proof.
  revert ig gl ng. induction ds as [|d ds IH]; intros ig gl ng; cbn [units_loop length].
  { rewrite decide_False by naive_solver. done. }
  destruct (Z.eqb_spec ng gl) as [->|Hne].
  - rewrite (decide_False (P := gl ≠ gl ∧ d :: ds ≠ [])) by naive_solver. cbn [length].
    match goal with |- context [units_loop ts grp (S ig) ?g 1 ds] => specialize (IH (S ig) g 1) end. lia.
  - rewrite (decide_True (P := ng ≠ gl ∧ d :: ds ≠ [])) by done. cbn [length]. specialize (IH ig gl (ng + 1)). lia.
Qed.

Lemma digits_of_length ct s : (length (digits_of ct s) ≤ length s)%nat.
Proof. induction s as [|c s IH]; cbn; [done|]. destruct (ct_is_digit ct c); cbn; lia. Qed.

(** The characters of a value, of [n] characters with the sign. *)
Lemma value_text_length ct mp neg digits :
  0 ≤ mp_frac_digits mp → (∀ g, head (mp_grouping mp) = Some g → wrap 32 g ≠ 0) →
  zlen (value_text ct mp neg digits)
  ≤ if decide (mp_frac_digits mp < zlen digits) then 2 * (zlen digits - mp_frac_digits mp) + mp_frac_digits mp
    else if decide (mp_frac_digits mp = 0) then 1 else mp_frac_digits mp + 2.
Proof.
  intros Hfd Hgrp. unfold value_text, zlen. rewrite length_rev, length_app.
  set (db := if neg then drop 1 digits else digits).
  assert (Hd : (length (rev (digits_of ct db)) ≤ length digits)%nat).
  { rewrite length_rev. etransitivity; [apply digits_of_length|]. subst db. destruct neg; [rewrite length_drop|]; lia. }
  revert Hd. generalize (rev (digits_of ct db)). intros d Hd.
  set (gl := match mp_grouping mp with [] => _ | _ => _ end).
  assert (Hgl : 0 ≠ gl).
  { subst gl. destruct (mp_grouping mp) as [|g grp]; [done|]. specialize (Hgrp g eq_refl). lia. }
  set (u := if 0 <? mp_frac_digits mp then drop (Z.to_nat (mp_frac_digits mp)) d else d).
  assert (Hu : (length match u with [] => [ct_widen ct 48] | ds => units_loop (mp_thousands_sep mp) (mp_grouping mp) 0 gl 0 ds end
    ≤ Nat.max 1 (2 * length u - 1))%nat).
  { destruct u as [|x u]; [cbn; lia|]. pose proof (units_loop_length (mp_thousands_sep mp) (mp_grouping mp) 0 gl 0 (x :: u)) as Hl.
    rewrite decide_True in Hl by done. lia. }
  destruct u as [|x u'] eqn:Hu0; cbv beta iota in Hu |- *.
  - subst u. cbn [length] in Hu. destruct (Z.ltb_spec 0 (mp_frac_digits mp)) as [Hpos|Hz].
    + rewrite !length_app, length_take, length_replicate. cbn [length]. repeat case_decide; lia.
    + cbn [length] in *. repeat case_decide; lia.
  - assert (Hlen : (S (length u') = length d - Z.to_nat (mp_frac_digits mp))%nat ∧ (0 < length d)%nat).
    { subst u. destruct (Z.ltb_spec 0 (mp_frac_digits mp)) as [Hpos|Hz].
      - apply (f_equal length) in Hu0. rewrite length_drop in Hu0. cbn in Hu0. lia.
      - rewrite Hu0. cbn. lia. }
    cbn [length] in Hu. rewrite decide_True by lia. destruct (Z.ltb_spec 0 (mp_frac_digits mp)) as [Hpos|Hz].
    + rewrite !length_app, length_take, length_replicate. cbn [length]. lia.
    + cbn [length]. lia.
Qed.

Definition is_space_part (p : part) : bool := match p with space => true | _ => false end.
Definition has_space (pat : pattern) : bool := existsb is_space_part (fields pat).

Lemma format_length ct mp flags (neg : bool) digits :
  let sn := if neg then mp_negative_sign mp else mp_positive_sign mp in
  let pat := if neg then mp_neg_format mp else mp_pos_format mp in
  valid_pattern pat = true →
  zlen (format ct mp flags neg digits).1
    ≤ zlen (value_text ct mp neg digits) + zlen sn + zlen (mp_curr_symbol mp)
      + (if has_space pat then 1 else 0)
  ∧ ∃ mi, (format ct mp flags neg digits).2 = Some mi.
Proof.
  intros sn pat. unfold format. fold sn pat. cbv zeta.
  clearbody sn pat. pose proof (zlen_nonneg (mp_curr_symbol mp)) as Hsym.
  intros Hv. pattern pat. apply valid_pattern_cases; [|exact Hv]. clear pat Hv.
  let p := eval vm_compute in patterns in change patterns with p.
  repeat apply Forall_cons_2; try apply Forall_nil_2;
    cbn [has_space existsb is_space_part orb fields field0 field1 field2 field3 fold_left format_part];
    destruct (has_flag flags showbase), (Z.land flags adjustfield =? left), (Z.land flags adjustfield =? internal), sn as [|c r]; cbn [fst snd app drop] in *;
    (split; [repeat (rewrite zlen_app || rewrite zlen_cons || rewrite zlen_nil || rewrite drop_0); lia|by eexists]).
Qed.

(** ** Properties *)

(** Whatever the C library says, the pattern is one the standard allows. *)
Theorem patterns_valid curr intl cs sep posn sp :
  valid_pattern (init_pat curr intl cs sep posn sp).1 = true.
Proof.
  unfold init_pat, value_first_parens, value_first_sign_first, value_first_sign_last, value_first_sign_before_symbol,
    value_first_sign_after_symbol, symbol_first_parens, symbol_first_sign_first, symbol_first_sign_last,
    symbol_first_sign_before_symbol, symbol_first_sign_after_symbol. cbv zeta.
  repeat match goal with |- context [if ?c then _ else _] => destruct c end; reflexivity.
Qed.

(** What of a locale an amount is printed by. *)
Definition init_char (intl : bool) : bytes → option lconv → outcome moneypunct :=
  if intl then init_char_true else init_char_false.
Definition lc_symbol (intl : bool) (lc : lconv) : list Z :=
  if intl then lc_int_curr_symbol lc else lc_currency_symbol lc.
Definition lc_values (intl neg : bool) (lc : lconv) : Z * Z * Z :=
  match intl, neg with
  | false, false => (lc_p_cs_precedes lc, lc_p_sep_by_space lc, lc_p_sign_posn lc)
  | false, true => (lc_n_cs_precedes lc, lc_n_sep_by_space lc, lc_n_sign_posn lc)
  | true, false => (lc_int_p_cs_precedes lc, lc_int_p_sep_by_space lc, lc_int_p_sign_posn lc)
  | true, true => (lc_int_n_cs_precedes lc, lc_int_n_sep_by_space lc, lc_int_n_sign_posn lc)
  end.
Definition lc_sign (neg : bool) (posn : Z) (lc : lconv) : list Z :=
  if posn =? 0 then parens else if neg then lc_negative_sign lc else lc_positive_sign lc.

Lemma init_char_parts intl nm lc mp neg cs sep posn :
  init_char intl nm (Some lc) = Ret mp → lc_values intl neg lc = (cs, sep, posn) →
  neg = true ∨ lc_values intl true lc = lc_values intl false lc →
  init_pat (lc_symbol intl lc) intl cs sep posn SPACE_CODE
  = (if neg then mp_neg_format mp else mp_pos_format mp, mp_curr_symbol mp)
  ∧ (if neg then mp_negative_sign mp else mp_positive_sign mp) = lc_sign neg posn lc.
Proof.
  unfold init_char, init_char_true, init_char_false, lc_symbol, lc_values, lc_sign.
  intros Hi Hv Hs. destruct intl, neg; cbn in Hi, Hv |- *; injection Hv as <- <- <-;
    repeat match type of Hi with context [let '(_, _) := ?p in _] => let E := fresh "E" in destruct p eqn:E end;
    injection Hi as <-; cbn; (split; [|done]); try done;
    (destruct Hs as [[=]|Hs]; injection Hs; intros; congruence).
Qed.

Lemma init_char_value intl nm lc mp :
  init_char intl nm (Some lc) = Ret mp →
  mp_decimal_point mp = lc_point lc ∧ mp_thousands_sep mp = lc_separator lc ∧ mp_grouping mp = lc_mon_grouping lc
  ∧ Z.to_nat (mp_frac_digits mp) = lc_fraction intl lc.
Proof.
  unfold init_char, init_char_true, init_char_false, lc_point, lc_separator, lc_fraction, first_or, CHAR_MAX. intros Hi.
  destruct intl; cbn in Hi;
    repeat match type of Hi with context [let '(_, _) := ?p in _] => destruct p end; injection Hi as <-; cbn;
    (repeat split; [by destruct (lc_mon_decimal_point lc)|by destruct (lc_mon_thousands_sep lc)|by destruct (_ =? 127)]).
Qed.

(** C29: An amount is printed, with [showbase], the way the C standard says of the locale:
    its digits with the fraction, the decimal point and the groups that the locale has, and
    around them its sign and its symbol, in the order and with the separators of
    [cs_precedes], [sep_by_space] and [sign_posn].  There are two exceptions.  In
    parentheses, with the symbol first and a space between it and the value, the space
    comes before the symbol.  An international symbol of four characters has the separator
    as its last one, which is used where the locale asks for one, in one place also as a
    space, but which stays where it asks for none, at the end of the symbol, or the
    beginning if the value is first.  (Amounts have at most 127 digits, and groups at least
    one; for positive ones the locale must put the symbol as it does for negative ones,
    since there is one symbol for both.) *)
Theorem money_text intl nm lc mp neg cs sep posn ct flags ds :
  init_char intl nm (Some lc) = Ret mp → lc_values intl neg lc = (cs, sep, posn) → c11_values cs sep posn →
  neg = true ∨ lc_values intl true lc = lc_values intl false lc →
  has_flag flags showbase = true → ct_widen ct SPACE_CODE = SPACE_CODE →
  Forall (λ d, ct_is_digit ct d = true) ds → zlen ds ≤ 127 → Forall (λ g, 1 ≤ g ≤ 127) (lc_mon_grouping lc) →
  let text := (format ct mp flags neg (signed_digits ct neg ds)).1 in
  let val := lc_value ct intl lc ds in
  let sn := lc_sign neg posn lc in
  let sym := lc_symbol intl lc in
  (intl = false ∨ length sym ≠ 4%nat →
   text = if decide (cs = 1 ∧ posn = 0 ∧ sep = 1) then codes (str "( ") ++ sym ++ val ++ codes (str ")")
          else c11_text sep cs posn sym sn val SPACE_CODE)
  ∧ (∀ a b c d, intl = true → sym = [a; b; c; d] →
     if decide (sep = 0 ∨ posn = 0 ∧ sep = 2)
     then text = c11_text sep cs posn (if cs =? 0 then [d; a; b; c] else [a; b; c; d]) sn val SPACE_CODE
     else ∃ sp, (sp = d ∨ sp = SPACE_CODE) ∧ text = c11_text sep cs posn [a; b; c] sn val sp).
Proof.
  intros Hi Hv Hc Hneg Hshow Hsp Hds Hlen Hgrp text val sn sym.
  destruct (init_char_parts _ _ _ _ _ _ _ _ Hi Hv Hneg) as [Hpat Hsn]. destruct (init_char_value _ _ _ _ Hi) as (Hp & Ht & Hg & Hf).
  assert (Htext : text = let '(pat, s) := init_pat sym intl cs sep posn SPACE_CODE in pattern_text pat s sn val).
  { subst text sn val sym. rewrite format_text, Hpat, Hsn by done. rewrite value_text_is by (by rewrite ?Hg). unfold lc_value. by rewrite Hp, Ht, Hg, Hf. }
  rewrite Htext. split.
  - intros Hin. assert (intl && bool_decide (length sym = 4%nat) = false).
    { destruct Hin as [->|Hin]; [done|]. by rewrite bool_decide_eq_false_2, andb_false_r. }
    destruct (decide (cs = 1 ∧ posn = 0 ∧ sep = 1)) as [(-> & -> & ->)|]; [|by apply pattern_domestic].
    unfold sn, lc_sign. cbn. unfold init_pat. rewrite H. unfold pattern_text. cbn. flatten.
  - intros a b c d -> Hsym. rewrite Hsym. destruct (decide (sep = 0 ∨ posn = 0 ∧ sep = 2)) as [Hcase|Hcase].
    + by apply pattern_separator_stays.
    + apply pattern_international; [done|naive_solver|naive_solver].
Qed.

(** In parentheses the space that belongs between the symbol and the value comes
    before the symbol. *)
Theorem money_in_parens nm lc mp ct flags digits :
  init_char false nm (Some lc) = Ret mp → lc_values false true lc = (1, 1, 0) →
  has_flag flags showbase = true → ct_widen ct SPACE_CODE = SPACE_CODE →
  let val := value_text ct mp true digits in
  (format ct mp flags true digits).1 = codes (str "( ") ++ lc_currency_symbol lc ++ val ++ codes (str ")")
  ∧ c11_text 1 1 0 (lc_currency_symbol lc) parens val SPACE_CODE
    = codes (str "(") ++ lc_currency_symbol lc ++ [SPACE_CODE] ++ val ++ codes (str ")").
Proof.
  intros Hi Hv Hshow Hsp val. destruct (init_char_parts _ _ _ _ true _ _ _ Hi Hv) as [Hpat Hsn]; [by left|].
  split; [|unfold c11_text; cbn; flatten].
  rewrite format_text by done. cbn in Hsn. rewrite Hsn. cbn in Hpat. injection Hpat as Hp Hs. rewrite <- Hp, <- Hs.
  fold val. unfold pattern_text. cbn. flatten.
Qed.

(** What is reserved is enough for the text, but for one character where the digits
    are no more than those of the fraction and the pattern has a space; that store is
    beyond the array where the array has no room to spare. *)
Theorem money_put_bounds ct mp flags width fill digits :
  valid_pattern (mp_neg_format mp) = true → valid_pattern (mp_pos_format mp) = true →
  0 ≤ mp_frac_digits mp → (∀ g, head (mp_grouping mp) = Some g → wrap 32 g ≠ 0) →
  let neg := match digits with c :: _ => c =? ct_widen ct 45 | [] => false end in
  let sn := if neg then mp_negative_sign mp else mp_positive_sign mp in
  zlen (format ct mp flags neg digits).1 ≤ exn mp sn digits + 1
  ∧ (mp_frac_digits mp < zlen digits ∨ mp_frac_digits mp = 0
     ∨ has_space (if neg then mp_neg_format mp else mp_pos_format mp) = false ∨ exn mp sn digits < 100 →
     ∃ out, money_do_put true ct mp flags width fill digits = Ret out).
Proof.
  intros Hvn Hvp Hfd Hgrp neg sn.
  assert (Hv : valid_pattern (if neg then mp_neg_format mp else mp_pos_format mp) = true) by by destruct neg.
  destruct (format_length ct mp flags neg digits Hv) as [Hlen [mi Hmi]]. fold sn in Hlen.
  pose proof (value_text_length ct mp neg digits Hfd Hgrp) as Hval. unfold exn. pose proof (zlen_nonneg digits) as Hn.
  split.
  - destruct (Z.ltb_spec (mp_frac_digits mp) (zlen digits)), (has_space _); repeat case_decide; lia.
  - intros Hor. unfold money_do_put. fold neg. fold sn. unfold exn. destruct (format ct mp flags neg digits) as [mb mi'].
    cbn [fst snd] in *. subst mi'. rewrite andb_false_r.
    destruct (Z.ltb_spec (mp_frac_digits mp) (zlen digits)), (has_space _);
      match goal with |- context [?a <? ?b] => destruct (Z.ltb_spec a b) end; try (by eexists);
      exfalso; repeat case_decide; try lia; naive_solver lia.
Qed.

(** The printed value without separators: the digits but the last [fd], 0 for none,
    then the decimal point and [fd] digits, zeros before what there is. *)
Theorem money_value ct mp (neg : bool) digits :
  mp_grouping mp = [] → zlen digits < 2 ^ 32 - 1 →
  let ds := digits_of ct (if neg then drop 1 digits else digits) in
  let fd := Z.to_nat (mp_frac_digits mp) in
  let units := take (length ds - fd) ds in
  let zero := ct_widen ct 48 in
  value_text ct mp neg digits
  = (if bool_decide (units = []) then [zero] else units)
    ++ (if 0 <? mp_frac_digits mp then
          mp_decimal_point mp :: replicate (fd - length ds) zero ++ drop (length ds - fd) ds
        else []).
Proof.
  intros Hg Hlen ds fd units zero. unfold value_text. fold ds fd zero. rewrite Hg.
  assert (Hplain : ∀ l ig ng, 0 ≤ ng → ng + zlen l < 2 ^ 32 - 1 →
    units_loop (mp_thousands_sep mp) [] ig (2 ^ 32 - 1) ng l = l).
  { induction l as [|d l IH]; intros ig ng Hng Hl; [done|]. rewrite zlen_cons in Hl. pose proof (zlen_nonneg l).
    cbn [units_loop]. destruct (Z.eqb_spec ng (2 ^ 32 - 1)); [lia|]. f_equal. apply IH; lia. }
  assert (Hds : (length ds ≤ length digits)%nat).
  { subst ds. etransitivity; [apply digits_of_length|]. destruct neg; [rewrite length_drop|]; lia. }
  rewrite rev_app_distr.
  assert (Hunits : ∀ u, rev u = units →
    rev match u with [] => [zero] | x :: r => units_loop (mp_thousands_sep mp) [] 0 (2 ^ 32 - 1) 0 (x :: r) end
    = if bool_decide (units = []) then [zero] else units).
  { intros u Hu. destruct u as [|x u]; [by rewrite <- Hu|].
    rewrite Hplain; [|lia|].
    - rewrite Hu, bool_decide_eq_false_2; [done|]. rewrite <- Hu. cbn. by intros [_ [=]]%app_eq_nil.
    - rewrite <- (rev_involutive (x :: u)), Hu. unfold zlen in *. rewrite length_rev. subst units. rewrite length_take. lia. }
  cbv beta iota. rewrite Hunits.
  - f_equal. destruct (0 <? mp_frac_digits mp); [|done]. rewrite !rev_app_distr. cbn [rev app].
    rewrite firstn_rev, rev_involutive. f_equal. f_equal. rewrite length_rev, rev_alt. apply reverse_replicate.
  - subst units fd. destruct (Z.ltb_spec 0 (mp_frac_digits mp)).
    + by rewrite skipn_rev, rev_involutive.
    + rewrite rev_involutive, firstn_all2 by lia. done.
Qed.

(** A wide facet is the narrow one, where the C library converts the strings to
    themselves and the two characters are of ASCII or absent. *)
Theorem wide_money mbsrtowcs intl nm lc mp :
  (∀ s, s ∈ [lc_symbol intl lc; lc_positive_sign lc; lc_negative_sign lc] → mbsrtowcs s wbuf_size = Some s) →
  Forall (λ c, c < 128) (take 1 (lc_mon_decimal_point lc) ++ take 1 (lc_mon_thousands_sep lc)) →
  init_char intl nm (Some lc) = Ret mp →
  (if intl then init_wchar_true else init_wchar_false) mbsrtowcs nm (Some lc)
  = Ret (Moneypunct (first_or (lc_mon_decimal_point lc) id WCHAR_MAX) (first_or (lc_mon_thousands_sep lc) id WCHAR_MAX)
           (mp_grouping mp) (mp_curr_symbol mp) (mp_frac_digits mp) (mp_positive_sign mp) (mp_negative_sign mp)
           (mp_pos_format mp) (mp_neg_format mp)).
Proof.
  intros Hmb Hascii Hi.
  assert (Hsign : ∀ posn s, s ∈ [lc_positive_sign lc; lc_negative_sign lc] →
    wide_sign mbsrtowcs posn s = Some (if posn =? 0 then parens else s)).
  { intros posn s Hs. unfold wide_sign. destruct (posn =? 0); [done|]. apply Hmb. by right. }
  assert (Hfirst : ∀ s, Forall (λ c, c < 128) (take 1 s) → first_or s wide_cast WCHAR_MAX = first_or s id WCHAR_MAX).
  { intros [|c s]; [done|]. intros Hc%Forall_inv. cbn. unfold wide_cast, id. by destruct (Z.ltb_spec c 128); [|lia]. }
  apply Forall_app in Hascii as [Hdp Hts].
  assert (Hsym : mbsrtowcs (lc_symbol intl lc) wbuf_size = Some (lc_symbol intl lc)) by (apply Hmb; left).
  destruct intl; unfold init_char, init_char_true, init_char_false, init_wchar_true, init_wchar_false, lc_symbol in *;
    rewrite Hsym, !Hsign, !Hfirst by (done || by repeat (left || right));
    repeat match goal with |- context [let '(_, _) := ?p in _] => destruct p end; by injection Hi as <-.
Qed.

(** ** Witnesses *)

Definition ascii_ctype : ctype := Ctype id (λ c, (48 <=? c) && (c <=? 57)).

(** A locale: its symbols, and the three values for each sign, the same at home and
    abroad. *)
Definition locale_of (symbol intl_symbol : string) (cs sep posn : Z) : lconv :=
  Lconv (codes (str ".")) (codes (str ",")) [3; 3] (codes (str symbol)) (codes (str intl_symbol)) [] (codes (str "-"))
    2 2 cs sep posn cs sep posn cs sep posn cs sep posn.

Definition facet_of (intl : bool) (lc : lconv) : moneypunct :=
  match init_char intl (str "xx") (Some lc) with
  | Ret mp => mp
  | _ => Moneypunct 0 0 [] [] 0 [] [] default_pattern default_pattern
  end.

Lemma money_text_witness :
  (format ascii_ctype (facet_of false (locale_of "DM" "DEM " 0 1 1)) showbase true (codes (str "-123456"))).1
  = codes (str "-1,234.56 DM")
  ∧ (format ascii_ctype (facet_of true (locale_of "DM" "DEM " 1 2 3)) showbase true (codes (str "-123456"))).1
  = codes (str "- DEM1,234.56").
Proof.
  assert (Hds : Forall (λ d, ct_is_digit ascii_ctype d = true) (codes (str "123456"))) by (by repeat constructor).
  split.
  - destruct (money_text false (str "xx") (locale_of "DM" "DEM " 0 1 1) (facet_of false (locale_of "DM" "DEM " 0 1 1))
      true 0 1 1 ascii_ctype showbase (codes (str "123456"))) as [Hhome _];
      [reflexivity|reflexivity|repeat split; auto|by left|reflexivity|reflexivity|exact Hds|done|repeat constructor; lia|].
    etransitivity; [apply Hhome; by left|by vm_compute].
  - destruct (money_text true (str "xx") (locale_of "DM" "DEM " 1 2 3) (facet_of true (locale_of "DM" "DEM " 1 2 3))
      true 1 2 3 ascii_ctype showbase (codes (str "123456"))) as [_ Hintl];
      [reflexivity|reflexivity|repeat split; auto|by left|reflexivity|reflexivity|exact Hds|done|repeat constructor; lia|].
    specialize (Hintl 68 69 77 32 eq_refl eq_refl). rewrite decide_False in Hintl by (intros [[=]|[[=] _]]).
    destruct Hintl as (sp & Hsp & Htext). etransitivity; [exact Htext|]. destruct Hsp as [->| ->]; by vm_compute.
Defined.

Lemma money_in_parens_witness :
  (format ascii_ctype (facet_of false (locale_of "$" "USD " 1 1 0)) showbase true (codes (str "-500"))).1
  = codes (str "( $5.00)").
Proof. etransitivity; [by apply (money_in_parens (str "xx") (locale_of "$" "USD " 1 1 0))|by vm_compute]. Defined.

(** A symbol of 96 characters, and fewer digits than a fraction has. *)
Definition long_symbol : moneypunct :=
  Moneypunct 46 44 [3] (replicate 96 36) 2 [] (codes (str "-")) (Pattern symbol space sign value) default_pattern.

Lemma money_put_bounds_witness :
  money_do_put true ascii_ctype long_symbol showbase 0 32 (codes (str "5")) = Undef BufferOverflow
  ∧ ∃ out, money_do_put true ascii_ctype long_symbol showbase 0 32 (codes (str "500")) = Ret out.
Proof.
  split; [by vm_compute|].
  apply (money_put_bounds ascii_ctype long_symbol showbase 0 32 (codes (str "500"))); try done; [|by left].
  intros g [= <-]. done.
Defined.

Lemma money_value_witness :
  value_text ascii_ctype (Moneypunct 46 44 [] [] 2 [] [] default_pattern default_pattern) true (codes (str "-7"))
  = codes (str "0.07").
Proof. etransitivity; [by apply money_value|by vm_compute]. Defined.

Lemma wide_money_witness :
  ∃ mp, init_wchar_false (λ s n, Some s) (str "xx") (Some (locale_of "$" "USD " 1 0 1)) = Ret mp
    ∧ mp_decimal_point mp = 46 ∧ mp_curr_symbol mp = [36].
Proof.
  eexists. split; [|split].
  - apply (wide_money (λ s n, Some s) false (str "xx") (locale_of "$" "USD " 1 0 1)
      (facet_of false (locale_of "$" "USD " 1 0 1))); [done|repeat constructor; lia|done].
  - done.
  - done.
Defined.
