(* ===== verification/TimeFormat.v ===== *)
(** * TimeFormat: the formats of dates and times

    The storage behind [time_get] in [locale.cpp]: the names and formats of the "C"
    locale, and for another locale [__analyze], which finds the format by reading back
    what the C library prints of a known time, over [__scan_keyword] and
    [__get_up_to_n_digits] of the header [locale]; [__do_date_order]; and
    [__time_put::__do_put].  A character is its code. *)

From S2P Require Import Prelude Text StringConv Number.

(** What [ctype] gives. *)
Record tctype := Tctype { tc_space : Z → bool; tc_digit : Z → bool; tc_toupper : Z → Z; tc_narrow : Z → Z }.

(** ** [__scan_keyword] *)

Inductive kstatus := doesnt_match | might_match | does_match.

#[export] Instance kstatus_eq_dec : EqDecision kstatus.
Proof. solve_decision. Defined.

(** The statuses of the keywords, and how many might match and do. *)
Record scan := Scan { sc_status : list kstatus; sc_might : nat; sc_does : nat }.

Definition scan_start (kws : list (list Z)) : scan :=
  Scan (map (λ kw, if bool_decide (kw = []) then does_match else might_match) kws)
    (length kws - length (filter (λ kw, kw = []) kws)) (length (filter (λ kw, kw = []) kws)).

(** The keywords that might match against the character [c]; whether one did. *)
Fixpoint scan_test (fold : Z → Z) (c : Z) (indx : nat) (kws : list (list Z)) (sts : list kstatus)
    (might does : nat) (consume : bool) : scan * bool :=
  match kws, sts with
  | kw :: kws', st :: sts' =>
      let '(st1, might1, does1, consume1) :=
        match st with
        | might_match =>
            if c =? fold (default 0 (kw !! indx)) then
              if decide (length kw = S indx) then (does_match, pred might, S does, true)
              else (might_match, might, does, true)
            else (doesnt_match, pred might, does, consume)
        | _ => (st, might, does, consume)
        end in
      let '(s, consume2) := scan_test fold c indx kws' sts' might1 does1 consume1 in
      (Scan (st1 :: sc_status s) (sc_might s) (sc_does s), consume2)
  | _, _ => (Scan [] might does, consume)
  end.

(** Keywords that matched before and are too short now. *)
Fixpoint scan_unmark (indx : nat) (kws : list (list Z)) (sts : list kstatus) (does : nat) : list kstatus * nat :=
  match kws, sts with
  | kw :: kws', st :: sts' =>
      let stale := bool_decide (st = does_match) && negb (bool_decide (length kw = S indx)) in
      let '(sts2, does2) := scan_unmark indx kws' sts' (if stale then pred does else does) in
      ((if stale then doesnt_match else st) :: sts2, does2)
  | _, _ => ([], does)
  end.

(** What is left of the input [b]; [None] while the loop runs. *)
Fixpoint scan_loop (fuel : nat) (fold : Z → Z) (kws : list (list Z)) (indx : nat) (b : list Z) (s : scan) :
  option (list Z * scan) :=
  match fuel with
  | O => None
  | S fuel' =>
      match b with
      | [] => Some (b, s)
      | c :: b' =>
          if decide (sc_might s = O) then Some (b, s)
          else
            let '(s1, consume) := scan_test fold (fold c) indx kws (sc_status s) (sc_might s) (sc_does s) false in
            if consume : bool then
              let '(sts, does) :=
                if decide (1 < sc_might s1 + sc_does s1)%nat then scan_unmark indx kws (sc_status s1) (sc_does s1)
                else (sc_status s1, sc_does s1) in
              scan_loop fuel' fold kws (S indx) b' (Scan sts (sc_might s1) does)
            else scan_loop fuel' fold kws (S indx) b s1
      end
  end.

Fixpoint first_does (sts : list kstatus) : nat :=
  match sts with [] => O | st :: sts' => if decide (st = does_match) then O else S (first_does sts') end.

(** The index of the keyword, or how many there are; what is left; and the state. *)
Definition scan_keyword (fuel : nat) (ct : tctype) (kws : list (list Z)) (case_sensitive : bool) (err : Z) (b : list Z) :
  option (nat * list Z * Z) :=
  let fold c := if case_sensitive then c else tc_toupper ct c in
  match scan_loop fuel fold kws 0 b (scan_start kws) with
  | None => None
  | Some (rest, s) =>
      let err1 := match rest with [] => Z.lor err eofbit | _ => err end in
      let i := first_does (sc_status s) in
      Some (i, rest, if decide (i = length kws) then Z.lor err1 failbit else err1)
  end.

(** ** [__get_up_to_n_digits] *)

Fixpoint more_digits (ct : tctype) (n : nat) (r : Z) (b : list Z) : Z * list Z :=
  match n, b with
  | S n', c :: b' => if tc_digit ct c then more_digits ct n' (r * 10 + tc_narrow ct c - 48) b' else (r, b)
  | _, _ => (r, b)
  end.

(** The value, what is left, and the state; for [n] of 1 or more. *)
Definition get_up_to_n_digits (ct : tctype) (n : nat) (err : Z) (b : list Z) : Z * list Z * Z :=
  match b with
  | [] => (0, b, Z.lor err (Z.lor eofbit failbit))
  | c :: b' =>
      if tc_digit ct c then
        let '(r, rest) := more_digits ct (pred n) (tc_narrow ct c - 48) b' in
        (* the state has [eofbit] where the loop runs to the end of the input *)
        (r, rest, match rest with [] => Z.lor err eofbit | _ => err end)
      else (0, b, Z.lor err failbit)
  end.

(** ** The names and formats of the "C" locale *)

Definition init_weeks : list bytes :=
  map str ["Sunday"; "Monday"; "Tuesday"; "Wednesday"; "Thursday"; "Friday"; "Saturday";
           "Sun"; "Mon"; "Tue"; "Wed"; "Thu"; "Fri"; "Sat"].
Definition init_wweeks : list bytes :=
  map str ["Sunday"; "Monday"; "Tuesday"; "Wednesday"; "Thursday"; "Friday"; "Saturday";
           "Sun"; "Mon"; "Tue"; "Wed"; "Thu"; "Fri"; "Sat"].

Definition init_months : list bytes :=
  map str ["January"; "February"; "March"; "April"; "May"; "June"; "July"; "August"; "September"; "October";
           "November"; "December"; "Jan"; "Feb"; "Mar"; "Apr"; "May"; "Jun"; "Jul"; "Aug"; "Sep"; "Oct"; "Nov"; "Dec"].
Definition init_wmonths : list bytes :=
  map str ["January"; "February"; "March"; "April"; "May"; "June"; "July"; "August"; "September"; "October";
           "November"; "December"; "Jan"; "Feb"; "Mar"; "Apr"; "May"; "Jun"; "Jul"; "Aug"; "Sep"; "Oct"; "Nov"; "Dec"].

(** The arrays have 24 strings, of which two are set. *)
Definition init_am_pm : list bytes := map str ["AM"; "PM"] ++ replicate 22 [].
Definition init_wam_pm : list bytes := map str ["AM"; "PM"] ++ replicate 22 [].

Definition c_x : bytes := str "%m/%d/%y".
Definition c_X : bytes := str "%H:%M:%S".
Definition c_c : bytes := str "%a %b %d %H:%M:%S %Y".
Definition c_r : bytes := str "%I:%M:%S %p".

(** ** [__analyze] *)

Record tm := Tm {
  tm_sec : Z; tm_min : Z; tm_hour : Z; tm_mday : Z; tm_mon : Z; tm_year : Z; tm_wday : Z; tm_yday : Z; tm_isdst : Z }.

(** The time that is printed: every number is another. *)
Definition known_time : tm := Tm 59 55 23 31 11 161 6 364 (-1).

Record names := Names { weeks : list (list Z); months : list (list Z); am_pm : list (list Z) }.

Definition PERCENT : Z := 37.

Definition code (c : ascii) : Z := byte_val c.
Definition spec (c : ascii) : list Z := [PERCENT; code c].

(** The conversion that printed a number. *)
Definition number_spec (v : Z) : option ascii :=
  if v =? 6 then Some "w"%char else if v =? 7 then Some "u"%char
  else if v =? 11 then Some "I"%char else if v =? 12 then Some "m"%char
  else if v =? 23 then Some "H"%char else if v =? 31 then Some "d"%char
  else if v =? 55 then Some "M"%char else if v =? 59 then Some "S"%char
  else if v =? 61 then Some "y"%char else if v =? 364 then Some "j"%char
  else if v =? 2061 then Some "Y"%char else None.

Fixpoint skip_spaces (ct : tctype) (b : list Z) : list Z :=
  match b with c :: b' => if tc_space ct c then skip_spaces ct b' else b | [] => [] end.

(** One round of the loop: what is put in the result, and what is left. *)
Definition analyze_round (ct : tctype) (is_percent : Z → bool) (nm : names) (fmt : ascii) (c : Z) (r : list Z) :
  option (list Z * list Z) :=
  let bb := c :: r in
  let scan kws := scan_keyword (S (S (length bb))) ct kws false goodbit bb in
  let otherwise :=
    if tc_digit ct c then
      let '(v, rest, _) := get_up_to_n_digits ct 4 goodbit bb in
      match number_spec v with
      | Some s => Some (spec s, rest)
      | None => Some (take (length bb - length rest) bb, rest)
      end
    else if is_percent c then Some ([PERCENT; PERCENT], r)
    else Some ([c], r) in
  if tc_space ct c then Some ([32], skip_spaces ct r)
  else
    match scan (weeks nm) with
    | None => None
    | Some (i, w, _) =>
        if decide (i < 14)%nat then Some (if decide (i < 7)%nat then spec "A" else spec "a", w)
        else
          match scan (months nm) with
          | None => None
          | Some (i, w, _) =>
              if decide (i < 24)%nat then
                Some (if bool_decide (fmt = "x"%char) && tc_digit ct (default 0 (default [] (months nm !! i) !! O)) then spec "m"
                      else if decide (i < 12)%nat then spec "B" else spec "b", w)
              else if decide (0 < sum_list (map length (am_pm nm)))%nat then
                match scan (am_pm nm) with
                | None => None
                | Some (i, w, _) => if decide (i < 2)%nat then Some (spec "p", w) else otherwise
                end
              else otherwise
          end
    end.

Fixpoint analyze_loop (fuel : nat) (ct : tctype) (is_percent : Z → bool) (nm : names) (fmt : ascii) (bb : list Z) :
  option (list Z) :=
  match fuel with
  | O => None
  | S fuel' =>
      match bb with
      | [] => Some []
      | c :: r =>
          match analyze_round ct is_percent nm fmt c r with
          | None => None
          | Some (out, rest) => (λ result, out ++ result) <$> analyze_loop fuel' ct is_percent nm fmt rest
          end
      end
  end.

Section storage.
(** The C library: the text of a time by a format, and the conversion of a string to
    wide characters.  The names fit the buffers. *)
Context (strftime : list Z → tm → list Z) (mbsrtowcs : list Z → option (list Z)).

(** What is printed into [size] characters: nothing if it does not fit with its NUL. *)
Definition printed (size : Z) (fmt : list Z) (t : tm) : list Z :=
  let out := strftime fmt t in if zlen out <? size then out else [].

Definition analyze_char (fuel : nat) (ct : tctype) (nm : names) (fmt : ascii) : option (list Z) :=
  analyze_loop fuel ct (λ c, c =? PERCENT) nm fmt (printed 100 (spec fmt) known_time).

Definition analyze_wchar (fuel : nat) (ct : tctype) (nm : names) (fmt : ascii) : outcome (option (list Z)) :=
  match mbsrtowcs (printed 100 (spec fmt) known_time) with
  | None => Throw (str "locale not supported")
  | Some wbuf => Ret (analyze_loop fuel ct (λ c, tc_narrow ct c =? PERCENT) nm fmt wbuf)
  end.

(** ** [__time_get_storage] *)

Definition zero_time : tm := Tm 0 0 0 0 0 0 0 0 0.
Definition with_wday (i : Z) (t : tm) : tm := Tm (tm_sec t) (tm_min t) (tm_hour t) (tm_mday t) (tm_mon t) (tm_year t) i (tm_yday t) (tm_isdst t).
Definition with_mon (i : Z) (t : tm) : tm := Tm (tm_sec t) (tm_min t) (tm_hour t) (tm_mday t) i (tm_year t) (tm_wday t) (tm_yday t) (tm_isdst t).
Definition with_hour (i : Z) (t : tm) : tm := Tm (tm_sec t) (tm_min t) i (tm_mday t) (tm_mon t) (tm_year t) (tm_wday t) (tm_yday t) (tm_isdst t).

Definition names_char : names :=
  Names (map (λ i, strftime (spec "A") (with_wday i zero_time)) (seqZ 0 7)
         ++ map (λ i, strftime (spec "a") (with_wday i zero_time)) (seqZ 0 7))
    (map (λ i, strftime (spec "B") (with_mon i (with_wday 6 zero_time))) (seqZ 0 12)
     ++ map (λ i, strftime (spec "b") (with_mon i (with_wday 6 zero_time))) (seqZ 0 12))
    (map (λ h, strftime (spec "p") (with_hour h (with_mon 11 (with_wday 6 zero_time)))) [1; 13]).

Record storage := Storage { st_names : names; st_c : list Z; st_r : list Z; st_x : list Z; st_X : list Z }.

(** [None] where an [__analyze] does not end. *)
Definition init_char (fuel : nat) (ct : tctype) : option storage :=
  let nm := names_char in
  c ← analyze_char fuel ct nm "c"; r ← analyze_char fuel ct nm "r";
  x ← analyze_char fuel ct nm "x"; X ← analyze_char fuel ct nm "X";
  Some (Storage nm c r x X).

Definition names_wchar : option names :=
  w ← mapM mbsrtowcs (weeks names_char); m ← mapM mbsrtowcs (months names_char); p ← mapM mbsrtowcs (am_pm names_char);
  Some (Names w m p).

Definition init_wchar (fuel : nat) (ct : tctype) : outcome (option storage) :=
  match names_wchar with
  | None => Throw (str "locale not supported")
  | Some nm =>
      match analyze_wchar fuel ct nm "c", analyze_wchar fuel ct nm "r",
        analyze_wchar fuel ct nm "x", analyze_wchar fuel ct nm "X" with
      | Ret c, Ret r, Ret x, Ret X =>
          Ret (c ← c; r ← r; x ← x; X ← X; Some (Storage nm c r x X))
      | _, _, _, _ => Throw (str "locale not supported")
      end
  end.

(** ** [__time_put] *)

Definition time_put_format (fmt modifier : Z) : list Z :=
  if modifier =? 0 then [PERCENT; fmt] else [PERCENT; modifier; fmt].

Definition time_do_put_char (size : Z) (t : tm) (fmt modifier : Z) : list Z :=
  printed size (time_put_format fmt modifier) t.

Definition time_do_put_wchar (t : tm) (fmt modifier : Z) : outcome (list Z) :=
  match mbsrtowcs (time_do_put_char 100 t fmt modifier) with
  | None => Throw (str "locale not supported")
  | Some w => Ret w
  end.
End storage.

(** ** [__do_date_order] *)

Inductive dateorder := no_order | dmy | mdy | ymd | ydm.

Fixpoint to_percent (s : list Z) : list Z :=
  match s with c :: s' => if c =? PERCENT then s else to_percent s' | [] => [] end.

(** The character after the next ["%"], NUL at the end, and what follows it. *)
Definition next_conversion (s : list Z) : option (Z * list Z) :=
  match to_percent s with
  | [] => None
  | _ :: t => Some (default 0 (head t), tail t)
  end.

(** The first ["%"] is not looked for in vain. *)
Definition do_date_order (x : list Z) : outcome dateorder :=
  match next_conversion x with
  | None => Undef BufferOverread
  | Some (c1, t1) =>
      let third (ok : Z → bool) (order : dateorder) t2 :=
        match next_conversion t2 with
        | Some (c3, _) => if ok c3 then order else no_order
        | None => no_order
        end in
      let isc c z := z =? code c in
      let is_year z := isc "y"%char z || isc "Y"%char z in
      Ret match next_conversion t1 with
          | None => no_order
          | Some (c2, t2) =>
              if is_year c1 then
                if isc "m"%char c2 then third (isc "d"%char) ymd t2
                else if isc "d"%char c2 then third (isc "m"%char) ydm t2
                else no_order
              else if isc "m"%char c1 then
                if isc "d"%char c2 then third is_year mdy t2 else no_order
              else if isc "d"%char c1 then
                if isc "m"%char c2 then third is_year dmy t2 else no_order
              else no_order
          end
  end.

Definition do_date_order_wide (x : list Z) : outcome dateorder := do_date_order x.

(** ** Scanning for keywords *)

(** What a keyword is after the characters [p], both folded. *)
Definition status_of (p kw : list Z) : kstatus :=
  if decide (kw = p) then does_match else if decide (p `prefix_of` kw) then might_match else doesnt_match.

Definition count_status (st : kstatus) (sts : list kstatus) : nat := length (filter (eq st) sts).

Lemma count_cons st x sts : count_status st (x :: sts) = ((if decide (st = x) then 1 else 0) + count_status st sts)%nat.
Proof. unfold count_status. rewrite filter_cons. by case_decide. Qed.

Section scanning.
Context (fold : Z → Z).

Definition folded (kws : list (list Z)) : list (list Z) := map (map fold) kws.

(** The state after the characters [p]. *)
Definition scanned (kws : list (list Z)) (p : list Z) (s : scan) : Prop :=
  sc_status s = map (status_of p) (folded kws)
  ∧ sc_might s = count_status might_match (sc_status s) ∧ sc_does s = count_status does_match (sc_status s).

Lemma scan_start_scanned kws : scanned kws [] (scan_start kws).
Proof.
  assert (Hst : sc_status (scan_start kws) = map (status_of []) (folded kws)).
  { unfold scan_start, folded. cbn [sc_status]. rewrite map_map. apply map_ext. intros kw. unfold status_of.
    destruct kw as [|y kw]; cbn; [done|]. rewrite decide_False by done.
    rewrite decide_True; [done|apply prefix_nil]. }
  split; [exact Hst|]. unfold scan_start. cbn [sc_might sc_does sc_status].
  assert (Hle : (length (filter (λ kw, kw = []) kws) ≤ length kws)%nat) by apply length_filter.
  assert (Hc : ∀ st, count_status st (map (λ kw, if bool_decide (kw = []) then does_match else might_match) kws)
    = match st with does_match => length (filter (λ kw, kw = []) kws)
      | might_match => (length kws - length (filter (λ kw, kw = []) kws))%nat | doesnt_match => O end).
  { intros st. clear Hle Hst. induction kws as [|kw kws IH]; [by destruct st|]. cbn [map]. rewrite count_cons, IH, filter_cons.
    pose proof (length_filter (λ kw, kw = []) kws).
    destruct (decide (kw = [])) as [Hkw|Hkw]; [rewrite bool_decide_eq_true_2 by done|rewrite bool_decide_eq_false_2 by done];
      destruct st; repeat case_decide; try done; cbn [length]; lia. }
  by rewrite !Hc.
Qed.

Lemma status_step p c kw y :
  kw !! length p = Some y → p `prefix_of` map fold kw →
  (p ++ [c]) `prefix_of` map fold kw ↔ c = fold y.
Proof.
  intros Hy [k Hk]. assert (Hl : map fold kw !! length p = Some (fold y)) by (rewrite list_lookup_fmap, Hy; done).
  rewrite Hk, lookup_app_r, Nat.sub_diag in Hl by done. destruct k as [|z k]; [done|]. injection Hl as ->.
  rewrite Hk. split.
  - intros Hp. apply prefix_app_inv in Hp. by apply prefix_cons_inv_1 in Hp.
  - intros ->. apply prefix_app. apply prefix_cons, prefix_nil.
Qed.

(** The status after a test and before the unmarking. *)
Definition tested (p : list Z) (c : Z) (kw : list Z) : kstatus :=
  match status_of p kw with might_match => status_of (p ++ [c]) kw | st => st end.

Lemma status_might p kw : status_of p kw = might_match ↔ p `prefix_of` kw ∧ kw ≠ p.
Proof. unfold status_of. destruct (decide (kw = p)); [naive_solver|]. destruct (decide (p `prefix_of` kw)); naive_solver. Qed.

Lemma status_does p kw : status_of p kw = does_match ↔ kw = p.
Proof. unfold status_of. destruct (decide (kw = p)); [naive_solver|]. destruct (decide (p `prefix_of` kw)); naive_solver. Qed.

Lemma prefix_snoc_inv (p : list Z) c kw : (p ++ [c]) `prefix_of` kw → p `prefix_of` kw ∧ kw ≠ p.
Proof.
  intros [k ->]. split; [exists ([c] ++ k); by rewrite <- app_assoc|].
  intros He. apply (f_equal length) in He. rewrite !length_app in He. cbn in He. lia.
Qed.

(** The test of one keyword that might match. *)
Lemma test_one p c kw :
  status_of p (map fold kw) = might_match →
  if c =? fold (default 0 (kw !! length p)) then
    (p ++ [c]) `prefix_of` map fold kw
    ∧ tested p c (map fold kw) = (if decide (length kw = S (length p)) then does_match else might_match)
  else ¬ (p ++ [c]) `prefix_of` map fold kw ∧ tested p c (map fold kw) = doesnt_match.
Proof.
  intros Hs. unfold tested. rewrite Hs. apply status_might in Hs as [Hp Hne].
  destruct (lookup_lt_is_Some_2 kw (length p)) as [y Hy].
  { pose proof (prefix_length _ _ Hp) as Hl. rewrite length_map in Hl. destruct (decide (length kw = length p)) as [He|]; [|lia].
    destruct Hne. destruct Hp as [k Hk]. rewrite Hk in *. apply (f_equal length) in Hk.
    rewrite length_map, length_app in Hk. destruct k; [by rewrite app_nil_r|cbn in Hk; lia]. }
  rewrite Hy. cbn [default]. unfold id. pose proof (status_step p c kw y Hy Hp) as Hstep.
  destruct (Z.eqb_spec c (fold y)) as [Hc|Hc].
  - apply Hstep in Hc. split; [done|]. unfold status_of. destruct (decide (length kw = S (length p))) as [Hlen|Hlen].
    + rewrite decide_True; [done|]. destruct Hc as [k Hk]. rewrite Hk. apply (f_equal length) in Hk.
      rewrite length_map, !length_app in Hk. cbn in Hk. destruct k; [by rewrite app_nil_r|cbn in Hk; lia].
    + rewrite decide_False; [by rewrite decide_True|]. intros He. apply (f_equal length) in He.
      rewrite length_map, length_app in He. cbn in He. lia.
  - assert (Hno : ¬ (p ++ [c]) `prefix_of` map fold kw) by (by rewrite Hstep). split; [done|]. unfold status_of.
    rewrite decide_False by (intros He; apply Hno; by rewrite He). by rewrite decide_False.
Qed.

Lemma scan_test_scanned p c kws might does consume :
  (count_status might_match (map (status_of p) (folded kws)) ≤ might)%nat →
  (count_status does_match (map (status_of p) (folded kws)) ≤ does)%nat →
  let '(s, consume') := scan_test fold c (length p) kws (map (status_of p) (folded kws)) might does consume in
  sc_status s = map (tested p c) (folded kws)
  ∧ (sc_might s + count_status might_match (map (status_of p) (folded kws))
     = might + count_status might_match (map (tested p c) (folded kws)))%nat
  ∧ (sc_does s + count_status does_match (map (status_of p) (folded kws))
     = does + count_status does_match (map (tested p c) (folded kws)))%nat
  ∧ (consume' = true ↔ consume = true ∨ ∃ kw, kw ∈ folded kws ∧ (p ++ [c]) `prefix_of` kw).
Proof.
  revert might does consume. induction kws as [|kw kws IH]; intros might does consume Hm Hd; cbn [folded map scan_test].
  { cbn. repeat split; try lia; [by left|]. intros [Hc|(kw & Hkw & _)]; [done|]. by apply elem_of_nil in Hkw. }
  cbn [folded map] in Hm, Hd. rewrite count_cons in Hm, Hd. fold (folded kws) in *.
  (* the keyword at hand *)
  assert (Hstep : ∃ might1 does1 consume1,
    match status_of p (map fold kw) with
    | might_match =>
        if c =? fold (default 0 (kw !! length p)) then
          if decide (length kw = S (length p)) then (does_match, pred might, S does, true)
          else (might_match, might, does, true)
        else (doesnt_match, pred might, does, consume)
    | _ => (status_of p (map fold kw), might, does, consume)
    end = (tested p c (map fold kw), might1, does1, consume1)
    ∧ (count_status might_match (map (status_of p) (folded kws)) ≤ might1)%nat
    ∧ (count_status does_match (map (status_of p) (folded kws)) ≤ does1)%nat
    ∧ (might1 + (if decide (might_match = status_of p (map fold kw)) then 1 else 0)
       = might + (if decide (might_match = tested p c (map fold kw)) then 1 else 0))%nat
    ∧ (does1 + (if decide (does_match = status_of p (map fold kw)) then 1 else 0)
       = does + (if decide (does_match = tested p c (map fold kw)) then 1 else 0))%nat
    ∧ (consume1 = true ↔ consume = true ∨ (p ++ [c]) `prefix_of` map fold kw)).
  { destruct (status_of p (map fold kw)) eqn:Hs.
    - eexists _, _, _. unfold tested. rewrite Hs. split; [done|]. repeat case_decide; try done; repeat split; try lia; [by left|].
      intros [Hc|Hp]; [done|]. apply prefix_snoc_inv, status_might in Hp. congruence.
    - pose proof (test_one p c kw Hs) as Hone. destruct (c =? _); destruct Hone as [Hp ->].
      + destruct (decide (length kw = S (length p))); eexists _, _, _; (split; [done|]); repeat case_decide; try done;
          repeat split; try lia; by right.
      + eexists _, _, _. split; [done|]. repeat case_decide; try done; repeat split; try lia; [by left|]. by intros [Hc|Hc].
    - eexists _, _, _. unfold tested. rewrite Hs. split; [done|]. repeat case_decide; try done; repeat split; try lia; [by left|].
      intros [Hc|Hp]; [done|]. apply prefix_snoc_inv, status_might in Hp. congruence. }
  destruct Hstep as (might1 & does1 & consume1 & -> & Hm1 & Hd1 & Hm2 & Hd2 & Hc1).
  specialize (IH might1 does1 consume1 Hm1 Hd1).
  destruct (scan_test fold c (length p) kws (map (status_of p) (folded kws)) might1 does1 consume1) as [s consume2].
  destruct IH as (Hst & Hm3 & Hd3 & Hc3). cbn [sc_status sc_might sc_does map]. rewrite !count_cons.
  split; [by rewrite Hst|]. split; [lia|]. split; [lia|]. rewrite Hc3, Hc1. set_solver.
Qed.
Lemma tested_cases p c kw :
  tested p c kw = status_of (p ++ [c]) kw ∨ kw = p ∧ tested p c kw = does_match ∧ status_of (p ++ [c]) kw = doesnt_match.
Proof.
  unfold tested. destruct (status_of p kw) eqn:Hs.
  - left. destruct (status_of (p ++ [c]) kw) eqn:Hs2; [done|..].
    + apply status_might in Hs2 as [Hp _]. apply prefix_snoc_inv, status_might in Hp. congruence.
    + apply status_does in Hs2 as ->. assert (Hp : (p ++ [c]) `prefix_of` (p ++ [c])) by done.
      apply prefix_snoc_inv, status_might in Hp. congruence.
  - by left.
  - right. apply status_does in Hs as ->. split; [done|]. split; [done|]. unfold status_of.
    assert (Hno : ¬ (p ++ [c]) `prefix_of` p) by (intros Hp; by apply prefix_snoc_inv in Hp as [_ ?]).
    rewrite decide_False by (intros He; apply Hno; by rewrite <- He). by rewrite decide_False.
Qed.

Lemma scan_unmark_scanned p c kws does :
  (count_status does_match (map (tested p c) (folded kws)) ≤ does)%nat →
  let '(sts, does') := scan_unmark (length p) kws (map (tested p c) (folded kws)) does in
  sts = map (status_of (p ++ [c])) (folded kws)
  ∧ (does' + count_status does_match (map (tested p c) (folded kws))
     = does + count_status does_match (map (status_of (p ++ [c])) (folded kws)))%nat.
Proof.
  revert does. induction kws as [|kw kws IH]; intros does Hd; cbn [folded map scan_unmark]; [by split|].
  fold (folded kws) in *. cbn [folded map] in Hd. fold (folded kws) in Hd. rewrite count_cons in Hd.
  assert (Hlen : length kw = length (map fold kw)) by by rewrite length_map.
  destruct (tested_cases p c (map fold kw)) as [Ht|(Hkw & Ht & Ht2)].
  - replace (bool_decide (tested p c (map fold kw) = does_match) && negb (bool_decide (length kw = S (length p)))) with false.
    2: { case_bool_decide as Hdoes; [|done]. rewrite Ht in Hdoes. apply status_does in Hdoes. rewrite Hlen, Hdoes.
         rewrite bool_decide_eq_true_2; [done|]. rewrite length_app. cbn. lia. }
    specialize (IH does ltac:(lia)). destruct (scan_unmark (length p) kws _ does) as [sts does'].
    destruct IH as [-> IH]. rewrite !count_cons, Ht. split; [done|lia].
  - rewrite Ht, bool_decide_eq_true_2 by done. rewrite bool_decide_eq_false_2 by (rewrite Hlen, Hkw; lia). cbn [andb negb].
    rewrite Ht in Hd. rewrite decide_True in Hd by done.
    specialize (IH (pred does) ltac:(lia)). destruct (scan_unmark (length p) kws _ (pred does)) as [sts does'].
    destruct IH as [-> IH]. rewrite !count_cons, Ht2. rewrite (decide_True (P := does_match = does_match)) by done.
    rewrite (decide_False (P := does_match = doesnt_match)) by done. split; [done|lia].
Qed.

(** Two different keywords that are not out yet are counted twice. *)
Lemma count_two (f : list Z → kstatus) l x y :
  x ∈ l → y ∈ l → x ≠ y → f x ≠ doesnt_match → f y ≠ doesnt_match →
  (2 ≤ count_status might_match (map f l) + count_status does_match (map f l))%nat.
Proof.
  assert (Hone : ∀ k z, z ∈ k → f z ≠ doesnt_match →
    (1 ≤ count_status might_match (map f k) + count_status does_match (map f k))%nat).
  { induction k as [|a k IH]; intros z Hz Hf; [by apply elem_of_nil in Hz|]. cbn [map]. rewrite !count_cons.
    apply elem_of_cons in Hz as [->|Hz]; [destruct (f a); try done; repeat case_decide; try done; lia|].
    specialize (IH z Hz Hf). lia. }
  induction l as [|a l IH]; intros Hx Hy Hne Hfx Hfy; [by apply elem_of_nil in Hx|]. cbn [map]. rewrite !count_cons.
  apply elem_of_cons in Hx as [->|Hx]; apply elem_of_cons in Hy as [->|Hy]; [done|..].
  - specialize (Hone l y Hy Hfy). destruct (f a); try done; repeat case_decide; try done; lia.
  - specialize (Hone l x Hx Hfx). destruct (f a); try done; repeat case_decide; try done; lia.
  - specialize (IH Hx Hy Hne Hfx Hfy). lia.
Qed.

Lemma count_zero st (f : list Z → kstatus) l : count_status st (map f l) = O → ∀ x, x ∈ l → f x ≠ st.
Proof.
  induction l as [|a l IH]; intros Hc x Hx; [by apply elem_of_nil in Hx|]. cbn [map] in Hc. rewrite count_cons in Hc.
  apply elem_of_cons in Hx as [->|Hx]; [case_decide; [lia|congruence]|]. apply IH; [lia|done].
Qed.

(** A character that a keyword goes on with leaves the state of what is read then. *)
Lemma scan_consumes kws p c s :
  scanned kws p s →
  let '(s1, consume) := scan_test fold c (length p) kws (sc_status s) (sc_might s) (sc_does s) false in
  (consume = true ↔ ∃ kw, kw ∈ folded kws ∧ (p ++ [c]) `prefix_of` kw)
  ∧ (if consume then
       let '(sts, does) :=
         if decide (1 < sc_might s1 + sc_does s1)%nat then scan_unmark (length p) kws (sc_status s1) (sc_does s1)
         else (sc_status s1, sc_does s1) in
       scanned kws (p ++ [c]) (Scan sts (sc_might s1) does)
     else sc_status s1 = map (tested p c) (folded kws) ∧ sc_might s1 = O).
Proof.
  intros (Hst & Hmight & Hdoes). rewrite Hst in *.
  pose proof (scan_test_scanned p c kws (sc_might s) (sc_does s) false ltac:(lia) ltac:(lia)) as Ht.
  destruct (scan_test fold c (length p) kws _ _ _ false) as [s1 consume]. destruct Ht as (Hst1 & Hm1 & Hd1 & Hc).
  split; [naive_solver|]. destruct consume.
  - destruct (proj1 Hc eq_refl) as [|(kw & Hkw & Hp)]; [done|].
    assert (Hall : ∀ k, k ∈ folded kws → count_status might_match [tested p c k] = count_status might_match [status_of (p ++ [c]) k]).
    { intros k _. destruct (tested_cases p c k) as [->|(_ & -> & ->)]; done. }
    assert (Hmap : count_status might_match (map (tested p c) (folded kws))
                   = count_status might_match (map (status_of (p ++ [c])) (folded kws))).
    { clear -Hall. induction (folded kws) as [|k l IH]; [done|]. cbn [map]. rewrite !count_cons, IH by set_solver.
      specialize (Hall k ltac:(apply list_elem_of_here)). rewrite !count_cons in Hall. lia. }
    destruct (decide (1 < sc_might s1 + sc_does s1)%nat) as [Hsum|Hsum].
    + rewrite Hst1. pose proof (scan_unmark_scanned p c kws (sc_does s1) ltac:(lia)) as Hu.
      destruct (scan_unmark (length p) kws _ (sc_does s1)) as [sts does]. destruct Hu as [-> Hu].
      split; [done|]. cbn [sc_status sc_might sc_does]. lia.
    + assert (Hsame : map (tested p c) (folded kws) = map (status_of (p ++ [c])) (folded kws)).
      { apply map_ext_in. intros k Hk%list_elem_of_In. destruct (tested_cases p c k) as [|(-> & Ht & _)]; [done|].
        exfalso. apply Hsum. pose proof (count_two (tested p c) (folded kws) p kw Hk Hkw) as H2.
        enough (2 ≤ sc_might s1 + sc_does s1)%nat by lia.
        etransitivity; [apply H2|lia].
        - intros ->. by apply prefix_snoc_inv in Hp as [_ ?].
        - by rewrite Ht.
        - pose proof Hp as Hm. apply prefix_snoc_inv, status_might in Hm. unfold tested. rewrite Hm. unfold status_of.
          destruct (decide (kw = p ++ [c])); [done|]. by rewrite decide_True. }
      rewrite Hst1, Hsame. split; [done|]. cbn [sc_status sc_might sc_does]. rewrite <- Hsame. lia.
  - assert (Hno : ∀ k, k ∈ folded kws → ¬ (p ++ [c]) `prefix_of` k) by (intros k Hk Hp; destruct Hc as [_ Hc]; discriminate Hc; eauto).
    split; [done|]. enough (count_status might_match (map (tested p c) (folded kws)) = O) by lia.
    clear -Hno. induction (folded kws) as [|k l IH]; [done|]. cbn [map]. rewrite count_cons, IH by (intros x Hx; apply Hno; by right).
    rewrite decide_False; [done|]. intros Hm. apply (Hno k ltac:(apply list_elem_of_here)).
    destruct (tested_cases p c k) as [Ht|(_ & Ht & _)]; [|congruence].
    rewrite Ht in Hm. symmetry in Hm. by apply status_might in Hm as [? _].
Qed.

(** The statuses that count in the end. *)
Definition settled (kws : list (list Z)) (p : list Z) (s : scan) : Prop :=
  ∃ f, sc_status s = map f (folded kws) ∧ ∀ k, k ∈ folded kws → f k = does_match ↔ k = p.

Lemma tested_settled kws p c :
  (∀ k, k ∈ folded kws → ¬ (p ++ [c]) `prefix_of` k) → ∀ k, k ∈ folded kws → tested p c k = does_match ↔ k = p.
Proof.
  intros Hno k Hk. unfold tested. destruct (status_of p k) eqn:Hs.
  - split; [done|]. intros ->. by rewrite (proj2 (status_does p p) eq_refl) in Hs.
  - rewrite status_does. split; [intros ->; by destruct (Hno _ Hk)|]. intros ->.
    by rewrite (proj2 (status_does p p) eq_refl) in Hs.
  - by rewrite <- status_does, Hs.
Qed.

(** The loop consumes the longest start of the input that starts a keyword. *)
Lemma scan_loop_scanned fuel kws p b s :
  scanned kws p s → (length b + 2 ≤ fuel)%nat →
  ∃ n s', scan_loop fuel fold kws (length p) b s = Some (drop n b, s') ∧ (n ≤ length b)%nat
    ∧ settled kws (p ++ map fold (take n b)) s'
    ∧ (n ≠ O → ∃ kw, kw ∈ folded kws ∧ (p ++ map fold (take n b)) `prefix_of` kw)
    ∧ ((n < length b)%nat → ∀ kw, kw ∈ folded kws → ¬ (p ++ map fold (take (S n) b)) `prefix_of` kw).
Proof.
  revert p b s. induction fuel as [|fuel IH]; intros p b s Hs Hf; [lia|]. cbn [scan_loop].
  pose proof Hs as (Hst & Hmight & _).
  assert (Hsettled : settled kws p s) by (exists (status_of p); split; [done|intros; apply status_does]).
  destruct b as [|c b]; [exists O, s; cbn; rewrite app_nil_r; by repeat split; try lia|].
  destruct (decide (sc_might s = O)) as [Hz|Hz].
  { exists O, s. cbn [take drop map]. rewrite app_nil_r. split; [done|]. split; [lia|]. split; [done|]. split; [done|].
    intros _ kw Hkw Hp. apply prefix_snoc_inv, status_might in Hp. rewrite Hmight, Hst in Hz.
    by apply (count_zero _ _ _ Hz kw). }
  pose proof (scan_consumes kws p (fold c) s Hs) as Hc.
  destruct (scan_test fold (fold c) (length p) kws _ _ _ false) as [s1 consume]. destruct Hc as [Hex Hc].
  destruct consume.
  - destruct (if decide _ then scan_unmark _ _ _ _ else _) as [sts does].
    destruct (IH (p ++ [fold c]) b _ Hc) as (n & s' & Hl & Hn & Hset & Hpre & Hmax); [cbn in Hf; lia|].
    replace (length (p ++ [fold c])) with (S (length p)) in Hl by (rewrite length_app; cbn; lia).
    exists (S n), s'. rewrite Hl. cbn [take drop map length]. rewrite <- app_assoc in Hset, Hpre. cbn [app] in *.
    split; [done|]. split; [lia|]. split; [done|]. split.
    + intros _. destruct n as [|n]; [|by apply Hpre]. cbn. by apply Hex.
    + intros Hlt. specialize (Hmax ltac:(lia)). by setoid_rewrite <- app_assoc in Hmax.
  - destruct Hc as [Hst1 Hz1].
    assert (Hno : ∀ k, k ∈ folded kws → ¬ (p ++ [fold c]) `prefix_of` k).
    { intros k Hk Hp. assert (false = true) as [=]. apply Hex. by exists k. }
    exists O, s1. cbn [take drop map]. rewrite app_nil_r. split.
    { destruct fuel as [|fuel]; [cbn in Hf; lia|]. cbn [scan_loop]. by rewrite decide_True. }
    split; [lia|]. split; [|by split]. exists (tested p (fold c)). split; [done|]. by apply tested_settled.
Qed.
End scanning.

(** The first keyword that is the text [p], or their number. *)
Fixpoint first_is (kws : list (list Z)) (p : list Z) : nat :=
  match kws with [] => O | kw :: kws' => if decide (kw = p) then O else S (first_is kws' p) end.

Lemma first_does_is f kws p : (∀ k, k ∈ kws → f k = does_match ↔ k = p) → first_does (map f kws) = first_is kws p.
Proof.
  induction kws as [|kw kws IH]; intros Hf; [done|]. cbn. specialize (IH ltac:(set_solver)). specialize (Hf kw ltac:(apply list_elem_of_here)).
  destruct (decide (kw = p)); [by rewrite decide_True by by apply Hf|]. rewrite decide_False by by rewrite Hf. by rewrite IH.
Qed.

(** [n] is how much of [b] starts a keyword. *)
Definition consumed (fold : Z → Z) (kws : list (list Z)) (b : list Z) (n : nat) : Prop :=
  (n ≤ length b)%nat
  ∧ (n ≠ O → ∃ kw, kw ∈ folded fold kws ∧ map fold (take n b) `prefix_of` kw)
  ∧ ((n < length b)%nat → ∀ kw, kw ∈ folded fold kws → ¬ map fold (take (S n) b) `prefix_of` kw).

Lemma consumed_le fold kws b n m : consumed fold kws b n → consumed fold kws b m → (n ≤ m)%nat.
Proof.
  intros (Hn & Hkw & _) (_ & _ & Hmax). destruct (decide (n ≤ m)%nat) as [|Hlt]; [done|].
  destruct Hkw as (kw & Hin & Hp); [lia|]. destruct (Hmax ltac:(lia) kw Hin). etransitivity; [|exact Hp].
  exists (map fold (drop (S m) (take n b))). rewrite <- map_app. f_equal.
  rewrite <- (take_drop (S m) (take n b)) at 1. by rewrite take_take, Nat.min_l by lia.
Qed.

Lemma consumed_unique fold kws b n m : consumed fold kws b n → consumed fold kws b m → n = m.
Proof. intros H1 H2. pose proof (consumed_le _ _ _ _ _ H1 H2). pose proof (consumed_le _ _ _ _ _ H2 H1). lia. Qed.

Definition keyword_fold (ct : tctype) (case_sensitive : bool) (c : Z) : Z := if case_sensitive then c else tc_toupper ct c.

Definition scan_state (kws : list (list Z)) (err : Z) (rest : list Z) (i : nat) : Z :=
  let err1 := match rest with [] => Z.lor err eofbit | _ => err end in
  if decide (i = length kws) then Z.lor err1 failbit else err1.

Lemma scan_keyword_consumed fuel ct kws case_sensitive err b :
  let fold := keyword_fold ct case_sensitive in
  (length b + 2 ≤ fuel)%nat →
  ∃ n, consumed fold kws b n ∧
    let i := first_is (folded fold kws) (map fold (take n b)) in
    scan_keyword fuel ct kws case_sensitive err b = Some (i, drop n b, scan_state kws err (drop n b) i).
Proof.
  intros fold Hf. destruct (scan_loop_scanned fold fuel kws [] b _ (scan_start_scanned fold kws) Hf)
    as (n & s' & Hl & Hn & (f & Hst & Hfd) & Hpre & Hmax).
  cbn [length app] in *. exists n. split; [by split|]. cbn zeta. unfold scan_keyword. unfold fold, keyword_fold in *. cbv zeta beta in *. rewrite Hl, Hst.
  by rewrite (first_does_is f _ _ Hfd).
Qed.

(** ** The keyword at the front of a text *)

(** How much of [b] goes on from [p] to a start of a keyword. *)
Fixpoint reach (kws : list (list Z)) (p b : list Z) : nat :=
  match b with
  | [] => O
  | c :: b' => if existsb (λ kw, bool_decide ((p ++ [c]) `prefix_of` kw)) kws then S (reach kws (p ++ [c]) b') else O
  end.

Lemma existsb_prefix (p : list Z) kws : existsb (λ kw, bool_decide (p `prefix_of` kw)) kws = true ↔ ∃ kw, kw ∈ kws ∧ p `prefix_of` kw.
Proof.
  rewrite existsb_exists. split; intros (kw & Hkw & Hp); exists kw; [apply bool_decide_eq_true_1 in Hp|];
    split; try done; try by apply list_elem_of_In. by apply bool_decide_eq_true_2.
Qed.

Lemma reach_consumed_from fold kws p b :
  let n := reach (folded fold kws) p (map fold b) in
  (n ≤ length b)%nat
  ∧ (n ≠ O → ∃ kw, kw ∈ folded fold kws ∧ (p ++ map fold (take n b)) `prefix_of` kw)
  ∧ ((n < length b)%nat → ∀ kw, kw ∈ folded fold kws → ¬ (p ++ map fold (take (S n) b)) `prefix_of` kw).
Proof.
  cbn zeta. revert p. induction b as [|c b IH]; intros p; cbn [map reach]; [cbn; repeat split; try lia; done|].
  destruct (existsb _ _) eqn:He.
  - apply existsb_prefix in He. specialize (IH (p ++ [fold c])). rewrite <- !app_assoc in IH. cbn [app] in IH.
    destruct IH as (Hn & Hex & Hmax). cbn [length take map]. split; [lia|]. split; [|intros Hlt; apply Hmax; lia].
    intros _. destruct (reach _ _ _) as [|n]; [exact He|by apply Hex].
  - split; [lia|]. split; [done|]. intros _ kw Hkw Hp. apply not_true_iff_false in He. apply He, existsb_prefix. by exists kw.
Qed.

Lemma reach_consumed fold kws b : consumed fold kws b (reach (folded fold kws) [] (map fold b)).
Proof. exact (reach_consumed_from fold kws [] b). Qed.

(** The keyword that starts the text, with its index, and what follows it. *)
Definition keyword_read (fold : Z → Z) (kws : list (list Z)) (b : list Z) : nat * list Z :=
  let n := reach (folded fold kws) [] (map fold b) in (first_is (folded fold kws) (map fold (take n b)), drop n b).

Lemma scan_keyword_read fuel ct kws case_sensitive err b :
  (length b + 2 ≤ fuel)%nat →
  scan_keyword fuel ct kws case_sensitive err b =
    let '(i, rest) := keyword_read (keyword_fold ct case_sensitive) kws b in Some (i, rest, scan_state kws err rest i).
Proof.
  intros Hf. destruct (scan_keyword_consumed fuel ct kws case_sensitive err b Hf) as (n & Hn & ->).
  by rewrite (consumed_unique _ _ _ _ _ Hn (reach_consumed _ _ _)).
Qed.

Lemma first_is_le kws p : (first_is kws p ≤ length kws)%nat.
Proof. induction kws as [|kw kws IH]; [done|]. cbn. destruct (decide _); lia. Qed.

Lemma first_is_lookup kws p : (first_is kws p < length kws)%nat → kws !! first_is kws p = Some p.
Proof. induction kws as [|kw kws IH]; cbn; [lia|]. destruct (decide _) as [->|]; [done|]. intros ?. apply IH. lia. Qed.

Lemma first_is_before kws p j : (j < first_is kws p)%nat → kws !! j ≠ Some p.
Proof.
  revert j. induction kws as [|kw kws IH]; intros j; cbn; [lia|]. destruct (decide _) as [|Hne]; [lia|].
  destruct j as [|j]; cbn; [congruence|]. intros ?. apply IH. lia.
Qed.

Lemma first_is_lt kws p : p ∈ kws ↔ (first_is kws p < length kws)%nat.
Proof.
  split; [|intros Hl; by eapply list_elem_of_lookup_2, first_is_lookup].
  induction kws as [|kw kws IH]; cbn; intros Hp; [by apply elem_of_nil in Hp|]. destruct (decide (kw = p)); [lia|].
  apply elem_of_cons in Hp as [->|Hp]; [done|]. specialize (IH Hp). lia.
Qed.

(** The scan takes the longest prefix of the input that starts a keyword, and gives the
    first keyword that is this prefix, both folded. *)
Theorem scan_keyword_longest fuel ct kws case_sensitive err b :
  let fold := keyword_fold ct case_sensitive in
  (length b + 2 ≤ fuel)%nat →
  ∃ n i err', scan_keyword fuel ct kws case_sensitive err b = Some (i, drop n b, err') ∧ consumed fold kws b n
    ∧ ((i < length kws)%nat ↔ map fold (take n b) ∈ folded fold kws)
    ∧ ((i < length kws)%nat → map fold <$> kws !! i = Some (map fold (take n b)))
    ∧ (∀ j, (j < i)%nat → map fold <$> kws !! j ≠ Some (map fold (take n b)))
    ∧ Z.testbit err' 1 = Z.testbit err 1 || bool_decide (n = length b)
    ∧ Z.testbit err' 2 = Z.testbit err 2 || bool_decide (i = length kws).
Proof.
  intros fold Hf. pose proof (reach_consumed fold kws b) as Hc. rewrite scan_keyword_read by done. unfold keyword_read.
  fold fold. set (n := reach _ _ _) in *. set (i := first_is _ _).
  assert (Hlen : length (folded fold kws) = length kws) by apply length_map.
  assert (Hlook : ∀ j, map fold <$> kws !! j = folded fold kws !! j) by (intros; by rewrite <- list_lookup_fmap).
  exists n, i, (scan_state kws err (drop n b) i). split; [done|]. split; [done|]. rewrite <- Hlen at 1 2.
  split; [by rewrite first_is_lt|]. split; [intros Hi; rewrite Hlook; by apply first_is_lookup|].
  split; [intros j Hj; rewrite Hlook; by apply first_is_before|].
  assert (Hnil : drop n b = [] ↔ n = length b).
  { destruct Hc as [Hn _]. rewrite <- length_zero_iff_nil, length_drop. lia. }
  unfold scan_state. destruct (drop n b) as [|y l]; [rewrite (bool_decide_eq_true_2 (n = _)) by by apply Hnil
    |rewrite (bool_decide_eq_false_2 (n = _)) by (by intros [=]%Hnil)]; destruct (decide (i = length kws));
    [rewrite bool_decide_eq_true_2 by done|rewrite bool_decide_eq_false_2 by done
    |rewrite bool_decide_eq_true_2 by done|rewrite bool_decide_eq_false_2 by done];
    rewrite ?Z.lor_spec; destruct (Z.testbit err 1), (Z.testbit err 2); done.
Qed.

(** ** What [__analyze] gives *)

(** The names come in their numbers. *)
Definition names_complete (nm : names) : Prop := length (weeks nm) = 14%nat ∧ length (months nm) = 24%nat ∧ length (am_pm nm) = 2%nat.

(** No name is empty, but perhaps both of [am_pm]. *)
Definition names_nonempty (nm : names) : Prop :=
  [] ∉ weeks nm ∧ [] ∉ months nm ∧ (sum_list (map length (am_pm nm)) ≠ O → [] ∉ am_pm nm).

Lemma keyword_read_shorter fold kws b :
  [] ∉ kws → (fst (keyword_read fold kws b) < length kws)%nat → (length (snd (keyword_read fold kws b)) < length b)%nat.
Proof.
  unfold keyword_read. cbn [fst snd]. destruct (reach_consumed fold kws b) as [Hn _]. set (n := reach _ _ _) in *.
  intros Hno Hi. rewrite <- (length_map (map fold) kws) in Hi. apply first_is_lt in Hi. rewrite length_drop.
  enough (n ≠ O) by lia. intros Hz. rewrite Hz in Hi. cbn in Hi. apply list_elem_of_In, in_map_iff in Hi as (kw & Hkw & Hin).
  destruct kw; [|done]. by apply Hno, list_elem_of_In.
Qed.

Lemma skip_spaces_shorter ct b : (length (skip_spaces ct b) ≤ length b)%nat.
Proof. induction b as [|c b IH]; [done|]. cbn. destruct (tc_space ct c); cbn; lia. Qed.

Lemma more_digits_shorter ct n r b : (length (snd (more_digits ct n r b)) ≤ length b)%nat.
Proof.
  revert r b. induction n as [|n IH]; intros r [|c b]; cbn; try lia. destruct (tc_digit ct c); cbn; [|lia].
  specialize (IH (r * 10 + tc_narrow ct c - 48) b). lia.
Qed.

Lemma digits_shorter ct n err c b :
  tc_digit ct c = true → (length (snd (fst (get_up_to_n_digits ct n err (c :: b)))) ≤ length b)%nat.
Proof.
  intros Hd. unfold get_up_to_n_digits. rewrite Hd. pose proof (more_digits_shorter ct (pred n) (tc_narrow ct c - 48) b) as Hl.
  by destruct (more_digits _ _ _ _).
Qed.

(** A round without its fuel. *)
Definition analyze_plain (ct : tctype) (is_percent : Z → bool) (c : Z) (r : list Z) : list Z * list Z :=
  if tc_digit ct c then
    let '(v, rest, _) := get_up_to_n_digits ct 4 goodbit (c :: r) in
    (match number_spec v with Some s => spec s | None => take (S (length r) - length rest) (c :: r) end, rest)
  else if is_percent c then ([PERCENT; PERCENT], r) else ([c], r).

Definition analyze_reads (ct : tctype) (is_percent : Z → bool) (nm : names) (fmt : ascii) (c : Z) (r : list Z) : list Z * list Z :=
  let read kws := keyword_read (tc_toupper ct) kws (c :: r) in
  if tc_space ct c then ([32], skip_spaces ct r)
  else
    let '(i, w) := read (weeks nm) in
    if decide (i < 14)%nat then (if decide (i < 7)%nat then spec "A" else spec "a", w)
    else
      let '(j, m) := read (months nm) in
      if decide (j < 24)%nat then
        (if bool_decide (fmt = "x"%char) && tc_digit ct (default 0 (default [] (months nm !! j) !! O)) then spec "m"
         else if decide (j < 12)%nat then spec "B" else spec "b", m)
      else if decide (0 < sum_list (map length (am_pm nm)))%nat then
        let '(k, p) := read (am_pm nm) in
        if decide (k < 2)%nat then (spec "p", p) else analyze_plain ct is_percent c r
      else analyze_plain ct is_percent c r.

Lemma analyze_round_reads ct is_percent nm fmt c r :
  analyze_round ct is_percent nm fmt c r = Some (analyze_reads ct is_percent nm fmt c r).
Proof.
  unfold analyze_round, analyze_reads, analyze_plain. cbv zeta. rewrite !(scan_keyword_read (S (S (length (c :: r))))) by (cbn; lia).
  cbv zeta. change (keyword_fold ct false) with (tc_toupper ct).
  destruct (tc_space ct c); [done|]. destruct (keyword_read _ (weeks nm) _) as [i w]. destruct (decide (i < 14)%nat); [done|].
  destruct (keyword_read _ (months nm) _) as [j m]. destruct (decide (j < 24)%nat); [done|].
  assert (Hplain : (if tc_digit ct c then
      let '(v, rest, _) := get_up_to_n_digits ct 4 goodbit (c :: r) in
      match number_spec v with
      | Some s => Some (spec s, rest)
      | None => Some (take (length (c :: r) - length rest) (c :: r), rest)
      end
    else if is_percent c then Some ([PERCENT; PERCENT], r) else Some ([c], r))
    = Some (analyze_plain ct is_percent c r)).
  { unfold analyze_plain. destruct (tc_digit ct c); [|by destruct (is_percent c)].
    destruct (get_up_to_n_digits _ _ _ _) as [[v rest] err]. by destruct (number_spec v). }
  destruct (decide _); [|exact Hplain]. destruct (keyword_read _ (am_pm nm) _) as [k p]. destruct (decide (k < 2)%nat); [done|exact Hplain].
Qed.

Lemma analyze_plain_shorter ct is_percent c r : (length (snd (analyze_plain ct is_percent c r)) ≤ length r)%nat.
Proof.
  unfold analyze_plain. destruct (tc_digit ct c) eqn:Hd; [|by destruct (is_percent c)].
  pose proof (digits_shorter ct 4 goodbit c r Hd). by destruct (get_up_to_n_digits _ _ _ _) as [[v rest] err].
Qed.

(** Every round takes a character at least. *)
Lemma analyze_reads_shorter ct is_percent nm fmt c r :
  names_complete nm → names_nonempty nm → (length (snd (analyze_reads ct is_percent nm fmt c r)) ≤ length r)%nat.
Proof.
  intros (Hw & Hm & Hp) (Hnw & Hnm & Hnp). unfold analyze_reads.
  pose proof (keyword_read_shorter (tc_toupper ct) (weeks nm) (c :: r) Hnw) as Hsw.
  pose proof (keyword_read_shorter (tc_toupper ct) (months nm) (c :: r) Hnm) as Hsm.
  pose proof (keyword_read_shorter (tc_toupper ct) (am_pm nm) (c :: r)) as Hsp.
  pose proof (analyze_plain_shorter ct is_percent c r) as Hpl.
  destruct (tc_space ct c); [apply skip_spaces_shorter|].
  destruct (keyword_read _ (weeks nm) _) as [i w]; destruct (keyword_read _ (months nm) _) as [j m];
    destruct (keyword_read _ (am_pm nm) _) as [k p]. cbn [fst snd length] in *.
  destruct (decide (i < 14)%nat); [cbn; lia|]. destruct (decide (j < 24)%nat); [cbn; lia|].
  destruct (decide (0 < _)%nat); [|done]. destruct (decide (k < 2)%nat); [|done].
  specialize (Hsp (Hnp ltac:(lia)) ltac:(lia)). cbn. lia.
Qed.

Lemma analyze_loop_cons fuel ct is_percent nm fmt c r :
  analyze_loop (S fuel) ct is_percent nm fmt (c :: r) =
    let '(out, rest) := analyze_reads ct is_percent nm fmt c r in (λ result, out ++ result) <$> analyze_loop fuel ct is_percent nm fmt rest.
Proof. cbn [analyze_loop]. rewrite analyze_round_reads. by destruct (analyze_reads _ _ _ _ _ _). Qed.

(** The analysis of a locale whose names are not empty ends. *)
Theorem analyze_terminates fuel ct is_percent nm fmt bb :
  names_complete nm → names_nonempty nm → (length bb < fuel)%nat → is_Some (analyze_loop fuel ct is_percent nm fmt bb).
Proof.
  intros Hc Hn. revert bb. induction fuel as [|fuel IH]; intros bb Hf; [lia|]. destruct bb as [|c r]; [by eexists|].
  rewrite analyze_loop_cons. pose proof (analyze_reads_shorter ct is_percent nm fmt c r Hc Hn) as Hs.
  destruct (analyze_reads _ _ _ _ _ _) as [out rest]. cbn in Hs, Hf. destruct (IH rest ltac:(lia)) as [result ->]. by eexists.
Qed.

Lemma reach_zero fold kws c r :
  (∀ kw, kw ∈ folded fold kws → head kw ≠ Some (fold c)) → reach (folded fold kws) [] (map fold (c :: r)) = O.
Proof.
  intros Hno. cbn [map reach app]. destruct (existsb _ _) eqn:He; [|done]. apply existsb_prefix in He as (kw & Hkw & Hp).
  destruct (Hno kw Hkw). by destruct Hp as [k ->].
Qed.

(** A locale with a day of the week that has no name: the analysis stays at a character
    that starts no name of a day. *)
Theorem analyze_empty_name_loops fuel ct is_percent nm fmt c r :
  [] ∈ take 14 (weeks nm) → tc_space ct c = false →
  (∀ kw, kw ∈ folded (tc_toupper ct) (weeks nm) → head kw ≠ Some (tc_toupper ct c)) →
  analyze_loop fuel ct is_percent nm fmt (c :: r) = None.
Proof.
  intros Hin Hsp Hno. induction fuel as [|fuel IH]; [done|]. rewrite analyze_loop_cons. unfold analyze_reads. cbv zeta.
  rewrite Hsp. unfold keyword_read at 1. rewrite reach_zero by done. cbn [take drop map].
  rewrite decide_True; [by rewrite IH|].
  enough (Hi : ∀ n kws, [] ∈ take n kws → (first_is (folded (tc_toupper ct) kws) [] < n)%nat) by by apply Hi.
  clear. unfold folded. induction n as [|n IH]; intros [|kw kws] Hin; cbn in *; try by apply elem_of_nil in Hin.
  destruct (decide _) as [|Hne]; [lia|]. apply elem_of_cons in Hin as [<-|Hin]; [done|]. specialize (IH kws Hin). lia.
Qed.

(** ** What is printed by a format is read back *)

(** A format: the names of the day and of the month, in full or short, AM or PM, the
    number of a conversion, white space, digits and other characters that stand for
    themselves. *)
Inductive token :=
  | Day (full : bool) | Month (full : bool) | Ampm | Num (s : ascii) (v : Z) | Space (ws : list Z) | Digits (ds : list Z)
  | Lit (z : Z).

(** The conversions and their numbers: those that print a number of the known time, and
    ["%u"] and ["%j"] for the numbers that the analysis looks for, which are not what
    these print of it. *)
Definition known_numbers : list (ascii * Z) :=
  [("w"%char, tm_wday known_time); ("I"%char, tm_hour known_time - 12); ("m"%char, tm_mon known_time + 1);
   ("H"%char, tm_hour known_time); ("d"%char, tm_mday known_time); ("M"%char, tm_min known_time);
   ("S"%char, tm_sec known_time); ("y"%char, tm_year known_time mod 100); ("Y"%char, tm_year known_time + 1900);
   ("u"%char, tm_wday known_time + 1); ("j"%char, tm_yday known_time)].

Definition decimal (ds : list Z) : Z := foldl (λ a d, a * 10 + d - 48) 0 ds.

Section printing.
Context (ct : tctype) (is_percent : Z → bool) (nm : names) (fmt : ascii).

(** The digits are what they are in the "C" locale. *)
Definition plain_digits : Prop := ∀ d, 48 ≤ d ≤ 57 → tc_digit ct d = true ∧ tc_narrow ct d = d ∧ tc_space ct d = false.

Definition token_format (t : token) : list Z :=
  match t with
  | Day full => spec (if full then "A" else "a") | Month full => spec (if full then "B" else "b") | Ampm => spec "p"
  | Num s _ => spec s | Space _ => [32] | Digits ds => ds
  | Lit z => if is_percent z then [PERCENT; PERCENT] else [z]
  end.

Definition name_at (kws : list (list Z)) (i : nat) : list Z := default [] (kws !! i).

(** What it prints of the known time. *)
Definition token_text (t : token) : list Z :=
  match t with
  | Day full => name_at (weeks nm) (if full then 6 else 13)%nat | Month full => name_at (months nm) (if full then 11 else 23)%nat
  | Ampm => name_at (am_pm nm) 1 | Num _ v => print_base false 10 v | Space ws => ws | Digits ds => ds | Lit z => [z]
  end.

Definition starts (ok : Z → bool) (b : list Z) : bool := match b with c :: _ => ok c | [] => false end.

Definition reads (kws : list (list Z)) (b : list Z) : nat * list Z := keyword_read (tc_toupper ct) kws b.
Definition no_day (b : list Z) : bool := (14 <=? fst (reads (weeks nm) b))%nat.
Definition no_month (b : list Z) : bool := (24 <=? fst (reads (months nm) b))%nat.
Definition no_am_pm (b : list Z) : bool :=
  (sum_list (map length (am_pm nm)) =? 0)%nat || (2 <=? fst (reads (am_pm nm) b))%nat.
Definition reads_as (kws : list (list Z)) (b : list Z) (i : nat) (rest : list Z) : bool := bool_decide (reads kws b = (i, rest)).

(** The text of a conversion, in front of [rest], can be taken for nothing else. *)
Definition token_clear (t : token) (rest : list Z) : bool :=
  let b := token_text t ++ rest in
  match t with
  | Day full => starts (λ c, negb (tc_space ct c)) b && reads_as (weeks nm) b (if full then 6 else 13)%nat rest
  | Month full =>
      let i := (if full then 11 else 23)%nat in
      starts (λ c, negb (tc_space ct c)) b && no_day b && reads_as (months nm) b i rest
      && negb (bool_decide (fmt = "x"%char) && tc_digit ct (default 0 (name_at (months nm) i !! O)))
  | Ampm =>
      starts (λ c, negb (tc_space ct c)) b && no_day b && no_month b && (0 <? sum_list (map length (am_pm nm)))%nat
      && reads_as (am_pm nm) b 1 rest
  | Num s v =>
      bool_decide ((s, v) ∈ known_numbers) && no_day b && no_month b && no_am_pm b
      && ((length (token_text t) =? 4)%nat || negb (starts (tc_digit ct) rest))
  | Space ws => starts (tc_space ct) ws && forallb (tc_space ct) ws && negb (starts (tc_space ct) rest)
  | Digits ds =>
      starts (λ _, true) ds && forallb (λ d, (48 <=? d) && (d <=? 57)) ds && (length ds <=? 4)%nat
      && bool_decide (decimal ds ∉ map snd known_numbers) && no_day b && no_month b && no_am_pm b
      && ((length ds =? 4)%nat || negb (starts (tc_digit ct) rest))
  | Lit z => negb (tc_space ct z) && negb (tc_digit ct z) && no_day b && no_month b && no_am_pm b
  end.

Definition format_of (ts : list token) : list Z := concat (map token_format ts).
Definition text_of (ts : list token) : list Z := concat (map token_text ts).

Fixpoint clear (ts : list token) : bool :=
  match ts with [] => true | t :: ts' => token_clear t (text_of ts') && clear ts' end.

Lemma skip_all_spaces ws b : forallb (tc_space ct) ws = true → starts (tc_space ct) b = false → skip_spaces ct (ws ++ b) = b.
Proof.
  intros Hws Hb. induction ws as [|c ws IH]; cbn in *.
  - destruct b as [|c b]; [done|]. cbn in *. by rewrite Hb.
  - apply andb_true_iff in Hws as [-> Hws]. by apply IH.
Qed.

Lemma more_digits_read n r ds rest :
  plain_digits → Forall (λ d, 48 ≤ d ≤ 57) ds → (length ds ≤ n)%nat → length ds = n ∨ starts (tc_digit ct) rest = false →
  more_digits ct n r (ds ++ rest) = (foldl (λ a d, a * 10 + d - 48) r ds, rest).
Proof.
  intros Hpd. revert r ds. induction n as [|n IH]; intros r ds Hds Hl Hr.
  { destruct ds; [done|cbn in Hl; lia]. }
  destruct ds as [|d ds]; cbn [app foldl].
  - destruct Hr as [|Hr]; [done|]. destruct rest as [|c rest]; [done|]. cbn in *. by rewrite Hr.
  - apply Forall_cons in Hds as [Hd Hds]. destruct (Hpd d Hd) as (Hdig & Hnar & _). cbn [more_digits]. rewrite Hdig, Hnar.
    apply IH; [done|cbn in Hl; lia|]. destruct Hr as [Hr|Hr]; [left; cbn in Hr; lia|by right].
Qed.

Lemma get_digits_read err d ds rest :
  plain_digits → Forall (λ d, 48 ≤ d ≤ 57) (d :: ds) → (length ds ≤ 3)%nat → length ds = 3%nat ∨ starts (tc_digit ct) rest = false →
  fst (get_up_to_n_digits ct 4 err (d :: ds ++ rest)) = (foldl (λ a d, a * 10 + d - 48) (d - 48) ds, rest).
Proof.
  intros Hpd Hds Hl Hr. apply Forall_cons in Hds as [Hd Hds]. unfold get_up_to_n_digits. destruct (Hpd d Hd) as (-> & -> & _).
  cbn [pred]. by rewrite more_digits_read.
Qed.

(** A character that no name starts with. *)
Lemma analyze_reads_plain c r :
  tc_space ct c = false → no_day (c :: r) = true → no_month (c :: r) = true → no_am_pm (c :: r) = true →
  analyze_reads ct is_percent nm fmt c r = analyze_plain ct is_percent c r.
Proof.
  unfold no_day, no_month, no_am_pm, reads, analyze_reads. cbv zeta. intros -> Hd%Nat.leb_le Hm%Nat.leb_le Hp.
  destruct (keyword_read _ (weeks nm) _) as [i w]. cbn in Hd. rewrite decide_False by lia.
  destruct (keyword_read _ (months nm) _) as [j m]. cbn in Hm. rewrite decide_False by lia.
  destruct (decide _); [|done]. destruct (keyword_read _ (am_pm nm) _) as [k q]. cbn [fst] in Hp.
  apply orb_true_iff in Hp as [Hp%Nat.eqb_eq|Hp%Nat.leb_le]; [lia|]. by rewrite decide_False by lia.
Qed.

Lemma known_number_reads s v :
  (s, v) ∈ known_numbers →
  ∃ d ds, print_base false 10 v = d :: ds ∧ Forall (λ d, 48 ≤ d ≤ 57) (d :: ds) ∧ (length ds ≤ 3)%nat
    ∧ number_spec (decimal (d :: ds)) = Some s.
Proof.
  intros Hin. unfold known_numbers in Hin. repeat (apply elem_of_cons in Hin as [[= -> ->]|Hin]);
    [..|by apply elem_of_nil in Hin]; vm_compute print_base;
    (eexists _, _; split; [reflexivity|]; split; [repeat constructor; lia|]; split; [cbn; lia|reflexivity]).
Qed.

Lemma starts_cons ok b : starts ok b = true → ∃ c r, b = c :: r ∧ ok c = true.
Proof. destruct b as [|c r]; [done|]. by exists c, r. Qed.

Lemma number_spec_other v : v ∉ map snd known_numbers → number_spec v = None.
Proof.
  intros Hv. unfold number_spec.
  repeat match goal with |- context [?v =? ?k] => destruct (Z.eqb_spec v k) as [->|_]; [destruct Hv; by apply (bool_decide_unpack _)|] end.
  done.
Qed.

(** A text of digits is read whole. *)
Lemma digits_round d ds rest :
  plain_digits → Forall (λ d, 48 ≤ d ≤ 57) (d :: ds) → (length ds ≤ 3)%nat → length ds = 3%nat ∨ starts (tc_digit ct) rest = false →
  no_day ((d :: ds) ++ rest) = true → no_month ((d :: ds) ++ rest) = true → no_am_pm ((d :: ds) ++ rest) = true →
  analyze_reads ct is_percent nm fmt d (ds ++ rest)
  = (match number_spec (decimal (d :: ds)) with Some s => spec s | None => d :: ds end, rest).
Proof.
  intros Hpd Hds Hl Hlast Hd Hm Hp. pose proof Hds as [Hd1 _]%Forall_cons. destruct (Hpd d Hd1) as (Hdig & _ & Hsp).
  rewrite analyze_reads_plain by done. unfold analyze_plain. rewrite Hdig. pose proof (get_digits_read goodbit d ds rest Hpd Hds Hl Hlast) as Hget.
  destruct (get_up_to_n_digits _ _ _ _) as [[v' rest'] err]. cbn [fst] in Hget. injection Hget as -> ->.
  change (foldl _ (d - 48) ds) with (decimal (d :: ds)). destruct (number_spec _); [done|]. f_equal.
  rewrite length_app. replace (S (length ds + length rest) - length rest)%nat with (length (d :: ds)) by (cbn; lia).
  by apply (take_app_length (d :: ds)).
Qed.

(** The round at a text that is clear gives the conversion that printed it. *)
Lemma token_round t rest :
  plain_digits → token_clear t rest = true →
  ∃ c r, token_text t ++ rest = c :: r ∧ analyze_reads ct is_percent nm fmt c r = (token_format t, rest).
Proof.
  intros Hpd. destruct t as [full|full| |s v|ws|ds|z]; cbn [token_clear token_format]; rewrite ?andb_true_iff.
  - intros [(c & r & Hb & Hsp)%starts_cons Hr]. exists c, r. split; [done|]. rewrite Hb in Hr.
    apply bool_decide_eq_true_1 in Hr. unfold reads in Hr. unfold analyze_reads. cbv zeta. apply negb_true_iff in Hsp. rewrite Hsp, Hr.
    by destruct full.
  - intros [[[(c & r & Hb & Hsp)%starts_cons Hd] Hr] Hx]. exists c, r. split; [done|]. rewrite Hb in *.
    apply bool_decide_eq_true_1 in Hr. unfold no_day, reads in *. unfold analyze_reads. cbv zeta. apply negb_true_iff in Hsp. rewrite Hsp.
    apply Nat.leb_le in Hd. destruct (keyword_read _ (weeks nm) _) as [i w]. cbn [fst] in Hd. rewrite decide_False by lia. rewrite Hr.
    rewrite decide_True by (destruct full; lia). unfold name_at in Hx. apply negb_true_iff in Hx. rewrite Hx. by destruct full.
  - intros [[[[(c & r & Hb & Hsp)%starts_cons Hd] Hm] Hs] Hr]. exists c, r. split; [done|]. rewrite Hb in *.
    apply bool_decide_eq_true_1 in Hr. unfold no_day, no_month, reads in *. unfold analyze_reads. cbv zeta. apply negb_true_iff in Hsp.
    rewrite Hsp. apply Nat.leb_le in Hd, Hm. apply Nat.ltb_lt in Hs. destruct (keyword_read _ (weeks nm) _) as [i w].
    destruct (keyword_read _ (months nm) _) as [j m]. cbn [fst] in Hd, Hm. rewrite !decide_False by lia. by rewrite decide_True, Hr by done.
  - intros [[[[Hin%bool_decide_eq_true_1 Hd] Hm] Hp] Hend]. cbn [token_text] in *.
    destruct (known_number_reads s v Hin) as (d & ds & Htext & Hds & Hl & Hspec). rewrite Htext in *. exists d, (ds ++ rest).
    split; [done|]. rewrite digits_round; [by rewrite Hspec|done..| |done|done|done].
    apply orb_true_iff in Hend as [Hend%Nat.eqb_eq|Hend%negb_true_iff]; [left; cbn in Hend; lia|by right].
  - intros [[Hws Hall] Hr%negb_true_iff]. destruct ws as [|c ws]; [done|]. cbn [starts forallb token_text] in *.
    apply andb_true_iff in Hall as [_ Hall]. exists c, (ws ++ rest). split; [done|]. unfold analyze_reads. rewrite Hws. by rewrite skip_all_spaces.
  - intros [[[[[[[Hne Hds] Hl%Nat.leb_le] Hno%bool_decide_eq_true_1] Hd] Hm] Hp] Hend]. destruct ds as [|d ds]; [done|]. cbn [token_text] in *.
    exists d, (ds ++ rest). split; [done|]. rewrite digits_round; [by rewrite number_spec_other|done|..|done|done|done].
    + pose proof (proj1 (forallb_forall _ _) Hds) as Hall. apply Forall_forall. intros x Hx%list_elem_of_In. apply Hall in Hx. lia.
    + cbn in Hl. lia.
    + apply orb_true_iff in Hend as [Hend%Nat.eqb_eq|Hend%negb_true_iff]; [left; cbn in Hend; lia|by right].
  - cbn [token_text app]. intros [[[[Hsp%negb_true_iff Hd%negb_true_iff] Hda] Hm] Hp]. exists z, rest. split; [done|].
    rewrite analyze_reads_plain by done. unfold analyze_plain. rewrite Hd. by destruct (is_percent z).
Qed.

Lemma analyze_clear ts fuel :
  plain_digits → clear ts = true → (length ts < fuel)%nat →
  analyze_loop fuel ct is_percent nm fmt (text_of ts) = Some (format_of ts).
Proof.
  intros Hpd. revert fuel. induction ts as [|t ts IH]; intros [|fuel] Hc Hf; cbn in Hf; try lia; [done|].
  apply andb_true_iff in Hc as [Ht Hc]. destruct (token_round t (text_of ts) Hpd Ht) as (c & r & Hb & Hr).
  change (text_of (t :: ts)) with (token_text t ++ text_of ts). rewrite Hb, analyze_loop_cons, Hr, IH by (done || lia). done.
Qed.
End printing.

(** C26: From a text of less than 100 characters that the C library prints of the known time,
    the analysis makes a format, piece by piece: the names of the day and the month, and PM,
    become their conversions, a number of the table its own, a run of white space one
    blank, ["%"] two, and other digits, up to four, and other characters themselves.
    Each piece has to be clear: no name begins there that is looked for before it, and a
    number of less than four digits is not followed by a digit; the digits are those of
    ASCII, and a month that begins with a digit is not covered for ["%x"].  (So it is not
    always the format of the locale that is found: several blanks become one, and what
    ["%u"] and ["%j"] print, 6 and 365, is taken for ["%w"] and for itself, while 7 and
    364 would be taken for them.) *)
Theorem analyze_roundtrip strftime fuel ct nm fmt ts :
  plain_digits ct → strftime (spec fmt) known_time = text_of nm ts → zlen (text_of nm ts) < 100 →
  clear ct nm fmt ts = true → (length ts < fuel)%nat →
  analyze_char strftime fuel ct nm fmt = Some (format_of (λ c, c =? PERCENT) ts).
Proof.
  intros Hpd Hprint Hlen Hc Hf. unfold analyze_char, printed. rewrite Hprint. cbv zeta.
  rewrite (proj2 (Z.ltb_lt _ _) Hlen). by apply analyze_clear.
Qed.

(** The characters of the conversions of a format; NUL for a ["%"] at the end. *)
Fixpoint conversions (s : list Z) : list Z :=
  match s with
  | [] => []
  | c :: s' => if c =? PERCENT then match s' with [] => [0] | d :: s'' => d :: conversions s'' end else conversions s'
  end.

(** The order of the first three. *)
Definition order_of (cs : list Z) : dateorder :=
  let is_ (c : ascii) z := z =? code c in
  let year z := is_ "y"%char z || is_ "Y"%char z in
  match cs with
  | c1 :: c2 :: c3 :: _ =>
      if is_ "d"%char c1 && is_ "m"%char c2 && year c3 then dmy
      else if is_ "m"%char c1 && is_ "d"%char c2 && year c3 then mdy
      else if year c1 && is_ "m"%char c2 && is_ "d"%char c3 then ymd
      else if year c1 && is_ "d"%char c2 && is_ "m"%char c3 then ydm
      else no_order
  | _ => no_order
  end.

Lemma next_conversion_conversions s :
  match next_conversion s with
  | None => conversions s = [] ∧ PERCENT ∉ s
  | Some (c, t) => conversions s = c :: conversions t ∧ PERCENT ∈ s
  end.
Proof.
  unfold next_conversion. induction s as [|c s IH]; cbn [to_percent conversions]; [by split; [|intros ?%elem_of_nil]|].
  destruct (Z.eqb_spec c PERCENT) as [->|Hne]; [destruct s; cbn; split; (done || by left)|].
  destruct (to_percent s) as [|c' t]; [|destruct IH; split; [done|by right]].
  destruct IH as [? Hno]. split; [done|]. intros [Heq|?]%elem_of_cons; [by destruct Hne|by apply Hno].
Qed.

(** The order of a date is the order of its first three conversions, where it has one;
    where it has none the search reads past the end of the format. *)
Theorem do_date_order_first_three x :
  do_date_order x = if decide (PERCENT ∈ x) then Ret (order_of (conversions x)) else Undef BufferOverread.
Proof.
  unfold do_date_order. pose proof (next_conversion_conversions x) as H1. destruct (next_conversion x) as [[c1 t1]|].
  2: { by rewrite decide_False by apply H1. }
  destruct H1 as [-> Hin]. rewrite decide_True by done. f_equal. pose proof (next_conversion_conversions t1) as H2.
  destruct (next_conversion t1) as [[c2 t2]|]; [|by destruct H2 as [-> _]]. destruct H2 as [-> _].
  pose proof (next_conversion_conversions t2) as H3. unfold order_of, code. cbv zeta.
  destruct (next_conversion t2) as [[c3 t3]|]; destruct H3 as [-> _]; vm_compute byte_val;
    repeat match goal with |- context [?z =? ?k] => destruct (Z.eqb_spec z k) as [->|]; cbn end; done.
Qed.

(** The "C" locale: what is analysed there is what the classic storage has. *)
Section c_locale.
Definition c_ctype : tctype :=
  Tctype (λ c, (c =? 32) || (9 <=? c) && (c <=? 13)) (λ c, (48 <=? c) && (c <=? 57))
    (λ c, if (97 <=? c) && (c <=? 122) then c - 32 else c) (λ c, c).

Definition c_names : names := Names (map codes init_weeks) (map codes init_months) (map codes (take 2 init_am_pm)).

Definition c_strftime (f : list Z) (t : tm) : list Z := codes (str "Sat Dec 31 23:55:59 2061").

Definition c_tokens : list token :=
  [Day false; Space [32]; Month false; Space [32]; Num "d" 31; Space [32]; Num "H" 23; Lit 58; Num "M" 55; Lit 58; Num "S" 59;
   Space [32]; Num "Y" 2061].

Lemma c_ctype_digits : plain_digits c_ctype.
Proof.
  intros d Hd. assert (Hc : d ∈ seqZ 48 10) by (apply elem_of_seqZ; lia). clear Hd. cbn in Hc.
  repeat (apply elem_of_cons in Hc as [->|Hc]; [done|]). by apply elem_of_nil in Hc.
Qed.

Lemma analyze_roundtrip_witness : analyze_char c_strftime 100 c_ctype c_names "c" = Some (codes c_c).
Proof.
  assert (H : format_of (λ c, c =? PERCENT) c_tokens = codes c_c) by reflexivity. rewrite <- H.
  apply (analyze_roundtrip c_strftime 100 c_ctype c_names "c" c_tokens);
    [apply c_ctype_digits|reflexivity|reflexivity|vm_compute; reflexivity|cbn; lia].
Defined.

Lemma analyze_terminates_witness : is_Some (analyze_loop 25 c_ctype (λ c, c =? PERCENT) c_names "c" (codes (str "Sat Dec 31 23:55:59 2061"))).
Proof.
  apply (analyze_terminates 25 c_ctype (λ c, c =? PERCENT) c_names "c" (codes (str "Sat Dec 31 23:55:59 2061"))).
  - done.
  - split; [|split]; [..|intros _]; intros H%list_elem_of_In; vm_compute in H; repeat destruct H as [[=]|H]; done.
  - cbn. lia.
Defined.

Lemma analyze_empty_name_loops_witness :
  analyze_loop 100 c_ctype (λ c, c =? PERCENT) (Names [[]] [] []) "c" (codes (str "2061")) = None.
Proof.
  apply (analyze_empty_name_loops 100 c_ctype (λ c, c =? PERCENT) (Names [[]] [] []) "c" 50 (codes (str "061"))); [by left|done|].
  intros kw [->|Hno%elem_of_nil]%elem_of_cons; done.
Defined.

Lemma scan_keyword_longest_witness :
  ∃ n i err', scan_keyword 100 c_ctype (map codes init_months) false goodbit (codes (str "march 3")) = Some (i, drop n (codes (str "march 3")), err')
    ∧ consumed (keyword_fold c_ctype false) (map codes init_months) (codes (str "march 3")) n.
Proof.
  destruct (scan_keyword_longest 100 c_ctype (map codes init_months) false goodbit (codes (str "march 3")) ltac:(cbn; lia)) as (n & i & err' & H & Hc & _).
  exists n, i, err'. split; [exact H|exact Hc].
Defined.
End c_locale.
