(* ===== verification/Locale.v ===== *)
(** * Locale: locales and their facets, the class [locale] of libcxx's [locale.cpp]

    A locale is a pointer to a counted table of pointers to counted facets.  The world
    has the tables and the facets that are not freed, the identifiers given to the
    types of facets, the two static locales and the locales of the program.  Whether an
    allocation succeeds is a function of its number.  [LocaleFacts] has the proofs. *)

From S2P Require Import Prelude.

(** ** The types of facets *)

Inductive chr := Char | Wchar.
Inductive element := OfChar | OfWchar | OfChar16 | OfChar32.

(** The classes with an [id] of their own; those of a program are numbered. *)
Inductive facet_key :=
  | Collate (c : chr) | Ctype (c : chr) | Codecvt (e : element)
  | Numpunct (c : chr) | Num_get (c : chr) | Num_put (c : chr)
  | Moneypunct (c : chr) (intl : bool) | Money_get (c : chr) | Money_put (c : chr)
  | Time_get (c : chr) | Time_put (c : chr) | Messages (c : chr)
  | Own (n : nat).

#[export] Instance chr_eq_dec : EqDecision chr.
Proof. solve_decision. Defined.
#[export] Instance element_eq_dec : EqDecision element.
Proof. solve_decision. Defined.
#[export] Instance facet_key_eq_dec : EqDecision facet_key.
Proof. solve_decision. Defined.

(** The masks of the C library for the categories. *)
Definition cat_ctype : Z := 1.
Definition cat_numeric : Z := 2.
Definition cat_time : Z := 4.
Definition cat_collate : Z := 8.
Definition cat_monetary : Z := 16.
Definition cat_messages : Z := 32.
Definition cat_none : Z := 0.
Definition cat_all : Z := Z.lor (Z.lor (Z.lor (Z.lor (Z.lor cat_collate cat_ctype) cat_monetary) cat_numeric) cat_time) cat_messages.

Definition in_category (c cat : Z) : bool := negb (Z.land c cat =? 0).

(** ** The world *)

(** A facet, with the name it was made by. *)
Record facet := Facet { f_key : facet_key; f_name : option bytes; f_count : Z }.

(** The vector of a table, over the 28 cells that are in the table itself: what it
    holds, and its capacity. *)
Record fvec := FVec { items : list (option nat); room : Z }.
Record imp := Imp { facets_ : fvec; name_ : bytes; i_count : Z }.

Record world := World {
  facets : gmap nat facet;          (** at their addresses *)
  imps : gmap nat imp;
  next : nat;                       (** the allocations so far *)
  next_id : Z;                      (** [id::__next_id] *)
  id_ : facet_key → option Z;       (** [__id_] of each type, once it is there *)
  classic_ : option nat; global_ : option nat;
  locales : gmap nat nat;           (** the [__locale_] of the program's locales *)
  c_locale : bytes }.               (** that of the C library *)

Definition set_facets fs w := World fs (imps w) (next w) (next_id w) (id_ w) (classic_ w) (global_ w) (locales w) (c_locale w).
Definition set_imps is_ w := World (facets w) is_ (next w) (next_id w) (id_ w) (classic_ w) (global_ w) (locales w) (c_locale w).
Definition set_next n w := World (facets w) (imps w) n (next_id w) (id_ w) (classic_ w) (global_ w) (locales w) (c_locale w).
Definition set_ids n ids w := World (facets w) (imps w) (next w) n ids (classic_ w) (global_ w) (locales w) (c_locale w).
Definition set_classic c w := World (facets w) (imps w) (next w) (next_id w) (id_ w) c (global_ w) (locales w) (c_locale w).
Definition set_global g w := World (facets w) (imps w) (next w) (next_id w) (id_ w) (classic_ w) g (locales w) (c_locale w).
Definition set_locales ls w := World (facets w) (imps w) (next w) (next_id w) (id_ w) (classic_ w) (global_ w) ls (c_locale w).
Definition set_c_locale n w := World (facets w) (imps w) (next w) (next_id w) (id_ w) (classic_ w) (global_ w) (locales w) n.

(** Before anything has asked for a locale. *)
Definition nothing : world := World ∅ ∅ 0 0 (λ _, None) None None ∅ (str "C").

Definition bad_alloc : bytes := str "bad_alloc".
Definition bad_cast : bytes := str "bad_cast".

(** What a handler that throws again does, or the destructor of an object. *)
Definition on_throw {A} (m : comp world A) (h : comp world unit) : comp world A := λ w,
  match m w with
  | (Throw what, w') => (h ;;; cthrow what) w'
  | r => r
  end.

Fixpoint each {A} (f : A → comp world unit) (l : list A) : comp world unit :=
  match l with [] => cret tt | x :: l' => f x ;;; each f l' end.

Definition when (b : bool) (m : comp world unit) : comp world unit := if b then m else cret tt.

Section locale.
(** Whether the allocation of a number is granted; the names the C library knows;
    and how the construction of a facet by a name that it knows fails, if it does. *)
Context (granted : nat → bool) (known : bytes → bool) (fails : facet_key → bytes → option bytes).

Definition new_address : comp world nat := λ w, (Ret (next w), set_next (S (next w)) w).
Definition operator_new : comp world nat := let* p := new_address in if granted p then cret p else cthrow bad_alloc.

(** ** Counted objects *)

Definition get_facet (f : nat) : comp world facet := λ w,
  match facets w !! f with Some x => (Ret x, w) | None => (Undef DanglingReference, w) end.
Definition put_facet (f : nat) (x : facet) : comp world unit := cmodify (λ w, set_facets (<[f := x]> (facets w)) w).
Definition get_imp (i : nat) : comp world imp := λ w,
  match imps w !! i with Some x => (Ret x, w) | None => (Undef DanglingReference, w) end.
Definition put_imp (i : nat) (x : imp) : comp world unit := cmodify (λ w, set_imps (<[i := x]> (imps w)) w).

Definition add_shared (f : nat) : comp world unit :=
  let* x := get_facet f in put_facet f (Facet (f_key x) (f_name x) (f_count x + 1)).

(** The destructor of a facet frees what it got from the C library. *)
Definition release_shared (f : nat) : comp world unit :=
  let* x := get_facet f in
  if f_count x - 1 =? -1 then cmodify (λ w, set_facets (delete f (facets w)) w)
  else put_facet f (Facet (f_key x) (f_name x) (f_count x - 1)).

(** [for (i = 0; i < facets_.size(); ++i) if (facets_[i]) ...]. *)
Definition for_facets (g : nat → comp world unit) (this : nat) : comp world unit :=
  let* x := get_imp this in each (λ o, match o with Some f => g f | None => cret tt end) (items (facets_ x)).

Definition add_all : nat → comp world unit := for_facets add_shared.
Definition release_all : nat → comp world unit := for_facets release_shared.

(** [~__imp], and the freeing of the table. *)
Definition delete_imp (this : nat) : comp world unit :=
  release_all this ;;; cmodify (λ w, set_imps (delete this (imps w)) w).

Definition imp_add_shared (i : nat) : comp world unit :=
  let* x := get_imp i in put_imp i (Imp (facets_ x) (name_ x) (i_count x + 1)).
Definition imp_release_shared (i : nat) : comp world unit :=
  let* x := get_imp i in
  put_imp i (Imp (facets_ x) (name_ x) (i_count x - 1)) ;;;
  if i_count x - 1 =? -1 then delete_imp i else cret tt.

(** ** The vector of facets *)

Definition N : Z := 28.

(** [__sso_allocator], of which the 28 cells are free. *)
Definition allocate (n : Z) : comp world unit := if n <=? N then cret tt else operator_new ;;; cret tt.

(** [vector(n)], [v = other], and [resize]. *)
Definition vector_of (n : Z) : comp world fvec := allocate n ;;; cret (FVec (replicate (Z.to_nat n) None) n).

Definition assign (v other : fvec) : comp world fvec :=
  if zlen (items other) <=? room v then cret (FVec (items other) (room v))
  else allocate (zlen (items other)) ;;; cret (FVec (items other) (zlen (items other))).

(** A vector that grows keeps its cells until it has new ones: there are no others free
    in the table. *)
Definition resize_facets (v : fvec) (n : Z) : comp world fvec :=
  let grown := resize (Z.to_nat n) None (items v) in
  if n <=? room v then cret (FVec grown (room v))
  else operator_new ;;; cret (FVec grown (Z.max (2 * room v) n)).

Definition put_facets (this : nat) (v : fvec) : comp world unit :=
  let* x := get_imp this in put_imp this (Imp v (name_ x) (i_count x)).

(** ** Identifiers *)

(** [id::__get], with [__init] behind its flag. *)
Definition id_get (k : facet_key) : comp world Z := λ w,
  match id_ w k with
  | Some i => (Ret (i - 1), w)
  | None => (Ret (next_id w + 1 - 1), set_ids (next_id w + 1) (upd k (Some (next_id w + 1)) (id_ w)) w)
  end.

(** ** Tables *)

(** [install]: first the table gets room for the place, then the facet takes it. *)
Definition make_room (this : nat) (id : Z) : comp world unit :=
  let* x := get_imp this in
  when (zlen (items (facets_ x)) <=? id) (let* v := resize_facets (facets_ x) (id + 1) in put_facets this v).

Definition put_at (this f : nat) (id : Z) : comp world unit :=
  let* x := get_imp this in
  match items (facets_ x) !! Z.to_nat id with
  | None => cundef BufferOverread
  | Some (Some g) => release_shared g
  | Some None => cret tt
  end ;;;
  put_facets this (FVec (<[Z.to_nat id := Some f]> (items (facets_ x))) (room (facets_ x))).

Definition install_at (this f : nat) (id : Z) : comp world unit :=
  add_shared f ;;;
  on_throw (make_room this id) (release_shared f) ;;;
  put_at this f id.

Definition imp_has_facet (i : nat) (id : Z) : comp world bool :=
  let* x := get_imp i in
  cret (match items (facets_ x) !! Z.to_nat id with Some (Some _) => true | _ => false end).

Definition imp_use_facet (i : nat) (id : Z) : comp world nat :=
  let* x := get_imp i in
  match items (facets_ x) !! Z.to_nat id with Some (Some f) => cret f | _ => cthrow bad_cast end.

Definition install (this : nat) (k : facet_key) (f : nat) : comp world unit :=
  let* id := id_get k in install_at this f id.

Definition install_from (this one : nat) (k : facet_key) : comp world unit :=
  let* id := id_get k in
  let* f := imp_use_facet one id in
  install_at this f id.

(** ** Facets *)

(** [make], which constructs in a static buffer, and [refs] of the constructor. *)
Definition make_facet (refs : Z) (k : facet_key) : comp world nat :=
  let* p := new_address in put_facet p (Facet k None (refs - 1)) ;;; cret p.

(** The classes whose construction by a name asks the C library for a locale; the one
    for the punctuation of numbers knows the name of the C locale itself. *)
Definition asks (k : facet_key) (name : bytes) : bool :=
  match k with
  | Collate _ | Ctype _ | Codecvt OfWchar | Moneypunct _ _ | Time_get _ | Time_put _ => true
  | Numpunct _ => negb (bool_decide (name = str "C"))
  | _ => false
  end.

Definition construct_error (k : facet_key) (name : bytes) : bytes :=
  str match k with
      | Collate Char => "collate_byname<char>::collate_byname"
      | Collate Wchar => "collate_byname<wchar_t>::collate_byname(size_t refs)"
      | Ctype Char => "ctype_byname<char>::ctype_byname"
      | Ctype Wchar => "ctype_byname<wchar_t>::ctype_byname"
      | Codecvt _ => "codecvt_byname<wchar_t, char, mbstate_t>::codecvt_byname"
      | Numpunct _ => "numpunct_byname<char>::numpunct_byname"
      | Moneypunct _ _ => "moneypunct_byname"
      | Time_get _ => "time_get_byname"
      | Time_put _ => "time_put_byname"
      | _ => ""
      end%string ++ str " failed to construct for " ++ name.

(** [new X_byname(name)]. *)
Definition new_byname (name : bytes) (k : facet_key) : comp world nat :=
  let* p := operator_new in
  if asks k name && negb (known name) then cthrow (construct_error k name)
  else match fails k name with
       | Some what => cthrow what
       | None => put_facet p (Facet k (Some name) (-1)) ;;; cret p
       end.

(** ** The constructors of a table *)

(** What all tables start with: those of [std], in their order. *)
Definition standard : list facet_key :=
  [Collate Char; Collate Wchar; Ctype Char; Ctype Wchar;
   Codecvt OfChar; Codecvt OfWchar; Codecvt OfChar16; Codecvt OfChar32;
   Numpunct Char; Numpunct Wchar; Num_get Char; Num_get Wchar; Num_put Char; Num_put Wchar;
   Moneypunct Char false; Moneypunct Char true; Moneypunct Wchar false; Moneypunct Wchar true;
   Money_get Char; Money_get Wchar; Money_put Char; Money_put Wchar;
   Time_get Char; Time_get Wchar; Time_put Char; Time_put Wchar; Messages Char; Messages Wchar].

(** Those that are made by a name. *)
Definition by_name : list facet_key :=
  [Collate Char; Collate Wchar; Ctype Char; Ctype Wchar;
   Codecvt OfChar; Codecvt OfWchar; Codecvt OfChar16; Codecvt OfChar32;
   Numpunct Char; Numpunct Wchar;
   Moneypunct Char false; Moneypunct Char true; Moneypunct Wchar false; Moneypunct Wchar true;
   Time_get Char; Time_get Wchar; Time_put Char; Time_put Wchar; Messages Char; Messages Wchar].

Definition by_name_of (c : Z) : list facet_key :=
  (if in_category c cat_collate then [Collate Char; Collate Wchar] else []) ++
  (if in_category c cat_ctype then [Ctype Char; Ctype Wchar; Codecvt OfChar; Codecvt OfWchar; Codecvt OfChar16; Codecvt OfChar32] else []) ++
  (if in_category c cat_monetary then [Moneypunct Char false; Moneypunct Char true; Moneypunct Wchar false; Moneypunct Wchar true] else []) ++
  (if in_category c cat_numeric then [Numpunct Char; Numpunct Wchar] else []) ++
  (if in_category c cat_time then [Time_get Char; Time_get Wchar; Time_put Char; Time_put Wchar] else []) ++
  (if in_category c cat_messages then [Messages Char; Messages Wchar] else []).

Definition standard_of (c : Z) : list facet_key :=
  (if in_category c cat_collate then [Collate Char; Collate Wchar] else []) ++
  (if in_category c cat_ctype then [Ctype Char; Ctype Wchar; Codecvt OfChar; Codecvt OfChar16; Codecvt OfChar32; Codecvt OfWchar] else []) ++
  (if in_category c cat_monetary then [Moneypunct Char false; Moneypunct Char true; Moneypunct Wchar false; Moneypunct Wchar true;
                                       Money_get Char; Money_get Wchar; Money_put Char; Money_put Wchar] else []) ++
  (if in_category c cat_numeric then [Numpunct Char; Numpunct Wchar; Num_get Char; Num_get Wchar; Num_put Char; Num_put Wchar] else []) ++
  (if in_category c cat_time then [Time_get Char; Time_get Wchar; Time_put Char; Time_put Wchar] else []) ++
  (if in_category c cat_messages then [Messages Char; Messages Wchar] else []).

(** [new __imp(...)]: a table whose constructor throws is freed without its destructor. *)
Definition new_imp (n : Z) (name : bytes) (ctor : nat → comp world unit) : comp world nat :=
  let* this := operator_new in
  let* v := vector_of n in
  put_imp this (Imp v name (-1)) ;;;
  on_throw (ctor this) (cmodify (λ w, set_imps (delete this (imps w)) w)) ;;;
  cret this.

Definition copy_facets (this other : nat) : comp world unit :=
  let* x := get_imp this in
  let* o := get_imp other in
  let* v := assign (facets_ x) (facets_ o) in
  put_facets this v.

Definition install_new (this : nat) (name : bytes) (k : facet_key) : comp world unit :=
  let* f := new_byname name k in install this k f.

(** [__imp(size_t refs)], in a static buffer. *)
Definition make_classic_imp : comp world nat :=
  let* this := new_address in
  let* v := vector_of N in
  put_imp this (Imp (FVec [] (room v)) (str "C") (1 - 1)) ;;;
  each (λ k, let* f := make_facet 1 k in install this k f) standard ;;;
  cret this.

(** ** Locales *)

(** The static locales, made when they are asked for first. *)
Definition classic : comp world nat :=
  let* w := cget in
  match classic_ w with
  | Some c => cret c
  | None => let* c := make_classic_imp in cmodify (set_classic (Some c)) ;;; cret c
  end.

Definition global_locale : comp world nat :=
  let* w := cget in
  match global_ w with
  | Some g => cret g
  | None => let* c := classic in imp_add_shared c ;;; cmodify (set_global (Some c)) ;;; cret c
  end.

(** The other constructors of a table. *)
Definition imp_copy (other : nat) : comp world nat :=
  let* o := get_imp other in
  new_imp (Z.max N (zlen (items (facets_ o)))) (name_ o) (λ this, copy_facets this other ;;; add_all this).

Definition imp_named (name : bytes) : comp world nat :=
  new_imp N name (λ this,
    on_throw (let* c := classic in
              copy_facets this c ;;; add_all this ;;;
              each (install_new this name) by_name)
             (release_all this)).

Definition imp_with_named (other : nat) (name : bytes) (c : Z) : comp world nat :=
  new_imp N (str "*") (λ this,
    copy_facets this other ;;; add_all this ;;;
    on_throw (each (install_new this name) (by_name_of c)) (release_all this)).

Definition imp_with_one (other one : nat) (c : Z) : comp world nat :=
  new_imp N (str "*") (λ this,
    copy_facets this other ;;; add_all this ;;;
    on_throw (each (install_from this one) (standard_of c)) (release_all this)).

Definition imp_with_facet (other f : nat) (id : Z) : comp world nat :=
  let* o := get_imp other in
  new_imp (Z.max N (zlen (items (facets_ o)) + 1)) (str "*") (λ this,
    add_shared f ;;;
    on_throw (copy_facets this other ;;; add_all this ;;; install_at this f id) (release_shared f) ;;;
    release_shared f).

(** The locales of the program are named by numbers. *)
Definition get_locale (v : nat) : comp world nat := λ w,
  match locales w !! v with Some i => (Ret i, w) | None => (Undef DanglingReference, w) end.
Definition put_locale (v i : nat) : comp world unit := cmodify (λ w, set_locales (<[v := i]> (locales w)) w).

(** A constructor of [locale]: the table, and a share of it. *)
Definition construct (v : nat) (m : comp world nat) : comp world unit :=
  let* i := m in imp_add_shared i ;;; put_locale v i.

Definition locale_null : bytes := str "locale constructed with null".

Definition locale_default (v : nat) : comp world unit := construct v global_locale.
Definition locale_copy (v other : nat) : comp world unit := construct v (get_locale other).
Definition locale_named (v : nat) (name : option bytes) : comp world unit :=
  construct v (match name with Some n => imp_named n | None => cthrow locale_null end).
Definition locale_with_named (v other : nat) (name : option bytes) (c : Z) : comp world unit :=
  construct v (match name with
               | Some n => let* o := get_locale other in imp_with_named o n c
               | None => cthrow locale_null
               end).
Definition locale_with_one (v other one : nat) (c : Z) : comp world unit :=
  construct v (let* o := get_locale other in let* i := get_locale one in imp_with_one o i c).

(** [__install_ctor], for a facet of a class and [0] for none. *)
Definition locale_with_facet (v other : nat) (f : option (nat * facet_key)) : comp world unit :=
  construct v (match f with
               | Some (f, k) => let* id := id_get k in let* o := get_locale other in imp_with_facet o f id
               | None => get_locale other
               end).

Definition locale_destroy (v : nat) : comp world unit :=
  let* i := get_locale v in
  imp_release_shared i ;;; cmodify (λ w, set_locales (delete v (locales w)) w).

Definition locale_assign (v other : nat) : comp world unit :=
  let* o := get_locale other in
  imp_add_shared o ;;;
  let* i := get_locale v in
  imp_release_shared i ;;;
  put_locale v o.

Definition locale_name (v : nat) : comp world bytes := let* i := get_locale v in let* x := get_imp i in cret (name_ x).

(** [setlocale(LC_ALL, name)]. *)
Definition setlocale (name : bytes) : comp world unit := cmodify (λ w, if known name then set_c_locale name w else w).

(** [locale::global]: the old one is the result. *)
Definition locale_global (v loc : nat) : comp world unit :=
  let* g := global_locale in
  imp_add_shared g ;;; put_locale v g ;;;
  let* i := get_locale loc in
  imp_add_shared i ;;;
  let* w := cget in
  match global_ w with None => cundef UninitRead | Some g => imp_release_shared g end ;;;
  cmodify (set_global (Some i)) ;;;
  let* x := get_imp i in
  when (negb (bool_decide (name_ x = str "*"))) (setlocale (name_ x)).

Definition has_facet (v : nat) (k : facet_key) : comp world bool :=
  let* i := get_locale v in let* id := id_get k in imp_has_facet i id.
Definition use_facet (v : nat) (k : facet_key) : comp world nat :=
  let* i := get_locale v in let* id := id_get k in imp_use_facet i id.

Definition locale_eq (v y : nat) : comp world bool :=
  let* i := get_locale v in
  let* j := get_locale y in
  if decide (i = j) then cret true
  else
    let* a := get_imp i in
    let* b := get_imp j in
    cret (negb (bool_decide (name_ a = str "*")) && bool_decide (name_ a = name_ b)).

(** [combine]. *)
Definition locale_missing : bytes := str "locale::combine: locale missing facet".
Definition locale_combine (v this other : nat) (k : facet_key) : comp world unit :=
  let* b := has_facet other k in
  if b then let* f := use_facet other k in locale_with_facet v this (Some (f, k)) else cthrow locale_missing.
End locale.
