(* ===== verification/LocaleFacts.v ===== *)
(** * LocaleFacts: locales share their facets safely

    The count of a facet is the number of places in tables that hold it, with what is
    held by others; that of a table the number of locales that have it.  Every operation
    keeps this, and every table has a facet of the right class for each class of the
    standard library. *)

From S2P Require Import Prelude Locale.

(** ** Counting *)

(** How often a list of pointers has one. *)
Definition occ (f : nat) (l : list (option nat)) : Z := Z.of_nat (length (filter (λ o, o = Some f) l)).

(** The sum of a number over a map. *)
Definition total {A} (g : A → Z) (m : gmap nat A) : Z := map_fold (λ _ x n, g x + n) 0 m.

(** The places in tables that hold a facet, and the locales that have a table. *)
Definition refs (f : nat) (is_ : gmap nat imp) : Z := total (λ x, occ f (items (facets_ x))) is_.
Definition ind (b : bool) : Z := if b then 1 else 0.
Definition locs (i : nat) (w : world) : Z :=
  total (λ j, ind (bool_decide (j = i))) (locales w) + ind (bool_decide (global_ w = Some i)).

(** Each object has one share more than its count, and what is not there has none. *)
Definition tally {A} (count : A → Z) (m : gmap nat A) (t : nat → Z) : Prop :=
  ∀ p, match m !! p with Some x => t p = count x + 1 ∧ 0 ≤ t p | None => t p = 0 end.

Definition plus (t : nat → Z) (f : nat) (n : Z) : nat → Z := λ g, if decide (g = f) then t g + n else t g.

Lemma occ_nil f : occ f [] = 0.
Proof. done. Qed.

Lemma occ_cons f o l : occ f (o :: l) = ind (bool_decide (o = Some f)) + occ f l.
Proof.
  unfold occ. rewrite filter_cons. destruct (decide (o = Some f)).
  - rewrite bool_decide_eq_true_2 by done. cbn [length ind]. lia.
  - by rewrite bool_decide_eq_false_2.
Qed.

Lemma ind_nonneg b : 0 ≤ ind b.
Proof. by destruct b. Qed.

Lemma occ_nonneg f l : 0 ≤ occ f l.
Proof. unfold occ. lia. Qed.

Lemma occ_app f l k : occ f (l ++ k) = occ f l + occ f k.
Proof. unfold occ. rewrite filter_app, length_app. lia. Qed.

Lemma occ_replicate f n : occ f (replicate n None) = 0.
Proof. induction n; [done|]. cbn [replicate]. rewrite occ_cons, IHn. by rewrite bool_decide_eq_false_2. Qed.

Lemma occ_insert f l j o : (j < length l)%nat →
  occ f (<[j := o]> l) = occ f l + ind (bool_decide (o = Some f)) - ind (bool_decide (l !! j = Some (Some f))).
Proof.
  revert j. induction l as [|x l IH]; intros [|j] Hj; cbn [length] in Hj; try lia.
  - change (<[0%nat:=o]> (x :: l)) with (o :: l). change ((x :: l) !! 0%nat) with (Some x). rewrite !occ_cons.
    replace (bool_decide (Some x = Some (Some f))) with (bool_decide (x = Some f)); [lia|]. apply bool_decide_ext. naive_solver.
  - change (<[S j:=o]> (x :: l)) with (x :: <[j:=o]> l). change ((x :: l) !! S j) with (l !! j). rewrite !occ_cons, IH by lia. lia.
Qed.

Lemma occ_elem f l j : l !! j = Some (Some f) → 1 ≤ occ f l.
Proof.
  revert j. induction l as [|x l IH]; intros [|j] Hj; try done; rewrite occ_cons.
  - injection Hj as ->. rewrite bool_decide_eq_true_2 by done. pose proof (occ_nonneg f l). cbn [ind]. lia.
  - pose proof (IH j Hj). pose proof (ind_nonneg (bool_decide (x = Some f))). lia.
Qed.

Lemma total_empty {A} (g : A → Z) : total g ∅ = 0.
Proof. apply map_fold_empty. Qed.

Lemma total_add {A} (g : A → Z) m p x : m !! p = None → total g (<[p := x]> m) = g x + total g m.
Proof. intros Hm. unfold total. rewrite map_fold_insert_L; [done| |done]. intros. lia. Qed.

Lemma total_delete {A} (g : A → Z) m p x : m !! p = Some x → total g (delete p m) = total g m - g x.
Proof.
  intros Hm. pose proof (total_add g (delete p m) p x (lookup_delete_eq _ _)) as Ht. rewrite insert_delete_id in Ht by done. lia.
Qed.

Lemma total_replace {A} (g : A → Z) m p x y : m !! p = Some x → total g (<[p := y]> m) = total g m + g y - g x.
Proof.
  intros Hm. rewrite <- insert_delete_eq, total_add by apply lookup_delete_eq. rewrite (total_delete _ _ _ x Hm). lia.
Qed.

Lemma total_pos {A} (g : A → Z) m : (∀ x, 0 ≤ g x) → 0 ≤ total g m.
Proof.
  intros Hg. induction m as [|p x m Hm IH] using map_ind; [by rewrite total_empty|].
  rewrite total_add by done. pose proof (Hg x). lia.
Qed.

Lemma total_le {A} (g : A → Z) m p x : (∀ x, 0 ≤ g x) → m !! p = Some x → g x ≤ total g m.
Proof. intros Hg Hm. pose proof (total_delete g m p x Hm). pose proof (total_pos g (delete p m) Hg). lia. Qed.

Lemma total_zero {A} (g : A → Z) m : (∀ p x, m !! p = Some x → g x = 0) → total g m = 0.
Proof.
  induction m as [|p x m Hm IH] using map_ind; intros H0; [by rewrite total_empty|].
  rewrite total_add by done. rewrite (H0 p x) by apply lookup_insert_eq. rewrite IH; [done|].
  intros q y Hq. apply (H0 q y). rewrite lookup_insert_ne; [done|]. congruence.
Qed.

Lemma refs_nonneg f is_ : 0 ≤ refs f is_.
Proof. apply total_pos. intros. apply occ_nonneg. Qed.

Lemma refs_elem f is_ i x j : is_ !! i = Some x → items (facets_ x) !! j = Some (Some f) → 1 ≤ refs f is_.
Proof.
  intros Hi Hj. pose proof (occ_elem _ _ _ Hj). pose proof (total_le (λ x, occ f (items (facets_ x))) is_ i x (λ _, occ_nonneg _ _) Hi).
  cbn beta in *. unfold refs. lia.
Qed.

Lemma plus_eq t f n : plus t f n f = t f + n.
Proof. unfold plus. by rewrite decide_True. Qed.

Lemma plus_ne t f n g : g ≠ f → plus t f n g = t g.
Proof. intros. unfold plus. by rewrite decide_False. Qed.

Lemma tally_ext {A} (count : A → Z) m t t' : tally count m t → (∀ p, t' p = t p) → tally count m t'.
Proof. intros Ht He p. specialize (Ht p). rewrite He. done. Qed.

Lemma tally_live {A} (count : A → Z) m t p : tally count m t → 0 < t p → is_Some (m !! p).
Proof. intros Ht Hp. specialize (Ht p). destruct (m !! p); [done|lia]. Qed.

(** An object gets a count, a new one is made, and one is freed. *)
Lemma tally_put {A} (count : A → Z) m t p x y n :
  tally count m t → m !! p = Some x → count y = count x + n → 0 ≤ t p + n → tally count (<[p := y]> m) (plus t p n).
Proof.
  intros Ht Hp Hc Hn q. destruct (decide (q = p)) as [->|].
  - rewrite lookup_insert_eq, plus_eq. specialize (Ht p). rewrite Hp in Ht. lia.
  - rewrite lookup_insert_ne, plus_ne by done. apply Ht.
Qed.

Lemma tally_new {A} (count : A → Z) m t p x :
  tally count m t → m !! p = None → count x = -1 → tally count (<[p := x]> m) t.
Proof.
  intros Ht Hp Hc q. destruct (decide (q = p)) as [->|]; [|rewrite lookup_insert_ne by done; apply Ht].
  rewrite lookup_insert_eq. specialize (Ht p). rewrite Hp in Ht. lia.
Qed.

Lemma tally_delete {A} (count : A → Z) m t p : tally count m t → t p = 1 → tally count (delete p m) (plus t p (-1)).
Proof.
  intros Ht Hp q. destruct (decide (q = p)) as [->|].
  - rewrite lookup_delete_eq, plus_eq. lia.
  - rewrite lookup_delete_ne, plus_ne by done. apply Ht.
Qed.

Lemma tally_drop {A} (count : A → Z) m t p : tally count m t → t p = 0 → tally count (delete p m) t.
Proof.
  intros Ht Hp q. destruct (decide (q = p)) as [->|]; [by rewrite lookup_delete_eq|rewrite lookup_delete_ne by done; apply Ht].
Qed.

(** ** Well-formed worlds *)

(** A facet of the same class, made by the same name, that later is without a share only
    if it was before: the last share that is given back frees it. *)
Definition same (x y : facet) : Prop := f_key x = f_key y ∧ f_name x = f_name y ∧ (f_count y = -1 → f_count x = -1).

Lemma same_trans x y z : same x y → same y z → same x z.
Proof. intros (? & ? & ?) (? & ? & ?). split; [congruence|]. split; [congruence|auto]. Qed.

(** What a list of pointers is to hold: at each index a facet of the class that has it. *)
Definition typed (w : world) (l : list (option nat)) : Prop :=
  ∀ j f, l !! j = Some (Some f) → ∃ y, facets w !! f = Some y ∧ id_ w (f_key y) = Some (Z.of_nat j + 1).

Definition complete (w : world) (l : list (option nat)) : Prop :=
  ∀ k, k ∈ standard → ∃ j f, id_ w k = Some (Z.of_nat j + 1) ∧ l !! j = Some (Some f).

Record table_ok (w : world) (x : imp) : Prop := {
  t_typed : typed w (items (facets_ x));
  t_complete : complete w (items (facets_ x));
  t_room : zlen (items (facets_ x)) ≤ room (facets_ x) }.

(** [L] and [K] are the shares of facets and tables that no table and no locale has. *)
Record wf (L K : nat → Z) (w : world) : Prop := {
  w_facets : tally f_count (facets w) (λ f, refs f (imps w) + L f);
  w_imps : tally i_count (imps w) (λ i, locs i w + K i);
  w_L : ∀ f, 0 ≤ L f;
  w_next : ∀ p, (next w ≤ p)%nat → facets w !! p = None ∧ imps w !! p = None;
  w_id : ∀ k i, id_ w k = Some i → 1 ≤ i ≤ next_id w;
  w_inj : ∀ k k' i, id_ w k = Some i → id_ w k' = Some i → k = k';
  w_standard : ∀ k, k ∈ standard → ∃ j, id_ w k = Some (Z.of_nat j + 1);
  w_tables : ∀ i x, imps w !! i = Some x → table_ok w x }.
Arguments w_facets {L K w}.
Arguments w_imps {L K w}.
Arguments w_L {L K w}.
Arguments w_next {L K w}.
Arguments w_id {L K w}.
Arguments w_inj {L K w}.
Arguments w_standard {L K w}.
Arguments w_tables {L K w}.

(** Facets change their counts only. *)
Definition evolve (fs fs' : gmap nat facet) : Prop := ∀ f y, fs' !! f = Some y → ∃ x, fs !! f = Some x ∧ same x y.

Lemma evolve_refl fs : evolve fs fs.
Proof. intros f y Hy. by exists y. Qed.
#[local] Hint Resolve evolve_refl : core.

Lemma evolve_trans fs1 fs2 fs3 : evolve fs1 fs2 → evolve fs2 fs3 → evolve fs1 fs3.
Proof.
  intros H1 H2 f z Hz. destruct (H2 f z Hz) as (y & Hy & Hyz). destruct (H1 f y Hy) as (x & Hx & Hxy).
  exists x. split; [done|]. by apply (same_trans _ y).
Qed.

Lemma evolve_live fs fs' f x : evolve fs fs' → fs !! f = Some x → is_Some (fs' !! f) → ∃ y, fs' !! f = Some y ∧ same x y.
Proof. intros He Hx [y Hy]. destruct (He f y Hy) as (x' & Hx' & Hs). simplify_eq. by exists y. Qed.

Lemma evolve_insert fs f x y : fs !! f = Some x → same x y → evolve fs (<[f := y]> fs).
Proof.
  intros Hx Hs g z. destruct (decide (g = f)) as [->|].
  - rewrite lookup_insert_eq. intros [= <-]. by exists x.
  - rewrite lookup_insert_ne by done. intros Hz. by exists z.
Qed.

Lemma evolve_delete fs f : evolve fs (delete f fs).
Proof. intros g y [_ Hy]%lookup_delete_Some. by exists y. Qed.

(** ** Shares of facets *)

Definition shared (n : Z) (x : facet) : facet := Facet (f_key x) (f_name x) (f_count x + n).

Lemma add_shared_spec w t f :
  tally f_count (facets w) t → is_Some (facets w !! f) →
  ∃ fs, add_shared f w = (Ret tt, set_facets fs w) ∧ tally f_count fs (plus t f 1) ∧ evolve (facets w) fs.
Proof.
  intros Ht [x Hx]. exists (<[f := shared 1 x]> (facets w)). unfold add_shared, cbind, get_facet. rewrite Hx.
  specialize (Ht f) as Hc. rewrite Hx in Hc.
  split; [done|]. split; [|apply (evolve_insert _ _ x); [done|split; [done|split; [done|cbn; lia]]]].
  apply (tally_put _ _ _ _ x); try done. lia.
Qed.

Lemma release_shared_spec w t f :
  tally f_count (facets w) t → 0 < t f →
  ∃ fs, release_shared f w = (Ret tt, set_facets fs w) ∧ tally f_count fs (plus t f (-1)) ∧ evolve (facets w) fs.
Proof.
  intros Ht Hf. destruct (tally_live _ _ _ _ Ht Hf) as [x Hx]. pose proof (Ht f) as Hc. rewrite Hx in Hc.
  unfold release_shared, cbind, get_facet. rewrite Hx. case_match.
  - exists (delete f (facets w)). split; [done|]. split; [|apply evolve_delete]. apply tally_delete; [done|lia].
  - exists (<[f := shared (-1) x]> (facets w)). split; [done|].
    split; [|apply (evolve_insert _ _ x); [done|split; [done|split; [done|cbn; lia]]]].
    apply (tally_put _ _ _ _ x); try done. lia.
Qed.

(** The loops over a table. *)
Definition add_each : list (option nat) → comp world unit := each (λ o, match o with Some f => add_shared f | None => cret tt end).
Definition release_each : list (option nat) → comp world unit := each (λ o, match o with Some f => release_shared f | None => cret tt end).

Lemma add_each_spec l w t :
  tally f_count (facets w) t → (∀ f, 0 ≤ t f) → (∀ f j, l !! j = Some (Some f) → 0 < t f) →
  ∃ fs, add_each l w = (Ret tt, set_facets fs w) ∧ tally f_count fs (λ f, t f + occ f l) ∧ evolve (facets w) fs.
Proof.
  revert w t. induction l as [|o l IH]; intros w t Ht Hp Hl.
  - exists (facets w). split; [by destruct w|]. split; [|apply evolve_refl]. apply (tally_ext _ _ _ _ Ht). intros. rewrite occ_nil. lia.
  - destruct o as [f|].
    + destruct (add_shared_spec w t f Ht) as (fs & Ha & Ht' & He); [by apply (tally_live _ _ _ _ Ht), (Hl f 0%nat)|].
      destruct (IH (set_facets fs w) (plus t f 1) Ht') as (fs' & Ha' & Ht2 & He').
      * intros g. unfold plus. pose proof (Hp g). case_decide; lia.
      * intros g j Hj. pose proof (Hl g (S j) Hj). unfold plus. case_decide; lia.
      * exists fs'. cbn [add_each each]. unfold add_each in Ha'. rewrite (cbind_ret _ _ _ _ _ Ha). split; [done|]. split; [|by apply (evolve_trans _ fs)].
        apply (tally_ext _ _ _ _ Ht2). intros g. rewrite occ_cons. unfold plus.
        destruct (decide (g = f)) as [->|]; [rewrite bool_decide_eq_true_2 by done|rewrite bool_decide_eq_false_2 by congruence]; cbn [ind]; lia.
    + destruct (IH w t Ht Hp) as (fs & Ha & Ht' & He); [intros g j Hj; by apply (Hl g (S j))|].
      exists fs. split; [done|]. split; [|done]. apply (tally_ext _ _ _ _ Ht'). intros g. rewrite occ_cons. rewrite bool_decide_eq_false_2 by done. done.
Qed.

Lemma release_each_spec l w t :
  tally f_count (facets w) t → (∀ f, occ f l ≤ t f) →
  ∃ fs, release_each l w = (Ret tt, set_facets fs w) ∧ tally f_count fs (λ f, t f - occ f l) ∧ evolve (facets w) fs.
Proof.
  revert w t. induction l as [|o l IH]; intros w t Ht Hl.
  - exists (facets w). split; [by destruct w|]. split; [|apply evolve_refl]. apply (tally_ext _ _ _ _ Ht). intros. rewrite occ_nil. lia.
  - assert (Hc : ∀ g, occ g (o :: l) = ind (bool_decide (o = Some g)) + occ g l) by (intros; apply occ_cons).
    destruct o as [f|].
    + destruct (release_shared_spec w t f Ht) as (fs & Ha & Ht' & He).
      { specialize (Hl f). rewrite Hc, bool_decide_eq_true_2 in Hl by done. pose proof (occ_nonneg f l). cbn [ind] in Hl. lia. }
      assert (Hp : ∀ g, plus t f (-1) g = t g - ind (bool_decide (Some f = Some g))).
      { intros g. unfold plus. destruct (decide (g = f)) as [->|]; [rewrite bool_decide_eq_true_2 by done|rewrite bool_decide_eq_false_2 by congruence]; cbn [ind]; lia. }
      destruct (IH (set_facets fs w) (plus t f (-1)) Ht') as (fs' & Ha' & Ht2 & He').
      { intros g. specialize (Hl g). rewrite Hc in Hl. rewrite Hp. lia. }
      exists fs'. cbn [release_each each]. unfold release_each in Ha'. rewrite (cbind_ret _ _ _ _ _ Ha). split; [done|]. split; [|by apply (evolve_trans _ fs)].
      apply (tally_ext _ _ _ _ Ht2). intros g. rewrite Hp, Hc. lia.
    + destruct (IH w t Ht) as (fs & Ha & Ht' & He).
      { intros g. specialize (Hl g). rewrite Hc in Hl. rewrite bool_decide_eq_false_2 in Hl by done. done. }
      exists fs. split; [done|]. split; [|done]. apply (tally_ext _ _ _ _ Ht'). intros g. rewrite Hc. rewrite bool_decide_eq_false_2 by done. cbn [ind]. lia.
Qed.

(** ** What the operations do to a well-formed world *)

(** A world with other facets, tables and number of allocations. *)
Definition with_ (fs : gmap nat facet) (is_ : gmap nat imp) (n : nat) (w : world) : world := set_next n (set_imps is_ (set_facets fs w)).

Lemma with_same w : with_ (facets w) (imps w) (next w) w = w.
Proof. by destruct w. Qed.

Definition fits (w : world) (x : imp) : Prop :=
  typed w (items (facets_ x)) ∧ complete w (items (facets_ x)) ∧ zlen (items (facets_ x)) ≤ room (facets_ x).

Lemma wf_fits {L K w i x} : wf L K w → imps w !! i = Some x → fits w x.
Proof. intros Hw Hx. by destruct (w_tables Hw i x Hx). Qed.

Lemma wf_live {L K w i x j f} : wf L K w → imps w !! i = Some x → items (facets_ x) !! j = Some (Some f) → 1 ≤ refs f (imps w) ∧ is_Some (facets w !! f).
Proof.
  intros Hw Hx Hj. pose proof (refs_elem _ _ _ _ _ Hx Hj). split; [done|].
  apply (tally_live _ _ _ _ (w_facets Hw)). pose proof (w_L Hw f). lia.
Qed.

Lemma wf_update {L K} {w} L' K' fs is_ n :
  wf L K w → evolve (facets w) fs → tally f_count fs (λ f, refs f is_ + L' f) → (∀ f, 0 ≤ L' f) →
  tally i_count is_ (λ i, locs i w + K' i) → (next w ≤ n)%nat → (∀ p, (n ≤ p)%nat → is_ !! p = None) →
  (∀ i x, is_ !! i = Some x → fits w x) → wf L' K' (with_ fs is_ n w).
Proof.
  intros Hw He Ht HL Hi Hn Hf Hx. split; try done; cbn.
  - intros p Hp. split; [|by apply Hf]. destruct (fs !! p) as [y|] eqn:Hy; [|done].
    destruct (He p y Hy) as (x & Hx' & _). destruct (w_next Hw p) as [H1 _]; [lia|congruence].
  - apply (w_id Hw).
  - apply (w_inj Hw).
  - apply (w_standard Hw).
  - intros i x Hix. destruct (Hx i x Hix) as (Hty & Hc & Hr). split; [|done|done].
    intros j f Hj. destruct (Hty j f Hj) as (y & Hy & Hid).
    destruct (evolve_live _ _ f y He Hy) as (z & Hz & [Hk _]).
    { apply (tally_live _ _ _ _ Ht). pose proof (refs_elem _ _ _ _ _ Hix Hj). specialize (HL f). lia. }
    exists z. rewrite <- Hk. done.
Qed.

Lemma wf_next {L K w} n : wf L K w → (next w ≤ n)%nat → wf L K (set_next n w).
Proof.
  intros Hw Hn. apply (wf_update L K (facets w) (imps w) n Hw (evolve_refl _) (w_facets Hw) (w_L Hw) (w_imps Hw) Hn).
  - intros p Hp. apply (w_next Hw). lia.
  - intros i x. apply (wf_fits Hw).
Qed.

(** One more or less share of a facet. *)
Lemma plus_nonneg t f n : (∀ g, 0 ≤ t g) → 0 ≤ t f + n → ∀ g, 0 ≤ plus t f n g.
Proof. intros Ht Hf g. unfold plus. case_decide; [subst; lia|done]. Qed.

Lemma plus_back t f n g : plus (plus t f n) f (-n) g = t g.
Proof. unfold plus. case_decide; lia. Qed.

Lemma plus_app a t f n g : plus (λ h, a h + t h) f n g = a g + plus t f n g.
Proof. unfold plus. case_decide; lia. Qed.

Lemma wf_ext {L K w} L' K' : wf L K w → (∀ f, L' f = L f) → (∀ i, K' i = K i) → wf L' K' w.
Proof.
  intros Hw HL HK. rewrite <- (with_same w). apply (wf_update (L:=L) (K:=K)); try done.
  - apply (tally_ext _ _ _ _ (w_facets Hw)). intros. by rewrite HL.
  - intros f. rewrite HL. apply (w_L Hw).
  - apply (tally_ext _ _ _ _ (w_imps Hw)). intros. by rewrite HK.
  - intros p Hp. by apply (w_next Hw).
  - intros i x. apply (wf_fits Hw).
Qed.

Lemma wf_add {L K w f} :
  wf L K w → is_Some (facets w !! f) →
  ∃ fs, add_shared f w = (Ret tt, with_ fs (imps w) (next w) w) ∧ wf (plus L f 1) K (with_ fs (imps w) (next w) w) ∧ evolve (facets w) fs.
Proof.
  intros Hw Hf. destruct (add_shared_spec w _ f (w_facets Hw) Hf) as (fs & Ha & Ht & He). exists fs.
  split; [rewrite Ha; by destruct w|]. split; [|done]. apply (wf_update (L:=L) (K:=K)); try done.
  - apply (tally_ext _ _ _ _ Ht). intros. by rewrite plus_app.
  - apply plus_nonneg; [apply (w_L Hw)|]. pose proof (w_L Hw f). lia.
  - apply (w_imps Hw).
  - intros p Hp. by apply (w_next Hw).
  - intros i x. apply (wf_fits Hw).
Qed.

Lemma wf_release {L K w f} :
  wf L K w → 1 ≤ L f →
  ∃ fs, release_shared f w = (Ret tt, with_ fs (imps w) (next w) w) ∧ wf (plus L f (-1)) K (with_ fs (imps w) (next w) w) ∧ evolve (facets w) fs.
Proof.
  intros Hw Hf. destruct (release_shared_spec w _ f (w_facets Hw)) as (fs & Ha & Ht & He).
  { pose proof (refs_nonneg f (imps w)). lia. }
  exists fs. split; [rewrite Ha; by destruct w|]. split; [|done]. apply (wf_update (L:=L) (K:=K)); try done.
  - apply (tally_ext _ _ _ _ Ht). intros. by rewrite plus_app.
  - apply plus_nonneg; [apply (w_L Hw)|lia].
  - apply (w_imps Hw).
  - intros p Hp. by apply (w_next Hw).
  - intros i x. apply (wf_fits Hw).
Qed.

(** A table changes; its count does not. *)
Definition put_items (i : nat) (x : imp) (v : fvec) (w : world) : gmap nat imp := <[i := Imp v (name_ x) (i_count x)]> (imps w).

Lemma tally_put_items {t} i x v w : tally i_count (imps w) t → imps w !! i = Some x → tally i_count (put_items i x v w) t.
Proof.
  intros Ht Hx. apply (tally_ext i_count _ (plus t i 0)).
  - apply (tally_put _ _ _ _ x); [done..|cbn; lia|]. specialize (Ht i). rewrite Hx in Ht. lia.
  - intros p. unfold plus. case_decide; lia.
Qed.

Lemma refs_put_items f i x v w : imps w !! i = Some x → refs f (put_items i x v w) = refs f (imps w) + occ f (items v) - occ f (items (facets_ x)).
Proof. intros Hx. unfold refs, put_items. by rewrite (total_replace _ _ _ x). Qed.

Lemma put_items_next {L K w i x v} p : wf L K w → imps w !! i = Some x → (next w ≤ p)%nat → put_items i x v w !! p = None.
Proof.
  intros Hw Hx Hp. destruct (w_next Hw p Hp) as [_ Hn]. unfold put_items. rewrite lookup_insert_ne; [done|]. congruence.
Qed.

Lemma on_throw_ret {A} (m : comp world A) h w a w' : m w = (Ret a, w') → on_throw m h w = (Ret a, w').
Proof. unfold on_throw. by intros ->. Qed.

Lemma on_throw_throw {A} (m : comp world A) h w e w' w'' : m w = (Throw e, w') → h w' = (Ret tt, w'') → on_throw m h w = (Throw e, w'').
Proof. unfold on_throw. intros -> Hh. by rewrite (cbind_ret _ _ _ _ _ Hh). Qed.

Lemma get_imp_spec w i x : imps w !! i = Some x → get_imp i w = (Ret x, w).
Proof. unfold get_imp. by intros ->. Qed.

(** A facet takes a place that is in the table; what was there loses a share. *)
Lemma wf_place {L K w i x f y id} :
  wf L K w → imps w !! i = Some x → facets w !! f = Some y → id_ w (f_key y) = Some (id + 1) → 0 ≤ id < zlen (items (facets_ x)) → 1 ≤ L f →
  let v := FVec (<[Z.to_nat id := Some f]> (items (facets_ x))) (room (facets_ x)) in
  ∃ fs, put_at i f id w = (Ret tt, with_ fs (put_items i x v w) (next w) w)
    ∧ wf (plus L f (-1)) K (with_ fs (put_items i x v w) (next w) w) ∧ evolve (facets w) fs.
Proof.
  intros Hw Hx Hf Hid Hr HL v. set (l := items (facets_ x)) in *.
  assert (Hlen : (Z.to_nat id < length l)%nat) by (unfold zlen in Hr; lia).
  destruct (lookup_lt_is_Some_2 _ _ Hlen) as [old Hold].
  assert (Hold' : ∃ fs, match old with Some g => release_shared g | None => cret tt end w = (Ret tt, set_facets fs w)
    ∧ tally f_count fs (λ g, refs g (imps w) + L g - ind (bool_decide (old = Some g))) ∧ evolve (facets w) fs).
  { destruct old as [g|].
    - destruct (release_shared_spec w _ g (w_facets Hw)) as (fs & Ha & Ht & He).
      { destruct (wf_live Hw Hx Hold). pose proof (w_L Hw g). lia. }
      exists fs. split; [done|]. split; [|done]. apply (tally_ext _ _ _ _ Ht). intros h. unfold plus.
      destruct (decide (h = g)) as [->|]; [rewrite bool_decide_eq_true_2 by done|rewrite bool_decide_eq_false_2 by congruence]; cbn [ind]; lia.
    - exists (facets w). split; [by destruct w|]. split; [|apply evolve_refl].
      apply (tally_ext _ _ _ _ (w_facets Hw)). intros h. rewrite bool_decide_eq_false_2 by done. cbn [ind]. lia. }
  destruct Hold' as (fs & Ha & Ht & He). exists fs. unfold put_at. rewrite (cbind_ret _ _ _ _ _ (get_imp_spec _ _ _ Hx)). fold l. rewrite Hold, (cbind_ret _ _ w tt (set_facets fs w)) by (by destruct old).
  split; [unfold put_facets, get_imp, cbind; cbn [imps set_facets]; rewrite Hx; done|]. split; [|done].
  apply (wf_update (L:=L) (K:=K)); try done.
  - apply (tally_ext _ _ _ _ Ht). intros g. rewrite (refs_put_items _ _ _ _ _ Hx). cbn [items v]. fold l. rewrite occ_insert by done. rewrite Hold.
    replace (bool_decide (Some old = Some (Some g))) with (bool_decide (old = Some g)) by (apply bool_decide_ext; naive_solver).
    unfold plus. destruct (decide (g = f)) as [->|].
    + rewrite (bool_decide_eq_true_2 (Some f = Some f)) by done. cbn [ind]. lia.
    + rewrite (bool_decide_eq_false_2 (Some f = Some g)) by congruence. cbn [ind]. lia.
  - apply plus_nonneg; [apply (w_L Hw)|lia].
  - apply tally_put_items; [apply (w_imps Hw)|done].
  - intros p. by apply (put_items_next p Hw).
  - intros j z. unfold put_items. destruct (decide (j = i)) as [->|]; [|rewrite lookup_insert_ne by done; apply (wf_fits Hw)].
    rewrite lookup_insert_eq. intros [= <-]. destruct (wf_fits Hw Hx) as (Hty & Hc & Hroom). cbn [facets_ items v] in *. fold l in Hty, Hc, Hroom.
    split; [|split].
    + intros j g. cbn. fold l. destruct (decide (j = Z.to_nat id)) as [->|].
      * rewrite list_lookup_insert_eq by done. intros [= <-]. exists y. split; [done|]. rewrite Hid. f_equal. lia.
      * rewrite list_lookup_insert_ne by done. apply Hty.
    + intros k Hk. destruct (Hc k Hk) as (j & g & Hj & Hg). cbn. fold l. exists j.
      destruct (decide (j = Z.to_nat id)) as [->|]; [exists f|exists g]; (split; [done|]).
      * by rewrite list_lookup_insert_eq.
      * by rewrite list_lookup_insert_ne.
    + cbn. fold l. unfold zlen in *. rewrite length_insert. done.
Qed.

Lemma plus_back_wf {L K w f} : wf (plus (plus L f 1) f (-1)) K w → wf L K w.
Proof. intros Hw. apply (wf_ext _ _ Hw); [|done]. intros g. unfold plus. case_decide; lia. Qed.

(** A table that grows has more places without a facet. *)
Lemma wf_grow {L K w i x} m r n :
  wf L K w → imps w !! i = Some x → zlen (items (facets_ x)) ≤ Z.of_nat m ≤ r → (next w ≤ n)%nat →
  wf L K (with_ (facets w) (put_items i x (FVec (resize m None (items (facets_ x))) r) w) n w).
Proof.
  intros Hw Hx Hm Hn. pose proof (resize_ge (items (facets_ x)) m None) as Hbig. unfold zlen in Hm. rewrite Hbig by lia.
  set (k := replicate _ None). apply (wf_update _ K _ _ _ Hw); try done.
  - apply (tally_ext _ _ _ _ (w_facets Hw)). intros g. rewrite (refs_put_items _ _ _ _ _ Hx). cbn [items]. unfold k. rewrite occ_app, occ_replicate. lia.
  - apply (w_L Hw).
  - apply tally_put_items; [apply (w_imps Hw)|done].
  - intros p Hp. apply (put_items_next p Hw Hx). lia.
  - intros j z. unfold put_items. destruct (decide (j = i)) as [->|]; [|rewrite lookup_insert_ne by done; apply (wf_fits Hw)].
    rewrite lookup_insert_eq. intros [= <-]. destruct (wf_fits Hw Hx) as (Hty & Hc & Hroom). split; [|split].
    + intros j g. cbn. rewrite lookup_app. case_match; [intros [= ->]; by apply Hty|]. intros [? _]%lookup_replicate. done.
    + intros p Hp. destruct (Hc p Hp) as (j & g & Hj & Hg). exists j, g. split; [done|]. cbn. by apply lookup_app_l_Some.
    + cbn. unfold zlen, k. rewrite length_app, length_replicate. lia.
Qed.

(** A facet with a share is still there when facets have changed. *)
Lemma live_after {L K w fs f y} :
  wf L K (with_ fs (imps w) (next w) w) → evolve (facets w) fs → facets w !! f = Some y → 1 ≤ L f → ∃ y', fs !! f = Some y' ∧ f_key y = f_key y'.
Proof.
  intros Hw He Hf HL. destruct (evolve_live _ _ f y He Hf) as (y1 & Hy1 & [Hk _]); [|by exists y1].
  apply (tally_live _ _ _ _ (w_facets Hw)). cbn. pose proof (refs_nonneg f (imps w)). lia.
Qed.

(** As [evolve], where new facets may have come from an address on, with a share each. *)
Definition evolve_from (n : nat) (fs fs' : gmap nat facet) : Prop :=
  ∀ f y, fs' !! f = Some y → (∃ x, fs !! f = Some x ∧ same x y) ∨ (n ≤ f)%nat ∧ f_count y ≠ -1.

Lemma evolve_evolve_from n fs fs' : evolve fs fs' → evolve_from n fs fs'.
Proof. intros He f y Hy. left. by apply He. Qed.
#[local] Hint Resolve evolve_evolve_from : core.

Lemma evolve_from_trans n n' fs1 fs2 fs3 : evolve_from n fs1 fs2 → evolve_from n' fs2 fs3 → (n ≤ n')%nat → evolve_from n fs1 fs3.
Proof.
  intros H1 H2 Hn f z Hz. destruct (H2 f z Hz) as [(y & Hy & Hyz)|[? ?]]; [|right; split; [lia|done]].
  destruct (H1 f y Hy) as [(x & Hx & Hxy)|[? Hy1]]; [left|right].
  - exists x. split; [done|]. by apply (same_trans _ y).
  - split; [done|]. intros Hz1. apply Hy1. by apply Hyz.
Qed.

Lemma evolve_from_live n fs fs' f x : evolve_from n fs fs' → fs !! f = Some x → (f < n)%nat → is_Some (fs' !! f) → ∃ y, fs' !! f = Some y ∧ same x y.
Proof. intros He Hx Hf [y Hy]. destruct (He f y Hy) as [(x' & Hx' & Hs)|[? _]]; [|lia]. simplify_eq. by exists y. Qed.

(** The facets of a table lose a share each, before it is freed. *)
Lemma release_all_spec {L K w i x} :
  wf L K w → imps w !! i = Some x → locs i w + K i = 0 →
  ∃ fs, release_all i w = (Ret tt, set_facets fs w) ∧ wf L K (with_ fs (delete i (imps w)) (next w) w) ∧ evolve (facets w) fs.
Proof.
  intros Hw Hx Hk.
  assert (Hrefs : ∀ f, refs f (delete i (imps w)) = refs f (imps w) - occ f (items (facets_ x))) by (intros f; unfold refs; by rewrite (total_delete _ _ _ x Hx)).
  destruct (release_each_spec (items (facets_ x)) w _ (w_facets Hw)) as (fs & Ha & Ht & He).
  { intros f. pose proof (Hrefs f). pose proof (refs_nonneg f (delete i (imps w))). pose proof (w_L Hw f). cbn beta. lia. }
  exists fs. split; [|split; [|done]].
  - unfold release_all, for_facets. rewrite (cbind_ret _ _ _ _ _ (get_imp_spec _ _ _ Hx)). exact Ha.
  - apply (wf_update _ _ _ _ _ Hw); try done.
    + apply (tally_ext _ _ _ _ Ht). intros f. rewrite Hrefs. lia.
    + apply (w_L Hw).
    + apply tally_drop; [apply (w_imps Hw)|done].
    + intros p Hp. rewrite lookup_delete_None. right. by apply (w_next Hw).
    + intros j y [_ Hy]%lookup_delete_Some. by apply (wf_fits Hw Hy).
Qed.

(** Shares of tables: no table stays whose last share is given back. *)
Definition owned_from (is_ is_' : gmap nat imp) : Prop := ∀ j x, is_' !! j = Some x → 0 ≤ i_count x ∨ is_ !! j = Some x.

Lemma owned_refl is_ : owned_from is_ is_.
Proof. by right. Qed.

Lemma owned_trans is1 is2 is3 : owned_from is1 is2 → owned_from is2 is3 → owned_from is1 is3.
Proof. intros H1 H2 j x Hx. destruct (H2 j x Hx); [by left|by apply H1]. Qed.

Lemma owned_insert is_ j x : 0 ≤ i_count x → owned_from is_ (<[j := x]> is_).
Proof. intros Hx i y. destruct (decide (i = j)) as [->|]; [rewrite lookup_insert_eq; intros [= <-]; by left|rewrite lookup_insert_ne by done; by right]. Qed.

Lemma owned_delete is_ j : owned_from is_ (delete j is_).
Proof. intros i y [_ Hy]%lookup_delete_Some. by right. Qed.

Definition content (x : imp) : fvec * bytes := (facets_ x, name_ x).
Definition counted (n : Z) (x : imp) : imp := Imp (facets_ x) (name_ x) (i_count x + n).

Lemma refs_counted f is_ i x n : is_ !! i = Some x → refs f (<[i := counted n x]> is_) = refs f is_.
Proof. intros Hx. unfold refs. rewrite (total_replace _ _ _ x) by done. cbn. lia. Qed.

Lemma wf_counted {L K w i x} n :
  wf L K w → imps w !! i = Some x → 0 ≤ locs i w + K i + n →
  wf L (plus K i n) (with_ (facets w) (<[i := counted n x]> (imps w)) (next w) w).
Proof.
  intros Hw Hx Hn. apply (wf_update _ _ _ _ _ Hw); try done.
  - apply (tally_ext _ _ _ _ (w_facets Hw)). intros f. by rewrite refs_counted.
  - apply (w_L Hw).
  - apply (tally_ext i_count _ (plus (λ i, locs i w + K i) i n)); [by apply (tally_put _ _ _ _ x); [apply (w_imps Hw)|..]|]. intros p. by rewrite plus_app.
  - intros p Hp. rewrite lookup_insert_ne; [by apply (w_next Hw)|]. intros ->. destruct (w_next Hw p Hp). congruence.
  - intros j y. destruct (decide (j = i)) as [->|]; [rewrite lookup_insert_eq|rewrite lookup_insert_ne by done; apply (wf_fits Hw)].
    intros [= <-]. apply (wf_fits Hw Hx).
Qed.

Lemma imp_add_spec {L K w i x} :
  wf L K w → imps w !! i = Some x →
  let w' := with_ (facets w) (<[i := counted 1 x]> (imps w)) (next w) w in
  imp_add_shared i w = (Ret tt, w') ∧ wf L (plus K i 1) w'.
Proof.
  intros Hw Hx w'. split.
  - unfold imp_add_shared. rewrite (cbind_ret _ _ _ _ _ (get_imp_spec _ _ _ Hx)). by destruct w.
  - apply wf_counted; try done. pose proof (w_imps Hw i) as Ht. rewrite Hx in Ht. lia.
Qed.

Lemma imp_release_spec {L K w i} :
  wf L K w → 1 ≤ locs i w + K i →
  ∃ fs is_, imp_release_shared i w = (Ret tt, with_ fs is_ (next w) w) ∧ wf L (plus K i (-1)) (with_ fs is_ (next w) w) ∧ evolve (facets w) fs
    ∧ owned_from (imps w) is_
    ∧ ∀ j, content <$> is_ !! j = if bool_decide (j = i ∧ locs i w + K i = 1) then None else content <$> imps w !! j.
Proof.
  intros Hw Hk. destruct (tally_live _ _ _ i (w_imps Hw)) as [x Hx]; [lia|]. pose proof (w_imps Hw i) as Hc. rewrite Hx in Hc.
  pose proof (wf_counted (-1) Hw Hx ltac:(lia)) as Hw1. set (is1 := <[i := counted (-1) x]> (imps w)) in *.
  assert (Hx1 : is1 !! i = Some (counted (-1) x)) by apply lookup_insert_eq.
  assert (Hcont : ∀ j, content <$> is1 !! j = content <$> imps w !! j).
  { intros j. unfold is1. destruct (decide (j = i)) as [->|]; [by rewrite lookup_insert_eq, Hx|by rewrite lookup_insert_ne]. }
  unfold imp_release_shared. rewrite (cbind_ret _ _ _ _ _ (get_imp_spec _ _ _ Hx)).
  change (put_imp i _) with (put_imp i (counted (-1) x)). rewrite (cbind_ret (put_imp _ _) _ w tt (with_ (facets w) is1 (next w) w)) by (by destruct w).
  destruct (Z.eqb_spec (i_count x - 1) (-1)) as [H0|H0].
  - destruct (release_all_spec Hw1 Hx1) as (fs & Hd & Hw2 & He); [rewrite plus_eq; change (locs i (with_ _ _ _ w)) with (locs i w); lia|].
    exists fs, (delete i is1). split; [unfold delete_imp; by rewrite (cbind_ret _ _ _ _ _ Hd)|]. split; [exact Hw2|]. split; [done|]. split.
    { unfold is1. rewrite delete_insert_eq. apply owned_delete. }
    intros j. case_bool_decide as Hj; [destruct Hj as [-> _]; by rewrite lookup_delete_eq|].
    rewrite lookup_delete_ne; [apply Hcont|]. intros <-. apply Hj. split; [done|lia].
  - exists (facets w), is1. split; [done|]. split; [done|]. split; [apply evolve_refl|]. split; [apply owned_insert; cbn; lia|].
    intros j. rewrite bool_decide_eq_false_2; [apply Hcont|]. lia.
Qed.

Section spec.
Context (granted : nat → bool) (known : bytes → bool) (fails : facet_key → bytes → option bytes).

(** What [make_room] does: nothing, or more places, or it has no memory. *)
Lemma make_room_spec {w i x} id :
  imps w !! i = Some x → 0 ≤ id →
  let l := items (facets_ x) in
  (id < zlen l ∧ make_room granted i id w = (Ret tt, w))
  ∨ (∃ r n, zlen l ≤ id < r ∧ (next w ≤ n)%nat
     ∧ make_room granted i id w = (Ret tt, with_ (facets w) (put_items i x (FVec (resize (Z.to_nat (id + 1)) None l) r) w) n w))
  ∨ (zlen l ≤ id ∧ make_room granted i id w = (Throw bad_alloc, set_next (S (next w)) w) ∧ granted (next w) = false).
Proof.
  intros Hx Hid l. subst l. unfold make_room. rewrite (cbind_ret _ _ _ _ _ (get_imp_spec _ _ _ Hx)).
  destruct (Z.leb_spec (zlen (items (facets_ x))) id) as [Hl|Hl]; cbn [when]; [right|by left].
  assert (Hput : ∀ v n, put_facets i v (set_next n w) = (Ret tt, with_ (facets w) (put_items i x v w) n w)).
  { intros v n. unfold put_facets, cbind, get_imp. cbn. rewrite Hx. by destruct w. }
  unfold resize_facets. destruct (Z.leb_spec (id + 1) (room (facets_ x))) as [Hr|Hr].
  - left. exists (room (facets_ x)), (next w). split; [lia|]. split; [done|]. rewrite <- Hput. by destruct w.
  - unfold operator_new, new_address, cbind. destruct (granted (next w)) eqn:Hg.
    + left. exists (Z.max (2 * room (facets_ x)) (id + 1)), (S (next w)). split; [lia|]. split; [lia|]. apply Hput.
    + by right.
Qed.

Lemma install_at_in {L K w i x f y id} :
  wf L K w → imps w !! i = Some x → facets w !! f = Some y → id_ w (f_key y) = Some (id + 1) → 0 ≤ id < zlen (items (facets_ x)) →
  let v := FVec (<[Z.to_nat id := Some f]> (items (facets_ x))) (room (facets_ x)) in
  ∃ fs, install_at granted i f id w = (Ret tt, with_ fs (put_items i x v w) (next w) w)
    ∧ wf L K (with_ fs (put_items i x v w) (next w) w) ∧ evolve (facets w) fs.
Proof.
  intros Hw Hx Hf Hid Hr v. destruct (wf_add Hw (ex_intro _ _ Hf)) as (fs & Ha & Hw1 & He).
  unfold install_at. rewrite (cbind_ret _ _ _ _ _ Ha). clear Ha. set (w1 := with_ fs _ _ _) in *.
  assert (Hx1 : imps w1 !! i = Some x) by done. pose proof (w_L Hw f) as HL.
  destruct (make_room_spec id Hx1) as [[_ Hm]|[(r & n & Hn & _)|[Hn _]]]; [lia| |lia|lia].
  rewrite (cbind_ret _ _ _ _ _ (on_throw_ret _ _ _ _ _ Hm)).
  destruct (live_after Hw1 He Hf) as (y1 & Hy1 & Hk); [rewrite plus_eq; lia|].
  destruct (wf_place (y:=y1) (id:=id) Hw1 Hx1 Hy1) as (fs' & Hp & Hw2 & He'); [by rewrite <- Hk|done|rewrite plus_eq; lia|].
  exists fs'. split; [exact Hp|]. split; [by apply plus_back_wf in Hw2|by apply (evolve_trans _ fs)].
Qed.

(** A place beyond the table: it grows, or there is no memory. *)
Lemma install_at_out {L K w i x f y id} :
  wf L K w → imps w !! i = Some x → facets w !! f = Some y → id_ w (f_key y) = Some (id + 1) → zlen (items (facets_ x)) ≤ id →
  let l := <[Z.to_nat id := Some f]> (resize (Z.to_nat (id + 1)) None (items (facets_ x))) in
  (∃ fs r n, (next w ≤ n)%nat ∧ install_at granted i f id w = (Ret tt, with_ fs (put_items i x (FVec l r) w) n w)
    ∧ wf L K (with_ fs (put_items i x (FVec l r) w) n w) ∧ evolve (facets w) fs)
  ∨ (∃ fs, install_at granted i f id w = (Throw bad_alloc, with_ fs (imps w) (S (next w)) w)
    ∧ wf L K (with_ fs (imps w) (S (next w)) w) ∧ evolve (facets w) fs ∧ granted (next w) = false).
Proof.
  intros Hw Hx Hf Hid Hr l. destruct (wf_add Hw (ex_intro _ _ Hf)) as (fs & Ha & Hw1 & He).
  unfold install_at. rewrite (cbind_ret _ _ _ _ _ Ha). clear Ha. set (w1 := with_ fs _ _ _) in *.
  assert (Hx1 : imps w1 !! i = Some x) by done. pose proof (w_L Hw f) as HL. pose proof (zlen_nonneg (items (facets_ x))) as Hz.
  destruct (make_room_spec id Hx1) as [[Hn _]|[(r & n & Hn & Hnext & Hm)|(_ & Hm & Hg)]]; [lia|lia|left|right].
  - rewrite (cbind_ret _ _ _ _ _ (on_throw_ret _ _ _ _ _ Hm)). clear Hm.
    pose proof (wf_grow (Z.to_nat (id + 1)) r n Hw1 Hx1 ltac:(lia) Hnext) as Hw2.
    set (big := resize _ _ _) in *. set (x2 := Imp (FVec big r) (name_ x) (i_count x)).
    destruct (live_after Hw1 He Hf) as (y1 & Hy1 & Hk); [rewrite plus_eq; lia|].
    destruct (wf_place (i:=i) (x:=x2) (f:=f) (y:=y1) (id:=id) Hw2) as (fs' & Hp & Hw3 & He');
      [cbn; apply lookup_insert_eq|exact Hy1|by rewrite <- Hk|cbn; unfold zlen, big; rewrite length_resize; lia|rewrite plus_eq; lia|].
    assert (Hput : ∀ v, put_items i x2 v (with_ (facets w1) (put_items i x (FVec big r) w1) n w1) = put_items i x v w).
    { intros v. unfold put_items. cbn. by rewrite insert_insert_eq. }
    cbn [facets_ items room x2] in Hp, Hw3. rewrite Hput in Hp, Hw3. exists fs', r, n. split; [done|]. split; [exact Hp|].
    split; [by apply plus_back_wf in Hw3|by apply (evolve_trans _ fs)].
  - destruct (wf_release (f:=f) (wf_next (S (next w1)) Hw1 (Nat.le_succ_diag_r _))) as (fs' & Hrel & Hw3 & He'); [rewrite plus_eq; lia|].
    exists fs'. split; [apply (cbind_throw _ _ _ _ _ (on_throw_throw _ _ _ _ _ _ Hm Hrel))|].
    split; [by apply plus_back_wf in Hw3|]. split; [by apply (evolve_trans _ fs)|done].
Qed.

(** ** Making tables *)

(** A new facet, with shares that are no table's. *)
Lemma wf_new_facet {L K w} k name n :
  wf L K w → -1 ≤ n →
  wf (plus L (next w) (n + 1)) K (with_ (<[next w := Facet k name n]> (facets w)) (imps w) (S (next w)) w).
Proof.
  intros Hw Hn. destruct (w_next Hw (next w) (le_n _)) as [Hf _]. set (p := next w) in *.
  assert (He : ∀ f y, f ≠ p → facets w !! f = Some y → <[p := Facet k name n]> (facets w) !! f = Some y) by (intros; by rewrite lookup_insert_ne).
  pose proof (w_facets Hw p) as Ht. rewrite Hf in Ht. pose proof (w_L Hw p) as HL. pose proof (refs_nonneg p (imps w)) as Hr.
  destruct Hw as [H1 H2 H3 H4 H5 H6 H7 H8]. split; try done; cbn.
  - intros q. destruct (decide (q = p)) as [->|].
    + rewrite lookup_insert_eq, plus_eq. cbn. lia.
    + rewrite lookup_insert_ne, plus_ne by done. apply H1.
  - apply plus_nonneg; [done|lia].
  - intros q Hq. rewrite lookup_insert_ne by lia. apply H4. lia.
  - intros i x Hx. destruct (H8 i x Hx) as [Hty Hc Hroom]. split; [|done|done]. intros j f Hj.
    destruct (Hty j f Hj) as (y & Hy & Hid). exists y. split; [|done]. apply He; [|done]. intros ->. congruence.
Qed.

Lemma operator_new_spec w :
  operator_new granted w = if granted (next w) then (Ret (next w), set_next (S (next w)) w) else (Throw bad_alloc, set_next (S (next w)) w).
Proof. unfold operator_new, new_address, cbind. by destruct (granted (next w)). Qed.

Lemma allocate_spec m w : ∃ n, (next w ≤ n)%nat ∧
  (allocate granted m w = (Ret tt, set_next n w) ∨ allocate granted m w = (Throw bad_alloc, set_next n w) ∧ N < m ∧ granted (next w) = false).
Proof.
  unfold allocate. destruct (Z.leb_spec m N); [exists (next w); split; [done|]; left; by destruct w|].
  exists (S (next w)). split; [lia|]. unfold cbind. rewrite operator_new_spec. destruct (granted (next w)); [by left|by right].
Qed.

(** The pointers of a table are copied. *)
Lemma copy_facets_spec {i o xi xo w} :
  imps w !! i = Some xi → imps w !! o = Some xo →
  ∃ n, (next w ≤ n)%nat ∧
    ((∃ r, zlen (items (facets_ xo)) ≤ r
      ∧ copy_facets granted i o w = (Ret tt, with_ (facets w) (put_items i xi (FVec (items (facets_ xo)) r) w) n w))
     ∨ (copy_facets granted i o w = (Throw bad_alloc, set_next n w) ∧ granted (next w) = false)).
Proof.
  intros Hi Ho. set (l := items (facets_ xo)).
  assert (Hput : ∀ r n, put_facets i (FVec l r) (set_next n w) = (Ret tt, with_ (facets w) (put_items i xi (FVec l r) w) n w)).
  { intros r n. unfold put_facets. rewrite (cbind_ret (get_imp i) _ (set_next n w) xi (set_next n w)) by (by apply get_imp_spec). by destruct w. }
  unfold copy_facets. rewrite (cbind_ret _ _ _ _ _ (get_imp_spec _ _ _ Hi)), (cbind_ret _ _ _ _ _ (get_imp_spec _ _ _ Ho)).
  unfold assign. fold l. destruct (Z.leb_spec (zlen l) (room (facets_ xi))).
  - exists (next w). split; [done|]. left. exists (room (facets_ xi)). split; [done|]. rewrite <- Hput. by destruct w.
  - destruct (allocate_spec (zlen l) w) as (n & Hn & [Ha|(Ha & _ & Hg)]); exists n; (split; [done|]).
    + left. exists (zlen l). split; [done|]. rewrite (cbind_ret (allocate _ _ ;;; _) _ w (FVec l (zlen l)) (set_next n w)); [apply Hput|].
      by rewrite (cbind_ret _ _ _ _ _ Ha).
    + right. split; [|done]. by do 2 apply cbind_throw.
Qed.

(** A new table has them, and a share of each is counted. *)
Lemma add_all_spec {L K w i o xo} r name n :
  wf L K w → imps w !! o = Some xo → (next w ≤ i < n)%nat → locs i w + K i = 0 → zlen (items (facets_ xo)) ≤ r →
  let is_ := <[i := Imp (FVec (items (facets_ xo)) r) name (-1)]> (imps w) in
  ∃ fs, add_all i (with_ (facets w) is_ n w) = (Ret tt, with_ fs is_ n w) ∧ wf L K (with_ fs is_ n w) ∧ evolve (facets w) fs.
Proof.
  intros Hw Ho Hi Hk Hr is_. destruct (w_next Hw i ltac:(lia)) as [_ Hn]. set (l := items (facets_ xo)) in *.
  destruct (add_each_spec l (with_ (facets w) is_ n w) _ (w_facets Hw)) as (fs & Ha & Ht & He).
  - intros f. pose proof (refs_nonneg f (imps w)). pose proof (w_L Hw f). cbn beta. lia.
  - intros f j Hj. destruct (wf_live Hw Ho Hj). pose proof (w_L Hw f). cbn beta. lia.
  - exists fs. split; [|split; [|done]].
    + unfold add_all, for_facets. rewrite (cbind_ret _ _ _ _ _ (get_imp_spec _ i _ (lookup_insert_eq _ _ _))). exact Ha.
    + apply (wf_update _ _ _ _ _ Hw); try done.
      * apply (tally_ext _ _ _ _ Ht). intros f. unfold refs, is_. rewrite total_add by done. cbn. fold l. lia.
      * apply (w_L Hw).
      * apply tally_new; [apply (w_imps Hw)|done|done].
      * lia.
      * intros p Hp. unfold is_. rewrite lookup_insert_ne by lia. apply (w_next Hw). lia.
      * intros j y. unfold is_. destruct (decide (j = i)) as [->|]; [rewrite lookup_insert_eq|rewrite lookup_insert_ne by done; apply (wf_fits Hw)].
        intros [= <-]. destruct (wf_fits Hw Ho) as (? & ? & _). done.
Qed.

Lemma copy_add_spec {L K w i o xo} v name n :
  wf L K w → imps w !! o = Some xo → (next w ≤ i < n)%nat → locs i w + K i = 0 →
  let w1 := with_ (facets w) (<[i := Imp v name (-1)]> (imps w)) n w in
  ∃ n', (n ≤ n')%nat ∧
  ((∃ fs r, (copy_facets granted i o ;;; add_all i) w1 = (Ret tt, with_ fs (<[i := Imp (FVec (items (facets_ xo)) r) name (-1)]> (imps w)) n' w)
     ∧ wf L K (with_ fs (<[i := Imp (FVec (items (facets_ xo)) r) name (-1)]> (imps w)) n' w) ∧ evolve (facets w) fs)
  ∨ ((copy_facets granted i o ;;; add_all i) w1 = (Throw bad_alloc, set_next n' w1) ∧ granted n = false)).
Proof.
  intros Hw Ho Hi Hk w1. destruct (w_next Hw i ltac:(lia)) as [_ Hn].
  assert (Ho1 : imps w1 !! o = Some xo) by (cbn; rewrite lookup_insert_ne; [done|congruence]).
  destruct (copy_facets_spec (lookup_insert_eq _ _ _ : imps w1 !! i = Some (Imp v name (-1))) Ho1) as (n' & Hn' & [(r & Hr & Hc)|[Hc Hg]]);
    exists n'; (split; [done|]).
  - assert (Hi' : (next w ≤ i < n')%nat) by (cbn in Hn'; lia).
    left. destruct (add_all_spec r name n' Hw Ho Hi' Hk Hr) as (fs & Ha & Hw2 & He). exists fs, r. split; [|done].
    rewrite (cbind_ret _ _ _ _ _ Hc). unfold put_items. cbn [imps w1 with_ set_next set_imps set_facets name_ i_count]. rewrite insert_insert_eq. exact Ha.
  - right. split; [by apply cbind_throw|done].
Qed.

(** ** Filling a table *)

Section fill.
Context {L K : nat → Z} (w0 : world) (i : nat) (name : bytes).

(** The world while the table is filled. *)
Definition built (l : list (option nat)) (r : Z) (fs : gmap nat facet) (n : nat) : world :=
  with_ fs (<[i := Imp (FVec l r) name (-1)]> (imps w0)) n w0.

Context (m : facet_key → comp world unit) (P : facet_key → nat → gmap nat facet → nat → Prop) (may_throw : Prop).

(** Later worlds keep what is known of the facets that are installed. *)
Context (stable : ∀ k f fs fs' n n', P k f fs n → evolve_from n fs fs' → is_Some (fs' !! f) → (n ≤ n')%nat → P k f fs' n').

Context (step : ∀ k j l r fs n, wf L K (built l r fs n) → k ∈ standard → id_ w0 k = Some (Z.of_nat j + 1) → (j < length l)%nat →
  ∃ n', (n ≤ n')%nat ∧
  ((∃ fs' f, m k (built l r fs n) = (Ret tt, built (<[j := Some f]> l) r fs' n') ∧ wf L K (built (<[j := Some f]> l) r fs' n')
      ∧ evolve_from n fs fs' ∧ P k f fs' n')
   ∨ (may_throw ∧ ∃ e, m k (built l r fs n) = (Throw e, built l r fs n')))).

Definition filled (ks : list facet_key) (l l' : list (option nat)) (fs' : gmap nat facet) (n' : nat) : Prop :=
  ∀ j, (∃ k f, k ∈ ks ∧ id_ w0 k = Some (Z.of_nat j + 1) ∧ l' !! j = Some (Some f) ∧ P k f fs' n')
    ∨ ((∀ k, k ∈ ks → id_ w0 k ≠ Some (Z.of_nat j + 1)) ∧ l' !! j = l !! j).

Lemma built_live l r fs n j f : wf L K (built l r fs n) → l !! j = Some (Some f) → is_Some (fs !! f).
Proof. intros Hw Hj. by destruct (wf_live Hw (lookup_insert_eq _ _ _ : imps (built l r fs n) !! i = _) Hj). Qed.

Lemma built_place l r fs n k : wf L K (built l r fs n) → k ∈ standard → ∃ j, id_ w0 k = Some (Z.of_nat j + 1) ∧ (j < length l)%nat.
Proof.
  intros Hw Hk. destruct (wf_fits Hw (lookup_insert_eq _ _ _ : imps (built l r fs n) !! i = _)) as (_ & Hc & _).
  destruct (Hc k Hk) as (j & f & Hj & Hf). exists j. split; [done|]. by eapply lookup_lt_Some.
Qed.

Lemma each_fills ks l r fs n :
  wf L K (built l r fs n) → (∀ k, k ∈ ks → k ∈ standard) →
  ∃ l' fs' n', (n ≤ n')%nat ∧ evolve_from n fs fs' ∧ wf L K (built l' r fs' n') ∧ length l' = length l
    ∧ ((each m ks (built l r fs n) = (Ret tt, built l' r fs' n') ∧ filled ks l l' fs' n')
       ∨ (may_throw ∧ ∃ e, each m ks (built l r fs n) = (Throw e, built l' r fs' n'))).
Proof.
  revert l fs n. induction ks as [|k ks IH]; intros l fs n Hw Hks.
  - exists l, fs, n. split; [done|]. split; [auto|]. split; [done|]. split; [done|]. left. split; [done|].
    intros j. right. split; [|done]. intros k Hk. by apply not_elem_of_nil in Hk.
  - destruct (built_place l r fs n k Hw) as (j & Hj & Hl); [by apply Hks; left|].
    destruct (step k j l r fs n Hw ltac:(by apply Hks; left) Hj Hl) as (n1 & Hn1 & [(fs1 & f & Hm & Hw1 & He1 & HP)|(Hthrow & e & Hm)]).
    + destruct (IH (<[j := Some f]> l) fs1 n1 Hw1) as (l' & fs' & n' & Hn' & He' & Hw' & Hlen & Hr); [intros; apply Hks; by right|].
      exists l', fs', n'. split; [lia|]. split; [by apply (evolve_from_trans _ n1 _ fs1)|]. split; [done|]. split; [by rewrite Hlen, length_insert|].
      cbn [each]. rewrite (cbind_ret _ _ _ _ _ Hm). destruct Hr as [[Hr Hf]|Hr]; [left; split; [done|]|by right].
      intros j'. destruct (Hf j') as [(k' & f' & Hk' & H')|[Hno Hl']]; [left; exists k', f'; split; [by right|done]|].
      destruct (decide (j' = j)) as [->|Hne].
      * rewrite list_lookup_insert_eq in Hl' by done. left. exists k, f. split; [by left|]. split; [done|]. split; [done|].
        apply (stable _ _ fs1 _ n1); [done|done| |done]. by eapply built_live.
      * right. rewrite list_lookup_insert_ne in Hl' by done. split; [|done]. intros k' [->|Hk']%elem_of_cons; [rewrite Hj; intros [= ?]; lia|by apply Hno].
    + exists l, fs, n1. split; [done|]. split; [auto|]. split; [by apply (wf_next n1 Hw)|]. split; [done|]. right. split; [done|].
      exists e. cbn [each]. by apply cbind_throw.
Qed.
End fill.

Lemma id_get_known k w j : id_ w k = Some (j + 1) → id_get k w = (Ret j, w).
Proof. unfold id_get. intros ->. do 2 f_equal. lia. Qed.

(** The name of an exception that is not for want of memory, as a table by name may end. *)
Definition from_byname (name : bytes) (k : facet_key) (f : nat) (fs : gmap nat facet) (n : nat) : Prop :=
  (f < n)%nat ∧ ∃ y, fs !! f = Some y ∧ f_key y = k ∧ f_name y = Some name.

Lemma from_byname_stable name k f fs fs' n n' :
  from_byname name k f fs n → evolve_from n fs fs' → is_Some (fs' !! f) → (n ≤ n')%nat → from_byname name k f fs' n'.
Proof.
  intros [Hf (y & Hy & Hk & Hn)] He Hl Hn'. split; [lia|].
  destruct (evolve_from_live _ _ _ _ _ He Hy Hf Hl) as (z & Hz & (H1 & H2 & _)). exists z. split; [done|]. split; congruence.
Qed.

Lemma new_byname_spec {L K} name k w :
  wf L K w → ∃ n, (next w ≤ n)%nat ∧
    ((∃ e, new_byname granted known fails name k w = (Throw e, set_next n w))
     ∨ (let fs := <[next w := Facet k (Some name) (-1)]> (facets w) in
        new_byname granted known fails name k w = (Ret (next w), with_ fs (imps w) n w)
        ∧ wf L K (with_ fs (imps w) n w) ∧ (next w < n)%nat)).
Proof.
  intros Hw. exists (S (next w)). split; [lia|]. unfold new_byname, cbind. rewrite operator_new_spec.
  destruct (granted (next w)); [|left; by eexists]. destruct (_ && _); [left; by eexists|]. destruct (fails k name); [left; by eexists|].
  right. pose proof (wf_new_facet k (Some name) (-1) Hw ltac:(lia)) as Hw'. split; [done|]. split; [|lia].
  apply (wf_ext _ _ Hw'); [|done]. intros f. unfold plus. case_decide; lia.
Qed.

Lemma install_new_step {L K} w0 i name name' k j l r fs n :
  wf L K (built w0 i name l r fs n) → id_ w0 k = Some (Z.of_nat j + 1) → (j < length l)%nat →
  ∃ n', (n ≤ n')%nat ∧
  ((∃ fs' f, install_new granted known fails i name' k (built w0 i name l r fs n) = (Ret tt, built w0 i name (<[j := Some f]> l) r fs' n')
      ∧ wf L K (built w0 i name (<[j := Some f]> l) r fs' n') ∧ evolve_from n fs fs' ∧ from_byname name' k f fs' n')
   ∨ (True ∧ ∃ e, install_new granted known fails i name' k (built w0 i name l r fs n) = (Throw e, built w0 i name l r fs n'))).
Proof.
  intros Hw Hj Hl. unfold install_new.
  destruct (new_byname_spec name' k _ Hw) as (n' & Hn & [(e & He)|(Ha & Hw1 & Hlt)]); exists n'; (split; [done|]).
  { right. split; [done|]. exists e. by apply cbind_throw. }
  left. rewrite (cbind_ret _ _ _ _ _ Ha). clear Ha. set (w := built w0 i name l r fs n) in *. set (fs1 := <[next w := Facet k (Some name') (-1)]> (facets w)) in *.
  set (w1 := with_ fs1 _ _ _) in *. unfold install. rewrite (cbind_ret _ _ w1 _ _ (id_get_known k w1 (Z.of_nat j) Hj)).
  assert (Hx : imps w1 !! i = Some (Imp (FVec l r) name (-1))) by apply lookup_insert_eq.
  assert (Hf : facets w1 !! next w = Some (Facet k (Some name') (-1))) by apply lookup_insert_eq.
  destruct (install_at_in (id:=Z.of_nat j) Hw1 Hx Hf Hj) as (fs2 & Hi & Hw2 & He2); [cbn; unfold zlen; lia|].
  cbn [facets_ items room] in Hi, Hw2. rewrite Nat2Z.id in Hi, Hw2.
  assert (Hput : put_items i (Imp (FVec l r) name (-1)) (FVec (<[j:=Some (next w)]> l) r) w1 = <[i := Imp (FVec (<[j:=Some (next w)]> l) r) name (-1)]> (imps w0)).
  { unfold put_items. cbn. by rewrite insert_insert_eq. }
  rewrite Hput in Hi, Hw2. exists fs2, (next w). split; [exact Hi|]. split; [exact Hw2|].
  split.
  { intros g y Hy. destruct (He2 g y Hy) as (x & Hgx & Hs). destruct (decide (g = next w)) as [->|Hg].
    - right. split; [done|]. pose proof (w_facets Hw2 (next w)) as Hc. change (facets _) with fs2 in Hc. rewrite Hy in Hc.
      assert (Hr : 1 ≤ refs (next w) (<[i := Imp (FVec (<[j := Some (next w)]> l) r) name (-1)]> (imps w0))).
      { eapply refs_elem; [apply lookup_insert_eq|]. cbn. by apply list_lookup_insert_eq. }
      pose proof (w_L Hw2 (next w)). change (imps _) with (<[i := Imp (FVec (<[j := Some (next w)]> l) r) name (-1)]> (imps w0)) in Hc. cbn beta in Hc. lia.
    - left. change (fs1 !! g = Some x) in Hgx. unfold fs1 in Hgx. rewrite lookup_insert_ne in Hgx by done. by exists x. }
  apply (from_byname_stable _ _ _ fs1 _ n'); [|by apply evolve_evolve_from| |done].
  - split; [done|]. eexists. split; [exact Hf|]. done.
  - eapply (built_live w0 i name _ _ _ _ j); [exact Hw2|]. by rewrite list_lookup_insert_eq.
Qed.

(** What is installed from another table is what it has. *)
Definition from_table (w0 : world) (o : imp) (k : facet_key) (f : nat) (fs : gmap nat facet) (n : nat) : Prop :=
  ∃ j, id_ w0 k = Some (Z.of_nat j + 1) ∧ items (facets_ o) !! j = Some (Some f).

Lemma install_from_step {L K} w0 i name one o k j l r fs n :
  wf L K (built w0 i name l r fs n) → imps w0 !! one = Some o → one ≠ i → k ∈ standard → id_ w0 k = Some (Z.of_nat j + 1) → (j < length l)%nat →
  ∃ n', (n ≤ n')%nat ∧
  ((∃ fs' f, install_from granted i one k (built w0 i name l r fs n) = (Ret tt, built w0 i name (<[j := Some f]> l) r fs' n')
      ∧ wf L K (built w0 i name (<[j := Some f]> l) r fs' n') ∧ evolve_from n fs fs' ∧ from_table w0 o k f fs' n')
   ∨ (False ∧ ∃ e, install_from granted i one k (built w0 i name l r fs n) = (Throw e, built w0 i name l r fs n'))).
Proof.
  intros Hw Ho Hne Hk Hj Hl. exists n. split; [done|]. left. set (w := built w0 i name l r fs n) in *.
  assert (Hx : imps w !! i = Some (Imp (FVec l r) name (-1))) by apply lookup_insert_eq.
  assert (Ho1 : imps w !! one = Some o) by (cbn; by rewrite lookup_insert_ne).
  destruct (wf_fits Hw Ho1) as (Hty & Hc & _). destruct (Hc k Hk) as (j' & f & Hj' & Hf).
  assert (j' = j) as -> by (cbn in Hj'; rewrite Hj in Hj'; injection Hj'; lia).
  destruct (Hty j f Hf) as (y & Hy & Hid).
  unfold install_from. rewrite (cbind_ret _ _ w _ _ (id_get_known k w (Z.of_nat j) Hj)).
  rewrite (cbind_ret _ _ w f w) by (unfold imp_use_facet; rewrite (cbind_ret _ _ _ _ _ (get_imp_spec _ _ _ Ho1)), Nat2Z.id, Hf; done).
  destruct (install_at_in (id:=Z.of_nat j) Hw Hx Hy Hid) as (fs2 & Hi & Hw2 & He2); [cbn; unfold zlen; lia|].
  cbn [facets_ items room] in Hi, Hw2. rewrite Nat2Z.id in Hi, Hw2.
  assert (Hput : put_items i (Imp (FVec l r) name (-1)) (FVec (<[j:=Some f]> l) r) w = <[i := Imp (FVec (<[j:=Some f]> l) r) name (-1)]> (imps w0)).
  { unfold put_items. cbn. by rewrite insert_insert_eq. }
  rewrite Hput in Hi, Hw2. exists fs2, f. split; [exact Hi|]. split; [exact Hw2|]. split; [by apply evolve_evolve_from|]. by exists j.
Qed.

(** ** The constructors of tables *)

Definition no_memory : Prop := ∃ p, granted p = false.

(** How a constructor ends: with a new table, or with none and an exception. *)
Definition makes (L K : nat → Z) (w : world) (name : bytes) (res : outcome nat * world) (Q : list (option nat) → gmap nat facet → nat → Prop) (may_throw : Prop) : Prop :=
  ∃ fs n, (next w ≤ n)%nat ∧ evolve_from (next w) (facets w) fs ∧
    ((∃ l r, res = (Ret (next w), built w (next w) name l r fs n) ∧ (next w < n)%nat ∧ wf L K (built w (next w) name l r fs n) ∧ Q l fs n)
     ∨ (may_throw ∧ ∃ e, res = (Throw e, with_ fs (imps w) n w) ∧ wf L K (with_ fs (imps w) n w))).

Definition forget (i : nat) : comp world unit := cmodify (λ w, set_imps (delete i (imps w)) w).

(** A table that is given up again. *)
Lemma undo_built {L K w i name l r fs n} :
  wf L K (built w i name l r fs n) → imps w !! i = None → locs i w + K i = 0 →
  ∃ fs', release_all i (built w i name l r fs n) = (Ret tt, built w i name l r fs' n)
    ∧ forget i (built w i name l r fs' n) = (Ret tt, with_ fs' (imps w) n w) ∧ wf L K (with_ fs' (imps w) n w) ∧ evolve fs fs'.
Proof.
  intros Hw Hi Hk. destruct (release_all_spec Hw (lookup_insert_eq _ _ _ : imps (built w i name l r fs n) !! i = _) Hk) as (fs' & Hr & Hw' & He).
  exists fs'. split; [exact Hr|]. assert (Hd : delete i (imps (built w i name l r fs n)) = imps w) by (cbn; by rewrite delete_insert_id).
  split; [|split; [by rewrite Hd in Hw'|exact He]]. unfold forget, cmodify. change (imps (built w i name l r fs' n)) with (imps (built w i name l r fs n)). by rewrite Hd.
Qed.

Lemma new_imp_spec c name ctor w :
  0 ≤ c → ∃ n, (next w < n)%nat ∧
    ((new_imp granted c name ctor w = (Throw bad_alloc, set_next n w) ∧ no_memory)
     ∨ new_imp granted c name ctor w
       = (on_throw (ctor (next w)) (forget (next w)) ;;; cret (next w)) (with_ (facets w) (<[next w := Imp (FVec (replicate (Z.to_nat c) None) c) name (-1)]> (imps w)) n w)).
Proof.
  intros Hc. unfold new_imp. destruct (granted (next w)) eqn:Hg.
  2:{ exists (S (next w)). split; [lia|]. left. split; [|by eexists]. apply cbind_throw. rewrite operator_new_spec. by rewrite Hg. }
  rewrite (cbind_ret (operator_new granted) _ w (next w) (set_next (S (next w)) w)) by (rewrite operator_new_spec; by rewrite Hg).
  destruct (allocate_spec c (set_next (S (next w)) w)) as (n & Hn & [Ha|(Ha & _ & Hf)]); exists n; (split; [cbn in Hn; lia|]).
  - right. unfold vector_of. rewrite (cbind_ret (allocate granted c ;;; _) _ _ (FVec (replicate (Z.to_nat c) None) c) (set_next n w)) by (by rewrite (cbind_ret _ _ _ _ _ Ha)).
    erewrite cbind_ret; [|done]. by destruct w.
  - left. split; [|by eexists]. apply cbind_throw. unfold vector_of. by apply cbind_throw.
Qed.

Lemma fresh_imp {L K w} : wf L K w → imps w !! next w = None ∧ locs (next w) w + K (next w) = 0.
Proof. intros Hw. destruct (w_next Hw _ (le_n _)) as [_ Hi]. split; [done|]. pose proof (w_imps Hw (next w)) as Ht. by rewrite Hi in Ht. Qed.

Lemma seq_ret {A} (a b : comp world unit) (k : comp world A) w w' : (a ;;; b) w = (Ret tt, w') → (a ;;; b ;;; k) w = k w'.
Proof. unfold cbind. destruct (a w) as [[] w1]; try done. intros H. by rewrite H. Qed.

Lemma seq_throw {A} (a b : comp world unit) (k : comp world A) w e w' : (a ;;; b) w = (Throw e, w') → (a ;;; b ;;; k) w = (Throw e, w').
Proof. unfold cbind. destruct (a w) as [[] w1]; try done; [intros H; by rewrite H|by intros [= -> ->]]. Qed.

Lemma on_throw_after {A B} (m : comp world A) (k : A → comp world B) h w a w' :
  m w = (Ret a, w') → on_throw (let* x := m in k x) h w = on_throw (k a) h w'.
Proof. intros Hm. unfold on_throw. by rewrite (cbind_ret _ _ _ _ _ Hm). Qed.

Lemma cbind_eq {A B} (m m' : comp world A) (k : A → comp world B) w w' : m w = m' w' → cbind m k w = cbind m' k w'.
Proof. unfold cbind. by intros ->. Qed.

Lemma on_throw_eq {A} (m : comp world A) h w m' w' : m w = m' w' → on_throw m h w = on_throw m' h w'.
Proof. unfold on_throw. by intros ->. Qed.

(** A table that was begun, and whose constructor threw before anything was counted. *)
Lemma forget_begun {L K w} v v' name n n' e (m : comp world unit) :
  wf L K w → m (with_ (facets w) (<[next w := Imp v name (-1)]> (imps w)) n w) = (Throw e, with_ (facets w) (<[next w := Imp v' name (-1)]> (imps w)) n' w) →
  (on_throw m (forget (next w)) ;;; cret (next w)) (with_ (facets w) (<[next w := Imp v name (-1)]> (imps w)) n w) = (Throw e, set_next n' w).
Proof.
  intros Hw Hm. destruct (fresh_imp Hw) as [Hi _]. apply cbind_throw. eapply on_throw_throw; [exact Hm|].
  unfold forget, cmodify. cbn. rewrite delete_insert_id by done. by destruct w.
Qed.

Lemma makes_nothing {L K w} name e n Q may_throw : wf L K w → (next w ≤ n)%nat → may_throw → makes L K w name (Throw e, set_next n w) Q may_throw.
Proof.
  intros Hw Hn Hm. exists (facets w), n. split; [done|]. split; [auto|]. right. split; [done|]. exists e. split; [by destruct w|]. by apply (wf_next n Hw).
Qed.

(** Filling some places of a new table, and giving it up if that throws. *)
Lemma makes_fill {L K w} name m ks P may_throw l r fs n :
  wf L K w → wf L K (built w (next w) name l r fs n) → evolve_from (next w) (facets w) fs → (next w < n)%nat → (∀ k, k ∈ ks → k ∈ standard) →
  (∀ k f fs fs' n n', P k f fs n → evolve_from n fs fs' → is_Some (fs' !! f) → (n ≤ n')%nat → P k f fs' n') →
  (∀ k j l r fs n, wf L K (built w (next w) name l r fs n) → k ∈ standard → id_ w k = Some (Z.of_nat j + 1) → (j < length l)%nat →
    ∃ n', (n ≤ n')%nat ∧
    ((∃ fs' f, m k (built w (next w) name l r fs n) = (Ret tt, built w (next w) name (<[j := Some f]> l) r fs' n')
        ∧ wf L K (built w (next w) name (<[j := Some f]> l) r fs' n') ∧ evolve_from n fs fs' ∧ P k f fs' n')
     ∨ (may_throw ∧ ∃ e, m k (built w (next w) name l r fs n) = (Throw e, built w (next w) name l r fs n')))) →
  makes L K w name ((on_throw (on_throw (each m ks) (release_all (next w))) (forget (next w)) ;;; cret (next w)) (built w (next w) name l r fs n))
    (filled w P ks l) may_throw.
Proof.
  intros Hw Hb He Hn Hks Hst Hstep. destruct (fresh_imp Hw) as [Hi Hk].
  destruct (each_fills w (next w) name m P may_throw Hst Hstep ks l r fs n Hb Hks) as (l' & fs' & n' & Hn' & He' & Hb' & _ & [[Hr Hf]|(Ht & e & Hr)]).
  - exists fs', n'. split; [lia|]. split; [by apply (evolve_from_trans _ n _ fs); [..|lia]|]. left. exists l', r.
    split; [|split; [lia|by split]]. rewrite (cbind_ret _ _ _ _ _ (on_throw_ret _ _ _ _ _ (on_throw_ret _ _ _ _ _ Hr))). done.
  - destruct (undo_built Hb' Hi Hk) as (fs2 & Hrel & Hfor & Hw2 & He2).
    exists fs2, n'. split; [lia|]. split.
    { apply (evolve_from_trans _ n _ fs); [done| |lia]. by apply (evolve_from_trans _ n' _ fs'); [|apply evolve_evolve_from|]. }
    right. split; [done|]. exists e. split; [|done]. apply cbind_throw. by do 2 (eapply on_throw_throw; [|eassumption]).
Qed.

Lemma all_standard k l : bool_decide (Forall (λ k, k ∈ standard) l) = true → k ∈ l → k ∈ standard.
Proof. intros Hl Hk. apply bool_decide_eq_true in Hl. by eapply Forall_forall in Hl. Qed.

Ltac in_categories H :=
  repeat (apply elem_of_app in H as [H|H]); (destruct (in_category _ _); [|by apply elem_of_nil in H]); (eapply all_standard; [|exact H]; reflexivity).

Lemma standard_of_standard c k : k ∈ standard_of c → k ∈ standard.
Proof. unfold standard_of. intros Hk. in_categories Hk. Qed.

Lemma by_name_of_standard c k : k ∈ by_name_of c → k ∈ standard.
Proof. unfold by_name_of. intros Hk. in_categories Hk. Qed.

Lemma by_name_standard k : k ∈ by_name → k ∈ standard.
Proof. by apply all_standard. Qed.

(** [__imp(other, one, c)]: no exception but for want of memory. *)
Lemma imp_with_one_spec {L K w o xo one x1} c :
  wf L K w → imps w !! o = Some xo → imps w !! one = Some x1 →
  makes L K w (str "*") (imp_with_one granted o one c w) (filled w (from_table w x1) (standard_of c) (items (facets_ xo))) no_memory.
Proof.
  intros Hw Ho H1. destruct (fresh_imp Hw) as [Hi Hk]. unfold imp_with_one.
  destruct (new_imp_spec N (str "*") (λ this, copy_facets granted this o ;;; add_all this ;;;
    on_throw (each (install_from granted this one) (standard_of c)) (release_all this)) w) as (n & Hn & [[Hr Hg]|Hr]); [done| |]; rewrite Hr; clear Hr.
  { apply makes_nothing; [done|lia|done]. }
  destruct (copy_add_spec (FVec (replicate (Z.to_nat N) None) N) (str "*") n Hw Ho (conj (le_n _) Hn) Hk) as (n' & Hn' & [(fs & r & Ha & Hb & He)|[Ha Hg]]).
  - rewrite (cbind_eq _ _ _ _ _ (on_throw_eq _ _ _ _ _ (seq_ret _ _ _ _ _ Ha))).
    apply makes_fill; try done; [by apply evolve_evolve_from|lia|by apply standard_of_standard|].
    intros k j l r' fs' m Hb' Hk' Hj Hl. destruct (install_from_step (L:=L) (K:=K) w (next w) (str "*") one x1 k j l r' fs' m) as (n2 & Hn2 & [Hok|[[] _]]); try done; [congruence|].
    exists n2. split; [done|by left].
  - rewrite (forget_begun _ _ _ _ _ _ _ Hw (seq_throw _ _ _ _ _ _ Ha)). apply makes_nothing; [done|lia|by eexists].
Qed.

(** [__imp(other, name, c)]. *)
Lemma imp_with_named_spec {L K w o xo} name c :
  wf L K w → imps w !! o = Some xo →
  makes L K w (str "*") (imp_with_named granted known fails o name c w) (filled w (from_byname name) (by_name_of c) (items (facets_ xo))) True.
Proof.
  intros Hw Ho. destruct (fresh_imp Hw) as [Hi Hk]. unfold imp_with_named.
  destruct (new_imp_spec N (str "*") (λ this, copy_facets granted this o ;;; add_all this ;;;
    on_throw (each (install_new granted known fails this name) (by_name_of c)) (release_all this)) w) as (n & Hn & [[Hr Hg]|Hr]); [done| |]; rewrite Hr; clear Hr.
  { apply makes_nothing; [done|lia|done]. }
  destruct (copy_add_spec (FVec (replicate (Z.to_nat N) None) N) (str "*") n Hw Ho (conj (le_n _) Hn) Hk) as (n' & Hn' & [(fs & r & Ha & Hb & He)|[Ha Hg]]).
  - rewrite (cbind_eq _ _ _ _ _ (on_throw_eq _ _ _ _ _ (seq_ret _ _ _ _ _ Ha))).
    apply makes_fill; try done; [by apply evolve_evolve_from|lia|by apply by_name_of_standard|by apply from_byname_stable|].
    intros k j l r' fs' m Hb' _. by apply install_new_step.
  - rewrite (forget_begun _ _ _ _ _ _ _ Hw (seq_throw _ _ _ _ _ _ Ha)). by apply makes_nothing; [done|lia|].
Qed.

(** [__imp(name)], over the table of the classic locale. *)
Lemma imp_named_spec {L K w o xo} name :
  wf L K w → classic_ w = Some o → imps w !! o = Some xo →
  makes L K w name (imp_named granted known fails name w) (filled w (from_byname name) by_name (items (facets_ xo))) True.
Proof.
  intros Hw Hc Ho. destruct (fresh_imp Hw) as [Hi Hk]. unfold imp_named.
  destruct (new_imp_spec N name (λ this,
    on_throw (let* c := classic granted in copy_facets granted this c ;;; add_all this ;;; each (install_new granted known fails this name) by_name)
      (release_all this)) w) as (n & Hn & [[Hr Hg]|Hr]); [done| |]; rewrite Hr; clear Hr.
  { apply makes_nothing; [done|lia|done]. }
  set (w1 := with_ (facets w) (<[next w := _]> _) n w).
  assert (Hcl : classic granted w1 = (Ret o, w1)) by (unfold classic, cbind, cget; cbn; by rewrite Hc).
  rewrite (cbind_eq _ _ _ _ _ (on_throw_eq _ _ _ _ _ (on_throw_after _ _ _ _ _ _ Hcl))). subst w1.
  destruct (copy_add_spec (FVec (replicate (Z.to_nat N) None) N) name n Hw Ho (conj (le_n _) Hn) Hk) as (n' & Hn' & [(fs & r & Ha & Hb & He)|[Ha Hg]]).
  - rewrite (cbind_eq _ _ _ _ _ (on_throw_eq _ _ _ _ _ (on_throw_eq _ _ _ _ _ (seq_ret _ _ _ _ _ Ha)))).
    apply makes_fill; try done; [by apply evolve_evolve_from|lia|by apply by_name_standard|by apply from_byname_stable|].
    intros k j l r' fs' m Hb' _. by apply install_new_step.
  - assert (Hrel : release_all (next w) (set_next n' (with_ (facets w) (<[next w := Imp (FVec (replicate (Z.to_nat N) None) N) name (-1)]> (imps w)) n w))
      = (Ret tt, with_ (facets w) (<[next w := Imp (FVec (replicate (Z.to_nat N) None) N) name (-1)]> (imps w)) n' w)).
    { unfold release_all, for_facets. erewrite cbind_ret by (apply get_imp_spec, lookup_insert_eq). reflexivity. }
    rewrite (forget_begun _ _ _ _ _ _ _ Hw (on_throw_throw _ _ _ _ _ _ (seq_throw _ _ _ _ _ _ Ha) Hrel)). by apply makes_nothing; [done|lia|].
Qed.

(** ** A table with a facet of the program *)

Lemma add_shared_frame f w w' fs : add_shared f w = (Ret tt, set_facets fs w) → facets w' = facets w → add_shared f w' = (Ret tt, set_facets fs w').
Proof.
  unfold add_shared, cbind, get_facet, put_facet, cmodify. intros Ha Hf. rewrite Hf. revert Ha. destruct (facets w !! f); [|discriminate].
  intros [= Ha]. by rewrite Hf, Ha.
Qed.

Lemma release_shared_frame f w w' fs : release_shared f w = (Ret tt, set_facets fs w) → facets w' = facets w → release_shared f w' = (Ret tt, set_facets fs w').
Proof.
  unfold release_shared, cbind, get_facet, put_facet, cmodify. intros Ha Hf. rewrite Hf. revert Ha. destruct (facets w !! f); [|discriminate].
  case_match; intros [= Ha]; by rewrite Hf, Ha.
Qed.

(** The places of a table when a facet has got the one of its class. *)
Definition placed (id : Z) (f : nat) (l : list (option nat)) : list (option nat) :=
  <[Z.to_nat id := Some f]> (if decide (zlen l ≤ id) then resize (Z.to_nat (id + 1)) None l else l).

(** A table that is not released: its facets keep their shares. *)
Lemma forget_leaks {L K w i name l r fs n} :
  wf L K (built w i name l r fs n) → imps w !! i = None → locs i w + K i = 0 → (∀ p, (n ≤ p)%nat → imps w !! p = None) →
  (∀ j x, imps w !! j = Some x → fits (built w i name l r fs n) x) →
  forget i (built w i name l r fs n) = (Ret tt, with_ fs (imps w) n w) ∧ wf (λ g, L g + occ g l) K (with_ fs (imps w) n w).
Proof.
  intros Hw Hi Hk Hn Hf. split; [unfold forget, cmodify; cbn; by rewrite delete_insert_id|].
  change (with_ fs (imps w) n w) with (with_ fs (imps w) n (built w i name l r fs n)).
  apply (wf_update _ _ _ _ _ Hw); try done.
  - apply (tally_ext _ _ _ _ (w_facets Hw)). intros g. unfold refs. cbn. rewrite total_add by done. cbn. lia.
  - intros g. pose proof (w_L Hw g). pose proof (occ_nonneg g l). lia.
  - assert (Hd : imps w = delete i (imps (built w i name l r fs n))) by (cbn; by rewrite delete_insert_id).
    rewrite Hd. apply tally_drop; [apply (w_imps Hw)|exact Hk].
Qed.

Lemma fits_built {L K w i name l r fs n} j x : wf L K (built w i name l r fs n) → imps w !! i = None → imps w !! j = Some x → fits (built w i name l r fs n) x.
Proof. intros Hw Hi Hj. apply (wf_fits (i:=j) Hw). cbn. rewrite lookup_insert_ne; [done|congruence]. Qed.

(** [install] of the facet in the new table, where the constructor holds a share. *)
Lemma install_own {L K w name l r fs n f y id} :
  wf (plus L f 1) K (built w (next w) name l r fs n) → imps w !! next w = None → locs (next w) w + K (next w) = 0 → (∀ p, (n ≤ p)%nat → imps w !! p = None) →
  (∀ g, 0 ≤ L g) → fs !! f = Some y → id_ w (f_key y) = Some (id + 1) → 0 ≤ id →
  let m := on_throw (install_at granted (next w) f id) (release_shared f) ;;; release_shared f in
  ∃ fs' n', (n ≤ n')%nat ∧ evolve fs fs' ∧
    ((∃ r', m (built w (next w) name l r fs n) = (Ret tt, built w (next w) name (placed id f l) r' fs' n') ∧ wf L K (built w (next w) name (placed id f l) r' fs' n'))
     ∨ (no_memory ∧ m (built w (next w) name l r fs n) = (Throw bad_alloc, built w (next w) name l r fs' n')
        ∧ forget (next w) (built w (next w) name l r fs' n') = (Ret tt, with_ fs' (imps w) n' w) ∧ wf (λ g, L g + occ g l) K (with_ fs' (imps w) n' w))).
Proof.
  intros Hw Hi Hk Hn HL Hf Hid Hpos m. set (i := next w) in *.
  assert (Hx : imps (built w i name l r fs n) !! i = Some (Imp (FVec l r) name (-1))) by apply lookup_insert_eq.
  assert (Hput : ∀ v, put_items i (Imp (FVec l r) name (-1)) v (built w i name l r fs n) = <[i := Imp v name (-1)]> (imps w)).
  { intros v. unfold put_items. cbn. by rewrite insert_insert_eq. }
  (* the share of the constructor is given back *)
  assert (Hback : ∀ l' r' fs1 n1, wf (plus L f 1) K (built w i name l' r' fs1 n1) → ∃ fs2,
    release_shared f (built w i name l' r' fs1 n1) = (Ret tt, built w i name l' r' fs2 n1) ∧ wf L K (built w i name l' r' fs2 n1) ∧ evolve fs1 fs2).
  { intros l' r' fs1 n1 Hw1. destruct (wf_release (f:=f) Hw1) as (fs2 & Hr & Hw2 & He2); [rewrite plus_eq; specialize (HL f); lia|].
    exists fs2. split; [exact Hr|]. split; [by apply plus_back_wf in Hw2|exact He2]. }
  destruct (Z.leb_spec (zlen l) id) as [Hl|Hl].
  - destruct (install_at_out Hw Hx Hf Hid Hl) as [(fs1 & r1 & n1 & Hn1 & Ha & Hw1 & He1)|(fs1 & Ha & Hw1 & He1 & Hg)]; cbn [facets_ items] in *.
    + rewrite Hput in Ha, Hw1. destruct (Hback _ _ _ _ Hw1) as (fs2 & Hr & Hw2 & He2). exists fs2, n1.
      split; [done|]. split; [by apply (evolve_trans _ fs1)|left; exists r1].
      unfold placed. rewrite decide_True by done. split; [|exact Hw2]. unfold m. by rewrite (cbind_ret _ _ _ _ _ (on_throw_ret _ _ _ _ _ Ha)).
    + destruct (Hback l r fs1 (S n) Hw1) as (fs2 & Hr & Hw2 & He2). exists fs2, (S n). split; [lia|]. split; [by apply (evolve_trans _ fs1)|]. right.
      split; [by eexists|]. split; [unfold m; apply cbind_throw; eapply on_throw_throw; [exact Ha|exact Hr]|].
      apply (forget_leaks Hw2 Hi Hk); [intros p Hp; apply Hn; lia|intros j x; apply (fits_built j x Hw2 Hi)].
  - destruct (install_at_in Hw Hx Hf Hid (conj Hpos Hl)) as (fs1 & Ha & Hw1 & He1); cbn [facets_ items room] in *.
    rewrite Hput in Ha, Hw1. destruct (Hback _ _ _ _ Hw1) as (fs2 & Hr & Hw2 & He2). exists fs2, n.
    split; [done|]. split; [by apply (evolve_trans _ fs1)|left; exists r].
    unfold placed. rewrite decide_False by lia. split; [|exact Hw2]. unfold m. by rewrite (cbind_ret _ _ _ _ _ (on_throw_ret _ _ _ _ _ Ha)).
Qed.

(** [__imp(other, f, id)]: where the table cannot grow, the facets that it has copied keep
    shares of it, although it is gone. *)
Lemma imp_with_facet_spec {L K w o xo f y id} :
  wf L K w → imps w !! o = Some xo → facets w !! f = Some y → id_ w (f_key y) = Some (id + 1) → 0 ≤ id →
  ∃ fs n, (next w ≤ n)%nat ∧ evolve (facets w) fs ∧
    ((∃ r, imp_with_facet granted o f id w = (Ret (next w), built w (next w) (str "*") (placed id f (items (facets_ xo))) r fs n)
        ∧ (next w < n)%nat ∧ wf L K (built w (next w) (str "*") (placed id f (items (facets_ xo))) r fs n))
     ∨ (no_memory ∧ imp_with_facet granted o f id w = (Throw bad_alloc, with_ fs (imps w) n w)
        ∧ (wf L K (with_ fs (imps w) n w) ∨ wf (λ g, L g + occ g (items (facets_ xo))) K (with_ fs (imps w) n w)))).
Proof.
  intros Hw Ho Hf Hid Hpos. destruct (fresh_imp Hw) as [Hi Hk]. unfold imp_with_facet. rewrite (cbind_ret _ _ _ _ _ (get_imp_spec _ _ _ Ho)).
  set (c := Z.max N _). set (i := next w) in *.
  match goal with |- context [new_imp granted c (str "*") ?ctor w] => destruct (new_imp_spec c (str "*") ctor w) as (n & Hn & [[Hr Hg]|Hr]) end; [unfold c, N; lia| |]; rewrite Hr; clear Hr.
  { exists (facets w), n. split; [lia|]. split; [auto|]. right. split; [done|]. split; [by destruct w|]. left. apply (wf_next n Hw). lia. }
  destruct (add_shared_spec w _ f (w_facets Hw) (ex_intro _ _ Hf)) as (fs0 & Ha & _ & _).
  destruct (wf_add Hw (ex_intro _ _ Hf)) as (fs1 & Ha' & Hw1 & He1).
  assert (fs1 = fs0) as -> by (rewrite Ha in Ha'; by injection Ha' as ->).
  set (w1 := with_ fs0 (imps w) (next w) w) in *. set (v := FVec _ c) in *.
  set (wb := with_ (facets w) (<[i := Imp v (str "*") (-1)]> (imps w)) n w).
  pose proof (add_shared_frame f w wb fs0 Ha eq_refl) as Hadd. change (set_facets fs0 wb) with (with_ (facets w1) (<[next w1 := Imp v (str "*") (-1)]> (imps w1)) n w1) in Hadd.
  rewrite (cbind_eq _ _ _ _ _ (on_throw_after _ _ _ _ _ _ Hadd)). clear Ha Ha' Hadd wb.
  assert (Hf1 : ∃ y1, fs0 !! f = Some y1 ∧ f_key y = f_key y1) by (apply (live_after Hw1 He1 Hf); rewrite plus_eq; pose proof (w_L Hw f); lia).
  destruct Hf1 as (y1 & Hy1 & Hky). pose proof (w_L Hw f) as HLf.
  destruct (copy_add_spec v (str "*") n Hw1 (Ho : imps w1 !! o = Some xo) (conj (le_n _) Hn) Hk) as (n' & Hn' & [(fs2 & r & Hc & Hb & He2)|[Hc Hg]]).
  - rewrite (cbind_eq _ _ _ _ _ (on_throw_eq _ _ _ _ _ (cbind_eq _ _ _ _ _ (on_throw_eq _ _ _ _ _ (seq_ret _ _ _ _ _ Hc))))).
    assert (Hf2 : ∃ y2, fs2 !! f = Some y2 ∧ f_key y1 = f_key y2).
    { destruct (evolve_live _ _ f y1 He2 Hy1) as (y2 & Hy2 & [Hk2 _]); [|by exists y2].
      apply (tally_live _ _ _ _ (w_facets Hb)). cbn beta. rewrite plus_eq. match goal with |- 0 < ?a + _ => pose proof (refs_nonneg f _ : 0 ≤ a) end. lia. }
    destruct Hf2 as (y2 & Hy2 & Hk2).
    destruct (install_own (f:=f) (y:=y2) (id:=id) (Hb : wf _ _ (built w i (str "*") (items (facets_ xo)) r fs2 n')) Hi Hk) as (fs3 & n3 & Hn3 & He3 & [(r3 & Hm & Hw3)|(Hg & Hm & Hfor & Hw3)]);
      [intros p Hp; apply (w_next Hw); lia|apply (w_L Hw)|done|by rewrite <- Hk2, <- Hky|done| |];
      exists fs3, n3; (split; [lia|]); (split; [apply (evolve_trans _ fs0); [done|]; by apply (evolve_trans _ fs2)|]).
    + left. exists r3. split; [|split; [lia|done]]. by rewrite (cbind_ret _ _ _ _ _ (on_throw_ret _ _ _ _ _ Hm)).
    + right. split; [done|]. split; [|by right]. apply cbind_throw. by eapply on_throw_throw; [exact Hm|].
  - destruct (release_shared_spec w1 _ f (w_facets Hw1)) as (fs3 & Hr & _ & He3); [rewrite plus_eq; pose proof (refs_nonneg f (imps w1)); lia|].
    destruct (wf_release (f:=f) Hw1) as (fs3' & Hr' & Hw3 & _); [rewrite plus_eq; lia|].
    assert (fs3' = fs3) as -> by (rewrite Hr in Hr'; by injection Hr' as ->). apply plus_back_wf in Hw3.
    exists fs3, n'. split; [lia|]. split; [by apply (evolve_trans _ fs0)|]. right. split; [by eexists|].
    split; [|left; apply (wf_next n' Hw3); cbn; lia]. apply cbind_throw.
    eapply on_throw_throw; [apply cbind_throw; eapply on_throw_throw; [apply (seq_throw _ _ _ _ _ _ Hc)|]|].
    + by apply (release_shared_frame f w1 _ fs3 Hr).
    + unfold forget, cmodify. cbn. rewrite delete_insert_id by done. done.
Qed.

(** ** Locales *)

(** A well-formed world stays so where only locales change, and the sums do not. *)
Lemma wf_shares {L K w} K' w' :
  wf L K w → facets w' = facets w → imps w' = imps w → next w' = next w → next_id w' = next_id w → id_ w' = id_ w →
  (∀ i, locs i w' + K' i = locs i w + K i) → wf L K' w'.
Proof.
  intros [H1 H2 H3 H4 H5 H6 H7 H8] Hf Hi Hn Hd Hids Hs. split; rewrite ?Hf, ?Hi, ?Hn, ?Hd, ?Hids; try done.
  - apply (tally_ext _ _ _ _ H2). done.
  - intros i x Hx. destruct (H8 i x Hx) as [Hty Hc Hr]. unfold typed, complete in *. split; unfold typed, complete; rewrite ?Hf, ?Hids; done.
Qed.

Lemma locs_put v j i w : locales w !! v = None → locs i (set_locales (<[v := j]> (locales w)) w) = locs i w + ind (bool_decide (j = i)).
Proof. intros Hv. unfold locs. cbn. rewrite total_add by done. lia. Qed.

Lemma locs_replace v j j' i w : locales w !! v = Some j →
  locs i (set_locales (<[v := j']> (locales w)) w) = locs i w + ind (bool_decide (j' = i)) - ind (bool_decide (j = i)).
Proof. intros Hv. unfold locs. cbn. rewrite (total_replace _ _ _ j) by done. lia. Qed.

Lemma locs_delete v j i w : locales w !! v = Some j → locs i (set_locales (delete v (locales w)) w) = locs i w - ind (bool_decide (j = i)).
Proof. intros Hv. unfold locs. cbn. rewrite (total_delete _ _ _ j) by done. lia. Qed.

Lemma ind_eq (i j : nat) : ind (bool_decide (i = j)) = if decide (j = i) then 1 else 0.
Proof. destruct (decide (j = i)) as [->|]; [by rewrite bool_decide_eq_true_2|by rewrite bool_decide_eq_false_2]. Qed.

Lemma locs_local v i w : locales w !! v = Some i → 1 ≤ locs i w.
Proof.
  intros Hv. pose proof (total_le (λ j, ind (bool_decide (j = i))) _ v i (λ _, ind_nonneg _) Hv) as Hl. cbn beta in Hl.
  rewrite bool_decide_eq_true_2 in Hl by done. pose proof (ind_nonneg (bool_decide (global_ w = Some i))). unfold locs. cbn [ind] in Hl. lia.
Qed.

Lemma locs_global i w : global_ w = Some i → 1 ≤ locs i w.
Proof.
  intros Hg. unfold locs. rewrite (bool_decide_eq_true_2 (global_ w = Some i)) by done.
  pose proof (total_pos (λ j, ind (bool_decide (j = i))) (locales w) (λ _, ind_nonneg _)). cbn [ind]. lia.
Qed.

(** The share that the static locale has of its table. *)
Definition base (w : world) (i : nat) : Z := ind (bool_decide (classic_ w = Some i)).

(** The world between two operations of the program, with the shares of facets that no
    table has. *)
Record inv (L : nat → Z) (w : world) : Prop := {
  v_wf : wf L (base w) w;
  v_classic : is_Some (classic_ w);
  v_global : is_Some (global_ w) }.
Arguments v_wf {L w}.

Lemma base_nonneg w i : 0 ≤ base w i.
Proof. apply ind_nonneg. Qed.

Lemma inv_table {L w v i} : inv L w → locales w !! v = Some i → ∃ x, imps w !! i = Some x.
Proof.
  intros Hv Hi. apply (tally_live _ _ _ _ (w_imps (v_wf Hv))). pose proof (locs_local v i w Hi). pose proof (base_nonneg w i). lia.
Qed.

Lemma inv_classic {L w} : inv L w → ∃ c x, classic_ w = Some c ∧ imps w !! c = Some x.
Proof.
  intros Hv. destruct (v_classic _ _ Hv) as [c Hc]. destruct (tally_live _ _ _ c (w_imps (v_wf Hv))) as [x Hx]; [|by exists c, x].
  unfold base. rewrite bool_decide_eq_true_2 by done. pose proof (total_pos (λ j, ind (bool_decide (j = c))) (locales w) (λ _, ind_nonneg _)).
  pose proof (ind_nonneg (bool_decide (global_ w = Some c))). unfold locs. cbn [ind]. lia.
Qed.

Lemma inv_global {L w} : inv L w → ∃ g x, global_ w = Some g ∧ imps w !! g = Some x.
Proof.
  intros Hv. destruct (v_global _ _ Hv) as [g Hg]. destruct (tally_live _ _ _ g (w_imps (v_wf Hv))) as [x Hx]; [|by exists g, x].
  pose proof (locs_global g w Hg). pose proof (base_nonneg w g). lia.
Qed.

(** A new locale of a table. *)
Definition owning (v i : nat) (x : imp) (w : world) : world :=
  set_locales (<[v := i]> (locales w)) (with_ (facets w) (<[i := counted 1 x]> (imps w)) (next w) w).

Lemma construct_spec {L v m w i x w1} :
  m w = (Ret i, w1) → inv L w1 → imps w1 !! i = Some x → locales w1 !! v = None →
  construct v m w = (Ret tt, owning v i x w1) ∧ inv L (owning v i x w1).
Proof.
  intros Hm Hv Hx Hl. destruct (imp_add_spec (v_wf Hv) Hx) as [Ha Hw2]. set (w2 := with_ _ _ _ _) in *. split.
  - unfold construct. rewrite (cbind_ret _ _ _ _ _ Hm), (cbind_ret _ _ _ _ _ Ha). done.
  - split; [|apply Hv|apply Hv]. apply (wf_shares _ _ Hw2); try done. intros j.
    change (owning v i x w1) with (set_locales (<[v := i]> (locales w2)) w2). rewrite locs_put, ind_eq by done.
    change (base (set_locales _ w2)) with (base w1). unfold plus. case_decide; lia.
Qed.

Lemma construct_throws {v m w e w1} : m w = (Throw e, w1) → construct v m w = (Throw e, w1).
Proof. intros Hm. unfold construct. by apply cbind_throw. Qed.
End spec.
