(* ===== verification/LocaleSafe.v ===== *)
(** * LocaleSafe: what programs can do with locales

    A program constructs, copies, assigns, destroys and mixes locales in any order, with
    facets of its own.  No order uses a facet or a table that is freed; a locale has the
    facets it was made of; and what nobody has a share of is freed. *)

From S2P Require Import Prelude Locale LocaleFacts.

Arguments v_wf {L w}.

(** The table of a locale, and the facet it has for a class. *)
Definition view (w : world) (v : nat) : option (fvec * bytes) := i ← locales w !! v; content <$> imps w !! i.

Definition facet_at (w : world) (l : list (option nat)) (k : facet_key) : option nat :=
  id ← id_ w k; mjoin (l !! Z.to_nat (id - 1)).

Definition facet_of (w : world) (v : nat) (k : facet_key) : option nat :=
  '(t, _) ← view w v; facet_at w (items t) k.

Definition name_of (w : world) (v : nat) : option bytes := snd <$> view w v.

(** The other locales keep their tables, facets change their counts only, and no table is
    left without a share. *)
Record spares (v : nat) (w w' : world) : Prop := {
  s_views : ∀ u, u ≠ v → view w' u = view w u;
  s_facets : evolve_from (next w) (facets w) (facets w');
  s_owned : owned_from (imps w) (imps w') }.

Lemma spares_refl v w : spares v w w.
Proof. split; [done|intros f y Hy; left; by exists y|apply owned_refl]. Qed.

Lemma facet_at_id w l k j : id_ w k = Some (Z.of_nat j + 1) → facet_at w l k = mjoin (l !! j).
Proof. intros Hk. unfold facet_at. rewrite Hk. cbn. do 2 f_equal. lia. Qed.

Section safe.
Context (granted : nat → bool) (known : bytes → bool) (fails : facet_key → bytes → option bytes).

(** ** Constructors *)

Lemma view_owning {L w v u i x} : inv L w → u ≠ v → imps w !! i = Some x → view (owning v i x w) u = view w u.
Proof.
  intros Hw Hu Hx. unfold view. cbn. rewrite lookup_insert_ne by done. destruct (locales w !! u) as [j|]; [|done]. cbn.
  destruct (decide (j = i)) as [-> |]; [by rewrite lookup_insert_eq, Hx|by rewrite lookup_insert_ne].
Qed.

Lemma view_owning_eq v i x w : view (owning v i x w) v = Some (content x).
Proof. unfold view. cbn. rewrite lookup_insert_eq. cbn. by rewrite lookup_insert_eq. Qed.

Lemma inv_with {L w} L' fs is_ n : inv L w → wf L' (base w) (with_ fs is_ n w) → inv L' (with_ fs is_ n w).
Proof. intros [_ Hc Hg] Hw. by split. Qed.

(** A locale of a new table. *)
Lemma construct_makes {L w v name m Q may_throw} :
  inv L w → locales w !! v = None → makes L (base w) w name (m w) Q may_throw →
  ∃ w', inv L w' ∧ spares v w w' ∧ id_ w' = id_ w ∧
    ((construct v m w = (Ret tt, w') ∧ ∃ l r, view w' v = Some (FVec l r, name) ∧ Q l (facets w') (next w'))
     ∨ (may_throw ∧ ∃ e, construct v m w = (Throw e, w') ∧ locales w' = locales w)).
Proof.
  intros Hv Hl (fs & n & Hn & He & [(l & r & Hm & Hlt & Hw & HQ)|(Ht & e & Hm & Hw)]).
  - set (x := Imp (FVec l r) name (-1)).
    assert (Hx : imps (built w (next w) name l r fs n) !! next w = Some x) by apply lookup_insert_eq.
    assert (Hi : inv L (built w (next w) name l r fs n)) by (by apply (inv_with _ _ _ _ Hv)).
    destruct (construct_spec (v:=v) Hm Hi Hx Hl) as [Hc Hi'].
    exists (owning v (next w) x (built w (next w) name l r fs n)). split; [done|]. split; [|split; [done|]].
    + split; [|done|].
      2:{ cbn. rewrite insert_insert_eq. by apply owned_insert. }
      intros u Hu. rewrite (view_owning Hi Hu Hx). unfold view. cbn.
      destruct (locales w !! u) as [j|] eqn:Hj; [|done]. cbn. rewrite lookup_insert_ne; [done|]. intros <-.
      destruct (inv_table Hv Hj) as [y Hy]. destruct (fresh_imp (v_wf Hv)). congruence.
    + left. split; [done|]. exists l, r. split; [apply view_owning_eq|done].
  - exists (with_ fs (imps w) n w). split; [by apply (inv_with _ _ _ _ Hv)|].
    split; [split; [done|done|apply owned_refl]|]. split; [done|]. right. split; [done|].
    exists e. split; [by apply construct_throws|done].
Qed.

(** A locale of a table that is there. *)
Lemma construct_copy {L w v m i x} :
  inv L w → locales w !! v = None → m w = (Ret i, w) → imps w !! i = Some x →
  ∃ w', construct v m w = (Ret tt, w') ∧ inv L w' ∧ spares v w w' ∧ view w' v = Some (content x) ∧ id_ w' = id_ w.
Proof.
  intros Hv Hl Hm Hx. destruct (construct_spec Hm Hv Hx Hl) as [Hc Hi]. exists (owning v i x w). split; [done|]. split; [done|].
  split; [|split; [apply view_owning_eq|done]]. split; [intros u Hu; by apply (view_owning Hv)|exact (s_facets v w w (spares_refl v w))|].
  apply owned_insert. pose proof (w_imps (v_wf Hv) i) as Ht. rewrite Hx in Ht. cbn. lia.
Qed.

(** The facets of a table that was filled. *)
Lemma filled_facets {L w v name l0 l r P ks w'} :
  inv L w → id_ w' = id_ w → view w' v = Some (FVec l r, name) → filled w P ks l0 l (facets w') (next w') → (∀ k, k ∈ ks → k ∈ standard) →
  (∀ k, k ∈ ks → ∃ f, facet_of w' v k = Some f ∧ P k f (facets w') (next w'))
  ∧ ∀ k, k ∉ ks → facet_of w' v k = facet_at w l0 k.
Proof.
  intros Hv Hids Hview Hf Hks. unfold facet_of. rewrite Hview. cbn. split.
  - intros k Hk. destruct (w_standard (v_wf Hv) k (Hks k Hk)) as [j Hj]. rewrite (facet_at_id _ _ _ j) by (by rewrite Hids).
    destruct (Hf j) as [(k' & f & Hk' & Hj' & Hl & HP)|[Hno _]]; [|by destruct (Hno k Hk)].
    assert (k' = k) as -> by (by apply (w_inj (v_wf Hv) _ _ _ Hj')). exists f. by rewrite Hl.
  - intros k Hk. unfold facet_at. rewrite Hids. destruct (id_ w k) as [id|] eqn:Hid; [|done]. cbn.
    destruct (w_id (v_wf Hv) k id Hid). destruct (Hf (Z.to_nat (id - 1))) as [(k' & f & Hk' & Hj' & _)|[_ Hl]]; [|by rewrite Hl].
    exfalso. assert (k' = k) as -> by (apply (w_inj (v_wf Hv) _ _ id); [rewrite Hj'; f_equal; lia|done]). done.
Qed.

Lemma get_locale_spec w v i : locales w !! v = Some i → get_locale v w = (Ret i, w).
Proof. unfold get_locale. by intros ->. Qed.

Lemma view_Some {L w v} : inv L w → is_Some (locales w !! v) → ∃ i x, locales w !! v = Some i ∧ imps w !! i = Some x ∧ view w v = Some (content x).
Proof.
  intros Hv [i Hi]. destruct (inv_table Hv Hi) as [x Hx]. exists i, x. split; [done|]. split; [done|]. unfold view. rewrite Hi. cbn. by rewrite Hx.
Qed.

Lemma classic_spec {L w c} : inv L w → classic_ w = Some c → classic granted w = (Ret c, w).
Proof. intros _ Hc. unfold classic, cbind, cget. by rewrite Hc. Qed.

Lemma global_spec w g : global_ w = Some g → global_locale granted w = (Ret g, w).
Proof. intros Hg. unfold global_locale, cbind, cget. by rewrite Hg. Qed.

(** [locale(other, one, c)]. *)
Lemma with_one_spec {L w v o one} c :
  inv L w → locales w !! v = None → is_Some (locales w !! o) → is_Some (locales w !! one) →
  ∃ w', inv L w' ∧ spares v w w' ∧ id_ w' = id_ w ∧
    ((locale_with_one granted v o one c w = (Ret tt, w') ∧ name_of w' v = Some (str "*")
       ∧ ∀ k, facet_of w' v k = if bool_decide (k ∈ standard_of c) then facet_of w one k else facet_of w o k)
     ∨ (no_memory granted ∧ ∃ e, locale_with_one granted v o one c w = (Throw e, w') ∧ locales w' = locales w)).
Proof.
  intros Hv Hl Ho H1. destruct (view_Some Hv Ho) as (i & x & Hi & Hx & Hvx). destruct (view_Some Hv H1) as (i1 & x1 & Hi1 & Hx1 & Hv1).
  pose proof (imp_with_one_spec granted c (v_wf Hv) Hx Hx1) as Hm.
  set (m := let* o := get_locale o in let* i := get_locale one in imp_with_one granted o i c).
  assert (Hr : m w = imp_with_one granted i i1 c w).
  { unfold m. by rewrite (cbind_ret _ _ _ _ _ (get_locale_spec _ _ _ Hi)), (cbind_ret _ _ _ _ _ (get_locale_spec _ _ _ Hi1)). }
  rewrite <- Hr in Hm. destruct (construct_makes (m:=m) Hv Hl Hm) as (w' & Hv' & Hs & Hids & Hres). unfold locale_with_one. fold m.
  exists w'. split; [done|]. split; [done|]. split; [done|]. destruct Hres as [(Hc & l & r & Hview & Hf)|Hres]; [left|by right].
  split; [done|]. split; [unfold name_of; by rewrite Hview|].
  destruct (filled_facets Hv Hids Hview Hf (standard_of_standard c)) as [Hin Hout]. intros k. case_bool_decide as Hk.
  - destruct (Hin k Hk) as (f & Hf' & j & Hj & Hg). rewrite Hf'. unfold facet_of. rewrite Hv1. cbn. by rewrite (facet_at_id _ _ _ j), Hg.
  - rewrite (Hout k Hk). unfold facet_of. by rewrite Hvx.
Qed.

(** [locale(other, name, c)], and [locale(name)]. *)
Lemma with_named_spec {L w v o} name c :
  inv L w → locales w !! v = None → is_Some (locales w !! o) →
  ∃ w', inv L w' ∧ spares v w w' ∧ id_ w' = id_ w ∧
    ((locale_with_named granted known fails v o (Some name) c w = (Ret tt, w') ∧ name_of w' v = Some (str "*")
       ∧ (∀ k, k ∈ by_name_of c → ∃ f, facet_of w' v k = Some f ∧ from_byname name k f (facets w') (next w'))
       ∧ ∀ k, k ∉ by_name_of c → facet_of w' v k = facet_of w o k)
     ∨ ∃ e, locale_with_named granted known fails v o (Some name) c w = (Throw e, w') ∧ locales w' = locales w).
Proof.
  intros Hv Hl Ho. destruct (view_Some Hv Ho) as (i & x & Hi & Hx & Hvx).
  pose proof (imp_with_named_spec granted known fails name c (v_wf Hv) Hx) as Hm.
  set (m := let* o := get_locale o in imp_with_named granted known fails o name c).
  assert (Hr : m w = imp_with_named granted known fails i name c w) by (unfold m; by rewrite (cbind_ret _ _ _ _ _ (get_locale_spec _ _ _ Hi))).
  rewrite <- Hr in Hm. destruct (construct_makes (m:=m) Hv Hl Hm) as (w' & Hv' & Hs & Hids & Hres). unfold locale_with_named. fold m.
  exists w'. split; [done|]. split; [done|]. split; [done|]. destruct Hres as [(Hc & l & r & Hview & Hf)|(_ & Hres)]; [left|by right].
  split; [done|]. split; [unfold name_of; by rewrite Hview|].
  destruct (filled_facets Hv Hids Hview Hf (by_name_of_standard c)) as [Hin Hout]. split; [done|].
  intros k Hk. rewrite (Hout k Hk). unfold facet_of. by rewrite Hvx.
Qed.

Lemma named_spec {L w v} name :
  inv L w → locales w !! v = None →
  ∃ w', inv L w' ∧ spares v w w' ∧ id_ w' = id_ w ∧
    ((locale_named granted known fails v (Some name) w = (Ret tt, w') ∧ name_of w' v = Some name
       ∧ ∀ k, k ∈ by_name → ∃ f, facet_of w' v k = Some f ∧ from_byname name k f (facets w') (next w'))
     ∨ ∃ e, locale_named granted known fails v (Some name) w = (Throw e, w') ∧ locales w' = locales w).
Proof.
  intros Hv Hl. destruct (inv_classic Hv) as (c & x & Hc & Hx).
  pose proof (imp_named_spec granted known fails name (v_wf Hv) Hc Hx) as Hm.
  destruct (construct_makes (m:=imp_named granted known fails name) Hv Hl Hm) as (w' & Hv' & Hs & Hids & Hres). unfold locale_named.
  exists w'. split; [done|]. split; [done|]. split; [done|]. destruct Hres as [(Hcs & l & r & Hview & Hf)|(_ & Hres)]; [left|by right].
  split; [done|]. split; [unfold name_of; by rewrite Hview|].
  by destruct (filled_facets Hv Hids Hview Hf by_name_standard) as [Hin _].
Qed.

(** ** Identifiers *)

(** A class gets an identifier, or has it. *)
Lemma id_get_spec {L w} k : inv L w → ∃ w' id,
  id_get k w = (Ret id, w') ∧ inv L w' ∧ 0 ≤ id ∧ id_ w' k = Some (id + 1) ∧ facets w' = facets w ∧ imps w' = imps w ∧ locales w' = locales w ∧ next w' = next w
  ∧ ∀ k' i, id_ w k' = Some i → id_ w' k' = Some i.
Proof.
  intros Hv. pose proof (v_wf Hv) as Hw. unfold id_get. destruct (id_ w k) as [i|] eqn:Hi.
  - destruct (w_id Hw k i Hi). exists w, (i - 1). split; [done|]. split; [done|]. split; [lia|]. split; [|done]. rewrite Hi. f_equal. lia.
  - set (ids := upd k (Some (next_id w + 1)) (id_ w)). exists (set_ids (next_id w + 1) ids w), (next_id w + 1 - 1).
    assert (Hnid : 0 ≤ next_id w).
    { destruct (w_standard Hw (Collate Char)) as [j Hj]; [by left|]. destruct (w_id Hw _ _ Hj). lia. }
    assert (Hold : ∀ k' i, id_ w k' = Some i → ids k' = Some i).
    { intros k' i Hk. unfold ids. rewrite upd_ne; [done|]. congruence. }
    split; [done|]. split; [|split; [lia|split; [cbn; unfold ids; rewrite upd_eq; f_equal; lia|done]]].
    destruct Hw as [H1 H2 H3 H4 H5 H6 H7 H8]. split; [|apply Hv|apply Hv]. split; try done; cbn.
    + intros k' i. unfold ids, upd. case_decide; [intros [= <-]; lia|]. intros Hk. destruct (H5 k' i Hk). lia.
    + intros k1 k2 i. unfold ids, upd. repeat case_decide; subst; try done.
      * intros [= <-] Hk. destruct (H5 _ _ Hk). lia.
      * intros Hk [= <-]. destruct (H5 _ _ Hk). lia.
      * apply H6.
    + intros k' Hk. destruct (H7 k' Hk) as [j Hj]. exists j. by apply Hold.
    + intros i x Hx. destruct (H8 i x Hx) as [Hty Hc Hr]. split; [| |done].
      * intros j f Hj. destruct (Hty j f Hj) as (y & Hy & Hk). exists y. split; [done|]. by apply Hold.
      * intros k' Hk. destruct (Hc k' Hk) as (j & f & Hj & Hf). exists j, f. split; [by apply Hold|done].
Qed.

(** ** A facet of the program *)

(** What each facet of a table adds to the shares of nobody, when the table is lost. *)
Definition leak (L : nat → Z) (l : list (option nat)) (g : nat) : Z := L g + occ g l.

Lemma mjoin_lookup {A} (l : list (option A)) j a : mjoin (l !! j) = Some a → l !! j = Some (Some a).
Proof. destruct (l !! j) as [[b|]|]; [|done|done]. by intros [= ->]. Qed.

Lemma placed_at id f l : 0 ≤ id → placed id f l !! Z.to_nat id = Some (Some f).
Proof.
  intros Hid. unfold placed. apply list_lookup_insert_eq. case_decide as Hl; unfold zlen in Hl; [rewrite length_resize|]; lia.
Qed.

Lemma placed_other id f l j : j ≠ Z.to_nat id → mjoin (placed id f l !! j) = mjoin (l !! j).
Proof.
  intros Hj. unfold placed. rewrite list_lookup_insert_ne by done. case_decide as Hl; [|done]. unfold zlen in Hl.
  rewrite resize_ge by lia. rewrite lookup_app. destruct (l !! j) eqn:E; [done|].
  destruct (replicate _ None !! (j - length l)%nat) as [o|] eqn:R; [|done]. apply lookup_replicate in R as [-> _]. done.
Qed.

Lemma with_facet_spec {L w v o f k y} :
  inv L w → locales w !! v = None → is_Some (locales w !! o) → facets w !! f = Some y → f_key y = k →
  ∃ L' w', inv L' w' ∧ spares v w w' ∧
    ((locale_with_facet granted v o (Some (f, k)) w = (Ret tt, w') ∧ L' = L ∧ name_of w' v = Some (str "*") ∧ facet_of w' v k = Some f
       ∧ ∀ k' i, k' ≠ k → id_ w k' = Some i → facet_of w' v k' = facet_of w o k')
     ∨ (no_memory granted ∧ (∃ e, locale_with_facet granted v o (Some (f, k)) w = (Throw e, w')) ∧ locales w' = locales w
        ∧ (L' = L ∨ ∃ t n, view w o = Some (t, n) ∧ L' = leak L (items t)))).
Proof.
  intros Hv Hl Ho Hf Hk. destruct (view_Some Hv Ho) as (i & x & Hi & Hx & Hvx).
  destruct (id_get_spec k Hv) as (w1 & id & Hid & Hv1 & Hpos & Hidk & Ef & Ei & El & En & Hids).
  assert (Hx1 : imps w1 !! i = Some x) by (by rewrite Ei). assert (Hf1 : facets w1 !! f = Some y) by (by rewrite Ef).
  rewrite <- Hk in Hidk. destruct (imp_with_facet_spec granted (v_wf Hv1) Hx1 Hf1 Hidk Hpos) as (fs & n & Hn & He & Hres).
  set (m := let* id := id_get k in let* o := get_locale o in imp_with_facet granted o f id).
  assert (Hr : m w = imp_with_facet granted i f id w1).
  { unfold m. rewrite (cbind_ret _ _ _ _ _ Hid). by rewrite (cbind_ret (get_locale o) _ w1 i w1) by (apply get_locale_spec; by rewrite El). }
  unfold locale_with_facet. fold m. rewrite <- Hr in Hres. destruct Hres as [(r & Hm & Hlt & Hw)|(Hg & Hm & Hw)].
  - destruct (construct_makes (w:=w1) (v:=v) (name:=str "*") (m:=λ _, m w) (Q:=λ l _ _, l = placed id f (items (facets_ x))) (may_throw:=False) Hv1) as (w' & Hv' & Hs & Hids' & [(Hc & l & r' & Hview & ->)|[[] _]]).
    { by rewrite El. }
    { exists fs, n. split; [done|]. split; [by apply evolve_evolve_from|]. left. by eexists _, r. }
    exists L, w'. split; [done|]. split; [split|].
    + intros u Hu. rewrite (s_views _ _ _ Hs u Hu). unfold view. by rewrite El, Ei.
    + rewrite <- En, <- Ef. apply (s_facets _ _ _ Hs).
    + rewrite <- Ei. apply (s_owned _ _ _ Hs).
    + left. split; [|split; [done|split; [unfold name_of; by rewrite Hview|]]]. { unfold construct, cbind in Hc |- *. exact Hc. }
      unfold facet_of. rewrite Hview, Hvx. cbn. rewrite <- Hk. split.
      * unfold facet_at. rewrite Hids', Hidk. cbn. replace (id + 1 - 1) with id by lia. by rewrite placed_at.
      * intros k' j Hne Hj. unfold facet_at. rewrite Hids', (Hids _ _ Hj), Hj. cbn. apply placed_other.
        destruct (w_id (v_wf Hv) k' j Hj). intros Heq. apply Hne. apply (w_inj (v_wf Hv1) _ _ j); [by apply Hids|]. rewrite Hidk. f_equal. lia.
  - assert (Hsp : spares v w (with_ fs (imps w1) n w1)).
    { split; [intros u Hu; unfold view; cbn; by rewrite El, Ei| |cbn; rewrite Ei; apply owned_refl]. rewrite <- En, <- Ef. by apply evolve_evolve_from. }
    assert (Hres : ∃ L', inv L' (with_ fs (imps w1) n w1) ∧ (L' = L ∨ ∃ t n, view w o = Some (t, n) ∧ L' = leak L (items t))).
    { destruct Hw as [Hw|Hw]; eexists; (split; [by apply (inv_with _ _ _ _ Hv1)|]); [by left|right]. by eexists _, _. }
    destruct Hres as (L' & Hv' & HL'). exists L', (with_ fs (imps w1) n w1). split; [done|]. split; [done|]. right. split; [done|].
    split; [eexists; by apply construct_throws|]. split; [exact El|exact HL'].
Qed.

(** A facet the program makes, with the shares it keeps for itself. *)
Lemma make_facet_spec {L w} refs k :
  inv L w → 0 ≤ refs → ∃ w', make_facet refs k w = (Ret (next w), w') ∧ inv (plus L (next w) refs) w' ∧ (∀ v, view w' v = view w v) ∧ imps w' = imps w
    ∧ facets w' = <[next w := Facet k None (refs - 1)]> (facets w).
Proof.
  intros Hv Hr. pose proof (wf_new_facet k None (refs - 1) (v_wf Hv) ltac:(lia)) as Hw. replace (refs - 1 + 1) with refs in Hw by lia.
  exists (with_ (<[next w := Facet k None (refs - 1)]> (facets w)) (imps w) (S (next w)) w). split; [done|]. split; [|done].
  by apply (inv_with _ _ _ _ Hv).
Qed.

(** ** Giving up and replacing *)

(** After a share of a table is given back, the tables that locales have are as before. *)
Lemma released_views {L w is_ i} w' v :
  (∀ j, content <$> is_ !! j = if bool_decide (j = i ∧ locs i w + base w i = 1) then None else content <$> imps w !! j) →
  inv L w' → imps w' = is_ → locales w' !! v = locales w !! v → view w' v = view w v.
Proof.
  intros Hc Hv' Hi Hl. unfold view. rewrite Hl, Hi. destruct (locales w !! v) as [j|] eqn:Hj; [|done]. cbn.
  destruct (inv_table Hv' Hl) as [x Hx]. specialize (Hc j). rewrite Hi in Hx. rewrite Hx in Hc |- *. by case_bool_decide.
Qed.

Lemma destroy_spec {L w v} : inv L w → is_Some (locales w !! v) →
  ∃ w', locale_destroy v w = (Ret tt, w') ∧ inv L w' ∧ spares v w w' ∧ locales w' = delete v (locales w).
Proof.
  intros Hv [i Hi]. pose proof (locs_local v i w Hi) as Hlo. pose proof (base_nonneg w i) as Hb.
  destruct (imp_release_spec (i:=i) (v_wf Hv) ltac:(lia)) as (fs & is_ & Hr & Hw & He & Hown & Hc). set (w1 := with_ fs is_ (next w) w) in *.
  set (w' := set_locales (delete v (locales w1)) w1).
  assert (Hv' : inv L w').
  { split; [|apply Hv|apply Hv]. apply (wf_shares _ _ Hw); try done. intros j. change (base w') with (base w).
    unfold w'. rewrite (locs_delete v i j w1 Hi), ind_eq. unfold plus. destruct (decide (j = i)); lia. }
  exists w'. split; [|split; [done|split; [|done]]].
  - unfold locale_destroy. rewrite (cbind_ret _ _ _ _ _ (get_locale_spec _ _ _ Hi)), (cbind_ret _ _ _ _ _ Hr). done.
  - split; [|by apply evolve_evolve_from|exact Hown]. intros u Hu. apply (released_views _ _ Hc Hv'); [done|]. cbn. by rewrite lookup_delete_ne.
Qed.

Lemma assign_spec {L w v o} : inv L w → is_Some (locales w !! v) → is_Some (locales w !! o) →
  ∃ w', locale_assign v o w = (Ret tt, w') ∧ inv L w' ∧ spares v w w' ∧ view w' v = view w o.
Proof.
  intros Hv [i Hi] [j Hj]. destruct (inv_table Hv Hj) as [x Hx].
  destruct (imp_add_spec (v_wf Hv) Hx) as [Ha Hw1]. set (w1 := with_ _ (<[j := counted 1 x]> (imps w)) _ _) in *.
  assert (Hv1 : ∀ u, view w1 u = view w u).
  { intros u. unfold view. cbn. destruct (locales w !! u) as [j'|]; [|done]. cbn. destruct (decide (j' = j)) as [-> |]; [by rewrite lookup_insert_eq, Hx|by rewrite lookup_insert_ne]. }
  pose proof (locs_local v i w1 Hi) as Hlo. pose proof (base_nonneg w i) as Hb.
  destruct (imp_release_spec (i:=i) Hw1) as (fs & is_ & Hr & Hw2 & He & Hown & Hc); [unfold plus; case_decide; lia|].
  set (w2 := with_ fs is_ (next w1) w1) in *. set (w' := set_locales (<[v := j]> (locales w2)) w2).
  assert (Hv' : inv L w').
  { split; [|apply Hv|apply Hv]. apply (wf_shares _ _ Hw2); try done. intros k. change (base w') with (base w).
    unfold w'. rewrite (locs_replace v i j k w2 Hi), !ind_eq. unfold plus. destruct (decide (k = i)), (decide (k = j)); lia. }
  assert (Hkeep : ∀ u, is_Some (locales w' !! u) → ∀ l, locales w !! u = Some l → locales w' !! u = Some l → view w' u = view w u).
  { intros u _ l Hl Hl'. unfold view. rewrite Hl', Hl. cbn. destruct (inv_table Hv' Hl') as [y Hy]. cbn in Hy.
    specialize (Hc l). rewrite Hy in Hc |- *. case_bool_decide; [done|]. rewrite Hc. cbn.
    destruct (decide (l = j)) as [-> |]; [by rewrite lookup_insert_eq, Hx|by rewrite lookup_insert_ne]. }
  assert (Hjc : 0 ≤ i_count (counted 1 x)) by (pose proof (w_imps (v_wf Hv) j) as Ht; rewrite Hx in Ht; cbn; lia).
  exists w'. split; [|split; [done|split; [split; [|by apply evolve_evolve_from|exact (owned_trans _ _ _ (owned_insert _ j _ Hjc) Hown)]|]]].
  - unfold locale_assign. rewrite (cbind_ret _ _ _ _ _ (get_locale_spec _ _ _ Hj)), (cbind_ret _ _ _ _ _ Ha), (cbind_ret _ _ _ _ _ (get_locale_spec w1 _ _ Hi)), (cbind_ret _ _ _ _ _ Hr). done.
  - intros u Hu. destruct (locales w !! u) as [l|] eqn:Hl.
    + apply (Hkeep u) with (l:=l); [|done|]; cbn; rewrite lookup_insert_ne by done; [by exists l|done].
    + unfold view. cbn. rewrite lookup_insert_ne, Hl by done. done.
  - unfold view. cbn. rewrite lookup_insert_eq, Hj. cbn. assert (Hj' : locales w' !! v = Some j) by apply lookup_insert_eq.
    destruct (inv_table Hv' Hj') as [y Hy]. cbn in Hy. specialize (Hc j). rewrite Hy in Hc |- *. case_bool_decide; [done|]. rewrite Hc. cbn. by rewrite lookup_insert_eq, Hx.
Qed.

Lemma view_counted {w j x} n u : imps w !! j = Some x → view (with_ (facets w) (<[j := counted n x]> (imps w)) (next w) w) u = view w u.
Proof.
  intros Hx. unfold view. cbn. destruct (locales w !! u) as [j'|]; [|done]. cbn.
  destruct (decide (j' = j)) as [-> |]; [by rewrite lookup_insert_eq, Hx|by rewrite lookup_insert_ne].
Qed.

(** The global locale is replaced; its table lives on in the result. *)
Lemma replace_global {L w g i} :
  inv L w → global_ w = Some g → (∃ v, locales w !! v = Some i) →
  ∃ w', (imp_add_shared i ;;; (let* w := cget in
           match global_ w with None => cundef UninitRead | Some g => imp_release_shared g end ;;;
           cmodify (set_global (Some i)))) w = (Ret tt, w') ∧ inv L w' ∧ (∀ u, view w' u = view w u) ∧ evolve (facets w) (facets w')
    ∧ global_ w' = Some i ∧ locales w' = locales w ∧ c_locale w' = c_locale w ∧ owned_from (imps w) (imps w').
Proof.
  intros Hv Hg [v Hl]. destruct (inv_table Hv Hl) as [x Hx].
  destruct (imp_add_spec (v_wf Hv) Hx) as [Ha Hw1]. set (w1 := with_ _ (<[i := counted 1 x]> (imps w)) _ _) in *.
  pose proof (locs_global g w1 Hg) as Hlo. pose proof (base_nonneg w g) as Hb.
  destruct (imp_release_spec (i:=g) Hw1) as (fs & is_ & Hr & Hw2 & He & Hown & Hc); [unfold plus; case_decide; lia|].
  assert (Hjc : 0 ≤ i_count (counted 1 x)) by (pose proof (w_imps (v_wf Hv) i) as Ht; rewrite Hx in Ht; cbn; lia).
  set (w2 := with_ fs is_ (next w1) w1) in *. set (w' := set_global (Some i) w2).
  assert (Hv' : inv L w').
  { split; [|apply Hv|by exists i]. apply (wf_shares _ _ Hw2); try done. intros k. change (base w') with (base w).
    unfold locs. change (locales w') with (locales w). change (locales w2) with (locales w). change (global_ w') with (Some i). change (global_ w2) with (global_ w). rewrite Hg.
    replace (bool_decide (Some i = Some k)) with (bool_decide (i = k)) by (apply bool_decide_ext; naive_solver).
    replace (bool_decide (Some g = Some k)) with (bool_decide (g = k)) by (apply bool_decide_ext; naive_solver).
    rewrite !ind_eq. unfold plus. destruct (decide (k = g)), (decide (k = i)); lia. }
  exists w'. split; [|split; [done|split; [|split; [exact He|split; [done|split; [done|split; [done|exact (owned_trans _ _ _ (owned_insert _ i _ Hjc) Hown)]]]]]]].
  - rewrite (cbind_ret _ _ _ _ _ Ha). rewrite (cbind_ret cget _ w1 w1 w1) by done. change (global_ w1) with (global_ w). rewrite Hg. by rewrite (cbind_ret _ _ _ _ _ Hr).
  - intros u. rewrite <- (view_counted 1 u Hx). fold w1. unfold view. change (locales w') with (locales w1). change (imps w') with is_.
    destruct (locales w1 !! u) as [j|] eqn:Hj; [|done]. cbn. destruct (inv_table Hv' (Hj : locales w' !! u = Some j)) as [y Hy].
    change (imps w') with is_ in Hy. specialize (Hc j). rewrite Hy in Hc |- *. by case_bool_decide.
Qed.

(** What the C library is told of a locale. *)
Definition told (w : world) (n : bytes) : bytes := if negb (bool_decide (n = str "*")) && known n then n else c_locale w.

Lemma inv_c_locale {L w} n : inv L w → inv L (set_c_locale n w).
Proof. intros [Hw Hc Hg]. split; [|done|done]. by apply (wf_shares _ _ Hw). Qed.

Lemma global_swap_spec {L w v loc g xg} :
  inv L w → locales w !! v = None → is_Some (locales w !! loc) → global_ w = Some g → imps w !! g = Some xg →
  ∃ w' n, locale_global granted known v loc w = (Ret tt, w') ∧ inv L w' ∧ spares v w w' ∧ view w' v = Some (content xg)
    ∧ global_ w' = locales w !! loc ∧ name_of w loc = Some n ∧ c_locale w' = told w n.
Proof.
  intros Hv Hl Hloc Hg Hxg. destruct (view_Some Hv Hloc) as (i & x & Hi & Hx & Hvx).
  destruct (construct_spec (v:=v) (m:=cret g) (eq_refl : cret g w = _) Hv Hxg Hl) as [Hc Hv1]. set (w1 := owning v g xg w) in *.
  assert (Hne : v ≠ loc) by (intros ->; congruence).
  assert (Hi1 : locales w1 !! loc = Some i) by (cbn; by rewrite lookup_insert_ne).
  destruct (replace_global (i:=i) Hv1 (Hg : global_ w1 = Some g) (ex_intro _ loc Hi1)) as (w2 & Hr & Hv2 & Hviews & He & Hg2 & Hl2 & Hc2 & Hown).
  assert (Hvi : view w2 loc = Some (content x)) by (rewrite Hviews; unfold w1; by rewrite (view_owning Hv) by done).
  assert (Hi2 : locales w2 !! loc = Some i) by (by rewrite Hl2).
  destruct (inv_table Hv2 Hi2) as [x2 Hx2].
  assert (Hname : name_ x2 = name_ x) by (unfold view in Hvi; rewrite Hi2 in Hvi; cbn in Hvi; rewrite Hx2 in Hvi; cbn in Hvi; unfold content in Hvi; congruence).
  set (w' := if negb (bool_decide (name_ x = str "*")) && known (name_ x) then set_c_locale (name_ x) w2 else w2).
  assert (Hw' : inv L w' ∧ (∀ u, view w' u = view w2 u) ∧ facets w' = facets w2 ∧ imps w' = imps w2 ∧ global_ w' = global_ w2 ∧ c_locale w' = told w (name_ x)).
  { unfold w', told. destruct (_ && _); [split; [by apply inv_c_locale|done]|]. by rewrite Hc2. }
  destruct Hw' as (Hv' & Hviews' & Hf' & Hi' & Hg' & Hc'). exists w', (name_ x).
  split; [|split; [done|split; [split|split; [|split; [by rewrite Hg', Hg2, Hi|split; [unfold name_of; by rewrite Hvx|done]]]]]].
  - unfold locale_global. rewrite (cbind_ret _ _ _ _ _ (global_spec w g Hg)).
    rewrite (seq_ret (imp_add_shared g) (put_locale v g) _ w w1 Hc). rewrite (cbind_ret _ _ _ _ _ (get_locale_spec w1 _ _ Hi1)).
    set (tail := let* x := get_imp i in _). assert (Ht : tail w2 = (Ret tt, w')).
    { unfold tail. rewrite (cbind_ret _ _ _ _ _ (get_imp_spec _ _ _ Hx2)), Hname. unfold w', when, setlocale. by destruct (negb _), (known (name_ x)). }
    revert Hr. unfold cbind. destruct (imp_add_shared i w1) as [[] w3]; try done. cbn. destruct (global_ w3); [|done].
    destruct (imp_release_shared n w3) as [[] w4]; try done. unfold cmodify. intros [= <-]. exact Ht.
  - intros u Hu. rewrite Hviews', Hviews. by apply (view_owning Hv).
  - rewrite Hf'. apply evolve_evolve_from. exact He.
  - rewrite Hi'. refine (owned_trans _ _ _ (owned_insert _ g _ _) Hown). pose proof (w_imps (v_wf Hv) g) as Ht. rewrite Hxg in Ht. cbn. lia.
  - rewrite Hviews', Hviews. apply view_owning_eq.
Qed.

(** ** Asking *)

Lemma ask_spec {L w v} k : inv L w → is_Some (locales w !! v) →
  ∃ w', inv L w' ∧ (∀ u, view w' u = view w u) ∧ facets w' = facets w ∧ next w' = next w ∧ locales w' = locales w ∧ imps w' = imps w ∧ (is_Some (id_ w k) → w' = w) ∧
    ((∃ f y, use_facet v k w = (Ret f, w') ∧ has_facet v k w = (Ret true, w') ∧ facet_of w v k = Some f ∧ facets w !! f = Some y ∧ f_key y = k)
     ∨ (use_facet v k w = (Throw bad_cast, w') ∧ has_facet v k w = (Ret false, w') ∧ facet_of w v k = None)).
Proof.
  intros Hv Hl. destruct (view_Some Hv Hl) as (i & x & Hi & Hx & Hvx).
  destruct (id_get_spec k Hv) as (w1 & id & Hid & Hv1 & Hpos & Hidk & Ef & Ei & El & En & Hids).
  assert (Hx1 : imps w1 !! i = Some x) by (by rewrite Ei).
  exists w1. split; [done|]. split; [intros u; unfold view; by rewrite El, Ei|]. split; [done|]. split; [done|]. split; [done|]. split; [done|].
  split; [intros [j Hj]; unfold id_get in Hid; rewrite Hj in Hid; by injection Hid|].
  unfold use_facet, has_facet, imp_use_facet, imp_has_facet. rewrite !(cbind_ret _ _ _ _ _ (get_locale_spec _ _ _ Hi)), !(cbind_ret _ _ _ _ _ Hid), !(cbind_ret _ _ _ _ _ (get_imp_spec _ _ _ Hx1)).
  unfold facet_of, facet_at. rewrite Hvx. cbn [mbind option_bind content].
  destruct (items (facets_ x) !! Z.to_nat id) as [[f|]|] eqn:Hf.
  - left. destruct (wf_fits (v_wf Hv1) Hx1) as (Hty & _). destruct (Hty _ f Hf) as (y & Hy & Hk). exists f, y. split; [done|]. split; [done|].
    assert (Hky : f_key y = k) by (apply (w_inj (v_wf Hv1) _ _ (id + 1)); [rewrite Hk; f_equal; lia|done]).
    split; [|by rewrite <- Ef]. destruct (wf_fits (v_wf Hv) Hx) as (Hty0 & _). destruct (Hty0 _ f Hf) as (y0 & Hy0 & Hk0).
    rewrite <- Ef in Hy0. simplify_eq. rewrite Hk0. cbn. replace (Z.to_nat (Z.of_nat (Z.to_nat id) + 1 - 1)) with (Z.to_nat id) by lia. by rewrite Hf.
  - right. split; [done|]. split; [done|]. destruct (id_ w k) as [j|] eqn:Hj; [|done]. rewrite (Hids _ _ Hj) in Hidk. injection Hidk as ->.
    cbn. replace (id + 1 - 1) with id by lia. by rewrite Hf.
  - right. split; [done|]. split; [done|]. destruct (id_ w k) as [j|] eqn:Hj; [|done]. rewrite (Hids _ _ Hj) in Hidk. injection Hidk as ->.
    cbn. replace (id + 1 - 1) with id by lia. by rewrite Hf.
Qed.

(** ** Programs *)

Inductive op :=
  | MakeFacet (refs : Z) (k : facet_key)
  | Default (v : nat) | Copy (v o : nat) | Named (v : nat) (name : option bytes)
  | WithNamed (v o : nat) (name : option bytes) (c : Z) | WithOne (v o one : nat) (c : Z)
  | WithFacet (v o : nat) (f : option (nat * facet_key)) | Combine (v this other : nat) (k : facet_key)
  | Destroy (v : nat) | Assign (v o : nat) | SetGlobal (v loc : nat) | Ask (v : nat) (k : facet_key).

Definition exec (p : op) : comp world unit :=
  match p with
  | MakeFacet refs k => make_facet refs k ;;; cret tt
  | Default v => locale_default granted v
  | Copy v o => locale_copy v o
  | Named v name => locale_named granted known fails v name
  | WithNamed v o name c => locale_with_named granted known fails v o name c
  | WithOne v o one c => locale_with_one granted v o one c
  | WithFacet v o f => locale_with_facet granted v o f
  | Combine v this other k => locale_combine granted v this other k
  | Destroy v => locale_destroy v
  | Assign v o => locale_assign v o
  | SetGlobal v loc => locale_global granted known v loc
  | Ask v k => use_facet v k ;;; cret tt
  end.

(** What the language lets a program do: a new locale is a new object, the others are
    there, and so is a facet, of the class it is used as. *)
Definition new_ (w : world) (v : nat) : Prop := locales w !! v = None.
Definition there (w : world) (v : nat) : Prop := is_Some (locales w !! v).
Definition allowed (w : world) (p : op) : Prop :=
  match p with
  | MakeFacet refs _ => 0 ≤ refs
  | Default v | Named v _ => new_ w v
  | Copy v o | WithNamed v o _ _ | SetGlobal v o => new_ w v ∧ there w o
  | WithOne v o one _ | Combine v o one _ => new_ w v ∧ there w o ∧ there w one
  | WithFacet v o f => new_ w v ∧ there w o ∧ match f with Some (f, k) => ∃ y, facets w !! f = Some y ∧ f_key y = k | None => True end
  | Destroy v | Ask v _ => there w v
  | Assign v o => there w v ∧ there w o
  end.

(** The locale an operation makes or changes. *)
Definition target (p : op) : option nat :=
  match p with
  | Default v | Copy v _ | Named v _ | WithNamed v _ _ _ | WithOne v _ _ _ | WithFacet v _ _ | Combine v _ _ _ | Destroy v | Assign v _ | SetGlobal v _ => Some v
  | MakeFacet _ _ | Ask _ _ => None
  end.

(** The shares of facets that no table has after an operation: those a program keeps
    when it makes one, and those lost for want of memory. *)
Definition shares_after (L : nat → Z) (w : world) (p : op) (L' : nat → Z) : Prop :=
  match p with
  | MakeFacet refs _ => L' = plus L (next w) refs
  | WithFacet _ o _ | Combine _ o _ _ => L' = L ∨ no_memory granted ∧ ∃ t n, view w o = Some (t, n) ∧ L' = leak L (items t)
  | _ => L' = L
  end.

(** How an operation of a program ends. *)
Definition ends (L : nat → Z) (w : world) (p : op) : Prop :=
  ∃ r w' L', exec p w = (r, w') ∧ (r = Ret tt ∨ ∃ e, r = Throw e) ∧ inv L' w' ∧ shares_after L w p L'
    ∧ (∀ u, target p ≠ Some u → view w' u = view w u)
    ∧ match p with
      | MakeFacet refs k => facets w' = <[next w := Facet k None (refs - 1)]> (facets w)
      | _ => evolve_from (next w) (facets w) (facets w')
      end ∧ owned_from (imps w) (imps w').

Lemma op_returns {L w p v} w' : exec p w = (Ret tt, w') → inv L w' → shares_after L w p L → spares v w w' → target p = Some v → ends L w p.
Proof.
  intros He Hv HL [Hs Hf Ho] Ht. exists (Ret tt), w', L. split; [done|]. split; [by left|]. split; [done|]. split; [done|]. split; [|by destruct p].
  intros u Hu. apply Hs. congruence.
Qed.

Lemma op_throws {L w p v} e w' L' : exec p w = (Throw e, w') → inv L' w' → shares_after L w p L' → spares v w w' → target p = Some v → ends L w p.
Proof.
  intros He Hv HL [Hs Hf Ho] Ht. exists (Throw e), w', L'. split; [done|]. split; [right; by exists e|]. split; [done|]. split; [done|]. split; [|by destruct p].
  intros u Hu. apply Hs. congruence.
Qed.

Lemma ends_with_facet {L w v o f k y} p :
  inv L w → new_ w v → there w o → facets w !! f = Some y → f_key y = k →
  (∀ L', shares_after L w (WithFacet v o None) L' → shares_after L w p L') → target p = Some v →
  exec p w = locale_with_facet granted v o (Some (f, k)) w → ends L w p.
Proof.
  intros Hv Hn Ho Hf Hk Hsh Ht He. destruct (with_facet_spec Hv Hn Ho Hf Hk) as (L' & w' & Hv' & Hs & [(Hr & -> & _)|(Hg & (e & Hr) & _ & HL)]).
  - apply (op_returns (v:=v) w'); [congruence|done|apply Hsh; by left|exact Hs|exact Ht].
  - eapply (op_throws (v:=v) e w' L'); [congruence|done| |exact Hs|exact Ht]. apply Hsh. destruct HL as [-> |HL]; [by left|by right].
Qed.

Lemma op_null {L w v p} : inv L w → exec p w = (Throw locale_null, w) → shares_after L w p L → target p = Some v → ends L w p.
Proof. intros Hv He HL Ht. by apply (op_throws (v:=v) _ _ L He Hv HL (spares_refl v w)). Qed.

Lemma facet_of_id {w v k f} : facet_of w v k = Some f → is_Some (id_ w k).
Proof. unfold facet_of, facet_at. destruct (view w v) as [[t n]|]; [|done]. cbn. by destruct (id_ w k). Qed.

Lemma ends_combine {L w v o other k} : inv L w → new_ w v → there w o → there w other → ends L w (Combine v o other k).
Proof.
  intros Hv Hn Ho Ht. destruct (ask_spec k Hv Ht) as (w1 & Hv1 & Hviews & Ef & En & El & Ei & Hsame & [(f & y & Hu & Hh & Hfo & Hf & Hk)|(_ & Hh & _)]).
  - rewrite (Hsame (facet_of_id Hfo)) in Hu, Hh. apply (ends_with_facet _ Hv Hn Ho Hf Hk); [done|done|].
    cbn [exec]. unfold locale_combine. by rewrite (cbind_ret _ _ _ _ _ Hh), (cbind_ret _ _ _ _ _ Hu).
  - apply (op_throws (v:=v) locale_missing w1 L); [|done|by left| |done].
    + cbn [exec]. unfold locale_combine. by rewrite (cbind_ret _ _ _ _ _ Hh).
    + split; [intros; apply Hviews|rewrite Ef; apply evolve_evolve_from, evolve_refl|rewrite Ei; apply owned_refl].
Qed.

(** No operation but ends, with or without an exception. *)
Lemma exec_spec {L w p} : inv L w → allowed w p → ends L w p.
Proof.
  intros Hv Ha. destruct p as [refs k|v|v o|v name|v o name c|v o one c|v o f|v this other k|v|v o|v loc|v k]; cbn [allowed] in Ha.
  - destruct (make_facet_spec refs k Hv Ha) as (w' & Hm & Hv' & Hviews & Ei & He). assert (Hown : owned_from (imps w) (imps w')) by (rewrite Ei; apply owned_refl). exists (Ret tt), w', (plus L (next w) refs).
    cbn [exec]. rewrite (cbind_ret _ _ _ _ _ Hm). split; [done|]. split; [by left|]. split; [done|]. split; [done|]. split; [intros; apply Hviews|done].
  - destruct (inv_global Hv) as (g & x & Hg & Hx).
    destruct (construct_copy Hv Ha (global_spec w g Hg) Hx) as (w' & Hr & Hv' & Hs & _). by apply (op_returns (v:=v) w').
  - destruct Ha as [Hn Ho]. destruct (view_Some Hv Ho) as (i & x & Hi & Hx & _).
    destruct (construct_copy Hv Hn (get_locale_spec _ _ _ Hi) Hx) as (w' & Hr & Hv' & Hs & _). by apply (op_returns (v:=v) w').
  - destruct name as [name|]; [|by apply (op_null (v:=v))].
    destruct (named_spec name Hv Ha) as (w' & Hv' & Hs & _ & [[Hr _]|(e & Hr & _)]); [by apply (op_returns (v:=v) w')|by apply (op_throws (v:=v) e w' L)].
  - destruct Ha as [Hn Ho]. destruct name as [name|]; [|by apply (op_null (v:=v))].
    destruct (with_named_spec name c Hv Hn Ho) as (w' & Hv' & Hs & _ & [[Hr _]|(e & Hr & _)]); [by apply (op_returns (v:=v) w')|by apply (op_throws (v:=v) e w' L)].
  - destruct Ha as (Hn & Ho & H1).
    destruct (with_one_spec c Hv Hn Ho H1) as (w' & Hv' & Hs & _ & [[Hr _]|(_ & e & Hr & _)]); [by apply (op_returns (v:=v) w')|by apply (op_throws (v:=v) e w' L)].
  - destruct Ha as (Hn & Ho & Hf). destruct f as [[f k]|].
    + destruct Hf as (y & Hf & Hk). by apply (ends_with_facet _ Hv Hn Ho Hf Hk).
    + destruct (view_Some Hv Ho) as (i & x & Hi & Hx & _).
      destruct (construct_copy Hv Hn (get_locale_spec _ _ _ Hi) Hx) as (w' & Hr & Hv' & Hs & _). apply (op_returns (v:=v) w'); try done. by left.
  - destruct Ha as (Hn & Ho & Ht). by apply ends_combine.
  - destruct (destroy_spec Hv Ha) as (w' & Hr & Hv' & Hs & _). by apply (op_returns (v:=v) w').
  - destruct Ha as [Hl Ho]. destruct (assign_spec Hv Hl Ho) as (w' & Hr & Hv' & Hs & _). by apply (op_returns (v:=v) w').
  - destruct Ha as [Hn Ho]. destruct (inv_global Hv) as (g & x & Hg & Hx).
    destruct (global_swap_spec Hv Hn Ho Hg Hx) as (w' & n & Hr & Hv' & Hs & _). by apply (op_returns (v:=v) w').
  - destruct (ask_spec k Hv Ha) as (w' & Hv' & Hviews & Ef & En & El & Ei & _ & Hres). assert (Hown : owned_from (imps w) (imps w')) by (rewrite Ei; apply owned_refl).
    assert (He : evolve_from (next w) (facets w) (facets w')) by (rewrite Ef; apply evolve_evolve_from, evolve_refl).
    destruct Hres as [(f & y & Hu & _)|(Hu & _)]; [exists (Ret tt), w', L|exists (Throw bad_cast), w', L]; cbn [exec].
    + rewrite (cbind_ret _ _ _ _ _ Hu). split; [done|]. split; [by left|]. split; [done|]. split; [done|]. split; [intros; apply Hviews|done].
    + rewrite (cbind_throw _ _ _ _ _ Hu). split; [done|]. split; [right; by eexists|]. split; [done|]. split; [done|]. split; [intros; apply Hviews|done].
Qed.

(** ** The beginning *)

(** The world after the first use of the global locale. *)
Definition start : world := snd (global_locale granted nothing).

Definition static_shares (f : nat) : Z := ind (bool_decide (1 ≤ f ≤ 28)%nat).
Definition static_facets : gmap nat facet := list_to_map (imap (λ i k, (S i, Facet k None 1)) standard).
Definition static_imp : imp := Imp (FVec (imap (λ i _, Some (S i)) standard) N) (str "C") 1.

Lemma start_made : global_locale granted nothing = (Ret 0%nat, start).
Proof. vm_compute. reflexivity. Qed.

Lemma start_facets : facets start = static_facets.
Proof. vm_compute. reflexivity. Qed.

Lemma start_imps : imps start = {[0%nat := static_imp]}.
Proof. vm_compute. reflexivity. Qed.

Lemma start_rest : classic_ start = Some 0%nat ∧ global_ start = Some 0%nat ∧ next start = 29%nat ∧ next_id start = 28 ∧ locales start = ∅.
Proof. vm_compute. done. Qed.

Lemma static_facets_beyond f : f = 0%nat ∨ (28 < f)%nat → static_facets !! f = None.
Proof.
  intros Hf. apply not_elem_of_list_to_map_1. change (imap _ standard).*1 with (seq 1 28). rewrite elem_of_seq. lia.
Qed.

Lemma occ_none f l : (∀ j, l !! j ≠ Some (Some f)) → occ f l = 0.
Proof.
  induction l as [|o l IH]; intros Hf; [done|]. rewrite occ_cons, IH by (intros j; apply (Hf (S j))).
  rewrite bool_decide_eq_false_2; [done|]. intros ->. by apply (Hf 0%nat).
Qed.

Lemma static_items j f : items (facets_ static_imp) !! j = Some (Some f) → f = S j ∧ (j < 28)%nat.
Proof.
  cbn [static_imp facets_ items]. rewrite list_lookup_imap. destruct (standard !! j) as [k|] eqn:Hj; [|done].
  apply lookup_lt_Some in Hj. cbn in Hj. by intros [= <-].
Qed.

Lemma start_ids k : id_ start k = (λ p, Z.of_nat p.1 + 1) <$> list_find (λ x, x = k) standard.
Proof. destruct k as [[]|[]|[]|[]|[]|[]|[] []|[]|[]|[]|[]|[]|n]; vm_compute; reflexivity. Qed.

Lemma start_id j : (j < 28)%nat → ∃ k, standard !! j = Some k ∧ id_ start k = Some (Z.of_nat j + 1) ∧ facets start !! S j = Some (Facet k None 1).
Proof.
  intros Hj. rewrite start_facets. do 28 (destruct j as [|j]; [eexists; split; [done|]; split; vm_compute; reflexivity|]). lia.
Qed.

#[local] Opaque start.

Lemma start_inv : inv static_shares start.
Proof.
  assert (Hr : ∀ f, refs f (imps start) = occ f (items (facets_ static_imp))).
  { intros f. rewrite start_imps. unfold refs. change {[0%nat := static_imp]} with (<[0%nat := static_imp]> (∅ : gmap nat imp)).
    rewrite (total_add _ ∅ _ _ (lookup_empty _)), total_empty. lia. }
  destruct start_rest as (Hc & Hg & Hn & Hid & Hl). split; [|by exists 0%nat|by exists 0%nat]. split.
  - intros f. rewrite Hr, start_facets. destruct (decide (1 ≤ f ≤ 28)%nat) as [Hf|Hf].
    + destruct f as [|f]; [lia|]. do 28 (destruct f as [|f]; [vm_compute; split; [reflexivity|discriminate]|]). lia.
    + rewrite static_facets_beyond by lia. rewrite occ_none; [|intros j Hj; apply static_items in Hj; lia].
      unfold static_shares. by rewrite bool_decide_eq_false_2.
  - intros i. unfold locs, base. rewrite start_imps, Hc, Hg, Hl, total_empty. clear.
    destruct i as [|i]; [vm_compute; split; [reflexivity|discriminate]|]. rewrite lookup_singleton_ne by lia. rewrite !bool_decide_eq_false_2 by congruence. reflexivity.
  - intros f. apply ind_nonneg.
  - intros p Hp. rewrite Hn in Hp. rewrite start_facets, start_imps. split; [apply static_facets_beyond; lia|].
    by rewrite lookup_singleton_ne by lia.
  - intros k i. rewrite start_ids, Hid. intros ([j x] & [Hj _]%list_find_Some & ->)%fmap_Some.
    apply lookup_lt_Some in Hj. cbn in *. lia.
  - intros k k' i. rewrite !start_ids. intros ([j x] & [Hj [<- _]]%list_find_Some & ->)%fmap_Some ([j' x'] & [Hj' [<- _]]%list_find_Some & He)%fmap_Some.
    cbn in He. assert (j' = j) as -> by lia. congruence.
  - intros k Hk. rewrite start_ids. destruct (list_find _ _) as [[j x]|] eqn:E; [by exists j|].
    apply list_find_None in E. rewrite Forall_forall in E. by destruct (E k Hk).
  - intros i x. rewrite start_imps, lookup_singleton_Some. intros [<- <-]. split; [| |done].
    + intros j f Hf. destruct (static_items j f Hf) as [-> Hj]. destruct (start_id j Hj) as (k & _ & Hk & Hfk). exists (Facet k None 1). split; [exact Hfk|exact Hk].
    + intros k Hk. apply list_elem_of_lookup in Hk as [j Hj]. pose proof (lookup_lt_Some _ _ _ Hj) as Hj28.
      destruct (start_id j Hj28) as (k' & Hk' & Hj' & _). exists j, (S j). rewrite Hj in Hk'. injection Hk' as <-. split; [exact Hj'|].
      cbn [static_imp facets_ items]. by rewrite list_lookup_imap, Hj.
Qed.

(** ** What programs can reach *)

(** The worlds after any operations, with the shares of facets the program and the classic
    locale were given when the facets were made. *)
Definition shares_kept (sh : nat → Z) (w : world) (p : op) : nat → Z :=
  match p with MakeFacet refs _ => plus sh (next w) refs | _ => sh end.

Inductive reachable : (nat → Z) → world → Prop :=
  | at_start : reachable static_shares start
  | after sh w p r w' : reachable sh w → allowed w p → exec p w = (r, w') →
      reachable (shares_kept sh w p) w'.

Lemma reachable_inv sh w :
  reachable sh w → ∃ L, inv L w ∧ (∀ f, sh f ≤ L f) ∧ ((∀ p, granted p = true) → ∀ f, L f = sh f) ∧ ∀ i x, imps w !! i = Some x → 0 ≤ i_count x.
Proof.
  induction 1 as [|sh w p r w' _ (L & Hv & Hle & Heq & Hown) Ha He].
  - exists static_shares. split; [apply start_inv|]. split; [done|]. split; [done|]. intros i x. rewrite start_imps, lookup_singleton_Some. by intros [<- <-].
  - destruct (exec_spec Hv Ha) as (r' & w2 & L' & He' & _ & Hv' & Hsh & _ & _ & Ho). rewrite He in He'. injection He' as <- <-.
    exists L'. split; [done|].
    assert (Hsame : ∀ f, 0 ≤ L' f - L f → (no_memory granted ∨ L' = L) → sh f ≤ L' f ∧ ((∀ p, granted p = true) → L' f = sh f)).
    { intros f Hf Hm. pose proof (Hle f). split; [lia|]. intros Hg. destruct Hm as [[q Hq]| ->]; [by rewrite Hg in Hq|by apply Heq]. }
    assert (Hcount : ∀ i x, imps w' !! i = Some x → 0 ≤ i_count x) by (intros i x Hx; destruct (Ho i x Hx) as [|Hold]; [done|by apply (Hown i)]).
    assert (Hstep : ∀ f, shares_kept sh w p f ≤ L' f ∧ ((∀ q, granted q = true) → L' f = shares_kept sh w p f)).
    { intros f. unfold shares_kept. destruct p; cbn [shares_after] in Hsh; try (subst L'; apply Hsame; [lia|by right]).
      - subst L'. unfold plus. pose proof (Hle f). split; [case_decide; lia|]. intros Hg. case_decide; rewrite (Heq Hg); lia.
      - destruct Hsh as [-> |(Hm & t & n & _ & ->)]; apply Hsame; [lia|by right|unfold leak; pose proof (occ_nonneg f (items t)); lia|by left].
      - destruct Hsh as [-> |(Hm & t & n & _ & ->)]; apply Hsame; [lia|by right|unfold leak; pose proof (occ_nonneg f (items t)); lia|by left]. }
    split; [intros f; apply Hstep|]. split; [intros Hg f; by apply Hstep|done].
Qed.

(** With memory, the count of each facet is its shares, and what has none is free. *)
Lemma counted {sh w} f : (∀ p, granted p = true) → reachable sh w →
  match facets w !! f with Some y => f_count y + 1 = refs f (imps w) + sh f | None => refs f (imps w) + sh f = 0 end.
Proof.
  intros Hg Hr. destruct (reachable_inv sh w Hr) as (L & Hv & _ & Heq & _). pose proof (w_facets (v_wf Hv) f) as Ht.
  pose proof (Heq Hg f). cbn beta in Ht. destruct (facets w !! f); lia.
Qed.

Lemma last_share_frees {sh w} p r w' f :
  (∀ q, granted q = true) → reachable sh w → allowed w p → exec p w = (r, w') → is_Some (facets w' !! f) →
  0 < refs f (imps w') + shares_kept sh w p f
  ∨ (is_Some (facets w !! f) ∧ refs f (imps w) + sh f = 0)
  ∨ (f = next w ∧ ∃ k, p = MakeFacet 0 k).
Proof.
  intros Hg Hr Ha He [y Hy]. pose proof (counted f Hg (after _ _ _ _ _ Hr Ha He)) as Hc. rewrite Hy in Hc.
  pose proof (counted f Hg Hr) as Hc0. destruct (reachable_inv sh w Hr) as (L & Hv & _).
  destruct (reachable_inv _ _ (after _ _ _ _ _ Hr Ha He)) as (L1 & Hv1 & _). pose proof (w_facets (v_wf Hv1) f) as Ht. rewrite Hy in Ht.
  destruct (decide (f_count y = -1)) as [Hno|]; [right|left; lia].
  destruct (exec_spec Hv Ha) as (r' & w2 & _ & He' & _ & _ & _ & _ & Hev & _). rewrite He in He'. injection He' as <- <-.
  assert (Hold : evolve_from (next w) (facets w) (facets w') → is_Some (facets w !! f) ∧ refs f (imps w) + sh f = 0).
  { intros Hf. destruct (Hf f y Hy) as [(x & Hx & _ & _ & Hs)|[_ ?]]; [|done]. rewrite Hx in Hc0 |- *. rewrite (Hs Hno) in Hc0. split; [done|lia]. }
  destruct p as [refs0 k|v|v o|v name|v o name c|v o one c|v o g|v this other k|v|v o|v loc|v k]; try (left; by apply Hold).
  rewrite Hev in Hy. destruct (decide (f = next w)) as [->|Hne].
  - right. split; [done|]. rewrite lookup_insert_eq in Hy. injection Hy as <-. cbn in Hno. exists k. f_equal. lia.
  - left. rewrite lookup_insert_ne in Hy by done. rewrite Hy in Hc0 |- *. split; [done|lia].
Qed.

(** C21: No order of operations on locales uses a facet or a table that is freed: every one
    ends, or throws, and each locale has for each class of the library a facet of that
    class. *)
Theorem locales_safe sh w p :
  reachable sh w → allowed w p →
  (∃ r w', exec p w = (r, w') ∧ (r = Ret tt ∨ ∃ e, r = Throw e))
  ∧ ∀ v k, there w v → k ∈ standard → ∃ f y, use_facet v k w = (Ret f, w) ∧ facets w !! f = Some y ∧ f_key y = k.
Proof.
  intros Hr Ha. destruct (reachable_inv sh w Hr) as (L & Hv & _). split.
  - destruct (exec_spec Hv Ha) as (r & w' & _ & He & Hres & _). by exists r, w'.
  - intros v k Hl Hk. destruct (w_standard (v_wf Hv) k Hk) as [j Hj].
    destruct (ask_spec k Hv Hl) as (w' & _ & _ & _ & _ & _ & _ & Hsame & Hres). rewrite (Hsame (ex_intro _ _ Hj)) in Hres.
    destruct Hres as [(f & y & Hu & _ & _ & Hf & Hky)|(_ & _ & Hno)]; [by exists f, y|]. exfalso.
    destruct (view_Some Hv Hl) as (i & x & _ & Hx & Hvx). destruct (wf_fits (v_wf Hv) Hx) as (_ & Hc & _). destruct (Hc k Hk) as (j' & f & Hj' & Hf).
    unfold facet_of in Hno. rewrite Hvx in Hno. cbn in Hno. by rewrite (facet_at_id _ _ _ j' Hj'), Hf in Hno.
Qed.

(** The category of each class of facets, as the C++ standard lists them, by the bit that
    the C library has for it: 0 [LC_CTYPE], 1 [LC_NUMERIC], 2 [LC_TIME], 3 [LC_COLLATE],
    4 [LC_MONETARY], 5 [LC_MESSAGES].  The facets of a program have none. *)
Definition category_bit (k : facet_key) : option Z :=
  match k with
  | Ctype _ | Codecvt _ => Some 0
  | Numpunct _ | Num_get _ | Num_put _ => Some 1
  | Time_get _ | Time_put _ => Some 2
  | Collate _ => Some 3
  | Moneypunct _ _ | Money_get _ | Money_put _ => Some 4
  | Messages _ => Some 5
  | Own _ => None
  end.
Definition selects (c : Z) (k : facet_key) : bool := match category_bit k with Some b => Z.testbit c b | None => false end.

Lemma in_category_bit c b : 0 ≤ b → in_category c (2 ^ b) = Z.testbit c b.
Proof.
  intros Hb. unfold in_category. assert (Z.land c (2 ^ b) = if Z.testbit c b then 2 ^ b else 0) as ->.
  { apply Z.bits_inj'. intros n Hn. rewrite Z.land_spec, Z.pow2_bits_eqb by done.
    destruct (Z.eqb_spec b n) as [->|Hne]; rewrite ?andb_false_r, ?andb_true_r; destruct (Z.testbit c _); rewrite ?Z.bits_0; try done.
    - by rewrite Z.pow2_bits_true.
    - by rewrite Z.pow2_bits_false. }
  destruct (Z.testbit c b); [|done]. pose proof (Z.pow_pos_nonneg 2 b). destruct (Z.eqb_spec (2 ^ b) 0); [lia|done].
Qed.

Lemma standard_of_selects c k : bool_decide (k ∈ standard_of c) = selects c k.
Proof.
  unfold selects, standard_of. change cat_ctype with (2 ^ 0). change cat_numeric with (2 ^ 1). change cat_time with (2 ^ 2).
  change cat_collate with (2 ^ 3). change cat_monetary with (2 ^ 4). change cat_messages with (2 ^ 5). rewrite !in_category_bit by done.
  destruct k as [[]|[]|[]|[]|[]|[]|[] []|[]|[]|[]|[]|[]|n]; cbn [category_bit];
    destruct (Z.testbit c 0), (Z.testbit c 1), (Z.testbit c 2), (Z.testbit c 3), (Z.testbit c 4), (Z.testbit c 5);
    first [by apply bool_decide_eq_true_2, (bool_decide_unpack _)|by apply bool_decide_eq_false_2; intros ?%(bool_decide_pack _)|idtac].
Qed.

(** C19: A locale that is mixed from two has from the second the facets whose category, in
    the table of the C++ standard, is among those that are named, and all others, also
    those of a program, from the first; the other locales are as they were.  It throws for
    want of memory only, and then nothing has changed for any locale. *)
Theorem locale_mixes sh w v o one c :
  reachable sh w → new_ w v → there w o → there w one →
  ∃ r w', locale_with_one granted v o one c w = (r, w') ∧ (∀ u, u ≠ v → view w' u = view w u) ∧
    (r = Ret tt ∧ name_of w' v = Some (str "*")
       ∧ (∀ k, facet_of w' v k = if selects c k then facet_of w one k else facet_of w o k)
     ∨ no_memory granted ∧ (∃ e, r = Throw e) ∧ locales w' = locales w).
Proof.
  intros Hr Hn Ho H1. destruct (reachable_inv sh w Hr) as (L & Hv & _).
  destruct (with_one_spec c Hv Hn Ho H1) as (w' & Hv' & Hs & _ & [(Hc & Hname & Hk)|(Hm & e & Hc & Hl)]).
  - exists (Ret tt), w'. split; [done|]. split; [apply (s_views _ _ _ Hs)|]. left.
    split; [done|]. split; [done|]. intros k. by rewrite <- standard_of_selects.
  - exists (Throw e), w'. split; [done|]. split; [apply (s_views _ _ _ Hs)|]. right. split; [done|]. split; [by exists e|done].
Qed.

(** C25: As long as there is memory, nothing is lost: a table is there exactly as long as a
    locale has it, and the count of a facet is that of the tables that hold it and of the
    shares its maker kept.  The operation that takes the last share of a facet frees it:
    a facet that is there after an operation has a share, or had none before it either,
    or has just been made by the program, without any. *)
Theorem locales_freed sh w :
  (∀ p, granted p = true) → reachable sh w →
  (∀ i, is_Some (imps w !! i) ↔ classic_ w = Some i ∨ global_ w = Some i ∨ ∃ v, locales w !! v = Some i)
  ∧ (∀ f, match facets w !! f with Some y => f_count y + 1 = refs f (imps w) + sh f | None => refs f (imps w) + sh f = 0 end)
  ∧ ∀ p r w' f, allowed w p → exec p w = (r, w') → is_Some (facets w' !! f) →
      0 < refs f (imps w') + shares_kept sh w p f
      ∨ (is_Some (facets w !! f) ∧ refs f (imps w) + sh f = 0)
      ∨ (f = next w ∧ ∃ k, p = MakeFacet 0 k).
Proof.
  intros Hg Hr. destruct (reachable_inv sh w Hr) as (L & Hv & _ & Heq & Hown). specialize (Heq Hg). split; [|split; [|by intros; eapply last_share_frees]].
  - intros i. pose proof (w_imps (v_wf Hv) i) as Ht. split.
    + intros [x Hx]. rewrite Hx in Ht. specialize (Hown i x Hx).
      destruct (decide (classic_ w = Some i)) as [|Hc]; [by left|]. destruct (decide (global_ w = Some i)) as [|Hgl]; [by right; left|]. right; right.
      destruct (decide (map_Exists (λ _ j, j = i) (locales w))) as [(v & j & Hj & ->)|Hno]; [by exists v|]. exfalso.
      unfold base, locs in Ht. rewrite !bool_decide_eq_false_2 in Ht by done. rewrite total_zero in Ht; [cbn [ind] in Ht; lia|].
      intros v j Hj. cbn. rewrite bool_decide_eq_false_2; [done|]. intros ->. apply Hno. by exists v, i.
    + intros [Hc|[Hgl|[v Hl]]].
      * destruct (inv_classic Hv) as (c & x & Hc' & Hx). simplify_eq. by exists x.
      * destruct (inv_global Hv) as (g & x & Hg' & Hx). simplify_eq. by exists x.
      * destruct (inv_table Hv Hl) as [x Hx]. by exists x.
  - intros f. pose proof (w_facets (v_wf Hv) f) as Ht. pose proof (Heq f).
    cbn beta in Ht. destruct (facets w !! f); lia.
Qed.
End safe.

(** ** A locale that cannot be made *)

Section hosts.
Definition all_memory (_ : nat) : bool := true.
Definition all_names (_ : bytes) : bool := true.
Definition no_failure (_ : facet_key) (_ : bytes) : option bytes := None.

Definition run (granted : nat → bool) (ps : list op) : world :=
  foldl (λ w p, snd (exec granted all_names no_failure p w)) (start granted) ps.

(** A facet of the program whose table cannot grow: the allocation after 53 others fails. *)
Definition until_53 (p : nat) : bool := negb (bool_decide (p = 53%nat)).
Definition de : bytes := str "de_DE".
Definition before_failure : list op := [Named 0 (Some de); Ask 0 (Own 0); MakeFacet 0 (Own 1)].

(** The constructor of a table with a facet of the program does not give the facets back
    that it has counted when its table cannot grow: those that another locale had are
    never freed. *)
Theorem locale_facet_leaks :
  let w := run until_53 before_failure in
  let failed := exec until_53 all_names no_failure (WithFacet 1 0 (Some (50%nat, Own 1))) w in
  let after := snd (exec until_53 all_names no_failure (Destroy 0) (snd failed)) in
  fst failed = Throw bad_alloc ∧ locales after = ∅ ∧ facets after !! 30%nat = Some (Facet (Collate Char) (Some de) 0)
  ∧ refs 30 (imps after) = 0.
Proof. vm_compute. done. Qed.

(** The same operations with memory, and a locale of two. *)
Definition two_locales : list op := [Named 0 (Some de); Default 1].

Lemma two_reachable : reachable all_memory all_names no_failure static_shares (run all_memory two_locales).
Proof.
  eapply (after _ _ _ static_shares _ (Default 1)); [eapply (after _ _ _ static_shares _ (Named 0 (Some de))); [apply at_start|..]|..].
  - vm_compute. reflexivity.
  - apply surjective_pairing.
  - vm_compute. reflexivity.
  - apply surjective_pairing.
Qed.

Lemma two_there v : (v < 2)%nat → there (run all_memory two_locales) v.
Proof. intros Hv. do 2 (destruct v as [|v]; [vm_compute; eexists; reflexivity|]). lia. Qed.

Lemma locales_safe_witness :
  ∃ f y, use_facet 1 (Num_put Char) (run all_memory two_locales) = (Ret f, run all_memory two_locales)
    ∧ facets (run all_memory two_locales) !! f = Some y ∧ f_key y = Num_put Char.
Proof.
  apply (locales_safe all_memory all_names no_failure static_shares (run all_memory two_locales) (Destroy 0) two_reachable).
  - apply two_there. lia.
  - apply two_there. lia.
  - apply (bool_decide_unpack _). vm_compute. exact I.
Defined.

Lemma locale_mixes_witness :
  ∃ r w', locale_with_one all_memory 2 1 0 cat_numeric (run all_memory two_locales) = (r, w') ∧ (∀ u, u ≠ 2%nat → view w' u = view (run all_memory two_locales) u) ∧
    (r = Ret tt ∧ name_of w' 2 = Some (str "*")
       ∧ (∀ k, facet_of w' 2 k = if selects cat_numeric k then facet_of (run all_memory two_locales) 0 k else facet_of (run all_memory two_locales) 1 k)
     ∨ no_memory all_memory ∧ (∃ e, r = Throw e) ∧ locales w' = locales (run all_memory two_locales)).
Proof.
  apply (locale_mixes all_memory all_names no_failure static_shares _ 2 1 0 cat_numeric two_reachable).
  - vm_compute. reflexivity.
  - apply two_there. lia.
  - apply two_there. lia.
Defined.

Lemma locales_freed_witness :
  match facets (run all_memory two_locales) !! 30%nat with
  | Some y => f_count y + 1 = refs 30 (imps (run all_memory two_locales)) + static_shares 30
  | None => refs 30 (imps (run all_memory two_locales)) + static_shares 30 = 0
  end.
Proof. exact (proj1 (proj2 (locales_freed all_memory all_names no_failure static_shares _ (λ _, eq_refl) two_reachable)) 30%nat). Defined.
End hosts.
