(* ===== verification/DemangleData.v ===== *)
(** * DemangleData: the vectors of the demangler and its state

    What [libelftc_dem_gnu3.c] of libcxxrt keeps while it reads a mangled name: vectors
    of strings, of commands and of type qualifiers, the place in the name, and the
    operations on them.  A function of the code that returns 0 on failure is a
    computation that [Failed]; what it changed stays.  Whether [malloc] is granted
    depends on the size alone.  Strings have no NUL, which ends them in the code. *)

From S2P Require Import Prelude Text StringConv.

(** ** Computations *)

(** How a function ends: with a value, with 0 or [NULL], without fuel, on a failed
    [assert], or in undefined behaviour. *)
Inductive ending (A : Type) := Done (a : A) | Failed | OutOfFuel | Asserted | Broken (why : ub).
Arguments Done {A} a.
Arguments Failed {A}.
Arguments OutOfFuel {A}.
Arguments Asserted {A}.
Arguments Broken {A} why.

Definition act (S A : Type) : Type := S → ending A * S.

#[export] Instance act_ret {S} : MRet (act S) := λ A a s, (Done a, s).
#[export] Instance act_bind {S} : MBind (act S) := λ A B k m s,
  match m s with
  | (Done a, s') => k a s'
  | (Failed, s') => (Failed, s')
  | (OutOfFuel, s') => (OutOfFuel, s')
  | (Asserted, s') => (Asserted, s')
  | (Broken why, s') => (Broken why, s')
  end.

Section acts.
Context {S : Type}.
Definition failed {A} : act S A := λ s, (Failed, s).
Definition broken {A} (why : ub) : act S A := λ s, (Broken why, s).
Definition out_of_fuel {A} : act S A := λ s, (OutOfFuel, s).
Definition state : act S S := λ s, (Done s, s).
Definition change (f : S → S) : act S unit := λ s, (Done tt, f s).
Definition require (b : bool) : act S unit := if b then mret tt else failed.
Definition asserts (b : bool) : act S unit := λ s, (if b then Done tt else Asserted, s).

(** The [int] that a function returns. *)
Definition returned {A} (m : act S A) : act S bool := λ s,
  match m s with
  | (Done _, s') => (Done true, s')
  | (Failed, s') => (Done false, s')
  | (OutOfFuel, s') => (OutOfFuel, s')
  | (Asserted, s') => (Asserted, s')
  | (Broken why, s') => (Broken why, s')
  end.

(** A computation on a part of the state. *)
Definition on {V A} (get : S → V) (set : V → S → S) (m : act V A) : act S A := λ s,
  let '(e, v) := m (get s) in (e, set v s).

(** A computation on a local variable. *)
Definition local {V A} (v : V) (m : act V A) : act S (A * V) := λ s,
  match m v with
  | (Done a, v') => (Done (a, v'), s)
  | (Failed, _) => (Failed, s)
  | (OutOfFuel, _) => (OutOfFuel, s)
  | (Asserted, _) => (Asserted, s)
  | (Broken why, _) => (Broken why, s)
  end.
End acts.

(** ** Vectors *)

Record vec (A : Type) := Vec { items : list A; capacity : Z }.
Arguments Vec {A} items capacity.
Arguments items {A} v.
Arguments capacity {A} v.

Definition vector_str : Type := vec bytes.

Definition VECTOR_DEF_CAPACITY : Z := 8.

(** The capacity times [BUFFER_GROWFACTOR]. *)
Definition grown (c : Z) : Z := c * 1618 / 1000.

Definition size {A} (v : vec A) : Z := zlen (items v).

(** [v->container[v->size] = x; ++v->size]. *)
Definition store {A} (x : A) : act (vec A) unit :=
  v ← state;
  if size v <? capacity v then change (λ _, Vec (items v ++ [x]) (capacity v)) else broken BufferOverflow.

(** Whether an allocation of a size is granted. *)
Class Heap := granted : Z → bool.

Section vectors.
Context `{Heap}.

Definition malloc {S} (n : Z) : act S unit := require (granted n).

Definition get_strlen_sum {S} (v : vector_str) : act S Z :=
  asserts (0 <? size v);; mret (foldr (λ s n, zlen s + n) 0 (items v)).

(** What [strncmp] compares with [l] at most. *)
Definition strncmp_eq (a b : bytes) (l : Z) : bool := bool_decide (take (Z.to_nat l) a = take (Z.to_nat l) b).

Definition vector_str_find (v : vector_str) (o : bytes) (l : Z) : bool := existsb (λ s, strncmp_eq s o l) (items v).

Definition vector_str_get_flat {S} (v : vector_str) : act S bytes :=
  require (negb (size v =? 0));;
  n ← get_strlen_sum v;
  require (negb (n =? 0));;
  malloc (n + 1);;
  mret (concat (items v)).

Definition vector_str_grow : act vector_str unit :=
  v ← state;
  asserts (0 <? capacity v);;
  let tmp_cap := grown (capacity v) in
  asserts (capacity v <? tmp_cap);;
  malloc (8 * tmp_cap);;
  change (λ v, Vec (items v) tmp_cap).

Definition vector_str_init {S} : act S vector_str :=
  malloc (8 * VECTOR_DEF_CAPACITY);; mret (Vec [] VECTOR_DEF_CAPACITY).

Definition vector_str_pop : act vector_str unit := change (λ v, Vec (removelast (items v)) (capacity v)).

(** What [snprintf] copies of a string: [len] characters at most. *)
Definition clip (len : Z) (s : bytes) : bytes := if len <? zlen s then take (Z.to_nat len) s else s.

Definition vector_str_push (s : bytes) (len : Z) : act vector_str unit :=
  v ← state;
  (if size v =? capacity v then vector_str_grow else mret tt);;
  malloc (len + 1);;
  store (clip len s).

Definition strdups {S} (l : list bytes) : act S unit := foldr (λ s m, malloc (zlen s + 1);; m) (mret tt) l.

Definition vector_str_push_vector_head (org : vector_str) : act vector_str unit :=
  dst ← state;
  let tmp_cap := grown (size dst + size org) in
  malloc (8 * tmp_cap);;
  strdups (items org);;
  if size dst + size org <=? tmp_cap then change (λ dst, Vec (items org ++ items dst) tmp_cap) else broken BufferOverflow.

(** The strings from [begin] on and before [stop], together.  The code's [end] is
    [stop - 1], the largest [size_t] where [stop] is 0. *)
Definition vector_str_substr {S} (v : vector_str) (begin stop : Z) : act S bytes :=
  require ((stop =? 0) || (begin <=? stop - 1));;
  if size v <? stop then broken BufferOverread
  else
    let s := concat (drop (Z.to_nat begin) (take (Z.to_nat stop) (items v))) in
    malloc (zlen s + 1);; mret s.

(** What has been pushed from [begin] on: [vector_str_substr(v, begin, v->size - 1)]. *)
Definition pushed_from {S} (v : vector_str) (begin : Z) : act S bytes := vector_str_substr v begin (size v).

(** ** Commands and type qualifiers *)

Inductive read_cmd := READ_FAIL | READ_NEST | READ_TMPL | READ_EXPR | READ_EXPL | READ_LOCAL | READ_TYPE | READ_FUNC | READ_PTRMEM.
Inductive type_qualifier := TYPE_PTR | TYPE_REF | TYPE_CMX | TYPE_IMG | TYPE_EXT | TYPE_RST | TYPE_VAT | TYPE_CST.

#[export] Instance read_cmd_eq_dec : EqDecision read_cmd.
Proof. solve_decision. Defined.
#[export] Instance type_qualifier_eq_dec : EqDecision type_qualifier.
Proof. solve_decision. Defined.

(** An [enum] has 4 bytes. *)
Definition enum_push {A} (x : A) : act (vec A) unit :=
  v ← state;
  (if size v =? capacity v then
     let tmp_cap := grown (capacity v) in
     malloc (4 * tmp_cap);; change (λ v, Vec (items v) tmp_cap)
   else mret tt);;
  store x.

Definition vector_read_cmd_init {S} : act S (vec read_cmd) := malloc (4 * VECTOR_DEF_CAPACITY);; mret (Vec [] VECTOR_DEF_CAPACITY).
Definition vector_read_cmd_push (c : read_cmd) : act (vec read_cmd) unit := enum_push c.
Definition vector_read_cmd_pop : act (vec read_cmd) unit :=
  v ← state; require (negb (size v =? 0));; change (λ v, Vec (removelast (items v)) (capacity v)).
Definition vector_read_cmd_find (v : vec read_cmd) (dst : read_cmd) : bool := existsb (λ c, bool_decide (c = dst)) (items v).

Record vector_type_qualifier := Quals { q_container : vec type_qualifier; ext_name : vector_str }.

Definition vector_type_qualifier_init {S} : act S vector_type_qualifier :=
  malloc (4 * VECTOR_DEF_CAPACITY);;
  e ← vector_str_init;
  mret (Quals (Vec [] VECTOR_DEF_CAPACITY) e).

Definition vector_type_qualifier_push {S} (q : type_qualifier) (v : vector_type_qualifier) : act S vector_type_qualifier :=
  r ← local (q_container v) (enum_push q);
  mret (Quals (snd r) (ext_name v)).

(** ** The state *)

(** [last_sname]: not set, a literal, the string of [output] at an index, or a string that
    has been freed. *)
Inductive sname := NoName | Literal (s : bytes) | OutputAt (i : nat) | FreedName.

Record cpp_demangle_data := DData {
  output : vector_str; output_tmp : vector_str; subst : vector_str; tmpl : vector_str; class_type : vector_str;
  cmd : vec read_cmd; paren : bool; pfirst : bool; mem_rst : bool; mem_vat : bool; mem_cst : bool;
  func_type : Z;
  cur : option bytes;  (** what is left of the name; [None] beyond its NUL *)
  last_sname : sname; push_head : Z }.
Abbreviation dd := cpp_demangle_data.

Definition set_output x (d : dd) : dd :=
  DData x (output_tmp d) (subst d) (tmpl d) (class_type d) (cmd d) (paren d) (pfirst d) (mem_rst d) (mem_vat d) (mem_cst d) (func_type d) (cur d) (last_sname d) (push_head d).
Definition set_output_tmp x (d : dd) : dd :=
  DData (output d) x (subst d) (tmpl d) (class_type d) (cmd d) (paren d) (pfirst d) (mem_rst d) (mem_vat d) (mem_cst d) (func_type d) (cur d) (last_sname d) (push_head d).
Definition set_subst x (d : dd) : dd :=
  DData (output d) (output_tmp d) x (tmpl d) (class_type d) (cmd d) (paren d) (pfirst d) (mem_rst d) (mem_vat d) (mem_cst d) (func_type d) (cur d) (last_sname d) (push_head d).
Definition set_tmpl x (d : dd) : dd :=
  DData (output d) (output_tmp d) (subst d) x (class_type d) (cmd d) (paren d) (pfirst d) (mem_rst d) (mem_vat d) (mem_cst d) (func_type d) (cur d) (last_sname d) (push_head d).
Definition set_class_type x (d : dd) : dd :=
  DData (output d) (output_tmp d) (subst d) (tmpl d) x (cmd d) (paren d) (pfirst d) (mem_rst d) (mem_vat d) (mem_cst d) (func_type d) (cur d) (last_sname d) (push_head d).
Definition set_cmd x (d : dd) : dd :=
  DData (output d) (output_tmp d) (subst d) (tmpl d) (class_type d) x (paren d) (pfirst d) (mem_rst d) (mem_vat d) (mem_cst d) (func_type d) (cur d) (last_sname d) (push_head d).
Definition set_paren x (d : dd) : dd :=
  DData (output d) (output_tmp d) (subst d) (tmpl d) (class_type d) (cmd d) x (pfirst d) (mem_rst d) (mem_vat d) (mem_cst d) (func_type d) (cur d) (last_sname d) (push_head d).
Definition set_pfirst x (d : dd) : dd :=
  DData (output d) (output_tmp d) (subst d) (tmpl d) (class_type d) (cmd d) (paren d) x (mem_rst d) (mem_vat d) (mem_cst d) (func_type d) (cur d) (last_sname d) (push_head d).
Definition set_mem (r v c : bool) (d : dd) : dd :=
  DData (output d) (output_tmp d) (subst d) (tmpl d) (class_type d) (cmd d) (paren d) (pfirst d) r v c (func_type d) (cur d) (last_sname d) (push_head d).
Definition set_func_type x (d : dd) : dd :=
  DData (output d) (output_tmp d) (subst d) (tmpl d) (class_type d) (cmd d) (paren d) (pfirst d) (mem_rst d) (mem_vat d) (mem_cst d) x (cur d) (last_sname d) (push_head d).
Definition set_cur x (d : dd) : dd :=
  DData (output d) (output_tmp d) (subst d) (tmpl d) (class_type d) (cmd d) (paren d) (pfirst d) (mem_rst d) (mem_vat d) (mem_cst d) (func_type d) x (last_sname d) (push_head d).
Definition set_last_sname x (d : dd) : dd :=
  DData (output d) (output_tmp d) (subst d) (tmpl d) (class_type d) (cmd d) (paren d) (pfirst d) (mem_rst d) (mem_vat d) (mem_cst d) (func_type d) (cur d) x (push_head d).
Definition set_push_head x (d : dd) : dd :=
  DData (output d) (output_tmp d) (subst d) (tmpl d) (class_type d) (cmd d) (paren d) (pfirst d) (mem_rst d) (mem_vat d) (mem_cst d) (func_type d) (cur d) (last_sname d) x.

Definition on_output {A} (m : act vector_str A) : act dd A := on output set_output m.
Definition on_output_tmp {A} (m : act vector_str A) : act dd A := on output_tmp set_output_tmp m.
Definition on_subst {A} (m : act vector_str A) : act dd A := on subst set_subst m.
Definition on_tmpl {A} (m : act vector_str A) : act dd A := on tmpl set_tmpl m.
Definition on_class_type {A} (m : act vector_str A) : act dd A := on class_type set_class_type m.
Definition on_cmd {A} (m : act (vec read_cmd) A) : act dd A := on cmd set_cmd m.

Definition data_init (org : bytes) : dd :=
  let v := Vec [] VECTOR_DEF_CAPACITY in
  DData v v v v v (Vec [] VECTOR_DEF_CAPACITY) false false false false false 0 (Some org) NoName 0.

(** Five vectors of strings and one of commands. *)
Definition cpp_demangle_data_init {S} (org : bytes) : act S dd :=
  malloc (8 * VECTOR_DEF_CAPACITY);; malloc (8 * VECTOR_DEF_CAPACITY);; malloc (8 * VECTOR_DEF_CAPACITY);;
  malloc (8 * VECTOR_DEF_CAPACITY);; malloc (8 * VECTOR_DEF_CAPACITY);; malloc (4 * VECTOR_DEF_CAPACITY);;
  mret (data_init org).

(** ** The place in the name *)

(** [ddata->cur] as a string. *)
Definition cur_str : act dd bytes := λ d, match cur d with Some s => (Done s, d) | None => (Broken BufferOverread, d) end.

(** [*(ddata->cur + k)]: NUL at the end. *)
Definition peek (k : nat) : act dd ascii :=
  s ← cur_str;
  if decide (k ≤ length s)%nat then mret (default NUL (s !! k)) else broken BufferOverread.

(** [ddata->cur += n]. *)
Definition advance (n : Z) : act dd unit :=
  change (λ d, set_cur (s ← cur d; if n <=? zlen s then Some (drop (Z.to_nat n) s) else None) d).

Definition ELFTC_ISDIGIT (c : ascii) : bool := isdigit c.

Definition is_char (c : ascii) (d : ascii) : bool := bool_decide (c = d).

(** The loop past the digits: what is passed. *)
Definition skip_digits : act dd bytes :=
  s ← cur_str;
  let '(a, b) := span ELFTC_ISDIGIT s in change (set_cur (Some b));; mret a.

(** The loop to the next [c], which has no other end. *)
Definition skip_to (c : ascii) : act dd bytes :=
  s ← cur_str;
  let '(a, b) := span (λ x, negb (is_char x c)) s in
  match b with [] => broken BufferOverread | _ => change (set_cur (Some b));; mret a end.

(** ** What is pushed *)

Definition cpp_demangle_push_str (s : bytes) (len : Z) : act dd unit :=
  d ← state;
  require (negb (len =? 0));;
  if 0 <? push_head d then on_output_tmp (vector_str_push s len) else on_output (vector_str_push s len).

(** A literal with its length. *)
Definition push_lit (s : string) : act dd unit := cpp_demangle_push_str (str s) (zlen (str s)).

Definition cpp_demangle_push_subst (s : bytes) (len : Z) : act dd unit :=
  d ← state;
  require (negb (len =? 0));;
  if vector_str_find (subst d) s len then mret tt else on_subst (vector_str_push s len).

Definition cpp_demangle_push_subst_v (v : vector_str) : act dd unit :=
  s ← vector_str_get_flat v; cpp_demangle_push_subst s (zlen s).

(** The last string of [output] is freed. *)
Definition pop_output : act dd unit :=
  on_output vector_str_pop;;
  change (λ d, match last_sname d with
               | OutputAt i => if decide (length (items (output d)) ≤ i)%nat then set_last_sname FreedName d else d
               | _ => d
               end).

Fixpoint pop_outputs (n : nat) : act dd unit :=
  match n with O => mret tt | S n' => pop_output;; pop_outputs n' end.

Definition qualifier_text (q : type_qualifier) : string :=
  match q with
  | TYPE_PTR => "*" | TYPE_REF => "&" | TYPE_CMX => " complex" | TYPE_IMG => " imaginary"
  | TYPE_RST => " restrict" | TYPE_VAT => " volatile" | TYPE_CST => " const" | TYPE_EXT => ""
  end.

(** One round: the qualifier to the output, and the type so far to the substitutions. *)
Definition push_qualifier (q : type_qualifier) (e_idx : Z) (names : vector_str) (subst_v : option vector_str) : act dd (option vector_str) :=
  match q with
  | TYPE_EXT =>
      if size_wrap (size names - 1) <? e_idx then failed
      else
        match items names !! Z.to_nat e_idx with
        | None => broken BufferOverread
        | Some e =>
            require (negb (zlen e =? 0));;
            malloc (zlen e + 1);;
            (* the name is copied without a NUL, and then printed as a string *)
            broken BufferOverread
        end
  | _ =>
      push_lit (qualifier_text q);;
      match subst_v with
      | None => mret None
      | Some v =>
          r ← local v (vector_str_push (str (qualifier_text q)) (zlen (str (qualifier_text q))));
          cpp_demangle_push_subst_v (snd r);;
          mret (Some (snd r))
      end
  end.

(** The last qualifier first. *)
Fixpoint qualifier_loop (qs : list type_qualifier) (e_idx : Z) (names : vector_str) (subst_v : option vector_str) : act dd unit :=
  match qs with
  | [] => mret tt
  | q :: qs' =>
      subst_v' ← push_qualifier q e_idx names subst_v;
      qualifier_loop qs' (if q is TYPE_EXT then e_idx + 1 else e_idx) names subst_v'
  end.

Definition cpp_demangle_push_type_qualifier (v : vector_type_qualifier) (type_str : option bytes) : act dd unit :=
  if size (q_container v) =? 0 then mret tt
  else
    subst_v ← match type_str with
              | None => mret None
              | Some t => i ← vector_str_init; r ← local i (vector_str_push t (zlen t)); mret (Some (snd r))
              end;
    qualifier_loop (rev (items (q_container v))) 0 (ext_name v) subst_v.

(** The string of a vector at an index, and the character after its number. *)
Definition push_nth (v : vector_str) (idx : Z) : act dd unit :=
  match items v !! Z.to_nat idx with
  | None => failed
  | Some s => require (negb (zlen s =? 0));; cpp_demangle_push_str s (zlen s);; advance 1
  end.

Definition cpp_demangle_get_subst (idx : Z) : act dd unit := d ← state; push_nth (subst d) idx.
Definition cpp_demangle_get_tmpl_param (idx : Z) : act dd unit := d ← state; push_nth (tmpl d) idx.
End vectors.

Abbreviation dd := cpp_demangle_data.
