(* ===== verification/DemangleFp.v ===== *)
(** * DemangleFp: floating-point literals of the demangler

    The functions of [libelftc_dem_gnu3.c] that decode a number from its hexadecimal
    digits.  What [snprintf] prints for an object of given bytes is a parameter, and so
    is the size of a [long double]. *)

From S2P Require Import Prelude DemangleData.

Definition hex_to_dec (c : ascii) : Z :=
  match c with
  | "0"%char => 0 | "1"%char => 1 | "2"%char => 2 | "3"%char => 3 | "4"%char => 4 | "5"%char => 5 | "6"%char => 6 | "7"%char => 7
  | "8"%char => 8 | "9"%char => 9 | "a"%char => 10 | "b"%char => 11 | "c"%char => 12 | "d"%char => 13 | "e"%char => 14
  | "f"%char => 15 | _ => -1
  end.

(** What prints a floating-point number: the format and the bytes of the object. *)
Class FpPrinter := { sizeof_long_double : Z; fp_text : string → list Z → bytes }.

Section decoding.
Context `{Heap} `{FpPrinter}.

(** The byte [i] from the end of the [len] characters at [p]. *)
Definition fp_byte (p : bytes) (len i : Z) : Z :=
  hex_to_dec (default NUL (p !! Z.to_nat (len - i * 2 - 1))) + hex_to_dec (default NUL (p !! Z.to_nat (len - i * 2 - 2))) * 16.

(** The bytes that are stored, from the first one on. *)
Definition fp_bytes {S} (p : bytes) (len room : Z) : act S (list Z) :=
  require (negb ((len =? 0) || negb (len mod 2 =? 0) || (room <? len / 2)));;
  let l := map (fp_byte p len) (seqZ 0 (len / 2)) in
  require (forallb (λ b, negb ((b <? 0) || (255 <? b))) l);;
  mret (l ++ replicate (Z.to_nat (room - len / 2)) 0).

(** The attempts to print into a buffer that grows; seven at most. *)
Fixpoint print_again {S} (tries : nat) (rtn_len : Z) (text : bytes) : act S bytes :=
  match tries with
  | O => failed
  | S tries' =>
      malloc rtn_len;;
      if rtn_len <=? zlen text then print_again tries' (grown rtn_len) text else mret text
  end.

Definition FLOAT_SPRINTF_TRY_LIMIT : nat := 5.
Definition print_fp {S} (rtn_len : Z) (fmt : string) (f : list Z) : act S bytes :=
  print_again (FLOAT_SPRINTF_TRY_LIMIT + 2) rtn_len (fp_text fmt f).

Definition FLOAT_QUADRUPLE_BYTES : Z := 16.
Definition FLOAT_EXTENED_BYTES : Z := 10.

Definition decode_fp_to_double {S} (p : bytes) (len : Z) : act S bytes :=
  f ← fp_bytes p len 8; print_fp 64 "%fld" f.

Definition decode_fp_to_float {S} (p : bytes) (len : Z) : act S bytes :=
  f ← fp_bytes p len 4; print_fp 64 "%ff" f.

Definition decode_fp_to_long_double {S} (p : bytes) (len : Z) : act S bytes :=
  f ← fp_bytes p len sizeof_long_double; print_fp 256 "%Lfd" f.

Definition decode_fp_to_float128 {S} (p : bytes) (len : Z) : act S bytes :=
  if sizeof_long_double =? FLOAT_QUADRUPLE_BYTES then decode_fp_to_long_double p len
  else if sizeof_long_double =? FLOAT_EXTENED_BYTES then
    buf ← fp_bytes p len FLOAT_QUADRUPLE_BYTES; print_fp 256 "%Lfd" (take 10 buf)
  else failed.

Definition decode_fp_to_float80 {S} (p : bytes) (len : Z) : act S bytes :=
  if sizeof_long_double =? FLOAT_QUADRUPLE_BYTES then
    buf ← fp_bytes p len FLOAT_EXTENED_BYTES;
    print_fp 256 "%Lfd" (buf ++ replicate (Z.to_nat (FLOAT_QUADRUPLE_BYTES - FLOAT_EXTENED_BYTES)) 0)
  else if sizeof_long_double =? FLOAT_EXTENED_BYTES then decode_fp_to_long_double p len
  else failed.
End decoding.
