(* ===== verification/Demangle.v ===== *)
(** * Demangle: reading a mangled name

    The functions of [libelftc_dem_gnu3.c] that read the parts of a name, and
    [__cxa_demangle] of [typeinfo.cc].  Each is a definition of its own over [rec], the
    functions that are called while another of them may be running; [run] closes them,
    with the depth of the calls as fuel. *)

From S2P Require Import Prelude Text StringConv DemangleData DemangleFp.

(** The signed value of a character. *)
Definition char_val (c : ascii) : Z := if byte_val c <? 128 then byte_val c else byte_val c - 256.

Definition SIMPLE_HASH (x y : ascii) : Z := 64 * char_val x + char_val y.

(** A label of a [switch]: two characters. *)
Definition hash_of (label : string) : Z :=
  match str label with [x; y] => SIMPLE_HASH x y | _ => -1 end.

Fixpoint case_of {A} (h : Z) (cases : list (string * A)) : option A :=
  match cases with
  | [] => None
  | (label, a) :: cases' => if h =? hash_of label then Some a else case_of h cases'
  end.

Definition CPP_DEMANGLE_TRY_LIMIT : nat := 128.

(** The calls that recur. *)
Inductive call := ReadType (delimit : bool) | ReadEncoding | ReadExpression | ReadName | ReadTmplArgs.

(** The operators of expressions: between the operands or behind the one. *)
Inductive operator := Binary (name : string) | Unary (name : string).

Definition operators_a_d : list (string * operator) :=
  [("aa", Binary "&&"); ("ad", Unary "&"); ("an", Binary "&"); ("aN", Binary "&="); ("aS", Binary "="); ("cl", Binary "()");
   ("cm", Binary ","); ("co", Binary "~"); ("cv", Binary "(cast)"); ("da", Unary "delete []"); ("de", Unary "*");
   ("dl", Unary "delete"); ("dv", Binary "/"); ("dV", Binary "/=")].
Definition operators_e_m : list (string * operator) :=
  [("eo", Binary "^"); ("eO", Binary "^="); ("eq", Binary "=="); ("ge", Binary ">="); ("gt", Binary ">"); ("ix", Binary "[]");
   ("le", Binary "<="); ("ls", Binary "<<"); ("lS", Binary "<<="); ("lt", Binary "<"); ("mi", Binary "-"); ("mI", Binary "-=");
   ("ml", Binary "*"); ("mL", Binary "*="); ("mm", Binary "--")].
Definition operators_n_p : list (string * operator) :=
  [("na", Unary "new []"); ("ne", Binary "!="); ("ng", Unary "-"); ("nt", Binary "!"); ("nw", Unary "new"); ("oo", Binary "||");
   ("or", Binary "|"); ("oR", Binary "|="); ("pl", Binary "+"); ("pL", Binary "+="); ("pm", Binary "->*"); ("pp", Binary "++");
   ("ps", Unary "+"); ("pt", Binary "->")].
Definition operators_r_s : list (string * operator) :=
  [("rm", Binary "%"); ("rM", Binary "%="); ("rs", Binary ">>"); ("rS", Binary ">>="); ("rz", Unary "sizeof"); ("sv", Unary "sizeof")].
Definition operators : list (string * operator) := operators_a_d ++ operators_e_m ++ operators_n_p ++ operators_r_s.

(** The names of operator functions. *)
Definition operator_names_a_d : list (string * string) :=
  [("aa", "operator&&"); ("ad", "operator&"); ("an", "operator&"); ("aN", "operator&="); ("aS", "operator="); ("cl", "operator()");
   ("cm", "operator,"); ("co", "operator~"); ("da", "operator delete []"); ("de", "operator*"); ("dl", "operator delete");
   ("dv", "operator/"); ("dV", "operator/=")]%string.
Definition operator_names_e_m : list (string * string) :=
  [("eo", "operator^"); ("eO", "operator^="); ("eq", "operator=="); ("ge", "operator>="); ("gt", "operator>"); ("ix", "operator[]");
   ("le", "operator<="); ("ls", "operator<<"); ("lS", "operator<<="); ("lt", "operator<"); ("mi", "operator-"); ("mI", "operator-=");
   ("ml", "operator*"); ("mL", "operator*="); ("mm", "operator--")]%string.
Definition operator_names_n_p : list (string * string) :=
  [("na", "operator new []"); ("ne", "operator!="); ("ng", "operator-"); ("nt", "operator!"); ("nw", "operator new");
   ("oo", "operator||"); ("or", "operator|"); ("oR", "operator|="); ("pl", "operator+"); ("pL", "operator+="); ("pm", "operator->*");
   ("pp", "operator++"); ("ps", "operator+"); ("pt", "operator->")]%string.
Definition operator_names_q_s : list (string * string) :=
  [("qu", "operator?"); ("rm", "operator%"); ("rM", "operator%="); ("rs", "operator>>"); ("rS", "operator>>=");
   ("rz", "operator sizeof "); ("sr", "scope resolution operator "); ("sv", "operator sizeof ")]%string.
Definition operator_names : list (string * string) :=
  operator_names_a_d ++ operator_names_e_m ++ operator_names_n_p ++ operator_names_q_s.

(** [strstr(s, sub) != NULL]. *)
Fixpoint strstr (s sub : bytes) : bool :=
  bool_decide (sub `prefix_of` s) || match s with _ :: s' => strstr s' sub | [] => false end.

Section reading.
Context `{Heap} `{FpPrinter}.
Context (rec : call → act dd unit).

(** [*ddata->cur], which must not be the end. *)
Definition next_char : act dd ascii := c ← peek 0; require (negb (is_char c NUL));; mret c.

(** [*(++ddata->cur)], which must not be the end. *)
Definition step_char : act dd ascii := advance 1;; next_char.

Definition when_char (c : ascii) (m : act dd unit) : act dd unit := x ← peek 0; if is_char x c then m else mret tt.

(** The vector that [output] points to in a function. *)
Definition out_vec (tmp : bool) (d : dd) : vector_str := if tmp then output_tmp d else output d.

Definition to_tmp : act dd bool := d ← state; mret (0 <? push_head d).

(** [vector_str_substr(output, p_idx, output->size - 1)]. *)
Definition from_output (tmp : bool) (p_idx : Z) : act dd bytes := d ← state; pushed_from (out_vec tmp d) p_idx.

Definition output_size (tmp : bool) : act dd Z := d ← state; mret (size (out_vec tmp d)).

(** ** Numbers and source names *)

Definition c_strtol (base : Z) : act dd Z :=
  s ← cur_str;
  match strtol (codes s) base with
  | Ret (v, _, range) => require (negb ((v =? 0) && range));; mret v
  | _ => broken UninitRead
  end.

Definition cpp_demangle_read_number : act dd Z :=
  c ← peek 0;
  (if is_char c "n" then advance 1 else mret tt);;
  c' ← peek 0;
  require (ELFTC_ISDIGIT c');;
  len ← c_strtol 10;
  skip_digits;;
  asserts (0 <=? len);;
  mret (len * (if is_char c "n" then -1 else 1)).

Definition cpp_demangle_read_sname : act dd unit :=
  len ← cpp_demangle_read_number;
  require (negb (len <=? 0));;
  s ← cur_str;
  cpp_demangle_push_str s len;;
  d ← state;
  asserts (0 <? size (output d));;
  (if vector_read_cmd_find (cmd d) READ_TMPL then mret tt
   else change (set_last_sname (OutputAt (pred (length (items (output d)))))));;
  advance len.

(** [ddata->last_sname], which must be there. *)
Definition last_name : act dd bytes :=
  d ← state;
  match last_sname d with
  | NoName => failed
  | Literal s => mret s
  | OutputAt i => match items (output d) !! i with Some s => mret s | None => broken DanglingReference end
  | FreedName => broken DanglingReference
  end.

(** The name of a constructor or a destructor. *)
Definition read_structor (scope : string) : act dd unit :=
  s ← last_name;
  require (negb (zlen s =? 0));;
  push_lit scope;;
  cpp_demangle_push_str s (zlen s);;
  advance 2.

Definition structors : list (string * string) :=
  [("C1", "::"); ("C2", "::"); ("C3", "::"); ("D0", "::~"); ("D1", "::~"); ("D2", "::~")]%string.

Definition cpp_demangle_read_uqname : act dd unit :=
  x ← next_char;
  y ← peek 1;
  let h := SIMPLE_HASH x y in
  match case_of h operator_names with
  | Some name => push_lit name;; advance 2
  | None =>
      if h =? hash_of "cv" then push_lit "operator(cast)";; advance 2;; rec (ReadType true)
      else if is_char x "v" && ELFTC_ISDIGIT y then
        push_lit "vendor extened operator ";;
        s ← cur_str;
        cpp_demangle_push_str (tail s) 1;;
        advance 2;;
        cpp_demangle_read_sname
      else
        match case_of h structors with
        | Some scope => read_structor scope
        | None => if ELFTC_ISDIGIT x then cpp_demangle_read_sname else mret tt
        end
  end.

(** ** Substitutions and template parameters *)

(** The number in base 36 up to the ["_"], one more than what it is. *)
Definition read_seq_id : act dd Z :=
  nth ← c_strtol 36;
  (if nth =? LONG_MAX then broken SignedOverflow else mret tt);;
  skip_to "_";;
  asserts (0 <? nth + 1);;
  mret (nth + 1).

Definition cpp_demangle_read_tmpl_param : act dd unit :=
  c ← peek 0;
  require (is_char c "T");;
  advance 1;;
  c' ← peek 0;
  if is_char c' "_" then cpp_demangle_get_tmpl_param 0 else nth ← read_seq_id; cpp_demangle_get_tmpl_param nth.

Definition cpp_demangle_read_subst_stdtmpl (s : bytes) (len : Z) : act dd unit :=
  tmp ← to_tmp;
  p_idx ← output_size tmp;
  rec ReadTmplArgs;;
  substr ← from_output tmp p_idx;
  malloc (zlen substr + len + 1);;
  (* [len] characters are copied, of which the literal has one more than its length *)
  (if zlen s + 1 <? len then broken BufferOverread else mret tt);;
  cpp_demangle_push_subst (s ++ substr) (zlen substr + len).

(** What follows the name that has been put in [v]. *)
Definition read_name_args (tmp : bool) (v : vector_str) : act dd unit :=
  p_idx ← output_size tmp;
  rec ReadTmplArgs;;
  s ← from_output tmp p_idx;
  r ← local v (vector_str_push s (zlen s));
  cpp_demangle_push_subst_v (snd r).

(** Whatever happens after the vector is there, the function returns 1. *)
Definition cpp_demangle_read_subst_std : act dd unit :=
  v ← vector_str_init;
  returned (
    push_lit "std::";;
    r ← local v (vector_str_push (str "std::") 5);
    advance 2;;
    tmp ← to_tmp;
    p_idx ← output_size tmp;
    cpp_demangle_read_uqname;;
    s ← from_output tmp p_idx;
    r2 ← local (snd r) (vector_str_push s (zlen s));
    cpp_demangle_push_subst_v (snd r2);;
    when_char "I" (read_name_args tmp (snd r2)));;
  mret tt.

(** The abbreviations: what they stand for, the length given with it, and the name. *)
Definition std_abbreviations : list (string * (string * Z * option string)) :=
  [("Sa", ("std::allocator", 14, None)); ("Sb", ("std::basic_string", 17, None)); ("Sd", ("std::iostream", 19, Some "iostream"));
   ("Si", ("std::istream", 18, Some "istream")); ("So", ("std::ostream", 18, Some "istream")); ("Ss", ("std::string", 11, Some "string"))]%string.

Definition cpp_demangle_read_subst : act dd unit :=
  x ← next_char;
  y ← peek 1;
  let h := SIMPLE_HASH x y in
  match case_of h std_abbreviations with
  | Some (name, len, last) =>
      cpp_demangle_push_str (str name) len;;
      (if last is Some l then change (set_last_sname (Literal (str l))) else mret tt);;
      advance 2;;
      when_char "I" (cpp_demangle_read_subst_stdtmpl (str name) len)
  | None =>
      if h =? hash_of "St" then cpp_demangle_read_subst_std
      else
        c ← step_char;
        if is_char c "_" then cpp_demangle_get_subst 0 else nth ← read_seq_id; cpp_demangle_get_subst nth
  end.

(** ** Names *)

(** A loop until ["E"]; when the rounds that are left run out, it fails. *)
Fixpoint until_E (rounds : nat) (m : act dd unit) : act dd unit :=
  m;;
  c ← peek 0;
  if is_char c "E" then mret tt
  else match rounds with O => failed | S rounds' => until_E rounds' m end.

(** The rounds after the first: [limit++ > CPP_DEMANGLE_TRY_LIMIT] fails at the last. *)
Definition ROUNDS : nat := S CPP_DEMANGLE_TRY_LIMIT.

Definition cpp_demangle_read_local_name : act dd unit :=
  step_char;;
  rec ReadEncoding;;
  until_E ROUNDS (rec (ReadType true));;
  c ← step_char;
  d ← state;
  (if paren d then push_lit ")";; change (set_paren false) else mret tt);;
  (if is_char c "s" then advance 1 else push_lit "::";; rec ReadName);;
  when_char "_" (advance 1;; skip_digits;; mret tt).

(** What of the name is for the member function: its qualifiers. *)
Definition read_member_qualifiers : act dd unit :=
  s ← cur_str;
  let '(a, b) := span (λ c, is_char c "r" || is_char c "V" || is_char c "K") s in
  let has c := existsb (is_char c) a in
  change (λ d, set_mem (mem_rst d || has "r"%char) (mem_vat d || has "V"%char) (mem_cst d || has "K"%char) (set_cur (Some b) d)).

(** The parts of a nested name; [v] is the name so far. *)
Fixpoint nested_loop (rounds : nat) (tmp : bool) (v : vector_str) : act dd unit :=
  p_idx ← output_size tmp;
  c ← peek 0;
  (if is_char c "I" then rec ReadTmplArgs
   else if is_char c "S" then cpp_demangle_read_subst
   else if is_char c "T" then cpp_demangle_read_tmpl_param
   else cpp_demangle_read_uqname);;
  s ← from_output tmp p_idx;
  r ← local v (vector_str_push s (zlen s));
  cpp_demangle_push_subst_v (snd r);;
  c' ← peek 0;
  if is_char c' "E" then mret tt
  else
    r' ← (if is_char c' "I" || is_char c' "C" || is_char c' "D" then mret r
          else push_lit "::";; local (snd r) (vector_str_push (str "::") 2));
    match rounds with O => failed | S rounds' => nested_loop rounds' tmp (snd r') end.

Definition cpp_demangle_read_nested_name : act dd unit :=
  c ← peek 0;
  require (is_char c "N");;
  step_char;;
  read_member_qualifiers;;
  tmp ← to_tmp;
  v ← vector_str_init;
  nested_loop ROUNDS tmp v;;
  advance 1.

Definition read_unscoped_name : act dd unit :=
  tmp ← to_tmp;
  v ← vector_str_init;
  p_idx ← output_size tmp;
  cpp_demangle_read_uqname;;
  s ← from_output tmp p_idx;
  if (8 <? zlen s) && strstr s (str "operator") then mret tt
  else
    r ← local v (vector_str_push s (zlen s));
    cpp_demangle_push_subst_v (snd r);;
    when_char "I" (read_name_args tmp (snd r)).

Definition cpp_demangle_read_name : act dd unit :=
  c ← next_char;
  if is_char c "S" then cpp_demangle_read_subst
  else if is_char c "N" then cpp_demangle_read_nested_name
  else if is_char c "Z" then cpp_demangle_read_local_name
  else read_unscoped_name.

(** ** Encodings *)

Definition cpp_demangle_read_offset_number : act dd unit :=
  c ← next_char;
  (* the text starts behind the sign, but the search for its end at the sign *)
  digits ← skip_to "_";
  let text := if is_char c "n" then tail digits else digits in
  (if is_char c "n" then push_lit "-" else mret tt);;
  cpp_demangle_push_str text (zlen text);;
  push_lit " ";;
  advance 1.

Definition cpp_demangle_read_nv_offset : act dd unit :=
  push_lit "offset : ";; cpp_demangle_read_offset_number.

(** The function returns the negation of what the last call returns. *)
Definition cpp_demangle_read_v_offset : act dd unit :=
  push_lit "offset : ";;
  cpp_demangle_read_offset_number;;
  push_lit "virtual offset : ";;
  r ← returned cpp_demangle_read_offset_number;
  require (negb r).

Definition cpp_demangle_read_offset : act dd unit :=
  c ← peek 0;
  if is_char c "h" then advance 1;; cpp_demangle_read_nv_offset
  else if is_char c "v" then advance 1;; cpp_demangle_read_v_offset
  else failed.

Definition cpp_demangle_read_encoding : act dd unit :=
  x ← next_char;
  y ← peek 1;
  let h := SIMPLE_HASH x y in
  if h =? hash_of "GV" then cpp_demangle_push_str (str "guard variable for ") 20;; advance 2;; cpp_demangle_read_name
  else if h =? hash_of "Tc" then
    push_lit "virtual function covariant override ";; advance 2;; next_char;;
    cpp_demangle_read_offset;; cpp_demangle_read_offset;; rec ReadEncoding
  else if h =? hash_of "TD" then cpp_demangle_read_name
  else if h =? hash_of "Th" then
    push_lit "virtual function non-virtual override ";; advance 2;; next_char;;
    cpp_demangle_read_nv_offset;; rec ReadEncoding
  else if (h =? hash_of "TI") || (h =? hash_of "TS") then
    cpp_demangle_push_str (str "typeinfo for ") 14;; advance 2;; next_char;; rec (ReadType true)
  else if h =? hash_of "TT" then push_lit "VTT for ";; advance 2;; rec (ReadType true)
  else if h =? hash_of "Tv" then
    push_lit "virtual function virtual override ";; advance 2;; next_char;;
    cpp_demangle_read_v_offset;; rec ReadEncoding
  else if h =? hash_of "TV" then
    cpp_demangle_push_str (str "vtable for ") 12;; advance 2;; next_char;; rec (ReadType true)
  else cpp_demangle_read_name.

(** ** Expressions *)

(** What is decoded is pushed, but the function returns 0 in any case. *)
Definition cpp_demangle_push_fp (decoder : bytes → Z → act dd bytes) : act dd unit :=
  fp ← skip_to "E";
  advance 1;;
  let p := fp ++ str "E" in
  f ← decoder p (zlen p);
  returned (cpp_demangle_push_str f (zlen f));;
  failed.

(** A literal: the ["E"] behind the digits is printed with them. *)
Definition read_integer_literal : act dd unit :=
  advance 1;;
  c ← peek 0;
  (if is_char c "n" then push_lit "-";; advance 1 else mret tt);;
  num ← skip_digits;
  c' ← peek 0;
  require (is_char c' "E");;
  advance 1;;
  cpp_demangle_push_str (num ++ str "E") (zlen num + 1).

Definition cpp_demangle_read_expr_primary : act dd unit :=
  c ← step_char;
  y ← (if is_char c "_" then peek 1 else mret NUL);
  if is_char c "_" && is_char y "Z" then advance 2;; next_char;; rec ReadEncoding;; advance 1
  else if is_char c "b" then
    advance 1;;
    b ← peek 0;
    if is_char b "0" then push_lit "false" else if is_char b "1" then push_lit "true" else failed
  else if is_char c "d" then advance 1;; cpp_demangle_push_fp decode_fp_to_double
  else if is_char c "e" then
    advance 1;; cpp_demangle_push_fp (if sizeof_long_double =? 10 then decode_fp_to_double else decode_fp_to_float80)
  else if is_char c "f" then advance 1;; cpp_demangle_push_fp decode_fp_to_float
  else if is_char c "g" then
    advance 1;; cpp_demangle_push_fp (if sizeof_long_double =? 16 then decode_fp_to_double else decode_fp_to_float128)
  else if existsb (is_char c) (str "ijlmnstxy") then read_integer_literal
  else failed.

Definition cpp_demangle_read_expression_binary (name : string) : act dd unit :=
  rec ReadExpression;; push_lit name;; rec ReadExpression.

Definition cpp_demangle_read_expression_unary (name : string) : act dd unit :=
  rec ReadExpression;; push_lit name.

Definition cpp_demangle_read_expression_trinary (name1 name2 : string) : act dd unit :=
  rec ReadExpression;; push_lit name1;; rec ReadExpression;; push_lit name2;; rec ReadExpression.

Definition cpp_demangle_read_expression : act dd unit :=
  x ← next_char;
  y ← peek 1;
  let h := SIMPLE_HASH x y in
  if h =? hash_of "st" then advance 2;; rec (ReadType false)
  else if h =? hash_of "sr" then
    advance 2;; rec (ReadType false);; cpp_demangle_read_uqname;; when_char "I" (rec ReadTmplArgs)
  else if h =? hash_of "qu" then advance 2;; cpp_demangle_read_expression_trinary "?" ":"
  else
    match case_of h operators with
    | Some (Binary name) => advance 2;; cpp_demangle_read_expression_binary name
    | Some (Unary name) => advance 2;; cpp_demangle_read_expression_unary name
    | None =>
        if is_char x "L" then cpp_demangle_read_expr_primary
        else if is_char x "T" then cpp_demangle_read_tmpl_param
        else failed
    end.

(** ** Template arguments *)

Definition cpp_demangle_read_tmpl_arg : act dd unit :=
  c ← next_char;
  if is_char c "L" then cpp_demangle_read_expr_primary
  else if is_char c "X" then cpp_demangle_read_expression
  else rec (ReadType false).

(** [strncmp(s, ">", 1) == 0]. *)
Definition is_closing (s : bytes) : bool := match s with c :: _ => is_char c ">" | [] => false end.

Fixpoint tmpl_args_loop (rounds : nat) (tmp : bool) : act dd unit :=
  idx ← output_size tmp;
  cpp_demangle_read_tmpl_arg;;
  arg ← from_output tmp idx;
  d ← state;
  (if vector_str_find (tmpl d) arg (zlen arg) then mret tt else on_tmpl (vector_str_push arg (zlen arg)));;
  c ← peek 0;
  if is_char c "E" then
    advance 1;;
    d' ← state;
    asserts (0 <? size (out_vec tmp d'));;
    push_lit (if is_closing (default [] (last (items (out_vec tmp d')))) then " >" else ">")
  else
    (if is_char c "I" then mret tt else push_lit ", ");;
    match rounds with O => failed | S rounds' => tmpl_args_loop rounds' tmp end.

Definition cpp_demangle_read_tmpl_args : act dd unit :=
  next_char;;
  advance 1;;
  on_cmd (vector_read_cmd_push READ_TMPL);;
  push_lit "<";;
  tmp ← to_tmp;
  tmpl_args_loop ROUNDS tmp;;
  on_cmd vector_read_cmd_pop.

(** ** Types *)

Definition cpp_demangle_read_array : act dd unit :=
  c ← step_char;
  if is_char c "_" then step_char;; rec (ReadType false);; push_lit "[]"
  else if ELFTC_ISDIGIT c then
    num ← skip_digits;
    c' ← peek 0;
    require (is_char c' "_");;
    asserts (0 <? zlen num);;
    step_char;;
    rec (ReadType false);;
    push_lit "[";; cpp_demangle_push_str num (zlen num);; push_lit "]"
  else
    p_idx ← output_size false;
    rec ReadExpression;;
    exp ← from_output false p_idx;
    idx ← output_size false;
    pop_outputs (Z.to_nat (idx - p_idx));;
    c' ← peek 0;
    require (is_char c' "_");;
    step_char;;
    rec (ReadType false);;
    push_lit "[";; cpp_demangle_push_str exp (zlen exp);; push_lit "]".

(** The qualifiers that come before the parameters or, for a member, behind them. *)
Definition push_qualifiers_anew (v : vector_type_qualifier) : act dd vector_type_qualifier :=
  cpp_demangle_push_type_qualifier v None;; vector_type_qualifier_init.

(** What is left of the qualifiers [v]. *)
Definition cpp_demangle_read_function (v : vector_type_qualifier) : act dd vector_type_qualifier :=
  c ← peek 0;
  require (is_char c "F");;
  advance 1;;
  when_char "Y" (advance 1);;
  rec (ReadType false);;
  c' ← peek 0;
  if is_char c' "E" then advance 1;; mret v
  else
    push_lit "(";;
    d ← state;
    v1 ← (if vector_read_cmd_find (cmd d) READ_PTRMEM then
            match last (items (class_type d)) with
            | None => failed
            | Some t =>
                require (negb (zlen t =? 0));;
                cpp_demangle_push_str t (zlen t);;
                push_lit "::*";;
                (if func_type d =? INT_MAX then broken SignedOverflow else mret tt);;
                change (set_func_type (func_type d + 1));;
                mret v
            end
          else push_qualifiers_anew v);
    push_lit ")(";;
    until_E ROUNDS (rec (ReadType false));;
    d' ← state;
    v2 ← (if vector_read_cmd_find (cmd d') READ_PTRMEM then push_qualifiers_anew v1 else mret v1);
    push_lit ")";;
    advance 1;;
    mret v2.

(** The class is taken from [output] again, and stands behind the type unless it has been
    put into a function's. *)
Definition read_member_type (class : bytes) : act dd unit :=
  d ← state;
  let p_func_type := func_type d in
  rec (ReadType false);;
  d' ← state;
  if p_func_type =? func_type d' then push_lit " ";; cpp_demangle_push_str class (zlen class);; push_lit "::*"
  else mret tt.

Definition cpp_demangle_read_pointer_to_member : act dd unit :=
  c ← peek 0;
  require (is_char c "M");;
  step_char;;
  p_idx ← output_size false;
  rec (ReadType false);;
  class ← from_output false p_idx;
  idx ← output_size false;
  pop_outputs (Z.to_nat (idx - p_idx));;
  on_cmd (vector_read_cmd_push READ_PTRMEM);;
  pushed ← returned (on_class_type (vector_str_push class (zlen class)));
  if pushed : bool then
    done ← returned (read_member_type class);
    on_class_type vector_str_pop;;
    popped ← returned (on_cmd vector_read_cmd_pop);
    require (done && popped)
  else returned (on_cmd vector_read_cmd_pop);; failed.

Definition builtin_types_a_l : list (ascii * string) :=
  [("a"%char, "signed char"); ("b"%char, "bool"); ("c"%char, "char"); ("d"%char, "double");
   ("e"%char, "long double"); ("f"%char, "float"); ("g"%char, "__float128"); ("h"%char, "unsigned char");
   ("i"%char, "int"); ("j"%char, "unsigned int"); ("l"%char, "long")]%string.
Definition builtin_types_m_z : list (ascii * string) :=
  [("m"%char, "unsigned long"); ("n"%char, "__int128"); ("o"%char, "unsigned _;int128"); ("s"%char, "short");
   ("t"%char, "unsigned short"); ("v"%char, "void"); ("w"%char, "wchar_t"); ("x"%char, "long long");
   ("y"%char, "unsigned long long"); ("z"%char, "ellipsis")]%string.
Definition builtin_types : list (ascii * string) := Eval cbv in builtin_types_a_l ++ builtin_types_m_z.

Definition qualifier_chars : list (ascii * type_qualifier) :=
  [("C"%char, TYPE_CMX); ("G"%char, TYPE_IMG); ("K"%char, TYPE_CST); ("P"%char, TYPE_PTR); ("r"%char, TYPE_RST); ("R"%char, TYPE_REF); ("V"%char, TYPE_VAT)].

Fixpoint assoc {A} (c : ascii) (l : list (ascii * A)) : option A :=
  match l with [] => None | (x, a) :: l' => if is_char c x then Some a else assoc c l' end.

(** The length that is given with a builtin type. *)
Definition builtin_len (s : string) : Z := if decide (s = "wchar_t"%string) then 6 else zlen (str s).

(** The type at the label [again]: its qualifiers, and whether it is builtin. *)
Fixpoint read_again (rounds : nat) (v : vector_type_qualifier) : act dd (vector_type_qualifier * bool) :=
  match rounds with
  | O => out_of_fuel
  | S rounds' =>
      c ← peek 0;
      match assoc c builtin_types with
      | Some s => cpp_demangle_push_str (str s) (builtin_len s);; advance 1;; mret (v, true)
      | None =>
          match assoc c qualifier_chars with
          | Some q => v' ← vector_type_qualifier_push q v; advance 1;; read_again rounds' v'
          | None =>
              if is_char c "A" then cpp_demangle_read_array;; mret (v, false)
              else if is_char c "F" then v' ← cpp_demangle_read_function v; mret (v', false)
              else if is_char c "M" then cpp_demangle_read_pointer_to_member;; mret (v, false)
              else if is_char c "S" then cpp_demangle_read_subst;; mret (v, false)
              else if is_char c "T" then cpp_demangle_read_tmpl_param;; mret (v, false)
              else if is_char c "u" then advance 1;; cpp_demangle_read_sname;; mret (v, false)
              else if is_char c "U" then
                (* the number is looked for at the ["U"] *)
                len ← cpp_demangle_read_number;
                require (negb (len <=? 0));;
                s ← cur_str;
                r ← local (ext_name v) (vector_str_push s len);
                advance len;;
                read_again rounds' (Quals (q_container v) (snd r))
              else cpp_demangle_read_name;; mret (v, false)
          end
      end
  end.

(** What comes before a type: where it is put, and the parenthesis or the comma. *)
Definition before_type (delimit : bool) : act dd bool :=
  d ← state;
  if is_closing (default [] (last (items (output d)))) then change (set_push_head (push_head d + 1));; mret true
  else if delimit then
    (if paren d then mret tt
     else
       push_lit "(";;
       d1 ← state;
       require (negb (size (output d1) <? 2));;
       change (λ d, set_pfirst true (set_paren true d));;
       (* the name of the function is no substitution *)
       d2 ← state;
       if size (subst d2) =? 1 then on_subst vector_str_pop else mret tt);;
    d3 ← state;
    (if pfirst d3 then change (set_pfirst false)
     else c ← peek 0; if is_char c "I" then mret tt else push_lit ", ");;
    mret false
  else mret false.

(** A type behind a template name, which is what the function returns: what has been put
    apart goes before the rest. *)
Definition after_type : act dd unit :=
  d ← state;
  if 0 <? push_head d then
    when_char "I" (rec ReadTmplArgs);;
    change (λ d, set_push_head (push_head d - 1) d);;
    d1 ← state;
    if 0 <? push_head d1 then mret tt
    else
      on_output_tmp (vector_str_push (str " ") 1);;
      d2 ← state;
      on_output (vector_str_push_vector_head (output_tmp d2));;
      change (λ d, match last_sname d with
                   | OutputAt i => set_last_sname (OutputAt (length (items (output_tmp d)) + i)) d
                   | _ => d
                   end);;
      tmp ← vector_str_init;
      change (set_output_tmp tmp);;
      push_lit "(";;
      change (λ d, set_pfirst true (set_paren true d))
  else mret tt.

Definition cpp_demangle_read_type (delimit : bool) : act dd unit :=
  tmp ← before_type delimit;
  v ← vector_type_qualifier_init;
  p_idx ← output_size tmp;
  s ← cur_str;
  r ← read_again (S (length s)) v;
  type_str ← from_output tmp p_idx;
  (if snd r : bool then mret tt
   else d ← state; if vector_str_find (subst d) type_str (zlen type_str) then mret tt
                   else on_subst (vector_str_push type_str (zlen type_str)));;
  cpp_demangle_push_type_qualifier (fst r) (Some type_str);;
  after_type.

Definition step (c : call) : act dd unit :=
  match c with
  | ReadType delimit => cpp_demangle_read_type delimit
  | ReadEncoding => cpp_demangle_read_encoding
  | ReadExpression => cpp_demangle_read_expression
  | ReadName => cpp_demangle_read_name
  | ReadTmplArgs => cpp_demangle_read_tmpl_args
  end.
End reading.

Section demangling.
Context `{Heap} `{FpPrinter}.

Fixpoint run (fuel : nat) (c : call) : act dd unit :=
  match fuel with O => out_of_fuel | S fuel' => step (run fuel') c end.

(** The parameters of a function up to the end of the name. *)
Fixpoint rest_loop (rounds : nat) (fuel : nat) : act dd unit :=
  c ← peek 0;
  if is_char c NUL then mret tt
  else
    c' ← (if is_char c "@" then peek 1 else mret NUL);
    if is_char c "@" && is_char c' "@" then mret tt
    else
      run fuel (ReadType true);;
      match rounds with O => failed | S rounds' => rest_loop rounds' fuel end.

Definition push_output (s : string) : act dd unit := on_output (vector_str_push (str s) (zlen (str s))).

Definition read_mangled (fuel : nat) : act dd bytes :=
  run fuel ReadEncoding;;
  rest_loop ROUNDS fuel;;
  d ← state;
  require (negb (size (output d) =? 0));;
  (if paren d then push_output ")" else mret tt);;
  (if mem_vat d then push_output " volatile" else mret tt);;
  (if mem_cst d then push_output " const" else mret tt);;
  (if mem_rst d then push_output " restrict" else mret tt);;
  d' ← state;
  vector_str_get_flat (output d').

Definition read_short_type (fuel : nat) : act dd (option bytes) :=
  r ← returned (run fuel (ReadType false));
  if r : bool then
    d ← state;
    s ← vector_str_get_flat (output d);
    mret (Some s)
  else (* what is returned was never set *) broken UninitRead.

(** What a computation that may fail returns as a pointer. *)
Definition or_null {A} (r : ending (option A)) : ending (option A) :=
  match r with Failed => Done None | _ => r end.

Definition is_prefix (p s : bytes) : bool := bool_decide (p `prefix_of` s).

Definition cxa_demangle_gnu3 (fuel : nat) (org : bytes) : ending (option bytes) :=
  let start m : ending (option bytes) := or_null (fst ((d ← cpp_demangle_data_init org; r ← local d m; mret (fst r)) tt)) in
  if (zlen org <? 2) || negb (is_prefix (str "_Z") org) then start (read_short_type fuel)
  else if (11 <? zlen org) && is_prefix (str "_GLOBAL__I_") org then
    or_null (fst ((malloc (zlen org + 19);; mret (Some (str "global constructors keyed to " ++ drop 11 org))) tt))
  else
    or_null (fst ((d ← cpp_demangle_data_init (drop 2 org); r ← local d (read_mangled fuel); mret (Some (fst r))) tt)).

(** [__cxa_demangle]: the new buffer, and what is stored in [*n] and [*status].  A buffer
    that is given is reallocated; its contents are not used. *)
Record demangled := Demangled { d_buf : option bytes; d_n : option Z; d_status : option Z }.

Definition cxa_demangle (fuel : nat) (mangled_name : bytes) (n status : bool) : ending demangled :=
  match cxa_demangle_gnu3 fuel mangled_name with
  | Done (Some s) =>
      Done (if granted (zlen s + 1) then Demangled (Some s) (if n then Some (zlen s) else None) (if status then Some 0 else None)
            else Demangled None None (if status then Some (-1) else None))
  | Done None => Done (Demangled None None (if status then Some (-2) else None))
  | Failed => Failed
  | OutOfFuel => OutOfFuel
  | Asserted => Asserted
  | Broken why => Broken why
  end.
End demangling.
