(* ===== verification/DemangleSafe.v ===== *)
(** * DemangleSafe: demangling returns and stays within its vectors

    For any name: the depth of the calls is bounded by its length, no vector is written
    beyond its capacity, and what undefined behaviour there can be is listed. *)

From S2P Require Import Prelude Text StringConv DemangleData DemangleFp Demangle.

(** ** What every function keeps *)

Definition fits {A} (v : vec A) : Prop := size v ≤ capacity v.

Definition good (d : dd) : Prop :=
  fits (output d) ∧ fits (output_tmp d) ∧ fits (subst d) ∧ fits (tmpl d) ∧ fits (class_type d)
  ∧ (fits (cmd d) ∧ 2 ≤ capacity (cmd d)).

(** How much of the name is left. *)
Definition left_over (d : dd) : nat := match cur d with Some s => length s | None => O end.

(** The undefined behaviour that a name can lead to: reading past its end or past a
    literal, the name of a constructor that has been freed, and a number that is too
    large. *)
Definition allowed (why : ub) : Prop := why = BufferOverread ∨ why = DanglingReference ∨ why = SignedOverflow.

Section ends.
Context {S : Type} (inv : S → Prop) (left : S → nat).

(** The computation keeps [inv], reads forwards, has fuel enough, and gives what [Q] says. *)
Definition ends {A} (m : act S A) (s : S) (Q : A → S → Prop) : Prop :=
  let '(e, s') := m s in
  inv s' ∧ (left s' ≤ left s)%nat
  ∧ match e with Done a => Q a s' | Failed | Asserted => True | OutOfFuel => False | Broken why => allowed why end.

Lemma ends_ret {A} (a : A) s Q : inv s → Q a s → ends (mret a) s Q.
Proof. intros. split; [done|]. by split. Qed.

Lemma ends_bind {A B} (m : act S A) (k : A → act S B) s Q R :
  ends m s Q → (∀ a s', inv s' → (left s' ≤ left s)%nat → Q a s' → ends (k a) s' R) → ends (m ≫= k) s R.
Proof.
  unfold ends, mbind, act_bind. intros Hm Hk. destruct (m s) as [[a| | | |why] s']; destruct Hm as (Hi & Hl & Hq); try done.
  specialize (Hk a s' Hi Hl Hq). destruct (k a s') as [e s'']. destruct Hk as (? & ? & ?). split; [done|]. split; [lia|done].
Qed.

Lemma ends_weaken {A} (m : act S A) s (Q R : A → S → Prop) :
  ends m s Q → (∀ a s', inv s' → (left s' ≤ left s)%nat → Q a s' → R a s') → ends m s R.
Proof. unfold ends. destruct (m s) as [[a| | | |why] s']; intros (? & ? & ?) Hr; repeat split; try done. by apply Hr. Qed.

Lemma ends_require b s Q : inv s → (b = true → Q tt s) → ends (require b) s Q.
Proof. intros. destruct b; [by apply ends_ret; auto|]. by split. Qed.

Lemma ends_failed {A} s (Q : A → S → Prop) : inv s → ends failed s Q.
Proof. by split. Qed.

Lemma ends_broken {A} why s (Q : A → S → Prop) : inv s → allowed why → ends (broken why) s Q.
Proof. by split. Qed.

Lemma ends_asserts b s Q : inv s → (b = true → Q tt s) → ends (asserts b) s Q.
Proof. intros Hi Hq. unfold ends, asserts. destruct b; repeat split; try done; by apply Hq. Qed.

Lemma ends_state s Q : inv s → Q s s → ends state s Q.
Proof. by split. Qed.

Lemma ends_change f s Q : inv (f s) → (left (f s) ≤ left s)%nat → Q tt (f s) → ends (change f) s Q.
Proof. by split. Qed.

Lemma ends_returned {A} (m : act S A) s (Q : A → S → Prop) (R : bool → S → Prop) :
  ends m s Q → (∀ a s', inv s' → (left s' ≤ left s)%nat → Q a s' → R true s') →
  (∀ s', inv s' → (left s' ≤ left s)%nat → R false s') → ends (returned m) s R.
Proof.
  unfold ends, returned. destruct (m s) as [[a| | | |why] s']; intros (? & ? & ?) Ht Hfalse; repeat split; try done; [by eapply Ht|by apply Hfalse].
Qed.

(** What a computation on a local variable gives. *)
Lemma ends_local {V A} (v : V) (m : act V A) s (I : V → Prop) Q :
  inv s → (let '(e, v') := m v in I v' ∧ match e with OutOfFuel => False | Broken why => allowed why | _ => True end) →
  (∀ a v', I v' → Q (a, v') s) → ends (local v m) s Q.
Proof.
  unfold ends, local. intros Hi Hm Hq. destruct (m v) as [[a| | | |why] v']; destruct Hm as [? ?]; repeat split; try done. by apply Hq.
Qed.
End ends.

(** ** Vectors *)

(** A computation on a vector that keeps it in bounds. *)
Definition in_bounds {A B} (I : vec A → Prop) (m : act (vec A) B) : Prop :=
  ∀ v, I v → let '(e, v') := m v in I v' ∧ match e with OutOfFuel => False | Broken why => allowed why | _ => True end.

Section vectors.
Context `{Heap}.

Lemma grown_ge c : 0 ≤ c → c ≤ grown c.
Proof. intros. unfold grown. apply Z.div_le_lower_bound; lia. Qed.

Lemma grown_gt c : 2 ≤ c → c < grown c.
Proof. intros. unfold grown. enough (c + 1 ≤ c * 1618 / 1000) by lia. apply Z.div_le_lower_bound; lia. Qed.

Lemma size_nonneg {A} (v : vec A) : 0 ≤ size v.
Proof. apply zlen_nonneg. Qed.

Lemma store_fits {A} (x : A) v : size v < capacity v → store x v = (Done tt, Vec (items v ++ [x]) (capacity v)) ∧ fits (Vec (items v ++ [x]) (capacity v)).
Proof.
  intros Hs. unfold store, mbind, act_bind, state, change. rewrite (proj2 (Z.ltb_lt _ _) Hs). split; [done|].
  unfold fits, size in *. cbn [items capacity]. rewrite zlen_app. unfold zlen at 2. cbn. lia.
Qed.

Lemma push_in_bounds s len : in_bounds fits (vector_str_push s len).
Proof.
  intros v Hv. unfold vector_str_push, vector_str_grow, malloc, require, asserts, change, failed, mbind, act_bind, state, mret, act_ret.
  destruct (Z.eqb_spec (size v) (capacity v)) as [He|He]; [|destruct (granted _); [|done];
    destruct (store_fits (clip len s) v) as [-> ?]; [unfold fits in Hv; lia|done]].
  destruct (0 <? capacity v); [|done]. destruct (Z.ltb_spec (capacity v) (grown (capacity v))) as [Hg|]; [|done].
  destruct (granted _); [|done].
  assert (Hs : size (Vec (items v) (grown (capacity v))) < capacity (Vec (items v) (grown (capacity v)))).
  { change (size v < grown (capacity v)). lia. }
  destruct (granted _); [|split; [unfold fits in *; cbn in *; lia|done]].
  destruct (store_fits (clip len s) _ Hs) as [-> ?]. done.
Qed.

Definition fits_cmd (v : vec read_cmd) : Prop := fits v ∧ 2 ≤ capacity v.

Lemma enum_push_in_bounds {A} (x : A) : in_bounds (λ v, fits v ∧ 2 ≤ capacity v) (enum_push x).
Proof.
  intros v [Hv Hc]. unfold enum_push, malloc, require, change, failed, mbind, act_bind, state, mret, act_ret.
  destruct (Z.eqb_spec (size v) (capacity v)) as [He|He].
  - destruct (granted _); [|done].
    assert (Hs : size (Vec (items v) (grown (capacity v))) < capacity (Vec (items v) (grown (capacity v)))).
    { change (size v < grown (capacity v)). pose proof (grown_gt _ Hc). lia. }
    destruct (store_fits x _ Hs) as [-> ?]. cbn [capacity] in *. split; [split; [done|]|done]. cbn. pose proof (grown_gt _ Hc). lia.
  - destruct (store_fits x v) as [-> ?]; [unfold fits in Hv; lia|]. done.
Qed.

Lemma removelast_fits {A} (v : vec A) : fits v → fits (Vec (removelast (items v)) (capacity v)).
Proof.
  unfold fits, size. cbn [items capacity]. intros Hv. enough (zlen (removelast (items v)) ≤ zlen (items v)) by lia.
  unfold zlen. clear Hv. induction (items v) as [|x [|y l] IH]; [done|cbn; lia|].
  change (removelast (x :: y :: l)) with (x :: removelast (y :: l)). cbn [length] in *. lia.
Qed.

Lemma pop_in_bounds : in_bounds fits vector_str_pop.
Proof. intros v Hv. split; [|done]. by apply removelast_fits. Qed.

Lemma cmd_pop_in_bounds : in_bounds fits_cmd vector_read_cmd_pop.
Proof.
  intros v [Hv Hc]. unfold vector_read_cmd_pop, require, change, failed, mbind, act_bind, state, mret, act_ret.
  destruct (negb _); [|done]. split; [|done]. split; [by apply removelast_fits|done].
Qed.

Lemma strdups_in_bounds {A} (I : A → Prop) l v : I v → let '(e, v') := strdups l v in v' = v ∧ (e = Done tt ∨ e = Failed).
Proof.
  intros Hv. induction l as [|s l IH]; cbn; [by split; [|left]|]. unfold malloc, require, failed, mbind, act_bind, mret, act_ret in *.
  destruct (granted _); [|by split; [|right]]. exact IH.
Qed.

Lemma push_head_in_bounds org : in_bounds fits (vector_str_push_vector_head org).
Proof.
  intros v Hv. unfold vector_str_push_vector_head, malloc, require, mbind at 1 2, act_bind, state.
  pose proof (grown_ge (size v + size org) ltac:(pose proof (size_nonneg v); pose proof (size_nonneg org); lia)) as Hg.
  destruct (granted _); [|done]. unfold mret, act_ret, mbind. pose proof (strdups_in_bounds fits (items org) v Hv) as Hs.
  destruct (strdups _ v) as [e v']. destruct Hs as [-> [-> | ->]]; [|done].
  rewrite (proj2 (Z.leb_le _ _) Hg). split; [|done]. unfold fits, size in *. cbn [items capacity]. rewrite zlen_app. lia.
Qed.
End vectors.

(** ** The operations on the state *)

Create HintDb demangle.

Abbreviation does := (ends good left_over).

(** Closes what is left of a state that has been changed. *)
Ltac keeps := unfold good, fits in *; cbn in *; tauto.

Section operations.
Context `{Heap}.
Implicit Types d : dd.

Lemma does_state d : good d → does state d (λ a d', a = d ∧ d' = d).
Proof. by split. Qed.

Lemma does_require b d : good d → does (require b) d (λ _ d', b = true ∧ d' = d).
Proof. intros. by apply ends_require. Qed.

Lemma does_asserts b d : good d → does (asserts b) d (λ _ d', b = true ∧ d' = d).
Proof. intros. by apply ends_asserts. Qed.

Lemma does_malloc n d : good d → does (malloc n) d (λ _ d', d' = d).
Proof. intros. unfold malloc. by apply ends_require. Qed.

Lemma does_ret {A} (a : A) d : good d → does (mret a) d (λ a' d', a' = a ∧ d' = d).
Proof. intros. by apply ends_ret. Qed.

Lemma does_cur_str d : good d → does cur_str d (λ s d', cur d = Some s ∧ d' = d).
Proof.
  intros Hd. unfold ends, cur_str. destruct (cur d) as [s|] eqn:He.
  - split; [done|]. by split.
  - split; [done|]. split; [done|]. by left.
Qed.

Lemma does_peek k d :
  good d → does (peek k) d (λ c d', d' = d ∧ (c ≠ NUL → k < left_over d)%nat).
Proof.
  intros Hd. unfold peek. eapply ends_bind; [by apply does_cur_str|]. intros s d' _ _ [Hs ->].
  destruct (decide _) as [Hk|Hk]; [|apply ends_broken; [done|by left]]. apply ends_ret; [done|]. split; [done|]. intros Hc.
  unfold left_over. rewrite Hs. destruct (s !! k) eqn:Hl; [by apply lookup_lt_Some in Hl|]. by destruct Hc.
Qed.

Lemma is_char_true c x : is_char c x = true → c = x.
Proof. unfold is_char. apply bool_decide_eq_true_1. Qed.

Lemma is_char_false c x : is_char c x = false → c ≠ x.
Proof. unfold is_char. apply bool_decide_eq_false_1. Qed.

Lemma does_next_char d : good d → does next_char d (λ c d', d' = d ∧ (1 ≤ left_over d)%nat).
Proof.
  intros Hd. unfold next_char. eapply ends_bind; [by apply does_peek|]. intros c d' _ _ [-> Hc].
  eapply ends_bind; [by apply does_require|]. intros _ d' _ _ [Hn ->]. apply ends_ret; [done|]. split; [done|].
  apply Hc. by apply is_char_false, negb_true_iff.
Qed.

Lemma does_advance n d :
  good d → 0 ≤ n → does (advance n) d (λ _ d', (left_over d' ≤ left_over d - Z.to_nat n)%nat).
Proof.
  intros Hd Hn. unfold advance. set (rest := (s ← cur d; if n <=? zlen s then Some (drop (Z.to_nat n) s) else None) : option bytes).
  assert (Hl : (left_over (set_cur rest d) ≤ left_over d - Z.to_nat n)%nat).
  { unfold left_over, rest. cbn [cur set_cur]. destruct (cur d) as [s|]; cbn; [|lia]. destruct (n <=? zlen s); [|lia].
    rewrite length_drop. lia. }
  apply ends_change; [done|fold rest; lia|exact Hl].
Qed.

Lemma does_step_char d :
  good d → does step_char d (λ c d', 1 ≤ left_over d' ∧ left_over d' ≤ left_over d - 1)%nat.
Proof.
  intros Hd. unfold step_char. eapply ends_bind; [by apply does_advance|]. cbn beta. intros _ d' Hg _ Hl.
  eapply ends_weaken; [by apply does_next_char|]. cbn beta. intros c d'' _ _ [-> ?]. change (Z.to_nat 1) with 1%nat in Hl. lia.
Qed.

Lemma span_shorter ok s : (length (snd (span ok s)) ≤ length s)%nat.
Proof. induction s as [|c s IH]; [done|]. cbn. destruct (ok c); [|done]. destruct (span ok s). cbn in *. lia. Qed.

Lemma does_skip_digits d : good d → does skip_digits d (λ _ _, True).
Proof.
  intros Hd. unfold skip_digits. eapply ends_bind; [by apply does_cur_str|]. intros s d' _ _ [Hs ->].
  pose proof (span_shorter ELFTC_ISDIGIT s) as Hl. destruct (span _ s) as [a b]. eapply ends_bind.
  - apply (ends_change _ _ _ _ (λ _ _, True)); [done| |done]. unfold left_over. cbn. by rewrite Hs.
  - intros _ d' Hg _ _. by apply ends_ret.
Qed.

Lemma does_skip_to c d : good d → does (skip_to c) d (λ _ _, True).
Proof.
  intros Hd. unfold skip_to. eapply ends_bind; [by apply does_cur_str|]. intros s d' _ _ [Hs ->].
  pose proof (span_shorter (λ x, negb (is_char x c)) s) as Hl. destruct (span _ s) as [a b].
  destruct b as [|x b]; [apply ends_broken; [done|by left]|]. eapply ends_bind.
  - apply (ends_change _ _ _ _ (λ _ _, True)); [done| |done]. unfold left_over. cbn. by rewrite Hs.
  - intros _ d' Hg _ _. by apply ends_ret.
Qed.

Lemma does_on {V A} (get : dd → V) set (I : V → Prop) (m : act V A) d :
  good d → I (get d) → (∀ v, I v → good (set v d) ∧ left_over (set v d) = left_over d) →
  (let '(e, v') := m (get d) in I v' ∧ match e with OutOfFuel => False | Broken why => allowed why | _ => True end) →
  does (on get set m) d (λ _ d', left_over d' = left_over d).
Proof.
  intros Hd Hi Hset Hm. unfold ends, on. destruct (m (get d)) as [e v]. destruct Hm as [Hv He].
  destruct (Hset v Hv) as [Hg Hl]. split; [done|]. split; [lia|]. by destruct e.
Qed.

Lemma does_output (m : act vector_str unit) d : good d → in_bounds fits m → does (on_output m) d (λ _ d', left_over d' = left_over d).
Proof. intros Hd Hm. apply (does_on _ _ fits); [done|apply Hd|intros v Hv; split; [keeps|done]|apply Hm, Hd]. Qed.
Lemma does_output_tmp (m : act vector_str unit) d : good d → in_bounds fits m → does (on_output_tmp m) d (λ _ d', left_over d' = left_over d).
Proof. intros Hd Hm. apply (does_on _ _ fits); [done|apply Hd|intros v Hv; split; [keeps|done]|apply Hm, Hd]. Qed.
Lemma does_subst (m : act vector_str unit) d : good d → in_bounds fits m → does (on_subst m) d (λ _ d', left_over d' = left_over d).
Proof. intros Hd Hm. apply (does_on _ _ fits); [done|apply Hd|intros v Hv; split; [keeps|done]|apply Hm, Hd]. Qed.
Lemma does_tmpl (m : act vector_str unit) d : good d → in_bounds fits m → does (on_tmpl m) d (λ _ d', left_over d' = left_over d).
Proof. intros Hd Hm. apply (does_on _ _ fits); [done|apply Hd|intros v Hv; split; [keeps|done]|apply Hm, Hd]. Qed.
Lemma does_class_type (m : act vector_str unit) d : good d → in_bounds fits m → does (on_class_type m) d (λ _ d', left_over d' = left_over d).
Proof. intros Hd Hm. apply (does_on _ _ fits); [done|apply Hd|intros v Hv; split; [keeps|done]|apply Hm, Hd]. Qed.
Lemma does_cmd (m : act (vec read_cmd) unit) d : good d → in_bounds fits_cmd m → does (on_cmd m) d (λ _ d', left_over d' = left_over d).
Proof. intros Hd Hm. apply (does_on _ _ fits_cmd); [done|apply Hd|intros v Hv; split; [unfold fits_cmd in Hv; keeps|done]|apply Hm, Hd]. Qed.
End operations.

#[export] Hint Resolve does_state does_require does_asserts does_malloc does_cur_str does_peek does_next_char does_step_char
  does_skip_digits does_skip_to push_in_bounds pop_in_bounds cmd_pop_in_bounds push_head_in_bounds enum_push_in_bounds
  does_output does_output_tmp does_subst does_tmpl does_class_type does_cmd : demangle.
#[export] Hint Extern 5 (ends _ _ (mret _) _ _) => (apply does_ret; assumption) : demangle.

Lemma does_advance_some n d :
  good d → 0 < n → (1 ≤ left_over d)%nat → does (advance n) d (λ _ d', left_over d' < left_over d)%nat.
Proof. intros Hd Hn Hl. eapply ends_weaken; [apply does_advance; [done|lia]|]. cbn beta. intros _ d' _ _ ?. lia. Qed.

Lemma does_advance_any n d : good d → 0 ≤ n → does (advance n) d (λ _ _, True).
Proof. intros Hd Hn. eapply ends_weaken; [by apply does_advance|done]. Qed.

#[export] Hint Extern 1 (ends _ _ (advance _) _ _) => (apply does_advance_some; [assumption|lia|lia]) : demangle.
#[export] Hint Extern 2 (ends _ _ (advance _) _ _) => (apply does_advance_any; [assumption|lia]) : demangle.

(** Cleans up after a step. *)
Ltac tidy :=
  cbn beta in *;
  repeat match goal with
         | H : _ ∧ _ |- _ => destruct H
         | H : True |- _ => clear H
         | H : ?x = ?y |- _ => (is_var x; subst x) || (is_var y; subst y)
         | H : is_char ?c ?x = true |- _ => apply is_char_true in H
         | H : negb _ = true |- _ => apply negb_true_iff in H
         | H : (_ <=? _) = false |- _ => apply Z.leb_gt in H
         end.

(** What an execution meets first. *)
Ltac walk1 :=
  cbn beta iota zeta;
  lazymatch goal with
  | |- ends _ _ (if ?b then _ else _) _ _ => let E := fresh "E" in destruct b eqn:E; tidy
  | |- ends _ _ (match ?x with _ => _ end) _ _ => let E := fresh "E" in destruct x eqn:E; tidy
  | |- ends _ _ failed _ _ => apply ends_failed; assumption
  | |- ends _ _ (broken _) _ _ => apply ends_broken; [assumption|unfold allowed; tauto]
  | |- ends _ _ (mret _) _ _ => apply ends_ret; [assumption|try solve [done|lia|split; (done || lia)]]
  | |- ends _ _ (change _) _ _ =>
      apply ends_change;
      [solve [done|keeps|repeat case_match; done]|solve [done|repeat case_match; done]|solve [done|lia|repeat case_match; (done || lia)]]
  | |- ends _ _ (_ ≫= _) _ _ =>
      first [ eapply ends_bind; [solve [eauto 3 with demangle]|intros ? ? ? ? ?; tidy]
            | lazymatch goal with
              | |- ends _ _ _ ?d _ => eapply (ends_bind _ _ _ _ _ (λ _ d', left_over d' = left_over d)); [solve [repeat walk1]|intros ? ? ? ? ?; tidy]
              end
            | eapply (ends_bind _ _ _ _ _ (λ _ _, True)); [|intros ? ? ? ? _] ]
  | |- ends _ _ _ _ _ => eapply ends_weaken; [solve [eauto 3 with demangle]|intros ? ? ? ? ?; tidy; try solve [done|lia|split; (done || lia)]]
  end.
Ltac walk := repeat walk1.

Section pushing.
Context `{Heap}.

Lemma does_push_str s len d : good d → does (cpp_demangle_push_str s len) d (λ _ d', left_over d' = left_over d).
Proof. intros Hd. unfold cpp_demangle_push_str. walk. Qed.
Hint Resolve does_push_str : demangle.

Lemma does_push_lit s d : good d → does (push_lit s) d (λ _ d', left_over d' = left_over d).
Proof. apply does_push_str. Qed.

Lemma does_push_subst s len d : good d → does (cpp_demangle_push_subst s len) d (λ _ d', left_over d' = left_over d).
Proof. intros Hd. unfold cpp_demangle_push_subst. walk. Qed.
Hint Resolve does_push_subst : demangle.

Lemma does_get_flat v d : good d → does (vector_str_get_flat v) d (λ _ d', left_over d' = left_over d).
Proof. intros Hd. unfold vector_str_get_flat, get_strlen_sum. walk. Qed.
Hint Resolve does_get_flat : demangle.

Lemma does_push_subst_v v d : good d → does (cpp_demangle_push_subst_v v) d (λ _ d', left_over d' = left_over d).
Proof. intros Hd. unfold cpp_demangle_push_subst_v. walk. Qed.

Lemma does_pushed_from v p_idx d : good d → does (pushed_from v p_idx) d (λ _ d', left_over d' = left_over d).
Proof. intros Hd. unfold pushed_from, vector_str_substr. walk. Qed.

Lemma does_init d : good d → does vector_str_init d (λ v d', fits v ∧ left_over d' = left_over d).
Proof. intros Hd. unfold vector_str_init. walk. Qed.
Hint Resolve does_init : demangle.

Lemma does_local_push s len v d :
  good d → fits v → does (local v (vector_str_push s len)) d (λ r d', fits (snd r) ∧ d' = d).
Proof. intros Hd Hv. apply (ends_local _ _ _ _ _ fits); [done|by apply push_in_bounds|done]. Qed.
Hint Resolve does_local_push : demangle.

Lemma does_pop_output d : good d → does pop_output d (λ _ d', left_over d' = left_over d).
Proof.
  intros Hd. unfold pop_output. walk1. apply ends_change; destruct (last_sname _); try done; by destruct (decide _).
Qed.
Hint Resolve does_pop_output : demangle.

Lemma does_pop_outputs n d : good d → does (pop_outputs n) d (λ _ d', left_over d' = left_over d).
Proof. revert d. induction n as [|n IH]; intros d Hd; cbn [pop_outputs]; walk. Qed.

Definition fits_opt (v : option vector_str) : Prop := match v with Some v => fits v | None => True end.

Lemma does_push_qualifier q e names v d :
  good d → fits_opt v → does (push_qualifier q e names v) d (λ v' d', fits_opt v' ∧ left_over d' = left_over d).
Proof. intros Hd Hv. unfold push_qualifier. pose proof does_push_lit. pose proof does_push_subst_v. destruct v, q; cbn in Hv; walk. Qed.
Hint Resolve does_push_qualifier : demangle.

Lemma does_qualifier_loop qs e names v d : good d → fits_opt v → does (qualifier_loop qs e names v) d (λ _ d', left_over d' = left_over d).
Proof.
  revert e v d. induction qs as [|q qs IH]; intros e v d Hd Hv; cbn [qualifier_loop]; walk.
Qed.
Hint Resolve does_qualifier_loop : demangle.

Lemma does_push_type_qualifier v t d : good d → does (cpp_demangle_push_type_qualifier v t) d (λ _ d', left_over d' = left_over d).
Proof.
  intros Hd. unfold cpp_demangle_push_type_qualifier. walk1; [walk|].
  eapply (ends_bind _ _ _ _ _ (λ v d', fits_opt v ∧ left_over d' = left_over d)); [|intros ? ? ? ? ?; tidy; walk]. destruct t; walk.
Qed.

Lemma does_push_nth v idx d : good d → does (push_nth v idx) d (λ _ _, True).
Proof. intros Hd. unfold push_nth. walk. Qed.
End pushing.

#[export] Hint Resolve does_push_str does_push_lit does_push_subst does_get_flat does_push_subst_v does_pushed_from does_init
  does_local_push does_pop_output does_pop_outputs does_qualifier_loop does_push_type_qualifier does_push_nth : demangle.

(** ** Every function that reads *)

(** The depth of calls that is enough. *)
Definition need (c : call) (n : nat) : nat := match c with ReadTmplArgs => 2 * n + 1 | _ => 2 * n + 2 end.

Section reading.
Context `{Heap} `{FpPrinter} (rec : call → act dd unit) (N : nat).
Hypothesis rec_does : ∀ c d, good d → (need c (left_over d) ≤ N)%nat → does (rec c) d (λ _ _, True).

(** A function whose calls are deep enough where the name that is left is read. *)
Definition reads {A} (m : act dd A) : Prop := ∀ d, good d → (2 * left_over d + 1 ≤ N)%nat → does m d (λ _ _, True).

Hint Extern 3 (ends _ _ (rec _) _ _) => (apply rec_does; [assumption|cbn [need]; lia]) : demangle.
Hint Extern 1 (_ ≤ _)%nat => lia : demangle.
Hint Extern 4 (ends _ _ ?m _ _) =>
  (let Hm := fresh in assert (Hm : reads m) by (solve [eauto 1 with demangle nocore]); apply Hm; [assumption|lia]) : demangle.

Lemma does_to_tmp d : good d → does to_tmp d (λ _ d', left_over d' = left_over d).
Proof. intros Hd. unfold to_tmp. walk. Qed.
Lemma does_output_size tmp d : good d → does (output_size tmp) d (λ _ d', left_over d' = left_over d).
Proof. intros Hd. unfold output_size. walk. Qed.
Lemma does_from_output tmp p_idx d : good d → does (from_output tmp p_idx) d (λ _ d', left_over d' = left_over d).
Proof. intros Hd. unfold from_output. walk. Qed.
Hint Resolve does_to_tmp does_output_size does_from_output : demangle.

Lemma does_strtol base d : valid_base base = true → good d → does (c_strtol base) d (λ _ d', d' = d).
Proof. intros Hb Hd. unfold c_strtol, strtol. rewrite Hb. walk1. destruct (scan_number _ _) as [v n]. destruct (v <? LONG_MIN); [|destruct (LONG_MAX <? v)]; walk. Qed.

Lemma does_peek_head d : good d → does (peek 0) d (λ c d', d' = d ∧ (c ≠ NUL → ∃ s, cur d = Some (c :: s))).
Proof.
  intros Hd. unfold peek. walk. split; [done|]. intros Hc. destruct a as [|c s]; [by destruct Hc|]. by exists s.
Qed.

Lemma digit_not_nul c : ELFTC_ISDIGIT c = true → c ≠ NUL.
Proof. by intros ? ->. Qed.

Lemma does_skip_some d c s :
  good d → cur d = Some (c :: s) → ELFTC_ISDIGIT c = true → does skip_digits d (λ _ d', left_over d' < left_over d)%nat.
Proof.
  intros Hd Hc Hdig. unfold skip_digits. eapply ends_bind; [by apply does_cur_str|]. cbn beta. intros s0 d' _ _ [Hs ->].
  rewrite Hc in Hs. injection Hs as <-. cbn [span]. rewrite Hdig.
  pose proof (span_shorter ELFTC_ISDIGIT s) as Hl. destruct (span _ s) as [x y]. cbn in Hl.
  assert (Hlt : (left_over (set_cur (Some y) d) < left_over d)%nat) by (unfold left_over; rewrite Hc; cbn; lia).
  eapply ends_bind; [apply (ends_change _ _ _ _ (λ _ d', d' = set_cur (Some y) d)); [done|lia|done]|].
  intros _ d' Hg _ ->. by apply ends_ret.
Qed.

Lemma does_read_number d : good d → does cpp_demangle_read_number d (λ _ d', left_over d' < left_over d)%nat.
Proof.
  intros Hd. unfold cpp_demangle_read_number. eapply ends_bind; [by apply does_peek|]. cbn beta. intros c d1 _ _ [-> _].
  apply (ends_bind _ _ _ _ _ (λ _ _, True)); [walk|]. intros _ d1 Hd1 Hl1 _.
  eapply ends_bind; [by apply does_peek_head|]. cbn beta. intros c' d2 _ _ [-> Hhead].
  eapply ends_bind; [by apply does_require|]. cbn beta. intros _ d2 _ _ [Hdig ->].
  destruct (Hhead (digit_not_nul _ Hdig)) as [s Hs].
  eapply ends_bind; [by apply does_strtol|]. cbn beta. intros len d2 _ _ ->.
  eapply ends_bind; [by eapply does_skip_some|]. cbn beta. intros a d2 Hd2 Hl2 Hlt. walk.
Qed.
Hint Resolve does_read_number : demangle.

Lemma does_read_sname d : good d → does cpp_demangle_read_sname d (λ _ _, True).
Proof. intros Hd. unfold cpp_demangle_read_sname. walk. Qed.
Hint Resolve does_read_sname : demangle.

Lemma does_last_name d : good d → does last_name d (λ _ d', left_over d' = left_over d).
Proof. intros Hd. unfold last_name. walk. Qed.
Hint Resolve does_last_name : demangle.

Lemma does_read_structor s d : good d → does (read_structor s) d (λ _ _, True).
Proof. intros Hd. unfold read_structor. walk. Qed.
Hint Resolve does_read_structor : demangle.

Lemma reads_uqname : reads (cpp_demangle_read_uqname rec).
Proof. intros d Hd Hn. unfold cpp_demangle_read_uqname. walk. Qed.
Hint Resolve reads_uqname : demangle.

Lemma does_seq_id d : good d → does read_seq_id d (λ _ _, True).
Proof. intros Hd. unfold read_seq_id. eapply ends_bind; [by apply does_strtol|]. cbn beta. intros nth d' _ _ ->. walk. Qed.
Hint Resolve does_seq_id : demangle.

Lemma does_get_subst idx d : good d → does (cpp_demangle_get_subst idx) d (λ _ _, True).
Proof. intros Hd. unfold cpp_demangle_get_subst. walk. Qed.
Lemma does_get_tmpl_param idx d : good d → does (cpp_demangle_get_tmpl_param idx) d (λ _ _, True).
Proof. intros Hd. unfold cpp_demangle_get_tmpl_param. walk. Qed.
Hint Resolve does_get_subst does_get_tmpl_param : demangle.

Lemma does_tmpl_param d : good d → does cpp_demangle_read_tmpl_param d (λ _ _, True).
Proof. intros Hd. unfold cpp_demangle_read_tmpl_param. walk. Qed.
Hint Resolve does_tmpl_param : demangle.

Lemma reads_stdtmpl s len : reads (cpp_demangle_read_subst_stdtmpl rec s len).
Proof. intros d Hd Hn. unfold cpp_demangle_read_subst_stdtmpl. walk. Qed.

Lemma reads_name_args tmp v d :
  good d → fits v → (2 * left_over d + 1 ≤ N)%nat → does (read_name_args rec tmp v) d (λ _ _, True).
Proof. intros Hd Hv Hn. unfold read_name_args. walk. Qed.
Hint Resolve reads_stdtmpl reads_name_args : demangle.

Lemma does_when_char c m d :
  good d → c ≠ NUL →
  (∀ d', good d' → (1 ≤ left_over d' ≤ left_over d)%nat → does m d' (λ _ _, True)) → does (when_char c m) d (λ _ _, True).
Proof.
  intros Hd Hc Hm. unfold when_char. eapply ends_bind; [by apply does_peek|]. cbn beta. intros x d' _ _ [-> Hx].
  destruct (is_char x c) eqn:He; [|walk]. apply is_char_true in He as ->. apply Hm; [done|]. specialize (Hx Hc). lia.
Qed.
Hint Extern 2 (ends _ _ (when_char _ _) _ _) =>
  (apply does_when_char; [assumption|discriminate|intros; solve [repeat walk1]]) : demangle.

(** A function that returns 1 whatever happens in it. *)
Lemma does_returned {A} (m : act dd A) d (Q : A → dd → Prop) : does m d Q → does (returned m) d (λ _ _, True).
Proof. intros Hm. by eapply ends_returned. Qed.

Lemma reads_subst_std : reads (cpp_demangle_read_subst_std rec).
Proof.
  intros d Hd Hn. unfold cpp_demangle_read_subst_std. walk1.
  eapply ends_bind; [eapply (does_returned _ _ (λ _ _, True))|intros; walk]. walk.
Qed.
Hint Resolve reads_subst_std : demangle.

Lemma reads_subst : reads (cpp_demangle_read_subst rec).
Proof. intros d Hd Hn. unfold cpp_demangle_read_subst. walk. Qed.
Hint Resolve reads_subst : demangle.

Lemma does_until_E rounds m n d :
  (∀ d', good d' → (left_over d' ≤ n)%nat → does m d' (λ _ _, True)) → good d → (left_over d ≤ n)%nat →
  does (until_E rounds m) d (λ _ _, True).
Proof.
  intros Hm. revert d. induction rounds as [|rounds IH]; intros d Hd Hn; cbn [until_E];
    (eapply ends_bind; [by apply Hm|intros ? ? ? ? _]); walk.
Qed.

Lemma does_until_types rounds b d :
  good d → (2 * left_over d + 2 ≤ N)%nat → does (until_E rounds (rec (ReadType b))) d (λ _ _, True).
Proof. intros Hd Hn. apply (does_until_E _ _ (left_over d)); [|done|done]. intros. apply rec_does; [done|cbn; lia]. Qed.
Hint Extern 2 (ends _ _ (until_E _ _) _ _) => (apply does_until_types; [assumption|lia]) : demangle.

Lemma reads_local_name : reads (cpp_demangle_read_local_name rec).
Proof. intros d Hd Hn. unfold cpp_demangle_read_local_name. walk. Qed.
Hint Resolve reads_local_name : demangle.

Lemma does_member_qualifiers d : good d → does read_member_qualifiers d (λ _ _, True).
Proof.
  intros Hd. unfold read_member_qualifiers. eapply ends_bind; [by apply does_cur_str|]. cbn beta. intros s d' _ _ [Hs ->].
  pose proof (span_shorter (λ c, is_char c "r" || is_char c "V" || is_char c "K") s) as Hl. destruct (span _ s) as [x y].
  apply ends_change; [done| |done]. unfold left_over. cbn in *. by rewrite Hs.
Qed.
Hint Resolve does_member_qualifiers : demangle.

Lemma does_nested_loop rounds tmp v d :
  good d → fits v → (2 * left_over d + 1 ≤ N)%nat → does (nested_loop rec rounds tmp v) d (λ _ _, True).
Proof.
  revert v d. induction rounds as [|rounds IH]; intros v d Hd Hv Hn; cbn [nested_loop]; (walk1; walk1;
    eapply (ends_bind _ _ _ _ _ (λ _ _, True)); [walk|intros ? ? ? ? _]; do 5 walk1; [walk1|];
    eapply (ends_bind _ _ _ _ _ (λ r d', fits (snd r))); [walk|intros ? ? ? ? ?; walk]).
Qed.
Hint Resolve does_nested_loop : demangle.

Lemma reads_nested_name : reads (cpp_demangle_read_nested_name rec).
Proof. intros d Hd Hn. unfold cpp_demangle_read_nested_name. walk. Qed.

Lemma reads_unscoped_name : reads (read_unscoped_name rec).
Proof. intros d Hd Hn. unfold read_unscoped_name. walk. Qed.
Hint Resolve reads_nested_name reads_unscoped_name : demangle.

Lemma reads_name : reads (cpp_demangle_read_name rec).
Proof. intros d Hd Hn. unfold cpp_demangle_read_name. walk. Qed.
Hint Resolve reads_name : demangle.

Lemma does_offset_number d : good d → does cpp_demangle_read_offset_number d (λ _ _, True).
Proof. intros Hd. unfold cpp_demangle_read_offset_number. walk. Qed.
Hint Resolve does_offset_number : demangle.

Lemma does_nv_offset d : good d → does cpp_demangle_read_nv_offset d (λ _ _, True).
Proof. intros Hd. unfold cpp_demangle_read_nv_offset. walk. Qed.

Lemma does_v_offset d : good d → does cpp_demangle_read_v_offset d (λ _ _, True).
Proof.
  intros Hd. unfold cpp_demangle_read_v_offset. do 3 walk1.
  eapply ends_bind; [eapply does_returned, does_offset_number; assumption|intros; walk].
Qed.
Hint Resolve does_nv_offset does_v_offset : demangle.

Lemma does_offset d : good d → does cpp_demangle_read_offset d (λ _ _, True).
Proof. intros Hd. unfold cpp_demangle_read_offset. walk. Qed.
Hint Resolve does_offset : demangle.

Lemma reads_encoding : reads (cpp_demangle_read_encoding rec).
Proof. intros d Hd Hn. unfold cpp_demangle_read_encoding. walk. Qed.

(** Floating point *)

Lemma does_print_again tries len text d : good d → does (print_again tries len text) d (λ _ _, True).
Proof. revert len d. induction tries as [|tries IH]; intros len d Hd; cbn [print_again]; walk. Qed.

Lemma does_decode_double p len d : good d → does (decode_fp_to_double p len) d (λ _ _, True).
Proof. intros Hd. pose proof does_print_again. unfold decode_fp_to_double, fp_bytes, print_fp. walk. Qed.
Lemma does_decode_float p len d : good d → does (decode_fp_to_float p len) d (λ _ _, True).
Proof. intros Hd. pose proof does_print_again. unfold decode_fp_to_float, fp_bytes, print_fp. walk. Qed.
Lemma does_decode_long_double p len d : good d → does (decode_fp_to_long_double p len) d (λ _ _, True).
Proof. intros Hd. pose proof does_print_again. unfold decode_fp_to_long_double, fp_bytes, print_fp. walk. Qed.
Hint Resolve does_decode_double does_decode_float does_decode_long_double : demangle.
Lemma does_decode_float128 p len d : good d → does (decode_fp_to_float128 p len) d (λ _ _, True).
Proof. intros Hd. pose proof does_print_again. unfold decode_fp_to_float128, fp_bytes, print_fp. walk. Qed.
Lemma does_decode_float80 p len d : good d → does (decode_fp_to_float80 p len) d (λ _ _, True).
Proof. intros Hd. pose proof does_print_again. unfold decode_fp_to_float80, fp_bytes, print_fp. walk. Qed.
Hint Resolve does_decode_float128 does_decode_float80 : demangle.

Lemma does_push_fp decoder d :
  (∀ p len d', good d' → does (decoder p len) d' (λ _ _, True)) → good d → does (cpp_demangle_push_fp decoder) d (λ _ _, True).
Proof.
  intros Hdec Hd. unfold cpp_demangle_push_fp. do 3 walk1.
  eapply ends_bind; [eapply does_returned, does_push_str; assumption|intros; walk].
Qed.
Hint Extern 2 (ends _ _ (cpp_demangle_push_fp _) _ _) =>
  (apply does_push_fp; [intros; repeat case_match; eauto 2 with demangle|assumption]) : demangle.

(** Expressions *)

Lemma does_integer_literal d : good d → does read_integer_literal d (λ _ _, True).
Proof. intros Hd. unfold read_integer_literal. walk. Qed.
Hint Resolve does_integer_literal : demangle.

Lemma reads_expr_primary : reads (cpp_demangle_read_expr_primary rec).
Proof. intros d Hd Hn. unfold cpp_demangle_read_expr_primary. walk. Qed.
Hint Resolve reads_expr_primary : demangle.

Lemma reads_expression : reads (cpp_demangle_read_expression rec).
Proof.
  intros d Hd Hn. unfold cpp_demangle_read_expression, cpp_demangle_read_expression_binary, cpp_demangle_read_expression_unary,
    cpp_demangle_read_expression_trinary. walk.
Qed.
Hint Resolve reads_expression : demangle.

(** Template arguments *)

Lemma reads_tmpl_arg d :
  good d → (2 * left_over d + 2 ≤ N)%nat → does (cpp_demangle_read_tmpl_arg rec) d (λ _ _, True).
Proof. intros Hd Hn. unfold cpp_demangle_read_tmpl_arg. walk. Qed.
Hint Resolve reads_tmpl_arg : demangle.

Lemma does_tmpl_args_loop rounds tmp d :
  good d → (2 * left_over d + 2 ≤ N)%nat → does (tmpl_args_loop rec rounds tmp) d (λ _ _, True).
Proof. revert d. induction rounds as [|rounds IH]; intros d Hd Hn; cbn [tmpl_args_loop]; walk. Qed.
Hint Resolve does_tmpl_args_loop : demangle.

Lemma does_tmpl_args d :
  good d → (2 * left_over d ≤ N)%nat → does (cpp_demangle_read_tmpl_args rec) d (λ _ _, True).
Proof. intros Hd Hn. unfold cpp_demangle_read_tmpl_args. pose proof does_cmd. pose proof cmd_pop_in_bounds. walk. Qed.

(** Types *)

Lemma reads_array : reads (cpp_demangle_read_array rec).
Proof. intros d Hd Hn. unfold cpp_demangle_read_array. walk. Qed.
Hint Resolve reads_array : demangle.

Definition fits_quals (v : vector_type_qualifier) : Prop :=
  (fits (q_container v) ∧ 2 ≤ capacity (q_container v)) ∧ fits (ext_name v).

Lemma does_quals_init d : good d → does vector_type_qualifier_init d (λ v d', fits_quals v ∧ left_over d' = left_over d).
Proof.
  intros Hd. unfold vector_type_qualifier_init. walk1. eapply ends_bind; [by apply does_init|]. cbn beta. intros e d' Hd' ? [He Hl].
  apply ends_ret; [done|]. subst. repeat split; try done; by (cbn; lia).
Qed.
Hint Resolve does_quals_init : demangle.

Lemma does_quals_push q v d :
  good d → fits_quals v → does (vector_type_qualifier_push q v) d (λ v' d', fits_quals v' ∧ d' = d).
Proof.
  intros Hd [Hq He]. unfold vector_type_qualifier_push.
  eapply ends_bind; [apply (ends_local _ _ _ _ _ (λ v, fits v ∧ 2 ≤ capacity v) (λ r d', (fits (snd r) ∧ 2 ≤ capacity (snd r)) ∧ d' = d));
    [done|by apply enum_push_in_bounds|done]|].
  cbn beta. intros r d' _ _ [Hr ->]. by apply ends_ret.
Qed.
Hint Resolve does_quals_push : demangle.

Lemma does_qualifiers_anew v d :
  good d → does (push_qualifiers_anew v) d (λ v' d', fits_quals v' ∧ left_over d' = left_over d).
Proof. intros Hd. unfold push_qualifiers_anew. walk. Qed.
Hint Resolve does_qualifiers_anew : demangle.

Lemma reads_function v d :
  good d → fits_quals v → (2 * left_over d + 1 ≤ N)%nat → does (cpp_demangle_read_function rec v) d (λ v' _, fits_quals v').
Proof.
  intros Hd Hv Hn. unfold cpp_demangle_read_function.
  eapply ends_bind; [by apply does_peek|]. cbn beta. intros c d1 _ _ [-> Hc].
  eapply ends_bind; [by apply does_require|]. cbn beta. intros _ d1 _ _ [Hf%is_char_true ->]. subst c. specialize (Hc ltac:(done)).
  do 4 walk1. walk1; [walk|]. do 2 walk1.
  eapply (ends_bind _ _ _ _ _ (λ v' _, fits_quals v')); [walk|intros v1 d2 Hd2 ? Hv1; tidy].
  do 2 walk1. walk1. eapply (ends_bind _ _ _ _ _ (λ v' _, fits_quals v')); [walk|intros v2 d3 Hd3 ? Hv2; tidy]. walk.
Qed.
Hint Resolve reads_function : demangle.

Lemma does_member_type class d :
  good d → (2 * left_over d + 2 ≤ N)%nat → does (read_member_type rec class) d (λ _ _, True).
Proof. intros Hd Hn. unfold read_member_type. walk. Qed.

Lemma does_cmd_pop d : good d → does (on_cmd vector_read_cmd_pop) d (λ _ d', left_over d' = left_over d).
Proof. intros. apply does_cmd; [done|apply cmd_pop_in_bounds]. Qed.

Lemma does_cmd_push c d : good d → does (on_cmd (vector_read_cmd_push c)) d (λ _ d', left_over d' = left_over d).
Proof. intros. apply does_cmd; [done|]. intros v Hv. by apply enum_push_in_bounds. Qed.
Hint Resolve does_cmd_pop does_cmd_push does_member_type : demangle.
Hint Extern 2 (ends _ _ (returned _) _ _) => (eapply does_returned; solve [eauto 3 with demangle]) : demangle.

Lemma reads_pointer_to_member : reads (cpp_demangle_read_pointer_to_member rec).
Proof. intros d Hd Hn. unfold cpp_demangle_read_pointer_to_member. walk. Qed.
Hint Resolve reads_pointer_to_member : demangle.

Lemma does_read_again rounds v d :
  good d → fits_quals v → (2 * left_over d + 1 ≤ N)%nat → (left_over d < rounds)%nat →
  does (read_again rec rounds v) d (λ r _, fits_quals (fst r)).
Proof.
  revert v d. induction rounds as [|rounds IH]; intros v d Hd Hv Hn Hr; [lia|]. cbn [read_again].
  assert (He : fits (ext_name v)) by apply Hv.
  eapply ends_bind; [by apply does_peek|]. cbn beta. intros c d1 _ _ [-> Hc].
  destruct (assoc c builtin_types) eqn:Hb; [walk|]. destruct (assoc c qualifier_chars) as [q|] eqn:Hq.
  { walk1. assert (Hnul : c ≠ NUL) by by intros ->. specialize (Hc Hnul). walk1. apply IH; [done|done|lia|lia]. }
  walk. apply IH; [done|split; [apply Hv|done]|lia|lia].
Qed.

Lemma does_before_type delimit d : good d → does (before_type delimit) d (λ _ d', left_over d' = left_over d).
Proof. intros Hd. unfold before_type. walk. Qed.
Hint Resolve does_before_type : demangle.

Lemma reads_after_type : reads (after_type rec).
Proof. intros d Hd Hn. unfold after_type. walk. Qed.
Hint Resolve reads_after_type : demangle.

Lemma reads_type delimit : reads (cpp_demangle_read_type rec delimit).
Proof.
  intros d Hd Hn. unfold cpp_demangle_read_type. do 3 walk1. eapply ends_bind; [by apply does_cur_str|]. cbn beta. intros s d1 _ _ [Hs ->].
  eapply ends_bind; [apply does_read_again; [done|done|lia|unfold left_over; rewrite Hs; lia]|]. cbn beta. intros r d1 Hd1 Hl Hr.
  walk.
Qed.
End reading.

Section demangling.
Context `{Heap} `{FpPrinter}.

(** Every call returns, whose depth is at most twice the length of what is left. *)
Lemma does_run fuel c d : good d → (need c (left_over d) ≤ fuel)%nat → does (run fuel c) d (λ _ _, True).
Proof.
  revert c d. induction fuel as [|fuel IH]; intros c d Hd Hn; [destruct c; cbn in Hn; lia|]. cbn [run].
  destruct c; cbn [step need] in *.
  - apply (reads_type _ _ IH); [done|lia].
  - apply (reads_encoding _ _ IH); [done|lia].
  - apply (reads_expression _ _ IH); [done|lia].
  - apply (reads_name _ _ IH); [done|lia].
  - apply (does_tmpl_args _ _ IH); [done|lia].
Qed.

Lemma does_rest_loop rounds fuel d :
  good d → (2 * left_over d + 2 ≤ fuel)%nat → does (rest_loop rounds fuel) d (λ _ _, True).
Proof.
  revert d.
  induction rounds as [|rounds IH]; intros d Hd Hn; cbn [rest_loop];
    (eapply ends_bind; [by apply does_peek|]; cbn beta; intros c d1 _ _ [-> _]; walk1; [walk|];
     eapply (ends_bind _ _ _ _ _ (λ _ d', d' = d)); [walk|cbn beta; intros c' d1 _ _ ->]; walk1; [walk|];
     eapply ends_bind; [apply does_run; [done|cbn; lia]|cbn beta; intros _ d2 Hd2 ? _]; walk); [apply IH; [done|lia]].
Qed.

Lemma does_read_mangled fuel d : good d → (2 * left_over d + 2 ≤ fuel)%nat → does (read_mangled fuel) d (λ _ _, True).
Proof.
  intros Hd Hn. unfold read_mangled, push_output. eapply ends_bind; [apply does_run; [done|cbn; lia]|cbn beta; intros _ d1 Hd1 ? _].
  eapply ends_bind; [apply does_rest_loop; [done|lia]|cbn beta; intros _ d2 Hd2 ? _]. walk.
Qed.

Lemma data_init_good org : good (data_init org).
Proof. repeat split; done. Qed.

(** What a call may end with: it returns, or an assertion of the demangler stops the
    program, or its behaviour is undefined in one of these ways. *)
Definition comes_to_an_end {A} (r : ending A) : Prop :=
  match r with
  | Done _ | Asserted => True
  | Failed | OutOfFuel => False
  | Broken why => allowed why ∨ why = UninitRead
  end.

Lemma start_ends {A} org (m : act dd A) (wrap : A → option bytes) :
  (let '(e, _) := m (data_init org) in match e with OutOfFuel => False | Broken why => allowed why ∨ why = UninitRead | _ => True end) →
  comes_to_an_end (or_null (fst ((d ← cpp_demangle_data_init org; r ← local d m; mret (wrap (fst r))) tt))).
Proof.
  intros Hm. unfold cpp_demangle_data_init, malloc, require, mbind, act_bind, mret, act_ret, failed, local.
  repeat (destruct (granted _); [|done]). by destruct (m (data_init org)) as [[]].
Qed.

(** C14: for every name the demangler comes to an end, with calls no deeper than
    twice its length and two: it returns; or an assertion of its own ends the
    program, as for the negative number in [_Z1fS-5_]; or its behaviour is undefined
    in one of these ways, of which none stores anything beyond its vectors: it reads
    past the end of the name or of a literal, uses the name of a class that has been
    freed, adds one to the largest number, or returns a pointer that was never
    set. *)
Theorem demangle_terminates fuel org :
  (2 * length org + 2 ≤ fuel)%nat → comes_to_an_end (cxa_demangle_gnu3 fuel org).
Proof.
  intros Hf. unfold cxa_demangle_gnu3. destruct (_ || _).
  - apply (start_ends _ _ (λ r, r)). unfold read_short_type, mbind, act_bind, returned, state, broken.
    pose proof (does_run fuel (ReadType false) (data_init org) (data_init_good org) Hf) as Hr. unfold ends in Hr.
    destruct (run _ _ _) as [e d]. destruct Hr as (Hd & _ & Hr). destruct e; try done; [|by right|by left].
    pose proof (does_get_flat (output d) d Hd) as Hg. unfold ends in Hg. destruct (vector_str_get_flat _ d) as [e d2].
    destruct Hg as (_ & _ & Hg). destruct e; try done. by left.
  - destruct (_ && _).
    + unfold malloc, require, mbind, act_bind, mret, act_ret, failed. by destruct (granted _).
    + apply (start_ends _ _ Some).
      assert (Hn : (2 * left_over (data_init (drop 2 org)) + 2 ≤ fuel)%nat) by (unfold left_over; cbn [cur data_init]; rewrite length_drop; lia).
      pose proof (does_read_mangled fuel (data_init (drop 2 org)) (data_init_good _) Hn) as Hr. unfold ends in Hr.
      destruct (read_mangled _ _) as [e d]. destruct Hr as (_ & _ & Hr). destruct e; try done. by left.
Qed.
End demangling.

Section witness.
#[local] Instance any_memory : Heap := λ n, n <? 1000.
#[local] Instance fixed_fp : FpPrinter := {| sizeof_long_double := 16; fp_text := λ _ _, str "1.0" |}.

Lemma demangle_terminates_witness :
  comes_to_an_end (cxa_demangle_gnu3 40 (str "_ZNSt6vectorIiE1fE")) ∧ comes_to_an_end (cxa_demangle_gnu3 10 (str "AS5")).
Proof.
  split; [apply (demangle_terminates 40 (str "_ZNSt6vectorIiE1fE"))|apply (demangle_terminates 10 (str "AS5"))]; cbn; lia.
Defined.
End witness.
