(* ===== verification/DemangleNames.v ===== *)
(** * DemangleNames: names that are demangled as they were written

    Functions in namespaces and classes, with parameters of builtin and class types and
    their pointers, references and qualifiers: what the demangler prints for the name
    that the ABI gives such a function, written without abbreviations. *)

From S2P Require Import Prelude Text StringConv Number DemangleData DemangleFp Demangle.

(** ** Steps that succeed *)

Lemma act_done {S A B} (m : act S A) (k : A → act S B) s a s' : m s = (Done a, s') → (m ≫= k) s = k a s'.
Proof. intros Hm. unfold mbind, act_bind. by rewrite Hm. Qed.

Lemma bind_state {S B} (k : S → act S B) s : (state ≫= k) s = k s s.
Proof. done. Qed.
Lemma bind_ret {S A B} (a : A) (k : A → act S B) s : (mret a ≫= k) s = k a s.
Proof. done. Qed.
Lemma bind_change {S B} f (k : () → act S B) s : (change f ≫= k) s = k tt (f s).
Proof. done. Qed.
Lemma bind_require {S B} b (k : () → act S B) s : b = true → (require b ≫= k) s = k tt s.
Proof. by intros ->. Qed.
Lemma bind_asserts {S B} b (k : () → act S B) s : b = true → (asserts b ≫= k) s = k tt s.
Proof. intros ->. done. Qed.

(** Executes the first step, whose result is known. *)
Ltac exec Hm := rewrite (act_done _ _ _ _ _ Hm).

(** A vector that can grow. *)
Definition roomy (v : vector_str) : Prop := size v ≤ capacity v ∧ 2 ≤ capacity v.

(** Nothing is being put apart for a return type. *)
Definition plain (d : dd) : Prop := push_head d = 0 ∧ roomy (output d) ∧ roomy (subst d).

(** What no name or type changes but where the parameters start. *)
Definition frame (d d' : dd) : Prop :=
  paren d' = paren d ∧ pfirst d' = pfirst d ∧ mem_rst d' = mem_rst d ∧ mem_vat d' = mem_vat d ∧ mem_cst d' = mem_cst d.

(** From [d] to [d'] the text [used] in front of [rest] has been read, and [new] pushed. *)
Record emits (used rest : bytes) (new : list bytes) (d d' : dd) : Prop := {
  emits_cur : cur d = Some (used ++ rest);
  emits_rest : cur d' = Some rest;
  emits_new : items (output d') = items (output d) ++ new;
  emits_plain : plain d';
  emits_frame : frame d d' }.

Lemma frame_trans d1 d2 d3 : frame d1 d2 → frame d2 d3 → frame d1 d3.
Proof. unfold frame. intros (?&?&?&?&?) (?&?&?&?&?). repeat split; congruence. Qed.

Lemma emits_trans u1 u2 rest n1 n2 d1 d2 d3 :
  emits u1 (u2 ++ rest) n1 d1 d2 → emits u2 rest n2 d2 d3 → emits (u1 ++ u2) rest (n1 ++ n2) d1 d3.
Proof.
  intros [? ? ? ? ?] [? ? Hn ? ?]. split; try done; [by rewrite <- app_assoc|rewrite Hn; by simplify_eq/=; rewrite emits_new0, <- app_assoc|].
  by eapply frame_trans.
Qed.

Section names.
Context `{Heap} `{FpPrinter} (all_granted : ∀ n, granted n = true).

Lemma malloc_done {S} n (s : S) : malloc n s = (Done tt, s).
Proof. unfold malloc. by rewrite all_granted. Qed.

Lemma store_done {A} (x : A) v : size v < capacity v → store x v = (Done tt, Vec (items v ++ [x]) (capacity v)).
Proof. intros Hs. unfold store, mbind, act_bind, state. by rewrite (proj2 (Z.ltb_lt _ _) Hs). Qed.

Lemma grown_more c : 2 ≤ c → c < grown c.
Proof. intros. unfold grown. enough (c + 1 ≤ c * 1618 / 1000) by lia. apply Z.div_le_lower_bound; lia. Qed.

Lemma push_done s len v :
  roomy v → ∃ v', vector_str_push s len v = (Done tt, v') ∧ items v' = items v ++ [clip len s] ∧ roomy v'.
Proof.
  intros [Hs Hc]. pose proof (grown_more _ Hc) as Hg. unfold vector_str_push. rewrite bind_state.
  assert (Hsize : ∀ c, size (Vec (items v ++ [clip len s]) c) = size v + 1) by (intros; unfold size; cbn; rewrite zlen_app; done).
  destruct (Z.eqb_spec (size v) (capacity v)) as [He|He].
  - exists (Vec (items v ++ [clip len s]) (grown (capacity v))). split; [|split; [done|]].
    + unfold vector_str_grow, mbind, act_bind, state, asserts, change. rewrite (proj2 (Z.ltb_lt 0 _)) by lia.
      rewrite (proj2 (Z.ltb_lt _ _) Hg), !malloc_done. apply (store_done (clip len s) (Vec (items v) (grown (capacity v)))).
      change (size v < grown (capacity v)). lia.
    + split; [rewrite Hsize; cbn; lia|cbn; lia].
  - exists (Vec (items v ++ [clip len s]) (capacity v)). split; [|split; [done|]].
    + unfold mbind, act_bind, mret, act_ret. rewrite malloc_done. apply store_done. lia.
    + split; [rewrite Hsize; cbn; lia|done].
Qed.

Lemma clip_all s : clip (zlen s) s = s.
Proof. unfold clip. by rewrite (proj2 (Z.ltb_ge _ _)) by lia. Qed.

Lemma push_str_done s len d rest :
  plain d → cur d = Some rest → len ≠ 0 →
  ∃ d', cpp_demangle_push_str s len d = (Done tt, d') ∧ emits [] rest [clip len s] d d' ∧ last_sname d' = last_sname d
    ∧ subst d' = subst d ∧ cmd d' = cmd d.
Proof.
  intros (Hp & Ho & Hs) Hcur Hlen. destruct (push_done s len (output d) Ho) as (v' & Hv & Hi & Hr).
  exists (set_output v' d). unfold cpp_demangle_push_str. rewrite bind_state.
  rewrite bind_require by by rewrite (proj2 (Z.eqb_neq _ _) Hlen).
  rewrite Hp. cbn [Z.ltb Z.compare]. unfold on_output, on. rewrite Hv. split; [done|]. split; [|done].
  split; [done|done|done|split; [done|by split]|by repeat split].
Qed.

Lemma push_lit_done s d rest :
  plain d → cur d = Some rest → s ≠ EmptyString →
  ∃ d', push_lit s d = (Done tt, d') ∧ emits [] rest [str s] d d' ∧ last_sname d' = last_sname d ∧ subst d' = subst d ∧ cmd d' = cmd d.
Proof.
  intros Hp Hc Hs. destruct (push_str_done (str s) (zlen (str s)) d rest Hp Hc) as (d' & Hd & He & Hl).
  { by destruct s. }
  exists d'. rewrite clip_all in He. by split.
Qed.

(** Substitutions are kept apart from what is printed. *)
Lemma push_subst_done s d rest :
  plain d → cur d = Some rest → s ≠ [] → ∃ d', cpp_demangle_push_subst s (zlen s) d = (Done tt, d') ∧ emits [] rest [] d d'.
Proof.
  intros (Hp & Ho & Hs) Hcur Hne. unfold cpp_demangle_push_subst. rewrite bind_state.
  assert (Hz : (zlen s =? 0) = false) by (apply Z.eqb_neq; by intros ?%zlen_zero). rewrite bind_require by by rewrite Hz.
  destruct (vector_str_find _ _ _).
  - exists d. split; [done|]. split; try done; by rewrite app_nil_r.
  - destruct (push_done s (zlen s) (subst d) Hs) as (v' & Hv & Hi & Hr). exists (set_subst v' d).
    unfold on_subst, on. rewrite Hv. split; [done|]. split; try done; by rewrite app_nil_r.
Qed.

Lemma push_subst_v_done v d rest :
  plain d → cur d = Some rest → concat (items v) ≠ [] →
  ∃ d', cpp_demangle_push_subst_v v d = (Done tt, d') ∧ emits [] rest [] d d'.
Proof.
  intros Hp Hc Hne. unfold cpp_demangle_push_subst_v, vector_str_get_flat, get_strlen_sum.
  assert (Hsum : foldr (λ s n, zlen s + n) 0 (items v) = zlen (concat (items v))).
  { clear. induction (items v) as [|s l IH]; [done|]. cbn. by rewrite zlen_app, IH. }
  assert (Hsize : 0 < size v).
  { unfold size. destruct (items v) as [|x l]; [done|]. rewrite zlen_cons. pose proof (zlen_nonneg l). lia. }
  assert (Hpos : zlen (concat (items v)) ≠ 0) by (by intros ?%zlen_zero).
  destruct (push_subst_done _ d rest Hp Hc Hne) as (d' & Hd & He). exists d'. split; [|done].
  assert (Hz : (size v =? 0) = false) by (apply Z.eqb_neq; lia).
  unfold mbind, act_bind, require, asserts, mret, act_ret. rewrite Hz, (proj2 (Z.ltb_lt _ _) Hsize), Hsum, (proj2 (Z.eqb_neq _ _) Hpos).
  cbn [negb]. by rewrite malloc_done.
Qed.

Lemma from_output_done d pre new :
  items (output d) = pre ++ new → new ≠ [] → from_output false (zlen pre) d = (Done (concat new), d).
Proof.
  intros Hi Hne. unfold from_output, pushed_from, vector_str_substr. rewrite bind_state. cbn [out_vec].
  unfold size. rewrite Hi, zlen_app. assert (1 ≤ zlen new).
  { destruct new as [|x new]; [done|]. rewrite zlen_cons. pose proof (zlen_nonneg new). lia. }
  rewrite bind_require by (rewrite orb_true_iff; right; apply Z.leb_le; lia). rewrite (proj2 (Z.ltb_ge _ _)) by lia.
  rewrite (act_done _ _ _ _ _ (malloc_done _ _)). unfold mret, act_ret. rewrite <- zlen_app, take_ge by (unfold zlen; lia).
  by rewrite drop_zlen_app.
Qed.
(** ** The place in the name *)

Lemma peek_done k d s : cur d = Some s → (k ≤ length s)%nat → peek k d = (Done (default NUL (s !! k)), d).
Proof.
  intros Hc Hk. unfold peek. assert (Hs : cur_str d = (Done s, d)) by (unfold cur_str; by rewrite Hc). exec Hs.
  by rewrite decide_True.
Qed.

Lemma is_char_eq c x : is_char c x = bool_decide (c = x).
Proof. done. Qed.

Lemma is_char_no c x : c ≠ x → is_char c x = false.
Proof. apply bool_decide_eq_false_2. Qed.

Lemma next_char_done d c s : cur d = Some (c :: s) → c ≠ NUL → next_char d = (Done c, d).
Proof.
  intros Hc Hn. unfold next_char. pose proof (peek_done 0 d _ Hc ltac:(lia)) as Hp. exec Hp.
  rewrite bind_require; [done|]. cbn. by rewrite is_char_no.
Qed.

Lemma advance_done n u rest d :
  plain d → cur d = Some (u ++ rest) → n = zlen u →
  advance n d = (Done tt, set_cur (Some rest) d) ∧ emits u rest [] d (set_cur (Some rest) d).
Proof.
  intros Hp Hc ->. split.
  - unfold advance, change. do 2 f_equal. rewrite Hc. cbn. rewrite zlen_app, (proj2 (Z.leb_le _ _)) by (pose proof (zlen_nonneg rest); lia).
    by rewrite drop_zlen_app.
  - split; [done|done|by rewrite app_nil_r|done|by repeat split].
Qed.

Definition digit_free (s : bytes) : Prop := match s with c :: _ => isdigit c = false | [] => True end.

Lemma not_digit_code c : isdigit c = false → is_digit 10 (byte_val c) = false.
Proof.
  unfold isdigit, is_digit, digit_value. rewrite andb_false_iff, !bool_decide_eq_false. intros Hc.
  destruct (Z.leb_spec 48 (byte_val c)), (Z.leb_spec (byte_val c) 57); try lia; cbn [andb];
    repeat match goal with |- context [?a <=? ?b] => destruct (Z.leb_spec a b) end; cbn [andb]; try done; apply Z.ltb_ge; lia.
Qed.

Lemma scan_prefix ds rest :
  ds ≠ [] → Forall (λ c, isdigit c = true) ds → digit_free rest →
  scan_number 10 (codes (ds ++ rest)) = (digits_val ds, length ds).
Proof.
  intros Hne Hds Hrest. destruct ds as [|c ds]; [done|]. pose proof (Forall_inv Hds) as Hc. pose proof (isdigit_range c Hc) as Hr.
  assert (Hsp : spaces (codes ((c :: ds) ++ rest)) = O).
  { cbn. unfold is_space. destruct (_ || _) eqn:Hs; [|done]. lia. }
  assert (Hsg : sign (codes ((c :: ds) ++ rest)) = (false, O)).
  { cbn. destruct (Z.eqb_spec (byte_val c) 45); [lia|]. by destruct (Z.eqb_spec (byte_val c) 43); [lia|]. }
  unfold scan_number. rewrite Hsp, drop_0, Hsg. change (0 + 0)%nat with O. rewrite drop_0.
  change (effective_base 10 (codes ((c :: ds) ++ rest))) with (10, O). cbv beta iota. rewrite drop_0.
  unfold codes. rewrite map_app. fold (codes (c :: ds)) (codes rest). rewrite read_digits_app.
  - rewrite (read_digits_codes (c :: ds) 0 Hds). cbn [fst].
    assert (Hz : ∀ acc, read_digits 10 (codes rest) acc = (acc, O)).
    { intros acc. destruct rest as [|x rest]; [done|]. cbn in *. by rewrite not_digit_code. }
    rewrite Hz. unfold codes. rewrite length_map, Nat.add_0_r. done.
  - unfold codes. apply Forall_map. eapply Forall_impl; [exact Hds|]. intros x Hx. unfold is_digit. rewrite is_digit_code by done.
    apply isdigit_range in Hx. apply Z.ltb_lt. lia.
Qed.

(** ** Numbers and source names *)

Lemma dec_cons n : 0 ≤ n → ∃ c s, dec n = c :: s ∧ isdigit c = true.
Proof.
  intros Hn. pose proof (dec_digits n Hn) as Hds. pose proof (dec_nonempty n Hn). destruct (dec n) as [|c s]; [done|].
  exists c, s. split; [done|]. by apply Forall_inv in Hds.
Qed.

Lemma digit_neq c x : isdigit c = true → isdigit x = false → c ≠ x.
Proof. intros Hc Hx ->. congruence. Qed.

Lemma read_number_done n rest d :
  plain d → cur d = Some (dec n ++ rest) → 0 ≤ n ≤ LONG_MAX → digit_free rest →
  cpp_demangle_read_number d = (Done n, set_cur (Some rest) d).
Proof.
  intros Hp Hc Hn Hrest. destruct (dec_cons n (proj1 Hn)) as (c & s & Hdec & Hdig).
  assert (Hpeek : peek 0 d = (Done c, d)) by (rewrite (peek_done 0 _ _ Hc), Hdec by lia; done).
  unfold cpp_demangle_read_number. exec Hpeek. rewrite (is_char_no c "n") by by apply digit_neq. rewrite bind_ret. exec Hpeek.
  rewrite bind_require by done.
  assert (Hstr : c_strtol 10 d = (Done n, d)).
  { unfold c_strtol. assert (Hs : cur_str d = (Done (dec n ++ rest), d)) by (unfold cur_str; by rewrite Hc). exec Hs.
    unfold strtol. change (valid_base 10) with true. cbv iota.
    rewrite scan_prefix by first [done|by apply dec_digits; lia|by apply dec_nonempty; lia]. rewrite dec_val by lia.
    destruct (Z.ltb_spec n LONG_MIN); [unfold LONG_MIN in *; lia|]. destruct (Z.ltb_spec LONG_MAX n); [lia|].
    rewrite bind_require; [done|]. by rewrite andb_false_r. }
  exec Hstr.
  assert (Hskip : skip_digits d = (Done (dec n), set_cur (Some rest) d)).
  { unfold skip_digits. assert (Hs : cur_str d = (Done (dec n ++ rest), d)) by (unfold cur_str; by rewrite Hc). exec Hs.
    rewrite span_forall; [done|by apply dec_digits; lia|by destruct rest]. }
  exec Hskip. rewrite bind_asserts by (apply Z.leb_le; lia). unfold mret, act_ret. by rewrite Z.mul_1_r.
Qed.

(** The letters of names. *)
Definition ident_char (c : ascii) : bool :=
  isdigit c || (97 <=? byte_val c) && (byte_val c <=? 122) || (65 <=? byte_val c) && (byte_val c <=? 90) || is_char c "_".

Definition identifier (s : bytes) : bool :=
  match s with c :: _ => negb (isdigit c) && forallb ident_char s && (zlen s <=? LONG_MAX) | [] => false end.

(** A source name: its length and its letters. *)
Definition source_name (s : bytes) : bytes := dec (zlen s) ++ s.

Lemma identifier_length s : identifier s = true → 0 < zlen s ≤ LONG_MAX.
Proof.
  destruct s as [|c s]; [done|]. cbn [identifier]. rewrite !andb_true_iff, zlen_cons. intros [_ Hl%Z.leb_le].
  pose proof (zlen_nonneg s). lia.
Qed.

Lemma read_sname_done s rest d :
  plain d → identifier s = true → cur d = Some (source_name s ++ rest) →
  ∃ d', cpp_demangle_read_sname d = (Done tt, d') ∧ emits (source_name s) rest [s] d d'.
Proof.
  intros Hp Hs Hc. pose proof (identifier_length s Hs) as Hl. unfold source_name in *. rewrite <- app_assoc in Hc.
  assert (Hfree : digit_free (s ++ rest)).
  { destruct s as [|c s]; [done|]. cbn in *. apply andb_true_iff in Hs as [Hs _]. apply andb_true_iff in Hs as [Hs _].
    by apply negb_true_iff. }
  unfold cpp_demangle_read_sname. pose proof (read_number_done _ _ d Hp Hc ltac:(lia) Hfree) as Hn. exec Hn.
  rewrite bind_require by (apply negb_true_iff, Z.leb_gt; lia).
  destruct (advance_done (zlen (dec (zlen s))) _ _ d Hp Hc eq_refl) as [_ He1]. set (d1 := set_cur (Some (s ++ rest)) d) in *.
  assert (Hcs : cur_str d1 = (Done (s ++ rest), d1)) by done. exec Hcs.
  destruct (push_str_done (s ++ rest) (zlen s) d1 (s ++ rest) (emits_plain _ _ _ _ _ He1) eq_refl ltac:(lia)) as (d2 & Hd2 & He2 & _).
  exec Hd2. rewrite bind_state. rewrite bind_asserts.
  2: { apply Z.ltb_lt. unfold size. rewrite (emits_new _ _ _ _ _ He2), zlen_app. change (zlen [_]) with 1.
       pose proof (zlen_nonneg (items (output d1))). lia. }
  assert (Hclip : clip (zlen s) (s ++ rest) = s).
  { unfold clip. rewrite zlen_app. destruct (Z.ltb_spec (zlen s) (zlen s + zlen rest)); [apply take_zlen_app|].
    assert (Hr : zlen rest = 0) by (pose proof (zlen_nonneg rest); lia). apply zlen_zero in Hr as ->. by rewrite app_nil_r. }
  rewrite Hclip in He2.
  assert (Hlast : ∀ l, emits [] (s ++ rest) [s] d1 (set_last_sname l d2)) by (intros l; destruct He2; by split).
  assert (∃ l, (if vector_read_cmd_find (cmd d2) READ_TMPL then mret tt
    else change (set_last_sname (OutputAt (pred (length (items (output d2))))))) d2 = (Done tt, set_last_sname l d2)) as [l Hif].
  { destruct (vector_read_cmd_find _ _); [exists (last_sname d2); by destruct d2|by eexists]. }
  exec Hif. specialize (Hlast l). set (d3 := set_last_sname l d2) in *.
  destruct (advance_done (zlen s) s rest d3 (emits_plain _ _ _ _ _ Hlast) (emits_rest _ _ _ _ _ Hlast) eq_refl) as [Hadv He4].
  eexists. split; [exact Hadv|]. exact (emits_trans _ _ _ _ _ _ _ _ He1 (emits_trans _ _ _ _ _ _ _ _ Hlast He4)).
Qed.

Lemma case_of_low {A} h (cases : list (string * A)) :
  h < 4000 → forallb (λ p, 4000 <=? hash_of (fst p)) cases = true → case_of h cases = None.
Proof.
  intros Hh. induction cases as [|[label a] cases IH]; intros Hc; [done|]. cbn [forallb fst] in Hc.
  apply andb_true_iff in Hc as [Hl%Z.leb_le Hc]. cbn [case_of]. rewrite (proj2 (Z.eqb_neq _ _)) by lia. by apply IH.
Qed.

Lemma char_val_range c : -128 ≤ char_val c < 128.
Proof. unfold char_val. pose proof (byte_val_range c). destruct (Z.ltb_spec (byte_val c) 128); lia. Qed.

Lemma digit_hash x y : isdigit x = true → SIMPLE_HASH x y < 4000.
Proof.
  intros Hx%isdigit_range. unfold SIMPLE_HASH. pose proof (char_val_range y). unfold char_val at 1.
  destruct (Z.ltb_spec (byte_val x) 128); lia.
Qed.

Lemma read_uqname_done rec s rest d :
  plain d → identifier s = true → cur d = Some (source_name s ++ rest) →
  ∃ d', cpp_demangle_read_uqname rec d = (Done tt, d') ∧ emits (source_name s) rest [s] d d'.
Proof.
  intros Hp Hs Hc. pose proof (identifier_length s Hs) as Hl. destruct (dec_cons (zlen s) ltac:(lia)) as (x & t & Hdec & Hx).
  assert (Hcur : cur d = Some (x :: t ++ s ++ rest)) by (rewrite Hc; unfold source_name; by rewrite Hdec, <- app_assoc).
  destruct (read_sname_done s rest d Hp Hs Hc) as (d' & Hd' & He). exists d'. split; [|done].
  unfold cpp_demangle_read_uqname. assert (Hnul : x ≠ NUL) by by apply digit_neq.
  pose proof (next_char_done d x _ Hcur Hnul) as Hnext. exec Hnext.
  assert (Hlen : (1 ≤ length (x :: t ++ s ++ rest))%nat) by (cbn; lia).
  pose proof (peek_done 1 d _ Hcur Hlen) as Hpeek. exec Hpeek. set (y := default NUL _).
  cbv zeta. pose proof (digit_hash x y Hx) as Hh. rewrite (case_of_low _ operator_names Hh) by reflexivity.
  rewrite (proj2 (Z.eqb_neq _ (hash_of "cv"))) by (change (hash_of "cv") with 6454; lia).
  rewrite (is_char_no x "v") by by apply digit_neq. cbn [andb]. rewrite (case_of_low _ structors Hh) by reflexivity.
  change (ELFTC_ISDIGIT x) with (isdigit x). by rewrite Hx.
Qed.

(** ** Names *)

Lemma vector_init_done {S} (s : S) : vector_str_init s = (Done (Vec [] VECTOR_DEF_CAPACITY), s).
Proof. unfold vector_str_init. by rewrite (act_done _ _ _ _ _ (malloc_done _ _)). Qed.

Lemma init_roomy : roomy (Vec [] VECTOR_DEF_CAPACITY).
Proof. done. Qed.

Lemma local_push_done s v (d : dd) :
  roomy v → ∃ r, local v (vector_str_push s (zlen s)) d = (Done r, d) ∧ items (snd r) = items v ++ [s] ∧ roomy (snd r).
Proof.
  intros Hv. destruct (push_done s (zlen s) v Hv) as (v' & Hp & Hi & Hr). exists (tt, v'). unfold local. rewrite Hp.
  split; [done|]. rewrite clip_all in Hi. done.
Qed.

Definition starts_with (c : ascii) (s : bytes) : bool := match s with x :: _ => is_char x c | [] => false end.

Lemma when_char_no c m d s : cur d = Some s → c ≠ NUL → starts_with c s = false → when_char c m d = (Done tt, d).
Proof.
  intros Hc Hn Hs. unfold when_char. pose proof (peek_done 0 d s Hc ltac:(lia)) as Hp. exec Hp.
  destruct s as [|x s]; cbn; [by rewrite is_char_no|]. cbn in Hs. by rewrite Hs.
Qed.

Lemma to_tmp_done d : plain d → to_tmp d = (Done false, d).
Proof. intros [Hp _]. unfold to_tmp. rewrite bind_state, Hp. done. Qed.

Lemma output_size_done d : output_size false d = (Done (zlen (items (output d))), d).
Proof. done. Qed.

Lemma concat_snoc_ne (l : list bytes) s : s ≠ [] → concat (l ++ [s]) ≠ [].
Proof. intros Hs. rewrite concat_app. cbn. rewrite app_nil_r. by intros [_ ?]%app_eq_nil. Qed.

Lemma identifier_ne s : identifier s = true → s ≠ [].
Proof. by intros ? ->. Qed.

(** The text that has been pushed joins the name so far, which becomes a substitution. *)
Lemma collect_done (s : bytes) v d rest {B} (k : () * vector_str → act dd B) :
  plain d → cur d = Some rest → roomy v → s ≠ [] →
  ∃ r d', ((local v (vector_str_push s (zlen s)) : act dd _) ≫= λ r, cpp_demangle_push_subst_v (snd r) ≫= λ _, k r) d = k r d'
    ∧ emits [] rest [] d d' ∧ roomy (snd r).
Proof.
  intros Hp Hc Hv Hs. destruct (local_push_done s v d Hv) as (r & Hr & Hi & Hroom).
  destruct (push_subst_v_done (snd r) d rest Hp Hc) as (d' & Hd' & He); [rewrite Hi; by apply concat_snoc_ne|].
  exists r, d'. exec Hr. by exec Hd'.
Qed.

Lemma read_unscoped_name_done rec s rest d :
  plain d → identifier s = true → starts_with "I" rest = false → cur d = Some (source_name s ++ rest) →
  ∃ d', read_unscoped_name rec d = (Done tt, d') ∧ emits (source_name s) rest [s] d d'.
Proof.
  intros Hp Hs Hi Hc. unfold read_unscoped_name. pose proof (to_tmp_done d Hp) as Ht. exec Ht. exec (vector_init_done d).
  exec (output_size_done d). destruct (read_uqname_done rec s rest d Hp Hs Hc) as (d1 & Hd1 & He1). exec Hd1.
  pose proof (from_output_done d1 _ [s] (emits_new _ _ _ _ _ He1) ltac:(done)) as Hf. cbn [concat] in Hf. rewrite app_nil_r in Hf.
  exec Hf. destruct (_ && _); [by exists d1|].
  destruct (collect_done s _ d1 rest (λ r, when_char "I" (read_name_args rec false (snd r))) (emits_plain _ _ _ _ _ He1)
    (emits_rest _ _ _ _ _ He1) init_roomy (identifier_ne _ Hs)) as (r & d2 & -> & He2 & _).
  exists d2. split.
  - by apply (when_char_no _ _ _ rest (emits_rest _ _ _ _ _ He2)).
  - pose proof (emits_trans (source_name s) [] rest [s] [] d d1 d2 He1 He2) as He. by rewrite !app_nil_r in He.
Qed.

(** The parts of a nested name, and what is pushed for them. *)
Definition parts_mangled (ps : list bytes) : bytes := concat (map source_name ps).
Definition parts_pushed (p : bytes) (ps : list bytes) : list bytes := p :: concat (map (λ q, [str "::"; q]) ps).

Lemma source_name_cons s : ∃ x t, source_name s = x :: t ∧ isdigit x = true.
Proof.
  destruct (dec_cons (zlen s) (zlen_nonneg s)) as (x & t & Hd & Hx). exists x, (t ++ s). unfold source_name. by rewrite Hd.
Qed.

Lemma peek_head c s d : cur d = Some (c :: s) → peek 0 d = (Done c, d).
Proof. intros Hc. by rewrite (peek_done 0 d _ Hc) by (cbn; lia). Qed.

Lemma emits_then used rest new d1 d2 d3 : emits used rest new d1 d2 → emits [] rest [] d2 d3 → emits used rest new d1 d3.
Proof. intros H1 H2. pose proof (emits_trans used [] rest new [] d1 d2 d3 H1 H2) as He. by rewrite !app_nil_r in He. Qed.

(** What a round does once a part has been read. *)
Definition after_part (rec : call → act dd ()) (rounds : nat) (r : () * vector_str) : act dd () :=
  c' ← peek 0;
  if is_char c' "E" then mret tt
  else
    r' ← (if is_char c' "I" || is_char c' "C" || is_char c' "D" then mret r
          else push_lit "::";; local (snd r) (vector_str_push (str "::") 2));
    match rounds with O => failed | S rounds' => nested_loop rec rounds' false (snd r') end.

Lemma nested_round rec rounds p v rest d :
  plain d → roomy v → identifier p = true → cur d = Some (source_name p ++ rest) →
  ∃ r d', nested_loop rec rounds false v d = after_part rec rounds r d' ∧ emits (source_name p) rest [p] d d' ∧ roomy (snd r).
Proof.
  intros Hp Hv Hid Hc. destruct (source_name_cons p) as (x & t & Hsn & Hx).
  assert (Hpeek : peek 0 d = (Done x, d)) by (rewrite Hsn in Hc; by apply (peek_head x (t ++ rest))).
  destruct (read_uqname_done rec p rest d Hp Hid Hc) as (d1 & Hd1 & He1).
  pose proof (from_output_done d1 _ [p] (emits_new _ _ _ _ _ He1) ltac:(done)) as Hf. cbn [concat] in Hf. rewrite app_nil_r in Hf.
  destruct (collect_done p v d1 rest (after_part rec rounds) (emits_plain _ _ _ _ _ He1) (emits_rest _ _ _ _ _ He1) Hv
    (identifier_ne _ Hid)) as (r & d2 & Hk & He2 & Hr).
  exists r, d2. split; [|split; [by eapply emits_then|done]]. rewrite <- Hk.
  unfold after_part. destruct rounds as [|rounds]; cbn [nested_loop]; exec (output_size_done d); exec Hpeek;
    rewrite (is_char_no x "I"), (is_char_no x "S"), (is_char_no x "T") by (by apply digit_neq); exec Hd1; by exec Hf.
Qed.

Lemma local_scope_done v d :
  roomy v → ∃ r, (local v (vector_str_push (str "::") 2) : act dd _) d = (Done r, d) ∧ roomy (snd r).
Proof. intros Hv. destruct (local_push_done (str "::") v d Hv) as (r & Hr & _ & Hroom). by exists r. Qed.

Lemma nested_loop_done rec rounds p ps v rest d :
  plain d → roomy v → Forall (λ s, identifier s = true) (p :: ps) → (length ps ≤ rounds)%nat →
  cur d = Some (parts_mangled (p :: ps) ++ "E"%char :: rest) →
  ∃ d', nested_loop rec rounds false v d = (Done tt, d')
    ∧ emits (parts_mangled (p :: ps)) ("E"%char :: rest) (parts_pushed p ps) d d'.
Proof.
  revert p rounds v d. induction ps as [|q ps IH]; intros p rounds v d Hp Hv [Hid Hps]%Forall_cons Hlen Hc;
    unfold parts_mangled in *; cbn [map concat] in *; rewrite <- app_assoc in Hc;
    destruct (nested_round rec rounds p v _ d Hp Hv Hid Hc) as (r & d1 & -> & He1 & Hr).
  - exists d1. split; [|by rewrite app_nil_r]. unfold after_part. by exec (peek_head _ _ d1 (emits_rest _ _ _ _ _ He1)).
  - destruct (source_name_cons q) as (x & t & Hsn & Hx). pose proof (emits_rest _ _ _ _ _ He1) as Hrest.
    assert (Hpeek : peek 0 d1 = (Done x, d1)).
    { cbn [map concat] in Hrest. rewrite Hsn in Hrest. cbn [app] in Hrest. by eapply peek_head. }
    destruct rounds as [|rounds]; [cbn in Hlen; lia|]. unfold after_part. exec Hpeek.
    rewrite (is_char_no x "E"), (is_char_no x "I"), (is_char_no x "C"), (is_char_no x "D") by by apply digit_neq. cbn [orb].
    destruct (push_lit_done "::" d1 _ (emits_plain _ _ _ _ _ He1) Hrest ltac:(done)) as (d2 & Hd2 & He2 & _).
    destruct (local_scope_done (snd r) d2 Hr) as (r2 & Hr2 & Hroom).
    assert (Hseq : (push_lit "::" ≫= λ _, local (snd r) (vector_str_push (str "::") 2)) d1 = (Done r2, d2)) by by exec Hd2.
    exec Hseq. destruct (IH q rounds (snd r2) d2 (emits_plain _ _ _ _ _ He2) Hroom Hps ltac:(cbn in Hlen; lia)
      (emits_rest _ _ _ _ _ He2)) as (d3 & Hd3 & He3).
    exists d3. split; [exact Hd3|]. pose proof (emits_trans _ _ _ _ _ _ _ _ He1 (emits_trans [] _ _ _ _ _ _ _ He2 He3)) as He.
    exact He.
Qed.

(** The qualifiers of a member function. *)
Definition member_char (c : ascii) : bool := is_char c "r" || is_char c "V" || is_char c "K".
Definition with_member (qs : bytes) (d : dd) : dd :=
  set_mem (mem_rst d || existsb (is_char "r") qs) (mem_vat d || existsb (is_char "V") qs) (mem_cst d || existsb (is_char "K") qs) d.

Lemma step_char_done c x s d : plain d → cur d = Some (c :: x :: s) → x ≠ NUL → step_char d = (Done x, set_cur (Some (x :: s)) d).
Proof.
  intros Hp Hc Hx. unfold step_char. destruct (advance_done 1 [c] (x :: s) d Hp Hc eq_refl) as [Ha _]. exec Ha.
  by apply (next_char_done _ x s).
Qed.

Definition nested_mangled (qs : bytes) (ps : list bytes) : bytes := "N"%char :: qs ++ parts_mangled ps ++ ["E"%char].

Lemma read_nested_name_done rec qs p ps rest d :
  plain d → Forall (λ c, member_char c = true) qs → Forall (λ s, identifier s = true) (p :: ps) → (length ps ≤ ROUNDS)%nat →
  cur d = Some (nested_mangled qs (p :: ps) ++ rest) →
  ∃ d', cpp_demangle_read_nested_name rec d = (Done tt, d')
    ∧ emits (nested_mangled qs (p :: ps)) rest (parts_pushed p ps) (with_member qs d) d'.
Proof.
  intros Hp Hqs Hps Hlen Hc. unfold nested_mangled in Hc. cbn [app] in Hc. rewrite <- !app_assoc in Hc. cbn [app] in Hc.
  set (body := parts_mangled (p :: ps) ++ "E"%char :: rest) in *.
  assert (Hbody : ∃ x t, body = x :: t ∧ isdigit x = true).
  { destruct (source_name_cons p) as (x & t & Hsn & Hx). unfold body, parts_mangled. cbn [map concat]. rewrite Hsn. by eexists _, _. }
  assert (Hhead : ∃ y s, qs ++ body = y :: s ∧ y ≠ NUL).
  { destruct Hbody as (x & t & -> & Hx). destruct Hqs as [|y qs Hy _]; [exists x, t; split; [done|by apply digit_neq]|].
    exists y, (qs ++ x :: t). split; [done|]. by intros ->. }
  destruct Hhead as (y & s & Hhead & Hnul). unfold cpp_demangle_read_nested_name. exec (peek_head _ _ d Hc).
  rewrite bind_require by done. rewrite Hhead in Hc. exec (step_char_done _ y s d Hp Hc Hnul). rewrite <- Hhead.
  set (d1 := set_cur (Some (qs ++ body)) d).
  assert (Hq : read_member_qualifiers d1 = (Done tt, set_cur (Some body) (with_member qs d))).
  { unfold read_member_qualifiers. assert (Hs : cur_str d1 = (Done (qs ++ body), d1)) by done. exec Hs.
    rewrite span_forall; [done|exact Hqs|]. destruct Hbody as (x & t & -> & Hx).
    by rewrite !is_char_no by by apply digit_neq. }
  exec Hq. set (d2 := set_cur (Some body) (with_member qs d)). assert (Hp2 : plain d2) by done.
  pose proof (to_tmp_done d2 Hp2) as Ht. exec Ht. exec (vector_init_done d2).
  destruct (nested_loop_done rec ROUNDS p ps _ rest d2 Hp2 init_roomy Hps Hlen eq_refl) as (d3 & Hd3 & He3). exec Hd3.
  destruct (advance_done 1 ["E"%char] rest d3 (emits_plain _ _ _ _ _ He3) (emits_rest _ _ _ _ _ He3) eq_refl) as [Ha He4].
  eexists. split; [exact Ha|]. destruct He3 as [_ _ Hnew Hp3 Hf3]. destruct He4 as [_ Hr4 Hn4 Hp4 Hf4]. split.
  - cbn [cur with_member set_mem]. rewrite Hc. unfold nested_mangled. cbn [app]. rewrite <- !app_assoc, <- Hhead. done.
  - done.
  - cbn [output set_cur] in *. exact Hnew.
  - exact Hp4.
  - exact (frame_trans _ _ _ Hf3 Hf4).
Qed.

(** A class or a function: its namespaces and classes, and its own name. *)
Definition path_mangled (qs : bytes) (ps : list bytes) : bytes :=
  match ps with [p] => source_name p | _ => nested_mangled qs ps end.

Definition path_ok (ps : list bytes) : Prop := ps ≠ [] ∧ Forall (λ s, identifier s = true) ps ∧ (length ps ≤ S ROUNDS)%nat.

Definition path_pushed (ps : list bytes) : list bytes := match ps with p :: ps' => parts_pushed p ps' | [] => [] end.

Lemma read_name_done rec qs ps rest d :
  plain d → Forall (λ c, member_char c = true) qs → path_ok ps → (length ps = 1%nat → qs = []) → starts_with "I" rest = false →
  cur d = Some (path_mangled qs ps ++ rest) →
  ∃ d', cpp_demangle_read_name rec d = (Done tt, d') ∧ emits (path_mangled qs ps) rest (path_pushed ps) (with_member qs d) d'.
Proof.
  intros Hp Hqs (Hne & Hps & Hlen) Hone Hi Hc. destruct ps as [|p [|q ps]]; [done|..].
  - rewrite Hone in * by done. cbn [path_mangled] in *. destruct (source_name_cons p) as (x & t & Hsn & Hx).
    destruct (read_unscoped_name_done rec p rest d Hp (Forall_inv Hps) Hi Hc) as (d' & Hd' & He). exists d'. split.
    + unfold cpp_demangle_read_name. pose proof Hc as Hc2. rewrite Hsn in Hc2. assert (Hnul : x ≠ NUL) by by apply digit_neq.
      pose proof (next_char_done d x _ Hc2 Hnul) as Hn. exec Hn.
      by rewrite (is_char_no x "S"), (is_char_no x "N"), (is_char_no x "Z") by by apply digit_neq.
    + destruct He as [? ? ? ? (?&?&?&?&?)]. split; try done. unfold frame, with_member. cbn.
      rewrite !orb_false_r. done.
  - cbn [path_mangled] in *. destruct (read_nested_name_done rec qs p (q :: ps) rest d Hp Hqs Hps ltac:(cbn in *; lia) Hc) as (d' & Hd' & He).
    exists d'. split; [|exact He]. unfold cpp_demangle_read_name. pose proof (next_char_done d "N" _ Hc ltac:(done)) as Hn. by exec Hn.
Qed.

(** ** Types *)

(** A builtin type, by its letter and its name, or a class. *)
Inductive base_type := Builtin (c : ascii) (name : string) | Class_ (path : list bytes).

(** The outermost qualifier comes first. *)
Record type := Type_ { t_quals : list type_qualifier; t_base : base_type }.

Definition qualifier_char (q : type_qualifier) : ascii :=
  match q with
  | TYPE_PTR => "P" | TYPE_REF => "R" | TYPE_CMX => "C" | TYPE_IMG => "G" | TYPE_RST => "r" | TYPE_VAT => "V" | TYPE_CST => "K"
  | TYPE_EXT => "U"
  end.

Definition base_mangled (b : base_type) : bytes := match b with Builtin c _ => [c] | Class_ ps => path_mangled [] ps end.
Definition base_pushed (b : base_type) : list bytes := match b with Builtin _ s => [str s] | Class_ ps => path_pushed ps end.
Definition type_mangled (t : type) : bytes := map qualifier_char (t_quals t) ++ base_mangled (t_base t).
Definition quals_pushed (qs : list type_qualifier) : list bytes := map (λ q, str (qualifier_text q)) (rev qs).
Definition type_pushed (t : type) : list bytes := base_pushed (t_base t) ++ quals_pushed (t_quals t).

(** [wchar_t] is printed without its last letter. *)
Definition base_ok (b : base_type) : Prop :=
  match b with Builtin c s => assoc c builtin_types = Some s ∧ s ≠ "wchar_t"%string | Class_ ps => path_ok ps end.
Definition type_ok (t : type) : Prop := TYPE_EXT ∉ t_quals t ∧ base_ok (t_base t).

Definition roomy_quals (v : vector_type_qualifier) : Prop := size (q_container v) ≤ capacity (q_container v) ∧ 2 ≤ capacity (q_container v).

Lemma quals_push_done q v (d : dd) :
  roomy_quals v → ∃ v', vector_type_qualifier_push q v d = (Done v', d) ∧ items (q_container v') = items (q_container v) ++ [q] ∧ roomy_quals v'.
Proof.
  intros [Hs Hc]. set (w := q_container v) in *. pose proof (grown_more _ Hc) as Hg.
  assert (∃ w', enum_push q w = (Done tt, w') ∧ items w' = items w ++ [q] ∧ size w' ≤ capacity w' ∧ 2 ≤ capacity w') as (w' & Hw & Hi & Hr).
  { assert (Hsize : ∀ c, size (Vec (items w ++ [q]) c) = size w + 1) by (intros; unfold size; cbn; by rewrite zlen_app).
    unfold enum_push. rewrite bind_state. destruct (Z.eqb_spec (size w) (capacity w)) as [He|He].
    - exists (Vec (items w ++ [q]) (grown (capacity w))). split; [|rewrite Hsize; cbn; repeat split; lia].
      unfold mbind, act_bind. rewrite malloc_done. unfold change. apply (store_done q (Vec (items w) (grown (capacity w)))).
      change (size w < grown (capacity w)). lia.
    - exists (Vec (items w ++ [q]) (capacity w)). split; [|rewrite Hsize; cbn; repeat split; lia].
      rewrite bind_ret. apply store_done. lia. }
  exists (Quals w' (ext_name v)). split; [|by split]. unfold vector_type_qualifier_push.
  assert (Hl : (local (q_container v) (enum_push q) : act dd _) d = (Done (tt, w'), d)) by (unfold local; fold w; by rewrite Hw).
  by exec Hl.
Qed.

Lemma assoc_digit {A} c (l : list (ascii * A)) :
  isdigit c = true → forallb (λ p, negb (isdigit (fst p))) l = true → assoc c l = None.
Proof.
  intros Hc. induction l as [|[x a] l IH]; intros Hl; [done|]. cbn [forallb fst assoc] in *. apply andb_true_iff in Hl as [Hx%negb_true_iff Hl].
  rewrite is_char_no by by apply digit_neq. by apply IH.
Qed.

Lemma with_no_member d : frame d (with_member [] d).
Proof. unfold frame, with_member. cbn. by rewrite !orb_false_r. Qed.

Lemma path_mangled_cons ps : path_ok ps → ∃ x t, path_mangled [] ps = x :: t ∧ (isdigit x = true ∨ x = "N"%char).
Proof.
  intros (Hne & _). destruct ps as [|p [|q ps]]; [done|..].
  - destruct (source_name_cons p) as (x & t & Hsn & Hx). exists x, t. cbn. by split; [|left].
  - eexists _, _. split; [reflexivity|by right].
Qed.

Lemma read_base_done rec rounds b v rest d :
  plain d → base_ok b → starts_with "I" rest = false → cur d = Some (base_mangled b ++ rest) →
  ∃ d' builtin, read_again rec (S rounds) v d = (Done (v, builtin), d') ∧ emits (base_mangled b) rest (base_pushed b) d d'.
Proof.
  intros Hp Hb Hi Hc. destruct b as [c s|ps]; cbn [base_mangled base_pushed base_ok] in *.
  - destruct Hb as [Ha Hw]. cbn [read_again]. exec (peek_head c rest d Hc). rewrite Ha.
    assert (Hlen : builtin_len s = zlen (str s)) by (unfold builtin_len; by rewrite decide_False).
    assert (Hz : zlen (str s) ≠ 0).
    { intros Hz%zlen_zero. destruct s; [|done]. clear -Ha. unfold builtin_types in Ha. cbn [assoc] in Ha.
      repeat (destruct (is_char c _) in Ha; [discriminate|]). discriminate. }
    rewrite Hlen. destruct (push_str_done (str s) (zlen (str s)) d _ Hp Hc Hz) as (d1 & Hd1 & He1 & _). exec Hd1.
    destruct (advance_done 1 [c] rest d1 (emits_plain _ _ _ _ _ He1) (emits_rest _ _ _ _ _ He1) eq_refl) as [Ha1 He2]. exec Ha1.
    rewrite clip_all in He1. eexists _, true. split; [done|]. exact (emits_trans [] _ _ _ _ _ _ _ He1 He2).
  - destruct (read_name_done rec [] ps rest d Hp (Forall_nil_2 _) Hb ltac:(done) Hi Hc) as (d' & Hd' & [? ? ? ? Hf]).
    exists d', false. split; [|split; try done; exact (frame_trans _ _ _ (with_no_member d) Hf)].
    destruct (path_mangled_cons ps Hb) as (x & t & Hm & Hx). rewrite Hm in Hc. cbn [read_again]. exec (peek_head x _ d Hc).
    assert (Hb0 : assoc x builtin_types = None ∧ assoc x qualifier_chars = None).
    { destruct Hx as [Hx| ->]; [|done]. split; by apply assoc_digit. }
    destruct Hb0 as [-> ->].
    assert (Hno : ∀ y, isdigit y = false → y ≠ "N"%char → is_char x y = false).
    { intros y Hy Hn. apply is_char_no. destruct Hx as [Hx| ->]; [by apply digit_neq|by intros <-]. }
    rewrite !Hno by done. by exec Hd'.
Qed.

Lemma read_again_done rec rounds qs b v rest d :
  plain d → roomy_quals v → TYPE_EXT ∉ qs → base_ok b → starts_with "I" rest = false → (length qs < rounds)%nat →
  cur d = Some ((map qualifier_char qs ++ base_mangled b) ++ rest) →
  ∃ v' d' builtin, read_again rec rounds v d = (Done (v', builtin), d')
    ∧ emits (map qualifier_char qs ++ base_mangled b) rest (base_pushed b) d d' ∧ items (q_container v') = items (q_container v) ++ qs.
Proof.
  revert rounds v d. induction qs as [|q qs IH]; intros rounds v d Hp Hv Hext Hb Hi Hr Hc; (destruct rounds as [|rounds]; [cbn in Hr; lia|]).
  - destruct (read_base_done rec rounds b v rest d Hp Hb Hi Hc) as (d' & builtin & Hd' & He).
    exists v, d', builtin. split; [done|]. split; [done|]. by rewrite app_nil_r.
  - apply not_elem_of_cons in Hext as [Hq Hext]. destruct (quals_push_done q v d Hv) as (v1 & Hv1 & Hi1 & Hr1).
    cbn [map app] in Hc. destruct (advance_done 1 [qualifier_char q] _ d Hp Hc eq_refl) as [Ha He1].
    destruct (IH rounds v1 _ (emits_plain _ _ _ _ _ He1) Hr1 Hext Hb Hi ltac:(cbn in Hr; lia) (emits_rest _ _ _ _ _ He1))
      as (v2 & d2 & builtin & Hd2 & He2 & Hi2).
    exists v2, d2, builtin. split; [|split].
    + cbn [read_again]. exec (peek_head _ _ d Hc).
      assert (Hq2 : assoc (qualifier_char q) builtin_types = None ∧ assoc (qualifier_char q) qualifier_chars = Some q) by by destruct q.
      destruct Hq2 as [-> ->]. exec Hv1. by exec Ha.
    + exact (emits_trans [qualifier_char q] _ _ _ _ _ _ _ He1 He2).
    + rewrite Hi2, Hi1, <- app_assoc. done.
Qed.

Lemma qualifier_text_ne q : q ≠ TYPE_EXT → qualifier_text q ≠ EmptyString.
Proof. by destruct q. Qed.

Lemma qualifier_loop_done qs e names v rest d :
  plain d → cur d = Some rest → TYPE_EXT ∉ qs → roomy v → concat (items v) ≠ [] →
  ∃ d', qualifier_loop qs e names (Some v) d = (Done tt, d') ∧ emits [] rest (map (λ q, str (qualifier_text q)) qs) d d'.
Proof.
  revert e v d. induction qs as [|q qs IH]; intros e v d Hp Hc Hext Hv Hne.
  { exists d. split; [done|]. split; try done. by rewrite app_nil_r. }
  apply not_elem_of_cons in Hext as [Hq Hext]. assert (Hq0 : q ≠ TYPE_EXT) by congruence.
  destruct (push_lit_done _ d rest Hp Hc (qualifier_text_ne q Hq0)) as (d1 & Hd1 & He1 & _).
  destruct (local_push_done (str (qualifier_text q)) v d1 Hv) as (r & Hr & Hi & Hroom).
  assert (Hne2 : concat (items (snd r)) ≠ []).
  { rewrite Hi. apply concat_snoc_ne. pose proof (qualifier_text_ne q Hq0). by destruct (qualifier_text q). }
  destruct (push_subst_v_done (snd r) d1 rest (emits_plain _ _ _ _ _ He1) (emits_rest _ _ _ _ _ He1) Hne2) as (d2 & Hd2 & He2).
  destruct (IH (if q is TYPE_EXT then e + 1 else e) (snd r) d2 (emits_plain _ _ _ _ _ He2) (emits_rest _ _ _ _ _ He2) Hext Hroom Hne2)
    as (d3 & Hd3 & He3).
  exists d3. split; [|exact (emits_trans [] [] _ _ _ _ _ _ (emits_then _ _ _ _ _ _ He1 He2) He3)].
  cbn [qualifier_loop].
  assert (Hpush : push_qualifier q e names (Some v) d = (Done (Some (snd r)), d2)).
  { unfold push_qualifier. destruct q; try done; exec Hd1; exec Hr; by exec Hd2. }
  by exec Hpush.
Qed.

Lemma push_type_qualifier_done v t rest d :
  plain d → cur d = Some rest → TYPE_EXT ∉ items (q_container v) → t ≠ [] →
  ∃ d', cpp_demangle_push_type_qualifier v (Some t) d = (Done tt, d') ∧ emits [] rest (quals_pushed (items (q_container v))) d d'.
Proof.
  intros Hp Hc Hext Ht. unfold cpp_demangle_push_type_qualifier. destruct (Z.eqb_spec (size (q_container v)) 0) as [Hz|Hz].
  - apply zlen_zero in Hz. rewrite Hz. exists d. split; [done|]. split; try done. by rewrite app_nil_r.
  - destruct (local_push_done t (Vec [] VECTOR_DEF_CAPACITY) d init_roomy) as (r & Hr & Hi & Hroom).
    destruct (qualifier_loop_done (rev (items (q_container v))) 0 (ext_name v) (snd r) rest d Hp Hc) as (d' & Hd' & He); [|done|..].
    + intros Hin. apply Hext. by apply list_elem_of_In, in_rev, list_elem_of_In.
    + rewrite Hi. by apply concat_snoc_ne.
    + exists d'. split; [|exact He].
      assert (Hinit : (vector_str_init ≫= λ i, local i (vector_str_push t (zlen t)) ≫= λ r, mret (Some (snd r))) d = (Done (Some (snd r)), d)).
      { exec (vector_init_done d). by exec Hr. }
      by exec Hinit.
Qed.

Lemma quals_init_done (d : dd) : vector_type_qualifier_init d = (Done (Quals (Vec [] VECTOR_DEF_CAPACITY) (Vec [] VECTOR_DEF_CAPACITY)), d).
Proof. unfold vector_type_qualifier_init. rewrite (act_done _ _ _ _ _ (malloc_done _ _)). by exec (vector_init_done d). Qed.

Lemma path_pushed_text ps : path_ok ps → concat (path_pushed ps) ≠ [].
Proof.
  intros (Hne & Hps & _). destruct ps as [|p ps]; [done|]. cbn. apply Forall_inv in Hps. destruct p; [done|]. by cbn.
Qed.

Lemma base_pushed_text b : base_ok b → concat (base_pushed b) ≠ [] ∧ base_pushed b ≠ [].
Proof.
  destruct b as [c s|ps]; cbn [base_ok base_pushed].
  - intros [Ha _]. split; [|done]. cbn. rewrite app_nil_r. destruct s; [|done]. clear -Ha. unfold builtin_types in Ha. cbn [assoc] in Ha.
    repeat (destruct (is_char c _) in Ha; [discriminate|]). discriminate.
  - intros Hps. pose proof (path_pushed_text ps Hps) as Hne. split; [done|]. by intros Hz; rewrite Hz in Hne.
Qed.

(** A type, after what comes before it. *)
Definition type_body (rec : call → act dd ()) (tmp : bool) : act dd () :=
  v ← vector_type_qualifier_init;
  p_idx ← output_size tmp;
  s ← cur_str;
  r ← read_again rec (S (length s)) v;
  type_str ← from_output tmp p_idx;
  (if snd r : bool then mret tt
   else d ← state; if vector_str_find (subst d) type_str (zlen type_str) then mret tt
                   else on_subst (vector_str_push type_str (zlen type_str)));;
  cpp_demangle_push_type_qualifier (fst r) (Some type_str);;
  after_type rec.

Lemma read_type_body rec delimit : cpp_demangle_read_type rec delimit = (before_type delimit ≫= type_body rec).
Proof. done. Qed.

Lemma type_body_done rec t rest d :
  plain d → type_ok t → starts_with "I" rest = false → cur d = Some (type_mangled t ++ rest) →
  ∃ d', type_body rec false d = (Done tt, d') ∧ emits (type_mangled t) rest (type_pushed t) d d'.
Proof.
  intros Hp [Hext Hb] Hi Hc. unfold type_body. exec (quals_init_done d). exec (output_size_done d).
  assert (Hs : cur_str d = (Done (type_mangled t ++ rest), d)) by (unfold cur_str; by rewrite Hc). exec Hs.
  destruct (read_again_done rec (S (length (type_mangled t ++ rest))) (t_quals t) (t_base t) (Quals (Vec [] VECTOR_DEF_CAPACITY) (Vec [] VECTOR_DEF_CAPACITY)) rest d Hp)
    as (v & d1 & builtin & Hd1 & He1 & Hv); [done|done|done|done| |exact Hc|].
  { unfold type_mangled. rewrite !length_app, length_map. lia. }
  exec Hd1. destruct (base_pushed_text _ Hb) as [Htext Hne]. pose proof (from_output_done d1 _ _ (emits_new _ _ _ _ _ He1) Hne) as Hf. exec Hf.
  set (text := concat (base_pushed (t_base t))) in *.
  assert (∃ d2, (if builtin then mret tt else d ← state; if vector_str_find (subst d) text (zlen text) then mret tt
     else on_subst (vector_str_push text (zlen text))) d1 = (Done tt, d2) ∧ emits [] rest [] d1 d2) as (d2 & Hd2 & He2).
  { destruct builtin.
    - exists d1. split; [done|]. destruct He1. split; try done; by rewrite app_nil_r.
    - destruct (push_subst_done text d1 rest (emits_plain _ _ _ _ _ He1) (emits_rest _ _ _ _ _ He1) Htext) as (d2 & Hd2 & He2).
      exists d2. split; [|done]. unfold cpp_demangle_push_subst in Hd2. rewrite bind_state in *. rewrite bind_require in Hd2; [exact Hd2|].
      apply negb_true_iff, Z.eqb_neq. by intros ?%zlen_zero. }
  cbn [snd]. exec Hd2. cbn [fst].
  destruct (push_type_qualifier_done v text rest d2 (emits_plain _ _ _ _ _ He2) (emits_rest _ _ _ _ _ He2)) as (d3 & Hd3 & He3); [by rewrite Hv|done|].
  exec Hd3. rewrite Hv in He3. exists d3. split.
  - unfold after_type. rewrite bind_state. by rewrite (proj1 (emits_plain _ _ _ _ _ He3)).
  - pose proof (emits_trans _ [] _ _ _ _ _ _ (emits_then _ _ _ _ _ _ He1 He2) He3) as He. by rewrite app_nil_r in He.
Qed.

(** ** Parameters *)

(** The last string that was pushed is not what closes the arguments of a template. *)
Definition open_end (l : list bytes) : Prop := l ≠ [] ∧ is_closing (default [] (last l)) = false.

Lemma open_end_app l k : open_end k → open_end (l ++ k).
Proof.
  intros [Hne Hk]. split; [by intros [_ ?]%app_eq_nil|]. rewrite last_app. by destruct (last k) eqn:He; [|apply last_None in He].
Qed.

Lemma identifier_open s : identifier s = true → is_closing s = false.
Proof.
  destruct s as [|c s]; [done|]. cbn [identifier forallb is_closing]. rewrite !andb_true_iff. intros [[_ [Hc _]] _].
  apply is_char_no. by intros ->.
Qed.

Lemma parts_open p ps : Forall (λ s, identifier s = true) (p :: ps) → open_end (parts_pushed p ps).
Proof.
  revert p. induction ps as [|q ps IH]; intros p [Hp Hps]%Forall_cons; [split; [done|by apply identifier_open]|].
  change (parts_pushed p (q :: ps)) with ([p; str "::"] ++ parts_pushed q ps). apply open_end_app. by apply IH.
Qed.

Lemma path_open ps : path_ok ps → open_end (path_pushed ps).
Proof. intros (Hne & Hps & _). destruct ps as [|p ps]; [done|]. by apply parts_open. Qed.

Lemma base_open b : base_ok b → open_end (base_pushed b).
Proof.
  destruct b as [c s|ps]; [|apply path_open]. intros [Ha _]. split; [done|]. cbn. unfold builtin_types in Ha. cbn [assoc] in Ha.
  repeat (destruct (is_char c _) in Ha; [by injection Ha as <-|]). done.
Qed.

Lemma type_open t : type_ok t → open_end (type_pushed t).
Proof.
  intros [Hext Hb]. unfold type_pushed, quals_pushed. destruct (rev (t_quals t)) as [|q qs] eqn:Hr using rev_ind.
  - cbn. rewrite app_nil_r. by apply base_open.
  - apply open_end_app. rewrite map_app. apply open_end_app. split; [done|]. cbn. by destruct q.
Qed.

(** Where the parameters are read: what has been printed so far, and whether a parameter
    has been. *)
Record between (started : bool) (rest : bytes) (d : dd) : Prop := {
  between_cur : cur d = Some rest;
  between_plain : plain d;
  between_open : open_end (items (output d));
  between_paren : paren d = started;
  between_pfirst : started = true → pfirst d = false }.

Definition same_members (d d' : dd) : Prop := mem_rst d' = mem_rst d ∧ mem_vat d' = mem_vat d ∧ mem_cst d' = mem_cst d.

Definition opening (started : bool) : bytes := if started then str ", " else str "(".

Lemma pop_subst_done d :
  roomy (subst d) → ∃ v, (if size (subst d) =? 1 then on_subst vector_str_pop else mret tt) d = (Done tt, set_subst v d) ∧ roomy v.
Proof.
  intros [Hs Hc]. destruct (Z.eqb_spec (size (subst d)) 1) as [Hone|_]; [|exists (subst d); by destruct d].
  exists (Vec (removelast (items (subst d))) (capacity (subst d))). split; [done|]. unfold size in *.
  destruct (items (subst d)) as [|x [|y l]] eqn:Hi; [done|..].
  - unfold roomy, size. cbn. split; [unfold zlen; cbn; lia|lia].
  - rewrite !zlen_cons in Hone. pose proof (zlen_nonneg l). lia.
Qed.

Lemma before_type_done started rest d :
  between started rest d → starts_with "I" rest = false →
  ∃ d', before_type true d = (Done false, d') ∧ cur d' = Some rest ∧ plain d' ∧ paren d' = true ∧ pfirst d' = false ∧ same_members d d'
    ∧ items (output d') = items (output d) ++ [opening started].
Proof.
  intros [Hc Hp [Hne Hopen] Hparen Hpf] Hi. unfold before_type. rewrite bind_state, Hopen, Hparen. destruct started.
  - rewrite bind_ret, bind_state, (Hpf eq_refl).
    destruct (push_lit_done ", " d rest Hp Hc ltac:(done)) as (d1 & Hd1 & [_ Hr Hn Hp1 (Hf1 & Hf2 & Hf3 & Hf4 & Hf5)] & _).
    assert (Hif : (c ← peek 0; if is_char c "I" then mret tt else push_lit ", ") d = (Done tt, d1)).
    { pose proof (peek_done 0 d rest Hc ltac:(lia)) as Hpeek. exec Hpeek. destruct rest as [|x rest]; cbn in *; [by rewrite is_char_no|by rewrite Hi]. }
    exec Hif. exists d1. rewrite Hn, Hf1, Hf2, Hparen, (Hpf eq_refl). split_and!; try done; by repeat split.
  - destruct (push_lit_done "(" d rest Hp Hc ltac:(done)) as (d1 & Hd1 & [_ Hr Hn Hp1 (Hf1 & Hf2 & Hf3 & Hf4 & Hf5)] & _).
    set (d2 := set_pfirst true (set_paren true d1)).
    destruct (pop_subst_done d2 (proj2 (proj2 Hp1))) as (v & Hv & Hroom).
    assert (Hstart : (push_lit "(";;
       d1 ← state;
       require (negb (size (output d1) <? 2));;
       change (λ d, set_pfirst true (set_paren true d));;
       d2 ← state;
       if size (subst d2) =? 1 then on_subst vector_str_pop else mret tt) d = (Done tt, set_subst v d2)).
    { exec Hd1. rewrite bind_state, bind_require; [rewrite bind_change, bind_state; exact Hv|].
      apply negb_true_iff, Z.ltb_ge. unfold size. rewrite Hn, zlen_app. change (zlen [str "("]) with 1.
      destruct (items (output d)) as [|x l]; [done|]. rewrite zlen_cons. pose proof (zlen_nonneg l). lia. }
    exec Hstart. rewrite bind_state. cbn [pfirst set_subst d2 set_pfirst set_paren]. rewrite bind_change.
    eexists. split; [reflexivity|]. split; [exact Hr|]. split; [split; [exact (proj1 Hp1)|split; [exact (proj1 (proj2 Hp1))|exact Hroom]]|].
    split; [done|]. split; [done|]. split; [by repeat split|]. exact Hn.
Qed.

Lemma read_param_done fuel started t rest d :
  between started (type_mangled t ++ rest) d → type_ok t → starts_with "I" rest = false →
  ∃ d', run (S fuel) (ReadType true) d = (Done tt, d') ∧ between true rest d' ∧ same_members d d'
    ∧ items (output d') = items (output d) ++ opening started :: type_pushed t.
Proof.
  intros Hb Ht Hi. destruct (before_type_done started _ d Hb) as (d1 & Hd1 & Hc1 & Hp1 & Hpar & Hpf & Hm & Hn).
  { destruct Ht as [_ Hbase]. unfold type_mangled. destruct (t_quals t) as [|q qs]; [|by destruct q].
    destruct (t_base t) as [c s|ps]; cbn.
    - destruct Hbase as [Ha _]. apply is_char_no. by intros ->.
    - destruct (path_mangled_cons ps Hbase) as (x & u & -> & Hx). apply is_char_no. destruct Hx as [Hx| ->]; [by apply digit_neq|done]. }
  destruct (type_body_done (run fuel) t rest d1 Hp1 Ht Hi Hc1) as (d2 & Hd2 & [_ Hr Hn2 Hp2 (Hf1 & Hf2 & Hf3 & Hf4 & Hf5)]).
  exists d2. split; [|split; [|split]].
  - cbn [run step]. rewrite read_type_body. by exec Hd1.
  - split; [done|done| |by rewrite Hf1|by rewrite Hf2]. rewrite Hn2. apply open_end_app. by apply type_open.
  - destruct Hm as (?&?&?). repeat split; congruence.
  - rewrite Hn2, Hn, <- app_assoc. done.
Qed.

(** What is pushed for the parameters. *)
Fixpoint params_pushed (started : bool) (ts : list type) : list bytes :=
  match ts with [] => [] | t :: ts' => opening started :: type_pushed t ++ params_pushed true ts' end.

Definition params_mangled (ts : list type) : bytes := concat (map type_mangled ts).

Lemma type_mangled_cons t : type_ok t → ∃ x u, type_mangled t = x :: u ∧ x ≠ "I"%char ∧ x ≠ NUL ∧ x ≠ "@"%char.
Proof.
  intros [_ Hb]. unfold type_mangled. destruct (t_quals t) as [|q qs]; [|by destruct q; eexists _, _].
  destruct (t_base t) as [c s|ps]; cbn.
  - destruct Hb as [Ha _]. exists c, []. split; [done|]. repeat split; by intros ->.
  - destruct (path_mangled_cons ps Hb) as (x & u & -> & Hx). exists x, u. split; [done|].
    destruct Hx as [Hx| ->]; [repeat split; by apply digit_neq|done].
Qed.

Lemma params_head ts : Forall type_ok ts → starts_with "I" (params_mangled ts) = false.
Proof.
  intros Hts. destruct Hts as [|t ts Ht _]; [done|]. destruct (type_mangled_cons t Ht) as (x & u & Hx & Hn & _).
  unfold params_mangled. cbn. rewrite Hx. cbn. by apply is_char_no.
Qed.

Lemma rest_loop_done fuel rounds started ts d :
  between started (params_mangled ts) d → Forall type_ok ts → (length ts ≤ rounds)%nat →
  ∃ d', rest_loop rounds (S fuel) d = (Done tt, d') ∧ plain d' ∧ same_members d d' ∧ paren d' = started || bool_decide (ts ≠ [])
    ∧ items (output d') = items (output d) ++ params_pushed started ts.
Proof.
  revert rounds started d. induction ts as [|t ts IH]; intros rounds started d Hb Hts Hr.
  - exists d. pose proof (between_cur _ _ _ Hb) as Hc. pose proof (peek_done 0 d _ Hc ltac:(cbn; lia)) as Hp.
    split; [|split; [exact (between_plain _ _ _ Hb)|]; split; [by repeat split|split; [by rewrite (between_paren _ _ _ Hb), orb_false_r|by rewrite app_nil_r]]].
    destruct rounds; cbn [rest_loop]; by exec Hp.
  - apply Forall_cons in Hts as [Ht Hts]. destruct rounds as [|rounds]; [cbn in Hr; lia|].
    unfold params_mangled in Hb. cbn [map concat] in Hb. fold (params_mangled ts) in Hb.
    destruct (type_mangled_cons t Ht) as (x & u & Hx & _ & Hnul & Hat).
    destruct (read_param_done fuel started t _ d Hb Ht (params_head ts Hts)) as (d1 & Hd1 & Hb1 & Hm1 & Hn1).
    destruct (IH rounds true d1 Hb1 Hts ltac:(cbn in Hr; lia)) as (d2 & Hd2 & Hpl2 & Hm2 & Hp2 & Hn2).
    exists d2. split; [|split; [done|split; [|split]]].
    + pose proof (between_cur _ _ _ Hb) as Hc. rewrite Hx in Hc. cbn [rest_loop]. exec (peek_head _ _ d Hc).
      rewrite (is_char_no x NUL), (is_char_no x "@") by done. rewrite bind_ret. cbn [andb]. exec Hd1. exact Hd2.
    + destruct Hm1 as (?&?&?), Hm2 as (?&?&?). repeat split; congruence.
    + by rewrite Hp2, (bool_decide_eq_true_2 (t :: ts ≠ [])), orb_true_r by done.
    + rewrite Hn2, Hn1, <- app_assoc. done.
Qed.

(** ** Functions *)

(** A function, or a variable where there are no parameters, in the terms of the
    demangler. *)
Record function := Function { f_members : bytes; f_path : list bytes; f_params : list type }.

Definition function_ok (f : function) : Prop :=
  Forall (λ c, member_char c = true) (f_members f) ∧ path_ok (f_path f) ∧ (length (f_path f) = 1%nat → f_members f = [])
  ∧ Forall type_ok (f_params f) ∧ (length (f_params f) ≤ ROUNDS)%nat.

Definition function_mangled (f : function) : bytes :=
  str "_Z" ++ path_mangled (f_members f) (f_path f) ++ params_mangled (f_params f).

(** What is printed for it. *)
Fixpoint joined (sep : bytes) (l : list bytes) : bytes :=
  match l with [] => [] | [x] => x | x :: l' => x ++ sep ++ joined sep l' end.

Definition base_text (b : base_type) : bytes := match b with Builtin _ s => str s | Class_ ps => joined (str "::") ps end.
Definition type_text (t : type) : bytes := base_text (t_base t) ++ concat (quals_pushed (t_quals t)).

Definition member_text (c : ascii) (s : string) (members : bytes) : bytes := if existsb (is_char c) members then str s else [].

Definition function_text (f : function) : bytes :=
  joined (str "::") (f_path f)
  ++ (if decide (f_params f = []) then [] else str "(" ++ joined (str ", ") (map type_text (f_params f)) ++ str ")")
  ++ member_text "V" " volatile" (f_members f) ++ member_text "K" " const" (f_members f) ++ member_text "r" " restrict" (f_members f).

Lemma path_text ps : concat (path_pushed ps) = joined (str "::") ps.
Proof.
  destruct ps as [|p ps]; [done|]. revert p. induction ps as [|q ps IH]; intros p; [cbn; by rewrite app_nil_r|].
  change (concat (path_pushed (p :: q :: ps))) with (p ++ str "::" ++ concat (path_pushed (q :: ps))). by rewrite IH.
Qed.

Lemma type_pushed_text t : concat (type_pushed t) = type_text t.
Proof.
  unfold type_pushed, type_text. rewrite concat_app. f_equal. destruct (t_base t) as [c s|ps]; cbn; [apply app_nil_r|apply path_text].
Qed.

Lemma params_pushed_text ts started :
  ts ≠ [] → concat (params_pushed started ts) = opening started ++ joined (str ", ") (map type_text ts).
Proof.
  revert started. induction ts as [|t ts IH]; intros started Hne; [done|]. cbn [params_pushed concat]. rewrite concat_app, type_pushed_text.
  destruct ts as [|t2 ts]; [cbn; by rewrite app_nil_r|]. rewrite IH by done. done.
Qed.

Lemma read_encoding_name rec qs ps rest d :
  path_ok ps → Forall (λ c, member_char c = true) qs → (length ps = 1%nat → qs = []) → cur d = Some (path_mangled qs ps ++ rest) →
  cpp_demangle_read_encoding rec d = cpp_demangle_read_name rec d.
Proof.
  intros Hps Hqs Hone Hc.
  assert (∃ x y u, path_mangled qs ps ++ rest = x :: y :: u ∧ x ≠ NUL ∧
    forallb (λ l, negb (SIMPLE_HASH x y =? hash_of l)) ["GV"; "Tc"; "TD"; "Th"; "TI"; "TS"; "TT"; "Tv"; "TV"]%string = true)
    as (x & y & u & Hxy & Hnul & Hlow).
  { assert (Hdigit : ∀ x y, isdigit x = true → forallb (λ l, negb (SIMPLE_HASH x y =? hash_of l)) ["GV"; "Tc"; "TD"; "Th"; "TI"; "TS"; "TT"; "Tv"; "TV"]%string = true).
    { intros x y Hx. pose proof (digit_hash x y Hx). apply forallb_forall. intros l Hl. apply negb_true_iff, Z.eqb_neq.
      enough (4000 ≤ hash_of l) by lia. cbn in Hl. repeat destruct Hl as [<-|Hl]; by vm_compute. }
    destruct Hps as (Hne & Hids & _). destruct ps as [|p [|q ps]]; [done|..].
    - destruct (source_name_cons p) as (x & u & Hsn & Hx). cbn [path_mangled]. rewrite Hsn. apply Forall_inv, identifier_ne in Hids.
      destruct u as [|y u]; [|exists x, y, (u ++ rest); split; [done|]; split; [by apply digit_neq|by apply Hdigit]].
      unfold source_name in Hsn. destruct (dec_cons (zlen p) (zlen_nonneg p)) as (z & v & Hz & _). rewrite Hz in Hsn.
      apply (f_equal length) in Hsn. rewrite length_app in Hsn. destruct p; [done|cbn in Hsn; lia].
    - cbn [path_mangled]. unfold nested_mangled. cbn [app]. destruct Hqs as [|y qs Hy Hqs].
      + destruct (source_name_cons p) as (y & u & Hsn & Hy). unfold parts_mangled. cbn [map concat]. rewrite Hsn. cbn [app].
        eexists _, y, _. split; [reflexivity|]. split; [done|]. apply isdigit_range in Hy. apply forallb_forall. intros l Hl.
        apply negb_true_iff, Z.eqb_neq. unfold SIMPLE_HASH. change (char_val "N") with 78. unfold char_val.
        destruct (Z.ltb_spec (byte_val y) 128); [|lia]. cbn in Hl. repeat destruct Hl as [<-|Hl]; try done; vm_compute hash_of; lia.
      + cbn [app]. eexists _, y, _. split; [reflexivity|]. split; [done|]. unfold member_char in Hy. rewrite !orb_true_iff in Hy.
        destruct Hy as [[Hy|Hy]|Hy]; apply bool_decide_eq_true_1 in Hy as ->; done. }
  rewrite Hxy in Hc. unfold cpp_demangle_read_encoding. exec (next_char_done d x _ Hc Hnul).
  pose proof (peek_done 1 d _ Hc ltac:(cbn; lia)) as Hp. exec Hp. cbn [lookup list_lookup default]. unfold id.
  cbn [forallb] in Hlow. rewrite !andb_true_iff, !negb_true_iff in Hlow. destruct Hlow as (H1&H2&H3&H4&H5&H6&H7&H8&H9&_).
  cbv zeta. by rewrite H1, H2, H3, H4, H5, H6, H7, H8, H9.
Qed.

Lemma push_output_done s d :
  roomy (output d) →
  ∃ v, push_output s d = (Done tt, set_output v d) ∧ roomy v ∧ items v = items (output d) ++ [str s].
Proof.
  intros Hv. unfold push_output, on_output, on. destruct (push_done (str s) (zlen (str s)) (output d) Hv) as (v & Hd & Hi & Hr).
  exists v. rewrite Hd. split; [done|]. split; [done|]. by rewrite clip_all in Hi.
Qed.

Lemma push_output_when (b : bool) s d :
  roomy (output d) →
  ∃ v, (if b then push_output s else mret tt) d = (Done tt, set_output v d) ∧ roomy v
    ∧ concat (items v) = concat (items (output d)) ++ (if b then str s else []).
Proof.
  intros Hv. destruct b.
  - destruct (push_output_done s d Hv) as (v & Hd & Hr & Hi). exists v. split; [done|]. split; [done|].
    rewrite Hi, concat_app. cbn. by rewrite app_nil_r.
  - exists (output d). split; [by destruct d|]. by rewrite app_nil_r.
Qed.

Lemma get_flat_done {S} v (s : S) : concat (items v) ≠ [] → vector_str_get_flat v s = (Done (concat (items v)), s).
Proof.
  intros Hne. unfold vector_str_get_flat, get_strlen_sum.
  assert (Hsum : foldr (λ s n, zlen s + n) 0 (items v) = zlen (concat (items v))).
  { clear. induction (items v) as [|x l IH]; [done|]. cbn. by rewrite zlen_app, IH. }
  assert (Hsize : 0 < size v).
  { unfold size. destruct (items v) as [|x l]; [done|]. rewrite zlen_cons. pose proof (zlen_nonneg l). lia. }
  assert (Hpos : zlen (concat (items v)) ≠ 0) by (by intros ?%zlen_zero).
  assert (Hz : (size v =? 0) = false) by (apply Z.eqb_neq; lia).
  unfold mbind, act_bind, require, asserts, mret, act_ret. rewrite Hz, (proj2 (Z.ltb_lt _ _) Hsize), Hsum, (proj2 (Z.eqb_neq _ _) Hpos).
  cbn [negb]. by rewrite malloc_done.
Qed.

Lemma data_init_done {S} org (s : S) : cpp_demangle_data_init org s = (Done (data_init org), s).
Proof. unfold cpp_demangle_data_init, mbind, act_bind. by rewrite !malloc_done. Qed.

(** The name itself, up to the parameters. *)
Lemma read_function_name fuel f :
  function_ok f →
  ∃ d, run (S fuel) ReadEncoding (data_init (path_mangled (f_members f) (f_path f) ++ params_mangled (f_params f))) = (Done tt, d)
    ∧ between false (params_mangled (f_params f)) d ∧ items (output d) = path_pushed (f_path f)
    ∧ mem_rst d = existsb (is_char "r") (f_members f) ∧ mem_vat d = existsb (is_char "V") (f_members f)
    ∧ mem_cst d = existsb (is_char "K") (f_members f).
Proof.
  intros (Hm & Hpath & Hone & Hts & _). set (d0 := data_init _). assert (Hp : plain d0) by done.
  destruct (read_name_done (run fuel) _ _ _ d0 Hp Hm Hpath Hone (params_head _ Hts) eq_refl) as (d & Hd & [_ Hr Hn Hp1 (Hf1 & Hf2 & Hf3 & Hf4 & Hf5)]).
  exists d. split; [cbn [run step]; by rewrite (read_encoding_name _ _ _ _ d0 Hpath Hm Hone eq_refl)|].
  split; [|by repeat split]. cbn [items output with_member set_mem d0 data_init app] in Hn.
  split; [done|done| |done|done]. rewrite Hn. by apply path_open.
Qed.

Lemma read_mangled_done fuel f :
  function_ok f →
  ∃ d, read_mangled (S fuel) (data_init (path_mangled (f_members f) (f_path f) ++ params_mangled (f_params f))) = (Done (function_text f), d).
Proof.
  intros Hok. destruct (read_function_name fuel f Hok) as (d1 & Hd1 & Hb & Hn1 & Hr & Hv & Hk). destruct Hok as (_ & Hpath & _ & Hts & Hlen).
  unfold read_mangled. exec Hd1.
  destruct (rest_loop_done fuel ROUNDS false _ d1 Hb Hts Hlen) as (d2 & Hd2 & (_ & Hroom & _) & (Hm1 & Hm2 & Hm3) & Hp2 & Hn2).
  exec Hd2. rewrite bind_state. pose proof (path_pushed_text _ Hpath) as Hne. rewrite Hn1 in Hn2.
  rewrite bind_require.
  2: { apply negb_true_iff, Z.eqb_neq. unfold size. rewrite Hn2. intros Hz%zlen_zero. apply app_eq_nil in Hz as [Hz _]. by rewrite Hz in Hne. }
  destruct (push_output_when (paren d2) ")" d2 Hroom) as (v1 & Hv1 & Hr1 & Hc1). exec Hv1.
  destruct (push_output_when (mem_vat d2) " volatile" (set_output v1 d2) Hr1) as (v2 & Hv2 & Hr2 & Hc2). exec Hv2.
  destruct (push_output_when (mem_cst d2) " const" (set_output v2 (set_output v1 d2)) Hr2) as (v3 & Hv3 & Hr3 & Hc3). exec Hv3.
  destruct (push_output_when (mem_rst d2) " restrict" (set_output v3 (set_output v2 (set_output v1 d2))) Hr3) as (v4 & Hv4 & Hr4 & Hc4). exec Hv4.
  cbn [output set_output] in *. rewrite bind_state. cbn [output set_output].
  assert (Htext : concat (items v4) = function_text f).
  { rewrite Hc4, Hc3, Hc2, Hc1, Hn2, concat_app, path_text, Hm1, Hm2, Hm3, Hr, Hv, Hk, Hp2. unfold function_text, member_text.
    cbn [orb]. rewrite <- !app_assoc. f_equal. destruct (decide (f_params f = [])) as [Hz|Hz].
    - rewrite Hz. done.
    - rewrite bool_decide_eq_true_2, params_pushed_text by done. cbn [opening]. by rewrite <- !app_assoc. }
  eexists. rewrite <- Htext. apply get_flat_done. rewrite Htext. unfold function_text. rewrite <- path_text.
  by intros [? _]%app_eq_nil.
Qed.

Lemma gnu3_function fuel f :
  function_ok f → cxa_demangle_gnu3 (S fuel) (function_mangled f) = Done (Some (function_text f)).
Proof.
  intros Hok. destruct (read_mangled_done fuel f Hok) as (d & Hd). unfold cxa_demangle_gnu3, function_mangled.
  set (rest := path_mangled _ _ ++ _) in *. change (str "_Z" ++ rest) with ("_"%char :: "Z"%char :: rest).
  assert (Hlen : (zlen ("_"%char :: "Z"%char :: rest) <? 2) = false).
  { apply Z.ltb_ge. rewrite !zlen_cons. pose proof (zlen_nonneg rest). lia. }
  assert (Hz : is_prefix (str "_Z") ("_"%char :: "Z"%char :: rest) = true) by (apply bool_decide_eq_true_2; by exists rest).
  assert (Hg : is_prefix (str "_GLOBAL__I_") ("_"%char :: "Z"%char :: rest) = false).
  { apply bool_decide_eq_false_2. intros [k Hk]. discriminate. }
  rewrite Hlen, Hz, Hg, andb_false_r. cbn [negb orb]. change (drop 2 ("_"%char :: "Z"%char :: rest)) with rest.
  assert (Hl : (local (data_init rest) (read_mangled (S fuel)) : act () _) tt = (Done (function_text f, d), tt)) by (unfold local; by rewrite Hd).
  rewrite (act_done _ _ _ _ _ (data_init_done rest tt)). by exec Hl.
Qed.

(** ** What a name stands for

    Functions as C++ and the ABI have them, apart from the tables of the demangler. *)

(** The builtin types whose names the demangler prints: all that it reads but
    [wchar_t], [unsigned __int128] and the ellipsis. *)
Inductive builtin :=
  | Void_ | Bool_ | Char_ | SignedChar | UnsignedChar | Short | UnsignedShort | Int_ | UnsignedInt | Long
  | UnsignedLong | LongLong | UnsignedLongLong | Int128 | Float_ | Double_ | LongDouble | Float128.

(** The letter the ABI gives a builtin type. *)
Definition builtin_letter (b : builtin) : ascii :=
  match b with
  | Void_ => "v" | Bool_ => "b" | Char_ => "c" | SignedChar => "a" | UnsignedChar => "h" | Short => "s"
  | UnsignedShort => "t" | Int_ => "i" | UnsignedInt => "j" | Long => "l" | UnsignedLong => "m" | LongLong => "x"
  | UnsignedLongLong => "y" | Int128 => "n" | Float_ => "f" | Double_ => "d" | LongDouble => "e" | Float128 => "g"
  end.

(** How C++ writes it. *)
Definition builtin_name (b : builtin) : string :=
  match b with
  | Void_ => "void" | Bool_ => "bool" | Char_ => "char" | SignedChar => "signed char" | UnsignedChar => "unsigned char"
  | Short => "short" | UnsignedShort => "unsigned short" | Int_ => "int" | UnsignedInt => "unsigned int" | Long => "long"
  | UnsignedLong => "unsigned long" | LongLong => "long long" | UnsignedLongLong => "unsigned long long"
  | Int128 => "__int128" | Float_ => "float" | Double_ => "double" | LongDouble => "long double" | Float128 => "__float128"
  end.

(** Pointers, references and qualifiers, with their letters and what follows the type
    they are applied to. *)
Inductive qualifier := Pointer | Reference | Const | Volatile | Restrict | Complex | Imaginary.

Definition qualifier_letter (q : qualifier) : ascii :=
  match q with
  | Pointer => "P" | Reference => "R" | Const => "K" | Volatile => "V" | Restrict => "r" | Complex => "C" | Imaginary => "G"
  end.

Definition qualifier_suffix (q : qualifier) : string :=
  match q with
  | Pointer => "*" | Reference => "&" | Const => " const" | Volatile => " volatile" | Restrict => " restrict"
  | Complex => " complex" | Imaginary => " imaginary"
  end.

(** A type, what is applied last first. *)
Inductive cpp_base := Basic (b : builtin) | Class_of (path : list bytes).
Record cpp_type := CppType { ct_quals : list qualifier; ct_base : cpp_base }.

(** The qualifiers of a member function, its namespaces and classes with its name, and
    its parameters; without parameters it is a variable. *)
Record signature := Signature { sig_members : bytes; sig_path : list bytes; sig_params : list cpp_type }.

Definition cpp_mangled (t : cpp_type) : bytes :=
  map qualifier_letter (ct_quals t)
  ++ match ct_base t with Basic b => [builtin_letter b] | Class_of ps => path_mangled [] ps end.

Definition cpp_text (t : cpp_type) : bytes :=
  match ct_base t with Basic b => str (builtin_name b) | Class_of ps => joined (str "::") ps end
  ++ concat (map (λ q, str (qualifier_suffix q)) (rev (ct_quals t))).

Definition signature_mangled (g : signature) : bytes :=
  str "_Z" ++ path_mangled (sig_members g) (sig_path g) ++ concat (map cpp_mangled (sig_params g)).

Definition signature_text (g : signature) : bytes :=
  joined (str "::") (sig_path g)
  ++ (if decide (sig_params g = []) then [] else str "(" ++ joined (str ", ") (map cpp_text (sig_params g)) ++ str ")")
  ++ member_text "V" " volatile" (sig_members g) ++ member_text "K" " const" (sig_members g)
  ++ member_text "r" " restrict" (sig_members g).

(** Names are identifiers, and there are not more of them, or of the parameters, than the
    demangler reads. *)
Definition cpp_ok (t : cpp_type) : Prop := match ct_base t with Basic _ => True | Class_of ps => path_ok ps end.
Definition signature_ok (g : signature) : Prop :=
  Forall (λ c, member_char c = true) (sig_members g) ∧ path_ok (sig_path g)
  ∧ (length (sig_path g) = 1%nat → sig_members g = [])
  ∧ Forall cpp_ok (sig_params g) ∧ (length (sig_params g) ≤ ROUNDS)%nat.

(** The same in the terms of the demangler. *)
Definition to_qualifier (q : qualifier) : type_qualifier :=
  match q with
  | Pointer => TYPE_PTR | Reference => TYPE_REF | Const => TYPE_CST | Volatile => TYPE_VAT | Restrict => TYPE_RST
  | Complex => TYPE_CMX | Imaginary => TYPE_IMG
  end.
Definition to_type (t : cpp_type) : type :=
  Type_ (map to_qualifier (ct_quals t))
    match ct_base t with Basic b => Builtin (builtin_letter b) (builtin_name b) | Class_of ps => Class_ ps end.
Definition to_function (g : signature) : function := Function (sig_members g) (sig_path g) (map to_type (sig_params g)).

Lemma to_type_ok t : cpp_ok t → type_ok (to_type t).
Proof.
  intros Ht. split.
  - cbn. intros (q & Hq & _)%list_elem_of_fmap. by destruct q.
  - destruct t as [qs [b|ps]]; cbn in *; [|done]. by destruct b.
Qed.

Lemma to_type_mangled t : type_mangled (to_type t) = cpp_mangled t.
Proof.
  unfold type_mangled, cpp_mangled, to_type. cbn [t_quals t_base]. rewrite map_map. f_equal.
  - apply map_ext. by intros [].
  - by destruct (ct_base t).
Qed.

Lemma to_type_text t : type_text (to_type t) = cpp_text t.
Proof.
  unfold type_text, cpp_text, to_type, quals_pushed. cbn [t_quals t_base]. f_equal; [by destruct (ct_base t)|].
  rewrite <- map_rev, map_map. f_equal. apply map_ext. by intros [].
Qed.

Lemma to_function_ok g : signature_ok g → function_ok (to_function g).
Proof.
  intros (Hm & Hp & H1 & Hts & Hl). split; [done|]. split; [done|]. split; [done|]. cbn. rewrite length_map.
  split; [|done]. apply Forall_map. eapply Forall_impl; [exact Hts|exact to_type_ok].
Qed.

Lemma to_function_mangled g : function_mangled (to_function g) = signature_mangled g.
Proof.
  unfold function_mangled, signature_mangled, params_mangled. cbn.
  by rewrite map_map, (map_ext _ _ to_type_mangled).
Qed.

Lemma to_function_text g : function_text (to_function g) = signature_text g.
Proof.
  unfold function_text, signature_text. cbn. f_equal. f_equal. rewrite map_map, (map_ext _ _ to_type_text).
  by destruct (sig_params g).
Qed.

(** C24: reading a name gives the function that it was made from: its namespaces and
    classes, its parameters with their pointers, references and qualifiers, and the
    qualifiers of a member, as the letters of the ABI and the words of C++ have them.
    The name is written without abbreviations and its types are classes or builtin
    ones other than [wchar_t], [unsigned __int128] and the ellipsis, which are printed
    wrong; it has at most 130 names in a path and 129 parameters; and what memory is
    asked for is there. *)
Theorem demangle_function fuel g n status :
  signature_ok g →
  cxa_demangle (S fuel) (signature_mangled g) n status
  = Done (Demangled (Some (signature_text g)) (if n then Some (zlen (signature_text g)) else None) (if status then Some 0 else None)).
Proof.
  intros Hok%to_function_ok. unfold cxa_demangle.
  by rewrite <- to_function_mangled, <- to_function_text, gnu3_function, all_granted.
Qed.

End names.

(** ** Names that are demangled otherwise than they were written *)

Section faults.
Context `{FpPrinter}.

(** All that is asked for here is small. *)
#[local] Instance ample : Heap := λ n, n <? 2 ^ 32.

Definition demangles (mangled result : string) : Prop := cxa_demangle_gnu3 100 (str mangled) = Done (Some (str result)).
Definition rejects (mangled : string) : Prop := cxa_demangle_gnu3 100 (str mangled) = Done None.

(** Names of which another text is printed than what they stand for: [wchar_t],
    [unsigned __int128] and the ellipsis; a literal, whose ["E"] is printed, and a truth value, which is
    not read to its end; a parameter behind one of a template class, which is taken for
    what the function returns; a class whose name starts the name of another, which is
    not remembered, so that the third class stands for it; the name of a stream; and what is no name of a
    type, of which the first letter is read. *)
Theorem demangle_misprints :
  demangles "_Z1fw" "f(wchar_)" ∧ demangles "_Z1fo" "f(unsigned _;int128)" ∧ demangles "_Z1fz" "f(ellipsis)"
  ∧ demangles "_Z1fILi5EEvv" "void f<5E>(void)" ∧ demangles "_Z1fILb1EEvv" "void f<true, E>(void)"
  ∧ demangles "_Z1f1AIiE1B" "B f(A<int>()"
  ∧ demangles "_Z1f6foobar3foo3barS0_" "f(foobar, foo, bar, bar)"
  ∧ demangles "_ZNSoC1Ev" "std::ostream::istream(void)" ∧ demangles "main" "unsigned long".
Proof. repeat split; vm_compute; reflexivity. Qed.

(** Names that are refused: a virtual thunk, an expression and a floating-point number as
    arguments of a template, and the qualifier of a vendor. *)
Theorem demangle_refuses :
  rejects "_ZTv0_n12_N1A1fEv" ∧ rejects "_Z1fIXadL_Z1gvEEEvv" ∧ rejects "_Z1fILd3ff0000000000000EEvv" ∧ rejects "_Z1fU3farPc".
Proof. repeat split; vm_compute; reflexivity. Qed.

(** Names that are not names, and one that is: a number without its end, an offset without
    its end, a stream with arguments, a constructor of a class that was read apart, a
    negative number, and what is no name of a type, for which a pointer is returned that
    was never set, as it is for the constructors of a file. *)
Theorem demangle_breaks :
  cxa_demangle_gnu3 100 (str "_Z1fS5") = Broken BufferOverread ∧ cxa_demangle_gnu3 100 (str "_ZTh5") = Broken BufferOverread
  ∧ cxa_demangle_gnu3 100 (str "_Z1fSdIcE") = Broken BufferOverread
  ∧ cxa_demangle_gnu3 100 (str "_Z1fM1ANC1E") = Broken DanglingReference
  ∧ cxa_demangle_gnu3 100 (str "_Z1fS-5_") = Asserted
  ∧ cxa_demangle_gnu3 100 (str "_start") = Broken UninitRead ∧ cxa_demangle_gnu3 100 (str "_GLOBAL__I_main") = Broken UninitRead.
Proof. repeat split; vm_compute; reflexivity. Qed.
End faults.

(** ** Witnesses *)

Section witnesses.
#[local] Instance all_memory : Heap := λ _, true.
#[local] Instance no_fp : FpPrinter := {| sizeof_long_double := 16; fp_text := λ _ _, [] |}.

Definition foo_bar : signature :=
  Signature (str "K") [str "foo"; str "bar"]
    [CppType [Pointer; Const] (Basic Char_); CppType [Reference] (Class_of [str "foo"; str "baz"]); CppType [] (Basic Int_)].

Lemma demangle_function_witness :
  cxa_demangle 2 (str "_ZNK3foo3barEPKcRN3foo3bazEi") true true
  = Done (Demangled (Some (str "foo::bar(char const*, foo::baz&, int) const")) (Some 43) (Some 0)).
Proof.
  change (cxa_demangle 2 (signature_mangled foo_bar) true true
    = Done (Demangled (Some (signature_text foo_bar)) (Some (zlen (signature_text foo_bar))) (Some 0))).
  apply (demangle_function (λ _, eq_refl) 1 foo_bar true true).
  assert (Hok : ∀ ps, ps ≠ [] → forallb identifier ps = true → (length ps ≤ 130)%nat → path_ok ps).
  { intros ps Hne Hids Hlen. split; [done|]. split; [|exact Hlen]. apply Forall_forall. intros s Hs.
    apply (proj1 (forallb_forall _ _) Hids), list_elem_of_In, Hs. }
  split; [by repeat constructor|]. split; [apply Hok; [done|reflexivity|cbn; lia]|]. split; [done|]. split; [|cbn; unfold ROUNDS, CPP_DEMANGLE_TRY_LIMIT; lia].
  repeat constructor; try discriminate. all: try (apply Hok; [done|reflexivity|cbn; lia]).
Defined.
End witnesses.
