(* ===== verification/MsgBuf.v ===== *)
(** * MsgBuf: the message buffer of [msg_buf.hpp]

    One [MsgBuf] is filled and read again for every message of a filter, so the
    model keeps the whole array: what a short store leaves behind is what the
    code would leave behind. *)

From S2P Require Import Prelude.

Definition MAX_MSG_SIZE : Z := 4096.

(** [struct msg_buf]: [buf] is the array of [MAX_MSG_SIZE] characters. *)
Record MsgBuf := mkMsgBuf { mtype : Z; buf : bytes; len : Z }.

Definition set_mtype (t : Z) (m : MsgBuf) : MsgBuf := mkMsgBuf t (buf m) (len m).
Definition set_buf (b : bytes) (m : MsgBuf) : MsgBuf := mkMsgBuf (mtype m) b (len m).
Definition set_len (n : Z) (m : MsgBuf) : MsgBuf := mkMsgBuf (mtype m) (buf m) n.

(** The array always has its declared size; [len] is a [size_t]. *)
Definition wf_MsgBuf (m : MsgBuf) : Prop :=
  zlen (buf m) = MAX_MSG_SIZE ∧ 0 ≤ len m < 2 ^ 64.

(** Copying [data] to the front of the array, or past its end. *)
Definition store (data : bytes) (m : MsgBuf) : outcome MsgBuf :=
  if decide (MAX_MSG_SIZE < zlen data) then Undef BufferOverflow
  else Ret (set_buf (data ++ drop (length data) (buf m)) m).

(** The characters [(msg.buf, msg.len)] an output operation reads. *)
Definition load (m : MsgBuf) : outcome bytes :=
  if decide (MAX_MSG_SIZE < len m) then Undef BufferOverread
  else Ret (take (Z.to_nat (len m)) (buf m)).

(** A buffer that holds the message [data]. *)
Definition holds (m : MsgBuf) (data : bytes) : Prop :=
  wf_MsgBuf m ∧ load m = Ret data ∧ len m = zlen data.

(** A buffer with given contents, as the code builds one from a string. *)
Definition msg_of (data : bytes) : MsgBuf :=
  mkMsgBuf 0 (data ++ replicate (4096 - length data) NUL) (zlen data).

Lemma wf_set_len m n : wf_MsgBuf m → 0 ≤ n < 2 ^ 64 → wf_MsgBuf (set_len n m).
Proof. intros [??] ?. split; cbn; auto. Qed.

Lemma wf_set_mtype m t : wf_MsgBuf m → wf_MsgBuf (set_mtype t m).
Proof. intros [??]. split; cbn; auto. Qed.

Lemma store_wf data m m' : wf_MsgBuf m → store data m = Ret m' → wf_MsgBuf m'.
Proof.
  intros [Hb Hl]. unfold store. case_decide; [done|]. intros [= <-].
  split; cbn; [|done]. unfold zlen in *. rewrite length_app, length_drop.
  unfold MAX_MSG_SIZE in *. lia.
Qed.

Lemma store_small data m :
  zlen data ≤ MAX_MSG_SIZE →
  store data m = Ret (set_buf (data ++ drop (length data) (buf m)) m).
Proof. intros. unfold store. now rewrite decide_False by lia. Qed.

Lemma store_big data m :
  MAX_MSG_SIZE < zlen data → store data m = Undef BufferOverflow.
Proof. intros. unfold store. now rewrite decide_True. Qed.

(** Storing a message and setting its length makes the buffer hold it; a longer
    store (a terminating NUL) does not matter. *)
Lemma holds_store data extra m m' :
  wf_MsgBuf m → store (data ++ extra) m = Ret m' →
  holds (set_len (zlen data) m') data.
Proof.
  intros Hwf Hs. pose proof (store_wf _ _ _ Hwf Hs) as Hwf'.
  unfold store in Hs. case_decide as Hd; [done|]. injection Hs as <-.
  rewrite zlen_app in Hd. pose proof (zlen_nonneg data). pose proof (zlen_nonneg extra).
  unfold MAX_MSG_SIZE in *.
  split; [apply wf_set_len; [done|lia]|]. split; [|done].
  unfold load, MAX_MSG_SIZE. cbn. rewrite decide_False by lia.
  now rewrite <- !app_assoc, take_zlen_app.
Qed.

Lemma holds_load m data : holds m data → load m = Ret data.
Proof. now intros (_ & ? & _). Qed.

Lemma holds_len m data : holds m data → len m = zlen data.
Proof. now intros (_ & _ & ?). Qed.

Lemma holds_wf m data : holds m data → wf_MsgBuf m.
Proof. now intros (? & _ & _). Qed.

Lemma holds_bound m data : holds m data → zlen data ≤ MAX_MSG_SIZE.
Proof.
  intros (_ & Hl & He). unfold load in Hl. case_decide; [done|]. lia.
Qed.

Lemma holds_set_mtype m t data : holds m data → holds (set_mtype t m) data.
Proof. intros (? & ? & ?). split; [now apply wf_set_mtype|]. done. Qed.

Lemma holds_msg_of data : zlen data ≤ MAX_MSG_SIZE → holds (msg_of data) data.
Proof.
  intros H. unfold MAX_MSG_SIZE in H. pose proof (zlen_nonneg data).
  split; [split|split]; cbn; try lia.
  - unfold zlen in *. rewrite length_app, length_replicate. unfold MAX_MSG_SIZE. lia.
  - unfold load, MAX_MSG_SIZE. cbn. rewrite decide_False by lia. now rewrite take_zlen_app.
Qed.

(** [msg_of], known to hold its message by evaluating its length. *)
Lemma holds_msg_of_b data :
  bool_decide (zlen data ≤ MAX_MSG_SIZE) = true → holds (msg_of data) data.
Proof. intros Hd. apply holds_msg_of. by apply bool_decide_eq_true in Hd. Qed.

#[export] Hint Resolve wf_set_len wf_set_mtype store_wf holds_wf holds_set_mtype
  holds_msg_of : wissbi.
