(* ===== verification/IOStream.v ===== *)
(** * IOStream: the parts of the C++ stream library the code uses

    A [streambuf] is its characters with a get and a put position; an [istream]
    adds the state bits and [gcount].  [std::cin] is a stream whose characters
    are everything that will ever be read from it. *)

From S2P Require Import Prelude Text.

Record streambuf := mkStreambuf { sb_str : bytes; sb_get : nat; sb_put : nat }.

Definition sb_rest (sb : streambuf) : bytes := drop (sb_get sb) (sb_str sb).
Definition sb_advance (n : nat) (sb : streambuf) : streambuf :=
  mkStreambuf (sb_str sb) (sb_get sb + n) (sb_put sb).
Definition sb_write (data : bytes) (sb : streambuf) : streambuf :=
  mkStreambuf (take (sb_put sb) (sb_str sb) ++ data ++
               drop (sb_put sb + length data) (sb_str sb))
              (sb_get sb) (sb_put sb + length data).

(** [stringbuf::str(s)]: new contents, both positions at the start. *)
Definition sb_of (s : bytes) : streambuf := mkStreambuf s 0 0.

(** ** Input streams *)

Record istream := mkIstream {
  is_buf : streambuf; eofbit : bool; failbit : bool; badbit : bool; gcount : Z }.

Definition good (st : istream) : bool :=
  negb (eofbit st) && negb (failbit st) && negb (badbit st).

(** [!is.fail()], the stream used as a condition. *)
Definition is_ok (st : istream) : bool := negb (failbit st) && negb (badbit st).

Definition is_rest (st : istream) : bytes := sb_rest (is_buf st).

Definition istream_of (s : bytes) : istream := mkIstream (sb_of s) false false false 0.

(** What a failed sentry leaves: [failbit], and [gcount() = 0] for the
    unformatted operations. *)
Definition is_fail_unformatted (st : istream) : istream :=
  mkIstream (is_buf st) (eofbit st) true (badbit st) 0.

Inductive line_end := EndEof | EndDelim | EndFull.

(** The characters [getline] stores and why it stopped: the end of the input is
    tested first, then the delimiter, then the room left. *)
Fixpoint take_line (room : nat) (s : bytes) {struct s} : bytes * line_end :=
  match s with
  | [] => ([], EndEof)
  | c :: s' =>
      if decide (c = LF) then ([], EndDelim)
      else match room with
           | O => ([], EndFull)
           | S room' => let '(l, e) := take_line room' s' in (c :: l, e)
           end
  end.

(** [is.getline(s, n)]: the characters stored before the terminating NUL. *)
Definition getline (n : Z) (st : istream) : bytes * istream :=
  if good st then
    let '(l, e) := take_line (Z.to_nat (n - 1)) (is_rest st) in
    let extracted := (length l + match e with EndDelim => 1 | _ => 0 end)%nat in
    (l, mkIstream (sb_advance extracted (is_buf st))
          (match e with EndEof => true | _ => false end)
          (match e with EndFull => true | _ => bool_decide (extracted = 0)%nat end)
          false (Z.of_nat extracted))
  else ([], is_fail_unformatted st).

(** [is.get()], its result ignored. *)
Definition get_char (st : istream) : istream :=
  if good st then
    match is_rest st with
    | [] => mkIstream (is_buf st) true true false 0
    | _ :: _ => mkIstream (sb_advance 1 (is_buf st)) false false false 1
    end
  else is_fail_unformatted st.

(** [is.read(s, n)]: the characters stored. *)
Definition read_chars (n : Z) (st : istream) : outcome bytes * istream :=
  if decide (n < 0) then (Undef NegativeCount, st)
  else if good st then
    let data := take (Z.to_nat (Z.min n (zlen (is_rest st)))) (is_rest st) in
    let short := bool_decide (zlen data < n) in
    (Ret data, mkIstream (sb_advance (length data) (is_buf st)) short short false (zlen data))
  else (Ret [], is_fail_unformatted st).

Fixpoint skip_spaces (s : bytes) : bytes :=
  match s with
  | c :: s' => if isspace c then skip_spaces s' else s
  | [] => []
  end.

(** [is >> n] for an integer with bounds [lo], [hi] that holds [old]: a failed
    sentry leaves the variable alone. *)
Definition extract_int (lo hi old : Z) (st : istream) : Z * istream :=
  if good st then
    let s := is_rest st in
    let s1 := skip_spaces s in
    if decide (s1 = []) then
      (old, mkIstream (sb_advance (length s) (is_buf st)) true true false (gcount st))
    else
      let '(v, bad, s2) := scan_int lo hi s1 in
      (v, mkIstream (sb_advance (length s - length s2) (is_buf st))
            (bool_decide (s2 = [])) bad false (gcount st))
  else (old, mkIstream (is_buf st) (eofbit st) true (badbit st) (gcount st)).

(** ** Output streams *)

(** [os_bad] is set by the device when it refuses output. *)
Record ostream := mkOstream { os_buf : streambuf; os_bad : bool }.

Definition os_write (data : bytes) (os : ostream) : ostream :=
  if os_bad os then os else mkOstream (sb_write data (os_buf os)) false.

(** A stream that only appends, such as [std::cout]. *)
Definition ostream_of (written : bytes) : ostream :=
  mkOstream (mkStreambuf written 0 (length written)) false.

(** ** Lemmas *)

Lemma sb_rest_advance n sb : sb_rest (sb_advance n sb) = drop n (sb_rest sb).
Proof. unfold sb_rest, sb_advance. cbn. now rewrite drop_drop. Qed.

Lemma os_write_append data written :
  os_write data (ostream_of written) = ostream_of (written ++ data).
Proof.
  unfold os_write, ostream_of, sb_write. cbn. do 2 f_equal.
  - rewrite firstn_all, drop_ge by lia. now rewrite app_nil_r.
  - now rewrite length_app.
Qed.

Lemma os_write_bad data os : os_bad os = true → os_write data os = os.
Proof. unfold os_write. now intros ->. Qed.

(** A good stream with [s] left to read. *)
Definition good_at (st : istream) (s : bytes) : Prop := good st = true ∧ is_rest st = s.

Lemma good_at_istream_of s : good_at (istream_of s) s.
Proof. split; [done|]. unfold is_rest, sb_rest. cbn. apply drop_0. Qed.

Lemma good_at_bits sb g s :
  sb_rest sb = s → good_at (mkIstream sb false false false g) s.
Proof. now split. Qed.

Lemma good_is_ok st : good st = true → is_ok st = true.
Proof. unfold good, is_ok. destruct (eofbit st), (failbit st), (badbit st); cbn; congruence. Qed.

Lemma not_ok_not_good st : is_ok st = false → good st = false.
Proof. intros H. destruct (good st) eqn:E; [|done]. apply good_is_ok in E. congruence. Qed.

Lemma good_not st : good st = false → is_ok (is_fail_unformatted st) = false.
Proof. done. Qed.

Lemma take_line_delim room l s :
  LF ∉ l → (length l ≤ room)%nat → take_line room (l ++ LF :: s) = (l, EndDelim).
Proof.
  revert room. induction l as [|c l IH]; intros room Hl Hr; cbn [take_line app].
  - now rewrite decide_True by done.
  - rewrite decide_False by set_solver.
    destruct room as [|room]; cbn in Hr; [lia|].
    rewrite IH by (set_solver || lia). done.
Qed.

Lemma take_line_eof room l :
  LF ∉ l → (length l ≤ room)%nat → take_line room l = (l, EndEof).
Proof.
  revert room. induction l as [|c l IH]; intros room Hl Hr; cbn [take_line app]; [done|].
  rewrite decide_False by set_solver.
  destruct room as [|room]; cbn in Hr; [lia|].
  rewrite IH by (set_solver || lia). done.
Qed.

Lemma take_line_full room l s :
  LF ∉ l → (length l = S room)%nat → take_line room (l ++ s) = (take room l, EndFull).
Proof.
  revert room. induction l as [|c l IH]; intros room Hl Hr; cbn in Hr; [lia|].
  cbn [take_line app]. rewrite decide_False by set_solver.
  destruct room as [|room]; [done|].
  rewrite IH by (set_solver || lia). done.
Qed.

(** [getline] never stores more than its buffer takes. *)
Lemma take_line_length room s : (length (take_line room s).1 ≤ room)%nat.
Proof.
  revert room. induction s as [|c s IH]; intros room; cbn; [lia|].
  case_decide; cbn; [lia|]. destruct room as [|room]; cbn; [lia|].
  specialize (IH room). destruct (take_line room s) as [l e]. cbn in *. lia.
Qed.

Lemma getline_bound n st : 0 < n → zlen (getline n st).1 + 1 ≤ n.
Proof.
  intros Hn. unfold getline. destruct (good st); [|cbn; unfold zlen; cbn; lia].
  pose proof (take_line_length (Z.to_nat (n - 1)) (is_rest st)) as H.
  destruct (take_line _ _) as [l e]. cbn in *. unfold zlen. lia.
Qed.

Lemma getline_delim n st l s :
  good_at st (l ++ LF :: s) → LF ∉ l → zlen l < n →
  ∃ st', getline n st = (l, st') ∧ good_at st' s ∧ gcount st' = zlen l + 1
         ∧ eofbit st' = false.
Proof.
  intros [Hg Hr] Hl Hn. unfold getline. rewrite Hg, Hr.
  unfold zlen in Hn. rewrite take_line_delim by (done || lia).
  eexists. split; [done|]. rewrite bool_decide_false by lia.
  split; [|split; [cbn; unfold zlen; lia|done]].
  apply good_at_bits. rewrite sb_rest_advance. unfold is_rest in Hr. rewrite Hr.
  rewrite <- drop_drop, drop_app_length'; [done|].
  done.
Qed.

Lemma getline_eof n st l :
  good_at st l → LF ∉ l → l ≠ [] → zlen l < n →
  ∃ st', getline n st = (l, st') ∧ is_ok st' = true ∧ good st' = false
         ∧ gcount st' = zlen l ∧ eofbit st' = true.
Proof.
  intros [Hg Hr] Hl Hne Hn. unfold getline. rewrite Hg, Hr.
  unfold zlen in Hn. rewrite take_line_eof by (done || lia).
  assert (length l ≠ 0)%nat by (now destruct l).
  eexists. split; [done|]. rewrite bool_decide_false by lia.
  unfold is_ok, good. cbn. unfold zlen. repeat split; lia.
Qed.

Lemma getline_nothing n st : good_at st [] → is_ok (getline n st).2 = false.
Proof. intros [Hg Hr]. unfold getline. now rewrite Hg, Hr. Qed.

Lemma getline_not_good n st : good st = false → is_ok (getline n st).2 = false.
Proof. intros Hg. unfold getline. now rewrite Hg. Qed.

Lemma getline_full n st l s :
  good_at st (l ++ s) → LF ∉ l → zlen l = n → 0 < n →
  is_ok (getline n st).2 = false.
Proof.
  intros [Hg Hr] Hl Hn Hp. unfold getline. rewrite Hg, Hr.
  unfold zlen in Hn. rewrite take_line_full by (done || lia). done.
Qed.

(** [is >> n] on a printed number followed by a delimiter. *)
Lemma skip_spaces_dec n s : 0 ≤ n → skip_spaces (dec n ++ s) = dec n ++ s.
Proof.
  intros Hn. pose proof (dec_digits n Hn) as Hd. pose proof (dec_nonempty n Hn).
  destruct (dec n) as [|c ds]; [done|]. cbn. inversion Hd; subst.
  now rewrite isspace_digit.
Qed.

Lemma extract_dec lo hi old st n c s :
  good_at st (dec n ++ c :: s) → 0 ≤ n → lo ≤ n ≤ hi → isdigit c = false →
  ∃ st', extract_int lo hi old st = (n, st') ∧ good_at st' (c :: s).
Proof.
  intros [Hg Hr] Hn Hb Hc. unfold extract_int. rewrite Hg, Hr.
  rewrite skip_spaces_dec by done.
  rewrite decide_False by (intros [_ [=]]%app_eq_nil).
  rewrite scan_dec by done. eexists. split; [done|].
  rewrite bool_decide_false by done.
  apply good_at_bits. rewrite sb_rest_advance. unfold is_rest in Hr. rewrite Hr.
  apply drop_app_length'. rewrite length_app. cbn. lia.
Qed.

Lemma extract_neg_dec lo hi old st n c s :
  good_at st ("-"%char :: dec n ++ c :: s) → 0 < n → lo ≤ - n ≤ hi → isdigit c = false →
  ∃ st', extract_int lo hi old st = (- n, st') ∧ good_at st' (c :: s).
Proof.
  intros [Hg Hr] Hn Hb Hc. unfold extract_int. rewrite Hg, Hr.
  change (skip_spaces ("-"%char :: dec n ++ c :: s)) with ("-"%char :: dec n ++ c :: s).
  rewrite decide_False by done.
  rewrite scan_neg_dec by done. eexists. split; [done|].
  rewrite bool_decide_false by done.
  apply good_at_bits. rewrite sb_rest_advance. unfold is_rest in Hr. rewrite Hr.
  change ("-"%char :: dec n ++ c :: s) with (("-"%char :: dec n) ++ c :: s).
  apply drop_app_length'. rewrite length_app. cbn. lia.
Qed.

Lemma extract_dec_end lo hi old n :
  0 ≤ n → lo ≤ n ≤ hi →
  extract_int lo hi old (istream_of (dec n))
  = (n, mkIstream (sb_advance (length (dec n)) (sb_of (dec n))) true false false 0).
Proof.
  intros Hn Hb. unfold extract_int. destruct (good_at_istream_of (dec n)) as [-> ->].
  pose proof (skip_spaces_dec n [] Hn) as Hs. rewrite app_nil_r in Hs. rewrite Hs.
  rewrite decide_False by (by apply dec_nonempty).
  pose proof (scan_dec lo hi n [] Hn Hb I) as Hsc. rewrite app_nil_r in Hsc. rewrite Hsc.
  cbn [length]. by rewrite Nat.sub_0_r.
Qed.

Lemma extract_end lo hi old st :
  good_at st [] → ∃ st', extract_int lo hi old st = (old, st') ∧ good st' = false.
Proof.
  intros [Hg Hr]. unfold extract_int. rewrite Hg, Hr. cbn. eexists. split; done.
Qed.

Lemma extract_not_good lo hi old st :
  good st = false →
  ∃ st', extract_int lo hi old st = (old, st') ∧ good st' = false.
Proof.
  intros Hg. unfold extract_int. rewrite Hg. eexists. split; [done|].
  unfold good. cbn. now rewrite andb_false_r.
Qed.

Lemma get_char_good st c s :
  good_at st (c :: s) → good_at (get_char st) s.
Proof.
  intros [Hg Hr]. unfold get_char. rewrite Hg, Hr. apply good_at_bits.
  rewrite sb_rest_advance. unfold is_rest in Hr. now rewrite Hr.
Qed.

Lemma read_chars_exact st data s :
  good_at st (data ++ s) →
  ∃ st', read_chars (zlen data) st = (Ret data, st') ∧ good_at st' s.
Proof.
  intros [Hg Hr]. unfold read_chars. pose proof (zlen_nonneg data). pose proof (zlen_nonneg s).
  rewrite decide_False by lia. rewrite Hg, Hr, zlen_app, Z.min_l by lia.
  rewrite take_zlen_app, bool_decide_false by lia. eexists. split; [done|].
  apply good_at_bits. rewrite sb_rest_advance. unfold is_rest in Hr. rewrite Hr.
  apply drop_app_length.
Qed.

Lemma read_chars_short st data n :
  good_at st data → zlen data < n →
  ∃ st', read_chars n st = (Ret data, st') ∧ good st' = false.
Proof.
  intros [Hg Hr] Hn. unfold read_chars. pose proof (zlen_nonneg data).
  rewrite decide_False by lia. rewrite Hg, Hr, Z.min_r by lia.
  rewrite to_nat_zlen, firstn_all, bool_decide_true by done. eexists. now split.
Qed.

Lemma read_chars_negative n st : n < 0 → read_chars n st = (Undef NegativeCount, st).
Proof. intros. unfold read_chars. now rewrite decide_True. Qed.

#[export] Hint Resolve good_at_istream_of : wissbi.
