(* ===== verification/Config.v ===== *)
(** * Config: command line and environment of the programs

    What the [main] functions of [pub.cpp], [sub.cpp] and [record.cpp] make of
    their arguments and of the environment, up to the call that does the work. *)

From S2P Require Import Prelude Text IOStream.

(** ** Numbers *)

(** [int v = dflt; char *s = getenv(..); if (s) { istringstream iss(s); iss >> v; }]:
    the state of the stream is not looked at. *)
Definition env_int (lo hi dflt : Z) (var : option bytes) : Z :=
  match var with
  | None => dflt
  | Some s => fst (extract_int lo hi dflt (istream_of s))
  end.

Definition LONG_MAX : Z := 2 ^ 63 - 1.
Definition LONG_MIN : Z := - 2 ^ 63.

(** A signed product. *)
Definition times (lo hi a b : Z) : outcome Z :=
  if decide (lo ≤ a * b ≤ hi) then Ret (a * b) else Undef SignedOverflow.

(** [WISSBI_PUB_WAIT_TIMEOUT_SEC], in seconds. *)
Definition pub_wait_timeout (var : option bytes) : Z := env_int INT_MIN INT_MAX 1 var.

(** [WISSBI_HEARTBEAT_SEC], in milliseconds. *)
Definition sub_heartbeat_millis (var : option bytes) : outcome Z :=
  match var with
  | None => Ret 60000
  | Some _ => times INT_MIN INT_MAX (env_int INT_MIN INT_MAX 60000 var) 1000
  end.

(** [WISSBI_RECORD_MAX_MSGNUM] and [WISSBI_RECORD_TTL]; without the latter there
    is no collector. *)
Definition record_max_num (var : option bytes) : Z := env_int INT_MIN INT_MAX 50 var.
Definition record_ttl (var : option bytes) : outcome (option Z) :=
  match var with
  | None => Ret None
  | Some _ => match times LONG_MIN LONG_MAX (env_int LONG_MIN LONG_MAX 0 var) 1000 with
              | Ret t => Ret (Some t)
              | Throw e => Throw e
              | AssertFailed => AssertFailed
              | Waits => Waits
              | Undef u => Undef u
              end
  end.

(** ** Message formats *)

Inductive format := FLine | FLength.

(** [WISSBI_MESSAGE_FORMAT]. *)
Definition message_format (var : option bytes) : option format :=
  match var with
  | None => Some FLine
  | Some s => if decide (s = str "line") then Some FLine
              else if decide (s = str "length") then Some FLength
              else None
  end.

(** ** The mains *)

(** What a program does: print its usage, or log an unknown format, and return 1;
    or run. *)
Inductive pub_plan :=
  | PubUsage
  | PubUnknownFormat (msg_format : bytes)
  | PubRun (f : format) (dest : bytes) (wait_timeout_sec : Z).

Definition pub_exit_early (p : pub_plan) : option Z :=
  match p with PubRun _ _ _ => None | _ => Some 1 end.

(** [argv] without the name of the program. *)
Definition pub_main (argv : list bytes) (wait_var format_var : option bytes) : pub_plan :=
  match argv with
  | [] => PubUsage
  | dest :: _ =>
      match message_format format_var with
      | Some f => PubRun f dest (pub_wait_timeout wait_var)
      | None => PubUnknownFormat (default [] format_var)
      end
  end.

Inductive sub_plan :=
  | SubUsage
  | SubUnknownFormat (msg_format : bytes)
  | SubRun (f : format) (src : bytes) (topic_mode : bool).

Definition sub_main (argv : list bytes) (topic_var format_var : option bytes) : sub_plan :=
  match argv with
  | [] => SubUsage
  | src :: _ =>
      let topic_mode := bool_decide (topic_var = Some (str "true")) in
      match message_format format_var with
      | Some f => SubRun f src topic_mode
      | None => SubUnknownFormat (default [] format_var)
      end
  end.

(** ** Lemmas *)

Lemma env_int_dec lo hi dflt n :
  0 ≤ n → lo ≤ n ≤ hi → env_int lo hi dflt (Some (dec n)) = n.
Proof. intros Hn Hb. unfold env_int. by rewrite extract_dec_end. Qed.

(** A word that starts like no number. *)
Definition not_a_number (s : bytes) : Prop :=
  match s with
  | [] => False
  | c :: _ => isspace c = false ∧ isdigit c = false ∧ c ≠ "-"%char ∧ c ≠ "+"%char
  end.

Lemma env_int_junk lo hi dflt s : not_a_number s → env_int lo hi dflt (Some s) = 0.
Proof.
  destruct s as [|c s]; [done|]. intros (Hsp & Hd & Hm & Hp). unfold env_int, extract_int.
  destruct (good_at_istream_of (c :: s)) as [-> ->]. cbn [skip_spaces]. rewrite Hsp.
  rewrite decide_False by done. unfold scan_int.
  rewrite !decide_False by done. cbn [span]. rewrite Hd. by rewrite decide_True.
Qed.

(** ** Properties *)

(** A number of the environment is used when it is one in range; an unset or
    empty variable leaves the default, but a word that is no number gives zero,
    not the default; and a number of seconds that does not fit when converted to
    milliseconds overflows. *)
Theorem config_numbers n s :
  0 ≤ n ≤ INT_MAX → not_a_number s →
  (pub_wait_timeout None = 1 ∧ pub_wait_timeout (Some []) = 1
   ∧ pub_wait_timeout (Some (dec n)) = n ∧ pub_wait_timeout (Some s) = 0)
  ∧ (record_max_num None = 50 ∧ record_max_num (Some (dec n)) = n ∧ record_max_num (Some s) = 0)
  ∧ (sub_heartbeat_millis None = Ret 60000
     ∧ sub_heartbeat_millis (Some s) = Ret 0
     ∧ sub_heartbeat_millis (Some (dec n))
       = if decide (n * 1000 ≤ INT_MAX) then Ret (n * 1000) else Undef SignedOverflow)
  ∧ record_ttl None = Ret None ∧ record_ttl (Some (dec n)) = Ret (Some (n * 1000))
  ∧ record_ttl (Some s) = Ret (Some 0).
Proof.
  intros Hn Hs. unfold pub_wait_timeout, record_max_num, sub_heartbeat_millis, record_ttl, times.
  unfold INT_MAX in Hn.
  rewrite !(env_int_dec INT_MIN INT_MAX) by (unfold INT_MIN, INT_MAX; lia).
  rewrite (env_int_dec LONG_MIN LONG_MAX) by (unfold LONG_MIN, LONG_MAX; lia).
  pose proof (λ lo hi dflt, env_int_junk lo hi dflt s Hs) as Hj. rewrite !Hj.
  split_and!; try done.
  - destruct (decide (n * 1000 ≤ INT_MAX)) as [Hle|Hgt].
    + by rewrite decide_True by (unfold INT_MIN; lia).
    + by rewrite decide_False by lia.
  - by rewrite decide_True by (unfold LONG_MIN, LONG_MAX; lia).
Qed.

Lemma config_numbers_witness :
  pub_wait_timeout (Some (str "30")) = 30 ∧ record_max_num (Some (str "many")) = 0
  ∧ sub_heartbeat_millis (Some (str "3000000")) = Undef SignedOverflow.
Proof.
  assert (Hm : not_a_number (str "many")) by (by repeat split).
  split; [|split].
  - apply (proj1 (config_numbers 30 (str "many") ltac:(by apply (bool_decide_eq_true_1 _)) Hm)).
  - apply (proj1 (proj2 (config_numbers 30 (str "many") ltac:(by apply (bool_decide_eq_true_1 _)) Hm))).
  - exact (proj2 (proj2 (proj1 (proj2 (proj2 (config_numbers 3000000 (str "many")
             ltac:(by apply (bool_decide_eq_true_1 _)) Hm)))))).
Defined.

(** The publisher and the subscriber run exactly when they have an argument
    and the format is unset, "line" or "length"; otherwise they return 1 at once.
    Topic mode takes the exact word "true". *)
Theorem mains_dispatch argv wait_var topic_var format_var :
  (pub_exit_early (pub_main argv wait_var format_var) = None
   ↔ argv ≠ [] ∧ (format_var = None ∨ format_var = Some (str "line")
                  ∨ format_var = Some (str "length")))
  ∧ (∀ f dest t, pub_main argv wait_var format_var = PubRun f dest t →
     head argv = Some dest ∧ t = pub_wait_timeout wait_var
     ∧ (f = FLength ↔ format_var = Some (str "length")))
  ∧ (∀ f src topic, sub_main argv topic_var format_var = SubRun f src topic →
     head argv = Some src ∧ (topic = true ↔ topic_var = Some (str "true"))
     ∧ (f = FLength ↔ format_var = Some (str "length"))).
Proof.
  assert (Hf : ∀ f, message_format format_var = Some f →
    (f = FLength ↔ format_var = Some (str "length"))).
  { intros f. unfold message_format. destruct format_var as [s|]; [|intros [= <-]; done].
    destruct (decide (s = str "line")) as [->|]; [intros [= <-]; done|].
    destruct (decide (s = str "length")) as [->|]; [intros [= <-]; done|done]. }
  split; [|split].
  - destruct argv as [|a argv]; cbn [pub_main]; [cbn; naive_solver|].
    unfold message_format. destruct format_var as [s|]; [|cbn; naive_solver].
    destruct (decide (s = str "line")) as [->|]; [cbn; naive_solver|].
    destruct (decide (s = str "length")) as [->|]; [cbn; naive_solver|].
    cbn. naive_solver.
  - intros f dest t. destruct argv as [|a argv]; cbn [pub_main]; [done|].
    destruct (message_format format_var) as [f'|] eqn:E; [|done]. intros [= <- <- <-]. auto.
  - intros f src topic. destruct argv as [|a argv]; cbn [sub_main]; [done|].
    destruct (message_format format_var) as [f'|] eqn:E; [|done]. intros [= <- <- <-].
    split; [done|]. split; [apply bool_decide_eq_true|auto].
Qed.

Lemma mains_dispatch_witness :
  pub_main [str "foo"] None (Some (str "length")) = PubRun FLength (str "foo") 1
  ∧ head [str "foo"] = Some (str "foo").
Proof.
  split; [reflexivity|].
  apply (proj1 (proj2 (mains_dispatch [str "foo"] None None (Some (str "length"))))
    FLength (str "foo") 1). reflexivity.
Defined.
