(* ===== verification/MsgFilter.v ===== *)
(** * MsgFilter: the filter of [msg_filter.hpp] and the contract of a policy

    [IOPolicy] is what the template parameters of [MsgFilter] must provide.
    [MessageSource] and [MessageSink] state what an input and an output policy
    promise to a filter: the policies discharge them, the filter's theorems use
    nothing else. *)

From S2P Require Import Prelude MsgBuf.

(** ** Policies *)

(** Both operations take the caller's buffer by reference: [Get] fills it and
    [Put] may touch it (the message queue policy casts its [const] away). *)
Class IOPolicy (P : Type) := {
  Get : MsgBuf → comp P (bool * MsgBuf);
  Put : MsgBuf → comp P (bool * MsgBuf) }.

(** A source that will deliver the given messages, then report its end. *)
Class MessageSource (P : Type) `{IOPolicy P} := {
  source_has : P → list bytes → Prop;
  source_next p m ms b :
    source_has p (m :: ms) → wf_MsgBuf b →
    ∃ b' p', Get b p = (Ret (true, b'), p') ∧ holds b' m ∧ source_has p' ms;
  source_end p b :
    source_has p [] → wf_MsgBuf b →
    ∃ b' p', Get b p = (Ret (false, b'), p') ∧ wf_MsgBuf b' ∧ len b' = 0
             ∧ source_has p' [] }.

(** A sink that has accepted the given messages: it accepts those that satisfy
    [sink_ok] and reports failure, unchanged, for the others. *)
Class MessageSink (P : Type) `{IOPolicy P} := {
  sink_has : P → list bytes → Prop;
  sink_ok : bytes → Prop;
  sink_put p ms m b :
    sink_has p ms → holds b m → sink_ok m →
    ∃ b' p', Put b p = (Ret (true, b'), p') ∧ holds b' m ∧ sink_has p' (ms ++ [m]);
  sink_refuse p ms m b :
    sink_has p ms → holds b m → ¬ sink_ok m →
    ∃ b' p', Put b p = (Ret (false, b'), p') ∧ wf_MsgBuf b' ∧ sink_has p' ms }.

(** ** The filter *)

Section MsgFilter.
Context {PI PO E : Type} `{IOPolicy PI} `{IOPolicy PO}.

(** The object: its two policy bases and [msg_buf_], with the variables [E] the
    installed closures captured. *)
Record fstate := mkFstate { f_in : PI; f_out : PO; f_ext : E; msg_buf_ : MsgBuf }.

(** The installed functions.  Each receives [msg_buf_] by reference, so each is
    a computation over the whole object. *)
Record filter_funcs := mkFuncs {
  pre_filter_func_ : comp fstate bool;
  filter_func_ : comp fstate bool;
  post_filter_func_ : bool → comp fstate bool }.

(** The constructor's functions. *)
Definition default_funcs : filter_funcs :=
  mkFuncs (cret true) (cret true) (λ filter_result, cret filter_result).

Definition set_pre_filter_func (f : comp fstate bool) (ff : filter_funcs) : filter_funcs :=
  mkFuncs f (filter_func_ ff) (post_filter_func_ ff).
Definition set_filter_func (f : comp fstate bool) (ff : filter_funcs) : filter_funcs :=
  mkFuncs (pre_filter_func_ ff) f (post_filter_func_ ff).
Definition set_post_filter_func (f : bool → comp fstate bool) (ff : filter_funcs)
  : filter_funcs :=
  mkFuncs (pre_filter_func_ ff) (filter_func_ ff) f.

(** A policy operation called on one of the bases with [msg_buf_]. *)
Definition InputWrapper (op : MsgBuf → comp PI (bool * MsgBuf)) : comp fstate bool :=
  λ w, match op (msg_buf_ w) (f_in w) with
       | (Ret (r, b), p) => (Ret r, mkFstate p (f_out w) (f_ext w) b)
       | (Throw e, p) => (Throw e, mkFstate p (f_out w) (f_ext w) (msg_buf_ w))
       | (AssertFailed, p) => (AssertFailed, mkFstate p (f_out w) (f_ext w) (msg_buf_ w))
       | (Waits, p) => (Waits, mkFstate p (f_out w) (f_ext w) (msg_buf_ w))
       | (Undef u, p) => (Undef u, mkFstate p (f_out w) (f_ext w) (msg_buf_ w))
       end.

Definition OutputWrapper (op : MsgBuf → comp PO (bool * MsgBuf)) : comp fstate bool :=
  λ w, match op (msg_buf_ w) (f_out w) with
       | (Ret (r, b), p) => (Ret r, mkFstate (f_in w) p (f_ext w) b)
       | (Throw e, p) => (Throw e, mkFstate (f_in w) p (f_ext w) (msg_buf_ w))
       | (AssertFailed, p) => (AssertFailed, mkFstate (f_in w) p (f_ext w) (msg_buf_ w))
       | (Waits, p) => (Waits, mkFstate (f_in w) p (f_ext w) (msg_buf_ w))
       | (Undef u, p) => (Undef u, mkFstate (f_in w) p (f_ext w) (msg_buf_ w))
       end.

(** C++ [a && b]. *)
Definition and_then {W} (a b : comp W bool) : comp W bool :=
  let* r := a in if r : bool then b else cret false.

Definition Filter (ff : filter_funcs) : comp fstate bool :=
  let* res := and_then (pre_filter_func_ ff)
                (and_then (InputWrapper Get)
                   (and_then (filter_func_ ff) (OutputWrapper Put))) in
  post_filter_func_ ff res.

(** [while (Filter()) {}]: [None] while it is still running. *)
Fixpoint FilterLoop (ff : filter_funcs) (fuel : nat) (w : fstate)
  : option (outcome unit * fstate) :=
  match fuel with
  | O => None
  | S fuel' =>
      match Filter ff w with
      | (Ret true, w') => FilterLoop ff fuel' w'
      | (Ret false, w') => Some (Ret tt, w')
      | (Throw e, w') => Some (Throw e, w')
      | (AssertFailed, w') => Some (AssertFailed, w')
      | (Waits, w') => Some (Waits, w')
      | (Undef u, w') => Some (Undef u, w')
      end
  end.

(** ** Lemmas *)

Lemma and_then_true {W} (a b : comp W bool) w w' :
  a w = (Ret true, w') → and_then a b w = b w'.
Proof. intros Ha. unfold and_then. now rewrite (cbind_ret _ _ _ _ _ Ha). Qed.

Lemma and_then_false {W} (a b : comp W bool) w w' :
  a w = (Ret false, w') → and_then a b w = (Ret false, w').
Proof. intros Ha. unfold and_then. now rewrite (cbind_ret _ _ _ _ _ Ha). Qed.

Lemma InputWrapper_ret op w r b p :
  op (msg_buf_ w) (f_in w) = (Ret (r, b), p) →
  InputWrapper op w = (Ret r, mkFstate p (f_out w) (f_ext w) b).
Proof. unfold InputWrapper. now intros ->. Qed.

Lemma OutputWrapper_ret op w r b p :
  op (msg_buf_ w) (f_out w) = (Ret (r, b), p) →
  OutputWrapper op w = (Ret r, mkFstate (f_in w) p (f_ext w) b).
Proof. unfold OutputWrapper. now intros ->. Qed.

(** *** [Filter], branch by branch *)

Section branches.
Context (ff : filter_funcs).

Lemma Filter_pre_false w w1 :
  pre_filter_func_ ff w = (Ret false, w1) → Filter ff w = post_filter_func_ ff false w1.
Proof. intros Hp. apply cbind_ret. by apply and_then_false. Qed.

Lemma Filter_get_false w w1 b p :
  pre_filter_func_ ff w = (Ret true, w1) →
  Get (msg_buf_ w1) (f_in w1) = (Ret (false, b), p) →
  Filter ff w = post_filter_func_ ff false (mkFstate p (f_out w1) (f_ext w1) b).
Proof.
  intros Hp Hg. apply cbind_ret. rewrite (and_then_true _ _ _ _ Hp).
  by apply and_then_false, InputWrapper_ret.
Qed.

Lemma Filter_filter_false w w1 b p w3 :
  pre_filter_func_ ff w = (Ret true, w1) →
  Get (msg_buf_ w1) (f_in w1) = (Ret (true, b), p) →
  filter_func_ ff (mkFstate p (f_out w1) (f_ext w1) b) = (Ret false, w3) →
  Filter ff w = post_filter_func_ ff false w3.
Proof.
  intros Hp Hg Hf. apply cbind_ret. rewrite (and_then_true _ _ _ _ Hp).
  erewrite and_then_true by (by apply InputWrapper_ret). by apply and_then_false.
Qed.

Lemma Filter_put w w1 b p w3 r b' o :
  pre_filter_func_ ff w = (Ret true, w1) →
  Get (msg_buf_ w1) (f_in w1) = (Ret (true, b), p) →
  filter_func_ ff (mkFstate p (f_out w1) (f_ext w1) b) = (Ret true, w3) →
  Put (msg_buf_ w3) (f_out w3) = (Ret (r, b'), o) →
  Filter ff w = post_filter_func_ ff r (mkFstate (f_in w3) o (f_ext w3) b').
Proof.
  intros Hp Hg Hf Ho. apply cbind_ret. rewrite (and_then_true _ _ _ _ Hp).
  erewrite and_then_true by (by apply InputWrapper_ret).
  rewrite (and_then_true _ _ _ _ Hf). by apply OutputWrapper_ret.
Qed.

Lemma Filter_get_undef w w1 u p :
  pre_filter_func_ ff w = (Ret true, w1) →
  Get (msg_buf_ w1) (f_in w1) = (Undef u, p) →
  Filter ff w = (Undef u, mkFstate p (f_out w1) (f_ext w1) (msg_buf_ w1)).
Proof.
  intros Hp Hg. apply cbind_undef. rewrite (and_then_true _ _ _ _ Hp).
  apply cbind_undef. unfold InputWrapper. by rewrite Hg.
Qed.

Lemma Filter_get_waits w w1 p :
  pre_filter_func_ ff w = (Ret true, w1) →
  Get (msg_buf_ w1) (f_in w1) = (Waits, p) →
  Filter ff w = (Waits, mkFstate p (f_out w1) (f_ext w1) (msg_buf_ w1)).
Proof.
  intros Hp Hg. apply cbind_waits. rewrite (and_then_true _ _ _ _ Hp).
  apply cbind_waits. unfold InputWrapper. by rewrite Hg.
Qed.

Lemma Filter_put_waits w w1 b p w3 o :
  pre_filter_func_ ff w = (Ret true, w1) →
  Get (msg_buf_ w1) (f_in w1) = (Ret (true, b), p) →
  filter_func_ ff (mkFstate p (f_out w1) (f_ext w1) b) = (Ret true, w3) →
  Put (msg_buf_ w3) (f_out w3) = (Waits, o) →
  Filter ff w = (Waits, mkFstate (f_in w3) o (f_ext w3) (msg_buf_ w3)).
Proof.
  intros Hp Hg Hf Ho. apply cbind_waits. rewrite (and_then_true _ _ _ _ Hp).
  erewrite and_then_true by (by apply InputWrapper_ret).
  rewrite (and_then_true _ _ _ _ Hf). unfold OutputWrapper. by rewrite Ho.
Qed.

End branches.

Lemma FilterLoop_more ff fuel fuel' w r :
  (fuel ≤ fuel')%nat → FilterLoop ff fuel w = Some r → FilterLoop ff fuel' w = Some r.
Proof.
  revert fuel' w. induction fuel as [|fuel IH]; intros fuel' w Hle; cbn; [done|].
  destruct fuel' as [|fuel']; [lia|]. cbn.
  destruct (Filter ff w) as [[[]| | | |] w']; auto with lia.
Qed.

(** After [n] iterations that did not end it, the loop is at [w']. *)
Definition runs_to (ff : filter_funcs) (n : nat) (w w' : fstate) : Prop :=
  ∀ fuel, FilterLoop ff (n + fuel) w = FilterLoop ff fuel w'.

Lemma runs_to_refl ff w : runs_to ff 0 w w.
Proof. by intros fuel. Qed.

Lemma runs_to_step ff n w w1 w' :
  Filter ff w = (Ret true, w1) → runs_to ff n w1 w' → runs_to ff (S n) w w'.
Proof. intros HF HL fuel. cbn [Nat.add FilterLoop]. rewrite HF. apply HL. Qed.

Lemma runs_to_end ff n w w1 w' fuel :
  runs_to ff n w w1 → Filter ff w1 = (Ret false, w') → (n < fuel)%nat →
  FilterLoop ff fuel w = Some (Ret tt, w').
Proof.
  intros HL HF Hf. replace fuel with (n + S (fuel - S n))%nat by lia.
  rewrite (HL _). cbn [FilterLoop]. by rewrite HF.
Qed.

(** *** Filters that observe

    [observes_if ok ff step]: as long as the captured variables satisfy [ok], the
    installed functions let every message through and only fold it into the
    variables. *)
Record observes_if (ok : E → Prop) (ff : filter_funcs) (step : bytes → E → E) : Prop := {
  obs_pre w : pre_filter_func_ ff w = (Ret true, w);
  obs_filter w m :
    ok (f_ext w) → holds (msg_buf_ w) m →
    filter_func_ ff w
    = (Ret true, mkFstate (f_in w) (f_out w) (step m (f_ext w)) (msg_buf_ w));
  obs_post r w : post_filter_func_ ff r w = (Ret r, w) }.

Definition observes : filter_funcs → (bytes → E → E) → Prop := observes_if (λ _, True).

(** The variables satisfy [ok] before each of the messages. *)
Fixpoint oks (ok : E → Prop) (step : bytes → E → E) (ms : list bytes) (e : E) : Prop :=
  match ms with
  | [] => True
  | m :: ms' => ok e ∧ oks ok step ms' (step m e)
  end.

Lemma oks_true step ms e : oks (λ _, True) step ms e.
Proof. revert e. induction ms as [|m ms IH]; intros e; cbn; auto. Qed.

Lemma oks_snoc ok step ms m e :
  oks ok step (ms ++ [m]) e ↔ oks ok step ms e ∧ ok (fold_left (λ e m, step m e) ms e).
Proof. revert e. induction ms as [|m' ms IH]; intros e; cbn; [tauto|]. rewrite IH. tauto. Qed.

Lemma default_observes : observes default_funcs (λ _ e, e).
Proof. split; try done. by intros []. Qed.

Section relay.
Context `{!MessageSource PI} `{!MessageSink PO}.
Context (ok : E → Prop) (ff : filter_funcs) (step : bytes → E → E) (Hobs : observes_if ok ff step).

(** [at_point w ms out e]: the source has [ms] left, the sink has [out], the
    closures hold [e]. *)
Record at_point (w : fstate) (ms out : list bytes) (e : E) : Prop := {
  at_source : source_has (f_in w) ms;
  at_sink : sink_has (f_out w) out;
  at_ext : f_ext w = e;
  at_buf : wf_MsgBuf (msg_buf_ w) }.

Lemma Filter_relay m ms out e w :
  at_point w (m :: ms) out e → ok e → sink_ok m →
  ∃ w', Filter ff w = (Ret true, w') ∧ at_point w' ms (out ++ [m]) (step m e).
Proof.
  intros [Hsrc Hsnk He Hwf] Hoe Hok.
  destruct (source_next _ _ _ _ Hsrc Hwf) as (b1 & p1 & HG & Hh1 & Hsrc1).
  destruct (sink_put _ _ _ _ Hsnk Hh1 Hok) as (b2 & o2 & HP & Hh2 & Hsnk2).
  erewrite Filter_put; [|by apply (obs_pre _ _ _ Hobs)|done
                        |by apply (obs_filter _ _ _ Hobs); [by rewrite He|]|done].
  rewrite (obs_post _ _ _ Hobs). eexists. split; [done|].
  split; cbn; try done; [by rewrite He|eauto with wissbi].
Qed.

Lemma Filter_refused m ms out e w :
  at_point w (m :: ms) out e → ok e → ¬ sink_ok m →
  ∃ w', Filter ff w = (Ret false, w') ∧ at_point w' ms out (step m e).
Proof.
  intros [Hsrc Hsnk He Hwf] Hoe Hok.
  destruct (source_next _ _ _ _ Hsrc Hwf) as (b1 & p1 & HG & Hh1 & Hsrc1).
  destruct (sink_refuse _ _ _ _ Hsnk Hh1 Hok) as (b2 & o2 & HP & Hwf2 & Hsnk2).
  erewrite Filter_put; [|by apply (obs_pre _ _ _ Hobs)|done
                        |by apply (obs_filter _ _ _ Hobs); [by rewrite He|]|done].
  rewrite (obs_post _ _ _ Hobs). eexists. split; [done|].
  split; cbn; try done. by rewrite He.
Qed.

Lemma Filter_end out e w :
  at_point w [] out e →
  ∃ w', Filter ff w = (Ret false, w') ∧ at_point w' [] out e.
Proof.
  intros [Hsrc Hsnk He Hwf].
  destruct (source_end _ _ Hsrc Hwf) as (b1 & p1 & HG & Hwf1 & _ & Hsrc1).
  erewrite Filter_get_false; [|by apply (obs_pre _ _ _ Hobs)|done].
  rewrite (obs_post _ _ _ Hobs). eexists. by split.
Qed.

(** The loop over messages the sink accepts, up to where it continues. *)
Lemma FilterLoop_prefix ms rest fuel out e w :
  at_point w (ms ++ rest) out e → oks ok step ms e → Forall sink_ok ms →
  ∃ w', FilterLoop ff (length ms + fuel) w = FilterLoop ff fuel w'
        ∧ at_point w' rest (out ++ ms) (fold_left (λ e m, step m e) ms e).
Proof.
  intros Hat Hoks Hok. revert out e w Hat Hoks.
  induction Hok as [|m ms Hm Hms IH]; intros out e w Hat Hoks; cbn [app length fold_left] in *.
  - exists w. by rewrite app_nil_r.
  - destruct Hoks as [Hoe Hoks].
    destruct (Filter_relay _ _ _ _ _ Hat Hoe Hm) as (w1 & HF & Hat1).
    destruct (IH _ _ _ Hat1 Hoks) as (w2 & HL & Hat2).
    exists w2. cbn. rewrite HF. split; [done|]. by rewrite <- app_assoc in Hat2.
Qed.

Lemma FilterLoop_all_if ms out e w :
  at_point w ms out e → oks ok step ms e → Forall sink_ok ms →
  ∃ w', FilterLoop ff (length ms + 1) w = Some (Ret tt, w')
        ∧ at_point w' [] (out ++ ms) (fold_left (λ e m, step m e) ms e).
Proof.
  intros Hat Hoks Hok.
  destruct (FilterLoop_prefix ms [] 1 out e w) as (w1 & HL & Hat1);
    [by rewrite app_nil_r|done|done|].
  destruct (Filter_end _ _ _ Hat1) as (w2 & HF & Hat2).
  exists w2. rewrite HL. cbn. by rewrite HF.
Qed.

Lemma FilterLoop_refused_if ms m rest out e w :
  at_point w (ms ++ m :: rest) out e → oks ok step (ms ++ [m]) e → Forall sink_ok ms → ¬ sink_ok m →
  ∃ w', FilterLoop ff (length ms + 1) w = Some (Ret tt, w')
        ∧ at_point w' rest (out ++ ms) (step m (fold_left (λ e m, step m e) ms e)).
Proof.
  intros Hat [Hoks Hoe]%oks_snoc Hok Hbad.
  destruct (FilterLoop_prefix ms (m :: rest) 1 out e w Hat Hoks Hok) as (w1 & HL & Hat1).
  destruct (Filter_refused _ _ _ _ _ Hat1 Hoe Hbad) as (w2 & HF & Hat2).
  exists w2. rewrite HL. cbn. by rewrite HF.
Qed.

End relay.

Section relay_always.
Context `{!MessageSource PI} `{!MessageSink PO}.
Context (ff : filter_funcs) (step : bytes → E → E) (Hobs : observes ff step).

Lemma FilterLoop_all ms out e w :
  at_point w ms out e → Forall sink_ok ms →
  ∃ w', FilterLoop ff (length ms + 1) w = Some (Ret tt, w')
        ∧ at_point w' [] (out ++ ms) (fold_left (λ e m, step m e) ms e).
Proof. intros Hat Hok. by apply (FilterLoop_all_if _ ff step Hobs); [|apply oks_true|]. Qed.

Lemma FilterLoop_refused ms m rest out e w :
  at_point w (ms ++ m :: rest) out e → Forall sink_ok ms → ¬ sink_ok m →
  ∃ w', FilterLoop ff (length ms + 1) w = Some (Ret tt, w')
        ∧ at_point w' rest (out ++ ms) (step m (fold_left (λ e m, step m e) ms e)).
Proof. intros Hat Hok Hbad. by apply (FilterLoop_refused_if _ ff step Hobs); [|apply oks_true|..]. Qed.

End relay_always.

End MsgFilter.

Arguments fstate : clear implicits.
Arguments filter_funcs : clear implicits.
