(* ===== verification/Line.v ===== *)
(** * Line: the newline-delimited policy of [io_policy/line.hpp]

    The input side is compared with [split_lines], the reference splitting of a
    whole input; the output side appends each message and a newline. *)

From S2P Require Import Prelude Text MsgBuf IOStream MsgFilter.

(** [class IOStreamBase]: the two streams, [std::cin] and [std::cout] at first. *)
Record IOStreamBase := mkBase { is_ptr_ : istream; os_ptr_ : ostream }.

Definition IOStreamBase_init (stdin : istream) (stdout : ostream) : IOStreamBase :=
  mkBase stdin stdout.
Definition set_istream (is_ptr : istream) (p : IOStreamBase) : IOStreamBase :=
  mkBase is_ptr (os_ptr_ p).
Definition set_ostream (os_ptr : ostream) (p : IOStreamBase) : IOStreamBase :=
  mkBase (is_ptr_ p) os_ptr.

(** [os_ptr_->write(data, n)]. *)
Definition out_write (data : bytes) : comp IOStreamBase unit :=
  cmodify (λ p, set_ostream (os_write data (os_ptr_ p)) p).

(** ** The policy *)

Definition Line_Get (b : MsgBuf) : comp IOStreamBase (bool * MsgBuf) :=
  let* p := cget in
  let '(l, st) := getline MAX_MSG_SIZE (is_ptr_ p) in
  let* _ := cput (set_istream st p) in
  let* b1 := clift (store (l ++ [NUL]) b) in
  if is_ok st then
    cret (true, set_len (size_wrap (gcount st - (if eofbit st then 0 else 1))) b1)
  else cret (false, set_len 0 b1).

Definition Line_Put (b : MsgBuf) : comp IOStreamBase (bool * MsgBuf) :=
  if decide (len b ≤ 0) then cret (false, b)
  else
    let* data := clift (load b) in
    let* _ := out_write data in
    let* _ := out_write [LF] in
    cret (true, b).

(** [class Line : public IOStreamBase]. *)
Record Line := mkLine { line_base : IOStreamBase }.

#[export] Instance Line_IOPolicy : IOPolicy Line := {
  Get b := zoom line_base (λ p _, mkLine p) (Line_Get b);
  Put b := zoom line_base (λ p _, mkLine p) (Line_Put b) }.

(** ** The reference: the lines of an input

    A newline ends a line; a last fragment without one is a line too. *)
Fixpoint split_lines (s : bytes) : list bytes :=
  match s with
  | [] => []
  | c :: s' =>
      if decide (c = LF) then [] :: split_lines s'
      else match split_lines s' with
           | [] => [[c]]
           | l :: ls => (c :: l) :: ls
           end
  end.

(** What the output side writes for a list of messages. *)
Definition unlines (ms : list bytes) : bytes := concat (map (λ m, m ++ [LF]) ms).

Definition line_fits (l : bytes) : Prop := zlen l < MAX_MSG_SIZE.

(** ** Lemmas *)

Lemma split_lines_delim l s : LF ∉ l → split_lines (l ++ LF :: s) = l :: split_lines s.
Proof.
  induction l as [|c l IH]; intros Hl; cbn [app split_lines].
  - by rewrite decide_True.
  - rewrite decide_False by set_solver.
    rewrite IH; [done|set_solver].
Qed.

Lemma split_lines_last l : LF ∉ l → l ≠ [] → split_lines l = [l].
Proof.
  induction l as [|c l IH]; intros Hl Hne; cbn [split_lines]; [done|].
  rewrite decide_False by set_solver.
  destruct l as [|d l]; [done|]. rewrite IH; [done|set_solver|done].
Qed.

(** Every input is empty, one unterminated line, or a line and the rest. *)
Lemma lines_cases s :
  s = [] ∨ ((LF ∉ s) ∧ s ≠ []) ∨ (∃ l s', s = l ++ LF :: s' ∧ LF ∉ l).
Proof.
  destruct (decide (LF ∈ s)) as [Hin|Hni].
  - right; right. apply list_elem_of_split_l in Hin as (l & s' & -> & ?). eauto.
  - destruct s; [by left|]. right; left. done.
Qed.

Lemma unlines_app a b : unlines (a ++ b) = unlines a ++ unlines b.
Proof. unfold unlines. by rewrite map_app, concat_app. Qed.

Lemma split_unlines ms : Forall (λ m, LF ∉ m) ms → split_lines (unlines ms) = ms.
Proof.
  induction 1 as [|m ms Hm Hms IH]; [done|].
  change (unlines (m :: ms)) with ((m ++ [LF]) ++ unlines ms).
  rewrite <- app_assoc. cbn [app]. by rewrite split_lines_delim, IH.
Qed.

Lemma Line_Get_eq b p l st :
  getline MAX_MSG_SIZE (is_ptr_ p) = (l, st) → wf_MsgBuf b →
  ∃ b1, store (l ++ [NUL]) b = Ret b1 ∧ wf_MsgBuf b1
    ∧ Line_Get b p =
      (Ret (if is_ok st
            then (true, set_len (size_wrap (gcount st - (if eofbit st then 0 else 1))) b1)
            else (false, set_len 0 b1)), set_istream st p).
Proof.
  intros Hg Hwf. pose proof (getline_bound MAX_MSG_SIZE (is_ptr_ p) ltac:(done)) as Hb.
  rewrite Hg in Hb. cbn [fst] in Hb.
  assert (store (l ++ [NUL]) b = Ret (set_buf ((l ++ [NUL]) ++ drop (length (l ++ [NUL])) (buf b)) b)) as Hs.
  { apply store_small. rewrite zlen_app. change (zlen [NUL]) with 1. lia. }
  eexists. split; [exact Hs|]. split; [by eapply store_wf|].
  unfold Line_Get, cbind, cget, cput, clift. rewrite Hg, Hs. by destruct (is_ok st).
Qed.

(** [Get] on a terminated line that fits. *)
Lemma Line_Get_line b p l s :
  good_at (is_ptr_ p) (l ++ LF :: s) → LF ∉ l → line_fits l → wf_MsgBuf b →
  ∃ b' st, Line_Get b p = (Ret (true, b'), set_istream st p) ∧ holds b' l ∧ good_at st s.
Proof.
  intros Hat Hl Hf Hwf.
  destruct (getline_delim MAX_MSG_SIZE _ _ _ Hat Hl Hf) as (st & Hg & Hat' & Hc & He).
  destruct (Line_Get_eq b p l st Hg Hwf) as (b1 & Hs & Hwf1 & ->).
  rewrite (good_is_ok st) by apply Hat'.
  eexists _, st. split; [done|]. split; [|done].
  rewrite He, Hc. replace (zlen l + 1 - 1) with (zlen l) by lia.
  unfold line_fits, MAX_MSG_SIZE in Hf. pose proof (zlen_nonneg l).
  unfold size_wrap. rewrite wrap_small by lia. exact (holds_store _ _ _ _ Hwf Hs).
Qed.

(** [Get] on a last line without a newline. *)
Lemma Line_Get_last b p l :
  good_at (is_ptr_ p) l → LF ∉ l → l ≠ [] → line_fits l → wf_MsgBuf b →
  ∃ b' st, Line_Get b p = (Ret (true, b'), set_istream st p) ∧ holds b' l ∧ good st = false.
Proof.
  intros Hat Hl Hne Hf Hwf.
  destruct (getline_eof MAX_MSG_SIZE _ _ Hat Hl Hne Hf) as (st & Hg & Hok & Hng & Hc & He).
  destruct (Line_Get_eq b p l st Hg Hwf) as (b1 & Hs & Hwf1 & ->).
  rewrite Hok, He, Hc, Z.sub_0_r.
  unfold line_fits, MAX_MSG_SIZE in Hf. pose proof (zlen_nonneg l).
  unfold size_wrap. rewrite wrap_small by lia.
  eexists _, st. split; [done|]. split; [exact (holds_store _ _ _ _ Hwf Hs)|done].
Qed.

(** Whenever [getline] fails, [Get] says no and empties the message. *)
Lemma Line_Get_fails b p :
  is_ok (getline MAX_MSG_SIZE (is_ptr_ p)).2 = false → wf_MsgBuf b →
  ∃ b' st, Line_Get b p = (Ret (false, b'), set_istream st p) ∧ len b' = 0
    ∧ wf_MsgBuf b' ∧ good st = false ∧ st = (getline MAX_MSG_SIZE (is_ptr_ p)).2.
Proof.
  intros Hok Hwf. destruct (getline MAX_MSG_SIZE (is_ptr_ p)) as [l st] eqn:Hg. cbn in Hok.
  destruct (Line_Get_eq b p l st Hg Hwf) as (b1 & Hs & Hwf1 & ->). rewrite Hok.
  eexists _, st. split; [done|]. split; [done|]. split; [by apply wf_set_len|].
  split; [by apply not_ok_not_good|done].
Qed.

Lemma Line_Put_ok b p m written :
  holds b m → m ≠ [] → os_ptr_ p = ostream_of written →
  Line_Put b p = (Ret (true, b), set_ostream (ostream_of (written ++ m ++ [LF])) p).
Proof.
  intros Hh Hm Ho. unfold Line_Put. rewrite (holds_len _ _ Hh).
  rewrite decide_False by (pose proof (zlen_nonneg m); intros ?; apply Hm, zlen_zero; lia).
  unfold cbind, clift. rewrite (holds_load _ _ Hh).
  unfold out_write, cmodify, cret. cbn. rewrite Ho, !os_write_append, <- app_assoc. done.
Qed.

Lemma Line_Put_empty b p : len b = 0 → Line_Put b p = (Ret (false, b), p).
Proof. intros Hl. unfold Line_Put. by rewrite decide_True by lia. Qed.

(** ** The contracts *)

(** The input side delivers the lines of what is left to read. *)
Definition line_source (p : Line) (ms : list bytes) : Prop :=
  Forall line_fits ms ∧
  ((∃ s, good_at (is_ptr_ (line_base p)) s ∧ split_lines s = ms)
   ∨ (good (is_ptr_ (line_base p)) = false ∧ ms = [])).

Lemma line_source_next p m ms b :
  line_source p (m :: ms) → wf_MsgBuf b →
  ∃ b' p', Get b p = (Ret (true, b'), p') ∧ holds b' m ∧ line_source p' ms.
Proof.
  intros [Hf [(s & Hat & Hs)|[_ ?]]] Hwf; [|done].
  inversion Hf as [|? ? Hm Hms]; subst.
  destruct (lines_cases s) as [->|[[Hni Hne]|(l & s' & -> & Hl)]]; [done|..].
  - rewrite split_lines_last in Hs by done. injection Hs as <- <-.
    destruct (Line_Get_last b _ s Hat Hni Hne Hm Hwf) as (b' & st & HG & Hh & Hng).
    eexists b', _. split; [cbn; by erewrite zoom_eq|]. split; [done|].
    split; [constructor|]. right. done.
  - rewrite split_lines_delim in Hs by done. injection Hs as <- <-.
    destruct (Line_Get_line b _ l s' Hat Hl Hm Hwf) as (b' & st & HG & Hh & Hg).
    eexists b', _. split; [cbn; by erewrite zoom_eq|]. split; [done|].
    split; [done|]. left. eauto.
Qed.

Lemma line_source_end p b :
  line_source p [] → wf_MsgBuf b →
  ∃ b' p', Get b p = (Ret (false, b'), p') ∧ wf_MsgBuf b' ∧ len b' = 0 ∧ line_source p' [].
Proof.
  intros [_ Hs] Hwf.
  assert (is_ok (getline MAX_MSG_SIZE (is_ptr_ (line_base p))).2 = false) as Hok.
  { destruct Hs as [(s & Hat & Hs)|[Hng _]]; [|by apply getline_not_good].
    destruct (lines_cases s) as [->|[[Hni Hne]|(l & s' & -> & Hl)]].
    - by apply getline_nothing.
    - by rewrite split_lines_last in Hs.
    - by rewrite split_lines_delim in Hs. }
  destruct (Line_Get_fails b _ Hok Hwf) as (b' & st & HG & Hl & Hwf' & Hng & _).
  eexists b', _. split; [cbn; by erewrite zoom_eq|]. split_and!; try done.
  split; [constructor|]. by right.
Qed.

#[export] Instance Line_source : MessageSource Line := {
  source_has := line_source;
  source_next := line_source_next;
  source_end := line_source_end }.

(** The output side appends the messages, one per line. *)
Definition line_sink (p : Line) (ms : list bytes) : Prop :=
  os_ptr_ (line_base p) = ostream_of (unlines ms).

Lemma line_sink_put p ms m b :
  line_sink p ms → holds b m → m ≠ [] →
  ∃ b' p', Put b p = (Ret (true, b'), p') ∧ holds b' m ∧ line_sink p' (ms ++ [m]).
Proof.
  intros Hs Hh Hm. eexists b, _. split.
  { cbn. apply zoom_eq. by eapply Line_Put_ok. }
  split; [done|]. unfold line_sink. cbn. rewrite unlines_app.
  unfold unlines at 3. cbn. by rewrite app_nil_r.
Qed.

Lemma line_sink_refuse p ms m b :
  line_sink p ms → holds b m → ¬ m ≠ [] →
  ∃ b' p', Put b p = (Ret (false, b'), p') ∧ wf_MsgBuf b' ∧ line_sink p' ms.
Proof.
  intros Hs Hh Hm. assert (m = []) as -> by (destruct m; [done|]; by destruct Hm).
  eexists b, _. split.
  { cbn. apply zoom_eq, Line_Put_empty. by rewrite (holds_len _ _ Hh). }
  split; [by eapply holds_wf|]. done.
Qed.

#[export] Instance Line_sink : MessageSink Line := {
  sink_has := line_sink;
  sink_ok m := m ≠ [];
  sink_put := line_sink_put;
  sink_refuse := line_sink_refuse }.

(** The stream a freshly started program reads. *)
Definition line_start (input : bytes) : Line :=
  mkLine (mkBase (istream_of input) (ostream_of [])).

Lemma line_start_source input :
  Forall line_fits (split_lines input) → line_source (line_start input) (split_lines input).
Proof. intros. split; [done|]. left. exists input. split; [apply good_at_istream_of|done]. Qed.
