(* ===== verification/Length.v ===== *)
(** * Length: the length-prefixed policies of [io_policy/length.hpp] and
    [io_policy/string.hpp]

    [Length] frames a message as its decimal length, one separator character
    and its bytes.  [String] is [Length] over one shared string buffer. *)

From S2P Require Import Prelude Text MsgBuf IOStream MsgFilter Line.

(** ** Length *)

(** [int size] needs no initial value: when [>>] leaves it unset the stream is
    no longer good and [size] is not used. *)
Definition Length_Get (b : MsgBuf) : comp IOStreamBase (bool * MsgBuf) :=
  let* p := cget in
  let '(size, st) := extract_int INT_MIN INT_MAX 0 (is_ptr_ p) in
  let* _ := cput (set_istream st p) in
  if negb (good st) then cret (false, set_len 0 b)
  else
    let '(data, st2) := read_chars size (get_char st) in
    let* _ := cput (set_istream st2 p) in
    let* d := clift data in
    let* b1 := clift (store d b) in
    cret (true, set_len (size_wrap size) b1).

Definition Length_Put (b : MsgBuf) : comp IOStreamBase (bool * MsgBuf) :=
  if decide (len b ≤ 0) then cret (false, b)
  else
    let* _ := out_write (dec (len b) ++ [SPACE]) in
    let* data := clift (load b) in
    let* _ := out_write data in
    cret (true, b).

(** [class Length : public IOStreamBase]. *)
Record Length := mkLength { length_base : IOStreamBase }.

#[export] Instance Length_IOPolicy : IOPolicy Length := {
  Get b := zoom length_base (λ p _, mkLength p) (Length_Get b);
  Put b := zoom length_base (λ p _, mkLength p) (Length_Put b) }.

(** The frame of a message, with the separator [sep] that [Get] skips. *)
Definition length_frame_with (sep : ascii) (m : bytes) : bytes := dec (zlen m) ++ sep :: m.
Definition length_frame (m : bytes) : bytes := length_frame_with SPACE m.

Definition length_frames (ms : list bytes) : bytes := concat (map length_frame ms).

Definition length_fits (m : bytes) : Prop := zlen m ≤ MAX_MSG_SIZE.

(** *** Lemmas *)

Lemma length_frames_app a b : length_frames (a ++ b) = length_frames a ++ length_frames b.
Proof. unfold length_frames. by rewrite map_app, concat_app. Qed.

(** [Get] on a whole frame, whatever follows it. *)
Lemma Length_Get_frame b p sep m s :
  good_at (is_ptr_ p) (length_frame_with sep m ++ s) → isdigit sep = false →
  length_fits m → wf_MsgBuf b →
  ∃ b' st, Length_Get b p = (Ret (true, b'), set_istream st p) ∧ holds b' m ∧ good_at st s.
Proof.
  intros Hat Hsep Hf Hwf. unfold length_frame_with in Hat. rewrite <- app_assoc in Hat.
  cbn [app] in Hat. pose proof (zlen_nonneg m). unfold length_fits, MAX_MSG_SIZE in Hf.
  destruct (extract_dec INT_MIN INT_MAX 0 _ (zlen m) sep (m ++ s) Hat) as (st1 & He & Hat1);
    [done|unfold INT_MIN, INT_MAX; lia|done|].
  destruct (read_chars_exact (get_char st1) m s) as (st2 & Hr & Hat2);
    [by eapply get_char_good|].
  destruct (store m b) as [b1| | | |] eqn:Hs;
    try (rewrite store_small in Hs by done; done).
  exists (set_len (zlen m) b1), st2.
  unfold Length_Get, cbind, cget, cput, clift. rewrite He, (proj1 Hat1). cbn.
  rewrite Hr, Hs. unfold size_wrap. rewrite wrap_small by lia.
  split; [done|]. split; [|done]. apply (holds_store m [] b b1 Hwf).
  by rewrite app_nil_r.
Qed.

Lemma Length_Get_end b p :
  good_at (is_ptr_ p) [] ∨ good (is_ptr_ p) = false →
  ∃ st, Length_Get b p = (Ret (false, set_len 0 b), set_istream st p) ∧ good st = false.
Proof.
  intros Hs.
  assert (∃ st, extract_int INT_MIN INT_MAX 0 (is_ptr_ p) = (0, st) ∧ good st = false)
    as (st & He & Hg) by (destruct Hs; [by apply extract_end|by apply extract_not_good]).
  exists st. unfold Length_Get, cbind, cget, cput. by rewrite He, Hg.
Qed.

Lemma Length_Put_ok b p m written :
  holds b m → m ≠ [] → os_ptr_ p = ostream_of written →
  Length_Put b p = (Ret (true, b), set_ostream (ostream_of (written ++ length_frame m)) p).
Proof.
  intros Hh Hm Ho. unfold Length_Put. rewrite (holds_len _ _ Hh).
  rewrite decide_False by (pose proof (zlen_nonneg m); intros ?; apply Hm, zlen_zero; lia).
  unfold cbind, clift. rewrite (holds_load _ _ Hh).
  unfold out_write, cmodify, cret, set_ostream. cbn. rewrite Ho, !os_write_append.
  unfold length_frame, length_frame_with. by rewrite <- !app_assoc.
Qed.

Lemma Length_Put_empty b p : len b = 0 → Length_Put b p = (Ret (false, b), p).
Proof. intros Hl. unfold Length_Put. by rewrite decide_True by lia. Qed.

(** *** The contracts *)

Definition length_source (p : Length) (ms : list bytes) : Prop :=
  Forall length_fits ms ∧
  (good_at (is_ptr_ (length_base p)) (length_frames ms)
   ∨ (good (is_ptr_ (length_base p)) = false ∧ ms = [])).

Lemma length_source_next p m ms b :
  length_source p (m :: ms) → wf_MsgBuf b →
  ∃ b' p', Get b p = (Ret (true, b'), p') ∧ holds b' m ∧ length_source p' ms.
Proof.
  intros [Hf [Hat|[_ ?]]] Hwf; [|done]. inversion Hf; subst.
  destruct (Length_Get_frame b _ SPACE m (length_frames ms) Hat) as (b' & st & HG & Hh & Hat');
    [done..|].
  eexists b', _. split; [cbn; by erewrite zoom_eq|]. split; [done|].
  split; [done|]. by left.
Qed.

Lemma length_source_end p b :
  length_source p [] → wf_MsgBuf b →
  ∃ b' p', Get b p = (Ret (false, b'), p') ∧ wf_MsgBuf b' ∧ len b' = 0 ∧ length_source p' [].
Proof.
  intros [_ Hs] Hwf.
  destruct (Length_Get_end b (length_base p)) as (st & HG & Hg); [naive_solver|].
  eexists _, _. split; [cbn; by erewrite zoom_eq|].
  split; [by apply wf_set_len|]. split; [done|]. split; [constructor|]. by right.
Qed.

#[export] Instance Length_source : MessageSource Length := {
  source_has := length_source;
  source_next := length_source_next;
  source_end := length_source_end }.

Definition length_sink (p : Length) (ms : list bytes) : Prop :=
  os_ptr_ (length_base p) = ostream_of (length_frames ms).

Lemma length_sink_put p ms m b :
  length_sink p ms → holds b m → m ≠ [] →
  ∃ b' p', Put b p = (Ret (true, b'), p') ∧ holds b' m ∧ length_sink p' (ms ++ [m]).
Proof.
  intros Hs Hh Hm. eexists b, _. split.
  { cbn. apply zoom_eq. by eapply Length_Put_ok. }
  split; [done|]. unfold length_sink. cbn. rewrite length_frames_app.
  unfold length_frames at 3. cbn. by rewrite app_nil_r.
Qed.

Lemma length_sink_refuse p ms m b :
  length_sink p ms → holds b m → ¬ m ≠ [] →
  ∃ b' p', Put b p = (Ret (false, b'), p') ∧ wf_MsgBuf b' ∧ length_sink p' ms.
Proof.
  intros Hs Hh Hm. assert (m = []) as -> by (destruct m; [done|]; by destruct Hm).
  eexists b, _. split.
  { cbn. apply zoom_eq, Length_Put_empty. by rewrite (holds_len _ _ Hh). }
  split; [by eapply holds_wf|]. done.
Qed.

#[export] Instance Length_sink : MessageSink Length := {
  sink_has := length_sink;
  sink_ok m := m ≠ [];
  sink_put := length_sink_put;
  sink_refuse := length_sink_refuse }.

Definition length_start (input : bytes) : Length :=
  mkLength (mkBase (istream_of input) (ostream_of [])).

(** ** String *)

(** [class String : public Length]: one [stringbuf] behind both streams, whose
    state bits the streams keep for themselves. *)
Record String_ := mkString {
  buf_ : streambuf;
  s_eof : bool; s_fail : bool; s_bad : bool; s_gcount : Z;
  s_obad : bool }.

Definition String_init : String_ := mkString (sb_of []) false false false 0 false.

(** The base class as its operations see it: both streams over [buf_]. *)
Definition String_base (s : String_) : IOStreamBase :=
  mkBase (mkIstream (buf_ s) (s_eof s) (s_fail s) (s_bad s) (s_gcount s))
         (mkOstream (buf_ s) (s_obad s)).

Definition String_after_Get (p : IOStreamBase) (s : String_) : String_ :=
  let st := is_ptr_ p in
  mkString (is_buf st) (eofbit st) (failbit st) (badbit st) (gcount st) (s_obad s).

Definition String_after_Put (p : IOStreamBase) (s : String_) : String_ :=
  mkString (os_buf (os_ptr_ p)) (s_eof s) (s_fail s) (s_bad s) (s_gcount s)
    (os_bad (os_ptr_ p)).

#[export] Instance String_IOPolicy : IOPolicy String_ := {
  Get b := zoom String_base String_after_Get (Length_Get b);
  Put b := zoom String_base String_after_Put (Length_Put b) }.

(** [Send] replaces the buffer; it does not clear the stream's state. *)
Definition Send (msg : bytes) : comp String_ unit :=
  cmodify (λ s, mkString (sb_of (dec (zlen msg) ++ [SPACE] ++ msg))
                  (s_eof s) (s_fail s) (s_bad s) (s_gcount s) (s_obad s)).

(** A reference to a local object of a function that has returned, with the
    value the object had. *)
Inductive expired (A : Type) := Expired (a : A).
Arguments Expired {A} a.

(** Using such a reference. *)
Definition use_expired {A} (r : expired A) : outcome A :=
  match r with Expired _ => Undef DanglingReference end.

(** [int(log10(size)) + 2], which is the length of the header for [size > 0];
    [log10] of zero or less has no [int] value. *)
Definition header_len (size : Z) : outcome Z :=
  if decide (size ≤ 0) then Undef FloatToInt else Ret (zlen (dec size) + 1).

(** [std::string(s.c_str() + off, n)]: the array ends with its NUL. *)
Definition string_from (s : bytes) (off n : Z) : outcome bytes :=
  if decide (zlen s + 1 < off + n) then Undef BufferOverread
  else Ret (take (Z.to_nat n) (drop (Z.to_nat off) (s ++ [NUL]))).

(** [Receive] returns an rvalue reference to its local [msg]. *)
Definition Receive : comp String_ (expired bytes) :=
  let* s := cget in
  let '(size, st) := extract_int INT_MIN INT_MAX 0 (is_ptr_ (String_base s)) in
  let* _ := cput (String_after_Get (mkBase st (os_ptr_ (String_base s))) s) in
  let* h := clift (header_len size) in
  let* msg := clift (string_from (sb_str (buf_ s)) h size) in
  cret (Expired msg).

(** *** Lemmas *)

(** The input side has not failed. *)
Definition String_good (s : String_) : Prop :=
  s_eof s = false ∧ s_fail s = false ∧ s_bad s = false.

Lemma String_good_iff s : String_good s ↔ good (is_ptr_ (String_base s)) = true.
Proof.
  unfold String_good, good. cbn.
  destruct (s_eof s), (s_fail s), (s_bad s); cbn; naive_solver.
Qed.

Lemma String_after_Get_bits p s :
  String_good (String_after_Get p s) ↔ good (is_ptr_ p) = true.
Proof. rewrite String_good_iff. unfold String_base, String_after_Get. cbn. by destruct (is_ptr_ p). Qed.

Lemma Send_eq msg s :
  Send msg s = (Ret tt, mkString (sb_of (length_frame msg))
                 (s_eof s) (s_fail s) (s_bad s) (s_gcount s) (s_obad s)).
Proof. done. Qed.

Lemma Send_Get_message msg b s :
  String_good s → length_fits msg → wf_MsgBuf b →
  ∃ b' s', (let* _ := Send msg in Get b) s = (Ret (true, b'), s')
    ∧ holds b' msg ∧ String_good s'.
Proof.
  intros Hg Hf Hwf. rewrite (cbind_ret _ _ _ _ _ (Send_eq msg s)).
  set (s1 := mkString _ _ _ _ _ _).
  destruct (Length_Get_frame b (String_base s1) SPACE msg []) as (b' & st & HG & Hh & Hat);
    [|done..|].
  { split; [by apply String_good_iff|].
    unfold is_rest, sb_rest. cbn. by rewrite app_nil_r. }
  eexists b', _. split; [cbn; by erewrite zoom_eq|]. split; [done|].
  apply String_after_Get_bits. apply Hat.
Qed.

(** A failed stream stays failed: [Send] does not revive it. *)
Lemma String_Get_dead b s :
  ¬ String_good s →
  ∃ s', Get b s = (Ret (false, set_len 0 b), s') ∧ ¬ String_good s'.
Proof.
  intros Hg. destruct (Length_Get_end b (String_base s)) as (st & HG & Hst).
  { right. destruct (good _) eqn:E; [|done]. by apply String_good_iff in E. }
  eexists. split; [cbn; by erewrite zoom_eq|].
  rewrite String_after_Get_bits. cbn. by rewrite Hst.
Qed.
