(* ===== verification/AutoFlush.v ===== *)
(** * AutoFlush: the flushing threads of [io_policy/iostream_base.hpp]

    [auto_flush] starts a detached thread that flushes the object's output
    stream ten times a second.  Here a stream keeps apart what its device has and
    what is still in its buffer; the owner of the object and the threads take
    steps in any order. *)

From S2P Require Import Prelude Text MsgBuf IOStream MsgFilter Line Length.

(** ** Streams with a buffer *)

Record bstream := mkBstream { device : bytes; pending : bytes }.

(** What was written to the stream. *)
Definition written (b : bstream) : bytes := device b ++ pending b.

(** [write]: the buffer passes on the first [k] of its characters when it is full. *)
Definition buf_write (data : bytes) (k : nat) (b : bstream) : bstream :=
  mkBstream (device b ++ take k (pending b ++ data)) (drop k (pending b ++ data)).

(** [flush]. *)
Definition buf_flush (b : bstream) : bstream := mkBstream (written b) [].

(** ** The object and its threads *)

Section flush.

(** A thread of [auto_flush] is in its [sleep_for] or about to flush. *)
Inductive flusher := Asleep | Awake.

#[export] Instance flusher_eq_dec : EqDecision flusher.
Proof. solve_decision. Defined.

(** The object: the stream it points to, the streams by address, the threads
    started on it and whether it is there. *)
Record fl_state := mkFl {
  fl_os_ptr : nat; fl_streams : gmap nat bstream; fl_threads : list flusher; fl_alive : bool }.

Definition set_streams (m : gmap nat bstream) (s : fl_state) : fl_state :=
  mkFl (fl_os_ptr s) m (fl_threads s) (fl_alive s).
Definition set_threads (ts : list flusher) (s : fl_state) : fl_state :=
  mkFl (fl_os_ptr s) (fl_streams s) ts (fl_alive s).

(** What the owner does: [set_ostream], [os_ptr_->write], [auto_flush] and the end
    of the object; and what a thread does. *)
Inductive fl_event :=
  | SetOstream (p : nat)
  | OwnerWrite (data : bytes) (k : nat)
  | AutoFlush
  | Destroy
  | WakeUp (i : nat)
  | Flush (i : nat).

(** An operation on the stream [os_ptr_] points to. *)
Definition on_stream (f : bstream → bstream) : comp fl_state unit := λ s,
  match fl_streams s !! fl_os_ptr s with
  | Some b => (Ret tt, set_streams (<[fl_os_ptr s := f b]> (fl_streams s)) s)
  | None => (Undef NullDeref, s)
  end.

(** The use of [this]. *)
Definition on_this (c : comp fl_state unit) : comp fl_state unit := λ s,
  if fl_alive s then c s else (Undef DanglingReference, s).

Definition auto_flush : comp fl_state unit := cmodify (λ s, set_threads (fl_threads s ++ [Asleep]) s).

(** One round of the thread's loop is two steps. *)
Definition flush_wake (i : nat) : comp fl_state unit := cmodify (λ s, set_threads (<[i := Awake]> (fl_threads s)) s).
Definition flush_once (i : nat) : comp fl_state unit :=
  let* _ := on_this (on_stream buf_flush) in
  cmodify (λ s, set_threads (<[i := Asleep]> (fl_threads s)) s).

(** The step an event is, when it can happen; the owner does not use an object it
    has destroyed. *)
Definition fl_step (e : fl_event) (s : fl_state) : option (outcome unit * fl_state) :=
  match e with
  | SetOstream p =>
      if fl_alive s then
        Some (cmodify (λ s, mkFl p (fl_streams s) (fl_threads s) (fl_alive s)) s) else None
  | OwnerWrite data k => if fl_alive s then Some (on_stream (buf_write data k) s) else None
  | AutoFlush => if fl_alive s then Some (auto_flush s) else None
  | Destroy =>
      if fl_alive s then
        Some (cmodify (λ s, mkFl (fl_os_ptr s) (fl_streams s) (fl_threads s) false) s) else None
  | WakeUp i => if decide (fl_threads s !! i = Some Asleep) then Some (flush_wake i s) else None
  | Flush i => if decide (fl_threads s !! i = Some Awake) then Some (flush_once i s) else None
  end.

Fixpoint fl_run (es : list fl_event) (s : fl_state) : option (outcome unit * fl_state) :=
  match es with
  | [] => Some (Ret tt, s)
  | e :: es' =>
      match fl_step e s with
      | Some (Ret _, s') => fl_run es' s'
      | r => r
      end
  end.

(** ** The specification: streams without a buffer and no threads *)

(** The owner's program on the streams of [IOStream]. *)
Fixpoint owner_run (es : list fl_event) (p : nat) (m : gmap nat ostream) : nat * gmap nat ostream :=
  match es with
  | [] => (p, m)
  | SetOstream q :: es' => owner_run es' q m
  | OwnerWrite data _ :: es' => owner_run es' p (alter (os_write data) p m)
  | _ :: es' => owner_run es' p m
  end.

(** The streams as the owner means them. *)
Definition meant (m : gmap nat bstream) : gmap nat ostream := (λ b, ostream_of (written b)) <$> m.

(** ** Lemmas *)

Lemma written_write data k b : written (buf_write data k b) = written b ++ data.
Proof. unfold written, buf_write. cbn. by rewrite <- app_assoc, take_drop, app_assoc. Qed.

Lemma written_flush b : written (buf_flush b) = written b.
Proof. unfold written, buf_flush. cbn. by rewrite app_nil_r. Qed.

Lemma device_written b : device b `prefix_of` written b.
Proof. by exists (pending b). Qed.

Lemma on_stream_ok f s o s' :
  on_stream f s = (Ret o, s') →
  ∃ b, fl_streams s !! fl_os_ptr s = Some b
    ∧ s' = set_streams (<[fl_os_ptr s := f b]> (fl_streams s)) s.
Proof.
  unfold on_stream. destruct (fl_streams s !! fl_os_ptr s) as [b|]; [|done].
  intros [= _ <-]. eauto.
Qed.

Lemma meant_write data k p b (m : gmap nat bstream) :
  m !! p = Some b → meant (<[p := buf_write data k b]> m) = alter (os_write data) p (meant m).
Proof.
  intros Hp. apply map_eq. intros q. unfold meant. rewrite lookup_fmap.
  destruct (decide (q = p)) as [->|Hq].
  - rewrite lookup_insert_eq, lookup_alter_eq, lookup_fmap, Hp.
    change (Some (ostream_of (written (buf_write data k b)))
            = Some (os_write data (ostream_of (written b)))).
    by rewrite written_write, os_write_append.
  - by rewrite lookup_insert_ne, lookup_alter_ne, lookup_fmap by done.
Qed.

Lemma meant_flush p b (m : gmap nat bstream) :
  m !! p = Some b → meant (<[p := buf_flush b]> m) = meant m.
Proof.
  intros Hp. apply map_eq. intros q. unfold meant. rewrite !lookup_fmap.
  destruct (decide (q = p)) as [->|Hq].
  - rewrite lookup_insert_eq, Hp.
    change (Some (ostream_of (written (buf_flush b))) = Some (ostream_of (written b))).
    by rewrite written_flush.
  - by rewrite lookup_insert_ne by done.
Qed.

(** A step of a thread changes nothing the owner means. *)
Lemma flush_once_ok i s o s' :
  flush_once i s = (Ret o, s') →
  ∃ b, fl_alive s = true ∧ fl_streams s !! fl_os_ptr s = Some b
    ∧ fl_streams s' = <[fl_os_ptr s := buf_flush b]> (fl_streams s)
    ∧ fl_os_ptr s' = fl_os_ptr s ∧ fl_alive s' = true.
Proof.
  unfold flush_once, on_this, cbind. destruct (fl_alive s) eqn:Ha; [|done].
  destruct (on_stream buf_flush s) as [[[]| | | |] s1] eqn:E; try done.
  apply on_stream_ok in E as (b & Hb & ->). intros [= _ <-]. exists b. by rewrite <- Ha.
Qed.

Lemma fl_step_meant e s o s' :
  fl_step e s = Some (Ret o, s') →
  owner_run [e] (fl_os_ptr s) (meant (fl_streams s)) = (fl_os_ptr s', meant (fl_streams s')).
Proof.
  destruct e as [p|data k| | |i|i]; cbn [fl_step owner_run].
  1-4: destruct (fl_alive s); [|done].
  1,3,4: by intros [= _ <-].
  - intros [= E]. apply on_stream_ok in E as (b & Hb & ->). cbn. by erewrite meant_write.
  - case_decide; [|done]. by intros [= _ <-].
  - case_decide; [|done]. intros [= E]. apply flush_once_ok in E as (b & _ & Hb & -> & -> & _).
    by rewrite meant_flush.
Qed.

Lemma owner_run_app es es' p m :
  owner_run (es ++ es') p m = let '(p1, m1) := owner_run es p m in owner_run es' p1 m1.
Proof. revert p m. induction es as [|e es IH]; intros p m; [done|]. destruct e; cbn [app owner_run]; auto. Qed.

Lemma fl_run_meant es s o s' :
  fl_run es s = Some (Ret o, s') →
  owner_run es (fl_os_ptr s) (meant (fl_streams s)) = (fl_os_ptr s', meant (fl_streams s')).
Proof.
  revert s. induction es as [|e es IH]; intros s; cbn [fl_run].
  - by intros [= _ <-].
  - destruct (fl_step e s) as [[[[]| | | |] s1]|] eqn:E; try done. intros Hr.
    change (e :: es) with ([e] ++ es). rewrite owner_run_app, (fl_step_meant _ _ _ _ E). by apply IH.
Qed.

(** A device never loses what it has. *)
Lemma fl_step_device e s o s' p b :
  fl_step e s = Some (o, s') → fl_streams s !! p = Some b →
  ∃ b', fl_streams s' !! p = Some b' ∧ device b `prefix_of` device b'.
Proof.
  assert (Hins : ∀ (f : bstream → bstream) q c (m : gmap nat bstream), (∀ b, device b `prefix_of` device (f b)) →
    m !! q = Some c → m !! p = Some b →
    ∃ b', <[q := f c]> m !! p = Some b' ∧ device b `prefix_of` device b').
  { intros f q c m Hf Hq Hp. destruct (decide (q = p)) as [->|Hne].
    - rewrite lookup_insert_eq. rewrite Hq in Hp. injection Hp as ->. eauto.
    - rewrite lookup_insert_ne by done. eauto. }
  intros E Hb. destruct e as [q|data k| | |i|i]; cbn [fl_step] in E.
  1-4: destruct (fl_alive s); [|done].
  1,3,4: injection E as _ <-; eauto.
  - injection E as E. unfold on_stream in E. destruct (_ !! fl_os_ptr s) eqn:Hq; injection E as _ <-; [|eauto].
    cbn. apply Hins; [|done|done]. intros x. by eexists.
  - case_decide; [|done]. injection E as _ <-. eauto.
  - case_decide; [|done]. injection E as E. unfold flush_once, on_this, cbind, on_stream in E.
    destruct (fl_alive s); [|injection E as _ <-; eauto].
    destruct (_ !! fl_os_ptr s) eqn:Hq; injection E as _ <-; [|eauto].
    cbn. apply Hins; [|done|done]. intros x. by exists (pending x).
Qed.

End flush.

(** What the owner writes. *)
Definition owner_data (es : list fl_event) : list bytes :=
  omap (λ e, match e with OwnerWrite data _ => Some data | _ => None end) es.

Definition keeps_ostream (e : fl_event) : Prop := match e with SetOstream _ => False | _ => True end.

Lemma owner_run_writes es p m w :
  Forall keeps_ostream es → m !! p = Some (ostream_of w) →
  (owner_run es p m).1 = p ∧ (owner_run es p m).2 !! p = Some (ostream_of (w ++ concat (owner_data es))).
Proof.
  intros He. revert m w. induction He as [|e es Hk He IH]; intros m w Hm; cbn [owner_run].
  { by rewrite app_nil_r. }
  destruct e as [q|data k| | |i|i]; cbn [keeps_ostream] in Hk; try done; try by apply IH.
  cbn [owner_data omap list_omap concat]. rewrite app_assoc. apply IH.
  rewrite lookup_alter_eq, Hm. exact (f_equal Some (os_write_append data w)).
Qed.

(** The writes of a [Put], as the two policies make them. *)
Definition line_writes (m : bytes) : list bytes := [m; [LF]].
Definition length_writes (m : bytes) : list bytes := [dec (zlen m); [SPACE]; m].

Lemma line_writes_put b p m w p' :
  holds b m → m ≠ [] → os_ptr_ p = ostream_of w → Line_Put b p = (Ret (true, b), p') →
  os_ptr_ p' = ostream_of (w ++ concat (line_writes m)).
Proof.
  intros Hh Hm Ho. rewrite (Line_Put_ok b p m w Hh Hm Ho). by intros [= <-].
Qed.

Lemma length_writes_put b p m w p' :
  holds b m → m ≠ [] → os_ptr_ p = ostream_of w → Length_Put b p = (Ret (true, b), p') →
  os_ptr_ p' = ostream_of (w ++ concat (length_writes m)).
Proof.
  intros Hh Hm Ho. rewrite (Length_Put_ok b p m w Hh Hm Ho). intros [= <-]. cbn [concat length_writes].
  by rewrite app_nil_r.
Qed.

(** The next round of a thread that is asleep, the object still there. *)
Lemma flush_round i s b :
  fl_threads s !! i = Some Asleep → fl_alive s = true → fl_streams s !! fl_os_ptr s = Some b →
  ∃ s', fl_run [WakeUp i; Flush i] s = Some (Ret tt, s')
    ∧ fl_streams s' = <[fl_os_ptr s := buf_flush b]> (fl_streams s).
Proof.
  intros Hi Ha Hb. cbn [fl_run fl_step]. rewrite decide_True by done. unfold flush_wake, cmodify.
  cbn [set_threads fl_threads]. rewrite list_lookup_insert_eq by by eapply lookup_lt_Some.
  rewrite decide_True by done. unfold flush_once, on_this, cbind, on_stream, cmodify.
  cbn [set_threads fl_alive fl_streams fl_os_ptr]. rewrite Ha, Hb. by eexists.
Qed.

(** ** Properties *)

(** However the flushing threads interleave with the owner of the object, and
    wherever the streams pass on their characters, every stream has been written
    what the owner wrote, in order: the streams without a buffer and the program
    without the threads are its specification.  No device ever loses or reorders
    anything. *)
Theorem auto_flush_refines es s s' :
  fl_run es s = Some (Ret tt, s') →
  owner_run es (fl_os_ptr s) (meant (fl_streams s)) = (fl_os_ptr s', meant (fl_streams s'))
  ∧ ∀ p b, fl_streams s !! p = Some b →
      ∃ b', fl_streams s' !! p = Some b' ∧ device b `prefix_of` device b'
            ∧ device b' `prefix_of` written b'.
Proof.
  intros Hr. split; [by apply fl_run_meant in Hr|]. revert s Hr.
  induction es as [|e es IH]; intros s Hr p b Hb; cbn [fl_run] in Hr.
  { injection Hr as <-. exists b. split; [done|]. split; [done|apply device_written]. }
  destruct (fl_step e s) as [[[[]| | | |] s1]|] eqn:E; try done.
  destruct (fl_step_device _ _ _ _ _ _ E Hb) as (b1 & Hb1 & Hp).
  destruct (IH s1 Hr p b1 Hb1) as (b' & Hb' & Hp' & Hw). exists b'. split; [done|]. split; [|done].
  by etrans.
Qed.

(** Messages put by [Line], each as its two writes, while threads flush: the
    stream has been written the messages a line each, and the next round of a
    thread has them all on the device.  In between the device has a beginning of
    them, which may end inside a line.  After the object's end the next round is a
    use of it. *)
Theorem auto_flush_shows es s s' ms b i :
  fl_run es s = Some (Ret tt, s') → Forall keeps_ostream es →
  owner_data es = concat (map line_writes ms) →
  fl_streams s !! fl_os_ptr s = Some b → fl_threads s' !! i = Some Asleep →
  ∃ b', fl_streams s' !! fl_os_ptr s = Some b' ∧ written b' = written b ++ unlines ms
    ∧ (fl_alive s' = true →
       ∃ s'' b'', fl_run [WakeUp i; Flush i] s' = Some (Ret tt, s'')
         ∧ fl_streams s'' !! fl_os_ptr s = Some b'' ∧ device b'' = written b ++ unlines ms)
    ∧ (fl_alive s' = false → ∃ s'', fl_run [WakeUp i; Flush i] s' = Some (Undef DanglingReference, s'')).
Proof.
  intros Hr Hk Hd Hb Hi. pose proof (fl_run_meant _ _ _ _ Hr) as Hm.
  destruct (owner_run_writes es (fl_os_ptr s) (meant (fl_streams s)) (written b) Hk) as [Hp Hw].
  { unfold meant. by rewrite lookup_fmap, Hb. }
  rewrite Hm in Hp, Hw. cbn [fst snd] in Hp, Hw.
  assert (Hc : concat (owner_data es) = unlines ms).
  { rewrite Hd. unfold unlines. clear. induction ms as [|m ms IH]; [done|].
    cbn. by rewrite IH, <- app_assoc. }
  rewrite Hc in Hw. unfold meant in Hw. rewrite lookup_fmap in Hw.
  destruct (fl_streams s' !! fl_os_ptr s) as [b'|] eqn:Hb'; [|done]. cbn in Hw.
  injection Hw as Hw _. exists b'. split; [done|]. split; [done|]. split; intros Ha.
  - rewrite <- Hp in Hb'. destruct (flush_round i s' b' Hi Ha Hb') as (s'' & HF & Hs).
    exists s'', (buf_flush b'). rewrite Hs, Hp, lookup_insert_eq. by cbn.
  - cbn [fl_run fl_step]. rewrite decide_True by done. unfold flush_wake, cmodify.
    cbn [set_threads fl_threads]. rewrite list_lookup_insert_eq by by eapply lookup_lt_Some.
    rewrite decide_True by done. unfold flush_once, on_this, cbind. cbn [set_threads fl_alive].
    rewrite Ha. by eexists.
Qed.

(** ** Witnesses *)

(** An object with a thread and an empty stream; a flush falls between the two
    writes of the second message. *)
Definition fl_start : fl_state := mkFl 0 {[0%nat := mkBstream [] []]} [Asleep] true.

Definition fl_events : list fl_event :=
  [OwnerWrite (str "ab") 0; WakeUp 0; OwnerWrite [LF] 1; OwnerWrite (str "cd") 0; Flush 0; OwnerWrite [LF] 0].

Definition fl_after (es : list fl_event) : fl_state :=
  match fl_run es fl_start with Some (_, s) => s | None => fl_start end.

(** Half a line is on the device. *)
Example half_a_line :
  device <$> fl_streams (fl_after fl_events) !! 0%nat = Some (str "ab" ++ [LF] ++ str "cd").
Proof. reflexivity. Qed.

Lemma auto_flush_refines_witness :
  owner_run fl_events 0 (meant {[0%nat := mkBstream [] []]})
  = (0%nat, meant (fl_streams (fl_after fl_events))).
Proof.
  apply (auto_flush_refines fl_events fl_start (fl_after fl_events)). vm_compute. reflexivity.
Defined.

Lemma auto_flush_shows_witness :
  ∃ b', fl_streams (fl_after fl_events) !! 0%nat = Some b'
    ∧ written b' = [] ++ unlines [str "ab"; str "cd"].
Proof.
  destruct (auto_flush_shows fl_events fl_start (fl_after fl_events) [str "ab"; str "cd"] (mkBstream [] []) 0)
    as (b' & Hb & Hw & _).
  - vm_compute. reflexivity.
  - by repeat constructor.
  - reflexivity.
  - reflexivity.
  - vm_compute. reflexivity.
  - exists b'. split; [exact Hb|exact Hw].
Defined.
