(* ===== verification/Logger.v ===== *)
(** * Logger: the formatted logging of [logger.hpp]

    [log] splits its format at ["{}"], takes a process-wide mutex, prints a
    time stamp and interleaves the segments with the arguments.  The mutex is
    released only on the normal path. *)

From S2P Require Import Prelude Text.

(** The state of the logger: [logger::mutex] and what went to [std::cerr]. *)
Record Logger := mkLogger { log_locked : bool; log_cerr : bytes }.

Definition Logger_init : Logger := mkLogger false [].

Definition placeholder : bytes := str "{}".

(** [mutex.lock()]: a mutex that nobody will release is never acquired. *)
Definition log_lock : comp Logger unit := λ s,
  if log_locked s then (Undef SelfDeadlock, s) else (Ret tt, mkLogger true (log_cerr s)).
Definition log_unlock : comp Logger unit :=
  cmodify (λ s, mkLogger false (log_cerr s)).
Definition cerr_write (data : bytes) : comp Logger unit :=
  cmodify (λ s, mkLogger (log_locked s) (log_cerr s ++ data)).

(** The [do ... while] loop that fills [segments]; the search position grows
    with every round, so [length format + 1] rounds are enough. *)
Fixpoint segments_from (fuel : nat) (format : bytes) (seg_begin_pos : Z)
  : outcome (list bytes) :=
  match fuel with
  | O => Ret []
  | S fuel' =>
      let seg_end_pos := find_from format placeholder seg_begin_pos in
      match substr format seg_begin_pos (size_wrap (seg_end_pos - seg_begin_pos)) with
      | Ret seg =>
          if decide (seg_end_pos = npos) then Ret [seg]
          else match segments_from fuel' format (size_wrap (seg_end_pos + 2)) with
               | Ret segs => Ret (seg :: segs)
               | o => o
               end
      | Throw e => Throw e
      | AssertFailed => AssertFailed
      | Waits => Waits
      | Undef u => Undef u
      end
  end.

Definition segments_of (format : bytes) : outcome (list bytes) :=
  segments_from (S (length format)) format 0.

(** [priv::dispatch_r]: the two overloads, the first for the last argument. *)
Fixpoint dispatch_r (iter : list bytes) (oss : bytes) (args : list bytes)
  : outcome bytes :=
  match args with
  | [] => Ret oss
  | last :: [] =>
      match iter with
      | [] => Undef EndDeref
      | [_] => Undef EndDeref
      | [s1; s2] => Ret (oss ++ s1 ++ last ++ s2)
      | _ => Throw (str "not enough argument given")
      end
  | head :: tail =>
      match iter with
      | [] => Undef EndDeref
      | s1 :: iter' => dispatch_r iter' (oss ++ s1 ++ head) tail
      end
  end.

(** [time_str] is what [std::ctime] returned for the current time. *)
Definition time_prefix (time_str : bytes) : outcome bytes :=
  match substr time_str 0 (size_wrap (zlen time_str - 1)) with
  | Ret t => Ret (str "[" ++ t ++ str "] ")
  | o => o
  end.

(** [log(format, head, tail...)], the arguments as [operator<<] prints them. *)
Definition log (time_str format : bytes) (args : list bytes) : comp Logger unit :=
  let* segments := clift (segments_of format) in
  let* _ := log_lock in
  let* prefix := clift (time_prefix time_str) in
  let* _ := cerr_write prefix in
  let* line := clift (dispatch_r segments [] args) in
  let* _ := cerr_write (line ++ [LF]) in
  log_unlock.

(** [log(msg)]. *)
Definition log_msg (time_str msg : bytes) : comp Logger unit :=
  let* _ := log_lock in
  let* prefix := clift (time_prefix time_str) in
  let* _ := cerr_write prefix in
  let* _ := cerr_write (msg ++ [LF]) in
  log_unlock.

(** ** The reference: splitting at the placeholders *)

Fixpoint split_format (fuel : nat) (s : bytes) : list bytes :=
  match fuel, index_of_sub placeholder s with
  | S fuel', Some i => take i s :: split_format fuel' (drop (i + 2) s)
  | _, _ => [s]
  end.

Definition format_segments (format : bytes) : list bytes :=
  split_format (length format) format.

(** The segments with the arguments between them. *)
Fixpoint interleave (segs args : list bytes) {struct args} : bytes :=
  match args with
  | [] => match segs with [s] => s | _ => [] end
  | a :: args' =>
      match segs with
      | [] => []
      | s :: segs' => s ++ a ++ interleave segs' args'
      end
  end.

(** ** Lemmas *)

Lemma starts_with_length needle s : starts_with needle s = true → (length needle ≤ length s)%nat.
Proof.
  revert s. induction needle as [|n needle IH]; intros s; cbn; [lia|].
  destruct s as [|c s]; [done|]. intros [_ H]%andb_prop. cbn. apply IH in H. lia.
Qed.

Lemma index_of_sub_bound needle s i :
  index_of_sub needle s = Some i → (i + length needle ≤ length s)%nat.
Proof.
  revert i. induction s as [|c s IH]; intros i; cbn.
  - destruct (starts_with needle []) eqn:E; [|done]. intros [= <-].
    apply starts_with_length in E. cbn in *. lia.
  - destruct (starts_with needle (c :: s)) eqn:E.
    + intros [= <-]. apply starts_with_length in E. cbn in *. lia.
    + destruct (index_of_sub needle s) as [j|] eqn:Ej; [|done].
      intros [= <-]. specialize (IH j eq_refl). lia.
Qed.

Lemma starts_with_app needle s : starts_with needle s = true → ∃ t, s = needle ++ t.
Proof.
  revert s. induction needle as [|n needle IH]; intros s; cbn; [eauto|].
  destruct s as [|c s]; [done|].
  intros [->%bool_decide_eq_true Hs]%andb_prop.
  destruct (IH s Hs) as [t ->]. by exists t.
Qed.

Lemma index_of_sub_split needle s i :
  index_of_sub needle s = Some i →
  s = take i s ++ needle ++ drop (i + length needle) s.
Proof.
  revert i. induction s as [|c s IH]; intros i; cbn [index_of_sub].
  - destruct (starts_with needle []) eqn:E; [|done]. intros [= <-].
    apply starts_with_app in E as [t Ht]. rewrite Ht at 1. cbn.
    rewrite Ht. by rewrite drop_app_length.
  - destruct (starts_with needle (c :: s)) eqn:E.
    + intros [= <-]. apply starts_with_app in E as [t Ht]. rewrite Ht at 1. cbn.
      rewrite Ht. by rewrite drop_app_length.
    + destruct (index_of_sub needle s) as [j|] eqn:Ej; [|done].
      intros [= <-]. cbn. f_equal. by apply IH.
Qed.

Lemma split_format_length_pos fuel s : (0 < length (split_format fuel s))%nat.
Proof.
  destruct fuel; cbn [split_format]; [cbn; lia|].
  destruct (index_of_sub placeholder s); cbn [length]; lia.
Qed.

(** A smaller bound on the rounds gives the same segments once it covers the
    text. *)
Lemma split_format_fuel fuel fuel' s :
  (length s ≤ fuel)%nat → (length s ≤ fuel')%nat → split_format fuel s = split_format fuel' s.
Proof.
  revert fuel' s. induction fuel as [|fuel IH]; intros fuel' s Hf Hf'.
  - assert (s = []) as -> by (destruct s; cbn in Hf; [done|lia]).
    by destruct fuel'.
  - cbn [split_format]. destruct fuel' as [|fuel'].
    + assert (s = []) as -> by (destruct s; cbn in Hf'; [done|lia]). done.
    + cbn [split_format].
      destruct (index_of_sub placeholder s) as [i|] eqn:E; [|done].
      f_equal. apply index_of_sub_bound in E. cbn in E.
      apply IH; rewrite length_drop; lia.
Qed.

(** The loop computes the reference segments of the text it has left. *)
Lemma segments_from_spec fuel format pos :
  (length (drop (Z.to_nat pos) format) < fuel)%nat → 0 ≤ pos ≤ zlen format →
  zlen format < 2 ^ 63 →
  segments_from fuel format pos
  = Ret (split_format (length (drop (Z.to_nat pos) format)) (drop (Z.to_nat pos) format)).
Proof.
  revert pos. induction fuel as [|fuel IH]; intros pos Hf Hpos Hbig; [lia|].
  set (s := drop (Z.to_nat pos) format) in *.
  assert (Hlen : zlen s = zlen format - pos).
  { unfold s, zlen. rewrite length_drop. unfold zlen in Hpos. lia. }
  cbn [segments_from]. unfold find_from.
  rewrite decide_False by lia. fold s.
  destruct (index_of_sub placeholder s) as [i|] eqn:E.
  - pose proof (index_of_sub_bound _ _ _ E) as Hi. cbn in Hi.
    assert (Z.of_nat i + 2 ≤ zlen s) by (unfold zlen; lia).
    unfold npos, size_wrap in *.
    rewrite !wrap_small by lia.
    unfold substr. rewrite decide_False by lia. fold s.
    replace (Z.min _ _) with (Z.of_nat i) by lia.
    rewrite Nat2Z.id. rewrite decide_False by lia.
    replace (pos + Z.of_nat i + 2) with (pos + Z.of_nat (i + 2)) by lia.
    assert (Hd : drop (Z.to_nat (pos + Z.of_nat (i + 2))) format = drop (i + 2) s).
    { unfold s. rewrite drop_drop. f_equal. lia. }
    rewrite IH; rewrite ?Hd; try lia; [|rewrite length_drop; lia].
    destruct (length s) as [|n] eqn:En; [lia|]. cbn [split_format]. rewrite E.
    do 2 f_equal. apply split_format_fuel; rewrite ?length_drop; lia.
  - unfold substr. rewrite decide_False by lia. fold s.
    rewrite decide_True by done.
    assert (take (Z.to_nat (Z.min (size_wrap (npos - pos)) (zlen format - pos))) s = s) as ->.
    { unfold size_wrap, npos. rewrite wrap_small by lia. apply take_ge.
      unfold zlen in *. lia. }
    destruct (length s) as [|n] eqn:En; cbn [split_format]; by rewrite ?E.
Qed.

Lemma segments_of_spec format :
  zlen format < 2 ^ 63 → segments_of format = Ret (format_segments format).
Proof.
  intros Hb. unfold segments_of, format_segments. rewrite segments_from_spec.
  - by rewrite drop_0.
  - rewrite drop_0. lia.
  - pose proof (zlen_nonneg format). lia.
  - done.
Qed.

Lemma interleave_cons s a segs args :
  interleave (s :: segs) (a :: args) = s ++ a ++ interleave segs args.
Proof. done. Qed.

Lemma dispatch_r_exact segs args oss :
  args ≠ [] → length segs = S (length args) →
  dispatch_r segs oss args = Ret (oss ++ interleave segs args).
Proof.
  revert segs oss. induction args as [|a args IH]; intros segs oss Hne Hl; [done|].
  destruct args as [|a' args].
  - destruct segs as [|s1 [|s2 [|??]]]; cbn in Hl; try lia. done.
  - destruct segs as [|s1 segs]; cbn in Hl; [lia|].
    cbn [dispatch_r]. rewrite IH by (done || (cbn in *; lia)).
    by rewrite (interleave_cons s1 a), <- !app_assoc.
Qed.

Lemma dispatch_r_missing segs args oss :
  args ≠ [] → (S (length args) < length segs)%nat →
  dispatch_r segs oss args = Throw (str "not enough argument given").
Proof.
  revert segs oss. induction args as [|a args IH]; intros segs oss Hne Hl; [done|].
  destruct args as [|a' args].
  - destruct segs as [|s1 [|s2 [|??]]]; cbn in Hl; try lia. done.
  - destruct segs as [|s1 segs]; cbn in Hl; [lia|].
    cbn [dispatch_r]. apply IH; [done|cbn in *; lia].
Qed.

Lemma dispatch_r_extra segs args oss :
  args ≠ [] → (length segs < S (length args))%nat →
  dispatch_r segs oss args = Undef EndDeref.
Proof.
  revert segs oss. induction args as [|a args IH]; intros segs oss Hne Hl; [done|].
  destruct args as [|a' args].
  - destruct segs as [|s1 [|s2 [|??]]]; cbn in Hl; try lia; done.
  - destruct segs as [|s1 segs]; cbn in Hl; [done|].
    cbn [dispatch_r]. apply IH; [done|cbn in *; lia].
Qed.

Lemma time_prefix_line t :
  zlen t < 2 ^ 63 → time_prefix (t ++ [LF]) = Ret (str "[" ++ t ++ str "] ").
Proof.
  intros Hb. unfold time_prefix. rewrite zlen_app.
  change (zlen [LF]) with 1. replace (zlen t + 1 - 1) with (zlen t) by lia.
  pose proof (zlen_nonneg t). unfold size_wrap. rewrite wrap_small by lia.
  by rewrite substr_prefix.
Qed.

(** What [log] does, by the number of segments against the number of
    arguments. *)
Lemma log_eq t format args s :
  log_locked s = false → zlen t < 2 ^ 63 → zlen format < 2 ^ 63 →
  log (t ++ [LF]) format args s
  = let head := log_cerr s ++ str "[" ++ t ++ str "] " in
    match dispatch_r (format_segments format) [] args with
    | Ret line => (Ret tt, mkLogger false ((head ++ line ++ [LF])))
    | Throw e => (Throw e, mkLogger true head)
    | AssertFailed => (AssertFailed, mkLogger true head)
    | Waits => (Waits, mkLogger true head)
    | Undef u => (Undef u, mkLogger true head)
    end.
Proof.
  intros Hl Ht Hf. unfold log, cbind, clift, log_lock, log_unlock, cerr_write, cmodify.
  rewrite segments_of_spec, Hl, time_prefix_line by done. cbn [log_cerr log_locked].
  by destruct (dispatch_r _ _ _).
Qed.

(** Reassembling the segments with the placeholder gives the format back. *)
Lemma format_segments_join format :
  interleave (format_segments format)
    (replicate (pred (length (format_segments format))) placeholder) = format.
Proof.
  unfold format_segments.
  enough (∀ n s, (length s ≤ n)%nat → interleave (split_format n s)
    (replicate (pred (length (split_format n s))) placeholder) = s) as H by by apply H.
  induction n as [|n IH]; intros s Hs.
  - assert (s = []) as -> by (destruct s; cbn in Hs; [done|lia]). done.
  - cbn [split_format]. destruct (index_of_sub placeholder s) as [i|] eqn:E; [|done].
    pose proof (index_of_sub_bound _ _ _ E) as Hb. cbn in Hb.
    pose proof (split_format_length_pos n (drop (i + 2) s)) as Hp.
    specialize (IH (drop (i + 2) s)). rewrite length_drop in IH.
    specialize (IH ltac:(lia)).
    destruct (split_format n (drop (i + 2) s)) as [|x xs] eqn:Ex; [cbn in Hp; lia|].
    cbn [length pred replicate] in *.
    rewrite interleave_cons, IH. symmetry. by apply (index_of_sub_split placeholder).
Qed.

(** ** Properties *)

(** A call with as many arguments as its format has placeholders prints one
    line, the time stamp and the format with each placeholder replaced by its
    argument, and leaves the mutex free. *)
Theorem log_prints_line t format args s :
  log_locked s = false → zlen t < 2 ^ 63 → zlen format < 2 ^ 63 →
  args ≠ [] → length (format_segments format) = S (length args) →
  log (t ++ [LF]) format args s
  = (Ret tt, mkLogger false
       (log_cerr s ++ str "[" ++ t ++ str "] "
        ++ interleave (format_segments format) args ++ [LF]))
  ∧ interleave (format_segments format) (replicate (length args) placeholder) = format.
Proof.
  intros Hl Ht Hf Hne Hn. split.
  - rewrite log_eq, dispatch_r_exact by done. cbn [app]. by rewrite <- !app_assoc.
  - rewrite <- (format_segments_join format) at 2. by rewrite Hn.
Qed.

Lemma log_prints_line_witness :
  log (str "Mon" ++ [LF]) (str "write error to {}: {}") [str "10.0.0.1:80"; str "EPIPE"]
    Logger_init
  = (Ret tt, mkLogger false (str "[Mon] write error to 10.0.0.1:80: EPIPE" ++ [LF])).
Proof.
  refine (proj1 (log_prints_line (str "Mon") (str "write error to {}: {}")
    [str "10.0.0.1:80"; str "EPIPE"] Logger_init _ _ _ _ _)); (reflexivity || done).
Defined.

(** A call with fewer arguments than placeholders throws after it took the
    mutex and does not release it: from then on every [log] blocks for ever.  A
    call with more arguments than placeholders dereferences [end()], with the
    mutex taken as well. *)
Theorem log_wrong_arity t format args s :
  log_locked s = false → zlen t < 2 ^ 63 → zlen format < 2 ^ 63 → args ≠ [] →
  length (format_segments format) ≠ S (length args) →
  ∃ o s', log (t ++ [LF]) format args s = (o, s')
    ∧ o = (if decide (S (length args) < length (format_segments format))%nat
           then Throw (str "not enough argument given") else Undef EndDeref)
    ∧ log_cerr s' = log_cerr s ++ str "[" ++ t ++ str "] "
    ∧ (∀ t' msg, log_msg t' msg s' = (Undef SelfDeadlock, s'))
    ∧ (∀ t' format' args', zlen format' < 2 ^ 63 →
         log t' format' args' s' = (Undef SelfDeadlock, s')).
Proof.
  intros Hl Ht Hf Hne Hn. eexists _, (mkLogger true _). split; [|split; [reflexivity|]].
  - rewrite log_eq by done. case_decide.
    + by rewrite dispatch_r_missing.
    + by rewrite dispatch_r_extra by (done || lia).
  - split; [done|]. split; [done|]. intros t' f' a' Hf'.
    unfold log, cbind, clift. by rewrite segments_of_spec.
Qed.

Lemma log_wrong_arity_witness :
  ∃ o s', log (str "Mon" ++ [LF]) (str "{} {}") [str "x"] Logger_init = (o, s')
    ∧ o = Throw (str "not enough argument given")
    ∧ log_msg (str "T") (str "later") s' = (Undef SelfDeadlock, s').
Proof.
  destruct (log_wrong_arity (str "Mon") (str "{} {}") [str "x"] Logger_init)
    as (o & s' & H1 & H2 & _ & H3 & _); try (reflexivity || done).
  exists o, s'. split; [exact H1|]. split; [exact H2|]. apply H3.
Defined.
