(* ===== verification/Util.v ===== *)
(** * Util: addresses and queue names, [util.hpp]

    Connection strings ["a.b.c.d:port"], the escaping of hierarchical queue
    names into file names, and the byte order of the socket structures.  The
    address conversions of the C library are parameters ([InetLib]) with their
    documented laws ([InetLaws]). *)

From S2P Require Import Prelude Text IOStream.

(** ** Byte order *)

Inductive endian := LittleEndian | BigEndian.

(** Byte [i] of a word, from the least significant. *)
Definition byte_at (i : Z) (x : Z) : Z := (x / 256 ^ i) mod 256.

Definition bswap16 (x : Z) : Z := byte_at 0 x * 256 + byte_at 1 x.
Definition bswap32 (x : Z) : Z :=
  byte_at 0 x * 256 ^ 3 + byte_at 1 x * 256 ^ 2 + byte_at 2 x * 256 + byte_at 3 x.

(** [htons]/[ntohs] and [htonl]/[ntohl] of a host. *)
Definition htons (e : endian) (x : Z) : Z :=
  match e with LittleEndian => bswap16 (wrap 16 x) | BigEndian => wrap 16 x end.
Definition ntohs (e : endian) (x : Z) : Z := htons e x.
Definition htonl (e : endian) (x : Z) : Z :=
  match e with LittleEndian => bswap32 (wrap 32 x) | BigEndian => wrap 32 x end.
Definition ntohl (e : endian) (x : Z) : Z := htonl e x.

(** The bytes of a [uint32_t] in the memory of a host. *)
Definition mem32 (e : endian) (x : Z) : bytes :=
  let bs := [byte_of (byte_at 0 x); byte_of (byte_at 1 x);
             byte_of (byte_at 2 x); byte_of (byte_at 3 x)] in
  match e with LittleEndian => bs | BigEndian => rev bs end.

Definition of_mem32 (e : endian) (bs : bytes) : Z :=
  fold_right (λ c acc, byte_val c + 256 * acc) 0
    (match e with LittleEndian => bs | BigEndian => rev bs end).

(** The big-endian bytes of a 32-bit value: what is on the wire. *)
Definition be32 (x : Z) : bytes :=
  [byte_of (byte_at 3 x); byte_of (byte_at 2 x); byte_of (byte_at 1 x); byte_of (byte_at 0 x)].

(** ** Socket addresses *)

Definition AF_INET : Z := 2.

(** [struct sockaddr_in]; the port and the address are in network order. *)
Record sockaddr_in := mkSockaddr { sin_family : Z; sin_port : Z; s_addr : Z }.

(** [inet_addr] and [inet_ntoa] of the C library. *)
Class InetLib := { inet_addr : bytes → Z; inet_ntoa : Z → bytes }.

(** What the code relies on: the printed form of an address reads back, and is
    made of at most fifteen digits and dots. *)
Class InetLaws `{InetLib} := {
  inet_addr_ntoa a : 0 ≤ a < 2 ^ 32 → inet_addr (inet_ntoa a) = a;
  inet_ntoa_chars a :
    0 ≤ a < 2 ^ 32 → Forall (λ c, isdigit c = true ∨ c = "."%char) (inet_ntoa a);
  inet_ntoa_length a : 0 ≤ a < 2 ^ 32 → zlen (inet_ntoa a) ≤ 15 }.

(** The host name and its resolution: [None] when [getaddrinfo] fails. *)
Class HostLib := { gethostname : bytes; getaddrinfo : bytes → option Z }.

(** [s.c_str()] as a C function reads it. *)
Fixpoint c_str (s : bytes) : bytes :=
  match s with
  | [] => []
  | c :: s' => if decide (c = NUL) then [] else c :: c_str s'
  end.

Section util.
Context `{InetLib}.

(** [ConnectStringToSockaddr]; [port0] is what the uninitialised [port] holds. *)
Definition ConnectStringToSockaddr (e : endian) (port0 : Z) (conn_str : bytes)
  : outcome sockaddr_in :=
  let idx := find_char ":" conn_str in
  match substr conn_str 0 idx, substr conn_str (size_wrap (idx + 1)) (zlen conn_str) with
  | Ret host, Ret rest =>
      let '(port, _) := extract_int INT_MIN INT_MAX port0 (istream_of rest) in
      Ret (mkSockaddr AF_INET (htons e port) (inet_addr (c_str host)))
  | Throw e, _ | _, Throw e => Throw e
  | _, _ => AssertFailed
  end.

Definition SockaddrToConnectString (e : endian) (addr : sockaddr_in) : bytes :=
  inet_ntoa (s_addr addr) ++ str ":" ++ dec (ntohs e (sin_port addr)).

(** [GetHostIP] uses [addr_head] without looking at the result of
    [getaddrinfo]. *)
Definition GetHostIP `{HostLib} : outcome bytes :=
  match getaddrinfo gethostname with
  | Some a => Ret (inet_ntoa a)
  | None => Undef NullDeref
  end.

End util.

(** ** Queue names *)

(** [EscapeSubFolderPath]: every slash becomes ["#"], and the last character is
    removed when it is one; on an empty string [res.end() - 1] is before the
    beginning. *)
Definition EscapeSubFolderPath (unescaped : bytes) : outcome bytes :=
  let res := replace_char "/" "#" unescaped in
  match last res with
  | None => Undef BeforeBegin
  | Some c => Ret (if decide (c = "#"%char) then take (length res - 1) res else res)
  end.

Definition UnescapeSubFolderPath (escaped : bytes) : bytes := replace_char "#" "/" escaped.

(** A queue name without the one trailing slash the code ignores. *)
Definition strip_slash (s : bytes) : bytes :=
  match last s with
  | Some c => if decide (c = "/"%char) then take (length s - 1) s else s
  | None => s
  end.

(** ** Lemmas *)

Lemma byte_at_range i x : 0 ≤ byte_at i x < 256.
Proof. apply Z.mod_pos_bound. lia. Qed.

(** Division and remainder by constants, for [lia]. *)
Ltac div_lia := Z.to_euclidean_division_equations; lia.

(** Two bytes determine a 16-bit word, four a 32-bit one. *)
Lemma bswap16_bytes x :
  0 ≤ bswap16 x < 2 ^ 16 ∧ byte_at 0 (bswap16 x) = byte_at 1 x
  ∧ byte_at 1 (bswap16 x) = byte_at 0 x.
Proof.
  pose proof (byte_at_range 0 x). pose proof (byte_at_range 1 x).
  unfold bswap16. generalize dependent (byte_at 0 x). generalize dependent (byte_at 1 x).
  intros b Hb a Ha. unfold byte_at. change (256 ^ 0) with 1. change (256 ^ 1) with 256.
  repeat split; div_lia.
Qed.

Lemma bswap32_bytes x :
  0 ≤ bswap32 x < 2 ^ 32 ∧ byte_at 0 (bswap32 x) = byte_at 3 x
  ∧ byte_at 1 (bswap32 x) = byte_at 2 x ∧ byte_at 2 (bswap32 x) = byte_at 1 x
  ∧ byte_at 3 (bswap32 x) = byte_at 0 x.
Proof.
  pose proof (byte_at_range 0 x). pose proof (byte_at_range 1 x).
  pose proof (byte_at_range 2 x). pose proof (byte_at_range 3 x).
  unfold bswap32. generalize dependent (byte_at 0 x). generalize dependent (byte_at 1 x).
  generalize dependent (byte_at 2 x). generalize dependent (byte_at 3 x).
  intros d Hd c Hc b Hb a Ha. unfold byte_at.
  change (256 ^ 0) with 1. change (256 ^ 1) with 256.
  change (256 ^ 2) with 65536. change (256 ^ 3) with 16777216.
  repeat split; div_lia.
Qed.

Lemma bytes16 x : 0 ≤ x < 2 ^ 16 → byte_at 1 x * 256 + byte_at 0 x = x.
Proof. intros. unfold byte_at. change (256 ^ 0) with 1. change (256 ^ 1) with 256. div_lia. Qed.

Lemma bytes32 x :
  0 ≤ x < 2 ^ 32 →
  byte_at 3 x * 256 ^ 3 + byte_at 2 x * 256 ^ 2 + byte_at 1 x * 256 + byte_at 0 x = x.
Proof.
  intros. unfold byte_at. change (256 ^ 0) with 1. change (256 ^ 1) with 256.
  change (256 ^ 2) with 65536. change (256 ^ 3) with 16777216. div_lia.
Qed.

Lemma htons_range e x : 0 ≤ htons e x < 2 ^ 16.
Proof.
  destruct e; cbn; [apply bswap16_bytes|]. apply wrap_range. lia.
Qed.

Lemma ntohs_htons e x : 0 ≤ x < 2 ^ 16 → ntohs e (htons e x) = x.
Proof.
  intros Hx. unfold ntohs. destruct e; cbn [htons].
  - rewrite (wrap_small 16 x) by done.
    destruct (bswap16_bytes x) as (Hr & H0 & H1). rewrite (wrap_small 16 (bswap16 x)) by done.
    unfold bswap16 at 1. rewrite H0, H1. by apply bytes16.
  - by rewrite !wrap_small by (rewrite ?wrap_small; done).
Qed.

(** What goes to the wire does not depend on the sender's byte order. *)
Lemma mem32_htonl e x : mem32 e (htonl e x) = be32 (wrap 32 x).
Proof.
  destruct e; cbn [htonl mem32]; [|done].
  destruct (bswap32_bytes (wrap 32 x)) as (_ & H0 & H1 & H2 & H3).
  unfold be32. by rewrite H0, H1, H2, H3.
Qed.

(** Nor does what is read back from it on the receiver's. *)
Lemma ntohl_of_mem32 e x : 0 ≤ x < 2 ^ 32 → ntohl e (of_mem32 e (be32 x)) = x.
Proof.
  intros Hx. pose proof (bytes32 x Hx) as Hb.
  pose proof (byte_at_range 0 x) as B0. pose proof (byte_at_range 1 x) as B1.
  pose proof (byte_at_range 2 x) as B2. pose proof (byte_at_range 3 x) as B3.
  assert (∀ i, byte_val (byte_of (byte_at i x)) = byte_at i x) as Hv.
  { intros i. rewrite byte_val_of. apply Z.mod_small, byte_at_range. }
  unfold of_mem32, be32, ntohl. destruct e; cbn [fold_right htonl rev app];
    rewrite !Hv; change (256 ^ 3) with 16777216 in Hb; change (256 ^ 2) with 65536 in Hb.
  - rewrite wrap_small by lia. rewrite <- Hb at 5.
    replace (byte_at 3 x + 256 * (byte_at 2 x + 256 * (byte_at 1 x + 256 * (byte_at 0 x + 256 * 0))))
      with (bswap32 x) by (unfold bswap32; change (256 ^ 3) with 16777216;
                           change (256 ^ 2) with 65536; lia).
    destruct (bswap32_bytes x) as (_ & H0 & H1 & H2 & H3).
    unfold bswap32 at 1. rewrite H0, H1, H2, H3.
    change (256 ^ 3) with 16777216. change (256 ^ 2) with 65536. lia.
  - rewrite wrap_small; lia.
Qed.

Lemma be32_length x : length (be32 x) = 4%nat.
Proof. done. Qed.

Lemma of_mem32_range e bs : length bs = 4%nat → 0 ≤ of_mem32 e bs < 2 ^ 32.
Proof.
  intros Hl. destruct bs as [|a [|b [|c [|d [|??]]]]]; cbn in Hl; try lia.
  pose proof (byte_val_range a). pose proof (byte_val_range b).
  pose proof (byte_val_range c). pose proof (byte_val_range d).
  destruct e; unfold of_mem32; cbn [fold_right rev app]; lia.
Qed.

Lemma htonl_range e x : 0 ≤ htonl e x < 2 ^ 32.
Proof. destruct e; cbn; [apply bswap32_bytes|]. apply wrap_range. lia. Qed.

Lemma c_str_id s : NUL ∉ s → c_str s = s.
Proof.
  induction s as [|c s IH]; intros Hn; [done|]. cbn.
  rewrite decide_False by set_solver. f_equal. apply IH. set_solver.
Qed.

Section addresses.
Context `{InetLib} `{!InetLaws}.

Lemma inet_ntoa_not_in a c :
  0 ≤ a < 2 ^ 32 → isdigit c = false → c ≠ "."%char → c ∉ inet_ntoa a.
Proof.
  intros Ha Hd Hdot Hin. pose proof (inet_ntoa_chars a Ha) as Hf.
  rewrite Forall_forall in Hf. destruct (Hf c Hin); congruence.
Qed.

Lemma connect_string_parse e port0 a p :
  0 ≤ a < 2 ^ 32 → 0 ≤ p ≤ INT_MAX →
  ConnectStringToSockaddr e port0 (inet_ntoa a ++ str ":" ++ dec p)
  = Ret (mkSockaddr AF_INET (htons e p) a).
Proof.
  intros Ha Hp. unfold ConnectStringToSockaddr.
  change (str ":" ++ dec p) with (":"%char :: dec p).
  rewrite find_char_hit by (by apply inet_ntoa_not_in).
  rewrite substr_prefix.
  pose proof (inet_ntoa_length a Ha). pose proof (zlen_nonneg (inet_ntoa a)).
  pose proof (zlen_nonneg (dec p)).
  unfold size_wrap. rewrite wrap_small by lia.
  replace (zlen (inet_ntoa a) + 1) with (zlen (inet_ntoa a ++ [":"%char]))
    by (rewrite zlen_app; done).
  replace (inet_ntoa a ++ ":"%char :: dec p) with ((inet_ntoa a ++ [":"%char]) ++ dec p)
    by (by rewrite <- app_assoc).
  rewrite substr_suffix by
    (rewrite !zlen_app; change (zlen [":"%char]) with 1; lia).
  rewrite extract_dec_end by (done || (unfold INT_MIN; lia)).
  rewrite c_str_id by (by apply inet_ntoa_not_in). by rewrite inet_addr_ntoa.
Qed.

End addresses.

(** *** Escaping *)

Lemma strip_slash_snoc s c :
  strip_slash (s ++ [c]) = if decide (c = "/"%char) then s else s ++ [c].
Proof.
  unfold strip_slash. rewrite last_snoc. case_decide; [|done].
  rewrite length_app. cbn. rewrite Nat.add_sub. apply take_app_length.
Qed.

Lemma escape_snoc s c :
  EscapeSubFolderPath (s ++ [c])
  = Ret (if decide (c = "/"%char ∨ c = "#"%char) then replace_char "/" "#" s
         else replace_char "/" "#" s ++ [c]).
Proof.
  unfold EscapeSubFolderPath. rewrite replace_char_app.
  change (replace_char "/" "#" [c]) with [if decide (c = "/"%char) then "#"%char else c].
  rewrite last_snoc. f_equal.
  assert (∀ x, take (length (replace_char "/" "#" s ++ [x]) - 1)
            (replace_char "/" "#" s ++ [x]) = replace_char "/" "#" s) as Ht.
  { intros x. rewrite length_app. cbn. rewrite Nat.add_sub. apply take_app_length. }
  repeat case_decide; rewrite ?Ht; naive_solver.
Qed.

Lemma escape_eq s :
  s ≠ [] → "#"%char ∉ s →
  EscapeSubFolderPath s = Ret (replace_char "/" "#" (strip_slash s)).
Proof.
  intros Hne Hh. induction s as [|c s _] using rev_ind; [done|].
  rewrite escape_snoc, strip_slash_snoc.
  assert (c ≠ "#"%char) by set_solver.
  destruct (decide (c = "/"%char)) as [->|Hc].
  - by rewrite decide_True by by left.
  - rewrite decide_False by naive_solver. rewrite replace_char_app. cbn.
    by rewrite decide_False.
Qed.

Lemma replace_char_gone a b s : a ≠ b → a ∉ replace_char a b s.
Proof.
  intros Hab. unfold replace_char. induction s as [|c s IH]; cbn; [set_solver|].
  case_decide; set_solver.
Qed.

Lemma replace_char_notin a b c s :
  c ≠ b → c ∉ s → c ∉ replace_char a b s.
Proof.
  intros Hcb. unfold replace_char. induction s as [|x s IH]; cbn; intros Hs; [set_solver|].
  case_decide; set_solver.
Qed.

Lemma escape_nonempty_ret s : s ≠ [] → ∃ e, EscapeSubFolderPath s = Ret e.
Proof.
  intros Hne. induction s as [|c s _] using rev_ind; [done|].
  rewrite escape_snoc. eauto.
Qed.

(** An escaped name is a single path component. *)
Lemma escape_no_slash s e : EscapeSubFolderPath s = Ret e → "/"%char ∉ e.
Proof.
  induction s as [|c s _] using rev_ind; [done|].
  rewrite escape_snoc. intros [= <-].
  pose proof (replace_char_gone "/" "#" s ltac:(done)).
  case_decide; set_solver.
Qed.

Lemma strip_slash_notin c s : c ∉ s → c ∉ strip_slash s.
Proof.
  intros Hc. induction s as [|x s _] using rev_ind; [done|].
  rewrite strip_slash_snoc. case_decide; set_solver.
Qed.

Lemma strip_slash_id s : last s ≠ Some "/"%char → strip_slash s = s.
Proof.
  induction s as [|x s _] using rev_ind; [done|].
  rewrite last_snoc, strip_slash_snoc. intros. by rewrite decide_False by congruence.
Qed.

Lemma unescape_escape s e :
  "#"%char ∉ s → EscapeSubFolderPath s = Ret e → UnescapeSubFolderPath e = strip_slash s.
Proof.
  intros Hh He. destruct (decide (s = [])) as [->|Hne]; [done|].
  rewrite escape_eq in He by done. injection He as <-.
  apply replace_char_back. by apply strip_slash_notin.
Qed.

(** ** A concrete address library

    The dotted-quad notation of a little-endian host: one library that
    satisfies [InetLaws]. *)
Module DottedQuad.

Definition print (a : Z) : bytes :=
  dec (byte_at 0 a) ++ str "." ++ dec (byte_at 1 a) ++ str "."
  ++ dec (byte_at 2 a) ++ str "." ++ dec (byte_at 3 a).

(** Reads [n] numbers separated by single characters, lowest byte first. *)
Fixpoint parse (n : nat) (s : bytes) : Z :=
  match n with
  | O => 0
  | S n' => let '(ds, rest) := span isdigit s in
            digits_val ds + 256 * parse n' (tail rest)
  end.

#[export] Instance lib : InetLib := { inet_addr := parse 4; inet_ntoa := print }.

Lemma parse_dec n x s :
  0 ≤ x → stops_number s → parse (S n) (dec x ++ s) = x + 256 * parse n (tail s).
Proof.
  intros Hx Hs. cbn [parse]. rewrite span_forall; [|by apply dec_digits|by destruct s].
  by rewrite dec_val.
Qed.

Lemma parse_print a : 0 ≤ a < 2 ^ 32 → parse 4 (print a) = a.
Proof.
  intros Ha. unfold print. pose proof (bytes32 a Ha) as Hb.
  rewrite <- (app_nil_r (dec (byte_at 3 a))).
  do 3 (rewrite parse_dec by (apply byte_at_range || done);
    change (tail (str "." ++ ?s)) with s).
  rewrite parse_dec by (apply byte_at_range || done). change (parse 0 _) with 0.
  change (256 ^ 3) with 16777216 in Hb. change (256 ^ 2) with 65536 in Hb. lia.
Qed.

Definition short_dec (x : Z) : bool := bool_decide (zlen (dec x) ≤ 3).

Lemma dec_byte_length x : 0 ≤ x < 256 → zlen (dec x) ≤ 3.
Proof.
  intros Hx.
  assert (forallb (λ n, short_dec (Z.of_nat n)) (seq 0 256) = true) as Hf
    by (vm_compute; reflexivity).
  rewrite forallb_forall in Hf. specialize (Hf (Z.to_nat x)).
  rewrite in_seq, Z2Nat.id in Hf by lia.
  specialize (Hf ltac:(lia)). by apply bool_decide_eq_true in Hf.
Qed.

Lemma print_chars a : Forall (λ c, isdigit c = true ∨ c = "."%char) (print a).
Proof.
  assert (∀ x, 0 ≤ x → Forall (λ c, isdigit c = true ∨ c = "."%char) (dec x)) as Hd.
  { intros x Hx. eapply Forall_impl; [by apply dec_digits|]. naive_solver. }
  unfold print. rewrite !Forall_app. repeat split; try apply Hd; try apply byte_at_range;
    repeat constructor; by right.
Qed.

Lemma print_length a : zlen (print a) ≤ 15.
Proof.
  unfold print. rewrite !zlen_app. change (zlen (str ".")) with 1.
  pose proof (dec_byte_length _ (byte_at_range 0 a)).
  pose proof (dec_byte_length _ (byte_at_range 1 a)).
  pose proof (dec_byte_length _ (byte_at_range 2 a)).
  pose proof (dec_byte_length _ (byte_at_range 3 a)). lia.
Qed.

#[export] Instance laws : InetLaws.
Proof. split; intros; [by apply parse_print|apply print_chars|apply print_length]. Qed.

End DottedQuad.

(** ** Properties *)

(** The connection string of a socket address parses back to the address,
    on hosts of either byte order and whatever the parser's uninitialised port
    held. *)
Theorem connect_string_roundtrip `{InetLib} `{!InetLaws} e port0 addr :
  sin_family addr = AF_INET → 0 ≤ s_addr addr < 2 ^ 32 → 0 ≤ sin_port addr < 2 ^ 16 →
  ConnectStringToSockaddr e port0 (SockaddrToConnectString e addr) = Ret addr.
Proof.
  destruct addr as [f p a]. cbn [sin_family s_addr sin_port]. intros -> Ha Hp.
  unfold SockaddrToConnectString. cbn [s_addr sin_port].
  pose proof (htons_range e p).
  rewrite connect_string_parse by (unfold INT_MAX, ntohs; lia).
  do 2 f_equal. by apply (ntohs_htons e).
Qed.

Import DottedQuad.

Lemma connect_string_roundtrip_witness :
  SockaddrToConnectString LittleEndian (mkSockaddr AF_INET 14640 16777343) = str "127.0.0.1:12345"
  ∧ ConnectStringToSockaddr LittleEndian 7 (str "127.0.0.1:12345")
    = Ret (mkSockaddr AF_INET 14640 16777343).
Proof.
  assert (SockaddrToConnectString LittleEndian (mkSockaddr AF_INET 14640 16777343)
          = str "127.0.0.1:12345") as Hs by reflexivity.
  split; [exact Hs|]. rewrite <- Hs.
  apply (connect_string_roundtrip LittleEndian 7 (mkSockaddr AF_INET 14640 16777343));
    cbn; lia.
Defined.

(** An address with no colon is still taken: the host is the whole string
    and the port is the number the host starts with, so "10.0.0.1" names port
    10; no error is reported. *)
Theorem connect_string_without_port `{InetLib} e port0 n rest :
  0 ≤ n ≤ INT_MAX → stops_number rest → rest ≠ [] → ":"%char ∉ rest →
  zlen (dec n ++ rest) < 2 ^ 63 →
  ConnectStringToSockaddr e port0 (dec n ++ rest)
  = Ret (mkSockaddr AF_INET (htons e n) (inet_addr (c_str (dec n ++ rest)))).
Proof.
  intros Hn Hs Hne Hc Hb. unfold ConnectStringToSockaddr.
  assert (":"%char ∉ dec n ++ rest) as Hni.
  { rewrite elem_of_app. intros [Hin|?]; [|done]. by eapply dec_not_in in Hin; [|lia|]. }
  rewrite find_char_miss, npos_succ by done.
  pose proof (zlen_nonneg (dec n ++ rest)).
  rewrite substr_all by (unfold npos; lia). rewrite substr_all by lia.
  destruct rest as [|c rest]; [done|].
  destruct (extract_dec INT_MIN INT_MAX port0 (istream_of (dec n ++ c :: rest)) n c rest)
    as (st & -> & _); [by apply good_at_istream_of|lia|unfold INT_MIN; lia|done|done].
Qed.

Lemma connect_string_without_port_witness :
  ConnectStringToSockaddr LittleEndian 0 (str "10.0.0.1")
  = Ret (mkSockaddr AF_INET (htons LittleEndian 10) 16777226).
Proof.
  change (str "10.0.0.1") with (dec 10 ++ str ".0.0.1").
  change 16777226 with (inet_addr (c_str (dec 10 ++ str ".0.0.1"))).
  apply (connect_string_without_port LittleEndian 0 10 (str ".0.0.1"));
    try done; by apply (bool_decide_eq_true_1 _).
Defined.

(** C13: escaping makes a queue name a single path component, and for a name
    without ["#"] unescaping gives the name back up to one trailing slash; only
    the empty name has no escape, where the code steps before the beginning of
    the string. *)
Theorem escape_roundtrip s :
  (s = [] → EscapeSubFolderPath s = Undef BeforeBegin)
  ∧ (s ≠ [] → ∃ e, EscapeSubFolderPath s = Ret e ∧ ("/"%char ∉ e)
       ∧ ("#"%char ∉ s → UnescapeSubFolderPath e = strip_slash s)).
Proof.
  split; [by intros ->|]. intros Hne.
  destruct (escape_nonempty_ret s Hne) as [e He]. exists e. split; [done|].
  split; [by eapply escape_no_slash|]. intros Hh. by apply unescape_escape.
Qed.

Lemma escape_roundtrip_witness :
  EscapeSubFolderPath (str "foo/bar/test/") = Ret (str "foo#bar#test")
  ∧ UnescapeSubFolderPath (str "foo#bar#test") = str "foo/bar/test".
Proof.
  destruct (proj2 (escape_roundtrip (str "foo/bar/test/")) ltac:(done)) as (e & He & _ & Hu).
  assert (e = str "foo#bar#test") as ->
    by (vm_compute in He; injection He as <-; reflexivity).
  split; [exact He|]. rewrite Hu; [reflexivity|].
  apply (bool_decide_eq_true_1 _). reflexivity.
Defined.

(** Two queue names get the same file name exactly when they agree after
    the slash is replaced and one trailing slash is dropped: names that differ in
    ["/"] against ["#"] collide. *)
Theorem escape_same_file s t :
  s ≠ [] → t ≠ [] → "#"%char ∉ s → "#"%char ∉ t →
  (EscapeSubFolderPath s = EscapeSubFolderPath t ↔ strip_slash s = strip_slash t)
  ∧ EscapeSubFolderPath (replace_char "/" "#" s) = EscapeSubFolderPath s.
Proof.
  intros Hs Ht Hhs Hht. split; [split; intros He|].
  - rewrite !escape_eq in He by done. injection He as He.
    apply (f_equal (replace_char "#" "/")) in He.
    rewrite !replace_char_back in He by (by apply strip_slash_notin). done.
  - rewrite !escape_eq by done. by rewrite He.
  - unfold EscapeSubFolderPath.
    assert (replace_char "/" "#" (replace_char "/" "#" s) = replace_char "/" "#" s) as ->;
      [|done].
    by apply replace_char_id, replace_char_gone.
Qed.

Lemma escape_same_file_witness :
  EscapeSubFolderPath (str "foo/") = EscapeSubFolderPath (str "foo")
  ∧ EscapeSubFolderPath (str "a#b") = EscapeSubFolderPath (str "a/b").
Proof.
  split.
  - apply (proj2 (proj1 (escape_same_file (str "foo/") (str "foo") ltac:(done) ltac:(done)
      ltac:(by apply (bool_decide_eq_true_1 _)) ltac:(by apply (bool_decide_eq_true_1 _))))).
    reflexivity.
  - apply (proj2 (escape_same_file (str "a/b") (str "foo") ltac:(done) ltac:(done)
      ltac:(by apply (bool_decide_eq_true_1 _)) ltac:(by apply (bool_decide_eq_true_1 _)))).
Defined.
