(* ===== verification/Tcp.v ===== *)
(** * Tcp: the socket policy of [io_policy/tcp.hpp]

    A message travels as its length in four big-endian bytes and its contents.
    The socket calls are parameters ([SocketOps]): a call may move any number of
    bytes up to what was asked for, and the laws ([StreamLaws]) say that the
    bytes are those of the stream, in order. *)

From S2P Require Import Prelude Text MsgBuf MsgFilter Logger Util.

(** ** The host *)

(** The calls the policy makes, over the state [S] of the host.  A read gives
    [None] for [-1] and the bytes received otherwise ([[]] at the end of the
    stream); a write gives [None] for [-1] and otherwise how many bytes it took,
    at least one since the code never writes an empty buffer. *)
Class SocketOps (S : Type) := {
  sys_endian : endian;
  sys_socket : S → Z * S;
  sys_close : Z → S → S;
  sys_connect : Z → sockaddr_in → S → Z * S;
  sys_read : Z → Z → S → option bytes * S;
  sys_write : Z → bytes → S → option positive * S;
  sys_getsockname : Z → S → sockaddr_in;
  sys_strerror : S → bytes;
  sys_ctime : S → bytes }.

(** The documented behaviour of a connected stream socket: [incoming] is what
    the peer has sent and will be read, [outgoing] what it will receive. *)
Class StreamLaws (S : Type) `{SocketOps S} := {
  healthy : Z → S → Prop;
  incoming : Z → S → bytes;
  outgoing : Z → S → bytes;
  read_some fd n s :
    healthy fd s → 0 < n → incoming fd s ≠ [] →
    ∃ d s', sys_read fd n s = (Some d, s') ∧ d ≠ [] ∧ zlen d ≤ n ∧ healthy fd s'
      ∧ incoming fd s = d ++ incoming fd s' ∧ outgoing fd s' = outgoing fd s;
  read_end fd n s :
    healthy fd s → 0 < n → incoming fd s = [] →
    ∃ s', sys_read fd n s = (Some [], s') ∧ healthy fd s'
      ∧ incoming fd s' = [] ∧ outgoing fd s' = outgoing fd s;
  write_some fd d s :
    healthy fd s → d ≠ [] →
    ∃ k s', sys_write fd d s = (Some k, s') ∧ (Pos.to_nat k ≤ length d)%nat
      ∧ healthy fd s' ∧ incoming fd s' = incoming fd s
      ∧ outgoing fd s' = outgoing fd s ++ take (Pos.to_nat k) d }.

(** ** The policy *)

Section tcp.
Context {S : Type} `{SocketOps S} `{InetLib}.

(** [class TCP], with the host and the logger it shares. *)
Record TCP := mkTCP { sock_ : Z; net : S; tcp_log : Logger }.

Definition set_net (s : S) (t : TCP) : TCP := mkTCP (sock_ t) s (tcp_log t).
Definition set_tcp_log (l : Logger) (t : TCP) : TCP := mkTCP (sock_ t) (net t) l.

Definition TCP_init (s : S) (l : Logger) : TCP :=
  let '(fd, s') := sys_socket s in mkTCP fd s' l.

(** The destructor. *)
Definition TCP_close : comp TCP unit :=
  cmodify (λ t, set_net (sys_close (sock_ t) (net t)) t).

(** [ReadAll(fd, buf, size)] into an array of [cap] bytes: what it returns and
    what it stored.  A store past [cap] is an overflow; every round but the last
    stores a byte, so [cap] bounds the rounds. *)
Fixpoint read_loop (fuel : nat) (cap fd size : Z) (got : bytes) : comp S (Z * bytes) :=
  if decide (size ≤ zlen got) then cret (zlen got, got)
  else λ s,
    match sys_read fd (size - zlen got) s with
    | (None, s') => (Ret (-1, got), s')
    | (Some [], s') => (Ret (0, got), s')
    | (Some d, s') =>
        if decide (cap < zlen (got ++ d)) then (Undef BufferOverflow, s')
        else match fuel with
             | O => (Undef BufferOverflow, s')
             | Datatypes.S fuel' => read_loop fuel' cap fd size (got ++ d) s'
             end
    end.

Definition ReadAll (cap fd size : Z) : comp S (Z * bytes) :=
  read_loop (Z.to_nat cap) cap fd size [].

(** [WriteAll(fd, buf, size)]; each round takes a byte of [rest]. *)
Fixpoint write_loop (fuel : nat) (rest : bytes) : comp TCP bool :=
  match rest with
  | [] => cret true
  | _ => λ t,
      match sys_write (sock_ t) rest (net t) with
      | (None, s') =>
          (let* _ := zoom tcp_log set_tcp_log
             (log (sys_ctime s') (str "write error to {}: {}")
                [SockaddrToConnectString sys_endian (sys_getsockname (sock_ t) s');
                 sys_strerror s']) in
           cret false) (set_net s' t)
      | (Some n, s') =>
          match fuel with
          | O => (Ret true, set_net s' t)
          | Datatypes.S fuel' => write_loop fuel' (drop (Pos.to_nat n) rest) (set_net s' t)
          end
      end
  end.

Definition WriteAll (data : bytes) : comp TCP bool := write_loop (length data) data.

Definition TCP_Put (b : MsgBuf) : comp TCP (bool * MsgBuf) :=
  if decide (len b ≤ 0) then cret (false, b)
  else
    let len_header := htonl sys_endian (len b) in
    let* sent := and_then (WriteAll (mem32 sys_endian len_header))
                   (let* data := clift (load b) in WriteAll data) in
    cret (sent, b).

Definition TCP_Get (b : MsgBuf) : comp TCP (bool * MsgBuf) :=
  let* t := cget in
  let* (n, header) := zoom net set_net (ReadAll 4 (sock_ t) 4) in
  if decide (n ≠ 4) then cret (false, set_len 0 b)
  else
    let size := ntohl sys_endian (of_mem32 sys_endian header) in
    let* (n2, data) := zoom net set_net (ReadAll MAX_MSG_SIZE (sock_ t) size) in
    let* b1 := clift (store data (set_len size b)) in
    if decide (size ≠ size_wrap n2) then cret (false, set_len 0 b1)
    else cret (true, b1).

Definition Connect (addr : sockaddr_in) : comp TCP unit :=
  let* t := cget in
  let '(r, s') := sys_connect (sock_ t) addr (net t) in
  let* _ := cput (set_net s' t) in
  if decide (r = -1) then
    cthrow (str "cannot connect to " ++ SockaddrToConnectString sys_endian addr)
  else cret tt.

Definition AttachConnectedSock (sock : Z) : comp TCP unit :=
  cmodify (λ t, mkTCP sock (sys_close (sock_ t) (net t)) (tcp_log t)).

#[export] Instance TCP_IOPolicy : IOPolicy TCP := { Get := TCP_Get; Put := TCP_Put }.

(** What is on the wire for a message, and for a list of them. *)
Definition tcp_frame (m : bytes) : bytes := be32 (zlen m) ++ m.
Definition tcp_frames (ms : list bytes) : bytes := concat (map tcp_frame ms).

Definition tcp_fits (m : bytes) : Prop := zlen m ≤ MAX_MSG_SIZE.

(** ** Lemmas *)

Lemma tcp_frames_app a b : tcp_frames (a ++ b) = tcp_frames a ++ tcp_frames b.
Proof. unfold tcp_frames. by rewrite map_app, concat_app. Qed.

Section laws.
Context `{!StreamLaws S}.

(** The loop over a stream that still has what is asked for. *)
Lemma read_loop_all fuel cap fd want rest got s :
  healthy fd s → incoming fd s = want ++ rest →
  zlen (got ++ want) ≤ cap → (length want ≤ fuel)%nat →
  ∃ s', read_loop fuel cap fd (zlen (got ++ want)) got s = (Ret (zlen (got ++ want), got ++ want), s')
    ∧ healthy fd s' ∧ incoming fd s' = rest ∧ outgoing fd s' = outgoing fd s.
Proof.
  revert want got s. induction fuel as [|fuel IH]; intros want got s Hh Hin Hcap Hf.
  - assert (want = []) as -> by (destruct want; cbn in Hf; [done|lia]).
    rewrite app_nil_r. cbn. rewrite decide_True by lia. eauto.
  - destruct (decide (want = [])) as [->|Hne].
    { rewrite app_nil_r. cbn. rewrite decide_True by lia. eauto. }
    assert (0 < zlen want) as Hw by (destruct want; [done|rewrite zlen_cons; pose proof (zlen_nonneg want); lia]).
    rewrite zlen_app in *. pose proof (zlen_nonneg got).
    destruct (read_some fd (zlen want) s Hh Hw) as (d & s1 & Hr & Hd & Hl & Hh1 & Hin1 & Ho1).
    { rewrite Hin. by destruct want. }
    assert (∃ want', want = d ++ want') as [want' ->].
    { rewrite Hin in Hin1. apply app_eq_inv in Hin1 as [(k & -> & _)|(k & -> & Hk)]; [eauto|].
      exists []. rewrite app_nil_r. rewrite zlen_app in Hl.
      assert (k = []) as -> by (apply zlen_zero; pose proof (zlen_nonneg k); lia).
      by rewrite app_nil_r. }
    rewrite Hin, <- app_assoc in Hin1. apply app_inv_head in Hin1.
    rewrite ?zlen_app, ?length_app in *.
    cbn [read_loop]. rewrite decide_False by lia.
    replace (zlen got + (zlen d + zlen want') - zlen got) with (zlen d + zlen want') by lia.
    rewrite Hr. destruct d as [|c d]; [done|]. cbn [length] in Hf.
    pose proof (zlen_nonneg want').
    rewrite decide_False by (rewrite ?zlen_app; lia).
    destruct (IH want' (got ++ c :: d) s1) as (s' & HL & Hh' & Hin' & Ho');
      [done|done|rewrite !zlen_app; lia|lia|].
    exists s'. rewrite !zlen_app, <- app_assoc in HL. rewrite Z.add_assoc, HL.
    split; [done|]. split_and!; congruence.
Qed.

Lemma ReadAll_all cap fd want rest s :
  healthy fd s → incoming fd s = want ++ rest → zlen want ≤ cap →
  ∃ s', ReadAll cap fd (zlen want) s = (Ret (zlen want, want), s')
    ∧ healthy fd s' ∧ incoming fd s' = rest ∧ outgoing fd s' = outgoing fd s.
Proof.
  intros Hh Hin Hc. apply (read_loop_all _ cap fd want rest []); try done.
  unfold zlen in Hc. lia.
Qed.

(** The stream ends before [size] bytes: zero, with what was there stored. *)
Lemma read_loop_eof fuel cap fd size got s :
  healthy fd s → zlen (got ++ incoming fd s) < size → zlen (got ++ incoming fd s) ≤ cap →
  (length (incoming fd s) ≤ fuel)%nat →
  ∃ s', read_loop fuel cap fd size got s = (Ret (0, got ++ incoming fd s), s')
    ∧ healthy fd s' ∧ incoming fd s' = [] ∧ outgoing fd s' = outgoing fd s.
Proof.
  revert got s. induction fuel as [|fuel IH]; intros got s Hh Hsz Hcap Hf;
    (destruct (decide (incoming fd s = [])) as [He|Hne];
     [rewrite He, app_nil_r in *; cbn [read_loop]; rewrite decide_False by lia;
      destruct (read_end fd (size - zlen got) s Hh ltac:(lia) He) as (s' & -> & ? & ? & ?); eauto|]).
  - exfalso. apply Hne. destruct (incoming fd s); [done|cbn in Hf; lia].
  - rewrite zlen_app in *. pose proof (zlen_nonneg (incoming fd s)). pose proof (zlen_nonneg got).
    destruct (read_some fd (size - zlen got) s Hh ltac:(lia) Hne)
      as (d & s1 & Hr & Hd & Hl & Hh1 & Hin1 & Ho1).
    cbn [read_loop]. rewrite decide_False, Hr by lia.
    rewrite Hin1, zlen_app in *. rewrite length_app in Hf. pose proof (zlen_nonneg (incoming fd s1)).
    destruct d as [|c d]; [done|]. cbn [length] in Hf.
    rewrite decide_False by (rewrite ?zlen_app; lia).
    destruct (IH (got ++ c :: d) s1) as (s' & HL & Hh' & Hin' & Ho');
      [done|rewrite !zlen_app; lia|rewrite !zlen_app; lia|lia|].
    exists s'. rewrite HL, <- app_assoc. split; [done|]. split_and!; congruence.
Qed.

Lemma ReadAll_eof cap fd size s :
  healthy fd s → zlen (incoming fd s) < size → zlen (incoming fd s) ≤ cap →
  ∃ s', ReadAll cap fd size s = (Ret (0, incoming fd s), s')
    ∧ healthy fd s' ∧ incoming fd s' = [] ∧ outgoing fd s' = outgoing fd s.
Proof.
  intros Hh Hs Hc. apply (read_loop_eof _ cap fd size []); try done.
  unfold zlen in Hc. lia.
Qed.

(** The stream holds more than the array takes. *)
Lemma read_loop_overflow fuel cap fd size got s :
  healthy fd s → zlen got ≤ cap → cap < size → cap < zlen (got ++ incoming fd s) →
  cap ≤ zlen got + Z.of_nat fuel →
  ∃ s', read_loop fuel cap fd size got s = (Undef BufferOverflow, s').
Proof.
  revert got s. induction fuel as [|fuel IH]; intros got s Hh Hg Hc Hin Hf;
    (assert (incoming fd s ≠ []) as Hne by (intros He; rewrite He, app_nil_r in Hin; lia);
     destruct (read_some fd (size - zlen got) s Hh ltac:(lia) Hne)
       as (d & s1 & Hr & Hd & Hl & Hh1 & Hin1 & Ho1);
     assert (0 < zlen d) by (destruct d; [done|rewrite zlen_cons; pose proof (zlen_nonneg d); lia]);
     cbn [read_loop]; rewrite decide_False, Hr by lia; destruct d as [|c d]; [done|]).
  - rewrite decide_True by (rewrite ?zlen_app; lia). eauto.
  - case_decide as Hb; [eauto|]. rewrite zlen_app in Hb.
    apply IH; rewrite ?zlen_app; try done; try lia.
    rewrite Hin1, !zlen_app in Hin. lia.
Qed.

Lemma ReadAll_overflow cap fd size s :
  healthy fd s → 0 ≤ cap < size → cap < zlen (incoming fd s) →
  ∃ s', ReadAll cap fd size s = (Undef BufferOverflow, s').
Proof. intros Hh [Hc Hs] Hin. apply read_loop_overflow; try done; change (zlen (@nil ascii)) with 0; lia. Qed.

(** A whole buffer is written, however the host splits it. *)
Lemma write_loop_all fuel rest t :
  healthy (sock_ t) (net t) → (length rest ≤ fuel)%nat →
  ∃ t', write_loop fuel rest t = (Ret true, t') ∧ sock_ t' = sock_ t
    ∧ healthy (sock_ t) (net t') ∧ incoming (sock_ t) (net t') = incoming (sock_ t) (net t)
    ∧ outgoing (sock_ t) (net t') = outgoing (sock_ t) (net t) ++ rest
    ∧ tcp_log t' = tcp_log t.
Proof.
  revert rest t. induction fuel as [|fuel IH]; intros rest t Hh Hf.
  - assert (rest = []) as -> by (destruct rest; cbn in Hf; [done|lia]).
    exists t. rewrite app_nil_r. done.
  - destruct rest as [|c rest]; [exists t; by rewrite app_nil_r|].
    destruct (write_some _ (c :: rest) _ Hh ltac:(done)) as (k & s1 & Hw & Hk & Hh1 & Hi1 & Ho1).
    unfold write_loop. rewrite Hw. fold write_loop.
    destruct (IH (drop (Pos.to_nat k) (c :: rest)) (set_net s1 t)) as (t' & HL & Hs & Hh' & Hi & Ho & Hl);
      [done|rewrite length_drop; cbn in *; lia|].
    exists t'. rewrite HL. cbn [sock_ net tcp_log set_net] in *.
    rewrite Ho, Ho1, <- app_assoc, take_drop. split_and!; congruence.
Qed.

Lemma WriteAll_all data t :
  healthy (sock_ t) (net t) →
  ∃ t', WriteAll data t = (Ret true, t') ∧ sock_ t' = sock_ t
    ∧ healthy (sock_ t) (net t') ∧ incoming (sock_ t) (net t') = incoming (sock_ t) (net t)
    ∧ outgoing (sock_ t) (net t') = outgoing (sock_ t) (net t) ++ data
    ∧ tcp_log t' = tcp_log t.
Proof. intros. by apply write_loop_all. Qed.

(** *** Whole messages *)

Lemma TCP_Put_ok b m t :
  holds b m → m ≠ [] → healthy (sock_ t) (net t) →
  ∃ t', TCP_Put b t = (Ret (true, b), t') ∧ sock_ t' = sock_ t
    ∧ healthy (sock_ t) (net t') ∧ incoming (sock_ t) (net t') = incoming (sock_ t) (net t)
    ∧ outgoing (sock_ t) (net t') = outgoing (sock_ t) (net t) ++ tcp_frame m
    ∧ tcp_log t' = tcp_log t.
Proof.
  intros Hb Hm Hh. pose proof (holds_bound _ _ Hb) as Hmax. pose proof (zlen_nonneg m).
  unfold TCP_Put. rewrite (holds_len _ _ Hb).
  rewrite decide_False by (intros ?; apply Hm, zlen_zero; lia).
  rewrite mem32_htonl, wrap_small by (unfold MAX_MSG_SIZE in Hmax; lia).
  destruct (WriteAll_all (be32 (zlen m)) t Hh) as (t1 & R1 & Hs1 & Hh1 & Hi1 & Ho1 & Hl1).
  rewrite <- Hs1 in Hh1.
  destruct (WriteAll_all m t1 Hh1) as (t2 & R2 & Hs2 & Hh2 & Hi2 & Ho2 & Hl2).
  rewrite Hs1 in *. exists t2. split.
  - erewrite cbind_ret; [done|]. rewrite (and_then_true _ _ _ _ R1).
    erewrite cbind_ret; [exact R2|]. unfold clift. by rewrite (holds_load _ _ Hb).
  - unfold tcp_frame. rewrite app_assoc, <- Ho1. split_and!; congruence.
Qed.

Lemma TCP_Put_empty b t : len b = 0 → TCP_Put b t = (Ret (false, b), t).
Proof. intros Hl. unfold TCP_Put. by rewrite decide_True by lia. Qed.

Lemma header_size m :
  tcp_fits m → ntohl sys_endian (of_mem32 sys_endian (be32 (zlen m))) = zlen m.
Proof.
  intros Hf. apply ntohl_of_mem32. pose proof (zlen_nonneg m).
  unfold tcp_fits, MAX_MSG_SIZE in Hf. lia.
Qed.

(** The first half of [Get]: the header of a frame. *)
Lemma TCP_Get_header n rest t :
  healthy (sock_ t) (net t) → incoming (sock_ t) (net t) = be32 n ++ rest →
  ∃ s', ReadAll 4 (sock_ t) 4 (net t) = (Ret (4, be32 n), s')
    ∧ healthy (sock_ t) s' ∧ incoming (sock_ t) s' = rest
    ∧ outgoing (sock_ t) s' = outgoing (sock_ t) (net t).
Proof. intros Hh Hi. by apply (ReadAll_all 4 (sock_ t) (be32 n)). Qed.

Lemma TCP_Get_frame b m rest t :
  healthy (sock_ t) (net t) → incoming (sock_ t) (net t) = tcp_frame m ++ rest →
  tcp_fits m → wf_MsgBuf b →
  ∃ b' s', TCP_Get b t = (Ret (true, b'), set_net s' t) ∧ holds b' m
    ∧ healthy (sock_ t) s' ∧ incoming (sock_ t) s' = rest
    ∧ outgoing (sock_ t) s' = outgoing (sock_ t) (net t).
Proof.
  intros Hh Hi Hf Hwf. unfold tcp_frame in Hi. rewrite <- app_assoc in Hi.
  destruct (TCP_Get_header _ _ t Hh Hi) as (s1 & R1 & Hh1 & Hi1 & Ho1).
  destruct (ReadAll_all MAX_MSG_SIZE _ m rest s1 Hh1 Hi1 Hf) as (s2 & R2 & Hh2 & Hi2 & Ho2).
  pose proof (header_size m Hf) as Hsz. pose proof (zlen_nonneg m).
  set (b1 := set_len (zlen m) b).
  assert (wf_MsgBuf b1) as Hwf1.
  { apply wf_set_len; [done|]. unfold tcp_fits, MAX_MSG_SIZE in Hf. lia. }
  pose proof (store_small m b1 Hf) as Hst. set (b2 := set_buf _ _) in Hst.
  exists b2, s2. split.
  - unfold TCP_Get, cbind, cget, zoom. rewrite R1. rewrite decide_False by auto.
    cbn [net set_net]. rewrite Hsz, R2. unfold clift. fold b1. rewrite Hst.
    unfold size_wrap. rewrite wrap_small by (unfold tcp_fits, MAX_MSG_SIZE in Hf; lia).
    rewrite decide_False by auto. done.
  - pose proof (holds_store m [] b1 b2 Hwf1) as Hh'. rewrite app_nil_r in Hh'.
    specialize (Hh' Hst). split_and!; [exact Hh'|congruence..].
Qed.

(** The stream ends inside the header, or between messages. *)
Lemma TCP_Get_no_header b t :
  healthy (sock_ t) (net t) → zlen (incoming (sock_ t) (net t)) < 4 →
  ∃ s', TCP_Get b t = (Ret (false, set_len 0 b), set_net s' t) ∧ healthy (sock_ t) s'
    ∧ incoming (sock_ t) s' = [] ∧ outgoing (sock_ t) s' = outgoing (sock_ t) (net t).
Proof.
  intros Hh Hi.
  destruct (ReadAll_eof 4 _ 4 _ Hh Hi ltac:(lia)) as (s1 & R1 & Hh1 & Hi1 & Ho1).
  exists s1. split; [|done]. unfold TCP_Get, cbind, cget, zoom. rewrite R1. done.
Qed.

(** *** The contracts *)

Definition tcp_source (t : TCP) (ms : list bytes) : Prop :=
  healthy (sock_ t) (net t) ∧ incoming (sock_ t) (net t) = tcp_frames ms
  ∧ Forall tcp_fits ms.

Lemma tcp_source_next t m ms b :
  tcp_source t (m :: ms) → wf_MsgBuf b →
  ∃ b' t', Get b t = (Ret (true, b'), t') ∧ holds b' m ∧ tcp_source t' ms.
Proof.
  intros (Hh & Hi & Hf) Hwf. inversion Hf; subst.
  destruct (TCP_Get_frame b m (tcp_frames ms) t) as (b' & s' & HG & Hb & ? & ? & _); try done.
  eexists b', _. split; [exact HG|]. by split.
Qed.

Lemma tcp_source_end t b :
  tcp_source t [] → wf_MsgBuf b →
  ∃ b' t', Get b t = (Ret (false, b'), t') ∧ wf_MsgBuf b' ∧ len b' = 0 ∧ tcp_source t' [].
Proof.
  intros (Hh & Hi & _) Hwf.
  destruct (TCP_Get_no_header b t) as (s' & HG & ? & ? & _); [done|by rewrite Hi|].
  eexists _, _. split; [exact HG|]. split; [by apply wf_set_len|]. split; [done|].
  split_and!; [done|done|constructor].
Qed.

#[export] Instance TCP_source : MessageSource TCP := {
  source_has := tcp_source;
  source_next := tcp_source_next;
  source_end := tcp_source_end }.

Definition tcp_sink (t : TCP) (ms : list bytes) : Prop :=
  healthy (sock_ t) (net t) ∧ outgoing (sock_ t) (net t) = tcp_frames ms.

Lemma tcp_sink_put t ms m b :
  tcp_sink t ms → holds b m → m ≠ [] →
  ∃ b' t', Put b t = (Ret (true, b'), t') ∧ holds b' m ∧ tcp_sink t' (ms ++ [m]).
Proof.
  intros [Hh Ho] Hb Hm.
  destruct (TCP_Put_ok b m t Hb Hm Hh) as (t' & HP & Hs & Hh' & _ & Ho' & _).
  exists b, t'. split; [exact HP|]. split; [done|]. unfold tcp_sink.
  rewrite Hs, Ho', Ho, tcp_frames_app. split; [done|].
  unfold tcp_frames at 3. cbn. by rewrite app_nil_r.
Qed.

Lemma tcp_sink_refuse t ms m b :
  tcp_sink t ms → holds b m → ¬ m ≠ [] →
  ∃ b' t', Put b t = (Ret (false, b'), t') ∧ wf_MsgBuf b' ∧ tcp_sink t' ms.
Proof.
  intros Hs Hb Hm. assert (m = []) as -> by (destruct m; [done|]; by destruct Hm).
  exists b, t. split; [apply TCP_Put_empty; by rewrite (holds_len _ _ Hb)|].
  split; [by eapply holds_wf|done].
Qed.

#[export] Instance TCP_sink : MessageSink TCP := {
  sink_has := tcp_sink;
  sink_ok m := m ≠ [];
  sink_put := tcp_sink_put;
  sink_refuse := tcp_sink_refuse }.

End laws.
End tcp.

Arguments TCP : clear implicits.

(** ** A concrete host

    One socket whose calls move the scheduled number of bytes at a time. *)
Module PipeHost.

Record pipe := mkPipe { pipe_in : bytes; pipe_out : bytes; chunks : list positive }.

Definition chunk (n : Z) (s : pipe) : nat :=
  Z.to_nat (Z.min n (Z.pos (default 1%positive (head (chunks s))))).

Definition pipe_read (n : Z) (s : pipe) : option bytes * pipe :=
  let k := chunk n s in
  (Some (take k (pipe_in s)), mkPipe (drop k (pipe_in s)) (pipe_out s) (tail (chunks s))).

Definition pipe_write (d : bytes) (s : pipe) : option positive * pipe :=
  let k := chunk (zlen d) s in
  (Some (Pos.of_nat k), mkPipe (pipe_in s) (pipe_out s ++ take k d) (tail (chunks s))).

#[export] Instance ops : SocketOps pipe := {
  sys_endian := LittleEndian;
  sys_socket s := (3, s);
  sys_close _ s := s;
  sys_connect _ _ s := (0, s);
  sys_read _ n s := pipe_read n s;
  sys_write _ d s := pipe_write d s;
  sys_getsockname _ _ := mkSockaddr AF_INET 0 0;
  sys_strerror _ := str "EPIPE";
  sys_ctime _ := str "now" ++ [LF] }.

Lemma chunk_pos n s : 0 < n → (0 < chunk n s)%nat ∧ Z.of_nat (chunk n s) ≤ n.
Proof. unfold chunk. lia. Qed.

#[export, refine] Instance laws : StreamLaws pipe := {
  healthy _ _ := True; incoming _ s := pipe_in s; outgoing _ s := pipe_out s }.
Proof.
  - intros fd n s _ Hn Hne. destruct (chunk_pos n s Hn) as [Hp Hle].
    eexists _, _. split; [done|]. cbn. split_and!; try done.
    + destruct (pipe_in s); [done|]. by destruct (chunk n s); [lia|].
    + unfold zlen. rewrite length_take. lia.
    + by rewrite take_drop.
  - intros fd n s _ Hn He. eexists. cbn. unfold pipe_read. rewrite He, take_nil. split; [done|].
    by rewrite drop_nil.
  - intros fd d s _ Hne.
    assert (0 < zlen d) as Hd by (destruct d; [done|rewrite zlen_cons; pose proof (zlen_nonneg d); lia]).
    destruct (chunk_pos (zlen d) s Hd) as [Hp Hle]. eexists _, _. split; [done|]. cbn.
    rewrite Nat2Pos.id by lia. split_and!; try done. unfold zlen in Hle at 2. lia.
Defined.

End PipeHost.

(** ** Properties *)

(** C5: a message put on a socket is read back on the other side, whole and
    alone, between hosts of any two byte orders and however the two hosts split
    the transfers: [Put] appends exactly the frame of the message, and [Get] on a
    stream that starts with that frame yields the message and consumes nothing
    else. *)
Theorem tcp_roundtrip {S1 S2} `{SocketOps S1} `{!StreamLaws S1} `{SocketOps S2}
    `{!StreamLaws S2} `{InetLib} m b1 (t1 : TCP S1) :
  holds b1 m → m ≠ [] → healthy (sock_ t1) (net t1) →
  ∃ t1', TCP_Put b1 t1 = (Ret (true, b1), t1')
    ∧ outgoing (sock_ t1') (net t1') = outgoing (sock_ t1) (net t1) ++ tcp_frame m
    ∧ ∀ (t2 : TCP S2) b2 rest,
        healthy (sock_ t2) (net t2) → wf_MsgBuf b2 →
        incoming (sock_ t2) (net t2) = tcp_frame m ++ rest →
        ∃ b2' t2', TCP_Get b2 t2 = (Ret (true, b2'), t2') ∧ holds b2' m
          ∧ incoming (sock_ t2') (net t2') = rest.
Proof.
  intros Hb Hm Hh.
  destruct (TCP_Put_ok b1 m t1 Hb Hm Hh) as (t1' & HP & Hs & _ & _ & Ho & _).
  exists t1'. rewrite Hs. split; [done|]. split; [done|]. intros t2 b2 rest Hh2 Hwf Hi.
  destruct (TCP_Get_frame b2 m rest t2 Hh2 Hi (holds_bound _ _ Hb) Hwf)
    as (b2' & s' & HG & Hb' & _ & Hi' & _).
  by exists b2', (set_net s' t2).
Qed.

Import PipeHost DottedQuad.

Lemma tcp_roundtrip_witness :
  let t1 := mkTCP 3 (mkPipe [] [] [2%positive; 5%positive]) Logger_init in
  ∃ t1', TCP_Put (msg_of (str "Hello World")) t1 = (Ret (true, msg_of (str "Hello World")), t1')
    ∧ pipe_out (net t1') = be32 11 ++ str "Hello World".
Proof.
  destruct (tcp_roundtrip (S2 := pipe) (str "Hello World") (msg_of (str "Hello World"))
    (mkTCP 3 (mkPipe [] [] [2%positive; 5%positive]) Logger_init)
    (holds_msg_of_b (str "Hello World") eq_refl) ltac:(done) ltac:(exact I)) as (t1' & HP & Ho & _).
  exists t1'. split; [exact HP|exact Ho].
Defined.

(** [ReadAll] gathers exactly the bytes asked for, however the socket splits
    them, when the stream has them and the array takes them; when the stream ends
    before, it returns zero after storing what there was. *)
Theorem ReadAll_reassembles {S} `{SocketOps S} `{!StreamLaws S} cap fd size s :
  healthy fd s → 0 ≤ size ≤ cap →
  ∃ s', (if decide (size ≤ zlen (incoming fd s))
         then ReadAll cap fd size s = (Ret (size, take (Z.to_nat size) (incoming fd s)), s')
              ∧ incoming fd s' = drop (Z.to_nat size) (incoming fd s)
         else ReadAll cap fd size s = (Ret (0, incoming fd s), s') ∧ incoming fd s' = [])
    ∧ healthy fd s' ∧ outgoing fd s' = outgoing fd s.
Proof.
  intros Hh Hs. case_decide as Hd.
  - set (want := take (Z.to_nat size) (incoming fd s)).
    assert (zlen want = size) as Hw by (unfold want, zlen in *; rewrite length_take; lia).
    destruct (ReadAll_all cap fd want (drop (Z.to_nat size) (incoming fd s)) s)
      as (s' & HR & ? & ? & ?); [done|by unfold want; rewrite take_drop|lia|].
    rewrite Hw in HR. eauto.
  - destruct (ReadAll_eof cap fd size s) as (s' & HR & ? & ? & ?); [done|lia|lia|]. eauto.
Qed.

Lemma ReadAll_reassembles_witness :
  ∃ s', ReadAll 8 3 5 (mkPipe (str "abcdefg") [] [2%positive; 2%positive; 7%positive])
        = (Ret (5, str "abcde"), s') ∧ pipe_in s' = str "fg".
Proof.
  destruct (ReadAll_reassembles 8 3 5
    (mkPipe (str "abcdefg") [] [2%positive; 2%positive; 7%positive]) ltac:(exact I) ltac:(lia))
    as (s' & HR & _ & _).
  rewrite decide_True in HR by (apply (bool_decide_eq_true_1 _); reflexivity).
  exists s'. exact HR.
Defined.

(** C16: [Get] does not bound the length it receives: a header above
    [MAX_MSG_SIZE], followed by more than [MAX_MSG_SIZE] bytes, makes it write past
    the end of the message buffer. *)
Theorem tcp_get_overflow {S} `{SocketOps S} `{!StreamLaws S} `{InetLib} (t : TCP S) b n data :
  healthy (sock_ t) (net t) → MAX_MSG_SIZE < n < 2 ^ 32 → MAX_MSG_SIZE < zlen data →
  incoming (sock_ t) (net t) = be32 n ++ data →
  ∃ t', TCP_Get b t = (Undef BufferOverflow, t').
Proof.
  intros Hh Hn Hd Hi.
  destruct (TCP_Get_header n data t Hh Hi) as (s1 & R1 & Hh1 & Hi1 & _).
  destruct (ReadAll_overflow MAX_MSG_SIZE (sock_ t) n s1) as (s2 & R2);
    [done|unfold MAX_MSG_SIZE in *; lia|by rewrite Hi1|].
  exists (set_net s2 t). unfold TCP_Get, cbind, cget, zoom. rewrite R1.
  rewrite decide_False by auto. cbn [net set_net].
  rewrite ntohl_of_mem32 by (unfold MAX_MSG_SIZE in Hn; lia). by rewrite R2.
Qed.

Lemma tcp_get_overflow_witness :
  ∃ t', TCP_Get (msg_of [])
    (mkTCP 3 (mkPipe (be32 5000 ++ replicate 4500 "A"%char) [] [5%positive; 4500%positive])
       Logger_init) = (Undef BufferOverflow, t').
Proof.
  apply (tcp_get_overflow _ (msg_of []) 5000 (replicate 4500 "A"%char));
    [exact I|unfold MAX_MSG_SIZE; lia| |reflexivity].
  apply (bool_decide_eq_true_1 _). reflexivity.
Defined.

(** A stream that ends inside a message (in its header or in its body)
    makes [Get] report failure and an empty message; nothing partial is
    delivered. *)
Theorem tcp_get_truncated {S} `{SocketOps S} `{!StreamLaws S} `{InetLib} (t : TCP S) b m part more :
  healthy (sock_ t) (net t) → wf_MsgBuf b → tcp_fits m →
  tcp_frame m = part ++ more → more ≠ [] → incoming (sock_ t) (net t) = part →
  ∃ b' t', TCP_Get b t = (Ret (false, b'), t') ∧ len b' = 0 ∧ wf_MsgBuf b'
    ∧ incoming (sock_ t') (net t') = [].
Proof.
  intros Hh Hwf Hf Hp Hm Hi. pose proof (zlen_nonneg part). pose proof (zlen_nonneg m).
  assert (0 < zlen more) as Hmore
    by (destruct more; [done|rewrite zlen_cons; pose proof (zlen_nonneg more); lia]).
  assert (zlen part + zlen more = 4 + zlen m) as Hlen.
  { rewrite <- zlen_app, <- Hp. unfold tcp_frame. by rewrite zlen_app. }
  destruct (decide (zlen part < 4)) as [Hlt|Hge].
  - destruct (TCP_Get_no_header b t Hh) as (s' & HG & _ & Hi' & _); [by rewrite Hi|].
    eexists _, _. split; [exact HG|]. split; [done|]. split; [by apply wf_set_len|done].
  - unfold tcp_frame in Hp.
    assert (∃ body, part = be32 (zlen m) ++ body) as [body Hb].
    { apply app_eq_inv in Hp as [(k & Hk & _)|(k & -> & _)]; [|eauto].
      apply (f_equal zlen) in Hk as Hk'. rewrite zlen_app in Hk'.
      change (zlen (be32 (zlen m))) with 4 in Hk'. pose proof (zlen_nonneg k).
      exists []. rewrite app_nil_r.
      assert (k = []) as -> by (apply zlen_zero; lia). by rewrite app_nil_r in Hk. }
    rewrite Hb in Hi, Hlen. rewrite zlen_app in Hlen. change (zlen (be32 (zlen m))) with 4 in Hlen.
    destruct (TCP_Get_header _ body t Hh Hi) as (s1 & R1 & Hh1 & Hi1 & _).
    unfold tcp_fits in Hf.
    destruct (ReadAll_eof MAX_MSG_SIZE (sock_ t) (zlen m) s1) as (s2 & R2 & _ & Hi2 & _);
      [done|rewrite Hi1; lia|rewrite Hi1; lia|]. rewrite Hi1 in R2.
    assert (zlen body ≤ MAX_MSG_SIZE) as Hbl by lia. pose proof (zlen_nonneg body).
    pose proof (store_small body (set_len (zlen m) b) Hbl) as Hst.
    eexists (set_len 0 _), (set_net s2 t).
    split; [|split; [reflexivity|split; [|exact Hi2]]].
    + unfold TCP_Get, cbind, cget, zoom. rewrite R1. rewrite decide_False by auto.
      cbn [net set_net]. rewrite header_size, R2 by done. unfold clift. rewrite Hst.
      rewrite decide_True by (change (size_wrap 0) with 0; lia). reflexivity.
    + apply wf_set_len; [|done]. eapply store_wf; [|exact Hst].
      apply wf_set_len; [done|]. unfold MAX_MSG_SIZE in Hf. lia.
Qed.

Lemma tcp_get_truncated_witness :
  ∃ b' t', TCP_Get (msg_of [])
    (mkTCP 3 (mkPipe (be32 5 ++ str "ab") [] [9%positive; 9%positive; 9%positive]) Logger_init)
    = (Ret (false, b'), t') ∧ len b' = 0.
Proof.
  destruct (tcp_get_truncated
    (mkTCP 3 (mkPipe (be32 5 ++ str "ab") [] [9%positive; 9%positive; 9%positive]) Logger_init)
    (msg_of []) (str "abcde") (be32 5 ++ str "ab") (str "cde") ltac:(exact I)
    (holds_wf _ [] (holds_msg_of_b [] eq_refl))) as (b' & t' & HG & Hl & _); try done.
  exists b', t'. split; [exact HG|exact Hl].
Defined.
