(* ===== verification/SysvMq.v ===== *)
(** * SysvMq: the System V message queue policy of [io_policy/sysv_mq.hpp]

    A queue of the process is found by name through a key file.  The system
    calls are parameters ([MqOps]) over the state of the kernel, with the
    documented laws of message queues ([MqLaws]); the object keeps the fields of
    the class, the ones its constructor does not set included. *)

From S2P Require Import Prelude Text MsgBuf MsgFilter Util.

(** ** The kernel *)

Definition IPC_CREAT : Z := 512.
Definition IPC_NOWAIT : Z := 2048.
Definition S_IRUSR : Z := 256.
Definition S_IWUSR : Z := 128.
Definition O_RDONLY : Z := 0.

(** [sys_msgsnd q type text flag] succeeds or not; [sys_msgrcv q n] gives the
    type and text of a message, [None] for [-1].  Each gives [None] in a state in
    which the call does not return: it waits for another thread or process to
    change the queue, or for a signal.  [sys_msg_qnum] is the count
    [msgctl(IPC_STAT)] reports. *)
Class MqOps (K : Type) := {
  sys_getpid : K → Z;
  sys_msgmax : Z;
  sys_creat : bytes → Z → K → Z * K;
  sys_close_fd : Z → K → K;
  sys_unlink : bytes → K → K;
  sys_ftok : bytes → Z → K → Z;
  sys_msgget : Z → Z → K → Z * K;
  sys_msgsnd : Z → Z → bytes → Z → K → option (bool * K);
  sys_msgrcv : Z → Z → K → option (option (Z * bytes) * K);
  sys_msgctl_rmid : Z → K → K;
  sys_msg_qnum : Z → K → option Z;
  sys_errno_text : K → bytes }.

(** [mq_queue q k] is the contents of queue [q], oldest first, [None] when there
    is no such queue; [mq_key key k] the queue a key names; [mq_room q ds k] says
    that the messages [ds], sent one after the other, fit in what room there is. *)
Class MqLaws (K : Type) `{MqOps K} := {
  mq_queue : Z → K → option (list bytes);
  mq_key : Z → K → option Z;
  mq_room : Z → list bytes → K → Prop;
  (** the key [ftok] derives from an existing file *)
  file_key : bytes → K → option Z;
  ftok_is p k y : file_key p k = Some y → sys_ftok p 0 k = y;
  msgsnd_accepts q t d fl k k' :
    sys_msgsnd q t d fl k = Some (true, k') →
    ∃ l, mq_queue q k = Some l ∧ mq_queue q k' = Some (l ++ [d])
      ∧ (∀ q', q' ≠ q → mq_queue q' k' = mq_queue q' k) ∧ (∀ y, mq_key y k' = mq_key y k);
  msgsnd_rejects q t d fl k k' :
    sys_msgsnd q t d fl k = Some (false, k') →
    (∀ q', mq_queue q' k' = mq_queue q' k) ∧ (∀ y, mq_key y k' = mq_key y k);
  msgrcv_takes q n k t d k' :
    sys_msgrcv q n k = Some (Some (t, d), k') →
    ∃ l, mq_queue q k = Some (d :: l) ∧ mq_queue q k' = Some l ∧ zlen d ≤ n
      ∧ (∀ q', q' ≠ q → mq_queue q' k' = mq_queue q' k) ∧ (∀ y, mq_key y k' = mq_key y k);
  msgrcv_none q n k k' :
    sys_msgrcv q n k = Some (None, k') →
    (∀ q', mq_queue q' k' = mq_queue q' k) ∧ (∀ y, mq_key y k' = mq_key y k);
  msgrcv_ready q n k d l :
    mq_queue q k = Some (d :: l) → zlen d ≤ n →
    ∃ t k', sys_msgrcv q n k = Some (Some (t, d), k');
  (** with room, which an empty queue has for an empty message, the call succeeds
      at once, and uses up that room only *)
  msgsnd_room q t d ds fl k :
    mq_room q (d :: ds) k → is_Some (mq_queue q k) → 1 ≤ t → zlen d ≤ sys_msgmax →
    ∃ k', sys_msgsnd q t d fl k = Some (true, k') ∧ mq_room q ds k';
  msgsnd_room_empty q k : mq_queue q k = Some [] → mq_room q [[]] k;
  msgsnd_room_other q q' t d ds fl k r k' :
    sys_msgsnd q t d fl k = Some (r, k') → q' ≠ q → mq_room q' ds k → mq_room q' ds k';
  (** a message that was taken out fits again *)
  msgrcv_room q n k t d k' :
    sys_msgrcv q n k = Some (Some (t, d), k') → mq_room q [d] k';
  (** a call waits for room, or for a message *)
  msgsnd_waits q t d fl k :
    sys_msgsnd q t d fl k = None → Z.land fl IPC_NOWAIT = 0;
  msgrcv_waits q n k : sys_msgrcv q n k = None → mq_queue q k = Some [];
  msg_qnum_counts q k l :
    mq_queue q k = Some l → sys_msg_qnum q k = Some (zlen l);
  rmid_removes q k :
    mq_queue q (sys_msgctl_rmid q k) = None
    ∧ (∀ q', q' ≠ q → mq_queue q' (sys_msgctl_rmid q k) = mq_queue q' k)
    ∧ (∀ y q', mq_key y (sys_msgctl_rmid q k) = Some q' ↔ mq_key y k = Some q' ∧ q' ≠ q);
  unlink_keeps p k :
    (∀ q, mq_queue q (sys_unlink p k) = mq_queue q k)
    ∧ (∀ y, mq_key y (sys_unlink p k) = mq_key y k);
  (** creating the key file again does not change the key it gives *)
  creat_keeps p m fd k k' :
    sys_creat p m k = (fd, k') →
    (∀ q, mq_queue q k' = mq_queue q k) ∧ (∀ y, mq_key y k' = mq_key y k)
    ∧ sys_getpid k' = sys_getpid k
    ∧ (fd ≠ -1 → ∃ y, file_key p k' = Some y)
    ∧ (∀ y, file_key p k = Some y → file_key p k' = Some y);
  close_keeps fd k :
    (∀ q, mq_queue q (sys_close_fd fd k) = mq_queue q k)
    ∧ (∀ y, mq_key y (sys_close_fd fd k) = mq_key y k)
    ∧ sys_getpid (sys_close_fd fd k) = sys_getpid k
    ∧ (∀ p, file_key p (sys_close_fd fd k) = file_key p k);
  msgget_finds y fl id k k' :
    sys_msgget y fl k = (id, k') → 0 ≤ id →
    mq_key y k' = Some id
    ∧ (mq_key y k = Some id ∨ (mq_key y k = None ∧ mq_queue id k = None))
    ∧ (∀ q, q ≠ id → mq_queue q k' = mq_queue q k)
    ∧ mq_queue id k' = Some (default [] (mq_queue id k))
    ∧ sys_getpid k' = sys_getpid k
    ∧ (∀ p, file_key p k' = file_key p k) }.

(** ** The policy *)

Section sysv.
Context {K : Type} `{MqOps K}.

(** [class SysvMq], with the kernel it runs on. *)
Record SysvMq := mkSysvMq {
  mqid_ : Z; key_ : Z; key_file_ : bytes; cleanup_ : bool; put_flag_ : Z; kern : K }.

Definition set_kern (k : K) (s : SysvMq) : SysvMq :=
  mkSysvMq (mqid_ s) (key_ s) (key_file_ s) (cleanup_ s) (put_flag_ s) k.

(** The constructor sets [cleanup_] only: [mqid0], [key0] and [flag0] are what
    the memory held. *)
Definition SysvMq_init (mqid0 key0 flag0 : Z) (k : K) : SysvMq :=
  mkSysvMq mqid0 key0 [] true flag0 k.

(** The destructor. *)
Definition SysvMq_destroy : comp SysvMq unit :=
  let* s := cget in
  if negb (cleanup_ s) || bool_decide (zlen (key_file_ s) = 0) then cret tt
  else cmodify (λ s, set_kern (sys_unlink (key_file_ s) (sys_msgctl_rmid (mqid_ s) (kern s))) s).

Definition key_file_name (pid : Z) (escaped : bytes) : bytes :=
  str "/tmp/wissbi.sysvmq." ++ dec pid ++ str "." ++ escaped.

(** [assert(c)], in a build with or without [NDEBUG]. *)
Definition cassert {W} (ndebug c : bool) : comp W unit :=
  λ w, (if ndebug || c then Ret tt else AssertFailed, w).

Definition mq_init (ndebug : bool) (name : bytes) : comp SysvMq unit :=
  let* escaped := clift (EscapeSubFolderPath name) in
  let* s := cget in
  let key_file := key_file_name (sys_getpid (kern s)) escaped in
  let '(res, k1) := sys_creat key_file (Z.lor O_RDONLY (Z.lor S_IRUSR S_IWUSR)) (kern s) in
  let* _ := cput (mkSysvMq (mqid_ s) (key_ s) key_file (cleanup_ s) (put_flag_ s) k1) in
  let* _ := cassert ndebug (negb (bool_decide (res = -1))) in
  let k2 := sys_close_fd res k1 in
  let key := sys_ftok key_file 0 k2 in
  let '(mqid, k3) := sys_msgget key (Z.lor IPC_CREAT (Z.lor S_IRUSR S_IWUSR)) k2 in
  let* _ := cput (mkSysvMq mqid key key_file (cleanup_ s) (put_flag_ s) k3) in
  if decide (mqid < 0) then cthrow (str "cannot acquire mq: " ++ sys_errno_text k3)
  else cret tt.

(** [Put] marks the caller's message before sending it.  The kernel rejects a
    size above its maximum before it reads the text. *)
Definition SysvMq_Put (b : MsgBuf) : comp SysvMq (bool * MsgBuf) :=
  let b1 := set_mtype 1 b in
  if decide (sys_msgmax < len b1) then cret (false, b1)
  else
    let* text := clift (load b1) in
    let* s := cget in
    match sys_msgsnd (mqid_ s) (mtype b1) text (put_flag_ s) (kern s) with
    | None => λ s, (Waits, s)
    | Some (ok, k) => let* _ := cput (set_kern k s) in cret (ok, b1)
    end.

Definition SysvMq_Get (b : MsgBuf) : comp SysvMq (bool * MsgBuf) :=
  let* s := cget in
  match sys_msgrcv (mqid_ s) MAX_MSG_SIZE (kern s) with
  | None => λ s, (Waits, s)
  | Some (None, k) => let* _ := cput (set_kern k s) in cret (false, set_len 0 b)
  | Some (Some (t, d), k) =>
      let* _ := cput (set_kern k s) in
      let* b1 := clift (store d (set_mtype t b)) in
      cret (true, set_len (zlen d) b1)
  end.

(** [GetCount] does not look at the result of [msgctl]. *)
Definition GetCount (s : SysvMq) : outcome Z :=
  match sys_msg_qnum (mqid_ s) (kern s) with
  | Some n => Ret n
  | None => Undef UninitRead
  end.

Definition set_cleanup (cleanup : bool) (s : SysvMq) : SysvMq :=
  mkSysvMq (mqid_ s) (key_ s) (key_file_ s) cleanup (put_flag_ s) (kern s).
Definition set_drop (drop : bool) (s : SysvMq) : SysvMq :=
  mkSysvMq (mqid_ s) (key_ s) (key_file_ s) (cleanup_ s) (if drop then IPC_NOWAIT else 0) (kern s).

#[export] Instance SysvMq_IOPolicy : IOPolicy SysvMq := { Get := SysvMq_Get; Put := SysvMq_Put }.

(** ** The abstract queue

    What the policy promises: a FIFO of messages that may refuse an enqueue.  A
    call that waits has no effect yet: [Waiting] is what an attempt gives that has
    to be made again.  An object that [drops] does not wait to send. *)
Inductive mq_op := OpPut (m : bytes) | OpGet.
Inductive mq_result := Accepted | Refused | Got (m : bytes) | GotNothing | Waiting.

Inductive fifo_step (drops : bool) : list bytes → mq_op → mq_result → list bytes → Prop :=
  | fifo_put q m : fifo_step drops q (OpPut m) Accepted (q ++ [m])
  | fifo_refuse q m : fifo_step drops q (OpPut m) Refused q
  | fifo_full q m : drops = false → fifo_step drops q (OpPut m) Waiting q
  | fifo_get q m : fifo_step drops (m :: q) OpGet (Got m) q
  | fifo_interrupted : fifo_step drops [] OpGet GotNothing []
  | fifo_empty : fifo_step drops [] OpGet Waiting [].

Inductive fifo_run (drops : bool) : list bytes → list mq_op → list mq_result → list bytes → Prop :=
  | fifo_done q : fifo_run drops q [] [] q
  | fifo_more q o r q1 os rs q2 :
      fifo_step drops q o r q1 → fifo_run drops q1 os rs q2 → fifo_run drops q (o :: os) (r :: rs) q2.

(** One attempt of a client of the policy, with its one buffer. *)
Definition mq_run (o : mq_op) : comp (SysvMq * MsgBuf) mq_result := λ w,
  let '(s, b) := w in
  match o with
  | OpPut m =>
      match SysvMq_Put (msg_of m) s with
      | (Ret (r, _), s') => (Ret (if r : bool then Accepted else Refused), (s', b))
      | (Throw e, s') => (Throw e, (s', b))
      | (AssertFailed, s') => (AssertFailed, (s', b))
      | (Waits, s') => (Ret Waiting, (s', b))
      | (Undef u, s') => (Undef u, (s', b))
      end
  | OpGet =>
      match SysvMq_Get b s with
      | (Ret (r, b'), s') =>
          match load b' with
          | Ret m => (Ret (if r : bool then Got m else GotNothing), (s', b'))
          | Throw e => (Throw e, (s', b'))
          | AssertFailed => (AssertFailed, (s', b'))
          | Waits => (Waits, (s', b'))
          | Undef u => (Undef u, (s', b'))
          end
      | (Throw e, s') => (Throw e, (s', b))
      | (AssertFailed, s') => (AssertFailed, (s', b))
      | (Waits, s') => (Ret Waiting, (s', b))
      | (Undef u, s') => (Undef u, (s', b))
      end
  end.

Fixpoint mq_runs (os : list mq_op) : comp (SysvMq * MsgBuf) (list mq_result) :=
  match os with
  | [] => cret []
  | o :: os' => let* r := mq_run o in let* rs := mq_runs os' in cret (r :: rs)
  end.

(** The messages that went in and came out of a run. *)
Fixpoint accepted (os : list mq_op) (rs : list mq_result) : list bytes :=
  match os, rs with
  | OpPut m :: os', Accepted :: rs' => m :: accepted os' rs'
  | _ :: os', _ :: rs' => accepted os' rs'
  | _, _ => []
  end.
Fixpoint received (rs : list mq_result) : list bytes :=
  match rs with
  | Got m :: rs' => m :: received rs'
  | _ :: rs' => received rs'
  | [] => []
  end.

(** What a series of [Put]s does to the queue, up to the first that is refused or
    waits: how many were accepted, whether the last one waits, and the object
    afterwards. *)
Fixpoint enqueue (ms : list bytes) (s : SysvMq) : nat * bool * SysvMq :=
  match ms with
  | [] => (0%nat, false, s)
  | m :: ms' =>
      match SysvMq_Put (msg_of m) s with
      | (Ret (true, _), s1) => let '(n, waits, s2) := enqueue ms' s1 in (S n, waits, s2)
      | (Waits, s1) => (0%nat, true, s1)
      | (_, s1) => (0%nat, false, s1)
      end
  end.

(** ** Lemmas *)

(** [Put] depends on the message only, not on what else the buffer holds. *)
Lemma SysvMq_Put_same b b' m s r b1 s1 :
  holds b m → holds b' m → SysvMq_Put b s = (Ret (r, b1), s1) →
  SysvMq_Put b' s = (Ret (r, set_mtype 1 b'), s1).
Proof.
  intros Hb Hb'. unfold SysvMq_Put.
  pose proof (holds_set_mtype _ 1 _ Hb) as H1. pose proof (holds_set_mtype _ 1 _ Hb') as H2.
  rewrite (holds_len _ _ H1), (holds_len _ _ H2). case_decide; [by intros [= <- _ <-]|].
  unfold cbind, clift. rewrite (holds_load _ _ H1), (holds_load _ _ H2). cbn [mtype set_mtype].
  unfold cget, cput, cret. destruct (sys_msgsnd _ _ _ _ _) as [[ok k]|]; [|done]. by intros [= <- _ <-].
Qed.

Lemma SysvMq_Put_same_waits b b' m s :
  holds b m → holds b' m → SysvMq_Put b s = (Waits, s) → SysvMq_Put b' s = (Waits, s).
Proof.
  intros Hb Hb'. unfold SysvMq_Put.
  pose proof (holds_set_mtype _ 1 _ Hb) as H1. pose proof (holds_set_mtype _ 1 _ Hb') as H2.
  rewrite (holds_len _ _ H1), (holds_len _ _ H2). case_decide; [done|].
  unfold cbind, clift. rewrite (holds_load _ _ H1), (holds_load _ _ H2). cbn [mtype set_mtype].
  unfold cget, cput, cret. by destruct (sys_msgsnd _ _ _ _ _) as [[ok k]|].
Qed.

Section laws.
Context `{!MqLaws K}.

(** The queue behind an object, the room in it, and whether the object drops
    messages instead of waiting. *)
Definition mq_view (s : SysvMq) : option (list bytes) := mq_queue (mqid_ s) (kern s).
Definition has_room (ds : list bytes) (s : SysvMq) : Prop := mq_room (mqid_ s) ds (kern s).
Definition drops (s : SysvMq) : bool := negb (bool_decide (Z.land (put_flag_ s) IPC_NOWAIT = 0)).

(** The object is the same but for the kernel. *)
Definition same_object (s s' : SysvMq) : Prop := s' = set_kern (kern s') s.

Lemma same_object_mqid s s' : same_object s s' → mqid_ s' = mqid_ s.
Proof. by intros ->. Qed.

Lemma same_object_drops s s' : same_object s s' → drops s' = drops s.
Proof. by intros ->. Qed.

(** What a [Put] that returned did. *)
Definition put_done (m : bytes) (ok : bool) (s s' : SysvMq) : Prop :=
  same_object s s'
  ∧ (if ok then ∃ l, mq_view s = Some l ∧ mq_view s' = Some (l ++ [m]) else mq_view s' = mq_view s)
  ∧ (∀ q, q ≠ mqid_ s → mq_queue q (kern s') = mq_queue q (kern s))
  ∧ (∀ q ds, q ≠ mqid_ s → mq_room q ds (kern s) → mq_room q ds (kern s')).

Lemma SysvMq_Put_cases b m s :
  holds b m → len b ≤ sys_msgmax →
  (SysvMq_Put b s = (Waits, s) ∧ drops s = false)
  ∨ ∃ ok s', SysvMq_Put b s = (Ret (ok, set_mtype 1 b), s') ∧ put_done m ok s s'.
Proof.
  intros Hb Hl. unfold SysvMq_Put. rewrite decide_False by (cbn; lia).
  unfold cbind, clift, cget, cput, cret.
  rewrite (holds_load _ _ (holds_set_mtype _ 1 _ Hb)). cbn [mtype set_mtype].
  destruct (sys_msgsnd _ _ _ _ _) as [[ok k]|] eqn:E.
  - right. exists ok, (set_kern k s). split; [done|]. split; [done|].
    split; [|split; [|intros q ds Hq; by eapply msgsnd_room_other]]; destruct ok.
    + apply msgsnd_accepts in E as (l & Hq & Hq' & _). eauto.
    + apply msgsnd_rejects in E as [Hq _]. apply Hq.
    + by apply msgsnd_accepts in E as (l & _ & _ & Ho & _).
    + apply msgsnd_rejects in E as [Hq _]. by intros.
  - left. split; [done|]. unfold drops. apply negb_false_iff, bool_decide_eq_true.
    by eapply msgsnd_waits.
Qed.

(** With room it is accepted. *)
Lemma SysvMq_Put_room b m ds s :
  holds b m → len b ≤ sys_msgmax → has_room (m :: ds) s → is_Some (mq_view s) →
  ∃ s', SysvMq_Put b s = (Ret (true, set_mtype 1 b), s') ∧ put_done m true s s' ∧ has_room ds s'.
Proof.
  intros Hb Hl Hr Hs.
  destruct (msgsnd_room (mqid_ s) 1 m ds (put_flag_ s) (kern s) Hr Hs ltac:(lia)) as (k & E & Hr').
  { rewrite <- (holds_len _ _ Hb). done. }
  assert (HP : SysvMq_Put b s = (Ret (true, set_mtype 1 b), set_kern k s)).
  { unfold SysvMq_Put. rewrite decide_False by (cbn; lia). unfold cbind, clift, cget, cput, cret.
    rewrite (holds_load _ _ (holds_set_mtype _ 1 _ Hb)). cbn [mtype set_mtype]. by rewrite E. }
  exists (set_kern k s). split; [done|]. split; [|done].
  destruct (SysvMq_Put_cases b m s Hb Hl) as [[HP' _]|(ok & s' & HP' & Hd)]; rewrite HP in HP';
    [done|]. by injection HP' as <- <-.
Qed.

Lemma SysvMq_Get_cases b s :
  wf_MsgBuf b →
  (∃ m b' s' l, SysvMq_Get b s = (Ret (true, b'), s') ∧ holds b' m ∧ same_object s s'
      ∧ mq_view s = Some (m :: l) ∧ mq_view s' = Some l ∧ has_room [m] s')
  ∨ (∃ s', SysvMq_Get b s = (Ret (false, set_len 0 b), s') ∧ same_object s s'
      ∧ (∀ q, mq_queue q (kern s') = mq_queue q (kern s))
      ∧ (∀ m l, mq_view s = Some (m :: l) → MAX_MSG_SIZE < zlen m))
  ∨ (SysvMq_Get b s = (Waits, s) ∧ mq_view s = Some []).
Proof.
  intros Hwf. unfold SysvMq_Get, cbind, clift, cget, cput, cret.
  destruct (sys_msgrcv _ _ _) as [[[[t d]|] k]|] eqn:E.
  - left. pose proof (msgrcv_room _ _ _ _ _ _ E) as Hr.
    apply msgrcv_takes in E as (l & Hq & Hq' & Hd & Ho & _).
    rewrite store_small by done. eexists d, _, _, l. split; [reflexivity|].
    split; [|done]. eapply (holds_store d []); [by eapply wf_set_mtype|].
    rewrite app_nil_r. by apply store_small.
  - right; left. pose proof (msgrcv_none _ _ _ _ E) as [Hq _].
    eexists. split; [reflexivity|]. split; [done|]. split; [done|].
    intros m l Hv. destruct (decide (MAX_MSG_SIZE < zlen m)) as [|Hd]; [done|].
    destruct (msgrcv_ready _ MAX_MSG_SIZE _ _ _ Hv ltac:(lia)) as (t & k' & E'). congruence.
  - right; right. split; [done|]. by apply msgrcv_waits in E.
Qed.

(** The messages of a queue all fit the buffer: the only ones the policy
    sends. *)
Definition mq_fits (s : SysvMq) (q : list bytes) : Prop :=
  mq_view s = Some q ∧ Forall (λ m, zlen m ≤ MAX_MSG_SIZE) q.

Definition op_fits (o : mq_op) : Prop :=
  match o with OpPut m => zlen m ≤ MAX_MSG_SIZE | OpGet => True end.

(** The head of a queue whose messages fit. *)
Lemma SysvMq_Get_head b s m l :
  wf_MsgBuf b → mq_fits s (m :: l) →
  ∃ b' s', SysvMq_Get b s = (Ret (true, b'), s') ∧ holds b' m ∧ same_object s s'
    ∧ mq_fits s' l ∧ has_room [m] s'.
Proof.
  intros Hwf [Hv Hf]. inversion Hf as [|? ? Hm Hl]; subst.
  destruct (SysvMq_Get_cases b s Hwf)
    as [(m' & b' & s' & l' & HG & Hb & Ho & Hv1 & Hv2 & Hr)|[(s' & _ & _ & _ & Hbig)|[_ Hv1]]].
  - simplify_eq. by exists b', s'.
  - specialize (Hbig _ _ Hv). lia.
  - simplify_eq.
Qed.

Lemma put_done_fits m ok s s' q :
  put_done m ok s s' → mq_fits s q → zlen m ≤ MAX_MSG_SIZE →
  mq_fits s' (if ok then q ++ [m] else q).
Proof.
  intros (_ & Hq & _) [Hv Hf] Hm. destruct ok.
  - destruct Hq as (l & Hl & Hl'). simplify_eq. split; [done|]. apply Forall_app; eauto.
  - split; [by rewrite Hq|done].
Qed.

Lemma mq_run_refines o s b q :
  MAX_MSG_SIZE ≤ sys_msgmax → op_fits o → wf_MsgBuf b → mq_fits s q →
  ∃ r s' b' q', mq_run o (s, b) = (Ret r, (s', b')) ∧ fifo_step (drops s) q o r q'
    ∧ wf_MsgBuf b' ∧ mq_fits s' q' ∧ same_object s s'.
Proof.
  intros Hmax Ho Hwf Hq. destruct o as [m|]; cbn [op_fits mq_run] in *.
  - destruct (SysvMq_Put_cases (msg_of m) m s) as [[-> Hd]|(ok & s' & -> & Hd)];
      [by apply holds_msg_of|cbn; lia| |].
    + exists Waiting, s, b, q. split; [done|]. split; [by constructor|]. split; [done|]. split; [done|].
      by destruct s.
    + exists (if ok then Accepted else Refused), s', b, (if ok then q ++ [m] else q).
      split; [done|]. pose proof (put_done_fits _ _ _ _ _ Hd Hq Ho) as Hq'.
      destruct ok; (split; [constructor|split; [done|split; [exact Hq'|by destruct Hd]]]).
  - destruct (SysvMq_Get_cases b s Hwf)
      as [(m & b' & s' & l & -> & Hb & Hso & Hv1 & Hv2 & _)|[(s' & -> & Hso & Hk & Hbig)|[-> Hv1]]];
      destruct Hq as [Hv Hf].
    + rewrite (holds_load _ _ Hb). simplify_eq. inversion Hf; subst.
      eexists _, s', b', l. split; [done|]. split; [constructor|]. split; [by eapply holds_wf|].
      done.
    + assert (load (set_len 0 b) = Ret []) as -> by done.
      destruct q as [|m q]; [|inversion Hf; subst; specialize (Hbig _ _ Hv); lia].
      eexists _, s', _, []. split; [done|]. split; [constructor|]. split; [by apply wf_set_len|].
      split; [|done]. split; [|done]. unfold mq_view. by rewrite (same_object_mqid _ _ Hso), Hk.
    + simplify_eq. exists Waiting, s, b, []. split; [done|]. split; [constructor|].
      split; [done|]. split; [done|]. by destruct s.
Qed.

Lemma mq_runs_refines os s b q :
  MAX_MSG_SIZE ≤ sys_msgmax → Forall op_fits os → wf_MsgBuf b → mq_fits s q →
  ∃ rs s' b' q', mq_runs os (s, b) = (Ret rs, (s', b')) ∧ mq_fits s' q' ∧ fifo_run (drops s) q os rs q'.
Proof.
  intros Hmax Hos. revert s b q. induction Hos as [|o os Ho Hos IH]; intros s b q Hwf Hq.
  - exists [], s, b, q. split; [done|]. split; [done|constructor].
  - destruct (mq_run_refines o s b q Hmax Ho Hwf Hq) as (r & s1 & b1 & q1 & Hr & Hst & Hwf1 & Hq1 & Hs1).
    destruct (IH s1 b1 q1 Hwf1 Hq1) as (rs & s2 & b2 & q2 & Hrs & Hq2 & Hrun).
    exists (r :: rs), s2, b2, q2. split.
    { cbn [mq_runs]. rewrite (cbind_ret _ _ _ _ _ Hr). by rewrite (cbind_ret _ _ _ _ _ Hrs). }
    split; [done|]. econstructor; [done|]. by rewrite <- (same_object_drops _ _ Hs1).
Qed.

(** What goes in comes out. *)
Lemma fifo_run_conserves d q os rs q' :
  fifo_run d q os rs q' → length rs = length os ∧ q ++ accepted os rs = received rs ++ q'.
Proof.
  induction 1 as [q|q o r q1 os rs q2 Hst _ [Hl He]]; [by rewrite app_nil_r|].
  split; [cbn; lia|]. destruct Hst; cbn [accepted received]; try done.
  - by rewrite <- app_assoc in He.
  - cbn. by rewrite He.
Qed.

(** *** [mq_init] *)

(** A kernel in which the queue of a name exists. *)
Definition names_queue (name : bytes) (q : Z) (k : K) : Prop :=
  ∃ e y, EscapeSubFolderPath name = Ret e
    ∧ file_key (key_file_name (sys_getpid k) e) k = Some y ∧ mq_key y k = Some q.

(** What a successful [mq_init] leaves: the queue the name has from now on, the
    one it had before if it had one, with its contents. *)
Lemma mq_init_ok ndebug name s s' :
  mq_init ndebug name s = (Ret tt, s') →
  0 ≤ mqid_ s' ∧ (ndebug = false → names_queue name (mqid_ s') (kern s'))
  ∧ (∀ q, names_queue name q (kern s) → mqid_ s' = q)
  ∧ mq_view s' = Some (default [] (mq_queue (mqid_ s') (kern s)))
  ∧ (∀ q, q ≠ mqid_ s' → mq_queue q (kern s') = mq_queue q (kern s))
  ∧ put_flag_ s' = put_flag_ s ∧ cleanup_ s' = cleanup_ s
  ∧ ∃ e, EscapeSubFolderPath name = Ret e
      ∧ key_file_ s' = key_file_name (sys_getpid (kern s)) e.
Proof.
  unfold mq_init, cbind, clift, cget, cput, cassert, cthrow, cret.
  destruct (EscapeSubFolderPath name) as [e| | | |] eqn:He; try done.
  set (f := key_file_name _ e).
  destruct (sys_creat f _ (kern s)) as [fd k1] eqn:Hc.
  destruct (ndebug || negb (bool_decide (fd = -1))) eqn:Ha; [|done].
  set (k2 := sys_close_fd fd k1). set (y := sys_ftok f 0 k2).
  destruct (sys_msgget y _ k2) as [q k3] eqn:Hg.
  destruct (decide (q < 0)) as [|Hq]; [done|]. intros [= <-]. cbn.
  apply creat_keeps in Hc as (Hcq & Hcy & Hcp & Hcf & Hck).
  destruct (close_keeps fd k1) as (Hlq & Hly & Hlp & Hlf). fold k2 in Hlq, Hly, Hlp, Hlf.
  apply msgget_finds in Hg as (Hgk & Hgo & Hgq & Hgv & Hgp & Hgf); [|lia].
  assert (∀ q', mq_queue q' k2 = mq_queue q' (kern s)) as H2 by (intros; congruence).
  split; [lia|]. split; [|split; [|split; [|split; [|split_and!; [done|done|eauto]]]]].
  - intros ->. cbn in Ha. apply negb_true_iff, bool_decide_eq_false in Ha.
    destruct (Hcf Ha) as [y' Hy']. exists e, y. split; [done|]. split; [|done].
    rewrite Hgf, Hgp, Hlp, Hcp. fold f. rewrite Hlf, Hy'. f_equal.
    unfold y. symmetry. apply ftok_is. by rewrite Hlf.
  - intros q0 (e' & y0 & He' & Hf0 & Hk0).
    rewrite He in He'. injection He' as <-. fold f in Hf0.
    assert (y = y0) as ->.
    { unfold y. apply ftok_is. rewrite Hlf. by apply Hck. }
    rewrite Hly, Hcy in Hgo. destruct Hgo as [?|[? _]]; congruence.
  - by rewrite <- H2.
  - intros q' Hq'. rewrite <- H2. by apply Hgq.
Qed.

Lemma SysvMq_destroy_eq s :
  SysvMq_destroy s
  = (Ret tt, if negb (cleanup_ s) || bool_decide (zlen (key_file_ s) = 0) then s
             else set_kern (sys_unlink (key_file_ s) (sys_msgctl_rmid (mqid_ s) (kern s))) s).
Proof.
  unfold SysvMq_destroy, cbind, cget. by destruct (negb (cleanup_ s) || _).
Qed.

End laws.
End sysv.

Arguments SysvMq : clear implicits.

(** ** A concrete kernel

    Bounded queues in a finite map, each with the number of messages it can still
    take; a key file's key is its name's code. *)
Module SimKernel.

Record sim := MkSim { sim_keys : gmap Z Z; sim_mqs : gmap Z (list bytes * nat); sim_cap : nat }.

(** Queues of one capacity with the given contents. *)
Definition mkSim (keys : gmap Z Z) (mqs : gmap Z (list bytes)) (cap : nat) : sim :=
  MkSim keys ((λ l, (l, (cap - length l)%nat)) <$> mqs) cap.

Definition sim_key (y : Z) (k : sim) : option Z :=
  q ← sim_keys k !! y; _ ← sim_mqs k !! q; Some q.

Definition sim_set (q : Z) (v : list bytes * nat) (k : sim) : sim :=
  MkSim (sim_keys k) (<[q := v]> (sim_mqs k)) (sim_cap k).

Definition sim_get (y : Z) (k : sim) : Z * sim :=
  match sim_key y k with
  | Some q => (q, k)
  | None => let q := fresh (dom (sim_mqs k)) in
            (q, MkSim (<[y := q]> (sim_keys k)) (<[q := ([], sim_cap k)]> (sim_mqs k)) (sim_cap k))
  end.

(** An empty queue has room for one message, whatever its capacity. *)
Definition sim_free (v : list bytes * nat) : nat :=
  match v with ([], n) => Nat.max 1 n | (_, n) => n end.

Definition sim_snd (q : Z) (d : bytes) (fl : Z) (k : sim) : option (bool * sim) :=
  match sim_mqs k !! q with
  | Some v => if decide (0 < sim_free v)%nat
              then Some (true, sim_set q (v.1 ++ [d], (sim_free v - 1)%nat) k)
              else if decide (Z.land fl IPC_NOWAIT = 0) then None else Some (false, k)
  | None => Some (false, k)
  end.

Definition sim_rcv (q n : Z) (k : sim) : option (option (Z * bytes) * sim) :=
  match sim_mqs k !! q with
  | Some (d :: l, f) => if decide (zlen d ≤ n) then Some (Some (1, d), sim_set q (l, S f) k)
                        else Some (None, k)
  | Some ([], _) => None
  | None => Some (None, k)
  end.

#[export] Instance ops : MqOps sim := {
  sys_getpid _ := 100;
  sys_msgmax := 8192;
  sys_creat _ _ k := (3, k);
  sys_close_fd _ k := k;
  sys_unlink _ k := k;
  sys_ftok p _ _ := Z.pos (encode p);
  sys_msgget y _ k := sim_get y k;
  sys_msgsnd q _ d fl k := sim_snd q d fl k;
  sys_msgrcv q n k := sim_rcv q n k;
  sys_msgctl_rmid q k := MkSim (sim_keys k) (delete q (sim_mqs k)) (sim_cap k);
  sys_msg_qnum q k := zlen ∘ fst <$> sim_mqs k !! q;
  sys_errno_text _ := str "ENOSPC" }.

Definition sim_queue (q : Z) (k : sim) : option (list bytes) := fst <$> sim_mqs k !! q.
Definition sim_room (q : Z) (ds : list bytes) (k : sim) : Prop :=
  ∃ v, sim_mqs k !! q = Some v ∧ (length ds ≤ sim_free v)%nat.

Lemma sim_queue_mk keys mqs cap q : sim_queue q (mkSim keys mqs cap) = mqs !! q.
Proof. unfold sim_queue. cbn. rewrite lookup_fmap. by destruct (mqs !! q). Qed.

Lemma sim_key_dom y ks (m m' : gmap Z (list bytes * nat)) c c' :
  (∀ q, is_Some (m !! q) ↔ is_Some (m' !! q)) → sim_key y (MkSim ks m c) = sim_key y (MkSim ks m' c').
Proof.
  intros Hd. unfold sim_key. cbn. destruct (ks !! y) as [q|]; cbn; [|done].
  specialize (Hd q). destruct (m !! q), (m' !! q); cbn; try done; unfold is_Some in Hd; naive_solver.
Qed.

(** A queue changed in place. *)
Lemma sim_set_frame q v v' k :
  sim_mqs k !! q = Some v →
  sim_queue q (sim_set q v' k) = Some v'.1
  ∧ (∀ q', q' ≠ q → sim_queue q' (sim_set q v' k) = sim_queue q' k)
  ∧ (∀ y, sim_key y (sim_set q v' k) = sim_key y k).
Proof.
  intros Hv. unfold sim_queue. cbn. rewrite lookup_insert_eq. split; [done|]. split.
  - intros q' Hq. by rewrite lookup_insert_ne.
  - intros y. destruct k as [ks m c]. apply sim_key_dom. intros q'. cbn in *.
    rewrite lookup_insert. case_decide; subst; [|done]. rewrite Hv. split; eauto.
Qed.

Lemma sim_snd_cases q d fl k :
  match sim_snd q d fl k with
  | Some (true, k') => ∃ v, sim_mqs k !! q = Some v ∧ (0 < sim_free v)%nat
      ∧ k' = sim_set q (v.1 ++ [d], (sim_free v - 1)%nat) k
  | Some (false, k') => k' = k
  | None => Z.land fl IPC_NOWAIT = 0
  end.
Proof. unfold sim_snd. repeat case_match; simplify_eq; eauto. Qed.

Lemma sim_rcv_cases q n k :
  match sim_rcv q n k with
  | Some (Some (t, d), k') => ∃ l f, sim_mqs k !! q = Some (d :: l, f) ∧ zlen d ≤ n ∧ k' = sim_set q (l, S f) k
  | Some (None, k') => k' = k
  | None => sim_queue q k = Some []
  end.
Proof.
  unfold sim_rcv, sim_queue. destruct (sim_mqs k !! q) as [[[|d l] f]|]; [done| |done].
  case_decide; eauto.
Qed.

#[export, refine] Instance laws : MqLaws sim := {
  mq_queue := sim_queue; mq_key := sim_key; mq_room := sim_room; file_key p _ := Some (Z.pos (encode p)) }.
Proof.
  - intros p k y [= <-]. done.
  - intros q t d fl k k' E. cbn in E. pose proof (sim_snd_cases q d fl k) as H. rewrite E in H.
    destruct H as (v & Hv & _ & ->). destruct (sim_set_frame q v (v.1 ++ [d], (sim_free v - 1)%nat) k Hv)
      as (H1 & H2 & H3). exists v.1. split; [unfold sim_queue; by rewrite Hv|]. done.
  - intros q t d fl k k' E. cbn in E. pose proof (sim_snd_cases q d fl k) as H. by rewrite E in H; subst.
  - intros q n k t d k' E. cbn in E. pose proof (sim_rcv_cases q n k) as H. rewrite E in H.
    destruct H as (l & f & Hv & Hd & ->). destruct (sim_set_frame q _ (l, S f) k Hv) as (H1 & H2 & H3).
    exists l. split; [unfold sim_queue; by rewrite Hv|]. done.
  - intros q n k k' E. cbn in E. pose proof (sim_rcv_cases q n k) as H. by rewrite E in H; subst.
  - intros q n k d l Hq Hd. unfold sim_queue in Hq. cbn. unfold sim_rcv.
    destruct (sim_mqs k !! q) as [[? f]|]; cbn in Hq; simplify_eq. rewrite decide_True by done. eauto.
  - intros q t d ds fl k (v & Hv & Hr) _ _ _. cbn in *. unfold sim_snd. rewrite Hv.
    rewrite decide_True by lia. eexists. split; [done|]. eexists. cbn. rewrite lookup_insert_eq.
    split; [done|]. destruct v as [[|? ?] f]; cbn in *; lia.
  - intros q k Hq. unfold sim_queue in Hq. destruct (sim_mqs k !! q) as [[? f]|] eqn:Hv; cbn in Hq; simplify_eq.
    exists ([], f). split; [done|]. cbn. lia.
  - intros q q' t d ds fl k r k' E Hne (v & Hv & Hr). cbn in E.
    pose proof (sim_snd_cases q d fl k) as H. rewrite E in H. exists v. split; [|done].
    destruct r; [|by subst]. destruct H as (v0 & _ & _ & ->). cbn. by rewrite lookup_insert_ne.
  - intros q n k t d k' E. cbn in E. pose proof (sim_rcv_cases q n k) as H. rewrite E in H.
    destruct H as (l & f & _ & _ & ->). eexists. cbn. rewrite lookup_insert_eq. split; [done|].
    destruct l; cbn; lia.
  - intros q t d fl k E. cbn in E. pose proof (sim_snd_cases q d fl k) as H. by rewrite E in H.
  - intros q n k E. cbn in E. pose proof (sim_rcv_cases q n k) as H. by rewrite E in H.
  - intros q k l Hq. cbn. unfold sim_queue in Hq. destruct (sim_mqs k !! q); cbn in *; by simplify_eq.
  - intros q [ks m c]. unfold sim_queue. cbn. split; [by rewrite lookup_delete_eq|].
    split; [intros; by rewrite lookup_delete_ne|]. intros y q'. unfold sim_key. cbn.
    destruct (ks !! y) as [q0|]; cbn; [|naive_solver].
    rewrite lookup_delete. case_decide; subst; cbn.
    + split; [done|]. destruct (m !! q0); cbn; naive_solver.
    + destruct (m !! q0); cbn; naive_solver.
  - done.
  - intros p md fd k k' [= <- <-]. naive_solver.
  - done.
  - intros y fl q [ks m c] k' E Hq. cbn in E. unfold sim_get, sim_queue in *. cbn in *.
    destruct (sim_key y (MkSim ks m c)) as [q0|] eqn:Hk.
    + injection E as <- <-. cbn. split; [done|]. split; [by left|].
      split; [done|]. split; [|done]. unfold sim_key in Hk. cbn in Hk.
      destruct (ks !! y); cbn in Hk; [|done]. destruct (m !! _) eqn:Hm; cbn in Hk; simplify_eq.
      by rewrite Hm.
    + injection E as <- <-. cbn.
      assert (m !! fresh (dom m) = None) as Hn by (apply not_elem_of_dom, is_fresh).
      split; [unfold sim_key; cbn; by rewrite lookup_insert_eq; cbn; rewrite lookup_insert_eq|].
      split; [right; by rewrite Hn|]. split; [intros; by rewrite lookup_insert_ne|].
      rewrite lookup_insert_eq, Hn. done.
Defined.

End SimKernel.

(** ** Properties *)

(** C4: the policy is a FIFO queue.  Whatever the order in which one or several
    clients attempt to [Put] messages that fit and to [Get], each attempt returns
    or waits, and what it does is a step of the queue [fifo_run]: a [Put] appends
    its message or, returning false, drops it; a [Get] takes the oldest message; one
    that waits changes nothing, and does so only on an empty queue; and a [Put]
    waits only when the object was not set to drop.  So what was in the queue
    followed by the messages whose [Put] returned true is what the [Get]s delivered
    followed by what is in the queue.  A [Put] for which the queue has room returns
    true. *)
Theorem sysv_mq_fifo {K} `{MqOps K} `{!MqLaws K} os (s : SysvMq K) b q :
  MAX_MSG_SIZE ≤ sys_msgmax → Forall op_fits os → wf_MsgBuf b → mq_fits s q →
  (∃ rs s' b' q', mq_runs os (s, b) = (Ret rs, (s', b'))
    ∧ mq_view s' = Some q' ∧ fifo_run (drops s) q os rs q'
    ∧ length rs = length os ∧ q ++ accepted os rs = received rs ++ q')
  ∧ (∀ m, zlen m ≤ MAX_MSG_SIZE → has_room [m] s →
     ∃ b' s', SysvMq_Put (msg_of m) s = (Ret (true, b'), s') ∧ mq_view s' = Some (q ++ [m])).
Proof.
  intros Hmax Hos Hwf Hq. split.
  - destruct (mq_runs_refines os s b q) as (rs & s' & b' & q' & Hr & [Hv _] & Hrun); try done.
    destruct (fifo_run_conserves _ _ _ _ _ Hrun). by exists rs, s', b', q'.
  - intros m Hm Hroom. destruct Hq as [Hv Hf].
    destruct (SysvMq_Put_room (msg_of m) m [] s) as (s' & HP & (_ & (l & Hl & Hl') & _) & _);
      [by apply holds_msg_of|cbn; lia|done|by eexists|].
    simplify_eq. eauto.
Qed.

Import SimKernel.

Definition sim_object (l : list bytes) (cap : nat) : SysvMq sim :=
  mkSysvMq 5 7 (str "f") true 0 (mkSim {[7 := 5]} {[5 := l]} cap).

Lemma sysv_mq_fifo_witness :
  ∃ rs s' b' q',
    mq_runs [OpPut (str "one"); OpPut (str "two"); OpGet; OpGet; OpGet] (sim_object [] 1, msg_of [])
    = (Ret rs, (s', b'))
    ∧ mq_view s' = Some q' ∧ length rs = 5%nat
    ∧ accepted [OpPut (str "one"); OpPut (str "two"); OpGet; OpGet; OpGet] rs = received rs ++ q'.
Proof.
  destruct (sysv_mq_fifo [OpPut (str "one"); OpPut (str "two"); OpGet; OpGet; OpGet]
    (sim_object [] 1) (msg_of []) []) as [(rs & s' & b' & q' & HR & Hv & _ & Hl & He) _].
  - unfold MAX_MSG_SIZE. cbn. lia.
  - repeat constructor; apply (bool_decide_eq_true_1 _); reflexivity.
  - apply (holds_wf _ []). by apply holds_msg_of_b.
  - split; [reflexivity|constructor].
  - exists rs, s', b', q'. split; [exact HR|]. split; [exact Hv|]. split; [exact Hl|exact He].
Defined.



(** An empty name is undefined behaviour in the escaping, before the kernel is
    asked for anything: what [run_sub] and its consumers do. *)
Theorem mq_init_unnamed {K} `{MqOps K} ndebug (s : SysvMq K) :
  mq_init ndebug [] s = (Undef BeforeBegin, s).
Proof. done. Qed.

(** Destruction: an object told to clean up removes its queue and no other,
    and one told not to, or never initialised, leaves every queue alone. *)
Theorem sysv_mq_destructor {K} `{MqOps K} `{!MqLaws K} (s s' : SysvMq K) :
  SysvMq_destroy s = (Ret tt, s') →
  (cleanup_ s = true ∧ key_file_ s ≠ [] →
     mq_queue (mqid_ s) (kern s') = None ∧ (∀ y, mq_key y (kern s') ≠ Some (mqid_ s))
     ∧ ∀ q, q ≠ mqid_ s → mq_queue q (kern s') = mq_queue q (kern s))
  ∧ (cleanup_ s = false ∨ key_file_ s = [] → s' = s).
Proof.
  rewrite SysvMq_destroy_eq. intros [= <-]. split.
  - intros [-> Hne]. rewrite bool_decide_false by (intros ?%zlen_zero; done). cbn.
    destruct (rmid_removes (mqid_ s) (kern s)) as (Hr & Ho & Hk).
    destruct (unlink_keeps (key_file_ s) (sys_msgctl_rmid (mqid_ s) (kern s))) as [Hu Huk].
    rewrite Hu. split; [done|]. split; [|intros; by rewrite Hu, Ho].
    intros y Hy. rewrite Huk in Hy. apply Hk in Hy. naive_solver.
  - intros [->|He]; [done|]. rewrite He. by rewrite orb_true_r.
Qed.

Lemma sysv_mq_destructor_witness :
  ∃ s', SysvMq_destroy (sim_object [str "x"] 4) = (Ret tt, s') ∧ mq_queue 5 (kern s') = None.
Proof.
  eexists. split; [reflexivity|].
  refine (proj1 (proj1 (sysv_mq_destructor (sim_object [str "x"] 4) _ _) _)); [reflexivity|].
  split; [reflexivity|done].
Defined.
