(* ===== verification/Tee.v ===== *)
(** * Tee: the fan-out policy of [io_policy/tee.hpp]

    A [Tee] holds shared pointers to branches by name and puts each message on
    every branch.  The branches live in a world they share (several message
    queues in one kernel), and two names may point to one branch. *)

From S2P Require Import Prelude Text MsgBuf MsgFilter Util SysvMq.

(** A [std::shared_ptr<policy>]: the identity of the object. *)
Abbreviation ptr := nat.

(** The order in which an [unordered_map] is traversed: the language leaves it
    open, so it is a parameter. *)
Class UnorderedMap := {
  traversal : gmap bytes ptr → list (bytes * ptr);
  traversal_perm m : traversal m ≡ₚ map_to_list m }.

(** [kv.second->Put(msg)] on the branch a pointer names. *)
Class BranchOps (W : Type) := { branch_Put : ptr → MsgBuf → comp W (bool * MsgBuf) }.

(** What a branch promises a [Tee]: a put either appends the message to the
    branch's own log or, reporting failure, changes no log; and it appends it when
    the branch has room for it.  [has_branch p w] says that there is a branch [p] and
    that it refuses messages instead of waiting; [branch_room p ds w] that the
    messages [ds], put one after the other, all fit. *)
Class BranchLaws (W : Type) `{BranchOps W} := {
  branches_ok : W → Prop;
  has_branch : ptr → W → Prop;
  branch_log : ptr → W → list bytes;
  branch_room : ptr → list bytes → W → Prop;
  branch_put_law p b m w :
    branches_ok w → has_branch p w → holds b m →
    ∃ ok b' w', branch_Put p b w = (Ret (ok, b'), w') ∧ holds b' m
      ∧ branch_log p w' = branch_log p w ++ (if ok : bool then [m] else [])
      ∧ (∀ q, q ≠ p → branch_log q w' = branch_log q w)
      ∧ branches_ok w' ∧ (∀ q, has_branch q w → has_branch q w')
      ∧ (∀ ds, branch_room p (m :: ds) w → ok = true ∧ branch_room p ds w')
      ∧ (∀ q ds, q ≠ p → branch_room q ds w → branch_room q ds w') }.

Section tee.
Context {W : Type} `{BranchOps W} `{UnorderedMap}.

(** [template <class policy> class Tee]; the counters are not initialised. *)
Record Tee := mkTee {
  branch_map_ : gmap bytes ptr;
  last_tee_count_ : Z; last_failed_count_ : Z;
  tee_world : W }.

Definition Tee_init (tee0 failed0 : Z) (w : W) : Tee := mkTee ∅ tee0 failed0 w.

Definition set_world (w : W) (t : Tee) : Tee :=
  mkTee (branch_map_ t) (last_tee_count_ t) (last_failed_count_ t) w.
Definition reset_counts (t : Tee) : Tee := mkTee (branch_map_ t) 0 0 (tee_world t).
Definition count_tee (t : Tee) : Tee :=
  mkTee (branch_map_ t) (last_tee_count_ t + 1) (last_failed_count_ t) (tee_world t).
Definition count_failed (t : Tee) : Tee :=
  mkTee (branch_map_ t) (last_tee_count_ t) (last_failed_count_ t + 1) (tee_world t).

(** The loop of [Put] over the branches left. *)
Fixpoint tee_loop (kvs : list (bytes * ptr)) (b : MsgBuf) : comp Tee MsgBuf :=
  match kvs with
  | [] => cret b
  | (_, p) :: kvs' =>
      let* _ := cmodify count_tee in
      let* (ok, b1) := zoom tee_world set_world (branch_Put p b) in
      let* _ := (if negb ok then cmodify count_failed else cret tt) in
      tee_loop kvs' b1
  end.

Definition Tee_Put (b : MsgBuf) : comp Tee (bool * MsgBuf) :=
  let* _ := cmodify reset_counts in
  let* t := cget in
  let* b1 := tee_loop (traversal (branch_map_ t)) b in
  cret (true, b1).

(** [bool Get(MsgBuf *msg_ptr) {}]. *)
Definition Tee_Get (b : MsgBuf) : comp Tee (bool * MsgBuf) := cundef MissingReturn.

Definition AddBranch (branch_name : bytes) (branch_ptr : ptr) (t : Tee) : Tee :=
  mkTee (<[branch_name := branch_ptr]> (branch_map_ t))
    (last_tee_count_ t) (last_failed_count_ t) (tee_world t).
Definition RemoveBranch (branch_name : bytes) (t : Tee) : Tee :=
  mkTee (delete branch_name (branch_map_ t))
    (last_tee_count_ t) (last_failed_count_ t) (tee_world t).
Definition ExistsBranch (branch_name : bytes) (t : Tee) : bool :=
  bool_decide (is_Some (branch_map_ t !! branch_name)).
Definition GetBranchCount (t : Tee) : Z := Z.of_nat (size (branch_map_ t)).
Definition GetLastTeeCount (t : Tee) : Z := last_tee_count_ t.
Definition GetLastFailedCount (t : Tee) : Z := last_failed_count_ t.

#[export] Instance Tee_IOPolicy : IOPolicy Tee := { Get := Tee_Get; Put := Tee_Put }.

(** ** Lemmas *)

(** The successful puts on branch [p] among the visited ones. *)
Definition put_on (p : ptr) (vs : list (ptr * bool)) : nat :=
  length (filter (λ v, v.1 = p ∧ v.2 = true) vs).
Definition failed_of (vs : list (ptr * bool)) : nat :=
  length (filter (λ v, v.2 = false) vs).

Section laws.
Context `{!BranchLaws W}.

Lemma put_on_cons p q ok vs :
  put_on p ((q, ok) :: vs) = ((if decide (q = p ∧ ok = true) then 1 else 0) + put_on p vs)%nat.
Proof. unfold put_on. rewrite filter_cons. cbn. by case_decide. Qed.

Lemma failed_of_cons q ok vs :
  failed_of ((q, ok) :: vs) = ((if ok : bool then 0 else 1) + failed_of vs)%nat.
Proof. unfold failed_of. rewrite filter_cons. cbn. destruct ok; case_decide; done. Qed.

Lemma tee_loop_spec kvs b m t :
  branches_ok (tee_world t) → (∀ p, p ∈ kvs.*2 → has_branch p (tee_world t)) → holds b m →
  ∃ vs b' t', tee_loop kvs b t = (Ret b', t') ∧ holds b' m ∧ vs.*1 = kvs.*2
    ∧ branch_map_ t' = branch_map_ t
    ∧ last_tee_count_ t' = last_tee_count_ t + zlen kvs
    ∧ last_failed_count_ t' = last_failed_count_ t + Z.of_nat (failed_of vs)
    ∧ branches_ok (tee_world t')
    ∧ (∀ q, has_branch q (tee_world t) → has_branch q (tee_world t'))
    ∧ (∀ p, branch_log p (tee_world t')
            = branch_log p (tee_world t) ++ replicate (put_on p vs) m)
    ∧ (∀ p ds, p ∉ kvs.*2 → branch_room p ds (tee_world t) → branch_room p ds (tee_world t'))
    ∧ (NoDup kvs.*2 → ∀ p ds, p ∈ kvs.*2 → branch_room p (m :: ds) (tee_world t) →
       put_on p vs ≠ O ∧ branch_room p ds (tee_world t')).
Proof.
  revert b t. induction kvs as [|[n p] kvs IH]; intros b t Hok Hh Hb.
  - exists [], b, t. cbn. rewrite !Z.add_0_r. split_and!; try done.
    { intros p. by rewrite app_nil_r. }
    intros _ p ds Hp. by apply elem_of_nil in Hp.
  - destruct (branch_put_law p b m (tee_world t)) as (ok & b1 & w1 & HP & Hb1 & Hl & Hlo & Hok1 & Hh1 & Hrm & Hro);
      [done|apply Hh; cbn; set_solver|done|].
    set (t0 := set_world w1 (count_tee t)).
    set (t1 := if ok then t0 else count_failed t0).
    assert (tee_world t1 = w1) as Hw by (unfold t1; by destruct ok).
    destruct (IH b1 t1) as (vs & b' & t' & HL & Hb' & Hvs & Hbm & Htc & Hfc & Hok' & Hh' & Hlog & Hrn & Hrl);
      [by rewrite Hw|rewrite Hw; intros; apply Hh1, Hh; cbn; set_solver|done|].
    exists ((p, ok) :: vs), b', t'. split.
    { cbn [tee_loop]. unfold cbind, cmodify, zoom. cbn [count_tee tee_world].
      rewrite HP. fold t0. unfold t1 in HL. by destruct ok. }
    split; [done|]. split; [cbn; by rewrite Hvs|].
    rewrite failed_of_cons, zlen_cons.
    split; [rewrite Hbm; unfold t1; by destruct ok|].
    split; [rewrite Htc; unfold t1; destruct ok; cbn; lia|].
    split; [rewrite Hfc; unfold t1; destruct ok; cbn; lia|].
    split; [done|]. split; [intros q Hq; apply Hh'; rewrite Hw; by apply Hh1|].
    rewrite Hw in Hrn, Hrl. cbn [fmap list_fmap snd]. split; [|split].
    2:{ intros q ds [Hqp Hq]%not_elem_of_cons Hr. apply Hrn; [done|]. by apply Hro. }
    2:{ intros [Hp Hnd]%NoDup_cons q ds Hq Hr. rewrite put_on_cons.
        destruct (decide (p = q)) as [->|Hne].
        - destruct (Hrm ds Hr) as [-> Hr1]. rewrite decide_True by done. split; [lia|]. by apply Hrn.
        - apply elem_of_cons in Hq as [?|Hq]; [congruence|].
          destruct (Hrl Hnd q ds Hq) as [Hn Hr']; [by apply Hro|]. split; [lia|done]. }
    intros q. rewrite Hlog, Hw, put_on_cons.
    destruct (decide (p = q)) as [->|Hne].
    + rewrite Hl. destruct ok; cbn.
      * rewrite decide_True by done. by rewrite <- app_assoc.
      * rewrite decide_False by naive_solver. by rewrite app_nil_r.
    + rewrite Hlo by done. by rewrite decide_False by naive_solver.
Qed.

Lemma traversal_size m : zlen (traversal m) = Z.of_nat (size m).
Proof.
  unfold zlen. rewrite (Permutation_length (traversal_perm m)). by rewrite length_map_to_list.
Qed.

Lemma traversal_values p m : p ∈ (traversal m).*2 → ∃ n, m !! n = Some p.
Proof.
  rewrite (traversal_perm m). intros ([n p'] & -> & Hin)%list_elem_of_fmap.
  exists n. by apply elem_of_map_to_list.
Qed.

End laws.

(** When the names of a map point to distinct objects, each object is visited
    once. *)
Lemma put_on_le p vs : (put_on p vs ≤ length (filter (λ q, q = p) vs.*1))%nat.
Proof.
  induction vs as [|[q ok] vs IH]; [done|].
  rewrite put_on_cons. cbn [fmap list_fmap]. rewrite filter_cons. cbn.
  destruct (decide (q = p)); [|rewrite decide_False by naive_solver; done].
  cbn. case_decide; lia.
Qed.

End tee.

Arguments Tee : clear implicits.

(** ** A [Tee] as the sink of a filter

    Every branch's log grows by messages of the input in their order; the ones
    missing are those the branch refused. *)
Section tee_sink.
Context {W : Type} `{BranchLaws W} `{UnorderedMap}.

(** No two names for one branch object. *)
Definition distinct_branches (m : gmap bytes ptr) : Prop :=
  ∀ n1 n2 p, m !! n1 = Some p → m !! n2 = Some p → n1 = n2.

Lemma distinct_values m p :
  distinct_branches m → (length (filter (λ q, q = p) (map_to_list m).*2) ≤ 1)%nat.
Proof.
  intros Hd. assert (Hnd : NoDup (map_to_list m).*2).
  { apply NoDup_fmap_2_strong; [|apply NoDup_map_to_list].
    intros [n1 p1] [n2 p2] E1%elem_of_map_to_list E2%elem_of_map_to_list [= <-].
    f_equal. by eapply Hd. }
  revert Hnd. generalize ((map_to_list m).*2). intros l Hnd. clear Hd.
  assert (filter (λ q, q = p) l = [] ∨ filter (λ q, q = p) l = [p]) as [-> | ->]; [|cbn; lia..].
  induction Hnd as [|q l Hq Hnd IH]; [by left|]. rewrite filter_cons.
  case_decide as Hqp; [subst q|done]. destruct IH as [-> |IH]; [by right|].
  destruct Hq. assert (p ∈ filter (λ q, q = p) l) as Hin by (rewrite IH; left).
  by apply list_elem_of_filter in Hin as [_ ?].
Qed.

(** The branches are those of [m0]; each log is what it was, [base], followed by
    some of the messages [ms], in order and at most once each. *)
Definition tee_sink (m0 : gmap bytes ptr) (base : ptr → list bytes) (t : Tee W)
    (ms : list bytes) : Prop :=
  branch_map_ t = m0 ∧ distinct_branches m0 ∧ branches_ok (tee_world t)
  ∧ (∀ n p, m0 !! n = Some p → has_branch p (tee_world t))
  ∧ ∀ p, ∃ l, branch_log p (tee_world t) = base p ++ l ∧ l `sublist_of` ms.

Lemma tee_sink_put m0 base t ms m b :
  tee_sink m0 base t ms → holds b m →
  ∃ b' t', Put b t = (Ret (true, b'), t') ∧ holds b' m ∧ tee_sink m0 base t' (ms ++ [m]).
Proof.
  intros (Hm & Hd & Hok & Hh & Hlog) Hb.
  destruct (tee_loop_spec (traversal (branch_map_ t)) b m (reset_counts t))
    as (vs & b' & t' & HL & Hb' & Hvs & Hbm & _ & _ & Hok' & Hh' & Hlog' & _); [done| |done|].
  { intros p Hp. destruct (traversal_values p _ Hp) as [n Hn]. rewrite Hm in Hn. by eapply Hh. }
  exists b', t'. split.
  { cbn. unfold Tee_Put, cbind, cmodify, cget. cbn [branch_map_ reset_counts]. by rewrite HL. }
  split; [done|]. split; [by rewrite Hbm|]. split; [done|]. split; [done|].
  split; [intros n p Hn; by eapply Hh', Hh|].
  intros p. destruct (Hlog p) as (l & Hl & Hs). rewrite Hlog'. cbn [reset_counts tee_world].
  rewrite Hl. exists (l ++ replicate (put_on p vs) m).
  split; [by rewrite <- app_assoc|]. apply sublist_app; [done|].
  pose proof (put_on_le p vs) as Hle. rewrite Hvs in Hle.
  rewrite (traversal_perm (branch_map_ t)), Hm in Hle.
  pose proof (distinct_values _ p Hd).
  destruct (put_on p vs) as [|[|]]; [|done|lia]. apply sublist_nil_l.
Qed.

(** A sink that accepts every message. *)
Definition tee_message_sink (m0 : gmap bytes ptr) (base : ptr → list bytes) :
    MessageSink (Tee W) := {|
  sink_has := tee_sink m0 base;
  sink_ok _ := True;
  sink_put p ms m b Hs Hb _ := tee_sink_put m0 base p ms m b Hs Hb;
  sink_refuse p ms m b _ _ Hno := False_ind _ (Hno I) |}.

End tee_sink.

(** ** Branches that are message queues

    The world of a [Tee<SysvMq>]: the objects and the kernel they share. *)
Section mq_world.
Context {K : Type} `{MqOps K}.

Record mq_world := mkMqWorld { mq_objs : gmap ptr (SysvMq K); mq_kern : K }.

#[export] Instance mq_branch_ops : BranchOps mq_world := {
  branch_Put p b w :=
    match mq_objs w !! p with
    | None => (Undef NullDeref, w)
    | Some o =>
        let '(r, o') := SysvMq_Put b (set_kern (mq_kern w) o) in
        (r, mkMqWorld (<[p := o']> (mq_objs w)) (kern o'))
    end }.

Context `{!MqLaws K}.

(** Each object has a queue of its own, and the kernel takes whole messages. *)
Definition mq_world_ok (w : mq_world) : Prop :=
  MAX_MSG_SIZE ≤ sys_msgmax
  ∧ ∀ p q o o', mq_objs w !! p = Some o → mq_objs w !! q = Some o' → p ≠ q → mqid_ o ≠ mqid_ o'.

Definition mq_log (p : ptr) (w : mq_world) : list bytes :=
  match mq_objs w !! p with
  | Some o => default [] (mq_queue (mqid_ o) (mq_kern w))
  | None => []
  end.

(** There is an object that drops what the queue has no room for. *)
Definition mq_has_branch (p : ptr) (w : mq_world) : Prop :=
  ∃ o, mq_objs w !! p = Some o ∧ drops o = true.

Definition mq_branch_room (p : ptr) (ds : list bytes) (w : mq_world) : Prop :=
  ∃ o, mq_objs w !! p = Some o ∧ is_Some (mq_queue (mqid_ o) (mq_kern w))
    ∧ mq_room (mqid_ o) ds (mq_kern w).

Lemma mq_branch_put_law p b m w :
  mq_world_ok w → mq_has_branch p w → holds b m →
  ∃ ok b' w', branch_Put p b w = (Ret (ok, b'), w') ∧ holds b' m
    ∧ mq_log p w' = mq_log p w ++ (if ok : bool then [m] else [])
    ∧ (∀ q, q ≠ p → mq_log q w' = mq_log q w)
    ∧ mq_world_ok w' ∧ (∀ q, mq_has_branch q w → mq_has_branch q w')
    ∧ (∀ ds, mq_branch_room p (m :: ds) w → ok = true ∧ mq_branch_room p ds w')
    ∧ (∀ q ds, q ≠ p → mq_branch_room q ds w → mq_branch_room q ds w').
Proof.
  intros [Hmax Hd] (o & Ho & Hdr) Hb. pose proof (holds_len _ _ Hb) as Hlen.
  pose proof (holds_bound _ _ Hb) as Hbd.
  destruct (SysvMq_Put_cases b m (set_kern (mq_kern w) o)) as [[_ Hw]|(ok & o' & HP & Hput)];
    [done|lia|unfold drops in *; cbn in Hw; congruence|].
  destruct Hput as (Hso & Hq & Hoth & Hroth). pose proof (same_object_mqid _ _ Hso) as Hid. cbn in Hid.
  pose proof (same_object_drops _ _ Hso) as Hdro. unfold drops in Hdro. cbn in Hdro.
  exists ok, (set_mtype 1 b), (mkMqWorld (<[p := o']> (mq_objs w)) (kern o')).
  split; [cbn; by rewrite Ho, HP|]. split; [by apply holds_set_mtype|].
  unfold mq_log. cbn. rewrite lookup_insert_eq, Ho.
  split; [|split; [|split; [|split; [|split]]]].
  - unfold mq_view in Hq. cbn in Hq. rewrite Hid in *. destruct ok.
    + destruct Hq as (l & -> & ->). done.
    + rewrite Hq. by rewrite app_nil_r.
  - intros q Hqp. rewrite lookup_insert_ne by done.
    destruct (mq_objs w !! q) as [o2|] eqn:Hq2; [|done].
    rewrite Hoth; [done|]. cbn. intros He. by eapply (Hd p q).
  - split; [done|]. intros q1 q2 o1 o2. cbn. rewrite !lookup_insert.
    repeat case_decide; intros; simplify_eq; rewrite ?Hid; eauto.
  - intros q (oq & Hoq & Hdq). unfold mq_has_branch. cbn.
    destruct (decide (p = q)) as [<-|Hne]; [|rewrite lookup_insert_ne by done; eauto].
    rewrite lookup_insert_eq. simplify_eq. exists o'. split; [done|]. unfold drops in *. by rewrite Hdro.
  - intros ds (o1 & Ho1 & Hs1 & Hr1). simplify_eq.
    destruct (SysvMq_Put_room b m ds (set_kern (mq_kern w) o) Hb) as (o2 & HP2 & (Hso2 & Hq2 & _) & Hr2);
      [lia|done|done|]. rewrite HP in HP2. injection HP2 as -> <-. split; [done|].
    exists o'. cbn. rewrite lookup_insert_eq, Hid. split; [done|]. destruct Hq2 as (l & _ & Hl).
    unfold has_room, mq_view in *. rewrite Hid in *. eauto.
  - intros q ds Hqp (oq & Hoq & Hs & Hr). exists oq. cbn. rewrite lookup_insert_ne by done.
    split; [done|]. assert (mqid_ oq ≠ mqid_ o) by (by eapply (Hd q p)).
    cbn in Hoth, Hroth. rewrite Hoth by done. eauto.
Qed.

#[export] Instance mq_branch_laws : BranchLaws mq_world := {
  branches_ok := mq_world_ok;
  has_branch := mq_has_branch;
  branch_room := mq_branch_room;
  branch_log := mq_log;
  branch_put_law := mq_branch_put_law }.

End mq_world.

Arguments mq_world : clear implicits.

(** A traversal order: that of the finite map. *)
Module MapOrder.
#[export, refine] Instance order : UnorderedMap := { traversal := map_to_list }.
Proof. done. Defined.
End MapOrder.

(** ** Properties *)


Import SimKernel MapOrder.

Definition tee_example : Tee (mq_world sim) :=
  mkTee {[str "full" := 1%nat; str "free" := 2%nat]} 0 0
    (mkMqWorld {[1%nat := mkSysvMq 5 0 [] true 2048 (mkSim ∅ ∅ 1);
                 2%nat := mkSysvMq 6 0 [] true 2048 (mkSim ∅ ∅ 1)]}
               (mkSim ∅ {[5 := [str "old"]; 6 := []]} 1)).

