(* ===== verification/SubDir.v ===== *)
(** * SubDir: subscriber discovery, [sub_entry.hpp] and [sub_dir.hpp]

    A subscriber announces itself by a file whose name carries its address and
    the name of the queue it serves ([SubEntry]); a publisher lists the directory
    of a queue and reads the names back ([SubDir]).  The file system is a
    parameter ([FsOps]) with its documented laws ([FsLaws]). *)

From S2P Require Import Prelude Text Util.

(** ** The file system *)

Record dirent := mkDirent { d_name : bytes; d_is_dir : bool }.

Definition S_IRWXU : Z := 448.

(** [fs_open] is [open(path, O_CREAT, mode)]; [fs_readdir] is [opendir] followed
    by [readdir] up to its end, [None] when the directory cannot be opened. *)
Class FsOps (F : Type) := {
  fs_mkdir : bytes → Z → F → Z * F;
  fs_open : bytes → Z → F → Z * F;
  fs_futimes : Z → F → Z * F;
  fs_close : Z → F → F;
  fs_unlink : bytes → F → F;
  fs_readdir : bytes → F → option (list dirent) }.

(** A path of a file in a directory. *)
Definition in_dir (dir name : bytes) : bytes := dir ++ str "/" ++ name.

Definition dot_name (n : bytes) : bool := bool_decide (n = str ".") || bool_decide (n = str "..").

(** [fs_files dir f] is the set of names of the files of [dir], [None] when
    there is no such directory. *)
Class FsLaws (F : Type) `{FsOps F} := {
  fs_files : bytes → F → option (gset bytes);
  open_creates dir name mode fd f f' :
    fs_open (in_dir dir name) mode f = (fd, f') → fd ≠ -1 → "/"%char ∉ name →
    dot_name name = false ∧ fs_files dir f' = Some ({[name]} ∪ default ∅ (fs_files dir f));
  mkdir_keeps p mode r f f' dir s :
    fs_mkdir p mode f = (r, f') → fs_files dir f = Some s → fs_files dir f' = Some s;
  futimes_keeps fd r f f' :
    fs_futimes fd f = (r, f') → ∀ dir, fs_files dir f' = fs_files dir f;
  close_keeps_files fd f dir : fs_files dir (fs_close fd f) = fs_files dir f;
  unlink_deletes dir name f s :
    "/"%char ∉ name → fs_files dir f = Some s →
    fs_files dir (fs_unlink (in_dir dir name) f) = Some (s ∖ {[name]});
  readdir_lists dir f s :
    fs_files dir f = Some s →
    ∃ ents, fs_readdir dir f = Some ents
      ∧ Forall (λ e, zlen (d_name e) ≤ 255 ∧ "/"%char ∉ d_name e) ents
      ∧ ∀ n, n ∈ s ↔ mkDirent n false ∈ ents ∧ dot_name n = false }.

(** ** SubEntry *)

Section sub_entry.
Context {F : Type} `{FsOps F}.

Record SubEntry := mkSubEntry {
  se_meta_dir_ : bytes; se_queue_name_ : bytes; node_name_ : bytes; addr_str_ : bytes }.

Definition queue_dir (meta_dir queue_name : bytes) : bytes :=
  meta_dir ++ str "/sub/" ++ queue_name.

(** The last component of [node_name_]. *)
Definition entry_name (escaped addr_str : bytes) (topic_mode : bool) : bytes :=
  addr_str ++ str "," ++ escaped ++ (if topic_mode then str "." ++ addr_str else []).

Definition renew_ (e : SubEntry) : comp F unit := λ f,
  let '(_, f1) := fs_mkdir (queue_dir (se_meta_dir_ e) (se_queue_name_ e)) S_IRWXU f in
  let '(fd, f2) := fs_open (node_name_ e) 420 f1 in
  if decide (fd = -1) then
    (Throw (str "Cannot create subscriber entry at " ++ node_name_ e), f2)
  else
    let '(res, f3) := fs_futimes fd f2 in
    let f4 := fs_close fd f3 in
    if decide (res = -1) then
      (Throw (str "Cannot update subscriber entry at " ++ node_name_ e), f4)
    else (Ret tt, f4).

(** The constructor: an exception of [renew_] leaves no object to destroy. *)
Definition SubEntry_new (meta_dir queue_name addr_str : bytes) (topic_mode : bool)
  : comp F SubEntry :=
  let* escaped := clift (EscapeSubFolderPath queue_name) in
  let e := mkSubEntry meta_dir queue_name
             (meta_dir ++ str "/sub/" ++ queue_name ++ str "/"
              ++ entry_name escaped addr_str topic_mode) addr_str in
  let* _ := renew_ e in
  cret e.

Definition renew (e : SubEntry) : comp F unit := renew_ e.

(** The destructor. *)
Definition SubEntry_destroy (e : SubEntry) : comp F unit :=
  cmodify (fs_unlink (node_name_ e)).

(** ** SubDir *)

Record SubDir := mkSubDir { sd_meta_dir_ : bytes; sd_queue_name_ : bytes }.

(** The pair an entry stands for; without a comma both halves are the whole
    name, since [npos + 1] is 0. *)
Definition parse_entry (entry : bytes) : outcome (bytes * bytes) :=
  let sep_pos := find_char "," entry in
  match substr entry 0 sep_pos,
        substr entry (size_wrap (sep_pos + 1)) (size_wrap (zlen entry - sep_pos - 1)) with
  | Ret conn_str, Ret dest => Ret (conn_str, UnescapeSubFolderPath dest)
  | Throw e, _ | _, Throw e => Throw e
  | _, _ => AssertFailed
  end.

Fixpoint sub_list_loop (ents : list dirent) : outcome (list (bytes * bytes)) :=
  match ents with
  | [] => Ret []
  | ent :: ents' =>
      if dot_name (d_name ent) || d_is_dir ent then sub_list_loop ents'
      else match parse_entry (d_name ent), sub_list_loop ents' with
           | Ret t, Ret ts => Ret (t :: ts)
           | Ret _, o => o
           | Throw e, _ => Throw e
           | AssertFailed, _ => AssertFailed
           | Waits, _ => Waits
           | Undef u, _ => Undef u
           end
  end.

Definition GetSubList (d : SubDir) (f : F) : outcome (list (bytes * bytes)) :=
  match fs_readdir (queue_dir (sd_meta_dir_ d) (sd_queue_name_ d)) f with
  | None => Ret []
  | Some ents => sub_list_loop ents
  end.

End sub_entry.

(** The branch a subscriber is served from. *)
Definition destination (queue addr : bytes) (topic_mode : bool) : bytes :=
  strip_slash queue ++ (if topic_mode then str "." ++ addr else []).

(** ** Lemmas *)

Section sub_laws.
Context {F : Type} `{FsOps F} `{!FsLaws F}.

(** An address is printable in an entry: no separator of the format in it. *)
Definition addr_ok (addr : bytes) : Prop :=
  ","%char ∉ addr ∧ "/"%char ∉ addr ∧ "#"%char ∉ addr.

Lemma parse_entry_comma a b :
  ","%char ∉ a → zlen (a ++ ","%char :: b) < 2 ^ 63 →
  parse_entry (a ++ ","%char :: b) = Ret (a, UnescapeSubFolderPath b).
Proof.
  intros Ha Hb. unfold parse_entry. rewrite find_char_hit by done.
  rewrite substr_prefix. pose proof (zlen_nonneg a). pose proof (zlen_nonneg b).
  rewrite zlen_app, zlen_cons in *. unfold size_wrap. rewrite !wrap_small by lia.
  replace (a ++ ","%char :: b) with ((a ++ [","%char]) ++ b) by (by rewrite <- app_assoc).
  replace (zlen a + 1) with (zlen (a ++ [","%char])) by (rewrite zlen_app; done).
  rewrite substr_suffix by lia. done.
Qed.

Lemma parse_entry_no_comma s :
  ","%char ∉ s → zlen s < 2 ^ 63 → parse_entry s = Ret (s, UnescapeSubFolderPath s).
Proof.
  intros Hs Hb. unfold parse_entry. rewrite find_char_miss, npos_succ by done.
  pose proof (zlen_nonneg s). rewrite substr_all by (unfold npos; lia).
  assert (size_wrap (zlen s - npos - 1) = zlen s) as ->.
  { unfold size_wrap, npos, wrap. symmetry. apply Z.mod_unique with (-1); lia. }
  by rewrite substr_all by lia.
Qed.

(** Reading back the name of an entry gives the address and the destination. *)
Lemma parse_entry_name queue addr topic e :
  addr_ok addr → "#"%char ∉ queue → EscapeSubFolderPath queue = Ret e →
  zlen (entry_name e addr topic) < 2 ^ 63 →
  parse_entry (entry_name e addr topic) = Ret (addr, destination queue addr topic).
Proof.
  intros (Hc & Hs & Hh) Hq He Hl. unfold entry_name in *.
  change (str "," ++ ?x) with (","%char :: x) in *.
  rewrite parse_entry_comma by done. do 2 f_equal. unfold destination.
  unfold UnescapeSubFolderPath. rewrite replace_char_app. f_equal.
  - by apply (unescape_escape queue e).
  - destruct topic; [|done]. apply replace_char_id.
    intros [Hin|Hin]%elem_of_app; [|done].
    change (str ".") with ["."%char] in Hin. set_solver.
Qed.

(** Every entry that parses comes out of the loop. *)
Lemma sub_list_loop_complete ents ts n t :
  sub_list_loop ents = Ret ts → mkDirent n false ∈ ents → dot_name n = false →
  parse_entry n = Ret t → t ∈ ts.
Proof.
  revert ts. induction ents as [|[m dir] ents IH]; intros ts Hl Hin Hd Hp; [set_solver|].
  cbn in Hl. destruct (dot_name m || dir) eqn:E.
  - apply IH; try done. apply elem_of_cons in Hin as [[= <- <-]|]; [|done].
    by rewrite Hd in E.
  - destruct (parse_entry m) as [t'| | | |] eqn:Hm; try done.
    destruct (sub_list_loop ents) as [ts'| | | |]; try done. injection Hl as <-.
    apply elem_of_cons in Hin as [[= <- <-]|Hin]; [rewrite Hp in Hm; simplify_eq; set_solver|].
    apply elem_of_cons. right. by apply IH.
Qed.

Lemma sub_list_loop_sound ents ts t :
  sub_list_loop ents = Ret ts → t ∈ ts →
  ∃ n, mkDirent n false ∈ ents ∧ dot_name n = false ∧ parse_entry n = Ret t.
Proof.
  revert ts. induction ents as [|[m dir] ents IH]; intros ts Hl Hin; cbn in Hl.
  - injection Hl as <-. set_solver.
  - destruct (dot_name m || dir) eqn:E.
    + destruct (IH ts Hl Hin) as (n & ? & ? & ?). exists n. set_solver.
    + apply orb_false_iff in E as [Ed ->].
      destruct (parse_entry m) as [t'| | | |] eqn:Hm; try done.
      destruct (sub_list_loop ents) as [ts'| | | |]; try done. injection Hl as <-.
      apply elem_of_cons in Hin as [->|Hin]; [exists m; set_solver|].
      destruct (IH ts' eq_refl Hin) as (n & ? & ? & ?). exists n. set_solver.
Qed.

Lemma parse_entry_total s : zlen s < 2 ^ 63 → ∃ t, parse_entry s = Ret t.
Proof.
  intros Hl. destruct (decide (","%char ∈ s)) as [Hin|].
  - apply list_elem_of_split_l in Hin as (a & b & -> & ?).
    eexists. by apply parse_entry_comma.
  - eexists. by apply parse_entry_no_comma.
Qed.

Lemma sub_list_loop_total ents :
  Forall (λ e, zlen (d_name e) < 2 ^ 63) ents → ∃ ts, sub_list_loop ents = Ret ts.
Proof.
  induction 1 as [|ent ents He Hes [ts IH]]; cbn; [eauto|].
  destruct (dot_name _ || _); [eauto|].
  destruct (parse_entry_total _ He) as [t ->]. rewrite IH. eauto.
Qed.

(** What [renew_] does when it returns. *)
Lemma renew_ok e dir name f f' :
  node_name_ e = in_dir dir name → "/"%char ∉ name →
  renew_ e f = (Ret tt, f') → ∃ s, fs_files dir f' = Some s ∧ name ∈ s.
Proof.
  intros Hn Hs. unfold renew_. rewrite Hn.
  destruct (fs_mkdir _ _ f) as [r0 f1]. destruct (fs_open _ _ f1) as [fd f2] eqn:Ho.
  case_decide; [done|]. destruct (fs_futimes fd f2) as [res f3] eqn:Ht.
  case_decide; [done|]. intros [= <-].
  destruct (open_creates _ _ _ _ _ _ Ho) as [Hd Hf]; [done|done|].
  rewrite close_keeps_files, (futimes_keeps _ _ _ _ Ht), Hf.
  eexists. split; [done|]. set_solver.
Qed.

Lemma entry_name_slash e addr topic :
  "/"%char ∉ e → addr_ok addr → "/"%char ∉ entry_name e addr topic.
Proof.
  intros He (_ & Ha & _). unfold entry_name. rewrite !elem_of_app.
  intros [?|[Hc|[?|Ht]]]; try done; [by apply (bool_decide_eq_true_2 _) in Hc|].
  destruct topic; [|set_solver]. apply elem_of_app in Ht as [Ht|?]; [|done].
  by apply (bool_decide_eq_true_2 _) in Ht.
Qed.

(** A constructed entry: the file its name says, in the queue's directory. *)
Lemma SubEntry_new_ok meta queue addr topic f e f' :
  addr_ok addr → SubEntry_new meta queue addr topic f = (Ret e, f') →
  ∃ esc, EscapeSubFolderPath queue = Ret esc
    ∧ node_name_ e = in_dir (queue_dir meta queue) (entry_name esc addr topic)
    ∧ renew_ e f = (Ret tt, f')
    ∧ "/"%char ∉ entry_name esc addr topic.
Proof.
  intros Ha. unfold SubEntry_new, cbind, clift.
  destruct (EscapeSubFolderPath queue) as [esc| | | |] eqn:He; try done.
  set (e0 := mkSubEntry _ _ _ _).
  destruct (renew_ e0 f) as [[[]| | | |] f1] eqn:Hr; try done. intros [= <- <-].
  exists esc. split; [done|]. split.
  { unfold e0, in_dir, queue_dir. cbn [node_name_]. by rewrite <- !app_assoc. }
  split; [done|]. apply entry_name_slash; [by eapply escape_no_slash|done].
Qed.

End sub_laws.

(** *** The list of a directory *)

Section listing.
Context {F : Type} `{FsOps F} `{!FsLaws F}.

Lemma GetSubList_files d f s :
  fs_files (queue_dir (sd_meta_dir_ d) (sd_queue_name_ d)) f = Some s →
  ∃ ts, GetSubList d f = Ret ts
    ∧ (∀ n, n ∈ s → zlen n ≤ 255 ∧ "/"%char ∉ n)
    ∧ ∀ t, t ∈ ts ↔ ∃ n, n ∈ s ∧ parse_entry n = Ret t.
Proof.
  intros Hs. destruct (readdir_lists _ _ _ Hs) as (ents & Hr & Hl & Hn).
  destruct (sub_list_loop_total ents) as [ts Hts].
  { eapply Forall_impl; [exact Hl|]. cbn. intros ? []. lia. }
  exists ts. unfold GetSubList. rewrite Hr. split; [done|]. split.
  - intros n [Hin _]%Hn. rewrite Forall_forall in Hl. by apply Hl in Hin.
  - intros t. split.
    + intros Ht. destruct (sub_list_loop_sound _ _ _ Hts Ht) as (n & ? & ? & ?).
      exists n. split; [|done]. by apply Hn.
    + intros (n & [Hin Hd]%Hn & Hp). by eapply sub_list_loop_complete.
Qed.

End listing.

(** ** A concrete file system

    Directories as lists of file names. *)
Module SimFs.

Notation fs := (list (bytes * list bytes)).

Fixpoint dir_files (dir : bytes) (f : fs) : option (list bytes) :=
  match f with
  | [] => None
  | (d, ns) :: f' => if decide (d = dir) then Some ns else dir_files dir f'
  end.

Fixpoint set_dir (dir : bytes) (ns : list bytes) (f : fs) : fs :=
  match f with
  | [] => [(dir, ns)]
  | (d, ms) :: f' => if decide (d = dir) then (dir, ns) :: f' else (d, ms) :: set_dir dir ns f'
  end.

Definition split_path (p : bytes) : bytes * bytes :=
  match index_of "/" (rev p) with
  | Some i => (rev (drop (S i) (rev p)), rev (take i (rev p)))
  | None => ([], p)
  end.

Definition keep (n : bytes) : Prop := dot_name n = false ∧ zlen n ≤ 255 ∧ "/"%char ∉ n.

#[export] Instance keep_dec n : Decision (keep n).
Proof. unfold keep. apply _. Defined.

Notation drop_name name ns := (filter (λ n, n ≠ name) ns).

#[export] Instance ops : FsOps fs := {
  fs_mkdir p _ f := match dir_files p f with Some _ => (-1, f) | None => (0, set_dir p [] f) end;
  fs_open p _ f :=
    let '(dir, name) := split_path p in
    match dir_files dir f with
    | Some ns => if dot_name name || bool_decide (255 < zlen name) then (-1, f)
                 else (3, set_dir dir (name :: drop_name name ns) f)
    | None => (-1, f)
    end;
  fs_futimes _ f := (0, f);
  fs_close _ f := f;
  fs_unlink p f :=
    let '(dir, name) := split_path p in
    match dir_files dir f with Some ns => set_dir dir (drop_name name ns) f | None => f end;
  fs_readdir p f := (λ ns, map (λ n, mkDirent n false) (filter keep ns)) <$> dir_files p f }.

Lemma dir_files_set dir ns f : dir_files dir (set_dir dir ns f) = Some ns.
Proof.
  induction f as [|[d ms] f IH]; cbn; [by rewrite decide_True|].
  case_decide; cbn; [by rewrite decide_True|by rewrite decide_False].
Qed.

Lemma dir_files_set_ne dir dir' ns f :
  dir ≠ dir' → dir_files dir (set_dir dir' ns f) = dir_files dir f.
Proof.
  intros Hne. induction f as [|[d ms] f IH]; cbn; [by rewrite decide_False|].
  case_decide; cbn; [subst; by rewrite !decide_False|]. by rewrite IH.
Qed.

Lemma split_in_dir dir name : "/"%char ∉ name → split_path (in_dir dir name) = (dir, name).
Proof.
  intros Hn. unfold split_path, in_dir. change (str "/" ++ name) with ("/"%char :: name).
  rewrite rev_app_distr. cbn [rev]. rewrite <- app_assoc. cbn [app].
  rewrite index_of_app_hit by (intros Hi; apply Hn;
    by apply list_elem_of_In, in_rev, list_elem_of_In).
  f_equal.
  - rewrite <- (rev_involutive dir) at 2. f_equal.
    replace (rev name ++ "/"%char :: rev dir) with ((rev name ++ ["/"%char]) ++ rev dir)
      by (by rewrite <- app_assoc).
    apply drop_app_length'. rewrite length_app. cbn. lia.
  - rewrite take_app_length. apply rev_involutive.
Qed.

Definition files (dir : bytes) (f : fs) : option (gset bytes) :=
  (λ ns, list_to_set (filter keep ns)) <$> dir_files dir f.

Lemma elem_of_files n ns :
  n ∈@{gset bytes} list_to_set (filter keep ns) ↔ keep n ∧ n ∈ ns.
Proof. by rewrite elem_of_list_to_set, list_elem_of_filter. Qed.

#[export, refine] Instance laws : FsLaws fs := { fs_files := files }.
Proof.
  - intros dir name mode fd f f' Ho Hfd Hn. cbn in Ho. rewrite split_in_dir in Ho by done.
    unfold files. destruct (dir_files dir f) as [ns|] eqn:Hs; [|by simplify_eq].
    destruct (dot_name name || _) eqn:E; [by simplify_eq|]. injection Ho as <- <-.
    apply orb_false_iff in E as [Hd Hl%bool_decide_eq_false]. split; [done|].
    rewrite dir_files_set. cbn [fmap option_fmap option_map default from_option]. unfold id. f_equal.
    apply set_eq. intros n. rewrite elem_of_union, elem_of_singleton, !elem_of_files.
    rewrite elem_of_cons, list_elem_of_filter.
    destruct (decide (n = name)) as [->|]; [|naive_solver].
    split; [by left|]. intros _. split; [|by left]. repeat split; [done|lia|done].
  - intros p mode r f f' dir s Hm Hs. cbn in Hm. destruct (dir_files p f) eqn:Hp; simplify_eq; [done|].
    unfold files in *. rewrite dir_files_set_ne; [done|]. intros ->. by rewrite Hp in Hs.
  - intros fd r f f' [= <- <-]. done.
  - done.
  - intros dir name f s Hn Hs. cbn. rewrite split_in_dir by done.
    unfold files in *. destruct (dir_files dir f) as [ns|]; [|done]. cbn in Hs. injection Hs as <-.
    rewrite dir_files_set. cbn [fmap option_fmap option_map]. f_equal.
    apply set_eq. intros n. rewrite elem_of_difference, elem_of_singleton, !elem_of_files.
    rewrite list_elem_of_filter. naive_solver.
  - intros dir f s Hs. cbn. unfold files in Hs.
    destruct (dir_files dir f) as [ns|]; [|done]. cbn in Hs. injection Hs as <-.
    eexists. split; [done|]. split.
    + apply Forall_forall. intros e. rewrite list_elem_of_In, in_map_iff.
      intros (n & <- & Hin). apply list_elem_of_In, list_elem_of_filter in Hin as [(_ & ? & ?) _].
      done.
    + intros n. rewrite elem_of_files, (list_elem_of_In (map _ _)), in_map_iff. split.
      * intros [[Hd Hl] Hin]. split; [|done]. exists n. split; [done|].
        by apply list_elem_of_In, list_elem_of_filter.
      * intros [(n' & [= <-] & Hin) Hd].
        by apply list_elem_of_In, list_elem_of_filter in Hin.
Defined.

End SimFs.

(** ** What publishers see of the subscribers *)

Section discovery.
Context {F : Type} `{FsOps F} `{!FsLaws F}.

(** An entry that is a file of the directory is in the list. *)
Lemma entry_listed d f s queue addr topic esc :
  fs_files (queue_dir (sd_meta_dir_ d) (sd_queue_name_ d)) f = Some s →
  entry_name esc addr topic ∈ s → addr_ok addr → "#"%char ∉ queue →
  EscapeSubFolderPath queue = Ret esc →
  ∃ ts, GetSubList d f = Ret ts ∧ (addr, destination queue addr topic) ∈ ts.
Proof.
  intros Hs Hin Ha Hq He. destruct (GetSubList_files d f s Hs) as (ts & Hts & Hl & Hiff).
  exists ts. split; [done|]. apply Hiff. eexists. split; [done|].
  apply parse_entry_name; try done. destruct (Hl _ Hin). lia.
Qed.

Lemma destination_topic queue a1 a2 :
  destination queue a1 true = destination queue a2 true → a1 = a2.
Proof. unfold destination. by intros ?%(inj _)%(inj _). Qed.

(** Opening an entry keeps the files that are there. *)
Lemma renew_keeps e dir name f f' s :
  node_name_ e = in_dir dir name → "/"%char ∉ name → fs_files dir f = Some s →
  renew_ e f = (Ret tt, f') → fs_files dir f' = Some ({[name]} ∪ s).
Proof.
  intros Hn Hs Hf. unfold renew_. rewrite Hn.
  destruct (fs_mkdir _ _ f) as [r0 f1] eqn:Hm. eapply mkdir_keeps in Hm; [|done].
  destruct (fs_open _ _ f1) as [fd f2] eqn:Ho.
  case_decide; [done|]. destruct (fs_futimes fd f2) as [res f3] eqn:Ht.
  case_decide; [done|]. intros [= <-].
  destruct (open_creates _ _ _ _ _ _ Ho) as [Hd Hf']; [done|done|].
  by rewrite close_keeps_files, (futimes_keeps _ _ _ _ Ht), Hf', Hm.
Qed.

(** Entries of a directory are told apart by what they parse to. *)
Lemma parse_entry_inj n m t :
  "/"%char ∉ n → "/"%char ∉ m → ","%char ∈ n → ","%char ∈ m →
  zlen n < 2 ^ 63 → zlen m < 2 ^ 63 →
  parse_entry n = Ret t → parse_entry m = Ret t → n = m.
Proof.
  intros Hn Hm Hcn Hcm Hln Hlm.
  apply list_elem_of_split_l in Hcn as (a & b & -> & Ha).
  apply list_elem_of_split_l in Hcm as (a' & b' & -> & Ha').
  rewrite !parse_entry_comma by done. intros <- [= -> Hu]. do 2 f_equal.
  apply (f_equal (replace_char "/" "#")) in Hu. unfold UnescapeSubFolderPath in Hu.
  rewrite !replace_char_back in Hu by set_solver. done.
Qed.

(** What creating an entry can end in. *)
Lemma SubEntry_new_cases meta queue addr topic f o f' :
  addr_ok addr → "#"%char ∉ queue → SubEntry_new meta queue addr topic f = (o, f') →
  let node esc := in_dir (queue_dir meta queue) (entry_name esc addr topic) in
  let listed := ∃ ts, GetSubList (mkSubDir meta queue) f' = Ret ts
                  ∧ (addr, destination queue addr topic) ∈ ts in
  match o with
  | Ret e => listed
  | Throw m =>
      ∃ esc, EscapeSubFolderPath queue = Ret esc
        ∧ (m = str "Cannot create subscriber entry at " ++ node esc
           ∨ m = str "Cannot update subscriber entry at " ++ node esc ∧ listed)
  | AssertFailed | Waits => False
  | Undef u => queue = [] ∧ u = BeforeBegin ∧ f' = f
  end.
Proof.
  intros Ha Hq Hn node listed.
  assert (Hlist : ∀ esc s, EscapeSubFolderPath queue = Ret esc →
    fs_files (queue_dir meta queue) f' = Some s → entry_name esc addr topic ∈ s → listed).
  { intros esc s He Hs Hin. by eapply (entry_listed (mkSubDir meta queue)). }
  unfold SubEntry_new, cbind, clift, renew_ in Hn.
  destruct (decide (queue = [])) as [->|Hne]; [by injection Hn as <- <-|].
  destruct (escape_nonempty_ret queue Hne) as [esc He]. rewrite He in Hn.
  pose proof (entry_name_slash esc addr topic (escape_no_slash _ _ He) Ha) as Hs.
  assert (Hnode : meta ++ str "/sub/" ++ queue ++ str "/" ++ entry_name esc addr topic = node esc).
  { unfold node, in_dir, queue_dir. by rewrite <- !app_assoc. }
  cbn [node_name_ se_meta_dir_ se_queue_name_] in Hn. rewrite Hnode in Hn.
  destruct (fs_mkdir _ _ f) as [r0 f1]. destruct (fs_open _ _ f1) as [fd f2] eqn:Ho.
  case_decide as Hfd; [injection Hn as <- <-; eauto|].
  destruct (open_creates _ _ _ _ _ _ Ho Hfd Hs) as [_ Hf2].
  destruct (fs_futimes fd f2) as [res f3] eqn:Ht.
  assert (Hf4 : fs_files (queue_dir meta queue) (fs_close fd f3) = _)
    by (rewrite close_keeps_files, (futimes_keeps _ _ _ _ Ht); exact Hf2).
  case_decide; injection Hn as <- <-.
  - exists esc. split; [done|]. right. split; [done|]. eapply Hlist; [done..|set_solver].
  - eapply Hlist; [done..|set_solver].
Qed.

(** C10: two subscribers that announce themselves on a queue are both listed to
    the publishers, each with its own address; without the topic mode they share
    one destination, with it every address has its own. *)
Theorem subscribers_discovered meta queue a1 a2 topic f f1 f2 e1 e2 :
  addr_ok a1 → addr_ok a2 → "#"%char ∉ queue → a1 ≠ a2 →
  SubEntry_new meta queue a1 topic f = (Ret e1, f1) →
  SubEntry_new meta queue a2 topic f1 = (Ret e2, f2) →
  ∃ ts, GetSubList (mkSubDir meta queue) f2 = Ret ts
    ∧ (a1, destination queue a1 topic) ∈ ts ∧ (a2, destination queue a2 topic) ∈ ts
    ∧ (destination queue a1 topic = destination queue a2 topic ↔ topic = false).
Proof.
  intros H1 H2 Hq Hne Hn1 Hn2.
  destruct (SubEntry_new_ok _ _ _ _ _ _ _ H1 Hn1) as (esc & He & Hp1 & Hr1 & Hs1).
  destruct (SubEntry_new_ok _ _ _ _ _ _ _ H2 Hn2) as (esc' & He' & Hp2 & Hr2 & Hs2).
  rewrite He in He'. injection He' as <-.
  destruct (renew_ok _ _ _ _ _ Hp1 Hs1 Hr1) as (s & Hf1 & Hin1).
  pose proof (renew_keeps _ _ _ _ _ _ Hp2 Hs2 Hf1 Hr2) as Hf2.
  destruct (entry_listed (mkSubDir meta queue) f2 _ queue a1 topic esc Hf2) as (ts & Hts & Ht1);
    [set_solver|done..|].
  destruct (entry_listed (mkSubDir meta queue) f2 _ queue a2 topic esc Hf2) as (ts' & Hts' & Ht2);
    [set_solver|done..|].
  rewrite Hts in Hts'. injection Hts' as <-. exists ts. do 3 (split; [done|]).
  destruct topic; [|done]. split; [|done]. by intros ?%destination_topic.
Qed.

(** When a subscriber's entry is destroyed its address leaves the list and
    every other subscriber stays on it; renewing the entry, which the subscriber
    does in every round of its accept loop, puts it back. *)
Theorem subscriber_leaves_and_renews meta queue addr topic esc e f s f' f'' :
  let name := entry_name esc addr topic in
  let d := mkSubDir meta queue in
  EscapeSubFolderPath queue = Ret esc → addr_ok addr → "#"%char ∉ queue →
  node_name_ e = in_dir (queue_dir meta queue) name →
  fs_files (queue_dir meta queue) f = Some s → name ∈ s → (∀ n, n ∈ s → ","%char ∈ n) →
  SubEntry_destroy e f = (Ret tt, f') → renew e f' = (Ret tt, f'') →
  ∃ ts0 ts1 ts2,
    GetSubList d f = Ret ts0 ∧ GetSubList d f' = Ret ts1 ∧ GetSubList d f'' = Ret ts2
    ∧ (∀ t, t ∈ ts1 ↔ t ∈ ts0 ∧ t ≠ (addr, destination queue addr topic))
    ∧ (∀ t, t ∈ ts2 ↔ t ∈ ts0).
Proof.
  intros name d He Ha Hq Hp Hf Hin Hcm Hd Hr.
  assert (Hs : "/"%char ∉ name) by (apply entry_name_slash; [by eapply escape_no_slash|done]).
  unfold SubEntry_destroy, cmodify in Hd. rewrite Hp in Hd. injection Hd as <-.
  pose proof (unlink_deletes _ _ _ _ Hs Hf) as Hf1.
  pose proof (renew_keeps _ _ _ _ _ _ Hp Hs Hf1 Hr) as Hf2.
  destruct (GetSubList_files d f s Hf) as (ts0 & H0 & Hl & Hiff0).
  destruct (GetSubList_files d _ _ Hf1) as (ts1 & H1 & _ & Hiff1).
  destruct (GetSubList_files d _ _ Hf2) as (ts2 & H2 & _ & Hiff2).
  assert (Hname : parse_entry name = Ret (addr, destination queue addr topic)).
  { apply parse_entry_name; try done. destruct (Hl _ Hin). fold name. lia. }
  exists ts0, ts1, ts2. do 3 (split; [done|]). split; intros t; rewrite Hiff0.
  - rewrite Hiff1. split.
    + intros (n & Hn & Hpn). split; [set_solver|]. intros ->.
      assert (n = name); [|set_solver].
      destruct (Hl n), (Hl name); [set_solver..|].
      eapply parse_entry_inj; try done; [apply Hcm; set_solver|by apply Hcm|lia|lia].
    + intros [(n & Hn & Hpn) Hne]. exists n. split; [|done].
      assert (n ≠ name); [|set_solver]. intros ->. by rewrite Hname in Hpn; simplify_eq.
  - rewrite Hiff2. split; intros (n & Hn & Hpn); exists n; (split; [|done]).
    + set_solver.
    + destruct (decide (n = name)); set_solver.
Qed.

(** Creating an entry returns only when publishers can see it; it fails
    with the code's two messages, the second of which leaves the entry in the
    directory with no object that would remove it; an empty queue name is
    undefined behaviour. *)
Theorem SubEntry_new_outcomes meta queue addr topic f o f' :
  addr_ok addr → "#"%char ∉ queue → SubEntry_new meta queue addr topic f = (o, f') →
  let node esc := in_dir (queue_dir meta queue) (entry_name esc addr topic) in
  let listed := ∃ ts, GetSubList (mkSubDir meta queue) f' = Ret ts
                  ∧ (addr, destination queue addr topic) ∈ ts in
  match o with
  | Ret e => listed
  | Throw m =>
      ∃ esc, EscapeSubFolderPath queue = Ret esc
        ∧ (m = str "Cannot create subscriber entry at " ++ node esc
           ∨ m = str "Cannot update subscriber entry at " ++ node esc ∧ listed)
  | AssertFailed | Waits => False
  | Undef u => queue = [] ∧ u = BeforeBegin ∧ f' = f
  end.
Proof. apply SubEntry_new_cases. Qed.

End discovery.

(** ** Witnesses: two subscribers of the queue [foo/bar] *)

Import SimFs.

Module SubDirExamples.

Definition meta : bytes := str "/var/wissbi".
Definition queue : bytes := str "foo/bar".
Definition addr1 : bytes := str "10.0.0.1:4000".
Definition addr2 : bytes := str "10.0.0.2:4000".
Definition esc : bytes := str "foo#bar".
Definition entry (addr : bytes) (topic : bool) : SubEntry :=
  mkSubEntry meta queue (in_dir (queue_dir meta queue) (entry_name esc addr topic)) addr.
Definition after (addr : bytes) (topic : bool) (f : list (bytes * list bytes)) :
    list (bytes * list bytes) := snd (SubEntry_new meta queue addr topic f).

Lemma addr1_ok : addr_ok addr1.
Proof. repeat split; by apply (bool_decide_eq_true_1 _). Defined.

Lemma addr2_ok : addr_ok addr2.
Proof. repeat split; by apply (bool_decide_eq_true_1 _). Defined.

End SubDirExamples.

Lemma subscribers_discovered_witness :
  let f2 := SubDirExamples.after SubDirExamples.addr2 true
              (SubDirExamples.after SubDirExamples.addr1 true []) in
  ∃ ts, GetSubList (mkSubDir SubDirExamples.meta SubDirExamples.queue) f2 = Ret ts
    ∧ (SubDirExamples.addr1, str "foo/bar.10.0.0.1:4000") ∈ ts
    ∧ (SubDirExamples.addr2, str "foo/bar.10.0.0.2:4000") ∈ ts
    ∧ (str "foo/bar.10.0.0.1:4000" = str "foo/bar.10.0.0.2:4000" ↔ true = false).
Proof.
  apply (subscribers_discovered SubDirExamples.meta SubDirExamples.queue
           SubDirExamples.addr1 SubDirExamples.addr2 true []
           (SubDirExamples.after SubDirExamples.addr1 true [])
           (SubDirExamples.after SubDirExamples.addr2 true
              (SubDirExamples.after SubDirExamples.addr1 true []))
           (SubDirExamples.entry SubDirExamples.addr1 true)
           (SubDirExamples.entry SubDirExamples.addr2 true)).
  - exact SubDirExamples.addr1_ok.
  - exact SubDirExamples.addr2_ok.
  - by apply (bool_decide_eq_true_1 _).
  - by apply (bool_decide_eq_true_1 _).
  - vm_compute. reflexivity.
  - vm_compute. reflexivity.
Defined.

Lemma subscriber_leaves_and_renews_witness :
  let f := SubDirExamples.after SubDirExamples.addr2 false
             (SubDirExamples.after SubDirExamples.addr1 false []) in
  let f1 := snd (SubEntry_destroy (SubDirExamples.entry SubDirExamples.addr1 false) f) in
  ∃ ts1, GetSubList (mkSubDir SubDirExamples.meta SubDirExamples.queue) f1 = Ret ts1
    ∧ (SubDirExamples.addr1, str "foo/bar") ∉ ts1.
Proof.
  intros f f1.
  pose (names := [entry_name SubDirExamples.esc SubDirExamples.addr2 false;
                  entry_name SubDirExamples.esc SubDirExamples.addr1 false]).
  assert (Hkeep : filter SimFs.keep names = names) by (vm_compute; reflexivity).
  assert (Hf : fs_files (queue_dir SubDirExamples.meta SubDirExamples.queue) f
               = Some (list_to_set names)).
  { rewrite <- Hkeep. cbn [fs_files SimFs.laws]. unfold SimFs.files.
    replace (SimFs.dir_files _ f) with (Some names) by (vm_compute; reflexivity). reflexivity. }
  assert (Hcomma : Forall (λ n, ","%char ∈ n) names) by by apply (bool_decide_eq_true_1 _).
  assert (Hin : entry_name SubDirExamples.esc SubDirExamples.addr1 false
                ∈@{gset bytes} list_to_set names).
  { apply elem_of_list_to_set. right. left. }
  destruct (subscriber_leaves_and_renews SubDirExamples.meta SubDirExamples.queue
    SubDirExamples.addr1 false SubDirExamples.esc (SubDirExamples.entry SubDirExamples.addr1 false)
    f (list_to_set names) f1 (snd (renew (SubDirExamples.entry SubDirExamples.addr1 false) f1)))
    as (ts0 & ts1 & ts2 & H0 & H1 & H2 & Hl & _).
  - reflexivity.
  - exact SubDirExamples.addr1_ok.
  - by apply (bool_decide_eq_true_1 _).
  - reflexivity.
  - exact Hf.
  - exact Hin.
  - intros n Hn. apply elem_of_list_to_set in Hn. revert n Hn. by apply Forall_forall.
  - reflexivity.
  - vm_compute. reflexivity.
  - exists ts1. split; [exact H1|]. intros Ht.
    exact (proj2 (proj1 (Hl _) Ht) eq_refl).
Defined.

Lemma SubEntry_new_outcomes_witness :
  ∃ ts, GetSubList (mkSubDir SubDirExamples.meta SubDirExamples.queue)
          (SubDirExamples.after SubDirExamples.addr1 false []) = Ret ts
    ∧ (SubDirExamples.addr1, str "foo/bar") ∈ ts.
Proof.
  apply (SubEntry_new_outcomes SubDirExamples.meta SubDirExamples.queue SubDirExamples.addr1 false []
           (Ret (SubDirExamples.entry SubDirExamples.addr1 false))
           (SubDirExamples.after SubDirExamples.addr1 false [])).
  - exact SubDirExamples.addr1_ok.
  - by apply (bool_decide_eq_true_1 _).
  - vm_compute. reflexivity.
Defined.
