(* ===== verification/Relay.v ===== *)
(** * Relay: the filter over its stream policies

    What a [MsgFilter] does between any source and any sink, and what the
    [Line], [Length] and [String] policies make of a stream: the programs
    [wissbi-count] and [wissbi-record] are instances. *)

From S2P Require Import Prelude Text MsgBuf IOStream MsgFilter Line Length.

(** ** The filter object around two policies *)

Section start.
Context {PI PO E : Type}.

(** A filter at the start of its loop. *)
Definition fstart (i : PI) (o : PO) (e : E) : fstate PI PO E :=
  mkFstate i o e (msg_of []).

Lemma msg_of_wf : wf_MsgBuf (msg_of []).
Proof. by eapply holds_wf, holds_msg_of. Qed.

Lemma fstart_point `{MessageSource PI, MessageSink PO} i o (e : E) ms out :
  source_has i ms → sink_has o out → at_point (fstart i o e) ms out e.
Proof. intros. by split. Qed.

End start.

(** ** The lines of an input with an empty one *)

Lemma split_lines_app_empty ms rest :
  Forall (λ m, LF ∉ m) ms → split_lines (unlines ms ++ LF :: rest) = ms ++ [] :: split_lines rest.
Proof.
  induction 1 as [|m ms Hm Hms IH]; [done|].
  change (unlines (m :: ms)) with ((m ++ [LF]) ++ unlines ms).
  rewrite <- !app_assoc. cbn [app]. rewrite split_lines_delim by done.
  cbn [app]. by rewrite IH.
Qed.

(** Where an element first occurs is determined. *)
Lemma first_occurrence {A} (x : A) l1 l2 r1 r2 :
  x ∉ l1 → x ∉ l2 → l1 ++ x :: r1 = l2 ++ x :: r2 → l1 = l2 ∧ r1 = r2.
Proof.
  revert l2. induction l1 as [|y l1 IH]; intros [|z l2] H1 H2 He; simplify_eq/=;
    [done|set_solver..|].
  destruct (IH l2) as [-> ->]; set_solver.
Qed.

(** A stream whose input side has failed answers no further request. *)
Lemma Line_Get_stuck b p :
  good (is_ptr_ (line_base p)) = false → wf_MsgBuf b →
  ∃ b' p', Get b p = (Ret (false, b'), p') ∧ wf_MsgBuf b' ∧ len b' = 0
    ∧ good (is_ptr_ (line_base p')) = false.
Proof.
  intros Hg Hwf.
  destruct (Line_Get_fails b (line_base p)) as (b' & st & HG & Hl & Hwf' & Hst & _);
    [by apply getline_not_good|done|].
  eexists b', _. split; [cbn; by erewrite zoom_eq|]. done.
Qed.

(** [Get] called [n] times in a row; the results, in order. *)
Fixpoint gets {P} `{IOPolicy P} (n : nat) (b : MsgBuf) (p : P) : list (outcome bool) :=
  match n with
  | O => []
  | S n' => match Get b p with
            | (Ret (r, b'), p') => Ret r :: gets n' b' p'
            | (Throw e, p') => [Throw e]
            | (AssertFailed, p') => [AssertFailed]
            | (Waits, p') => [Waits]
            | (Undef u, p') => [Undef u]
            end
  end.

Lemma gets_stuck n b (p : Line) :
  good (is_ptr_ (line_base p)) = false → wf_MsgBuf b → gets n b p = replicate n (Ret false).
Proof.
  revert b p. induction n as [|n IH]; intros b p Hg Hwf; [done|].
  destruct (Line_Get_stuck b p Hg Hwf) as (b' & p' & HG & Hwf' & _ & Hg').
  cbn [gets replicate]. rewrite HG. by rewrite IH.
Qed.

(** The messages a [String] delivers for a sequence of [Send]s, each read back
    before the next, the way [MetricReporter] drives it. *)
Fixpoint send_all (ms : list bytes) (b : MsgBuf) (s : String_) : list bytes :=
  match ms with
  | [] => []
  | m :: ms' =>
      match (let* _ := Send m in Get b) s with
      | (Ret (true, b'), s') =>
          match load b' with Ret d => d :: send_all ms' b' s' | _ => send_all ms' b' s' end
      | (Ret (false, b'), s') => send_all ms' b' s'
      | _ => []
      end
  end.

Lemma send_all_good ms b s :
  String_good s → Forall length_fits ms → wf_MsgBuf b → send_all ms b s = ms.
Proof.
  intros Hg Hf. revert b s Hg. induction Hf as [|m ms Hm Hms IH]; intros b s Hg Hwf; [done|].
  destruct (Send_Get_message m b s Hg Hm Hwf) as (b' & s' & HG & Hh & Hg').
  cbn [send_all]. rewrite HG, (holds_load _ _ Hh). f_equal. apply IH; [done|].
  by eapply holds_wf.
Qed.

Lemma send_all_dead ms b s : ¬ String_good s → send_all ms b s = [].
Proof.
  revert b s. induction ms as [|m ms IH]; intros b s Hg; [done|]. cbn [send_all].
  rewrite (cbind_ret _ _ _ _ _ (Send_eq m s)).
  destruct (String_Get_dead b (mkString (sb_of (length_frame m))
     (s_eof s) (s_fail s) (s_bad s) (s_gcount s) (s_obad s)) Hg) as (s' & HG & Hg').
  rewrite HG. by apply IH.
Qed.

(** A line-to-line filter whose functions observe, over lines that all pass. *)
Lemma line_relay {E} (ok : E → Prop) ff step input (e : E) fuel :
  observes_if ok ff step → Forall line_fits (split_lines input) →
  ([] : bytes) ∉ split_lines input → oks ok step (split_lines input) e →
  (length (split_lines input) < fuel)%nat →
  ∃ w, FilterLoop ff fuel (fstart (line_start input) (line_start []) e) = Some (Ret tt, w)
    ∧ os_ptr_ (line_base (f_out w)) = ostream_of (unlines (split_lines input))
    ∧ f_ext w = fold_left (λ e m, step m e) (split_lines input) e.
Proof.
  intros Hobs Hf Hne Hok Hfuel.
  destruct (FilterLoop_all_if ok ff step Hobs (split_lines input) [] e
    (fstart (line_start input) (line_start []) e)) as (w & HL & [_ Ho He _]).
  - apply fstart_point; [by apply line_start_source|done].
  - done.
  - apply Forall_forall. by intros x Hx ->.
  - exists w. split; [|done]. eapply FilterLoop_more; [|exact HL]. lia.
Qed.

(** ** Properties *)

(** [Filter] calls its four functions in order and stops at the first that
    says no, and its result is the post-filter function's on the flag and the
    object the others left, whichever of them said no. *)
Theorem filter_short_circuits {PI PO E} `{IOPolicy PI} `{IOPolicy PO}
    (ff : filter_funcs PI PO E) w r1 w1 :
  pre_filter_func_ ff w = (Ret r1, w1) →
  if r1 then
    ∀ r2 b p, Get (msg_buf_ w1) (f_in w1) = (Ret (r2, b), p) →
    let w2 := mkFstate p (f_out w1) (f_ext w1) b in
    if r2 : bool then
      ∀ r3 w3, filter_func_ ff w2 = (Ret r3, w3) →
      if r3 : bool then
        ∀ r4 b' o, Put (msg_buf_ w3) (f_out w3) = (Ret (r4, b'), o) →
        Filter ff w = post_filter_func_ ff r4 (mkFstate (f_in w3) o (f_ext w3) b')
      else Filter ff w = post_filter_func_ ff false w3
    else Filter ff w = post_filter_func_ ff false w2
  else Filter ff w = post_filter_func_ ff false w1.
Proof.
  intros Hp. destruct r1; [|by apply Filter_pre_false].
  intros r2 b p Hg w2. destruct r2; [|by eapply Filter_get_false].
  intros r3 w3 Hf. destruct r3; [|by eapply Filter_filter_false].
  intros r4 b' o Ho. by eapply Filter_put.
Qed.

(** C12: between any source and any sink, with functions that let every message
    through and fold it into their captured variables, [FilterLoop] returns, after
    at most one iteration per message and one more.  Let [ms] be the messages of the
    source that the sink accepts, up to the first, if any, that it refuses; [rest]
    are that one and those behind it.  Then the sink has every message of [ms] in
    order, the refused one is read and lost, those behind it stay unread, and the
    captured variables hold the fold over all that was read. *)
Theorem filter_loop_relays {PI PO E} `{MessageSource PI} `{MessageSink PO}
    (ff : filter_funcs PI PO E) step w ms rest out e fuel :
  observes ff step → at_point w (ms ++ rest) out e → Forall sink_ok ms →
  (∀ m rest', rest = m :: rest' → ¬ sink_ok m) → (length ms < fuel)%nat →
  ∃ w', FilterLoop ff fuel w = Some (Ret tt, w')
    ∧ source_has (f_in w') (tail rest) ∧ sink_has (f_out w') (out ++ ms)
    ∧ f_ext w' = fold_left (λ e m, step m e) (ms ++ take 1 rest) e.
Proof.
  intros Hobs Hat Hok Hbad Hfuel. rewrite fold_left_app. destruct rest as [|m rest].
  - rewrite app_nil_r in Hat.
    destruct (FilterLoop_all ff step Hobs ms out e w Hat Hok) as (w' & HL & [Hs Ho He _]).
    exists w'. split; [|done]. eapply FilterLoop_more; [|exact HL]. lia.
  - destruct (FilterLoop_refused ff step Hobs ms m rest out e w Hat Hok (Hbad m rest eq_refl))
      as (w' & HL & [Hs Ho He _]).
    exists w'. split; [|done]. eapply FilterLoop_more; [|exact HL]. lia.
Qed.

(** A line-to-line filter copies an input of non-empty lines that fit the
    buffer, its last line ended by a newline or not, and stops; an empty line
    ends it there and what follows is not copied. *)
Theorem line_filter_copies (input : bytes) (fuel : nat) :
  Forall line_fits (split_lines input) → (length (split_lines input) < fuel)%nat →
  ∃ w, FilterLoop (E:=unit) default_funcs fuel
         (fstart (line_start input) (line_start []) tt) = Some (Ret tt, w)
    ∧ (([] : bytes) ∉ split_lines input →
       os_ptr_ (line_base (f_out w)) = ostream_of (unlines (split_lines input)))
    ∧ (∀ ms rest, split_lines input = ms ++ [] :: rest → ([] : bytes) ∉ ms →
       os_ptr_ (line_base (f_out w)) = ostream_of (unlines ms) ∧ line_source (f_in w) rest).
Proof.
  intros Hf Hfuel.
  assert (Hat : at_point (fstart (line_start input) (line_start []) tt)
            (split_lines input) [] tt) by (by apply fstart_point; [apply line_start_source|]).
  assert (Hno : ∀ ms : list bytes, [] ∉ ms → Forall (λ m : bytes, m ≠ []) ms).
  { intros ms Hni. apply Forall_forall. by intros x Hx ->. }
  destruct (decide (([] : bytes) ∈ split_lines input)) as [Hin|Hni].
  - destruct (list_elem_of_split_l _ _ Hin) as (ms & rest & Hs & Hms).
    rewrite Hs in Hat, Hfuel.
    destruct (FilterLoop_refused default_funcs _ default_observes ms [] rest [] tt _ Hat)
      as (w & HL & [Hsrc Ho _ _]); [by apply Hno|by intros []|].
    exists w. split; [eapply FilterLoop_more; [|exact HL]; rewrite length_app in Hfuel; cbn in Hfuel; lia|].
    split; [by intros []|]. intros ms' rest' Hs' Hms'. rewrite Hs in Hs'.
    by destruct (first_occurrence _ _ _ _ _ Hms Hms' Hs') as [<- <-].
  - destruct (FilterLoop_all default_funcs _ default_observes _ [] tt _ Hat (Hno _ Hni))
      as (w & HL & [Hsrc Ho _ _]).
    exists w. split; [eapply FilterLoop_more; [|exact HL]; lia|]. split; [done|].
    intros ms rest Hs. rewrite Hs in Hni. set_solver.
Qed.

(** A line that does not fit the buffer ends the input for good: however
    often [Get] is called it reports the end, so the line and everything after it
    are never delivered. *)
Theorem line_too_long_ends_input p b l s n :
  good_at (is_ptr_ (line_base p)) (l ++ s) → LF ∉ l → zlen l = MAX_MSG_SIZE → wf_MsgBuf b →
  gets (P:=Line) n b p = replicate n (Ret false).
Proof.
  intros Hat Hl Hz Hwf. destruct n as [|n]; [done|].
  destruct (Line_Get_fails b (line_base p)) as (b' & st & HG & Hlen & Hwf' & Hst & _); [|done|].
  { by eapply getline_full. }
  cbn [gets replicate]. change (Get b p) with (zoom line_base (λ p _, mkLine p) (Line_Get b) p).
  erewrite zoom_eq by exact HG. f_equal. by apply gets_stuck.
Qed.

(** What [Length]'s [Put] writes, its [Get] reads back from any stream that
    continues with anything at all, and the rest of the stream is untouched. *)
Theorem length_put_get b b0 p m written s :
  holds b m → m ≠ [] → os_ptr_ p = ostream_of written → wf_MsgBuf b0 →
  ∃ out b' st, Length_Put b p = (Ret (true, b), set_ostream (ostream_of (written ++ out)) p)
    ∧ Length_Get b0 (mkBase (istream_of (out ++ s)) (ostream_of []))
      = (Ret (true, b'), mkBase st (ostream_of []))
    ∧ holds b' m ∧ good_at st s.
Proof.
  intros Hh Hm Ho Hwf. exists (length_frame m).
  destruct (Length_Get_frame b0 (mkBase (istream_of (length_frame m ++ s)) (ostream_of []))
              SPACE m s) as (b' & st & HG & Hh' & Hat);
    [apply good_at_istream_of|done|by eapply holds_bound|done|].
  exists b', st. split; [by apply Length_Put_ok|]. by split.
Qed.

(** [Length]'s [Get] trusts the length it reads: a negative one is an invalid
    count for [read], one above the buffer with enough input behind it overflows
    the buffer, and a truncated message is reported as received, with the bytes
    the buffer held before in place of those that are missing. *)
Theorem length_header_unchecked b p n (data : bytes) :
  wf_MsgBuf b →
  (0 < n ≤ - INT_MIN →
   good_at (is_ptr_ p) ("-"%char :: dec n ++ SPACE :: data) →
   (Length_Get b p).1 = Undef NegativeCount)
  ∧ (MAX_MSG_SIZE < n ≤ INT_MAX → zlen data = n →
     good_at (is_ptr_ p) (dec n ++ SPACE :: data) →
     (Length_Get b p).1 = Undef BufferOverflow)
  ∧ (zlen data < n ≤ MAX_MSG_SIZE →
     good_at (is_ptr_ p) (dec n ++ SPACE :: data) →
     ∃ b', (Length_Get b p).1 = Ret (true, b')
       ∧ load b' = Ret (data ++ take (Z.to_nat (n - zlen data)) (drop (length data) (buf b)))).
Proof.
  intros Hwf. pose proof (zlen_nonneg data). unfold INT_MIN, INT_MAX, MAX_MSG_SIZE.
  split_and!.
  - intros Hn Hat.
    destruct (extract_neg_dec INT_MIN INT_MAX 0 _ n SPACE data Hat) as (st & He & Hat');
      [lia|unfold INT_MIN, INT_MAX; lia|done|].
    unfold Length_Get, cbind, cget, cput, clift.
    rewrite He, (proj1 Hat'). cbn. by rewrite read_chars_negative by lia.
  - intros Hn Hz Hat.
    destruct (extract_dec INT_MIN INT_MAX 0 _ n SPACE data Hat) as (st & He & Hat');
      [lia|unfold INT_MIN, INT_MAX; lia|done|].
    destruct (read_chars_exact (get_char st) data []) as (st2 & Hr & _).
    { rewrite app_nil_r. by eapply get_char_good. }
    rewrite Hz in Hr. unfold Length_Get, cbind, cget, cput, clift.
    rewrite He, (proj1 Hat'). cbn. rewrite Hr. by rewrite store_big by (unfold MAX_MSG_SIZE; lia).
  - intros Hn Hat.
    destruct (extract_dec INT_MIN INT_MAX 0 _ n SPACE data Hat) as (st & He & Hat');
      [lia|unfold INT_MIN, INT_MAX; lia|done|].
    destruct (read_chars_short (get_char st) data n) as (st2 & Hr & _);
      [by eapply get_char_good|lia|].
    eexists. unfold Length_Get, cbind, cget, cput, clift.
    rewrite He, (proj1 Hat'). cbn. rewrite Hr. rewrite store_small by (unfold MAX_MSG_SIZE; lia).
    split; [done|]. unfold load, size_wrap. cbn. rewrite wrap_small by lia.
    rewrite decide_False by (unfold MAX_MSG_SIZE; lia). f_equal.
    rewrite take_app_ge by (unfold zlen in *; lia). do 2 f_equal. unfold zlen in *. lia.
Qed.

(** A [String] policy delivers every message sent through it, each exactly,
    however many there are, as long as they fit the buffer; and once its stream
    has failed no later [Send] gets through, since [Send] does not clear it. *)
Theorem string_send_get ms b s :
  wf_MsgBuf b →
  (String_good s → Forall length_fits ms → send_all ms b s = ms)
  ∧ (¬ String_good s → send_all ms b s = []).
Proof. intros Hwf. split; intros; [by apply send_all_good|by apply send_all_dead]. Qed.

(** [Receive] computes the message that was sent, but what it returns refers
    to a local that no longer exists, so that any use is undefined; an empty
    message already has no header length. *)
Theorem string_receive_dangles msg s :
  String_good s → zlen msg ≤ INT_MAX →
  ∃ o s', (let* _ := Send msg in Receive) s = (o, s')
    ∧ if decide (msg = []) then o = Undef FloatToInt
      else ∃ r, o = Ret r ∧ r = Expired msg ∧ use_expired r = Undef DanglingReference.
Proof.
  intros Hg Hl. rewrite (cbind_ret _ _ _ _ _ (Send_eq msg s)).
  set (s1 := mkString _ _ _ _ _ _). pose proof (zlen_nonneg msg). unfold INT_MAX in Hl.
  destruct (extract_dec INT_MIN INT_MAX 0 (is_ptr_ (String_base s1)) (zlen msg) SPACE msg)
    as (st & He & Hat); [|done|unfold INT_MIN, INT_MAX; lia|done|].
  { split; [by apply String_good_iff|]. done. }
  unfold Receive, cbind, cget, cput, clift. rewrite He. cbn [sb_str buf_ s1 sb_of].
  unfold header_len. case_decide as Hz.
  - assert (msg = []) as -> by (apply zlen_zero; lia). do 2 eexists. split; [done|].
    by rewrite decide_True.
  - unfold string_from, length_frame, length_frame_with.
    rewrite decide_False by (rewrite zlen_app, zlen_cons; lia).
    do 2 eexists. split; [done|]. rewrite decide_False by (by intros ->).
    eexists. split; [done|]. split; [|done]. f_equal.
    change (SPACE :: msg) with ([SPACE] ++ msg).
    assert (zlen (dec (zlen msg)) + 1 = zlen (dec (zlen msg) ++ [SPACE])) as ->
      by (rewrite zlen_app; done).
    rewrite (app_assoc (dec _)), <- (app_assoc _ msg [NUL]), drop_zlen_app.
    apply take_zlen_app.
Qed.

(** A failed output stream goes unnoticed: both stream policies report every
    non-empty message as put although nothing more is written. *)
Theorem output_failure_unreported b p m :
  holds b m → m ≠ [] → os_bad (os_ptr_ p) = true →
  Line_Put b p = (Ret (true, b), p) ∧ Length_Put b p = (Ret (true, b), p).
Proof.
  intros Hh Hm Hbad.
  assert (Hlen : ¬ len b ≤ 0).
  { rewrite (holds_len _ _ Hh). pose proof (zlen_nonneg m). intros ?. apply Hm, zlen_zero. lia. }
  assert (Hw : ∀ d, out_write d p = (Ret tt, p)).
  { intros d. unfold out_write, cmodify, set_ostream. rewrite os_write_bad by done.
    by destruct p. }
  unfold Line_Put, Length_Put. rewrite !decide_False by done.
  split; unfold cbind, clift; rewrite ?Hw, (holds_load _ _ Hh), !Hw; done.
Qed.

(** ** Witnesses *)

Lemma length_start_source ms :
  Forall length_fits ms → source_has (length_start (length_frames ms)) ms.
Proof. intros. split; [done|]. left. apply good_at_istream_of. Qed.

Lemma filter_short_circuits_witness :
  let w := fstart (line_start (str "hi")) (line_start []) tt in
  Filter (set_pre_filter_func (cret false) default_funcs) w = (Ret false, w)
  ∧ ∃ w2, Filter default_funcs (fstart (line_start []) (line_start []) tt) = (Ret false, w2).
Proof.
  intros w. split.
  - exact (filter_short_circuits (set_pre_filter_func (cret false) default_funcs) w false w eq_refl).
  - destruct (line_source_end (line_start []) (msg_of []) (line_start_source [] (Forall_nil_2 _)) msg_of_wf)
      as (b & p & HG & _).
    pose (w0 := fstart (E:=unit) (line_start []) (line_start []) tt).
    eexists. exact (filter_short_circuits default_funcs w0 true w0 eq_refl false b p HG).
Defined.

Lemma filter_loop_relays_witness :
  (∃ w', FilterLoop (E:=unit) default_funcs 3
      (fstart (length_start (length_frames [str "hi"; str "there"])) (line_start []) tt)
      = Some (Ret tt, w')
    ∧ source_has (f_in w') [] ∧ sink_has (f_out w') [str "hi"; str "there"])
  ∧ ∃ w', FilterLoop (E:=unit) default_funcs 2
      (fstart (length_start (length_frames [str "hi"; []; str "lost"])) (line_start []) tt)
      = Some (Ret tt, w')
    ∧ source_has (f_in w') [str "lost"] ∧ sink_has (f_out w') [str "hi"].
Proof.
  split.
  - destruct (filter_loop_relays (PI:=Length) (PO:=Line) (E:=unit) default_funcs (λ _ e, e)
      (fstart (length_start (length_frames [str "hi"; str "there"])) (line_start []) tt)
      [str "hi"; str "there"] [] [] tt 3) as (w' & HL & Hs & Ho & _).
    + exact default_observes.
    + apply fstart_point; [|reflexivity]. apply length_start_source.
      by apply (bool_decide_eq_true_1 _).
    + by apply (bool_decide_eq_true_1 _).
    + done.
    + cbn. lia.
    + exists w'. split; [exact HL|]. split; [exact Hs|exact Ho].
  - destruct (filter_loop_relays (PI:=Length) (PO:=Line) (E:=unit) default_funcs (λ _ e, e)
      (fstart (length_start (length_frames [str "hi"; []; str "lost"])) (line_start []) tt)
      [str "hi"] [[]; str "lost"] [] tt 2) as (w' & HL & Hs & Ho & _).
    + exact default_observes.
    + apply fstart_point; [|reflexivity]. apply length_start_source.
      by apply (bool_decide_eq_true_1 _).
    + by apply (bool_decide_eq_true_1 _).
    + by intros m rest' [= <- _] [].
    + cbn. lia.
    + exists w'. split; [exact HL|]. split; [exact Hs|exact Ho].
Defined.

(** The lines [a], [], [b]: only the first is copied. *)
Lemma line_filter_copies_witness :
  ∃ w, FilterLoop (E:=unit) default_funcs 9
         (fstart (line_start (str "a" ++ [LF; LF] ++ str "b")) (line_start []) tt)
       = Some (Ret tt, w)
    ∧ os_ptr_ (line_base (f_out w)) = ostream_of (str "a" ++ [LF]).
Proof.
  destruct (line_filter_copies (str "a" ++ [LF; LF] ++ str "b") 9) as (w & HL & _ & Hstop).
  - by apply (bool_decide_eq_true_1 _).
  - vm_compute. lia.
  - exists w. split; [exact HL|].
    apply (Hstop [str "a"] [str "b"]); [reflexivity|by apply (bool_decide_eq_true_1 _)].
Defined.

(** A line of 4096 characters. *)
Lemma line_too_long_ends_input_witness :
  gets 3 (msg_of []) (line_start (replicate 4096 "x"%char ++ str "more")) = replicate 3 (Ret false).
Proof.
  apply (line_too_long_ends_input _ _ (replicate 4096 "x"%char) (str "more") 3).
  - apply good_at_istream_of.
  - intros [? _]%elem_of_replicate. done.
  - unfold zlen. rewrite length_replicate. reflexivity.
  - exact msg_of_wf.
Defined.

Lemma length_put_get_witness :
  ∃ out b' st,
    Length_Put (msg_of (str "hello")) (mkBase (istream_of []) (ostream_of []))
    = (Ret (true, msg_of (str "hello")), mkBase (istream_of []) (ostream_of out))
    ∧ Length_Get (msg_of []) (mkBase (istream_of (out ++ str "tail")) (ostream_of []))
      = (Ret (true, b'), mkBase st (ostream_of [])) ∧ holds b' (str "hello").
Proof.
  destruct (length_put_get (msg_of (str "hello")) (msg_of []) (mkBase (istream_of []) (ostream_of []))
    (str "hello") [] (str "tail")) as (out & b' & st & HP & HG & Hh & _).
  - by apply holds_msg_of_b.
  - done.
  - reflexivity.
  - exact msg_of_wf.
  - exists out, b', st. split; [exact HP|]. split; [exact HG|exact Hh].
Defined.

Lemma length_header_unchecked_witness :
  (Length_Get (msg_of []) (mkBase (istream_of (str "-3 abc")) (ostream_of []))).1
  = Undef NegativeCount.
Proof.
  apply (proj1 (length_header_unchecked (msg_of [])
    (mkBase (istream_of (str "-3 abc")) (ostream_of [])) 3 (str "abc") msg_of_wf)).
  - unfold INT_MIN. lia.
  - apply good_at_istream_of.
Defined.

Lemma string_send_get_witness :
  send_all [str "foo,enqueue,3"; str "bar,drop,1"] (msg_of []) String_init
  = [str "foo,enqueue,3"; str "bar,drop,1"].
Proof.
  apply (proj1 (string_send_get _ (msg_of []) String_init msg_of_wf)).
  - done.
  - by apply (bool_decide_eq_true_1 _).
Defined.

Lemma string_receive_dangles_witness :
  ∃ s', (let* _ := Send (str "hello") in Receive) String_init = (Ret (Expired (str "hello")), s').
Proof.
  destruct (string_receive_dangles (str "hello") String_init) as (o & s' & HR & r & -> & -> & _).
  - done.
  - unfold INT_MAX. vm_compute. done.
  - exists s'. exact HR.
Defined.

Lemma output_failure_unreported_witness :
  let p := mkBase (istream_of []) (mkOstream (sb_of []) true) in
  Line_Put (msg_of (str "lost")) p = (Ret (true, msg_of (str "lost")), p)
  ∧ Length_Put (msg_of (str "lost")) p = (Ret (true, msg_of (str "lost")), p).
Proof.
  intros p. apply (output_failure_unreported _ p (str "lost")).
  - by apply holds_msg_of_b.
  - done.
  - reflexivity.
Defined.
