(* ===== verification/Listen.v ===== *)
(** * Listen: the start of the subscriber, [run_sub] of [sub.cpp]

    Before its accept loop the subscriber makes a listening socket, asks the
    system for the port it got, and announces host and port in the shared
    directory.  The calls on the socket are parameters. *)

From S2P Require Import Prelude Text Logger Util Tcp SubDir.

(** ** The host *)

(** [fcntl] with [F_GETFL] and [F_SETFL], [bind] and [listen]. *)
Class ListenOps (N : Type) := {
  sys_getfl : Z → N → Z;
  sys_setfl : Z → Z → N → Z * N;
  sys_bind : Z → sockaddr_in → N → Z * N;
  sys_listen : Z → Z → N → Z * N }.

(** The flag's bit. *)
Definition NONBLOCK_BIT : Z := 11.
Definition O_NONBLOCK : Z := Z.shiftl 1 NONBLOCK_BIT.

(** A new socket blocks; the flag is what it was last set to.  [bind] gives the
    socket its address, and a port where it was asked for none in particular, which
    [getsockname] reports; [listen] makes it one that takes connections. *)
Class ListenLaws (N : Type) `{SocketOps N} `{ListenOps N} := {
  bound_to : Z → N → option sockaddr_in;
  listening : Z → N → bool;
  bind_binds fd a s r s' :
    sys_bind fd a s = (r, s') → r ≠ -1 → 0 ≤ sin_port a < 2 ^ 16 →
    ∃ p, (sin_port a ≠ 0 → p = sin_port a)
      ∧ bound_to fd s' = Some (mkSockaddr (sin_family a) p (s_addr a));
  listen_listens fd n s r s' :
    sys_listen fd n s = (r, s') → r ≠ -1 →
    listening fd s' = true ∧ bound_to fd s' = bound_to fd s;
  getsockname_bound fd a s : bound_to fd s = Some a → sys_getsockname fd s = a;
  bound_port fd a s : bound_to fd s = Some a → 0 ≤ sin_port a < 2 ^ 16;
  socket_blocks s fd s' : sys_socket s = (fd, s') → Z.testbit (sys_getfl fd s') NONBLOCK_BIT = false;
  setfl_sets fd fl s s' :
    sys_setfl fd fl s = (0, s') →
    Z.testbit (sys_getfl fd s') NONBLOCK_BIT = Z.testbit fl NONBLOCK_BIT;
  bind_keeps fd a s r s' : sys_bind fd a s = (r, s') → sys_getfl fd s' = sys_getfl fd s;
  listen_keeps fd n s r s' : sys_listen fd n s = (r, s') → sys_getfl fd s' = sys_getfl fd s }.

(** ** The code *)

Section listen.
Context {N F : Type} `{SocketOps N} `{ListenOps N} `{InetLib} `{HostLib} `{FsOps F}.

Record sub_host := mkSubHost { sh_net : N; sh_log : Logger; sh_fs : F }.

Definition set_sh_net (n : N) (s : sub_host) : sub_host := mkSubHost n (sh_log s) (sh_fs s).
Definition set_sh_log (l : Logger) (s : sub_host) : sub_host := mkSubHost (sh_net s) l (sh_fs s).
Definition set_sh_fs (f : F) (s : sub_host) : sub_host := mkSubHost (sh_net s) (sh_log s) f.

Definition on_net {A} (call : N → A * N) : comp sub_host A :=
  λ s, let '(r, n) := call (sh_net s) in (Ret r, set_sh_net n s).

Definition sub_logs (format : bytes) (args : list bytes) : comp sub_host unit :=
  λ s, zoom sh_log set_sh_log
         (match args with
          | [] => log_msg (sys_ctime (sh_net s)) format
          | _ => log (sys_ctime (sh_net s)) format args
          end) s.

(** The [assert] that makes the socket non-blocking: with [NDEBUG] its argument
    is not evaluated. *)
Definition set_nonblocking (ndebug : bool) (serv : Z) : comp sub_host unit :=
  let* s := cget in
  let opts := Z.lor (sys_getfl serv (sh_net s)) O_NONBLOCK in
  if ndebug then cret tt
  else
    let* r := on_net (sys_setfl serv opts) in
    if decide (r = 0) then cret tt else λ s, (AssertFailed, s).

(** [META_DIR] is [getenv("WISSBI_META_DIR")]; [port0] is what the parser's
    uninitialised port holds. *)
Definition meta_dir_of (META_DIR : option bytes) : bytes := default (str "/var/lib/wissbi") META_DIR.

(** The address bound is any port of any interface. *)
Definition bind_and_listen (port0 serv : Z) : comp sub_host unit :=
  let* serv_addr := clift (ConnectStringToSockaddr sys_endian port0 (str "0.0.0.0:0")) in
  let* bound := on_net (sys_bind serv serv_addr) in
  if decide (bound = -1) then
    let* _ := sub_logs (str "bind error") [] in cthrow (str "bind error")
  else
    let* listening := on_net (sys_listen serv 10) in
    if decide (listening = -1) then
      let* _ := sub_logs (str "listen error") [] in cthrow (str "listen error")
    else cret tt.

Definition open_listener (ndebug : bool) (port0 : Z) : comp sub_host Z :=
  let* serv := on_net sys_socket in
  let* _ := set_nonblocking ndebug serv in
  let* _ := bind_and_listen port0 serv in
  cret serv.

(** The string in [tmp]. *)
Definition announced_as (host : bytes) (serv_addr : sockaddr_in) : bytes :=
  host ++ str ":" ++ dec (ntohs sys_endian (sin_port serv_addr)).

Definition run_sub_open (ndebug : bool) (port0 : Z) (META_DIR : option bytes) (src : bytes)
    (topic_mode : bool) : comp sub_host (Z * SubEntry) :=
  let* serv := open_listener ndebug port0 in
  let* s := cget in
  let serv_addr := sys_getsockname serv (sh_net s) in
  let* _ := sub_logs (str "wissbi-sub is listening on port {}")
              [dec (ntohs sys_endian (sin_port serv_addr))] in
  let* host := clift GetHostIP in
  let* sub_entry := zoom sh_fs set_sh_fs
    (SubEntry_new (meta_dir_of META_DIR) src (announced_as host serv_addr) topic_mode) in
  cret (serv, sub_entry).

(** ** Lemmas *)

(** The logger is free and [ctime] ends its line. *)
Definition can_log (s : sub_host) : Prop :=
  log_locked (sh_log s) = false
  ∧ ∀ n : N, ∃ now, sys_ctime n = now ++ [LF] ∧ zlen now < 2 ^ 63.

Lemma sub_logs_msg msg s :
  can_log s → ∃ l, sub_logs msg [] s = (Ret tt, set_sh_log l s) ∧ log_locked l = false.
Proof.
  intros [Hl Ht]. destruct (Ht (sh_net s)) as (now & Hn & Hb).
  unfold sub_logs, zoom, log_msg, log_lock, log_unlock, cerr_write, cbind, clift, cmodify.
  rewrite Hl, Hn, time_prefix_line by done. cbn. eauto.
Qed.

Lemma sub_logs_one a s :
  can_log s → ∃ l, sub_logs (str "wissbi-sub is listening on port {}") [a] s
                   = (Ret tt, set_sh_log l s) ∧ log_locked l = false.
Proof.
  intros [Hl Ht]. destruct (Ht (sh_net s)) as (now & Hn & Hb).
  unfold sub_logs. erewrite zoom_eq.
  2:{ rewrite Hn, log_eq by (done || by apply (bool_decide_eq_true_1 _)).
      change (format_segments (str "wissbi-sub is listening on port {}"))
        with [str "wissbi-sub is listening on port "; []]. reflexivity. }
  eauto.
Qed.

(** An announced address has no separator in it. *)
Lemma announced_ok `{!InetLaws} a addr :
  0 ≤ a < 2 ^ 32 → 0 ≤ sin_port addr < 2 ^ 16 → addr_ok (announced_as (inet_ntoa a) addr).
Proof.
  intros Ha Hp. pose proof (inet_ntoa_chars a Ha) as Hc.
  assert (Hd : 0 ≤ ntohs sys_endian (sin_port addr)).
  { pose proof (htons_range sys_endian (sin_port addr)). unfold ntohs. lia. }
  assert (Hno : ∀ c, isdigit c = false → c ≠ "."%char → c ≠ ":"%char →
            c ∉ announced_as (inet_ntoa a) addr).
  { intros c Hd1 Hd2 Hd3. unfold announced_as. rewrite !elem_of_app.
    intros [Hin|[Hin|Hin]].
    - rewrite Forall_forall in Hc. destruct (Hc _ Hin); congruence.
    - apply list_elem_of_singleton in Hin. congruence.
    - by apply (dec_not_in _ c Hd Hd1). }
  split; [|split]; by apply Hno.
Qed.

Lemma announced_parses `{!InetLaws} e port0 a addr :
  0 ≤ a < 2 ^ 32 → 0 ≤ sin_port addr < 2 ^ 16 →
  ConnectStringToSockaddr e port0 (announced_as (inet_ntoa a) addr)
  = Ret (mkSockaddr AF_INET (htons e (ntohs sys_endian (sin_port addr))) a).
Proof.
  intros Ha Hp. unfold announced_as. pose proof (htons_range sys_endian (sin_port addr)).
  by rewrite connect_string_parse by (unfold INT_MAX, ntohs; lia).
Qed.

(** *** The listener *)

Lemma any_address e port0 :
  ConnectStringToSockaddr e port0 (str "0.0.0.0:0")
  = Ret (mkSockaddr AF_INET (htons e 0) (inet_addr (str "0.0.0.0"))).
Proof. reflexivity. Qed.

(** Whether a socket of the host blocks. *)
Definition nonblocking (serv : Z) (s : sub_host) : bool :=
  Z.testbit (sys_getfl serv (sh_net s)) NONBLOCK_BIT.

Section cases.
Context `{!ListenLaws N}.

Lemma set_nonblocking_cases ndebug serv s o s' :
  set_nonblocking ndebug serv s = (o, s') →
  sh_fs s' = sh_fs s ∧ sh_log s' = sh_log s
  ∧ match o with
    | Ret _ => nonblocking serv s' = nonblocking serv s || negb ndebug
    | AssertFailed => ndebug = false
    | _ => False
    end.
Proof.
  unfold set_nonblocking, cbind, cget, on_net. destruct ndebug.
  - intros [= <- <-]. by rewrite orb_false_r.
  - destruct (sys_setfl _ _ _) as [r n] eqn:Es. case_decide as Hr; intros [= <- <-]; [|done].
    subst r. split; [done|]. split; [done|]. unfold nonblocking. cbn [sh_net set_sh_net].
    rewrite (setfl_sets _ _ _ _ Es), Z.lor_spec. f_equal.
Qed.

(** The socket takes connections at its address, on every interface. *)
Definition listens (serv : Z) (s : sub_host) : Prop :=
  let name := sys_getsockname serv (sh_net s) in
  listening serv (sh_net s) = true ∧ bound_to serv (sh_net s) = Some name
  ∧ sin_family name = AF_INET ∧ s_addr name = inet_addr (str "0.0.0.0").

Lemma bind_and_listen_cases port0 serv s o s' :
  can_log s → bind_and_listen port0 serv s = (o, s') →
  sh_fs s' = sh_fs s ∧ nonblocking serv s' = nonblocking serv s
  ∧ match o with
    | Ret _ => sh_log s' = sh_log s ∧ listens serv s'
    | Throw m => m = str "bind error" ∨ m = str "listen error"
    | _ => False
    end.
Proof.
  intros [Hl Ht] Hb. unfold bind_and_listen, cbind, clift, on_net in Hb. rewrite any_address in Hb.
  destruct (sys_bind _ _ _) as [r1 n1] eqn:E1. pose proof (bind_binds _ _ _ _ _ E1) as B1. apply bind_keeps in E1.
  case_decide.
  { destruct (sub_logs_msg (str "bind error") (set_sh_net n1 s)) as (l & HL & _); [by split|].
    rewrite HL in Hb. injection Hb as <- <-. unfold nonblocking. cbn. by rewrite E1; auto. }
  destruct (sys_listen _ _ _) as [r2 n2] eqn:E2. pose proof (listen_listens _ _ _ _ _ E2) as B2.
  apply listen_keeps in E2. cbn in E2.
  case_decide.
  { destruct (sub_logs_msg (str "listen error") (set_sh_net n2 (set_sh_net n1 s))) as (l & HL & _);
      [by split|].
    rewrite HL in Hb. injection Hb as <- <-. unfold nonblocking. cbn. by rewrite E2, E1; auto. }
  injection Hb as <- <-. unfold nonblocking. cbn. split; [done|]. split; [by rewrite E2, E1|].
  split; [done|]. unfold listens. cbn [sh_net set_sh_net].
  destruct (B1 ltac:(done) (htons_range _ _)) as (p & _ & Hb1). destruct (B2 ltac:(done)) as [Hl2 Hb2]. cbn in Hb2.
  rewrite Hb1 in Hb2. rewrite (getsockname_bound _ _ _ Hb2). done.
Qed.

(** What the opening of the listener can end in. *)
Lemma open_listener_cases ndebug port0 s o s' :
  can_log s → open_listener ndebug port0 s = (o, s') →
  sh_fs s' = sh_fs s
  ∧ match o with
    | Ret serv => can_log s' ∧ nonblocking serv s' = negb ndebug ∧ listens serv s'
    | Throw m => m = str "bind error" ∨ m = str "listen error"
    | AssertFailed => ndebug = false
    | Undef _ | Waits => False
    end.
Proof.
  intros [Hl Ht] Ho. unfold open_listener, cbind, on_net in Ho.
  destruct (sys_socket (sh_net s)) as [serv n1] eqn:E1. apply socket_blocks in E1.
  destruct (set_nonblocking ndebug serv (set_sh_net n1 s)) as [o2 s2] eqn:E2.
  apply set_nonblocking_cases in E2 as (Hf2 & Hl2 & Hc2). cbn in Hf2, Hl2.
  destruct o2; try done; [|by injection Ho as <- <-].
  destruct (bind_and_listen port0 serv s2) as [o3 s3] eqn:E3.
  assert (Hc : can_log s2) by (split; [congruence|done]).
  apply bind_and_listen_cases in E3 as (Hf3 & Hn3 & Hc3); [|done].
  destruct o3; try done; injection Ho as <- <-; [|by split; [congruence|]]. destruct Hc3 as [Hlg3 Hls3].
  split; [congruence|]. split; [split; [congruence|done]|]. split; [|done].
  rewrite Hn3, Hc2. unfold nonblocking. cbn [sh_net set_sh_net]. by rewrite E1.
Qed.

End cases.

End listen.

Arguments sub_host : clear implicits.

(** ** Properties *)

(** C11: a subscriber whose start returns is listening, on every interface, at the
    port the system gave it, on a socket that does not
    block unless [NDEBUG] dropped the [assert] that sets it up, and is listed to the
    publishers of its source under a string that every publisher, of either byte
    order, reads as the subscriber's own address and port.  A start that fails on
    [bind] or [listen], or on the [assert], has announced nothing. *)
Theorem sub_announces_its_port {N F} `{SocketOps N} `{!ListenOps N} `{!ListenLaws N} `{InetLib}
    `{!InetLaws} `{HostLib} `{FsOps F} `{!FsLaws F} ndebug port0 META_DIR src topic a
    (s s' : sub_host N F) o :
  can_log s → "#"%char ∉ src → getaddrinfo gethostname = Some a → 0 ≤ a < 2 ^ 32 →
  run_sub_open ndebug port0 META_DIR src topic s = (o, s') →
  match o with
  | Ret (serv, _) =>
      let name := sys_getsockname serv (sh_net s') in
      let conn_str := announced_as (inet_ntoa a) name in
      listening serv (sh_net s') = true ∧ bound_to serv (sh_net s') = Some name
      ∧ s_addr name = inet_addr (str "0.0.0.0")
      ∧ nonblocking serv s' = negb ndebug
      ∧ (∃ ts, GetSubList (mkSubDir (meta_dir_of META_DIR) src) (sh_fs s') = Ret ts
               ∧ (conn_str, destination src conn_str topic) ∈ ts)
      ∧ ∀ e port0', ConnectStringToSockaddr e port0' conn_str
          = Ret (mkSockaddr AF_INET (htons e (ntohs sys_endian (sin_port name))) a)
  | Throw m =>
      (m = str "bind error" ∨ m = str "listen error") ∧ sh_fs s' = sh_fs s
      ∨ ∃ node, m = str "Cannot create subscriber entry at " ++ node
                ∨ m = str "Cannot update subscriber entry at " ++ node
  | AssertFailed => ndebug = false ∧ sh_fs s' = sh_fs s
  | Undef u => src = [] ∧ u = BeforeBegin
  | Waits => False
  end.
Proof.
  intros Hlog Hq Hh Ha Hr. unfold run_sub_open, cbind, cget in Hr.
  destruct (open_listener ndebug port0 s) as [o1 s1] eqn:E1.
  apply open_listener_cases in E1 as [Hf1 Hc1]; [|done].
  destruct o1 as [serv|m1| |u1|]; try done; [|by injection Hr as <- <-; auto..].
  destruct Hc1 as (Hlog1 & Hnb & Hls).
  destruct (sub_logs_one (dec (ntohs sys_endian (sin_port (sys_getsockname serv (sh_net s1))))) s1 Hlog1)
    as (l & HL & _).
  rewrite HL in Hr. unfold clift, GetHostIP in Hr. rewrite Hh in Hr. unfold zoom in Hr.
  cbn [sh_fs set_sh_log] in Hr.
  destruct (SubEntry_new _ _ _ _ (sh_fs s1)) as [o2 f2] eqn:E2.
  destruct Hls as (Hl1 & Hl2 & _ & Hl3). pose proof (bound_port _ _ _ Hl2) as Hport.
  apply SubEntry_new_cases in E2; [|by apply announced_ok|done].
  destruct o2 as [e|m2| |u2|]; injection Hr as <- <-.
  - cbn [sh_net sh_fs set_sh_fs set_sh_log]. do 5 (split; [done|]).
    intros e' p'. by apply announced_parses.
  - destruct E2 as (esc & _ & [->|[-> _]]); eauto.
  - done.
  - by destruct E2 as (-> & -> & _).
  - done.
Qed.

(** ** Witness *)

Import DottedQuad SimFs PipeHost.

(** A host whose socket calls succeed; it gives out port 4000. *)
Module ListenHost.

Record host := mkHost { h_flags : Z; h_bound : option sockaddr_in; h_listening : bool }.

Definition h_bound_to (s : host) : option sockaddr_in :=
  (λ a, mkSockaddr (sin_family a) (wrap 16 (sin_port a)) (s_addr a)) <$> h_bound s.

#[export] Instance socket_ops : SocketOps host := {
  sys_endian := LittleEndian;
  sys_socket s := (3, mkHost 2 None false);
  sys_close _ s := s;
  sys_connect _ _ s := (0, s);
  sys_read _ _ s := (Some [], s);
  sys_write _ d s := (Some (Pos.of_nat (length d)), s);
  sys_getsockname _ s := default (mkSockaddr AF_INET 0 0) (h_bound_to s);
  sys_strerror _ := [];
  sys_ctime _ := str "now" ++ [LF] }.

#[export] Instance listen_ops : ListenOps host := {
  sys_getfl _ s := h_flags s;
  sys_setfl _ fl s := (0, mkHost fl (h_bound s) (h_listening s));
  sys_bind _ a s :=
    let p := if decide (sin_port a = 0) then htons LittleEndian 4000 else sin_port a in
    (0, mkHost (h_flags s) (Some (mkSockaddr (sin_family a) p (s_addr a))) (h_listening s));
  sys_listen _ _ s := (0, mkHost (h_flags s) (h_bound s) true) }.

#[export, refine] Instance laws : ListenLaws host := {
  bound_to _ := h_bound_to; listening _ := h_listening }.
Proof.
  - intros fd a s r s' [= <- <-] _ Hp. eexists. split; [|reflexivity].
    intros. rewrite decide_False by done. by apply wrap_small.
  - by intros fd n s r s' [= <- <-] _.
  - intros fd a s E. cbn. by rewrite E.
  - intros fd a s E. unfold h_bound_to in E. destruct (h_bound s); cbn in E; simplify_eq. cbn -[wrap].
    by apply wrap_range.
  - by intros s fd s' [= <- <-].
  - by intros fd fl s s' [= <-].
  - by intros fd a s r s' [= <- <-].
  - by intros fd n s r s' [= <- <-].
Defined.

#[export] Instance host_lib : HostLib := {
  gethostname := str "sub"; getaddrinfo _ := Some (inet_addr (str "10.0.0.9")) }.

End ListenHost.

Import ListenHost.

Definition listen_start : sub_host host (list (bytes * list bytes)) :=
  mkSubHost (mkHost 0 None false) Logger_init [].

Definition listen_done : sub_host host (list (bytes * list bytes)) :=
  snd (run_sub_open false 7 None (str "foo/bar") false listen_start).

Definition listen_entry : SubEntry :=
  mkSubEntry (str "/var/lib/wissbi") (str "foo/bar")
    (str "/var/lib/wissbi/sub/foo/bar/10.0.0.9:4000,foo#bar") (str "10.0.0.9:4000").

Lemma sub_announces_its_port_witness :
  listening 3 (sh_net listen_done) = true ∧ nonblocking 3 listen_done = true
  ∧ ∃ ts, GetSubList (mkSubDir (str "/var/lib/wissbi") (str "foo/bar")) (sh_fs listen_done) = Ret ts
    ∧ (str "10.0.0.9:4000", str "foo/bar") ∈ ts.
Proof.
  destruct (sub_announces_its_port false 7 None (str "foo/bar") false (inet_addr (str "10.0.0.9"))
           listen_start listen_done (Ret (3, listen_entry))) as (Hl & _ & _ & Hn & Ht & _).
  - split; [reflexivity|]. intros n. exists (str "now"). split; reflexivity.
  - by apply (bool_decide_eq_true_1 _).
  - reflexivity.
  - split; [by apply (bool_decide_eq_true_1 _)|reflexivity].
  - vm_compute. reflexivity.
  - split; [exact Hl|]. split; [exact Hn|]. exact Ht.
Defined.
