(* ===== verification/Sub.v ===== *)
(** * Sub: the subscriber, [sub.cpp]

    The accept loop of [run_sub] keeps the subscriber announced and starts a
    consumer for every publisher that connects; a consumer is a
    [MsgFilter<TCP, SysvMq>] over the accepted socket, and the output thread a
    [MsgFilter<SysvMq, Line>] or [<SysvMq, Length>] over the same queue.  [Listen]
    has what comes before. *)

From S2P Require Import Prelude Text MsgBuf IOStream MsgFilter Line Util Tcp SysvMq SubDir Listen.

(** ** The accept loop *)

(** The two options set on an accepted socket: a time limit for receiving, in
    seconds and microseconds, and lingering, whether and for how long. *)
Inductive sockopt := SO_RCVTIMEO (tv_sec tv_usec : Z) | SO_LINGER (l_onoff l_linger : Z).

Class AcceptOps (N : Type) := { sys_setsockopt : Z → sockopt → N → Z * N }.

(** Flags and options of an open socket are what they were last set to. *)
Class AcceptLaws (N : Type) `{ListenOps N} `{AcceptOps N} := {
  fd_open : Z → N → Prop;
  rcvtimeo_of : Z → N → Z * Z;
  linger_of : Z → N → Z * Z;
  setfl_open fd fl s : fd_open fd s →
    ∃ s', sys_setfl fd fl s = (0, s') ∧ fd_open fd s'
      ∧ Z.testbit (sys_getfl fd s') NONBLOCK_BIT = Z.testbit fl NONBLOCK_BIT;
  setsockopt_open fd o s : fd_open fd s →
    ∃ s', sys_setsockopt fd o s = (0, s') ∧ fd_open fd s' ∧ sys_getfl fd s' = sys_getfl fd s
      ∧ rcvtimeo_of fd s' = match o with SO_RCVTIMEO t u => (t, u) | _ => rcvtimeo_of fd s end
      ∧ linger_of fd s' = match o with SO_LINGER b t => (b, t) | _ => linger_of fd s end }.

Section accept.
Context {F N : Type} `{FsOps F} `{ListenOps N} `{AcceptOps N}.

(** What [poll] and [accept] gave in one round: nothing, or a result of [accept],
    the peer's address and the host as it is then. *)
Inductive poll_result := PollNothing | PollReady (res : Z) (other_addr : sockaddr_in) (host : N).

(** The file system, the host, the accepted sockets that have a consumer, in
    order, each with the host when its thread was started, and what was logged
    about them. *)
Record sub_state := mkSub {
  sub_fs : F; sub_net : N; consumers : list (Z * N); sub_log : list sockaddr_in }.

Definition set_fs (f : F) (s : sub_state) : sub_state := mkSub f (sub_net s) (consumers s) (sub_log s).
Definition set_net (n : N) (s : sub_state) : sub_state := mkSub (sub_fs s) n (consumers s) (sub_log s).

(** A call whose result the code ignores. *)
Definition net_call (call : N → Z * N) : comp sub_state unit :=
  cmodify (λ s, set_net (snd (call (sub_net s))) s).

(** The options of the accepted socket. *)
Definition accept_options (res : Z) : comp sub_state unit :=
  let* s := cget in
  let opts := Z.land (sys_getfl res (sub_net s)) (Z.lnot O_NONBLOCK) in
  let* _ := net_call (sys_setfl res opts) in
  let* _ := net_call (sys_setsockopt res (SO_RCVTIMEO 0 0)) in
  net_call (sys_setsockopt res (SO_LINGER 1 0)).

(** One round of [while (run)]. *)
Definition sub_round (sub_entry : SubEntry) (r : poll_result) : comp sub_state unit :=
  let* _ := zoom sub_fs set_fs (renew sub_entry) in
  match r with
  | PollNothing => cret tt
  | PollReady res other_addr host =>
      let* _ := cmodify (set_net host) in
      if decide (0 < res) then
        let* _ := cmodify (λ s,
          mkSub (sub_fs s) (sub_net s) (consumers s) (sub_log s ++ [other_addr])) in
        let* _ := accept_options res in
        cmodify (λ s, mkSub (sub_fs s) (sub_net s) (consumers s ++ [(res, sub_net s)]) (sub_log s))
      else cret tt
  end.

(** The rounds up to the one in which a signal clears [run]. *)
Fixpoint sub_loop (sub_entry : SubEntry) (rs : list poll_result) : comp sub_state unit :=
  match rs with
  | [] => cret tt
  | r :: rs' => let* _ := sub_round sub_entry r in sub_loop sub_entry rs'
  end.

(** The loop and the destructor of [sub_entry] at the end of [run_sub]; an
    exception of the loop leaves [main], so that no destructor need run. *)
Definition sub_session (sub_entry : SubEntry) (rs : list poll_result) : comp sub_state unit :=
  let* _ := sub_loop sub_entry rs in
  zoom sub_fs set_fs (SubEntry_destroy sub_entry).

(** *** Lemmas *)

(** The sockets of the rounds that gave one. *)
Definition accepted_socks (rs : list poll_result) : list Z :=
  omap (λ r, match r with PollReady res _ _ => if decide (0 < res) then Some res else None | _ => None end) rs.

Context `{!FsLaws F} `{!AcceptLaws N}.

(** What a consumer expects of its socket: it waits for data, for as long as it
    takes, and when it is closed what is unsent is dropped. *)
Definition ready_socket (c : Z * N) : Prop :=
  Z.testbit (sys_getfl c.1 c.2) NONBLOCK_BIT = false
  ∧ rcvtimeo_of c.1 c.2 = (0, 0) ∧ linger_of c.1 c.2 = (1, 0).

(** [accept] returns an open socket. *)
Definition accept_gives_open (r : poll_result) : Prop :=
  match r with PollReady res _ host => 0 < res → fd_open res host | PollNothing => True end.

Lemma accept_options_ok res s :
  fd_open res (sub_net s) →
  ∃ n, accept_options res s = (Ret tt, set_net n s) ∧ ready_socket (res, n).
Proof.
  intros Ho. unfold accept_options, cbind, cget, net_call, cmodify. cbn [sub_net set_net].
  destruct (setfl_open res (Z.land (sys_getfl res (sub_net s)) (Z.lnot O_NONBLOCK)) (sub_net s) Ho)
    as (n1 & -> & Ho1 & Hf1). cbn [snd].
  destruct (setsockopt_open res (SO_RCVTIMEO 0 0) n1 Ho1) as (n2 & -> & Ho2 & Hf2 & Hr2 & _). cbn [snd].
  destruct (setsockopt_open res (SO_LINGER 1 0) n2 Ho2) as (n3 & -> & _ & Hf3 & Hr3 & Hl3). cbn [snd].
  exists n3. split; [done|]. unfold ready_socket. cbn [fst snd].
  rewrite Hf3, Hf2, Hf1, Hr3, Hr2, Hl3. split; [|done].
  rewrite Z.land_spec, Z.lnot_spec by (unfold NONBLOCK_BIT; lia). by rewrite andb_comm.
Qed.

Lemma sub_round_ok e r s s' :
  sub_round e r s = (Ret tt, s') → accept_gives_open r →
  renew e (sub_fs s) = (Ret tt, sub_fs s')
  ∧ ∃ cs, consumers s' = consumers s ++ cs ∧ cs.*1 = accepted_socks [r] ∧ Forall ready_socket cs.
Proof.
  unfold sub_round, cbind at 1, zoom. destruct (renew e (sub_fs s)) as [[[]| | | |] f]; try done.
  destruct r as [|res addr n]; cbn [accept_gives_open]; intros Hs Ho.
  { injection Hs as <-. split; [done|]. exists []. by rewrite app_nil_r. }
  unfold cbind at 1, cmodify in Hs. cbn in Hs |- *. case_decide as Hp.
  - unfold cbind at 1 in Hs.
    destruct (accept_options_ok res (mkSub f n (consumers s) (sub_log s ++ [addr])) (Ho Hp))
      as (n' & HA & Hr).
    cbn [sub_fs sub_net consumers sub_log set_net set_fs] in Hs.
    rewrite (cbind_ret _ _ _ _ _ HA) in Hs. injection Hs as <-. split; [done|].
    exists [(res, n')]. split; [done|]. split; [|by apply Forall_singleton].
    unfold accepted_socks. cbn [omap list_omap]. by destruct (decide (0 < res)).
  - injection Hs as <-. split; [done|]. exists []. unfold accepted_socks. cbn [omap list_omap].
    rewrite app_nil_r. by destruct (decide (0 < res)).
Qed.

Lemma sub_loop_ok e dir name rs s s' :
  node_name_ e = in_dir dir name → "/"%char ∉ name → rs ≠ [] →
  sub_loop e rs s = (Ret tt, s') → Forall accept_gives_open rs →
  (∃ cs, consumers s' = consumers s ++ cs ∧ cs.*1 = accepted_socks rs ∧ Forall ready_socket cs)
  ∧ ∃ fs, fs_files dir (sub_fs s') = Some fs ∧ name ∈ fs.
Proof.
  intros Hn Hs Hne. revert s. induction rs as [|r rs IH]; intros s Hl Ho; [done|]. cbn [sub_loop] in Hl.
  inversion Ho as [|? ? Ho1 Ho2]; subst.
  unfold cbind in Hl. destruct (sub_round e r s) as [[[]| | | |] s1] eqn:Hr; try done.
  destruct (sub_round_ok e r s s1 Hr Ho1) as [Hrn (cs & Hc & Hcs & Hrd)].
  destruct rs as [|r' rs].
  - cbn in Hl. injection Hl as <-. split; [by exists cs|]. by eapply renew_ok.
  - destruct (IH ltac:(done) s1 Hl Ho2) as [(cs' & Hc' & Hcs' & Hrd') Hf]. split; [|done].
    exists (cs ++ cs'). rewrite Hc', Hc, <- app_assoc. split; [done|]. split; [|by apply Forall_app].
    rewrite fmap_app, Hcs, Hcs'. change (r :: r' :: rs) with ([r] ++ r' :: rs).
    unfold accepted_socks. by rewrite omap_app.
Qed.

End accept.

Arguments poll_result : clear implicits.
Arguments PollNothing {N}.
Arguments PollReady {N} res other_addr host.
Arguments sub_state : clear implicits.

(** ** A consumer *)

Section consumer.
Context {K N : Type} `{MqOps K} `{SocketOps N} `{InetLib}.

Definition consumer : Type := fstate (TCP N) (SysvMq K) unit.

Definition consumer_mq {A} (c : comp (SysvMq K) A) : comp consumer A :=
  zoom f_out (λ o w, mkFstate (f_in w) o (f_ext w) (msg_buf_ w)) c.
Definition consumer_tcp {A} (c : comp (TCP N) A) : comp consumer A :=
  zoom f_in (λ i w, mkFstate i (f_out w) (f_ext w) (msg_buf_ w)) c.

(** What the thread does before its loop; the queue has no name. *)
Definition consumer_open (ndebug : bool) (res : Z) : comp consumer unit :=
  let* _ := consumer_mq (mq_init ndebug []) in
  let* _ := consumer_mq (cmodify (set_cleanup false)) in
  consumer_tcp (AttachConnectedSock res).

Definition consumer_thread (ndebug : bool) (res : Z) (fuel : nat) (w : consumer)
  : option (outcome unit * consumer) :=
  match consumer_open ndebug res w with
  | (Ret _, w1) =>
      match FilterLoop default_funcs fuel w1 with
      | Some (Ret _, w2) =>
          Some ((let* _ := consumer_mq SysvMq_destroy in consumer_tcp TCP_close) w2)
      | r => r
      end
  | (Throw e, w1) => Some (Throw e, w1)
  | (AssertFailed, w1) => Some (AssertFailed, w1)
  | (Waits, w1) => Some (Waits, w1)
  | (Undef u, w1) => Some (Undef u, w1)
  end.

(** *** Lemmas *)

Context `{!MqLaws K} `{!StreamLaws N} (Hmax : MAX_MSG_SIZE ≤ sys_msgmax).

(** One message: it is queued, or the queue refuses it, or the consumer waits with
    it. *)
Lemma consumer_one (w : consumer) m ms q :
  source_has (f_in w) (m :: ms) → mq_fits (f_out w) q → wf_MsgBuf (msg_buf_ w) →
  (∃ r b1 o w', Filter default_funcs w = (Ret r, w') ∧ source_has (f_in w') ms ∧ wf_MsgBuf (msg_buf_ w')
    ∧ SysvMq_Put (msg_of m) (f_out w) = (Ret (r, b1), o) ∧ f_out w' = o
    ∧ mq_fits o (if r : bool then q ++ [m] else q))
  ∨ ∃ w', Filter default_funcs w = (Waits, w') ∧ source_has (f_in w') ms ∧ holds (msg_buf_ w') m
    ∧ SysvMq_Put (msg_of m) (f_out w) = (Waits, f_out w) ∧ f_out w' = f_out w.
Proof.
  intros Hsrc Hq Hwf.
  destruct (source_next _ _ _ _ Hsrc Hwf) as (b1 & i1 & HG & Hh1 & Hsrc1).
  pose proof (holds_bound _ _ Hh1) as Hb. pose proof (holds_msg_of m Hb) as Hm.
  destruct (SysvMq_Put_cases b1 m (f_out w) Hh1) as [[HP _]|(ok & o' & HP & Hd)];
    [rewrite (holds_len _ _ Hh1); lia| |].
  - right. eexists. split; [by eapply (Filter_put_waits default_funcs); [|exact HG|done|exact HP]|].
    cbn. split; [done|]. split; [done|]. split; [|done]. exact (SysvMq_Put_same_waits b1 _ m _ Hh1 Hm HP).
  - left. eexists ok, _, o', _.
    split; [by erewrite (Filter_put default_funcs); [|done|exact HG|done|exact HP]|].
    cbn. split; [done|]. split; [by apply wf_set_mtype, (holds_wf _ m)|].
    split; [by eapply SysvMq_Put_same; [exact Hh1|exact Hm|exact HP]|]. split; [done|].
    exact (put_done_fits m ok _ _ _ Hd Hq Hb).
Qed.

Lemma consumer_loop (w : consumer) ms q fuel n waits o :
  source_has (f_in w) ms → mq_fits (f_out w) q → wf_MsgBuf (msg_buf_ w) → (length ms < fuel)%nat →
  enqueue ms (f_out w) = (n, waits, o) →
  ∃ w', FilterLoop default_funcs fuel w = Some (if waits : bool then Waits else Ret tt, w') ∧ f_out w' = o
    ∧ (n ≤ length ms)%nat ∧ mq_fits o (q ++ take n ms) ∧ source_has (f_in w') (drop (S n) ms)
    ∧ (waits = true → ∃ m, ms !! n = Some m ∧ holds (msg_buf_ w') m).
Proof.
  revert w q fuel n. induction ms as [|m ms IH]; intros w q fuel n Hsrc Hq Hwf Hf He;
    (destruct fuel as [|fuel]; [cbn in Hf; lia|]); cbn [FilterLoop]; cbn [enqueue] in He.
  - injection He as <- <- <-. destruct (source_end _ _ Hsrc Hwf) as (b1 & i1 & HG & _ & _ & Hsrc1).
    erewrite (Filter_get_false default_funcs) by done.
    eexists _. split; [reflexivity|]. split; [done|]. split; [done|]. by rewrite app_nil_r.
  - destruct (consumer_one w m ms q Hsrc Hq Hwf)
      as [([] & b1 & o1 & w1 & HF & Hs1 & Hwf1 & HP & Ho & Hq1)|(w1 & HF & Hs1 & Hb1 & HP & Ho)];
      rewrite HF; rewrite HP in He.
    + destruct (enqueue ms o1) as [[n' waits'] o'] eqn:He'. injection He as <- <- <-. subst o1.
      destruct (IH w1 (q ++ [m]) fuel n' Hs1 Hq1 Hwf1) as (w' & HL & Ho & Hn & Hq' & Hs' & Hw');
        [cbn in Hf; lia|done|].
      exists w'. rewrite <- app_assoc in Hq'. split; [done|]. split; [done|]. split; [cbn; lia|]. done.
    + injection He as <- <- <-.
      exists w1. split; [done|]. split; [done|]. split; [cbn; lia|]. cbn [take drop]. by rewrite app_nil_r.
    + injection He as <- <- <-.
      exists w1. split; [done|]. split; [done|]. split; [cbn; lia|]. cbn [take drop]. rewrite app_nil_r.
      split; [done|]. split; [done|]. intros _. by exists m.
Qed.

(** With room for all of them every message is queued. *)
Lemma enqueue_room ms s q :
  mq_fits s q → Forall (λ m, zlen m ≤ MAX_MSG_SIZE) ms → has_room ms s →
  ∃ o, enqueue ms s = (length ms, false, o).
Proof.
  intros Hq Hf. revert s q Hq. induction Hf as [|m ms Hm Hms IH]; intros s q Hq Hr; [by eexists|].
  cbn [enqueue length].
  destruct (SysvMq_Put_room (msg_of m) m ms s) as (s' & -> & Hd & Hr');
    [by apply holds_msg_of|cbn; lia|done|by destruct Hq as [-> _]|].
  destruct (IH s' (q ++ [m])) as (o & ->); [exact (put_done_fits m true _ _ _ Hd Hq Hm)|done|].
  by exists o.
Qed.

End consumer.

(** ** The output thread *)

Section writer.
Context {K PO : Type} `{MqOps K} `{IOPolicy PO}.

(** [OutputWriter], a [MsgFilter<SysvMq, Line>] or [<SysvMq, Length>]. *)
Definition writer : Type := fstate (SysvMq K) PO unit.

(** [output_writer.mq_init("")]; the thread [auto_flush] starts is in [AutoFlush]. *)
Definition writer_open (ndebug : bool) : comp writer unit :=
  zoom f_in (λ i w, mkFstate i (f_out w) (f_ext w) (msg_buf_ w)) (mq_init ndebug []).

(** The thread, [output_writer.FilterLoop()]. *)
Definition writer_thread (fuel : nat) (w : writer) : option (outcome unit * writer) :=
  FilterLoop default_funcs fuel w.

(** *** Lemmas *)

Context `{!MqLaws K} `{!MessageSink PO}.

(** The queue has [q], the output [out]. *)
Record writing (w : writer) (q out : list bytes) : Prop := {
  wr_queue : mq_fits (f_in w) q;
  wr_out : sink_has (f_out w) out;
  wr_buf : wf_MsgBuf (msg_buf_ w) }.

(** The next message of the queue. *)
Lemma writer_get (w : writer) m q out :
  writing w (m :: q) out →
  ∃ b i, Get (msg_buf_ w) (f_in w) = (Ret (true, b), i) ∧ holds b m ∧ mq_fits i q.
Proof.
  intros [Hq _ Hwf].
  destruct (SysvMq_Get_head (msg_buf_ w) (f_in w) m q Hwf Hq) as (b & i & HG & Hb & _ & Hq' & _).
  by exists b, i.
Qed.

Lemma writer_one (w : writer) m q out :
  writing w (m :: q) out → sink_ok m →
  ∃ w', Filter default_funcs w = (Ret true, w') ∧ writing w' q (out ++ [m]).
Proof.
  intros Hw Hm. destruct (writer_get w m q out Hw) as (b & i & HG & Hh & Hq).
  destruct (sink_put _ _ _ _ (wr_out _ _ _ Hw) Hh Hm) as (b2 & o2 & HP & Hh2 & Ho2).
  eexists. split; [by erewrite (Filter_put default_funcs); [|done|exact HG|done|exact HP]|].
  split; cbn; eauto with wissbi.
Qed.

Lemma writer_refused (w : writer) m q out :
  writing w (m :: q) out → ¬ sink_ok m →
  ∃ w', Filter default_funcs w = (Ret false, w') ∧ writing w' q out.
Proof.
  intros Hw Hm. destruct (writer_get w m q out Hw) as (b & i & HG & Hh & Hq).
  destruct (sink_refuse _ _ _ _ (wr_out _ _ _ Hw) Hh Hm) as (b2 & o2 & HP & Hwf2 & Ho2).
  eexists. split; [by erewrite (Filter_put default_funcs); [|done|exact HG|done|exact HP]|].
  by split.
Qed.

Lemma writer_prefix (w : writer) ms rest out :
  writing w (ms ++ rest) out → Forall sink_ok ms →
  ∃ w', runs_to default_funcs (length ms) w w' ∧ writing w' rest (out ++ ms).
Proof.
  intros Hw Hok. revert w out Hw. induction Hok as [|m ms Hm Hms IH]; intros w out Hw.
  { exists w. rewrite app_nil_r. split; [apply runs_to_refl|done]. }
  destruct (writer_one w m (ms ++ rest) out Hw Hm) as (w1 & HF & Hw1).
  destruct (IH w1 _ Hw1) as (w2 & HL & Hw2).
  exists w2. split; [by eapply runs_to_step|]. by rewrite <- app_assoc in Hw2.
Qed.

End writer.

(** ** Properties *)

(** The output thread writes the messages of its queue in order, as many as its
    output accepts, and then works on what is left in the queue; the first message
    that its output refuses, such as an empty one, is lost and ends the thread, and
    what is behind it stays in the queue. *)
Theorem writer_outputs {K PO} `{MqOps K} `{!MqLaws K} `{MessageSink PO}
    (w : writer (K:=K) (PO:=PO)) ms rest out :
  writing w (ms ++ rest) out → Forall sink_ok ms →
  ∃ w', (∀ fuel, writer_thread (length ms + fuel) w = writer_thread fuel w')
    ∧ writing w' rest (out ++ ms)
    ∧ ∀ m rest' fuel, rest = m :: rest' → ¬ sink_ok m → (length ms < fuel)%nat →
      ∃ w'', writer_thread fuel w = Some (Ret tt, w'') ∧ writing w'' rest' (out ++ ms).
Proof.
  intros Hw Hok. destruct (writer_prefix w ms rest out Hw Hok) as (w' & HL & Hw').
  exists w'. split; [exact HL|]. split; [done|]. intros m rest' fuel -> Hm Hfuel.
  destruct (writer_refused w' m rest' _ Hw' Hm) as (w'' & HF & Hw'').
  exists w''. split; [|done]. by eapply runs_to_end.
Qed.

(** A consumer puts the messages of its connection on the queue exactly as a
    series of [Put]s does, up to the first that is refused or has to wait: the queue
    gets the messages before that one in order; the refused one is lost and the rest
    is never read; the one that waits is in the consumer's buffer; when there is
    none of these the connection is read to its end. *)
Theorem consumer_relays {K N} `{MqOps K} `{!MqLaws K} `{SocketOps N} `{!StreamLaws N} `{InetLib}
    (w : consumer (K:=K) (N:=N)) ms q fuel n waits o :
  MAX_MSG_SIZE ≤ sys_msgmax → source_has (f_in w) ms → mq_fits (f_out w) q →
  wf_MsgBuf (msg_buf_ w) → (length ms < fuel)%nat → enqueue ms (f_out w) = (n, waits, o) →
  ∃ w', FilterLoop default_funcs fuel w = Some (if waits : bool then Waits else Ret tt, w') ∧ f_out w' = o
    ∧ (n ≤ length ms)%nat ∧ mq_fits o (q ++ take n ms) ∧ source_has (f_in w') (drop (S n) ms)
    ∧ (waits = true → ∃ m, ms !! n = Some m ∧ holds (msg_buf_ w') m).
Proof. intros Hmax. by apply consumer_loop. Qed.

(** The accept loop gives every connection accepted with a positive descriptor
    a consumer, in order, and no other, on a socket that waits for data without a
    limit and drops what is unsent when it is closed; while it runs the subscriber
    is announced after every round, and when it ends in order the announcement is
    gone.  A descriptor of zero is dropped. *)
Theorem accept_loop_serves {F N} `{FsOps F} `{!FsLaws F} `{ListenOps N} `{!AcceptOps N} `{!AcceptLaws N}
    e dir name (rs : list (poll_result N)) (s s' : sub_state F N) :
  node_name_ e = in_dir dir name → "/"%char ∉ name → rs ≠ [] → Forall accept_gives_open rs →
  sub_loop e rs s = (Ret tt, s') →
  (∃ cs, consumers s' = consumers s ++ cs ∧ cs.*1 = accepted_socks rs ∧ Forall ready_socket cs)
  ∧ (∃ fs, fs_files dir (sub_fs s') = Some fs ∧ name ∈ fs)
  ∧ ∃ s'' fs, sub_session e rs s = (Ret tt, s'') ∧ consumers s'' = consumers s'
      ∧ fs_files dir (sub_fs s'') = Some fs ∧ name ∉ fs.
Proof.
  intros Hn Hs Hne Ho Hl.
  destruct (sub_loop_ok e dir name rs s s' Hn Hs Hne Hl Ho) as [Hc (fs & Hf & Hin)].
  split; [done|]. split; [eauto|].
  exists (set_fs (fs_unlink (node_name_ e) (sub_fs s')) s'), (fs ∖ {[name]}).
  split; [|split; [done|split; [|set_solver]]].
  - unfold sub_session. by rewrite (cbind_ret _ _ _ _ _ Hl).
  - cbn [sub_fs set_fs]. rewrite Hn. by apply unlink_deletes.
Qed.

(** ** Witnesses *)

Import SimKernel PipeHost DottedQuad SimFs.

Definition consumer_example (ms : list bytes) : consumer (K:=sim) (N:=pipe) :=
  mkFstate (mkTCP 3 (mkPipe (tcp_frames ms) [] []) Logger.Logger_init)
    (mkSysvMq 5 0 [] false 0 (mkSim ∅ {[5 := []]} 1)) tt (msg_of []).

Lemma consumer_example_source ms :
  bool_decide (Forall (λ m, zlen m ≤ MAX_MSG_SIZE) ms) = true →
  source_has (f_in (consumer_example ms)) ms.
Proof. intros Hf%bool_decide_eq_true. by split. Qed.

Lemma consumer_example_queue ms : mq_fits (f_out (consumer_example ms)) [].
Proof.
  split; [|constructor]. unfold mq_view. cbn. rewrite sim_queue_mk. by rewrite lookup_singleton_eq.
Qed.

(** The queue has room for one message. *)
Lemma consumer_relays_witness :
  let w := consumer_example [str "a"; str "b"; str "c"] in
  ∃ w', FilterLoop default_funcs 4 w = Some (Waits, w')
    ∧ mq_fits (f_out w') [str "a"] ∧ source_has (f_in w') [str "c"] ∧ holds (msg_buf_ w') (str "b").
Proof.
  intros w.
  destruct (consumer_relays w [str "a"; str "b"; str "c"] [] 4 1%nat true
              (snd (enqueue [str "a"; str "b"; str "c"] (f_out w)))) as (w' & HL & Ho & _ & Hq & Hs & Hb).
  - unfold MAX_MSG_SIZE. cbn. lia.
  - by apply consumer_example_source.
  - apply consumer_example_queue.
  - exact (holds_wf _ _ (holds_msg_of_b [] eq_refl)).
  - cbn. lia.
  - vm_compute. reflexivity.
  - exists w'. split; [exact HL|]. rewrite Ho. split; [exact Hq|]. split; [exact Hs|].
    destruct (Hb eq_refl) as (m & [= <-] & Hm). exact Hm.
Defined.

(** A host with one accepted socket, which inherited its flags. *)
Module AcceptHost.

Record host := mkHost { h_flags : Z; h_rcvtimeo : Z * Z; h_linger : Z * Z }.

#[export] Instance listen_ops : ListenOps host := {
  sys_getfl _ s := h_flags s;
  sys_setfl _ fl s := (0, mkHost fl (h_rcvtimeo s) (h_linger s));
  sys_bind _ _ s := (-1, s);
  sys_listen _ _ s := (-1, s) }.

#[export] Instance accept_ops : AcceptOps host := {
  sys_setsockopt _ o s :=
    (0, match o with
        | SO_RCVTIMEO t u => mkHost (h_flags s) (t, u) (h_linger s)
        | SO_LINGER b t => mkHost (h_flags s) (h_rcvtimeo s) (b, t)
        end) }.

#[export] Program Instance laws : AcceptLaws host := {|
  fd_open fd _ := 0 < fd; rcvtimeo_of _ := h_rcvtimeo; linger_of _ := h_linger |}.
Next Obligation. intros fd fl s Ho. by eexists. Qed.
Next Obligation. intros fd [t u|b t] s Ho; by eexists. Qed.

End AcceptHost.

Import AcceptHost.

Definition sub_example : sub_state (list (bytes * list bytes)) host :=
  mkSub (SubDirExamples.after SubDirExamples.addr1 false []) (mkHost 0 (0, 0) (0, 0)) [] [].

Lemma accept_loop_serves_witness :
  let h := mkHost (Z.lor O_NONBLOCK 2) (5, 0) (0, 0) in
  let rs := [PollNothing; PollReady 7 (mkSockaddr AF_INET 0 0) h; PollReady 0 (mkSockaddr AF_INET 0 0) h;
             PollReady (-1) (mkSockaddr AF_INET 0 0) h; PollReady 9 (mkSockaddr AF_INET 0 0) h] in
  ∃ cs, consumers (snd (sub_loop (SubDirExamples.entry SubDirExamples.addr1 false) rs sub_example)) = cs
    ∧ cs.*1 = [7; 9] ∧ Forall ready_socket cs.
Proof.
  intros h rs.
  destruct (accept_loop_serves (SubDirExamples.entry SubDirExamples.addr1 false)
    (queue_dir SubDirExamples.meta SubDirExamples.queue)
    (entry_name SubDirExamples.esc SubDirExamples.addr1 false) rs sub_example
    (snd (sub_loop (SubDirExamples.entry SubDirExamples.addr1 false) rs sub_example)))
    as ((cs & Hc & Hs & Hr) & _).
  - reflexivity.
  - by apply (bool_decide_eq_true_1 _).
  - done.
  - repeat constructor; cbn; try done; by intros.
  - vm_compute. reflexivity.
  - exists cs. split; [exact Hc|]. split; [exact Hs|exact Hr].
Defined.

(** A queue with an empty message in it, and lines for output. *)
Definition writer_example (q : list bytes) : writer (K:=sim) (PO:=Line) :=
  mkFstate (mkSysvMq 5 0 [] false 0 (mkSim ∅ {[5 := q]} 8)) (line_start []) tt (msg_of []).

Lemma writer_example_writing q :
  bool_decide (Forall (λ m, zlen m ≤ MAX_MSG_SIZE) q) = true → writing (writer_example q) q [].
Proof.
  intros Hf%bool_decide_eq_true. split; [split; [|done]|done|].
  - unfold mq_view. cbn. rewrite sim_queue_mk. by rewrite lookup_singleton_eq.
  - exact (holds_wf _ _ (holds_msg_of_b [] eq_refl)).
Qed.

Lemma writer_outputs_witness :
  ∃ w'', writer_thread 3 (writer_example [str "a"; str "b"; []; str "c"]) = Some (Ret tt, w'')
    ∧ os_ptr_ (line_base (f_out w'')) = ostream_of (str "a" ++ [LF] ++ str "b" ++ [LF])
    ∧ mq_fits (f_in w'') [str "c"].
Proof.
  destruct (writer_outputs (writer_example [str "a"; str "b"; []; str "c"])
              [str "a"; str "b"] [[]; str "c"] []) as (w' & _ & _ & Hend).
  - by apply writer_example_writing.
  - by apply (bool_decide_eq_true_1 (Forall (λ m : bytes, m ≠ []) [str "a"; str "b"])).
  - destruct (Hend [] [str "c"] 3%nat eq_refl) as (w'' & HL & [Hq Ho _]).
    + intros Hno. exact (Hno eq_refl).
    + cbn. lia.
    + exists w''. split; [exact HL|]. split; [exact Ho|exact Hq].
Defined.
