(* ===== verification/Count.v ===== *)
(** * Count: the program [wissbi-count], [count.cpp]

    A line-to-line filter that copies its input and prints, at most once a
    second, how many messages went by.  The clock and the formatting of a rate are
    parameters. *)

From S2P Require Import Prelude Text MsgBuf IOStream MsgFilter Line Relay.

Section count.
(** [clock n] is what the [n]-th call of [time(NULL)] returns; [show_rate c t] is
    [(float) c / t] printed with [fixed] and three digits. *)
Context (clock : nat → Z) (show_rate : Z → Z → bytes).

(** The variables the filter function captures, with the calls of [time] so far
    and what is on [cerr]; [reports] lists the rates printed. *)
Record count_vars := mkCount {
  last_update_ts : Z; count : Z; time_calls : nat;
  reports : list (Z * Z); count_cerr : bytes }.

Definition count_start : count_vars := mkCount (clock 0) 0 1 [] [].

(** The body of the filter function, [count++] apart. *)
Definition count_update (e : count_vars) : count_vars :=
  let count1 := count e + 1 in
  let current_ts := clock (time_calls e) in
  if decide (last_update_ts e < current_ts) then
    mkCount current_ts 0 (S (time_calls e))
      (reports e ++ [(count1, current_ts - last_update_ts e)])
      (count_cerr e ++ show_rate count1 (current_ts - last_update_ts e)
         ++ str " messages / sec" ++ [LF])
  else mkCount (last_update_ts e) count1 (S (time_calls e)) (reports e) (count_cerr e).

(** The filter function; [count] is an [int]. *)
Definition count_filter {PI PO} : comp (fstate PI PO count_vars) bool := λ w,
  if decide (INT_MAX < count (f_ext w) + 1) then (Undef SignedOverflow, w)
  else (Ret true, mkFstate (f_in w) (f_out w) (count_update (f_ext w)) (msg_buf_ w)).

Definition count_funcs {PI PO} : filter_funcs PI PO count_vars :=
  set_filter_func count_filter default_funcs.

(** [main]. *)
Definition count_main (fuel : nat) (input : bytes) : option (outcome unit * fstate Line Line count_vars) :=
  FilterLoop count_funcs fuel (fstart (line_start input) (line_start []) count_start).

(** ** Lemmas *)

Definition count_ok (e : count_vars) : Prop := count e < INT_MAX.

Lemma count_observes : observes_if (PI:=Line) (PO:=Line) count_ok count_funcs (λ _, count_update).
Proof.
  split; [done| |by intros []]. intros w m Hok _. cbn. unfold count_filter, count_ok in *.
  by rewrite decide_False by lia.
Qed.

Definition reported (e : count_vars) : Z := foldr (λ r a, fst r + a) 0 (reports e).
Definition elapsed (e : count_vars) : Z := foldr (λ r a, snd r + a) 0 (reports e).

Lemma foldr_snoc f (l : list (Z * Z)) x :
  foldr (λ r a, f r + a) 0 (l ++ [x]) = foldr (λ r a, f r + a) 0 l + f x.
Proof. induction l as [|y l IH]; cbn; [lia|]. rewrite IH. lia. Qed.

(** What every message keeps: each is counted once, and the intervals follow one
    another. *)
Record count_inv (n : Z) (e : count_vars) : Prop := {
  inv_messages : reported e + count e = n;
  inv_clock : elapsed e = last_update_ts e - clock 0;
  inv_positive : Forall (λ r, 0 < snd r) (reports e);
  inv_bound : 0 ≤ count e ≤ n }.

Lemma count_update_inv n e : count_inv n e → count_inv (n + 1) (count_update e).
Proof.
  intros [H1 H2 H3 H4]. unfold count_update. case_decide as Hd.
  - split; unfold reported, elapsed in *; cbn [reports count last_update_ts].
    + rewrite (foldr_snoc fst). cbn [fst]. lia.
    + rewrite (foldr_snoc snd). cbn [snd]. lia.
    + apply Forall_app. split; [done|]. constructor; [cbn; lia|done].
    + lia.
  - split; unfold reported, elapsed in *; cbn [reports count last_update_ts]; try done; lia.
Qed.

Lemma count_fold_inv (ms : list bytes) n e :
  count_inv n e → count_inv (n + zlen ms) (fold_left (λ e _, count_update e) ms e).
Proof.
  revert n e. induction ms as [|m ms IH]; intros n e Hi; cbn [fold_left].
  - by rewrite zlen_nil, Z.add_0_r.
  - rewrite zlen_cons, Z.add_assoc. apply IH. by apply count_update_inv.
Qed.

Lemma count_fold_oks (ms : list bytes) n e :
  count_inv n e → n + zlen ms ≤ INT_MAX → oks count_ok (λ _, count_update) ms e.
Proof.
  revert n e. induction ms as [|m ms IH]; intros n e Hi Hb; [done|].
  rewrite zlen_cons in Hb. pose proof (zlen_nonneg ms). split.
  - destruct Hi. unfold count_ok. lia.
  - apply (IH (n + 1)); [by apply count_update_inv|lia].
Qed.

Lemma count_start_inv : count_inv 0 count_start.
Proof. split; cbn; try done; lia. Qed.

End count.

(** ** Properties *)

(** The program copies its input, line for line, and returns; every message is
    counted in exactly one of the rates printed or in what is left over, and the
    intervals of the rates follow one another from the start of the program, each
    of them positive, so that no rate divides by zero. *)
Theorem count_copies_and_counts clock show_rate input fuel :
  Forall line_fits (split_lines input) → ([] : bytes) ∉ split_lines input →
  zlen (split_lines input) ≤ INT_MAX → (length (split_lines input) < fuel)%nat →
  ∃ w, count_main clock show_rate fuel input = Some (Ret tt, w)
    ∧ os_ptr_ (line_base (f_out w)) = ostream_of (unlines (split_lines input))
    ∧ reported (f_ext w) + count (f_ext w) = zlen (split_lines input)
    ∧ elapsed (f_ext w) = last_update_ts (f_ext w) - clock 0%nat
    ∧ Forall (λ r, 0 < snd r) (reports (f_ext w)).
Proof.
  intros Hf Hne Hb Hfuel.
  destruct (line_relay count_ok (count_funcs clock show_rate) (λ _, count_update clock show_rate) input
    (count_start clock) fuel) as (w & HL & Ho & He);
    [apply count_observes|done|done| |done|].
  { apply (count_fold_oks clock show_rate _ 0); [apply count_start_inv|lia]. }
  exists w. split; [exact HL|]. split; [done|]. rewrite He.
  destruct (count_fold_inv clock show_rate (split_lines input) 0 (count_start clock)
    (count_start_inv clock)) as [H1 H2 H3 _].
  rewrite Z.add_0_l in H1. done.
Qed.

(** Three lines, the clock moving before the third. *)
Lemma count_copies_and_counts_witness :
  let clock n := if decide (n < 3)%nat then 100 else 102 in
  ∃ w, count_main clock (λ c t, dec c ++ str "/" ++ dec t) 4
         (str "a" ++ [LF] ++ str "b" ++ [LF] ++ str "c" ++ [LF]) = Some (Ret tt, w)
    ∧ reported (f_ext w) + count (f_ext w) = 3.
Proof.
  intros clock.
  destruct (count_copies_and_counts clock (λ c t, dec c ++ str "/" ++ dec t)
    (str "a" ++ [LF] ++ str "b" ++ [LF] ++ str "c" ++ [LF]) 4) as (w & HL & _ & Hr & _).
  - by apply (bool_decide_eq_true_1 _).
  - by apply (bool_decide_eq_true_1 _).
  - by apply (bool_decide_eq_true_1 _).
  - vm_compute. lia.
  - exists w. split; [exact HL|exact Hr].
Defined.
