(* ===== verification/Record.v ===== *)
(** * Record: the program [wissbi-record], [record.cpp]

    A line-to-line filter that keeps the last messages in a deque, which a
    collector thread thins out by age and an exit handler writes to a file.  The
    clock is a parameter. *)

From Stdlib Require Import Sorting.Sorted.
From S2P Require Import Prelude Text MsgBuf IOStream MsgFilter Line Relay Config.

Section record.
(** [clock n] is what the [n]-th call of [currentTimeMillis] returns. *)
Context (clock : nat → Z).

(** The globals: the deque, oldest first, and whether [mq_mtx] is locked. *)
Record rec_vars := mkRec { mq : list (bytes * Z); mq_mtx : bool; clock_calls : nat }.

Definition rec_start : rec_vars := mkRec [] false 0.

Definition set_mq (q : list (bytes * Z)) (e : rec_vars) : rec_vars :=
  mkRec q (mq_mtx e) (clock_calls e).

(** ** The filter function *)

(** [mq_mtx.lock()] by the thread the model follows, which would wait for
    itself. *)
Definition rec_lock : comp rec_vars unit := λ e,
  if mq_mtx e then (Undef SelfDeadlock, e) else (Ret tt, mkRec (mq e) true (clock_calls e)).
Definition rec_unlock : comp rec_vars unit := cmodify (λ e, mkRec (mq e) false (clock_calls e)).

(** [if (max_num && mq.size() == max_num) mq.pop_front()]: the [int] is converted
    to the type of the size. *)
Definition rec_pop (max_num : Z) : comp rec_vars unit :=
  cmodify (λ e, if negb (bool_decide (max_num = 0)) && bool_decide (zlen (mq e) = size_wrap max_num)
                then set_mq (tail (mq e)) e else e).

Definition rec_push (m : bytes) : comp rec_vars unit :=
  cmodify (λ e, mkRec (mq e ++ [(m, clock (clock_calls e))]) (mq_mtx e) (S (clock_calls e))).

(** The statements of the function, for the message [m]. *)
Definition rec_statements (max_num : Z) (m : bytes) : list (comp rec_vars unit) :=
  [rec_lock; rec_pop max_num; rec_push m; rec_unlock].

Fixpoint run_statements (cs : list (comp rec_vars unit)) : comp rec_vars unit :=
  match cs with
  | [] => cret tt
  | c :: cs' => let* _ := c in run_statements cs'
  end.

Definition rec_message (max_num : Z) (m : bytes) : comp rec_vars unit :=
  run_statements (rec_statements max_num m).

Definition record_filter {PI PO} (max_num : Z) : comp (fstate PI PO rec_vars) bool := λ w,
  match load (msg_buf_ w) with
  | Ret m => let '(o, e) := rec_message max_num m (f_ext w) in
             (match o with
              | Ret _ => Ret true | Throw x => Throw x | AssertFailed => AssertFailed
              | Waits => Waits | Undef u => Undef u end, mkFstate (f_in w) (f_out w) e (msg_buf_ w))
  | Throw x => (Throw x, w) | AssertFailed => (AssertFailed, w) | Waits => (Waits, w)
  | Undef u => (Undef u, w)
  end.

Definition record_funcs {PI PO} (max_num : Z) : filter_funcs PI PO rec_vars :=
  set_filter_func (record_filter max_num) default_funcs.

(** ** The collector *)

(** The inner loop, on the deque; a call of the clock per test. *)
Fixpoint gc_loop (ttl : Z) (q : list (bytes * Z)) (calls : nat) : list (bytes * Z) * nat :=
  match q with
  | [] => ([], calls)
  | x :: q' => if decide (ttl < clock calls - snd x) then gc_loop ttl q' (S calls)
               else (q, S calls)
  end.

(** One round of [gc], under the lock. *)
Definition gc_round (ttl : Z) : comp rec_vars unit :=
  let* _ := rec_lock in
  let* _ := cmodify (λ e, let '(q, calls) := gc_loop ttl (mq e) (clock_calls e) in
                          mkRec q (mq_mtx e) calls) in
  rec_unlock.

(** ** The exit handler *)

(** What [dump_mq_and_exit] writes to its file. *)
Definition dump_mq : comp rec_vars bytes :=
  let* _ := rec_lock in
  let* e := cget in
  let* _ := rec_unlock in
  cret (unlines (map fst (mq e))).

(** A signal is handled on the main thread between two statements of the filter
    function, after the first [k] of them: [exit] runs the handler there. *)
Definition signal_during (max_num : Z) (m : bytes) (k : nat) : comp rec_vars bytes :=
  let* _ := run_statements (take k (rec_statements max_num m)) in dump_mq.

(** [main], up to its return, and the dump that follows. *)
Definition record_main (max_num : Z) (fuel : nat) (input : bytes)
  : option (outcome unit * fstate Line Line rec_vars) :=
  FilterLoop (record_funcs max_num) fuel (fstart (line_start input) (line_start []) rec_start).

(** ** Lemmas *)

(** A message recorded with the lock free. *)
Definition recorded (max_num : Z) (m : bytes) (e : rec_vars) : rec_vars :=
  mkRec ((if negb (bool_decide (max_num = 0)) && bool_decide (zlen (mq e) = size_wrap max_num)
          then tail (mq e) else mq e) ++ [(m, clock (clock_calls e))])
        false (S (clock_calls e)).

Lemma rec_message_eq max_num m e :
  mq_mtx e = false → rec_message max_num m e = (Ret tt, recorded max_num m e).
Proof.
  intros Hl. unfold rec_message, rec_statements. cbn [run_statements].
  unfold rec_lock, rec_pop, rec_push, rec_unlock, cbind, cmodify, cret. rewrite Hl. cbn.
  unfold recorded. by destruct (negb _ && _).
Qed.

Lemma record_observes max_num :
  observes_if (PI:=Line) (PO:=Line) (λ e, mq_mtx e = false) (record_funcs max_num) (recorded max_num).
Proof.
  split; [done| |by intros []]. intros w m Hl Hh. cbn. unfold record_filter.
  by rewrite (holds_load _ _ Hh), rec_message_eq.
Qed.

Lemma record_oks max_num ms e :
  mq_mtx e = false → oks (λ e, mq_mtx e = false) (recorded max_num) ms e.
Proof.
  revert e. induction ms as [|m ms IH]; intros e Hl; [done|]. split; [done|]. by apply IH.
Qed.

Lemma record_fold_unlocked max_num ms e :
  mq_mtx e = false → mq_mtx (fold_left (λ e m, recorded max_num m e) ms e) = false.
Proof. revert e. induction ms as [|m ms IH]; intros e He; [done|]. by apply IH. Qed.

(** The last [n] elements of a list. *)
Definition last_n {A} (n : nat) (l : list A) : list A := drop (length l - n) l.

Lemma tail_drop {A} k (l : list A) : tail (drop k l) = drop (S k) l.
Proof.
  revert k. induction l as [|x l IH]; intros [|k]; try done. cbn in *. apply IH.
Qed.

Lemma last_n_snoc {A} n (l : list A) x :
  (0 < n)%nat →
  last_n n (l ++ [x]) = (if decide (length (last_n n l) = n) then tail (last_n n l) else last_n n l) ++ [x].
Proof.
  intros Hn. unfold last_n. rewrite length_app, length_drop. cbn [length].
  destruct (decide _) as [He|He].
  - rewrite tail_drop, drop_app_le by lia. do 2 f_equal. lia.
  - rewrite drop_app_le by lia. do 2 f_equal. lia.
Qed.

(** Recording message after message with a positive bound keeps the last ones. *)
Lemma record_fold max_num ms e pre :
  0 < max_num ≤ INT_MAX → map fst (mq e) = last_n (Z.to_nat max_num) pre →
  map fst (mq (fold_left (λ e m, recorded max_num m e) ms e))
  = last_n (Z.to_nat max_num) (pre ++ ms).
Proof.
  intros Hmax. revert e pre. induction ms as [|m ms IH]; intros e pre He; cbn [fold_left].
  { by rewrite app_nil_r. }
  rewrite (IH _ (pre ++ [m])); [by rewrite <- app_assoc|].
  rewrite last_n_snoc, <- He, length_map by lia. unfold recorded. cbn [mq].
  rewrite bool_decide_false by lia. cbn [negb andb].
  unfold size_wrap. unfold INT_MAX in Hmax. rewrite wrap_small by lia.
  rewrite map_app. cbn. f_equal. unfold zlen.
  destruct (decide (length (mq e) = Z.to_nat max_num)) as [Hl|Hl].
  - rewrite bool_decide_true by lia. by destruct (mq e).
  - rewrite bool_decide_false by lia. done.
Qed.

Lemma record_fold_unbounded ms e :
  map fst (mq (fold_left (λ e m, recorded 0 m e) ms e)) = map fst (mq e) ++ ms.
Proof.
  revert e. induction ms as [|m ms IH]; intros e; cbn [fold_left]; [by rewrite app_nil_r|].
  rewrite IH. unfold recorded. cbn [mq]. rewrite bool_decide_true by done. cbn [negb andb].
  rewrite map_app, <- app_assoc. done.
Qed.

(** *** Messages and collector rounds in any order *)

Inductive rec_op := RMsg (m : bytes) | RGc.

Definition rec_step (max_num ttl : Z) (o : rec_op) : comp rec_vars unit :=
  match o with RMsg m => rec_message max_num m | RGc => gc_round ttl end.

Definition rec_steps (max_num ttl : Z) (os : list rec_op) : comp rec_vars unit :=
  run_statements (map (rec_step max_num ttl) os).

Definition collected (ttl : Z) (e : rec_vars) : rec_vars :=
  mkRec (gc_loop ttl (mq e) (clock_calls e)).1 false (gc_loop ttl (mq e) (clock_calls e)).2.

Lemma gc_round_eq ttl e : mq_mtx e = false → gc_round ttl e = (Ret tt, collected ttl e).
Proof.
  intros Hl. unfold gc_round, rec_lock, rec_unlock, cbind, cmodify. rewrite Hl. cbn.
  unfold collected. by destruct (gc_loop _ _ _).
Qed.

Definition rec_after (max_num ttl : Z) (o : rec_op) (e : rec_vars) : rec_vars :=
  match o with RMsg m => recorded max_num m e | RGc => collected ttl e end.

Lemma rec_steps_eq max_num ttl os e :
  mq_mtx e = false →
  rec_steps max_num ttl os e = (Ret tt, fold_left (λ e o, rec_after max_num ttl o e) os e).
Proof.
  revert e. induction os as [|o os IH]; intros e Hl; [done|].
  unfold rec_steps in *. cbn [map run_statements fold_left].
  assert (rec_step max_num ttl o e = (Ret tt, rec_after max_num ttl o e)) as He
    by (destruct o; [by apply rec_message_eq|by apply gc_round_eq]).
  rewrite (cbind_ret _ _ _ _ _ He). apply IH. by destruct o.
Qed.

Lemma rec_fold_unlocked max_num ttl os e :
  mq_mtx e = false → mq_mtx (fold_left (λ e o, rec_after max_num ttl o e) os e) = false.
Proof. revert e. induction os as [|o os IH]; intros e He; [done|]. apply IH. by destruct o. Qed.

(** Everything recorded, with its time. *)
Fixpoint history (max_num ttl : Z) (os : list rec_op) (e : rec_vars) : list (bytes * Z) :=
  match os with
  | [] => []
  | o :: os' =>
      match o with RMsg m => [(m, clock (clock_calls e))] | RGc => [] end
      ++ history max_num ttl os' (rec_after max_num ttl o e)
  end.

Lemma gc_loop_suffix ttl q calls : ∃ d, d ++ (gc_loop ttl q calls).1 = q.
Proof.
  revert calls. induction q as [|x q IH]; intros calls; cbn [gc_loop]; [by exists []|].
  case_decide; [|by exists []]. destruct (IH (S calls)) as [d Hd].
  exists (x :: d). cbn. by rewrite Hd.
Qed.

Lemma recorded_suffix max_num m e : ∃ d, d ++ mq (recorded max_num m e) = mq e ++ [(m, clock (clock_calls e))].
Proof.
  unfold recorded. cbn [mq]. destruct (negb _ && _); [|by exists []].
  destruct (mq e) as [|x q]; [by exists []|]. by exists [x].
Qed.

Lemma rec_history_suffix max_num ttl os e :
  ∃ d, d ++ mq (fold_left (λ e o, rec_after max_num ttl o e) os e)
       = mq e ++ history max_num ttl os e.
Proof.
  revert e. induction os as [|o os IH]; intros e; cbn [fold_left history].
  { exists []. by rewrite app_nil_r. }
  destruct (IH (rec_after max_num ttl o e)) as [d Hd]. rewrite app_assoc.
  destruct o as [m|]; cbn [rec_after] in *.
  - destruct (recorded_suffix max_num m e) as [d' Hd'].
    exists (d' ++ d). by rewrite <- app_assoc, Hd, app_assoc, Hd'.
  - destruct (gc_loop_suffix ttl (mq e) (clock_calls e)) as [d' Hd'].
    exists (d' ++ d). rewrite <- app_assoc, Hd, app_assoc. cbn [mq collected]. by rewrite Hd', app_nil_r.
Qed.

Lemma rec_bound max_num ttl os e :
  0 < max_num ≤ INT_MAX → zlen (mq e) ≤ max_num →
  zlen (mq (fold_left (λ e o, rec_after max_num ttl o e) os e)) ≤ max_num.
Proof.
  intros Hmax. revert e. induction os as [|o os IH]; intros e He; cbn [fold_left]; [done|].
  apply IH. destruct o as [m|]; cbn [rec_after].
  - unfold recorded. cbn [mq]. rewrite bool_decide_false by lia. cbn [negb andb].
    unfold size_wrap. unfold INT_MAX in Hmax. rewrite wrap_small by lia.
    rewrite zlen_app. change (zlen [_]) with 1. case_bool_decide as Hf; [|lia].
    destruct (mq e) as [|x q]; [rewrite zlen_nil in Hf; lia|].
    cbn [tail]. rewrite zlen_cons in Hf. lia.
  - destruct (gc_loop_suffix ttl (mq e) (clock_calls e)) as [d Hd]. cbn [mq collected].
    rewrite <- Hd, zlen_app in He. pose proof (zlen_nonneg d). lia.
Qed.

(** *** Time *)

(** The entries are in the order of their times, none from the future. *)
Definition timely (e : rec_vars) : Prop :=
  StronglySorted Z.le (map snd (mq e)) ∧ Forall (λ t, ∃ k, (k < clock_calls e)%nat ∧ t = clock k) (map snd (mq e)).

Context (Hclock : ∀ i j, (i ≤ j)%nat → clock i ≤ clock j).

Lemma sorted_suffix (d l : list Z) : StronglySorted Z.le (d ++ l) → StronglySorted Z.le l.
Proof. induction d as [|x d IH]; cbn; [done|]. intros Hs. inversion Hs; auto. Qed.

Lemma sorted_snoc (l : list Z) x :
  StronglySorted Z.le l → Forall (λ y, y ≤ x) l → StronglySorted Z.le (l ++ [x]).
Proof.
  induction 1 as [|y l Hl IH Hy]; intros Hf; cbn; [repeat constructor|].
  inversion Hf; subst. constructor; [auto|]. apply Forall_app; auto.
Qed.

Lemma gc_loop_calls ttl q calls : (calls ≤ (gc_loop ttl q calls).2)%nat.
Proof.
  revert calls. induction q as [|x q IH]; intros calls; cbn; [lia|].
  case_decide; cbn; [|lia]. specialize (IH (S calls)). lia.
Qed.

Lemma timely_after max_num ttl o e : timely e → timely (rec_after max_num ttl o e).
Proof.
  intros [Hs Hf]. destruct o as [m|]; cbn [rec_after].
  - destruct (recorded_suffix max_num m e) as [d Hd].
    apply (f_equal (map snd)) in Hd. rewrite !map_app in Hd. cbn [map snd] in Hd.
    assert (Hs' : StronglySorted Z.le (map snd d ++ map snd (mq (recorded max_num m e)))).
    { rewrite Hd. apply sorted_snoc; [done|]. eapply Forall_impl; [exact Hf|]. cbn.
      intros t (k & Hk & ->). apply Hclock. lia. }
    split; [by eapply sorted_suffix|].
    assert (Hf' : Forall (λ t, ∃ k, (k < S (clock_calls e))%nat ∧ t = clock k)
      (map snd d ++ map snd (mq (recorded max_num m e)))).
    { rewrite Hd. apply Forall_app. split.
      - eapply Forall_impl; [exact Hf|]. cbn. intros t (k & Hk & ->). exists k. split; [lia|done].
      - constructor; [|done]. exists (clock_calls e). split; [lia|done]. }
    by apply Forall_app in Hf' as [_ ?].
  - destruct (gc_loop_suffix ttl (mq e) (clock_calls e)) as [d Hd].
    apply (f_equal (map snd)) in Hd. rewrite map_app in Hd. rewrite <- Hd in Hs, Hf.
    apply Forall_app in Hf as [_ Hf]. split; [by eapply sorted_suffix|].
    eapply Forall_impl; [exact Hf|]. cbn. intros t (k & Hk & ->). exists k. split; [|done].
    pose proof (gc_loop_calls ttl (mq e) (clock_calls e)). lia.
Qed.

Lemma timely_fold max_num ttl os e :
  timely e → timely (fold_left (λ e o, rec_after max_num ttl o e) os e).
Proof.
  revert e. induction os as [|o os IH]; intros e He; cbn [fold_left]; [done|].
  by apply IH, timely_after.
Qed.

(** What a round leaves is young at its last look at the clock. *)
Lemma gc_loop_fresh ttl q calls :
  StronglySorted Z.le (map snd q) → (gc_loop ttl q calls).1 ≠ [] →
  Forall (λ x, clock (pred (gc_loop ttl q calls).2) - snd x ≤ ttl) (gc_loop ttl q calls).1.
Proof.
  revert calls. induction q as [|x q IH]; intros calls Hs Hne; cbn [gc_loop] in *; [done|].
  inversion Hs as [|? ? Hs' Hx]; subst. case_decide as Hd; [by apply IH|].
  cbn [fst snd pred]. constructor; [lia|]. rewrite Forall_map in Hx.
  eapply Forall_impl; [exact Hx|]. cbn. intros y Hy. lia.
Qed.

(** What a round takes was old when it looked. *)
Lemma gc_loop_dropped ttl q calls :
  ∃ d, d ++ (gc_loop ttl q calls).1 = q
    ∧ Forall (λ x, ttl < clock (gc_loop ttl q calls).2 - snd x) d.
Proof.
  revert calls. induction q as [|x q IH]; intros calls; cbn [gc_loop]; [by exists []|].
  case_decide as Hd; [|by exists []]. destruct (IH (S calls)) as (d & Hq & Hf).
  exists (x :: d). cbn. rewrite Hq. split; [done|]. constructor; [|done].
  pose proof (gc_loop_calls ttl q (S calls)).
  pose proof (Hclock calls (gc_loop ttl q (S calls)).2 ltac:(lia)). lia.
Qed.

End record.

(** ** Properties *)

(** The program copies its lines, and what it dumps at its end is the last
    [WISSBI_RECORD_MAX_MSGNUM] of them, oldest first, or all of them when that is
    zero. *)
Theorem record_keeps_last clock max_num input fuel :
  0 ≤ max_num ≤ INT_MAX → Forall line_fits (split_lines input) →
  ([] : bytes) ∉ split_lines input → (length (split_lines input) < fuel)%nat →
  ∃ w e', record_main clock max_num fuel input = Some (Ret tt, w)
    ∧ os_ptr_ (line_base (f_out w)) = ostream_of (unlines (split_lines input))
    ∧ dump_mq (f_ext w)
      = (Ret (unlines (if decide (max_num = 0) then split_lines input
                       else last_n (Z.to_nat max_num) (split_lines input))), e').
Proof.
  intros Hm Hf Hne Hfuel.
  destruct (line_relay (λ e, mq_mtx e = false) (record_funcs clock max_num) (recorded clock max_num)
    input rec_start fuel) as (w & HL & Ho & He);
    [apply record_observes|done|done|by apply record_oks|done|].
  assert (Hlock : mq_mtx (f_ext w) = false).
  { rewrite He. by apply record_fold_unlocked. }
  exists w. eexists. split; [exact HL|]. split; [done|].
  unfold dump_mq, rec_lock, rec_unlock, cbind, cget, cmodify, cret. rewrite Hlock. cbn.
  rewrite He. case_decide as Hz.
  - subst. by rewrite record_fold_unbounded.
  - by rewrite (record_fold clock max_num (split_lines input) rec_start []) by (done || lia).
Qed.

Lemma record_keeps_last_witness :
  ∃ w e', record_main (λ n, Z.of_nat n) 2 4
      (str "a" ++ [LF] ++ str "b" ++ [LF] ++ str "c" ++ [LF]) = Some (Ret tt, w)
    ∧ dump_mq (f_ext w) = (Ret (str "b" ++ [LF] ++ str "c" ++ [LF]), e').
Proof.
  destruct (record_keeps_last (λ n, Z.of_nat n) 2
    (str "a" ++ [LF] ++ str "b" ++ [LF] ++ str "c" ++ [LF]) 4) as (w & e' & HL & _ & Hd).
  - by apply (bool_decide_eq_true_1 _).
  - by apply (bool_decide_eq_true_1 _).
  - by apply (bool_decide_eq_true_1 _).
  - vm_compute. lia.
  - exists w, e'. split; [exact HL|exact Hd].
Defined.

(** With messages and collector rounds in any order, the deque is always the
    newest part of what was recorded and never longer than the bound; after a
    collector round nothing it holds is older than the limit, and the round took
    only messages that were. *)
Theorem record_collected clock max_num ttl os e :
  (∀ i j, (i ≤ j)%nat → clock i ≤ clock j) → 0 < max_num ≤ INT_MAX →
  rec_steps clock max_num ttl os rec_start = (Ret tt, e) →
  (∃ d, d ++ mq e = history clock max_num ttl os rec_start)
  ∧ zlen (mq e) ≤ max_num
  ∧ ∃ e' d, gc_round clock ttl e = (Ret tt, e') ∧ d ++ mq e' = mq e
      ∧ Forall (λ x, ttl < clock (clock_calls e') - snd x) d
      ∧ Forall (λ x, clock (pred (clock_calls e')) - snd x ≤ ttl) (mq e').
Proof.
  intros Hc Hm Hr. rewrite rec_steps_eq in Hr by done. injection Hr as <-.
  set (e := fold_left _ _ _).
  destruct (rec_history_suffix clock max_num ttl os rec_start) as [d Hd].
  split; [by exists d|]. split; [apply rec_bound; [done|change (zlen (mq rec_start)) with 0; lia]|].
  assert (Hlock : mq_mtx e = false).
  { by apply rec_fold_unlocked. }
  assert (Ht : timely clock e) by (apply timely_fold; [done|by split; constructor]).
  rewrite gc_round_eq by done.
  destruct (gc_loop_dropped clock Hc ttl (mq e) (clock_calls e)) as (d' & Hq & Hf).
  eexists _, d'. split; [done|]. split; [done|]. split; [done|]. cbn [mq collected clock_calls].
  destruct (decide ((gc_loop clock ttl (mq e) (clock_calls e)).1 = [])) as [->|Hne]; [done|].
  apply gc_loop_fresh; [apply Ht|done].
Qed.

Lemma record_collected_witness :
  ∃ e' d, gc_round (λ n, 10 * Z.of_nat n) 15
      (snd (rec_steps (λ n, 10 * Z.of_nat n) 50 15 [RMsg (str "a"); RMsg (str "b")] rec_start))
    = (Ret tt, e') ∧ d ++ mq e' = [(str "a", 0); (str "b", 10)].
Proof.
  destruct (record_collected (λ n, 10 * Z.of_nat n) 50 15 [RMsg (str "a"); RMsg (str "b")]
    (snd (rec_steps (λ n, 10 * Z.of_nat n) 50 15 [RMsg (str "a"); RMsg (str "b")] rec_start)))
    as (_ & _ & e' & d & Hg & Hd & _).
  - intros i j Hij. cbn beta. lia.
  - by apply (bool_decide_eq_true_1 _).
  - reflexivity.
  - exists e', d. split; [exact Hg|exact Hd].
Defined.

(** A signal that arrives between two statements of the filter function, while
    the main thread has the deque locked, never dumps anything: the handler locks
    the same mutex again.  Before the lock and after the unlock it dumps the
    deque. *)
Theorem record_signal_deadlocks clock max_num m e k :
  mq_mtx e = false → (k ≤ 4)%nat →
  ∃ o e', signal_during clock max_num m k e = (o, e')
    ∧ o = match k with
          | 0%nat => Ret (unlines (map fst (mq e)))
          | 4%nat => Ret (unlines (map fst (mq (recorded clock max_num m e))))
          | _ => Undef SelfDeadlock
          end.
Proof.
  intros Hl Hk. do 2 eexists. split; [apply surjective_pairing|].
  unfold signal_during, rec_statements, dump_mq.
  destruct k as [|[|[|[|[|k]]]]]; [..|lia];
    cbn [take run_statements]; unfold rec_lock, rec_unlock, rec_pop, rec_push, cbind, cmodify, cget, cret;
    rewrite ?Hl; cbn; try done; unfold recorded; by destruct (negb _ && _).
Qed.

Lemma record_signal_deadlocks_witness :
  ∃ o e', signal_during (λ _, 0) 50 (str "hello") 2 rec_start = (o, e') ∧ o = Undef SelfDeadlock.
Proof. exact (record_signal_deadlocks (λ _, 0) 50 (str "hello") rec_start 2 eq_refl ltac:(lia)). Defined.
