(* ===== verification/Dump.v ===== *)
(** * Dump: the exit handler of [wissbi-record], [record.cpp]

    [dump_mq_and_exit] names a file, opens it, and writes the deque of [Record]
    to it under [mq_mtx].  [mktemp] and the file behind an [ofstream] are
    parameters. *)

From S2P Require Import Prelude Text Logger MsgBuf IOStream MsgFilter Line Record.

(** ** The files *)

(** [sys_mktemp] is what [mktemp] leaves in its argument; [sys_trunc] opens a
    file the way [ofstream]'s constructor does and says whether it could;
    [sys_append] writes at its end and says whether all was written. *)
Class DumpOps (F : Type) := {
  sys_mktemp : bytes → F → bytes;
  sys_trunc : bytes → F → bool * F;
  sys_append : bytes → bytes → F → bool * F }.

(** [file_of p f] is what the regular file [p] holds, [None] when there is none.
    [mktemp] makes the name of no file, or the empty string when it fails; no
    file has an empty name; a write that fails may have written a part. *)
Class DumpLaws (F : Type) `{DumpOps F} := {
  file_of : bytes → F → option bytes;
  mktemp_names t f : sys_mktemp t f = [] ∨ file_of (sys_mktemp t f) f = None;
  trunc_empty f : sys_trunc [] f = (false, f);
  trunc_opens p f f' : sys_trunc p f = (true, f') → file_of p f' = Some [];
  trunc_fails p f f' q : sys_trunc p f = (false, f') → file_of q f' = file_of q f;
  trunc_others p f ok f' q : sys_trunc p f = (ok, f') → q ≠ p → file_of q f' = file_of q f;
  append_writes p d f ok f' c :
    sys_append p d f = (ok, f') → file_of p f = Some c →
    ∃ k, file_of p f' = Some (c ++ take k d) ∧ (ok = true → take k d = d);
  append_others p d f ok f' q : sys_append p d f = (ok, f') → q ≠ p → file_of q f' = file_of q f }.

(** ** The code *)

Section dump.
Context (clock : nat → Z).
Context {F : Type} `{DumpOps F}.
(** What [ctime] returns. *)
Context (time_str : bytes).

(** The globals with the file system and the logger; [filename_ptr] is null
    unless an argument named the file. *)
Record dump_vars := mkDump {
  dv_rec : rec_vars; filename_ptr : option bytes; dv_files : F; dv_log : Logger }.

Definition set_rec (e : rec_vars) (d : dump_vars) : dump_vars :=
  mkDump e (filename_ptr d) (dv_files d) (dv_log d).
Definition set_filename (p : option bytes) (d : dump_vars) : dump_vars :=
  mkDump (dv_rec d) p (dv_files d) (dv_log d).
Definition set_files (f : F) (d : dump_vars) : dump_vars :=
  mkDump (dv_rec d) (filename_ptr d) f (dv_log d).
Definition set_dlog (l : Logger) (d : dump_vars) : dump_vars :=
  mkDump (dv_rec d) (filename_ptr d) (dv_files d) l.

(** [char tmp[20]]. *)
Definition template : bytes := str "/tmp/wsbrec.XXXXXX".

(** [mktemp] returns its argument, which is not null. *)
Definition dump_name : comp dump_vars bytes :=
  let* d := cget in
  let* _ := match filename_ptr d with
            | None => cmodify (set_filename (Some (sys_mktemp template (dv_files d))))
            | Some _ => cret tt
            end in
  let* d1 := cget in
  match filename_ptr d1 with
  | Some p => cret p
  | None => λ d, (AssertFailed, d)
  end.

(** [ofstream ofs(filename_ptr)]: whether [ofs] is good. *)
Definition dump_open (p : bytes) : comp dump_vars bool :=
  let* d := cget in
  let '(ok, f) := sys_trunc p (dv_files d) in
  let* _ := cput (set_files f d) in
  cret ok.

(** The [for_each]: [endl] writes the line out, and a stream that is not good
    takes nothing. *)
Fixpoint dump_lines (p : bytes) (good : bool) (q : list (bytes * Z)) : comp dump_vars bool :=
  match q with
  | [] => cret good
  | t :: q' =>
      if good then
        let* d := cget in
        let '(ok, f) := sys_append p (fst t ++ [LF]) (dv_files d) in
        let* _ := cput (set_files f d) in
        dump_lines p ok q'
      else dump_lines p false q'
  end.

(** What follows [mq_mtx.lock()]. *)
Definition dump_write (p : bytes) (good : bool) : comp dump_vars unit :=
  let* d := cget in
  let* _ := dump_lines p good (mq (dv_rec d)) in
  let* _ := zoom dv_rec set_rec rec_unlock in
  zoom dv_log set_dlog (log time_str (str "Messages dumped to {}") [p]).

Definition dump_mq_and_exit : comp dump_vars unit :=
  let* p := dump_name in
  let* good := dump_open p in
  let* _ := zoom dv_rec set_rec rec_lock in
  dump_write p good.

(** A signal after [k] statements of the filter function: [exit] runs the
    handler on the thread it interrupted. *)
Definition exit_signal_handler (max_num : Z) (m : bytes) (k : nat) : comp dump_vars unit :=
  let* _ := zoom dv_rec set_rec (run_statements (take k (rec_statements clock max_num m))) in
  dump_mq_and_exit.

(** ** Lemmas *)

(** The name the handler uses. *)
Definition name_of (d : dump_vars) : bytes :=
  default (sys_mktemp template (dv_files d)) (filename_ptr d).

Lemma dump_name_eq d : dump_name d = (Ret (name_of d), set_filename (Some (name_of d)) d).
Proof. by destruct d as [? [p|] ? ?]. Qed.

Lemma dump_open_eq p d :
  dump_open p d = (Ret (sys_trunc p (dv_files d)).1, set_files (sys_trunc p (dv_files d)).2 d).
Proof. unfold dump_open, cbind, cget, cput, cret. by destruct (sys_trunc _ _). Qed.

Lemma dump_lines_closed p q d : dump_lines p false q d = (Ret false, d).
Proof. induction q; [done|]. cbn. done. Qed.

Lemma unlines_cons m ms : unlines (m :: ms) = (m ++ [LF]) ++ unlines ms.
Proof. done. Qed.

(** The output succeeds when no write fails. *)
Lemma dump_lines_good p q d :
  (∀ p d (f : F), (sys_append p d f).1 = true) → ∃ f, dump_lines p true q d = (Ret true, set_files f d).
Proof.
  intros Hok. revert d. induction q as [|t q IH]; intros d; cbn [dump_lines].
  { exists (dv_files d). by destruct d. }
  unfold cbind, cget, cput. pose proof (Hok p (fst t ++ [LF]) (dv_files d)) as Ht.
  destruct (sys_append _ _ _) as [ok f1]. cbn in Ht. subst ok.
  destruct (IH (set_files f1 d)) as [f HL]. by exists f.
Qed.

Context `{!DumpLaws F}.

(** An open file gets a beginning of the lines, all of them when the stream is
    good at the end. *)
Lemma dump_lines_spec p good q d c :
  file_of p (dv_files d) = Some c →
  ∃ good' f l, dump_lines p good q d = (Ret good', set_files f d)
    ∧ file_of p f = Some (c ++ l) ∧ l `prefix_of` unlines (map fst q)
    ∧ (good' = true → good = true ∧ l = unlines (map fst q))
    ∧ ∀ p', p' ≠ p → file_of p' f = file_of p' (dv_files d).
Proof.
  revert good d c. induction q as [|[m t] q IH]; intros good d c Hc.
  - exists good, (dv_files d), []. rewrite app_nil_r. by destruct d.
  - destruct good.
    2:{ exists false, (dv_files d), []. rewrite app_nil_r, dump_lines_closed.
        split; [by destruct d|]. split; [done|]. split; [apply prefix_nil|done]. }
    cbn [dump_lines fst map]. unfold cbind, cget, cput.
    destruct (sys_append p (m ++ [LF]) (dv_files d)) as [ok f1] eqn:Ea.
    destruct (append_writes _ _ _ _ _ _ Ea Hc) as (k & Hf1 & Hk).
    destruct ok.
    + rewrite Hk in Hf1 by done.
      destruct (IH true (set_files f1 d) _ Hf1) as (g & f & l & HL & Hf & Hl & Hg & Ho).
      exists g, f, ((m ++ [LF]) ++ l). rewrite HL, unlines_cons. split; [done|].
      split; [by rewrite Hf, <- app_assoc|]. split; [by apply prefix_app|]. split; [intros Ht; by destruct (Hg Ht) as [_ ->]|].
      intros p' Hp'. rewrite Ho by done. by eapply append_others.
    + rewrite dump_lines_closed. exists false, f1, (take k (m ++ [LF])). split; [done|]. split; [done|].
      split; [|split; [done|intros; by eapply append_others]].
      rewrite unlines_cons. apply prefix_app_r. exists (drop k (m ++ [LF])).
      by rewrite take_drop.
Qed.

Lemma dump_log_eq p now s :
  time_str = now ++ [LF] → zlen now < 2 ^ 63 → log_locked s = false →
  log time_str (str "Messages dumped to {}") [p] s
  = (Ret tt, mkLogger false (log_cerr s ++ str "[" ++ now ++ str "] "
                             ++ (str "Messages dumped to " ++ p ++ []) ++ [LF])).
Proof.
  intros -> Hn Hl. rewrite log_eq by (done || by apply (bool_decide_eq_true_1 _)).
  change (format_segments (str "Messages dumped to {}")) with [str "Messages dumped to "; []].
  cbn [dispatch_r app]. by rewrite <- !app_assoc.
Qed.

Lemma dump_write_eq p good d g f now :
  time_str = now ++ [LF] → zlen now < 2 ^ 63 → log_locked (dv_log d) = false →
  dump_lines p good (mq (dv_rec d)) d = (Ret g, set_files f d) →
  ∃ before, dump_write p good d
    = (Ret tt, mkDump (mkRec (mq (dv_rec d)) false (clock_calls (dv_rec d))) (filename_ptr d) f
                 (mkLogger false (before ++ (str "Messages dumped to " ++ p ++ []) ++ [LF]))).
Proof.
  intros Ht Hn Hl HL. exists (log_cerr (dv_log d) ++ str "[" ++ now ++ str "] ").
  unfold dump_write, cbind at 1, cget. rewrite (cbind_ret _ _ _ _ _ HL).
  unfold cbind, zoom, rec_unlock, cmodify. cbn [dv_log set_rec set_files].
  rewrite (dump_log_eq p now) by done. by rewrite <- !app_assoc.
Qed.

(** What is on the file after the lines. *)
Lemma dump_lines_file p (good : bool) d c :
  (if good then file_of p (dv_files d) = Some [] else file_of p (dv_files d) = c) →
  ∃ g f, dump_lines p good (mq (dv_rec d)) d = (Ret g, set_files f d)
    ∧ (∀ q, q ≠ p → file_of q f = file_of q (dv_files d))
    ∧ if good then
        ∃ l, file_of p f = Some l ∧ l `prefix_of` unlines (map fst (mq (dv_rec d)))
          ∧ ((∀ q c f, (sys_append q c f).1 = true) → l = unlines (map fst (mq (dv_rec d))))
      else file_of p f = c.
Proof.
  destruct good; intros Hf.
  - destruct (dump_lines_spec p true (mq (dv_rec d)) d [] Hf) as (g & f & l & HL & Hl & Hp & Hg & Ho).
    exists g, f. split; [done|]. split; [done|]. exists l. split; [done|]. split; [done|].
    intros Hok. destruct (dump_lines_good p (mq (dv_rec d)) d Hok) as [f' HL'].
    rewrite HL' in HL. injection HL as <- _. by apply Hg.
  - exists false, (dv_files d). rewrite dump_lines_closed. by destruct d.
Qed.

End dump.

Arguments dump_vars : clear implicits.

(** ** Properties *)

(** The handler, with the deque unlocked: it ends, unlocks what it locked, leaves
    every other file alone and logs the name it used whatever happened.  When the
    file could be opened it holds a beginning of the messages, oldest first, a line
    each, and all of them if no write failed; a name that [mktemp] made is a new
    file's or, when [mktemp] failed, empty, and then nothing is written.  With the
    deque locked by the interrupted thread the handler waits for ever, and an old
    file of the name it was given has already lost its contents. *)
Theorem exit_dump {F} `{DumpOps F} `{!DumpLaws F} time_str now (d : dump_vars F) o d' :
  time_str = now ++ [LF] → zlen now < 2 ^ 63 → log_locked (dv_log d) = false →
  dump_mq_and_exit time_str d = (o, d') →
  let p := name_of d in
  (filename_ptr d = None → p = [] ∨ file_of p (dv_files d) = None)
  ∧ (∀ q, q ≠ p → file_of q (dv_files d') = file_of q (dv_files d))
  ∧ if mq_mtx (dv_rec d) then
      o = Undef SelfDeadlock
      ∧ file_of p (dv_files d') = (if (sys_trunc p (dv_files d)).1 then Some [] else file_of p (dv_files d))
    else
      o = Ret tt ∧ dv_rec d' = dv_rec d
      ∧ (∃ before, log_cerr (dv_log d') = before ++ (str "Messages dumped to " ++ p ++ []) ++ [LF])
      ∧ if (sys_trunc p (dv_files d)).1 then
          ∃ l, file_of p (dv_files d') = Some l ∧ l `prefix_of` unlines (map fst (mq (dv_rec d)))
            ∧ ((∀ q c f, (sys_append q c f).1 = true) → l = unlines (map fst (mq (dv_rec d))))
        else file_of p (dv_files d') = file_of p (dv_files d).
Proof.
  intros Ht Hn Hlog Hd. cbn zeta. split.
  { intros Hnone. unfold name_of. rewrite Hnone. apply mktemp_names. }
  unfold dump_mq_and_exit in Hd.
  rewrite (cbind_ret _ _ _ _ _ (dump_name_eq d)), (cbind_ret _ _ _ _ _ (dump_open_eq _ _)) in Hd.
  set (p := name_of d) in *. cbn [dv_files set_filename] in Hd.
  destruct (sys_trunc p (dv_files d)) as [good f1] eqn:Et. cbn [fst snd] in *.
  assert (Hother : ∀ q, q ≠ p → file_of q f1 = file_of q (dv_files d))
    by (intros; by eapply trunc_others).
  set (d1 := set_files f1 _) in Hd.
  destruct (mq_mtx (dv_rec d)) eqn:Hm.
  - unfold cbind at 1, zoom at 1, rec_lock in Hd. cbn [dv_rec d1 set_files set_filename] in Hd.
    rewrite Hm in Hd. injection Hd as <- <-. cbn [dv_files set_rec set_files]. split; [done|]. split; [done|].
    destruct good; [by eapply trunc_opens|by eapply trunc_fails].
  - assert (HL : zoom dv_rec set_rec rec_lock d1 = (Ret tt, set_rec (mkRec (mq (dv_rec d)) true (clock_calls (dv_rec d))) d1)).
    { unfold zoom, rec_lock. cbn [dv_rec d1 set_files set_filename]. by rewrite Hm. }
    rewrite (cbind_ret _ _ _ _ _ HL) in Hd. clear HL. set (d2 := set_rec _ d1) in Hd.
    destruct (dump_lines_file p good d2 (file_of p (dv_files d))) as (g & f & HL & Hf & Hc).
    { destruct good; [by eapply trunc_opens|by eapply trunc_fails]. }
    destruct (dump_write_eq time_str p good d2 g f now) as [before HW]; try done.
    rewrite HW in Hd. injection Hd as <- <-. cbn [dv_files dv_rec dv_log d2 d1 set_rec mq clock_calls].
    split; [intros q Hq; by rewrite Hf, <- Hother|]. split; [done|].
    split; [by destruct (dv_rec d) as [? [] ?]|]. split; [by exists before|]. exact Hc.
Qed.

(** A signal after [k] of the four statements of the filter function, on a program
    that runs with the mutex free, meets it locked exactly when [k] is 1, 2 or 3. *)
Lemma signal_meets clock {F} max_num m (k : nat) (d : dump_vars F) :
  mq_mtx (dv_rec d) = false → (k ≤ 4)%nat →
  ∃ e, zoom dv_rec set_rec (run_statements (take k (rec_statements clock max_num m))) d
       = (Ret tt, set_rec e d) ∧ mq_mtx e = bool_decide (0 < k < 4)%nat.
Proof.
  intros Hl Hk. unfold zoom, rec_statements.
  destruct k as [|[|[|[|[|k]]]]]; [..|lia]; cbn [take run_statements];
    unfold rec_lock, rec_unlock, rec_pop, rec_push, cbind, cmodify, cret; rewrite ?Hl;
    eexists; (split; [reflexivity|]); cbn; try done; by destruct (negb _ && _).
Qed.

(** A signal that interrupts the filter function while it has the deque locked
    leaves the file named on the command line empty, whatever it held, and the
    program waiting for itself; outside those statements the handler ends. *)
Theorem signal_loses_dump {F} `{DumpOps F} `{!DumpLaws F} clock time_str now max_num m k
    (d : dump_vars F) o d' :
  time_str = now ++ [LF] → zlen now < 2 ^ 63 → log_locked (dv_log d) = false →
  mq_mtx (dv_rec d) = false → (k ≤ 4)%nat → (sys_trunc (name_of d) (dv_files d)).1 = true →
  exit_signal_handler clock time_str max_num m k d = (o, d') →
  if bool_decide (0 < k < 4)%nat then
    o = Undef SelfDeadlock ∧ file_of (name_of d) (dv_files d') = Some []
  else o = Ret tt.
Proof.
  intros Ht Hn Hlog Hl Hk Hop Hs. destruct (signal_meets clock max_num m k d Hl Hk) as (e & HR & He).
  unfold exit_signal_handler in Hs. rewrite (cbind_ret _ _ _ _ _ HR) in Hs.
  pose proof (exit_dump time_str now (set_rec e d) o d' Ht Hn Hlog Hs) as (_ & _ & Hc).
  change (name_of (set_rec e d)) with (name_of d) in Hc. cbn [dv_rec dv_files set_rec] in Hc.
  rewrite He, Hop in Hc. destruct (bool_decide _); [exact Hc|apply Hc].
Qed.

(** ** Witnesses *)

(** A directory of files; an empty name is no file's, and [mktemp] numbers its
    names from the first that is free. *)
Module SimFiles.

Definition files := gmap bytes bytes.

Definition sim_mktemp (t : bytes) (f : files) : bytes :=
  let name := take 12 t ++ str "AAAAAA" in if decide (f !! name = None) then name else [].

#[export] Instance dump_ops : DumpOps files := {
  sys_mktemp := sim_mktemp;
  sys_trunc p f := if decide (p = []) then (false, f) else (true, <[p := []]> f);
  sys_append p d f := (true, <[p := default [] (f !! p) ++ d]> f) }.

#[export] Program Instance laws : DumpLaws files := {| file_of p f := f !! p |}.
Next Obligation.
  intros t f. unfold sys_mktemp. cbn. unfold sim_mktemp. case_decide; [by right|by left].
Qed.
Next Obligation. done. Qed.
Next Obligation.
  intros p f f'. cbn. case_decide; intros [= <-]. apply lookup_insert_eq.
Qed.
Next Obligation. intros p f f' q. cbn. case_decide; by intros [= <-]. Qed.
Next Obligation.
  intros p f ok f' q. cbn. case_decide; intros [= <- <-] Hq; [done|]. by apply lookup_insert_ne.
Qed.
Next Obligation.
  intros p d f ok f' c [= <- <-] Hc. exists (length d). rewrite firstn_all. split; [|done].
  rewrite Hc. apply lookup_insert_eq.
Qed.
Next Obligation. intros p d f ok f' q [= <- <-] Hq. by apply lookup_insert_ne. Qed.

End SimFiles.

Import SimFiles.

Definition dump_start (name : option bytes) : dump_vars files :=
  mkDump (mkRec [(str "a", 1); (str "b", 2)] false 2) name {[str "old" := str "before"]} Logger_init.

Definition dump_done : dump_vars files :=
  snd (dump_mq_and_exit (str "now" ++ [LF]) (dump_start None)).

Lemma exit_dump_witness :
  file_of (str "/tmp/wsbrec.AAAAAA") (dv_files dump_done)
  = Some (str "a" ++ [LF] ++ str "b" ++ [LF]).
Proof.
  destruct (exit_dump (str "now" ++ [LF]) (str "now") (dump_start None) (Ret tt) dump_done)
    as (_ & _ & _ & _ & _ & l & Hl & _ & Hok).
  - reflexivity.
  - by apply (bool_decide_eq_true_1 _).
  - reflexivity.
  - vm_compute. reflexivity.
  - rewrite Hok in Hl; [exact Hl|]. intros q c f. reflexivity.
Defined.

Definition signal_done : dump_vars files :=
  snd (exit_signal_handler (λ _, 0) (str "now" ++ [LF]) 50 (str "c") 2 (dump_start (Some (str "old")))).

Lemma signal_loses_dump_witness : file_of (str "old") (dv_files signal_done) = Some [].
Proof.
  apply (signal_loses_dump (λ _, 0) (str "now" ++ [LF]) (str "now") 50 (str "c") 2
    (dump_start (Some (str "old"))) (Undef SelfDeadlock) signal_done).
  - reflexivity.
  - by apply (bool_decide_eq_true_1 _).
  - reflexivity.
  - reflexivity.
  - lia.
  - reflexivity.
  - vm_compute. reflexivity.
Defined.
