(* ===== verification/Metric.v ===== *)
(** * Metric: the counters of [filter_metric.hpp] and their reporter,
    [metric_reporter.hpp]

    A [FilterMetric] is two atomic counters of a branch; [Report] takes each
    branch's recent count, leaving zero, and publishes the ones that are not
    zero as messages of the queue [wissbi.metric]. *)

From S2P Require Import Prelude Text MsgBuf IOStream MsgFilter Line Length Tee Relay.

(** ** FilterMetric *)

Record FilterMetric := mkMetric { name : bytes; last_processed : Z; total_processed : Z }.

(** The three constructors. *)
Definition FilterMetric_default : FilterMetric := mkMetric [] 0 0.
Definition FilterMetric_new (in_name : bytes) : FilterMetric := mkMetric in_name 0 0.
Definition FilterMetric_copy (rhs : FilterMetric) : FilterMetric :=
  mkMetric (name rhs) (last_processed rhs) (total_processed rhs).

(** [++], [+=] and [exchange(0)] of [std::atomic_uint], [++] of
    [std::atomic_ullong]: 32 and 64 bits wide. *)
Definition uint_wrap (z : Z) : Z := wrap 32 z.
Definition add_last (n : Z) (m : FilterMetric) : FilterMetric :=
  mkMetric (name m) (uint_wrap (last_processed m + n)) (total_processed m).
Definition incr_last (m : FilterMetric) : FilterMetric := add_last 1 m.
Definition incr_total (m : FilterMetric) : FilterMetric :=
  mkMetric (name m) (last_processed m) (wrap 64 (total_processed m + 1)).
Definition exchange_last (m : FilterMetric) : Z * FilterMetric :=
  (last_processed m, mkMetric (name m) 0 (total_processed m)).

(** The operations other threads may perform on a metric, in the order in which
    they take effect; [MAdd] is what a message adds, [MTake] a report. *)
Inductive metric_op := MAdd (n : Z) | MTake.

Fixpoint metric_run (ops : list metric_op) (m : FilterMetric) : list Z * FilterMetric :=
  match ops with
  | [] => ([], m)
  | MAdd n :: ops' => metric_run ops' (add_last n m)
  | MTake :: ops' =>
      let '(v, m1) := exchange_last m in
      let '(vs, m2) := metric_run ops' m1 in (v :: vs, m2)
  end.

Definition added (ops : list metric_op) : Z :=
  foldr (λ o a, match o with MAdd n => n + a | MTake => a end) 0 ops.
Definition total (vs : list Z) : Z := foldr Z.add 0 vs.

(** ** MetricReporter *)

Section reporter.
Context {PO E : Type} `{IOPolicy PO}.

(** The object: [metric_list_] and [input_filter_], which are references. *)
Record rstate := mkRstate { metric_list_ : list FilterMetric; input_filter_ : fstate String_ PO E }.

Definition set_metrics (ms : list FilterMetric) (s : rstate) : rstate :=
  mkRstate ms (input_filter_ s).
Definition set_filter (f : fstate String_ PO E) (s : rstate) : rstate :=
  mkRstate (metric_list_ s) f.

(** An operation of the input policy, called on the filter. *)
Definition on_input {A} (c : comp String_ A) : comp (fstate String_ PO E) A :=
  zoom f_in (λ i w, mkFstate i (f_out w) (f_ext w) (msg_buf_ w)) c.

Definition metric_line (direction : bytes) (m : FilterMetric) : bytes :=
  name m ++ str "," ++ direction ++ str "," ++ dec (last_processed m).

(** The body of the loop of [Report], for the metric at [i]. *)
Definition report_one (ff : filter_funcs String_ PO E) (direction : bytes) (i : nat)
  : comp rstate unit :=
  let* s := cget in
  match metric_list_ s !! i with
  | None => cret tt
  | Some metric =>
      let '(last, metric1) := exchange_last metric in
      let* _ := cmodify (set_metrics (<[i := metric1]> (metric_list_ s))) in
      if decide (last = 0) then cret tt
      else
        let* _ := zoom input_filter_ set_filter (on_input (Send (metric_line direction metric))) in
        let* _ := zoom input_filter_ set_filter (Filter ff) in
        cret tt
  end.

Fixpoint report_loop (ff : filter_funcs String_ PO E) (direction : bytes) (idx : list nat)
  : comp rstate unit :=
  match idx with
  | [] => cret tt
  | i :: idx' => let* _ := report_one ff direction i in report_loop ff direction idx'
  end.

Definition Report (ff : filter_funcs String_ PO E) (direction : bytes) : comp rstate unit :=
  let* s := cget in
  report_loop ff direction (seq 0 (length (metric_list_ s))).

(** ** Lemmas *)

(** What [Report] publishes. *)
Definition report_lines (direction : bytes) (ms : list FilterMetric) : list bytes :=
  map (metric_line direction) (filter (λ m, last_processed m ≠ 0) ms).

Definition taken (m : FilterMetric) : FilterMetric := snd (exchange_last m).

(** Functions that let every message through, the last of which folds the result
    into the captured variables. *)
Record counts (ff : filter_funcs String_ PO E) (step : bool → E → E) : Prop := {
  counts_pre w : pre_filter_func_ ff w = (Ret true, w);
  counts_filter w : filter_func_ ff w = (Ret true, w);
  counts_post r w :
    post_filter_func_ ff r w
    = (Ret r, mkFstate (f_in w) (f_out w) (step r (f_ext w)) (msg_buf_ w)) }.

Section laws.
Context `{!MessageSink PO}.
Context (ff : filter_funcs String_ PO E) (step : bool → E → E) (Hff : counts ff step).

(** The filter is ready for a message, its sink has [out]. *)
Record ready (f : fstate String_ PO E) (out : list bytes) (e : E) : Prop := {
  ready_in : String_good (f_in f);
  ready_out : sink_has (f_out f) out;
  ready_ext : f_ext f = e;
  ready_buf : wf_MsgBuf (msg_buf_ f) }.

(** A message sent and filtered goes to the sink. *)
Lemma Send_Filter m f out e :
  ready f out e → length_fits m → sink_ok m →
  ∃ f', (let* _ := on_input (Send m) in Filter ff) f = (Ret true, f')
    ∧ ready f' (out ++ [m]) (step true e).
Proof.
  intros [Hi Ho He Hb] Hf Hok.
  destruct (Send_Get_message m (msg_buf_ f) (f_in f) Hi Hf Hb) as (b1 & i1 & HG & Hh & Hi1).
  rewrite (cbind_ret _ _ _ _ _ (Send_eq m (f_in f))) in HG.
  set (i0 := mkString _ _ _ _ _ _) in HG.
  destruct (sink_put _ _ _ _ Ho Hh Hok) as (b2 & o2 & HP & Hh2 & Ho2).
  eexists. split.
  - assert (on_input (Send m) f
            = (Ret tt, mkFstate i0 (f_out f) (f_ext f) (msg_buf_ f))) as Hs by done.
    rewrite (cbind_ret _ _ _ _ _ Hs).
    erewrite Filter_put; [|by apply (counts_pre _ _ Hff)|exact HG
                          |by apply (counts_filter _ _ Hff)|exact HP].
    apply (counts_post _ _ Hff).
  - split; cbn; [done|done|by rewrite He|by eapply holds_wf].
Qed.

Lemma report_one_zero dir i m s :
  metric_list_ s !! i = Some m → last_processed m = 0 →
  report_one ff dir i s = (Ret tt, set_metrics (<[i := taken m]> (metric_list_ s)) s).
Proof.
  intros Hm Hz. unfold report_one, cbind, cget, cmodify. rewrite Hm. cbn.
  by rewrite decide_True.
Qed.

Lemma report_one_sends dir i m s out e :
  metric_list_ s !! i = Some m → last_processed m ≠ 0 →
  ready (input_filter_ s) out e → length_fits (metric_line dir m) → sink_ok (metric_line dir m) →
  ∃ f', report_one ff dir i s
        = (Ret tt, mkRstate (<[i := taken m]> (metric_list_ s)) f')
    ∧ ready f' (out ++ [metric_line dir m]) (step true e).
Proof.
  intros Hm Hz Hr Hf Hok.
  destruct (Send_Filter (metric_line dir m) (input_filter_ s) out e Hr Hf Hok) as (f' & HS & Hr').
  exists f'. split; [|done]. unfold report_one, cbind, cget, cmodify. rewrite Hm. cbn.
  rewrite decide_False by done. unfold zoom, cbind, on_input in *. cbn in HS |- *.
  by rewrite HS.
Qed.

(** The list after the metrics before [i] have been taken. *)
Lemma report_loop_spec dir done_ todo f out e :
  ready f out e →
  Forall (λ m, length_fits (metric_line dir m) ∧ sink_ok (metric_line dir m)) todo →
  ∃ f', report_loop ff dir (seq (length done_) (length todo)) (mkRstate (done_ ++ todo) f)
        = (Ret tt, mkRstate (done_ ++ map taken todo) f')
    ∧ ready f' (out ++ report_lines dir todo)
        (Nat.iter (length (report_lines dir todo)) (step true) e).
Proof.
  intros Hr Hall. revert done_ f out e Hr.
  induction Hall as [|m todo [Hf Hok] Hall IH]; intros done_ f out e Hr.
  { exists f. cbn. by rewrite !app_nil_r. }
  cbn [length seq report_loop].
  assert (Hm : metric_list_ (mkRstate (done_ ++ m :: todo) f) !! length done_ = Some m)
    by (cbn; by apply list_lookup_middle).
  assert (Hins : ∀ x, <[length done_ := x]> (done_ ++ m :: todo) = (done_ ++ [x]) ++ todo).
  { intros x. rewrite <- app_assoc. by rewrite insert_app_r_alt, Nat.sub_diag by lia. }
  assert (Hlen : S (length done_) = length (done_ ++ [taken m])) by (rewrite length_app; cbn; lia).
  unfold report_lines. rewrite filter_cons. destruct (decide (last_processed m = 0)) as [Hz|Hz].
  - rewrite (cbind_ret _ _ _ _ _ (report_one_zero dir _ m _ Hm Hz)).
    unfold set_metrics. cbn [metric_list_ input_filter_]. rewrite Hins, Hlen. rewrite decide_False by (by intros []).
    destruct (IH (done_ ++ [taken m]) f out e Hr) as (f' & HL & Hr').
    exists f'. rewrite HL. by rewrite <- app_assoc.
  - destruct (report_one_sends dir _ m _ out e Hm Hz Hr Hf Hok) as (f1 & HO & Hr1).
    rewrite (cbind_ret _ _ _ _ _ HO). cbn [metric_list_ input_filter_]. rewrite Hins, Hlen. rewrite decide_True by done.
    destruct (IH (done_ ++ [taken m]) f1 _ _ Hr1) as (f' & HL & Hr').
    exists f'. rewrite HL, <- !app_assoc. split; [done|].
    cbn [map length Nat.iter]. rewrite <- app_assoc in Hr'.
    by rewrite <- Nat.iter_succ_r in Hr'.
Qed.

End laws.
End reporter.

Arguments rstate : clear implicits.

(** *** The counters *)

Lemma taken_range m : 0 ≤ last_processed (taken m) < 2 ^ 32.
Proof. change (last_processed (taken m)) with 0. lia. Qed.

Lemma metric_run_split ops m vs m' :
  0 ≤ last_processed m < 2 ^ 32 → metric_run ops m = (vs, m') →
  uint_wrap (total vs + last_processed m') = uint_wrap (last_processed m + added ops)
  ∧ name m' = name m ∧ total_processed m' = total_processed m
  ∧ 0 ≤ last_processed m' < 2 ^ 32.
Proof.
  revert m vs. induction ops as [|[n|] ops IH]; intros m vs Hm Hr; cbn in Hr.
  - injection Hr as <- <-. cbn. by rewrite Z.add_0_r.
  - destruct (IH (add_last n m) vs) as (He & Hn & Ht & Hb); [|done|].
    { cbn. by apply wrap_range. }
    split; [|done]. rewrite He. cbn [last_processed add_last]. unfold uint_wrap.
    rewrite wrap_add_l. f_equal. change (added (MAdd n :: ops)) with (n + added ops). lia.
  - destruct (metric_run ops _) as [vs1 m1] eqn:E. injection Hr as <- <-.
    destruct (IH (taken m) _ (taken_range m) E) as (He & Hn & Ht & Hb).
    split; [|done]. change (last_processed (taken m)) with 0 in He.
    change (added (MTake :: ops)) with (added ops).
    change (total (last_processed m :: vs1)) with (last_processed m + total vs1).
    unfold uint_wrap in *. rewrite <- Z.add_assoc, <- wrap_add_r, He, wrap_add_r. done.
Qed.

(** No counter overflow: fewer than 2^32 messages between two reports. *)
Fixpoint never_wraps (ops : list metric_op) (last : Z) : Prop :=
  match ops with
  | [] => True
  | MAdd n :: ops' => 0 ≤ n ∧ last + n < 2 ^ 32 ∧ never_wraps ops' (last + n)
  | MTake :: ops' => never_wraps ops' 0
  end.

Lemma metric_run_exact ops m vs m' :
  0 ≤ last_processed m < 2 ^ 32 → never_wraps ops (last_processed m) → metric_run ops m = (vs, m') →
  total vs + last_processed m' = last_processed m + added ops.
Proof.
  revert m vs. induction ops as [|[n|] ops IH]; intros m vs Hm Hw Hr; cbn in Hr, Hw.
  - injection Hr as <- <-. cbn. lia.
  - destruct Hw as (Hn & Hs & Hw).
    assert (He : last_processed (add_last n m) = last_processed m + n)
      by (cbn; apply wrap_small; lia).
    rewrite (IH (add_last n m) vs); [|rewrite He; lia|by rewrite He|done].
    rewrite He. change (added (MAdd n :: ops)) with (n + added ops). lia.
  - destruct (metric_run ops _) as [vs1 m1] eqn:E. injection Hr as <- <-.
    pose proof (IH (taken m) _ (taken_range m) Hw E) as He.
    change (last_processed (taken m)) with 0 in He. change (added (MTake :: ops)) with (added ops).
    change (total (last_processed m :: vs1)) with (last_processed m + total vs1). lia.
Qed.

(** ** Properties *)

(** Whatever the order in which the producers' additions and the reports of a
    metric take effect, nothing is lost or counted twice: the values reported and
    the one still held add up to what was added, modulo 2^32, and exactly when
    fewer than 2^32 messages fall between two reports. *)
Theorem metric_counts_conserved ops m vs m' :
  0 ≤ last_processed m < 2 ^ 32 → metric_run ops m = (vs, m') →
  uint_wrap (total vs + last_processed m') = uint_wrap (last_processed m + added ops)
  ∧ (never_wraps ops (last_processed m) →
     total vs + last_processed m' = last_processed m + added ops)
  ∧ total_processed m' = total_processed m.
Proof.
  intros Hm Hr. destruct (metric_run_split ops m vs m' Hm Hr) as (He & _ & Ht & _).
  split; [done|]. split; [|done]. intros. by eapply metric_run_exact.
Qed.

Lemma metric_counts_conserved_witness :
  let ops := [MAdd 1; MAdd 1; MTake; MAdd 1; MTake; MTake] in
  fst (metric_run ops (FilterMetric_new (str "foo"))) = [2; 1; 0]
  ∧ total [2; 1; 0] + 0 = 0 + 3.
Proof.
  intros ops. split; [reflexivity|].
  apply (proj1 (proj2 (metric_counts_conserved ops (FilterMetric_new (str "foo")) [2; 1; 0]
    (FilterMetric_new (str "foo")) (taken_range (FilterMetric_new (str "foo"))) eq_refl))).
  cbn. lia.
Defined.

(** A report publishes one message per metric that is not zero, in the list's
    order, with the metric's name, the direction and the count; it leaves every
    recent count zero and every total as it was, and tells the post-filter function
    of each message. *)
Theorem report_publishes {PO E} `{MessageSink PO} (ff : filter_funcs String_ PO E) step dir ms f out e :
  counts ff step → ready f out e →
  Forall (λ m, length_fits (metric_line dir m) ∧ sink_ok (metric_line dir m)) ms →
  ∃ ms' f', Report ff dir (mkRstate ms f) = (Ret tt, mkRstate ms' f')
    ∧ sink_has (f_out f') (out ++ report_lines dir ms)
    ∧ f_ext f' = Nat.iter (length (report_lines dir ms)) (step true) e
    ∧ map name ms' = map name ms ∧ map total_processed ms' = map total_processed ms
    ∧ Forall (λ m, last_processed m = 0) ms'.
Proof.
  intros Hff Hr Hall.
  destruct (report_loop_spec ff step Hff dir [] ms f out e Hr Hall) as (f' & HL & [_ Ho He _]).
  exists (map taken ms), f'. unfold Report, cbind, cget. cbn in HL |- *.
  split; [done|]. split; [done|]. split; [done|]. rewrite !map_map. split; [done|]. split; [done|].
  apply Forall_forall. intros m' (m & <- & _)%list_elem_of_In%in_map_iff. done.
Qed.

Import SysvMq.SimKernel MapOrder.

(** Two metrics, one of them idle, published on the [wissbi.metric] branch. *)
Definition metric_branch : Tee (mq_world sim) :=
  mkTee {[str "wissbi.metric" := 1%nat]} 0 0
    (mkMqWorld {[1%nat := SysvMq.mkSysvMq 5 0 [] true 2048 (mkSim ∅ ∅ 8)]}
               (mkSim ∅ {[5 := []]} 8)).

Lemma report_publishes_witness :
  ∃ ms' f',
    Report default_funcs (str "enqueue")
      (mkRstate [mkMetric (str "foo") 3 10; mkMetric (str "idle") 0 4]
                (fstart String_init metric_branch tt))
    = (Ret tt, mkRstate ms' f') ∧ Forall (λ m, last_processed m = 0) ms'.
Proof.
  pose (sink := tee_message_sink (W:=mq_world sim) (branch_map_ metric_branch) (λ _, [])).
  destruct (report_publishes (PO:=Tee (mq_world sim)) (E:=unit) default_funcs (λ _ e, e)
    (str "enqueue") [mkMetric (str "foo") 3 10; mkMetric (str "idle") 0 4]
    (fstart String_init metric_branch tt) [] tt) as (ms' & f' & HR & _ & _ & _ & _ & Hz).
  - split; [done|done|by intros ? []].
  - split; [done| |done|exact msg_of_wf].
    split; [reflexivity|]. split; [|split; [|split]].
    + intros n1 n2 p. cbn [branch_map_ metric_branch]. rewrite !lookup_singleton_Some. naive_solver.
    + split; [unfold MAX_MSG_SIZE; cbn; lia|].
      intros p q o o'. cbn [tee_world mq_objs metric_branch fstart f_out].
      rewrite !lookup_singleton_Some. naive_solver.
    + intros n p. cbn [branch_map_ metric_branch]. rewrite lookup_singleton_Some.
      intros [_ <-]. eexists. split; reflexivity.
    + intros p. exists []. split; [|constructor]. cbn.
      unfold mq_log. cbn [mq_objs]. rewrite lookup_singleton. by case_decide.
  - repeat constructor; by apply (bool_decide_eq_true_1 _).
  - exists ms', f'. split; [exact HR|exact Hz].
Defined.
