(* ===== verification/Pub.v ===== *)
(** * Pub: the publisher's main thread, [pub.cpp]

    The input filter puts every message on every branch and accounts for it; it
    waits for a first branch with [sleep_while].  At its end [run] waits for the
    producers, reports the metrics and waits for those.  The clock, and what the other threads do while this one
    sleeps, are parameters. *)

From S2P Require Import Prelude Text MsgBuf IOStream MsgFilter Line Length Tee SysvMq Relay Metric.

(** ** sleep_while *)

Section sleep.
(** [now] is the system clock in milliseconds, [nap] what happens during one
    [sleep_for(50ms)]. *)
Context {W : Type} (now : W → Z) (nap : W → W).

(** [duration_cast<seconds>] truncates. *)
Definition seconds_since (start : Z) (w : W) : Z := Z.quot (now w - start) 1000.

Fixpoint sleep_loop (fuel : nat) (cond : W → bool) (second start : Z) (w : W) : option W :=
  match fuel with
  | O => None
  | S fuel' =>
      if cond w then
        if decide (second ≤ seconds_since start w) then Some w
        else sleep_loop fuel' cond second start (nap w)
      else Some w
  end.

Definition sleep_while (fuel : nat) (cond : W → bool) (second : Z) (w : W) : option W :=
  sleep_loop fuel cond second (now w) w.

(** A nap may be cut short by a signal; but time does not run backwards, and any
    [cut] naps in a row take at least the 50 milliseconds of one. *)
Definition paced (cut : nat) : Prop :=
  (∀ w, now w ≤ now (nap w)) ∧ ∀ w, now w + 50 ≤ now (Nat.iter cut nap w).

(** Enough naps for the seconds allowed, and the last look. *)
Definition sleep_fuel (cut : nat) (second : Z) : nat := S (cut * Z.to_nat (20 * second)).

Lemma seconds_since_spec start w second :
  start ≤ now w → second ≤ seconds_since start w ↔ second * 1000 ≤ now w - start ∨ second ≤ 0.
Proof.
  intros Hn. unfold seconds_since. rewrite Z.quot_div_nonneg by lia.
  pose proof (Z.div_pos (now w - start) 1000 ltac:(lia) ltac:(lia)).
  pose proof (Z.mul_div_le (now w - start) 1000 ltac:(lia)).
  pose proof (Z.mul_succ_div_gt (now w - start) 1000 ltac:(lia)). lia.
Qed.

(** The loop ends after some naps, or it goes on through all of its fuel. *)
Lemma sleep_loop_cases fuel cond second start w :
  (∃ k, sleep_loop fuel cond second start w = Some (Nat.iter k nap w)
     ∧ (cond (Nat.iter k nap w) = false ∨ second ≤ seconds_since start (Nat.iter k nap w))
     ∧ (cond w = false → k = O))
  ∨ ∀ k, (k < fuel)%nat → ¬ second ≤ seconds_since start (Nat.iter k nap w).
Proof.
  revert w. induction fuel as [|fuel IH]; intros w; [right; lia|]. cbn [sleep_loop].
  destruct (cond w) eqn:Hc; [|left; by exists O; auto].
  case_decide as Hd; [left; by exists O; auto|].
  destruct (IH (nap w)) as [(k & Hl & He & _)|Hn].
  - left. exists (S k). rewrite Nat.iter_succ_r. done.
  - right. intros [|k] Hk; [done|]. rewrite Nat.iter_succ_r. apply Hn. lia.
Qed.

Lemma sleep_while_keeps (P : W → Prop) fuel cond second w w' :
  (∀ w, P w → P (nap w)) → P w → sleep_while fuel cond second w = Some w' → P w'.
Proof.
  intros HP. unfold sleep_while. generalize (now w) as start. intros start Hs. revert w Hs.
  induction fuel as [|fuel IH]; intros w Hs Hl; [done|]. cbn [sleep_loop] in Hl.
  destruct (cond w); [case_decide|]; [by simplify_eq| |by simplify_eq]. eauto.
Qed.

Lemma paced_iter cut k w : paced cut → now w ≤ now (Nat.iter k nap w).
Proof. intros [Hm _]. induction k as [|k IH]; [done|]. rewrite Nat.iter_succ. pose proof (Hm (Nat.iter k nap w)). lia. Qed.

Lemma paced_naps cut n w : paced cut → now w + 50 * Z.of_nat n ≤ now (Nat.iter (cut * n) nap w).
Proof.
  intros [_ Hp]. induction n as [|n IH]; [rewrite Nat.mul_0_r; cbn; lia|].
  replace (cut * S n)%nat with (cut + cut * n)%nat by lia. rewrite Nat.iter_add.
  pose proof (Hp (Nat.iter (cut * n) nap w)). lia.
Qed.

End sleep.

(** Where a wait ends. *)
Lemma sleep_while_ends {W} (now : W → Z) nap cut cond second w :
  paced now nap cut →
  ∃ w', sleep_while now nap (sleep_fuel cut second) cond second w = Some w'
    ∧ (cond w' = false ∨ second * 1000 ≤ now w' - now w ∨ second ≤ 0)
    ∧ (cond w = false → w' = w).
Proof.
  intros Hp. unfold sleep_while.
  destruct (sleep_loop_cases now nap (sleep_fuel cut second) cond second (now w) w)
    as [(k & Hl & He & Hid)|Hn].
  - exists (Nat.iter k nap w). split; [done|]. split; [|by intros Hc; rewrite (Hid Hc)].
    destruct He as [?|He]; [by left|right].
    pose proof (paced_iter now nap cut k w Hp). apply seconds_since_spec in He; [|done]. lia.
  - destruct (Hn (cut * Z.to_nat (20 * second))%nat); [unfold sleep_fuel; lia|].
    pose proof (paced_naps now nap cut (Z.to_nat (20 * second)) w Hp).
    apply seconds_since_spec; lia.
Qed.

(** ** The input filter of [run] *)

Section input.
Context {PI W : Type} `{IOPolicy PI} `{BranchOps W} `{UnorderedMap}.

(** What the closures capture: the counter shared with the connector, and the one
    metric of [drop_metric_list]. *)
Record pub_vars := mkPub { pending_counter : Z; drop_metric : FilterMetric }.

Definition pub_filter : Type := fstate PI (Tee W) pub_vars.

(** The condition the first message waits on. *)
Definition no_branch (w : pub_filter) : bool := bool_decide (GetBranchCount (f_out w) = 0).

(** [wait] is where [sleep_while] on [no_branch] ends. *)
Definition waits_for (now : pub_filter → Z) (nap : pub_filter → pub_filter) (wait_timeout_sec : Z)
    (wait : pub_filter → pub_filter) : Prop :=
  ∀ w, ∃ fuel, sleep_while now nap fuel no_branch wait_timeout_sec w = Some (wait w).

Lemma waits_for_skip now nap timeout wait w :
  waits_for now nap timeout wait → no_branch w = false → wait w = w.
Proof.
  intros Hw Hb. destruct (Hw w) as [[|fuel] Hs]; [done|].
  unfold sleep_while in Hs. cbn in Hs. rewrite Hb in Hs. by injection Hs.
Qed.

(** The wait itself, with fuel for its naps. *)
Definition pub_wait (now : pub_filter → Z) (nap : pub_filter → pub_filter) (fuel : nat)
    (wait_timeout_sec : Z) (w : pub_filter) : pub_filter :=
  default w (sleep_while now nap fuel no_branch wait_timeout_sec w).

Lemma pub_wait_waits now nap cut timeout :
  paced now nap cut → waits_for now nap timeout (pub_wait now nap (sleep_fuel cut timeout) timeout).
Proof.
  intros Hp w. exists (sleep_fuel cut timeout). unfold pub_wait.
  by destruct (sleep_while_ends now nap cut no_branch timeout w Hp) as (w' & -> & _).
Qed.

Definition pub_pre (wait : pub_filter → pub_filter) : comp pub_filter bool := λ w, (Ret true, wait w).

Definition pub_post (filter_result : bool) : comp pub_filter bool :=
  if filter_result then
    let* _ := cmodify (λ w,
      mkFstate (f_in w) (f_out w)
        (mkPub (uint_wrap (pending_counter (f_ext w) + GetLastTeeCount (f_out w)))
               (add_last (GetLastFailedCount (f_out w)) (drop_metric (f_ext w))))
        (msg_buf_ w)) in
    cret filter_result
  else cret filter_result.

Definition pub_funcs (wait : pub_filter → pub_filter) : filter_funcs PI (Tee W) pub_vars :=
  set_post_filter_func pub_post (set_pre_filter_func (pub_pre wait) default_funcs).

(** The metric input filter's post-filter function: its captured variable is
    [metric_pending_counter]. *)
Definition metric_post {QI QO} (filter_result : bool) : comp (fstate QI QO Z) bool :=
  if filter_result then
    let* _ := cmodify (λ w, mkFstate (f_in w) (f_out w) (uint_wrap (f_ext w + 1)) (msg_buf_ w)) in
    cret filter_result
  else cret filter_result.

(** ** Lemmas *)

Context `{!MessageSource PI} `{!BranchLaws W}.

(** The messages in the logs of the branches. *)
Definition total_log (ps : list ptr) (w : W) : Z := foldr (λ p n, zlen (branch_log p w) + n) 0 ps.

Definition put_total (ps : list ptr) (vs : list (ptr * bool)) : nat :=
  foldr (λ p n, (put_on p vs + n)%nat) 0%nat ps.

Lemma put_total_nil ps : put_total ps [] = 0%nat.
Proof. by induction ps. Qed.

Lemma put_total_cons ps q ok vs :
  NoDup ps → put_total ps ((q, ok) :: vs)
  = ((if decide (q ∈ ps ∧ ok = true) then 1 else 0) + put_total ps vs)%nat.
Proof.
  induction 1 as [|p ps Hp Hnd IH]; [done|]. cbn [put_total foldr].
  fold (put_total ps ((q, ok) :: vs)) (put_total ps vs). rewrite IH, put_on_cons.
  repeat case_decide; try lia; set_solver.
Qed.

Lemma put_total_all ps vs :
  NoDup ps → (∀ v, v ∈ vs.*1 → v ∈ ps) → (put_total ps vs + failed_of vs = length vs)%nat.
Proof.
  intros Hnd. induction vs as [|[q ok] vs IH]; intros Hin.
  - by rewrite put_total_nil.
  - rewrite put_total_cons, failed_of_cons by done. cbn [length].
    rewrite <- IH by (intros v Hv; apply Hin; cbn; by right).
    assert (q ∈ ps) by (apply Hin; cbn; by left).
    destruct ok; [rewrite decide_True by done|rewrite decide_False by naive_solver]; lia.
Qed.

Lemma total_log_grows ps vs m w w' :
  (∀ p, branch_log p w' = branch_log p w ++ replicate (put_on p vs) m) →
  total_log ps w' = total_log ps w + Z.of_nat (put_total ps vs).
Proof.
  intros Hl. induction ps as [|p ps IH]; [done|]. cbn [total_log put_total foldr].
  fold (total_log ps w') (total_log ps w) (put_total ps vs). rewrite IH, Hl, zlen_app.
  unfold zlen at 2. rewrite length_replicate. lia.
Qed.

Lemma sublist_full (l k : list bytes) : l `sublist_of` k → length l = length k → l = k.
Proof.
  induction 1 as [|x l k Hs IH|x l k Hs IH]; cbn; intros He; [done|f_equal; auto with lia|].
  apply sublist_length in Hs. lia.
Qed.

(** When every branch grew as much as it could, each grew by all of it. *)
Lemma total_log_tight ps w w' k :
  (∀ p, zlen (branch_log p w') ≤ zlen (branch_log p w) + k) →
  total_log ps w' ≤ total_log ps w + k * zlen ps
  ∧ (total_log ps w' = total_log ps w + k * zlen ps →
     ∀ p, p ∈ ps → zlen (branch_log p w') = zlen (branch_log p w) + k).
Proof.
  intros Hb. induction ps as [|p ps [IH1 IH2]]; [change (zlen (@nil ptr)) with 0; split; [cbn; lia|set_solver]|].
  rewrite zlen_cons. cbn [total_log foldr]. fold (total_log ps w') (total_log ps w).
  pose proof (Hb p). split; [lia|]. intros He q [->|Hq]%elem_of_cons; [lia|]. apply IH2; [lia|done].
Qed.

(** The publisher with its branches [m0], whose logs were [base] at first: [ms]
    has been put, [rest] is to be read, and [failed] puts were refused. *)
Record publishing (m0 : gmap bytes ptr) (base : ptr → list bytes) (w0 w : pub_filter)
    (ms rest : list bytes) (failed : Z) : Prop := {
  pub_source : source_has (f_in w) rest;
  pub_sink : tee_sink m0 base (f_out w) ms;
  pub_buf : wf_MsgBuf (msg_buf_ w);
  pub_pending : pending_counter (f_ext w)
    = uint_wrap (pending_counter (f_ext w0) + zlen ms * Z.of_nat (size m0));
  pub_dropped : last_processed (drop_metric (f_ext w))
    = uint_wrap (last_processed (drop_metric (f_ext w0)) + failed);
  pub_accounts : total_log (map_to_list m0).*2 (tee_world (f_out w)) + failed
    = total_log (map_to_list m0).*2 (tee_world (f_out w0)) + zlen ms * Z.of_nat (size m0);
  pub_room : ∀ n p, m0 !! n = Some p → branch_room p (ms ++ rest) (tee_world (f_out w0)) →
    branch_log p (tee_world (f_out w)) = base p ++ ms ∧ branch_room p rest (tee_world (f_out w)) }.

Context (wait : pub_filter → pub_filter) (Hwait : ∀ w, no_branch w = false → wait w = w).

Lemma distinct_ptrs (m0 : gmap bytes ptr) : distinct_branches m0 → NoDup (map_to_list m0).*2.
Proof.
  intros Hd. apply NoDup_fmap_2_strong; [|apply NoDup_map_to_list].
  intros [n1 p1] [n2 p2] E1%elem_of_map_to_list E2%elem_of_map_to_list [= <-].
  f_equal. by eapply Hd.
Qed.

Lemma Tee_Put_sink m0 base t ms m b :
  tee_sink m0 base t ms → holds b m →
  ∃ vs b' t', Put b t = (Ret (true, b'), t') ∧ holds b' m ∧ tee_sink m0 base t' (ms ++ [m])
    ∧ vs.*1 ≡ₚ (map_to_list m0).*2
    ∧ GetLastTeeCount t' = Z.of_nat (size m0) ∧ GetLastFailedCount t' = Z.of_nat (failed_of vs)
    ∧ (∀ p, branch_log p (tee_world t') = branch_log p (tee_world t) ++ replicate (put_on p vs) m)
    ∧ ∀ n p ds, m0 !! n = Some p → branch_room p (m :: ds) (tee_world t) →
      branch_log p (tee_world t') = branch_log p (tee_world t) ++ [m] ∧ branch_room p ds (tee_world t').
Proof.
  intros Hs Hb. destruct Hs as (Hm & Hd & Hok & Hh & Hlog) eqn:Es.
  destruct (tee_sink_put m0 base t ms m b Hs Hb) as (b1 & t1 & HP1 & Hb1 & Hs1).
  destruct (tee_loop_spec (traversal (branch_map_ t)) b m (reset_counts t))
    as (vs & b' & t' & HL & Hb' & Hvs & Hbm & Htc & Hfc & _ & _ & Hlog' & _ & Hrm); [done| |done|].
  { intros p Hp. destruct (traversal_values p _ Hp) as [n Hn]. rewrite Hm in Hn. by eapply Hh. }
  assert (HP : Put b t = (Ret (true, b'), t')).
  { cbn. unfold Tee_Put, cbind, cmodify, cget. cbn [branch_map_ reset_counts]. by rewrite HL. }
  rewrite HP1 in HP. injection HP as -> ->. exists vs, b', t'. split; [done|]. split; [done|].
  split; [done|]. split; [by rewrite Hvs, (traversal_perm (branch_map_ t)), Hm|].
  unfold GetLastTeeCount, GetLastFailedCount. rewrite Htc, Hfc, traversal_size, Hm.
  split; [done|]. split; [done|]. split; [exact Hlog'|]. intros n p ds Hn Hr.
  assert (Hin : p ∈ (map_to_list m0).*2).
  { apply list_elem_of_fmap. exists (n, p). split; [done|]. by apply elem_of_map_to_list. }
  assert (Hperm : (traversal (branch_map_ (reset_counts t))).*2 ≡ₚ (map_to_list m0).*2)
    by (cbn [reset_counts branch_map_]; by rewrite (traversal_perm (branch_map_ t)), Hm).
  assert (Hnd : NoDup (traversal (branch_map_ (reset_counts t))).*2)
    by (rewrite Hperm; by apply distinct_ptrs).
  rewrite <- Hperm in Hin. destruct (Hrm Hnd p ds Hin Hr) as [Hne Hr']. split; [|done].
  pose proof (put_on_le p vs) as Hle. rewrite Hvs, (traversal_perm (branch_map_ t)), Hm in Hle.
  pose proof (distinct_values m0 p Hd). rewrite Hlog'. cbn [reset_counts tee_world].
  by assert (put_on p vs = 1%nat) as -> by lia.
Qed.

Lemma publish_one m0 base w0 w ms m rest failed :
  publishing m0 base w0 w ms (m :: rest) failed → m0 ≠ ∅ →
  ∃ w' failed', Filter (pub_funcs wait) w = (Ret true, w')
    ∧ publishing m0 base w0 w' (ms ++ [m]) rest failed' ∧ failed ≤ failed'.
Proof.
  intros [Hsrc Hsnk Hwf Hp Hdr Hac Hrm] Hne.
  assert (Hw : wait w = w).
  { apply Hwait. unfold no_branch, GetBranchCount. apply bool_decide_false.
    destruct Hsnk as (-> & _). intros Hz. apply Hne, map_size_empty_iff. lia. }
  destruct (source_next _ _ _ _ Hsrc Hwf) as (b1 & i1 & HG & Hh1 & Hsrc1).
  destruct (Tee_Put_sink m0 base (f_out w) ms m b1 Hsnk Hh1)
    as (vs & b2 & t2 & HP & Hh2 & Hsnk2 & Hvs & Htc & Hfc & Hlog & Hroom).
  assert (Hpt : (put_total (map_to_list m0).*2 vs + failed_of vs = size m0)%nat).
  { destruct Hsnk as (_ & Hd & _). rewrite put_total_all; [|by apply distinct_ptrs|].
    - rewrite <- (length_fmap fst vs), Hvs, length_fmap. apply length_map_to_list.
    - intros v. by rewrite Hvs. }
  pose proof (total_log_grows (map_to_list m0).*2 vs m _ _ Hlog) as Htl.
  eexists _, (failed + Z.of_nat (failed_of vs)). split.
  { erewrite (Filter_put (pub_funcs wait)); [|cbn; unfold pub_pre; by rewrite Hw|exact HG|done|exact HP].
    reflexivity. }
  split; [|lia]. split; cbn [f_in f_out f_ext msg_buf_ pending_counter drop_metric].
  - done.
  - done.
  - by eapply holds_wf.
  - rewrite Htc, Hp. unfold uint_wrap. rewrite wrap_add_l, zlen_app. f_equal.
    change (zlen [m]) with 1. lia.
  - rewrite Hfc. cbn [last_processed add_last]. rewrite Hdr. unfold uint_wrap.
    rewrite wrap_add_l. f_equal. lia.
  - rewrite Htl, zlen_app. change (zlen [m]) with 1. lia.
  - intros n p Hn Hr. rewrite <- app_assoc in Hr. destruct (Hrm n p Hn Hr) as [Hl Hr1].
    destruct (Hroom n p rest Hn Hr1) as [-> Hr2]. by rewrite Hl, app_assoc.
Qed.

Lemma publish_all m0 base w0 w ms rest failed fuel :
  publishing m0 base w0 w ms rest failed → m0 ≠ ∅ → (length rest < fuel)%nat →
  ∃ w' failed', FilterLoop (pub_funcs wait) fuel w = Some (Ret tt, w')
    ∧ publishing m0 base w0 w' (ms ++ rest) [] failed' ∧ failed ≤ failed'.
Proof.
  intros Hpub Hne. revert w ms failed fuel Hpub. induction rest as [|m rest IH]; intros w ms failed fuel Hpub Hf.
  - destruct Hpub as [Hsrc Hsnk Hwf Hp Hdr Hac Hrm].
    assert (Hw : wait w = w).
    { apply Hwait. unfold no_branch, GetBranchCount. apply bool_decide_false.
      destruct Hsnk as (-> & _). intros Hz. apply Hne, map_size_empty_iff. lia. }
    destruct (source_end _ _ Hsrc Hwf) as (b1 & i1 & HG & Hwf1 & _ & Hsrc1).
    destruct fuel as [|fuel]; [cbn in Hf; lia|]. cbn [FilterLoop].
    erewrite (Filter_get_false (pub_funcs wait)); [|cbn; unfold pub_pre; by rewrite Hw|exact HG].
    eexists _, failed. split; [reflexivity|]. rewrite app_nil_r. by split.
  - destruct (publish_one m0 base w0 w ms m rest failed Hpub Hne) as (w1 & f1 & HF & Hpub1 & Hle).
    destruct fuel as [|fuel]; [cbn in Hf; lia|]. cbn [FilterLoop]. rewrite HF.
    destruct (IH w1 (ms ++ [m]) f1 fuel Hpub1) as (w2 & f2 & HL & Hpub2 & Hle2); [cbn in Hf; lia|].
    exists w2, f2. rewrite <- app_assoc in Hpub2. split; [done|]. split; [done|lia].
Qed.

End input.

(** *** Any branches

    What the input filter needs to go on: [rest] is to be read, and its branches are
    there, if it has any. *)
Definition pub_ready {PI W} `{MessageSource PI} `{BranchOps W} `{!BranchLaws W}
    (rest : list bytes) (w : pub_filter (PI:=PI) (W:=W)) : Prop :=
  source_has (f_in w) rest ∧ wf_MsgBuf (msg_buf_ w) ∧ branches_ok (tee_world (f_out w))
  ∧ ∀ n p, branch_map_ (f_out w) !! n = Some p → has_branch p (tee_world (f_out w)).

Section returns.
Context {PI W : Type} `{MessageSource PI} `{BranchOps W} `{!BranchLaws W} `{UnorderedMap}.
Context (wait : pub_filter (PI:=PI) (W:=W) → pub_filter (PI:=PI) (W:=W)).
Context (Hwait : ∀ rest w, pub_ready rest w → pub_ready rest (wait w)).

Lemma pub_filter_one m rest w :
  pub_ready (m :: rest) w → ∃ w', Filter (pub_funcs wait) w = (Ret true, w') ∧ pub_ready rest w'.
Proof.
  intros Hr. apply Hwait in Hr as (Hsrc & Hwf & Hok & Hh).
  destruct (source_next _ _ _ _ Hsrc Hwf) as (b1 & i1 & HG & Hh1 & Hsrc1).
  set (t := f_out (wait w)) in *.
  destruct (tee_loop_spec (traversal (branch_map_ t)) b1 m (reset_counts t))
    as (vs & b' & t' & HL & Hb' & _ & Hbm & _ & _ & Hok' & Hh' & _); [done| |done|].
  { intros p Hp. destruct (traversal_values p _ Hp) as [n Hn]. by eapply Hh. }
  assert (HP : Put b1 t = (Ret (true, b'), t')).
  { cbn. unfold Tee_Put, cbind, cmodify, cget. cbn [branch_map_ reset_counts]. by rewrite HL. }
  eexists. split; [by erewrite (Filter_put (pub_funcs wait)); [|reflexivity|exact HG|done|exact HP]|].
  split; [done|]. split; [by eapply holds_wf|]. split; [done|]. intros n p Hn.
  apply Hh'. cbn [f_out] in Hn. rewrite Hbm in Hn. by eapply Hh.
Qed.

Lemma publisher_returns rest w fuel :
  pub_ready rest w → (length rest < fuel)%nat →
  ∃ w', FilterLoop (pub_funcs wait) fuel w = Some (Ret tt, w') ∧ pub_ready [] w'.
Proof.
  revert w fuel. induction rest as [|m rest IH]; intros w [|fuel] Hr Hf; cbn [length] in Hf; try lia;
    cbn [FilterLoop].
  - apply Hwait in Hr as (Hsrc & Hwf & Hok & Hh).
    destruct (source_end _ _ Hsrc Hwf) as (b1 & i1 & HG & Hwf1 & _ & Hsrc1).
    erewrite (Filter_get_false (pub_funcs wait)); [|reflexivity|exact HG]. by eexists.
  - destruct (pub_filter_one m rest w Hr) as (w1 & -> & Hr1). apply IH; [done|lia].
Qed.

End returns.

(** How many puts of [ms] on the branches of [w] did not reach their log in [w']. *)
Definition refused {PI W} `{BranchOps W} `{!BranchLaws W} (ms : list bytes)
    (w w' : pub_filter (PI:=PI) (W:=W)) : Z :=
  let ps := (map_to_list (branch_map_ (f_out w))).*2 in
  zlen ms * GetBranchCount (f_out w)
  - (total_log ps (tee_world (f_out w')) - total_log ps (tee_world (f_out w))).

(** The whole input, published. *)
Lemma publisher_run {PI W} `{MessageSource PI} `{BranchOps W} `{!BranchLaws W} `{UnorderedMap}
    now nap timeout (wait : pub_filter (PI:=PI) (W:=W) → pub_filter) w ms fuel :
  waits_for now nap timeout wait → branch_map_ (f_out w) ≠ ∅ →
  tee_sink (branch_map_ (f_out w)) (λ p, branch_log p (tee_world (f_out w))) (f_out w) [] →
  source_has (f_in w) ms → wf_MsgBuf (msg_buf_ w) →
  0 ≤ pending_counter (f_ext w) < 2 ^ 32 → 0 ≤ last_processed (drop_metric (f_ext w)) < 2 ^ 32 →
  (length ms < fuel)%nat →
  ∃ w', FilterLoop (pub_funcs wait) fuel w = Some (Ret tt, w')
    ∧ (∀ p, ∃ l, branch_log p (tee_world (f_out w')) = branch_log p (tee_world (f_out w)) ++ l
                 ∧ l `sublist_of` ms)
    ∧ (∀ n p, branch_map_ (f_out w) !! n = Some p → branch_room p ms (tee_world (f_out w)) →
       branch_log p (tee_world (f_out w')) = branch_log p (tee_world (f_out w)) ++ ms)
    ∧ 0 ≤ refused ms w w'
    ∧ last_processed (drop_metric (f_ext w'))
      = uint_wrap (last_processed (drop_metric (f_ext w)) + refused ms w w')
    ∧ pending_counter (f_ext w')
      = uint_wrap (pending_counter (f_ext w) + zlen ms * GetBranchCount (f_out w))
    ∧ (refused ms w w' = 0 → ∀ n p, branch_map_ (f_out w) !! n = Some p →
       branch_log p (tee_world (f_out w')) = branch_log p (tee_world (f_out w)) ++ ms).
Proof.
  intros Hwf0 Hne Hsnk Hsrc Hwf Hp Hd Hfuel.
  pose proof (λ w, waits_for_skip now nap timeout wait w Hwf0) as Hwait.
  set (m0 := branch_map_ (f_out w)) in *. set (base := λ p, branch_log p (tee_world (f_out w))) in *.
  assert (Hpub : publishing m0 base w w [] ms 0).
  { split; try done; rewrite ?Z.add_0_r; unfold uint_wrap; rewrite ?wrap_small by done; try done.
    intros n p _ Hr. by rewrite app_nil_r. }
  destruct (publish_all wait Hwait m0 base w w [] ms 0 fuel Hpub Hne Hfuel)
    as (w' & failed & HL & [Hs Ho Hb Hp' Hd' Ha Hrm] & Hle).
  cbn [app] in *. exists w'.
  assert (Hgrow : ∀ p, ∃ l, branch_log p (tee_world (f_out w')) = base p ++ l ∧ l `sublist_of` ms)
    by apply Ho.
  assert (Hr : refused ms w w' = failed).
  { unfold refused, GetBranchCount. fold m0. lia. }
  rewrite Hr. split; [done|]. split; [exact Hgrow|]. split.
  { intros n p Hn Hroom. rewrite app_nil_r in Hrm. by destruct (Hrm n p Hn Hroom). }
  split; [done|]. split; [done|]. split; [exact Hp'|].
  intros Hz n p Hn. rewrite Hz in Ha. clear Hr Hz. destruct (Hgrow p) as (l & Hl & Hsub). rewrite Hl. f_equal.
  destruct (total_log_tight (map_to_list m0).*2 (tee_world (f_out w)) (tee_world (f_out w')) (zlen ms))
    as [_ Ht].
  { intros q. destruct (Hgrow q) as (lq & -> & Hq%sublist_length). rewrite zlen_app.
    unfold base, zlen. lia. }
  assert (Hz : zlen (branch_log p (tee_world (f_out w'))) = zlen (base p) + zlen ms).
  { apply Ht.
    - rewrite Z.add_0_r in Ha. rewrite Ha. unfold zlen at 3. by rewrite length_fmap, length_map_to_list.
    - apply list_elem_of_fmap. exists (n, p). split; [done|]. by apply elem_of_map_to_list. }
  rewrite Hl, zlen_app in Hz. apply sublist_full; [done|]. unfold zlen in Hz. lia.
Qed.

(** ** [run] *)

Section run.
Context {PI W PM : Type} `{IOPolicy PI} `{BranchOps W} `{UnorderedMap} `{IOPolicy PM}.

(** The objects of [run] the main thread works on: the input filter, and the
    reporter with the filter of the metric messages, whose captured variable is
    [metric_pending_counter]. *)
Record run_state := mkRun { rn_input : pub_filter (PI:=PI) (W:=W); rn_report : rstate PM Z }.

Definition set_rn_input (w : pub_filter) (s : run_state) : run_state := mkRun w (rn_report s).
Definition set_rn_report (r : rstate PM Z) (s : run_state) : run_state := mkRun (rn_input s) r.

Definition metric_funcs : filter_funcs String_ PM Z := set_post_filter_func metric_post default_funcs.

(** [now] and [nap] as before; during a nap the other threads change the state. *)
Context (now : run_state → Z) (nap : run_state → run_state).

Definition is_pending (s : run_state) : bool :=
  bool_decide (0 < pending_counter (f_ext (rn_input s))).
Definition is_metric_pending (s : run_state) : bool :=
  bool_decide (0 < f_ext (input_filter_ (rn_report s))).

(** What follows the input filter's loop. *)
Definition run_end (fuel : nat) (wait_timeout_sec : Z) (s : run_state)
  : option (outcome unit * run_state) :=
  s1 ← sleep_while now nap fuel is_pending wait_timeout_sec s;
  match zoom rn_report set_rn_report (Report metric_funcs (str "enqueue")) s1 with
  | (Ret _, s2) =>
      s3 ← sleep_while now nap fuel is_metric_pending wait_timeout_sec s2; Some (Ret tt, s3)
  | r => Some r
  end.

Definition run_main (wait : pub_filter → pub_filter) (fuel fuel_wait : nat) (wait_timeout_sec : Z)
    (s : run_state) : option (outcome unit * run_state) :=
  match FilterLoop (pub_funcs wait) fuel (rn_input s) with
  | Some (Ret _, w) => run_end fuel_wait wait_timeout_sec (set_rn_input w s)
  | Some (o, w) => Some (o, set_rn_input w s)
  | None => None
  end.

(** *** Lemmas *)

Lemma metric_funcs_count :
  counts metric_funcs (λ r e, if r then uint_wrap (e + 1) else e).
Proof. split; [done|done|]. by intros [] []. Qed.

(** The reporter can work: its filter is ready and its messages fit. *)
Definition can_report `{!MessageSink PM} (r : rstate PM Z) : Prop :=
  (∃ out, ready (input_filter_ r) out (f_ext (input_filter_ r)))
  ∧ Forall (λ m, length_fits (metric_line (str "enqueue") m) ∧ sink_ok (metric_line (str "enqueue") m))
      (metric_list_ r).

(** How a wait of [second] seconds from [s] to [s'] ended. *)
Definition waited (cond : run_state → bool) (second : Z) (s s' : run_state) : Prop :=
  cond s' = false ∨ second * 1000 ≤ now s' - now s ∨ second ≤ 0.

(** The last steps of [run]. *)
Lemma run_end_returns `{!MessageSink PM} cut timeout s :
  paced now nap cut →
  (∀ s, can_report (rn_report s) → can_report (rn_report (nap s))) → can_report (rn_report s) →
  ∃ s1 s2 s3, run_end (sleep_fuel cut timeout) timeout s = Some (Ret tt, s3)
    ∧ waited is_pending timeout s s1
    ∧ (∀ out, ready (input_filter_ (rn_report s1)) out (f_ext (input_filter_ (rn_report s1))) →
       ∃ f, ready f (out ++ report_lines (str "enqueue") (metric_list_ (rn_report s1))) (f_ext f)
         ∧ s2 = set_rn_report (mkRstate (map taken (metric_list_ (rn_report s1))) f) s1)
    ∧ waited is_metric_pending timeout s2 s3.
Proof.
  intros Hnap Hkeep Hs.
  destruct (sleep_while_ends now nap cut is_pending timeout s Hnap) as (s1 & Hw1 & E1 & _).
  assert (Hs1 : can_report (rn_report s1)).
  { by apply (sleep_while_keeps now nap (λ s, can_report (rn_report s)) _ _ _ _ _ Hkeep Hs Hw1). }
  destruct Hs1 as [[out Hr] Hall].
  destruct (report_loop_spec metric_funcs _ metric_funcs_count (str "enqueue") []
              (metric_list_ (rn_report s1)) (input_filter_ (rn_report s1)) out _ Hr Hall)
    as (f & HL & Hr').
  set (s2 := set_rn_report (mkRstate (map taken (metric_list_ (rn_report s1))) f) s1).
  assert (HR : zoom rn_report set_rn_report (Report metric_funcs (str "enqueue")) s1 = (Ret tt, s2)).
  { unfold zoom, Report, cbind, cget. destruct (rn_report s1) as [ms f0]. cbn in HL |- *. by rewrite HL. }
  destruct (sleep_while_ends now nap cut is_metric_pending timeout s2 Hnap) as (s3 & Hw3 & E3 & _).
  exists s1, s2, s3. split; [unfold run_end, mbind, option_bind; by rewrite Hw1, HR, Hw3|].
  split; [done|]. split; [|done]. intros out' Hr2.
  destruct (report_loop_spec metric_funcs _ metric_funcs_count (str "enqueue") []
              (metric_list_ (rn_report s1)) (input_filter_ (rn_report s1)) out' _ Hr2 Hall)
    as (f' & HL' & Hr2').
  rewrite HL in HL'. injection HL' as <-. exists f. split; [|done]. destruct Hr2'. by split.
Qed.

End run.

Arguments run_state : clear implicits.

(** ** Properties *)

(** A wait ends: when any [cut] naps in a row take at least the 50 milliseconds
    of one, [sleep_while] returns after at most twenty times [cut] naps for each
    second allowed, with the condition gone or the time used up; when the condition
    does not hold at first it returns without a nap. *)
Theorem sleep_while_returns {W} (now : W → Z) nap cut cond second w :
  paced now nap cut →
  ∃ w', sleep_while now nap (sleep_fuel cut second) cond second w = Some w'
    ∧ (cond w' = false ∨ second * 1000 ≤ now w' - now w ∨ second ≤ 0)
    ∧ (cond w = false → w' = w).
Proof. apply sleep_while_ends. Qed.

(** C6: with at least one subscriber's branch there, branches that drop what they
    have no room for (as they do unless WISSBI_DROP_MESSAGE is [no]), and no other
    thread at the filter or the branches meanwhile, the publisher reads its whole
    input and puts every message once on every branch: a branch with room for the
    messages gets all of them in order, any other the ones it did not refuse, in
    order.  The number of the refused puts, which is what the logs lack, is added
    to the drop count; the pending counter grows by one per message and branch, the
    refused ones included; and when none was refused every branch has every
    message.  (The counters are unsigned and wrap; the logs do not.) *)
Theorem publisher_fans_out {PI W} `{MessageSource PI} `{BranchOps W} `{!BranchLaws W} `{UnorderedMap}
    now nap timeout (wait : pub_filter (PI:=PI) (W:=W) → pub_filter) w ms fuel :
  waits_for now nap timeout wait → branch_map_ (f_out w) ≠ ∅ →
  tee_sink (branch_map_ (f_out w)) (λ p, branch_log p (tee_world (f_out w))) (f_out w) [] →
  source_has (f_in w) ms → wf_MsgBuf (msg_buf_ w) →
  0 ≤ pending_counter (f_ext w) < 2 ^ 32 → 0 ≤ last_processed (drop_metric (f_ext w)) < 2 ^ 32 →
  (length ms < fuel)%nat →
  ∃ w', FilterLoop (pub_funcs wait) fuel w = Some (Ret tt, w')
    ∧ (∀ p, ∃ l, branch_log p (tee_world (f_out w')) = branch_log p (tee_world (f_out w)) ++ l
                 ∧ l `sublist_of` ms)
    ∧ (∀ n p, branch_map_ (f_out w) !! n = Some p → branch_room p ms (tee_world (f_out w)) →
       branch_log p (tee_world (f_out w')) = branch_log p (tee_world (f_out w)) ++ ms)
    ∧ 0 ≤ refused ms w w'
    ∧ last_processed (drop_metric (f_ext w'))
      = uint_wrap (last_processed (drop_metric (f_ext w)) + refused ms w w')
    ∧ pending_counter (f_ext w')
      = uint_wrap (pending_counter (f_ext w) + zlen ms * GetBranchCount (f_out w))
    ∧ (refused ms w w' = 0 → ∀ n p, branch_map_ (f_out w) !! n = Some p →
       branch_log p (tee_world (f_out w')) = branch_log p (tee_world (f_out w)) ++ ms).
Proof. apply publisher_run. Qed.

(** C7: the publisher's [run] returns, with any subscribers or none, as long as the
    clock is not set back and of any [cut] naps in a row, which signals may cut
    short, the sum is at least the 50 milliseconds of one; the branches, which other
    threads may add and empty during a nap, drop what they have no room for; and
    the other threads leave the input, the buffer and the filter of the metric
    messages usable.  The wait before each message ends; the whole input is read;
    then [run] waits until nothing is pending or its timeout is over, reports what
    the producers processed, one metric message per active branch, and waits in the
    same way for those. *)
Theorem run_returns {PI W PM} `{MessageSource PI} `{BranchOps W} `{!BranchLaws W} `{UnorderedMap}
    `{MessageSink PM} cut timeout now nap now' nap' (s : run_state PI W PM) ms fuel :
  paced now nap cut → paced now' nap' cut →
  (∀ s : run_state PI W PM, can_report (rn_report s) → can_report (rn_report (nap s))) →
  (∀ rest w, pub_ready rest w → pub_ready rest (nap' w)) →
  can_report (rn_report s) → pub_ready ms (rn_input s) → (length ms < fuel)%nat →
  let wait := pub_wait now' nap' (sleep_fuel cut timeout) timeout in
  waits_for now' nap' timeout wait
  ∧ ∃ w s1 s2 s3,
    run_main now nap wait fuel (sleep_fuel cut timeout) timeout s = Some (Ret tt, s3)
    ∧ FilterLoop (pub_funcs wait) fuel (rn_input s) = Some (Ret tt, w) ∧ source_has (f_in w) []
    ∧ waited now is_pending timeout (set_rn_input w s) s1
    ∧ (∀ out, ready (input_filter_ (rn_report s1)) out (f_ext (input_filter_ (rn_report s1))) →
       ∃ f, ready f (out ++ report_lines (str "enqueue") (metric_list_ (rn_report s1))) (f_ext f)
         ∧ s2 = set_rn_report (mkRstate (map taken (metric_list_ (rn_report s1))) f) s1)
    ∧ waited now is_metric_pending timeout s2 s3.
Proof.
  intros Hnap Hnap' Hkeep Hkeep' Hs Hr Hf wait. split; [by apply pub_wait_waits|].
  destruct (publisher_returns wait) with (rest := ms) (w := rn_input s) (fuel := fuel)
    as (w & HL & Hsrc & _); [|done..|].
  { intros rest w Hw. destruct (sleep_while_ends now' nap' cut no_branch timeout w Hnap') as (w' & E & _).
    unfold wait, pub_wait. rewrite E. cbn [default].
    exact (sleep_while_keeps now' nap' (pub_ready rest) _ _ _ _ _ (Hkeep' rest) Hw E). }
  destruct (run_end_returns now nap cut timeout (set_rn_input w s) Hnap Hkeep Hs)
    as (s1 & s2 & s3 & HR & ?).
  exists w, s1, s2, s3. split; [unfold run_main; by rewrite HL|]. done.
Qed.

(** When the wait for a subscriber runs out with no branch there, the message
    is taken from the input and reported as published, although nothing holds it
    and neither counter shows it. *)
Theorem publisher_drops_unheard {PI W} `{MessageSource PI} `{BranchOps W} `{UnorderedMap}
    now nap timeout (wait : pub_filter (PI:=PI) (W:=W) → pub_filter) w m ms :
  waits_for now nap timeout wait → branch_map_ (f_out (wait w)) = ∅ → source_has (f_in (wait w)) (m :: ms) →
  wf_MsgBuf (msg_buf_ (wait w)) → 0 ≤ pending_counter (f_ext (wait w)) < 2 ^ 32 →
  0 ≤ last_processed (drop_metric (f_ext (wait w))) < 2 ^ 32 →
  ∃ w', Filter (pub_funcs wait) w = (Ret true, w') ∧ source_has (f_in w') ms
    ∧ tee_world (f_out w') = tee_world (f_out (wait w)) ∧ f_ext w' = f_ext (wait w).
Proof.
  intros _ Hm Hsrc Hwf Hp Hd.
  destruct (source_next _ _ _ _ Hsrc Hwf) as (b1 & i1 & HG & Hh1 & Hsrc1).
  set (t := f_out (wait w)) in *.
  assert (HP : Put b1 t = (Ret (true, b1), reset_counts t)).
  { cbn. unfold Tee_Put, cbind, cmodify, cget. cbn [branch_map_ reset_counts]. rewrite Hm.
    assert (traversal ∅ = []) as ->; [|done].
    apply Permutation_nil_r. by rewrite traversal_perm, map_to_list_empty. }
  eexists. split.
  { erewrite (Filter_put (pub_funcs wait)); [|reflexivity|exact HG|done|exact HP]. reflexivity. }
  cbn. split; [done|]. split; [done|]. destruct (f_ext (wait w)) as [pc [nm l tt]].
  cbn in *. unfold add_last, uint_wrap. cbn -[wrap]. by rewrite !Z.add_0_r, !wrap_small.
Qed.

(** ** Witnesses *)

Lemma sleep_while_returns_witness :
  ∃ w', sleep_while (λ t, t) (λ t, t + 60) (sleep_fuel 1 1) (λ t, bool_decide (t < 400)) 1 100 = Some w'
    ∧ (bool_decide (w' < 400) = false ∨ 1 * 1000 ≤ w' - 100 ∨ 1 ≤ 0).
Proof.
  destruct (sleep_while_returns (λ t, t) (λ t, t + 60) 1 (λ t, bool_decide (t < 400)) 1 100)
    as (w' & Hs & He & _); [split; intros w; cbn; lia|]. exists w'. split; [exact Hs|exact He].
Defined.

Import SimKernel MapOrder.

(** A publisher with the given input and queues behind its branches; its timeout
    is zero, so that it never naps. *)
Definition pub_example (input : bytes) (branches : gmap bytes ptr) : fstate Line (Tee (mq_world sim)) pub_vars :=
  mkFstate (line_start input)
    (mkTee branches 0 0
      (mkMqWorld {[1%nat := mkSysvMq 5 0 [] true 2048 (mkSim ∅ ∅ 8)]} (mkSim ∅ {[5 := []]} 8)))
    (mkPub 0 (FilterMetric_new (str "foo"))) (msg_of []).

(** The one branch [foo], with nothing put on it yet. *)
Lemma pub_example_sink input :
  let t := f_out (pub_example input {[str "foo" := 1%nat]}) in
  tee_sink (branch_map_ t) (λ p, branch_log p (tee_world t)) t [].
Proof.
  split; [reflexivity|]. cbn [f_out pub_example branch_map_ tee_world].
  split; [|split; [|split]].
  - intros n1 n2 p. rewrite !lookup_singleton_Some. naive_solver.
  - split; [unfold MAX_MSG_SIZE; cbn; lia|].
    intros p q o o'. cbn [mq_objs]. rewrite !lookup_singleton_Some. naive_solver.
  - intros n p. rewrite lookup_singleton_Some. intros [_ <-].
    eexists. split; reflexivity.
  - intros p. exists []. split; [by rewrite app_nil_r|constructor].
Qed.

Lemma never_naps :
  waits_for (PI:=Line) (W:=mq_world sim) (λ _, 0) (λ w, w) 0 (λ w, w).
Proof. intros w. exists 1%nat. unfold sleep_while. cbn. by destruct (no_branch w). Qed.

Lemma publisher_fans_out_witness :
  let w := pub_example (str "a" ++ [LF] ++ str "b" ++ [LF]) {[str "foo" := 1%nat]} in
  ∃ w', FilterLoop (pub_funcs (λ w, w)) 3 w = Some (Ret tt, w')
    ∧ branch_log 1%nat (tee_world (f_out w')) = [str "a"; str "b"]
    ∧ pending_counter (f_ext w') = uint_wrap (0 + zlen [str "a"; str "b"] * GetBranchCount (f_out w)).
Proof.
  intros w.
  destruct (publisher_fans_out (λ _, 0) (λ w, w) 0 (λ w, w) w [str "a"; str "b"] 3)
    as (w' & HL & _ & Hroom & _ & _ & Hp & _).
  - exact never_naps.
  - intros He. apply (f_equal (lookup (str "foo"))) in He.
    cbn [f_out w pub_example branch_map_] in He. by rewrite lookup_singleton_eq, lookup_empty in He.
  - apply pub_example_sink.
  - apply line_start_source. by apply (bool_decide_eq_true_1 _).
  - exact msg_of_wf.
  - by apply (bool_decide_eq_true_1 _).
  - by apply (bool_decide_eq_true_1 _).
  - cbn. lia.
  - exists w'. split; [exact HL|]. split; [|exact Hp]. apply (Hroom (str "foo") 1%nat).
    + reflexivity.
    + eexists. split; [reflexivity|]. split; [eexists; vm_compute; reflexivity|].
      eexists. split; [vm_compute; reflexivity|]. cbn. lia.
Defined.

Lemma publisher_drops_unheard_witness :
  let w := pub_example (str "lost" ++ [LF]) ∅ in
  ∃ w', Filter (pub_funcs (λ w, w)) w = (Ret true, w') ∧ source_has (f_in w') [] ∧ f_ext w' = f_ext w.
Proof.
  intros w.
  destruct (publisher_drops_unheard (λ _, 0) (λ w, w) 0 (λ w, w) w (str "lost") [])
    as (w' & HF & Hs & _ & He).
  - exact never_naps.
  - reflexivity.
  - apply (line_start_source (str "lost" ++ [LF])). by apply (bool_decide_eq_true_1 _).
  - exact msg_of_wf.
  - by apply (bool_decide_eq_true_1 _).
  - by apply (bool_decide_eq_true_1 _).
  - exists w'. split; [exact HF|]. split; [exact Hs|exact He].
Defined.

(** A publisher without a subscriber that reports to an output of lines; a nap
    takes half a second, which the drop metric's total keeps, every second one is
    cut short at once, and during each one message is sent. *)
Definition slow_nap {PI W} (w : fstate PI (Tee W) pub_vars) : fstate PI (Tee W) pub_vars :=
  mkFstate (f_in w) (f_out w)
    (mkPub (uint_wrap (pending_counter (f_ext w) - 1))
       (mkMetric [] 0 (total_processed (drop_metric (f_ext w)) + 1))) (msg_buf_ w).

Definition slow_now {PI W} (w : fstate PI (Tee W) pub_vars) : Z :=
  500 * (total_processed (drop_metric (f_ext w)) `div` 2).

Lemma slow_paced {PI W} : paced (slow_now (PI:=PI) (W:=W)) slow_nap 2.
Proof.
  split; intros w; unfold slow_now; cbn [Nat.iter nat_rect slow_nap f_ext drop_metric total_processed].
  - pose proof (Z.div_le_mono (total_processed (drop_metric (f_ext w)))
      (total_processed (drop_metric (f_ext w)) + 1) 2 ltac:(lia) ltac:(lia)). lia.
  - rewrite <- Z.add_assoc, (Z.div_add _ 1 2) by lia. lia.
Qed.

Definition run_example : run_state Line (mq_world sim) Line :=
  mkRun (pub_example (str "a" ++ [LF] ++ str "b" ++ [LF]) ∅)
    (mkRstate [mkMetric (str "foo") 2 2; mkMetric (str "idle") 0 4] (fstart String_init (line_start []) 0)).

Lemma run_example_report : can_report (rn_report run_example).
Proof.
  split.
  - exists []. split; [done|reflexivity|done|exact msg_of_wf].
  - repeat constructor; first [by intros E; vm_compute in E|by apply (bool_decide_eq_true_1 _)].
Qed.

Lemma run_returns_witness :
  let now := λ s : run_state Line (mq_world sim) Line, slow_now (rn_input s) in
  let nap := λ s, set_rn_input (slow_nap (rn_input s)) s in
  let wait := pub_wait slow_now slow_nap (sleep_fuel 2 1) 1 in
  ∃ w s1 s3, run_main now nap wait 3 (sleep_fuel 2 1) 1 run_example = Some (Ret tt, s3)
    ∧ waited now is_pending 1 (set_rn_input w run_example) s1.
Proof.
  intros now nap wait.
  destruct (run_returns 2 1 now nap slow_now slow_nap run_example [str "a"; str "b"] 3)
    as (_ & w & s1 & s2 & s3 & HR & _ & _ & Hw & _).
  - split; intros s; [apply (proj1 slow_paced)|]. exact (proj2 slow_paced (rn_input s)).
  - exact slow_paced.
  - intros s Hs. exact Hs.
  - intros rest w Hw. exact Hw.
  - exact run_example_report.
  - split; [apply line_start_source; by apply (bool_decide_eq_true_1 _)|].
    split; [exact msg_of_wf|]. split.
    + split; [unfold MAX_MSG_SIZE; cbn; lia|].
      intros p q o o'. cbn [mq_objs rn_input run_example pub_example f_out tee_world].
      rewrite !lookup_singleton_Some. naive_solver.
    + intros n p Hn. cbn in Hn. by rewrite lookup_empty in Hn.
  - cbn. lia.
  - exists w, s1, s3. split; [exact HR|exact Hw].
Defined.
