(* ===== verification/Reporter.v ===== *)
(** * Reporter: the reporter thread of [run] in [pub.cpp]

    While the publisher works a detached thread reports the metrics every second;
    when it ends, its main thread reports them once more.  Both use the metric
    lists and the one filter of the metric messages without a lock.  A step is one
    access to them: taking a count, [Send], or [Filter]. *)

From S2P Require Import Prelude Text MsgBuf IOStream MsgFilter Line Length Tee SysvMq Relay StringConv Metric Pub.

(** ** The threads *)

(** [metric_reporter] and [drop_metric_reporter]. *)
Inductive which := Enqueue | Drop.

#[export] Instance which_eq_dec : EqDecision which.
Proof. solve_decision. Defined.

Definition direction (d : which) : bytes :=
  match d with Enqueue => str "enqueue" | Drop => str "drop" end.

(** Where a thread is: before [Report] (the reporter in its [sleep_for]), in the
    loop over a list with [i] metrics left, at the first of these with a line to
    send and [i] metrics behind it, the same with the line sent, and after its last
    report.  An iterator of a [std::list] is the number of metrics from it to the end
    of the list, which a metric added at the front does not change. *)
Inductive rep_pc :=
  | RpStart
  | RpTake (d : which) (i : nat)
  | RpSend (d : which) (i : nat) (line : bytes)
  | RpFilter (d : which) (i : nat) (line : bytes)
  | RpEnd.

Inductive rep_thread := MainThread | ReporterThread.

#[export] Instance rep_thread_eq_dec : EqDecision rep_thread.
Proof. solve_decision. Defined.

(** The loop of the thread goes from one report to the other and back to its
    [sleep_for]; [main] reports once.  The lists are those the loops begin with. *)
Definition next_report (lists : which → list FilterMetric) (t : rep_thread) (d : which) : rep_pc :=
  match t, d with
  | MainThread, _ => RpEnd
  | ReporterThread, Enqueue => RpTake Drop (length (lists Drop))
  | ReporterThread, Drop => RpStart
  end.

Section reporter.
Context {PM : Type} `{IOPolicy PM}.

Abbreviation mfilter := (fstate String_ PM Z).

(** The two lists, each from its back to its front, the filter, the threads, and
    whether [run] has returned. *)
Record rp_state := mkRp {
  rp_lists : which → list FilterMetric; rp_filter : mfilter;
  rp_pcs : rep_thread → rep_pc; rp_returned : bool }.

Definition set_pc (t : rep_thread) (pc : rep_pc) (s : rp_state) : rp_state :=
  mkRp (rp_lists s) (rp_filter s) (upd t pc (rp_pcs s)) (rp_returned s).
Definition set_list (d : which) (ms : list FilterMetric) (s : rp_state) : rp_state :=
  mkRp (upd d ms (rp_lists s)) (rp_filter s) (rp_pcs s) (rp_returned s).
Definition set_rfilter (f : mfilter) (s : rp_state) : rp_state :=
  mkRp (rp_lists s) f (rp_pcs s) (rp_returned s).

(** What happens: a step of a thread; another thread counts [n] messages of the
    metric with [i] metrics behind it, or puts a new metric at the front of the
    connector's list; [run] returns. *)
Inductive rp_event :=
  | Step (t : rep_thread)
  | CountOf (d : which) (i : nat) (n : Z)
  | NewMetric (m : FilterMetric)
  | RunReturns.

(** A step of a thread, [Report] taken apart. *)
Definition rep_step (t : rep_thread) : comp rp_state unit := λ s,
  match rp_pcs s t with
  | RpStart => (Ret tt, set_pc t (RpTake Enqueue (length (rp_lists s Enqueue))) s)
  | RpTake d O => (Ret tt, set_pc t (next_report (rp_lists s) t d) s)
  | RpTake d (S i) =>
      match rp_lists s d !! i with
      | None => (Undef EndDeref, s)
      | Some metric =>
          let '(last, metric1) := exchange_last metric in
          (Ret tt, set_pc t (if decide (last = 0) then RpTake d i
                             else RpSend d i (metric_line (direction d) metric))
                     (set_list d (<[i := metric1]> (rp_lists s d)) s))
      end
  | RpSend d i line =>
      (let* _ := zoom rp_filter set_rfilter (on_input (Send line)) in
       cmodify (set_pc t (RpFilter d i line))) s
  | RpFilter d i line =>
      (let* _ := zoom rp_filter set_rfilter (Filter metric_funcs) in
       cmodify (set_pc t (RpTake d i))) s
  | RpEnd => (Ret tt, s)
  end.

(** The step an event is, when it can happen; the objects are those of [run],
    which waits for its own report and not for the thread's. *)
Definition rp_step (e : rp_event) (s : rp_state) : option (outcome unit * rp_state) :=
  match e with
  | Step t =>
      match t, rp_pcs s t with
      | MainThread, RpEnd => None
      | MainThread, _ => Some (rep_step t s)
      | ReporterThread, _ =>
          Some (if rp_returned s then (Undef DanglingReference, s) else rep_step t s)
      end
  | CountOf d i n =>
      match rp_lists s d !! i with
      | Some m => Some (Ret tt, set_list d (<[i := add_last n m]> (rp_lists s d)) s)
      | None => None
      end
  | NewMetric m => (* push_front *)
      Some (Ret tt, set_list Enqueue (rp_lists s Enqueue ++ [m]) s)
  | RunReturns =>
      match rp_pcs s MainThread with
      | RpEnd => Some (Ret tt, mkRp (rp_lists s) (rp_filter s) (rp_pcs s) true)
      | _ => None
      end
  end.

Fixpoint rp_run (es : list rp_event) (s : rp_state) : option (outcome unit * rp_state) :=
  match es with
  | [] => Some (Ret tt, s)
  | e :: es' => match rp_step e s with Some (Ret _, s') => rp_run es' s' | r => r end
  end.

(** ** What the events did *)

(** The metric an event takes, as it was. *)
Definition takes (e : rp_event) (s : rp_state) : list (which * nat * FilterMetric) :=
  match e with
  | Step t =>
      match rp_pcs s t with
      | RpTake d (S i) => match rp_lists s d !! i with Some m => [(d, i, m)] | None => [] end
      | _ => []
      end
  | _ => []
  end.

Fixpoint run_takes (es : list rp_event) (s : rp_state) : list (which * nat * FilterMetric) :=
  match es with
  | [] => []
  | e :: es' =>
      takes e s ++ match rp_step e s with Some (Ret _, s') => run_takes es' s' | _ => [] end
  end.

(** The lines to publish for what was taken. *)
Definition lines_of (ts : list (which * nat * FilterMetric)) : list bytes :=
  omap (λ t, let '(d, _, m) := t in
             if decide (last_processed m = 0) then None else Some (metric_line (direction d) m)) ts.

(** A line taken and not yet published. *)
Definition line_at (pc : rep_pc) : list bytes :=
  match pc with RpSend _ _ line | RpFilter _ _ line => [line] | _ => [] end.
Definition in_flight (s : rp_state) : list bytes :=
  line_at (rp_pcs s MainThread) ++ line_at (rp_pcs s ReporterThread).

(** What was taken of one metric, and what was counted on it. *)
Definition taken_of (d : which) (i : nat) (ts : list (which * nat * FilterMetric)) : Z :=
  foldr (λ t a, let '(d', i', m) := t in
                if decide (d' = d ∧ i' = i) then last_processed m + a else a) 0 ts.
Definition counted_on (d : which) (i : nat) (es : list rp_event) : Z :=
  foldr (λ e a, match e with
                | CountOf d' i' n => if decide (d' = d ∧ i' = i) then n + a else a
                | _ => a
                end) 0 es.

(** The threads are apart: not both are between [Send] and [Filter], and neither
    sends while the other is. *)
Definition has_sent (pc : rep_pc) : bool := match pc with RpFilter _ _ _ => true | _ => false end.
Definition apart (s : rp_state) : Prop :=
  has_sent (rp_pcs s MainThread) && has_sent (rp_pcs s ReporterThread) = false.

Fixpoint stays_apart (es : list rp_event) (s : rp_state) : Prop :=
  apart s ∧
  match es with
  | [] => True
  | e :: es' => match rp_step e s with Some (Ret _, s') => stays_apart es' s' | _ => True end
  end.

(** ** Lemmas *)

Definition other (t : rep_thread) : rep_thread :=
  match t with MainThread => ReporterThread | ReporterThread => MainThread end.

Lemma in_flight_set_pc t pc s :
  in_flight (set_pc t pc s) ≡ₚ line_at pc ++ line_at (rp_pcs s (other t)).
Proof.
  unfold in_flight, set_pc. destruct t; cbn [rp_pcs other]; rewrite upd_eq, upd_ne by done; [done|].
  apply Permutation_app_comm.
Qed.

Lemma in_flight_at t s : in_flight s ≡ₚ line_at (rp_pcs s t) ++ line_at (rp_pcs s (other t)).
Proof. destruct t; [done|]. apply Permutation_app_comm. Qed.

Lemma apart_at t s : apart s → has_sent (rp_pcs s t) = true → has_sent (rp_pcs s (other t)) = false.
Proof. unfold apart. destruct t; cbn [other]; intros Ha Hs; rewrite Hs in Ha; [done|by rewrite andb_comm in Ha]. Qed.

(** *** What a step keeps *)

Context `{!MessageSink PM}.

Definition line_ok (line : bytes) : Prop := length_fits line ∧ sink_ok line.

(** A metric whose line fits a message, whatever it counts. *)
Definition metric_ok (m : FilterMetric) : Prop :=
  0 ≤ last_processed m < 2 ^ 32
  ∧ ∀ d n, 0 ≤ n < 2 ^ 32 → line_ok (metric_line (direction d) (mkMetric (name m) n 0)).

Lemma metric_ok_line m d : metric_ok m → line_ok (metric_line (direction d) m).
Proof. intros [Hr Hl]. apply (Hl d (last_processed m) Hr). Qed.

Lemma metric_ok_taken m : metric_ok m → metric_ok (exchange_last m).2.
Proof. intros [_ Hl]. split; [cbn; lia|exact Hl]. Qed.

Lemma metric_ok_add n m : metric_ok m → metric_ok (add_last n m).
Proof. intros [_ Hl]. split; [by apply wrap_range|exact Hl]. Qed.

(** The filter has [line] in its string, put there by [Send]. *)
Definition sent (line : bytes) (f : mfilter) : Prop :=
  ∃ i, String_good i ∧ Send line i = (Ret tt, f_in f).

(** [out] has been published; [e0] is what the pending counter was before. *)
Record rp_inv (e0 : Z) (out : list bytes) (s : rp_state) : Prop := {
  ri_sink : sink_has (f_out (rp_filter s)) out;
  ri_buf : wf_MsgBuf (msg_buf_ (rp_filter s));
  ri_pending : f_ext (rp_filter s) = uint_wrap (e0 + zlen out);
  ri_sent : ∀ t d i line, rp_pcs s t = RpFilter d i line → sent line (rp_filter s);
  ri_good : (∀ t, has_sent (rp_pcs s t) = false) → String_good (f_in (rp_filter s));
  ri_metrics : ∀ d, Forall metric_ok (rp_lists s d);
  ri_lines : Forall line_ok (in_flight s) }.

Definition event_ok (e : rp_event) : Prop := match e with NewMetric m => metric_ok m | _ => True end.

(** The step in the sink and the filter. *)
Lemma Filter_sent f line out e0 :
  sent line f → line_ok line → sink_has (f_out f) out → wf_MsgBuf (msg_buf_ f) →
  f_ext f = uint_wrap (e0 + zlen out) →
  ∃ f', Filter metric_funcs f = (Ret true, f') ∧ sink_has (f_out f') (out ++ [line])
    ∧ wf_MsgBuf (msg_buf_ f') ∧ String_good (f_in f')
    ∧ f_ext f' = uint_wrap (e0 + zlen (out ++ [line])).
Proof.
  intros (i & Hi & Hs) [Hf Hok] Ho Hb He.
  destruct (Send_Get_message line (msg_buf_ f) i Hi Hf Hb) as (b1 & i1 & HG & Hh & Hi1).
  rewrite (cbind_ret _ _ _ _ _ Hs) in HG.
  destruct (sink_put _ _ _ _ Ho Hh Hok) as (b2 & o2 & HP & Hh2 & Ho2).
  eexists. split.
  { erewrite Filter_put; [|reflexivity|exact HG|reflexivity|exact HP]. reflexivity. }
  cbn. split; [done|]. split; [by eapply holds_wf|]. split; [done|].
  rewrite He, zlen_app. unfold uint_wrap. rewrite wrap_add_l. f_equal. change (zlen [line]) with 1. lia.
Qed.

Lemma other_ne t : other t ≠ t.
Proof. by destruct t. Qed.

Lemma not_other t t' : t' ≠ t → t' = other t.
Proof. by destruct t, t'. Qed.

Lemma lines_of_app a b : lines_of (a ++ b) = lines_of a ++ lines_of b.
Proof. apply omap_app. Qed.

(** A step that leaves the filter alone and moves one thread, to a place where it
    has not sent, keeps the filter's part of the invariant. *)
Lemma sent_moved t pc s :
  has_sent pc = false → has_sent (rp_pcs s t) = false →
  (∀ t d i line, rp_pcs s t = RpFilter d i line → sent line (rp_filter s)) →
  ((∀ t, has_sent (rp_pcs s t) = false) → String_good (f_in (rp_filter s))) →
  (∀ t' d i line, upd t pc (rp_pcs s) t' = RpFilter d i line → sent line (rp_filter s))
  ∧ ((∀ t', has_sent (upd t pc (rp_pcs s) t') = false) → String_good (f_in (rp_filter s))).
Proof.
  intros Hp Ht Hs Hg. split.
  - intros t' d i line He. destruct (decide (t' = t)) as [->|Hne].
    + rewrite upd_eq in He. by subst.
    + rewrite upd_ne in He by done. by eapply Hs.
  - intros Hall. apply Hg. intros t'. destruct (decide (t' = t)) as [->|Hne]; [done|].
    specialize (Hall t'). by rewrite upd_ne in Hall.
Qed.

Lemma set_list_ok d ms s :
  (∀ d, Forall metric_ok (rp_lists s d)) → Forall metric_ok ms →
  ∀ d', Forall metric_ok (upd d ms (rp_lists s) d').
Proof. intros Ha Hm d'. unfold upd. case_decide; [done|apply Ha]. Qed.

Lemma Forall_perm (l k : list bytes) : l ≡ₚ k → Forall line_ok k → Forall line_ok l.
Proof. intros ->. done. Qed.

(** One thread moved, the lists changed, the filter left alone. *)
Lemma inv_moved e0 out s t pc lists :
  rp_inv e0 out s → has_sent pc = false → has_sent (rp_pcs s t) = false →
  (∀ d, Forall metric_ok (lists d)) → Forall line_ok (line_at pc) →
  rp_inv e0 out (mkRp lists (rp_filter s) (upd t pc (rp_pcs s)) (rp_returned s)).
Proof.
  intros [Ho Hb He Hs Hg Hm Hl] Hp Ht Hlists Hpc.
  destruct (sent_moved t pc s Hp Ht Hs Hg) as [Hs' Hg'].
  split; try done. eapply Forall_perm; [apply (in_flight_set_pc t pc s)|].
  apply Forall_app. split; [done|]. eapply Forall_perm in Hl; [|symmetry; apply (in_flight_at t)].
  by apply Forall_app in Hl as [_ ?].
Qed.

(** What a step makes of the published and the pending lines. *)
Definition accounts (e0 : Z) (out : list bytes) (e : rp_event) (s s' : rp_state) : Prop :=
  ∃ new, rp_inv e0 (out ++ new) s' ∧ new ++ in_flight s' ≡ₚ in_flight s ++ lines_of (takes e s).

Lemma step_take e0 out s t d i m :
  rp_inv e0 out s → rp_pcs s t = RpTake d (S i) → rp_lists s d !! i = Some m →
  accounts e0 out (Step t) s (rep_step t s).2.
Proof.
  intros Hi Hpc Hm. exists []. rewrite app_nil_r. unfold rep_step, takes. rewrite Hpc, Hm. cbn [exchange_last snd].
  assert (Hmo : metric_ok m).
  { pose proof (ri_metrics _ _ _ Hi d) as Hf. rewrite Forall_lookup in Hf. by eapply Hf. }
  set (pc := if decide (last_processed m = 0) then _ else _).
  assert (Hline : line_at pc = lines_of [(d, i, m)]).
  { unfold pc, lines_of. cbn. by destruct (decide _). }
  split.
  - apply (inv_moved e0 out s t pc); [done|unfold pc; by destruct (decide _)|by rewrite Hpc| |].
    + apply set_list_ok; [apply Hi|]. apply Forall_insert; [apply Hi|by apply metric_ok_taken].
    + unfold pc. destruct (decide _); [constructor|]. by apply Forall_singleton, metric_ok_line.
  - rewrite in_flight_set_pc, (in_flight_at t s), Hpc, Hline. cbn [line_at app rp_pcs set_list].
    by rewrite (Permutation_app_comm (lines_of _)).
Qed.

Lemma step_past e0 out s t d :
  rp_inv e0 out s → rp_pcs s t = RpTake d 0 →
  accounts e0 out (Step t) s (rep_step t s).2.
Proof.
  intros Hi Hpc. exists []. rewrite app_nil_r. unfold rep_step, takes. rewrite Hpc. cbn [snd]. split.
  - apply inv_moved; [done|by destruct t, d|by rewrite Hpc|apply Hi|by destruct t, d; constructor].
  - rewrite in_flight_set_pc, (in_flight_at t s), Hpc.
    assert (line_at (next_report (rp_lists s) t d) = []) as -> by by destruct t, d. cbn. by rewrite app_nil_r.
Qed.

Lemma step_start e0 out s t :
  rp_inv e0 out s → rp_pcs s t = RpStart → accounts e0 out (Step t) s (rep_step t s).2.
Proof.
  intros Hi Hpc. exists []. rewrite app_nil_r. unfold rep_step, takes. rewrite Hpc. cbn [snd]. split.
  - apply inv_moved; [done|done|by rewrite Hpc|apply Hi|constructor].
  - rewrite in_flight_set_pc, (in_flight_at t s), Hpc. cbn. by rewrite app_nil_r.
Qed.

Lemma step_send e0 out s t d i line :
  rp_inv e0 out s → rp_pcs s t = RpSend d i line → has_sent (rp_pcs s (other t)) = false →
  accounts e0 out (Step t) s (rep_step t s).2.
Proof.
  intros [Ho Hb He Hs Hg Hm Hl] Hpc Hot. exists []. rewrite app_nil_r. unfold rep_step, takes. rewrite Hpc.
  assert (Hgood : String_good (f_in (rp_filter s))).
  { apply Hg. intros t'. destruct (decide (t' = t)) as [->|Hne]; [by rewrite Hpc|].
    by rewrite (not_other _ _ Hne). }
  unfold cbind, zoom, on_input, zoom, cmodify. cbn [snd Send cmodify]. set (f := mkFstate _ _ _ _).
  assert (Hsent : sent line f) by (exists (f_in (rp_filter s)); by split).
  split.
  - split; try done; cbn [rp_filter rp_pcs set_pc set_rfilter].
    + intros t' d' i' line' Hp. destruct (decide (t' = t)) as [->|Hne].
      * rewrite upd_eq in Hp. by injection Hp as <- <- <-.
      * rewrite upd_ne, (not_other _ _ Hne) in Hp by done. by rewrite Hp in Hot.
    + eapply Forall_perm; [apply (in_flight_set_pc t (RpFilter d i line) (set_rfilter f s))|].
      eapply Forall_perm in Hl; [|symmetry; apply (in_flight_at t)]. by rewrite Hpc in Hl.
  - rewrite in_flight_set_pc, (in_flight_at t s), Hpc. cbn [line_at rp_pcs set_rfilter lines_of omap list_omap].
    by rewrite !app_nil_r.
Qed.

Lemma step_filter e0 out s t d i line :
  rp_inv e0 out s → rp_pcs s t = RpFilter d i line → apart s →
  rep_step t s = (Ret tt, (rep_step t s).2) ∧ accounts e0 out (Step t) s (rep_step t s).2.
Proof.
  intros [Ho Hb He Hs Hg Hm Hl] Hpc Hap.
  assert (Hot : has_sent (rp_pcs s (other t)) = false) by (apply apart_at; [done|by rewrite Hpc]).
  eapply Forall_perm in Hl; [|symmetry; apply (in_flight_at t)]. rewrite Hpc in Hl. cbn [line_at] in Hl.
  inversion Hl as [|? ? Hlo Hl']; subst.
  destruct (Filter_sent (rp_filter s) line out e0) as (f' & HF & Ho' & Hb' & Hi' & He'); try done.
  { by eapply Hs. }
  unfold rep_step. rewrite Hpc. unfold cbind, zoom. rewrite HF. cbn [cmodify snd].
  split; [done|]. exists [line]. split.
  - split; try done; cbn [rp_filter rp_pcs set_pc set_rfilter].
    + intros t' d' i' line' Hp. destruct (decide (t' = t)) as [->|Hne].
      * by rewrite upd_eq in Hp.
      * rewrite upd_ne, (not_other _ _ Hne) in Hp by done. by rewrite Hp in Hot.
    + eapply Forall_perm; [apply (in_flight_set_pc t (RpTake d i) (set_rfilter f' s))|]. done.
  - rewrite in_flight_set_pc, (in_flight_at t s). unfold takes. rewrite Hpc.
    cbn [line_at rp_pcs set_rfilter lines_of omap list_omap]. by rewrite app_nil_r.
Qed.

(** Every step of threads that stay apart. *)
Lemma rp_step_accounts e0 out e s o s' :
  rp_inv e0 out s → apart s → apart s' → event_ok e → rp_step e s = Some (Ret o, s') →
  accounts e0 out e s s'.
Proof.
  intros Hi Ha Ha' Hok Hst. destruct e as [t|d i n|m|]; cbn [rp_step] in Hst.
  - assert (Hr : rep_step t s = (Ret o, s')).
    { destruct t; [by destruct (rp_pcs s MainThread); simplify_eq|].
      by destruct (rp_returned s); simplify_eq. }
    replace s' with (rep_step t s).2 in * by by rewrite Hr. clear Hst.
    destruct (rp_pcs s t) as [|d [|i]|d i line|d i line|] eqn:Hpc.
    + by apply step_start.
    + by eapply step_past.
    + destruct (rp_lists s d !! i) as [m|] eqn:Hm; [by eapply step_take|].
      unfold rep_step in Hr. by rewrite Hpc, Hm in Hr.
    + eapply step_send; [done..|]. apply (apart_at t) in Ha'; revert Ha';
        unfold rep_step; rewrite Hpc; unfold cbind, zoom, on_input, zoom, cmodify;
        cbn [snd Send cmodify set_pc rp_pcs set_rfilter]; rewrite ?upd_eq, ?upd_ne by apply other_ne; done.
    + by eapply step_filter.
    + exists []. rewrite app_nil_r. unfold rep_step, takes. rewrite Hpc. split; [done|]. by rewrite app_nil_r.
  - destruct (rp_lists s d !! i) as [m|] eqn:Hm; [|done]. injection Hst as _ <-.
    destruct Hi as [Ho Hb He Hs Hg Hmm Hl]. exists []. rewrite !app_nil_r. split; [|done].
    split; try done. apply set_list_ok; [done|]. apply Forall_insert; [done|].
    apply metric_ok_add. specialize (Hmm d). rewrite Forall_lookup in Hmm. by eapply Hmm.
  - injection Hst as _ <-. destruct Hi as [Ho Hb He Hs Hg Hmm Hl]. exists []. rewrite !app_nil_r.
    split; [|done]. split; try done. apply set_list_ok; [done|]. by apply Forall_app_2; [|constructor].
  - destruct (rp_pcs s MainThread); simplify_eq. destruct Hi. exists []. rewrite !app_nil_r. by split.
Qed.

Lemma run_accounts e0 out es s o s' :
  rp_inv e0 out s → stays_apart es s → Forall event_ok es → rp_run es s = Some (Ret o, s') →
  ∃ new, rp_inv e0 (out ++ new) s' ∧ new ++ in_flight s' ≡ₚ in_flight s ++ lines_of (run_takes es s).
Proof.
  intros Hi Hap Hok. revert out s Hi Hap. induction Hok as [|e es He Hok IH]; intros out s Hi Hap Hr.
  { cbn in Hr. injection Hr as _ <-. exists []. cbn. by rewrite !app_nil_r. }
  cbn [rp_run stays_apart run_takes] in *. destruct Hap as [Ha Hap].
  destruct (rp_step e s) as [[[[]| | | |] s1]|] eqn:Est; try done.
  assert (Ha1 : apart s1) by by destruct es; apply Hap.
  destruct (rp_step_accounts e0 out e s _ s1 Hi Ha Ha1 He Est) as (n1 & Hi1 & Hp1).
  destruct (IH _ s1 Hi1 Hap Hr) as (n2 & Hi2 & Hp2). exists (n1 ++ n2). rewrite app_assoc.
  split; [done|]. rewrite <- app_assoc, Hp2, app_assoc, Hp1, lines_of_app. by rewrite app_assoc.
Qed.

(** *** The counts *)

Lemma lookup_upd (lists : which → list FilterMetric) d0 i0 m0 m1 d i :
  lists d0 !! i0 = Some m0 →
  upd d0 (<[i0:=m1]> (lists d0)) lists d !! i
  = if decide (d0 = d ∧ i0 = i) then Some m1 else lists d !! i.
Proof.
  intros H0. destruct (decide (d0 = d)) as [<-|Hd].
  - rewrite upd_eq. destruct (decide (i0 = i)) as [<-|Hi].
    + rewrite decide_True by done. apply list_lookup_insert_eq. by eapply lookup_lt_Some.
    + rewrite decide_False by naive_solver. by apply list_lookup_insert_ne.
  - rewrite upd_ne by done. rewrite decide_False by naive_solver. done.
Qed.

(** What a step takes from or counts on a metric, and what is left of it. *)
Definition balanced (d : which) (i : nat) (m m' : FilterMetric) (took counted : Z) : Prop :=
  name m' = name m ∧ uint_wrap (took + last_processed m') = uint_wrap (last_processed m + counted).

Lemma balanced_refl d i m : balanced d i m m 0 0.
Proof. split; [done|]. by rewrite Z.add_0_l, Z.add_0_r. Qed.

Lemma balanced_trans d i m m1 m2 t1 c1 t2 c2 :
  balanced d i m m1 t1 c1 → balanced d i m1 m2 t2 c2 → balanced d i m m2 (t1 + t2) (c1 + c2).
Proof.
  intros [Hn1 H1] [Hn2 H2]. split; [congruence|]. unfold uint_wrap in *.
  rewrite <- Z.add_assoc, <- wrap_add_r, H2, wrap_add_r, Z.add_assoc, <- wrap_add_l, H1, wrap_add_l.
  f_equal. lia.
Qed.

Lemma rp_step_counts e s o s' d i m :
  rp_step e s = Some (Ret o, s') → rp_lists s d !! i = Some m →
  ∃ m', rp_lists s' d !! i = Some m'
    ∧ balanced d i m m' (taken_of d i (takes e s)) (counted_on d i [e]).
Proof.
  intros Hst Hm. destruct e as [t|d0 i0 n|m0|]; cbn [rp_step] in Hst.
  - assert (Hr : rep_step t s = (Ret o, s')).
    { destruct t; [by destruct (rp_pcs s MainThread); simplify_eq|].
      by destruct (rp_returned s); simplify_eq. }
    clear Hst. unfold rep_step in Hr. unfold takes.
    destruct (rp_pcs s t) as [|d0 [|i0]|d0 i0 line|d0 i0 line|] eqn:Hpc.
    3: destruct (rp_lists s d0 !! i0) as [m0|] eqn:H0; [|done].
    + injection Hr as _ <-. exists m. split; [done|apply balanced_refl].
    + injection Hr as _ <-. exists m. split; [done|apply balanced_refl].
    + cbn [exchange_last] in Hr. injection Hr as _ <-. cbn [rp_lists set_pc set_list].
      rewrite (lookup_upd _ _ _ m0) by done. cbn [taken_of foldr counted_on].
      destruct (decide (d0 = d ∧ i0 = i)) as [[-> ->]|_].
      * rewrite Hm in H0. injection H0 as <-. eexists. split; [done|]. split; [done|]. cbn. f_equal. lia.
      * exists m. split; [done|apply balanced_refl].
    + unfold cbind, zoom in Hr. destruct (on_input _ _) as [[| | | |] f]; try done.
      injection Hr as _ <-. exists m. split; [done|apply balanced_refl].
    + unfold cbind, zoom in Hr. destruct (Filter _ _) as [[| | | |] f]; try done.
      injection Hr as _ <-. exists m. split; [done|apply balanced_refl].
    + injection Hr as _ <-. exists m. split; [done|apply balanced_refl].
  - destruct (rp_lists s d0 !! i0) as [m0|] eqn:H0; [|done]. injection Hst as _ <-.
    cbn [rp_lists set_list takes taken_of foldr counted_on]. rewrite (lookup_upd _ _ _ m0) by done.
    destruct (decide (d0 = d ∧ i0 = i)) as [[-> ->]|_].
    + rewrite Hm in H0. injection H0 as <-. eexists. split; [done|]. split; [done|].
      cbn [last_processed add_last]. unfold uint_wrap. rewrite wrap_add_r. f_equal. lia.
    + exists m. split; [done|apply balanced_refl].
  - injection Hst as _ <-. exists m. split; [|apply balanced_refl]. cbn [rp_lists set_list].
    destruct (decide (d = Enqueue)) as [->|Hd]; [|by rewrite upd_ne].
    rewrite upd_eq. by apply lookup_app_l_Some.
  - destruct (rp_pcs s MainThread); simplify_eq. exists m. split; [done|apply balanced_refl].
Qed.

Lemma run_counts es s o s' d i m :
  rp_run es s = Some (Ret o, s') → rp_lists s d !! i = Some m →
  ∃ m', rp_lists s' d !! i = Some m'
    ∧ balanced d i m m' (taken_of d i (run_takes es s)) (counted_on d i es).
Proof.
  revert s m. induction es as [|e es IH]; intros s m Hr Hm; cbn [rp_run run_takes] in *.
  { injection Hr as _ <-. exists m. split; [done|apply balanced_refl]. }
  destruct (rp_step e s) as [[[[]| | | |] s1]|] eqn:Est; try done.
  destruct (rp_step_counts _ _ _ _ _ _ _ Est Hm) as (m1 & Hm1 & Hb1).
  destruct (IH s1 m1 Hr Hm1) as (m2 & Hm2 & Hb2). exists m2. split; [done|].
  pose proof (balanced_trans _ _ _ _ _ _ _ _ _ Hb1 Hb2) as Hb.
  replace (taken_of d i (takes e s ++ run_takes es s1))
    with (taken_of d i (takes e s) + taken_of d i (run_takes es s1)).
  - replace (counted_on d i (e :: es)) with (counted_on d i [e] + counted_on d i es); [done|].
    unfold counted_on. cbn [foldr]. destruct e; try done. case_decide; lia.
  - generalize (takes e s) as l. clear. induction l as [|[[d' i'] m'] l IHl]; [done|].
    unfold taken_of in *. cbn [foldr app]. case_decide; lia.
Qed.

(** *** Threads that collide *)

(** A filter whose string has failed publishes nothing. *)
Lemma dead_filter f :
  ¬ String_good (f_in f) →
  ∃ f', Filter metric_funcs f = (Ret false, f') ∧ f_out f' = f_out f ∧ f_ext f' = f_ext f
    ∧ ¬ String_good (f_in f').
Proof.
  intros Hd. destruct (String_Get_dead (msg_buf_ f) (f_in f) Hd) as (i & HG & Hi).
  eexists. split; [by erewrite Filter_get_false; [|reflexivity|exact HG]|]. done.
Qed.

Lemma dead_step e s o s' :
  ¬ String_good (f_in (rp_filter s)) → rp_step e s = Some (o, s') →
  ¬ String_good (f_in (rp_filter s')) ∧ f_out (rp_filter s') = f_out (rp_filter s)
  ∧ f_ext (rp_filter s') = f_ext (rp_filter s).
Proof.
  intros Hd Hst. destruct e as [t|d0 i0 n|m0|]; cbn [rp_step] in Hst.
  - assert (Hr : s' = s ∨ rep_step t s = (o, s')).
    { destruct t; [right; by destruct (rp_pcs s MainThread); simplify_eq|].
      destruct (rp_returned s); simplify_eq; auto. }
    destruct Hr as [->|Hr]; [done|]. clear Hst. unfold rep_step in Hr.
    destruct (rp_pcs s t) as [|d [|i]|d i line|d i line|].
    + by injection Hr as _ <-.
    + by injection Hr as _ <-.
    + destruct (_ !! i); [cbn [exchange_last] in Hr|]; by injection Hr as _ <-.
    + unfold cbind, zoom, on_input, zoom, cmodify in Hr. cbn [Send cmodify] in Hr. injection Hr as _ <-.
      split; [|done]. intros (? & ? & ?). apply Hd. by split.
    + unfold cbind, zoom in Hr. destruct (dead_filter _ Hd) as (f' & HF & Ho & He & Hd').
      rewrite HF in Hr. by injection Hr as _ <-.
    + by injection Hr as _ <-.
  - destruct (_ !! i0); [|done]. by injection Hst as _ <-.
  - by injection Hst as _ <-.
  - destruct (rp_pcs s MainThread); by simplify_eq.
Qed.

Lemma dead_run es s o s' :
  ¬ String_good (f_in (rp_filter s)) → rp_run es s = Some (o, s') →
  f_out (rp_filter s') = f_out (rp_filter s) ∧ f_ext (rp_filter s') = f_ext (rp_filter s).
Proof.
  revert s. induction es as [|e es IH]; intros s Hd Hr; cbn [rp_run] in Hr; [by injection Hr as _ <-|].
  destruct (rp_step e s) as [[oe s1]|] eqn:Est; [|done].
  destruct (dead_step _ _ _ _ Hd Est) as (Hd1 & Ho & He). rewrite <- Ho, <- He.
  destruct oe; [by apply IH|by injection Hr as _ <-..].
Qed.

(** The string after its one message has been read. *)
Definition exhausted (i : String_) : Prop := good_at (is_ptr_ (String_base i)) [].

Lemma Send_Get_exhausts line b i :
  String_good i → length_fits line → wf_MsgBuf b →
  ∃ b' i', (let* _ := Send line in Get b) i = (Ret (true, b'), i') ∧ holds b' line ∧ exhausted i'.
Proof.
  intros Hg Hf Hwf. rewrite (cbind_ret _ _ _ _ _ (Send_eq line i)). set (i1 := mkString _ _ _ _ _ _).
  destruct (Length_Get_frame b (String_base i1) SPACE line []) as (b' & st & HG & Hh & Hat); [|done..|].
  { split; [by apply String_good_iff|]. unfold is_rest, sb_rest. cbn. by rewrite app_nil_r. }
  eexists b', _. split; [cbn; by erewrite zoom_eq|]. split; [done|].
  unfold exhausted, String_base, String_after_Get. cbn. by destruct st.
Qed.

Lemma exhausted_filter f :
  exhausted (f_in f) →
  ∃ f', Filter metric_funcs f = (Ret false, f') ∧ f_out f' = f_out f ∧ f_ext f' = f_ext f
    ∧ ¬ String_good (f_in f').
Proof.
  intros Hx. destruct (Length_Get_end (msg_buf_ f) (String_base (f_in f))) as (st & HG & Hst); [by left|].
  assert (HG' : Get (msg_buf_ f) (f_in f)
                = (Ret (false, set_len 0 (msg_buf_ f)), String_after_Get (set_istream st (String_base (f_in f))) (f_in f))).
  { cbn. by erewrite zoom_eq. }
  eexists. split; [by erewrite Filter_get_false; [|reflexivity|exact HG']|].
  cbn [f_out f_ext f_in]. split; [done|]. split; [done|].
  rewrite String_after_Get_bits. cbn. by rewrite Hst.
Qed.

Lemma sent_filter f line out :
  sent line f → line_ok line → sink_has (f_out f) out → wf_MsgBuf (msg_buf_ f) →
  ∃ f', Filter metric_funcs f = (Ret true, f') ∧ sink_has (f_out f') (out ++ [line])
    ∧ exhausted (f_in f') ∧ f_ext f' = uint_wrap (f_ext f + 1).
Proof.
  intros (i & Hi & Hs) [Hf Hok] Ho Hb.
  destruct (Send_Get_exhausts line (msg_buf_ f) i Hi Hf Hb) as (b1 & i1 & HG & Hh & Hx).
  rewrite (cbind_ret _ _ _ _ _ Hs) in HG.
  destruct (sink_put _ _ _ _ Ho Hh Hok) as (b2 & o2 & HP & Hh2 & Ho2).
  eexists. split.
  { erewrite Filter_put; [|reflexivity|exact HG|reflexivity|exact HP]. reflexivity. }
  done.
Qed.

Lemma rep_filter_step t s d i line r f' :
  rp_pcs s t = RpFilter d i line → rp_returned s = false →
  Filter metric_funcs (rp_filter s) = (Ret r, f') →
  rp_step (Step t) s = Some (Ret tt, set_pc t (RpTake d i) (set_rfilter f' s)).
Proof.
  intros Hpc Hr HF. assert (rp_step (Step t) s = Some (rep_step t s)) as ->.
  { cbn. destruct t; [by rewrite Hpc|by rewrite Hr]. }
  unfold rep_step. rewrite Hpc. unfold cbind, zoom. by rewrite HF.
Qed.

End reporter.

Arguments rp_state : clear implicits.

(** ** Properties *)

(** C40: threads that stay apart, each of whose [Send]s is followed by its own
    [Filter] before the other's [Send], in any order otherwise, with any counting
    beside them and metrics added at the front of the list, the metrics having
    names whose lines fit a message and are accepted by the output, in a run that
    does not go on after the objects are gone: what is published is what was taken,
    once each, except what a thread still has in hand, and the pending counter grows
    by as much; and for every metric the counts taken and the count it holds add up
    to what was counted, modulo 2^32, the width of the counters. *)
Theorem reports_accounted {PM} `{MessageSink PM} es (s s' : rp_state PM) out :
  ready (rp_filter s) out (f_ext (rp_filter s)) → (∀ t, rp_pcs s t = RpStart) →
  (∀ d, Forall metric_ok (rp_lists s d)) → 0 ≤ f_ext (rp_filter s) < 2 ^ 32 →
  stays_apart es s → Forall event_ok es → rp_run es s = Some (Ret tt, s') →
  (∃ pub, sink_has (f_out (rp_filter s')) (out ++ pub)
     ∧ pub ++ in_flight s' ≡ₚ lines_of (run_takes es s)
     ∧ f_ext (rp_filter s') = uint_wrap (f_ext (rp_filter s) + zlen pub))
  ∧ ∀ d i m, rp_lists s d !! i = Some m →
      ∃ m', rp_lists s' d !! i = Some m' ∧ name m' = name m
        ∧ uint_wrap (taken_of d i (run_takes es s) + last_processed m')
          = uint_wrap (last_processed m + counted_on d i es).
Proof.
  intros [Hg Ho _ Hb] Hst Hm He Hap Hok Hr. split.
  - destruct (run_accounts (f_ext (rp_filter s) - zlen out) out es s tt s') as (pub & Hi & Hp); try done.
    { split; try done.
      - rewrite Z.sub_add. unfold uint_wrap. by rewrite wrap_small.
      - intros t d i line. by rewrite Hst.
      - unfold in_flight. rewrite !Hst. constructor. }
    exists pub. split; [apply Hi|]. split.
    + rewrite Hp. unfold in_flight. by rewrite !Hst.
    + rewrite (ri_pending _ _ _ Hi), zlen_app. f_equal. lia.
  - intros d i m Hmi. exact (run_counts es s tt s' d i m Hr Hmi).
Qed.

(** Threads that collide: when one has sent its line over the other's before
    either filters, the other's line is lost though its count was taken, the string
    fails, and from then on nothing is published any more, whatever happens. *)
Theorem reports_collide {PM} `{MessageSink PM} (s : rp_state PM) t d i line d' i' line' out :
  rp_pcs s t = RpFilter d i line → rp_pcs s (other t) = RpFilter d' i' line' →
  sent line' (rp_filter s) → line_ok line' → rp_returned s = false →
  sink_has (f_out (rp_filter s)) out → wf_MsgBuf (msg_buf_ (rp_filter s)) →
  ∃ s2, rp_run [Step t; Step (other t)] s = Some (Ret tt, s2)
    ∧ sink_has (f_out (rp_filter s2)) (out ++ [line']) ∧ in_flight s2 = []
    ∧ ∀ es o s', rp_run es s2 = Some (o, s') →
        f_out (rp_filter s') = f_out (rp_filter s2) ∧ f_ext (rp_filter s') = f_ext (rp_filter s2).
Proof.
  intros Hpc Hpc' Hs Hok Hret Ho Hb.
  destruct (sent_filter _ _ _ Hs Hok Ho Hb) as (f1 & HF1 & Ho1 & Hx1 & He1).
  destruct (exhausted_filter _ Hx1) as (f2 & HF2 & Ho2 & He2 & Hd2).
  set (s1 := set_pc t (RpTake d i) (set_rfilter f1 s)).
  set (s2 := set_pc (other t) (RpTake d' i') (set_rfilter f2 s1)).
  assert (H1 : rp_step (Step t) s = Some (Ret tt, s1)) by by eapply rep_filter_step.
  assert (H2 : rp_step (Step (other t)) s1 = Some (Ret tt, s2)).
  { eapply rep_filter_step; [|done|exact HF2]. cbn [s1 set_pc rp_pcs set_rfilter].
    by rewrite upd_ne by apply other_ne. }
  exists s2. split; [cbn [rp_run]; by rewrite H1, H2|]. split; [by rewrite <- Ho2 in Ho1|].
  split; [|intros es o s'; by apply dead_run].
  apply Permutation_nil_r. rewrite (in_flight_at (other t) s2). cbn [s2 s1 set_pc rp_pcs set_rfilter].
  rewrite upd_eq, upd_ne by (by destruct t). replace (other (other t)) with t by by destruct t.
  by rewrite upd_eq.
Qed.

(** When [run] has returned, the next step of the reporter thread uses objects that
    are gone. *)
Theorem reporter_outlives_run {PM} `{IOPolicy PM} es (s s' : rp_state PM) o :
  rp_pcs s MainThread = RpEnd → rp_run (RunReturns :: es ++ [Step ReporterThread]) s = Some (o, s') →
  Forall (λ e, ∀ t, e ≠ Step t) es → o = Undef DanglingReference.
Proof.
  intros Hpc Hr Hes. cbn [rp_run rp_step] in Hr. rewrite Hpc in Hr.
  assert (Hret : rp_returned (mkRp (rp_lists s) (rp_filter s) (rp_pcs s) true) = true) by done.
  revert Hr Hret. generalize (mkRp (rp_lists s) (rp_filter s) (rp_pcs s) true). clear Hpc s.
  induction Hes as [|e es He _ IH]; intros s Hr Hret; cbn [app rp_run] in Hr.
  { cbn [rp_step] in Hr. rewrite Hret in Hr. by injection Hr as <- _. }
  destruct (rp_step e s) as [[[[]| | | |] s1]|] eqn:Est; try done; destruct e as [t|d i n|m|]; cbn in Est;
    try (by destruct (He t)); try (by case_match; simplify_eq); try done.
  - case_match; [|done]. injection Est as <-. by eapply IH.
  - injection Est as <-. by eapply IH.
  - case_match; try done. injection Est as <-. by eapply IH.
Qed.

(** ** Witnesses *)

(** Two metrics of the connector, [foo] at the front, and the drop metric; the
    filter writes lines. *)
Definition rp_start : rp_state Line :=
  mkRp (λ d, match d with
             | Enqueue => [mkMetric (str "bar") 2 2; mkMetric (str "foo") 3 3]
             | Drop => [mkMetric (str "foo") 0 0]
             end)
    (fstart String_init (line_start []) 0) (λ _, RpStart) false.

Definition rp_at (es : list rp_event) : rp_state Line :=
  match rp_run es rp_start with Some (_, s) => s | None => rp_start end.

Definition turns (ts : list rep_thread) : list rp_event := map Step ts.

(** Each thread takes one of the metrics, and they take turns to publish; a metric is
    added when both are on their way. *)
Definition rp_apart : list rp_event :=
  CountOf Enqueue 0 5 :: turns [ReporterThread; ReporterThread; MainThread]
  ++ NewMetric (mkMetric (str "new") 1 1) :: turns [MainThread; MainThread]
  ++ turns [ReporterThread; ReporterThread; MainThread; MainThread].

Lemma short_name_ok nm last tot :
  bool_decide (zlen nm ≤ 100) = true → 0 ≤ last < 2 ^ 32 →
  metric_ok (PM:=Line) (mkMetric nm last tot).
Proof.
  intros Hn%bool_decide_eq_true Hl. split; [done|]. intros d n Hr. split.
  - unfold length_fits, metric_line. cbn [name last_processed]. rewrite !zlen_app.
    pose proof (dec_length n ltac:(lia)) as Hd.
    destruct d; unfold MAX_MSG_SIZE; change (zlen (direction _)) with 7 || change (zlen (direction _)) with 4;
      change (zlen (str ",")) with 1; lia.
  - unfold metric_line. cbn. by destruct nm.
Qed.

Lemma reports_accounted_witness :
  ∃ pub, sink_has (f_out (rp_filter (rp_at rp_apart))) ([] ++ pub)
    ∧ pub ++ in_flight (rp_at rp_apart) ≡ₚ [str "foo,enqueue,3"; str "bar,enqueue,7"].
Proof.
  destruct (reports_accounted rp_apart rp_start (rp_at rp_apart) []) as ((pub & Hs & Hp & _) & _).
  - split; [done|reflexivity|done|exact msg_of_wf].
  - done.
  - intros []; repeat constructor; by apply short_name_ok.
  - split; [done|]. by apply (bool_decide_eq_true_1 _).
  - vm_compute. repeat split.
  - unfold rp_apart, turns. cbn [map app].
    repeat (apply Forall_cons; split; [first [exact I|by apply short_name_ok]|]). by apply Forall_nil.
  - vm_compute. reflexivity.
  - exists pub. split; [exact Hs|]. rewrite Hp. vm_compute. reflexivity.
Defined.

(** Both have sent: the reporter's line is gone from the string. *)
Definition rp_collided : rp_state Line :=
  rp_at (turns [ReporterThread; ReporterThread; MainThread; MainThread; MainThread; ReporterThread; MainThread]).

Lemma reports_collide_witness :
  ∃ s2, rp_run (turns [ReporterThread; MainThread]) rp_collided = Some (Ret tt, s2)
    ∧ sink_has (f_out (rp_filter s2)) ([] ++ [str "bar,enqueue,2"]) ∧ in_flight s2 = [].
Proof.
  destruct (reports_collide rp_collided ReporterThread Enqueue 1 (str "foo,enqueue,3")
              Enqueue 0 (str "bar,enqueue,2") []) as (s2 & HR & Hs & Hf & _).
  - reflexivity.
  - reflexivity.
  - eexists String_init. split; [done|reflexivity].
  - split; [by apply (bool_decide_eq_true_1 _)|]. done.
  - reflexivity.
  - reflexivity.
  - exact msg_of_wf.
  - exists s2. split; [exact HR|]. split; [exact Hs|exact Hf].
Defined.

(** The main thread reports and returns while the reporter is asleep. *)
Definition rp_returning : rp_state Line := rp_at (turns (replicate 8 MainThread)).

Lemma reporter_outlives_run_witness :
  (λ r, r.1) <$> rp_run [RunReturns; CountOf Enqueue 0 1; Step ReporterThread] rp_returning
  = Some (Undef DanglingReference).
Proof.
  destruct (rp_run [RunReturns; CountOf Enqueue 0 1; Step ReporterThread] rp_returning)
    as [[o s']|] eqn:E; [|vm_compute in E; done].
  rewrite (reporter_outlives_run [CountOf Enqueue 0 1] rp_returning s' o); [reflexivity|reflexivity|exact E|].
  by repeat constructor.
Defined.
