(* ===== verification/Producer.v ===== *)
(** * Producer: the thread that feeds one subscriber, [connector.hpp]

    [Connector] starts one thread per subscriber: it connects, opens the queue of
    the branch and runs a [MsgFilter<SysvMq, TCP>] whose post-filter function
    accounts for the messages sent and puts back the ones that were not.  This
    file is one such thread on its own; [Connector] interleaves them. *)

From S2P Require Import Prelude Text MsgBuf MsgFilter Logger Util Tcp SysvMq Metric.

(** ** The thread *)

Section producer.
Context {K N : Type} `{MqOps K} `{SocketOps N} `{InetLib}.

(** What the closures capture by reference. *)
Record captured := mkCaptured {
  producer_set : gset bytes; metric : FilterMetric; pending_counter : Z }.

Definition producer_filter : Type := fstate (SysvMq K) (TCP N) captured.

Definition on_mq {A} (c : comp (SysvMq K) A) : comp producer_filter A :=
  zoom f_in (λ i w, mkFstate i (f_out w) (f_ext w) (msg_buf_ w)) c.
Definition on_tcp {A} (c : comp (TCP N) A) : comp producer_filter A :=
  zoom f_out (λ o w, mkFstate (f_in w) o (f_ext w) (msg_buf_ w)) c.
Definition on_captured (f : captured → captured) : comp producer_filter unit :=
  cmodify (λ w, mkFstate (f_in w) (f_out w) (f (f_ext w)) (msg_buf_ w)).

Definition erase_producer (conn_str : bytes) (c : captured) : captured :=
  mkCaptured (producer_set c ∖ {[conn_str]}) (metric c) (pending_counter c).

(** [--pending_counter; ++metric.last_processed; ++metric.total_processed]. *)
Definition count_sent (c : captured) : captured :=
  mkCaptured (producer_set c) (incr_total (incr_last (metric c)))
    (uint_wrap (pending_counter c - 1)).

(** The post-filter function; the result of the [Put] is not looked at. *)
Definition producer_post (filter_result : bool) : comp producer_filter bool :=
  if filter_result then
    let* _ := on_captured count_sent in cret true
  else
    let* _ := InputWrapper SysvMq_Put in cret false.

Definition producer_funcs : filter_funcs (SysvMq K) (TCP N) captured :=
  set_post_filter_func producer_post default_funcs.

(** The [try] block: [false] when connecting failed and the thread is to
    return. *)
Definition producer_connect (port0 : Z) (conn_str : bytes) : comp producer_filter bool :=
  let* addr := clift (ConnectStringToSockaddr sys_endian port0 conn_str) in
  λ w, match on_tcp (Connect addr) w with
       | (Ret _, w1) => (Ret true, w1)
       | (Throw what, w1) =>
           (let* _ := on_tcp (λ t, zoom tcp_log set_tcp_log
                        (log (sys_ctime (net t)) (str "error connecting: {}") [what]) t) in
            let* _ := on_captured (erase_producer conn_str) in
            cret false) w1
       | (AssertFailed, w1) => (AssertFailed, w1)
       | (Waits, w1) => (Waits, w1)
       | (Undef u, w1) => (Undef u, w1)
       end.

(** What precedes the loop. *)
Definition producer_open (ndebug : bool) (port0 : Z) (conn_str real_dest : bytes)
  : comp producer_filter bool :=
  let* connected := producer_connect port0 conn_str in
  if connected : bool then
    let* _ := on_mq (cmodify (set_cleanup false)) in
    let* _ := on_mq (mq_init ndebug real_dest) in
    cret true
  else cret false.

(** The destructor of the filter, the output policy's first. *)
Definition producer_close : comp producer_filter unit :=
  let* _ := on_tcp TCP_close in on_mq SysvMq_destroy.

(** The whole function of the thread; [None] while its loop is running. *)
Definition producer_thread (ndebug : bool) (port0 : Z) (conn_str real_dest : bytes)
    (fuel : nat) (w : producer_filter) : option (outcome unit * producer_filter) :=
  match producer_open ndebug port0 conn_str real_dest w with
  | (Ret false, w1) => Some (producer_close w1)
  | (Ret true, w1) =>
      match FilterLoop producer_funcs fuel w1 with
      | Some (Ret _, w2) =>
          Some ((let* _ := on_captured (erase_producer conn_str) in producer_close) w2)
      | r => r
      end
  | (Throw e, w1) => Some (Throw e, w1)
  | (AssertFailed, w1) => Some (AssertFailed, w1)
  | (Waits, w1) => Some (Waits, w1)
  | (Undef u, w1) => Some (Undef u, w1)
  end.

(** ** Lemmas *)

Section laws.
Context `{!MqLaws K} (Hmax : MAX_MSG_SIZE ≤ sys_msgmax).

(** What the socket does with a message, on any buffer that holds it. *)
Definition socket_put (m : bytes) (r : bool) (t t' : TCP N) : Prop :=
  ∀ b, holds b m → TCP_Put b t = (Ret (r, b), t').

Lemma socket_put_empty t : socket_put [] false t t.
Proof. intros b Hb. apply TCP_Put_empty. by rewrite (holds_len _ _ Hb). Qed.

(** A message at the head of the queue that the socket takes. *)
Lemma producer_sends w m ms t' :
  mq_fits (f_in w) (m :: ms) → wf_MsgBuf (msg_buf_ w) → socket_put m true (f_out w) t' →
  ∃ i' b', Filter producer_funcs w = (Ret true, mkFstate i' t' (count_sent (f_ext w)) b')
    ∧ mq_fits i' ms ∧ wf_MsgBuf b' ∧ mqid_ i' = mqid_ (f_in w).
Proof.
  intros Hq Hwf Hs.
  destruct (SysvMq_Get_head (msg_buf_ w) (f_in w) m ms Hwf Hq) as (b & i' & HG & Hb & Hso & Hq' & _).
  specialize (Hs b Hb). exists i', b. split.
  { erewrite (Filter_put producer_funcs); [|done|exact HG|done|exact Hs]. done. }
  split; [done|]. split; [by eapply holds_wf|by apply same_object_mqid].
Qed.

(** A requeue, with room for the message. *)
Lemma producer_post_requeues (w : producer_filter) m q :
  mq_fits (f_in w) q → holds (msg_buf_ w) m → has_room [m] (f_in w) →
  ∃ i' b', producer_post false w = (Ret false, mkFstate i' (f_out w) (f_ext w) b')
    ∧ mq_fits i' (q ++ [m]) ∧ wf_MsgBuf b' ∧ mqid_ i' = mqid_ (f_in w).
Proof.
  intros Hq Hb Hr. pose proof (holds_bound _ _ Hb) as Hm.
  destruct (SysvMq_Put_room (msg_buf_ w) m [] (f_in w) Hb) as (i' & HP & Hd & _);
    [rewrite (holds_len _ _ Hb); lia|done|by destruct Hq as [-> _]|].
  exists i', (set_mtype 1 (msg_buf_ w)). split.
  { unfold producer_post. by erewrite cbind_ret by (by apply InputWrapper_ret). }
  split; [exact (put_done_fits m true _ _ _ Hd Hq Hm)|].
  split; [by apply wf_set_mtype, (holds_wf _ m)|]. destruct Hd as [Hso _]. by apply same_object_mqid.
Qed.

(** A message the socket does not take. *)
Lemma producer_fails w m ms t' :
  mq_fits (f_in w) (m :: ms) → wf_MsgBuf (msg_buf_ w) → socket_put m false (f_out w) t' →
  ∃ i' b', Filter producer_funcs w = (Ret false, mkFstate i' t' (f_ext w) b')
    ∧ mq_fits i' (ms ++ [m]) ∧ wf_MsgBuf b' ∧ mqid_ i' = mqid_ (f_in w).
Proof.
  intros Hq Hwf Hs.
  destruct (SysvMq_Get_head (msg_buf_ w) (f_in w) m ms Hwf Hq) as (b & i1 & HG & Hb & Hso & Hq1 & Hr).
  specialize (Hs b Hb).
  destruct (producer_post_requeues (mkFstate i1 t' (f_ext w) b) m ms Hq1 Hb Hr)
    as (i' & b' & HP & Hq' & Hwf' & Hid').
  exists i', b'. split.
  { erewrite (Filter_put producer_funcs); [|done|exact HG|done|exact Hs]. exact HP. }
  split_and!; try done. cbn in Hid'. rewrite Hid'. by apply same_object_mqid.
Qed.

(** An interrupted receive: what is put back is an empty message. *)
Lemma producer_interrupted w k :
  mq_fits (f_in w) [] → wf_MsgBuf (msg_buf_ w) →
  sys_msgrcv (mqid_ (f_in w)) MAX_MSG_SIZE (kern (f_in w)) = Some (None, k) →
  ∃ i' b', Filter producer_funcs w = (Ret false, mkFstate i' (f_out w) (f_ext w) b')
    ∧ mq_fits i' [[]] ∧ wf_MsgBuf b' ∧ mqid_ i' = mqid_ (f_in w).
Proof.
  intros [Hv Hf] Hwf Hr. set (i1 := set_kern k (f_in w)).
  assert (HG : Get (msg_buf_ w) (f_in w) = (Ret (false, set_len 0 (msg_buf_ w)), i1)).
  { cbn. unfold SysvMq_Get, cbind, cget. by rewrite Hr. }
  assert (Hv1 : mq_view i1 = Some []).
  { unfold mq_view in *. cbn. by rewrite (proj1 (msgrcv_none _ _ _ _ Hr)). }
  destruct (producer_post_requeues (mkFstate i1 (f_out w) (f_ext w) (set_len 0 (msg_buf_ w))) [] [])
    as (i' & b' & HP & Hq & Hwf' & Hid').
  { by split. }
  { split; [by apply wf_set_len|done]. }
  { by apply msgsnd_room_empty. }
  exists i', b'. split; [|done].
  erewrite (Filter_get_false producer_funcs); [|done|exact HG]. exact HP.
Qed.

(** Nothing to send. *)
Lemma producer_waits w :
  sys_msgrcv (mqid_ (f_in w)) MAX_MSG_SIZE (kern (f_in w)) = None → Filter producer_funcs w = (Waits, w).
Proof.
  intros Hr. assert (HG : Get (msg_buf_ w) (f_in w) = (Waits, f_in w)).
  { cbn. unfold SysvMq_Get, cbind, cget. by rewrite Hr. }
  rewrite (Filter_get_waits producer_funcs w w _ eq_refl HG). by destruct w.
Qed.

(** *** A run of the loop over a healthy connection *)

Section healthy.
Context `{!StreamLaws N}.

Definition count_sent_n (n : nat) (c : captured) : captured := Nat.iter n count_sent c.

Lemma count_sent_n_eq n c :
  0 ≤ pending_counter c < 2 ^ 32 → 0 ≤ last_processed (metric c) < 2 ^ 32 →
  0 ≤ total_processed (metric c) < 2 ^ 64 →
  count_sent_n n c
  = mkCaptured (producer_set c)
      (mkMetric (name (metric c)) (uint_wrap (last_processed (metric c) + Z.of_nat n))
         (wrap 64 (total_processed (metric c) + Z.of_nat n)))
      (uint_wrap (pending_counter c - Z.of_nat n)).
Proof.
  intros Hp Hl Ht. induction n as [|n IH].
  - destruct c as [ps [nm l t] p]. cbn -[wrap] in *. unfold uint_wrap.
    by rewrite !Z.add_0_r, Z.sub_0_r, !wrap_small.
  - change (count_sent_n (S n) c) with (count_sent (count_sent_n n c)).
    rewrite IH. unfold count_sent, incr_last, incr_total, add_last, uint_wrap. cbn -[wrap].
    autorewrite with wissbi_rw. rewrite Nat2Z.inj_succ.
    f_equal; [f_equal; f_equal; lia|f_equal; lia].
Qed.

(** A message that is not empty on a healthy connection. *)
Lemma socket_put_healthy m t :
  healthy (sock_ t) (net t) → m ≠ [] → zlen m ≤ MAX_MSG_SIZE →
  ∃ t', socket_put m true t t' ∧ sock_ t' = sock_ t ∧ healthy (sock_ t') (net t')
    ∧ outgoing (sock_ t') (net t') = outgoing (sock_ t) (net t) ++ tcp_frame m
    ∧ tcp_log t' = tcp_log t.
Proof.
  intros Hh Hm Hl.
  destruct (TCP_Put_ok (msg_of m) m t (holds_msg_of _ Hl) Hm Hh)
    as (t' & HP & Hs & Hh' & _ & Ho & Hlog).
  exists t'. split; [|by rewrite Hs]. intros b Hb.
  pose proof (holds_bound _ _ Hb). unfold TCP_Put in *.
  rewrite (holds_len _ _ Hb), (holds_len _ _ (holds_msg_of _ Hl)) in *.
  case_decide as Hz; [by injection HP|]. unfold and_then, cbind, clift in *.
  rewrite (holds_load _ _ Hb). rewrite (holds_load _ _ (holds_msg_of _ Hl)) in HP.
  destruct (WriteAll (mem32 sys_endian (htonl sys_endian (zlen m))) t) as [[[]| | | |] t1]; try done.
  destruct (WriteAll m t1) as [[r| | | |] t2]; try done.
  unfold cret in *. by injection HP as -> ->.
Qed.

(** The state after [ms] have gone out: what the connection carries, what is
    left in the queue, how the counters moved. *)
Record progress (w w' : producer_filter) (ms rest : list bytes) : Prop := {
  prog_queue : mq_fits (f_in w') rest;
  prog_mqid : mqid_ (f_in w') = mqid_ (f_in w);
  prog_sock : sock_ (f_out w') = sock_ (f_out w);
  prog_healthy : healthy (sock_ (f_out w')) (net (f_out w'));
  prog_sent : outgoing (sock_ (f_out w')) (net (f_out w'))
              = outgoing (sock_ (f_out w)) (net (f_out w)) ++ tcp_frames ms;
  prog_counts : f_ext w' = count_sent_n (length ms) (f_ext w);
  prog_buf : wf_MsgBuf (msg_buf_ w') }.

Lemma producer_loop_prefix ms rest w :
  mq_fits (f_in w) (ms ++ rest) → wf_MsgBuf (msg_buf_ w) →
  healthy (sock_ (f_out w)) (net (f_out w)) → Forall (λ m, m ≠ []) ms →
  ∃ w', runs_to producer_funcs (length ms) w w' ∧ progress w w' ms rest.
Proof.
  intros Hq Hwf Hh Hne. revert w Hq Hwf Hh.
  induction Hne as [|m ms Hm Hms IH]; intros w Hq Hwf Hh.
  { exists w. split; [apply runs_to_refl|]. split; try done. by rewrite app_nil_r. }
  assert (Hl : zlen m ≤ MAX_MSG_SIZE) by (destruct Hq as [_ Hf]; by inversion Hf).
  destruct (socket_put_healthy m (f_out w) Hh Hm Hl) as (t' & Hs & Hsk & Hh' & Ho & _).
  destruct (producer_sends w m (ms ++ rest) t' Hq Hwf Hs) as (i' & b' & HF & Hq' & Hwf' & Hid).
  destruct (IH (mkFstate i' t' (count_sent (f_ext w)) b') Hq' Hwf' Hh') as (w2 & HL & [Q1 Q2 Q3 Q4 Q5 Q6 Q7]).
  exists w2. split; [by eapply runs_to_step|].
  cbn [f_in f_out f_ext] in *. split; try done; [congruence|congruence| |].
  - rewrite Q5, Ho, <- app_assoc. done.
  - rewrite Q6. unfold count_sent_n. by rewrite <- Nat.iter_succ_r.
Qed.

End healthy.
End laws.
End producer.

(** The line the thread logs. *)
Lemma log_error_connecting now what lg :
  log_locked lg = false → zlen now < 2 ^ 63 →
  log (now ++ [LF]) (str "error connecting: {}") [what] lg
  = (Ret tt, mkLogger false (log_cerr lg ++ str "[" ++ now ++ str "] error connecting: "
                             ++ what ++ [LF])).
Proof.
  intros Hl Hn. rewrite log_eq by (done || by apply (bool_decide_eq_true_1 _)).
  change (format_segments (str "error connecting: {}")) with [str "error connecting: "; []].
  cbn [dispatch_r]. rewrite !app_nil_l, !app_nil_r, <- !app_assoc.
  by change (str "] error connecting: ") with (str "] " ++ str "error connecting: ");
     rewrite <- !app_assoc.
Qed.

(** ** Properties *)


(** A producer on a healthy connection delivers the queue up to the first
    empty message, each message framed and in order, and counts exactly those; the
    empty message makes it stop and goes behind the rest, so the next producer of
    the branch meets it again. *)
Theorem producer_stops_at_empty {K N} `{MqOps K} `{!MqLaws K} `{SocketOps N} `{!StreamLaws N}
    `{InetLib} (w : producer_filter (K:=K) (N:=N)) ms rest fuel :
  MAX_MSG_SIZE ≤ sys_msgmax → mq_fits (f_in w) (ms ++ [] :: rest) → wf_MsgBuf (msg_buf_ w) →
  healthy (sock_ (f_out w)) (net (f_out w)) → Forall (λ m, m ≠ []) ms →
  (length ms < fuel)%nat →
  0 ≤ pending_counter (f_ext w) < 2 ^ 32 → 0 ≤ last_processed (metric (f_ext w)) < 2 ^ 32 →
  0 ≤ total_processed (metric (f_ext w)) < 2 ^ 64 →
  ∃ w', FilterLoop producer_funcs fuel w = Some (Ret tt, w')
    ∧ mq_fits (f_in w') (rest ++ [[]])
    ∧ outgoing (sock_ (f_out w')) (net (f_out w'))
      = outgoing (sock_ (f_out w)) (net (f_out w)) ++ tcp_frames ms
    ∧ pending_counter (f_ext w') = uint_wrap (pending_counter (f_ext w) - zlen ms)
    ∧ last_processed (metric (f_ext w')) = uint_wrap (last_processed (metric (f_ext w)) + zlen ms)
    ∧ total_processed (metric (f_ext w')) = wrap 64 (total_processed (metric (f_ext w)) + zlen ms).
Proof.
  intros Hmax Hq Hwf Hh Hne Hf Hp Hl Ht.
  destruct (producer_loop_prefix ms ([] :: rest) w Hq Hwf Hh Hne)
    as (w1 & HL & [Q1 _ _ Q4 Q5 Q6 Q7]).
  destruct (producer_fails Hmax w1 [] rest (f_out w1) Q1 Q7 (socket_put_empty _))
    as (i' & b' & HF & Hq' & _).
  exists (mkFstate i' (f_out w1) (f_ext w1) b').
  split; [by eapply runs_to_end|]. split; [done|]. split; [done|].
  cbn [f_ext]. by rewrite Q6, count_sent_n_eq.
Qed.

(** When connecting fails the thread logs it and forgets the subscriber, so
    that a later pass may try again, and leaves queue and counters alone; its
    function returns without opening the queue. *)
Theorem producer_connect_failure {K N} `{MqOps K} `{SocketOps N} `{InetLib}
    (w : producer_filter (K:=K) (N:=N)) ndebug port0 conn_str real_dest fuel addr s1 now :
  ConnectStringToSockaddr sys_endian port0 conn_str = Ret addr →
  sys_connect (sock_ (f_out w)) addr (net (f_out w)) = (-1, s1) →
  sys_ctime s1 = now ++ [LF] → zlen now < 2 ^ 63 →
  log_locked (tcp_log (f_out w)) = false → key_file_ (f_in w) = [] →
  ∃ w', producer_thread ndebug port0 conn_str real_dest fuel w = Some (Ret tt, w')
    ∧ producer_set (f_ext w') = producer_set (f_ext w) ∖ {[conn_str]}
    ∧ metric (f_ext w') = metric (f_ext w) ∧ pending_counter (f_ext w') = pending_counter (f_ext w)
    ∧ f_in w' = f_in w
    ∧ log_cerr (tcp_log (f_out w'))
      = log_cerr (tcp_log (f_out w)) ++ str "[" ++ now ++ str "] error connecting: cannot connect to "
        ++ SockaddrToConnectString sys_endian addr ++ [LF].
Proof.
  intros Ha Hc Ht Hn Hlk Hkf.
  set (what := str "cannot connect to " ++ SockaddrToConnectString sys_endian addr).
  pose (t1 := set_net s1 (f_out w)).
  assert (HC : Connect addr (f_out w) = (Throw what, t1)).
  { unfold Connect, cbind, cget. rewrite Hc. done. }
  eexists. unfold producer_thread, producer_open, producer_connect, cbind, clift, on_tcp, zoom.
  rewrite Ha, HC. cbn [net set_net f_out t1 tcp_log]. rewrite Ht, log_error_connecting by done.
  unfold on_captured, cmodify, cret, producer_close, on_tcp, on_mq, cbind, zoom, TCP_close, cmodify.
  cbn [f_in f_out f_ext set_net set_tcp_log]. rewrite SysvMq_destroy_eq, Hkf.
  rewrite orb_true_r. split; [done|]. done.
Qed.

(** ** Witnesses *)

(** A host that refuses connections and writes. *)
Module RefusedHost.

Definition refused : Type := unit.

#[export] Instance ops : SocketOps refused := {
  sys_endian := LittleEndian;
  sys_socket s := (3, s);
  sys_close _ s := s;
  sys_connect _ _ s := (-1, s);
  sys_read _ _ s := (None, s);
  sys_write _ _ s := (None, s);
  sys_getsockname _ _ := mkSockaddr AF_INET 0 0;
  sys_strerror _ := str "ECONNREFUSED";
  sys_ctime _ := str "now" ++ [LF] }.
End RefusedHost.

Import SimKernel DottedQuad PipeHost RefusedHost.

(** The queue 5 holds [q]; one message is pending for each. *)
Definition producer_example {N} (n : N) (q : list bytes) : fstate (SysvMq sim) (TCP N) captured :=
  mkFstate (mkSysvMq 5 0 [] false 2048 (mkSim ∅ {[5 := q]} 8)) (mkTCP 3 n Logger_init)
    (mkCaptured {[str "10.0.0.1:80"]} (FilterMetric_new (str "foo")) (zlen q)) (msg_of []).

Lemma producer_example_queue {N} (n : N) q :
  Forall (λ m, zlen m ≤ MAX_MSG_SIZE) q → mq_fits (f_in (producer_example n q)) q.
Proof.
  intros. split; [|done]. unfold mq_view. cbn. rewrite sim_queue_mk. by rewrite lookup_singleton_eq.
Qed.

Lemma sim_msgmax : MAX_MSG_SIZE ≤ sys_msgmax (K:=sim).
Proof. unfold MAX_MSG_SIZE. cbn. lia. Qed.


Lemma producer_stops_at_empty_witness :
  ∃ w',
    FilterLoop (producer_funcs (N:=pipe)) 3
      (producer_example (mkPipe [] [] []) [str "a"; str "b"; []; str "c"])
    = Some (Ret tt, w')
    ∧ mq_fits (f_in w') [str "c"; []]
    ∧ pipe_out (net (f_out w')) = tcp_frames [str "a"; str "b"]
    ∧ pending_counter (f_ext w') = 2.
Proof.
  destruct (producer_stops_at_empty (N:=pipe)
    (producer_example (mkPipe [] [] []) [str "a"; str "b"; []; str "c"])
    [str "a"; str "b"] [str "c"] 3) as (w' & HL & Hq & Ho & Hp & _).
  - exact sim_msgmax.
  - apply producer_example_queue. by apply (bool_decide_eq_true_1 _).
  - exact (holds_wf _ _ (holds_msg_of_b [] eq_refl)).
  - exact I.
  - by apply (bool_decide_eq_true_1 _).
  - cbn. lia.
  - by apply (bool_decide_eq_true_1 _).
  - by apply (bool_decide_eq_true_1 _).
  - by apply (bool_decide_eq_true_1 _).
  - exists w'. split; [exact HL|]. split; [exact Hq|]. split; [exact Ho|exact Hp].
Defined.

Lemma producer_connect_failure_witness :
  ∃ w', producer_thread (N:=refused) false 0 (str "10.0.0.1:80")
      (str "foo") 1 (producer_example tt []) = Some (Ret tt, w')
    ∧ producer_set (f_ext w') = {[str "10.0.0.1:80"]} ∖ {[str "10.0.0.1:80"]}.
Proof.
  destruct (producer_connect_failure (N:=refused)
    (producer_example tt []) false 0 (str "10.0.0.1:80") (str "foo") 1
    (mkSockaddr AF_INET (htons LittleEndian 80) (inet_addr (str "10.0.0.1")))
    tt (str "now")) as (w' & HT & Hs & _).
  - reflexivity.
  - reflexivity.
  - reflexivity.
  - by apply (bool_decide_eq_true_1 _).
  - reflexivity.
  - reflexivity.
  - exists w'. split; [exact HT|exact Hs].
Defined.
