(* ===== verification/Delivery.v ===== *)
(** * Delivery: from a publisher's input to a subscriber's output

    The four filters a message passes, one after the other: the input filter of
    [wissbi-pub], the producer of its branch, the consumer of the connection and the
    output thread of [wissbi-sub].  Each has its own file; here they are put
    together, each stage starting from what the one before left in the queue or on
    the wire. *)

From S2P Require Import Prelude Text MsgBuf IOStream MsgFilter Line Logger Util Tcp SysvMq Tee.
From S2P Require Import Relay Metric Pub Producer Sub.

(** ** How the stages hang together *)

Section stages.
Context {PI PO K N K' N' : Type} `{MessageSource PI} `{MessageSink PO}.
Context `{MqOps K} `{!MqLaws K} `{SocketOps N} `{!StreamLaws N}.
Context `{MqOps K'} `{!MqLaws K'} `{SocketOps N'} `{!StreamLaws N'} `{InetLib} `{UnorderedMap}.

(** The producer has opened the queue behind the branch [p], on a connection that
    has carried nothing yet. *)
Definition takes_branch (p : ptr) (w : pub_filter (PI:=PI) (W:=mq_world K))
    (wp : producer_filter (K:=K) (N:=N)) : Prop :=
  (∃ o, mq_objs (tee_world (f_out w)) !! p = Some o ∧ mqid_ (f_in wp) = mqid_ o)
  ∧ kern (f_in wp) = mq_kern (tee_world (f_out w))
  ∧ is_Some (mq_view (f_in wp)) ∧ wf_MsgBuf (msg_buf_ wp)
  ∧ healthy (sock_ (f_out wp)) (net (f_out wp)) ∧ outgoing (sock_ (f_out wp)) (net (f_out wp)) = [].

(** The consumer's connection holds what the producer's carried. *)
Definition connected (wp : producer_filter (K:=K) (N:=N)) (wc : consumer (K:=K') (N:=N')) : Prop :=
  healthy (sock_ (f_in wc)) (net (f_in wc))
  ∧ incoming (sock_ (f_in wc)) (net (f_in wc)) = outgoing (sock_ (f_out wp)) (net (f_out wp))
  ∧ wf_MsgBuf (msg_buf_ wc).

(** The output thread has opened the consumers' queue. *)
Definition takes_queue (wc : consumer (K:=K') (N:=N')) (wo : writer (K:=K') (PO:=PO)) : Prop :=
  mqid_ (f_in wo) = mqid_ (f_out wc) ∧ kern (f_in wo) = kern (f_out wc) ∧ wf_MsgBuf (msg_buf_ wo).

(** ** Lemmas *)

Lemma sublist_Forall (P : bytes → Prop) l k : l `sublist_of` k → Forall P k → Forall P l.
Proof. induction 1; inversion 1; subst; auto. Qed.

(** What a branch got is what its producer finds, when it fits. *)
Lemma takes_branch_queue p w wp :
  takes_branch p w wp → Forall (λ m, zlen m ≤ MAX_MSG_SIZE) (mq_log p (tee_world (f_out w))) →
  mq_fits (f_in wp) (mq_log p (tee_world (f_out w))).
Proof.
  intros ((o & Ho & Hid) & Hk & [q Hq] & _) Hf. split; [|done].
  unfold mq_view in *. unfold mq_log. rewrite Ho, <- Hid, <- Hk, Hq. done.
Qed.

(** A producer empties its queue onto a fresh connection. *)
Lemma producer_delivers wp ms :
  mq_fits (f_in wp) ms → Forall (λ m, m ≠ []) ms → wf_MsgBuf (msg_buf_ wp) →
  healthy (sock_ (f_out wp)) (net (f_out wp)) → outgoing (sock_ (f_out wp)) (net (f_out wp)) = [] →
  ∃ wp', runs_to producer_funcs (length ms) wp wp' ∧ mq_fits (f_in wp') []
    ∧ outgoing (sock_ (f_out wp')) (net (f_out wp')) = tcp_frames ms
    ∧ f_ext wp' = count_sent_n (length ms) (f_ext wp).
Proof.
  intros Hq Hne Hwf Hh Ho.
  destruct (producer_loop_prefix ms [] wp) as (wp' & HL & [Q1 _ _ _ Q5 Q6 _]);
    [by rewrite app_nil_r|done..|].
  exists wp'. rewrite Ho in Q5. done.
Qed.

End stages.

(** ** Properties *)

(** C2: what a publisher reads is what a subscriber writes.  The messages are not
    empty, fit the buffer and are accepted by the output; the stages run one after
    the other, over connections that stay up, from empty queues.  With the branch of
    the subscriber there, set to drop, the publisher puts its whole input on it,
    less what the queue refused, and all of it when the queue has room; what the
    branches lack is what the drop count counts.  The producer carries all of that
    over the connection, and its counters say so; a consumer at the other end puts
    it in the subscriber's queue, up to the first message that queue refuses or has
    no room for, and all of it with room; and the output thread writes exactly
    those, in the order of the input.  With room in both queues the output is the
    input. *)
Theorem published_is_output {PI PO K N K' N'} `{MessageSource PI} `{MessageSink PO}
    `{MqOps K} `{!MqLaws K} `{SocketOps N} `{!StreamLaws N}
    `{MqOps K'} `{!MqLaws K'} `{SocketOps N'} `{!StreamLaws N'} `{InetLib} `{UnorderedMap}
    now nap timeout (wait : pub_filter (PI:=PI) (W:=mq_world K) → pub_filter) w ms dest p :
  waits_for now nap timeout wait → branch_map_ (f_out w) !! dest = Some p →
  tee_sink (branch_map_ (f_out w)) (λ p, mq_log p (tee_world (f_out w))) (f_out w) [] →
  source_has (f_in w) ms → wf_MsgBuf (msg_buf_ w) → mq_log p (tee_world (f_out w)) = [] →
  0 ≤ Pub.pending_counter (f_ext w) < 2 ^ 32 → 0 ≤ last_processed (drop_metric (f_ext w)) < 2 ^ 32 →
  Forall (λ m, m ≠ [] ∧ sink_ok (P:=PO) m ∧ zlen m ≤ MAX_MSG_SIZE) ms → MAX_MSG_SIZE ≤ sys_msgmax (K:=K') →
  ∃ w1 sent,
    (∀ fuel, (length ms < fuel)%nat → FilterLoop (pub_funcs wait) fuel w = Some (Ret tt, w1))
    ∧ mq_log p (tee_world (f_out w1)) = sent ∧ sent `sublist_of` ms
    ∧ (mq_branch_room p ms (tee_world (f_out w)) → sent = ms)
    ∧ last_processed (drop_metric (f_ext w1))
      = uint_wrap (last_processed (drop_metric (f_ext w)) + refused ms w w1)
    ∧ (refused ms w w1 = 0 → sent = ms)
    ∧ ∀ wp : producer_filter (K:=K) (N:=N), takes_branch p w1 wp →
  ∃ wp', runs_to producer_funcs (length sent) wp wp' ∧ mq_fits (f_in wp') []
    ∧ f_ext wp' = count_sent_n (length sent) (f_ext wp)
    ∧ ∀ (wc : consumer (K:=K') (N:=N')) n waits o, connected wp' wc → mq_fits (f_out wc) [] →
      enqueue sent (f_out wc) = (n, waits, o) →
  ∃ wc', (∀ fuel, (length sent < fuel)%nat →
           FilterLoop default_funcs fuel wc = Some (if waits : bool then Waits else Ret tt, wc'))
    ∧ f_out wc' = o ∧ (has_room sent (f_out wc) → n = length sent ∧ waits = false)
    ∧ ∀ wo : writer (K:=K') (PO:=PO), takes_queue wc' wo → sink_has (f_out wo) [] →
  ∃ wo', runs_to default_funcs n wo wo' ∧ mq_fits (f_in wo') []
    ∧ sink_has (f_out wo') (take n sent)
    ∧ (mq_branch_room p ms (tee_world (f_out w)) → has_room sent (f_out wc) → sink_has (f_out wo') ms).
Proof.
  intros Hwait Hd Hsnk Hsrc Hwf Hlog Hpc Hdm Hall Hmax.
  assert (Hne : branch_map_ (f_out w) ≠ ∅) by (intros E; by rewrite E, lookup_empty in Hd).
  destruct (publisher_run now nap timeout wait w ms (S (length ms)) Hwait Hne Hsnk Hsrc Hwf Hpc Hdm)
    as (w1 & HL & Hgrow & Hroom & _ & Hdrop & _ & Hfull); [lia|].
  destruct (Hgrow p) as (sent & Hsent & Hsub).
  specialize (Hroom _ _ Hd). pose proof (λ Hz, Hfull Hz _ _ Hd) as Hfull'. clear Hfull.
  change (branch_log p) with (mq_log (K:=K) p) in *. change (branch_room p) with (mq_branch_room (K:=K) p) in *.
  rewrite Hlog in Hsent, Hroom, Hfull'. cbn [app] in Hsent, Hroom, Hfull'.
  assert (Hfit : mq_branch_room p ms (tee_world (f_out w)) → sent = ms)
    by (intros Hr; rewrite <- Hsent; by apply Hroom).
  exists w1, sent. split; [intros fuel Hfu; by eapply FilterLoop_more; [|exact HL]|].
  split; [done|]. split; [done|]. split; [done|]. split; [done|].
  split; [intros Hz; rewrite <- Hsent; by apply Hfull'|].
  apply (sublist_Forall _ _ _ Hsub) in Hall.
  assert (Hall1 : Forall (λ m : bytes, m ≠ []) sent) by (eapply Forall_impl; [exact Hall|naive_solver]).
  assert (Hall2 : Forall (sink_ok (P:=PO)) sent) by (eapply Forall_impl; [exact Hall|naive_solver]).
  assert (Hall3 : Forall (λ m : bytes, zlen m ≤ MAX_MSG_SIZE) sent)
    by (eapply Forall_impl; [exact Hall|naive_solver]).
  intros wp Htake. pose proof (takes_branch_queue p w1 wp Htake) as Hq. rewrite Hsent in Hq.
  destruct Htake as (_ & _ & _ & Hwfp & Hhp & Hop).
  destruct (producer_delivers wp sent (Hq Hall3) Hall1 Hwfp Hhp Hop) as (wp' & HLp & Hqp & Hout & Hext).
  exists wp'. split; [done|]. split; [done|]. split; [done|].
  intros wc n waits o (Hhc & Hic & Hwfc) Hqc Henq.
  assert (Hsrcc : source_has (f_in wc) sent) by (split; [done|split; [by rewrite Hic|done]]).
  destruct (consumer_loop Hmax wc sent [] (S (length sent)) n waits o Hsrcc Hqc Hwfc)
    as (wc' & HLc & Ho & Hn & Hqo & _); [lia|done|].
  assert (Hn' : has_room sent (f_out wc) → n = length sent ∧ waits = false).
  { intros Hr. destruct (enqueue_room Hmax sent (f_out wc) [] Hqc Hall3 Hr) as (o' & E).
    rewrite Henq in E. by injection E as -> -> _. }
  exists wc'. split; [intros fuel Hfu; by eapply FilterLoop_more; [|exact HLc]|].
  split; [done|]. split; [done|].
  intros wo (Hid & Hk & Hwfo) Hso.
  assert (Hw : writing wo (take n sent ++ []) []).
  { split; [|done|done]. rewrite app_nil_r. unfold mq_fits, mq_view in *. rewrite Hid, Hk, Ho. exact Hqo. }
  destruct (writer_prefix wo (take n sent) [] [] Hw) as (wo' & HLo & [Hqw How _]);
    [by apply Forall_take|].
  exists wo'. rewrite length_take_le in HLo by done. split; [done|]. split; [done|]. split; [done|].
  intros Hr1 Hr2. destruct (Hn' Hr2) as [-> _]. rewrite firstn_all in How. by rewrite <- (Hfit Hr1).
Qed.

(** ** Witness *)

Import SimKernel MapOrder PipeHost DottedQuad.

(** Two lines for one subscriber, on two hosts with room for eight messages. *)
Definition delivery_pub : pub_filter (PI:=Line) (W:=mq_world sim) :=
  pub_example (str "a" ++ [LF] ++ str "b" ++ [LF]) {[str "foo" := 1%nat]}.

Definition published (r : option (outcome unit * pub_filter (PI:=Line) (W:=mq_world sim))) :
    pub_filter (PI:=Line) (W:=mq_world sim) :=
  match r with Some (_, w) => w | None => delivery_pub end.

Definition delivery_producer (k : sim) : producer_filter (K:=sim) (N:=pipe) :=
  mkFstate (mkSysvMq 5 0 [] false 2048 k) (mkTCP 3 (mkPipe [] [] []) Logger_init)
    (mkCaptured {[str "10.0.0.9:4000"]} (FilterMetric_new (str "foo")) 2) (msg_of []).

Definition delivery_writer (k : sim) : writer (K:=sim) (PO:=Line) :=
  mkFstate (mkSysvMq 5 0 [] true 0 k) (line_start []) tt (msg_of []).

Definition delivery_consumer (received : bytes) : consumer (K:=sim) (N:=pipe) :=
  mkFstate (mkTCP 3 (mkPipe received [] []) Logger_init)
    (mkSysvMq 5 0 [] false 0 (mkSim ∅ {[5 := []]} 8)) tt (msg_of []).

Lemma delivery_consumer_queue d : mq_fits (f_out (delivery_consumer d)) [].
Proof.
  split; [|constructor]. unfold mq_view. cbn. rewrite sim_queue_mk. by rewrite lookup_singleton_eq.
Qed.

Lemma published_is_output_witness :
  ∃ w1 wp' wc' wo',
    FilterLoop (pub_funcs (λ w, w)) 3 delivery_pub = Some (Ret tt, w1)
    ∧ runs_to producer_funcs 2 (delivery_producer (mq_kern (tee_world (f_out w1)))) wp'
    ∧ FilterLoop default_funcs 3 (delivery_consumer (pipe_out (net (f_out wp')))) = Some (Ret tt, wc')
    ∧ runs_to default_funcs 2 (delivery_writer (kern (f_out wc'))) wo'
    ∧ os_ptr_ (line_base (f_out wo')) = ostream_of (str "a" ++ [LF] ++ str "b" ++ [LF]).
Proof.
  destruct (published_is_output (N:=pipe) (N':=pipe) (K':=sim) (PO:=Line)
    (λ _, 0) (λ w, w) 0 (λ w, w) delivery_pub [str "a"; str "b"] (str "foo") 1%nat)
    as (w1 & sent & HL & Hlog & _ & _ & _ & _ & Hrest).
  - exact never_naps.
  - reflexivity.
  - apply pub_example_sink.
  - apply line_start_source. by apply (bool_decide_eq_true_1 _).
  - exact msg_of_wf.
  - vm_compute. reflexivity.
  - by apply (bool_decide_eq_true_1 _).
  - by apply (bool_decide_eq_true_1 _).
  - by apply (bool_decide_eq_true_1
      (Forall (λ m : bytes, m ≠ [] ∧ m ≠ [] ∧ zlen m ≤ MAX_MSG_SIZE) [str "a"; str "b"])).
  - unfold MAX_MSG_SIZE. cbn. lia.
  - specialize (HL 3%nat ltac:(cbn; lia)).
    assert (E1 : w1 = published (FilterLoop (pub_funcs (λ w, w)) 3 delivery_pub)) by by rewrite HL.
    assert (Hsent : sent = [str "a"; str "b"]) by (rewrite <- Hlog, E1; vm_compute; reflexivity).
    rewrite Hsent in Hrest.
    destruct (Hrest (delivery_producer (mq_kern (tee_world (f_out w1)))))
      as (wp' & Hrun & _ & _ & Hrest2).
    { rewrite E1. split; [|split; [reflexivity|split; [|split; [exact msg_of_wf|by split]]]].
      - eexists. split; [vm_compute; reflexivity|reflexivity].
      - eexists. vm_compute. reflexivity. }
    destruct (Hrest2 (delivery_consumer (pipe_out (net (f_out wp')))) 2%nat false
      (snd (enqueue [str "a"; str "b"] (f_out (delivery_consumer [])))))
      as (wc' & HLc & Ho & _ & Hrest3).
    { split; [exact I|]. split; [reflexivity|exact msg_of_wf]. }
    { apply delivery_consumer_queue. }
    { vm_compute. reflexivity. }
    destruct (Hrest3 (delivery_writer (kern (f_out wc')))) as (wo' & Hrunw & _ & Hout & _).
    { unfold takes_queue. rewrite Ho. split; [vm_compute; reflexivity|]. by split; [|exact msg_of_wf]. }
    { reflexivity. }
    exists w1, wp', wc', wo'. split; [exact HL|]. split; [exact Hrun|].
    split; [exact (HLc 3%nat ltac:(cbn; lia))|]. split; [exact Hrunw|exact Hout].
Defined.
