(* ===== verification/Connector.v ===== *)
(** * Connector: the threads of [connector.hpp]

    One thread of the publisher lists the subscribers of a queue again and again
    and starts a detached thread for each that has none; those threads and the
    publisher's main thread share the set of connected subscribers, the queues and
    the counters.  This file is their interleaving: [step] is the next access to
    shared state of one thread, chosen by the label with what the environment
    answers, and [reachable] closes it.  [Producer] says what a producer thread
    does on its own, and [SysvMq] that its queue is a FIFO. *)

From S2P Require Import Prelude Text MsgBuf Util Tee SubDir Metric.

(** ** The state *)

(** Where the connector thread is: between two passes, at an entry of the list,
    or at one of the statements for the entry [(conn_str, real_dest)]. *)
Inductive loop_pc :=
  | Listing
  | Visiting (rest : list (bytes * bytes))
  | Branching (conn_str real_dest : bytes) (rest : list (bytes * bytes))
  | Metering (conn_str real_dest : bytes) (rest : list (bytes * bytes))
  | Spawning (conn_str real_dest : bytes) (rest : list (bytes * bytes))
  | Inserting (conn_str : bytes) (rest : list (bytes * bytes))
  | Sleeping.

(** Where a producer thread is; the message it holds is in its [msg_buf_].  In [PDone]
    it has erased its address, the last thing it does to the shared state, and
    returns or has returned. *)
Inductive producer_pc :=
  | PConnecting | POpening | PGetting
  | PPutting (m : bytes)
  | PDecPending | PIncLast | PIncTotal
  | PRequeue (m : bytes)
  | PErasing | PDone.

(** A producer thread: what its closure captured by value, and its position. *)
Record producer := mkProducer { p_conn_str : bytes; p_real_dest : bytes; p_pc : producer_pc }.

(** The state the threads share.  [c_put], [c_made], [c_sent] and [c_lost] are
    the history of the queues, newest first: the messages the main thread put, the
    empty ones an interrupted receive made, the ones a socket took, and the ones a
    requeue lost. *)
Record cstate := mkCstate {
  c_alive : bool;
  c_loop : loop_pc;
  producer_set : gset bytes;
  filter_ : Tee unit;
  branch_drop : gmap bytes bool;
  metric_list : list FilterMetric;
  pending_counter : Z;
  threads : list producer;
  queues : gmap bytes (list bytes);
  c_put : list (bytes * bytes); c_made : list (bytes * bytes);
  c_sent : list (bytes * bytes); c_lost : list (bytes * bytes);
  c_added : Z }.

Definition set_loop (pc : loop_pc) (s : cstate) : cstate :=
  mkCstate (c_alive s) pc (producer_set s) (filter_ s) (branch_drop s) (metric_list s)
    (pending_counter s) (threads s) (queues s) (c_put s) (c_made s) (c_sent s) (c_lost s) (c_added s).
Definition crash (s : cstate) : cstate :=
  mkCstate false (c_loop s) (producer_set s) (filter_ s) (branch_drop s) (metric_list s)
    (pending_counter s) (threads s) (queues s) (c_put s) (c_made s) (c_sent s) (c_lost s) (c_added s).
Definition set_producers (ps : gset bytes) (s : cstate) : cstate :=
  mkCstate (c_alive s) (c_loop s) ps (filter_ s) (branch_drop s) (metric_list s)
    (pending_counter s) (threads s) (queues s) (c_put s) (c_made s) (c_sent s) (c_lost s) (c_added s).
Definition set_branch (t : Tee unit) (dr : gmap bytes bool) (qs : gmap bytes (list bytes))
    (s : cstate) : cstate :=
  mkCstate (c_alive s) (c_loop s) (producer_set s) t dr (metric_list s)
    (pending_counter s) (threads s) qs (c_put s) (c_made s) (c_sent s) (c_lost s) (c_added s).
Definition set_metric_list (ms : list FilterMetric) (s : cstate) : cstate :=
  mkCstate (c_alive s) (c_loop s) (producer_set s) (filter_ s) (branch_drop s) ms
    (pending_counter s) (threads s) (queues s) (c_put s) (c_made s) (c_sent s) (c_lost s) (c_added s).
Definition set_pending (p added : Z) (s : cstate) : cstate :=
  mkCstate (c_alive s) (c_loop s) (producer_set s) (filter_ s) (branch_drop s) (metric_list s)
    p (threads s) (queues s) (c_put s) (c_made s) (c_sent s) (c_lost s) added.
Definition set_threads (ts : list producer) (s : cstate) : cstate :=
  mkCstate (c_alive s) (c_loop s) (producer_set s) (filter_ s) (branch_drop s) (metric_list s)
    (pending_counter s) ts (queues s) (c_put s) (c_made s) (c_sent s) (c_lost s) (c_added s).
Definition set_queue (k : bytes) (q : list bytes) (s : cstate) : cstate :=
  mkCstate (c_alive s) (c_loop s) (producer_set s) (filter_ s) (branch_drop s) (metric_list s)
    (pending_counter s) (threads s) (<[k := q]> (queues s))
    (c_put s) (c_made s) (c_sent s) (c_lost s) (c_added s).
Definition set_history (pu ma se lo : list (bytes * bytes)) (s : cstate) : cstate :=
  mkCstate (c_alive s) (c_loop s) (producer_set s) (filter_ s) (branch_drop s) (metric_list s)
    (pending_counter s) (threads s) (queues s) pu ma se lo (c_added s).

(** The key file of a branch names its queue: two branches whose names escape
    alike share one. *)
Definition queue_key (real_dest : bytes) : bytes :=
  match EscapeSubFolderPath real_dest with Ret e => e | _ => [] end.

Definition queue_of (s : cstate) (k : bytes) : list bytes := default [] (queues s !! k).

(** [getenv("WISSBI_DROP_MESSAGE")]. *)
Definition drop_of (drop_option : option bytes) : bool :=
  negb (bool_decide (drop_option = Some (str "no"))).

(** A new object is none of those the [Tee] holds. *)
Definition new_ptr (t : Tee unit) : ptr := fresh (map_to_set (λ _ p, p) (branch_map_ t) : gset nat).

(** [find_if] by name, and [push_front] when there is none. *)
Definition find_metric (real_dest : bytes) (ms : list FilterMetric) : option FilterMetric :=
  find (λ m, bool_decide (name m = real_dest)) ms.
Definition ensure_metric (real_dest : bytes) (ms : list FilterMetric) : list FilterMetric :=
  match find_metric real_dest ms with
  | Some _ => ms
  | None => FilterMetric_copy (FilterMetric_new real_dest) :: ms
  end.

(** The node [find_if] returned, updated in place: nodes of a [std::list] stay
    where they are. *)
Definition on_metric (real_dest : bytes) (f : FilterMetric → FilterMetric)
    (ms : list FilterMetric) : list FilterMetric :=
  map (λ m, if decide (name m = real_dest) then f m else m) ms.

(** ** Steps *)

Inductive label :=
  | LList (subs : list (bytes * bytes))     (** [GetSubList] returned [subs] *)
  | LVisit                                  (** the loop's test, then [find] *)
  | LBranch (drop_option : option bytes) (ok : bool)  (** the branch; did [mq_init] succeed *)
  | LMetric | LSpawn | LInsert | LWake
  | LConnect (t : nat) (ok : bool)
  | LOpen (t : nat) (ok : bool)             (** [mq_init] in a producer *)
  | LGet (t : nat)                          (** a message is there *)
  | LGetFail (t : nat)                      (** the receive failed *)
  | LPut (t : nat) (ok : bool)              (** did the socket take the message *)
  | LCount (t : nat)                        (** the next of the three counters *)
  | LRequeue (t : nat) (ok : bool)          (** did the queue take it back *)
  | LErase (t : nat)
  | LPub (real_dest m : bytes) (ok : bool)  (** the main thread's put on a branch *)
  | LPending (n : Z).                       (** the main thread's [pending_counter += n] *)

Definition set_pc (t : nat) (pc : producer_pc) (s : cstate) : cstate :=
  match threads s !! t with
  | Some p => set_threads (<[t := mkProducer (p_conn_str p) (p_real_dest p) pc]> (threads s)) s
  | None => s
  end.

Definition loop_step (l : label) (s : cstate) : option cstate :=
  match l, c_loop s with
  | LList subs, Listing => Some (set_loop (Visiting subs) s)
  | LVisit, Visiting [] => Some (set_loop Sleeping s)
  | LVisit, Visiting ((c, d) :: rest) =>
      if decide (c ∈ producer_set s) then Some (set_loop (Visiting rest) s)
      else Some (set_loop (Branching c d rest) s)
  | LBranch drop_option ok, Branching c d rest =>
      if ExistsBranch d (filter_ s) then Some (set_loop (Metering c d rest) s)
      else if decide (d = []) then Some (crash s)
      else if ok then
        Some (set_loop (Metering c d rest)
          (set_branch (AddBranch d (new_ptr (filter_ s)) (filter_ s))
             (<[d := drop_of drop_option]> (branch_drop s))
             (<[queue_key d := queue_of s (queue_key d)]> (queues s)) s))
      else Some (crash s)
  | LMetric, Metering c d rest =>
      Some (set_loop (Spawning c d rest) (set_metric_list (ensure_metric d (metric_list s)) s))
  | LSpawn, Spawning c d rest =>
      Some (set_loop (Inserting c rest)
              (set_threads (threads s ++ [mkProducer c d PConnecting]) s))
  | LInsert, Inserting c rest =>
      Some (set_loop (Visiting rest) (set_producers ({[c]} ∪ producer_set s) s))
  | LWake, Sleeping => Some (set_loop Listing s)
  | _, _ => None
  end.

Definition producer_step (l : label) (t : nat) (p : producer) (s : cstate) : option cstate :=
  let k := queue_key (p_real_dest p) in
  match l, p_pc p with
  | LConnect _ ok, PConnecting => Some (set_pc t (if ok : bool then POpening else PErasing) s)
  | LOpen _ ok, POpening => Some (if ok : bool then set_pc t PGetting s else crash s)
  | LGet _, PGetting =>
      match queue_of s k with
      | m :: q => Some (set_pc t (PPutting m) (set_queue k q s))
      | [] => None
      end
  | LGetFail _, PGetting =>
      Some (set_pc t (PRequeue [])
              (set_history (c_put s) ((k, []) :: c_made s) (c_sent s) (c_lost s) s))
  | LPut _ true, PPutting m =>
      if decide (m = []) then None
      else Some (set_pc t PDecPending
                   (set_history (c_put s) (c_made s) ((k, m) :: c_sent s) (c_lost s) s))
  | LPut _ false, PPutting m => Some (set_pc t (PRequeue m) s)
  | LCount _, PDecPending =>
      Some (set_pc t PIncLast (set_pending (uint_wrap (pending_counter s - 1)) (c_added s) s))
  | LCount _, PIncLast =>
      Some (set_pc t PIncTotal
              (set_metric_list (on_metric (p_real_dest p) incr_last (metric_list s)) s))
  | LCount _, PIncTotal =>
      Some (set_pc t PGetting
              (set_metric_list (on_metric (p_real_dest p) incr_total (metric_list s)) s))
  | LRequeue _ true, PRequeue m => Some (set_pc t PErasing (set_queue k (queue_of s k ++ [m]) s))
  | LRequeue _ false, PRequeue m =>
      Some (set_pc t PErasing
              (set_history (c_put s) (c_made s) (c_sent s) ((k, m) :: c_lost s) s))
  | LErase _, PErasing =>
      Some (set_pc t PDone (set_producers (producer_set s ∖ {[p_conn_str p]}) s))
  | _, _ => None
  end.

(** What the main thread does to the shared state. *)
Definition main_step (l : label) (s : cstate) : option cstate :=
  match l with
  | LPub d m ok =>
      if ExistsBranch d (filter_ s) then
        let k := queue_key d in
        Some (if ok : bool then
                set_history ((k, m) :: c_put s) (c_made s) (c_sent s) (c_lost s)
                  (set_queue k (queue_of s k ++ [m]) s)
              else s)
      else None
  | LPending n => Some (set_pending (uint_wrap (pending_counter s + n)) (c_added s + n) s)
  | _ => None
  end.

(** The producer a label is about. *)
Definition label_thread (l : label) : option nat :=
  match l with
  | LConnect t _ | LOpen t _ | LGet t | LGetFail t | LPut t _ | LCount t | LRequeue t _ | LErase t =>
      Some t
  | _ => None
  end.

Definition step (l : label) (s : cstate) : option cstate :=
  if c_alive s then
    match label_thread l with
    | Some t => p ← threads s !! t; producer_step l t p s
    | None => match l with LPub _ _ _ | LPending _ => main_step l s | _ => loop_step l s end
    end
  else None.

Fixpoint run (ls : list label) (s : cstate) : option cstate :=
  match ls with
  | [] => Some s
  | l :: ls' => s' ← step l s; run ls' s'
  end.

(** The connector at its start. *)
Definition start : cstate :=
  mkCstate true Listing ∅ (Tee_init 0 0 tt) ∅ [] 0 [] ∅ [] [] [] [] 0.

Inductive reachable : cstate → Prop :=
  | reach_start : reachable start
  | reach_step s l s' : reachable s → step l s = Some s' → reachable s'.

(** ** Lemmas *)

(** A producer whose function has not returned. *)
Definition live (p : producer) : Prop := p_pc p ≠ PDone.

#[export] Instance live_dec p : Decision (live p).
Proof. unfold live. destruct (p_pc p); solve [left; done|right; tauto]. Defined.

(** *** What a step leaves alone *)

(** A producer's step: it moves the thread, and the set shrinks exactly when its
    function returns. *)
Record producer_frame (t : nat) (p : producer) (s s' : cstate) : Prop := {
  pf_live : live p;
  pf_loop : c_loop s' = c_loop s;
  pf_filter : filter_ s' = filter_ s;
  pf_names : map name (metric_list s') = map name (metric_list s);
  pf_moves :
    (producer_set s' = producer_set s
     ∧ (threads s' = threads s
        ∨ ∃ pc, pc ≠ PDone
            ∧ threads s' = <[t := mkProducer (p_conn_str p) (p_real_dest p) pc]> (threads s)))
    ∨ (producer_set s' = producer_set s ∖ {[p_conn_str p]}
       ∧ threads s' = <[t := mkProducer (p_conn_str p) (p_real_dest p) PDone]> (threads s)) }.

Lemma on_metric_names d f ms :
  (∀ m, name (f m) = name m) → map name (on_metric d f ms) = map name ms.
Proof.
  intros Hf. unfold on_metric. rewrite map_map. apply map_ext. intros m.
  case_decide; [apply Hf|done].
Qed.

Lemma set_pc_eq t pc s p :
  threads s !! t = Some p →
  set_pc t pc s = set_threads (<[t := mkProducer (p_conn_str p) (p_real_dest p) pc]> (threads s)) s.
Proof. unfold set_pc. by intros ->. Qed.

Lemma producer_step_frame l t p s s' :
  threads s !! t = Some p → producer_step l t p s = Some s' → producer_frame t p s s'.
Proof.
  intros Hp Hs. unfold producer_step in Hs.
  destruct p as [c d pc]. cbn [p_conn_str p_real_dest p_pc] in Hs.
  destruct l, pc; cbn in Hs; try done; repeat case_match; simplify_eq;
    try (erewrite set_pc_eq by exact Hp);
    (split; [done|done|done|try done; by apply on_metric_names
            |try (by left; split; [done|by left]); try (by left; split; [done|right; eexists; split; [|reflexivity]]); by right]).
Qed.

(** *** The subscribers that are served *)

(** The address the connector is about to start a producer for, and the one it
    has started and not yet remembered. *)
Definition looking (pc : loop_pc) : option bytes :=
  match pc with
  | Branching c _ _ | Metering c _ _ | Spawning c _ _ => Some c
  | _ => None
  end.
Definition inserting (pc : loop_pc) : option bytes :=
  match pc with Inserting c _ => Some c | _ => None end.

(** At most one live producer per address; a live producer's address is in the
    set, or about to be; an address being looked at has no live producer. *)
Record served (s : cstate) : Prop := {
  served_one i j p q :
    threads s !! i = Some p → threads s !! j = Some q → live p → live q →
    p_conn_str p = p_conn_str q → i = j;
  served_known i p :
    threads s !! i = Some p → live p →
    p_conn_str p ∈ producer_set s ∨ inserting (c_loop s) = Some (p_conn_str p);
  served_fresh c i p :
    looking (c_loop s) = Some c → threads s !! i = Some p → live p → p_conn_str p ≠ c }.

Lemma served_start : served start.
Proof. split; intros; done. Qed.

Lemma served_producer l t p s s' :
  served s → threads s !! t = Some p → producer_step l t p s = Some s' → served s'.
Proof.
  intros [H1 H2 H3] Hp Hs.
  destruct (producer_step_frame l t p s s' Hp Hs) as [Hlive Hl _ _ Hm].
  pose proof (lookup_lt_Some _ _ _ Hp) as Hlt.
  (* a live thread after the step was live before it, with the same address *)
  assert (Hback : ∀ i q, threads s' !! i = Some q → live q →
    ∃ q0, threads s !! i = Some q0 ∧ live q0 ∧ p_conn_str q0 = p_conn_str q).
  { intros i q Hq Hql. destruct Hm as [[_ [Ht|(pc & _ & Ht)]]|[_ Ht]]; rewrite Ht in Hq; [eauto|..];
      apply list_lookup_insert_Some in Hq as [(<- & <- & _)|[_ ?]]; eauto. }
  split.
  - intros i j q r Hq Hr Hql Hrl He.
    destruct (Hback _ _ Hq Hql) as (q0 & ? & ? & ?).
    destruct (Hback _ _ Hr Hrl) as (r0 & ? & ? & ?). eapply (H1 i j q0 r0); congruence.
  - intros i q Hq Hql. destruct (Hback _ _ Hq Hql) as (q0 & Hq0 & Hl0 & He).
    rewrite Hl, <- He. destruct (H2 i q0 Hq0 Hl0) as [Hin|?]; [left|by right].
    destruct Hm as [[-> _]|[-> Ht]]; [done|]. apply elem_of_difference. split; [done|].
    intros Heq%elem_of_singleton. assert (i = t) as ->.
    { eapply (H1 i t q0 p); done. }
    rewrite Ht, list_lookup_insert_eq in Hq by done. injection Hq as <-. by apply Hql.
  - intros c i q Hc Hq Hql. rewrite Hl in Hc.
    destruct (Hback _ _ Hq Hql) as (q0 & ? & ? & <-). by eapply H3.
Qed.

Lemma served_frame s s' :
  served s → threads s' = threads s → producer_set s' = producer_set s →
  inserting (c_loop s) = None ∨ inserting (c_loop s') = inserting (c_loop s) →
  (∀ c, looking (c_loop s') = Some c → looking (c_loop s) = Some c ∨
          (c ∉ producer_set s ∧ inserting (c_loop s) = None)) →
  served s'.
Proof.
  intros [H1 H2 H3] Ht Hs Hi Hl. split; rewrite ?Ht, ?Hs.
  - exact H1.
  - intros i p Hp Hlv. destruct (H2 i p Hp Hlv); [by left|]. destruct Hi; [congruence|].
    right. congruence.
  - intros c i p Hc Hp Hlv. destruct (Hl c Hc) as [?|[Hn Hi']]; [by eapply H3|].
    intros <-. destruct (H2 i p Hp Hlv); [done|congruence].
Qed.

(** Starting a producer. *)
Lemma served_spawn c d rest s :
  served s → c_loop s = Spawning c d rest →
  served (set_loop (Inserting c rest) (set_threads (threads s ++ [mkProducer c d PConnecting]) s)).
Proof.
  intros [H1 H2 H3] El. rewrite El in *. cbn in H2, H3.
  assert (Hcase : ∀ i p, (threads s ++ [mkProducer c d PConnecting]) !! i = Some p →
    threads s !! i = Some p ∨ (i = length (threads s) ∧ p = mkProducer c d PConnecting)).
  { intros i p [?|[Hle Hp]]%lookup_app_Some; [by left|right].
    apply list_lookup_singleton_Some in Hp as [? <-]. split; [lia|done]. }
  split; cbn.
  - intros i j p q Hp Hq Hlp Hlq He.
    destruct (Hcase _ _ Hp) as [Hp'|[-> ->]], (Hcase _ _ Hq) as [Hq'|[-> ->]].
    + by eapply (H1 i j p q).
    + by destruct (H3 c i p eq_refl Hp' Hlp).
    + by destruct (H3 c j q eq_refl Hq' Hlq).
    + done.
  - intros i p Hp Hlp. destruct (Hcase _ _ Hp) as [Hp'|[-> ->]]; [|by right].
    destruct (H2 i p Hp' Hlp); [by left|done].
  - done.
Qed.

(** Remembering it. *)
Lemma served_insert c rest s :
  served s → c_loop s = Inserting c rest →
  served (set_loop (Visiting rest) (set_producers ({[c]} ∪ producer_set s) s)).
Proof.
  intros [H1 H2 H3] El. rewrite El in *. cbn in H2. split; cbn; [exact H1| |done].
  intros i p Hp Hl. destruct (H2 i p Hp Hl) as [?|[= ->]]; set_solver.
Qed.

Lemma served_loop l s s' : served s → loop_step l s = Some s' → served s'.
Proof.
  intros Hsv Hs. unfold loop_step in Hs.
  destruct l, (c_loop s) as [|[|[c d] rest]|c d rest|c d rest|c d rest|c rest|] eqn:El;
    try done; repeat case_match; simplify_eq;
    try (by apply served_spawn); try (by apply served_insert);
    (apply (served_frame s); [done|done|done|rewrite ?El; cbn; first [by left|by right]
       |cbn; rewrite ?El; cbn; intros c0; first [by left|intros [= <-]; by right]]).
Qed.

Lemma served_main l s s' : served s → main_step l s = Some s' → served s'.
Proof.
  intros Hsv Hs. unfold main_step in Hs. destruct l; try done; repeat case_match; simplify_eq;
    try done; (apply (served_frame s); [done|done|done|by right|by left]).
Qed.

Lemma step_cases l s s' :
  step l s = Some s' → c_alive s = true ∧
  ((∃ t p, threads s !! t = Some p ∧ producer_step l t p s = Some s')
   ∨ loop_step l s = Some s' ∨ main_step l s = Some s').
Proof.
  unfold step. intros Hs. destruct (c_alive s); [|done]. split; [done|].
  destruct (label_thread l) as [t|] eqn:El.
  - destruct (threads s !! t) as [p|] eqn:Hp; [|done]. left. eauto.
  - right. destruct l; try done; eauto.
Qed.

Lemma served_step l s s' : served s → step l s = Some s' → served s'.
Proof.
  intros Hsv [_ [(t & p & Hp & Hs)|[Hs|Hs]]]%step_cases;
    [by eapply served_producer|by eapply served_loop|by eapply served_main].
Qed.

Lemma served_reachable s : reachable s → served s.
Proof. induction 1; [apply served_start|by eapply served_step]. Qed.

(** *** Where the messages are *)

Definition at_key (k : bytes) (l : list (bytes * bytes)) : list bytes := (filter (λ x, x.1 = k) l).*2.

(** The message a producer holds, when its queue is [k]. *)
Definition in_hand (k : bytes) (p : producer) : list bytes :=
  if decide (queue_key (p_real_dest p) = k) then
    match p_pc p with PPutting m | PRequeue m => [m] | _ => [] end
  else [].
Definition in_flight (k : bytes) (ts : list producer) : list bytes := concat (map (in_hand k) ts).

Definition cnt (m : bytes) (l : list bytes) : nat := count_occ (λ a b, decide (a = b)) l m.

Lemma cnt_app m l l' : cnt m (l ++ l') = (cnt m l + cnt m l')%nat.
Proof. apply count_occ_app. Qed.

Lemma cnt_cons m a l : cnt m (a :: l) = ((if decide (a = m) then 1 else 0) + cnt m l)%nat.
Proof. unfold cnt. cbn. by case_decide. Qed.

Lemma cnt_permutation l l' : (∀ m, cnt m l = cnt m l') → l ≡ₚ l'.
Proof. intros H. by apply (Permutation_count_occ (λ a b, decide (a = b))). Qed.

Lemma at_key_cons k k' m l :
  at_key k ((k', m) :: l) = if decide (k' = k) then m :: at_key k l else at_key k l.
Proof. unfold at_key. rewrite filter_cons. cbn. by case_decide. Qed.

Lemma in_flight_cons k p ts : in_flight k (p :: ts) = in_hand k p ++ in_flight k ts.
Proof. done. Qed.

Lemma in_flight_insert m k ts t p p' :
  ts !! t = Some p →
  (cnt m (in_flight k (<[t := p']> ts)) + cnt m (in_hand k p)
   = cnt m (in_flight k ts) + cnt m (in_hand k p'))%nat.
Proof.
  revert t. induction ts as [|q ts IH]; intros [|t] Hp; try done.
  - injection Hp as ->. change (<[0%nat := p']> (p :: ts)) with (p' :: ts).
    rewrite !in_flight_cons, !cnt_app. lia.
  - change (<[S t := p']> (q :: ts)) with (q :: <[t := p']> ts).
    rewrite !in_flight_cons, !cnt_app. specialize (IH t Hp). lia.
Qed.

(** Every message of queue [k], wherever it came from, is in one place. *)
Definition balanced (k : bytes) (s : cstate) : Prop :=
  ∀ m, (cnt m (at_key k (c_put s)) + cnt m (at_key k (c_made s))
        = cnt m (queue_of s k) + cnt m (in_flight k (threads s))
          + cnt m (at_key k (c_sent s)) + cnt m (at_key k (c_lost s)))%nat.

Lemma queue_of_set k k' q s :
  queue_of (set_queue k' q s) k = if decide (k' = k) then q else queue_of s k.
Proof. unfold queue_of. cbn. rewrite lookup_insert. by case_decide. Qed.

Lemma queue_of_threads ts s k : queue_of (set_threads ts s) k = queue_of s k.
Proof. done. Qed.
Lemma queue_of_history a b c d s k : queue_of (set_history a b c d s) k = queue_of s k.
Proof. done. Qed.
Lemma queue_of_pending a b s k : queue_of (set_pending a b s) k = queue_of s k.
Proof. done. Qed.
Lemma queue_of_metrics ms s k : queue_of (set_metric_list ms s) k = queue_of s k.
Proof. done. Qed.
Lemma queue_of_producers ps s k : queue_of (set_producers ps s) k = queue_of s k.
Proof. done. Qed.
#[local] Hint Rewrite queue_of_threads queue_of_history queue_of_pending queue_of_metrics
  queue_of_producers queue_of_set at_key_cons cnt_app cnt_cons : counts.

Lemma balanced_crash k s : balanced k s → balanced k (crash s).
Proof. done. Qed.

(** Brings a step's effect on the counts to arithmetic. *)
Ltac count_cases :=
  autorewrite with counts in *;
  cbn [threads c_put c_made c_sent c_lost set_threads set_history set_queue set_pending
       set_metric_list set_producers] in *;
  rewrite ?at_key_cons in *;
  unfold in_hand in *; cbn [p_real_dest p_pc p_conn_str] in *;
  repeat (case_decide; simplify_eq);
  repeat match goal with E : queue_of _ _ = _ |- _ => rewrite E in * end;
  rewrite ?cnt_app, ?cnt_cons in *; change (cnt _ []) with 0%nat in *;
  repeat (case_decide; simplify_eq); try lia.

Lemma balanced_producer k l t p s s' :
  balanced k s → threads s !! t = Some p → producer_step l t p s = Some s' → balanced k s'.
Proof.
  intros Hb Hp Hs m. specialize (Hb m). unfold producer_step in Hs.
  destruct p as [c d pc]. cbn [p_conn_str p_real_dest p_pc] in Hs.
  destruct l, pc; cbn in Hs; try done; repeat case_match; simplify_eq;
    try (erewrite set_pc_eq by exact Hp); try done;
    match goal with
    | |- context [<[t := ?p']> _] => pose proof (in_flight_insert m k _ t _ p' Hp) as Hi
    end.
  all: count_cases.
Qed.

Lemma balanced_main k l s s' : balanced k s → main_step l s = Some s' → balanced k s'.
Proof.
  intros Hb Hs m. specialize (Hb m). unfold main_step in Hs.
  destruct l; try done; repeat case_match; simplify_eq; count_cases.
Qed.

Lemma balanced_loop k l s s' : balanced k s → loop_step l s = Some s' → balanced k s'.
Proof.
  intros Hb Hs m. specialize (Hb m). unfold loop_step in Hs.
  destruct l, (c_loop s) as [|[|[c d] rest]|c d rest|c d rest|c d rest|c rest|] eqn:El;
    try done; repeat case_match; simplify_eq; try exact Hb.
  - match goal with
    | |- context [queue_of ?s' k] => assert (queue_of s' k = queue_of s k) as ->; [|exact Hb]
    end.
    unfold queue_of. cbn [queues set_loop set_branch]. rewrite lookup_insert.
    by destruct (decide (queue_key d = k)) as [<-|].
  - assert (in_flight k (threads s ++ [mkProducer c d PConnecting]) = in_flight k (threads s)) as He;
      [|unfold balanced in *; cbn [threads set_loop set_threads]; rewrite He; exact Hb].
    assert (concat (map (in_hand k) [mkProducer c d PConnecting]) = []) as Hnil
      by (cbn; unfold in_hand; cbn; by case_decide).
    unfold in_flight. by rewrite map_app, concat_app, Hnil, app_nil_r.
Qed.

Lemma balanced_reachable k s : reachable s → balanced k s.
Proof.
  induction 1 as [|s l s' _ IH Hs]; [done|].
  apply step_cases in Hs as [_ [(t & p & Hp & Hs)|[Hs|Hs]]];
    [by eapply balanced_producer|by eapply balanced_loop|by eapply balanced_main].
Qed.

(** *** The pending counter *)

(** A producer whose message is with the socket and not yet counted. *)
Definition owes (p : producer) : Z := match p_pc p with PDecPending => 1 | _ => 0 end.
Definition owed (ts : list producer) : Z := foldr (λ p n, owes p + n) 0 ts.

Lemma owed_cons p ts : owed (p :: ts) = owes p + owed ts.
Proof. done. Qed.

Lemma owed_snoc ts p : owed (ts ++ [p]) = owed ts + owes p.
Proof.
  induction ts as [|q ts IH]; [by cbn; rewrite Z.add_0_r|].
  change ((q :: ts) ++ [p]) with (q :: (ts ++ [p])). rewrite !owed_cons, IH. lia.
Qed.

Lemma owed_insert ts t p p' :
  ts !! t = Some p → owed (<[t := p']> ts) + owes p = owed ts + owes p'.
Proof.
  revert t. induction ts as [|q ts IH]; intros [|t] Hp; try done.
  - injection Hp as ->. change (<[0%nat := p']> (p :: ts)) with (p' :: ts).
    rewrite !owed_cons. lia.
  - change (<[S t := p']> (q :: ts)) with (q :: <[t := p']> ts).
    rewrite !owed_cons. specialize (IH t Hp). lia.
Qed.

Definition accounted (s : cstate) : Prop :=
  pending_counter s = uint_wrap (c_added s - zlen (c_sent s) + owed (threads s)).

Lemma accounted_producer l t p s s' :
  accounted s → threads s !! t = Some p → producer_step l t p s = Some s' → accounted s'.
Proof.
  unfold accounted. intros Ha Hp Hs. unfold producer_step in Hs.
  destruct p as [c d pc]. cbn [p_conn_str p_real_dest p_pc] in Hs.
  destruct l, pc; cbn in Hs; try done; repeat case_match; simplify_eq;
    try (erewrite set_pc_eq by exact Hp); try exact Ha;
    match goal with
    | |- context [<[t := ?p']> _] => pose proof (owed_insert _ t _ p' Hp) as Hi
    end;
    cbn [threads pending_counter c_added c_sent set_threads set_history set_queue set_pending
         set_metric_list set_producers owes p_pc] in *;
    try rewrite zlen_cons; try rewrite Ha; unfold uint_wrap in *;
    try rewrite wrap_sub_l; f_equal; lia.
Qed.

Lemma accounted_loop l s s' : accounted s → loop_step l s = Some s' → accounted s'.
Proof.
  unfold accounted. intros Ha Hs. unfold loop_step in Hs.
  destruct l, (c_loop s) as [|[|[c d] rest]|c d rest|c d rest|c d rest|c rest|] eqn:El;
    try done; repeat case_match; simplify_eq; try exact Ha.
  cbn [threads pending_counter c_added c_sent set_threads set_loop].
  rewrite owed_snoc. cbn [owes p_pc]. by rewrite Z.add_0_r.
Qed.

Lemma accounted_main l s s' : accounted s → main_step l s = Some s' → accounted s'.
Proof.
  unfold accounted. intros Ha Hs. unfold main_step in Hs.
  destruct l; try done; repeat case_match; simplify_eq; try exact Ha.
  cbn [threads pending_counter c_added c_sent set_pending]. rewrite Ha.
  unfold uint_wrap. rewrite wrap_add_l. f_equal. lia.
Qed.

Lemma accounted_reachable s : reachable s → accounted s.
Proof.
  induction 1 as [|s l s' _ IH Hs]; [done|].
  apply step_cases in Hs as [_ [(t & p & Hp & Hs)|[Hs|Hs]]];
    [by eapply accounted_producer|by eapply accounted_loop|by eapply accounted_main].
Qed.

Lemma reachable_run ls s s' : reachable s → run ls s = Some s' → reachable s'.
Proof.
  revert s. induction ls as [|l ls IH]; intros s Hr; cbn; [by intros [= <-]|].
  destruct (step l s) as [s1|] eqn:Hs; [|done]. apply IH. by eapply reach_step.
Qed.

(** *** A forgotten subscriber *)

(** In the set, with no producer and none being started. *)
Record forgotten (c : bytes) (s : cstate) : Prop := {
  forgotten_known : c ∈ producer_set s;
  forgotten_dead i p : threads s !! i = Some p → live p → p_conn_str p ≠ c;
  forgotten_idle : looking (c_loop s) ≠ Some c ∧ inserting (c_loop s) ≠ Some c }.

(** The producers ever started for an address. *)
Definition started_for (c : bytes) (s : cstate) : list producer :=
  filter (λ p, p_conn_str p = c) (threads s).

Lemma started_insert c ts t p p' :
  ts !! t = Some p → p_conn_str p' = p_conn_str p →
  length (filter (λ p, p_conn_str p = c) (<[t := p']> ts))
  = length (filter (λ p, p_conn_str p = c) ts).
Proof.
  intros Hp He. revert t Hp. induction ts as [|q ts IH]; intros [|t] Hp; try done.
  - injection Hp as ->. change (<[0%nat := p']> (p :: ts)) with (p' :: ts).
    rewrite !filter_cons, He. by case_decide.
  - change (<[S t := p']> (q :: ts)) with (q :: <[t := p']> ts).
    rewrite !filter_cons. case_decide; cbn; by rewrite IH.
Qed.

Lemma forgotten_step c l s s' :
  forgotten c s → step l s = Some s' →
  forgotten c s' ∧ length (started_for c s') = length (started_for c s).
Proof.
  intros [Hk Hd [Hl1 Hl2]] [_ [(t & p & Hp & Hs)|[Hs|Hs]]]%step_cases; unfold started_for.
  - destruct (producer_step_frame l t p s s' Hp Hs) as [Hlive Hl _ _ Hm].
    assert (Hc : p_conn_str p ≠ c) by (by eapply Hd).
    destruct Hm as [[Hset [Ht|(pc & _ & Ht)]]|[Hset Ht]]; rewrite Ht;
      (split; [split; rewrite ?Hset, ?Hl; [set_solver| |done]|]);
      rewrite ?Ht; try exact Hd; try (by eapply started_insert); try done;
      intros i q [(<- & <- & _)|[_ Hq]]%list_lookup_insert_Some Hql; try done; by eapply Hd.
  - unfold loop_step in Hs.
    destruct l, (c_loop s) as [|[|[c0 d] rest]|c0 d rest|c0 d rest|c0 d rest|c0 rest|] eqn:El;
      try done; repeat case_match; simplify_eq; cbn in Hl1, Hl2.
    all: try (split; [split; cbn; try done; try set_solver; try congruence|done]).
    all: try (rewrite El; split; done).
    split; [split; cbn; [done| |split; congruence]|].
    + intros i q [Hq|[_ Hq]]%lookup_app_Some; [by eapply Hd|].
      apply list_lookup_singleton_Some in Hq as [_ <-]. cbn. congruence.
    + cbn. rewrite filter_app, filter_cons. cbn. rewrite decide_False by congruence.
      by rewrite app_nil_r.
  - unfold main_step in Hs. destruct l; try done; repeat case_match; simplify_eq; done.
Qed.

Lemma forgotten_run c ls s s' :
  forgotten c s → run ls s = Some s' →
  forgotten c s' ∧ length (started_for c s') = length (started_for c s).
Proof.
  revert s. induction ls as [|l ls IH]; intros s Hf; cbn; [by intros [= <-]|].
  destruct (step l s) as [s1|] eqn:Hs; [|done]. intros Hr.
  destruct (forgotten_step c l s s1 Hf Hs) as [Hf1 Hl1].
  destruct (IH s1 Hf1 Hr) as [? Hl2]. split; [done|congruence].
Qed.

(** *** One pass over the list, nothing in between *)

(** The labels of the pass, and the producers it starts. *)
Fixpoint pass_labels (opt : option bytes) (set : gset bytes) (subs : list (bytes * bytes))
  : list label :=
  match subs with
  | [] => []
  | (c, d) :: subs' =>
      if decide (c ∈ set) then LVisit :: pass_labels opt set subs'
      else [LVisit; LBranch opt true; LMetric; LSpawn; LInsert]
           ++ pass_labels opt ({[c]} ∪ set) subs'
  end.
Fixpoint missing (set : gset bytes) (subs : list (bytes * bytes)) : list (bytes * bytes) :=
  match subs with
  | [] => []
  | (c, d) :: subs' =>
      if decide (c ∈ set) then missing set subs' else (c, d) :: missing ({[c]} ∪ set) subs'
  end.

Lemma run_app ls1 ls2 s : run (ls1 ++ ls2) s = s1 ← run ls1 s; run ls2 s1.
Proof.
  revert s. induction ls1 as [|l ls1 IH]; intros s; cbn; [done|].
  destruct (step l s); cbn; [apply IH|done].
Qed.

(** The producers of [ps] have a branch and a counter. *)
Definition provided (ds : list bytes) (s : cstate) : Prop :=
  Forall (λ d, ExistsBranch d (filter_ s) = true
               ∧ is_Some (find_metric d (metric_list s))) ds.

Lemma exists_add d d' p (t : Tee unit) :
  ExistsBranch d (AddBranch d' p t) = bool_decide (d = d') || ExistsBranch d t.
Proof.
  unfold ExistsBranch, AddBranch. cbn. rewrite lookup_insert.
  destruct (decide (d' = d)) as [->|Hne]; [by rewrite (bool_decide_true (d = d)) by done|].
  by rewrite (bool_decide_false (d = d')) by congruence.
Qed.

Lemma find_ensure d d' ms :
  is_Some (find_metric d (ensure_metric d' ms)) ↔ d = d' ∨ is_Some (find_metric d ms).
Proof.
  unfold ensure_metric. destruct (find_metric d' ms) as [m|] eqn:E.
  - split; [by right|]. intros [->|?]; [by rewrite E|done].
  - unfold find_metric at 1. cbn. case_bool_decide as Hn; cbn.
    + split; [by left|]. eauto.
    + change (find _ ms) with (find_metric d ms). split; [by right|]. intros [->|?]; done.
Qed.

(** The five statements for an address that has no producer. *)
Lemma run_one opt c d rest s :
  c_alive s = true → c_loop s = Visiting ((c, d) :: rest) → c ∉ producer_set s → d ≠ [] →
  ∃ s', run [LVisit; LBranch opt true; LMetric; LSpawn; LInsert] s = Some s'
    ∧ c_alive s' = true ∧ c_loop s' = Visiting rest
    ∧ producer_set s' = {[c]} ∪ producer_set s
    ∧ threads s' = threads s ++ [mkProducer c d PConnecting]
    ∧ (∀ ds, provided ds s → provided (d :: ds) s').
Proof.
  intros Ha El Hc Hd.
  pose (s1 := set_loop (Branching c d rest) s).
  assert (step LVisit s = Some s1) as H1.
  { unfold step. rewrite Ha. cbn. rewrite El. by rewrite decide_False. }
  assert (∃ s2, step (LBranch opt true) s1 = Some s2 ∧ c_alive s2 = true
    ∧ c_loop s2 = Metering c d rest ∧ producer_set s2 = producer_set s
    ∧ threads s2 = threads s ∧ metric_list s2 = metric_list s
    ∧ ExistsBranch d (filter_ s2) = true
    ∧ ∀ e, ExistsBranch e (filter_ s) = true → ExistsBranch e (filter_ s2) = true)
    as (s2 & H2 & Ha2 & El2 & Hs2 & Ht2 & Hm2 & Hd2 & He2).
  { unfold step. cbn [s1 c_alive set_loop c_loop label_thread loop_step filter_]. rewrite Ha.
    destruct (ExistsBranch d (filter_ s)) eqn:Hx; [eexists; by split_and!|].
    rewrite decide_False by done. eexists. split; [done|]. split_and!; try done; cbn [filter_ set_loop set_branch].
    - rewrite exists_add. by rewrite bool_decide_true.
    - intros e Hx'. rewrite exists_add, Hx'. apply orb_true_r. }
  pose (s5 := set_loop (Visiting rest) (set_producers ({[c]} ∪ producer_set s2)
    (set_loop (Inserting c rest) (set_threads (threads s2 ++ [mkProducer c d PConnecting])
      (set_loop (Spawning c d rest) (set_metric_list (ensure_metric d (metric_list s2)) s2)))))).
  exists s5. split.
  { cbn [run]. rewrite H1. cbn. rewrite H2. cbn. unfold step. rewrite Ha2. cbn.
    rewrite El2. cbn. rewrite Ha2. cbn. rewrite Ha2. done. }
  cbn. rewrite Ha2, Hs2, Ht2. split_and!; try done.
  intros ds Hds. constructor; cbn [filter_ metric_list s5 set_loop set_producers set_threads set_metric_list].
  - split; [done|]. apply find_ensure. by left.
  - eapply Forall_impl; [exact Hds|]. cbn. intros e [He Hf]. split; [by apply He2|].
    apply find_ensure. right. by rewrite Hm2.
Qed.

Lemma run_pass opt subs s :
  c_alive s = true → c_loop s = Visiting subs → Forall (λ t, t.2 ≠ []) subs →
  ∃ s', run (pass_labels opt (producer_set s) subs) s = Some s'
    ∧ c_loop s' = Visiting []
    ∧ producer_set s' = list_to_set subs.*1 ∪ producer_set s
    ∧ threads s' = threads s
        ++ map (λ t, mkProducer t.1 t.2 PConnecting) (missing (producer_set s) subs)
    ∧ (∀ ds, provided ds s → provided (reverse (missing (producer_set s) subs).*2 ++ ds) s').
Proof.
  intros Ha El Hd. revert s Ha El. induction Hd as [|[c d] subs Hcd Hd IH]; intros s Ha El.
  { exists s. cbn. rewrite app_nil_r. split_and!; try done. set_solver. }
  cbn in Hcd. cbn [pass_labels missing]. destruct (decide (c ∈ producer_set s)) as [Hin|Hni].
  - pose (s1 := set_loop (Visiting subs) s).
    assert (step LVisit s = Some s1) as H1.
    { unfold step. rewrite Ha. cbn. rewrite El. by rewrite decide_True. }
    destruct (IH s1 Ha eq_refl) as (s' & Hr & Hl & Hs & Ht & Hp).
    exists s'. cbn [run]. rewrite H1. split; [exact Hr|]. split; [done|].
    split; [rewrite Hs; cbn; set_solver|]. done.
  - destruct (run_one opt c d subs s Ha El Hni Hcd) as (s1 & Hr1 & Ha1 & El1 & Hs1 & Ht1 & Hp1).
    destruct (IH s1 Ha1 El1) as (s' & Hr & Hl & Hs & Ht & Hp). rewrite Hs1 in *.
    exists s'. split; [by rewrite run_app, Hr1|]. split; [done|].
    split; [rewrite Hs; cbn; set_solver|].
    split; [by rewrite Ht, Ht1, <- app_assoc|].
    intros ds Hds%Hp1%Hp. by rewrite fmap_cons, reverse_cons, <- app_assoc.
Qed.

(** The connector has reached the branch of the one subscriber [c] in the list. *)
Lemma reach_metering (c d : bytes) :
  d ≠ [] → ∃ s, reachable s ∧ c_alive s = true ∧ c_loop s = Metering c d []
    ∧ producer_set s = ∅ ∧ threads s = [].
Proof.
  intros Hd.
  pose (s1 := set_loop (Visiting [(c, d)]) start).
  assert (R1 : reachable s1) by (eapply (reach_step _ (LList [(c, d)])); [apply reach_start|done]).
  assert (∃ s2, run [LVisit; LBranch None true] s1 = Some s2 ∧ c_alive s2 = true
    ∧ c_loop s2 = Metering c d [] ∧ producer_set s2 = ∅ ∧ threads s2 = [])
    as (s2 & Hr2 & ?); [|by exists s2; split; [eapply reachable_run|]].
  assert (step LVisit s1 = Some (set_loop (Branching c d []) s1)) as Hv.
  { unfold step. cbn [c_alive s1 set_loop start label_thread loop_step c_loop producer_set].
    by rewrite decide_False by set_solver. }
  cbn [run]. rewrite Hv. cbn [mbind option_bind]. unfold step. cbn [c_alive set_loop label_thread loop_step c_loop filter_ s1 start].
  assert (ExistsBranch d (Tee_init 0 0 tt) = false) as ->.
  { unfold ExistsBranch. cbn. rewrite lookup_empty. apply bool_decide_false. by intros []. }
  rewrite decide_False by done. eexists. split; [reflexivity|]. done.
Qed.

(** A producer that fails before its address is inserted. *)
Lemma reach_forgotten (c d : bytes) :
  d ≠ [] → ∃ s, reachable s ∧ c_alive s = true ∧ forgotten c s.
Proof.
  intros Hd. destruct (reach_metering c d Hd) as (s2 & R2 & Ha2 & El2 & Hs2 & Ht2).
  pose (x1 := set_loop (Spawning c d []) (set_metric_list (ensure_metric d (metric_list s2)) s2)).
  assert (R3 : reachable x1).
  { apply (reach_step s2 LMetric); [done|]. unfold step. rewrite Ha2.
    cbn [label_thread loop_step]. by rewrite El2. }
  pose (p0 := mkProducer c d PConnecting).
  pose (x2 := set_loop (Inserting c []) (set_threads (threads x1 ++ [p0]) x1)).
  assert (R4 : reachable x2).
  { apply (reach_step x1 LSpawn); [done|]. unfold step. change (c_alive x1) with (c_alive s2).
    by rewrite Ha2. }
  assert (T2 : threads x2 = [p0]) by (change (threads x2) with (threads s2 ++ [p0]); by rewrite Ht2).
  pose (x3 := set_threads [mkProducer c d PErasing] x2).
  assert (R5 : reachable x3).
  { apply (reach_step x2 (LConnect 0 false)); [done|]. unfold step.
    change (c_alive x2) with (c_alive s2). rewrite Ha2. cbn [label_thread]. rewrite T2.
    cbn [mbind option_bind lookup list_lookup producer_step p_pc p0 p_real_dest].
    by rewrite (set_pc_eq 0 _ x2 p0), T2 by by rewrite T2. }
  pose (x4 := set_threads [mkProducer c d PDone] (set_producers (producer_set s2 ∖ {[c]}) x3)).
  assert (R6 : reachable x4).
  { apply (reach_step x3 (LErase 0)); [done|]. unfold step.
    change (c_alive x3) with (c_alive s2). rewrite Ha2. done. }
  pose (x5 := set_loop (Visiting []) (set_producers ({[c]} ∪ producer_set x4) x4)).
  assert (Hf : forgotten c x5).
  { split; cbn [producer_set set_loop set_producers threads c_loop x5]; [set_solver| |done].
    intros [|i] p Hp; [|done]. injection Hp as <-. by intros []. }
  exists x5. split; [|by split].
  apply (reach_step x4 LInsert); [done|]. unfold step.
  change (c_alive x4) with (c_alive s2). by rewrite Ha2.
Qed.

(** ** Properties *)

(** C3: no subscriber is ever served by two producers, in any interleaving: two
    producers with one address that have not returned are the same thread. *)
Theorem one_producer_per_subscriber s i j p q :
  reachable s → threads s !! i = Some p → threads s !! j = Some q → live p → live q →
  p_conn_str p = p_conn_str q → i = j.
Proof. intros Hr. by apply served_one, served_reachable. Qed.

(** C1: no message vanishes or is duplicated, in any interleaving: the messages
    put on a queue, with the empty ones interrupted receives made, are those still
    in it, those a producer holds, those a socket took and those a full queue
    refused to take back. *)
Theorem messages_conserved s k :
  reachable s →
  at_key k (c_put s) ++ at_key k (c_made s)
  ≡ₚ queue_of s k ++ in_flight k (threads s) ++ at_key k (c_sent s) ++ at_key k (c_lost s).
Proof.
  intros Hr. apply cnt_permutation. intros m. pose proof (balanced_reachable k s Hr m) as Hb.
  rewrite !cnt_app. lia.
Qed.

(** The pending counter is, modulo 2^32 and up to the producers that have sent
    a message and not counted it yet, what the main thread added less the messages
    that sockets took: a message that was lost, or that was added without being
    put, is never taken off. *)
Theorem pending_counter_accounts s :
  reachable s →
  pending_counter s = uint_wrap (c_added s - zlen (c_sent s) + owed (threads s)).
Proof. intros Hr. by apply accounted_reachable. Qed.

(** One pass over the list of subscribers, when nothing else runs, starts
    exactly one producer for each address that is not in the set, for the first of
    its entries, and remembers every address; each producer's branch and counter
    exist by the time the pass ends. *)
Theorem pass_starts_missing opt subs s :
  c_alive s = true → c_loop s = Visiting subs → Forall (λ t, t.2 ≠ []) subs →
  ∃ s', run (pass_labels opt (producer_set s) subs) s = Some s'
    ∧ producer_set s' = list_to_set subs.*1 ∪ producer_set s
    ∧ threads s' = threads s
        ++ map (λ t, mkProducer t.1 t.2 PConnecting) (missing (producer_set s) subs)
    ∧ Forall (λ t, ExistsBranch t.2 (filter_ s') = true
                   ∧ is_Some (find_metric t.2 (metric_list s'))) (missing (producer_set s) subs).
Proof.
  intros Ha El Hd. destruct (run_pass opt subs s Ha El Hd) as (s' & Hr & _ & Hs & Ht & Hp).
  exists s'. split; [done|]. split; [done|]. split; [done|].
  specialize (Hp [] (Forall_nil_2 _)). rewrite app_nil_r in Hp. unfold provided in Hp.
  rewrite Forall_reverse, Forall_fmap in Hp. done.
Qed.

(** A subscriber can be forgotten for good: a producer that fails to connect
    before the connector has remembered it erases an address that is not there yet,
    and the insertion that follows is never undone.  A state in which the address
    is in the set with no producer is reached from the start, and from it no
    sequence of steps of any thread takes the address out or starts a producer for
    it. *)
Theorem forgotten_subscriber (c d : bytes) :
  d ≠ [] → ∃ s, reachable s ∧ c_alive s = true
    ∧ ∀ ls s', run ls s = Some s' →
        c ∈ producer_set s' ∧ (∀ i p, threads s' !! i = Some p → live p → p_conn_str p ≠ c)
        ∧ length (started_for c s') = length (started_for c s).
Proof.
  intros Hd. destruct (reach_forgotten c d Hd) as (s & Hr & Ha & Hf).
  exists s. split; [done|]. split; [done|]. intros ls s' Hrun.
  destruct (forgotten_run c ls s s' Hf Hrun) as [[Hk Hd' _] Hl]. done.
Qed.

(** ** Witnesses *)

Module ConnectorExample.

Definition addr : bytes := str "a".
Definition queue : bytes := str "q".

(** A subscriber appears, is connected, and receives one of two messages; the
    other one is with its producer. *)
Definition labels : list label :=
  [LList [(addr, queue)]; LVisit; LBranch None true; LMetric; LSpawn; LInsert;
   LConnect 0 true; LOpen 0 true; LPub queue (str "x") true; LPub queue (str "y") true; LPending 2;
   LGet 0; LPut 0 true; LCount 0; LCount 0; LCount 0; LGet 0].

Definition state : cstate := default start (run labels start).

Lemma state_run : run labels start = Some state.
Proof. vm_compute. reflexivity. Qed.

Lemma state_reachable : reachable state.
Proof. eapply reachable_run; [apply reach_start|exact state_run]. Qed.

(** Two entries of one address and a new one. *)
Definition listing : cstate := set_loop (Visiting [(addr, queue); (addr, str "r"); (str "b", queue)]) start.

End ConnectorExample.

Lemma one_producer_per_subscriber_witness :
  threads ConnectorExample.state !! 0%nat
  = Some (mkProducer ConnectorExample.addr ConnectorExample.queue (PPutting (str "y")))
  ∧ (0 = 0)%nat.
Proof.
  split; [vm_compute; reflexivity|].
  apply (one_producer_per_subscriber ConnectorExample.state 0 0
    (mkProducer ConnectorExample.addr ConnectorExample.queue (PPutting (str "y")))
    (mkProducer ConnectorExample.addr ConnectorExample.queue (PPutting (str "y"))));
    [exact ConnectorExample.state_reachable|vm_compute; reflexivity|vm_compute; reflexivity
    |done|done|reflexivity].
Defined.

Lemma messages_conserved_witness :
  at_key ConnectorExample.queue (c_put ConnectorExample.state)
  ++ at_key ConnectorExample.queue (c_made ConnectorExample.state)
  ≡ₚ queue_of ConnectorExample.state ConnectorExample.queue
     ++ in_flight ConnectorExample.queue (threads ConnectorExample.state)
     ++ at_key ConnectorExample.queue (c_sent ConnectorExample.state)
     ++ at_key ConnectorExample.queue (c_lost ConnectorExample.state).
Proof. exact (messages_conserved ConnectorExample.state ConnectorExample.queue ConnectorExample.state_reachable). Defined.

Lemma pending_counter_accounts_witness :
  pending_counter ConnectorExample.state
  = uint_wrap (c_added ConnectorExample.state - zlen (c_sent ConnectorExample.state)
               + owed (threads ConnectorExample.state)).
Proof. exact (pending_counter_accounts ConnectorExample.state ConnectorExample.state_reachable). Defined.

Lemma pass_starts_missing_witness :
  ∃ s', run (pass_labels None ∅ [(ConnectorExample.addr, ConnectorExample.queue);
                                 (ConnectorExample.addr, str "r");
                                 (str "b", ConnectorExample.queue)]) ConnectorExample.listing = Some s'
    ∧ threads s' = map (λ t, mkProducer t.1 t.2 PConnecting)
        (missing ∅ [(ConnectorExample.addr, ConnectorExample.queue); (ConnectorExample.addr, str "r");
                    (str "b", ConnectorExample.queue)]).
Proof.
  destruct (pass_starts_missing None [(ConnectorExample.addr, ConnectorExample.queue);
      (ConnectorExample.addr, str "r"); (str "b", ConnectorExample.queue)] ConnectorExample.listing)
    as (s' & Hr & _ & Ht & _).
  - reflexivity.
  - reflexivity.
  - by apply (bool_decide_eq_true_1 _).
  - exists s'. split; [exact Hr|exact Ht].
Defined.

Lemma forgotten_subscriber_witness :
  ∃ s, reachable s ∧ c_alive s = true
    ∧ ∀ ls s', run ls s = Some s' → str "10.0.0.1:80" ∈ producer_set s'
        ∧ (∀ i p, threads s' !! i = Some p → live p → p_conn_str p ≠ str "10.0.0.1:80")
        ∧ length (started_for (str "10.0.0.1:80") s') = length (started_for (str "10.0.0.1:80") s).
Proof. apply (forgotten_subscriber (str "10.0.0.1:80") (str "foo")). done. Defined.
